(* ===== verification/_CoqProject ===== *)
-Q . S2P
Prelude.v
Types.v
Period.v
UnionFind.v
Rows.v
Group.v
Runs.v
Decimal.v
Facts.v
Winners.v
Derive.v
Validity.v
CorpAct.v
Mic.v
Ingest.v
Tickers.v
Calendar.v
CorpActStore.v
Holding.v
Coverage.v
Splits.v
Bounds.v
ValidityStore.v
Rebuilding.v
Market.v
Resolution.v
Claims.v
ClaimSpec.v
Choose.v
Fetch.v
InstrStore.v
Merge.v
Record.v
Statements.v
Recording.v
Writer.v
Write.v
Outcome.v
Sources.v
Dated.v
Stmts.v
Resolve.v
Resolving.v
Reassert.v
Refresh.v
Replay.v
