(* ===== verification/Prelude.v ===== *)
(** Stonks, a tracker of portfolios: a model of the server's core
    ([server/internal]) and the theorems that make it correct.

    * The program

    A user submits a statement: one batch of transactions at one broker over a
    period, each of a line named by a stated key: a class, a currency and some
    identifiers. The statement's run replaces the period with its rows. The server resolves each key to an
    instrument of its own. Where a key states only a ticker, it is dated instead:
    each transaction of it takes the instrument that the ticker named on its day.
    What a ticker named on a day is its ticker validity, derived from the
    identifier facts that datasources answer. A holding is then the sum of a
    user's transactions of one instrument, restated to today by the corporate
    actions of the instrument's tickers. The parts interact so:

    - [stmt] reads a statement and queues its run; [run] executes the runs, those
      of one user and lane in order, and keeps their rows;
    - [resolve] takes the keys of a run. It looks each up among the instruments,
      dates it, asks the datasources for its identity, chooses among their
      answers, writes the instrument chosen, and records the facts of tickers;
    - [market] is what it asks: one fetch for each datasource, whose calls wait,
      pause and retry, and whose answers are cached and stored as fetch keys;
    - [tickervalidity] derives the validity of a ticker from the facts of the
      tables, and stores it beside them, under the lock of the ticker's row;
    - [tickers], [mic] and [currency] spell what the others name;
    - [group] gathers the keys no instrument is known for;
    - [corpact] records the corporate actions a datasource reports, weighs them
      against the splits that statements state, and makes the calendar that
      restates a quantity;
    - [holding] sums, and [coverage] lists the days whose instrument is not
      confirmed.

    * The files

    The files follow the packages, each after those it calls. A definition has
    its Go name where Rocq allows it; a loop, a closure or a literal that Rocq
    makes a definition of its own has the name of what it computes.

    - [Prelude]: results, errors, folds that may fail, the sorts and searches of
      [slices], and the lemmas on lists, options and orders the files share.
    - [Types], [Period], [Rows], [Mic], [Decimal]: [types], the rows of the
      schema, [mic], [currency], [market/identifier.go], and what the code asks
      of [decimal.Decimal] and [big.Rat].
    - [Runs]: [run], as steps of its goroutines over the table of runs.
    - [Ingest], [Stmts]: [validate.go], [stmt.go], [write.go] of [stmt]: what a
      statement states, and the tables it is recorded and written in.
    - [UnionFind], [Group]: the union-find that [group.go] and [claim.go] share,
      proved once against an interface of its store, and [group.go].
    - [Facts], [Winners], [Derive], [Validity], [Bounds]: [derive.go],
      [gaps.go] and the naming of [resolved.go] in [tickervalidity].
    - [Tickers], [Calendar], [ValidityStore]: [tickers.go], [store.go] and
      [resolved.go] with the statements on [tickers], [identifier_assertions],
      [ticker_validity] and [resolved_tickers]; [calendar.go] and [read.go] of
      [corpact].
    - [Rebuilding], [Refresh]: [run/rebuildtickervalidity], which rebuilds every
      ticker a batch at a time, and [run/refreshcorpacts], which chooses the
      corporate actions to fetch.
    - [CorpAct], [CorpActStore], [Splits]: the rest of [corpact].
    - [Holding], [Coverage]: [service/holding] and [identity/coverage].
    - [Market], [Fetch], [Sources]: [market]: fetch keys, the fetch, the retries
      and the limiter of a datasource, and what the resolver sees of them.
    - [Resolution], [Claims], [Choose]: [instr.go], [claim.go], [choose.go],
      [candidate.go] and [reason.go] of [identity/resolve]: from a datasource's
      listings to claims, and from claims to a verdict or to candidates.
      [ClaimSpec] says what claims state of each other without the code's
      functions, for the theorems of [Choose].
    - [InstrStore], [Statements], [Merge], [Record], [Recording], [Writer],
      [Write], [Outcome]: the tables of instruments with their constraints, the
      transactions on them, and [target.go], [merge.go], [writer.go], [write.go]
      of [identity/resolve] and [record.go] of [tickervalidity].
    - [Dated], [Resolve], [Resolving]: [dated.go], and then [resolve.go],
      [identity.go], the lookups of [instr.go], and the runs of [candidate.go] of
      [identity/resolve], with the theorems on a whole resolution.
    - [Reassert], [Replay]: [reassert_tickers.go] of [identity/resolve], and
      [run/replayrun] with the start of [run/reasserttickers].

    * How the code is modelled

    A time is its nanoseconds since the epoch in UTC; a [uuid] is its number, and
    [db.NewID] counts. A nil pointer is [None], and a call that fails is [Err] of
    its error, or [None] where all it can do is dereference nil. A Go map is a
    [gmap]; where the code ranges over one, the order is a list given, or the
    result is proved not to depend on it. A pointer to a claim is the id of its
    fetch key and its place among the claims; a pointer to a fetch key is its id.
    The slice of claims that [firstVerdict] caches between the attempts of a
    write is a state of the write, since [dropHeld] deletes in place.

    A table is a list, or a map by id, of the columns the code reads. A
    statement changes it and checks the constraints of its table; it fails where
    one would not hold. The deferrable foreign keys are checked by each statement
    until [SET CONSTRAINTS] defers them, and then at the commit. A transaction is
    a function of the tables it finds; [Tx] is given the tables of each of its
    attempts, so that whatever other transactions do between them is covered.
    Advisory and row locks then have no effect, and are the arguments the code
    passes as proof that it holds them. Fetches that run at once are modelled one
    after another, each in transactions of its own.

    Datasources, the clock, sleep and chance are the class [World]; the fetcher a
    resolution uses is the class [Fetcher], whose laws [FactsFetcher] states what
    [market.Fetcher] promises: one key for each request, in order, under new ids.
    Decimals are the class [DecimalLaws]. The texts of a moment, a day and an id
    are parameters.

    The runner's goroutines interleave, so there a world of tables and goroutines
    takes steps, one for each atomic piece of a goroutine, and a theorem holds in
    every reachable world. Elsewhere a function of the code is a function.

    A loop that is not structural takes fuel, and its theorems show the fuel the
    model gives is enough: the number of keys for the union-find and the
    partition, the number of assertions for [current], [tries] for a transaction
    and for a call, the number of requests for the chunks of a fetch, the number
    of claims for the sets of candidates, the number of classes for the class
    tree.

    * What is shown

    - Ticker validity: [derive] ends, its intervals are ordered and disjoint,
      each day of them follows from evidence, and [Rebuild] stores exactly them
      ([Derive], [Winners], [Facts], [ValidityStore]); a run over every ticker ends
      and stores them all, whatever its batch size ([Rebuilding]).
    - Runs: the runs of a lane never overlap and keep their order; in every fair
      life of the process a started run ends, whatever fails, and its row is
      completed or failed where the runner stays open and the database answers; a
      row that has ended is final, and the sweep at boot finds only what a stopped
      process left ([Runs]).
    - Statements: a key has one canonical form and encoding, a row one outcome; the
      write replaces the period, loses no row, and sweeps only the keys that
      nothing references ([Ingest], [Stmts]).
    - A resolution: what its batch is prepared with, and an outcome for each of its
      keys ([Resolve], [Resolving]); the keys a replay selects, and which keys new
      facts replay, once each and beneath which run ([Replay]).
    - The choice of a claim: responses become claims, claims a verdict by a
      stated order of preference, and the user's confirmation writes the set that
      the datasource and identifier picked ([Claims], [Choose], [Resolving]).
    - The write of a key: it ends, keeps every constraint, and leaves one
      instrument that carries what was chosen; instruments merge only where they
      can be one; a retry is as the first attempt, but where the slice it shares
      was cut, which is a defect ([Merge], [Writer], [Outcome]).
    - Identifier facts: what is asked, what is recorded and which conflicts are
      reported ([Dated], [Recording], [Record]); a run that asks of the held
      tickers again asserts only what their answers say ([Reassert]).
    - Fetches: they end, one key for each request ([Fetch]).
    - Groups, corporate actions, calendars and holdings: each against a reference
      that says what it should compute ([Group], [CorpAct], [Calendar],
      [CorpActStore], [Splits], [Holding]); in which holding each transaction is
      counted ([Holding]); which corporate actions are asked for, of the days a
      name held, and beneath which run ([Refresh]).

    A theorem marked with a claim is a property of the program; a witness after
    it applies it to a concrete input.

    * What is not modelled

    [auth], [service] but for the sums of holdings, [datasource],
    [identity/attestidentifier] but for what it records, and [cmd] are requests, sessions, schedules and pages around the parts above: their
    rules live in queries or in the code that is modelled. A replay that new facts
    start may find facts itself: each of its listings is given the tables it reads,
    and that the chain of replays ends is not shown. The statements and the
    resolution have tables of their own, so what joins them is an argument: the
    resolver's answer. The integrations ([market/eodhd], [massive], [openfigi])
    decode the replies of providers. [platform], the driver errors of [db], the
    logs, the metrics, the JSON and the protocol buffers are input and output. The
    client is in another language. *)
From stdpp Require Export base list gmap strings sorting pretty.
From Stdlib Require Export Lia ZArith.

Declare Scope stonks_scope.
Delimit Scope stonks_scope with stonks.
Open Scope Z_scope.
Open Scope list_scope.

(** ** Instants and days *)

(** An instant of [time.Time], in nanoseconds since the Unix epoch read in
    UTC, and a [uuid.UUID], its sixteen bytes read as one big endian number.
    [bytes.Compare] of two ids, and the comparison of their canonical texts,
    order as the numbers do. *)
Abbreviation time := Z (only parsing).
Abbreviation uuid := N (only parsing).

(** The length of a UTC day. *)
Definition day_len : Z := 86400 * 1000000000.

Lemma day_len_pos : 0 < day_len.
Proof. reflexivity. Qed.

(** [t.AddDate(0, 0, n)] of a UTC instant. *)
Definition AddDays (t : time) (n : Z) : time := t + n * day_len.

#[global] Opaque day_len.

(** [time.Time{}], the first of January of the year 1. *)
Definition zero_time : time := -62135596800 * 1000000000.

(** ** Errors *)

(** The result of a fallible call: a value, or an error. *)
Inductive res (E A : Type) : Type :=
| Ok (a : A)
| Err (e : E).
Arguments Ok {E A} a.
Arguments Err {E A} e.

#[export] Instance res_ret {E} : MRet (res E) := fun A a => Ok a.
#[export] Instance res_bind {E} : MBind (res E) :=
  fun A B f m => match m with Ok a => f a | Err e => Err e end.

Definition res_map {E A B} (f : A -> B) (m : res E A) : res E B :=
  match m with Ok a => Ok (f a) | Err e => Err e end.

(** A loop that stops at the first error. *)
Fixpoint res_fold {E A S} (f : S -> A -> res E S) (s : S) (l : list A) : res E S :=
  match l with
  | [] => Ok s
  | a :: l' => match f s a with Ok s' => res_fold f s' l' | Err e => Err e end
  end.

Fixpoint res_mapM {E A B} (f : A -> res E B) (l : list A) : res E (list B) :=
  match l with
  | [] => Ok []
  | a :: l' =>
      match f a with
      | Err e => Err e
      | Ok b => match res_mapM f l' with Err e => Err e | Ok bs => Ok (b :: bs) end
      end
  end.

Lemma res_bind_ok {E A B} (f : A -> res E B) (m : res E A) (b : B) :
  (m ≫= f) = Ok b <-> exists a, m = Ok a /\ f a = Ok b.
Proof. destruct m as [a|e]; simpl; [| naive_solver]. split; [by exists a | by intros (? & [= ->] & ?)]. Qed.

(** The same loops where the failure carries no error. *)
Fixpoint opt_fold {A S} (f : S -> A -> option S) (s : S) (l : list A) : option S :=
  match l with
  | [] => Some s
  | a :: l' => match f s a with Some s' => opt_fold f s' l' | None => None end
  end.

Lemma opt_fold_app {A S} (f : S -> A -> option S) s l k :
  opt_fold f s (l ++ k) = (s' ← opt_fold f s l; opt_fold f s' k).
Proof. revert s. induction l as [|a l IH]; intros s; simpl; [done |]. by destruct (f s a). Qed.

(** Two nested loops are one loop over the pairs they visit. *)
Lemma opt_fold_nested {A B S} (f : S -> B -> option S) (g : A -> list B) s l :
  opt_fold (fun s a => opt_fold f s (g a)) s l = opt_fold f s (concat (map g l)).
Proof.
  revert s. induction l as [|a l IH]; intros s; simpl; [done |].
  rewrite opt_fold_app. by destruct (opt_fold f s (g a)).
Qed.

(** A loop that finishes keeps what each of its turns keeps. *)
Lemma opt_fold_preserve {A S} (P : S -> Prop) (f : S -> A -> option S) s l s' :
  P s -> (forall s a s', a ∈ l -> P s -> f s a = Some s' -> P s') -> opt_fold f s l = Some s' -> P s'.
Proof.
  revert s. induction l as [|a l IH]; simpl; intros s H0 Hstep; [by intros [= <-] |].
  destruct (f s a) as [s1|] eqn:E; [| done]. apply IH; [eapply Hstep; [left | done | done] |]. intros ? ? ? ?. apply Hstep. by right.
Qed.

(** A loop keeps what each of its turns keeps, and finishes when each does. *)
Lemma opt_fold_inv {A S} (P : list A -> S -> Prop) (f : S -> A -> option S) s l :
  P [] s ->
  (forall done s a, (forall b, b ∈ done -> b ∈ l) -> a ∈ l -> P done s ->
     exists s', f s a = Some s' /\ P (done ++ [a]) s') ->
  exists s', opt_fold f s l = Some s' /\ P l s'.
Proof.
  intros H0 Hstep.
  assert (forall todo done s, l = done ++ todo -> P done s -> exists s', opt_fold f s todo = Some s' /\ P l s') as Hgen.
  { induction todo as [|a todo IH]; intros done s' Heq HP; simpl.
    - rewrite app_nil_r in Heq. subst. eauto.
    - destruct (Hstep done s' a) as (s'' & -> & HP'); try done.
      + intros b Hb. rewrite Heq. apply elem_of_app. by left.
      + rewrite Heq. apply elem_of_app. right. left.
      + apply (IH (done ++ [a])); [by rewrite <- app_assoc | done]. }
  by apply (Hgen l [] s).
Qed.

Lemma res_fold_inv {E A S} (P : list A -> S -> Prop) (f : S -> A -> res E S) s l :
  P [] s ->
  (forall done s a, done ++ [a] `prefix_of` l -> P done s -> exists s', f s a = Ok s' /\ P (done ++ [a]) s') ->
  exists s', res_fold f s l = Ok s' /\ P l s'.
Proof.
  intros H0 Hstep.
  assert (forall todo done s, l = done ++ todo -> P done s -> exists s', res_fold f s todo = Ok s' /\ P l s') as Hgen.
  { induction todo as [|a todo IH]; intros done s' Heq HP; simpl.
    - rewrite app_nil_r in Heq. subst. eauto.
    - destruct (Hstep done s' a) as (s'' & -> & HP'); [by exists todo; rewrite <- app_assoc | done |].
      apply (IH (done ++ [a])); [by rewrite <- app_assoc | done]. }
  by apply (Hgen l [] s).
Qed.

(** ** Comparison functions

    A Go comparison function returns a negative, zero or positive number; it
    is a [comparison] here. *)

Class GoCmp {A} (cmp : A -> A -> comparison) : Prop := {
  cmp_opp x y : cmp y x = CompOpp (cmp x y);
  cmp_trans x y z : cmp x y <> Gt -> cmp y z <> Gt -> cmp x z <> Gt;
}.

Arguments cmp_opp {A} cmp {_} x y.
Arguments cmp_trans {A} cmp {_} x y z _ _.

(** [cmp.Or] of two comparisons. *)
Definition cmp_or (c d : comparison) : comparison :=
  match c with Eq => d | _ => c end.

Definition cmp_on {A B} (f : A -> B) (cmp : B -> B -> comparison) (x y : A) : comparison :=
  cmp (f x) (f y).

Definition cmp_lex {A} (c d : A -> A -> comparison) (x y : A) : comparison :=
  cmp_or (c x y) (d x y).

Section Cmp.
Context {A : Type} (cmp : A -> A -> comparison) `{!GoCmp cmp}.

Lemma cmp_refl x : cmp x x = Eq.
Proof. pose proof (cmp_opp cmp x x). destruct (cmp x x); naive_solver. Qed.

Lemma cmp_gt_lt x y : cmp x y = Gt <-> cmp y x = Lt.
Proof. rewrite (cmp_opp cmp x y). destruct (cmp x y); simpl; intuition congruence. Qed.

Lemma cmp_eq_sym x y : cmp x y = Eq <-> cmp y x = Eq.
Proof. rewrite (cmp_opp cmp x y). destruct (cmp x y); simpl; intuition congruence. Qed.

Lemma cmp_total x y : cmp x y <> Gt \/ cmp y x <> Gt.
Proof. rewrite (cmp_opp cmp x y). destruct (cmp x y); simpl; intuition congruence. Qed.

Lemma cmp_le_antisym x y : cmp x y <> Gt -> cmp y x <> Gt -> cmp x y = Eq.
Proof. rewrite (cmp_opp cmp x y). destruct (cmp x y); simpl; intuition congruence. Qed.

Lemma cmp_eq_trans x y z : cmp x y = Eq -> cmp y z = Eq -> cmp x z = Eq.
Proof.
  intros Hxy Hyz. apply cmp_le_antisym.
  - apply (cmp_trans cmp x y z); congruence.
  - apply cmp_eq_sym in Hxy, Hyz. apply (cmp_trans cmp z y x); congruence.
Qed.

Lemma cmp_eq_l x y z : cmp x y = Eq -> cmp x z = cmp y z.
Proof.
  intros H. pose proof (proj1 (cmp_eq_sym x y) H) as H'.
  pose proof (cmp_opp cmp x z) as Ox. pose proof (cmp_opp cmp y z) as Oy.
  pose proof (cmp_trans cmp x y z). pose proof (cmp_trans cmp y x z).
  pose proof (cmp_trans cmp z x y). pose proof (cmp_trans cmp z y x).
  destruct (cmp x z), (cmp y z); simpl in *; auto; exfalso; intuition congruence.
Qed.

Lemma cmp_eq_r x y z : cmp x y = Eq -> cmp z x = cmp z y.
Proof. intros H. rewrite (cmp_opp cmp x z), (cmp_opp cmp y z). f_equal. by apply cmp_eq_l. Qed.

Lemma cmp_lt_trans x y z : cmp x y = Lt -> cmp y z <> Gt -> cmp x z = Lt.
Proof.
  intros Hxy Hyz. destruct (cmp x z) eqn:E; [| done |].
  - rewrite (cmp_eq_l x z y E) in Hxy. apply cmp_gt_lt in Hxy. done.
  - apply (cmp_trans cmp x y z) in Hyz; congruence.
Qed.

End Cmp.

#[export] Instance Zcompare_cmp : GoCmp Z.compare.
Proof.
  split; intros *; [apply Z.compare_antisym |].
  rewrite !Z.compare_le_iff. lia.
Qed.

#[export] Instance Ncompare_cmp : GoCmp N.compare.
Proof.
  split; intros *; [apply N.compare_antisym |].
  rewrite !N.compare_le_iff. lia.
Qed.

#[export] Instance cmp_on_cmp {A B} (f : A -> B) cmp `{!GoCmp cmp} : GoCmp (cmp_on f cmp).
Proof. split; unfold cmp_on; intros; [by apply cmp_opp | by eapply (cmp_trans cmp)]. Qed.

#[export] Instance cmp_lex_cmp {A} (c d : A -> A -> comparison) `{!GoCmp c, !GoCmp d} :
  GoCmp (cmp_lex c d).
Proof.
  split; unfold cmp_lex, cmp_or; intros x y.
  - rewrite (cmp_opp c x y), (cmp_opp d x y). by destruct (c x y).
  - intros z. destruct (c x y) eqn:E1; [| | done].
    + rewrite (cmp_eq_l c x y z) by done. destruct (c y z); try done. intros. by apply (cmp_trans d x y z).
    + intros _ Hyz. rewrite (cmp_lt_trans c x y z); [done | done |]. by destruct (c y z).
Qed.

(** The order reversed. *)
Definition cmp_flip {A} (cmp : A -> A -> comparison) (x y : A) : comparison := cmp y x.

#[export] Instance cmp_flip_cmp {A} (cmp : A -> A -> comparison) `{!GoCmp cmp} : GoCmp (cmp_flip cmp).
Proof.
  split; unfold cmp_flip; intros x y; [by apply cmp_opp |].
  intros z Hyx Hzy. by apply (cmp_trans cmp z y x).
Qed.

#[global] Typeclasses Opaque cmp_on cmp_lex cmp_flip.

(** A comparison that agrees with a lawful one is lawful. *)
Lemma cmp_ext {A} (c d : A -> A -> comparison) : (forall x y, c x y = d x y) -> GoCmp d -> GoCmp c.
Proof. intros E [H1 H2]. split; intros *; rewrite !E; eauto. Qed.

Lemma ascii_compare_N a b : Ascii.compare a b = N.compare (Ascii.N_of_ascii a) (Ascii.N_of_ascii b).
Proof. reflexivity. Qed.

(** Go compares strings by their bytes. *)
#[export] Instance string_compare_cmp : GoCmp String.compare.
Proof.
  split; [intros; apply String.compare_antisym |].
  intros x. induction x as [|a x IH]; intros [|b y] [|c z]; simpl; try done.
  rewrite !ascii_compare_N.
  destruct (N.compare_spec (Ascii.N_of_ascii a) (Ascii.N_of_ascii b)) as [Hab|Hab|Hab]; try done;
  destruct (N.compare_spec (Ascii.N_of_ascii b) (Ascii.N_of_ascii c)) as [Hbc|Hbc|Hbc]; try done;
  destruct (N.compare_spec (Ascii.N_of_ascii a) (Ascii.N_of_ascii c)) as [Hac|Hac|Hac]; try done;
  solve [apply IH | lia].
Qed.

(** The text [a < b] of two strings. *)
Definition string_ltb (a b : string) : bool :=
  match String.compare a b with Lt => true | _ => false end.

(** ** Sorting

    [slices.SortStableFunc] and [slices.SortFunc]: both are the stable
    insertion sort below. [SortFunc] leaves the order of elements that compare
    equal open; a development that uses it shows that its result does not
    depend on that order. *)

Section Sort.
Context {A : Type} (cmp : A -> A -> comparison).

Fixpoint sort_insert (x : A) (l : list A) : list A :=
  match l with
  | [] => [x]
  | y :: l' => match cmp y x with Lt => y :: sort_insert x l' | _ => x :: y :: l' end
  end.

Fixpoint sort_func (l : list A) : list A :=
  match l with
  | [] => []
  | x :: l' => sort_insert x (sort_func l')
  end.

Definition cmp_le (x y : A) : Prop := cmp x y <> Gt.

Lemma sort_insert_perm x l : sort_insert x l ≡ₚ x :: l.
Proof.
  induction l as [|y l IH]; simpl; [done |]. destruct (cmp y x); try done.
  rewrite IH. constructor.
Qed.

Lemma sort_func_perm l : sort_func l ≡ₚ l.
Proof. induction l as [|x l IH]; simpl; [done |]. by rewrite sort_insert_perm, IH. Qed.

Lemma elem_of_sort_func x l : x ∈ sort_func l <-> x ∈ l.
Proof. by rewrite sort_func_perm. Qed.

Lemma length_sort_func l : length (sort_func l) = length l.
Proof. by rewrite sort_func_perm. Qed.

Context `{!GoCmp cmp}.

Lemma sort_insert_sorted x l : StronglySorted cmp_le l -> StronglySorted cmp_le (sort_insert x l).
Proof.
  induction 1 as [|y l Hl IH Hy]; simpl; [by repeat constructor |].
  assert (cmp x y <> Gt -> StronglySorted cmp_le (x :: y :: l)) as Hhd.
  { intros Hxy. repeat constructor; [done | done | done |].
    eapply Forall_impl; [apply Hy |]. intros z Hz. by apply (cmp_trans cmp x y z). }
  pose proof (cmp_opp cmp x y) as Ho.
  destruct (cmp y x) eqn:E.
  - apply Hhd. by apply cmp_eq_sym in E as ->.
  - constructor; [done |]. rewrite sort_insert_perm. constructor; [| done]. unfold cmp_le. congruence.
  - apply Hhd. apply cmp_gt_lt in E; [congruence | done].
Qed.

Lemma sort_func_sorted l : StronglySorted cmp_le (sort_func l).
Proof. induction l; simpl; [constructor | by apply sort_insert_sorted]. Qed.

Lemma sort_func_id l : StronglySorted cmp_le l -> sort_func l = l.
Proof.
  induction 1 as [|x l Hl IH Hx]; simpl; [done |]. rewrite IH.
  destruct l as [|y l]; simpl; [done |].
  apply Forall_cons in Hx as [Hx _]. destruct (cmp y x) eqn:E; try done.
  unfold cmp_le in Hx. apply cmp_gt_lt in E; [congruence | done].
Qed.

(** Elements that compare equal keep their order. *)
Lemma sort_insert_stable x z l :
  filter (fun y => cmp z y = Eq) (sort_insert x l) =
  filter (fun y => cmp z y = Eq) (x :: l).
Proof.
  induction l as [|y l IH]; [done |]. cbn [sort_insert].
  destruct (cmp y x) eqn:E; [done | | done].
  rewrite filter_cons, IH, !filter_cons.
  repeat case_decide; try done.
  exfalso. rewrite <- (cmp_eq_l cmp z y x) in E by done. congruence.
Qed.

Lemma sort_func_stable z l :
  filter (fun y => cmp z y = Eq) (sort_func l) = filter (fun y => cmp z y = Eq) l.
Proof.
  induction l as [|x l IH]; [done |]. cbn [sort_func].
  by rewrite sort_insert_stable, !filter_cons, IH.
Qed.

(** The head is the first of the least elements. *)
Lemma sort_func_head l x xs : sort_func l = x :: xs ->
  x ∈ l /\ (forall y, y ∈ l -> cmp_le x y) /\ exists k, filter (fun y => cmp x y = Eq) l = x :: k.
Proof.
  intros Hs. split; [| split].
  - apply elem_of_sort_func. rewrite Hs. by left.
  - intros y Hy%elem_of_sort_func. rewrite Hs in Hy. pose proof (sort_func_sorted l) as Hso. rewrite Hs in Hso.
    inversion Hso as [|? ? _ Hall]; subst. apply elem_of_cons in Hy as [->|Hy]; [unfold cmp_le; by rewrite cmp_refl |].
    rewrite Forall_forall in Hall. by apply Hall.
  - rewrite <- sort_func_stable, Hs, filter_cons, decide_True by (by apply (cmp_refl cmp)). eauto.
Qed.

Lemma sort_func_unique l k :
  (forall x y, x ∈ l -> y ∈ l -> cmp x y = Eq -> x = y) -> l ≡ₚ k -> sort_func l = sort_func k.
Proof.
  intros Heq Hp. apply StronglySorted_unique_strong with cmp_le; auto using sort_func_sorted.
  - intros x y. rewrite !elem_of_sort_func, <- Hp. intros. apply Heq; try done.
    by apply cmp_le_antisym.
  - by rewrite !sort_func_perm.
Qed.

End Sort.

(** ** Slices *)

(** [slices.CompactFunc]: a run of equal elements keeps its first. *)
Fixpoint compact_after {A} (eqb : A -> A -> bool) (x : A) (l : list A) : list A :=
  match l with
  | [] => []
  | y :: l' => if eqb x y then compact_after eqb x l' else y :: compact_after eqb y l'
  end.

Definition compact_func {A} (eqb : A -> A -> bool) (l : list A) : list A :=
  match l with [] => [] | x :: l' => x :: compact_after eqb x l' end.

(** [slices.IndexFunc], [None] for its -1. *)
Fixpoint index_func {A} (f : A -> bool) (l : list A) : option nat :=
  match l with
  | [] => None
  | x :: l' => if f x then Some 0%nat else S <$> index_func f l'
  end.

(** [slices.DeleteFunc]. *)
Definition delete_func {A} (f : A -> bool) (l : list A) : list A :=
  List.filter (fun x => negb (f x)) l.

(** [slices.Contains]. *)
Definition contains {A} `{EqDecision A} (l : list A) (x : A) : bool := bool_decide (x ∈ l).

(** [append] unless the slice holds the element. *)
Definition append_unique {A} `{EqDecision A} (l : list A) (x : A) : list A :=
  if contains l x then l else l ++ [x].

(** The first element, and its index, that satisfies [f]. *)
Definition find_func {A} (f : A -> bool) (l : list A) : option A := List.find f l.

Lemma index_func_Some {A} (f : A -> bool) l i :
  index_func f l = Some i <->
  exists x, l !! i = Some x /\ f x = true /\ forall j y, (j < i)%nat -> l !! j = Some y -> f y = false.
Proof.
  revert i. induction l as [|x l IH]; intros i; simpl; [naive_solver |].
  destruct (f x) eqn:E.
  - split; [intros [= <-]; exists x; repeat split; intros; [done | lia] |].
    intros (y & Hy & Hf & Hlt). destruct i as [|i]; [done |].
    specialize (Hlt 0%nat x ltac:(lia) eq_refl). congruence.
  - rewrite fmap_Some. split.
    + intros (j & Hj & ->). apply IH in Hj as (y & Hy & Hf & Hlt). exists y. repeat split; [done | done |].
      intros [|k] z Hk Hz; simpl in *; [congruence |]. apply (Hlt k); [lia | done].
    + intros (y & Hy & Hf & Hlt). destruct i as [|i]; simpl in *; [congruence |].
      exists i. split; [| done]. apply IH. exists y. repeat split; [done | done |].
      intros j z Hj Hz. by apply (Hlt (S j)); [lia |].
Qed.

Lemma index_func_None {A} (f : A -> bool) l :
  index_func f l = None <-> forall x, x ∈ l -> f x = false.
Proof.
  induction l as [|x l IH]; simpl; [split; [intros _ x Hx; by apply not_elem_of_nil in Hx | done] |].
  destruct (f x) eqn:E.
  - split; [done |]. intros H. specialize (H x ltac:(left)). congruence.
  - rewrite fmap_None, IH. setoid_rewrite elem_of_cons. naive_solver.
Qed.

Lemma existsb_elem {A} (f : A -> bool) l : existsb f l = true <-> exists x, x ∈ l /\ f x = true.
Proof. rewrite existsb_exists. by setoid_rewrite list_elem_of_In. Qed.

Lemma existsb_false {A} (f : A -> bool) l : existsb f l = false <-> forall x, x ∈ l -> f x = false.
Proof.
  rewrite <- not_true_iff_false, existsb_elem. split.
  - intros H x Hx. destruct (f x) eqn:E; [| done]. exfalso; eauto.
  - intros H (x & Hx & Hf). rewrite (H x Hx) in Hf. done.
Qed.

Lemma forallb_elem {A} (f : A -> bool) l : forallb f l = true <-> forall x, x ∈ l -> f x = true.
Proof. rewrite forallb_forall. by setoid_rewrite list_elem_of_In. Qed.

Lemma elem_of_lfilter {A} (f : A -> bool) l x : x ∈ List.filter f l <-> x ∈ l /\ f x = true.
Proof. by rewrite !list_elem_of_In, filter_In. Qed.

Lemma elem_of_delete_func {A} (f : A -> bool) l x : x ∈ delete_func f l <-> x ∈ l /\ f x = false.
Proof. unfold delete_func. rewrite elem_of_lfilter. by rewrite negb_true_iff. Qed.

Lemma elem_of_concat_map {A B} (f : A -> list B) l x : x ∈ concat (map f l) <-> exists a, a ∈ l /\ x ∈ f a.
Proof.
  rewrite list_elem_of_In, in_concat. setoid_rewrite in_map_iff. split.
  - intros (y & (a & <- & Ha) & Hx). exists a. by rewrite !list_elem_of_In.
  - intros (a & Ha & Hx). exists (f a). rewrite <- list_elem_of_In. split; [| done].
    exists a. by rewrite <- list_elem_of_In.
Qed.

Lemma contains_true {A} `{EqDecision A} (l : list A) x : contains l x = true <-> x ∈ l.
Proof. apply bool_decide_eq_true. Qed.

Lemma contains_false {A} `{EqDecision A} (l : list A) x : contains l x = false <-> x ∉ l.
Proof. apply bool_decide_eq_false. Qed.

Lemma elem_of_append_unique {A} `{EqDecision A} (l : list A) x y :
  y ∈ append_unique l x <-> y ∈ l \/ y = x.
Proof.
  unfold append_unique. destruct (contains l x) eqn:E.
  - apply contains_true in E. naive_solver.
  - rewrite elem_of_app, list_elem_of_singleton. done.
Qed.

Lemma append_unique_NoDup {A} `{EqDecision A} (l : list A) x : NoDup l -> NoDup (append_unique l x).
Proof.
  unfold append_unique. destruct (contains l x) eqn:E; [done |].
  apply contains_false in E. intros. apply NoDup_app. repeat split; [done | set_solver |].
  apply NoDup_singleton.
Qed.

Lemma compact_after_elem {A} (eqb : A -> A -> bool) x y l :
  y ∈ compact_after eqb x l -> y ∈ l.
Proof.
  revert x. induction l as [|z l IH]; simpl; intros x; [done |].
  destruct (eqb x z); rewrite !elem_of_cons; naive_solver.
Qed.

(** Two elements of a sorted list are related one way or the other. *)
Lemma elem_of_StronglySorted {A} (R : relation A) l x y :
  StronglySorted R l -> x ∈ l -> y ∈ l -> x = y \/ R x y \/ R y x.
Proof.
  induction 1 as [|z l _ IH Hz]; [by intros []%not_elem_of_nil |]. rewrite Forall_forall in Hz.
  rewrite !elem_of_cons. intros [->|Hx] [->|Hy]; auto.
Qed.

Lemma StronglySorted_lookup {A} (R : relation A) l i j x y :
  StronglySorted R l -> l !! i = Some x -> l !! j = Some y -> (i < j)%nat -> R x y.
Proof.
  intros Hs. revert i j. induction Hs as [|z l _ IH Hz]; intros i j Hi Hj Hlt; [done |].
  destruct j as [|j]; [lia |]. destruct i as [|i]; simpl in *; [| apply (IH i j); [done | done | lia]].
  injection Hi as ->. rewrite Forall_forall in Hz. by apply Hz, (list_elem_of_lookup_2 _ j).
Qed.

(** A slice of at most one element. *)
Lemma Forall_if {A} (P : A -> Prop) (b : bool) x : (b = true -> P x) -> Forall P (if b then [x] else []).
Proof. destruct b; intros H; [by apply Forall_singleton, H | constructor]. Qed.

Lemma StronglySorted_if {A} (R : relation A) (b : bool) x : StronglySorted R (if b then [x] else []).
Proof. destruct b; repeat constructor. Qed.

#[export] Instance lfilter_perm {A} (f : A -> bool) : Proper ((≡ₚ) ==> (≡ₚ)) (List.filter f).
Proof.
  intros l k Hp. induction Hp as [|x l k _ IH|x y l|l1 l2 l3 _ IH1 _ IH2]; simpl.
  - done.
  - destruct (f x); [by constructor | done].
  - destruct (f x), (f y); try done. apply perm_swap.
  - by rewrite IH1.
Qed.

Lemma filter_negb_perm {A} (f : A -> bool) l : l ≡ₚ List.filter f l ++ List.filter (fun x => negb (f x)) l.
Proof.
  induction l as [|x l IH]; simpl; [done |]. destruct (f x); simpl; [by constructor |].
  etransitivity; [apply perm_skip; exact IH |]. apply Permutation_middle.
Qed.

(** Two nested loops are one loop over the pairs they visit. *)
Lemma foldl_nested {A B S} (f : S -> B -> S) (g : A -> list B) s l :
  foldl (fun s a => foldl f s (g a)) s l = foldl f s (concat (map g l)).
Proof. revert s. induction l as [|a l IH]; intros s; simpl; [done |]. by rewrite foldl_app, IH. Qed.

Lemma filter_none {A} (f : A -> bool) l : (forall x, f x = false) -> List.filter f l = [].
Proof. intros Hf. induction l as [|x l IH]; simpl; [done |]. by rewrite Hf. Qed.

Lemma NoDup_key {A B} (f : A -> B) l x y : NoDup (map f l) -> x ∈ l -> y ∈ l -> f x = f y -> x = y.
Proof.
  induction l as [|z l IH]; intros Hn Hx Hy E; [by apply not_elem_of_nil in Hx |].
  simpl in Hn. apply NoDup_cons in Hn as [Hz Hn].
  apply elem_of_cons in Hx as [->|Hx]; apply elem_of_cons in Hy as [->|Hy]; try done.
  - exfalso. apply Hz. rewrite E. by apply list_elem_of_fmap_2.
  - exfalso. apply Hz. rewrite <- E. by apply list_elem_of_fmap_2.
  - by apply IH.
Qed.

Lemma NoDup_concat_map {A B} (f : A -> list B) l :
  NoDup l -> (forall x, x ∈ l -> NoDup (f x)) -> (forall x y b, x ∈ l -> y ∈ l -> b ∈ f x -> b ∈ f y -> x = y) ->
  NoDup (concat (map f l)).
Proof.
  induction 1 as [|x l Hx Hl IH]; intros H1 H2; simpl; [constructor |].
  apply NoDup_app. split; [apply H1; left |]. split.
  - intros b Hb (y & Hy & Hby)%elem_of_concat_map. apply Hx.
    rewrite (H2 x y b); [done | left | by right | done | done].
  - apply IH; [intros; apply H1; by right |]. intros y z b Hy Hz. apply H2; by right.
Qed.

Lemma NoDup_lfilter {A} (f : A -> bool) l : NoDup l -> NoDup (List.filter f l).
Proof. rewrite !NoDup_ListNoDup. apply List.NoDup_filter. Qed.

Lemma NoDup_of_key {A B} (f : A -> B) l : NoDup (map f l) -> NoDup l.
Proof. apply (NoDup_fmap_1 f). Qed.

Lemma find_func_Some {A} (f : A -> bool) l x : find_func f l = Some x -> x ∈ l /\ f x = true.
Proof. intros [Hx Hf]%List.find_some. by rewrite list_elem_of_In. Qed.

Lemma find_func_None {A} (f : A -> bool) l : find_func f l = None <-> forall x, x ∈ l -> f x = false.
Proof.
  split; [intros Hf x Hx%list_elem_of_In; by eapply List.find_none |].
  intros Hf. destruct (find_func f l) as [x|] eqn:Hx; [| done]. apply find_func_Some in Hx as [Hx Hfx]. by rewrite Hf in Hfx.
Qed.

(** The element found is the first of its kind. *)
Lemma find_func_split {A} (f : A -> bool) l x : find_func f l = Some x ->
  exists pre suf, l = pre ++ x :: suf /\ f x = true /\ forall y, y ∈ pre -> f y = false.
Proof.
  induction l as [|y l IH]; [done |]. unfold find_func. simpl. destruct (f y) eqn:E.
  - intros [= <-]. exists [], l. split; [done |]. split; [done |]. by intros z ?%not_elem_of_nil.
  - intros (pre & suf & -> & Hx & Hpre)%IH. exists (y :: pre), suf. split; [done |]. split; [done |]. intros z [->|Hz]%elem_of_cons; auto.
Qed.

Lemma find_func_is_Some {A} (f : A -> bool) l : is_Some (find_func f l) <-> exists x, x ∈ l /\ f x = true.
Proof.
  split; [intros [x Hx]; apply find_func_Some in Hx; eauto |]. intros (x & Hx & Hf).
  destruct (find_func f l) as [y|] eqn:Hy; [by eexists |]. rewrite find_func_None in Hy. by rewrite Hy in Hf.
Qed.

Lemma find_key {A B} `{EqDecision B} (f : A -> B) l x :
  NoDup (map f l) -> x ∈ l -> find_func (fun y => bool_decide (f y = f x)) l = Some x.
Proof.
  intros Hnd Hx. destruct (find_func _ l) as [y|] eqn:E.
  - apply find_some in E as [Hy%list_elem_of_In He%bool_decide_eq_true]. by rewrite (NoDup_key f l x y).
  - apply (find_none _ _ E) in Hx as He%bool_decide_eq_false || (apply list_elem_of_In in Hx; apply (find_none _ _ E) in Hx).
    by rewrite bool_decide_true in Hx.
Qed.

(** An update that keeps a key unique. *)
Lemma NoDup_map_update {A B} (f : A -> B) (g : A -> A) l :
  NoDup (map f l) -> (forall x y, x ∈ l -> y ∈ l -> f (g x) = f (g y) -> f x = f y) -> NoDup (map f (map g l)).
Proof.
  intros Hnd Hg. rewrite map_map. apply NoDup_fmap_2_strong; [| by eapply NoDup_of_key].
  intros x y Hx Hy Heq. eapply NoDup_key; [exact Hnd | done | done |]. by apply Hg.
Qed.

Lemma map_update_same {A B} (f : A -> B) (g : A -> A) l : (forall x, f (g x) = f x) -> map f (map g l) = map f l.
Proof. intros Hfg. rewrite map_map. by apply map_ext. Qed.

Lemma NoDup_map_snoc {A B} (f : A -> B) l x : NoDup (map f l) -> f x ∉ map f l -> NoDup (map f (l ++ [x])).
Proof.
  intros Hnd Hx. rewrite map_app. simpl. apply NoDup_app. split; [done |]. split; [| apply NoDup_singleton].
  intros y Hy ->%list_elem_of_singleton. done.
Qed.

Lemma StronglySorted_lfilter {A} (R : relation A) f l : StronglySorted R l -> StronglySorted R (List.filter f l).
Proof.
  induction 1 as [|x l _ IH Hx]; simpl; [constructor |]. destruct (f x); [| done]. constructor; [done |].
  rewrite Forall_forall in *. intros y [Hy _]%elem_of_lfilter. by apply Hx.
Qed.

Lemma filter_nil_all {A} (f : A -> bool) l : (forall x, x ∈ l -> f x = false) -> List.filter f l = [].
Proof.
  induction l as [|x l IH]; intros Hf; simpl; [done |]. rewrite (Hf x) by left. apply IH. intros y Hy. apply Hf. by right.
Qed.

Lemma filter_id_all {A} (f : A -> bool) l : (forall x, x ∈ l -> f x = true) -> List.filter f l = l.
Proof.
  induction l as [|x l IH]; intros Hf; simpl; [done |]. rewrite (Hf x) by left. f_equal. apply IH. intros y Hy. apply Hf. by right.
Qed.

(** Filtering a sorted slice is sorting a filtered one. *)
Lemma sort_insert_filter {A} (cmp : A -> A -> comparison) `{!GoCmp cmp} f x l :
  StronglySorted (cmp_le cmp) l ->
  List.filter f (sort_insert cmp x l) = if f x then sort_insert cmp x (List.filter f l) else List.filter f l.
Proof.
  induction 1 as [|y l Hs IH Hy]; cbn [sort_insert List.filter]; [by destruct (f x) |].
  assert (cmp y x <> Lt -> (if f x then sort_insert cmp x (List.filter f (y :: l)) else List.filter f (y :: l)) =
    if f x then x :: List.filter f (y :: l) else List.filter f (y :: l)) as Hins.
  { intros Hyx. destruct (f x); [| done]. destruct (List.filter f (y :: l)) as [|z k] eqn:Ek; [done |]. simpl.
    assert (z ∈ y :: l) as [->|Hz]%elem_of_cons.
    { apply (elem_of_lfilter f (y :: l) z). rewrite Ek. left. }
    - by destruct (cmp y x).
    - rewrite Forall_forall in Hy. specialize (Hy z Hz). unfold cmp_le in Hy. destruct (cmp z x) eqn:E; try done.
      destruct Hyx. apply cmp_gt_lt; [done |]. destruct (cmp x y) eqn:E'; [| | done]; exfalso.
      + rewrite <- (cmp_eq_l cmp x y z E') in Hy. apply cmp_gt_lt in E; [congruence | done].
      + apply (cmp_lt_trans cmp x y z) in Hy; [| done]. apply cmp_gt_lt in E; [congruence | done]. }
  destruct (cmp y x) eqn:E; cbn [List.filter] in *; try (destruct (f x), (f y); by rewrite <- ?Hins).
  rewrite IH. destruct (f x), (f y); try done. simpl. by rewrite E.
Qed.

Lemma sort_func_filter {A} (cmp : A -> A -> comparison) `{!GoCmp cmp} f l :
  List.filter f (sort_func cmp l) = sort_func cmp (List.filter f l).
Proof.
  induction l as [|x l IH]; [done |]. cbn [sort_func List.filter].
  rewrite (sort_insert_filter cmp) by (by apply sort_func_sorted). rewrite IH. by destruct (f x).
Qed.

(** The part of a concatenation that one of its slices is. *)
Lemma filter_concat_one {A B} (f : B -> bool) (g : A -> list B) l x :
  NoDup l -> x ∈ l -> (forall b, b ∈ g x -> f b = true) -> (forall y b, y ∈ l -> y <> x -> b ∈ g y -> f b = false) ->
  List.filter f (concat (map g l)) = g x.
Proof.
  induction 1 as [|y l Hy Hnd IH]; intros Hx H1 H2; [by apply not_elem_of_nil in Hx |].
  simpl. rewrite List.filter_app. apply elem_of_cons in Hx as [->|Hx].
  - rewrite filter_id_all by done. rewrite (filter_nil_all f (concat _)); [apply app_nil_r |].
    intros b (z & Hz & Hb)%elem_of_concat_map. apply (H2 z); [by right | | done]. by intros ->.
  - rewrite filter_nil_all; [| intros b; apply H2; [left | by intros ->]]. simpl. apply IH; [done | done |].
    intros z b Hz. apply H2. by right.
Qed.

Lemma filter_concat_none {A B} (f : B -> bool) (g : A -> list B) l :
  (forall y b, y ∈ l -> b ∈ g y -> f b = false) -> List.filter f (concat (map g l)) = [].
Proof. intros H. apply filter_nil_all. intros b (y & Hy & Hb)%elem_of_concat_map. by apply (H y). Qed.

Lemma StronglySorted_concat {A B} (R : relation B) (g : A -> list B) l :
  NoDup l -> (forall x, x ∈ l -> StronglySorted R (g x)) ->
  (forall x y a b, x ∈ l -> y ∈ l -> x <> y -> a ∈ g x -> b ∈ g y -> R a b) -> StronglySorted R (concat (map g l)).
Proof.
  induction 1 as [|x l Hx _ IH]; intros H1 H2; simpl; [constructor |]. apply StronglySorted_app_2.
  - intros a b Ha (y & Hy & Hb)%elem_of_concat_map. apply (H2 x y); [left | by right | by intros -> | done | done].
  - apply H1. left.
  - apply IH; [intros; apply H1; by right |]. intros y z a b Hy Hz. apply H2; by right.
Qed.

(** A loop that fails on no element. *)
Lemma mapM_total {A B} (f : A -> option B) (g : A -> B) l : (forall x, x ∈ l -> f x = Some (g x)) -> mapM f l = Some (map g l).
Proof. intros H. induction l as [|x l IH]; [done |]. simpl. rewrite H by left. simpl. rewrite IH; [done |]. intros y Hy. apply H. by right. Qed.

Lemma NoDup_key_filter {A B} (f : A -> B) g l : NoDup (map f l) -> NoDup (map f (List.filter g l)).
Proof.
  induction l as [|x l IH]; simpl; [done |]. intros [Hx Hl]%NoDup_cons. destruct (g x); simpl; [| by apply IH].
  apply NoDup_cons. split; [| by apply IH]. intros (y & E & [Hy _]%elem_of_lfilter)%list_elem_of_fmap.
  apply Hx. rewrite E. by apply list_elem_of_fmap_2.
Qed.

(** A loop that appends each element not yet in the slice. *)
Lemma elem_of_append_fold {A} `{EqDecision A} (acc l : list A) x : x ∈ foldl append_unique acc l <-> x ∈ acc \/ x ∈ l.
Proof.
  revert acc. induction l as [|y l IH]; intros acc; simpl; [rewrite elem_of_nil; tauto |].
  rewrite IH, elem_of_append_unique, elem_of_cons. tauto.
Qed.

Lemma elem_of_append_all {A} `{EqDecision A} (l : list A) x : x ∈ foldl append_unique [] l <-> x ∈ l.
Proof. rewrite elem_of_append_fold, elem_of_nil. tauto. Qed.

Lemma NoDup_append_all {A} `{EqDecision A} (l : list A) : NoDup (foldl append_unique [] l).
Proof. induction l as [|y l IH] using rev_ind; [constructor |]. rewrite foldl_app. by apply append_unique_NoDup. Qed.

Lemma mapM_map {A B C} (f : B -> option C) (g : A -> B) l : mapM f (map g l) = mapM (fun x => f (g x)) l.
Proof. induction l as [|x l IH]; [done |]. simpl. by rewrite IH. Qed.

(** The places of a list of distinct first occurrences: an element of [l] is
    at one, and each place's element occurs before the later ones. *)
Lemma append_all_lookup {A} `{EqDecision A} (l : list A) i x :
  l !! i = Some x -> exists k, foldl append_unique [] l !! k = Some x.
Proof. intros Hx. apply list_elem_of_lookup, elem_of_append_all. by eapply list_elem_of_lookup_2. Qed.

Lemma append_all_order {A} `{EqDecision A} (l : list A) i x k k' y :
  l !! i = Some x -> foldl append_unique [] l !! k = Some x -> (k' < k)%nat ->
  foldl append_unique [] l !! k' = Some y -> exists i', (i' < i)%nat /\ l !! i' = Some y.
Proof.
  revert i k. induction l as [|z l IH] using rev_ind; intros i k Hi Hk Hlt Hy; [done |].
  rewrite foldl_app in Hk, Hy. simpl in Hk, Hy.
  destruct (decide (i < length l)%nat) as [Hlen|Hlen].
  - rewrite lookup_app_l in Hi by done. pose proof Hi as Hx.
    apply append_all_lookup in Hx as [k0 Hk0].
    pose proof (NoDup_append_all l) as Hnd. pose proof (NoDup_append_all (l ++ [z])) as Hnd'.
    rewrite foldl_app in Hnd'. simpl in Hnd'. unfold append_unique at 1 in Hnd'.
    unfold append_unique at 1 in Hk. unfold append_unique at 1 in Hy.
    destruct (contains _ z) eqn:Hz.
    + destruct (IH i k Hi Hk Hlt Hy) as (i' & ? & Hi'). exists i'. split; [done |]. rewrite lookup_app_l; [done |]. lia.
    + assert (k = k0) as ->.
      { eapply NoDup_lookup; [exact Hnd' | exact Hk |]. rewrite lookup_app_l; [done |]. by eapply lookup_lt_Some. }
      pose proof (lookup_lt_Some _ _ _ Hk0). rewrite lookup_app_l in Hy by lia.
      destruct (IH i k0 Hi Hk0 Hlt Hy) as (i' & ? & Hi'). exists i'. split; [done |]. rewrite lookup_app_l; [done |]. lia.
  - assert (i = length l) as ->.
    { apply lookup_lt_Some in Hi. rewrite length_app in Hi. simpl in Hi. lia. }
    rewrite list_lookup_middle in Hi by done. simplify_eq.
    assert (y ∈ l) as Hyl.
    { unfold append_unique at 1 in Hy. unfold append_unique at 1 in Hk. destruct (contains _ x) eqn:Hz.
      - apply elem_of_append_all. by eapply list_elem_of_lookup_2.
      - rewrite lookup_app in Hy, Hk. destruct (foldl append_unique [] l !! k') as [y'|] eqn:E.
        + simplify_eq. apply elem_of_append_all. by eapply list_elem_of_lookup_2.
        + apply lookup_ge_None in E. rewrite (proj2 (lookup_ge_None _ k)) in Hk by lia.
          apply list_lookup_singleton_Some in Hk as [Hk _]. apply list_lookup_singleton_Some in Hy as [Hy _]. lia. }
    apply list_elem_of_lookup in Hyl as [i' Hi']. exists i'. pose proof (lookup_lt_Some _ _ _ Hi').
    split; [done |]. by rewrite lookup_app_l.
Qed.

Lemma filter_append_all {A} `{EqDecision A} (f : A -> bool) l : List.filter f (foldl append_unique [] l) = foldl append_unique [] (List.filter f l).
Proof.
  induction l as [|x l IH] using rev_ind; [done |]. rewrite foldl_app, List.filter_app. simpl. set (d := foldl append_unique [] l) in *.
  assert (List.filter f (append_unique d x) = if f x then append_unique (List.filter f d) x else List.filter f d) as ->.
  { unfold append_unique. destruct (contains d x) eqn:Ec; destruct (f x) eqn:Ef; rewrite ?List.filter_app; simpl; rewrite ?Ef, ?app_nil_r; try done.
    - rewrite (proj2 (contains_true _ _)); [done |]. apply elem_of_lfilter. split; [by apply contains_true | done].
    - rewrite (proj2 (contains_false _ _)); [done |]. intros [Hin _]%elem_of_lfilter. by apply contains_false in Ec. }
  rewrite IH. destruct (f x); [by rewrite foldl_app | by rewrite app_nil_r].
Qed.

Lemma sort_insert_map {A B} (c : B -> B -> comparison) (d : A -> A -> comparison) (g : A -> B) : (forall x y, c (g x) (g y) = d x y) ->
  forall x l, sort_insert c (g x) (map g l) = map g (sort_insert d x l).
Proof. intros Hc x l. induction l as [|y l IH]; [done |]. simpl. rewrite Hc. destruct (d y x); simpl; try done. by rewrite IH. Qed.

Lemma sort_func_map {A B} (c : B -> B -> comparison) (d : A -> A -> comparison) (g : A -> B) l : (forall x y, c (g x) (g y) = d x y) ->
  sort_func c (map g l) = map g (sort_func d l).
Proof. intros Hc. induction l as [|x l IH]; [done |]. simpl. rewrite IH. by apply sort_insert_map. Qed.

(** ** Maps

    A Go map is a [gmap]; [slices.Sorted(maps.Keys(m))] of a map keyed by
    strings. *)
Definition sorted_keys {A} (m : gmap string A) : list string :=
  sort_func String.compare (map_to_list m).*1.

Lemma elem_of_sorted_keys {A} (m : gmap string A) k : k ∈ sorted_keys m <-> is_Some (m !! k).
Proof.
  unfold sorted_keys. rewrite elem_of_sort_func, list_elem_of_fmap. split.
  - intros ([k' a] & -> & H). apply elem_of_map_to_list in H. by exists a.
  - intros [a H]. exists (k, a). split; [done |]. by apply elem_of_map_to_list.
Qed.

Lemma NoDup_sorted_keys {A} (m : gmap string A) : NoDup (sorted_keys m).
Proof. unfold sorted_keys. rewrite sort_func_perm. apply NoDup_fst_map_to_list. Qed.

(** A loop that appends each value to the list of its key. *)
Lemma group_lookup {A B} (key : A -> N) (val : A -> B) l k :
  default [] (foldl (fun (m : gmap N (list B)) a => <[key a := default [] (m !! key a) ++ [val a]]> m) ∅ l !! k) =
    map val (List.filter (fun a => bool_decide (key a = k)) l).
Proof.
  induction l as [|a l IH] using rev_ind; [done |]. rewrite foldl_app, List.filter_app, map_app. simpl.
  destruct (decide (key a = k)) as [<-|Hne].
  - rewrite bool_decide_eq_true_2, lookup_insert_eq by done. simpl. by rewrite IH.
  - rewrite bool_decide_eq_false_2, lookup_insert_ne by done. simpl. by rewrite app_nil_r.
Qed.
