(* ===== verification/Types.v ===== *)
(** The domain types the packages share, [server/internal/types]: asset
    classes and their tree, identifier types and their traits, identifiers,
    instruments and market tickers. *)
From S2P Require Import Prelude.

(** * Asset classes, [asset_class.go] *)

(** The [asset_class] enum. [AssetClassNone] is Go's empty string: a source
    that states no class, and the parent of the root. *)
Inductive AssetClass : Type :=
| AssetClassNone
| AssetClassUnknown
| AssetClassCash
| AssetClassSecurity
| AssetClassEquity
| AssetClassStock
| AssetClassEtf
| AssetClassMutualFund
| AssetClassFixedIncome
| AssetClassDerivative
| AssetClassOption
| AssetClassFuture.

#[export] Instance AssetClass_eq_dec : EqDecision AssetClass.
Proof. solve_decision. Defined.

Definition AssetClasses : list AssetClass :=
  [AssetClassUnknown; AssetClassCash; AssetClassSecurity; AssetClassEquity;
   AssetClassStock; AssetClassEtf; AssetClassMutualFund; AssetClassFixedIncome;
   AssetClassDerivative; AssetClassOption; AssetClassFuture].

(** The word the enum spells each class by. *)
Definition AssetClass_string (e : AssetClass) : string :=
  match e with
  | AssetClassNone => ""
  | AssetClassUnknown => "unknown"
  | AssetClassCash => "cash"
  | AssetClassSecurity => "security"
  | AssetClassEquity => "equity"
  | AssetClassStock => "stock"
  | AssetClassEtf => "etf"
  | AssetClassMutualFund => "mutual_fund"
  | AssetClassFixedIncome => "fixed_income"
  | AssetClassDerivative => "derivative"
  | AssetClassOption => "option"
  | AssetClassFuture => "future"
  end%string.

Definition AssetClass_Valid (e : AssetClass) : bool := contains AssetClasses e.

(** [parents], the tree: the root maps to the empty class, and so does the
    empty class, which the map lacks. *)
Definition parents (e : AssetClass) : AssetClass :=
  match e with
  | AssetClassNone => AssetClassNone
  | AssetClassUnknown => AssetClassNone
  | AssetClassCash => AssetClassUnknown
  | AssetClassSecurity => AssetClassUnknown
  | AssetClassEquity => AssetClassSecurity
  | AssetClassStock => AssetClassEquity
  | AssetClassEtf => AssetClassEquity
  | AssetClassMutualFund => AssetClassEquity
  | AssetClassFixedIncome => AssetClassSecurity
  | AssetClassDerivative => AssetClassSecurity
  | AssetClassOption => AssetClassDerivative
  | AssetClassFuture => AssetClassDerivative
  end.

Definition Parent (e : AssetClass) : AssetClass := parents e.

(** The loop of [under]: from [c] up the tree until the empty class. [None] is
    a walk the fuel does not finish. *)
Fixpoint under_loop (fuel : nat) (c o : AssetClass) : option bool :=
  match fuel with
  | O => None
  | S n =>
      if bool_decide (c = AssetClassNone) then Some false
      else if bool_decide (c = o) then Some true
      else under_loop n (Parent c) o
  end.

(** A walk visits each class at most once, so the classes bound it. *)
Definition under (e o : AssetClass) : bool :=
  default false (under_loop (S (length AssetClasses)) e o).

Definition Disjoint (e o : AssetClass) : bool := negb (under e o) && negb (under o e).

Definition Restated (e : AssetClass) : bool :=
  bool_decide (e = AssetClassEquity) || under e AssetClassStock || under e AssetClassEtf.

(** * Identifier types and their traits, [identifier.go] and [trait.go] *)

Inductive IdentifierType : Type :=
| IdentifierTypeIsin
| IdentifierTypeCusip
| IdentifierTypeCins
| IdentifierTypeWertpapier
| IdentifierTypeOpenfigiShareClass
| IdentifierTypeSedol
| IdentifierTypeOpenfigiComposite
| IdentifierTypeMicTicker
| IdentifierTypeOcc
| IdentifierTypeCurrency
| IdentifierTypeDatasourceTicker
| IdentifierTypeBrokerID
| IdentifierTypeBrokerDescription
| IdentifierTypeOption.

#[export] Instance IdentifierType_eq_dec : EqDecision IdentifierType.
Proof. solve_decision. Defined.

Definition IdentifierTypes : list IdentifierType :=
  [IdentifierTypeIsin; IdentifierTypeCusip; IdentifierTypeCins;
   IdentifierTypeWertpapier; IdentifierTypeOpenfigiShareClass;
   IdentifierTypeSedol; IdentifierTypeOpenfigiComposite;
   IdentifierTypeMicTicker; IdentifierTypeOcc; IdentifierTypeCurrency;
   IdentifierTypeDatasourceTicker; IdentifierTypeBrokerID;
   IdentifierTypeBrokerDescription; IdentifierTypeOption].

Definition IdentifierType_string (e : IdentifierType) : string :=
  match e with
  | IdentifierTypeIsin => "isin"
  | IdentifierTypeCusip => "cusip"
  | IdentifierTypeCins => "cins"
  | IdentifierTypeWertpapier => "wertpapier"
  | IdentifierTypeOpenfigiShareClass => "openfigi_share_class"
  | IdentifierTypeSedol => "sedol"
  | IdentifierTypeOpenfigiComposite => "openfigi_composite"
  | IdentifierTypeMicTicker => "mic_ticker"
  | IdentifierTypeOcc => "occ"
  | IdentifierTypeCurrency => "currency"
  | IdentifierTypeDatasourceTicker => "datasource_ticker"
  | IdentifierTypeBrokerID => "broker_id"
  | IdentifierTypeBrokerDescription => "broker_description"
  | IdentifierTypeOption => "option"
  end%string.

#[export] Instance IdentifierType_countable : Countable IdentifierType.
Proof.
  refine (inj_countable IdentifierType_string
    (fun s => find_func (fun e => bool_decide (IdentifierType_string e = s)) IdentifierTypes) _).
  by intros [].
Defined.

Lemma IdentifierType_string_inj t u : IdentifierType_string t = IdentifierType_string u -> t = u.
Proof. by destruct t, u. Qed.

Inductive IdentifierDomain : Type :=
| IdentifierDomainGlobal
| IdentifierDomainVenue
| IdentifierDomainIssuer.

#[export] Instance IdentifierDomain_eq_dec : EqDecision IdentifierDomain.
Proof. solve_decision. Defined.

Inductive IdentifierGrain : Type :=
| IdentifierGrainInstr
| IdentifierGrainListing.

#[export] Instance IdentifierGrain_eq_dec : EqDecision IdentifierGrain.
Proof. solve_decision. Defined.

Inductive IdentifierReassignment : Type :=
| IdentifierReassignmentStable
| IdentifierReassignmentMicDerived
| IdentifierReassignmentUnverifiable.

#[export] Instance IdentifierReassignment_eq_dec : EqDecision IdentifierReassignment.
Proof. solve_decision. Defined.

Record Trait : Type := MkTrait {
  trait_Domain : IdentifierDomain;
  trait_Grain : IdentifierGrain;
  trait_Reassignment : IdentifierReassignment;
  trait_Exclusive : bool;
  trait_NameRank : Z;
}.

(** The table [traits]. *)
Definition traits (t : IdentifierType) : Trait :=
  match t with
  | IdentifierTypeIsin => MkTrait IdentifierDomainGlobal IdentifierGrainInstr IdentifierReassignmentStable true 7
  | IdentifierTypeCusip => MkTrait IdentifierDomainGlobal IdentifierGrainInstr IdentifierReassignmentStable true 8
  | IdentifierTypeCins => MkTrait IdentifierDomainGlobal IdentifierGrainInstr IdentifierReassignmentStable true 10
  | IdentifierTypeWertpapier => MkTrait IdentifierDomainGlobal IdentifierGrainInstr IdentifierReassignmentStable true 11
  | IdentifierTypeOpenfigiShareClass => MkTrait IdentifierDomainGlobal IdentifierGrainInstr IdentifierReassignmentStable true 14
  | IdentifierTypeSedol => MkTrait IdentifierDomainGlobal IdentifierGrainListing IdentifierReassignmentStable true 9
  | IdentifierTypeOpenfigiComposite => MkTrait IdentifierDomainGlobal IdentifierGrainListing IdentifierReassignmentStable false 12
  | IdentifierTypeMicTicker => MkTrait IdentifierDomainVenue IdentifierGrainListing IdentifierReassignmentMicDerived true 4
  | IdentifierTypeOcc => MkTrait IdentifierDomainGlobal IdentifierGrainInstr IdentifierReassignmentMicDerived true 1
  | IdentifierTypeCurrency => MkTrait IdentifierDomainGlobal IdentifierGrainInstr IdentifierReassignmentStable true 3
  | IdentifierTypeDatasourceTicker => MkTrait IdentifierDomainIssuer IdentifierGrainListing IdentifierReassignmentMicDerived true 6
  | IdentifierTypeBrokerID => MkTrait IdentifierDomainIssuer IdentifierGrainInstr IdentifierReassignmentStable true 15
  | IdentifierTypeBrokerDescription => MkTrait IdentifierDomainIssuer IdentifierGrainInstr IdentifierReassignmentUnverifiable false 5
  | IdentifierTypeOption => MkTrait IdentifierDomainGlobal IdentifierGrainInstr IdentifierReassignmentMicDerived true 2
  end.

(** * Identifiers *)

(** One identifier triple; the domain is empty where the type has none. *)
Record Identifier : Type := MkIdentifier {
  id_Type : IdentifierType;
  id_Domain : string;
  id_Value : string;
}.

#[export] Instance Identifier_eq_dec : EqDecision Identifier.
Proof. solve_decision. Defined.

#[export] Instance Identifier_countable : Countable Identifier.
Proof.
  refine (inj_countable' (fun i => (id_Type i, id_Domain i, id_Value i))
    (fun '(t, d, v) => MkIdentifier t d v) _).
  by intros [].
Defined.

Definition IsDomain (i : Identifier) : bool :=
  bool_decide (id_Value i = "") && negb (bool_decide (id_Domain i = "")).

Definition Name (i : Identifier) : string :=
  if bool_decide (id_Domain i = "")
  then IdentifierType_string (id_Type i) +:+ " " +:+ id_Value i
  else IdentifierType_string (id_Type i) +:+ " " +:+ id_Domain i +:+ ":" +:+ id_Value i.

Definition IsGlobal (i : Identifier) : bool :=
  match trait_Domain (traits (id_Type i)) with
  | IdentifierDomainGlobal => true
  | IdentifierDomainVenue => negb (bool_decide (id_Domain i = ""))
  | IdentifierDomainIssuer => false
  end.

Definition Joining (i : Identifier) : bool :=
  bool_decide (trait_Domain (traits (id_Type i)) = IdentifierDomainGlobal)
  || negb (bool_decide (id_Domain i = "")).

Definition Grain (i : Identifier) : IdentifierGrain := trait_Grain (traits (id_Type i)).

Definition Exclusive (i : Identifier) : bool := trait_Exclusive (traits (id_Type i)).

Definition Stable (i : Identifier) : bool :=
  bool_decide (trait_Reassignment (traits (id_Type i)) = IdentifierReassignmentStable).

Definition Ticker (i : Identifier) : bool :=
  bool_decide (id_Type i = IdentifierTypeMicTicker)
  || bool_decide (id_Type i = IdentifierTypeDatasourceTicker).

(** The rank of [i], the strongest first. *)
Definition Strength (i : Identifier) : Z :=
  let n := 0 in
  let n := if bool_decide (trait_Domain (traits (id_Type i)) = IdentifierDomainIssuer) then n + 4 else n in
  let n := if negb (Stable i) then n + 2 else n in
  if bool_decide (Grain i = IdentifierGrainListing) then n + 1 else n.

(** * Instruments, [instr.go] *)

Record Listing : Type := MkListing {
  listing_Identifiers : list Identifier;
  listing_Primary : string;
}.

(** The zero value a Go map answers for a family it lacks. *)
Definition Listing_zero : Listing := MkListing [] "".

Record Instr : Type := MkInstr {
  instr_Class : AssetClass;
  instr_Identifiers : list Identifier;
  instr_Listings : gmap string Listing;
}.

Definition listing_of (i : Instr) (f : string) : Listing :=
  default Listing_zero (instr_Listings i !! f).

(** [AllIDs]: the instrument's identifiers, then each listing's in family
    order. *)
Definition AllIDs (i : Instr) : list Identifier :=
  instr_Identifiers i ++
  concat (map (fun f => listing_Identifiers (listing_of i f)) (sorted_keys (instr_Listings i))).

Definition IdentifiedBy (i : Instr) (id : Identifier) : bool :=
  existsb (fun h => bool_decide (h = id)) (AllIDs i).

(** * Market tickers, [market_ticker.go] *)

Record MarketTicker : Type := MkMarketTicker {
  mt_Market : string;
  mt_Value : string;
}.

#[export] Instance MarketTicker_eq_dec : EqDecision MarketTicker.
Proof. solve_decision. Defined.

#[export] Instance MarketTicker_countable : Countable MarketTicker.
Proof.
  refine (inj_countable' (fun t => (mt_Market t, mt_Value t)) (fun '(m, v) => MkMarketTicker m v) _).
  by intros [].
Defined.

Definition MarketTicker_Name (t : MarketTicker) : string := mt_Market t +:+ ":" +:+ mt_Value t.

(** * Lemmas *)

(** [o] lies on the path from [e] to the root. *)
Inductive lies_under : AssetClass -> AssetClass -> Prop :=
| lies_under_refl e : e <> AssetClassNone -> lies_under e e
| lies_under_parent e o : e <> AssetClassNone -> lies_under (Parent e) o -> lies_under e o.

Lemma under_loop_fuel n c o : (length AssetClasses < n)%nat -> under_loop n c o = Some (under c o).
Proof.
  intros Hn. do 5 (destruct n as [|n]; [simpl in Hn; lia |]).
  by destruct c, o.
Qed.

Lemma under_unfold e o :
  under e o = (negb (bool_decide (e = AssetClassNone)) && (bool_decide (e = o) || under (Parent e) o)).
Proof. by destruct e, o. Qed.

Lemma under_refl e : e <> AssetClassNone -> under e e = true.
Proof. by destruct e. Qed.

#[global] Opaque under.

Lemma under_spec e o : under e o = true <-> lies_under e o.
Proof.
  split.
  - intros H. by destruct e, o; try discriminate H; repeat (first [by apply lies_under_refl | apply lies_under_parent; [done |]; simpl]).
  - induction 1 as [e He | e o He _ IH]; rewrite under_unfold; by repeat case_bool_decide; simpl.
Qed.

(** [Disjoint] holds exactly where the tree has no class under both. *)
Lemma Disjoint_spec e o :
  e <> AssetClassNone -> o <> AssetClassNone ->
  Disjoint e o = true <-> ~ exists c, lies_under c e /\ lies_under c o.
Proof.
  intros He Ho. setoid_rewrite <- under_spec. split.
  - intros H (c & H1 & H2). by destruct e, o; try discriminate H; destruct c; discriminate.
  - intros H. destruct (Disjoint e o) eqn:E; [done |]. exfalso. apply H.
    unfold Disjoint in E. rewrite andb_false_iff, !negb_false_iff in E.
    destruct E as [E|E].
    + exists e. split; [by apply under_refl | exact E].
    + exists o. split; [exact E | by apply under_refl].
Qed.

Lemma Disjoint_comm e o : Disjoint e o = Disjoint o e.
Proof. apply andb_comm. Qed.

Lemma Restated_spec e :
  Restated e = true <-> e = AssetClassEquity \/ lies_under e AssetClassStock \/ lies_under e AssetClassEtf.
Proof.
  unfold Restated. rewrite !orb_true_iff, bool_decide_eq_true, !under_spec. tauto.
Qed.

Lemma IsGlobal_Joining i : IsGlobal i = true -> Joining i = true.
Proof.
  unfold IsGlobal, Joining. by destruct (trait_Domain _).
Qed.

Lemma elem_of_AllIDs i id :
  id ∈ AllIDs i <->
  id ∈ instr_Identifiers i \/ exists f l, instr_Listings i !! f = Some l /\ id ∈ listing_Identifiers l.
Proof.
  unfold AllIDs. rewrite elem_of_app, (list_elem_of_In (concat _)), in_concat. split.
  - intros [H|(x & Hx & Hid)]; [by left | right].
    apply in_map_iff in Hx as (f & <- & Hf). apply list_elem_of_In in Hf, Hid.
    apply elem_of_sorted_keys in Hf as [l Hl]. exists f, l. unfold listing_of in Hid. by rewrite Hl in Hid.
  - intros [H|(f & l & Hl & Hid)]; [by left | right].
    exists (listing_Identifiers (listing_of i f)). split.
    + apply in_map_iff. exists f. split; [done |]. apply list_elem_of_In, elem_of_sorted_keys. by exists l.
    + apply list_elem_of_In. unfold listing_of. by rewrite Hl.
Qed.

Lemma IdentifiedBy_spec i id : IdentifiedBy i id = true <-> id ∈ AllIDs i.
Proof.
  unfold IdentifiedBy. rewrite existsb_elem. split.
  - by intros (x & Hx & ->%bool_decide_eq_true).
  - intros H. exists id. by rewrite bool_decide_true.
Qed.

Lemma Strength_bounds i : 0 <= Strength i <= 7.
Proof. unfold Strength. repeat case_match; lia. Qed.
