(* ===== verification/Period.v ===== *)
(** Half open ranges of days, [server/internal/types/period.go]. *)
From S2P Require Import Prelude.

(** * Definitions *)

(** The UTC day of [t], as a UTC midnight. *)
Definition Day (t : time) : time := t / day_len * day_len.

(** A range of days: it holds [p_From] and the days up to [p_Before], which it
    does not hold. *)
Record Period : Type := MkPeriod {
  p_From : time;
  p_Before : time;
}.

#[export] Instance Period_eq_dec : EqDecision Period.
Proof. solve_decision. Defined.

Definition Contains (p : Period) (d : time) : bool :=
  negb (d <? p_From p) && (d <? p_Before p).

Definition Clip (p q : Period) : Period * bool :=
  let p := if p_From p <? p_From q then MkPeriod (p_From q) (p_Before p) else p in
  let p := if p_Before q <? p_Before p then MkPeriod (p_From p) (p_Before q) else p in
  (p, p_From p <? p_Before p).

(** [Clip] as its callers use it: [None] where the two share no day. *)
Definition clip_opt (p q : Period) : option Period :=
  let '(c, ok) := Clip p q in if ok then Some c else None.

(** One turn of the loop of [Union]. [out] is the slice built so far, its last
    element first. *)
Definition union_step (out : list Period) (p : Period) : list Period :=
  match out with
  | [] => [p]
  | l :: out' =>
      if negb (p_Before l <? p_From p)
      then if p_Before l <? p_Before p then MkPeriod (p_From l) (p_Before p) :: out' else out
      else p :: out
  end.

Definition Union (ps : list Period) : list Period :=
  rev (foldl union_step [] (sort_func (cmp_on p_From Z.compare) ps)).

Definition AnyContains (ps : list Period) (d : time) : bool :=
  existsb (fun p => Contains p d) ps.

(** The loop of [Gaps] over the joined cover, from the day [d]. *)
Fixpoint gaps_loop (cover : list Period) (p : Period) (d : time) : list Period :=
  match cover with
  | [] => if d <? p_Before p then [MkPeriod d (p_Before p)] else []
  | c :: cover' =>
      match clip_opt c p with
      | None => gaps_loop cover' p d
      | Some c =>
          if d <? p_From c
          then MkPeriod d (p_From c) :: gaps_loop cover' p (p_Before c)
          else gaps_loop cover' p (p_Before c)
      end
  end.

Definition Gaps (covered : list Period) (p : Period) : list Period :=
  gaps_loop (Union covered) p (p_From p).

Definition OneDay (t : time) : Period :=
  let d := Day t in MkPeriod d (AddDays d 1).

(** [a] ends before [b] starts, so the two neither overlap nor meet. *)
Definition apart (a b : Period) : Prop := p_Before a < p_From b.

(** [a] ends no later than [b] starts. *)
Definition precedes (a b : Period) : Prop := p_Before a <= p_From b.

Definition p_nonempty (p : Period) : Prop := p_From p < p_Before p.

Arguments AnyContains : simpl never.
Arguments Contains : simpl never.

(** * Lemmas *)

Lemma Contains_spec p d : Contains p d = true <-> p_From p <= d < p_Before p.
Proof. unfold Contains. lia. Qed.

Lemma Contains_false p d : Contains p d = false <-> ~ (p_From p <= d < p_Before p).
Proof. unfold Contains. lia. Qed.

Lemma clip_opt_eq p q :
  clip_opt p q =
    let c := MkPeriod (Z.max (p_From p) (p_From q)) (Z.min (p_Before p) (p_Before q)) in
    if p_From c <? p_Before c then Some c else None.
Proof.
  unfold clip_opt, Clip. destruct p as [a b], q as [c d]; simpl.
  destruct (Z.ltb_spec a c); simpl; destruct (Z.ltb_spec d b); simpl;
    [rewrite Z.max_r, Z.min_r | rewrite Z.max_r, Z.min_l |
     rewrite Z.max_l, Z.min_r | rewrite Z.max_l, Z.min_l]; done || lia.
Qed.

Lemma clip_opt_Some p q c :
  clip_opt p q = Some c ->
  p_From c = Z.max (p_From p) (p_From q) /\ p_Before c = Z.min (p_Before p) (p_Before q) /\ p_nonempty c.
Proof.
  rewrite clip_opt_eq. simpl. unfold p_nonempty. case_match eqn:E; [| done]. intros [= <-]; simpl. lia.
Qed.

(** The clip holds the days that both hold, and it is missing where there are
    none. *)
Lemma clip_opt_contains p q d :
  (Contains p d && Contains q d) = match clip_opt p q with Some c => Contains c d | None => false end.
Proof.
  rewrite clip_opt_eq. simpl. apply eq_true_iff_eq.
  rewrite andb_true_iff, !Contains_spec. destruct (_ <? _) eqn:E; rewrite ?Contains_spec; simpl; lia.
Qed.

Lemma AnyContains_spec ps d : AnyContains ps d = true <-> exists p, p ∈ ps /\ Contains p d = true.
Proof. apply existsb_elem. Qed.

Lemma AnyContains_cons p ps d : AnyContains (p :: ps) d = Contains p d || AnyContains ps d.
Proof. done. Qed.

Lemma AnyContains_app ps qs d : AnyContains (ps ++ qs) d = AnyContains ps d || AnyContains qs d.
Proof. apply existsb_app. Qed.

Lemma AnyContains_perm ps qs d : ps ≡ₚ qs -> AnyContains ps d = AnyContains qs d.
Proof.
  intros H. apply eq_true_iff_eq. rewrite !AnyContains_spec. by setoid_rewrite H.
Qed.

#[export] Instance AnyContains_Proper : Proper ((≡ₚ) ==> (=) ==> (=)) AnyContains.
Proof. intros ps qs H d ? <-. by apply AnyContains_perm. Qed.

Lemma AnyContains_rev ps d : AnyContains (rev ps) d = AnyContains ps d.
Proof. rewrite <- Permutation_rev. done. Qed.

Lemma union_step_contains out p d :
  (forall l, hd_error out = Some l -> p_From l <= p_From p) ->
  AnyContains (union_step out p) d = AnyContains out d || Contains p d.
Proof.
  intros Hhd. destruct out as [|l out]; [by unfold AnyContains; simpl; rewrite orb_false_r |].
  specialize (Hhd l eq_refl). unfold AnyContains in *. simpl.
  repeat case_match; simpl; destruct (existsb _ out); rewrite ?orb_true_r, ?orb_false_r; try done;
    apply eq_true_iff_eq; rewrite ?orb_true_iff, ?Contains_spec; simpl; lia.
Qed.

Lemma hd_union_step out p l :
  (forall l, hd_error out = Some l -> p_From l <= p_From p) ->
  hd_error (union_step out p) = Some l -> p_From l <= p_From p.
Proof.
  intros Hhd. destruct out as [|m out]; simpl; [by intros [= <-] |]. specialize (Hhd m eq_refl).
  repeat case_match; simpl; intros [= <-]; simpl; done.
Qed.

Abbreviation by_From := (cmp_on p_From Z.compare).

Lemma union_fold_contains ps out d :
  StronglySorted (cmp_le by_From) ps ->
  (forall l p, hd_error out = Some l -> p ∈ ps -> p_From l <= p_From p) ->
  AnyContains (foldl union_step out ps) d = AnyContains out d || AnyContains ps d.
Proof.
  intros Hs. revert out. induction Hs as [|p ps _ IH Hp]; intros out Hout; simpl; [by rewrite orb_false_r |].
  rewrite Forall_forall in Hp. unfold cmp_le, cmp_on in Hp. setoid_rewrite Z.compare_le_iff in Hp.
  rewrite IH, union_step_contains, AnyContains_cons.
  - by rewrite orb_assoc.
  - intros l Hl. apply (Hout l p Hl). left.
  - intros l q Hl Hq. apply hd_union_step in Hl.
    + specialize (Hp q Hq). lia.
    + intros m Hm. apply (Hout m p Hm). left.
Qed.

(** The list built so far, its last period first: each period starts after the
    one before it ends. *)
Lemma union_step_apart out p :
  p_nonempty p -> Forall p_nonempty out ->
  StronglySorted (flip apart) out -> StronglySorted (flip apart) (union_step out p).
Proof.
  unfold p_nonempty. intros Hp Hne Hs. destruct out as [|l out]; simpl; [by repeat constructor |].
  inversion_clear Hs as [|? ? Hs' Hl]. inversion_clear Hne as [|? ? Hnel Hneo].
  repeat case_match; repeat constructor; try done; unfold flip, apart in *; simpl.
  - lia.
  - eapply Forall_impl; [exact Hl |]. simpl. lia.
Qed.

Lemma union_step_nonempty out p :
  p_nonempty p -> Forall p_nonempty out -> Forall p_nonempty (union_step out p).
Proof.
  unfold p_nonempty. intros Hp Hne. destruct out as [|l out]; simpl; [by repeat constructor |].
  inversion_clear Hne. repeat case_match; repeat constructor; try done. simpl. lia.
Qed.

Lemma union_fold_inv ps out :
  Forall p_nonempty ps -> Forall p_nonempty out -> StronglySorted (flip apart) out ->
  Forall p_nonempty (foldl union_step out ps) /\ StronglySorted (flip apart) (foldl union_step out ps).
Proof.
  revert out. induction ps as [|p ps IH]; intros out Hps Hne Hs; simpl; [done |].
  inversion_clear Hps. apply IH; [done | by apply union_step_nonempty | by apply union_step_apart].
Qed.

Lemma StronglySorted_rev {A} (R : relation A) l :
  StronglySorted (flip R) l -> StronglySorted R (rev l).
Proof.
  induction 1 as [|x l _ IH Hx]; simpl; [constructor |].
  apply StronglySorted_app_2; [| done | by repeat constructor].
  intros y z Hy Hz. apply list_elem_of_singleton in Hz as ->.
  rewrite Forall_forall in Hx. apply Hx. by rewrite Permutation_rev.
Qed.

Lemma Union_apart ps :
  Forall p_nonempty ps -> Forall p_nonempty (Union ps) /\ StronglySorted apart (Union ps).
Proof.
  intros Hps. unfold Union.
  destruct (union_fold_inv (sort_func by_From ps) []) as [H1 H2]; try by constructor.
  { by rewrite sort_func_perm. }
  split; [by rewrite <- Permutation_rev | by apply StronglySorted_rev].
Qed.

Lemma Union_contains ps d : AnyContains (Union ps) d = AnyContains ps d.
Proof.
  unfold Union. rewrite AnyContains_rev, union_fold_contains.
  - simpl. apply AnyContains_perm, sort_func_perm.
  - apply sort_func_sorted, _.
  - done.
Qed.

Lemma AnyContains_apart_tail p ps d :
  p_nonempty p -> StronglySorted apart (p :: ps) ->
  AnyContains ps d = AnyContains (p :: ps) d && negb (Contains p d).
Proof.
  unfold p_nonempty. intros Hp Hs. inversion_clear Hs as [|? ? _ Hf]. rewrite AnyContains_cons.
  destruct (Contains p d) eqn:E; simpl; [| by rewrite andb_true_r].
  apply existsb_false. intros q Hq. rewrite Forall_forall in Hf. specialize (Hf q Hq). unfold apart in Hf.
  apply Contains_spec in E. apply Contains_false. lia.
Qed.

Lemma apart_hd_le p ps q : p_nonempty p -> StronglySorted apart (p :: ps) -> q ∈ p :: ps -> p_From p <= p_From q.
Proof.
  unfold p_nonempty. intros Hp Hs Hq. inversion_clear Hs as [|? ? _ Hf].
  apply elem_of_cons in Hq as [->|Hq]; [lia |].
  rewrite Forall_forall in Hf. specialize (Hf q Hq). unfold apart in Hf. lia.
Qed.

(** Of two lists with the same days, the first period of the one starts and
    ends no earlier than that of the other. *)
Lemma apart_hd_From p ps q qs :
  Forall p_nonempty (p :: ps) -> Forall p_nonempty (q :: qs) -> StronglySorted apart (q :: qs) ->
  (forall d, AnyContains (p :: ps) d = AnyContains (q :: qs) d) -> p_From q <= p_From p.
Proof.
  intros Hp Hq Hs Hd. inversion_clear Hp as [|? ? Hpp _]. inversion_clear Hq as [|? ? Hqq _].
  specialize (Hd (p_From p)). rewrite AnyContains_cons in Hd.
  replace (Contains p (p_From p)) with true in Hd
    by (symmetry; apply Contains_spec; unfold p_nonempty in Hpp; lia).
  symmetry in Hd. simpl in Hd. apply AnyContains_spec in Hd as (r & Hr & Hc).
  apply (apart_hd_le q qs) in Hr; [| done | done]. apply Contains_spec in Hc. lia.
Qed.

Lemma apart_hd_Before p ps q qs :
  Forall p_nonempty (p :: ps) -> Forall p_nonempty (q :: qs) ->
  StronglySorted apart (p :: ps) -> StronglySorted apart (q :: qs) ->
  (forall d, AnyContains (p :: ps) d = AnyContains (q :: qs) d) -> p_Before q <= p_Before p.
Proof.
  intros Hp Hq Hsp Hsq Hd.
  pose proof (apart_hd_From p ps q qs Hp Hq Hsq Hd) as H1.
  pose proof (apart_hd_From q qs p ps Hq Hp Hsp (fun d => eq_sym (Hd d))) as H2.
  inversion_clear Hp as [|? ? Hpp _]. unfold p_nonempty in Hpp.
  destruct (Z.le_gt_cases (p_Before q) (p_Before p)) as [?|Hlt]; [done | exfalso].
  specialize (Hd (p_Before p)). rewrite !AnyContains_cons in Hd.
  replace (Contains q (p_Before p)) with true in Hd by (symmetry; apply Contains_spec; lia).
  replace (Contains p (p_Before p)) with false in Hd by (symmetry; apply Contains_false; lia).
  simpl in Hd. apply AnyContains_spec in Hd as (r & Hr & Hc).
  inversion_clear Hsp as [|? ? _ Hf]. rewrite Forall_forall in Hf.
  specialize (Hf r Hr). unfold apart in Hf. apply Contains_spec in Hc. lia.
Qed.

(** The days determine periods that neither overlap nor meet. *)
Lemma apart_unique ps qs :
  Forall p_nonempty ps -> Forall p_nonempty qs ->
  StronglySorted apart ps -> StronglySorted apart qs ->
  (forall d, AnyContains ps d = AnyContains qs d) -> ps = qs.
Proof.
  revert qs. induction ps as [|p ps IH]; intros qs Hp Hq Hsp Hsq Hd.
  - destruct qs as [|q qs]; [done | exfalso]. inversion_clear Hq as [|? ? Hqq _].
    specialize (Hd (p_From q)). rewrite AnyContains_cons in Hd.
    replace (Contains q (p_From q)) with true in Hd; [done |].
    symmetry. apply Contains_spec. unfold p_nonempty in Hqq. lia.
  - destruct qs as [|q qs].
    { exfalso. inversion_clear Hp as [|? ? Hpp _]. specialize (Hd (p_From p)). rewrite AnyContains_cons in Hd.
      replace (Contains p (p_From p)) with true in Hd; [done |].
      symmetry. apply Contains_spec. unfold p_nonempty in Hpp. lia. }
    assert (p = q) as <-.
    { destruct p as [a b], q as [c e].
      pose proof (apart_hd_From _ _ _ _ Hp Hq Hsq Hd). pose proof (apart_hd_Before _ _ _ _ Hp Hq Hsp Hsq Hd).
      pose proof (apart_hd_From _ _ _ _ Hq Hp Hsp (fun d => eq_sym (Hd d))).
      pose proof (apart_hd_Before _ _ _ _ Hq Hp Hsq Hsp (fun d => eq_sym (Hd d))).
      simpl in *. f_equal; lia. }
    f_equal. inversion Hp; inversion Hq; subst. apply IH; try done.
    + by inversion Hsp.
    + by inversion Hsq.
    + intros d. rewrite (AnyContains_apart_tail p ps), (AnyContains_apart_tail p qs), Hd by done. done.
Qed.

(** [Union] depends only on the days of its periods: neither on their order nor
    on the order a sort gives periods that start together. *)
Lemma Union_ext ps qs :
  Forall p_nonempty ps -> Forall p_nonempty qs ->
  (forall d, AnyContains ps d = AnyContains qs d) -> Union ps = Union qs.
Proof.
  intros Hp Hq Hd. destruct (Union_apart ps Hp), (Union_apart qs Hq).
  apply apart_unique; try done. intros d. by rewrite !Union_contains.
Qed.

(** The loop of [Gaps] leaves the days of [p] from [e] on that no cover holds. *)
Lemma gaps_loop_spec cover p e :
  Forall p_nonempty cover -> StronglySorted apart cover ->
  (forall c, c ∈ cover -> e <= Z.max (p_From c) (p_From p)) -> p_From p <= e ->
  (forall d, AnyContains (gaps_loop cover p e) d =
     (e <=? d) && (d <? p_Before p) && negb (AnyContains cover d)) /\
  Forall p_nonempty (gaps_loop cover p e) /\ StronglySorted apart (gaps_loop cover p e) /\
  Forall (fun g => e <= p_From g) (gaps_loop cover p e).
Proof.
  intros Hne Hs. revert e. induction Hs as [|c cover Hs IH Hc]; intros e He Hp; simpl.
  { destruct (e <? p_Before p) eqn:E; unfold p_nonempty.
    - repeat split; repeat constructor; simpl; try lia. intros d. unfold AnyContains, Contains; simpl. lia.
    - repeat split; repeat constructor. intros d. unfold AnyContains; simpl. lia. }
  inversion_clear Hne as [|? ? Hcne Hne']. rewrite Forall_forall in Hc. unfold apart, p_nonempty in *.
  pose proof (He c ltac:(left)) as Hec.
  destruct (clip_opt c p) as [k|] eqn:Ek.
  - pose proof (clip_opt_Some _ _ _ Ek) as (Hk1 & Hk2 & Hk3). unfold p_nonempty in Hk3.
    destruct (IH Hne' (p_Before k)) as (IHd & IHne & IHs & IHf); [| lia |].
    { intros r Hr. specialize (Hc r Hr). lia. }
    assert (forall d, (p_Before k <=? d) && (d <? p_Before p) && negb (AnyContains cover d) =
      (p_From k <=? d) && (d <? p_Before p) && negb (AnyContains (c :: cover) d)) as Hday.
    { intros d. rewrite AnyContains_cons. destruct (AnyContains cover d) eqn:Ea.
      - apply AnyContains_spec in Ea as (r & Hr & Hrd). rewrite orb_true_r. simpl. lia.
      - unfold Contains. lia. }
    destruct (e <? p_From k) eqn:E.
    + repeat split.
      * intros d. rewrite AnyContains_cons, IHd, Hday. rewrite AnyContains_cons.
        destruct (AnyContains cover d) eqn:Ea; [| unfold Contains; simpl; lia].
        apply AnyContains_spec in Ea as (r & Hr & Hrd). specialize (Hc r Hr).
        apply Contains_spec in Hrd. rewrite orb_true_r, !andb_false_r, orb_false_r.
        apply Contains_false. simpl. lia.
      * constructor; [simpl; lia | done].
      * constructor; [done |]. eapply Forall_impl; [exact IHf |]. simpl. lia.
      * constructor; [simpl; lia |]. eapply Forall_impl; [exact IHf |]. simpl. lia.
    + repeat split; try done.
      * intros d. rewrite IHd, Hday. do 2 f_equal. lia.
      * eapply Forall_impl; [exact IHf |]. simpl. lia.
  - destruct (IH Hne' e) as (IHd & IHne & IHs & IHf); [| lia |].
    { intros r Hr. apply He. by right. }
    repeat split; try done. intros d. rewrite IHd, AnyContains_cons.
    destruct (AnyContains cover d); [by rewrite orb_true_r, !andb_false_r |].
    pose proof (clip_opt_contains c p d) as Hcd. rewrite Ek in Hcd. unfold Contains in *. lia.
Qed.

Lemma Gaps_spec covered p :
  Forall p_nonempty covered ->
  (forall d, AnyContains (Gaps covered p) d = Contains p d && negb (AnyContains covered d)) /\
  Forall p_nonempty (Gaps covered p) /\ StronglySorted apart (Gaps covered p).
Proof.
  intros Hne. destruct (Union_apart covered Hne) as [H1 H2]. unfold Gaps.
  destruct (gaps_loop_spec (Union covered) p (p_From p)) as (Hd & Hn & Hs & _); try done; [lia |].
  repeat split; try done. intros d. rewrite Hd, Union_contains. unfold Contains. f_equal. lia.
Qed.

Lemma Gaps_contains covered p d :
  Forall p_nonempty covered ->
  AnyContains (Gaps covered p) d = Contains p d && negb (AnyContains covered d).
Proof. intros. by apply Gaps_spec. Qed.

Lemma Gaps_nil covered p :
  Forall p_nonempty covered ->
  Gaps covered p = [] <-> forall d, Contains p d = true -> AnyContains covered d = true.
Proof.
  intros Hne. destruct (Gaps_spec covered p Hne) as (Hd & Hn & _). split.
  - intros HG d Hp. specialize (Hd d). rewrite HG, Hp in Hd. simpl in Hd.
    destruct (AnyContains covered d); done.
  - intros H. destruct (Gaps covered p) as [|g gs]; [done | exfalso].
    inversion_clear Hn as [|? ? Hg _]. unfold p_nonempty in Hg. specialize (Hd (p_From g)).
    rewrite AnyContains_cons in Hd. replace (Contains g (p_From g)) with true in Hd
      by (symmetry; apply Contains_spec; lia).
    simpl in Hd. symmetry in Hd. apply andb_true_iff in Hd as [H1 H2]. rewrite (H _ H1) in H2. done.
Qed.

(** [Gaps] depends only on the days covered. *)
Lemma Gaps_ext cs ds p :
  Forall p_nonempty cs -> Forall p_nonempty ds ->
  (forall d, AnyContains cs d = AnyContains ds d) -> Gaps cs p = Gaps ds p.
Proof. intros. unfold Gaps. by rewrite (Union_ext cs ds). Qed.

(** The bounds of a union are bounds of its periods. *)
Lemma Union_bounds ps p :
  p ∈ Union ps -> (exists q, q ∈ ps /\ p_From p = p_From q) /\ (exists q, q ∈ ps /\ p_Before p = p_Before q).
Proof.
  unfold Union. rewrite <- Permutation_rev.
  assert (forall out, p ∈ foldl union_step out (sort_func by_From ps) ->
    (forall q, q ∈ out -> (exists r, r ∈ ps /\ p_From q = p_From r) /\ (exists r, r ∈ ps /\ p_Before q = p_Before r)) ->
    (exists q, q ∈ ps /\ p_From p = p_From q) /\ (exists q, q ∈ ps /\ p_Before p = p_Before q)) as H.
  2: { intros Hp. apply (H [] Hp). by intros q []%not_elem_of_nil. }
  assert (forall x, x ∈ sort_func by_From ps -> x ∈ ps) as Hin by (intros x; by rewrite elem_of_sort_func).
  revert Hin. generalize (sort_func by_From ps) as l. induction l as [|x l IH]; intros Hin out Hp Hout; [by apply Hout |].
  apply (IH (fun y Hy => Hin y (list_elem_of_further _ _ _ Hy)) (union_step out x) Hp).
  pose proof (Hin x ltac:(left)) as Hx. destruct out as [|m out]; simpl.
  - intros q ->%list_elem_of_singleton. split; by exists x.
  - pose proof (Hout m ltac:(left)) as [Hm1 Hm2].
    repeat case_match; intros q [->|Hq]%elem_of_cons; simpl;
      first [done | by (split; exists x) | by (split; [| exists x]) | apply Hout; first [by left | by right | done]].
Qed.

(** A period of whole days. *)
Definition p_days (p : Period) : Prop := Day (p_From p) = p_From p /\ Day (p_Before p) = p_Before p.

Lemma Union_days ps : Forall p_days ps -> Forall p_days (Union ps).
Proof.
  rewrite !Forall_forall. intros H p Hp. destruct (Union_bounds ps p Hp) as [(q & Hq & E1) (r & Hr & E2)].
  destruct (H q Hq), (H r Hr). unfold p_days. rewrite E1, E2. done.
Qed.

(** ** Days *)

Lemma Day_le t : Day t <= t < Day t + day_len.
Proof.
  unfold Day. pose proof day_len_pos. pose proof (Z.mod_pos_bound t day_len).
  pose proof (Z.div_mod t day_len). lia.
Qed.

Lemma Day_idemp t : Day (Day t) = Day t.
Proof. unfold Day. pose proof day_len_pos. by rewrite Z.div_mul by lia. Qed.

Lemma Day_mono s t : s <= t -> Day s <= Day t.
Proof.
  unfold Day. intros. pose proof day_len_pos. apply Z.mul_le_mono_nonneg_r; [lia |].
  apply Z.div_le_mono; lia.
Qed.

Lemma Day_AddDays t n : Day (AddDays t n) = AddDays (Day t) n.
Proof. unfold Day, AddDays. pose proof day_len_pos. rewrite Z.div_add by lia. lia. Qed.

Lemma OneDay_contains t : Contains (OneDay t) t = true.
Proof. apply Contains_spec. unfold OneDay, AddDays. simpl. pose proof (Day_le t). lia. Qed.

(** Whole days that differ differ by a day. *)
Lemma Day_lt s t : Day s = s -> Day t = t -> s < t -> s + day_len <= t.
Proof.
  unfold Day. pose proof day_len_pos as H. intros <- <-. rewrite <- Z.mul_lt_mono_pos_r by done. intros Hlt.
  transitivity ((s / day_len + 1) * day_len); [lia |]. apply Z.mul_le_mono_nonneg_r; lia.
Qed.
