(* ===== verification/UnionFind.v ===== *)
(** Union-find with path halving, the algorithm [find]/[union] of
    [identity/group/group.go] and [root]/[union] of
    [identity/resolve/claim.go] run over a map and over a slice. The interface
    [ParentStore] is what both need of the store of parents; the theory below
    is proved against it once. *)
From S2P Require Import Prelude.

(** * The store of parents *)

(** Reads and writes of a parent. [ps_get] is [None] where the code would
    index out of range. *)
Class ParentStore (S K : Type) : Type := {
  ps_get : S -> K -> option K;
  ps_set : S -> K -> K -> S;
}.

Class ParentStoreLaws (S K : Type) `{ParentStore S K} : Prop := {
  ps_get_set_eq s k v : is_Some (ps_get s k) -> ps_get (ps_set s k v) k = Some v;
  ps_get_set_ne s j k v : j <> k -> ps_get (ps_set s k v) j = ps_get s j;
}.

(** A slice of indices. *)
#[export] Instance slice_store : ParentStore (list nat) nat := {
  ps_get s k := s !! k;
  ps_set s k v := <[k := v]> s;
}.

#[export] Instance slice_store_laws : ParentStoreLaws (list nat) nat.
Proof.
  split; simpl; intros.
  - apply list_lookup_insert_eq. by apply lookup_lt_is_Some.
  - by apply list_lookup_insert_ne.
Qed.

(** A map of ids. Go answers the zero id for a key the map lacks. *)
#[export] Instance map_store : ParentStore (gmap uuid uuid) uuid := {
  ps_get s k := Some (default 0%N (s !! k));
  ps_set s k v := <[k := v]> s;
}.

#[export] Instance map_store_laws : ParentStoreLaws (gmap uuid uuid) uuid.
Proof.
  split; simpl; intros.
  - by rewrite lookup_insert_eq.
  - by rewrite lookup_insert_ne.
Qed.

(** * Find *)

Section UnionFind.
Context {T K : Type} `{EqDecision K} `{ParentStoreLaws T K}.
Implicit Types (s : T) (j k p r : K) (n m : nat) (ks : list K).

(** The loop [for parent[k] != k { parent[k] = parent[parent[k]]; k = parent[k] }],
    returning the store it leaves and the root. [None] is an index out of
    range, or a walk that the fuel does not finish. *)
Fixpoint uf_find (fuel : nat) (s : T) (k : K) : option (T * K) :=
  match fuel with
  | O => None
  | S fuel =>
      p ← ps_get s k;
      if bool_decide (p = k) then Some (s, k)
      else
        g ← ps_get s p;
        let s := ps_set s k g in
        k ← ps_get s k;
        uf_find fuel s k
  end.

(** The walk from [k] to its root [r] takes [n] steps. *)
Inductive rooted s : K -> K -> nat -> Prop :=
| rooted_root r : ps_get s r = Some r -> rooted s r r 0
| rooted_step k p r n : ps_get s k = Some p -> p <> k -> rooted s p r n -> rooted s k r (S n).

Lemma rooted_det s k r n r' n' : rooted s k r n -> rooted s k r' n' -> r = r' /\ n = n'.
Proof.
  intros H1. revert r' n'. induction H1 as [r Hr | k p r n Hk Hne _ IH]; intros r' n' H2.
  - inversion H2; subst; [done |]. congruence.
  - inversion H2; subst; [congruence |]. assert (p0 = p) as -> by congruence.
    match goal with Hp : rooted _ p _ _ |- _ => apply IH in Hp as [-> ->]; done end.
Qed.

Lemma rooted_is_root s k r n : rooted s k r n -> rooted s r r 0.
Proof. induction 1; [by constructor | done]. Qed.

Lemma rooted_get s k r n : rooted s k r n -> is_Some (ps_get s k).
Proof. by destruct 1; eexists. Qed.

(** Halving the path of [k] keeps every root, and no walk grows. *)
Lemma rooted_halve s k p g j r n :
  ps_get s k = Some p -> p <> k -> ps_get s p = Some g ->
  rooted s j r n -> exists m, (m <= n)%nat /\ rooted (ps_set s k g) j r m.
Proof.
  intros Hk Hpk Hp. revert j. induction n as [n IH] using lt_wf_ind; intros j Hj.
  destruct (decide (j = k)) as [->|Hjk].
  - inversion Hj as [? Hr|? p' ? n' Hk' Hne Hp']; subst; [congruence |].
    assert (p' = p) as -> by congruence.
    inversion Hp' as [? Hr|? g' ? m' Hp'' Hne' Hg]; subst.
    + assert (g = r) as -> by congruence. exists 1%nat. split; [lia |]. apply rooted_step with r.
      * apply ps_get_set_eq. by exists r.
      * done.
      * apply rooted_root. by rewrite ps_get_set_ne.
    + assert (g' = g) as -> by congruence. destruct (IH m' ltac:(lia) g Hg) as (m & Hm & Hroot).
      exists (S m). split; [lia |]. apply rooted_step with g; [apply ps_get_set_eq; by exists p | | done].
      intros ->. destruct (rooted_det _ _ _ _ _ _ Hj Hg) as [_ ?]. lia.
  - inversion Hj as [? Hr|? p' ? n' Hj' Hne Hp']; subst.
    + exists 0%nat. split; [done |]. constructor. by rewrite ps_get_set_ne.
    + destruct (IH n' ltac:(lia) p' Hp') as (m & Hm & Hroot). exists (S m). split; [lia |].
      apply rooted_step with p'; [by rewrite ps_get_set_ne | done | done].
Qed.

(** The store [s'] has the roots of [s], with no walk longer. *)
Definition same_roots s s' : Prop :=
  forall j r n, rooted s j r n -> exists m, (m <= n)%nat /\ rooted s' j r m.

Lemma same_roots_refl s : same_roots s s.
Proof. intros j r n Hj. by exists n. Qed.

Lemma same_roots_trans s1 s2 s3 : same_roots s1 s2 -> same_roots s2 s3 -> same_roots s1 s3.
Proof.
  intros H12 H23 j r n Hj. apply H12 in Hj as (m & Hm & Hj).
  apply H23 in Hj as (m' & Hm' & Hj). exists m'. split; [lia | done].
Qed.

(** Enough fuel finds the root, and moves no root. *)
Lemma uf_find_spec fuel s k r n :
  rooted s k r n -> (n < fuel)%nat ->
  exists s', uf_find fuel s k = Some (s', r) /\ same_roots s s'.
Proof.
  revert s k n. induction fuel as [|fuel IH]; intros s k n Hk Hn; [lia |]. simpl.
  inversion Hk as [? Hr|? p ? n' Hp Hne Hroot]; subst.
  - rewrite Hr. simpl. rewrite bool_decide_true by done. eauto using same_roots_refl.
  - rewrite Hp. simpl. rewrite bool_decide_false by done.
    destruct (rooted_get _ _ _ _ Hroot) as [g Hg]. rewrite Hg. simpl.
    rewrite ps_get_set_eq by (by exists p). simpl.
    assert (exists m, (m < n')%nat /\ rooted s g r m \/ n' = 0%nat /\ m = 0%nat /\ rooted s g r m)
      as (m' & Hm').
    { inversion Hroot as [? Hr|? g' ? m' Hg' Hne' Hgr]; subst; simplify_eq.
      - exists 0%nat. right. repeat split; by constructor.
      - exists m'. left. split; [lia | done]. }
    assert (rooted s g r m') as Hgm by tauto.
    destruct (rooted_halve _ _ _ _ _ _ _ Hp Hne Hg Hgm) as (m & Hm & Hgr).
    assert (m < fuel)%nat as Hmf by lia.
    destruct (IH _ _ _ Hgr Hmf) as (s' & Hs' & Hsame). exists s'. split; [done |].
    eapply same_roots_trans; [| exact Hsame]. intros j r' q' Hj. by eapply rooted_halve.
Qed.

(** ** Forests *)

(** Each of [ks] has a parent among [ks], and walks to a root. *)
Record forest s ks : Prop := {
  forest_parent k : k ∈ ks -> exists p, ps_get s k = Some p /\ p ∈ ks;
  forest_rooted k : k ∈ ks -> exists r n, rooted s k r n;
}.

Lemma rooted_root_in s ks k r n : forest s ks -> k ∈ ks -> rooted s k r n -> r ∈ ks.
Proof.
  intros [Hp _] Hk Hr. induction Hr as [|k p r n Hkp _ _ IH]; [done |].
  destruct (Hp k Hk) as (p' & Hp' & Hin). simplify_eq. by apply IH.
Qed.

(** A walk visits distinct keys, so it is shorter than the number of keys. *)
Lemma rooted_path s ks k r n :
  forest s ks -> k ∈ ks -> rooted s k r n ->
  exists l, length l = S n /\ NoDup l /\
    forall j, j ∈ l -> j ∈ ks /\ exists m, (m <= n)%nat /\ rooted s j r m.
Proof.
  intros Hf Hk Hr. induction Hr as [r Hr|k p r n Hp Hne Hr IH].
  - exists [r]. split; [done |]. split; [apply NoDup_singleton |]. intros j ->%list_elem_of_singleton.
    split; [done |]. exists 0%nat. split; [done |]. by constructor.
  - destruct (forest_parent _ _ Hf k Hk) as (p' & Hp' & Hin). assert (p' = p) as -> by congruence.
    destruct (IH Hin) as (l & Hlen & Hnd & Hl). exists (k :: l). split; [simpl; lia |]. split.
    + constructor; [| done]. intros (_ & m & Hm & Hkm)%Hl.
      pose proof (rooted_step _ _ _ _ _ Hp Hne Hr) as Hkr.
      destruct (rooted_det _ _ _ _ _ _ Hkm Hkr). lia.
    + intros j [->|Hj]%elem_of_cons.
      * split; [done |]. exists (S n). split; [lia |]. by apply rooted_step with p.
      * destruct (Hl j Hj) as (? & m & Hm & Hjm). split; [done |]. exists m. split; [lia | done].
Qed.

Lemma rooted_bound s ks k r n : forest s ks -> k ∈ ks -> rooted s k r n -> (n < length ks)%nat.
Proof.
  intros Hf Hk Hr. destruct (rooted_path _ _ _ _ _ Hf Hk Hr) as (l & Hlen & Hnd & Hl).
  assert (length l <= length ks)%nat; [| lia].
  apply submseteq_length, NoDup_submseteq; [done |]. intros j Hj. by apply Hl.
Qed.

Lemma same_roots_forest s s' ks : forest s ks -> same_roots s s' ->
  (forall k p, k ∈ ks -> ps_get s' k = Some p -> p ∈ ks) -> forest s' ks.
Proof.
  intros Hf Hs Hp. split.
  - intros k Hk. destruct (forest_rooted _ _ Hf k Hk) as (r & n & Hr).
    apply Hs in Hr as (m & _ & Hr). destruct (rooted_get _ _ _ _ Hr) as [p Hpk]. eauto.
  - intros k Hk. destruct (forest_rooted _ _ Hf k Hk) as (r & n & Hr).
    apply Hs in Hr as (m & _ & Hr). eauto.
Qed.

Lemma uf_find_parents fuel s k s' r ks :
  forest s ks -> k ∈ ks -> uf_find fuel s k = Some (s', r) ->
  (forall j p, j ∈ ks -> ps_get s' j = Some p -> p ∈ ks).
Proof.
  intros Hf. assert (forall j p, j ∈ ks -> ps_get s j = Some p -> p ∈ ks) as Hc.
  { intros j p Hj Hp. destruct (forest_parent _ _ Hf j Hj) as (p' & ? & ?). by simplify_eq. }
  clear Hf. revert s k Hc. induction fuel as [|fuel IH]; intros s k Hc Hk; simpl; [done |].
  destruct (ps_get s k) as [p|] eqn:Hp; simpl; [| done]. case_bool_decide; [by intros [= <- <-] |].
  destruct (ps_get s p) as [g|] eqn:Hg; simpl; [| done].
  rewrite ps_get_set_eq by (by exists p). simpl. apply IH.
  - intros j q Hj. destruct (decide (j = k)) as [->|Hjk].
    + rewrite ps_get_set_eq by (by exists p). intros [= <-]. eauto.
    + rewrite ps_get_set_ne by done. eauto.
  - eauto.
Qed.

(** In a forest, the number of keys is fuel enough. *)
Lemma uf_find_forest fuel s ks k :
  forest s ks -> k ∈ ks -> (length ks <= fuel)%nat ->
  exists s' r n, uf_find fuel s k = Some (s', r) /\ rooted s k r n /\ r ∈ ks /\
    same_roots s s' /\ forest s' ks.
Proof.
  intros Hf Hk Hfuel. destruct (forest_rooted _ _ Hf k Hk) as (r & n & Hr).
  pose proof (rooted_bound _ _ _ _ _ Hf Hk Hr).
  destruct (uf_find_spec fuel s k r n Hr ltac:(lia)) as (s' & Hs' & Hsame).
  exists s', r, n. repeat split; try done.
  - by eapply rooted_root_in.
  - eapply same_roots_forest; try done. by eapply uf_find_parents.
  - eapply same_roots_forest; try done. by eapply uf_find_parents.
Qed.

(** ** Linking two roots *)

Lemma rooted_link s ra rb j r n :
  rooted s ra ra 0 -> rooted s rb rb 0 -> ra <> rb -> rooted s j r n ->
  exists m, rooted (ps_set s rb ra) j (if bool_decide (r = rb) then ra else r) m.
Proof.
  intros Ha Hb Hne Hj.
  assert (rooted (ps_set s rb ra) ra ra 0) as Ha'.
  { constructor. rewrite ps_get_set_ne by done. by inversion Ha. }
  induction Hj as [r Hr|j p r n Hp Hnp Hroot IH].
  - case_bool_decide as E; [subst r |].
    + exists 1%nat. apply rooted_step with ra; [apply ps_get_set_eq; by exists rb | done | done].
    + exists 0%nat. constructor. by rewrite ps_get_set_ne.
  - destruct IH as [m IH]; eauto. exists (S m). apply rooted_step with p; [| done | done].
    rewrite ps_get_set_ne; [done |]. intros ->. inversion Hb; congruence.
Qed.

Lemma forest_link s ks ra rb :
  forest s ks -> ra ∈ ks -> rooted s ra ra 0 -> rooted s rb rb 0 -> ra <> rb ->
  forest (ps_set s rb ra) ks.
Proof.
  intros Hf Hra Ha Hb Hne. split.
  - intros k Hk. destruct (decide (k = rb)) as [->|Hkb].
    + exists ra. split; [| done]. apply ps_get_set_eq. by inversion Hb; exists rb.
    + rewrite ps_get_set_ne by done. by apply Hf.
  - intros k Hk. destruct (forest_rooted _ _ Hf k Hk) as (r & n & Hr).
    destruct (rooted_link s ra rb k r n) as [m Hm]; eauto.
Qed.

(** ** Union

    [pick] settles which of two distinct roots stays one: the first of its
    answer becomes the parent of the second. *)
Definition uf_union (pick : K -> K -> K * K) (fuel : nat) (s : T) (a b : K) : option T :=
  '(s, ra) ← uf_find fuel s a;
  '(s, rb) ← uf_find fuel s b;
  if bool_decide (ra = rb) then Some s
  else let '(ra, rb) := pick ra rb in Some (ps_set s rb ra).

(** [pick] answers its arguments, in either order. *)
Definition picks (pick : K -> K -> K * K) : Prop :=
  forall a b, pick a b = (a, b) \/ pick a b = (b, a).

(** Keys that a chain of the edges joins. *)
Definition linked (es : list (K * K)) : relation K := rtsc (fun x y => (x, y) ∈ es).

#[local] Instance linked_equivalence es : Equivalence (linked es).
Proof. unfold linked. apply _. Qed.

Lemma linked_sub es es' j k :
  (forall a b, (a, b) ∈ es -> linked es' a b) -> linked es j k -> linked es' j k.
Proof.
  intros Hsub. induction 1 as [|x y z Hstep _ IH]; [reflexivity |]. transitivity y; [| done].
  destruct Hstep as [Hs|Hs]; [by apply Hsub | symmetry; by apply Hsub].
Qed.

Lemma linked_edge es a b : (a, b) ∈ es -> linked es a b.
Proof. intros. by apply rtsc_lr. Qed.

(** The forest of [s] over [ks] joins exactly the keys that [es] links. *)
Record represents s ks (es : list (K * K)) : Prop := {
  represents_forest : forest s ks;
  represents_edges a b : (a, b) ∈ es -> a ∈ ks /\ b ∈ ks;
  represents_linked j k rj rk nj nk :
    j ∈ ks -> k ∈ ks -> rooted s j rj nj -> rooted s k rk nk -> rj = rk <-> linked es j k;
}.

Lemma same_roots_represents s s' ks es :
  represents s ks es -> same_roots s s' -> forest s' ks -> represents s' ks es.
Proof.
  intros [Hf He Hl] Hs Hf'. split; [done | done |].
  intros j k rj rk nj nk Hj Hk Hrj Hrk.
  destruct (forest_rooted _ _ Hf j Hj) as (rj' & nj' & Hrj'). destruct (forest_rooted _ _ Hf k Hk) as (rk' & nk' & Hrk').
  pose proof (Hs _ _ _ Hrj') as (? & _ & Hj'). pose proof (Hs _ _ _ Hrk') as (? & _ & Hk').
  destruct (rooted_det _ _ _ _ _ _ Hrj Hj') as [-> _]. destruct (rooted_det _ _ _ _ _ _ Hrk Hk') as [-> _]. eauto.
Qed.

Lemma represents_link s ks es a b ra rb na nb :
  represents s ks es -> a ∈ ks -> b ∈ ks -> rooted s a ra na -> rooted s b rb nb -> ra <> rb ->
  forall x y, (x, y) = (ra, rb) \/ (x, y) = (rb, ra) ->
  represents (ps_set s y x) ks (es ++ [(a, b)]).
Proof.
  intros [Hf He Hl] Ha Hb Hra Hrb Hne x y Hxy.
  assert (rooted s x x 0 /\ rooted s y y 0 /\ x <> y /\ x ∈ ks) as (Hx & Hy & Hxyne & Hxin).
  { pose proof (rooted_root_in _ _ _ _ _ Hf Ha Hra). pose proof (rooted_root_in _ _ _ _ _ Hf Hb Hrb).
    apply rooted_is_root in Hra, Hrb. by destruct Hxy as [[= -> ->]|[= -> ->]]. }
  split.
  - by apply forest_link.
  - intros j k. rewrite elem_of_app, list_elem_of_singleton. intros [H'|[= -> ->]]; eauto.
  - intros j k rj rk nj nk Hj Hk Hrj Hrk.
    set (F r := if bool_decide (r = y) then x else r).
    assert (forall k r n r' n', rooted s k r n -> rooted (ps_set s y x) k r' n' -> r' = F r) as HF.
    { intros k' r n r' n' Hr Hr'. destruct (rooted_link s x y k' r n Hx Hy Hxyne Hr) as [m Hm].
      by destruct (rooted_det _ _ _ _ _ _ Hr' Hm). }
    destruct (forest_rooted _ _ Hf j Hj) as (oj & mj & Hoj). destruct (forest_rooted _ _ Hf k Hk) as (ok & mk & Hok).
    rewrite (HF _ _ _ _ _ Hoj Hrj), (HF _ _ _ _ _ Hok Hrk).
    assert (F ra = F rb) as HFab.
    { unfold F. destruct Hxy as [[= -> ->]|[= -> ->]]; repeat case_bool_decide; congruence. }
    assert (linked (es ++ [(a, b)]) a b) as Hab.
    { apply linked_edge, elem_of_app. right. by apply list_elem_of_singleton. }
    assert (forall i i', linked es i i' -> linked (es ++ [(a, b)]) i i') as Hsub.
    { intros i i'. apply linked_sub. intros u v Huv. apply linked_edge, elem_of_app. by left. }
    split.
    + intros Heq.
      destruct (decide (oj = ok)) as [->|Hjk]; [apply Hsub; by eapply Hl |].
      assert (oj = ra /\ ok = rb \/ oj = rb /\ ok = ra) as [[-> ->]|[-> ->]].
      { unfold F in Heq. destruct Hxy as [[= -> ->]|[= -> ->]]; repeat case_bool_decide; intuition congruence. }
      * transitivity a; [apply Hsub; by eapply Hl |]. transitivity b; [done |]. apply Hsub; by eapply Hl.
      * transitivity b; [apply Hsub; by eapply Hl |]. transitivity a; [| apply Hsub; by eapply Hl].
        by symmetry.
    + intros Hlink. clear Hrj Hrk rj rk nj nk. revert oj mj Hoj.
      induction Hlink as [i|i i' k Hstep Hrest IH]; intros oi mi Hoi.
      { by destruct (rooted_det _ _ _ _ _ _ Hoi Hok) as [-> _]. }
      assert (i ∈ ks /\ i' ∈ ks) as [_ Hi'].
      { destruct Hstep as [H'|H']; apply elem_of_app in H' as [H'|H'%list_elem_of_singleton]; simplify_eq; naive_solver. }
      destruct (forest_rooted _ _ Hf i' Hi') as (oi' & mi' & Hoi').
      rewrite <- (IH Hi' Hk Hok _ _ Hoi').
      assert (forall u v, (u, v) ∈ es ++ [(a, b)] -> forall ou mu ov mv,
        rooted s u ou mu -> rooted s v ov mv -> F ou = F ov) as Hedge.
      { intros u v [Huv|[= -> ->]%list_elem_of_singleton]%elem_of_app ou mu ov mv Hou Hov.
        - destruct (He u v Huv). f_equal. apply (Hl u v ou ov mu mv); try done. by apply linked_edge.
        - destruct (rooted_det _ _ _ _ _ _ Hou Hra) as [-> _]. by destruct (rooted_det _ _ _ _ _ _ Hov Hrb) as [-> _]. }
      destruct Hstep as [Hst|Hst]; [by eapply Hedge | symmetry; by eapply Hedge].
Qed.

Lemma linked_snoc_same s ks es a b r na nb :
  represents s ks es -> a ∈ ks -> b ∈ ks -> rooted s a r na -> rooted s b r nb ->
  represents s ks (es ++ [(a, b)]).
Proof.
  intros [Hf He Hl] Ha Hb Hra Hrb. split; [done | |].
  - intros j k. rewrite elem_of_app, list_elem_of_singleton. intros [H'|[= -> ->]]; eauto.
  - intros j k rj rk nj nk Hj Hk Hrj Hrk. rewrite (Hl j k rj rk nj nk) by done.
    assert (linked es a b) as Hab by (by eapply Hl).
    split; intros Hjk.
    + eapply linked_sub; [| exact Hjk]. intros u v Huv. apply linked_edge, elem_of_app. by left.
    + eapply linked_sub; [| exact Hjk].
      intros u v [Huv|[= -> ->]%list_elem_of_singleton]%elem_of_app; [by apply linked_edge | done].
Qed.

(** A union of two keys adds the edge between them. *)
Lemma uf_union_spec pick fuel s ks es a b :
  picks pick -> represents s ks es -> a ∈ ks -> b ∈ ks -> (length ks <= fuel)%nat ->
  exists s', uf_union pick fuel s a b = Some s' /\ represents s' ks (es ++ [(a, b)]).
Proof.
  intros Hpick Hr Ha Hb Hfuel. unfold uf_union.
  destruct (uf_find_forest fuel s ks a (represents_forest _ _ _ Hr) Ha Hfuel) as (s1 & ra & na & -> & Hra & _ & Hs1 & Hf1).
  simpl. pose proof (same_roots_represents _ _ _ _ Hr Hs1 Hf1) as Hr1.
  destruct (uf_find_forest fuel s1 ks b Hf1 Hb Hfuel) as (s2 & rb & nb & -> & Hrb & _ & Hs2 & Hf2).
  simpl. pose proof (same_roots_represents _ _ _ _ Hr1 Hs2 Hf2) as Hr2.
  apply Hs1 in Hra as (? & _ & Hra). apply Hs2 in Hra as (? & _ & Hra), Hrb as (? & _ & Hrb).
  case_bool_decide as E.
  - subst rb. exists s2. split; [done |]. by eapply linked_snoc_same.
  - destruct (Hpick ra rb) as [Hp|Hp]; rewrite Hp; eexists; (split; [reflexivity |]); eapply represents_link; eauto.
Qed.

(** A union leaves each root as it was, or gives it the root that [pick]
    preferred to it. *)
Lemma uf_union_root pick fuel s s' ks es a b j r n r' n' :
  picks pick -> represents s ks es -> a ∈ ks -> b ∈ ks -> (length ks <= fuel)%nat ->
  uf_union pick fuel s a b = Some s' -> rooted s j r n -> rooted s' j r' n' ->
  r' = r \/ pick r r' = (r', r) \/ pick r' r = (r', r).
Proof.
  intros Hpick Hr Ha Hb Hfuel Hu Hj Hj'. unfold uf_union in Hu.
  destruct (uf_find_forest fuel s ks a (represents_forest _ _ _ Hr) Ha Hfuel) as (s1 & ra & na & Ea & Hra & _ & Hs1 & Hf1).
  rewrite Ea in Hu. simpl in Hu.
  destruct (uf_find_forest fuel s1 ks b Hf1 Hb Hfuel) as (s2 & rb & nb & Eb & Hrb & _ & Hs2 & _).
  rewrite Eb in Hu. simpl in Hu.
  apply Hs1 in Hj as (nj1 & _ & Hj). apply Hs2 in Hj as (x & _ & Hj).
  apply Hs1 in Hra as (na' & _ & Hra). apply Hs2 in Hra as (na'' & _ & Hra), Hrb as (nb'' & _ & Hrb).
  case_bool_decide as E; simplify_eq; [left; by destruct (rooted_det _ _ _ _ _ _ Hj' Hj) |].
  apply rooted_is_root in Hra, Hrb.
  destruct (Hpick ra rb) as [Hp|Hp]; rewrite Hp in Hu; simplify_eq.
  - destruct (rooted_link s2 ra rb j r x) as [m Hm]; try done.
    destruct (rooted_det _ _ _ _ _ _ Hj' Hm) as [-> _]. case_bool_decide; [subst r | by left]. auto.
  - destruct (rooted_link s2 rb ra j r x) as [m Hm]; try done.
    destruct (rooted_det _ _ _ _ _ _ Hj' Hm) as [-> _]. case_bool_decide; [subst r | by left]. auto.
Qed.

(** Keys that are each their own parent represent no edges. *)
Lemma represents_nil s ks : (forall k, k ∈ ks -> ps_get s k = Some k) -> represents s ks [].
Proof.
  intros Hs. assert (forall k, k ∈ ks -> rooted s k k 0) as Hroot by (intros; constructor; auto).
  split.
  - split; intros k Hk; [by exists k; auto | by exists k, 0%nat; auto].
  - by intros a b []%not_elem_of_nil.
  - intros j k rj rk nj nk Hj Hk Hrj Hrk.
    destruct (rooted_det _ _ _ _ _ _ Hrj (Hroot j Hj)) as [-> _]. destruct (rooted_det _ _ _ _ _ _ Hrk (Hroot k Hk)) as [-> _].
    split; [intros ->; reflexivity |]. intros Hl. inversion Hl as [|? ? ? [Hs'|Hs'] _]; subst; [done | |]; by apply not_elem_of_nil in Hs'.
Qed.

(** ** A key that joins the forest alone *)

Lemma rooted_fresh s ks k v j r n :
  forest s ks -> k ∉ ks -> j ∈ ks -> rooted s j r n -> rooted (ps_set s k v) j r n.
Proof.
  intros Hf Hk Hj Hr. induction Hr as [r Hr|j p r n Hp Hne _ IH].
  - constructor. rewrite ps_get_set_ne; [done |]. by intros ->.
  - destruct (forest_parent _ _ Hf j Hj) as (p' & Hp' & Hin). simplify_eq.
    apply rooted_step with p; [| done | by apply IH]. rewrite ps_get_set_ne; [done |]. by intros ->.
Qed.

Lemma linked_outside es ks j k :
  (forall a b, (a, b) ∈ es -> a ∈ ks /\ b ∈ ks) -> j ∉ ks \/ k ∉ ks -> linked es j k -> j = k.
Proof.
  intros He Hout Hl. induction Hl as [|x y z Hstep Hyz IH]; [done |]. exfalso.
  assert (x ∈ ks /\ y ∈ ks) as [Hx Hy] by (destruct Hstep as [H'|H']; destruct (He _ _ H'); done).
  destruct Hout as [?|Hz]; [done |]. destruct IH as []; eauto.
Qed.

Lemma represents_fresh s ks es k :
  represents s ks es -> k ∉ ks -> is_Some (ps_get s k) -> represents (ps_set s k k) (ks ++ [k]) es.
Proof.
  intros [Hf He Hl] Hk Hs.
  assert (rooted (ps_set s k k) k k 0) as Hkk by (constructor; by apply ps_get_set_eq).
  assert (forall j r n, j ∈ ks -> rooted s j r n -> rooted (ps_set s k k) j r n) as Hold by eauto using rooted_fresh.
  split.
  - split; intros j; rewrite elem_of_app, list_elem_of_singleton.
    + intros [Hj| ->].
      * destruct (forest_parent _ _ Hf j Hj) as (p & Hp & Hin). exists p. rewrite elem_of_app.
        rewrite ps_get_set_ne; [by auto | by intros ->].
      * exists k. rewrite elem_of_app, list_elem_of_singleton. split; [by apply ps_get_set_eq | auto].
    + intros [Hj| ->]; [| by eauto]. destruct (forest_rooted _ _ Hf j Hj) as (r & n & Hr). eauto.
  - intros a b Hab. rewrite !elem_of_app. destruct (He a b Hab). auto.
  - assert (forall j r n, j ∈ ks -> rooted (ps_set s k k) j r n -> exists m, rooted s j r m) as Hback.
    { intros j r n Hj Hr. destruct (forest_rooted _ _ Hf j Hj) as (r0 & n0 & Hr0).
      destruct (rooted_det _ _ _ _ _ _ Hr (Hold _ _ _ Hj Hr0)) as [-> _]. eauto. }
    assert (forall j rj nj, j ∈ ks -> rooted (ps_set s k k) j rj nj -> rj <> k) as Hne.
    { intros j rj nj Hj Hr ->. destruct (Hback _ _ _ Hj Hr) as [m Hm]. by apply Hk, (rooted_root_in _ _ _ _ _ Hf Hj Hm). }
    intros j i rj ri nj ni. rewrite !elem_of_app, !list_elem_of_singleton. intros [Hj| ->] [Hi| ->] Hrj Hri.
    + destruct (Hback _ _ _ Hj Hrj) as [mj Hmj], (Hback _ _ _ Hi Hri) as [mi Hmi]. by eapply Hl.
    + destruct (rooted_det _ _ _ _ _ _ Hri Hkk) as [-> _]. split.
      * intros ->. by destruct (Hne _ _ _ Hj Hrj).
      * intros Hlk. apply (linked_outside es ks) in Hlk; [by subst | done | by right].
    + destruct (rooted_det _ _ _ _ _ _ Hrj Hkk) as [-> _]. split.
      * intros <-. by destruct (Hne _ _ _ Hi Hri).
      * intros Hlk. apply (linked_outside es ks) in Hlk; [by subst | done | by left].
    + destruct (rooted_det _ _ _ _ _ _ Hrj Hri) as [-> _]. split; [reflexivity | done].
Qed.

(** The edges matter only through the keys they link. *)
Lemma represents_ext s ks es es' :
  represents s ks es -> (forall a b, (a, b) ∈ es' -> a ∈ ks /\ b ∈ ks) ->
  (forall j k, j ∈ ks -> k ∈ ks -> linked es j k <-> linked es' j k) -> represents s ks es'.
Proof.
  intros [Hf He Hl] He' Hiff. split; [done | done |]. intros. rewrite <- Hiff by done. eauto.
Qed.

End UnionFind.
