(* ===== verification/Rows.v ===== *)
(** Rows of the tables several components read, as
    [server/internal/db/migrations] declares them. The Go types are generated
    from that schema; a row keeps the columns the modelled code uses. *)
From S2P Require Import Prelude Types.

(** A row of [stated_keys], [004_stmts.sql] and [010_ticker_validity.sql]. *)
Record StatedKey : Type := MkStatedKey {
  sk_ID : uuid;
  sk_UserID : uuid;
  sk_AssetClass : option AssetClass;
  sk_Currency : option string;
  sk_Identifiers : list Identifier;
  sk_InstrID : option uuid;
  sk_ViaTickerID : option uuid;
  sk_ViaVenue : option string;
  sk_GroupID : option uuid;
}.

Definition with_GroupID (k : StatedKey) (g : option uuid) : StatedKey :=
  MkStatedKey (sk_ID k) (sk_UserID k) (sk_AssetClass k) (sk_Currency k) (sk_Identifiers k)
    (sk_InstrID k) (sk_ViaTickerID k) (sk_ViaVenue k) g.

(** A row of [tickers], [010_ticker_validity.sql]. *)
Record TickerRow : Type := MkTickerRow {
  tk_ID : uuid;
  tk_Market : string;
  tk_Value : string;
}.

(** * Findings, [006_findings.sql] *)

Inductive FindingKind : Type :=
| FindingKindBlock
| FindingKindDropped
| FindingKindContradiction
| FindingKindMerged
| FindingKindIdentifierDisagreement
| FindingKindBrokenTickerValidityBracket
| FindingKindMissedEvent
| FindingKindUnhandledCorpAct
| FindingKindUnmatchedSplit.

#[export] Instance FindingKind_eq_dec : EqDecision FindingKind.
Proof. solve_decision. Defined.

Inductive DropStep : Type :=
| DropStepStated
| DropStepPrecedence
| DropStepCorroboration.

#[export] Instance DropStep_eq_dec : EqDecision DropStep.
Proof. solve_decision. Defined.

(** * Instruments, [003_instrs.sql] and [005_datasources.sql] *)

Record InstrRow : Type := MkInstrRow {
  in_ID : uuid;
  in_AssetClass : AssetClass;
  in_CreatedAt : time;
  in_FetchKeyID : option uuid;
}.

Record InstrListing : Type := MkInstrListing {
  lr_ID : uuid;
  lr_InstrID : uuid;
  lr_Currency : string;
  lr_PrimaryMic : option string;
  lr_FetchKeyID : option uuid;
}.

Record IdentifierRow : Type := MkIdentifierRow {
  ir_ID : uuid;
  ir_InstrID : uuid;
  ir_ListingID : option uuid;
  ir_Type : IdentifierType;
  ir_Domain : string;
  ir_Value : string;
  ir_FetchKeyID : option uuid;
}.

(** [to.Identifier], the triple an identifier row names. *)
Definition to_Identifier (r : IdentifierRow) : Identifier := MkIdentifier (ir_Type r) (ir_Domain r) (ir_Value r).
