(* ===== verification/Group.v ===== *)
(** The groups of a user's keys without an instrument,
    [server/internal/identity/group/group.go]: the keys that share a joining
    identifier, transitively, named by the earliest of them. *)
From S2P Require Import Prelude Types Rows UnionFind.

(** * Definitions *)

(** The maps [first] and [parent] of the loop of [of]. *)
Record joining : Type := MkJoining {
  j_first : gmap Identifier uuid;
  j_parent : gmap uuid uuid;
}.

(** [bytes.Compare(ra[:], rb[:]) > 0] swaps the roots, so the smaller stays. *)
Definition group_pick (ra rb : uuid) : uuid * uuid :=
  if (rb <? ra)%N then (rb, ra) else (ra, rb).

Definition group_find (fuel : nat) (parent : gmap uuid uuid) (k : uuid) : option (gmap uuid uuid * uuid) :=
  uf_find fuel parent k.

Definition group_union (fuel : nat) (parent : gmap uuid uuid) (a b : uuid) : option (gmap uuid uuid) :=
  uf_union group_pick fuel parent a b.

Definition join (fuel : nat) (st : joining) (k : Identifier) (id : uuid) : option joining :=
  match j_first st !! k with
  | Some held => MkJoining (j_first st) <$> group_union fuel (j_parent st) held id
  | None => Some (MkJoining (<[k := id]> (j_first st)) (j_parent st))
  end.

(** The identifiers of one key, joined in the order it states them. *)
Definition join_key (fuel : nat) (st : joining) (k : StatedKey) : option joining :=
  opt_fold (fun st i => join fuel st i (sk_ID k)) st (List.filter Joining (sk_Identifiers k)).

(** The last loop of [of]: each key's root, the walks compressing the paths. *)
Definition group_roots (fuel : nat) (parent : gmap uuid uuid) (keys : list StatedKey)
    : option (gmap uuid uuid * gmap uuid uuid) :=
  opt_fold (fun '(parent, out) k =>
      '(parent, r) ← group_find fuel parent (sk_ID k);
      Some (parent, <[sk_ID k := r]> out))
    (parent, ∅) keys.

(** Go's [of], a word Rocq reserves. The number of keys is fuel for every walk; [None] is a walk it does
    not finish. *)
Definition groups_of (keys : list StatedKey) : option (gmap uuid uuid) :=
  let fuel := length keys in
  let parent := foldl (fun m k => <[sk_ID k := sk_ID k]> m) ∅ keys in
  st ← opt_fold (join_key fuel) (MkJoining ∅ parent) keys;
  '(_, out) ← group_roots fuel (j_parent st) keys;
  Some out.

(** ** Regroup

    The tables [Regroup] reads and writes, and its three queries
    ([queries/txns.sql]). [gdb_txns] holds the user and the key of each
    transaction. *)
Record GroupDB : Type := MkGroupDB {
  gdb_keys : list StatedKey;
  gdb_txns : list (uuid * uuid);
}.

Definition groupable (db : GroupDB) (user : uuid) (k : StatedKey) : bool :=
  bool_decide (sk_UserID k = user) && bool_decide (sk_InstrID k = None)
  && bool_decide ((user, sk_ID k) ∈ gdb_txns db).

Definition ListGroupableKeys (db : GroupDB) (user : uuid) : list StatedKey :=
  sort_func (cmp_on sk_ID N.compare) (List.filter (groupable db user) (gdb_keys db)).

Definition ClearStatedKeyGroups (db : GroupDB) (user : uuid) : GroupDB :=
  MkGroupDB (map (fun k => if bool_decide (sk_UserID k = user) then with_GroupID k None else k) (gdb_keys db))
    (gdb_txns db).

Definition SetStatedKeyGroups (db : GroupDB) (user : uuid) (ids groups : list uuid) : GroupDB :=
  MkGroupDB
    (map (fun k =>
       if bool_decide (sk_UserID k = user) && bool_decide (sk_InstrID k = None) then
         match find_func (fun v => bool_decide (v.1 = sk_ID k)) (zip ids groups) with
         | Some v => with_GroupID k (Some v.2)
         | None => k
         end
       else k) (gdb_keys db))
    (gdb_txns db).

(** [Regroup]. A key that [groups] lacks would take the zero id, as a Go map
    answers. *)
Definition Regroup (db : GroupDB) (user : uuid) : option GroupDB :=
  let keys := ListGroupableKeys db user in
  let db := ClearStatedKeyGroups db user in
  match keys with
  | [] => Some db
  | _ =>
      groups ← groups_of keys;
      let ids := map sk_ID keys in
      let group := map (fun k => default 0%N (groups !! sk_ID k)) keys in
      Some (SetStatedKeyGroups db user ids group)
  end.

(** * The specification of the groups *)

(** Two ids whose keys both state one joining identifier. *)
Definition shares (keys : list StatedKey) : relation uuid := fun a b =>
  exists i k l, Joining i = true /\ k ∈ keys /\ l ∈ keys /\ sk_ID k = a /\ sk_ID l = b /\
    i ∈ sk_Identifiers k /\ i ∈ sk_Identifiers l.

(** A chain of keys, each sharing a joining identifier with the next. *)
Definition connected (keys : list StatedKey) : relation uuid := rtc (shares keys).

(** * The groups meet the specification *)

#[local] Instance connected_equivalence keys : Equivalence (connected keys).
Proof.
  apply rtc_equivalence. intros a b (i & k & l & ? & ? & ? & ? & ? & ? & ?). exists i, l, k. tauto.
Qed.

Lemma group_pick_picks : picks group_pick.
Proof. intros a b. unfold group_pick. case_match; auto. Qed.

(** Every key's root is the smallest id its walk has met. *)
Definition least_roots (parent : gmap uuid uuid) (ks : list uuid) : Prop :=
  forall k r n, k ∈ ks -> rooted parent k r n -> (r <= k)%N.

Lemma group_union_least fuel parent parent' ks es a b :
  represents parent ks es -> least_roots parent ks -> a ∈ ks -> b ∈ ks -> (length ks <= fuel)%nat ->
  group_union fuel parent a b = Some parent' -> least_roots parent' ks.
Proof.
  intros Hr Hl Ha Hb Hfuel Hu k r' n' Hk Hr'.
  destruct (forest_rooted _ _ (represents_forest _ _ _ Hr) k Hk) as (r & n & Hroot).
  specialize (Hl k r n Hk Hroot).
  destruct (uf_union_root _ _ _ _ _ _ _ _ _ _ _ _ _ group_pick_picks Hr Ha Hb Hfuel Hu Hroot Hr') as [->|Hp]; [done |].
  unfold group_pick in Hp. destruct (N.ltb_spec r r'), (N.ltb_spec r' r); destruct Hp; simplify_eq; lia.
Qed.

(** The pairs of an identifier and a key the loop has joined. *)
Definition statements (keys : list StatedKey) : list (Identifier * uuid) :=
  concat (map (fun k => map (fun i => (i, sk_ID k)) (List.filter Joining (sk_Identifiers k))) keys).

Lemma elem_of_statements keys i a :
  (i, a) ∈ statements keys <->
  exists k, k ∈ keys /\ sk_ID k = a /\ i ∈ sk_Identifiers k /\ Joining i = true.
Proof.
  unfold statements. rewrite list_elem_of_In, in_concat. setoid_rewrite in_map_iff. split.
  - intros (x & (k & <- & Hk) & Hx). apply in_map_iff in Hx as (j & [= -> <-] & Hj).
    apply list_elem_of_In in Hk, Hj. apply elem_of_lfilter in Hj as [??]. by exists k.
  - intros (k & Hk & <- & Hi & Hj). eexists. split.
    + exists k. split; [done |]. by apply list_elem_of_In.
    + apply in_map_iff. exists i. split; [done |]. by apply list_elem_of_In, elem_of_lfilter.
Qed.

Lemma join_loop_flat fuel st keys :
  opt_fold (join_key fuel) st keys = opt_fold (fun st '(i, a) => join fuel st i a) st (statements keys).
Proof.
  unfold statements. rewrite <- opt_fold_nested. revert st.
  induction keys as [|k keys IH]; intros st; simpl; [done |].
  replace (join_key fuel st k) with
    (opt_fold (fun st '(i, a) => join fuel st i a) st
       (map (fun i => (i, sk_ID k)) (List.filter Joining (sk_Identifiers k)))).
  { case_match; [apply IH | done]. }
  unfold join_key. generalize (List.filter Joining (sk_Identifiers k)). clear IH. intros l. revert st.
  induction l as [|i l IH]; intros st; simpl; [done |]. by case_match.
Qed.

(** What the loop has built once it has joined the statements [ss]. *)
Record joined (ids : list uuid) (ss : list (Identifier * uuid)) (st : joining) : Prop := {
  joined_edges : exists es, represents (j_parent st) ids es /\
    (forall a b, (a, b) ∈ es -> exists i, (i, a) ∈ ss /\ (i, b) ∈ ss) /\
    (forall i a b, (i, a) ∈ ss -> j_first st !! i = Some b -> linked es b a);
  joined_first i b : j_first st !! i = Some b -> (i, b) ∈ ss;
  joined_seen i a : (i, a) ∈ ss -> is_Some (j_first st !! i);
  joined_least : least_roots (j_parent st) ids;
}.

Lemma join_joined fuel ids ss st i a :
  joined ids ss st -> (forall j b, (j, b) ∈ ss -> b ∈ ids) -> a ∈ ids -> (length ids <= fuel)%nat ->
  exists st', join fuel st i a = Some st' /\ joined ids (ss ++ [(i, a)]) st'.
Proof.
  intros [(es & Hr & He & Hl) Hf Hs Hleast] Hin Ha Hfuel. unfold join.
  destruct (j_first st !! i) as [b|] eqn:Ei.
  - pose proof (Hin _ _ (Hf _ _ Ei)) as Hb.
    destruct (uf_union_spec group_pick fuel _ _ _ b a group_pick_picks Hr Hb Ha Hfuel) as (p' & Hp & Hr').
    unfold group_union. rewrite Hp. eexists; split; [reflexivity |]. split; simpl.
    + exists (es ++ [(b, a)]). split; [done |]. split.
      * intros c d [Hcd|[= -> ->]%list_elem_of_singleton]%elem_of_app.
        -- destruct (He _ _ Hcd) as (j & ? & ?). exists j. rewrite !elem_of_app. auto.
        -- exists i. rewrite !elem_of_app, !list_elem_of_singleton. auto.
      * intros j c d [Hjc|[= -> ->]%list_elem_of_singleton]%elem_of_app Hd.
        -- eapply linked_sub; [| by eapply Hl]. intros u v Huv. apply linked_edge, elem_of_app. by left.
        -- simplify_eq. apply linked_edge, elem_of_app. right. by apply list_elem_of_singleton.
    + intros j c Hc. apply elem_of_app. left. by apply Hf.
    + intros j c [Hjc|[= -> ->]%list_elem_of_singleton]%elem_of_app; eauto.
    + by apply (group_union_least fuel (j_parent st) p' ids es b a).
  - eexists; split; [reflexivity |]. split; simpl.
    + exists es. split; [done |]. split.
      * intros c d Hcd. destruct (He _ _ Hcd) as (j & ? & ?). exists j. rewrite !elem_of_app. auto.
      * intros j c d [Hjc|[= -> ->]%list_elem_of_singleton]%elem_of_app.
        -- rewrite lookup_insert_ne; [by apply Hl |]. intros ->. apply Hs in Hjc. rewrite Ei in Hjc. by destruct Hjc.
        -- rewrite lookup_insert_eq. intros [= <-]. reflexivity.
    + intros j c. destruct (decide (i = j)) as [->|Hij].
      * rewrite lookup_insert_eq. intros [= <-]. apply elem_of_app. right. by apply list_elem_of_singleton.
      * rewrite lookup_insert_ne by done. intros Hc. apply elem_of_app. left. by apply Hf.
    + intros j c Hjc. destruct (decide (i = j)) as [->|Hij]; [by rewrite lookup_insert_eq |].
      rewrite lookup_insert_ne by done.
      apply elem_of_app in Hjc as [Hjc|[= -> ->]%list_elem_of_singleton]; [eauto | done].
    + done.
Qed.

Lemma identity_parent keys k : k ∈ map sk_ID keys ->
  foldl (fun m k => <[sk_ID k := sk_ID k]> m) (∅ : gmap uuid uuid) keys !! k = Some k.
Proof.
  induction keys as [|x keys IH] using rev_ind; [by intros []%not_elem_of_nil |].
  rewrite map_app, elem_of_app, foldl_app. simpl. intros [Hk|Hk%list_elem_of_singleton].
  - destruct (decide (sk_ID x = k)) as [<-|Hne]; [by rewrite lookup_insert_eq |].
    rewrite lookup_insert_ne by done. by apply IH.
  - subst k. by rewrite lookup_insert_eq.
Qed.

(** The two loops: the statements are joined, and each root is read. *)
Lemma join_loop_joined keys :
  exists st, opt_fold (join_key (length keys))
      (MkJoining ∅ (foldl (fun m k => <[sk_ID k := sk_ID k]> m) ∅ keys)) keys = Some st /\
    joined (map sk_ID keys) (statements keys) st.
Proof.
  rewrite join_loop_flat.
  pose proof (represents_nil (foldl (fun m k => <[sk_ID k := sk_ID k]> m) (∅ : gmap uuid uuid) keys) (map sk_ID keys)) as H0.
  apply opt_fold_inv.
  - split; simpl.
    + exists []. split.
      * apply H0. intros k Hk. simpl. by rewrite identity_parent.
      * split; [by intros ?? []%not_elem_of_nil | by intros ??? []%not_elem_of_nil].
    + intros i b. by rewrite lookup_empty.
    + by intros i a []%not_elem_of_nil.
    + intros k r n Hk Hr.
      assert (rooted (foldl (fun m k => <[sk_ID k := sk_ID k]> m) (∅ : gmap uuid uuid) keys) k k 0) as Hroot.
      { constructor. simpl. by rewrite identity_parent. }
      destruct (rooted_det _ _ _ _ _ _ Hr Hroot) as [-> _]. done.
  - intros seen st [i a] Hseen Hia Hst. apply elem_of_statements in Hia as (k & Hk & <- & _).
    apply join_joined; try done.
    + intros j b Hjb%Hseen. apply elem_of_statements in Hjb as (l & Hl & <- & _).
      apply list_elem_of_fmap. by exists l.
    + apply list_elem_of_fmap. by exists k.
    + by rewrite length_map.
Qed.

Lemma group_roots_spec fuel parent keys ids es :
  represents parent ids es -> (forall k, k ∈ keys -> sk_ID k ∈ ids) -> (length ids <= fuel)%nat ->
  exists parent' out, group_roots fuel parent keys = Some (parent', out) /\
    forall k, k ∈ keys -> exists r n, out !! sk_ID k = Some r /\ rooted parent (sk_ID k) r n.
Proof.
  intros Hr Hin Hfuel.
  destruct (opt_fold_inv (fun seen '(parent', out) =>
      same_roots parent parent' /\ forest parent' ids /\
      forall k, k ∈ seen -> exists r n, out !! sk_ID k = Some r /\ rooted parent (sk_ID k) r n)
    (fun '(parent, out) k => '(parent, r) ← group_find fuel parent (sk_ID k);
      Some (parent, <[sk_ID k := r]> out)) (parent, ∅ : gmap uuid uuid) keys) as ([p' out] & Hrun & _ & _ & Hout).
  - split; [apply same_roots_refl |]. split; [by apply Hr | by intros k []%not_elem_of_nil].
  - intros seen [p out] k Hseen Hk (Hsame & Hf & Hout).
    destruct (uf_find_forest fuel p ids (sk_ID k) Hf (Hin k Hk) Hfuel) as (p' & r & n & Hfind & Hroot & _ & Hs' & Hf').
    unfold group_find. rewrite Hfind. simpl. eexists; split; [reflexivity |].
    split; [by eapply same_roots_trans |]. split; [done |].
    assert (exists m, rooted parent (sk_ID k) r m) as [m Hm].
    { destruct (forest_rooted _ _ (represents_forest _ _ _ Hr) _ (Hin k Hk)) as (r0 & n0 & Hr0).
      exists n0. apply Hsame in Hr0 as Hr1. destruct Hr1 as (? & _ & Hr1).
      by destruct (rooted_det _ _ _ _ _ _ Hr1 Hroot) as [-> _]. }
    intros l [Hl|Hl%list_elem_of_singleton]%elem_of_app.
    + destruct (decide (sk_ID l = sk_ID k)) as [->|Hne].
      * exists r, m. by rewrite lookup_insert_eq.
      * rewrite lookup_insert_ne by done. by apply Hout.
    + subst l. exists r, m. by rewrite lookup_insert_eq.
  - exists p', out. by split.
Qed.

(** The edges the loop adds link exactly the keys that share identifiers. *)
Lemma linked_connected keys st es :
  joined (map sk_ID keys) (statements keys) st ->
  (forall a b, (a, b) ∈ es -> exists i, (i, a) ∈ statements keys /\ (i, b) ∈ statements keys) ->
  (forall i a b, (i, a) ∈ statements keys -> j_first st !! i = Some b -> linked es b a) ->
  forall a b, linked es a b <-> connected keys a b.
Proof.
  intros Hj He Hl a b. split.
  - induction 1 as [|x y z Hstep _ IH]; [reflexivity |]. transitivity y; [| done].
    assert (forall u v, (u, v) ∈ es -> connected keys u v) as Hedge.
    { intros u v Huv. destruct (He _ _ Huv) as (i & Hu & Hv).
      apply elem_of_statements in Hu as (k & ? & ? & ? & ?), Hv as (l & ? & ? & ? & ?).
      apply rtc_once. by exists i, k, l. }
    destruct Hstep as [Hs|Hs]; [by apply Hedge | symmetry; by apply Hedge].
  - induction 1 as [|x y z Hstep _ IH]; [reflexivity |]. transitivity y; [| done].
    destruct Hstep as (i & k & l & Hi & Hk & Hl' & <- & <- & Hik & Hil).
    assert ((i, sk_ID k) ∈ statements keys) as Hsk by (apply elem_of_statements; eauto).
    assert ((i, sk_ID l) ∈ statements keys) as Hsl by (apply elem_of_statements; eauto).
    destruct (joined_seen _ _ _ Hj _ _ Hsk) as [c Hc].
    transitivity c; [symmetry; by eapply Hl | by eapply Hl].
Qed.

Lemma groups_of_total keys :
  exists m, groups_of keys = Some m /\
    forall k, k ∈ keys -> exists g, m !! sk_ID k = Some g /\
      g ∈ map sk_ID keys /\ connected keys (sk_ID k) g /\
      forall j, j ∈ map sk_ID keys -> connected keys (sk_ID k) j -> (g <= j)%N.
Proof.
  destruct (join_loop_joined keys) as (st & Hst & Hj). unfold groups_of. rewrite Hst. simpl.
  destruct (joined_edges _ _ _ Hj) as (es & Hr & He & Hl).
  assert (forall k, k ∈ keys -> sk_ID k ∈ map sk_ID keys) as Hin by (intros; by apply list_elem_of_fmap_2).
  destruct (group_roots_spec (length keys) (j_parent st) keys (map sk_ID keys) es Hr Hin) as (p' & out & -> & Hout).
  { by rewrite length_map. }
  simpl. eexists; split; [reflexivity |]. intros k Hk.
  destruct (Hout k Hk) as (r & n & Hrk & Hroot). exists r. split; [done |].
  pose proof (linked_connected keys st es Hj He Hl) as Hlc.
  pose proof (rooted_root_in _ _ _ _ _ (represents_forest _ _ _ Hr) (Hin k Hk) Hroot) as Hrin.
  split; [done |]. split.
  - apply Hlc, (represents_linked _ _ _ Hr (sk_ID k) r r r n 0%nat); auto. by eapply rooted_is_root.
  - intros j Hjin Hkj. destruct (forest_rooted _ _ (represents_forest _ _ _ Hr) j Hjin) as (rj & nj & Hrj).
    assert (r = rj) as ->.
    { apply (represents_linked _ _ _ Hr (sk_ID k) j r rj n nj); auto. by apply Hlc. }
    by eapply (joined_least _ _ _ Hj).
Qed.

(** ** Regroup *)

Lemma groupable_spec db user k :
  groupable db user k = true <-> sk_UserID k = user /\ sk_InstrID k = None /\ (user, sk_ID k) ∈ gdb_txns db.
Proof. unfold groupable. rewrite !andb_true_iff, !bool_decide_eq_true. tauto. Qed.

Lemma elem_of_groupable_keys db user k :
  k ∈ ListGroupableKeys db user <-> k ∈ gdb_keys db /\ groupable db user k = true.
Proof. unfold ListGroupableKeys. by rewrite elem_of_sort_func, elem_of_lfilter. Qed.

Lemma find_zip {A} (h : A -> uuid) (f : uuid -> uuid) a (l : list A) :
  find_func (fun v => bool_decide (v.1 = a)) (zip (map h l) (map (fun x => f (h x)) l)) =
  if bool_decide (a ∈ map h l) then Some (a, f a) else None.
Proof.
  induction l as [|x l IH]; simpl.
  - done.
  - unfold find_func in *. simpl. rewrite IH. destruct (decide (h x = a)) as [<-|Hne].
    + rewrite (bool_decide_true (h x = h x)) by done. rewrite (bool_decide_true (h x ∈ h x :: map h l)) by left. done.
    + rewrite (bool_decide_false (h x = a)) by done.
      rewrite (bool_decide_ext (a ∈ map h l) (a ∈ h x :: map h l)); [done |].
      rewrite elem_of_cons. intuition congruence.
Qed.

(** The group a key takes: the least id connected to it among the user's
    groupable keys, and none for a key that is not groupable. *)
Definition takes_group (db : GroupDB) (user : uuid) (k k' : StatedKey) : Prop :=
  if bool_decide (sk_UserID k = user) then
    if groupable db user k then
      exists g, k' = with_GroupID k (Some g) /\
        g ∈ map sk_ID (ListGroupableKeys db user) /\
        connected (ListGroupableKeys db user) (sk_ID k) g /\
        forall j, j ∈ map sk_ID (ListGroupableKeys db user) ->
          connected (ListGroupableKeys db user) (sk_ID k) j -> (g <= j)%N
    else k' = with_GroupID k None
  else k' = k.

Lemma Forall2_map_self {A B} (R : A -> B -> Prop) (f : A -> B) l :
  (forall x, x ∈ l -> R x (f x)) -> Forall2 R l (map f l).
Proof.
  induction l as [|x l IH]; intros H; simpl; constructor; [apply H; left |].
  apply IH. intros y Hy. apply H. by right.
Qed.

Lemma Regroup_takes db user :
  exists db', Regroup db user = Some db' /\ gdb_txns db' = gdb_txns db /\
    Forall2 (takes_group db user) (gdb_keys db) (gdb_keys db').
Proof.
  unfold Regroup. destruct (ListGroupableKeys db user) as [|k0 ks] eqn:Eks.
  { eexists; split; [reflexivity |]. split; [done |]. apply Forall2_map_self. intros k Hk.
    unfold takes_group. case_bool_decide; [| done].
    destruct (groupable db user k) eqn:Eg; [| done]. exfalso.
    assert (k ∈ ListGroupableKeys db user) as Hin by (by apply elem_of_groupable_keys).
    rewrite Eks in Hin. by apply not_elem_of_nil in Hin. }
  rewrite <- Eks in *. clear k0 ks Eks.
  destruct (groups_of_total (ListGroupableKeys db user)) as (m & -> & Hm). simpl.
  eexists; split; [reflexivity |]. split; [done |]. simpl. rewrite map_map.
  apply Forall2_map_self. intros k Hk. unfold takes_group.
  rewrite (find_zip sk_ID (fun a => default 0%N (m !! a))).
  case_bool_decide as Hu; simpl; [| by rewrite bool_decide_false by done].
  rewrite bool_decide_true by done. simpl.
  destruct (groupable db user k) eqn:Eg.
  - apply groupable_spec in Eg as Hg. destruct Hg as (_ & Hi & _). rewrite bool_decide_true by done.
    assert (k ∈ ListGroupableKeys db user) as Hin by (by apply elem_of_groupable_keys).
    rewrite bool_decide_true by (by apply list_elem_of_fmap_2).
    destruct (Hm k Hin) as (g & Hg & Hrest). rewrite Hg. simpl. by exists g.
  - case_bool_decide as Hi; [| done]. rewrite bool_decide_false; [done |].
    intros (l & Hl & Hin)%list_elem_of_fmap. apply elem_of_groupable_keys in Hin as [_ Hg].
    apply groupable_spec in Hg as (_ & _ & Ht). assert (groupable db user k = true); [| congruence].
    apply groupable_spec. by rewrite Hl.
Qed.

(** * Properties *)

(** Every run of [of] ends, and gives each key a group: the smallest id, so
    the earliest key, among the keys that a chain of shared joining
    identifiers connects to it, and no smaller id is connected. *)
Theorem groups_of_least keys :
  exists m, groups_of keys = Some m /\
    forall k, k ∈ keys -> exists g, m !! sk_ID k = Some g /\
      g ∈ map sk_ID keys /\ connected keys (sk_ID k) g /\
      forall j, j ∈ map sk_ID keys -> connected keys (sk_ID k) j -> (g <= j)%N.
Proof. apply groups_of_total. Qed.

(** Two keys take one group exactly when a chain of shared joining
    identifiers connects them. *)
Theorem groups_of_partition keys m k l :
  groups_of keys = Some m -> k ∈ keys -> l ∈ keys ->
  m !! sk_ID k = m !! sk_ID l <-> connected keys (sk_ID k) (sk_ID l).
Proof.
  intros Hm Hk Hl. destruct (groups_of_total keys) as (m' & Hm' & H). simplify_eq.
  destruct (H k Hk) as (g & -> & Hg & Hkg & Hgmin), (H l Hl) as (h & -> & Hh & Hlh & Hhmin). split.
  - intros [= ->]. transitivity h; [done | by symmetry].
  - intros Hkl. f_equal. apply N.le_antisymm.
    + apply Hgmin; [done |]. by transitivity (sk_ID l).
    + apply Hhmin; [done |]. transitivity (sk_ID k); [by symmetry | done].
Qed.

(** [Regroup] ends; it changes nothing but the groups of the user's keys:
    each key a transaction names and no instrument fixes takes the least id
    connected to it, and every other key of the user loses its group. *)
Theorem Regroup_spec db user :
  exists db', Regroup db user = Some db' /\ gdb_txns db' = gdb_txns db /\
    Forall2 (takes_group db user) (gdb_keys db) (gdb_keys db').
Proof. apply Regroup_takes. Qed.

(** Three keys, the first and last joined through the second, and one apart. *)
Definition example_keys : list StatedKey :=
  let isin := MkIdentifier IdentifierTypeIsin "" "US0378331005" in
  let sedol := MkIdentifier IdentifierTypeSedol "" "2046251" in
  let bare := MkIdentifier IdentifierTypeMicTicker "" "AAPL" in
  let key id ids := MkStatedKey id 1 None None ids None None None None in
  [key 7%N [bare; sedol]; key 5%N [isin]; key 9%N [bare]; key 8%N [isin; sedol]].

Lemma groups_of_partition_witness :
  groups_of example_keys = Some (<[8%N := 5%N]> (<[9%N := 9%N]> (<[5%N := 5%N]> {[7%N := 5%N]}))) /\
  (Some 5%N = Some 5%N <-> connected example_keys 7%N 8%N).
Proof.
  split; [vm_compute; reflexivity |].
  refine (groups_of_partition example_keys (<[8%N := 5%N]> (<[9%N := 9%N]> (<[5%N := 5%N]> {[7%N := 5%N]})))
    (nth 0 example_keys (nth 1 example_keys (MkStatedKey 0 0 None None [] None None None None)))
    (nth 3 example_keys (MkStatedKey 0 0 None None [] None None None None)) _ _ _).
  - vm_compute. reflexivity.
  - simpl. left.
  - simpl. do 3 right. left.
Defined.
