(* ===== verification/Runs.v ===== *)
(** Runs, [server/internal/run]: the rows of the [runs] table, the runner that
    executes work in the background and in the caller, its lanes, and the sweep
    at boot.

    The goroutines of the runner interleave. A world holds the table and the
    memory of the process; a step is one atomic piece of a goroutine: what it
    does under the runner's lock, a statement of the database, or a receive from
    a channel. The channel [done] of a run is named by the run's id. Work is what
    the packages that start runs give it: it ends with any error, a panic being
    one, and may complete its run's row itself. *)
From S2P Require Import Prelude Types.

(** * Definitions *)

(** ** The rows, [002_runs.sql] and [runs.sql] *)

Inductive RunKind : Type :=
| RunKindIngestStmt
| RunKindResolveStmtKeys
| RunKindDatasourceFetch
| RunKindReplayRun
| RunKindAttestIdentifier
| RunKindReassertTickers
| RunKindRefreshCorpActs
| RunKindRebuildTickerValidity.

Inductive RunTrigger : Type :=
| RunTriggerUser
| RunTriggerAdministrator
| RunTriggerRun.

Inductive RunState : Type :=
| RunStatePending
| RunStateRunning
| RunStateCompleted
| RunStateFailed
| RunStateInterrupted.

#[export] Instance RunKind_eq_dec : EqDecision RunKind.
Proof. solve_decision. Defined.
#[export] Instance RunTrigger_eq_dec : EqDecision RunTrigger.
Proof. solve_decision. Defined.
#[export] Instance RunState_eq_dec : EqDecision RunState.
Proof. solve_decision. Defined.

Record RunRow : Type := MkRunRow {
  rr_UserID : option uuid;
  rr_Kind : RunKind;
  rr_Trigger : RunTrigger;
  rr_ParentID : option uuid;
  rr_State : RunState;
  rr_Error : option string;
  rr_StartedAt : option time;
  rr_FinishedAt : option time;
}.

Abbreviation run_table := (gmap uuid RunRow) (only parsing).

(** The check of the table and the trigger [runs_parent_user]. *)
Definition run_checks (r : RunRow) : bool :=
  bool_decide (rr_Trigger r = RunTriggerRun) && bool_decide (is_Some (rr_ParentID r))
    || bool_decide (rr_Trigger r <> RunTriggerRun) && bool_decide (rr_ParentID r = None).

Definition parent_user_ok (t : run_table) (r : RunRow) : bool :=
  match rr_ParentID r with
  | None => true
  | Some p =>
      match t !! p with
      | None => false
      | Some pr => match rr_UserID r, rr_UserID pr with Some u, Some v => bool_decide (u = v) | _, _ => true end
      end
  end.

Definition CreateRun (t : run_table) (id : uuid) (user : option uuid) (kind : RunKind) (trigger : RunTrigger) (parent : option uuid) : option run_table :=
  let r := MkRunRow user kind trigger parent RunStatePending None None None in
  if bool_decide (t !! id = None) && run_checks r && parent_user_ok t r then Some (<[id := r]> t) else None.

(** [None] is no row. *)
Definition StartRun (t : run_table) (id : uuid) (now : time) : option run_table :=
  r ← t !! id;
  if bool_decide (rr_State r = RunStatePending)
  then Some (<[id := MkRunRow (rr_UserID r) (rr_Kind r) (rr_Trigger r) (rr_ParentID r) RunStateRunning (rr_Error r) (Some now) (rr_FinishedAt r)]> t)
  else None.

(** The update of a running row. *)
Definition stop_row (state : RunState) (err : option string) (now : time) (r : RunRow) : RunRow :=
  if bool_decide (rr_State r = RunStateRunning)
  then MkRunRow (rr_UserID r) (rr_Kind r) (rr_Trigger r) (rr_ParentID r) state err (rr_StartedAt r) (Some now) else r.

Definition CompleteRun (t : run_table) (id : uuid) (now : time) : run_table :=
  alter (fun r => stop_row RunStateCompleted (rr_Error r) now r) id t.

Definition FailRun (t : run_table) (id : uuid) (err : string) (now : time) : run_table :=
  alter (stop_row RunStateFailed (Some err) now) id t.

Definition interrupt (now : time) (r : RunRow) : RunRow :=
  match rr_State r with
  | RunStatePending | RunStateRunning =>
      MkRunRow (rr_UserID r) (rr_Kind r) (rr_Trigger r) (rr_ParentID r) RunStateInterrupted (rr_Error r) (rr_StartedAt r) (Some now)
  | _ => r
  end.

(** [InterruptRuns], which also settles the statements. *)
Definition InterruptRuns (t : run_table) (now : time) : run_table := interrupt now <$> t.

(** ** The runner, [run.go] *)

Record laneKey : Type := MkLaneKey {
  lk_user : uuid;
  lk_lane : string;
}.

#[export] Instance laneKey_eq_dec : EqDecision laneKey.
Proof. solve_decision. Defined.

#[export] Instance laneKey_countable : Countable laneKey.
Proof. by refine (inj_countable' (fun k => (lk_user k, lk_lane k)) (fun p => MkLaneKey p.1 p.2) _); intros []. Defined.

Definition nil_uuid : uuid := 0%N.

Record Spec : Type := MkSpec {
  sp_Kind : RunKind;
  sp_Trigger : RunTrigger;
  sp_UserID : option uuid;
  sp_Lane : string;
  (** Whether there is a [Prepare]. *)
  sp_Prepare : bool;
}.

(** Where the call of [Start] is: before the insert, in the prepare step, or
    past the handoff; the channel [ready] is closed without one where the insert
    failed. *)
Inductive call_state : Type :=
| Inserting
| Preparing
| Handed (err : option string)
| NoRow.

(** Where the goroutine of [background] is. [failed] is the error of the
    handoff, which replaces the work; [err] is what [execute] is to record. *)
Inductive goroutine : Type :=
| WaitingPrev (prev : uuid)
| WaitingReady
| Starting (failed : option string)
| Working (failed : option string)
| RecordingEnd (err : option string)
| Returning
| Closing
| Gone.

#[export] Instance goroutine_eq_dec : EqDecision goroutine.
Proof. solve_decision. Defined.

Record thread : Type := MkThread {
  th_key : laneKey;
  th_spec : Spec;
  th_call : call_state;
  th_state : goroutine;
}.

(** A run in the caller: [Child], [ChildAs] and [Sync]. *)
Inductive inline_state : Type :=
| InlineStarting
| InlineWorking
| InlineRecording (err : option string)
| InlineReturned.

(** The table, the process, and the next id: [db.NewID] answers ids in order. *)
Record world : Type := MkWorld {
  wd_runs : run_table;
  wd_closed : bool;
  wd_lanes : gmap laneKey uuid;
  wd_threads : gmap uuid thread;
  wd_inline : gmap uuid inline_state;
  wd_next : uuid;
}.

Definition set_runs (t : run_table) (w : world) : world := MkWorld t (wd_closed w) (wd_lanes w) (wd_threads w) (wd_inline w) (wd_next w).
Definition set_lanes (l : gmap laneKey uuid) (w : world) : world := MkWorld (wd_runs w) (wd_closed w) l (wd_threads w) (wd_inline w) (wd_next w).
Definition set_thread (id : uuid) (t : thread) (w : world) : world :=
  MkWorld (wd_runs w) (wd_closed w) (wd_lanes w) (<[id := t]> (wd_threads w)) (wd_inline w) (wd_next w).
Definition set_inline (id : uuid) (s : inline_state) (w : world) : world :=
  MkWorld (wd_runs w) (wd_closed w) (wd_lanes w) (wd_threads w) (<[id := s]> (wd_inline w)) (wd_next w).

Definition th_at (t : thread) (s : goroutine) : thread := MkThread (th_key t) (th_spec t) (th_call t) s.
Definition th_called (t : thread) (c : call_state) : thread := MkThread (th_key t) (th_spec t) c (th_state t).

Definition lane_of (spec : Spec) : laneKey := MkLaneKey (default nil_uuid (sp_UserID spec)) (sp_Lane spec).

(** The part of [Start] under the lock. [None] is [ErrClosed]. *)
Definition Start (spec : Spec) (w : world) : option world :=
  if wd_closed w then None
  else
    let id := wd_next w in
    let key := lane_of spec in
    let state := match wd_lanes w !! key with Some prev => WaitingPrev prev | None => WaitingReady end in
    Some (MkWorld (wd_runs w) false (<[key := id]> (wd_lanes w)) (<[id := MkThread key spec Inserting state]> (wd_threads w)) (wd_inline w) (id + 1)%N).

(** The insert of [Start]; [lost] is a failure of the database. *)
Definition start_insert (id : uuid) (lost : bool) (w : world) : option world :=
  t ← wd_threads w !! id;
  match th_call t with
  | Inserting =>
      let spec := th_spec t in
      Some (match (if lost then None else CreateRun (wd_runs w) id (sp_UserID spec) (sp_Kind spec) (sp_Trigger spec) None) with
            | None => set_thread id (th_called t NoRow) w
            | Some runs => set_runs runs (set_thread id (th_called t (if sp_Prepare spec then Preparing else Handed None)) w)
            end)
  | _ => None
  end.

(** The prepare step ends with [err]. *)
Definition start_prepared (id : uuid) (err : option string) (w : world) : option world :=
  t ← wd_threads w !! id;
  match th_call t with Preparing => Some (set_thread id (th_called t (Handed err)) w) | _ => None end.

(** Whether the channel [done] of a run is closed. *)
Definition thread_done (w : world) (id : uuid) : bool :=
  match wd_threads w !! id with
  | Some t => match th_state t with Closing | Gone => true | _ => false end
  | None => false
  end.

(** The first [select] of [background]: the run before has stopped, or the
    runner closes. *)
Definition bg_prev (id : uuid) (w : world) : option world :=
  t ← wd_threads w !! id;
  match th_state t with
  | WaitingPrev prev => if thread_done w prev then Some (set_thread id (th_at t WaitingReady) w) else None
  | _ => None
  end.

Definition bg_cancelled (id : uuid) (w : world) : option world :=
  t ← wd_threads w !! id;
  if wd_closed w
  then match th_state t with WaitingPrev _ | WaitingReady => Some (set_thread id (th_at t Returning) w) | _ => None end
  else None.

(** The second [select], and the check that follows it. *)
Definition bg_ready (id : uuid) (w : world) : option world :=
  t ← wd_threads w !! id;
  match th_state t, th_call t with
  | WaitingReady, Handed err => Some (set_thread id (th_at t (if wd_closed w then Returning else Starting err)) w)
  | WaitingReady, NoRow => Some (set_thread id (th_at t Returning) w)
  | _, _ => None
  end.

(** [execute]: the row starts, the work ends with [err], and its end is recorded;
    [lost] is a failure of the database. Work that stopped because the runner
    closed is not recorded. *)
Definition bg_start (id : uuid) (lost : bool) (now : time) (w : world) : option world :=
  t ← wd_threads w !! id;
  match th_state t with
  | Starting failed =>
      Some (match (if lost then None else StartRun (wd_runs w) id now) with
            | None => set_thread id (th_at t Returning) w
            | Some runs => set_runs runs (set_thread id (th_at t (Working failed)) w)
            end)
  | _ => None
  end.

(** Work completes its row in a transaction of its own. *)
Definition bg_completes (id : uuid) (now : time) (w : world) : option world :=
  t ← wd_threads w !! id;
  match th_state t with Working None => Some (set_runs (CompleteRun (wd_runs w) id now) w) | _ => None end.

Definition bg_worked (id : uuid) (err : option string) (w : world) : option world :=
  t ← wd_threads w !! id;
  match th_state t with
  | Working failed => Some (set_thread id (th_at t (RecordingEnd (match failed with Some e => Some e | None => err end))) w)
  | _ => None
  end.

(** The writes at the end of [execute]. *)
Definition record_end (t : run_table) (id : uuid) (err : option string) (cancelled lost : bool) (now : time) : run_table :=
  if lost then t
  else match err with
       | None => CompleteRun t id now
       | Some e => if cancelled then t else FailRun t id e now
       end.

Definition bg_record (id : uuid) (lost : bool) (now : time) (w : world) : option world :=
  t ← wd_threads w !! id;
  match th_state t with
  | RecordingEnd err => Some (set_runs (record_end (wd_runs w) id err (wd_closed w) lost now) (set_thread id (th_at t Returning) w))
  | _ => None
  end.

(** The deferred functions: the channel closes, and then the lane is left where
    no later run joined it. *)
Definition bg_close (id : uuid) (w : world) : option world :=
  t ← wd_threads w !! id;
  match th_state t with Returning => Some (set_thread id (th_at t Closing) w) | _ => None end.

Definition bg_leave (id : uuid) (w : world) : option world :=
  t ← wd_threads w !! id;
  match th_state t with
  | Closing =>
      let lanes := if bool_decide (wd_lanes w !! th_key t = Some id) then delete (th_key t) (wd_lanes w) else wd_lanes w in
      Some (set_lanes lanes (set_thread id (th_at t Gone) w))
  | _ => None
  end.

(** [Close], before it waits. *)
Definition Close (w : world) : world := MkWorld (wd_runs w) true (wd_lanes w) (wd_threads w) (wd_inline w) (wd_next w).

(** A row of a run in the caller. [None] is an error: the runner is closed, or
    the insert fails. *)
Definition inline_run (user : option uuid) (kind : RunKind) (trigger : RunTrigger) (parent : option uuid) (w : world) : option world :=
  if wd_closed w then None
  else
    let id := wd_next w in
    runs ← CreateRun (wd_runs w) id user kind trigger parent;
    Some (MkWorld runs false (wd_lanes w) (wd_threads w) (<[id := InlineStarting]> (wd_inline w)) (id + 1)%N).

Definition ChildAs (parent : uuid) (user : option uuid) (kind : RunKind) : world -> option world := inline_run user kind RunTriggerRun (Some parent).

Definition Child (parent : uuid) (kind : RunKind) (w : world) : option world := p ← wd_runs w !! parent; ChildAs parent (rr_UserID p) kind w.

Definition Sync (user : uuid) (kind : RunKind) (trigger : RunTrigger) : world -> option world := inline_run (Some user) kind trigger None.

Definition inline_start (id : uuid) (lost : bool) (now : time) (w : world) : option world :=
  s ← wd_inline w !! id;
  match s with
  | InlineStarting =>
      Some (match (if lost then None else StartRun (wd_runs w) id now) with
            | None => set_inline id InlineReturned w
            | Some runs => set_runs runs (set_inline id InlineWorking w)
            end)
  | _ => None
  end.

Definition inline_completes (id : uuid) (now : time) (w : world) : option world :=
  s ← wd_inline w !! id;
  match s with InlineWorking => Some (set_runs (CompleteRun (wd_runs w) id now) w) | _ => None end.

Definition inline_worked (id : uuid) (err : option string) (w : world) : option world :=
  s ← wd_inline w !! id;
  match s with InlineWorking => Some (set_inline id (InlineRecording err) w) | _ => None end.

(** The context is the caller's, which may be cancelled of itself. *)
Definition inline_record (id : uuid) (cancelled lost : bool) (now : time) (w : world) : option world :=
  s ← wd_inline w !! id;
  match s with
  | InlineRecording err => Some (set_runs (record_end (wd_runs w) id err cancelled lost now) (set_inline id InlineReturned w))
  | _ => None
  end.

(** The process stops and another boots: [Sweep] runs before any run starts. *)
Definition boot (now : time) (w : world) : world := MkWorld (InterruptRuns (wd_runs w) now) false ∅ ∅ ∅ (wd_next w).

(** ** Steps *)

Inductive step (w : world) : world -> Prop :=
| step_start spec w' : Start spec w = Some w' -> step w w'
| step_insert id lost w' : start_insert id lost w = Some w' -> step w w'
| step_prepared id err w' : start_prepared id err w = Some w' -> step w w'
| step_prev id w' : bg_prev id w = Some w' -> step w w'
| step_cancelled id w' : bg_cancelled id w = Some w' -> step w w'
| step_ready id w' : bg_ready id w = Some w' -> step w w'
| step_bg_start id lost now w' : bg_start id lost now w = Some w' -> step w w'
| step_completes id now w' : bg_completes id now w = Some w' -> step w w'
| step_worked id err w' : bg_worked id err w = Some w' -> step w w'
| step_record id lost now w' : bg_record id lost now w = Some w' -> step w w'
| step_close id w' : bg_close id w = Some w' -> step w w'
| step_leave id w' : bg_leave id w = Some w' -> step w w'
| step_closed : step w (Close w)
| step_child parent kind w' : Child parent kind w = Some w' -> step w w'
| step_child_as parent user kind w' : ChildAs parent user kind w = Some w' -> step w w'
| step_sync user kind trigger w' : Sync user kind trigger w = Some w' -> step w w'
| step_inline_start id lost now w' : inline_start id lost now w = Some w' -> step w w'
| step_inline_completes id now w' : inline_completes id now w = Some w' -> step w w'
| step_inline_worked id err w' : inline_worked id err w = Some w' -> step w w'
| step_inline_record id cancelled lost now w' : inline_record id cancelled lost now w = Some w' -> step w w'
| step_boot now : step w (boot now w).

(** The first process, over an empty table. *)
Definition first_world : world := MkWorld ∅ false ∅ ∅ ∅ 1%N.

Definition reachable (w : world) : Prop := rtc step first_world w.

(** * Lanes *)

(** The background run is past the check of the context, and its work may run. *)
Definition executing (t : thread) : Prop :=
  match th_state t with Starting _ | Working _ | RecordingEnd _ => True | _ => False end.

Definition waiting_prev (t : thread) : Prop := match th_state t with WaitingPrev _ => True | _ => False end.

Definition stopped (t : thread) : bool := match th_state t with Closing | Gone => true | _ => false end.

(** Every run started before [b] in its lane has stopped. *)
Definition clear (w : world) (b : uuid) (key : laneKey) : Prop :=
  forall a t, wd_threads w !! a = Some t -> th_key t = key -> (a < b)%N -> stopped t = true.

Lemma thread_done_stopped w id : thread_done w id = true <-> exists t, wd_threads w !! id = Some t /\ stopped t = true.
Proof. unfold thread_done, stopped. destruct (wd_threads w !! id) as [t|]; [| split; [done | by intros (? & ? & _)]]. split; [eauto |]. by intros (t' & [= <-] & H). Qed.

Record lanes_ok (w : world) : Prop := {
  lo_next id t : wd_threads w !! id = Some t -> (id < wd_next w)%N;
  (** A lane is its last run. *)
  lo_lane key c : wd_lanes w !! key = Some c -> (exists t, wd_threads w !! c = Some t /\ th_key t = key) /\
    forall a t, wd_threads w !! a = Some t -> th_key t = key -> (a <= c)%N;
  lo_free key : wd_closed w = false -> wd_lanes w !! key = None ->
    forall a t, wd_threads w !! a = Some t -> th_key t = key -> stopped t = true;
  (** A run waits for the one before it. *)
  lo_prev b t p : wd_threads w !! b = Some t -> th_state t = WaitingPrev p ->
    (exists t', wd_threads w !! p = Some t' /\ th_key t' = th_key t) /\ (p < b)%N /\
    forall a ta, wd_threads w !! a = Some ta -> th_key ta = th_key t -> (a < b)%N -> (a <= p)%N;
  lo_clear b t : wd_threads w !! b = Some t -> executing t \/ (wd_closed w = false /\ ~ waiting_prev t) -> clear w b (th_key t);
}.

(** The rest of the world is no matter to the lanes. *)
Lemma lanes_ok_same w w' : wd_closed w' = wd_closed w -> wd_lanes w' = wd_lanes w -> wd_threads w' = wd_threads w -> (wd_next w <= wd_next w')%N ->
  lanes_ok w -> lanes_ok w'.
Proof.
  intros Hc Hl Ht Hn [H1 H2 H3 H4 H5]. split; rewrite ?Hc, ?Hl, ?Ht; try done.
  - intros id t Hid. specialize (H1 id t Hid). lia.
  - intros b t Hb He. unfold clear. rewrite Ht. by apply (H5 b t Hb).
Qed.

(** One thread moves on in its lane. *)
Lemma lanes_ok_thread w id t t' runs : lanes_ok w -> wd_threads w !! id = Some t -> th_key t' = th_key t ->
  (stopped t = true -> stopped t' = true) -> (waiting_prev t' -> th_state t' = th_state t) ->
  (executing t' \/ (wd_closed w = false /\ ~ waiting_prev t') -> clear w id (th_key t)) ->
  lanes_ok (set_runs runs (set_thread id t' w)).
Proof.
  intros [H1 H2 H3 H4 H5] Ht Hk Hst Hwp Hcl.
  assert (forall a ta, <[id := t']> (wd_threads w) !! a = Some ta -> exists ta0, wd_threads w !! a = Some ta0 /\ th_key ta0 = th_key ta /\
    (stopped ta0 = true -> stopped ta = true)) as Hback.
  { intros a ta [[<- <-]|[_ Ha]]%lookup_insert_Some; [by exists t | by exists ta]. }
  assert (forall a ta, wd_threads w !! a = Some ta -> exists ta1, <[id := t']> (wd_threads w) !! a = Some ta1 /\ th_key ta1 = th_key ta) as Hfwd.
  { intros a ta Ha. destruct (decide (a = id)) as [->|Hne]; [exists t'; rewrite lookup_insert_eq; split; [done | congruence] | exists ta; by rewrite lookup_insert_ne]. }
  assert (forall b key, clear w b key -> clear (set_thread id t' w) b key) as Hclear.
  { intros b key Hb a ta Ha Hka Hlt. destruct (Hback a ta Ha) as (ta0 & Ha0 & Hk0 & Hs). apply Hs, (Hb a ta0); [done | congruence | done]. }
  split; simpl.
  - intros a ta (ta0 & Ha0 & _)%Hback. by apply (H1 a ta0).
  - intros key c Hc. destruct (H2 key c Hc) as [(tc & Htc & Hkc) Hle]. split.
    + destruct (Hfwd c tc Htc) as (tc1 & ? & ?). exists tc1. split; [done | congruence].
    + intros a ta (ta0 & Ha0 & Hk0 & _)%Hback Hka. apply (Hle a ta0); [done | congruence].
  - intros key Hc Hn a ta (ta0 & Ha0 & Hk0 & Hs)%Hback Hka. apply Hs, (H3 key Hc Hn a ta0); [done | congruence].
  - intros b tb p Hb Hs. assert (exists tb0, wd_threads w !! b = Some tb0 /\ th_key tb0 = th_key tb /\ th_state tb0 = WaitingPrev p) as (tb0 & Hb0 & Hkb & Hsb).
    { apply lookup_insert_Some in Hb as [[<- <-]|[_ Hb]]; [| by exists tb]. exists t. split; [done |]. split; [done |].
      rewrite <- Hwp; [done |]. unfold waiting_prev. by rewrite Hs. }
    destruct (H4 b tb0 p Hb0 Hsb) as ((tp & Htp & Hkp) & Hlt & Hall). split; [| split; [done |]].
    + destruct (Hfwd p tp Htp) as (tp1 & ? & ?). exists tp1. split; [done | congruence].
    + intros a ta (ta0 & Ha0 & Hk0 & _)%Hback Hka Hab. apply (Hall a ta0); [done | congruence | done].
  - intros b tb Hb He. change (clear (set_thread id t' w) b (th_key tb)). apply Hclear. apply lookup_insert_Some in Hb as [[<- <-]|[_ Hb]]; [rewrite Hk; by apply Hcl | by apply (H5 b tb)].
Qed.

Lemma set_runs_same w : set_runs (wd_runs w) w = w.
Proof. by destruct w. Qed.

(** What is clear for a thread that has left its first wait stays so. *)
Lemma clear_of w id t : lanes_ok w -> wd_threads w !! id = Some t -> executing t \/ (wd_closed w = false /\ ~ waiting_prev t) -> clear w id (th_key t).
Proof. intros Hok. apply (lo_clear _ Hok). Qed.

Lemma lanes_start spec w w' : lanes_ok w -> Start spec w = Some w' -> lanes_ok w'.
Proof.
  intros [H1 H2 H3 H4 H5]. unfold Start. destruct (wd_closed w) eqn:Ec; [done |]. intros [= <-]. set (key := lane_of spec). set (n := wd_next w).
  set (state := match wd_lanes w !! key with Some _ => _ | None => _ end). set (tn := MkThread key spec Inserting state).
  assert (forall a ta, wd_threads w !! a = Some ta -> (a < n)%N /\ a <> n) as Hlt by (intros a ta Ha; pose proof (H1 a ta Ha); fold n in H; split; [done | lia]).
  assert (forall a ta, <[n := tn]> (wd_threads w) !! a = Some ta -> (a = n /\ ta = tn) \/ (wd_threads w !! a = Some ta /\ (a < n)%N)) as Hback.
  { intros a ta [[<- <-]|[_ Ha]]%lookup_insert_Some; [by left | right; split; [done | by eapply Hlt]]. }
  assert (forall a ta, wd_threads w !! a = Some ta -> <[n := tn]> (wd_threads w) !! a = Some ta) as Hfwd.
  { intros a ta Ha. rewrite lookup_insert_ne; [done |]. intros <-. by destruct (Hlt _ _ Ha). }
  split; simpl.
  - intros a ta [[-> ->]|[_ ?]]%Hback; lia.
  - intros k c [[<- <-]|[Hk Hc]]%lookup_insert_Some.
    + split; [exists tn; by rewrite lookup_insert_eq |]. intros a ta [[-> _]|[_ ?]]%Hback _; lia.
    + destruct (H2 k c Hc) as [(tc & Htc & Hkc) Hle]. split; [exists tc; split; [by apply Hfwd | done] |].
      intros a ta [[-> ->]|[Ha _]]%Hback Hka; [by destruct Hk | by apply (Hle a ta)].
  - intros k _ Hn a ta [[-> ->]|[Ha _]]%Hback Hka; [subst k; by rewrite lookup_insert_eq in Hn |].
    apply lookup_insert_None in Hn as [Hn _]. by apply (H3 k eq_refl Hn a ta).
  - intros b tb p [[-> ->]|[Hb Hbn]]%Hback Hs.
    + simpl in Hs. unfold state in Hs. destruct (wd_lanes w !! key) as [prev|] eqn:El; [| done]. injection Hs as <-.
      destruct (H2 key prev El) as [(tp & Htp & Hkp) Hle]. split; [exists tp; split; [by apply Hfwd | done] |]. split; [by eapply Hlt |].
      intros a ta [[-> ->]|[Ha _]]%Hback Hka Hab; [lia | by apply (Hle a ta)].
    + destruct (H4 b tb p Hb Hs) as ((tp & Htp & Hkp) & Hpb & Hall). split; [exists tp; split; [by apply Hfwd | done] |]. split; [done |].
      intros a ta [[-> ->]|[Ha _]]%Hback Hka Hab; [lia | by apply (Hall a ta)].
  - intros b tb [[-> ->]|[Hb Hbn]]%Hback He a ta [[-> ->]|[Ha Han]]%Hback Hka Hab; try lia.
    + simpl in *. unfold executing, waiting_prev, tn, state in He. simpl in He. destruct (wd_lanes w !! key) as [prev|] eqn:El; [naive_solver |].
      by apply (H3 key eq_refl El a ta).
    + apply (H5 b tb Hb) with a; [destruct He as [He|[_ He]]; [by left | by right] | done | done | done].
Qed.

Ltac thread_case := match goal with
  | H : (_ ← wd_threads ?w !! ?id; _) = Some _ |- _ => let t := fresh "t" in let Ht := fresh "Ht" in destruct (wd_threads w !! id) as [t|] eqn:Ht; [simpl in H | done]
  end.

(** A thread that leaves no wait but its second, and stays in its lane. *)
Lemma lanes_ok_moved w id t s runs : lanes_ok w -> wd_threads w !! id = Some t -> ~ waiting_prev t -> stopped t = false -> ~ waiting_prev (th_at t s) ->
  (executing (th_at t s) -> executing t \/ wd_closed w = false) -> lanes_ok (set_runs runs (set_thread id (th_at t s) w)).
Proof.
  intros Hok Ht Hw Hs Hw' He. apply (lanes_ok_thread w id t); [done | done | done | congruence | done |].
  intros H. apply (clear_of w id t Hok Ht). destruct H as [H|[? _]]; [destruct (He H) as [?|?]; [by left | by right] | by right].
Qed.

Ltac moved Es := eapply lanes_ok_moved; [eassumption | eassumption | ..]; unfold waiting_prev, stopped, executing; simpl; rewrite ?Es; tauto.

Lemma lanes_called w id t c runs : lanes_ok w -> wd_threads w !! id = Some t -> lanes_ok (set_runs runs (set_thread id (th_called t c) w)).
Proof. intros Hok Ht. apply (lanes_ok_thread w id t); [done | done | done | done | done |]. intros H. by apply (clear_of w id t Hok Ht). Qed.

Lemma lanes_prev id w w' : lanes_ok w -> bg_prev id w = Some w' -> lanes_ok w'.
Proof.
  intros Hok H. unfold bg_prev in H. thread_case. destruct (th_state t) as [p| | | | | | |] eqn:Es; try done. destruct (thread_done w p) eqn:Ed; [| done]. injection H as <-.
  rewrite <- (set_runs_same (set_thread _ _ _)). apply (lanes_ok_thread w id t); [done | done | done | by unfold stopped; rewrite Es | done |].
  intros [[]|[Hc _]]. apply thread_done_stopped in Ed as (tp & Htp & Hsp). destruct (lo_prev _ Hok id t p Ht Es) as ((tp' & Htp' & Hkp) & Hlt & Hall).
  assert (tp' = tp) as -> by congruence. intros a ta Ha Hka Hai. destruct (decide (a = p)) as [->|Hne]; [congruence |].
  assert (a <= p)%N by by apply (Hall a ta). refine (lo_clear _ Hok p tp Htp _ a ta Ha _ _); [| congruence | lia].
  right. split; [done |]. unfold stopped, waiting_prev in *. destruct (th_state tp); try done; tauto.
Qed.

Lemma lanes_cancelled id w w' : lanes_ok w -> bg_cancelled id w = Some w' -> lanes_ok w'.
Proof.
  intros Hok H. unfold bg_cancelled in H. thread_case. destruct (wd_closed w) eqn:Ec; [| done].
  assert (w' = set_thread id (th_at t Returning) w /\ stopped t = false) as [-> Hs] by (unfold stopped; destruct (th_state t); by simplify_eq).
  rewrite <- (set_runs_same (set_thread _ _ _)). apply (lanes_ok_thread w id t); [done | done | done | congruence | done |].
  intros [[]|[? _]]. congruence.
Qed.

Lemma lanes_ready id w w' : lanes_ok w -> bg_ready id w = Some w' -> lanes_ok w'.
Proof.
  intros Hok H. unfold bg_ready in H. thread_case. destruct (th_state t) eqn:Es; try done.
  assert (exists s, w' = set_thread id (th_at t s) w /\ (executing (th_at t s) -> wd_closed w = false) /\ ~ waiting_prev (th_at t s)) as (s & -> & He & Hn).
  { destruct (th_call t); try done; simplify_eq; eexists; (split; [reflexivity |]); [destruct (wd_closed w) |]; unfold executing, waiting_prev; simpl; tauto. }
  rewrite <- (set_runs_same (set_thread _ _ _)). apply (lanes_ok_moved w id t); [done | done | | | done | intros ?%He; by right];
    unfold waiting_prev, stopped; rewrite Es; [by intros [] | done].
Qed.

Lemma lanes_bg_start id lost now w w' : lanes_ok w -> bg_start id lost now w = Some w' -> lanes_ok w'.
Proof.
  intros Hok H. unfold bg_start in H. thread_case. destruct (th_state t) eqn:Es; try done. injection H as <-.
  destruct (if lost then None else StartRun _ _ _); [| rewrite <- (set_runs_same (set_thread _ _ _))]; moved Es.
Qed.

Lemma lanes_worked id err w w' : lanes_ok w -> bg_worked id err w = Some w' -> lanes_ok w'.
Proof.
  intros Hok H. unfold bg_worked in H. thread_case. destruct (th_state t) eqn:Es; try done. injection H as <-.
  rewrite <- (set_runs_same (set_thread _ _ _)). moved Es.
Qed.

Lemma lanes_record id lost now w w' : lanes_ok w -> bg_record id lost now w = Some w' -> lanes_ok w'.
Proof.
  intros Hok H. unfold bg_record in H. thread_case. destruct (th_state t) eqn:Es; try done. injection H as <-.
  moved Es.
Qed.

Lemma lanes_close id w w' : lanes_ok w -> bg_close id w = Some w' -> lanes_ok w'.
Proof.
  intros Hok H. unfold bg_close in H. thread_case. destruct (th_state t) eqn:Es; try done. injection H as <-.
  rewrite <- (set_runs_same (set_thread _ _ _)). moved Es.
Qed.

Lemma lanes_leave id w w' : lanes_ok w -> bg_leave id w = Some w' -> lanes_ok w'.
Proof.
  intros Hok H. unfold bg_leave in H. thread_case. destruct (th_state t) eqn:Es; try done. injection H as <-.
  assert (lanes_ok (set_thread id (th_at t Gone) w)) as [H1 H2 H3 H4 H5].
  { rewrite <- (set_runs_same (set_thread _ _ _)). apply (lanes_ok_thread w id t); [done | done | done | done | done |].
    intros He. apply (clear_of w id t Hok Ht). destruct He as [[]|[? _]]. right. split; [done |]. unfold waiting_prev. rewrite Es. by intros []. }
  case_bool_decide as Hl; [| by split]. split; try done; simpl in *.
  - intros key c Hc. apply H2. by apply lookup_delete_Some in Hc as [_ ?].
  - intros key Hc Hn a ta Ha Hka. destruct (decide (key = th_key t)) as [->|Hne]; [| rewrite lookup_delete_ne in Hn by done; by apply (H3 key Hc Hn a ta)].
    destruct (H2 _ _ Hl) as [_ Hle]. specialize (Hle a ta Ha Hka). destruct (decide (a = id)) as [->|Hai]; [rewrite lookup_insert_eq in Ha; by injection Ha as <- |].
    refine (H5 id (th_at t Gone) _ _ a ta Ha Hka _); [by rewrite lookup_insert_eq | right; split; [done | by intros []] | lia].
Qed.

(** Every reachable world keeps its lanes. *)
Lemma lanes_step w w' : lanes_ok w -> step w w' -> lanes_ok w'.
Proof.
  intros Hok. destruct 1 as [spec w' H|id lost w' H|id err w' H|id w' H|id w' H|id w' H|id lost now w' H|id now w' H|id err w' H|id lost now w' H|id w' H|id w' H| |
    parent kind w' H|parent user kind w' H|user kind trigger w' H|id lost now w' H|id now w' H|id err w' H|id cancelled lost now w' H|now].
  - by eapply lanes_start.
  - unfold start_insert in H. thread_case. destruct (th_call t); try done. injection H as <-.
    destruct (if lost then None else CreateRun _ _ _ _ _ _); [| rewrite <- (set_runs_same (set_thread _ _ _))]; by apply lanes_called.
  - unfold start_prepared in H. thread_case. destruct (th_call t); try done. injection H as <-. rewrite <- (set_runs_same (set_thread _ _ _)). by apply lanes_called.
  - by eapply lanes_prev.
  - by eapply lanes_cancelled.
  - by eapply lanes_ready.
  - by eapply lanes_bg_start.
  - unfold bg_completes in H. thread_case. destruct (th_state t) as [| | |[]| | | |]; try done. injection H as <-. by apply (lanes_ok_same w).
  - by eapply lanes_worked.
  - by eapply lanes_record.
  - by eapply lanes_close.
  - by eapply lanes_leave.
  - destruct Hok as [H1 H2 H3 H4 H5]. split; try done. simpl. intros b t Hb [He|[? _]]; [| done]. by apply (H5 b t Hb); left.
  - unfold Child, ChildAs, inline_run in H. destruct (wd_runs w !! parent); simpl in H; [| done]. destruct (wd_closed w) eqn:Ec; [done |].
    destruct (CreateRun _ _ _ _ _ _); simpl in H; [| done]. injection H as <-. apply (lanes_ok_same w); simpl; [done.. | lia | done].
  - unfold ChildAs, inline_run in H. destruct (wd_closed w) eqn:Ec; [done |].
    destruct (CreateRun _ _ _ _ _ _); simpl in H; [| done]. injection H as <-. apply (lanes_ok_same w); simpl; [done.. | lia | done].
  - unfold Sync, inline_run in H. destruct (wd_closed w) eqn:Ec; [done |].
    destruct (CreateRun _ _ _ _ _ _); simpl in H; [| done]. injection H as <-. apply (lanes_ok_same w); simpl; [done.. | lia | done].
  - unfold inline_start in H. destruct (wd_inline w !! id) as [[]|]; try done. simpl in H. injection H as <-. destruct (if lost then None else _); by apply (lanes_ok_same w).
  - unfold inline_completes in H. destruct (wd_inline w !! id) as [[]|]; try done. simpl in H. injection H as <-. by apply (lanes_ok_same w).
  - unfold inline_worked in H. destruct (wd_inline w !! id) as [[]|]; try done. simpl in H. injection H as <-. by apply (lanes_ok_same w).
  - unfold inline_record in H. destruct (wd_inline w !! id) as [[]|]; try done. simpl in H. injection H as <-. by apply (lanes_ok_same w).
  - split; simpl; try (by intros ? ? ?%lookup_empty_Some); [by intros ? _ _ ? ? ?%lookup_empty_Some | by intros ? ? ? ?%lookup_empty_Some].
Qed.

Lemma lanes_reachable w : reachable w -> lanes_ok w.
Proof.
  intros Hr. assert (lanes_ok first_world) as H0.
  { split; simpl; try (by intros ? ? ?%lookup_empty_Some); [by intros ? _ _ ? ? ?%lookup_empty_Some | by intros ? ? ? ?%lookup_empty_Some]. }
  unfold reachable in Hr. induction Hr as [|w1 w2 w3 Hs _ IH]; [done |]. apply IH. by eapply lanes_step.
Qed.

(** * Rows *)

Definition ended (r : RunRow) : bool := match rr_State r with RunStatePending | RunStateRunning => false | _ => true end.

(** The columns that the comments of the table tie to the state. *)
Definition row_ok (r : RunRow) : Prop :=
  (is_Some (rr_Error r) <-> rr_State r = RunStateFailed) /\ (is_Some (rr_FinishedAt r) <-> ended r = true) /\
  (rr_State r = RunStatePending -> rr_StartedAt r = None) /\ (rr_State r ∈ [RunStateRunning; RunStateCompleted; RunStateFailed] -> is_Some (rr_StartedAt r)).

(** A row only moves on: it keeps what it was created with, a running row is not
    pending again, and a row that has ended is final. *)
Record advances (r r' : RunRow) : Prop := {
  av_created : rr_UserID r' = rr_UserID r /\ rr_Kind r' = rr_Kind r /\ rr_Trigger r' = rr_Trigger r /\ rr_ParentID r' = rr_ParentID r;
  av_running : rr_State r = RunStateRunning -> rr_State r' <> RunStatePending;
  av_ended : ended r = true -> r' = r;
  av_ok : row_ok r -> row_ok r';
}.

#[export] Instance advances_preorder : PreOrder advances.
Proof.
  split; [intros r; split; [done | by intros -> | done | done] |]. intros a b c [(A1 & A2 & A3 & A4) B C D] [(A1' & A2' & A3' & A4') B' C' D'].
  split; [split; [|split; [|split]]; congruence | | | auto].
  - intros Ha. specialize (B Ha). destruct (rr_State b) eqn:Eb; [done | auto | ..]; rewrite (C' ltac:(by unfold ended; rewrite Eb)); congruence.
  - intros Ha. specialize (C Ha). subst b. by apply C'.
Qed.

Definition table_advances (t t' : run_table) : Prop := forall id r, t !! id = Some r -> exists r', t' !! id = Some r' /\ advances r r'.

#[export] Instance table_advances_preorder : PreOrder table_advances.
Proof.
  split; [intros t id r Hr; by exists r |]. intros a b c Hab Hbc id r Hr. destruct (Hab id r Hr) as (r1 & H1 & A1). destruct (Hbc id r1 H1) as (r2 & H2 & A2).
  exists r2. split; [done | by transitivity r1].
Qed.

Lemma stop_advances state err now r : (state = RunStateCompleted /\ err = rr_Error r) \/ (state = RunStateFailed /\ is_Some err) -> advances r (stop_row state err now r).
Proof.
  intros Hs. unfold stop_row. case_bool_decide as Hr; [| reflexivity]. split; simpl; [done | | by unfold ended; rewrite Hr |].
  - destruct Hs as [[-> _]|[-> _]]; done.
  - unfold row_ok, ended. rewrite Hr. simpl. intros (H1 & H2 & H3 & H4). destruct Hs as [[-> ->]|[-> Hs]]; simpl.
    + split; [rewrite H1; done |]. split; [split; [done | by exists now] |]. split; [done |]. intros _. apply H4. by left.
    + split; [done |]. split; [split; [done | by exists now] |]. split; [done |]. intros _. apply H4. by left.
Qed.

Lemma alter_advances f id (t : gmap uuid RunRow) : (forall r, t !! id = Some r -> advances r (f r)) -> table_advances t (alter f id t).
Proof.
  intros Hf i r Hr. destruct (decide (i = id)) as [->|Hne]; [rewrite lookup_alter_eq, Hr; eexists; split; [reflexivity | by apply Hf] |].
  rewrite lookup_alter_ne by done. by exists r.
Qed.

Lemma insert_advances id r r' (t : gmap uuid RunRow) : t !! id = Some r -> advances r r' -> table_advances t (<[id := r']> t).
Proof.
  intros Ht Ha i x Hx. destruct (decide (i = id)) as [->|Hne]; [rewrite lookup_insert_eq; exists r'; split; [done | congruence] |].
  rewrite lookup_insert_ne by done. by exists x.
Qed.

Lemma CreateRun_Some t id user kind trigger parent t' : CreateRun t id user kind trigger parent = Some t' ->
  let r := MkRunRow user kind trigger parent RunStatePending None None None in
  t !! id = None /\ run_checks r = true /\ parent_user_ok t r = true /\ t' = <[id := r]> t.
Proof. unfold CreateRun. case_bool_decide; [| done]. simpl. destruct (run_checks _); [| done]. destruct (parent_user_ok _ _); [| done]. by intros [= <-]. Qed.

Lemma CreateRun_advances t id user kind trigger parent t' : CreateRun t id user kind trigger parent = Some t' -> table_advances t t'.
Proof.
  intros (Hn & _ & _ & ->)%CreateRun_Some i r Hr. rewrite lookup_insert_ne by (intros <-; congruence). by exists r.
Qed.

Lemma StartRun_Some t id now t' : StartRun t id now = Some t' -> exists r, t !! id = Some r /\ rr_State r = RunStatePending /\
  t' = <[id := MkRunRow (rr_UserID r) (rr_Kind r) (rr_Trigger r) (rr_ParentID r) RunStateRunning (rr_Error r) (Some now) (rr_FinishedAt r)]> t.
Proof. unfold StartRun. destruct (t !! id) as [r|]; simpl; [| done]. case_bool_decide; [| done]. intros [= <-]. by exists r. Qed.

Lemma StartRun_advances t id now t' : StartRun t id now = Some t' -> table_advances t t'.
Proof.
  intros (r & Hr & Hp & ->)%StartRun_Some. apply (insert_advances id r); [done |]. split; [done | done | by unfold ended; rewrite Hp |].
  unfold row_ok, ended. rewrite Hp. simpl. intros (H1 & H2 & _ & _). split; [by rewrite H1 |]. split; [done |]. split; [done |]. intros _. by exists now.
Qed.

Lemma record_end_advances t id err cancelled lost now : table_advances t (record_end t id err cancelled lost now).
Proof.
  unfold record_end. destruct lost; [reflexivity |]. destruct err as [e|]; [destruct cancelled; [reflexivity |] |]; apply alter_advances; intros r _; apply stop_advances; eauto.
Qed.

Lemma CompleteRun_advances t id now : table_advances t (CompleteRun t id now).
Proof. apply alter_advances. intros r _. apply stop_advances. by left. Qed.

Lemma InterruptRuns_advances t now : table_advances t (InterruptRuns t now).
Proof.
  intros id r Hr. unfold InterruptRuns. rewrite lookup_fmap, Hr. simpl. eexists. split; [reflexivity |]. unfold interrupt.
  destruct (rr_State r) eqn:Es; try reflexivity; (split; simpl; [done | done | by unfold ended; rewrite Es |]); unfold row_ok, ended; rewrite Es; simpl; intros (H1 & H2 & H3 & H4).
  - split; [by rewrite H1 |]. split; [split; [done | by exists now] |]. split; [done |]. rewrite !elem_of_cons, elem_of_nil. by intros [?|[?|[?|?]]].
  - split; [by rewrite H1 |]. split; [split; [done | by exists now] |]. split; [done |]. rewrite !elem_of_cons, elem_of_nil. by intros [?|[?|[?|?]]].
Qed.

(** What a step does to the rows. *)
Lemma inline_run_Some user kind trigger parent w w' : inline_run user kind trigger parent w = Some w' ->
  exists runs, wd_closed w = false /\ CreateRun (wd_runs w) (wd_next w) user kind trigger parent = Some runs /\
    w' = MkWorld runs false (wd_lanes w) (wd_threads w) (<[wd_next w := InlineStarting]> (wd_inline w)) (wd_next w + 1)%N.
Proof.
  unfold inline_run. destruct (wd_closed w) eqn:Ec; [done |]. destruct (CreateRun _ _ _ _ _ _) as [runs|] eqn:Er; simpl; [| done]. intros [= <-]. by exists runs.
Qed.

Lemma Child_Some parent kind w w' : Child parent kind w = Some w' -> exists p, wd_runs w !! parent = Some p /\ ChildAs parent (rr_UserID p) kind w = Some w'.
Proof. unfold Child. destruct (wd_runs w !! parent) as [p|]; simpl; [| done]. intros H. by exists p. Qed.

(** The statements that change the table. *)
Inductive table_moves (t : run_table) : run_table -> Prop :=
| moves_not : table_moves t t
| moves_create id user kind trigger parent t' : CreateRun t id user kind trigger parent = Some t' -> table_moves t t'
| moves_start id now t' : StartRun t id now = Some t' -> table_moves t t'
| moves_end id err cancelled lost now : table_moves t (record_end t id err cancelled lost now)
| moves_sweep now : table_moves t (InterruptRuns t now).

Lemma moves_complete t id now : table_moves t (CompleteRun t id now).
Proof. apply (moves_end t id None false false now). Qed.

#[local] Hint Constructors table_moves : core.
#[local] Hint Resolve moves_complete : core.

Lemma inline_run_moves user kind trigger parent w w' : inline_run user kind trigger parent w = Some w' -> table_moves (wd_runs w) (wd_runs w').
Proof. intros (runs & _ & Hr & ->)%inline_run_Some. eauto. Qed.

(** A step is one statement at most. *)
Lemma step_moves w w' : step w w' -> table_moves (wd_runs w) (wd_runs w').
Proof.
  destruct 1 as [spec w' H|id lost w' H|id err w' H|id w' H|id w' H|id w' H|id lost now w' H|id now w' H|id err w' H|id lost now w' H|id w' H|id w' H| |
    parent kind w' H|parent user kind w' H|user kind trigger w' H|id lost now w' H|id now w' H|id err w' H|id cancelled lost now w' H|now].
  - unfold Start in H. destruct (wd_closed w); [done |]. injection H as <-. apply moves_not.
  - unfold start_insert in H. thread_case. destruct (th_call t); try done. injection H as <-. destruct lost; [apply moves_not |].
    destruct (CreateRun _ _ _ _ _ _) as [runs|] eqn:Er; [eapply moves_create, Er | apply moves_not].
  - unfold start_prepared in H. thread_case. destruct (th_call t); try done. injection H as <-. apply moves_not.
  - unfold bg_prev in H. thread_case. destruct (th_state t); try done. destruct (thread_done _ _); [| done]. injection H as <-. apply moves_not.
  - unfold bg_cancelled in H. thread_case. destruct (wd_closed w); [| done]. destruct (th_state t); try done; injection H as <-; apply moves_not.
  - unfold bg_ready in H. thread_case. destruct (th_state t); try done. destruct (th_call t); try done; injection H as <-; apply moves_not.
  - unfold bg_start in H. thread_case. destruct (th_state t); try done. injection H as <-. destruct lost; [apply moves_not |].
    destruct (StartRun _ _ _) as [runs|] eqn:Er; [eapply moves_start, Er | apply moves_not].
  - unfold bg_completes in H. thread_case. destruct (th_state t) as [| | |[]| | | |]; try done. injection H as <-. apply moves_complete.
  - unfold bg_worked in H. thread_case. destruct (th_state t); try done. injection H as <-. apply moves_not.
  - unfold bg_record in H. thread_case. destruct (th_state t); try done. injection H as <-. apply moves_end.
  - unfold bg_close in H. thread_case. destruct (th_state t); try done. injection H as <-. apply moves_not.
  - unfold bg_leave in H. thread_case. destruct (th_state t); try done. injection H as <-. apply moves_not.
  - apply moves_not.
  - apply Child_Some in H as (p & _ & H). by eapply inline_run_moves.
  - by eapply inline_run_moves.
  - by eapply inline_run_moves.
  - unfold inline_start in H. destruct (wd_inline w !! id) as [[]|]; try done. simpl in H. injection H as <-. destruct lost; [apply moves_not |].
    destruct (StartRun _ _ _) as [runs|] eqn:Er; [eapply moves_start, Er | apply moves_not].
  - unfold inline_completes in H. destruct (wd_inline w !! id) as [[]|]; try done. simpl in H. injection H as <-. apply moves_complete.
  - unfold inline_worked in H. destruct (wd_inline w !! id) as [[]|]; try done. simpl in H. injection H as <-. apply moves_not.
  - unfold inline_record in H. destruct (wd_inline w !! id) as [[]|]; try done. simpl in H. injection H as <-. apply moves_end.
  - apply moves_sweep.
Qed.

Lemma moves_advances t t' : table_moves t t' -> table_advances t t'.
Proof.
  destruct 1; [reflexivity | by eapply CreateRun_advances | by eapply StartRun_advances | apply record_end_advances | apply InterruptRuns_advances].
Qed.

(** What the table promises of each of its rows. *)
Definition rows_good (t : run_table) : Prop := forall id r, t !! id = Some r -> row_ok r /\ run_checks r = true /\ parent_user_ok t r = true.

Lemma parent_user_advances t t' r r' : table_advances t t' -> advances r r' -> parent_user_ok t r = true -> parent_user_ok t' r' = true.
Proof.
  intros Ht [(Hu & _ & _ & Hp) _ _ _]. unfold parent_user_ok. rewrite Hu, Hp. destruct (rr_ParentID r) as [p|]; [| done].
  destruct (t !! p) as [pr|] eqn:Epr; [| done]. destruct (Ht p pr Epr) as (pr' & -> & [(-> & _) _ _ _]). done.
Qed.

Lemma checks_advance r r' : advances r r' -> run_checks r' = run_checks r.
Proof. intros [(_ & _ & Ht & Hp) _ _ _]. unfold run_checks. by rewrite Ht, Hp. Qed.

(** A row after a statement was there before it, or is the one inserted. *)
Lemma moves_back t t' id r' : table_moves t t' -> t' !! id = Some r' -> (exists r, t !! id = Some r) \/
  (exists user kind trigger parent, CreateRun t id user kind trigger parent = Some t' /\ r' = MkRunRow user kind trigger parent RunStatePending None None None).
Proof.
  destruct 1 as [|i user kind trigger parent t' Hc|i now t' Hs|i err c l now|now]; intros Hr; [by left; eexists | | | |].
  - destruct (CreateRun_Some _ _ _ _ _ _ _ Hc) as (_ & _ & _ & Ht). rewrite Ht in Hr. apply lookup_insert_Some in Hr as [[<- <-]|[_ Hr]]; [right; eauto 6 | left; by eexists].
  - apply StartRun_Some in Hs as (r & Hr0 & _ & ->). apply lookup_insert_Some in Hr as [[<- _]|[_ Hr]]; left; by eexists.
  - left. unfold record_end, CompleteRun, FailRun in Hr. destruct l; [by eexists |]. destruct err; [destruct c; [by eexists |] |]; apply lookup_alter_Some in Hr as [(<- & r & ? & _)|[_ Hr]]; by eexists.
  - left. unfold InterruptRuns in Hr. apply lookup_fmap_Some in Hr as (r & _ & Hr). by eexists.
Qed.

Lemma rows_good_moves t t' : rows_good t -> table_moves t t' -> rows_good t'.
Proof.
  intros Hg Hm id r' Hr'. pose proof (moves_advances t t' Hm) as Ha. destruct (moves_back t t' id r' Hm Hr') as [[r Hr]|(user & kind & trigger & parent & Hc & ->)].
  - destruct (Ha id r Hr) as (r1 & Hr1 & Had). assert (r1 = r') as -> by congruence. destruct (Hg id r Hr) as (H1 & H2 & H3).
    split; [by apply (av_ok _ _ Had) |]. split; [by rewrite (checks_advance r) | by apply (parent_user_advances t t' r)].
  - destruct (CreateRun_Some _ _ _ _ _ _ _ Hc) as (_ & Hk & Hp & _). split; [| split; [done | by eapply parent_user_advances, Hp]].
    split; simpl; [by split; [intros [? ?] |] |]. split; [by split; [intros [? ?] |] |]. split; [done |]. by intros [?|[?|[?|?%elem_of_nil]%elem_of_cons]%elem_of_cons]%elem_of_cons.
Qed.

Lemma first_good : rows_good (wd_runs first_world).
Proof. intros id r Hr. simpl in Hr. by rewrite lookup_empty in Hr. Qed.

Lemma rows_steps w w' : rtc step w w' -> table_advances (wd_runs w) (wd_runs w') /\ (rows_good (wd_runs w) -> rows_good (wd_runs w')).
Proof.
  induction 1 as [w|w1 w2 w3 Hs _ [IHa IHg]]; [done |]. pose proof (step_moves _ _ Hs) as Hm.
  split; [transitivity (wd_runs w2); [by apply moves_advances | done] | intros Hg; by eapply IHg, rows_good_moves].
Qed.

(** * The rows of the process *)

Definition started_as (spec : Spec) (r : RunRow) : Prop :=
  rr_UserID r = sp_UserID spec /\ rr_Kind r = sp_Kind spec /\ rr_Trigger r = sp_Trigger spec /\ rr_ParentID r = None.

Definition under_way (r : RunRow) : Prop := rr_State r = RunStateRunning \/ rr_State r = RunStateCompleted.

(** The row of a background run, by where its call and its goroutine are. *)
Definition thread_row (t : thread) (o : option RunRow) : Prop :=
  match th_call t with
  | Inserting | NoRow => o = None /\ ~ executing t
  | Preparing => exists r, o = Some r /\ started_as (th_spec t) r /\ rr_State r = RunStatePending /\ ~ executing t
  | Handed _ => exists r, o = Some r /\ started_as (th_spec t) r /\
      match th_state t with
      | WaitingPrev _ | WaitingReady | Starting _ => rr_State r = RunStatePending
      | Working _ | RecordingEnd _ => under_way r
      | Returning | Closing | Gone => rr_State r <> RunStateInterrupted
      end
  end.

Definition inline_row (s : inline_state) (o : option RunRow) : Prop :=
  exists r, o = Some r /\
    match s with
    | InlineStarting => rr_State r = RunStatePending
    | InlineWorking | InlineRecording _ => under_way r
    | InlineReturned => rr_State r <> RunStateInterrupted
    end.

Record linked (w : world) : Prop := {
  lk_next id : is_Some (wd_runs w !! id) \/ is_Some (wd_threads w !! id) \/ is_Some (wd_inline w !! id) -> (id < wd_next w)%N;
  lk_thread id t : wd_threads w !! id = Some t -> wd_inline w !! id = None /\ thread_row t (wd_runs w !! id) /\ th_key t = lane_of (th_spec t);
  lk_inline id s : wd_inline w !! id = Some s -> inline_row s (wd_runs w !! id);
  (** A row of no goroutine of this process has ended. *)
  lk_ended id r : wd_runs w !! id = Some r -> wd_threads w !! id = None -> wd_inline w !! id = None -> ended r = true;
  (** A row that has started is of a run with its lane clear. *)
  lk_clear b t r : wd_threads w !! b = Some t -> wd_runs w !! b = Some r -> is_Some (rr_StartedAt r) -> clear w b (th_key t);
}.

Lemma linked_same w w' : wd_runs w' = wd_runs w -> wd_threads w' = wd_threads w -> wd_inline w' = wd_inline w -> wd_next w' = wd_next w -> linked w -> linked w'.
Proof.
  intros Hr Ht Hi Hn [H1 H2 H3 H4 H5]. split; rewrite ?Hr, ?Ht, ?Hi, ?Hn; try done. intros b t r Hb Hrb Hs. unfold clear. rewrite Ht. by apply (H5 b t r).
Qed.

Lemma clear_thread w id t t' b key : wd_threads w !! id = Some t -> th_key t' = th_key t -> (stopped t = true -> stopped t' = true) ->
  clear w b key -> clear (set_thread id t' w) b key.
Proof.
  intros Ht Hk Hs Hc a ta Ha Hka Hab. simpl in Ha. apply lookup_insert_Some in Ha as [[<- <-]|[_ Ha]]; [apply Hs, (Hc id t); congruence | by apply (Hc a ta)].
Qed.

Lemma linked_thread w id t t' runs : linked w -> wd_threads w !! id = Some t -> th_key t' = th_key t -> th_spec t' = th_spec t ->
  (stopped t = true -> stopped t' = true) -> (forall j, j <> id -> runs !! j = wd_runs w !! j) -> thread_row t' (runs !! id) ->
  (forall r, runs !! id = Some r -> is_Some (rr_StartedAt r) -> (exists r0, wd_runs w !! id = Some r0 /\ is_Some (rr_StartedAt r0)) \/ clear w id (th_key t)) ->
  linked (set_runs runs (set_thread id t' w)).
Proof.
  intros [H1 H2 H3 H4 H5] Ht Hk Hsp Hst Hruns Hrow Hcl.
  assert (forall b, is_Some (<[id := t']> (wd_threads w) !! b) -> is_Some (wd_threads w !! b)) as Hback.
  { intros b [tb [[<- <-]|[_ Hb]]%lookup_insert_Some]; by eexists. }
  split; simpl.
  - intros b Hb. apply H1. destruct (decide (b = id)) as [->|Hne]; [right; left; by eexists |]. rewrite Hruns in Hb by done. rewrite lookup_insert_ne in Hb by done. done.
  - intros b tb [[<- <-]|[Hne Hb]]%lookup_insert_Some; [destruct (H2 id t Ht) as (? & _ & ?); split; [done |]; split; [done | congruence] |].
    rewrite Hruns by done. by apply H2.
  - intros b s Hb. rewrite Hruns; [by apply H3 |]. intros ->. destruct (H2 id t Ht) as (? & _). congruence.
  - intros b r Hb [Hb1 Hne]%lookup_insert_None Hi. rewrite Hruns in Hb by done. by apply (H4 b r).
  - intros b tb r Hb Hr Hs. change (clear (set_thread id t' w) b (th_key tb)). apply (clear_thread w id t); [done | done | done |].
    apply lookup_insert_Some in Hb as [[<- <-]|[Hne Hb]].
    + rewrite Hk. destruct (Hcl r Hr Hs) as [(r0 & Hr0 & Hs0)|Hc]; [by apply (H5 id t r0) | done].
    + rewrite Hruns in Hr by done. by apply (H5 b tb r).
Qed.

Lemma linked_inline w id s s' runs : linked w -> wd_inline w !! id = Some s -> (forall j, j <> id -> runs !! j = wd_runs w !! j) -> inline_row s' (runs !! id) ->
  linked (set_runs runs (set_inline id s' w)).
Proof.
  intros [H1 H2 H3 H4 H5] Hs Hruns Hrow.
  assert (forall b t, wd_threads w !! b = Some t -> b <> id) as Hne by (intros b t Hb ->; destruct (H2 id t Hb); congruence).
  split; simpl.
  - intros b Hb. apply H1. destruct (decide (b = id)) as [->|Hbi]; [right; right; by eexists |]. rewrite Hruns in Hb by done. rewrite lookup_insert_ne in Hb by done. done.
  - intros b t Hb. pose proof (Hne b t Hb). rewrite Hruns, lookup_insert_ne by done. by apply H2.
  - intros b sb [[<- <-]|[Hbi Hb]]%lookup_insert_Some; [done |]. rewrite Hruns by done. by apply H3.
  - intros b r Hb Ht [Hb1 Hbi]%lookup_insert_None. rewrite Hruns in Hb by done. by apply (H4 b r).
  - intros b t r Hb Hr Hst. pose proof (Hne b t Hb). rewrite Hruns in Hr by done. by apply (H5 b t r).
Qed.

Lemma linked_start spec w w' : lanes_ok w -> linked w -> Start spec w = Some w' -> linked w'.
Proof.
  intros Hok [H1 H2 H3 H4 H5]. unfold Start. destruct (wd_closed w); [done |]. intros [= <-]. set (n := wd_next w).
  assert (wd_runs w !! n = None /\ wd_inline w !! n = None) as [Hrn Hin].
  { split; apply eq_None_not_Some; intros Hs; [specialize (H1 n (or_introl Hs)) | specialize (H1 n (or_intror (or_intror Hs)))]; lia. }
  assert (forall b, is_Some (wd_runs w !! b) -> b <> n) as Hne by (intros b Hb ->; destruct Hb; congruence).
  split; simpl.
  - intros b Hb. fold n. destruct (decide (b = n)) as [->|Hbn]; [lia |]. rewrite lookup_insert_ne in Hb by done. specialize (H1 b Hb). lia.
  - intros b t [[<- <-]|[Hbn Hb]]%lookup_insert_Some; [| by apply H2]. split; [done |]. split; [| done]. split; [done |]. unfold executing. simpl. destruct (wd_lanes w !! _); by intros [].
  - done.
  - intros b r Hb [Hb1 _]%lookup_insert_None. by apply (H4 b r).
  - intros b t r [[<- _]|[Hbn Hb]]%lookup_insert_Some Hr Hs; [simpl in Hr; congruence |].
    intros a ta Ha Hka Hab. simpl in Ha. apply lookup_insert_Some in Ha as [[<- <-]|[_ Ha]]; [pose proof (H1 b (or_introl (mk_is_Some _ _ Hr))); lia | by apply (H5 b t r Hb Hr Hs a ta)].
Qed.

Lemma linked_inline_run user kind trigger parent w w' : linked w -> inline_run user kind trigger parent w = Some w' -> linked w'.
Proof.
  intros [H1 H2 H3 H4 H5] (runs & _ & (Hn & _ & _ & ->)%CreateRun_Some & ->)%inline_run_Some. set (n := wd_next w) in *.
  assert (wd_threads w !! n = None) as Htn by (apply eq_None_not_Some; intros Hs; specialize (H1 n (or_intror (or_introl Hs))); lia).
  split; simpl.
  - intros b Hb. destruct (decide (b = n)) as [->|Hbn]; [lia |]. rewrite !lookup_insert_ne in Hb by done. specialize (H1 b Hb). lia.
  - intros b t Hb. assert (b <> n) by congruence. rewrite !lookup_insert_ne by done. by apply H2.
  - intros b s [[<- <-]|[Hbn Hb]]%lookup_insert_Some; [rewrite lookup_insert_eq; by eexists |]. rewrite lookup_insert_ne by done. by apply H3.
  - intros b r Hb Ht [Hb1 Hbn]%lookup_insert_None. rewrite lookup_insert_ne in Hb by done. by apply (H4 b r).
  - intros b t r Hb Hr. assert (b <> n) by congruence. rewrite lookup_insert_ne in Hr by done. by apply (H5 b t r).
Qed.

Lemma linked_boot now w : linked w -> linked (boot now w).
Proof.
  intros [H1 _ _ _ _]. split; simpl; [| by intros ? ? ?%lookup_empty_Some.. | | by intros ? ? ? ?%lookup_empty_Some].
  - intros b [[r [r0 [_ Hr]]%lookup_fmap_Some]|[[? ?%lookup_empty_Some]|[? ?%lookup_empty_Some]]]; [| done..]. apply H1. left. by eexists.
  - intros b r (r0 & <- & _)%lookup_fmap_Some _ _. unfold interrupt, ended. destruct (rr_State r0) eqn:Es; simpl; by rewrite ?Es.
Qed.

(** What an update of one row leaves of the others. *)
Lemma CompleteRun_ne t id now j : j <> id -> CompleteRun t id now !! j = t !! j.
Proof. intros Hj. apply lookup_alter_ne. congruence. Qed.

Lemma record_end_ne t id err cancelled lost now j : j <> id -> record_end t id err cancelled lost now !! j = t !! j.
Proof. intros Hj. unfold record_end, CompleteRun, FailRun. destruct lost; [done |]. destruct err; [destruct cancelled; [done |] |]; apply lookup_alter_ne; congruence. Qed.

Lemma under_way_complete r now : under_way r -> under_way (stop_row RunStateCompleted (rr_Error r) now r).
Proof. unfold stop_row, under_way. case_bool_decide; [by right | done]. Qed.

Lemma stop_row_created state err now r spec : started_as spec r -> started_as spec (stop_row state err now r).
Proof. unfold stop_row. by case_bool_decide. Qed.

Lemma stop_row_started state err now r : rr_StartedAt (stop_row state err now r) = rr_StartedAt r.
Proof. unfold stop_row. by case_bool_decide. Qed.

Lemma stop_row_uninterrupted state err now r : under_way r -> state <> RunStateInterrupted -> rr_State (stop_row state err now r) <> RunStateInterrupted.
Proof. unfold stop_row, under_way. case_bool_decide; simpl; [done |]. intros [?| ->]; done. Qed.

Lemma under_way_uninterrupted r : under_way r -> rr_State r <> RunStateInterrupted.
Proof. by intros [->| ->]. Qed.

(** The row that a run records at its end. *)
Lemma record_end_row t id err cancelled lost now r : t !! id = Some r -> under_way r -> exists r', record_end t id err cancelled lost now !! id = Some r' /\
  rr_State r' <> RunStateInterrupted /\ rr_StartedAt r' = rr_StartedAt r /\ forall spec, started_as spec r -> started_as spec r'.
Proof.
  intros Hr Hu. unfold record_end, CompleteRun, FailRun. pose proof (under_way_uninterrupted r Hu).
  destruct lost; [by exists r |]. destruct err; [destruct cancelled; [by exists r |] |]; rewrite lookup_alter_eq, Hr; eexists; (split; [reflexivity |]);
    (split; [by apply stop_row_uninterrupted | split; [apply stop_row_started | intros spec; apply stop_row_created]]).
Qed.

(** The row of a goroutine that executes. *)
Lemma thread_row_executing t o : thread_row t o -> executing t -> exists r err, th_call t = Handed err /\ o = Some r /\ started_as (th_spec t) r /\
  match th_state t with Starting _ => rr_State r = RunStatePending | _ => under_way r end.
Proof.
  unfold thread_row. intros H He. destruct (th_call t) as [| |err|]; [by destruct H | by destruct H as (? & _ & _ & _ & []) | | by destruct H].
  destruct H as (r & Ho & Hs & Hst). exists r, err. split; [done |]. split; [done |]. split; [done |]. unfold executing in He. by destruct (th_state t).
Qed.

(** A thread that moves on without a statement keeps its row. *)
Lemma thread_row_at t s o : thread_row t o -> (executing (th_at t s) -> exists err, th_call t = Handed err) ->
  (forall r, o = Some r -> match th_state t with WaitingPrev _ | WaitingReady | Starting _ => rr_State r = RunStatePending | Working _ | RecordingEnd _ => under_way r | _ => rr_State r <> RunStateInterrupted end ->
    match s with WaitingPrev _ | WaitingReady | Starting _ => rr_State r = RunStatePending | Working _ | RecordingEnd _ => under_way r | _ => rr_State r <> RunStateInterrupted end) ->
  thread_row (th_at t s) o.
Proof.
  unfold thread_row. intros H He Hs. simpl. destruct (th_call t) as [| |err|]; simpl.
  - destruct H as [-> _]. split; [done |]. intros Hx. by destruct (He Hx).
  - destruct H as (r & -> & Hsp & Hp & _). exists r. split; [done |]. split; [done |]. split; [done |]. intros Hx. by destruct (He Hx).
  - destruct H as (r & -> & Hsp & Hst). exists r. split; [done |]. split; [done |]. by apply Hs.
  - destruct H as [-> _]. split; [done |]. intros Hx. by destruct (He Hx).
Qed.

Lemma linked_moved w id t s : linked w -> wd_threads w !! id = Some t -> stopped t = false \/ stopped (th_at t s) = true -> thread_row (th_at t s) (wd_runs w !! id) ->
  linked (set_thread id (th_at t s) w).
Proof.
  intros Hl Ht Hs Hrow. rewrite <- (set_runs_same (set_thread _ _ _)). apply (linked_thread w id t); [done | done | done | done | | done | done | intros r Hr Hst; left; by exists r].
  intros Hst. destruct Hs as [Hs|Hs]; [congruence | done].
Qed.

Lemma linked_insert id lost w w' : linked w -> start_insert id lost w = Some w' -> linked w'.
Proof.
  intros Hl H. unfold start_insert in H. thread_case. destruct (th_call t) eqn:Ec; try done. injection H as <-.
  pose proof (lk_thread _ Hl id t Ht) as (_ & Hrow & _). unfold thread_row in Hrow. rewrite Ec in Hrow. destruct Hrow as [Hno Hne].
  assert (linked (set_thread id (th_called t NoRow) w)) as Hnot.
  { rewrite <- (set_runs_same (set_thread _ _ _)). apply (linked_thread w id t); [done.. | | intros r Hr; simpl in Hr; congruence]. by split. }
  destruct lost; [done |]. destruct (CreateRun _ _ _ _ _ _) as [runs|] eqn:Er; [| done]. apply CreateRun_Some in Er as (_ & _ & _ & ->).
  apply (linked_thread w id t); try done.
  - intros j Hj. by apply lookup_insert_ne.
  - rewrite lookup_insert_eq. unfold thread_row, executing in *. simpl. destruct (sp_Prepare (th_spec t)); eexists; (split; [reflexivity |]); (split; [done |]); simpl; [done |].
    by destruct (th_state t); try (by destruct Hne).
  - intros r. rewrite lookup_insert_eq. intros [= <-] [? ?]. done.
Qed.

Lemma linked_prepared id err w w' : linked w -> start_prepared id err w = Some w' -> linked w'.
Proof.
  intros Hl H. unfold start_prepared in H. thread_case. destruct (th_call t) eqn:Ec; try done. injection H as <-.
  pose proof (lk_thread _ Hl id t Ht) as (_ & Hrow & _). unfold thread_row in Hrow. rewrite Ec in Hrow. destruct Hrow as (r & Hr & Hs & Hp & Hne).
  rewrite <- (set_runs_same (set_thread _ _ _)). apply (linked_thread w id t); try done; [| intros r0 Hr0 Hst; left; by exists r0].
  exists r. split; [done |]. split; [done |]. simpl. unfold executing in Hne. destruct (th_state t); try done; try (by destruct Hne); by rewrite Hp.
Qed.

(** A goroutine that moves on without a statement. *)
Ltac goes Es := match goal with Hl : linked ?w, Ht : wd_threads ?w !! ?id = Some ?t |- _ =>
    apply (linked_moved w id t); [done | done | first [by left; unfold stopped; rewrite Es | by right] |];
    apply thread_row_at; [by destruct (lk_thread _ Hl id t Ht) as (_ & ? & _) | by try (intros []) |]; rewrite Es; try done
  end.

Lemma linked_bg_start id lost now w w' : lanes_ok w -> linked w -> bg_start id lost now w = Some w' -> linked w'.
Proof.
  intros Hok Hl H. unfold bg_start in H. thread_case. destruct (th_state t) as [| |failed| | | | |] eqn:Es; try done. injection H as <-.
  assert (linked (set_thread id (th_at t Returning) w)) as Hnot by (goes Es; intros r _ ->; done).
  destruct lost; [done |]. destruct (StartRun _ _ _) as [runs|] eqn:Er; [| done]. apply StartRun_Some in Er as (r & Hr & Hp & ->).
  pose proof (lk_thread _ Hl id t Ht) as (_ & Hrow & _). destruct (thread_row_executing t _ Hrow) as (r' & err & Hc & Hr' & Hsp & _); [unfold executing; by rewrite Es |].
  assert (r' = r) as -> by congruence. apply (linked_thread w id t); try done.
  - unfold stopped. by rewrite Es.
  - intros j Hj. by apply lookup_insert_ne.
  - rewrite lookup_insert_eq. unfold thread_row. simpl. rewrite Hc. eexists. split; [reflexivity |]. split; [done | by left].
  - intros r0 _ _. right. apply (lo_clear _ Hok id t Ht). left. unfold executing. by rewrite Es.
Qed.

Lemma linked_completes id now w w' : linked w -> bg_completes id now w = Some w' -> linked w'.
Proof.
  intros Hl H. unfold bg_completes in H. thread_case. destruct (th_state t) as [| | |[]| | | |] eqn:Es; try done. injection H as <-.
  pose proof (lk_thread _ Hl id t Ht) as (_ & Hrow & _). destruct (thread_row_executing t _ Hrow) as (r & err & Hc & Hr & Hsp & Hu); [unfold executing; by rewrite Es |].
  rewrite Es in Hu. assert (set_thread id t w = w) as Hw by (unfold set_thread; rewrite insert_id by done; by destruct w).
  rewrite <- Hw at 2. assert (CompleteRun (wd_runs w) id now !! id = Some (stop_row RunStateCompleted (rr_Error r) now r)) as Hr'.
  { unfold CompleteRun. by rewrite lookup_alter_eq, Hr. }
  apply (linked_thread w id t); try done.
  - intros j Hj. by apply CompleteRun_ne.
  - rewrite Hr'. unfold thread_row. rewrite Hc, Es. eexists. split; [reflexivity |]. split; [by apply stop_row_created | by apply under_way_complete].
  - rewrite Hr'. intros ? [= <-]. rewrite stop_row_started. intros Hst. left. by exists r.
Qed.

Lemma linked_record id lost now w w' : linked w -> bg_record id lost now w = Some w' -> linked w'.
Proof.
  intros Hl H. unfold bg_record in H. thread_case. destruct (th_state t) as [| | | |err| | |] eqn:Es; try done. injection H as <-.
  pose proof (lk_thread _ Hl id t Ht) as (_ & Hrow & _). destruct (thread_row_executing t _ Hrow) as (r & herr & Hc & Hr & Hsp & Hu); [unfold executing; by rewrite Es |].
  rewrite Es in Hu. destruct (record_end_row _ id err (wd_closed w) lost now r Hr Hu) as (r' & Hr' & Hn & Hst & Hcr). apply (linked_thread w id t); try done.
  - unfold stopped. by rewrite Es.
  - intros j Hj. by apply record_end_ne.
  - rewrite Hr'. unfold thread_row. simpl. rewrite Hc. eexists. split; [reflexivity |]. split; [by apply Hcr | done].
  - rewrite Hr'. intros ? [= <-]. rewrite Hst. intros Hs. left. by exists r.
Qed.

Lemma linked_inline_step w w' : linked w ->
  (exists id lost now, inline_start id lost now w = Some w') \/ (exists id now, inline_completes id now w = Some w') \/
  (exists id err, inline_worked id err w = Some w') \/ (exists id c lost now, inline_record id c lost now w = Some w') -> linked w'.
Proof.
  intros Hl [(id & lost & now & H)|[(id & now & H)|[(id & err & H)|(id & c & lost & now & H)]]].
  - unfold inline_start in H. destruct (wd_inline w !! id) as [s|] eqn:Hi; [| done]. simpl in H. destruct s; try done. injection H as <-.
    destruct (lk_inline _ Hl id _ Hi) as (r & Hr & Hp).
    assert (linked (set_inline id InlineReturned w)) as Hnot.
    { change (set_inline id InlineReturned w) with (set_runs (wd_runs w) (set_inline id InlineReturned w)). apply (linked_inline w id InlineStarting); try done.
      exists r. split; [done |]. by rewrite Hp. }
    destruct lost; [done |]. destruct (StartRun _ _ _) as [runs|] eqn:Er; [| done]. apply StartRun_Some in Er as (r0 & _ & _ & ->).
    apply (linked_inline w id InlineStarting); try done; [intros j Hj; by apply lookup_insert_ne |]. rewrite lookup_insert_eq. eexists. split; [reflexivity | by left].
  - unfold inline_completes in H. destruct (wd_inline w !! id) as [s|] eqn:Hi; [| done]. simpl in H. destruct s; try done. injection H as <-.
    destruct (lk_inline _ Hl id _ Hi) as (r & Hr & Hu). assert (set_inline id InlineWorking w = w) as Hw by (unfold set_inline; rewrite insert_id by done; by destruct w).
    rewrite <- Hw at 2. apply (linked_inline w id InlineWorking); try done; [intros j Hj; by apply CompleteRun_ne |].
    unfold CompleteRun. rewrite lookup_alter_eq, Hr. eexists. split; [reflexivity | by apply under_way_complete].
  - unfold inline_worked in H. destruct (wd_inline w !! id) as [s|] eqn:Hi; [| done]. simpl in H. destruct s; try done. injection H as <-.
    change (set_inline id (InlineRecording err) w) with (set_runs (wd_runs w) (set_inline id (InlineRecording err) w)). apply (linked_inline w id InlineWorking); try done. by apply (lk_inline _ Hl id _ Hi).
  - unfold inline_record in H. destruct (wd_inline w !! id) as [s|] eqn:Hi; [| done]. simpl in H. destruct s; try done. injection H as <-.
    destruct (lk_inline _ Hl id _ Hi) as (r & Hr & Hu). destruct (record_end_row _ id err c lost now r Hr Hu) as (r' & Hr' & Hn & _).
    eapply linked_inline; [done | exact Hi | intros j Hj; by apply record_end_ne |]. by exists r'.
Qed.

Lemma linked_step w w' : lanes_ok w -> linked w -> step w w' -> linked w'.
Proof.
  intros Hok Hl. destruct 1 as [spec w' H|id lost w' H|id err w' H|id w' H|id w' H|id w' H|id lost now w' H|id now w' H|id err w' H|id lost now w' H|id w' H|id w' H| |
    parent kind w' H|parent user kind w' H|user kind trigger w' H|id lost now w' H|id now w' H|id err w' H|id cancelled lost now w' H|now].
  - by eapply linked_start.
  - by eapply linked_insert.
  - by eapply linked_prepared.
  - unfold bg_prev in H. thread_case. destruct (th_state t) eqn:Es; try done. destruct (thread_done _ _); [| done]. injection H as <-. goes Es.
  - unfold bg_cancelled in H. thread_case. destruct (wd_closed w); [| done]. destruct (th_state t) eqn:Es; try done; injection H as <-; goes Es; intros r _ ->; done.
  - unfold bg_ready in H. thread_case. destruct (th_state t) eqn:Es; try done. destruct (th_call t) as [| |err|] eqn:Ec; try done; injection H as <-.
    + destruct (wd_closed w); [goes Es; intros r _ ->; done |]. apply (linked_moved w id t); [done | done | left; unfold stopped; by rewrite Es |].
      apply thread_row_at; [by destruct (lk_thread _ Hl id t Ht) as (_ & ? & _) | by eexists |]. by rewrite Es.
    + goes Es; intros r _ ->; done.
  - by eapply linked_bg_start.
  - by eapply linked_completes.
  - unfold bg_worked in H. thread_case. destruct (th_state t) eqn:Es; try done. injection H as <-. pose proof (lk_thread _ Hl id t Ht) as (_ & Hrow & _).
    destruct (thread_row_executing t _ Hrow) as (r & herr & Hc & _); [unfold executing; by rewrite Es |]. apply (linked_moved w id t); [done | done | left; unfold stopped; by rewrite Es |].
    apply thread_row_at; [done | by eexists |]. by rewrite Es.
  - by eapply linked_record.
  - unfold bg_close in H. thread_case. destruct (th_state t) eqn:Es; try done. injection H as <-. goes Es.
  - unfold bg_leave in H. thread_case. destruct (th_state t) eqn:Es; try done. injection H as <-. apply (linked_same (set_thread id (th_at t Gone) w)); try done. goes Es.
  - by apply (linked_same w).
  - apply Child_Some in H as (p & _ & H). by eapply linked_inline_run.
  - by eapply linked_inline_run.
  - by eapply linked_inline_run.
  - eapply linked_inline_step; [done | eauto 10].
  - eapply linked_inline_step; [done | eauto 10].
  - eapply linked_inline_step; [done | eauto 10].
  - eapply linked_inline_step; [done | eauto 10].
  - by apply linked_boot.
Qed.

Lemma linked_reachable w : reachable w -> linked w.
Proof.
  intros Hr. assert (linked first_world) as H0.
  { split; simpl; try (by intros ? ? ?%lookup_empty_Some); [| by intros ? ? ? ?%lookup_empty_Some].
    by intros id [[? ?%lookup_empty_Some]|[[? ?%lookup_empty_Some]|[? ?%lookup_empty_Some]]]. }
  assert (lanes_ok first_world) as H1 by (apply lanes_reachable; constructor).
  unfold reachable in Hr. induction Hr as [|w1 w2 w3 Hs _ IH]; [done |]. apply IH; [by eapply linked_step | by eapply lanes_step].
Qed.

(** ** Ends *)

(** A step of the background run [id]: of its call of [Start], of its goroutine,
    or of its work, whatever the database and the work answer. *)
Inductive goes (id : uuid) (w : world) : world -> Prop :=
| goes_insert lost w' : start_insert id lost w = Some w' -> goes id w w'
| goes_prepared err w' : start_prepared id err w = Some w' -> goes id w w'
| goes_prev w' : bg_prev id w = Some w' -> goes id w w'
| goes_cancelled w' : bg_cancelled id w = Some w' -> goes id w w'
| goes_ready w' : bg_ready id w = Some w' -> goes id w w'
| goes_start lost now w' : bg_start id lost now w = Some w' -> goes id w w'
| goes_worked err w' : bg_worked id err w = Some w' -> goes id w w'
| goes_record lost now w' : bg_record id lost now w = Some w' -> goes id w w'
| goes_close w' : bg_close id w = Some w' -> goes id w w'
| goes_leave w' : bg_leave id w = Some w' -> goes id w w'.




















(** ** How a run ends *)










(** Once the runner closes, no background run begins to execute, and no run is
    started. *)
Lemma closed_starts_nothing w : wd_closed w = true ->
  (forall spec, Start spec w = None) /\ (forall user kind trigger parent, inline_run user kind trigger parent w = None) /\
  forall id w' t t', bg_ready id w = Some w' -> wd_threads w !! id = Some t -> wd_threads w' !! id = Some t' -> th_state t' = Returning.
Proof.
  intros Hc. unfold Start, inline_run, bg_ready. rewrite Hc. split; [done |]. split; [done |]. intros id w' t t' H Ht Ht'. rewrite Ht in H. simpl in H.
  destruct (th_state t); try done. destruct (th_call t); try done; injection H as <-; simpl in Ht'; rewrite lookup_insert_eq in Ht'; by injection Ht' as <-.
Qed.

(** ** A process *)

Module Example.

(** A user's two runs in one lane: the first works, and the second waits for it
    with its row inserted. *)
Definition first_spec : Spec := MkSpec RunKindIngestStmt RunTriggerUser (Some 7%N) "stmts" true.
Definition second_spec : Spec := MkSpec RunKindResolveStmtKeys RunTriggerUser (Some 7%N) "stmts" false.

Definition play : option world :=
  w ← Start first_spec first_world; w ← Start second_spec w; w ← start_insert 2 false w; w ← start_insert 1 false w; w ← start_prepared 1 None w;
  w ← bg_ready 1 w; bg_start 1 false 5 w.

Definition now_working : world := default first_world play.

(** The first has ended, and the second works. *)
Definition play_on : option world :=
  w ← bg_worked 1 (Some "no price"%string) now_working; w ← bg_record 1 false 6 w; w ← bg_close 1 w; w ← bg_prev 2 w; w ← bg_ready 2 w; w ← bg_leave 1 w; bg_start 2 false 7 w.

Definition then_working : world := default first_world play_on.

Tactic Notation "plays" uconstr(c) := eapply rtc_l; [eapply c; vm_compute; reflexivity |].

Lemma now_working_reachable : reachable now_working.
Proof.
  unfold reachable. plays (step_start _ first_spec). plays (step_start _ second_spec). plays (step_insert _ 2%N false). plays (step_insert _ 1%N false). plays (step_prepared _ 1%N None).
  plays (step_ready _ 1%N). eapply rtc_l; [| apply rtc_refl]. eapply (step_bg_start _ 1%N false 5). vm_compute. reflexivity.
Qed.












End Example.

(** * Theorems *)

(** C19: runs of one user and lane execute in the order they were started. In
    every world the processes can reach, when the work of a background run may
    run or its row has started, every earlier run of its lane has stopped; so two
    runs of a lane never execute together. *)
Theorem lane_order w b t : reachable w -> wd_threads w !! b = Some t ->
  executing t \/ (exists r, wd_runs w !! b = Some r /\ is_Some (rr_StartedAt r)) ->
  (forall a ta, wd_threads w !! a = Some ta -> th_key ta = th_key t -> (a < b)%N -> stopped ta = true) /\
  (forall a ta, wd_threads w !! a = Some ta -> th_key ta = th_key t -> executing t -> executing ta -> a = b).
Proof.
  intros Hr Hb He. pose proof (lanes_reachable w Hr) as Hok.
  assert (clear w b (th_key t)) as Hcl.
  { destruct He as [He|(r & Hrow & Hs)]; [apply (lo_clear _ Hok b t Hb); by left | by apply (lk_clear _ (linked_reachable w Hr) b t r)]. }
  split; [exact Hcl |]. intros a ta Ha Hk Hx Hxa. destruct (N.lt_trichotomy a b) as [Hlt|[Heq|Hlt]]; [| done |].
  - specialize (Hcl a ta Ha Hk Hlt). unfold executing, stopped in *. by destruct (th_state ta).
  - assert (clear w a (th_key ta)) as Hca by (apply (lo_clear _ Hok a ta Ha); by left). specialize (Hca b t Hb (eq_sym Hk) Hlt).
    unfold executing, stopped in *. by destruct (th_state t).
Qed.


(** A run's row only moves on. Whatever the processes do, restarts
    included, a row keeps its user, kind, trigger and parent; a row that has ended
    is never written again; only failed rows have an error, and only ended rows a
    finishing time; a child's user is its parent's, unless one of the two is a
    system run. *)
Theorem rows_advance w w' id r : reachable w -> rtc step w w' -> wd_runs w !! id = Some r ->
  exists r', wd_runs w' !! id = Some r' /\ advances r r' /\ row_ok r' /\ run_checks r' = true /\ parent_user_ok (wd_runs w') r' = true.
Proof.
  intros Hr Hs Hid. destruct (rows_steps w w' Hs) as [Ha _]. destruct (Ha id r Hid) as (r' & Hid' & Had). exists r'. split; [done |]. split; [done |].
  assert (rtc step first_world w') as Hr' by by transitivity w. destruct (rows_steps first_world w' Hr') as [_ Hg]. apply (Hg first_good id r' Hid').
Qed.

(** The sweep at boot marks the runs of the processes that stopped, and only
    those. A row that has not ended is of a goroutine or a caller of the process;
    no run of the process is interrupted; and after the sweep every row has ended,
    those that had ended being as they were. *)
Theorem sweep_spec now w : reachable w ->
  (forall id r, wd_runs w !! id = Some r -> ended r = false -> is_Some (wd_threads w !! id) \/ is_Some (wd_inline w !! id)) /\
  (forall id r, is_Some (wd_threads w !! id) \/ is_Some (wd_inline w !! id) -> wd_runs w !! id = Some r -> rr_State r <> RunStateInterrupted) /\
  (forall id r, wd_runs w !! id = Some r -> exists r', wd_runs (boot now w) !! id = Some r' /\ ended r' = true /\
     (ended r = true -> r' = r) /\ (ended r = false -> rr_State r' = RunStateInterrupted /\ rr_FinishedAt r' = Some now)).
Proof.
  intros Hr. pose proof (linked_reachable w Hr) as Hl. split; [| split].
  - intros id r Hid He. destruct (wd_threads w !! id) as [t|] eqn:Et; [by left |]. destruct (wd_inline w !! id) as [s|] eqn:Ei; [by right |].
    pose proof (lk_ended _ Hl id r Hid Et Ei). congruence.
  - intros id r [[t Ht]|[s Hs]] Hid.
    + pose proof (lk_thread _ Hl id t Ht) as (_ & Hrow & _). rewrite Hid in Hrow. unfold thread_row in Hrow.
      destruct (th_call t); [by destruct Hrow | destruct Hrow as (? & [= <-] & _ & -> & _); done | | by destruct Hrow].
      destruct Hrow as (? & [= <-] & _ & Hst). destruct (th_state t); try done; try (by rewrite Hst); by apply under_way_uninterrupted.
    + destruct (lk_inline _ Hl id s Hs) as (r0 & Hr0 & Hst). assert (r0 = r) as -> by congruence. destruct s; [by rewrite Hst | by apply under_way_uninterrupted.. | done].
  - intros id r Hid. exists (interrupt now r). split; [simpl; unfold InterruptRuns; by rewrite lookup_fmap, Hid |]. unfold interrupt, ended.
    destruct (rr_State r) eqn:Es; simpl; rewrite ?Es; done.
Qed.

(** ** Witnesses *)

Lemma lane_order_witness : exists t, wd_threads Example.now_working !! 1%N = Some t /\
  forall a ta, wd_threads Example.now_working !! a = Some ta -> th_key ta = th_key t -> executing t -> executing ta -> a = 1%N.
Proof.
  eexists. split; [vm_compute; reflexivity |]. eapply (proj2 (lane_order Example.now_working 1%N _ Example.now_working_reachable ltac:(vm_compute; reflexivity) ltac:(left; exact I))).
Defined.


Lemma rows_advance_witness : exists r r', wd_runs Example.now_working !! 1%N = Some r /\ rr_State r = RunStateRunning /\
  wd_runs (boot 8 Example.now_working) !! 1%N = Some r' /\ advances r r' /\ rr_State r' = RunStateInterrupted.
Proof.
  destruct (rows_advance Example.now_working (boot 8 Example.now_working) 1%N (MkRunRow (Some 7%N) RunKindIngestStmt RunTriggerUser None RunStateRunning None (Some 5) None)
    Example.now_working_reachable ltac:(apply rtc_once, step_boot) ltac:(vm_compute; reflexivity)) as (r' & Hr' & Ha & _).
  eexists. exists r'. split; [vm_compute; reflexivity |]. split; [reflexivity |]. split; [exact Hr' |]. split; [exact Ha |].
  assert (wd_runs (boot 8 Example.now_working) !! 1%N = Some (MkRunRow (Some 7%N) RunKindIngestStmt RunTriggerUser None RunStateInterrupted None (Some 5) (Some 8))) as H
    by (vm_compute; reflexivity).
  rewrite H in Hr'. injection Hr' as <-. reflexivity.
Defined.

Lemma sweep_spec_witness : exists r', wd_runs (boot 8 Example.now_working) !! 2%N = Some r' /\ rr_State r' = RunStateInterrupted.
Proof.
  destruct (proj2 (proj2 (sweep_spec 8 Example.now_working Example.now_working_reachable)) 2%N
    (MkRunRow (Some 7%N) RunKindResolveStmtKeys RunTriggerUser None RunStatePending None None None) ltac:(vm_compute; reflexivity)) as (r' & Hr' & _ & _ & Hi).
  exists r'. split; [exact Hr' | by apply Hi].
Defined.

(** The second run works once the first has stopped; the first has failed. *)
Example then_working_runs : exists t, wd_threads Example.then_working !! 2%N = Some t /\ th_state t = Working None /\
  (rr_State <$> wd_runs Example.then_working !! 1%N) = Some RunStateFailed /\ (rr_State <$> wd_runs Example.then_working !! 2%N) = Some RunStateRunning.
Proof. eexists. vm_compute. auto. Qed.
