(* ===== verification/Decimal.v ===== *)
(** Exact decimals and the ratios of corporate actions.

    [github.com/shopspring/decimal] is not part of the repository, so a decimal
    is any type with the operations the code calls, and [DecimalLaws] is what
    its documentation promises of them: each operation is exact on the value a
    decimal stands for, and [NewFromBigRat] rounds to the precision asked for.
    [math/big.Rat] is a canonical rational, [Qc]. *)
From S2P Require Import Prelude.
From Stdlib Require Export Qcanon.
From Stdlib Require Lqa.
From Stdlib Require Import QArith Qround.

Open Scope Z_scope.

(** * The interface *)

Class Decimal (D : Type) : Type := {
  dec_Rat : D -> Qc;
  dec_Mul : D -> D -> D;
  dec_Add : D -> D -> D;
  dec_Zero : D;
  dec_NewFromInt : Z -> D;
  dec_Equal : D -> D -> bool;
  dec_LessThan : D -> D -> bool;
  dec_IsZero : D -> bool;
  dec_IsInteger : D -> bool;
  dec_BigInt : D -> Z;
  dec_Exponent : D -> Z;
  dec_NewFromBigRat : Qc -> Z -> D;
  dec_String : D -> string;
}.

Definition dec_GreaterThan {D} `{Decimal D} (a b : D) : bool := dec_LessThan b a.

(** [10^n]. *)
Definition pow10 (n : Z) : Qc :=
  if 0 <=? n then Qc_of_Z (10 ^ n) else (/ Qc_of_Z (10 ^ (- n)))%Qc.

Class DecimalLaws (D : Type) `{Decimal D} : Prop := {
  dec_Rat_Mul a b : dec_Rat (dec_Mul a b) = (dec_Rat a * dec_Rat b)%Qc;
  dec_Rat_Add a b : dec_Rat (dec_Add a b) = (dec_Rat a + dec_Rat b)%Qc;
  dec_Rat_Zero : dec_Rat dec_Zero = 0%Qc;
  dec_Rat_NewFromInt z : dec_Rat (dec_NewFromInt z) = Qc_of_Z z;
  dec_Equal_spec a b : dec_Equal a b = true <-> dec_Rat a = dec_Rat b;
  dec_LessThan_spec a b : dec_LessThan a b = true <-> (dec_Rat a < dec_Rat b)%Qc;
  dec_IsZero_spec a : dec_IsZero a = true <-> dec_Rat a = 0%Qc;
  dec_IsInteger_spec a : dec_IsInteger a = true <-> exists z, dec_Rat a = Qc_of_Z z;
  dec_BigInt_spec a : dec_IsInteger a = true -> dec_Rat a = Qc_of_Z (dec_BigInt a);
  dec_Exponent_spec a : exists c, dec_Rat a = (Qc_of_Z c * pow10 (dec_Exponent a))%Qc;
  dec_NewFromBigRat_step q p : 0 <= p ->
    exists c, dec_Rat (dec_NewFromBigRat q p) = (Qc_of_Z c * pow10 (- p))%Qc;
  dec_NewFromBigRat_near q p : 0 <= p ->
    let d := (dec_Rat (dec_NewFromBigRat q p) - q)%Qc in
    (Qc_of_Z 2 * d <= pow10 (- p))%Qc /\ (- pow10 (- p) <= Qc_of_Z 2 * d)%Qc;
}.

(** * Ratios, [types/ratio.go] *)

(** [r_From] units before an action become [r_To] units after it. *)
Record Ratio (D : Type) : Type := MkRatio {
  r_From : D;
  r_To : D;
}.
Arguments MkRatio {D} _ _.
Arguments r_From {D} _.
Arguments r_To {D} _.

Section Ratio.
Context {D : Type} `{Decimal D}.

Definition Ratio_Equal (r o : Ratio D) : bool :=
  dec_Equal (dec_Mul (r_From r) (r_To o)) (dec_Mul (r_To r) (r_From o)).

(** Both sides of a stored ratio are positive, as [011_corp_acts.sql] checks. *)
Definition ratio_pos (r : Ratio D) : Prop :=
  (0 < dec_Rat (r_From r))%Qc /\ (0 < dec_Rat (r_To r))%Qc.

(** The factor a ratio restates a quantity by. *)
Definition ratio_value (r : Ratio D) : Qc := (dec_Rat (r_To r) / dec_Rat (r_From r))%Qc.

Context `{!DecimalLaws D}.

Lemma ratio_pos_From r : ratio_pos r -> dec_Rat (r_From r) <> 0%Qc.
Proof. intros [Hf _] E. rewrite E in Hf. by apply Qclt_not_eq in Hf. Qed.

Lemma ratio_pos_value r : ratio_pos r -> ratio_value r <> 0%Qc.
Proof.
  intros Hr E. pose proof (ratio_pos_From r Hr). destruct Hr as [_ Ht]. unfold ratio_value, Qcdiv in E.
  apply Qcmult_integral in E as [E|E].
  - rewrite E in Ht. by apply Qclt_not_eq in Ht.
  - assert (dec_Rat (r_From r) * / dec_Rat (r_From r) = 1)%Qc as E' by (by apply Qcmult_inv_r).
    rewrite E, Qcmult_0_r in E'. discriminate.
Qed.

(** Two quotients are equal when their cross products are. *)
Lemma Qcdiv_eq a b c d :
  b <> 0%Qc -> d <> 0%Qc -> (a / b = c / d)%Qc <-> (b * c = a * d)%Qc.
Proof.
  intros Hb Hd. split; intros E.
  - transitivity (b * d * (c / d))%Qc; [by field |]. rewrite <- E. by field.
  - transitivity (a * d / (b * d))%Qc; [by field |]. rewrite <- E. by field.
Qed.

(** Ratios are equal when they restate a quantity by one factor. *)
Lemma Ratio_Equal_spec r o :
  ratio_pos r -> ratio_pos o -> Ratio_Equal r o = true <-> ratio_value r = ratio_value o.
Proof.
  intros Hr%ratio_pos_From Ho%ratio_pos_From. unfold Ratio_Equal, ratio_value.
  rewrite dec_Equal_spec, !dec_Rat_Mul, Qcdiv_eq by done. done.
Qed.

Lemma Ratio_Equal_refl r : Ratio_Equal r r = true.
Proof. unfold Ratio_Equal. apply dec_Equal_spec. rewrite !dec_Rat_Mul. ring. Qed.

Lemma Ratio_Equal_comm r o : Ratio_Equal r o = Ratio_Equal o r.
Proof.
  apply eq_true_iff_eq. unfold Ratio_Equal. rewrite !dec_Equal_spec, !dec_Rat_Mul.
  split; intros E; rewrite Qcmult_comm, <- E; ring.
Qed.

Lemma Ratio_Equal_trans r o p :
  ratio_pos r -> ratio_pos o -> ratio_pos p ->
  Ratio_Equal r o = true -> Ratio_Equal o p = true -> Ratio_Equal r p = true.
Proof. intros. rewrite !Ratio_Equal_spec in * by done. congruence. Qed.

End Ratio.

(** * An instance

    The decimals [coef * 10^exp], for the examples that run the definitions. *)
Record fixed : Type := Fixed {
  coef : Z;
  expo : Z;
}.

Definition fixed_rat (a : fixed) : Qc := (Qc_of_Z (coef a) * pow10 (expo a))%Qc.

(** [q] rounded to the nearest multiple of [10^-p], for [p] not negative. *)
Definition fixed_round (q : Qc) (p : Z) : fixed :=
  Fixed (Qfloor ((q * Qc_of_Z (10 ^ p))%Qc + (1 # 2))) (- p).

#[export] Instance fixed_Decimal : Decimal fixed := {
  dec_Rat := fixed_rat;
  dec_Mul a b := Fixed (coef a * coef b) (expo a + expo b);
  dec_Add a b :=
    let e := Z.min (expo a) (expo b) in
    Fixed (coef a * 10 ^ (expo a - e) + coef b * 10 ^ (expo b - e)) e;
  dec_Zero := Fixed 0 0;
  dec_NewFromInt z := Fixed z 0;
  dec_Equal a b := bool_decide (fixed_rat a = fixed_rat b);
  dec_LessThan a b := bool_decide (fixed_rat a < fixed_rat b)%Qc;
  dec_IsZero a := bool_decide (coef a = 0);
  dec_IsInteger a := bool_decide (Qc_of_Z (Qfloor (fixed_rat a)) = fixed_rat a);
  dec_BigInt a := Qfloor (fixed_rat a);
  dec_Exponent a := expo a;
  dec_NewFromBigRat := fixed_round;
  dec_String a := pretty (coef a) +:+ "e" +:+ pretty (expo a);
}.

(** ** The instance meets the laws *)

Lemma Qc_of_Z_nonzero z : z <> 0 -> Qc_of_Z z <> 0%Qc.
Proof. intros H E. rewrite <- Z2Qc_inj_0 in E. by apply Z2Qc_inj in E. Qed.

Lemma pow10_nat n : 0 <= n -> pow10 n = Qc_of_Z (10 ^ n).
Proof. intros. unfold pow10. by rewrite (proj2 (Z.leb_le 0 n)). Qed.

Lemma ten_pow_pos n : 0 <= n -> 0 < 10 ^ n.
Proof. intros. by apply Z.pow_pos_nonneg. Qed.

Lemma Qcmult_cancel_r (a b c : Qc) : c <> 0%Qc -> (a * c = b * c)%Qc -> a = b.
Proof. intros Hc E. transitivity (a * c / c)%Qc; [by field |]. rewrite E. by field. Qed.

Lemma pow10_neg n : 0 <= n -> (pow10 (- n) * Qc_of_Z (10 ^ n) = 1)%Qc.
Proof.
  intros Hn. pose proof (ten_pow_pos n Hn). unfold pow10. destruct (Z.leb_spec 0 (- n)).
  - replace n with 0 by lia. reflexivity.
  - rewrite Z.opp_involutive, Qcmult_comm. apply Qcmult_inv_r, Qc_of_Z_nonzero. lia.
Qed.

Lemma pow10_scale n k : 0 <= k -> 0 <= n + k -> (pow10 n * Qc_of_Z (10 ^ k) = Qc_of_Z (10 ^ (n + k)))%Qc.
Proof.
  intros Hk Hnk. destruct (Z.le_gt_cases 0 n).
  - rewrite pow10_nat by done. rewrite <- Z2Qc_inj_mul. by rewrite Z.pow_add_r.
  - replace (10 ^ k) with (10 ^ (- n) * 10 ^ (n + k)) by (rewrite <- Z.pow_add_r by lia; f_equal; lia).
    rewrite Z2Qc_inj_mul, Qcmult_assoc.
    replace n with (- - n) at 1 by lia. rewrite pow10_neg by lia. apply Qcmult_1_l.
Qed.

Lemma pow10_add n m : pow10 (n + m) = (pow10 n * pow10 m)%Qc.
Proof.
  set (k := Z.abs n + Z.abs m).
  assert (Qc_of_Z (10 ^ (k + k)) <> 0%Qc) as Hk.
  { apply Qc_of_Z_nonzero. pose proof (ten_pow_pos (k + k)). lia. }
  apply (Qcmult_cancel_r _ _ (Qc_of_Z (10 ^ (k + k))) Hk).
  rewrite pow10_scale by lia. rewrite (Z.pow_add_r 10 k k), Z2Qc_inj_mul by lia.
  transitivity ((pow10 n * Qc_of_Z (10 ^ k)) * (pow10 m * Qc_of_Z (10 ^ k)))%Qc; [| ring].
  rewrite !pow10_scale by lia. rewrite <- Z2Qc_inj_mul, <- Z.pow_add_r by lia. do 2 f_equal. lia.
Qed.

Lemma Qc_of_Z_pos z : 0 < z -> (0 < Qc_of_Z z)%Qc.
Proof. intros H%Z2Qc_inj_lt. by rewrite Z2Qc_inj_0 in H. Qed.

Lemma pow10_pos n : (0 < pow10 n)%Qc.
Proof.
  unfold pow10. case_match; [| apply Qcinv_pos]; apply Qc_of_Z_pos, ten_pow_pos; lia.
Qed.

(** Twice the error of the nearest integer is at most one. *)
Lemma Qfloor_half (x : Qc) :
  let f := Qfloor (x + (1 # 2)) in
  (Qc_of_Z 2 * (Qc_of_Z f - x) <= 1)%Qc /\ (- (1) <= Qc_of_Z 2 * (Qc_of_Z f - x))%Qc.
Proof.
  intros f. pose proof (Qfloor_le (x + (1 # 2))) as H1. pose proof (Qlt_floor (x + (1 # 2))) as H2.
  fold f in H1, H2. rewrite inject_Z_plus in H2.
  assert (forall z, (this (Qc_of_Z z) == inject_Z z)%Q) as Hz by done.
  unfold Qcle, Qcmult, Qcminus, Qcplus, Qcopp, Q2Qc. cbn [this].
  rewrite !Qred_correct, !Hz. change (inject_Z 2) with (2 # 1)%Q. change (inject_Z 1) with (1 # 1)%Q in H2.
  change (this 1%Qc) with 1%Q. split; Lqa.lra.
Qed.

#[export] Instance fixed_DecimalLaws : DecimalLaws fixed.
Proof.
  split; simpl; unfold fixed_rat; simpl.
  - intros. rewrite Z2Qc_inj_mul, pow10_add. ring.
  - intros [c e] [d g]; simpl. set (m := Z.min e g).
    rewrite Z2Qc_inj_add, !Z2Qc_inj_mul, <- !(pow10_nat (_ - _)) by lia.
    transitivity (Qc_of_Z c * pow10 (e - m + m) + Qc_of_Z d * pow10 (g - m + m))%Qc.
    + rewrite !pow10_add. ring.
    + by rewrite !Z.sub_add.
  - reflexivity.
  - intros. rewrite pow10_nat by done. change (10 ^ 0) with 1. rewrite Z2Qc_inj_1. ring.
  - intros. apply bool_decide_eq_true.
  - intros. apply bool_decide_eq_true.
  - intros [c e]; simpl. rewrite bool_decide_eq_true. split; [intros ->; by rewrite Z2Qc_inj_0, Qcmult_0_l |].
    intros [E|E]%Qcmult_integral.
    + destruct (Z.eq_dec c 0); [done |]. by apply Qc_of_Z_nonzero in E.
    + pose proof (pow10_pos e) as Hp. rewrite E in Hp. by apply Qclt_not_eq in Hp.
  - intros a. change (bool_decide (Qc_of_Z (Qfloor (fixed_rat a)) = fixed_rat a) = true <->
      exists z, fixed_rat a = Qc_of_Z z).
    rewrite bool_decide_eq_true. split; [eauto |]. intros [z ->].
    f_equal. apply (Qfloor_Z z).
  - intros a E%bool_decide_eq_true. by rewrite E.
  - intros a. by exists (coef a).
  - intros q p Hp. by eexists.
  - intros q p Hp. unfold fixed_rat; simpl.
    pose proof (Qfloor_half (q * Qc_of_Z (10 ^ p))) as [H1 H2].
    set (f := Qfloor _) in *. pose proof (pow10_pos (- p)) as Hpos. pose proof (pow10_neg p Hp) as Hinv.
    apply (Qcmult_le_mono_pos_r _ _ _ Hpos) in H1. apply (Qcmult_le_mono_pos_r _ _ _ Hpos) in H2.
    assert (Qc_of_Z 2 * (Qc_of_Z f - q * Qc_of_Z (10 ^ p)) * pow10 (- p) =
      Qc_of_Z 2 * (Qc_of_Z f * pow10 (- p) - q))%Qc as E.
    { transitivity (Qc_of_Z 2 * (Qc_of_Z f * pow10 (- p) - q * (pow10 (- p) * Qc_of_Z (10 ^ p))))%Qc; [ring |].
      rewrite Hinv. ring. }
    rewrite E, Qcmult_1_l in H1. rewrite E in H2.
    replace (- (1) * pow10 (- p))%Qc with (- pow10 (- p))%Qc in H2 by ring. by split.
Qed.
