(* ===== verification/Facts.v ===== *)
(** The facts of one ticker, [server/internal/identity/tickervalidity]: sources
    and how they rank, assertions, edges, and what the later answers of a source
    leave of its earlier ones ([current] and [clip] of [derive.go]). *)
From S2P Require Import Prelude Period.

(** * Intervals, [tickervalidity.go] *)

Inductive Validity : Type :=
| Confirmed
| Provisional.

#[export] Instance Validity_eq_dec : EqDecision Validity.
Proof. solve_decision. Defined.

(** A range of days over which a ticker names one instrument; [None] is Go's
    nil, an open bound. *)
Record Interval : Type := MkInterval {
  iv_From : option time;
  iv_Before : option time;
  iv_Instr : uuid;
  iv_Validity : Validity;
}.

#[export] Instance Interval_eq_dec : EqDecision Interval.
Proof. solve_decision. Defined.

Definition Interval_Contains (i : Interval) (d : time) : bool :=
  match iv_From i with None => true | Some f => negb (d <? f) end
  && match iv_Before i with None => true | Some b => d <? b end.

Definition Interval_Clip (i : Interval) (p : Period) : Period * bool :=
  Clip p (MkPeriod (default (p_From p) (iv_From i)) (default (p_Before p) (iv_Before i))).

(** * Sources *)

(** The order of the constructors is the order of Go's constants. *)
Inductive standing : Type :=
| other
| eventSource
| attested.

#[export] Instance standing_eq_dec : EqDecision standing.
Proof. solve_decision. Defined.

Definition standing_rank (s : standing) : Z :=
  match s with other => 0 | eventSource => 1 | attested => 2 end.

Record Source : Type := MkSource {
  src_Datasource : string;
  src_Precedence : Z;
  src_Answer : uuid;
  src_Answered : time;
  src_Asked : Period;
  src_standing : standing;
}.

#[export] Instance Source_eq_dec : EqDecision Source.
Proof. solve_decision. Defined.

Definition src_attested (s : Source) : bool := bool_decide (src_standing s = attested).

(** The fields a composite literal leaves out are zero. *)
Definition src_group (s : Source) : Source :=
  if src_attested s
  then MkSource "" 0 0 0 (MkPeriod 0 0) attested
  else MkSource (src_Datasource s) (src_Precedence s) 0 0 (MkPeriod 0 0) (src_standing s).

Definition newer (s o : Source) : bool :=
  if negb (src_Answered s =? src_Answered o)
  then src_Answered o <? src_Answered s
  else (src_Answer o <? src_Answer s)%N.

Definition outranks (s o : Source) : bool :=
  if negb (bool_decide (src_standing s = src_standing o))
  then standing_rank (src_standing o) <? standing_rank (src_standing s)
  else src_Precedence s <? src_Precedence o.

#[export] Instance Source_countable : Countable Source.
Proof.
  refine (inj_countable'
    (fun s => (src_Datasource s, src_Precedence s, src_Answer s, src_Answered s,
               (p_From (src_Asked s), p_Before (src_Asked s)), standing_rank (src_standing s)))
    (fun '(d, p, a, t, (f, b), r) =>
       MkSource d p a t (MkPeriod f b) (if r =? 0 then other else if r =? 1 then eventSource else attested)) _).
  by intros [? ? ? ? [] []].
Defined.

(** What a source stated beside a ticker, empty where it stated none. *)
Record Stated : Type := MkStated {
  st_Venue : string;
  st_Currency : string;
}.

#[export] Instance Stated_eq_dec : EqDecision Stated.
Proof. solve_decision. Defined.

(** * Assertions and edges *)

Record Assertion : Type := MkAssertion {
  as_Period : Period;
  as_Instr : option uuid;
  as_EdgeFrom : bool;
  as_EdgeBefore : bool;
  as_Source : Source;
  as_Stated : Stated;
}.

#[export] Instance Assertion_eq_dec : EqDecision Assertion.
Proof. solve_decision. Defined.

Record Edge : Type := MkEdge {
  e_At : time;
  e_Assertion : Assertion;
}.

#[export] Instance Edge_eq_dec : EqDecision Edge.
Proof. solve_decision. Defined.

Record AssertionCoverage : Type := MkAssertionCoverage {
  ac_Period : Period;
  ac_Source : Source;
}.

Record facts : Type := MkFacts {
  f_Assertions : list Assertion;
  f_AssertionCoverage : list AssertionCoverage;
}.

Definition holds (a : Assertion) (d : time) : bool := Contains (as_Period a) d.

(** [same] of [derive.go]: two optional instruments are equal. *)
Definition same (a b : option uuid) : bool :=
  match a, b with
  | Some a, Some b => bool_decide (a = b)
  | None, None => true
  | _, _ => false
  end.

Definition next (d : time) : time := AddDays d 1.
Definition prev (d : time) : time := AddDays d (-1).

(** [better]: the rank of two assertions on one day. *)
Definition better (a b : Assertion) : bool :=
  if outranks (as_Source a) (as_Source b) then true
  else if outranks (as_Source b) (as_Source a) then false
  else match as_Instr a, as_Instr b with
       | Some _, None => true
       | None, _ => false
       | Some i, Some j => (i <? j)%N
       end.

(** * Later answers replace earlier ones *)

(** [edges] of one assertion, and of many in their order. *)
Definition edges_of (a : Assertion) : list Edge :=
  (if as_EdgeFrom a then [MkEdge (p_From (as_Period a)) a] else []) ++
  (if as_EdgeBefore a then [MkEdge (p_Before (as_Period a)) a] else []).

Definition edges (l : list Assertion) : list Edge := concat (map edges_of l).

(** The closure [add] of [clip]: the piece of [a] from [from] to [before]. *)
Definition clip_add (a : Assertion) (from before : time) : list Assertion :=
  if negb (from <? before) then []
  else [MkAssertion (MkPeriod from before) (as_Instr a)
          (as_EdgeFrom a && (from =? p_From (as_Period a)))
          (as_EdgeBefore a && (before =? p_Before (as_Period a)))
          (as_Source a) (as_Stated a)].

(** The loop of [clip] over [taken], from the day [from]. *)
Fixpoint clip_loop (a : Assertion) (taken : list Period) (from : time) : list Assertion :=
  match taken with
  | [] => clip_add a from (p_Before (as_Period a))
  | t :: taken' =>
      if negb (from <? p_Before t) then clip_loop a taken' from
      else if negb (p_From t <? p_Before (as_Period a)) then clip_add a from (p_Before (as_Period a))
      else (if from <? p_From t then clip_add a from (p_From t) else []) ++ clip_loop a taken' (p_Before t)
  end.

Definition clip (a : Assertion) (taken : list Period) : list Assertion :=
  clip_loop a taken (p_From (as_Period a)).

(** The comparison of the indices, newest first. *)
Definition newest (s o : Source) : comparison :=
  if newer s o then Lt else if newer o s then Gt else Eq.

(** The longest prefix whose answers [s] is not newer than, and the rest. *)
Fixpoint same_age (s : Source) (idx : list (nat * Assertion)) : list (nat * Assertion) * list (nat * Assertion) :=
  match idx with
  | [] => ([], [])
  | ia :: idx' =>
      if negb (newer s (as_Source ia.2))
      then let '(run, rest) := same_age s idx' in (ia :: run, rest)
      else ([], idx)
  end.

(** The slices and the map of [current]: the pieces and the kept edges at each
    index, and the periods the answers of each source have taken. *)
Record current_state : Type := MkCurrent {
  c_taken : gmap Source (list Period);
  c_pieces : list (list Assertion);
  c_kept : list (list Edge);
}.

Definition taken_of (m : gmap Source (list Period)) (g : Source) : list Period := default [] (m !! g).

Definition taken_append (m : gmap Source (list Period)) (g : Source) (ps : list Period) : gmap Source (list Period) :=
  <[g := taken_of m g ++ ps]> m.

Definition kept_edge (later : list Period) (e : Edge) : bool :=
  negb (AnyContains later (prev (e_At e))) || negb (AnyContains later (e_At e)).

(** The body of the first inner loop. *)
Definition current_clip (st : current_state) (ia : nat * Assertion) : current_state :=
  let '(i, a) := ia in
  let later := Union (taken_of (c_taken st) (src_group (as_Source a))) in
  MkCurrent (c_taken st) (<[i := clip a later]> (c_pieces st))
    (<[i := List.filter (kept_edge later) (edges_of a)]> (c_kept st)).

(** The periods the second inner loop takes: the assertion's, and the one its
    request asked of. *)
Definition reach (a : Assertion) : list Period :=
  let asked := src_Asked (as_Source a) in
  as_Period a :: (if p_From asked <? p_Before asked then [asked] else []).

Definition current_take (st : current_state) (ia : nat * Assertion) : current_state :=
  let a := ia.2 in
  MkCurrent (taken_append (c_taken st) (src_group (as_Source a)) (reach a)) (c_pieces st) (c_kept st).

(** One turn of the outer loop per run of one age; the fuel is the number of
    assertions. *)
Fixpoint current_runs (fuel : nat) (idx : list (nat * Assertion)) (st : current_state) : option current_state :=
  match idx with
  | [] => Some st
  | ia :: _ =>
      match fuel with
      | O => None
      | S fuel =>
          let '(run, rest) := same_age (as_Source ia.2) idx in
          current_runs fuel rest (foldl current_take (foldl current_clip st run) run)
      end
  end.

Definition current (l : list Assertion) : option (list Assertion * list Edge) :=
  let idx := sort_func (cmp_on (fun ia => as_Source ia.2) newest) (imap pair l) in
  st ← current_runs (length l) idx (MkCurrent ∅ (replicate (length l) []) (replicate (length l) []));
  Some (concat (c_pieces st), concat (c_kept st)).

(** * Overruled edges *)

(** The day after the last day of [a] before [c]. *)
Definition endBefore (a : Assertion) (c : time) : time :=
  if p_Before (as_Period a) <? c then p_Before (as_Period a) else c.

(** The first day of [a] on or after [c]. *)
Definition startAfter (a : Assertion) (c : time) : time :=
  if c <? p_From (as_Period a) then p_From (as_Period a) else c.

Definition overruled_step (c : time) (st : option Assertion * option Assertion) (x : Assertion) :
    option Assertion * option Assertion :=
  if negb (src_attested (as_Source x)) then st
  else
    let '(before, after) := st in
    (if (p_From (as_Period x) <? c)
        && match before with None => true | Some b => negb (endBefore x c <? endBefore b c) end
     then Some x else before,
     if (c <? p_Before (as_Period x))
        && match after with None => true | Some a => startAfter x c <? startAfter a c end
     then Some x else after).

Definition overruled (e : Edge) (l : list Assertion) : bool :=
  match foldl (overruled_step (e_At e)) (None, None) l with
  | (Some b, Some a) =>
      match as_Instr b with Some _ => same (as_Instr b) (as_Instr a) | None => false end
  | _ => false
  end.

(** * Lemmas *)

Lemma same_spec a b : same a b = true <-> a = b.
Proof. destruct a, b; simpl; rewrite ?bool_decide_eq_true; naive_solver. Qed.

Lemma same_refl a : same a a = true.
Proof. by apply same_spec. Qed.

Lemma newest_lex s o :
  newest s o = cmp_flip (cmp_lex (cmp_on src_Answered Z.compare) (cmp_on src_Answer N.compare)) s o.
Proof.
  unfold newest, newer, cmp_flip, cmp_lex, cmp_or, cmp_on. rewrite (Z.eqb_sym (src_Answered o)).
  destruct (Z.compare_spec (src_Answered o) (src_Answered s)) as [E|E|E].
  - rewrite E, Z.eqb_refl. simpl.
    destruct (N.compare_spec (src_Answer o) (src_Answer s)), (N.ltb_spec (src_Answer o) (src_Answer s)),
      (N.ltb_spec (src_Answer s) (src_Answer o)); done || lia.
  - replace (src_Answered s =? src_Answered o) with false by lia. simpl.
    by replace (src_Answered o <? src_Answered s) with true by lia.
  - replace (src_Answered s =? src_Answered o) with false by lia. simpl.
    replace (src_Answered o <? src_Answered s) with false by lia.
    by replace (src_Answered s <? src_Answered o) with true by lia.
Qed.

#[export] Instance newest_cmp : GoCmp newest.
Proof. eapply cmp_ext; [apply newest_lex | apply _]. Qed.

Lemma newest_Lt s o : newest s o = Lt <-> newer s o = true.
Proof. unfold newest. repeat case_match; naive_solver. Qed.

Lemma newer_newest s o : newer s o = false <-> newest s o <> Lt.
Proof. rewrite newest_Lt. by destruct (newer s o). Qed.

(** [better] is a strict order: standing, precedence, positive before negative,
    instrument. *)
Definition instr_cmp (i j : option uuid) : comparison :=
  match i, j with
  | Some i, Some j => N.compare i j
  | Some _, None => Lt
  | None, Some _ => Gt
  | None, None => Eq
  end.

#[export] Instance instr_cmp_cmp : GoCmp instr_cmp.
Proof.
  split; intros [] []; simpl; try done.
  - apply N.compare_antisym.
  - intros []; simpl; [apply (cmp_trans N.compare) | done].
  - by intros [].
Qed.

Definition best_cmp : Assertion -> Assertion -> comparison :=
  cmp_lex (cmp_on (fun a => standing_rank (src_standing (as_Source a))) (cmp_flip Z.compare))
    (cmp_lex (cmp_on (fun a => src_Precedence (as_Source a)) Z.compare) (cmp_on as_Instr instr_cmp)).

#[export] Instance best_cmp_cmp : GoCmp best_cmp.
Proof. apply _. Qed.

Lemma outranks_spec s o :
  outranks s o =
    match Z.compare (standing_rank (src_standing o)) (standing_rank (src_standing s)) with
    | Lt => true | Gt => false | Eq => src_Precedence s <? src_Precedence o end.
Proof. unfold outranks. by destruct (src_standing s), (src_standing o). Qed.

Lemma better_best a b : better a b = true <-> best_cmp a b = Lt.
Proof.
  unfold better, best_cmp, cmp_lex, cmp_or, cmp_on, cmp_flip. rewrite !outranks_spec.
  rewrite (Z.compare_antisym (standing_rank (src_standing (as_Source b)))).
  destruct (standing_rank _ ?= standing_rank _); simpl; try done.
  destruct (Z.compare_spec (src_Precedence (as_Source a)) (src_Precedence (as_Source b)));
    destruct (Z.ltb_spec (src_Precedence (as_Source a)) (src_Precedence (as_Source b))); try lia; try done;
    destruct (Z.ltb_spec (src_Precedence (as_Source b)) (src_Precedence (as_Source a))); try lia; try done.
  destruct (as_Instr a), (as_Instr b); simpl; try done. rewrite N.ltb_lt. symmetry. apply N.compare_lt_iff.
Qed.

Lemma better_false a b : better a b = false <-> best_cmp a b <> Lt.
Proof. rewrite <- better_best. by destruct (better a b). Qed.

(** ** Pieces *)

(** [x] is a piece of [a]: the same assertion over a nonempty part of its
    period, with an edge only on a bound the two share. *)
Definition piece_of (a x : Assertion) : Prop :=
  as_Instr x = as_Instr a /\ as_Source x = as_Source a /\ as_Stated x = as_Stated a /\
  p_nonempty (as_Period x) /\
  p_From (as_Period a) <= p_From (as_Period x) /\ p_Before (as_Period x) <= p_Before (as_Period a) /\
  (as_EdgeFrom x = true <-> as_EdgeFrom a = true /\ p_From (as_Period x) = p_From (as_Period a)) /\
  (as_EdgeBefore x = true <-> as_EdgeBefore a = true /\ p_Before (as_Period x) = p_Before (as_Period a)).

Lemma clip_add_spec a f b d :
  p_From (as_Period a) <= f -> b <= p_Before (as_Period a) ->
  AnyContains (map as_Period (clip_add a f b)) d = (f <=? d) && (d <? b) /\
  Forall (piece_of a) (clip_add a f b) /\
  Forall (fun x => f <= p_From (as_Period x) /\ p_Before (as_Period x) <= b) (clip_add a f b).
Proof.
  intros Hf Hb. unfold clip_add. destruct (f <? b) eqn:E; simpl.
  - split; [unfold AnyContains, Contains; simpl; lia |].
    unfold piece_of, p_nonempty. rewrite !Forall_singleton. simpl.
    rewrite !andb_true_iff, !Z.eqb_eq. repeat split; tauto || lia.
  - split; [unfold AnyContains; simpl; lia | by repeat constructor].
Qed.

Lemma clip_add_sorted a f b : StronglySorted apart (map as_Period (clip_add a f b)).
Proof. unfold clip_add. case_match; repeat constructor. Qed.

Lemma clip_loop_spec a taken f :
  Forall p_nonempty taken -> StronglySorted apart taken -> p_From (as_Period a) <= f ->
  (forall d, AnyContains (map as_Period (clip_loop a taken f)) d =
     (f <=? d) && (d <? p_Before (as_Period a)) && negb (AnyContains taken d)) /\
  Forall (piece_of a) (clip_loop a taken f) /\
  Forall (fun x => f <= p_From (as_Period x)) (clip_loop a taken f) /\
  StronglySorted apart (map as_Period (clip_loop a taken f)).
Proof.
  intros Hne Hs. revert f. induction Hs as [|t taken Hs IH Ht]; intros f Hf; simpl.
  { destruct (clip_add_spec a f (p_Before (as_Period a)) f Hf (Z.le_refl _)) as (_ & H1 & H2).
    split; [intros d; by rewrite (proj1 (clip_add_spec a f _ d Hf (Z.le_refl _))), andb_true_r |].
    split; [done |]. split; [eapply Forall_impl; [apply H2 | simpl; lia] | apply clip_add_sorted]. }
  inversion_clear Hne as [|? ? Htne Hne']. rewrite Forall_forall in Ht. unfold apart, p_nonempty in *.
  destruct (f <? p_Before t) eqn:E1; simpl.
  2: { destruct (IH Hne' f) as (H1 & H2 & H3 & H4); [done |].
       split; [| done]. intros d. rewrite H1, AnyContains_cons.
       unfold Contains at 1. destruct (f <=? d) eqn:E2; [| done]. f_equal. f_equal.
       replace (d <? p_Before t) with false by lia. by rewrite andb_false_r. }
  destruct (p_From t <? p_Before (as_Period a)) eqn:E2; simpl.
  2: { destruct (clip_add_spec a f (p_Before (as_Period a)) f Hf (Z.le_refl _)) as (_ & H1 & H2).
       split; [| split; [done | split; [eapply Forall_impl; [apply H2 | simpl; lia] | apply clip_add_sorted]]].
       intros d. rewrite (proj1 (clip_add_spec a f _ d Hf (Z.le_refl _))).
       destruct (d <? p_Before (as_Period a)) eqn:E3; [| by rewrite !andb_false_r].
       replace (AnyContains (t :: taken) d) with false; [by rewrite !andb_true_r |].
       symmetry. apply existsb_false. intros u [->|Hu]%elem_of_cons; apply Contains_false; [lia |].
       specialize (Ht u Hu). lia. }
  destruct (IH Hne' (p_Before t)) as (H1 & H2 & H3 & H4); [lia |].
  assert (forall d, AnyContains taken d = true -> p_Before t <= d) as Hlater.
  { intros d (u & Hu & Hc)%AnyContains_spec. apply Contains_spec in Hc. specialize (Ht u Hu). lia. }
  destruct (f <? p_From t) eqn:E3; simpl.
  - destruct (clip_add_spec a f (p_From t) f Hf ltac:(lia)) as (_ & K1 & K2).
    split; [| split; [| split]].
    + intros d. rewrite map_app, AnyContains_app, H1, AnyContains_cons.
      rewrite (proj1 (clip_add_spec a f (p_From t) d Hf ltac:(lia))).
      specialize (Hlater d). unfold Contains. destruct (AnyContains taken d); simpl; lia.
    + by apply Forall_app.
    + apply Forall_app. split; eapply Forall_impl; [apply K2 | simpl; lia | apply H3 | simpl; lia].
    + rewrite map_app. apply StronglySorted_app_2; [| apply clip_add_sorted | done].
      intros p q (x & -> & Hx)%list_elem_of_fmap (y & -> & Hy)%list_elem_of_fmap.
      rewrite Forall_forall in K2, H3. specialize (K2 x Hx). specialize (H3 y Hy). unfold apart. lia.
  - split; [| split; [done | split; [| done]]].
    + intros d. rewrite H1, AnyContains_cons. specialize (Hlater d). unfold Contains.
      destruct (AnyContains taken d); simpl; lia.
    + eapply Forall_impl; [apply H3 | simpl; lia].
Qed.

Lemma clip_spec a taken :
  Forall p_nonempty taken -> StronglySorted apart taken ->
  (forall d, AnyContains (map as_Period (clip a taken)) d = holds a d && negb (AnyContains taken d)) /\
  Forall (piece_of a) (clip a taken) /\
  StronglySorted apart (map as_Period (clip a taken)).
Proof.
  intros Hne Hs. destruct (clip_loop_spec a taken (p_From (as_Period a)) Hne Hs) as (H1 & H2 & _ & H3); [lia |].
  split; [| done]. intros d. unfold clip, holds, Contains. rewrite H1. f_equal. lia.
Qed.

(** ** The reference definition of [current] *)

(** The answers of the source of [a] that are later than its own. *)
Definition later_answers (l : list Assertion) (a : Assertion) : list Assertion :=
  List.filter (fun b => newer (as_Source b) (as_Source a)
                        && bool_decide (src_group (as_Source b) = src_group (as_Source a))) l.

(** The days they replace. *)
Definition replaced (l : list Assertion) (a : Assertion) : list Period :=
  Union (concat (map reach (later_answers l a))).

Definition current_spec (l : list Assertion) : list Assertion * list Edge :=
  (concat (map (fun a => clip a (replaced l a)) l),
   concat (map (fun a => List.filter (kept_edge (replaced l a)) (edges_of a)) l)).

(** The periods of stored facts are not empty, [010_ticker_validity.sql]. *)
Definition assertions_ok (l : list Assertion) : Prop := Forall (fun a => p_nonempty (as_Period a)) l.

Lemma reach_nonempty a : p_nonempty (as_Period a) -> Forall p_nonempty (reach a).
Proof.
  intros H. unfold reach. constructor; [done |]. case_match eqn:E; repeat constructor.
  unfold p_nonempty. lia.
Qed.

Lemma reaches_nonempty l : assertions_ok l -> Forall p_nonempty (concat (map reach l)).
Proof.
  induction 1 as [|a l Ha _ IH]; [constructor |]. cbn [map concat]. apply Forall_app.
  split; [by apply reach_nonempty | done].
Qed.

Lemma elem_of_later_answers l a b :
  b ∈ later_answers l a <-> b ∈ l /\ newer (as_Source b) (as_Source a) = true /\
    src_group (as_Source b) = src_group (as_Source a).
Proof. unfold later_answers. by rewrite elem_of_lfilter, andb_true_iff, bool_decide_eq_true. Qed.

Lemma later_answers_ok l a : assertions_ok l -> assertions_ok (later_answers l a).
Proof.
  unfold assertions_ok. rewrite !Forall_forall. intros H b [Hb _]%elem_of_later_answers. by apply H.
Qed.

(** ** [current] meets the reference *)

Lemma same_age_app s idx run rest : same_age s idx = (run, rest) -> idx = run ++ rest.
Proof.
  revert run rest. induction idx as [|ia idx IH]; simpl; intros run rest; [by intros [= <- <-] |].
  case_match; [| by intros [= <- <-]]. destruct (same_age s idx) as [r t] eqn:E. intros [= <- <-].
  simpl. f_equal. by apply IH.
Qed.

Abbreviation by_age := (cmp_on (fun ia : nat * Assertion => as_Source ia.2) newest).

(** In a sorted list the first run holds the answers of one age, and the rest
    are older. *)
Lemma same_age_sorted ia idx run rest :
  StronglySorted (cmp_le by_age) (ia :: idx) -> same_age (as_Source ia.2) (ia :: idx) = (run, rest) ->
  (exists run', run = ia :: run') /\
  (forall ib, ib ∈ run -> newest (as_Source ia.2) (as_Source ib.2) = Eq) /\
  (forall ib, ib ∈ rest -> newer (as_Source ia.2) (as_Source ib.2) = true).
Proof.
  set (s := as_Source ia.2). intros Hs.
  assert (forall l run rest, StronglySorted (cmp_le by_age) l ->
    (forall ib, ib ∈ l -> newest s (as_Source ib.2) <> Gt) -> same_age s l = (run, rest) ->
    (forall ib, ib ∈ run -> newest s (as_Source ib.2) = Eq) /\
    (forall ib, ib ∈ rest -> newer s (as_Source ib.2) = true)) as Hgen.
  { clear. induction l as [|ib l IH]; simpl; intros run rest Hs Hle.
    - intros [= <- <-]. split; by intros ? []%not_elem_of_nil.
    - inversion_clear Hs as [|? ? Hs' Hf]. destruct (newer s (as_Source ib.2)) eqn:E; simpl.
      + intros [= <- <-]. split; [by intros ? []%not_elem_of_nil |].
        intros ic [->|Hic]%elem_of_cons; [done |]. apply newest_Lt.
        rewrite Forall_forall in Hf. apply newest_Lt in E.
        apply (cmp_lt_trans newest s (as_Source ib.2)); [done | by apply Hf].
      + destruct (same_age s l) as [r t] eqn:Er. intros [= <- <-].
        destruct (IH r t Hs') as [H1 H2]; [intros; apply Hle; by right | done |].
        split; [| done]. intros ic [->|Hic]%elem_of_cons; [| by apply H1].
        apply newer_newest in E. specialize (Hle ib ltac:(left)).
        by destruct (newest s (as_Source ib.2)). }
  intros Hrun. split.
  - simpl in Hrun. fold s in Hrun. replace (newer s s) with false in Hrun.
    + simpl in Hrun. destruct (same_age s idx). injection Hrun as <- <-. by eexists.
    + symmetry. apply newer_newest. by rewrite (cmp_refl newest).
  - apply (Hgen (ia :: idx)); [done | | done]. intros ib [->|Hib]%elem_of_cons.
    + fold s. by rewrite (cmp_refl newest).
    + inversion_clear Hs as [|? ? _ Hf]. rewrite Forall_forall in Hf. by apply Hf.
Qed.

(** What the loop has built once it has visited [seen]. *)
Record current_inv (l : list Assertion) (seen : list (nat * Assertion)) (st : current_state) : Prop := {
  ci_taken g : taken_of (c_taken st) g =
    concat (map (fun ia => reach ia.2) (List.filter (fun ia => bool_decide (src_group (as_Source ia.2) = g)) seen));
  ci_pieces i a : (i, a) ∈ seen -> c_pieces st !! i = Some (clip a (replaced l a));
  ci_kept i a : (i, a) ∈ seen ->
    c_kept st !! i = Some (List.filter (kept_edge (replaced l a)) (edges_of a));
  ci_len_pieces : length (c_pieces st) = length l;
  ci_len_kept : length (c_kept st) = length l;
}.

Lemma taken_of_append m g ps h :
  taken_of (taken_append m g ps) h = if bool_decide (g = h) then taken_of m h ++ ps else taken_of m h.
Proof.
  unfold taken_of, taken_append. case_bool_decide as E; subst.
  - by rewrite lookup_insert_eq.
  - by rewrite lookup_insert_ne.
Qed.

Lemma current_take_fold run st :
  let st' := foldl current_take st run in
  (forall g, taken_of (c_taken st') g = taken_of (c_taken st) g ++
     concat (map (fun ia => reach ia.2) (List.filter (fun ia => bool_decide (src_group (as_Source ia.2) = g)) run))) /\
  c_pieces st' = c_pieces st /\ c_kept st' = c_kept st.
Proof.
  revert st. induction run as [|ia run IH]; intros st; cbn [foldl]; [simpl; split; [intros; by rewrite app_nil_r | done] |].
  destruct (IH (current_take st ia)) as (H1 & H2 & H3). split; [| by rewrite H2, H3].
  intros g. rewrite H1. cbn [current_take c_taken List.filter]. rewrite taken_of_append.
  case_bool_decide as E; subst; [| done]. cbn [map concat]. by rewrite app_assoc.
Qed.

Lemma current_clip_fold run st :
  NoDup run.*1 ->
  let st' := foldl current_clip st run in
  c_taken st' = c_taken st /\ length (c_pieces st') = length (c_pieces st) /\
  length (c_kept st') = length (c_kept st) /\
  (forall i, i ∉ run.*1 -> c_pieces st' !! i = c_pieces st !! i /\ c_kept st' !! i = c_kept st !! i) /\
  (forall i a, (i, a) ∈ run -> (i < length (c_pieces st))%nat -> (i < length (c_kept st))%nat ->
     let later := Union (taken_of (c_taken st) (src_group (as_Source a))) in
     c_pieces st' !! i = Some (clip a later) /\
     c_kept st' !! i = Some (List.filter (kept_edge later) (edges_of a))).
Proof.
  revert st. induction run as [|[j b] run IH]; intros st Hnd; cbn [foldl].
  { repeat split; try done; intros; by apply not_elem_of_nil in H. }
  cbn in Hnd. apply NoDup_cons in Hnd as [Hj Hnd].
  destruct (IH (current_clip st (j, b)) Hnd) as (H1 & H2 & H3 & H4 & H5).
  cbn [current_clip c_taken c_pieces c_kept] in *. rewrite !length_insert in *.
  repeat split; try done.
  - cbn in H. apply not_elem_of_cons in H as [Hne Hi]. destruct (H4 i Hi) as [-> _].
    by rewrite list_lookup_insert_ne.
  - cbn in H. apply not_elem_of_cons in H as [Hne Hi]. destruct (H4 i Hi) as [_ ->].
    by rewrite list_lookup_insert_ne.
  - apply elem_of_cons in H as [[= -> ->]|H]; [| by apply H5].
    destruct (H4 j Hj) as [-> _]. by rewrite list_lookup_insert_eq.
  - apply elem_of_cons in H as [[= -> ->]|H]; [| by apply H5].
    destruct (H4 j Hj) as [_ ->]. by rewrite list_lookup_insert_eq.
Qed.

Lemma AnyContains_reaches l d :
  AnyContains (concat (map reach l)) d = true <-> exists b, b ∈ l /\ AnyContains (reach b) d = true.
Proof.
  induction l as [|a l IH]; cbn [map concat]; [split; [done | by intros (? & []%not_elem_of_nil & _)] |].
  rewrite AnyContains_app, orb_true_iff, IH. setoid_rewrite elem_of_cons. naive_solver.
Qed.

(** The periods taken when a run starts are those the reference replaces. *)
Lemma taken_replaced l seen st a :
  assertions_ok l -> current_inv l seen st ->
  (forall ib, ib ∈ seen -> ib.2 ∈ l) ->
  (forall b, b ∈ l -> newer (as_Source b) (as_Source a) = true -> exists i, (i, b) ∈ seen) ->
  (forall ib, ib ∈ seen -> newer (as_Source ib.2) (as_Source a) = true) ->
  Union (taken_of (c_taken st) (src_group (as_Source a))) = replaced l a.
Proof.
  intros Hok Hinv Hin Hall Hnew. unfold replaced. rewrite (ci_taken _ _ _ Hinv).
  rewrite <- (map_map snd reach). apply Union_ext.
  - apply reaches_nonempty. unfold assertions_ok. apply Forall_forall. intros b Hb.
    apply list_elem_of_fmap in Hb as (ib & -> & Hib). apply elem_of_lfilter in Hib as [Hib _].
    unfold assertions_ok in Hok. rewrite Forall_forall in Hok. by apply Hok, Hin.
  - by apply reaches_nonempty, later_answers_ok.
  - intros d. apply eq_true_iff_eq. rewrite !AnyContains_reaches. split.
    + intros (b & Hb & Hd). exists b. split; [| done].
      apply list_elem_of_fmap in Hb as (ib & -> & Hib). apply elem_of_lfilter in Hib as [Hib Hg].
      apply bool_decide_eq_true in Hg. apply elem_of_later_answers. auto.
    + intros (b & Hb & Hd). exists b. split; [| done].
      apply elem_of_later_answers in Hb as (Hb & Hn & Hg). destruct (Hall b Hb Hn) as [i Hi].
      apply list_elem_of_fmap. exists (i, b). split; [done |]. apply elem_of_lfilter.
      split; [done |]. by apply bool_decide_eq_true.
Qed.

(** One turn of the outer loop. *)
Lemma current_run_inv l seen run rest ia run' st :
  assertions_ok l -> current_inv l seen st -> run = ia :: run' ->
  NoDup (seen ++ run ++ rest).*1 ->
  (forall i a, (i, a) ∈ seen ++ run ++ rest <-> l !! i = Some a) ->
  (forall ib ic, ib ∈ seen -> ic ∈ run ++ rest -> newer (as_Source ib.2) (as_Source ic.2) = true) ->
  (forall ib, ib ∈ run -> newest (as_Source ia.2) (as_Source ib.2) = Eq) ->
  (forall ib, ib ∈ rest -> newer (as_Source ia.2) (as_Source ib.2) = true) ->
  current_inv l (seen ++ run) (foldl current_take (foldl current_clip st run) run).
Proof.
  intros Hok Hinv Hrun Hnd Hidx Hseen Heq Hrest.
  destruct (current_take_fold run (foldl current_clip st run)) as (Ht & Hp & Hk).
  rewrite !fmap_app in Hnd. apply NoDup_app in Hnd as (_ & Hdisj & Hnd). apply NoDup_app in Hnd as (Hndr & _ & _).
  destruct (current_clip_fold run st Hndr) as (C1 & C2 & C3 & C4 & C5).
  assert (forall i a, (i, a) ∈ run ->
    Union (taken_of (c_taken st) (src_group (as_Source a))) = replaced l a) as Hrep.
  { intros i a Hia. apply (taken_replaced l seen); try done.
    - intros [j b] Hjb. apply (list_elem_of_lookup_2 _ j), Hidx, elem_of_app. by left.
    - intros b Hb Hn. apply list_elem_of_lookup in Hb as [j Hj]. exists j. apply Hidx in Hj.
      apply elem_of_app in Hj as [Hj|[Hj|Hj]%elem_of_app]; [done | exfalso ..].
      + pose proof (Heq _ Hia) as E1. pose proof (Heq _ Hj) as E2. simpl in *.
        apply newest_Lt in Hn. rewrite <- (cmp_eq_l newest _ _ _ E2), E1 in Hn. done.
      + pose proof (Heq _ Hia) as E1. pose proof (Hrest _ Hj) as E2. simpl in *.
        apply newest_Lt in Hn, E2. apply (cmp_eq_sym newest) in E1.
        rewrite (cmp_eq_l newest _ _ _ (proj1 (cmp_eq_sym newest _ _) E1)) in E2.
        apply (cmp_gt_lt newest) in E2. congruence.
    - intros ib Hib. apply (Hseen ib (i, a)); [done |]. apply elem_of_app. by left. }
  assert (forall i a, (i, a) ∈ seen -> i ∉ run.*1) as Hout.
  { intros i a Hia Hi. apply (Hdisj i); [by apply (list_elem_of_fmap_2 fst _ (i, a)) |]. apply elem_of_app. by left. }
  assert (forall i a, (i, a) ∈ run -> (i < length l)%nat) as Hlt.
  { intros i a Hia. apply lookup_lt_is_Some. exists a. apply Hidx, elem_of_app. right. apply elem_of_app. by left. }
  split.
  - intros g. rewrite Ht, C1, (ci_taken _ _ _ Hinv), List.filter_app, map_app, concat_app. done.
  - intros i a [Hia|Hia]%elem_of_app; rewrite Hp.
    + destruct (C4 i (Hout i a Hia)) as [-> _]. by apply Hinv.
    + destruct (C5 i a Hia) as [-> _]; [by rewrite (ci_len_pieces _ _ _ Hinv); eauto |
        by rewrite (ci_len_kept _ _ _ Hinv); eauto | by erewrite Hrep].
  - intros i a [Hia|Hia]%elem_of_app; rewrite Hk.
    + destruct (C4 i (Hout i a Hia)) as [_ ->]. by apply Hinv.
    + destruct (C5 i a Hia) as [_ ->]; [by rewrite (ci_len_pieces _ _ _ Hinv); eauto |
        by rewrite (ci_len_kept _ _ _ Hinv); eauto | by erewrite Hrep].
  - rewrite Hp, C2. apply Hinv.
  - rewrite Hk, C3. apply Hinv.
Qed.

Lemma current_runs_inv l : forall fuel seen idx st,
  assertions_ok l -> current_inv l seen st ->
  NoDup (seen ++ idx).*1 -> (forall i a, (i, a) ∈ seen ++ idx <-> l !! i = Some a) ->
  StronglySorted (cmp_le by_age) idx ->
  (forall ib ic, ib ∈ seen -> ic ∈ idx -> newer (as_Source ib.2) (as_Source ic.2) = true) ->
  (length idx <= fuel)%nat ->
  exists st', current_runs fuel idx st = Some st' /\ current_inv l (seen ++ idx) st'.
Proof.
  induction fuel as [|fuel IH]; intros seen idx st Hok Hinv Hnd Hidx Hs Hseen Hfuel.
  { destruct idx; [| simpl in Hfuel; lia]. exists st. by rewrite app_nil_r. }
  destruct idx as [|ia idx]; [exists st; by rewrite app_nil_r |].
  cbn [current_runs]. destruct (same_age (as_Source ia.2) (ia :: idx)) as [run rest] eqn:E.
  pose proof (same_age_app _ _ _ _ E) as Happ.
  destruct (same_age_sorted _ _ _ _ Hs E) as ([run' Hrun] & Heq & Hrest).
  rewrite Happ in Hnd, Hidx, Hseen, Hs, Hfuel |- *. rewrite app_assoc.
  apply IH; try done.
  - by eapply (current_run_inv l seen run rest ia run').
  - by rewrite <- app_assoc.
  - intros i a. by rewrite <- app_assoc.
  - by apply StronglySorted_app_1_r in Hs.
  - intros ib ic [Hib|Hib]%elem_of_app Hic.
    + apply Hseen; [done |]. apply elem_of_app. by right.
    + apply newest_Lt. rewrite <- (cmp_eq_l newest _ _ _ (Heq _ Hib)). by apply newest_Lt, Hrest.
  - rewrite Hrun in Hfuel. rewrite length_app in Hfuel. simpl in Hfuel. lia.
Qed.

Lemma elem_of_imap_pair {A} (l : list A) i a : (i, a) ∈ imap pair l <-> l !! i = Some a.
Proof.
  split.
  - intros [j Hj]%list_elem_of_lookup. rewrite list_lookup_imap in Hj.
    by destruct (l !! j) eqn:E; simplify_eq/=.
  - intros Hi. apply list_elem_of_lookup. exists i. by rewrite list_lookup_imap, Hi.
Qed.

Lemma fst_imap_pair {A} (l : list A) : (imap pair l).*1 = seq 0 (length l).
Proof.
  apply list_eq. intros i. rewrite list_lookup_fmap, list_lookup_imap.
  destruct (l !! i) eqn:E; simpl.
  - apply lookup_lt_Some in E. symmetry. by apply lookup_seq.
  - apply lookup_ge_None in E. symmetry. by apply lookup_seq_ge.
Qed.

Lemma current_eq l : assertions_ok l -> current l = Some (current_spec l).
Proof.
  intros Hok. unfold current.
  set (idx := sort_func by_age (imap pair l)).
  assert (idx ≡ₚ imap pair l) as Hp by apply sort_func_perm.
  destruct (current_runs_inv l (length l) [] idx
    (MkCurrent ∅ (replicate (length l) []) (replicate (length l) []))) as (st & -> & Hinv).
  - done.
  - split; simpl; try (intros; by apply not_elem_of_nil in H); [| apply length_replicate ..].
    intros g. unfold taken_of. by rewrite lookup_empty.
  - simpl. rewrite Hp, fst_imap_pair. apply NoDup_seq.
  - intros i a. simpl. by rewrite Hp, elem_of_imap_pair.
  - apply sort_func_sorted, _.
  - by intros ib ic []%not_elem_of_nil.
  - rewrite Hp, length_imap. done.
  - simpl. unfold current_spec. do 3 f_equal.
    + apply list_eq. intros i. change (map ?f l) with (f <$> l). rewrite list_lookup_fmap.
      destruct (l !! i) eqn:E; simpl.
      * apply (ci_pieces _ _ _ Hinv). simpl. by rewrite Hp, elem_of_imap_pair.
      * apply lookup_ge_None in E. apply lookup_ge_None. rewrite (ci_len_pieces _ _ _ Hinv). lia.
    + apply list_eq. intros i. change (map ?f l) with (f <$> l). rewrite list_lookup_fmap.
      destruct (l !! i) eqn:E; simpl.
      * apply (ci_kept _ _ _ Hinv). simpl. by rewrite Hp, elem_of_imap_pair.
      * apply lookup_ge_None in E. apply lookup_ge_None. rewrite (ci_len_kept _ _ _ Hinv). lia.
Qed.

Lemma replaced_spec l a d :
  AnyContains (replaced l a) d = true <->
  exists b, b ∈ l /\ newer (as_Source b) (as_Source a) = true /\
    src_group (as_Source b) = src_group (as_Source a) /\ AnyContains (reach b) d = true.
Proof.
  unfold replaced. rewrite Union_contains, AnyContains_reaches.
  setoid_rewrite elem_of_later_answers. naive_solver.
Qed.

Lemma replaced_apart l a : assertions_ok l -> Forall p_nonempty (replaced l a) /\ StronglySorted apart (replaced l a).
Proof. intros. by apply Union_apart, reaches_nonempty, later_answers_ok. Qed.

(** A day of a piece is a day of its assertion that no later answer of its
    source reaches. *)
Lemma current_piece l a x :
  assertions_ok l -> x ∈ clip a (replaced l a) ->
  piece_of a x /\ forall d, holds x d = true -> holds a d = true /\ AnyContains (replaced l a) d = false.
Proof.
  intros Hok Hx. destruct (replaced_apart l a Hok) as [H1 H2].
  destruct (clip_spec a _ H1 H2) as (K1 & K2 & _). rewrite Forall_forall in K2. split; [by apply K2 |].
  intros d Hd. specialize (K1 d).
  assert (AnyContains (map as_Period (clip a (replaced l a))) d = true) as E.
  { apply AnyContains_spec. exists (as_Period x). split; [| done]. by apply list_elem_of_fmap_2. }
  rewrite E in K1. symmetry in K1. by rewrite andb_true_iff, negb_true_iff in K1.
Qed.

Lemma current_day l a d :
  assertions_ok l -> holds a d = true -> AnyContains (replaced l a) d = false ->
  exists x, x ∈ clip a (replaced l a) /\ holds x d = true.
Proof.
  intros Hok Hd Hr. destruct (replaced_apart l a Hok) as [H1 H2].
  destruct (clip_spec a _ H1 H2) as (K1 & _ & _). specialize (K1 d). rewrite Hd, Hr in K1.
  apply AnyContains_spec in K1 as (p & Hp & Hc). apply list_elem_of_fmap in Hp as (x & -> & Hx). eauto.
Qed.

Lemma current_ok l out es : assertions_ok l -> current l = Some (out, es) -> assertions_ok out.
Proof.
  intros Hok Hc. rewrite current_eq in Hc by done. unfold current_spec in Hc. simplify_eq. apply Forall_forall.
  intros x (a & Ha & Hx)%elem_of_concat_map. apply current_piece in Hx as [Hp _]; [| done]. apply Hp.
Qed.

(** ** What stands of an assertion

    The specification of [current] below uses none of the functions of the
    code. *)

(** [s] answered after [o], the ids deciding between answers of one moment. *)
Definition answered_later (s o : Source) : Prop :=
  src_Answered o < src_Answered s \/ src_Answered s = src_Answered o /\ (src_Answer o < src_Answer s)%N.

(** Two answers of one source: the attestations are one, and any other is a
    datasource's, of one precedence and standing. *)
Definition one_source (s o : Source) : Prop :=
  src_standing s = src_standing o /\
  (src_standing s = attested \/ src_Datasource s = src_Datasource o /\ src_Precedence s = src_Precedence o).

(** A later answer of the source of [a] states something of [d], or was asked of it. *)
Definition outdated (l : list Assertion) (a : Assertion) (d : time) : Prop :=
  exists b, b ∈ l /\ answered_later (as_Source b) (as_Source a) /\ one_source (as_Source b) (as_Source a) /\
    (p_From (as_Period b) <= d < p_Before (as_Period b) \/
     p_From (src_Asked (as_Source b)) <= d < p_Before (src_Asked (as_Source b))).

(** [xs] are the pieces of [a] that stand, in order and never meeting: they
    hold each day of [a] that is not outdated, and no other. *)
Definition pieces_stand (l : list Assertion) (a : Assertion) (xs : list Assertion) : Prop :=
  Forall (piece_of a) xs /\ StronglySorted apart (map as_Period xs) /\
  forall d, (exists x, x ∈ xs /\ p_From (as_Period x) <= d < p_Before (as_Period x)) <->
    (p_From (as_Period a) <= d < p_Before (as_Period a)) /\ ~ outdated l a d.

Definition alone_if {A} (P : Prop) (x : A) (l : list A) : Prop := P /\ l = [x] \/ ~ P /\ l = [].

(** An edge stands unless the day before it and its own are both outdated. *)
Definition edge_stands (l : list Assertion) (a : Assertion) (stated : bool) (at_ : time) : list Edge -> Prop :=
  alone_if (stated = true /\ ~ (outdated l a (prev at_) /\ outdated l a at_)) (MkEdge at_ a).

Definition edges_stand (l : list Assertion) (a : Assertion) (es : list Edge) : Prop :=
  exists first last, es = first ++ last /\
    edge_stands l a (as_EdgeFrom a) (p_From (as_Period a)) first /\
    edge_stands l a (as_EdgeBefore a) (p_Before (as_Period a)) last.

Lemma newer_spec s o : newer s o = true <-> answered_later s o.
Proof.
  unfold newer, answered_later. destruct (Z.eqb_spec (src_Answered s) (src_Answered o)); simpl;
    rewrite ?Z.ltb_lt, ?N.ltb_lt; lia.
Qed.

Lemma src_group_spec s o : src_group s = src_group o <-> one_source s o.
Proof.
  unfold src_group, one_source, src_attested. destruct s as [d p ? ? ? st], o as [d' p' ? ? ? st']; simpl.
  repeat case_bool_decide; split; intros E; destruct_and?; simplify_eq; naive_solver.
Qed.

Lemma outdated_spec l a d : AnyContains (replaced l a) d = true <-> outdated l a d.
Proof.
  rewrite replaced_spec. unfold outdated. apply exist_proper. intros b.
  rewrite newer_spec, src_group_spec. apply and_iff_compat_l, and_iff_compat_l, and_iff_compat_l.
  unfold reach. rewrite AnyContains_cons, orb_true_iff, Contains_spec.
  case_match eqn:E; unfold AnyContains; simpl; rewrite ?orb_false_r, ?Contains_spec; try tauto. lia.
Qed.

Lemma AnyContains_pieces xs d :
  AnyContains (map as_Period xs) d = true <-> exists x, x ∈ xs /\ p_From (as_Period x) <= d < p_Before (as_Period x).
Proof.
  rewrite AnyContains_spec. split.
  - intros (p & (x & -> & Hx)%list_elem_of_fmap & Hc%Contains_spec). eauto.
  - intros (x & Hx & Hd). exists (as_Period x). split; [by apply list_elem_of_fmap_2 | by apply Contains_spec].
Qed.

Lemma clip_stands l a : assertions_ok l -> pieces_stand l a (clip a (replaced l a)).
Proof.
  intros Hok. destruct (replaced_apart l a Hok) as [H1 H2]. destruct (clip_spec a _ H1 H2) as (K1 & K2 & K3).
  split; [done |]. split; [done |]. intros d.
  rewrite <- AnyContains_pieces, K1, andb_true_iff, negb_true_iff, <- outdated_spec, not_true_iff_false.
  unfold holds. by rewrite Contains_spec.
Qed.

Lemma piece_of_unique a x y : piece_of a x -> piece_of a y -> as_Period x = as_Period y -> x = y.
Proof.
  intros (Hi & Hs & Ht & _ & _ & _ & Hf & Hb) (Ki & Ks & Kt & _ & _ & _ & Kf & Kb) E.
  rewrite E in Hf, Hb. destruct x, y; simpl in *; subst; f_equal; apply eq_true_iff_eq; tauto.
Qed.

Lemma pieces_unique l a xs ys : pieces_stand l a xs -> pieces_stand l a ys -> xs = ys.
Proof.
  intros (Hx & Sx & Dx) (Hy & Sy & Dy).
  assert (forall zs, Forall (piece_of a) zs -> Forall p_nonempty (map as_Period zs)) as Hne.
  { intros zs Hz. apply Forall_map. eapply Forall_impl; [apply Hz |]. by intros z (_ & _ & _ & ? & _). }
  assert (map as_Period xs = map as_Period ys) as E.
  { apply apart_unique; auto. intros d. apply eq_true_iff_eq. by rewrite !AnyContains_pieces, Dx, Dy. }
  clear - Hx Hy E. revert ys Hy E. induction Hx as [|x xs Hx _ IH]; intros [|y ys] Hy E; simplify_eq/=; [done |].
  inversion_clear Hy. f_equal; [by apply (piece_of_unique a) | by apply IH].
Qed.

Lemma kept_stands l a es :
  edges_stand l a es <-> es = List.filter (kept_edge (replaced l a)) (edges_of a).
Proof.
  assert (forall (stated : bool) at_ part,
    part = List.filter (kept_edge (replaced l a)) (if stated then [MkEdge at_ a] else []) <->
    edge_stands l a stated at_ part) as H.
  { intros stated at_ part. unfold edge_stands, alone_if. rewrite <- !outdated_spec.
    destruct stated; simpl; [| naive_solver]. unfold kept_edge; simpl.
    destruct (AnyContains _ (prev at_)), (AnyContains _ at_); simpl; naive_solver. }
  unfold edges_stand, edges_of. rewrite List.filter_app. setoid_rewrite <- H. naive_solver.
Qed.

Lemma current_stands l out es :
  assertions_ok l ->
  current l = Some (out, es) <->
  exists pieces kept, out = concat pieces /\ es = concat kept /\
    Forall2 (pieces_stand l) l pieces /\ Forall2 (edges_stand l) l kept.
Proof.
  intros Hok. rewrite current_eq by done. unfold current_spec. split.
  - intros [= <- <-]. eexists _, _. split; [done |]. split; [done |].
    split; apply Forall2_fmap_r, Forall_Forall2_diag, Forall_forall; intros a _;
      [by apply clip_stands | by apply kept_stands].
  - intros (pieces & kept & -> & -> & Hp & Hk). do 3 f_equal; symmetry.
    + revert Hp. generalize l at 2 4. intros l0 Hp.
      induction Hp as [|a xs l0 pieces Ha _ IH]; [done |]. cbn [map]. f_equal; [| done].
      by apply (pieces_unique l a), clip_stands.
    + revert Hk. generalize l at 2 4. intros l0 Hk.
      induction Hk as [|a xs l0 kept Ha _ IH]; [done |]. cbn [map]. f_equal; [| done]. by apply kept_stands.
Qed.

(** ** Brackets *)

(** [b] is an attested assertion with the last attested day before [c], and [a]
    one with the first from [c] on. *)
Definition last_before (l : list Assertion) (c : time) (b : Assertion) : Prop :=
  b ∈ l /\ src_attested (as_Source b) = true /\ p_From (as_Period b) < c /\
  forall x, x ∈ l -> src_attested (as_Source x) = true -> p_From (as_Period x) < c -> endBefore x c <= endBefore b c.

Definition first_after (l : list Assertion) (c : time) (a : Assertion) : Prop :=
  a ∈ l /\ src_attested (as_Source a) = true /\ c < p_Before (as_Period a) /\
  forall x, x ∈ l -> src_attested (as_Source x) = true -> c < p_Before (as_Period x) -> startAfter a c <= startAfter x c.

Ltac in_snoc :=
  unfold last_before, first_after in *; setoid_rewrite elem_of_app; setoid_rewrite list_elem_of_singleton.

Lemma overruled_fold c l :
  let st := foldl (overruled_step c) (None, None) l in
  match st.1 with
  | Some b => last_before l c b
  | None => forall x, x ∈ l -> src_attested (as_Source x) = true -> c <= p_From (as_Period x)
  end /\
  match st.2 with
  | Some a => first_after l c a
  | None => forall x, x ∈ l -> src_attested (as_Source x) = true -> p_Before (as_Period x) <= c
  end.
Proof.
  induction l as [|x l IH] using rev_ind; [split; by intros ? []%not_elem_of_nil |].
  rewrite foldl_app. simpl. destruct (foldl _ _ l) as [before after]. cbn [fst snd] in IH. destruct IH as [IHb IHa].
  unfold overruled_step. destruct (src_attested (as_Source x)) eqn:Ex; cbn [negb fst snd].
  2: { split; [destruct before | destruct after]; in_snoc; destruct_and?; repeat split; eauto;
         intros y [Hy| ->]; eauto; congruence. }
  split.
  - destruct before as [b|]; cbn [fst snd].
    + destruct (p_From (as_Period x) <? c) eqn:E1; simpl; [destruct (endBefore x c <? endBefore b c) eqn:E2; simpl |];
        in_snoc; destruct IHb as (Hb1 & Hb2 & Hb3 & Hb4); repeat split; auto; try lia;
        intros y [Hy| ->] Hya Hyc; try lia; specialize (Hb4 y Hy Hya Hyc); lia.
    + destruct (p_From (as_Period x) <? c) eqn:E1; simpl; in_snoc; repeat split; auto; try lia;
        intros y [Hy| ->] Hya; try lia; specialize (IHb y Hy Hya); lia.
  - destruct after as [a|]; cbn [fst snd].
    + destruct (c <? p_Before (as_Period x)) eqn:E1; simpl; [destruct (startAfter x c <? startAfter a c) eqn:E2; simpl |];
        in_snoc; destruct IHa as (Hb1 & Hb2 & Hb3 & Hb4); repeat split; auto; try lia;
        intros y [Hy| ->] Hya Hyc; try lia; specialize (Hb4 y Hy Hya Hyc); lia.
    + destruct (c <? p_Before (as_Period x)) eqn:E1; simpl; in_snoc; repeat split; auto; try lia;
        intros y [Hy| ->] Hya; try lia; specialize (IHa y Hy Hya); lia.
Qed.

(** No two attested assertions hold one day. *)
Definition attested_disjoint (l : list Assertion) : Prop :=
  forall x y d, x ∈ l -> y ∈ l -> src_attested (as_Source x) = true -> src_attested (as_Source y) = true ->
    holds x d = true -> holds y d = true -> x = y.

Lemma last_before_unique l c b b' :
  assertions_ok l -> attested_disjoint l -> last_before l c b -> last_before l c b' -> b = b'.
Proof.
  intros Hok Hd (H1 & H2 & H3 & H4) (K1 & K2 & K3 & K4). unfold assertions_ok in Hok. rewrite Forall_forall in Hok.
  pose proof (Hok b H1) as N1. pose proof (Hok b' K1) as N2. unfold p_nonempty in *.
  specialize (H4 b' K1 K2 K3). specialize (K4 b H1 H2 H3). unfold endBefore in *.
  apply (Hd b b' (Z.max (p_From (as_Period b)) (p_From (as_Period b')))); try done;
    apply Contains_spec; repeat case_match; lia.
Qed.

Lemma first_after_unique l c a a' :
  assertions_ok l -> attested_disjoint l -> first_after l c a -> first_after l c a' -> a = a'.
Proof.
  intros Hok Hd (H1 & H2 & H3 & H4) (K1 & K2 & K3 & K4). unfold assertions_ok in Hok. rewrite Forall_forall in Hok.
  pose proof (Hok a H1) as N1. pose proof (Hok a' K1) as N2. unfold p_nonempty in *.
  specialize (H4 a' K1 K2 K3). specialize (K4 a H1 H2 H3). unfold startAfter in *.
  apply (Hd a a' (startAfter a c)); try done; apply Contains_spec; unfold startAfter; repeat case_match; lia.
Qed.

Lemma overruled_bracket e l :
  overruled e l = true ->
  exists i b a, last_before l (e_At e) b /\ first_after l (e_At e) a /\ as_Instr b = Some i /\ as_Instr a = Some i.
Proof.
  unfold overruled. pose proof (overruled_fold (e_At e) l) as [H1 H2].
  destruct (foldl _ _ l) as [[b|] [a|]]; try done. cbn [fst snd] in *.
  destruct (as_Instr b) as [i|] eqn:E; [| done]. intros Hs%same_spec. exists i, b, a. by rewrite <- Hs.
Qed.

(** * Properties *)

(** C37: of facts whose periods are not empty, [current] always ends, and what
    it returns is what stands of each assertion, in the order of the assertions.
    A day of an assertion is outdated when a later answer of the same source,
    by its moment and then its id, states something of the day or was asked of
    it. The assertion stands as pieces of itself, in order and never meeting,
    that hold its days not outdated and no others, each with an edge only on a
    bound of the assertion that has one; and its edges stand in their order,
    save one whose own day and day before are both outdated. *)
Theorem current_reference l :
  assertions_ok l ->
  is_Some (current l) /\
  forall out es, current l = Some (out, es) <->
    exists pieces kept, out = concat pieces /\ es = concat kept /\
      Forall2 (pieces_stand l) l pieces /\ Forall2 (edges_stand l) l kept.
Proof. intros Hok. split; [by rewrite current_eq by done |]. intros. by apply current_stands. Qed.

(** Attestations overrule an edge exactly when the last attested day before
    it and the first attested day from it on name one instrument. *)
Theorem overruled_spec e l :
  assertions_ok l -> attested_disjoint l ->
  overruled e l = true <->
  exists i b a, last_before l (e_At e) b /\ first_after l (e_At e) a /\ as_Instr b = Some i /\ as_Instr a = Some i.
Proof.
  intros Hok Hd. split; [apply overruled_bracket |]. intros (i & b & a & Hb & Ha & Hbi & Hai).
  unfold overruled. pose proof (overruled_fold (e_At e) l) as [H1 H2].
  destruct (foldl _ _ l) as [[b'|] [a'|]]; cbn [fst snd] in *.
  - rewrite <- (last_before_unique _ _ _ _ Hok Hd Hb H1), <- (first_after_unique _ _ _ _ Hok Hd Ha H2), Hbi, Hai.
    apply same_refl.
  - destruct Ha as (Ha & Ha2 & Ha3 & _). specialize (H2 a Ha Ha2). lia.
  - destruct Hb as (Hb & Hb2 & Hb3 & _). specialize (H1 b Hb Hb2). lia.
  - destruct Hb as (Hb & Hb2 & Hb3 & _). specialize (H1 b Hb Hb2). lia.
Qed.

(** ** Examples: one day's answer replaced by a later one, and a bracket. *)

Definition ex_day (n : Z) : time := AddDays 0 n.

Definition ex_source (answer : uuid) (answered : time) (s : standing) : Source :=
  MkSource "eodhd" 1 answer answered (MkPeriod 0 0) s.

Definition ex_assertion (from before : Z) (i : option uuid) (s : Source) : Assertion :=
  MkAssertion (MkPeriod (ex_day from) (ex_day before)) i false false s (MkStated "" "").

(** An early answer over ten days with an edge, and a later one inside it. *)
Definition ex_answers : list Assertion :=
  [MkAssertion (MkPeriod (ex_day 10) (ex_day 20)) (Some 1%N) true false (ex_source 5 100 eventSource) (MkStated "" "");
   ex_assertion 12 14 (Some 2%N) (ex_source 6 200 eventSource)].

Lemma ex_answers_ok : assertions_ok ex_answers.
Proof. repeat constructor. Defined.

Definition ex_replaced : list Assertion * list Edge :=
  ([MkAssertion (MkPeriod (ex_day 10) (ex_day 12)) (Some 1%N) true false (ex_source 5 100 eventSource) (MkStated "" "");
    ex_assertion 14 20 (Some 1%N) (ex_source 5 100 eventSource);
    ex_assertion 12 14 (Some 2%N) (ex_source 6 200 eventSource)],
   [MkEdge (ex_day 10) (nth 0 ex_answers (ex_assertion 0 0 None (ex_source 0 0 other)))]).

Lemma current_reference_witness :
  current ex_answers = Some ex_replaced /\
  exists pieces kept, ex_replaced.1 = concat pieces /\ ex_replaced.2 = concat kept /\
    Forall2 (pieces_stand ex_answers) ex_answers pieces /\ Forall2 (edges_stand ex_answers) ex_answers kept.
Proof.
  split; [vm_compute; reflexivity |].
  apply (proj1 (proj2 (current_reference ex_answers ex_answers_ok) ex_replaced.1 ex_replaced.2)).
  vm_compute. reflexivity.
Defined.

(** Two attestations of one instrument on either side of day 15. *)
Definition ex_early : Assertion := ex_assertion 10 12 (Some 1%N) (ex_source 7 100 attested).
Definition ex_late : Assertion := ex_assertion 18 19 (Some 1%N) (ex_source 8 200 attested).
Definition ex_attested : list Assertion := [ex_early; ex_late].

Definition ex_edge : Edge := MkEdge (ex_day 15) (ex_assertion 15 16 (Some 2%N) (ex_source 5 50 eventSource)).

Lemma ex_attested_disjoint : attested_disjoint ex_attested.
Proof.
  intros x y d Hx Hy _ _ H1%Contains_spec H2%Contains_spec. unfold ex_attested in Hx, Hy.
  rewrite elem_of_cons, list_elem_of_singleton in Hx, Hy. pose proof day_len_pos.
  destruct Hx as [->| ->], Hy as [->| ->]; try done; exfalso; simpl in H1, H2; unfold ex_day, AddDays in *; lia.
Defined.

Lemma overruled_spec_witness :
  overruled ex_edge ex_attested = true /\
  exists i b a, last_before ex_attested (e_At ex_edge) b /\ first_after ex_attested (e_At ex_edge) a /\
    as_Instr b = Some i /\ as_Instr a = Some i.
Proof.
  split; [vm_compute; reflexivity |].
  apply (proj1 (overruled_spec ex_edge ex_attested ltac:(repeat constructor) ex_attested_disjoint)).
  vm_compute. reflexivity.
Defined.
