(* ===== verification/Winners.v ===== *)
(** The winner of each day, [winners] of
    [server/internal/identity/tickervalidity/derive.go]: which of the
    assertions that hold a day names its instrument, and the disagreements
    among the datasources. *)
From S2P Require Import Prelude Period Facts.

(** * Definitions *)

Record winner : Type := MkWinner {
  w_from : time;
  w_before : time;
  w_instr : option uuid;
  w_assertion : Assertion;
}.

Record Disagreement : Type := MkDisagreement {
  dg_Period : Period;
  dg_Winner : Assertion;
  dg_Loser : Assertion;
}.

Definition w_period (w : winner) : Period := MkPeriod (w_from w) (w_before w).

(** [slices.SortFunc] and [slices.CompactFunc] of instants. *)
Definition sorted_times (l : list time) : list time := compact_func Z.eqb (sort_func Z.compare l).

Definition cuts (es : list Edge) : list time := sorted_times (map e_At es).

(** The first loop: the day each datasource first asserts the ticker, and the
    first day any source does. *)
Definition first_step (st : gmap string time * option time) (a : Assertion) : gmap string time * option time :=
  match as_Instr a with
  | None => st
  | Some _ =>
      let from := p_From (as_Period a) in
      let earliest := match st.2 with None => Some from | Some e => Some e end in
      if src_attested (as_Source a) then (st.1, earliest)
      else (match st.1 !! src_Datasource (as_Source a) with
            | None => <[src_Datasource (as_Source a) := from]> st.1
            | Some _ => st.1
            end, earliest)
  end.

(** The closure [counts]. *)
Definition counts (first : gmap string time) (earliest : option time) (a : Assertion) : bool :=
  match as_Instr a with
  | Some _ => true
  | None =>
      let on := if src_attested (as_Source a) then earliest else first !! src_Datasource (as_Source a) in
      match on with Some on => on <? p_From (as_Period a) | None => false end
  end.

(** [slices.Clone] and [slices.SortStableFunc]. *)
Definition by_first_day (l : list Assertion) : list Assertion :=
  sort_func (cmp_on (fun a => p_From (as_Period a)) Z.compare) l.

(** The slice [counted]: indices, each with its assertion. *)
Definition counted (l : list Assertion) : list (nat * Assertion) :=
  let '(first, earliest) := foldl first_step (∅, None) l in
  List.filter (fun ia => counts first earliest ia.2) (imap pair l).

Definition win_bounds (cs : list (nat * Assertion)) (es : list Edge) : list time :=
  sorted_times (concat (map (fun ia => [p_From (as_Period ia.2); p_Before (as_Period ia.2)]) cs) ++ map e_At es).

Definition best_step (from : time) (best : option (nat * Assertion)) (ia : nat * Assertion) : option (nat * Assertion) :=
  if holds ia.2 from then
    match best with
    | None => Some ia
    | Some ib => if better ia.2 ib.2 then Some ia else best
    end
  else best.

(** The slices [out] and [won], the last element first, and the slices
    [disagreements] and [lost]. *)
Record win_state : Type := MkWin {
  ws_out : list (winner * nat);
  ws_lost : list (Disagreement * (nat * nat));
}.

Definition win_append (cut : time -> bool) (from before : time) (best : nat * Assertion)
    (out : list (winner * nat)) : list (winner * nat) :=
  let fresh := (MkWinner from before (as_Instr best.2) best.2, best.1) :: out in
  match out with
  | [] => fresh
  | (w, i) :: out' =>
      if bool_decide (i = best.1) && (w_before w =? from) && negb (cut from)
      then (MkWinner (w_from w) before (w_instr w) (w_assertion w), i) :: out'
      else fresh
  end.

Definition lose_step (from before : time) (best : nat * Assertion)
    (lost : list (Disagreement * (nat * nat))) (ia : nat * Assertion) : list (Disagreement * (nat * nat)) :=
  if src_attested (as_Source ia.2) || same (as_Instr ia.2) (as_Instr best.2) then lost
  else
    let pr := (best.1, ia.1) in
    let fresh := lost ++ [(MkDisagreement (MkPeriod from before) best.2 ia.2, pr)] in
    match index_func (fun e => bool_decide (e.2 = pr)) lost with
    | None => fresh
    | Some j =>
        match lost !! j with
        | Some (g, _) =>
            if p_Before (dg_Period g) =? from
            then <[j := (MkDisagreement (MkPeriod (p_From (dg_Period g)) before) (dg_Winner g) (dg_Loser g), pr)]> lost
            else fresh
        | None => fresh
        end
    end.

(** One turn of the loop over the bounds. *)
Definition win_step (cs : list (nat * Assertion)) (cut : time -> bool) (st : win_state) (from before : time) : win_state :=
  let day := List.filter (fun ia => holds ia.2 from) cs in
  match foldl (best_step from) None cs with
  | None => st
  | Some best =>
      MkWin (win_append cut from before best (ws_out st))
        (if src_attested (as_Source best.2) then ws_lost st
         else foldl (lose_step from before best) (ws_lost st) day)
  end.

Fixpoint win_loop (cs : list (nat * Assertion)) (cut : time -> bool) (st : win_state) (bounds : list time) : win_state :=
  match bounds with
  | from :: (before :: _) as rest => win_loop cs cut (win_step cs cut st from before) rest
  | _ => st
  end.

Definition winners (l : list Assertion) (es : list Edge) : list winner * list Disagreement :=
  let cs := counted (by_first_day l) in
  let cut d := existsb (fun e => e_At e =? d) es in
  let st := win_loop cs cut (MkWin [] []) (win_bounds cs es) in
  (rev (map fst (ws_out st)), map fst (ws_lost st)).

(** * The specification *)

(** A negative assertion counts when its datasource named an instrument on an
    earlier day, and an administrator's when any source did. *)
Definition counting (l : list Assertion) (a : Assertion) : Prop :=
  a ∈ l /\
  match as_Instr a with
  | Some _ => True
  | None =>
      exists b, b ∈ l /\ as_Instr b <> None /\ p_From (as_Period b) < p_From (as_Period a) /\
        (src_attested (as_Source a) = true \/
         src_attested (as_Source b) = false /\ src_Datasource (as_Source b) = src_Datasource (as_Source a))
  end.

(** [a] wins the day [d]: it counts there, and no assertion that counts there
    is better. *)
Definition wins (l : list Assertion) (d : time) (a : Assertion) : Prop :=
  counting l a /\ holds a d = true /\
  forall b, counting l b -> holds b d = true -> better b a = false.

Definition w_holds (w : winner) (d : time) : bool := Contains (w_period w) d.

(** * Sorted instants *)

Lemma compact_after_elem_eq x y l :
  y ∈ x :: compact_after Z.eqb x l <-> y ∈ x :: l.
Proof.
  revert x. induction l as [|z l IH]; intros x; simpl; [done |].
  destruct (Z.eqb_spec x z) as [->|Hne].
  - rewrite IH. rewrite !elem_of_cons. tauto.
  - rewrite elem_of_cons, IH, !elem_of_cons. tauto.
Qed.

Lemma elem_of_sorted_times l x : x ∈ sorted_times l <-> x ∈ l.
Proof.
  unfold sorted_times. rewrite <- (elem_of_sort_func Z.compare x l).
  destruct (sort_func Z.compare l); [done |]. apply compact_after_elem_eq.
Qed.

Lemma compact_after_sorted x l :
  StronglySorted (cmp_le Z.compare) (x :: l) -> StronglySorted Z.lt (x :: compact_after Z.eqb x l).
Proof.
  revert x. induction l as [|z l IH]; intros x Hs; simpl; [repeat constructor |].
  inversion_clear Hs as [|? ? Hs' Hf]. pose proof Hf as Hf'. apply Forall_cons in Hf' as [Hxz _]. unfold cmp_le in Hxz.
  rewrite Z.compare_le_iff in Hxz. destruct (Z.eqb_spec x z) as [->|Hne].
  - apply IH. done.
  - constructor; [by apply IH |]. apply Forall_forall. intros y Hy. apply (proj1 (compact_after_elem_eq z y l)) in Hy.
    inversion_clear Hs' as [|? ? _ Hz]. apply elem_of_cons in Hy as [->|Hy]; [lia |].
    rewrite Forall_forall in Hz. specialize (Hz y Hy). unfold cmp_le in Hz. rewrite Z.compare_le_iff in Hz. lia.
Qed.

Lemma sorted_times_sorted l : StronglySorted Z.lt (sorted_times l).
Proof.
  unfold sorted_times. pose proof (sort_func_sorted Z.compare l) as H.
  destruct (sort_func Z.compare l); [constructor | by apply compact_after_sorted].
Qed.

Lemma cuts_spec es x : x ∈ cuts es <-> exists e, e ∈ es /\ e_At e = x.
Proof. unfold cuts. rewrite elem_of_sorted_times, list_elem_of_fmap. naive_solver. Qed.

(** * Which assertions count *)

Abbreviation by_first := (cmp_on (fun a => p_From (as_Period a)) Z.compare).

(** [on] is the first day of the assertions that satisfy [P]. *)
Definition first_day (P : Assertion -> Prop) (l : list Assertion) (on : option time) : Prop :=
  match on with
  | Some d => (exists b, b ∈ l /\ P b /\ p_From (as_Period b) = d) /\
              forall b, b ∈ l -> P b -> d <= p_From (as_Period b)
  | None => forall b, b ∈ l -> ~ P b
  end.

Lemma first_day_snoc (P : Assertion -> Prop) l x on :
  (forall b, b ∈ l -> p_From (as_Period b) <= p_From (as_Period x)) ->
  first_day P l on -> P x ->
  first_day P (l ++ [x]) (match on with None => Some (p_From (as_Period x)) | Some d => Some d end).
Proof.
  intros Hle Hon HP. unfold first_day in *.
  destruct on as [d|]; setoid_rewrite elem_of_app; setoid_rewrite list_elem_of_singleton; split.
  - destruct Hon as [(b & Hb & HPb & <-) _]. eauto.
  - destruct Hon as [(b & Hb & HPb & <-) Hmin]. intros c [Hc| ->] HPc; [by apply Hmin | by apply Hle].
  - exists x. auto.
  - intros c [Hc| ->] HPc; [exfalso; by eapply Hon | done].
Qed.

Lemma first_day_skip (P : Assertion -> Prop) l x on : first_day P l on -> ~ P x -> first_day P (l ++ [x]) on.
Proof.
  intros Hon HP. unfold first_day in *.
  destruct on as [d|]; setoid_rewrite elem_of_app; setoid_rewrite list_elem_of_singleton; [destruct Hon as [(b & ? & ? & ?) ?]; split; [by eauto 6 |] |];
    intros c [Hc| ->] HPc; try contradiction; [auto | by eapply Hon].
Qed.

Definition positive (a : Assertion) : Prop := as_Instr a <> None.

Definition positive_from (ds : string) (a : Assertion) : Prop :=
  positive a /\ src_attested (as_Source a) = false /\ src_Datasource (as_Source a) = ds.

Lemma first_fold_spec l :
  StronglySorted (cmp_le by_first) l ->
  let st := foldl first_step (∅, None) l in
  first_day positive l st.2 /\ forall ds, first_day (positive_from ds) l (st.1 !! ds).
Proof.
  induction l as [|x l IH] using rev_ind; intros Hs; simpl.
  { split; [by intros ? []%not_elem_of_nil |]. intros ds. rewrite lookup_empty. by intros ? []%not_elem_of_nil. }
  rewrite foldl_app. simpl. destruct (IH (StronglySorted_app_1_l _ _ _ Hs)) as [H1 H2].
  assert (forall b, b ∈ l -> p_From (as_Period b) <= p_From (as_Period x)) as Hle.
  { intros b Hb. pose proof (StronglySorted_app_1_elem_of _ _ _ _ _ Hs Hb ltac:(left)) as Hbx.
    unfold cmp_le, cmp_on in Hbx. by rewrite Z.compare_le_iff in Hbx. }
  destruct (foldl first_step (∅, None) l) as [m e]. cbn [fst snd] in *. unfold first_step. cbn [fst snd].
  destruct (as_Instr x) as [i|] eqn:Ei.
  2: { cbn [fst snd]. unfold positive_from, positive in *. split; [by apply first_day_skip; [| intros []] |].
       intros ds. apply first_day_skip; [done | by intros [[] _]]. }
  assert (positive x) as Hpos by (unfold positive; congruence).
  destruct (src_attested (as_Source x)) eqn:Ea; cbn [fst snd].
  - split; [by apply (first_day_snoc _ _ _ _ Hle H1) |]. intros ds. apply first_day_skip; [done |].
    intros (_ & E & _). congruence.
  - split; [by apply (first_day_snoc _ _ _ _ Hle H1) |]. intros ds.
    destruct (decide (src_Datasource (as_Source x) = ds)) as [<-|Hne].
    + assert (positive_from (src_Datasource (as_Source x)) x) as Hpf by done.
      pose proof (first_day_snoc _ _ _ _ Hle (H2 (src_Datasource (as_Source x))) Hpf) as H.
      destruct (m !! src_Datasource (as_Source x)) eqn:E; [by rewrite E | by rewrite lookup_insert_eq].
    + replace (match m !! _ with Some _ => m | None => _ end !! ds) with (m !! ds).
      * apply first_day_skip; [done |]. intros (_ & _ & E). congruence.
      * case_match; [done |]. by rewrite lookup_insert_ne.
Qed.

Lemma counts_spec l first earliest a :
  first_day positive l earliest -> (forall ds, first_day (positive_from ds) l (first !! ds)) -> a ∈ l ->
  counts first earliest a = true <-> counting l a.
Proof.
  intros H1 H2 Ha. unfold counts, counting. destruct (as_Instr a); [naive_solver |].
  assert (forall P on, first_day P l on ->
    match on with Some d => d <? p_From (as_Period a) | None => false end = true <->
    exists b, b ∈ l /\ P b /\ p_From (as_Period b) < p_From (as_Period a)) as Hon.
  { intros P [d|]; simpl; [| naive_solver]. intros [(b & Hb & HP & <-) Hmin]. rewrite Z.ltb_lt. split; [eauto |].
    intros (c & Hc & HPc & Hlt). specialize (Hmin c Hc HPc). lia. }
  destruct (src_attested (as_Source a)).
  - rewrite (Hon positive) by done. unfold positive. split; [intros (b & ? & ? & ?) | intros (_ & b & ? & ? & ? & _)]; eauto 9.
  - rewrite (Hon (positive_from (src_Datasource (as_Source a)))) by done. unfold positive_from, positive. split.
    + intros (b & ? & (? & ? & ?) & ?). split; [done |]. exists b. auto 8.
    + intros (_ & b & ? & ? & ? & [?|[? ?]]); [done |]. exists b. auto.
Qed.

Lemma elem_of_counted l i a :
  StronglySorted (cmp_le by_first) l -> (i, a) ∈ counted l <-> l !! i = Some a /\ counting l a.
Proof.
  intros Hs. unfold counted. destruct (first_fold_spec l Hs) as [H1 H2].
  destruct (foldl first_step (∅, None) l) as [m e]. cbn [fst snd] in *. rewrite elem_of_lfilter, elem_of_imap_pair.
  split; intros [Hi Hc]; (split; [done |]); eapply (counts_spec l m e); try done; by eapply list_elem_of_lookup_2.
Qed.

Lemma counting_perm l k a : l ≡ₚ k -> counting l a -> counting k a.
Proof.
  intros Hp [Ha H]. split; [by rewrite <- Hp |]. destruct (as_Instr a); [done |].
  destruct H as (b & Hb & H). exists b. by rewrite <- Hp.
Qed.

(** * The loop over the bounds *)

(** The assertion the inner loop picks on the day [d]. *)
Definition best_of (cs : list (nat * Assertion)) (d : time) : option (nat * Assertion) :=
  foldl (best_step d) None cs.

Lemma best_of_spec cs d :
  match best_of cs d with
  | Some ia => ia ∈ cs /\ holds ia.2 d = true /\
      forall ib, ib ∈ cs -> holds ib.2 d = true -> better ib.2 ia.2 = false
  | None => forall ib, ib ∈ cs -> holds ib.2 d = false
  end.
Proof.
  unfold best_of. induction cs as [|x cs IH] using rev_ind; [by intros ? []%not_elem_of_nil |].
  rewrite foldl_app. simpl. unfold best_step at 1. destruct (holds x.2 d) eqn:Ex.
  - destruct (foldl (best_step d) None cs) as [ia|].
    + destruct IH as (H1 & H2 & H3). destruct (better x.2 ia.2) eqn:Eb.
      * split; [apply elem_of_app; right; left |]. split; [done |].
        intros ib [Hib|Hib%list_elem_of_singleton]%elem_of_app Hd.
        -- apply better_false. specialize (H3 ib Hib Hd). apply better_false in H3. apply better_best in Eb.
           intros E. apply H3. apply (cmp_lt_trans best_cmp _ x.2); [done | congruence].
        -- subst. apply better_false. by rewrite (cmp_refl best_cmp).
      * split; [apply elem_of_app; by left |]. split; [done |].
        intros ib [Hib|Hib%list_elem_of_singleton]%elem_of_app Hd; [by apply H3 | by subst].
    + split; [apply elem_of_app; right; left |]. split; [done |].
      intros ib [Hib|Hib%list_elem_of_singleton]%elem_of_app Hd; [by rewrite IH in Hd |].
      subst. apply better_false. by rewrite (cmp_refl best_cmp).
  - destruct (foldl (best_step d) None cs) as [ia|].
    + destruct IH as (H1 & H2 & H3). split; [apply elem_of_app; by left |]. split; [done |].
      intros ib [Hib|Hib%list_elem_of_singleton]%elem_of_app Hd; [by apply H3 | congruence].
    + intros ib [Hib|Hib%list_elem_of_singleton]%elem_of_app; [by apply IH | by subst].
Qed.

Lemma best_of_ext cs d e : (forall ia, ia ∈ cs -> holds ia.2 d = holds ia.2 e) -> best_of cs d = best_of cs e.
Proof.
  unfold best_of. generalize (@None (nat * Assertion)). induction cs as [|x cs IH]; intros o H; [done |].
  simpl. unfold best_step at 2 4. rewrite (H x) by left. apply IH. intros ia Hia. apply H. by right.
Qed.

Definition won_by (out : list (winner * nat)) (i : nat) (d : time) : Prop :=
  exists w, (w, i) ∈ out /\ w_holds w d = true.

Definition lost_at (lost : list (Disagreement * (nat * nat))) (pr : nat * nat) (d : time) : Prop :=
  exists g, (g, pr) ∈ lost /\ Contains (dg_Period g) d = true.

(** The loser [ib] of a day that [ia] won. *)
Definition disagrees (ia ib : nat * Assertion) : Prop :=
  src_attested (as_Source ia.2) = false /\ src_attested (as_Source ib.2) = false /\
  as_Instr ib.2 <> as_Instr ia.2.

Definition w_ok (cs : list (nat * Assertion)) (cut : time -> bool) (hi : time) (wi : winner * nat) : Prop :=
  let w := wi.1 in
  w_from w < w_before w /\ w_before w <= hi /\
  (wi.2, w_assertion w) ∈ cs /\ w_instr w = as_Instr (w_assertion w) /\
  forall c, cut c = true -> ~ w_from w < c < w_before w.

Definition lost_ok (cs : list (nat * Assertion)) (e : Disagreement * (nat * nat)) : Prop :=
  let '(g, (i, j)) := e in
  p_nonempty (dg_Period g) /\ (i, dg_Winner g) ∈ cs /\ (j, dg_Loser g) ∈ cs.

(** The slices after the runs before the day [hi]. *)
Record win_inv (cs : list (nat * Assertion)) (cut : time -> bool) (hi : time) (st : win_state) : Prop := {
  wi_won i d : won_by (ws_out st) i d <-> d < hi /\ exists a, best_of cs d = Some (i, a);
  wi_lost i j d : lost_at (ws_lost st) (i, j) d <->
    d < hi /\ exists a b, best_of cs d = Some (i, a) /\ (j, b) ∈ cs /\ holds b d = true /\ disagrees (i, a) (j, b);
  wi_ok : Forall (w_ok cs cut hi) (ws_out st);
  wi_sorted : StronglySorted (fun w v => w_before v.1 <= w_from w.1) (ws_out st);
  wi_lost_ok : Forall (lost_ok cs) (ws_lost st);
}.

Lemma win_append_won cut from before best out i d :
  from < before -> (forall w, (w, best.1) ∈ out -> w_from w < w_before w) ->
  won_by (win_append cut from before best out) i d <-> won_by out i d \/ i = best.1 /\ from <= d < before.
Proof.
  intros Hlt Hne. unfold win_append.
  set (fresh := (MkWinner from before (as_Instr best.2) best.2, best.1)).
  assert (won_by (fresh :: out) i d <-> won_by out i d \/ i = best.1 /\ from <= d < before) as Hfresh.
  { unfold won_by. setoid_rewrite elem_of_cons. unfold w_holds. setoid_rewrite Contains_spec. split.
    - intros (w & [[= -> ->]|Hw] & Hd); [right | left]; eauto.
    - intros [(w & Hw & Hd)|[-> Hd]]; [by eauto |]. eexists. split; [by left | done]. }
  destruct out as [|[w k] out]; [done |].
  destruct (bool_decide (k = best.1) && (w_before w =? from) && negb (cut from)) eqn:E; [| done].
  rewrite !andb_true_iff, bool_decide_eq_true, Z.eqb_eq in E. destruct E as [[-> <-] _].
  specialize (Hne w ltac:(left)).
  unfold won_by. setoid_rewrite elem_of_cons. unfold w_holds. setoid_rewrite Contains_spec. split.
  - intros (v & [[= -> ->]|Hv] & Hd); [| left; by eauto]. simpl in Hd.
    destruct (Z.lt_ge_cases d (w_before w)); [left; exists w; simpl; split; [by left | lia] | right; split; [done | lia]].
  - intros [(v & [[= -> ->]|Hv] & Hd)|[-> Hd]].
    + eexists. split; [by left | simpl in *; lia].
    + eauto.
    + eexists. split; [by left | simpl in *; lia].
Qed.

Lemma win_append_ok cs cut from before best out :
  from < before -> (forall c, cut c = true -> ~ from < c < before) ->
  (forall i a b, (i, a) ∈ cs -> (i, b) ∈ cs -> a = b) -> best ∈ cs ->
  Forall (w_ok cs cut from) out -> StronglySorted (fun w v => w_before v.1 <= w_from w.1) out ->
  Forall (w_ok cs cut before) (win_append cut from before best out) /\
  StronglySorted (fun w v => w_before v.1 <= w_from w.1) (win_append cut from before best out).
Proof.
  intros Hlt Hcut Hidx Hbest Hok Hs. destruct best as [k b]. unfold win_append. simpl.
  assert (Forall (w_ok cs cut before) out) as Hok'.
  { eapply Forall_impl; [exact Hok |]. unfold w_ok. intros ? (? & ? & ?). repeat split; [done | lia | tauto ..]. }
  assert (Forall (w_ok cs cut before) ((MkWinner from before (as_Instr b) b, k) :: out) /\
    StronglySorted (fun w v => w_before v.1 <= w_from w.1) ((MkWinner from before (as_Instr b) b, k) :: out)) as Hfresh.
  { split; constructor; try done.
    eapply Forall_impl; [exact Hok |]. unfold w_ok. simpl. lia. }
  destruct out as [|[w i] out]; [done |].
  destruct (bool_decide (i = k) && (w_before w =? from) && negb (cut from)) eqn:E; [| done].
  rewrite !andb_true_iff, bool_decide_eq_true, Z.eqb_eq, negb_true_iff in E. destruct E as [[-> Hw] Hncut].
  apply Forall_cons in Hok as [(H1 & H2 & H3 & H4 & H5) Hok]. apply Forall_cons in Hok' as [_ Hok'].
  inversion_clear Hs as [|? ? Hs' Hf]. simpl in *. split; constructor; try done.
  unfold w_ok. simpl. repeat split; try done; try lia.
  intros c Hc Hlt'. specialize (H5 c Hc). specialize (Hcut c Hc).
  assert (c = from) as -> by lia. congruence.
Qed.

Lemma lose_step_lost from before ia lost jb pr d :
  from < before -> (forall g p, (g, p) ∈ lost -> p_nonempty (dg_Period g)) ->
  lost_at (lose_step from before ia lost jb) pr d <->
  lost_at lost pr d \/ pr = (ia.1, jb.1) /\ src_attested (as_Source jb.2) = false /\
    as_Instr jb.2 <> as_Instr ia.2 /\ from <= d < before.
Proof.
  intros Hlt Hne. unfold lose_step.
  destruct (src_attested (as_Source jb.2)) eqn:Ea; simpl; [naive_solver |].
  destruct (same (as_Instr jb.2) (as_Instr ia.2)) eqn:Es; simpl.
  { apply same_spec in Es. naive_solver. }
  assert (as_Instr jb.2 <> as_Instr ia.2) as Hns by (intros E; apply same_spec in E; congruence).
  set (fresh := lost ++ [(MkDisagreement (MkPeriod from before) ia.2 jb.2, (ia.1, jb.1))]).
  assert (lost_at fresh pr d <-> lost_at lost pr d \/ pr = (ia.1, jb.1) /\ src_attested (as_Source jb.2) = false /\
    as_Instr jb.2 <> as_Instr ia.2 /\ from <= d < before) as Hfresh.
  { unfold lost_at, fresh. setoid_rewrite elem_of_app. setoid_rewrite list_elem_of_singleton.
    setoid_rewrite Contains_spec. split.
    - intros (g & [Hg|[= -> ->]] & Hd); [left; eauto | right; auto].
    - intros [(g & Hg & Hd)|(-> & _ & _ & Hd)]; [eauto |]. eexists. split; [by right | done]. }
  rewrite Ea in Hfresh. destruct (index_func _ lost) as [j|] eqn:Ej; [| done].
  apply index_func_Some in Ej as ([g p] & Hg & Hp & _). apply bool_decide_eq_true in Hp. simpl in Hp. subst p.
  rewrite Hg. destruct (Z.eqb_spec (p_Before (dg_Period g)) from) as [E|]; [| done].
  clear Hfresh fresh. pose proof (Hne g _ (list_elem_of_lookup_2 _ _ _ Hg)) as Hgne. unfold p_nonempty in Hgne.
  unfold lost_at. setoid_rewrite Contains_spec. split.
  - intros (h & Hh & Hd). apply list_elem_of_lookup in Hh as [k Hk].
    destruct (decide (k = j)) as [->|Hkj].
    + rewrite list_lookup_insert_eq in Hk by (by eapply lookup_lt_Some). simplify_eq. simpl in Hd.
      destruct (Z.lt_ge_cases d (p_Before (dg_Period g))); [left | right; repeat split; [done | done | lia..]].
      exists g. split; [by eapply list_elem_of_lookup_2 | lia].
    + rewrite list_lookup_insert_ne in Hk by done. left. exists h. split; [by eapply list_elem_of_lookup_2 | done].
  - intros [(h & Hh & Hd)|(-> & _ & _ & Hd)].
    + apply list_elem_of_lookup in Hh as [k Hk]. destruct (decide (k = j)) as [->|Hkj].
      * rewrite Hg in Hk. simplify_eq. eexists. split.
        -- apply (list_elem_of_lookup_2 _ j). apply list_lookup_insert_eq. by eapply lookup_lt_Some.
        -- simpl. lia.
      * exists h. split; [| done]. apply (list_elem_of_lookup_2 _ k). by rewrite list_lookup_insert_ne.
    + eexists. split.
      * apply (list_elem_of_lookup_2 _ j). apply list_lookup_insert_eq. by eapply lookup_lt_Some.
      * simpl. lia.
Qed.

Lemma lose_step_ok cs from before ia lost jb :
  from < before -> ia ∈ cs -> jb ∈ cs -> Forall (lost_ok cs) lost ->
  Forall (lost_ok cs) (lose_step from before ia lost jb).
Proof.
  intros Hlt Hia Hjb Hok. unfold lose_step. destruct (_ || _); [done |].
  assert (Forall (lost_ok cs) (lost ++ [(MkDisagreement (MkPeriod from before) ia.2 jb.2, (ia.1, jb.1))])) as Hfresh.
  { apply Forall_app. split; [done |]. apply Forall_singleton. destruct ia, jb. repeat split; done. }
  destruct (index_func _ lost) as [j|] eqn:Ej; [| done].
  destruct (lost !! j) as [[g p]|] eqn:Eg; [| done].
  destruct (Z.eqb_spec (p_Before (dg_Period g)) from) as [E|]; [| done].
  apply index_func_Some in Ej as (x & Hx & Hp & _). apply bool_decide_eq_true in Hp.
  rewrite Eg in Hx. simplify_eq. simpl in Hp. subst p.
  pose proof (Forall_lookup_1 _ _ _ _ Hok Eg) as (H1 & H2 & H3). unfold p_nonempty in H1.
  apply Forall_insert; [done |]. repeat split; try done. unfold p_nonempty. simpl. lia.
Qed.

Lemma lose_fold from before ia cs day lost :
  from < before -> ia ∈ cs -> (forall jb, jb ∈ day -> jb ∈ cs) -> Forall (lost_ok cs) lost ->
  let lost' := foldl (lose_step from before ia) lost day in
  Forall (lost_ok cs) lost' /\
  forall pr d, lost_at lost' pr d <->
    lost_at lost pr d \/ exists jb, jb ∈ day /\ pr = (ia.1, jb.1) /\ src_attested (as_Source jb.2) = false /\
      as_Instr jb.2 <> as_Instr ia.2 /\ from <= d < before.
Proof.
  intros Hlt Hia. revert lost. induction day as [|jb day IH]; intros lost Hday Hok; simpl.
  { split; [done |]. intros pr d. split; [auto |]. by intros [?|(? & []%not_elem_of_nil & _)]. }
  destruct (IH (lose_step from before ia lost jb)) as [H1 H2].
  - intros kc Hkc. apply Hday. by right.
  - apply lose_step_ok; try done. apply Hday. left.
  - split; [done |]. intros pr d. rewrite H2, lose_step_lost; [| done |].
    + setoid_rewrite elem_of_cons. naive_solver.
    + intros g [i j] Hg. rewrite Forall_forall in Hok. by destruct (Hok _ Hg).
Qed.

(** One turn of the loop, over a run of days that no bound divides. *)
Lemma win_step_inv cs cut st from before :
  from < before -> (forall ia d, ia ∈ cs -> from <= d < before -> holds ia.2 d = holds ia.2 from) ->
  (forall c, cut c = true -> ~ from < c < before) ->
  (forall i a b, (i, a) ∈ cs -> (i, b) ∈ cs -> a = b) ->
  win_inv cs cut from st -> win_inv cs cut before (win_step cs cut st from before).
Proof.
  intros Hlt Hconst Hcut Hidx [I1 I2 I3 I4 I5].
  assert (forall d, from <= d < before -> best_of cs d = best_of cs from) as Hbest.
  { intros d Hd. apply best_of_ext. intros ia Hia. by apply Hconst. }
  unfold win_step. fold (best_of cs from). pose proof (best_of_spec cs from) as Hspec.
  destruct (best_of cs from) as [ia|] eqn:Eb.
  2: { split; try done.
       - intros i d. rewrite I1. split; [intros [? ?]; split; [lia | done] |]. intros [Hd (a & Ha)].
         destruct (Z.lt_ge_cases d from); [by eauto |]. rewrite Hbest in Ha by lia. done.
       - intros i j d. rewrite I2. split; [intros [? ?]; split; [lia | done] |]. intros [Hd (a & b & Ha & ?)].
         destruct (Z.lt_ge_cases d from); [by eauto |]. rewrite Hbest in Ha by lia. done.
       - eapply Forall_impl; [exact I3 |]. unfold w_ok. intros ? (? & ? & ?). split; [done |]. split; [lia | done]. }
  destruct Hspec as (Hia & Hhold & Hmin).
  assert (forall w, (w, ia.1) ∈ ws_out st -> w_from w < w_before w) as Hne.
  { intros w Hw. rewrite Forall_forall in I3. by destruct (I3 _ Hw). }
  destruct (win_append_ok cs cut from before ia (ws_out st)) as [J3 J4]; try done.
  set (day := List.filter (fun ia => holds ia.2 from) cs).
  destruct (lose_fold from before ia cs day (ws_lost st)) as [J5 J2]; try done.
  { intros jb Hjb. by apply elem_of_lfilter in Hjb as [??]. }
  split; cbn [ws_out ws_lost]; try done.
  - intros i d. rewrite win_append_won, I1 by done. split.
    + intros [[Hd Ha]|[-> Hd]]; (split; [lia |]); [done |]. rewrite Hbest by done. exists ia.2. by destruct ia.
    + intros [Hd (a & Ha)]. destruct (Z.lt_ge_cases d from); [by eauto | right].
      rewrite Hbest in Ha by lia. injection Ha as ->. simpl. lia.
  - intros i j d.
    assert (from <= d < before -> lost_at (ws_lost st) (i, j) d -> False) as Hnot.
    { intros Hd Hl. apply I2 in Hl as [? _]. lia. }
    assert ((exists a b, best_of cs d = Some (i, a) /\ (j, b) ∈ cs /\ holds b d = true /\ disagrees (i, a) (j, b)) ->
      from <= d < before -> src_attested (as_Source ia.2) = false /\
      exists jb, jb ∈ day /\ (i, j) = (ia.1, jb.1) /\ src_attested (as_Source jb.2) = false /\ as_Instr jb.2 <> as_Instr ia.2)
      as Hfwd.
    { intros (a & b & Ha & Hjb & Hbd & Hdis) Hd. rewrite Hbest in Ha by done. injection Ha as ->.
      destruct Hdis as (D1 & D2 & D3). split; [done |]. exists (j, b). repeat split; try done.
      apply elem_of_lfilter. split; [done |]. rewrite <- Hbd. symmetry. by apply (Hconst (j, b)). }
    destruct (src_attested (as_Source ia.2)) eqn:Eatt.
    + rewrite I2. split; [intros [? ?]; split; [lia | done] |]. intros [Hd Hx].
      destruct (Z.lt_ge_cases d from); [by eauto |]. destruct (Hfwd Hx) as [? _]; [lia | done].
    + rewrite J2, I2. split.
      * intros [[Hd Hx]|(jb & Hjb & [= -> ->] & D1 & D2 & Hd)]; (split; [lia |]); [done |].
        apply elem_of_lfilter in Hjb as [Hjb Hjd]. exists ia.2, jb.2. rewrite Hbest by done.
        destruct ia as [i a], jb as [j b]. simpl in *. repeat split; try done.
        rewrite <- Hjd. by apply (Hconst (j, b)).
      * intros [Hd Hx]. destruct (Z.lt_ge_cases d from); [by eauto | right].
        destruct (Hfwd Hx) as [_ (jb & ? & ? & ? & ?)]; [lia |]. exists jb. repeat split; try done; lia.
  - by destruct (src_attested (as_Source ia.2)).
Qed.

Lemma win_loop_inv cs cut st from rest hi :
  StronglySorted Z.lt (from :: rest) -> List.last (from :: rest) 0 = hi ->
  (forall ia, ia ∈ cs -> p_nonempty (as_Period ia.2) /\
     forall x, x = p_From (as_Period ia.2) \/ x = p_Before (as_Period ia.2) -> x <= from \/ x ∈ rest) ->
  (forall c, cut c = true -> c <= from \/ c ∈ rest) ->
  (forall i a b, (i, a) ∈ cs -> (i, b) ∈ cs -> a = b) ->
  win_inv cs cut from st -> win_inv cs cut hi (win_loop cs cut st (from :: rest)).
Proof.
  revert st from. induction rest as [|before rest IH]; intros st from Hs Hhi Hcs Hcut Hidx Hinv; [by subst |].
  change (List.last (before :: rest) 0 = hi) in Hhi.
  change (win_inv cs cut hi (win_loop cs cut (win_step cs cut st from before) (before :: rest))).
  inversion_clear Hs as [|? ? Hs' Hf]. inversion Hs' as [|? ? _ Hf']; subst.
  rewrite Forall_forall in Hf, Hf'. pose proof (Hf before ltac:(left)) as Hlt.
  assert (forall x, x <= from \/ x ∈ before :: rest -> x <= from \/ before <= x) as Hsplit.
  { intros x [?|[->|Hx]%elem_of_cons]; [lia | lia |]. specialize (Hf' x Hx). lia. }
  assert (forall x, x <= from \/ x ∈ before :: rest -> x <= before \/ x ∈ rest) as Hnext.
  { intros x [?|[->|Hx]%elem_of_cons]; [left; lia | left; lia | by right]. }
  apply IH; try done.
  - intros ia Hia. destruct (Hcs ia Hia) as [? Hx]. split; [done |]. intros x Hx'. by apply Hnext, Hx.
  - intros c Hc. by apply Hnext, Hcut.
  - apply win_step_inv; try done.
    + intros ia d Hia Hd. destruct (Hcs ia Hia) as [_ Hx]. unfold holds, Contains.
      pose proof (Hsplit _ (Hx _ (or_introl eq_refl))). pose proof (Hsplit _ (Hx _ (or_intror eq_refl))). lia.
    + intros c Hc. specialize (Hsplit c (Hcut c Hc)). lia.
Qed.

(** The facts [winners] is about: nonempty assertions. *)
Lemma counted_bounds cs es ia x :
  ia ∈ cs -> x = p_From (as_Period ia.2) \/ x = p_Before (as_Period ia.2) -> x ∈ win_bounds cs es.
Proof.
  intros Hia Hx. unfold win_bounds. apply elem_of_sorted_times, elem_of_app. left.
  apply elem_of_concat_map. exists ia. split; [done |]. rewrite elem_of_cons, list_elem_of_singleton. done.
Qed.

Lemma last_max (l : list Z) from x : StronglySorted Z.lt (from :: l) -> x ∈ from :: l -> x <= List.last (from :: l) 0.
Proof.
  revert from x. induction l as [|y l IH]; intros from x Hs Hx.
  - apply list_elem_of_singleton in Hx as ->. simpl. lia.
  - change (x <= List.last (y :: l) 0). inversion_clear Hs as [|? ? Hs' Hf].
    apply elem_of_cons in Hx as [->|Hx]; [| by apply IH].
    rewrite Forall_forall in Hf. specialize (Hf y ltac:(left)). specialize (IH y y Hs' ltac:(left)). lia.
Qed.

Lemma counted_out cs es ia d from rest :
  win_bounds cs es = from :: rest -> ia ∈ cs -> holds ia.2 d = true ->
  from <= d < List.last (from :: rest) 0.
Proof.
  intros Hb Hia Hd. apply Contains_spec in Hd.
  pose proof (sorted_times_sorted (concat (map (fun ia => [p_From (as_Period ia.2); p_Before (as_Period ia.2)]) cs) ++ map e_At es)) as Hs.
  change (StronglySorted Z.lt (win_bounds cs es)) in Hs. rewrite Hb in Hs.
  pose proof (counted_bounds cs es ia _ Hia (or_introl eq_refl)) as H1.
  pose proof (counted_bounds cs es ia _ Hia (or_intror eq_refl)) as H2. rewrite Hb in H1, H2.
  pose proof (last_max _ _ _ Hs H2). inversion_clear Hs as [|? ? _ Hf]. rewrite Forall_forall in Hf.
  apply elem_of_cons in H1 as [E|H1]; [lia |]. specialize (Hf _ H1). lia.
Qed.

(** What the loop leaves, without its bound. *)
Record win_result (cs : list (nat * Assertion)) (cut : time -> bool) (st : win_state) : Prop := {
  wr_won i d : won_by (ws_out st) i d <-> exists a, best_of cs d = Some (i, a);
  wr_lost i j d : lost_at (ws_lost st) (i, j) d <->
    exists a b, best_of cs d = Some (i, a) /\ (j, b) ∈ cs /\ holds b d = true /\ disagrees (i, a) (j, b);
  wr_ok : Forall (fun wi => exists hi, w_ok cs cut hi wi) (ws_out st);
  wr_sorted : StronglySorted (fun w v => w_before v.1 <= w_from w.1) (ws_out st);
  wr_lost_ok : Forall (lost_ok cs) (ws_lost st);
}.

Lemma win_loop_result cs es :
  let cut d := existsb (fun e => e_At e =? d) es in
  (forall ia, ia ∈ cs -> p_nonempty (as_Period ia.2)) ->
  (forall i a b, (i, a) ∈ cs -> (i, b) ∈ cs -> a = b) ->
  win_result cs cut (win_loop cs cut (MkWin [] []) (win_bounds cs es)).
Proof.
  intros cut Hne Hidx. destruct (win_bounds cs es) as [|from rest] eqn:Eb.
  { assert (cs = []) as ->.
    { destruct cs as [|ia cs]; [done | exfalso].
      pose proof (counted_bounds (ia :: cs) es ia _ ltac:(left) (or_introl eq_refl)) as H. rewrite Eb in H.
      by apply not_elem_of_nil in H. }
    split; simpl; [intros i d | intros i j d | constructor ..];
      (split; [by intros (? & []%not_elem_of_nil & _) |]); [by intros [? [=]] | by intros (? & ? & [=] & _)]. }
  pose proof (sorted_times_sorted (concat (map (fun ia => [p_From (as_Period ia.2); p_Before (as_Period ia.2)]) cs) ++ map e_At es)) as Hs.
  change (StronglySorted Z.lt (win_bounds cs es)) in Hs. rewrite Eb in Hs.
  destruct (win_loop_inv cs cut (MkWin [] []) from rest _ Hs eq_refl) as [I1 I2 I3 I4 I5].
  - intros ia Hia. split; [by apply Hne |]. intros x Hx. pose proof (counted_bounds cs es ia x Hia Hx) as H. rewrite Eb in H.
    apply elem_of_cons in H as [->|H]; [left; lia | by right].
  - intros c (e & He & Hc%Z.eqb_eq)%existsb_elem.
    assert (c ∈ win_bounds cs es) as H.
    { unfold win_bounds. apply elem_of_sorted_times, elem_of_app. right. subst. by apply list_elem_of_fmap_2. }
    rewrite Eb in H. apply elem_of_cons in H as [->|H]; [left; lia | by right].
  - done.
  - assert (forall d, d < from -> best_of cs d = None) as Hnone.
    { intros d Hd. pose proof (best_of_spec cs d) as H. destruct (best_of cs d) as [ia|]; [| done].
      destruct H as (Hia & Hh & _). pose proof (counted_out cs es ia d from rest Eb Hia Hh). lia. }
    split; simpl; [intros i d | intros i j d | constructor ..];
      (split; [by intros (? & []%not_elem_of_nil & _) |]).
    + intros [Hd (a & Ha)]. rewrite Hnone in Ha by done. done.
    + intros [Hd (a & b & Ha & _)]. rewrite Hnone in Ha by done. done.
  - assert (forall d ia, best_of cs d = Some ia -> d < List.last (from :: rest) 0) as Hlt.
    { intros d ia H. pose proof (best_of_spec cs d) as Hb. rewrite H in Hb. destruct Hb as (Hia & Hh & _).
      pose proof (counted_out cs es ia d from rest Eb Hia Hh). lia. }
    split; try done.
    + intros i d. rewrite I1. split; [by intros [_ ?] |]. intros [a Ha]. eauto.
    + intros i j d. rewrite I2. split; [by intros [_ ?] |]. intros (a & b & Ha & ?). split; [by eapply Hlt | eauto].
    + eapply Forall_impl; [exact I3 |]. eauto.
Qed.

(** * What [winners] answers *)

(** Everything [winners] promises; the theorems below name its parts. *)
Record winners_post (l : list Assertion) (es : list Edge) (ws : list winner) (gs : list Disagreement) : Prop := {
  wp_sorted : StronglySorted (fun w v => w_before w <= w_from v) ws;
  wp_nonempty w : w ∈ ws -> w_from w < w_before w;
  wp_instr w : w ∈ ws -> w_instr w = as_Instr (w_assertion w);
  wp_cut w e : w ∈ ws -> e ∈ es -> ~ w_from w < e_At e < w_before w;
  wp_wins w d : w ∈ ws -> w_holds w d = true -> wins l d (w_assertion w);
  wp_won d a : counting l a -> holds a d = true -> exists w, w ∈ ws /\ w_holds w d = true;
  wp_disagree d a b : (exists g, g ∈ gs /\ dg_Winner g = a /\ dg_Loser g = b /\ Contains (dg_Period g) d = true) <->
    (exists w, w ∈ ws /\ w_assertion w = a /\ w_holds w d = true) /\ counting l b /\ holds b d = true /\
    src_attested (as_Source a) = false /\ src_attested (as_Source b) = false /\ as_Instr b <> as_Instr a;
  wp_disagree_days g : g ∈ gs -> p_nonempty (dg_Period g);
}.

Lemma counted_by_first l a :
  (exists i, (i, a) ∈ counted (by_first_day l)) <-> counting l a.
Proof.
  pose proof (sort_func_perm by_first l) as Hp. split.
  - intros [i Hi]. apply elem_of_counted in Hi as [_ Hc]; [| apply sort_func_sorted, _].
    by eapply counting_perm.
  - intros Hc. assert (a ∈ by_first_day l) as Ha by (unfold by_first_day; rewrite Hp; apply Hc).
    apply list_elem_of_lookup in Ha as [i Hi]. exists i. apply elem_of_counted; [apply sort_func_sorted, _ |].
    split; [done |]. eapply counting_perm; [symmetry; apply Hp | done].
Qed.

Section Result.
Context (l : list Assertion) (cut : time -> bool) (out : list (winner * nat)) (lost : list (Disagreement * (nat * nat))).

Abbreviation cs := (counted (by_first_day l)).

Hypothesis R : win_result cs cut (MkWin out lost).

Lemma counted_index i a b : (i, a) ∈ cs -> (i, b) ∈ cs -> a = b.
Proof.
  intros H1 H2. apply elem_of_counted in H1 as [H1 _], H2 as [H2 _]; try apply sort_func_sorted, _. congruence.
Qed.

Lemma elem_of_out w : w ∈ rev (map fst out) <-> exists i, (w, i) ∈ out.
Proof.
  rewrite <- Permutation_rev. change (map fst out) with (out.*1). rewrite list_elem_of_fmap. split.
  - intros ([v i] & -> & H). by exists i.
  - intros [i Hi]. by exists (w, i).
Qed.

Lemma out_ok w i : (w, i) ∈ out -> exists hi, w_ok cs cut hi (w, i).
Proof. intros Hw. pose proof (wr_ok _ _ _ R) as H. rewrite Forall_forall in H. by apply H. Qed.

Lemma out_best w i d : (w, i) ∈ out -> w_holds w d = true -> best_of cs d = Some (i, w_assertion w).
Proof.
  intros Hw Hd. destruct (proj1 (wr_won _ _ _ R i d)) as [a Ha]; [by exists w |]. rewrite Ha.
  pose proof (best_of_spec cs d) as Hs. rewrite Ha in Hs. destruct Hs as (Hia & _).
  destruct (out_ok w i Hw) as (hi & _ & _ & Hiw & _). simpl in Hiw. do 2 f_equal. by eapply counted_index.
Qed.

Lemma lost_best g i j d : (g, (i, j)) ∈ lost -> Contains (dg_Period g) d = true ->
  best_of cs d = Some (i, dg_Winner g) /\ (j, dg_Loser g) ∈ cs /\ holds (dg_Loser g) d = true /\
  disagrees (i, dg_Winner g) (j, dg_Loser g).
Proof.
  intros Hg Hd. destruct (proj1 (wr_lost _ _ _ R i j d)) as (a & b & H1 & H2 & H3 & H4); [by exists g |].
  pose proof (wr_lost_ok _ _ _ R) as H5. rewrite Forall_forall in H5. destruct (H5 _ Hg) as (_ & K1 & K2).
  pose proof (best_of_spec cs d) as Hs. rewrite H1 in Hs. destruct Hs as (Hia & _).
  rewrite (counted_index _ _ _ K1 Hia), (counted_index _ _ _ K2 H2). done.
Qed.

Lemma out_holds d i a : best_of cs d = Some (i, a) ->
  exists w, w ∈ rev (map fst out) /\ w_assertion w = a /\ w_holds w d = true.
Proof.
  intros Hb. destruct (proj2 (wr_won _ _ _ R i d)) as (w & Hw & Hd); [eauto |]. exists w.
  pose proof (out_best w i d Hw Hd) as Hb'. rewrite Hb in Hb'. injection Hb' as ->.
  split; [apply elem_of_out; eauto | done].
Qed.

Lemma out_disagree d a b :
  (exists g, g ∈ map fst lost /\ dg_Winner g = a /\ dg_Loser g = b /\ Contains (dg_Period g) d = true) <->
  (exists w, w ∈ rev (map fst out) /\ w_assertion w = a /\ w_holds w d = true) /\ counting l b /\ holds b d = true /\
  src_attested (as_Source a) = false /\ src_attested (as_Source b) = false /\ as_Instr b <> as_Instr a.
Proof.
  change (map fst lost) with (lost.*1). split.
  - intros (g & Hgs & <- & <- & Hd). apply list_elem_of_fmap in Hgs as ([h [i j]] & -> & Hgl). simpl in *.
    destruct (lost_best h i j d Hgl Hd) as (H1 & H2 & H3 & H4).
    split; [by eapply out_holds |]. split; [apply counted_by_first; eauto | done].
  - intros ((w & [i Hw]%elem_of_out & <- & Hd) & [j Hj]%counted_by_first & Hb & D1 & D2 & D3).
    pose proof (out_best w i d Hw Hd) as Hbo.
    destruct (proj2 (wr_lost _ _ _ R i j d)) as (g & Hgl & Hgd); [exists (w_assertion w), b; done |].
    destruct (lost_best g i j d Hgl Hgd) as (H1 & H2 & _).
    exists g. split; [apply list_elem_of_fmap; by exists (g, (i, j)) |].
    split; [congruence |]. split; [by eapply counted_index | done].
Qed.

End Result.

Lemma winners_meets l es ws gs :
  assertions_ok l -> winners l es = (ws, gs) -> winners_post l es ws gs.
Proof.
  intros Hok. unfold winners. set (cut := fun d => existsb (fun e => e_At e =? d) es).
  assert (win_result (counted (by_first_day l)) cut
    (win_loop (counted (by_first_day l)) cut (MkWin [] []) (win_bounds (counted (by_first_day l)) es))) as R.
  { apply win_loop_result; [| apply counted_index]. intros [i a] Hia.
    assert (counting l a) as [Ha _] by (apply counted_by_first; eauto).
    unfold assertions_ok in Hok. rewrite Forall_forall in Hok. by apply Hok. }
  destruct (win_loop _ cut _ _) as [out lost]. cbn [ws_out ws_lost]. intros [= <- <-].
  pose proof (elem_of_out out) as Hout. pose proof (out_ok l cut out lost R) as Hwok. split.
  - apply StronglySorted_rev. generalize (wr_sorted _ _ _ R). cbn [ws_out]. clear.
    induction 1 as [|[w i] out H IH Hf]; simpl; constructor; [done |].
    apply Forall_map. eapply Forall_impl; [exact Hf | done].
  - intros w [i Hw]%Hout. destruct (Hwok _ _ Hw) as (hi & H & _). done.
  - intros w [i Hw]%Hout. destruct (Hwok _ _ Hw) as (hi & _ & _ & _ & H & _). done.
  - intros w e [i Hw]%Hout He. destruct (Hwok _ _ Hw) as (hi & _ & _ & _ & _ & H). apply H.
    apply existsb_elem. exists e. split; [done |]. apply Z.eqb_refl.
  - intros w d [i Hw]%Hout Hd. pose proof (best_of_spec (counted (by_first_day l)) d) as Hs.
    rewrite (out_best _ _ _ _ R w i d Hw Hd) in Hs. destruct Hs as (Hia & Hh & Hmin).
    split; [apply counted_by_first; eauto |]. split; [done |].
    intros b [j Hj]%counted_by_first Hb. by apply (Hmin (j, b)).
  - intros d a [i Hi]%counted_by_first Ha. pose proof (best_of_spec (counted (by_first_day l)) d) as Hs.
    destruct (best_of _ d) as [[j b]|] eqn:E; [| pose proof (Hs (i, a) Hi); simpl in *; congruence].
    destruct (out_holds _ _ _ _ R d j b E) as (w & ? & _ & ?). eauto.
  - by apply out_disagree with cut.
  - intros g ([h ij] & -> & Hg)%list_elem_of_fmap. pose proof (wr_lost_ok _ _ _ R) as Hl. rewrite Forall_forall in Hl.
    specialize (Hl _ Hg). destruct ij. apply Hl.
Qed.

(** * Properties *)

(** The winners of a ticker are ordered, nonempty runs of days that share
    no day and cross no cut, and they hold exactly the days on which some
    assertion counts. *)
Theorem winners_partition l es ws gs :
  assertions_ok l -> winners l es = (ws, gs) ->
  StronglySorted precedes (map w_period ws) /\ Forall p_nonempty (map w_period ws) /\
  (forall w e, w ∈ ws -> e ∈ es -> ~ w_from w < e_At e < w_before w) /\
  (forall d, (exists w, w ∈ ws /\ w_holds w d = true) <-> exists a, counting l a /\ holds a d = true).
Proof.
  intros Hok Hw. destruct (winners_meets l es ws gs Hok Hw) as [H1 H2 H3 H4 H5 H6 _]. repeat split.
  - revert H1. clear. induction 1 as [|w ws H IH Hf]; simpl; constructor; [done |]. apply Forall_map. done.
  - apply Forall_map, Forall_forall. intros w. apply H2.
  - by apply H4.
  - intros (w & Hin & Hd). exists (w_assertion w). destruct (H5 w d Hin Hd) as (? & ? & _). done.
  - intros (a & Ha & Hd). by apply (H6 d a).
Qed.

(** On each day of a winner its assertion counts, names the winner's
    instrument, and no assertion that counts on the day is better: by standing,
    then precedence, then positive before negative, then the lower instrument. *)
Theorem winners_optimal l es ws gs w d :
  assertions_ok l -> winners l es = (ws, gs) -> w ∈ ws -> w_holds w d = true ->
  w_instr w = as_Instr (w_assertion w) /\ wins l d (w_assertion w).
Proof.
  intros Hok Hw Hin Hd. destruct (winners_meets l es ws gs Hok Hw). auto.
Qed.

(** Two assertions are reported to disagree on a day exactly when both are
    datasources' assertions, the first wins the day, and the second counts
    there and names something else. *)
Theorem disagreements_exact l es ws gs d a b :
  assertions_ok l -> winners l es = (ws, gs) ->
  (exists g, g ∈ gs /\ dg_Winner g = a /\ dg_Loser g = b /\ Contains (dg_Period g) d = true) <->
  (exists w, w ∈ ws /\ w_assertion w = a /\ w_holds w d = true) /\ counting l b /\ holds b d = true /\
  src_attested (as_Source a) = false /\ src_attested (as_Source b) = false /\ as_Instr b <> as_Instr a.
Proof. intros Hok Hw. by apply (wp_disagree _ _ _ _ (winners_meets l es ws gs Hok Hw)). Qed.

(** ** Examples: two datasources disagree over four days, and a negative
    assertion of the better one comes later. *)

Definition ex_better : Source := MkSource "eodhd" 1 11 100 (MkPeriod 0 0) other.
Definition ex_worse : Source := MkSource "massive" 2 12 100 (MkPeriod 0 0) other.

Definition ex_disputed : list Assertion :=
  [ex_assertion 10 16 (Some 1%N) ex_worse; ex_assertion 12 20 (Some 2%N) ex_better; ex_assertion 30 31 None ex_better].

Lemma ex_disputed_ok : assertions_ok ex_disputed.
Proof. repeat constructor. Defined.

Definition ex_winners : list winner :=
  [MkWinner (ex_day 10) (ex_day 12) (Some 1%N) (ex_assertion 10 16 (Some 1%N) ex_worse);
   MkWinner (ex_day 12) (ex_day 20) (Some 2%N) (ex_assertion 12 20 (Some 2%N) ex_better);
   MkWinner (ex_day 30) (ex_day 31) None (ex_assertion 30 31 None ex_better)].

Definition ex_disagreements : list Disagreement :=
  [MkDisagreement (MkPeriod (ex_day 12) (ex_day 16)) (ex_assertion 12 20 (Some 2%N) ex_better)
     (ex_assertion 10 16 (Some 1%N) ex_worse)].

Lemma ex_winners_run : winners ex_disputed [] = (ex_winners, ex_disagreements).
Proof. vm_compute. reflexivity. Defined.

Lemma winners_partition_witness :
  winners ex_disputed [] = (ex_winners, ex_disagreements) /\
  ((exists w, w ∈ ex_winners /\ w_holds w (ex_day 13) = true) <->
   exists a, counting ex_disputed a /\ holds a (ex_day 13) = true).
Proof.
  split; [apply ex_winners_run |].
  exact (proj2 (proj2 (proj2 (winners_partition ex_disputed [] ex_winners ex_disagreements ex_disputed_ok ex_winners_run))) (ex_day 13)).
Defined.

Lemma winners_optimal_witness :
  w_holds (MkWinner (ex_day 12) (ex_day 20) (Some 2%N) (ex_assertion 12 20 (Some 2%N) ex_better)) (ex_day 13) = true /\
  wins ex_disputed (ex_day 13) (ex_assertion 12 20 (Some 2%N) ex_better).
Proof.
  split; [vm_compute; reflexivity |].
  refine (proj2 (winners_optimal ex_disputed [] ex_winners ex_disagreements
    (MkWinner (ex_day 12) (ex_day 20) (Some 2%N) (ex_assertion 12 20 (Some 2%N) ex_better)) (ex_day 13)
    ex_disputed_ok ex_winners_run _ _)); [right; left | vm_compute; reflexivity].
Defined.

Lemma disagreements_exact_witness :
  (exists g, g ∈ ex_disagreements /\ dg_Winner g = ex_assertion 12 20 (Some 2%N) ex_better /\
     dg_Loser g = ex_assertion 10 16 (Some 1%N) ex_worse /\ Contains (dg_Period g) (ex_day 13) = true) /\
  (exists w, w ∈ ex_winners /\ w_assertion w = ex_assertion 12 20 (Some 2%N) ex_better /\ w_holds w (ex_day 13) = true).
Proof.
  assert (exists g, g ∈ ex_disagreements /\ dg_Winner g = ex_assertion 12 20 (Some 2%N) ex_better /\
     dg_Loser g = ex_assertion 10 16 (Some 1%N) ex_worse /\ Contains (dg_Period g) (ex_day 13) = true) as Hg.
  { eexists. split; [left |]. repeat split; vm_compute; reflexivity. }
  split; [exact Hg |].
  exact (proj1 (proj1 (disagreements_exact ex_disputed [] ex_winners ex_disagreements (ex_day 13) _ _
    ex_disputed_ok ex_winners_run) Hg)).
Defined.
