(* ===== verification/Derive.v ===== *)
(** The ticker validity one ticker's facts imply, [derive] of
    [server/internal/identity/tickervalidity/derive.go]: spans of winners, the
    intervals of each segment between two cuts, and the changes and conflicts
    the facts infer. *)
From S2P Require Import Prelude Period Facts Winners.

(** * Definitions *)

(** Consecutive winners that name one thing. *)
Record span : Type := MkSpan {
  s_instr : option uuid;
  s_from : time;
  s_before : time;
  s_head : Assertion;
  s_tail : Assertion;
}.

Record Inferred : Type := MkInferred {
  inf_Period : Period;
  inf_From : option uuid;
  inf_To : option uuid;
  inf_Earlier : Assertion;
  inf_Later : Assertion;
}.

Record MissedEvent : Type := MkMissedEvent {
  me_Inferred : Inferred;
  me_By : AssertionCoverage;
}.

Record BrokenBracket : Type := MkBrokenBracket {
  bb_Edge : Edge;
  bb_Instr : uuid;
  bb_First : time;
  bb_Last : time;
}.

Record Diagnosis : Type := MkDiagnosis {
  dx_Disagreements : list Disagreement;
  dx_Broken : list BrokenBracket;
  dx_Missed : list MissedEvent;
}.

Record derived : Type := MkDerived {
  dv_Diagnosis : Diagnosis;
  dv_Intervals : list Interval;
  dv_Inferred : list Inferred;
  dv_winners : list winner;
}.

(** One turn of the loop of [spans]; the slice [out], its last span first. *)
Definition spans_step (out : list span) (w : winner) : list span :=
  let fresh := MkSpan (w_instr w) (w_from w) (w_before w) (w_assertion w) (w_assertion w) :: out in
  match out with
  | [] => fresh
  | s :: out' =>
      if same (s_instr s) (w_instr w)
      then MkSpan (s_instr s) (s_from s) (w_before w) (s_head s) (w_assertion w) :: out'
      else fresh
  end.

Definition spans (ws : list winner) : list span := rev (foldl spans_step [] ws).

Definition forward (d : time) (limit : option time) (cover : list Period) : time :=
  let d := foldl (fun d p => if Contains p d then p_Before p else d) d cover in
  match limit with Some l => if l <? d then l else d | None => d end.

Definition back (d : time) (limit : option time) (cover : list Period) : time :=
  let d := foldl (fun d p => if Contains p (prev d) then p_From p else d) d (rev cover) in
  match limit with Some l => if d <? l then l else d | None => d end.

(** The intervals of the span [r], of the instrument [i], between [floor] and
    [ceil]. *)
Definition span_intervals (first : bool) (r : span) (i : uuid) (floor ceil : option time) (cover : list Period) :
    list Interval :=
  let from := back (s_from r) floor cover in
  let to := forward (s_before r) ceil cover in
  (if first && match floor with None => true | Some f => f <? from end
   then [MkInterval floor (Some from) i Provisional] else []) ++
  [MkInterval (Some from) (Some to) i Confirmed] ++
  (if match ceil with None => true | Some c => to <? c end
   then [MkInterval (Some to) ceil i Provisional] else []).

(** The loop of [segment]; [first] is [k == 0]. *)
Fixpoint segment_loop (first : bool) (floor : option time) (ss : list span) (stop : option time)
    (cover : list Period) : list Interval * list Inferred :=
  match ss with
  | [] => ([], [])
  | r :: ss' =>
      let ceil := match ss' with n :: _ => Some (s_from n) | [] => stop end in
      let '(ivs, floor) :=
        match s_instr r with
        | None => ([], Some (s_before r))
        | Some i => (span_intervals first r i floor ceil cover, ceil)
        end in
      let infs :=
        match ss' with
        | [] => []
        | n :: _ =>
            let took := match s_instr r with Some _ => forward (s_before r) ceil cover | None => s_before r end in
            [MkInferred (MkPeriod took (next (s_from n))) (s_instr r) (s_instr n) (s_tail r) (s_head n)]
        end in
      let '(ivs', infs') := segment_loop false floor ss' stop cover in
      (ivs ++ ivs', infs ++ infs')
  end.

Definition segment (ss : list span) (start stop : option time) (cover : list Period) : list Interval * list Inferred :=
  segment_loop true start ss stop cover.

(** One turn of the loop of [join]; the slice [out], its last interval first. *)
Definition join_step (out : list Interval) (iv : Interval) : list Interval :=
  match out with
  | [] => [iv]
  | p :: out' =>
      if bool_decide (iv_Instr p = iv_Instr iv) && bool_decide (iv_Validity p = iv_Validity iv)
         && match iv_Before p, iv_From iv with Some b, Some f => b =? f | _, _ => false end
      then MkInterval (iv_From p) (iv_Before iv) (iv_Instr p) (iv_Validity p) :: out'
      else iv :: out
  end.

Definition join_intervals (ivs : list Interval) : list Interval := rev (foldl join_step [] ivs).

Definition periods (rows : list AssertionCoverage) : list Period := map ac_Period rows.

Definition missed (inferred : list Inferred) (rows : list AssertionCoverage) (cover : list Period) : list MissedEvent :=
  concat (map (fun inf =>
    let held := existsb (fun p => negb (p_From (inf_Period inf) <? p_From p)
                                  && negb (p_Before p <? p_Before (inf_Period inf))) cover in
    match index_func (fun p => Contains (ac_Period p) (p_From (inf_Period inf))) rows with
    | Some i => if held then match rows !! i with Some r => [MkMissedEvent inf r] | None => [] end else []
    | None => []
    end) inferred).

Definition broken (ws : list winner) (es : list Edge) : list BrokenBracket :=
  concat (map (fun e =>
    match index_func (fun w => negb (w_from w <? e_At e)) ws with
    | Some (S i) =>
        match ws !! i, ws !! S i with
        | Some b, Some a =>
            match w_instr b with
            | Some x => if same (w_instr b) (w_instr a) then [MkBrokenBracket e x (prev (w_before b)) (w_from a)] else []
            | None => []
            end
        | _, _ => []
        end
    | _ => []
    end) es).

(** The loop that moves [i]: the winners that start before [stop], and the
    rest. *)
Fixpoint take_segment (stop : option time) (ws : list winner) : list winner * list winner :=
  match ws with
  | [] => ([], [])
  | w :: ws' =>
      if match stop with None => true | Some e => w_from w <? e end
      then let '(seg, rest) := take_segment stop ws' in (w :: seg, rest)
      else ([], ws)
  end.

(** The loop of [derive] over the segments that [bounds] separates. *)
Fixpoint derive_loop (bounds : list time) (start : option time) (ws : list winner) (cover : list Period) :
    list Interval * list Inferred :=
  let stop := match bounds with b :: _ => Some b | [] => None end in
  let '(seg, rest) := take_segment stop ws in
  let '(ivs, inf) := segment (spans seg) start stop cover in
  match bounds with
  | [] => (ivs, inf)
  | _ :: bounds' =>
      let '(ivs', inf') := derive_loop bounds' stop rest cover in (ivs ++ ivs', inf ++ inf')
  end.

Definition derive (f : facts) : option derived :=
  '(l, es) ← current (f_Assertions f);
  let '(ws, disagreements) := winners l es in
  let cover := Union (periods (f_AssertionCoverage f)) in
  let cutting := List.filter (fun e => negb (overruled e l)) es in
  let '(out, inferred) := derive_loop (cuts cutting) None ws cover in
  Some (MkDerived
    (MkDiagnosis disagreements (broken ws cutting) (missed inferred (f_AssertionCoverage f) cover))
    (join_intervals out) inferred ws).

(** * Extending through assertion coverage *)

Lemma forward_raw cover d :
  StronglySorted apart cover -> Forall p_nonempty cover ->
  let e := foldl (fun d p => if Contains p d then p_Before p else d) d cover in
  d <= e /\ (forall x, d <= x < e -> AnyContains cover x = true) /\ AnyContains cover e = false.
Proof.
  intros Hs. revert d. induction Hs as [|p cover Hs IH Hp]; intros d Hne; simpl; [split; [lia |]; split; [lia | done] |].
  apply Forall_cons in Hne as [Hpne Hne]. rewrite Forall_forall in Hp. unfold apart, p_nonempty in *.
  setoid_rewrite AnyContains_cons. destruct (Contains p d) eqn:E.
  - apply Contains_spec in E.
    assert (AnyContains cover (p_Before p) = false) as Hout.
    { apply existsb_false. intros q Hq. apply Contains_false. specialize (Hp q Hq). lia. }
    assert (foldl (fun d p => if Contains p d then p_Before p else d) (p_Before p) cover = p_Before p) as ->.
    { destruct (IH (p_Before p) Hne) as (H1 & H2 & _). apply Z.le_antisymm; [| done].
      destruct (Z.le_gt_cases (foldl (fun d p => if Contains p d then p_Before p else d) (p_Before p) cover) (p_Before p))
        as [|Hlt]; [done |]. rewrite (H2 (p_Before p)) in Hout by lia. done. }
    split; [lia |]. split.
    + intros x Hx. replace (Contains p x) with true by (symmetry; apply Contains_spec; lia). done.
    + rewrite Hout, orb_false_r. apply Contains_false. lia.
  - destruct (IH d Hne) as (H1 & H2 & H3). split; [done |]. split.
    + intros x Hx. by rewrite H2, orb_true_r.
    + rewrite H3, orb_false_r. set (e := foldl _ d cover) in *.
      destruct (Z.eq_dec d e) as [<-|Hde]; [done |].
      pose proof (H2 (e - 1) ltac:(lia)) as Hc. apply AnyContains_spec in Hc as (q & Hq & Hc).
      specialize (Hp q Hq). apply Contains_spec in Hc. apply Contains_false. lia.
Qed.

Lemma forward_spec cover d limit :
  StronglySorted apart cover -> Forall p_nonempty cover ->
  let e := forward d limit cover in
  (match limit with Some l => d <= l -> d <= e <= l | None => d <= e end) /\
  (forall x, d <= x < e -> AnyContains cover x = true) /\ (AnyContains cover e = false \/ limit = Some e).
Proof.
  intros Hs Hne. destruct (forward_raw cover d Hs Hne) as (H1 & H2 & H3). unfold forward.
  set (e := foldl _ d cover) in *. destruct limit as [l|]; [| auto].
  destruct (l <? e) eqn:E; (split; [lia |]); (split; [| auto]); intros x Hx; apply H2; lia.
Qed.

Lemma back_raw cover d :
  StronglySorted apart cover -> Forall p_nonempty cover -> Forall p_days cover ->
  let b := foldl (fun d p => if Contains p (prev d) then p_From p else d) d (rev cover) in
  b = d \/ exists p, p ∈ cover /\ Contains p (prev d) = true /\ p_From p = b.
Proof.
  induction 1 as [|p cover Hs IH Hp]; intros Hne Hday; simpl; [by left |].
  apply Forall_cons in Hne as [Hpne Hne]. apply Forall_cons in Hday as [[_ Hpd] Hday].
  rewrite foldl_app. simpl. destruct (IH Hne Hday) as [->|(q & Hq & Hc & <-)].
  - destruct (Contains p (prev d)) eqn:E; [right; exists p; split; [left | done] | by left].
  - replace (Contains p (prev (p_From q))) with false; [right; exists q; split; [by right | done] |].
    symmetry. apply Contains_false. rewrite Forall_forall in Hp, Hday. specialize (Hp q Hq). destruct (Hday q Hq) as [Hqd _].
    unfold apart in Hp. pose proof (Day_lt _ _ Hpd Hqd Hp). unfold prev, AddDays. lia.
Qed.

Lemma back_spec cover d limit :
  StronglySorted apart cover -> Forall p_nonempty cover -> Forall p_days cover ->
  let b := back d limit cover in
  (match limit with Some l => l <= d -> l <= b <= d | None => b <= d end) /\
  (forall n, 1 <= n -> b <= AddDays d (- n) -> AnyContains cover (AddDays d (- n)) = true).
Proof.
  intros Hs Hne Hday. pose proof day_len_pos.
  assert (let b := foldl (fun d p => if Contains p (prev d) then p_From p else d) d (rev cover) in
    b <= d /\ forall n, 1 <= n -> b <= AddDays d (- n) -> AnyContains cover (AddDays d (- n)) = true) as [H1 H2].
  { destruct (back_raw cover d Hs Hne Hday) as [->|(p & Hp & Hc & <-)]; simpl.
    - split; [lia |]. unfold AddDays. nia.
    - apply Contains_spec in Hc. unfold prev, AddDays in *. split; [lia |]. intros n Hn Hb.
      apply AnyContains_spec. exists p. split; [done |]. apply Contains_spec. nia. }
  unfold back. set (b := foldl _ d (rev cover)) in *. destruct limit as [l|]; [| done].
  destruct (b <? l) eqn:E; (split; [lia |]); intros n Hn Hb; apply H2; lia.
Qed.

(** * Spans *)

Definition s_period (s : span) : Period := MkPeriod (s_from s) (s_before s).

(** The spans of [ws], the last first. *)
Record spans_inv (ws : list winner) (out : list span) : Prop := {
  si_nonempty : Forall (fun s => s_from s < s_before s) out;
  si_sorted : StronglySorted (fun s t => s_before t <= s_from s) out;
  si_winner w : w ∈ ws -> exists s, s ∈ out /\ s_instr s = w_instr w /\ s_from s <= w_from w /\ w_before w <= s_before s;
  si_bounds s : s ∈ out -> exists v w, v ∈ ws /\ w ∈ ws /\ w_instr v = s_instr s /\ w_instr w = s_instr s /\
    w_from v = s_from s /\ w_before w = s_before s /\ w_assertion v = s_head s /\ w_assertion w = s_tail s;
  si_differ i s t : out !! i = Some s -> out !! S i = Some t -> s_instr s <> s_instr t;
}.

Definition winners_ok (ws : list winner) : Prop :=
  StronglySorted (fun w v => w_before w <= w_from v) ws /\ Forall (fun w => w_from w < w_before w) ws.

Lemma winners_ok_app ws vs : winners_ok (ws ++ vs) -> winners_ok ws /\ winners_ok vs.
Proof.
  intros [Hs Hne]. apply Forall_app in Hne as [H1 H2].
  split; (split; [| done]); [by eapply StronglySorted_app_1_l | by eapply StronglySorted_app_1_r].
Qed.

Lemma spans_inv_bound ws out x :
  spans_inv ws out -> (forall w, w ∈ ws -> w_before w <= x) -> Forall (fun s => s_before s <= x) out.
Proof.
  intros Hi Hx. apply Forall_forall. intros s Hs. destruct (si_bounds _ _ Hi s Hs) as (v & w & _ & Hw & _ & _ & _ & <- & _).
  by apply Hx.
Qed.

Lemma spans_step_fresh ws out w :
  spans_inv ws out -> w_from w < w_before w -> (forall v, v ∈ ws -> w_before v <= w_from w) ->
  match out with s :: _ => s_instr s <> w_instr w | [] => True end ->
  spans_inv (ws ++ [w]) (MkSpan (w_instr w) (w_from w) (w_before w) (w_assertion w) (w_assertion w) :: out).
Proof.
  intros Hi Hw Hle Hdiff. split.
  - constructor; [done | apply Hi].
  - constructor; [apply Hi |]. by apply (spans_inv_bound ws).
  - intros v [Hv|Hv%list_elem_of_singleton]%elem_of_app.
    + destruct (si_winner _ _ Hi v Hv) as (s & Hs & ?). exists s. split; [by right | done].
    + subst v. eexists. split; [left |]. simpl. split; [done | lia].
  - intros s [->|Hs]%elem_of_cons.
    + assert (w ∈ ws ++ [w]) by (apply elem_of_app; right; left). simpl. by exists w, w.
    + destruct (si_bounds _ _ Hi s Hs) as (v & u & Hv & Hu & ?). exists v, u.
      split; [apply elem_of_app; by left |]. split; [apply elem_of_app; by left | done].
  - intros [|i] s t; simpl; [| apply (si_differ _ _ Hi)].
    destruct out as [|u out]; [done |]. simpl. intros [= <-] [= <-]. simpl. congruence.
Qed.

Lemma spans_step_inv ws out w :
  spans_inv ws out -> w_from w < w_before w -> (forall v, v ∈ ws -> w_before v <= w_from w) ->
  spans_inv (ws ++ [w]) (spans_step out w).
Proof.
  intros Hi Hw Hle. destruct out as [|s out]; [by apply spans_step_fresh |]. simpl.
  destruct (same (s_instr s) (w_instr w)) eqn:E.
  2: { apply spans_step_fresh; try done. intros Heq. apply same_spec in Heq. congruence. }
  apply same_spec in E. pose proof (spans_inv_bound _ _ _ Hi Hle) as Hb. apply Forall_cons in Hb as [Hsb Hb].
  destruct Hi as [H1 H2 H3 H4 H5]. apply Forall_cons in H1 as [H1 H1']. inversion_clear H2 as [|? ? H2' Hf]. split.
  - constructor; [simpl; lia | done].
  - constructor; done.
  - intros v [Hv|Hv%list_elem_of_singleton]%elem_of_app.
    + destruct (H3 v Hv) as (t & [->|Ht]%elem_of_cons & ? & ? & ?).
      * eexists. split; [left |]. simpl. split; [done | lia].
      * exists t. split; [by right | done].
    + subst v. eexists. split; [left |]. simpl. split; [done | lia].
  - intros t [->|Ht]%elem_of_cons.
    + destruct (H4 s ltac:(left)) as (v & u & Hv & Hu & ? & ? & ? & ? & ? & ?). exists v, w. simpl.
      split; [apply elem_of_app; by left |]. split; [apply elem_of_app; right; left | done].
    + destruct (H4 t ltac:(by right)) as (v & u & Hv & Hu & ?). exists v, u.
      split; [apply elem_of_app; by left |]. split; [apply elem_of_app; by left | done].
  - intros [|i] t u; simpl; [| intros Ht Hu; by apply (H5 (S i) t u)].
    intros [= <-] Hu. apply (H5 0%nat s u); done.
Qed.

Lemma spans_fold ws : winners_ok ws -> spans_inv ws (foldl spans_step [] ws).
Proof.
  induction ws as [|w ws IH] using rev_ind; intros Hok.
  { split; simpl; try constructor; [by intros ? []%not_elem_of_nil .. | by intros ?]. }
  destruct (winners_ok_app _ _ Hok) as [Hws [_ Hw]]. inversion_clear Hw as [|? ? Hw' _]. rewrite foldl_app. simpl.
  apply spans_step_inv; [by apply IH | done |]. intros v Hv.
  destruct Hok as [Hs _]. apply (StronglySorted_app_1_elem_of _ _ _ _ _ Hs Hv). left.
Qed.

(** The spans in order. *)
Record spans_post (ws : list winner) (ss : list span) : Prop := {
  sp_nonempty : Forall (fun s => s_from s < s_before s) ss;
  sp_sorted : StronglySorted (fun s t => s_before s <= s_from t) ss;
  sp_winner w : w ∈ ws -> exists s, s ∈ ss /\ s_instr s = w_instr w /\ s_from s <= w_from w /\ w_before w <= s_before s;
  sp_bounds s : s ∈ ss -> exists v w, v ∈ ws /\ w ∈ ws /\ w_instr v = s_instr s /\ w_instr w = s_instr s /\
    w_from v = s_from s /\ w_before w = s_before s /\ w_assertion v = s_head s /\ w_assertion w = s_tail s;
}.

Lemma spans_meets ws : winners_ok ws -> spans_post ws (spans ws).
Proof.
  intros Hok. destruct (spans_fold ws Hok) as [H1 H2 H3 H4 _]. unfold spans. split.
  - by rewrite <- Permutation_rev.
  - by apply StronglySorted_rev.
  - intros w Hw. destruct (H3 w Hw) as (s & Hs & ?). exists s. by rewrite <- Permutation_rev.
  - intros s Hs. rewrite <- Permutation_rev in Hs. by apply H4.
Qed.

(** Consecutive spans name different things. *)
Lemma spans_differ ws i s t :
  winners_ok ws -> spans ws !! i = Some s -> spans ws !! S i = Some t -> s_instr s <> s_instr t.
Proof.
  intros Hok Hs Ht. pose proof (spans_fold ws Hok) as Hi. unfold spans in *.
  set (out := foldl spans_step [] ws) in *. pose proof (lookup_lt_Some _ _ _ Ht) as Hlt. rewrite length_rev in Hlt.
  assert (rev out = reverse out) as E by apply rev_alt. rewrite E in *. clear E. apply reverse_lookup_Some in Hs as [Hs _], Ht as [Ht _].
  replace (length out - S i)%nat with (S (length out - S (S i))) in Hs by lia.
  intros E. by apply (si_differ _ _ Hi _ _ _ Ht Hs).
Qed.

(** * Intervals *)

Definition iv_nonempty (i : Interval) : Prop :=
  match iv_From i, iv_Before i with Some f, Some b => f < b | _, _ => True end.

(** [i] ends, and no later than [j] starts. *)
Definition iv_precedes (i j : Interval) : Prop :=
  match iv_Before i, iv_From j with Some b, Some f => b <= f | _, _ => False end.

(** The day [d] is no earlier than [lo], and [x] no later than [hi]; [None] is
    an open bound. *)
Definition from_le (lo : option time) (d : time) : Prop := match lo with Some l => l <= d | None => True end.
Definition before_ge (x : time) (hi : option time) : Prop := match hi with Some h => x <= h | None => True end.

Definition iv_within (lo hi : option time) (i : Interval) : Prop :=
  match lo with Some l => match iv_From i with Some f => l <= f | None => False end | None => True end /\
  match hi with Some h => match iv_Before i with Some b => b <= h | None => False end | None => True end.

(** Some interval names [i] on the day [d], and how firmly. *)
Definition names (ivs : list Interval) (d : time) (i : uuid) (v : Validity) : Prop :=
  exists iv, iv ∈ ivs /\ Interval_Contains iv d = true /\ iv_Instr iv = i /\ iv_Validity iv = v.

Lemma Interval_Contains_spec i d :
  Interval_Contains i d = true <-> from_le (iv_From i) d /\ match iv_Before i with Some b => d < b | None => True end.
Proof.
  unfold Interval_Contains, from_le. rewrite andb_true_iff. destruct (iv_From i), (iv_Before i); lia.
Qed.

Lemma names_app ivs jvs d i v : names (ivs ++ jvs) d i v <-> names ivs d i v \/ names jvs d i v.
Proof. unfold names. setoid_rewrite elem_of_app. naive_solver. Qed.

Lemma names_cons iv ivs d i v :
  names (iv :: ivs) d i v <->
  Interval_Contains iv d = true /\ iv_Instr iv = i /\ iv_Validity iv = v \/ names ivs d i v.
Proof. unfold names. setoid_rewrite elem_of_cons. naive_solver. Qed.

Lemma names_nil d i v : ~ names [] d i v.
Proof. by intros (? & []%not_elem_of_nil & _). Qed.

Lemma iv_within_weaken lo lo' hi i :
  (match lo with Some l => exists l', lo' = Some l' /\ l <= l' | None => True end) ->
  iv_within lo' hi i -> iv_within lo hi i.
Proof.
  intros Hlo [H1 H2]. split; [| done]. destruct lo as [l|]; [| done]. destruct Hlo as (l' & -> & Hl).
  destruct (iv_From i); [lia | done].
Qed.

(** Two lists of intervals on either side of a day. *)
Lemma intervals_app ivs jvs lo m hi :
  StronglySorted iv_precedes ivs -> StronglySorted iv_precedes jvs ->
  Forall (iv_within lo (Some m)) ivs -> Forall (iv_within (Some m) hi) jvs ->
  StronglySorted iv_precedes (ivs ++ jvs).
Proof.
  intros H1 H2 H3 H4. apply StronglySorted_app_2; [| done..].
  intros i j Hi Hj. rewrite Forall_forall in H3, H4. destruct (H3 i Hi) as [_ A], (H4 j Hj) as [B _].
  unfold iv_precedes. destruct (iv_Before i), (iv_From j); try done. lia.
Qed.

(** ** The intervals of one span *)

(** Why [d] is confirmed by the days from [f] to [b]: it is one of them, or
    coverage joins it to them. *)
Definition joined (cover : list Period) (f b d : time) : Prop :=
  f <= d < b \/
  (b <= d /\ forall x, b <= x <= d -> AnyContains cover x = true) \/
  (d < f /\ forall n, 1 <= n -> d <= AddDays f (- n) -> AnyContains cover (AddDays f (- n)) = true).

Definition joined_by (cover : list Period) (s : span) (d : time) : Prop := joined cover (s_from s) (s_before s) d.

Record cover_ok (cover : list Period) : Prop := {
  co_sorted : StronglySorted apart cover;
  co_nonempty : Forall p_nonempty cover;
  co_days : Forall p_days cover;
}.

Lemma span_intervals_spec cover first r i floor ceil :
  cover_ok cover -> s_from r < s_before r -> from_le floor (s_from r) -> before_ge (s_before r) ceil ->
  let ivs := span_intervals first r i floor ceil cover in
  StronglySorted iv_precedes ivs /\
  Forall (fun iv => iv_nonempty iv /\ iv_within floor ceil iv /\ iv_Instr iv = i) ivs /\
  (forall d, s_from r <= d < s_before r -> names ivs d i Confirmed) /\
  (forall d, (if first then from_le floor d else s_from r <= d) -> match ceil with Some c => d < c | None => True end ->
     exists v, names ivs d i v) /\
  (forall d, names ivs d i Confirmed -> joined_by cover r d).
Proof.
  intros [Hs Hne Hd] Hr Hf Hc. unfold span_intervals.
  destruct (back_spec cover (s_from r) floor Hs Hne Hd) as [B1 B2].
  destruct (forward_spec cover (s_before r) ceil Hs Hne) as (F1 & F2 & _).
  set (from := back (s_from r) floor cover) in *. set (to := forward (s_before r) ceil cover) in *.
  assert (from <= s_from r /\ s_before r <= to /\ from_le floor from /\ before_ge to ceil) as (E1 & E2 & E3 & E4).
  { unfold from_le, before_ge in *. destruct floor, ceil; lia. }
  clear B1 F1.
  set (pre := if first && match floor with None => true | Some f => f <? from end
              then [MkInterval floor (Some from) i Provisional] else []).
  set (post := if match ceil with None => true | Some c => to <? c end then [MkInterval (Some to) ceil i Provisional] else []).
  assert (forall d v, names ([MkInterval (Some from) (Some to) i Confirmed]) d i v <-> v = Confirmed /\ from <= d < to) as Hmid.
  { intros d v. rewrite names_cons. rewrite Interval_Contains_spec. simpl. split; [intros [(? & ? & ?)|[]%names_nil]; done |].
    intros [-> ?]. by left. }
  assert (forall d v, names pre d i v <-> v = Provisional /\ first = true /\ from_le floor d /\ d < from) as Hpre.
  { intros d v. unfold pre. destruct first; simpl; [| split; [by intros []%names_nil | naive_solver]].
    destruct (match floor with None => true | Some f => f <? from end) eqn:E.
    - rewrite names_cons, Interval_Contains_spec. simpl. split; [intros [(? & _ & <-)|[]%names_nil]; tauto |]. intros (-> & ? & ?). by left.
    - split; [by intros []%names_nil |]. unfold from_le. destruct floor; [lia | done]. }
  assert (forall d v, names post d i v <-> v = Provisional /\ to <= d /\ match ceil with Some c => d < c | None => True end) as Hpost.
  { intros d v. unfold post. destruct (match ceil with None => true | Some c => to <? c end) eqn:E.
    - rewrite names_cons, Interval_Contains_spec. simpl. split; [intros [(? & _ & <-)|[]%names_nil]; tauto |]. intros (-> & ? & ?). by left.
    - split; [by intros []%names_nil |]. destruct ceil; [lia | done]. }
  split; [| split; [| split; [| split]]].
  - apply (intervals_app _ _ None from None); [apply StronglySorted_if | | apply Forall_if; intros _; unfold iv_within; simpl; lia |].
    + apply (intervals_app _ _ None to None); [repeat constructor | apply StronglySorted_if | |].
      * apply Forall_singleton. unfold iv_within; simpl; lia.
      * apply Forall_if. intros _. unfold iv_within; simpl; lia.
    + constructor; [unfold iv_within; simpl; lia |]. apply Forall_if. intros _. unfold iv_within; simpl; lia.
  - unfold iv_nonempty, iv_within, before_ge, from_le in *. apply Forall_app. split; [| constructor].
    + apply Forall_if. intros E. simpl. destruct first, floor, ceil; simpl in E; repeat split; lia.
    + simpl. destruct floor, ceil; repeat split; lia.
    + apply Forall_if. intros E. simpl. destruct floor, ceil; repeat split; lia.
  - intros d Hdd. rewrite !names_app, Hmid. right. left. split; [done | lia].
  - intros d Hd1 Hd2. destruct (Z.lt_ge_cases d from).
    + exists Provisional. rewrite names_app, Hpre. left. destruct first; [done | lia].
    + destruct (Z.lt_ge_cases d to).
      * exists Confirmed. rewrite !names_app, Hmid. right. left. split; [done | lia].
      * exists Provisional. rewrite !names_app, Hpost. auto.
  - intros d. rewrite !names_app, Hpre, Hmid, Hpost. intros [[? _]|[[_ Hdd]|[? _]]]; try done. unfold joined_by, joined.
    destruct (Z.lt_ge_cases d (s_from r)); [| destruct (Z.lt_ge_cases d (s_before r))].
    + right. right. split; [done |]. intros n Hn Hx. apply B2; [done | lia].
    + left. lia.
    + right. left. split; [done |]. intros x Hx. apply F2. lia.
Qed.

(** ** The intervals of one segment *)

(** [d] and the days from [f] to [b] lie on one side of those from [g] to [h]. *)
Definition beside (f b g h d : time) : Prop := h <= f /\ h <= d \/ b <= g /\ d < g.

Definition clear_of (s t : span) (d : time) : Prop := beside (s_from s) (s_before s) (s_from t) (s_before t) d.

Definition day_before (d : time) (stop : option time) : Prop := match stop with Some b => d < b | None => True end.

Record segment_post (first : bool) (floor stop : option time) (ss : list span) (cover : list Period)
    (ivs : list Interval) : Prop := {
  sg_sorted : StronglySorted iv_precedes ivs;
  sg_within : Forall (fun iv => iv_nonempty iv /\ iv_within floor stop iv) ivs;
  sg_confirm s i d : s ∈ ss -> s_instr s = Some i -> s_from s <= d < s_before s -> names ivs d i Confirmed;
  sg_keeps s i d : s ∈ ss -> s_instr s = Some i -> s_from s <= d -> day_before d stop ->
    (forall t, t ∈ ss -> s_from s < s_from t -> d < s_from t) -> exists v, names ivs d i v;
  sg_head s ss' i d : first = true -> ss = s :: ss' -> s_instr s = Some i -> from_le floor d -> d < s_from s ->
    exists v, names ivs d i v;
  sg_none s d : s ∈ ss -> s_instr s = None -> s_from s <= d < s_before s ->
    forall iv, iv ∈ ivs -> Interval_Contains iv d = false;
  sg_sound d i v : names ivs d i v -> exists s, s ∈ ss /\ s_instr s = Some i /\
    (v = Confirmed -> joined_by cover s d) /\ forall t, t ∈ ss -> t = s \/ clear_of s t d;
}.

Lemma within_day lo hi iv d :
  iv_within lo hi iv -> Interval_Contains iv d = true -> from_le lo d /\ day_before d hi.
Proof.
  unfold iv_within, from_le, day_before. rewrite Interval_Contains_spec. intros [H1 H2] [H3 H4]. unfold from_le in H3.
  destruct lo, hi, (iv_From iv), (iv_Before iv); try done; lia.
Qed.

Lemma names_within lo hi ivs d i v :
  Forall (fun iv => iv_nonempty iv /\ iv_within lo hi iv) ivs -> names ivs d i v -> from_le lo d /\ day_before d hi.
Proof.
  intros Hw (iv & Hiv & Hd & _). rewrite Forall_forall in Hw. destruct (Hw iv Hiv). by eapply within_day.
Qed.

Lemma segment_nil first floor stop cover : segment_post first floor stop [] cover [].
Proof.
  split; try constructor; try (by intros ? ? ? []%not_elem_of_nil); try (by intros ? ? []%not_elem_of_nil); try done.
  by intros d i v []%names_nil.
Qed.

(** A negative span adds no interval. *)
Lemma segment_negative first floor stop r ss cover ivs :
  s_instr r = None -> s_from r < s_before r -> from_le floor (s_from r) ->
  Forall (fun s => s_before r <= s_from s) ss ->
  segment_post false (Some (s_before r)) stop ss cover ivs -> segment_post first floor stop (r :: ss) cover ivs.
Proof.
  intros Hr Hne Hf Hlater [P1 P2 P3 P4 P5 P6 P7]. rewrite Forall_forall in Hlater. split.
  - done.
  - eapply Forall_impl; [exact P2 |]. intros iv [? Hw]. split; [done |]. eapply iv_within_weaken; [| exact Hw].
    unfold from_le in Hf. destruct floor; [| done]. eexists. split; [done | lia].
  - intros s i d [->|Hs]%elem_of_cons; [congruence | by apply P3].
  - intros s i d [->|Hs]%elem_of_cons; [congruence |]. intros Hi H1 H2 H3. apply (P4 s); try done.
    intros t Ht. apply H3. by right.
  - intros s ss' i d _ [= <- <-]. congruence.
  - intros s d [->|Hs]%elem_of_cons; [| by apply P6]. intros _ Hd iv Hiv. apply not_true_iff_false. intros Hc.
    rewrite Forall_forall in P2. destruct (P2 iv Hiv) as [_ Hw]. destruct (within_day _ _ _ _ Hw Hc) as [H _]. simpl in H. lia.
  - intros d i v Hn. pose proof (names_within _ _ _ _ _ _ P2 Hn) as [Hlo _]. simpl in Hlo.
    destruct (P7 d i v Hn) as (s & Hs & Hi & Hj & Hclear). exists s. split; [by right |]. split; [done |]. split; [done |].
    intros t [->|Ht]%elem_of_cons; [| by apply Hclear]. right. left. specialize (Hlater s Hs). lia.
Qed.

(** A positive span takes the days up to the next one. *)
Lemma segment_positive first floor stop r i0 ss cover ivs :
  let ceil := match ss with n :: _ => Some (s_from n) | [] => stop end in
  s_instr r = Some i0 -> s_from r < s_before r -> from_le floor (s_from r) -> before_ge (s_before r) stop ->
  cover_ok cover -> StronglySorted (fun s t => s_before s <= s_from t) (r :: ss) ->
  Forall (fun s => s_from s < s_before s) ss -> Forall (fun s => before_ge (s_before s) stop) ss ->
  segment_post false ceil stop ss cover ivs -> (ss = [] -> ivs = []) ->
  segment_post first floor stop (r :: ss) cover (span_intervals first r i0 floor ceil cover ++ ivs).
Proof.
  intros ceil Hr Hne Hf Hstop Hcov Hs Hsne Hsstop [P1 P2 P3 P4 P5 P6 P7] Hnil.
  inversion_clear Hs as [|? ? Hs' Hlater]. rewrite Forall_forall in Hlater, Hsne, Hsstop.
  assert (before_ge (s_before r) ceil) as Hceil.
  { unfold ceil. destruct ss as [|n ss']; [done |]. simpl. apply Hlater. left. }
  assert (forall s, s ∈ ss -> exists c, ceil = Some c /\ c <= s_from s /\ s_before r <= c) as Hge.
  { unfold ceil. intros s Hin. destruct ss as [|n ss']; [by apply not_elem_of_nil in Hin |]. eexists. split; [done |].
    split; [| apply Hlater; left]. inversion_clear Hs' as [|? ? _ Hn]. apply elem_of_cons in Hin as [->|Hin]; [lia |].
    rewrite Forall_forall in Hn. specialize (Hn s Hin). specialize (Hsne n ltac:(left)). lia. }
  assert (forall d, day_before d ceil -> day_before d stop) as Hcs.
  { unfold ceil. intros d. destruct ss as [|n ss']; [done |]. simpl. specialize (Hsstop n ltac:(left)). specialize (Hsne n ltac:(left)).
    unfold before_ge, day_before in *. destruct stop; [lia | done]. }
  destruct (span_intervals_spec cover first r i0 floor ceil Hcov Hne Hf Hceil) as (Q1 & Q2 & Q3 & Q4 & Q5).
  set (jvs := span_intervals first r i0 floor ceil cover) in *.
  assert (forall d i v, names jvs d i v -> i = i0 /\ from_le floor d /\ day_before d ceil) as Hj.
  { intros d i v (iv & Hiv & Hd & <- & _). rewrite Forall_forall in Q2. destruct (Q2 iv Hiv) as (_ & Hw & ->).
    split; [done |]. by eapply within_day. }
  split.
  - destruct ss as [|n ss']; [rewrite (Hnil eq_refl), app_nil_r; done |].
    apply (intervals_app _ _ floor (s_from n) stop); try done.
    + eapply Forall_impl; [exact Q2 |]. by intros ? (_ & ? & _).
    + eapply Forall_impl; [exact P2 |]. by intros ? (_ & ?).
  - apply Forall_app. split.
    + eapply Forall_impl; [exact Q2 |]. intros iv (? & [Hw1 Hw2] & _). split; [done |]. split; [done |].
      unfold ceil in Hw2. destruct ss as [|n ss']; [done |]. specialize (Hsstop n ltac:(left)). specialize (Hsne n ltac:(left)).
      unfold before_ge in Hsstop. destruct stop; [| done]. destruct (iv_Before iv); [lia | done].
    + destruct ss as [|n ss']; [rewrite (Hnil eq_refl); constructor |].
      eapply Forall_impl; [exact P2 |]. intros iv [? Hw]. split; [done |]. eapply iv_within_weaken; [| exact Hw].
      unfold from_le in Hf. destruct floor; [| done]. eexists. split; [done |]. specialize (Hlater n ltac:(left)). lia.
  - intros s i d [->|Hin]%elem_of_cons Hi Hd; apply names_app; [left | right; by eapply P3].
    rewrite Hr in Hi. injection Hi as <-. by apply Q3.
  - intros s i d [->|Hin]%elem_of_cons Hi Hd Hds Hnext; setoid_rewrite names_app.
    + rewrite Hr in Hi. injection Hi as <-. destruct (Q4 d) as [v Hv].
      * destruct first; [| done]. unfold from_le in *. destruct floor; [lia | done].
      * unfold ceil. destruct ss as [|n ss']; [done |]. apply Hnext; [right; left |].
        specialize (Hlater n ltac:(left)). lia.
      * eauto.
    + destruct (P4 s i d Hin Hi Hd Hds) as [v Hv]; [| by eauto]. intros t Ht. apply Hnext. by right.
  - intros s ss' i d -> [= <- <-] Hi Hfl Hd. setoid_rewrite names_app. rewrite Hr in Hi. injection Hi as <-.
    destruct (Q4 d Hfl) as [v Hv]; [| by eauto]. unfold before_ge in Hceil. destruct ceil; [lia | done].
  - intros s d [->|Hin]%elem_of_cons Hi Hd iv [Hiv|Hiv]%elem_of_app; try congruence.
    + apply not_true_iff_false. intros Hc. rewrite Forall_forall in Q2. destruct (Q2 iv Hiv) as (_ & Hw & _).
      destruct (within_day _ _ _ _ Hw Hc) as [_ Hb]. destruct (Hge s Hin) as (c & Ec & ? & ?). rewrite Ec in Hb. simpl in Hb. lia.
    + by apply (P6 s).
  - intros d i v [Hn|Hn]%names_app.
    + destruct (Hj d i v Hn) as (-> & Hfl & Hc). exists r. split; [left |]. split; [done |].
      split; [intros ->; by apply Q5 |]. intros t [->|Ht]%elem_of_cons; [by left | right; right].
      destruct (Hge t Ht) as (c & Ec & ? & ?). rewrite Ec in Hc. simpl in Hc. lia.
    + destruct (P7 d i v Hn) as (s & Hin & Hi & Hjb & Hclear). exists s. split; [by right |]. split; [done |]. split; [done |].
      intros t [->|Ht]%elem_of_cons; [| by apply Hclear]. right. left.
      destruct (names_within _ _ _ _ _ _ P2 Hn) as [Hlo _]. destruct (Hge s Hin) as (c & Ec & ? & ?). rewrite Ec in Hlo. simpl in Hlo. lia.
Qed.

Lemma segment_loop_spec cover stop : forall ss first floor,
  cover_ok cover -> StronglySorted (fun s t => s_before s <= s_from t) ss ->
  Forall (fun s => s_from s < s_before s) ss -> Forall (fun s => from_le floor (s_from s)) ss ->
  Forall (fun s => before_ge (s_before s) stop) ss ->
  segment_post first floor stop ss cover (segment_loop first floor ss stop cover).1 /\
  (ss = [] -> (segment_loop first floor ss stop cover).1 = []).
Proof.
  induction ss as [|r ss IH]; intros first floor Hcov Hs Hne Hf Hstop; [split; [apply segment_nil | done] |].
  apply Forall_cons in Hne as [Hner Hne]. apply Forall_cons in Hf as [Hfr Hf]. apply Forall_cons in Hstop as [Hsr Hstop].
  split; [| done]. pose proof Hs as Hs0. inversion_clear Hs as [|? ? Hs' Hlater]. cbn [segment_loop].
  destruct (s_instr r) as [i|] eqn:Er.
  - destruct (IH false (match ss with n :: _ => Some (s_from n) | [] => stop end)) as [Hp Hn]; try done.
    { destruct ss as [|n ss']; [constructor |]. constructor; [simpl; lia |]. inversion_clear Hs' as [|? ? _ Hnn].
      apply Forall_cons in Hne as [Hnen _]. eapply Forall_impl; [exact Hnn |]. simpl. lia. }
    destruct (segment_loop false _ ss stop cover) as [ivs infs]. cbn [fst snd] in *.
    by apply segment_positive.
  - destruct (IH false (Some (s_before r))) as [Hp Hn]; try done.
    destruct (segment_loop false _ ss stop cover) as [ivs infs]. cbn [fst snd app] in *.
    by apply segment_negative.
Qed.

(** ** The intervals of all segments *)

(** What makes [i] the instrument confirmed or provisional on [d]: the days
    between two winners that name [i], with no cut and no winner of anything
    else among them or between them and [d]. *)
Definition evidence (bounds : list time) (ws : list winner) (cover : list Period) (d : time) (i : uuid) (v : Validity) : Prop :=
  exists w1 w2, w1 ∈ ws /\ w2 ∈ ws /\ w_instr w1 = Some i /\ w_instr w2 = Some i /\ w_from w1 < w_before w2 /\
    (v = Confirmed -> joined cover (w_from w1) (w_before w2) d) /\
    (forall w, w ∈ ws -> w_instr w = Some i \/ beside (w_from w1) (w_before w2) (w_from w) (w_before w) d) /\
    (forall c, c ∈ bounds -> beside (w_from w1) (w_before w2) c c d).

Record derive_post (start : option time) (bounds : list time) (ws : list winner) (cover : list Period)
    (ivs : list Interval) : Prop := {
  dp_sorted : StronglySorted iv_precedes ivs;
  dp_within : Forall (fun iv => iv_nonempty iv /\ iv_within start None iv) ivs;
  dp_confirm w i d : w ∈ ws -> w_instr w = Some i -> w_holds w d = true -> names ivs d i Confirmed;
  dp_keeps w i d : w ∈ ws -> w_instr w = Some i -> w_from w <= d ->
    (forall v, v ∈ ws -> w_from w < w_from v -> d < w_from v) ->
    (forall c, c ∈ bounds -> w_from w < c -> d < c) -> exists v, names ivs d i v;
  dp_head w i d : w ∈ ws -> w_instr w = Some i -> from_le start d -> d < w_from w ->
    (forall c, c ∈ bounds -> d < c -> w_from w < c) ->
    (forall v, v ∈ ws -> w_from v < w_from w -> exists c, c ∈ bounds /\ w_from v < c <= d) -> exists v, names ivs d i v;
  dp_none w d : w ∈ ws -> w_instr w = None -> w_holds w d = true ->
    forall iv, iv ∈ ivs -> Interval_Contains iv d = false;
  dp_sound d i v : names ivs d i v -> evidence bounds ws cover d i v;
}.

Lemma take_segment_spec stop ws seg rest :
  winners_ok ws -> take_segment stop ws = (seg, rest) ->
  ws = seg ++ rest /\ (forall w, w ∈ seg -> day_before (w_from w) stop) /\ (forall w, w ∈ rest -> ~ day_before (w_from w) stop).
Proof.
  revert seg rest. induction ws as [|w ws IH]; intros seg rest Hok; simpl.
  { intros [= <- <-]. split; [done |]. split; by intros ? []%not_elem_of_nil. }
  destruct (match stop with None => true | Some e => w_from w <? e end) eqn:E.
  - destruct (take_segment stop ws) as [s r]. intros [= <- <-].
    destruct (winners_ok_app [w] ws Hok) as [_ Hok']. destruct (IH s r Hok' eq_refl) as (-> & H1 & H2).
    split; [done |]. split; [| done]. intros v [->|Hv]%elem_of_cons; [| by apply H1].
    unfold day_before. destruct stop; [lia | done].
  - intros [= <- <-]. split; [done |]. split; [by intros ? []%not_elem_of_nil |].
    destruct stop as [e|]; [| done]. unfold day_before. destruct Hok as [Hs Hne]. inversion_clear Hs as [|? ? _ Hf].
    apply Forall_cons in Hne as [Hw _]. rewrite Forall_forall in Hf.
    intros v [->|Hv]%elem_of_cons; [lia |]. specialize (Hf v Hv). lia.
Qed.

(** The intervals of one segment, in terms of its winners. *)
Lemma segment_winners start stop ws cover :
  winners_ok ws -> cover_ok cover -> (forall w, w ∈ ws -> from_le start (w_from w)) ->
  (forall w, w ∈ ws -> before_ge (w_before w) stop) ->
  let ivs := (segment (spans ws) start stop cover).1 in
  segment_post true start stop (spans ws) cover ivs.
Proof.
  intros Hok Hcov Hstart Hstop. destruct (spans_meets ws Hok) as [S1 S2 S3 S4].
  apply segment_loop_spec; try done.
  - apply Forall_forall. intros s Hs. destruct (S4 s Hs) as (v & w & Hv & Hw & _ & _ & <- & _). by apply Hstart.
  - apply Forall_forall. intros s Hs. destruct (S4 s Hs) as (v & w & Hv & Hw & _ & _ & _ & <- & _). by apply Hstop.
Qed.

(** Winners of one segment: what they name there. *)
Lemma segment_keeps start stop ws cover ivs w i d :
  winners_ok ws -> segment_post true start stop (spans ws) cover ivs -> w ∈ ws -> w_instr w = Some i -> w_from w <= d ->
  (forall v, v ∈ ws -> w_from w < w_from v -> d < w_from v) -> day_before d stop -> exists v, names ivs d i v.
Proof.
  intros Hok Hp Hw Hi Hd Hnext Hstop. destruct (spans_meets ws Hok) as [S1 S2 S3 S4].
  destruct (S3 w Hw) as (s & Hs & Es & H1 & H2). apply (sg_keeps _ _ _ _ _ _ Hp s); try done; [congruence | lia |].
  intros t Ht Hlt. destruct (S4 t Ht) as (v & _ & Hv & _ & _ & _ & Evt & _). rewrite <- Evt. apply Hnext; [done |].
  pose proof (proj2 Hok) as Hne. rewrite Forall_forall in Hne. specialize (Hne w Hw).
  rewrite Forall_forall in S1. pose proof (S1 s Hs). pose proof (S1 t Ht).
  destruct (elem_of_StronglySorted _ _ _ _ S2 Hs Ht) as [->|[?|?]]; cbn beta in *; lia.
Qed.

Lemma segment_head start stop ws cover ivs w i d :
  winners_ok ws -> segment_post true start stop (spans ws) cover ivs -> w ∈ ws -> w_instr w = Some i ->
  (forall v, v ∈ ws -> w_from w <= w_from v) -> from_le start d -> d < w_from w -> exists v, names ivs d i v.
Proof.
  intros Hok Hp Hw Hi Hmin Hstart Hd. destruct (spans_meets ws Hok) as [S1 S2 S3 S4].
  destruct (S3 w Hw) as (s & Hs & Es & H1 & H2). destruct (spans ws) as [|h ss'] eqn:E; [by apply not_elem_of_nil in Hs |].
  destruct (S4 s Hs) as (v & _ & Hv & _ & _ & _ & Hvs & _). specialize (Hmin v Hv) as Hvw.
  assert (s = h) as ->.
  { apply elem_of_cons in Hs as [->|Hs]; [done | exfalso]. inversion_clear S2 as [|? ? _ Hf]. rewrite Forall_forall in Hf.
    specialize (Hf s Hs). apply Forall_cons in S1 as [Hh _].
    destruct (S4 h ltac:(left)) as (u & _ & Hu & _ & _ & _ & Hus & _). specialize (Hmin u Hu). lia. }
  apply (sg_head _ _ _ _ _ _ Hp h ss'); try done; [congruence | lia].
Qed.

Lemma segment_sound start stop ws cover ivs d i v :
  winners_ok ws -> segment_post true start stop (spans ws) cover ivs -> names ivs d i v ->
  exists w1 w2, w1 ∈ ws /\ w2 ∈ ws /\ w_instr w1 = Some i /\ w_instr w2 = Some i /\ w_from w1 < w_before w2 /\
    (v = Confirmed -> joined cover (w_from w1) (w_before w2) d) /\
    (forall w, w ∈ ws -> w_instr w = Some i \/ beside (w_from w1) (w_before w2) (w_from w) (w_before w) d).
Proof.
  intros Hok Hp Hn. destruct (spans_meets ws Hok) as [S1 S2 S3 S4]. rewrite Forall_forall in S1.
  destruct (sg_sound _ _ _ _ _ _ Hp d i v Hn) as (s & Hs & Hi & Hj & Hclear).
  destruct (S4 s Hs) as (w1 & w2 & H1 & H2 & I1 & I2 & E1 & E2 & _). exists w1, w2.
  split; [done |]. split; [done |]. split; [congruence |]. split; [congruence |]. rewrite E1, E2.
  split; [by apply S1 |]. split; [exact Hj |].
  intros w Hw. destruct (S3 w Hw) as (t & Ht & Et & F1 & F2). destruct (Hclear t Ht) as [->|Hc]; [left; congruence | right].
  unfold clear_of, beside in *. lia.
Qed.

(** The last segment. *)
Lemma derive_last start seg cover ivs :
  winners_ok seg -> segment_post true start None (spans seg) cover ivs -> derive_post start [] seg cover ivs.
Proof.
  intros Hok Hp. destruct (spans_meets seg Hok) as [S1 S2 S3 S4]. split.
  - apply Hp.
  - apply Hp.
  - intros w i d Hw Hi Hd%Contains_spec. destruct (S3 w Hw) as (s & Hin & Es & H1 & H2). simpl in Hd.
    apply (sg_confirm _ _ _ _ _ _ Hp s); [done | congruence | lia].
  - intros w i d Hw Hi Hd Hnext _. by apply (segment_keeps start None seg cover ivs w).
  - intros w i d Hw Hi Hst Hd _ Hmin. apply (segment_head start None seg cover ivs w); try done.
    intros v Hv. destruct (Z.le_gt_cases (w_from w) (w_from v)); [done |].
    destruct (Hmin v Hv) as (c & []%not_elem_of_nil & _). lia.
  - intros w d Hw Hi Hd%Contains_spec. destruct (S3 w Hw) as (s & Hin & Es & H1 & H2). simpl in Hd.
    apply (sg_none _ _ _ _ _ _ Hp s); [done | congruence | lia].
  - intros d i v Hn. destruct (segment_sound start None seg cover ivs d i v Hok Hp Hn) as (w1 & w2 & K1 & K2 & K3 & K4 & K5 & K6 & K7).
    exists w1, w2. repeat (split; [done |]). by intros c []%not_elem_of_nil.
Qed.

(** A segment before the others; the two share no day. *)
Lemma derive_cons start e bounds seg rest cover ivs ivs' :
  winners_ok (seg ++ rest) -> from_le start e -> (forall c, c ∈ bounds -> e < c) ->
  (forall w, w ∈ seg -> w_from w < e /\ w_before w <= e) -> (forall w, w ∈ rest -> e <= w_from w) ->
  (forall w, w ∈ seg ++ rest -> from_le start (w_from w)) ->
  segment_post true start (Some e) (spans seg) cover ivs -> derive_post (Some e) bounds rest cover ivs' ->
  derive_post start (e :: bounds) (seg ++ rest) cover (ivs ++ ivs').
Proof.
  intros Hok He Hbounds Hseg Hrest Hstart Hp Hd. destruct (winners_ok_app _ _ Hok) as [Hok1 Hok2].
  destruct (spans_meets seg Hok1) as [S1 S2 S3 S4].
  pose proof (sg_within _ _ _ _ _ _ Hp) as W1. pose proof (dp_within _ _ _ _ _ Hd) as W2. split.
  - apply (intervals_app _ _ None e None); [apply Hp | apply Hd | |];
      (eapply Forall_impl; [eassumption |]; intros iv [_ [A B]]; split; done).
  - apply Forall_app. split; (eapply Forall_impl; [eassumption |]); intros iv [? Hw]; (split; [done |]).
    + destruct Hw as [Hw _]. by split.
    + eapply iv_within_weaken; [| exact Hw]. unfold from_le in He. destruct start; [eauto | done].
  - intros w i d [Hw|Hw]%elem_of_app Hi Hc; apply names_app; [left | right; by apply (dp_confirm _ _ _ _ _ Hd w)].
    apply Contains_spec in Hc. destruct (S3 w Hw) as (s & Hin & Es & H1 & H2). simpl in Hc.
    apply (sg_confirm _ _ _ _ _ _ Hp s); [done | congruence | lia].
  - intros w i d [Hw|Hw]%elem_of_app Hi Hle Hnext Hcuts; setoid_rewrite names_app.
    + destruct (segment_keeps start (Some e) seg cover ivs w i d Hok1 Hp Hw Hi Hle) as [v Hv]; [| | by eauto].
      * intros v Hv. apply Hnext, elem_of_app. by left.
      * apply Hcuts; [left | by apply Hseg].
    + destruct (dp_keeps _ _ _ _ _ Hd w i d Hw Hi Hle) as [v Hv]; [| | by eauto].
      * intros v Hv. apply Hnext, elem_of_app. by right.
      * intros c Hc. apply Hcuts. by right.
  - intros w i d [Hw|Hw]%elem_of_app Hi Hst Hlt Hcuts Hmin; setoid_rewrite names_app.
    + destruct (segment_head start (Some e) seg cover ivs w i d Hok1 Hp Hw Hi) as [v Hv]; [| done | done | by eauto].
      intros v Hv. destruct (Z.le_gt_cases (w_from w) (w_from v)); [done | exfalso].
      destruct (Hmin v) as (c & Hc & H1 & H2); [apply elem_of_app; by left | done |].
      destruct (Hseg w Hw). apply elem_of_cons in Hc as [->|Hc]; [lia |]. specialize (Hbounds c Hc). lia.
    + assert (e <= d) as Hed.
      { destruct (Z.le_gt_cases e d) as [|Hde]; [done |]. specialize (Hcuts e ltac:(left) ltac:(lia)). specialize (Hrest w Hw). lia. }
      destruct (dp_head _ _ _ _ _ Hd w i d Hw Hi Hed Hlt) as [v Hv]; [| | by eauto].
      * intros c Hc. apply Hcuts. by right.
      * intros v Hv Hvw. destruct (Hmin v) as (c & Hc & H1 & H2); [apply elem_of_app; by right | done |].
        exists c. split; [| done]. apply elem_of_cons in Hc as [->|Hc]; [| done]. specialize (Hrest v Hv). lia.
  - intros w d [Hw|Hw]%elem_of_app Hi Hc iv [Hiv|Hiv]%elem_of_app.
    + apply Contains_spec in Hc. destruct (S3 w Hw) as (s & Hin & Es & H1 & H2). simpl in Hc.
      apply (sg_none _ _ _ _ _ _ Hp s d Hin); [congruence | lia | done].
    + apply not_true_iff_false. intros Hx. rewrite Forall_forall in W2. destruct (W2 iv Hiv) as [_ Hwi].
      destruct (within_day _ _ _ _ Hwi Hx) as [Hl _]. simpl in Hl. apply Contains_spec in Hc. destruct (Hseg w Hw). simpl in Hc. lia.
    + apply not_true_iff_false. intros Hx. rewrite Forall_forall in W1. destruct (W1 iv Hiv) as [_ Hwi].
      destruct (within_day _ _ _ _ Hwi Hx) as [_ Hl]. simpl in Hl. apply Contains_spec in Hc. specialize (Hrest w Hw). simpl in Hc. lia.
    + by apply (dp_none _ _ _ _ _ Hd w).
  - intros d i v [Hn|Hn]%names_app.
    + destruct (segment_sound start (Some e) seg cover ivs d i v Hok1 Hp Hn) as (w1 & w2 & K1 & K2 & K3 & K4 & K5 & K6 & K7).
      destruct (names_within _ _ _ _ _ _ W1 Hn) as [_ Hde]. simpl in Hde. destruct (Hseg w2 K2).
      exists w1, w2. rewrite !elem_of_app. split; [by left |]. split; [by left |]. repeat (split; [done |]). split.
      * intros w [Hw|Hw]%elem_of_app; [by apply K7 | right; right]. specialize (Hrest w Hw). lia.
      * intros c Hc. right. apply elem_of_cons in Hc as [->|Hc]; [lia |]. specialize (Hbounds c Hc). lia.
    + destruct (dp_sound _ _ _ _ _ Hd d i v Hn) as (w1 & w2 & K1 & K2 & K3 & K4 & K5 & K6 & K7 & K8).
      destruct (names_within _ _ _ _ _ _ W2 Hn) as [Hde _]. simpl in Hde. pose proof (Hrest w1 K1).
      exists w1, w2. rewrite !elem_of_app. split; [by right |]. split; [by right |]. repeat (split; [done |]). split.
      * intros w [Hw|Hw]%elem_of_app; [right; left | by apply K7]. destruct (Hseg w Hw). lia.
      * intros c Hc. apply elem_of_cons in Hc as [->|Hc]; [left; lia | by apply K8].
Qed.

Lemma derive_loop_spec cover : forall bounds start ws,
  winners_ok ws -> cover_ok cover -> StronglySorted Z.lt bounds ->
  (forall w, w ∈ ws -> from_le start (w_from w)) -> (forall c, c ∈ bounds -> from_le start c) ->
  (forall w c, w ∈ ws -> c ∈ bounds -> ~ w_from w < c < w_before w) ->
  derive_post start bounds ws cover (derive_loop bounds start ws cover).1.
Proof.
  induction bounds as [|e bounds IH]; intros start ws Hok Hcov Hs Hstart Hbs Hcut; cbn [derive_loop].
  - destruct (take_segment None ws) as [seg rest] eqn:Et.
    destruct (take_segment_spec _ _ _ _ Hok Et) as (-> & _ & Hrest).
    assert (rest = []) as ->.
    { destruct rest as [|w rest]; [done | exfalso]. by apply (Hrest w ltac:(left)). }
    rewrite app_nil_r in *.
    pose proof (segment_winners start None seg cover Hok Hcov Hstart (fun _ _ => I)) as Hp.
    destruct (segment (spans seg) start None cover) as [ivs inf]. cbn [fst] in *. by apply derive_last.
  - destruct (take_segment (Some e) ws) as [seg rest] eqn:Et.
    destruct (take_segment_spec _ _ _ _ Hok Et) as (-> & Hseg & Hrest). simpl in Hseg, Hrest.
    destruct (winners_ok_app _ _ Hok) as [Hok1 Hok2].
    inversion_clear Hs as [|? ? Hs' Hlt]. rewrite Forall_forall in Hlt.
    assert (forall w, w ∈ seg -> w_from w < e /\ w_before w <= e) as Hbe.
    { intros w Hw. specialize (Hseg w Hw). specialize (Hcut w e ltac:(apply elem_of_app; by left) ltac:(left)). lia. }
    assert (forall w, w ∈ rest -> e <= w_from w) as Hge.
    { intros w Hw. specialize (Hrest w Hw). lia. }
    assert (segment_post true start (Some e) (spans seg) cover (segment (spans seg) start (Some e) cover).1) as Hp.
    { apply segment_winners; try done; intros w Hw; [apply Hstart, elem_of_app; by left | by apply Hbe]. }
    assert (derive_post (Some e) bounds rest cover (derive_loop bounds (Some e) rest cover).1) as Hd.
    { apply IH; try done.
      - intros c Hc. apply Z.lt_le_incl. by apply Hlt.
      - intros w c Hw Hc. apply Hcut; [apply elem_of_app | ]; by right. }
    destruct (segment (spans seg) start (Some e) cover) as [ivs inf].
    destruct (derive_loop bounds (Some e) rest cover) as [ivs' inf']. cbn [fst] in *.
    apply derive_cons; try done. apply Hbs. left.
Qed.

(** * Joined intervals *)

Lemma join_step_spec out iv :
  StronglySorted (flip iv_precedes) out -> Forall iv_nonempty out -> iv_nonempty iv ->
  Forall (fun p => iv_precedes p iv) out ->
  let out' := join_step out iv in
  StronglySorted (flip iv_precedes) out' /\ Forall iv_nonempty out' /\
  (forall d i v, names out' d i v <-> names out d i v \/ names [iv] d i v) /\
  (forall j, Forall (fun p => iv_precedes p j) out -> iv_precedes iv j -> Forall (fun p => iv_precedes p j) out').
Proof.
  intros Hs Hne Hiv Hp.
  assert (forall out, Forall (fun p => iv_precedes p iv) out -> StronglySorted (flip iv_precedes) out -> Forall iv_nonempty out ->
    StronglySorted (flip iv_precedes) (iv :: out) /\ Forall iv_nonempty (iv :: out) /\
    (forall d i v, names (iv :: out) d i v <-> names out d i v \/ names [iv] d i v) /\
    (forall j, Forall (fun p => iv_precedes p j) out -> iv_precedes iv j -> Forall (fun p => iv_precedes p j) (iv :: out))) as Hfresh.
  { clear out Hs Hne Hp. intros out Hp Hs Hne. split; [by constructor |]. split; [by constructor |]. split.
    - intros d i v. rewrite !names_cons. pose proof (names_nil d i v). tauto.
    - intros j. by constructor. }
  destruct out as [|p out]; [by apply Hfresh |]. simpl.
  destruct (bool_decide _ && bool_decide _ && _) eqn:E; [| by apply Hfresh]. clear Hfresh.
  rewrite !andb_true_iff, !bool_decide_eq_true in E. destruct E as [[E1 E2] E3].
  destruct (iv_Before p) as [b|] eqn:Eb; [| done]. destruct (iv_From iv) as [f|] eqn:Ef; [| done]. apply Z.eqb_eq in E3 as ->.
  inversion_clear Hs as [|? ? Hs' Hf]. apply Forall_cons in Hne as [Hpne Hne]. split; [| split; [| split]].
  - constructor; [done |]. eapply Forall_impl; [exact Hf |]. done.
  - constructor; [| done]. unfold iv_nonempty in *. simpl. rewrite Eb in Hpne. rewrite Ef in Hiv.
    destruct (iv_From p), (iv_Before iv); try done. lia.
  - intros d i v. rewrite !names_cons, !Interval_Contains_spec. simpl. rewrite Eb, Ef, <- E1, <- E2.
    pose proof (names_nil d i v). unfold iv_nonempty in *. rewrite Eb in Hpne. rewrite Ef in Hiv. unfold from_le.
    destruct (Z.lt_ge_cases d f).
    + assert (match iv_Before iv with Some b => d < b | None => True end) by (destruct (iv_Before iv); [lia | done]).
      assert (~ f <= d) by lia. tauto.
    + assert (match iv_From p with Some l => l <= d | None => True end) by (destruct (iv_From p); [lia | done]).
      assert (~ d < f) by lia. tauto.
  - intros j Hj Hij. apply Forall_cons in Hj as [_ Hj]. constructor; done.
Qed.

Lemma join_spec ivs :
  StronglySorted iv_precedes ivs -> Forall iv_nonempty ivs ->
  StronglySorted iv_precedes (join_intervals ivs) /\ Forall iv_nonempty (join_intervals ivs) /\
  (forall d i v, names (join_intervals ivs) d i v <-> names ivs d i v).
Proof.
  intros Hs Hne. unfold join_intervals.
  assert (forall out, StronglySorted (flip iv_precedes) out -> Forall iv_nonempty out ->
    Forall (fun j => Forall (fun p => iv_precedes p j) out) ivs ->
    let out' := foldl join_step out ivs in
    StronglySorted (flip iv_precedes) out' /\ Forall iv_nonempty out' /\
    (forall d i v, names out' d i v <-> names out d i v \/ names ivs d i v)) as H.
  { induction Hs as [|iv ivs Hs IH Hf]; intros out Ho Hone Hall; simpl.
    - split; [done |]. split; [done |]. intros d i v. pose proof (names_nil d i v). tauto.
    - apply Forall_cons in Hne as [Hiv Hne]. apply Forall_cons in Hall as [Hp Hall].
      destruct (join_step_spec out iv Ho Hone Hiv Hp) as (J1 & J2 & J3 & J4).
      destruct (IH Hne (join_step out iv) J1 J2) as (K1 & K2 & K3).
      + rewrite Forall_forall in Hall, Hf |- *. intros j Hj. by apply J4; [apply Hall | apply Hf].
      + split; [done |]. split; [done |]. intros d i v. rewrite K3, J3, (names_cons iv ivs), names_cons.
        pose proof (names_nil d i v). tauto. }
  destruct (H [] ltac:(constructor) ltac:(constructor)) as (H1 & H2 & H3).
  { apply Forall_forall. constructor. }
  split; [by apply StronglySorted_rev |]. split; [by rewrite <- Permutation_rev |].
  intros d i v. transitivity (names (foldl join_step [] ivs) d i v).
  - unfold names. by setoid_rewrite <- Permutation_rev.
  - rewrite H3. pose proof (names_nil d i v). tauto.
Qed.

(** * Missed events *)

(** Days that periods apart from each other hold without a break lie in one of
    them. *)
Lemma apart_one cover a b :
  StronglySorted apart cover -> Forall p_nonempty cover -> a < b ->
  (forall x, a <= x < b -> AnyContains cover x = true) -> exists p, p ∈ cover /\ p_From p <= a /\ b <= p_Before p.
Proof.
  intros Hs Hne Hab Hx. destruct (proj1 (AnyContains_spec _ _) (Hx a ltac:(lia))) as (p & Hp & Hc).
  apply Contains_spec in Hc. exists p. split; [done |]. split; [lia |].
  destruct (Z.le_gt_cases b (p_Before p)) as [|Hlt]; [done | exfalso].
  destruct (proj1 (AnyContains_spec _ _) (Hx (p_Before p) ltac:(lia))) as (q & Hq & Hd). apply Contains_spec in Hd.
  rewrite Forall_forall in Hne. pose proof (Hne p Hp). pose proof (Hne q Hq). unfold p_nonempty in *.
  destruct (elem_of_StronglySorted _ _ _ _ Hs Hp Hq) as [->|[?|?]]; unfold apart in *; lia.
Qed.

Lemma missed_held cover inf :
  StronglySorted apart cover -> Forall p_nonempty cover -> p_nonempty (inf_Period inf) ->
  existsb (fun p => negb (p_From (inf_Period inf) <? p_From p) && negb (p_Before p <? p_Before (inf_Period inf))) cover = true <->
  forall x, Contains (inf_Period inf) x = true -> AnyContains cover x = true.
Proof.
  intros Hs Hne Hp. rewrite existsb_elem. split.
  - intros (p & Hin & H) x Hx. apply Contains_spec in Hx. apply AnyContains_spec. exists p. split; [done |].
    apply Contains_spec. lia.
  - intros H. destruct (apart_one cover (p_From (inf_Period inf)) (p_Before (inf_Period inf)) Hs Hne Hp) as (p & Hin & ? & ?).
    + intros x Hx. apply H, Contains_spec. lia.
    + exists p. split; [done |]. lia.
Qed.

Lemma elem_of_missed inferred rows m :
  Forall p_nonempty (periods rows) ->
  Forall (fun inf => p_nonempty (inf_Period inf)) inferred ->
  m ∈ missed inferred rows (Union (periods rows)) <->
  me_Inferred m ∈ inferred /\
  (forall x, Contains (inf_Period (me_Inferred m)) x = true -> AnyContains (periods rows) x = true) /\
  exists i, rows !! i = Some (me_By m) /\ Contains (ac_Period (me_By m)) (p_From (inf_Period (me_Inferred m))) = true /\
    forall j r, (j < i)%nat -> rows !! j = Some r -> Contains (ac_Period r) (p_From (inf_Period (me_Inferred m))) = false.
Proof.
  intros Hrows Hinf. destruct (Union_apart _ Hrows) as [U1 U2]. unfold missed. rewrite elem_of_concat_map.
  rewrite Forall_forall in Hinf. split.
  - intros (inf & Hin & Hm). destruct (index_func _ rows) as [i|] eqn:Ei; [| by apply not_elem_of_nil in Hm].
    destruct (existsb _ _) eqn:Eh; [| by apply not_elem_of_nil in Hm].
    apply index_func_Some in Ei as (r & Er & Hc & Hlt). rewrite Er in Hm. apply list_elem_of_singleton in Hm as ->. simpl.
    split; [done |]. split; [| by exists i]. intros x Hx. rewrite <- Union_contains.
    by apply (proj1 (missed_held _ _ U2 U1 (Hinf _ Hin)) Eh).
  - intros (Hin & Hall & i & Hi & Hc & Hlt). exists (me_Inferred m). split; [done |].
    rewrite (proj2 (index_func_Some _ _ i)); [| by exists (me_By m)].
    rewrite (proj2 (missed_held _ _ U2 U1 (Hinf _ Hin))).
    + rewrite Hi. apply list_elem_of_singleton. by destruct m.
    + intros x Hx. rewrite Union_contains. by apply Hall.
Qed.

(** * Inferred changes *)

(** The change that the consecutive winners [w] and [v] imply. *)
Definition implies_change (bounds : list time) (ws : list winner) (cover : list Period) (inf : Inferred) (w v : winner) : Prop :=
  w ∈ ws /\ v ∈ ws /\ w_before w <= w_from v /\
  (forall u, u ∈ ws -> w_before u <= w_before w \/ w_from v <= w_from u) /\
  (forall c, c ∈ bounds -> c <= w_from w \/ w_from v < c) /\
  inf_From inf = w_instr w /\ inf_To inf = w_instr v /\ inf_From inf <> inf_To inf /\
  inf_Earlier inf = w_assertion w /\ inf_Later inf = w_assertion v /\
  p_Before (inf_Period inf) = next (w_from v) /\ w_before w <= p_From (inf_Period inf) <= w_from v /\
  match inf_From inf with
  | Some _ => forall x, w_before w <= x < p_From (inf_Period inf) -> AnyContains cover x = true
  | None => p_From (inf_Period inf) = w_before w
  end.

(** The change between two spans. *)
Definition span_change (cover : list Period) (r n : span) : Inferred :=
  MkInferred
    (MkPeriod (match s_instr r with Some _ => forward (s_before r) (Some (s_from n)) cover | None => s_before r end)
       (next (s_from n))) (s_instr r) (s_instr n) (s_tail r) (s_head n).

Lemma segment_loop_changes cover stop : forall ss first floor,
  (segment_loop first floor ss stop cover).2 = zip_with (span_change cover) ss (tail ss).
Proof.
  induction ss as [|r ss IH]; intros first floor; [done |]. cbn [segment_loop].
  destruct (s_instr r) as [i|] eqn:Er.
  - specialize (IH false (match ss with n :: _ => Some (s_from n) | [] => stop end)).
    destruct (segment_loop false _ ss stop cover) as [ivs infs]. cbn [snd] in *. rewrite IH.
    destruct ss as [|n ss]; [done |]. simpl. f_equal. unfold span_change. by rewrite Er.
  - specialize (IH false (Some (s_before r))). destruct (segment_loop false _ ss stop cover) as [ivs infs]. cbn [snd] in *.
    rewrite IH. destruct ss as [|n ss]; [done |]. simpl. f_equal. unfold span_change. by rewrite Er.
Qed.

Lemma sorted_adjacent (ss : list span) k s t :
  StronglySorted (fun s t => s_before s <= s_from t) ss -> Forall (fun s => s_from s < s_before s) ss ->
  ss !! k = Some s -> ss !! S k = Some t ->
  s_before s <= s_from t /\ forall u, u ∈ ss -> s_before u <= s_before s \/ s_from t <= s_from u.
Proof.
  intros Hs Hne Hk Ht. revert k Hk Ht. induction Hs as [|x ss Hs IH Hf]; intros k Hk Ht; [done |].
  apply Forall_cons in Hne as [Hx Hne]. rewrite Forall_forall in Hf. destruct k as [|k]; simpl in *.
  - injection Hk as ->. destruct ss as [|y ss]; [done |]. injection Ht as ->. split; [apply Hf; left |].
    intros u [->|Hu]%elem_of_cons; [left; lia | right]. apply elem_of_cons in Hu as [->|Hu]; [lia |].
    inversion_clear Hs as [|? ? _ Hf']. rewrite Forall_forall in Hf'. specialize (Hf' u Hu).
    apply Forall_cons in Hne as [Ht _]. lia.
  - destruct (IH Hne k Hk Ht) as [H1 H2]. split; [done |]. intros u [->|Hu]%elem_of_cons; [left | by apply H2].
    specialize (Hf s (list_elem_of_lookup_2 _ _ _ Hk)). rewrite Forall_forall in Hne.
    specialize (Hne s (list_elem_of_lookup_2 _ _ _ Hk)). simpl in *. lia.
Qed.

Lemma segment_changes start stop ws cover inf :
  winners_ok ws -> cover_ok cover -> inf ∈ (segment (spans ws) start stop cover).2 ->
  exists w v, implies_change [] ws cover inf w v.
Proof.
  intros Hok Hcov Hin. unfold segment in Hin. rewrite segment_loop_changes in Hin.
  apply list_elem_of_lookup in Hin as [k Hk]. rewrite lookup_zip_with in Hk.
  destruct (spans ws !! k) as [r|] eqn:Er; [| done]. simpl in Hk. rewrite lookup_tail in Hk.
  destruct (spans ws !! S k) as [n|] eqn:En; [| done]. injection Hk as <-.
  destruct (spans_meets ws Hok) as [S1 S2 S3 S4]. pose proof (spans_differ ws k r n Hok Er En) as Hdiff.
  destruct (sorted_adjacent _ _ _ _ S2 S1 Er En) as [Hle Hadj].
  pose proof (list_elem_of_lookup_2 _ _ _ Er) as Hr. pose proof (list_elem_of_lookup_2 _ _ _ En) as Hn.
  destruct (S4 r Hr) as (_ & w & _ & Hw & _ & Iw & _ & Ew & _ & Aw).
  destruct (S4 n Hn) as (v & _ & Hv & _ & Iv & _ & Ev & _ & Av & _).
  destruct (forward_spec cover (s_before r) (Some (s_from n)) (co_sorted _ Hcov) (co_nonempty _ Hcov)) as (F1 & F2 & _).
  simpl in F1. exists w, v. unfold implies_change, span_change. simpl. rewrite Iw, Iv, Ew, Ev, Aw, Av.
  repeat (split; [done |]). split.
  { intros u Hu. destruct (S3 u Hu) as (t & Ht & _ & G1 & G2). destruct (Hadj t Ht); [left | right]; lia. }
  split; [by intros c []%not_elem_of_nil |]. repeat (split; [done |]).
  destruct (s_instr r); (split; [lia |]); [by apply F2 | done].
Qed.

Lemma derive_loop_changes cover inf : forall bounds start ws,
  winners_ok ws -> cover_ok cover -> StronglySorted Z.lt bounds ->
  (forall w c, w ∈ ws -> c ∈ bounds -> ~ w_from w < c < w_before w) ->
  inf ∈ (derive_loop bounds start ws cover).2 -> exists w v, implies_change bounds ws cover inf w v.
Proof.
  induction bounds as [|e bounds IH]; intros start ws Hok Hcov Hs Hcut; cbn [derive_loop].
  - destruct (take_segment None ws) as [seg rest] eqn:Et.
    destruct (take_segment_spec _ _ _ _ Hok Et) as (-> & _ & Hrest).
    assert (rest = []) as ->.
    { destruct rest as [|w rest]; [done | exfalso]. by apply (Hrest w ltac:(left)). }
    rewrite app_nil_r in *. pose proof (segment_changes start None seg cover inf Hok Hcov) as Hp.
    destruct (segment (spans seg) start None cover) as [ivs infs]. done.
  - destruct (take_segment (Some e) ws) as [seg rest] eqn:Et.
    destruct (take_segment_spec _ _ _ _ Hok Et) as (-> & Hseg & Hrest). simpl in Hseg, Hrest.
    destruct (winners_ok_app _ _ Hok) as [Hok1 Hok2]. pose proof (proj2 Hok) as Hne. rewrite Forall_forall in Hne.
    inversion_clear Hs as [|? ? Hs' Hlt]. rewrite Forall_forall in Hlt.
    pose proof (segment_changes start (Some e) seg cover inf Hok1 Hcov) as Hp.
    pose proof (IH (Some e) rest Hok2 Hcov Hs') as Hd.
    destruct (segment (spans seg) start (Some e) cover) as [ivs infs].
    destruct (derive_loop bounds (Some e) rest cover) as [ivs' infs']. cbn [snd] in *.
    intros [Hin|Hin]%elem_of_app.
    + destruct (Hp Hin) as (w & v & Hw & Hv & H1 & H2 & _ & H3). exists w, v.
      split; [apply elem_of_app; by left |]. split; [apply elem_of_app; by left |]. split; [done |]. split; [| split; [| done]].
      * intros u [Hu|Hu]%elem_of_app; [by apply H2 | right]. specialize (Hrest u Hu). specialize (Hseg v Hv). lia.
      * intros c Hc. right. specialize (Hseg v Hv). apply elem_of_cons in Hc as [->|Hc]; [lia |]. specialize (Hlt c Hc). lia.
    + destruct Hd as (w & v & Hw & Hv & H1 & H2 & H2' & H3); [| done |].
      { intros w c Hw Hc. apply Hcut; [apply elem_of_app |]; by right. }
      exists w, v. split; [apply elem_of_app; by right |]. split; [apply elem_of_app; by right |]. split; [done |].
      split; [| split; [| done]].
      * intros u [Hu|Hu]%elem_of_app; [left | by apply H2]. specialize (Hseg u Hu). specialize (Hrest w Hw).
        pose proof (Hne u ltac:(apply elem_of_app; by left)). pose proof (Hne w ltac:(apply elem_of_app; by right)).
        pose proof (Hcut u e ltac:(apply elem_of_app; by left) ltac:(left)). lia.
      * intros c Hc. apply elem_of_cons in Hc as [->|Hc]; [left; specialize (Hrest w Hw); lia | by apply H2'].
Qed.

(** * What [derive] answers *)

(** What the schema of [010_ticker_validity.sql] checks of stored facts: no
    period is empty, and a period of coverage holds whole days. *)
Record facts_ok (f : facts) : Prop := {
  fo_assertions : assertions_ok (f_Assertions f);
  fo_cover : Forall p_nonempty (periods (f_AssertionCoverage f));
  fo_cover_days : Forall p_days (periods (f_AssertionCoverage f));
}.

(** The edge [e] of the facts cuts: no attestation overrules it. *)
Definition cuts_at (l : list Assertion) (es : list Edge) (c : time) : Prop :=
  exists e, e ∈ es /\ e_At e = c /\ overruled e l = false.

Definition cut_days (l : list Assertion) (es : list Edge) : list time :=
  cuts (List.filter (fun e => negb (overruled e l)) es).

Lemma elem_of_cut_days l es c : c ∈ cut_days l es <-> cuts_at l es c.
Proof.
  unfold cut_days. rewrite cuts_spec. setoid_rewrite elem_of_lfilter. setoid_rewrite negb_true_iff.
  unfold cuts_at. naive_solver.
Qed.

Definition cover_of (f : facts) : list Period := Union (periods (f_AssertionCoverage f)).

(** The steps of one [derive]: what is current, who wins, and what the segments
    hold. *)
Record derive_steps (f : facts) (l : list Assertion) (es : list Edge) (dv : derived) : Prop := {
  dt_current : current (f_Assertions f) = Some (l, es);
  dt_winners : winners l es = (dv_winners dv, dx_Disagreements (dv_Diagnosis dv));
  dt_winners_ok : winners_ok (dv_winners dv);
  dt_cover : cover_ok (cover_of f);
  dt_sorted : StronglySorted iv_precedes (dv_Intervals dv);
  dt_nonempty : Forall iv_nonempty (dv_Intervals dv);
  dt_names : exists ivs, derive_post None (cut_days l es) (dv_winners dv) (cover_of f) ivs /\
    forall d i v, names (dv_Intervals dv) d i v <-> names ivs d i v;
  dt_inferred inf : inf ∈ dv_Inferred dv -> exists w v, implies_change (cut_days l es) (dv_winners dv) (cover_of f) inf w v;
  dt_missed : dx_Missed (dv_Diagnosis dv) = missed (dv_Inferred dv) (f_AssertionCoverage f) (cover_of f);
  dt_broken : dx_Broken (dv_Diagnosis dv) = broken (dv_winners dv) (List.filter (fun e => negb (overruled e l)) es);
}.

Lemma cover_of_ok f : facts_ok f -> cover_ok (cover_of f).
Proof. intros [_ H1 H2]. destruct (Union_apart _ H1). split; try done. by apply Union_days. Qed.

Lemma derive_steps_of f : facts_ok f -> exists l es dv, derive f = Some dv /\ derive_steps f l es dv.
Proof.
  intros Hf. pose proof (fo_assertions f Hf) as Hok. unfold derive. rewrite current_eq by done. cbn [mbind option_bind].
  destruct (current_spec (f_Assertions f)) as [l es] eqn:Ec.
  assert (current (f_Assertions f) = Some (l, es)) as Hc by (rewrite current_eq, Ec; done).
  pose proof (current_ok _ _ _ Hok Hc) as Hl. destruct (winners l es) as [ws gs] eqn:Ew.
  pose proof (winners_meets l es ws gs Hl Ew) as Hw. pose proof (cover_of_ok f Hf) as Hcov.
  assert (winners_ok ws) as Hwok.
  { split; [apply Hw |]. apply Forall_forall. intros w. apply Hw. }
  assert (forall w c, w ∈ ws -> c ∈ cut_days l es -> ~ w_from w < c < w_before w) as Hcut.
  { intros w c Hin (e & He & <- & _)%elem_of_cut_days. by apply (wp_cut _ _ _ _ Hw). }
  assert (StronglySorted Z.lt (cut_days l es)) as Hs by apply sorted_times_sorted.
  pose proof (derive_loop_spec (cover_of f) (cut_days l es) None ws Hwok Hcov Hs (fun _ _ => I) (fun _ _ => I) Hcut) as Hp.
  pose proof (fun inf => derive_loop_changes (cover_of f) inf (cut_days l es) None ws Hwok Hcov Hs Hcut) as Hi.
  fold (cover_of f). fold (cut_days l es). destruct (derive_loop (cut_days l es) None ws (cover_of f)) as [ivs infs] eqn:Ed.
  cbn [fst snd] in *. exists l, es. eexists. split; [reflexivity |].
  destruct (join_spec ivs (dp_sorted _ _ _ _ _ Hp)) as (J1 & J2 & J3).
  { eapply Forall_impl; [exact (dp_within _ _ _ _ _ Hp) |]. by intros ? []. }
  split; simpl; try done. by exists ivs.
Qed.

Lemma derive_inv f dv : facts_ok f -> derive f = Some dv -> exists l es, derive_steps f l es dv.
Proof. intros Hf Hd. destruct (derive_steps_of f Hf) as (l & es & dv' & Hd' & H). simplify_eq. eauto. Qed.

(** An interval names the instrument of an assertion. *)
Lemma derive_instr f dv iv : facts_ok f -> derive f = Some dv -> iv ∈ dv_Intervals dv ->
  exists a, a ∈ f_Assertions f /\ as_Instr a = Some (iv_Instr iv).
Proof.
  intros Hf Hd Hiv. destruct (derive_inv f dv Hf Hd) as (l & es & H). destruct (dt_names _ _ _ _ H) as (ivs & Hp & Hnn).
  assert (exists d, Interval_Contains iv d = true) as [d Hc].
  { pose proof (proj1 (Forall_forall _ _) (dt_nonempty _ _ _ _ H) iv Hiv) as Hne. unfold iv_nonempty in Hne. setoid_rewrite Interval_Contains_spec.
    destruct (iv_From iv) as [from|], (iv_Before iv) as [before|]; simpl; [exists from | exists from | exists (before - 1) | exists 0]; split; try done; lia. }
  assert (names (dv_Intervals dv) d (iv_Instr iv) (iv_Validity iv)) as Hn by (by exists iv). apply Hnn, (dp_sound _ _ _ _ _ Hp) in Hn.
  destruct Hn as (w & _ & Hw & _ & Hi & _). assert (assertions_ok (f_Assertions f)) as Hok by (by destruct Hf).
  assert (assertions_ok l) as Hl by (by eapply current_ok; [| apply H]).
  pose proof (winners_meets l es _ _ Hl (dt_winners _ _ _ _ H)) as Hpost.
  destruct (wp_wins _ _ _ _ Hpost w (w_from w) Hw) as ([Ha _] & _ & _).
  { pose proof (wp_nonempty _ _ _ _ Hpost w Hw). apply Contains_spec. unfold w_period. simpl. lia. }
  rewrite (wp_instr _ _ _ _ Hpost w Hw) in Hi. pose proof (dt_current _ _ _ _ H) as Hcur. rewrite current_eq in Hcur by done.
  unfold current_spec in Hcur. injection Hcur as <- _. apply elem_of_concat_map in Ha as (a & Ha & Hx).
  destruct (current_piece _ a _ Hok Hx) as [(Ei & _) _]. exists a. split; [done | congruence].
Qed.

Lemma sorted_one_day ivs x y d :
  StronglySorted iv_precedes ivs -> x ∈ ivs -> y ∈ ivs ->
  Interval_Contains x d = true -> Interval_Contains y d = true -> x = y.
Proof.
  intros Hs Hx Hy. rewrite !Interval_Contains_spec. unfold from_le.
  destruct (elem_of_StronglySorted _ _ _ _ Hs Hx Hy) as [->|[H|H]]; [done | ..]; unfold iv_precedes in H; intros [? ?] [? ?];
    destruct (iv_Before x), (iv_From y), (iv_Before y), (iv_From x); try done; lia.
Qed.

(** * Properties *)

(** C1: [derive] ends on any stored facts, and the intervals it answers meet
    the constraints of [ticker_validity]: they are in order of their days, none
    is empty, and no day lies in two of them. *)
Theorem derive_intervals f :
  facts_ok f ->
  exists dv, derive f = Some dv /\
    StronglySorted iv_precedes (dv_Intervals dv) /\ Forall iv_nonempty (dv_Intervals dv) /\
    forall x y d, x ∈ dv_Intervals dv -> y ∈ dv_Intervals dv ->
      Interval_Contains x d = true -> Interval_Contains y d = true -> x = y.
Proof.
  intros Hf. destruct (derive_steps_of f Hf) as (l & es & dv & Hd & H). exists dv.
  pose proof (dt_sorted _ _ _ _ H). repeat split; try done; [apply H |]. intros. by eapply sorted_one_day.
Qed.

(** C3: ticker validity is confirmed on every day a winning assertion names an
    instrument, and names that instrument; on a day a negative assertion wins
    the ticker names nothing. *)
Theorem derive_follows_winners f dv w d :
  facts_ok f -> derive f = Some dv -> w ∈ dv_winners dv -> w_holds w d = true ->
  match w_instr w with
  | Some i => names (dv_Intervals dv) d i Confirmed
  | None => forall i v, ~ names (dv_Intervals dv) d i v
  end.
Proof.
  intros Hf Hd Hw Hc. destruct (derive_inv f dv Hf Hd) as (l & es & H). destruct (dt_names _ _ _ _ H) as (ivs & Hp & Hn).
  destruct (w_instr w) as [i|] eqn:Ei.
  - apply Hn. by apply (dp_confirm _ _ _ _ _ Hp w).
  - intros i v (iv & Hiv & Hx & _)%Hn. by rewrite (dp_none _ _ _ _ _ Hp w d Hw Ei Hc iv Hiv) in Hx.
Qed.

(** From a winning assertion of an instrument on, the instrument keeps every
    day up to the next cut or the next winning assertion, without bound where
    there is none; and the first assertion after a cut, or the first of all,
    takes the days back to the cut, or without bound. *)
Theorem derive_extends f dv l es w i d :
  facts_ok f -> derive f = Some dv -> current (f_Assertions f) = Some (l, es) ->
  w ∈ dv_winners dv -> w_instr w = Some i ->
  (w_from w <= d /\ (forall v, v ∈ dv_winners dv -> w_from w < w_from v -> d < w_from v) /\
     (forall c, cuts_at l es c -> w_from w < c -> d < c)) \/
  (d < w_from w /\ (forall c, cuts_at l es c -> d < c -> w_from w < c) /\
     (forall v, v ∈ dv_winners dv -> w_from v < w_from w -> exists c, cuts_at l es c /\ w_from v < c <= d)) ->
  exists v, names (dv_Intervals dv) d i v.
Proof.
  intros Hf Hd Hc Hw Hi Hcase. destruct (derive_inv f dv Hf Hd) as (l' & es' & H).
  rewrite (dt_current _ _ _ _ H) in Hc. simplify_eq. destruct (dt_names _ _ _ _ H) as (ivs & Hp & Hn).
  setoid_rewrite Hn. setoid_rewrite <- elem_of_cut_days in Hcase. destruct Hcase as [(H1 & H2 & H3)|(H1 & H2 & H3)].
  - by apply (dp_keeps _ _ _ _ _ Hp w).
  - by apply (dp_head _ _ _ _ _ Hp w).
Qed.

(** C2: an instrument is named on a day only by evidence: two winning assertions
    of it (or one twice) with no cut and no winning assertion of anything else
    among their days or between them and the day; and it is confirmed only where
    the day lies among theirs or assertion coverage joins it to them. *)
Theorem derive_evidence f dv l es d i v :
  facts_ok f -> derive f = Some dv -> current (f_Assertions f) = Some (l, es) ->
  names (dv_Intervals dv) d i v -> evidence (cut_days l es) (dv_winners dv) (cover_of f) d i v.
Proof.
  intros Hf Hd Hc Hn. destruct (derive_inv f dv Hf Hd) as (l' & es' & H).
  rewrite (dt_current _ _ _ _ H) in Hc. simplify_eq. destruct (dt_names _ _ _ _ H) as (ivs & Hp & Hnn).
  apply (dp_sound _ _ _ _ _ Hp), Hnn, Hn.
Qed.

(** An inferred change is implied by two winning assertions that name
    different things, with no winner and no cut between them; it took effect no
    earlier than the days the earlier one keeps through coverage end, and no
    later than the later one. *)
Theorem derive_changes f dv l es inf :
  facts_ok f -> derive f = Some dv -> current (f_Assertions f) = Some (l, es) -> inf ∈ dv_Inferred dv ->
  exists w v, implies_change (cut_days l es) (dv_winners dv) (cover_of f) inf w v.
Proof.
  intros Hf Hd Hc Hin. destruct (derive_inv f dv Hf Hd) as (l' & es' & H).
  rewrite (dt_current _ _ _ _ H) in Hc. simplify_eq. by apply (dt_inferred _ _ _ _ H).
Qed.

(** An event is reported missed exactly for an inferred change whose
    possible days assertion coverage holds in full, with the first row of
    coverage that holds the first of them. *)
Theorem derive_missed f dv m :
  facts_ok f -> derive f = Some dv ->
  m ∈ dx_Missed (dv_Diagnosis dv) <->
  me_Inferred m ∈ dv_Inferred dv /\
  (forall x, Contains (inf_Period (me_Inferred m)) x = true ->
     AnyContains (periods (f_AssertionCoverage f)) x = true) /\
  exists k, f_AssertionCoverage f !! k = Some (me_By m) /\
    Contains (ac_Period (me_By m)) (p_From (inf_Period (me_Inferred m))) = true /\
    forall j r, (j < k)%nat -> f_AssertionCoverage f !! j = Some r ->
      Contains (ac_Period r) (p_From (inf_Period (me_Inferred m))) = false.
Proof.
  intros Hf Hd. destruct (derive_inv f dv Hf Hd) as (l & es & H). rewrite (dt_missed _ _ _ _ H).
  unfold cover_of. apply elem_of_missed; [apply Hf |]. apply Forall_forall. intros inf Hin.
  destruct (dt_inferred _ _ _ _ H inf Hin) as (w & v & K). unfold p_nonempty. pose proof day_len_pos.
  destruct K as (_ & _ & _ & _ & _ & _ & _ & _ & _ & _ & -> & K & _). unfold next, AddDays. lia.
Qed.

(** ** Examples: one datasource names two instruments in turn, and the event
    source covers the days after the first. *)

Definition ex_facts : facts :=
  MkFacts
    [ex_assertion 10 11 (Some 1%N) ex_better; ex_assertion 20 21 (Some 2%N) ex_better]
    [MkAssertionCoverage (MkPeriod (ex_day 9) (ex_day 30)) ex_better].

Lemma ex_facts_ok : facts_ok ex_facts.
Proof. split; repeat constructor. Defined.

Definition ex_winner_1 : winner := MkWinner (ex_day 10) (ex_day 11) (Some 1%N) (ex_assertion 10 11 (Some 1%N) ex_better).
Definition ex_winner_2 : winner := MkWinner (ex_day 20) (ex_day 21) (Some 2%N) (ex_assertion 20 21 (Some 2%N) ex_better).

Definition ex_change : Inferred :=
  MkInferred (MkPeriod (ex_day 20) (ex_day 21)) (Some 1%N) (Some 2%N)
    (ex_assertion 10 11 (Some 1%N) ex_better) (ex_assertion 20 21 (Some 2%N) ex_better).

Definition ex_missed : MissedEvent :=
  MkMissedEvent ex_change (MkAssertionCoverage (MkPeriod (ex_day 9) (ex_day 30)) ex_better).

Definition ex_derived : derived :=
  MkDerived (MkDiagnosis [] [] [ex_missed])
    [MkInterval None (Some (ex_day 9)) 1%N Provisional; MkInterval (Some (ex_day 9)) (Some (ex_day 20)) 1%N Confirmed;
     MkInterval (Some (ex_day 20)) (Some (ex_day 30)) 2%N Confirmed; MkInterval (Some (ex_day 30)) None 2%N Provisional]
    [ex_change] [ex_winner_1; ex_winner_2].

Lemma ex_derived_run : derive ex_facts = Some ex_derived.
Proof. vm_compute. reflexivity. Defined.

Lemma ex_current_run : current (f_Assertions ex_facts) = Some (f_Assertions ex_facts, []).
Proof. vm_compute. reflexivity. Defined.

Lemma derive_intervals_witness :
  facts_ok ex_facts /\ exists dv, derive ex_facts = Some dv /\ StronglySorted iv_precedes (dv_Intervals dv).
Proof.
  split; [exact ex_facts_ok |]. destruct (derive_intervals ex_facts ex_facts_ok) as (dv & H1 & H2 & _). by exists dv.
Defined.

Lemma derive_follows_winners_witness :
  w_holds ex_winner_1 (ex_day 10) = true /\ names (dv_Intervals ex_derived) (ex_day 10) 1%N Confirmed.
Proof.
  split; [vm_compute; reflexivity |].
  apply (derive_follows_winners ex_facts ex_derived ex_winner_1 (ex_day 10) ex_facts_ok ex_derived_run); [left | vm_compute; reflexivity].
Defined.

Lemma derive_extends_witness :
  w_from ex_winner_2 <= ex_day 400 /\ exists v, names (dv_Intervals ex_derived) (ex_day 400) 2%N v.
Proof.
  split; [vm_compute; discriminate |].
  apply (derive_extends ex_facts ex_derived (f_Assertions ex_facts) [] ex_winner_2 2%N (ex_day 400) ex_facts_ok
    ex_derived_run ex_current_run); [right; left | reflexivity |].
  left. split; [vm_compute; discriminate |]. split; [| by intros c (e & []%not_elem_of_nil & _)].
  intros v [->|[->|[]%not_elem_of_nil]%elem_of_cons]%elem_of_cons; intros H; vm_compute in H; discriminate.
Defined.

Lemma derive_evidence_witness :
  names (dv_Intervals ex_derived) (ex_day 15) 1%N Confirmed /\
  evidence (cut_days (f_Assertions ex_facts) []) (dv_winners ex_derived) (cover_of ex_facts) (ex_day 15) 1%N Confirmed.
Proof.
  assert (names (dv_Intervals ex_derived) (ex_day 15) 1%N Confirmed) as Hn.
  { eexists. split; [right; left |]. repeat split; vm_compute; reflexivity. }
  split; [exact Hn |].
  exact (derive_evidence ex_facts ex_derived _ [] _ _ _ ex_facts_ok ex_derived_run ex_current_run Hn).
Defined.

Lemma derive_changes_witness :
  ex_change ∈ dv_Inferred ex_derived /\
  exists w v, implies_change (cut_days (f_Assertions ex_facts) []) (dv_winners ex_derived) (cover_of ex_facts) ex_change w v.
Proof.
  split; [left |].
  refine (derive_changes ex_facts ex_derived _ [] ex_change ex_facts_ok ex_derived_run ex_current_run _). left.
Defined.

Lemma derive_missed_witness :
  ex_missed ∈ dx_Missed (dv_Diagnosis ex_derived) /\ me_Inferred ex_missed ∈ dv_Inferred ex_derived.
Proof.
  split; [left |]. refine (proj1 (proj1 (derive_missed ex_facts ex_derived ex_missed ex_facts_ok ex_derived_run) _)). left.
Defined.
