(* ===== verification/Validity.v ===== *)
(** Reading and naming by ticker validity,
    [server/internal/identity/tickervalidity]: the intervals of one ticker
    ([gaps.go]), and the ticker that names an instrument at a market
    ([resolveNames] of [resolved.go]). *)
From S2P Require Import Prelude Types Period Facts Winners Derive.

(** * Intervals of one ticker, [gaps.go] *)

Definition Any (ivs : list Interval) : bool := negb (bool_decide (ivs = [])).

Definition On (ivs : list Interval) (d : time) : option Interval :=
  find_func (fun iv => Interval_Contains iv d) ivs.

Definition confirmedOn (ivs : list Interval) (d : time) : bool :=
  match On ivs d with
  | Some iv => bool_decide (iv_Validity iv = Confirmed)
  | None => false
  end.

Definition unconfirmed_step (ivs : list Interval) (first : option time) (d : time) : option time :=
  if confirmedOn ivs d || match first with Some f => negb (d <? f) | None => false end then first else Some d.

Definition FirstUnconfirmed (ivs : list Interval) (dates : list time) : option time :=
  foldl (unconfirmed_step ivs) None dates.

Definition confirmed_clips (ivs : list Interval) (p : Period) : list Period :=
  omap (fun iv =>
    let '(c, ok) := Interval_Clip iv p in
    if ok && bool_decide (iv_Validity iv = Confirmed) then Some c else None) ivs.

Definition Intervals_Gaps (ivs : list Interval) (p : Period) : list Period := Gaps (confirmed_clips ivs p) p.

(** * The name of an instrument at a market, [resolved.go] *)

Record tickerFacts : Type := MkTickerFacts {
  tf_Ticker : MarketTicker;
  tf_Facts : facts;
  tf_Derived : derived;
}.

Record resolvedName : Type := MkResolvedName {
  rn_Ticker : MarketTicker;
  rn_Instr : uuid;
  rn_Stated : Stated;
  rn_From : option time;
  rn_Before : option time;
}.

(** The index of the last of [ivs] that names [instr], [None] for -1; the loop
    runs down from [n]. *)
Fixpoint lastNaming_from (ivs : list Interval) (instr : uuid) (n : nat) : option nat :=
  match n with
  | O => None
  | S i =>
      match ivs !! i with
      | Some iv => if bool_decide (iv_Instr iv = instr) then Some i else lastNaming_from ivs instr i
      | None => lastNaming_from ivs instr i
      end
  end.

Definition lastNaming (ivs : list Interval) (instr : uuid) : option nat := lastNaming_from ivs instr (length ivs).

(** The end [a] of an interval compared with [b], where nil is open. *)
Definition later (a b : option time) : comparison :=
  match a, b with
  | None, None => Eq
  | None, Some _ => Gt
  | Some _, None => Lt
  | Some a, Some b => Z.compare a b
  end.

Definition lastWon (t : tickerFacts) (instr : uuid) : time :=
  match find_func (fun w => bool_decide (w_instr w = Some instr)) (rev (dv_winners (tf_Derived t))) with
  | Some w => prev (w_before w)
  | None => zero_time
  end.

(** The variables [best], [bestEnd] and [bestWon], and one turn of the loop. *)
Definition best_name_step (instr : uuid) (best : option (tickerFacts * option time * time)) (t : tickerFacts) :
    option (tickerFacts * option time * time) :=
  let ivs := dv_Intervals (tf_Derived t) in
  match lastNaming ivs instr with
  | None => best
  | Some i =>
      let stop := match ivs !! i with Some iv => iv_Before iv | None => None end in
      let won := lastWon t instr in
      match best with
      | None => Some (t, stop, won)
      | Some (b, bestEnd, bestWon) =>
          if match later stop bestEnd with
             | Gt => true
             | Eq => (bestWon <? won) || ((won =? bestWon) && string_ltb (mt_Value (tf_Ticker t)) (mt_Value (tf_Ticker b)))
             | Lt => false
             end
          then Some (t, stop, won) else best
      end
  end.

(** The loop that moves [first] down while the intervals meet. *)
Fixpoint run_start (ivs : list Interval) (instr : uuid) (first : nat) : nat :=
  match first with
  | O => O
  | S k =>
      match ivs !! k, ivs !! first with
      | Some p, Some c =>
          if bool_decide (iv_Instr p = instr) && match iv_Before p, iv_From c with Some b, Some f => b =? f | _, _ => false end
          then run_start ivs instr k else first
      | _, _ => first
      end
  end.

(** [named], in the order of [slices.SortStableFunc]: the latest answer last,
    then the latest day. *)
Definition stated_cmp : Assertion -> Assertion -> comparison :=
  cmp_lex (cmp_on as_Source (cmp_flip newest)) (cmp_on (fun a => p_From (as_Period a)) Z.compare).

Definition stated_named (l : list Assertion) (instr : uuid) : list Assertion :=
  sort_func stated_cmp (List.filter (fun a => bool_decide (as_Instr a = Some instr)) l).

(** One turn of the loop over [named]: the slice [venues] and the map
    [byVenue]. *)
Definition venue_step (st : list string * gmap string string) (a : Assertion) : list string * gmap string string :=
  let v := st_Venue (as_Stated a) in
  if bool_decide (v = "") then st
  else
    let st := match st.2 !! v with None => (st.1 ++ [v], <[v := ""%string]> st.2) | Some _ => st end in
    if bool_decide (st_Currency (as_Stated a) = "") then st
    else (st.1, <[v := st_Currency (as_Stated a)]> st.2).

Definition stated (l : list Assertion) (instr : uuid) : list Stated :=
  let named := stated_named l instr in
  let '(venues, byVenue) := foldl venue_step ([], ∅) named in
  match venues with
  | [] =>
      [MkStated "" (foldl (fun c a => if bool_decide (st_Currency (as_Stated a) = "") then c else st_Currency (as_Stated a)) ""%string named)]
  | _ => map (fun v => MkStated v (default ""%string (byVenue !! v))) (sort_func String.compare venues)
  end.

Definition resolveNames (instr : uuid) (ts : list tickerFacts) : list resolvedName :=
  match foldl (best_name_step instr) None ts with
  | None => []
  | Some (best, _, _) =>
      let ivs := dv_Intervals (tf_Derived best) in
      match lastNaming ivs instr with
      | None => []
      | Some last =>
          let first := run_start ivs instr last in
          map (fun s => MkResolvedName (tf_Ticker best) instr s
                 (match ivs !! first with Some iv => iv_From iv | None => None end)
                 (match ivs !! last with Some iv => iv_Before iv | None => None end))
            (stated (f_Assertions (tf_Facts best)) instr)
      end
  end.

(** * Lemmas on the intervals of one ticker *)

(** The intervals that [derive] answers and the database stores. *)
Record intervals_ok (ivs : list Interval) : Prop := {
  io_sorted : StronglySorted iv_precedes ivs;
  io_nonempty : Forall iv_nonempty ivs;
}.

Lemma On_Some ivs d iv : intervals_ok ivs -> On ivs d = Some iv <-> iv ∈ ivs /\ Interval_Contains iv d = true.
Proof.
  intros [Hs _]. unfold On, find_func. split.
  - intros H. apply find_some in H as [H1 H2]. by rewrite list_elem_of_In.
  - intros [Hin Hc]. destruct (find _ ivs) as [jv|] eqn:E.
    + apply find_some in E as [H1 H2]. rewrite <- list_elem_of_In in H1. f_equal. by apply (sorted_one_day ivs jv iv d).
    + rewrite list_elem_of_In in Hin. pose proof (find_none _ _ E _ Hin) as H. simpl in H. congruence.
Qed.

Lemma On_None ivs d : On ivs d = None <-> forall iv, iv ∈ ivs -> Interval_Contains iv d = false.
Proof.
  unfold On, find_func. setoid_rewrite list_elem_of_In. split.
  - intros E iv. apply (find_none _ _ E).
  - intros H. destruct (find _ ivs) as [jv|] eqn:E; [| done]. apply find_some in E as [H1 H2]. rewrite H in H2; done.
Qed.

Lemma confirmedOn_spec ivs d : intervals_ok ivs -> confirmedOn ivs d = true <-> exists i, names ivs d i Confirmed.
Proof.
  intros Hok. unfold confirmedOn. destruct (On ivs d) as [iv|] eqn:E.
  - apply On_Some in E as [Hin Hc]; [| done]. rewrite bool_decide_eq_true. split.
    + intros Hv. exists (iv_Instr iv), iv. done.
    + intros (i & jv & Hj & Hjc & _ & Hv). rewrite <- Hv. f_equal. by apply (sorted_one_day ivs iv jv d (io_sorted _ Hok)).
  - split; [done |]. intros (i & iv & Hin & Hc & _). rewrite On_None in E. rewrite E in Hc; done.
Qed.

Lemma unconfirmed_fold ivs dates first :
  match foldl (unconfirmed_step ivs) first dates with
  | Some f => (first = Some f \/ f ∈ dates /\ confirmedOn ivs f = false) /\
      (forall g, first = Some g -> f <= g) /\ forall d, d ∈ dates -> confirmedOn ivs d = false -> f <= d
  | None => first = None /\ forall d, d ∈ dates -> confirmedOn ivs d = true
  end.
Proof.
  revert first. induction dates as [|d dates IH]; intros first; simpl.
  { destruct first as [f|]; [| split; [done |]; by intros ? []%not_elem_of_nil].
    split; [by left |]. split; [intros g [= ->]; lia | by intros ? []%not_elem_of_nil]. }
  specialize (IH (unconfirmed_step ivs first d)).
  assert (unconfirmed_step ivs first d = first /\ (confirmedOn ivs d = true \/ exists g, first = Some g /\ g <= d) \/
    unconfirmed_step ivs first d = Some d /\ confirmedOn ivs d = false /\ forall g, first = Some g -> d < g) as Hstep.
  { unfold unconfirmed_step. destruct (confirmedOn ivs d); simpl; [by auto |]. destruct first as [g|]; [| right; done].
    destruct (d <? g) eqn:E; simpl; [right | left]; (split; [done |]); [split; [done |]; intros ? [= <-]; lia | right; exists g; split; [done | lia]]. }
  destruct Hstep as [[Hst Hd]|(Hst & Hd & Hg)]; rewrite Hst in *; destruct (foldl _ _ dates) as [f|].
  - destruct IH as (H1 & H2 & H3). split; [rewrite elem_of_cons; naive_solver |]. split; [done |].
    intros e [->|He]%elem_of_cons Hc; [| by apply H3]. destruct Hd as [Hd|(g & Hg & ?)]; [congruence |]. specialize (H2 g Hg). lia.
  - destruct IH as [-> H2]. split; [done |]. intros e [->|He]%elem_of_cons; [| by apply H2]. by destruct Hd as [Hd|(g & ? & ?)].
  - destruct IH as (H1 & H2 & H3). specialize (H2 d eq_refl). split; [| split].
    + right. destruct H1 as [[= ->]|[? ?]]; rewrite elem_of_cons; auto.
    + intros g Hfg. specialize (Hg g Hfg). lia.
    + intros e [->|He]%elem_of_cons Hc; [lia | by apply H3].
  - by destruct IH.
Qed.

Lemma Interval_Clip_contains iv p d :
  match clip_opt p (MkPeriod (default (p_From p) (iv_From iv)) (default (p_Before p) (iv_Before iv))) with
  | Some c => Contains c d
  | None => false
  end = (Interval_Contains iv d && Contains p d)%bool.
Proof.
  rewrite <- clip_opt_contains. unfold Interval_Contains, Contains. destruct (iv_From iv), (iv_Before iv); simpl; lia.
Qed.

Lemma confirmed_clips_contains ivs p d :
  intervals_ok ivs -> AnyContains (confirmed_clips ivs p) d = (confirmedOn ivs d && Contains p d)%bool.
Proof.
  intros Hok. apply eq_true_iff_eq. rewrite AnyContains_spec, andb_true_iff, confirmedOn_spec by done.
  unfold confirmed_clips, names. setoid_rewrite list_elem_of_omap. split.
  - intros (c & (iv & Hiv & Hc) & Hd). unfold Interval_Clip in Hc.
    pose proof (Interval_Clip_contains iv p d) as H. unfold clip_opt in H. destruct (Clip p _) as [k ok].
    destruct ok; [| done]. simpl in Hc. case_bool_decide as Ev; [| done]. injection Hc as ->.
    rewrite Hd in H. symmetry in H. apply andb_true_iff in H as [H1 H2]. split; [| done]. exists (iv_Instr iv), iv. done.
  - intros [(i & iv & Hiv & Hd & _ & Hv) Hp]. pose proof (Interval_Clip_contains iv p d) as H.
    rewrite Hd, Hp in H. unfold clip_opt in H. destruct (Clip p _) as [k ok] eqn:E. destruct ok; [| done].
    exists k. split; [| done]. exists iv. split; [done |]. unfold Interval_Clip. rewrite E. simpl. by rewrite bool_decide_true.
Qed.

Lemma confirmed_clips_nonempty ivs p : Forall p_nonempty (confirmed_clips ivs p).
Proof.
  apply Forall_forall. intros c (iv & _ & Hc)%list_elem_of_omap. unfold Interval_Clip in Hc.
  pose proof (clip_opt_Some p (MkPeriod (default (p_From p) (iv_From iv)) (default (p_Before p) (iv_Before iv)))) as H.
  unfold clip_opt in H. destruct (Clip p _) as [k ok]. destruct ok; [| done]. simpl in Hc. case_bool_decide; [| done].
  injection Hc as ->. by destruct (H c eq_refl) as (_ & _ & ?).
Qed.

(** * Lemmas on names *)

Lemma lastNaming_from_spec ivs instr n :
  match lastNaming_from ivs instr n with
  | Some i => (i < n)%nat /\ (exists iv, ivs !! i = Some iv /\ iv_Instr iv = instr) /\
      forall j jv, (i < j < n)%nat -> ivs !! j = Some jv -> iv_Instr jv <> instr
  | None => forall j jv, (j < n)%nat -> ivs !! j = Some jv -> iv_Instr jv <> instr
  end.
Proof.
  induction n as [|n IH]; simpl; [lia |].
  assert (forall iv, ivs !! n = Some iv -> iv_Instr iv <> instr \/ iv_Instr iv = instr) as Hd by (intros iv _; destruct (decide (iv_Instr iv = instr)); auto).
  destruct (ivs !! n) as [iv|] eqn:En; [case_bool_decide as E |].
  - split; [lia |]. split; [by exists iv |]. lia.
  - destruct (lastNaming_from ivs instr n) as [i|].
    + destruct IH as (H1 & H2 & H3). split; [lia |]. split; [done |]. intros j jv Hj Hjv.
      destruct (decide (j = n)) as [->|]; [congruence | apply (H3 j); [lia | done]].
    + intros j jv Hj Hjv. destruct (decide (j = n)) as [->|]; [congruence | apply (IH j); [lia | done]].
  - destruct (lastNaming_from ivs instr n) as [i|].
    + destruct IH as (H1 & H2 & H3). split; [lia |]. split; [done |]. intros j jv Hj Hjv.
      destruct (decide (j = n)) as [->|]; [congruence | apply (H3 j); [lia | done]].
    + intros j jv Hj Hjv. destruct (decide (j = n)) as [->|]; [congruence | apply (IH j); [lia | done]].
Qed.

Lemma lastNaming_Some ivs instr i :
  lastNaming ivs instr = Some i ->
  (exists iv, ivs !! i = Some iv /\ iv_Instr iv = instr) /\
  forall j jv, (i < j)%nat -> ivs !! j = Some jv -> iv_Instr jv <> instr.
Proof.
  intros H. pose proof (lastNaming_from_spec ivs instr (length ivs)) as Hs. unfold lastNaming in H. rewrite H in Hs.
  destruct Hs as (_ & H2 & H3). split; [done |]. intros j jv Hj Hjv. apply (H3 j); [| done].
  split; [done | by eapply lookup_lt_Some].
Qed.

Lemma lastNaming_None ivs instr : lastNaming ivs instr = None <-> forall iv, iv ∈ ivs -> iv_Instr iv <> instr.
Proof.
  pose proof (lastNaming_from_spec ivs instr (length ivs)) as Hs. unfold lastNaming. split.
  - intros H. rewrite H in Hs. intros iv [j Hj]%list_elem_of_lookup. apply (Hs j); [by eapply lookup_lt_Some | done].
  - intros H. destruct (lastNaming_from ivs instr (length ivs)) as [i|]; [| done].
    destruct Hs as (_ & (iv & Hiv & E) & _). exfalso. eapply H; [by eapply list_elem_of_lookup_2 | done].
Qed.

#[export] Instance later_cmp : GoCmp later.
Proof.
  split; intros [] []; simpl; try done; [apply Z.compare_antisym | |].
  - intros []; [apply (cmp_trans Z.compare) | done].
  - by intros [].
Qed.

(** How two tickers of a market compare as the name of an instrument: the later
    end, then the later day won, then the lower value. *)
Definition name_key : Type := option time * time * string.

Definition name_cmp : name_key -> name_key -> comparison :=
  cmp_lex (cmp_on (fun k => k.1.1) later)
    (cmp_lex (cmp_on (fun k => k.1.2) Z.compare) (cmp_on (fun k => k.2) (cmp_flip String.compare))).

#[export] Instance name_cmp_cmp : GoCmp name_cmp.
Proof. apply _. Qed.

(** The key of a ticker that names [instr], by its last interval that does. *)
Definition name_of (instr : uuid) (t : tickerFacts) : option name_key :=
  i ← lastNaming (dv_Intervals (tf_Derived t)) instr;
  iv ← dv_Intervals (tf_Derived t) !! i;
  Some (iv_Before iv, lastWon t instr, mt_Value (tf_Ticker t)).

Lemma name_of_lastNaming instr t i :
  lastNaming (dv_Intervals (tf_Derived t)) instr = Some i ->
  exists iv, dv_Intervals (tf_Derived t) !! i = Some iv /\
    name_of instr t = Some (iv_Before iv, lastWon t instr, mt_Value (tf_Ticker t)).
Proof.
  intros H. destruct (lastNaming_Some _ _ _ H) as [(iv & Hiv & _) _]. exists iv. split; [done |].
  unfold name_of. rewrite H. simpl. by rewrite Hiv.
Qed.

(** The best of the tickers seen so far. *)
Definition best_inv (instr : uuid) (ts : list tickerFacts) (best : option (tickerFacts * option time * time)) : Prop :=
  match best with
  | Some (b, stop, won) => b ∈ ts /\ name_of instr b = Some (stop, won, mt_Value (tf_Ticker b)) /\
      forall t k, t ∈ ts -> name_of instr t = Some k -> name_cmp k (stop, won, mt_Value (tf_Ticker b)) <> Gt
  | None => forall t, t ∈ ts -> name_of instr t = None
  end.

Lemma best_step_inv instr ts best t :
  best_inv instr ts best -> best_inv instr (ts ++ [t]) (best_name_step instr best t).
Proof.
  intros Hinv. unfold best_name_step. destruct (lastNaming (dv_Intervals (tf_Derived t)) instr) as [i|] eqn:El.
  2: { assert (name_of instr t = None) as Hn by (unfold name_of; by rewrite El).
       destruct best as [[[b stop] won]|]; simpl in *; setoid_rewrite elem_of_app; setoid_rewrite list_elem_of_singleton.
       - destruct Hinv as (H1 & H2 & H3). split; [by left |]. split; [done |]. intros u k [Hu| ->]; [by apply H3 | congruence].
       - intros u [Hu| ->]; [by apply Hinv | done]. }
  destruct (name_of_lastNaming instr t i El) as (iv & Hiv & Hn). rewrite Hiv.
  destruct best as [[[b stop] won]|].
  - destruct Hinv as (H1 & H2 & H3).
    set (new := match later (iv_Before iv) stop with Gt => true | Eq => _ | Lt => false end).
    assert (new = true <-> name_cmp (iv_Before iv, lastWon t instr, mt_Value (tf_Ticker t)) (stop, won, mt_Value (tf_Ticker b)) = Gt) as Hnew.
    { unfold new, name_cmp, cmp_lex, cmp_or, cmp_on, cmp_flip, string_ltb. simpl. destruct (later (iv_Before iv) stop); try done.
      destruct (Z.compare_spec (lastWon t instr) won) as [->|?|?].
      - rewrite Z.ltb_irrefl, Z.eqb_refl. simpl.
        rewrite (cmp_opp String.compare (mt_Value (tf_Ticker t))). by destruct (String.compare (mt_Value (tf_Ticker t)) _).
      - replace (won <? lastWon t instr) with false by lia. by replace (lastWon t instr =? won) with false by lia.
      - by replace (won <? lastWon t instr) with true by lia. }
    destruct new; simpl; setoid_rewrite elem_of_app; setoid_rewrite list_elem_of_singleton.
    + split; [by right |]. split; [done |]. intros u k [Hu| ->] Hk.
      * apply (cmp_trans name_cmp k (stop, won, mt_Value (tf_Ticker b))); [by apply (H3 u) |].
        rewrite (cmp_opp name_cmp). by rewrite (proj1 Hnew eq_refl).
      * rewrite Hn in Hk. injection Hk as <-. by rewrite (cmp_refl name_cmp).
    + split; [by left |]. split; [done |]. intros u k [Hu| ->] Hk; [by apply (H3 u) |].
      rewrite Hn in Hk. injection Hk as <-. intros E. by apply Hnew in E.
  - simpl in *. setoid_rewrite elem_of_app. setoid_rewrite list_elem_of_singleton. split; [by right |]. split; [done |].
    intros u k [Hu| ->] Hk; [rewrite Hinv in Hk; done |]. rewrite Hn in Hk. injection Hk as <-. by rewrite (cmp_refl name_cmp).
Qed.

Lemma best_fold_inv instr ts : best_inv instr ts (foldl (best_name_step instr) None ts).
Proof.
  induction ts as [|t ts IH] using rev_ind; [by intros ? []%not_elem_of_nil |].
  rewrite foldl_app. by apply best_step_inv.
Qed.

(** The intervals from [run_start] to [last] name the instrument and meet. *)
Lemma run_start_spec ivs instr last iv :
  ivs !! last = Some iv -> iv_Instr iv = instr ->
  let k := run_start ivs instr last in
  (k <= last)%nat /\
  (exists kv, ivs !! k = Some kv) /\
  (forall j jv, (k <= j <= last)%nat -> ivs !! j = Some jv -> iv_Instr jv = instr) /\
  (forall j jv nv, (k <= j < last)%nat -> ivs !! j = Some jv -> ivs !! S j = Some nv ->
     exists d, iv_Before jv = Some d /\ iv_From nv = Some d).
Proof.
  revert iv. induction last as [|last IH]; intros iv Hiv Hi.
  { simpl. split; [lia |]. split; [by exists iv |]. split; [| lia]. intros j jv Hj Hjv.
    replace j with 0%nat in Hjv by lia. congruence. }
  cbn [run_start]. destruct (ivs !! last) as [p|] eqn:Ep.
  2: { apply lookup_ge_None in Ep. apply lookup_lt_Some in Hiv. lia. }
  rewrite Hiv. case_bool_decide as Epi; simpl.
  - destruct (match iv_Before p with Some b => match iv_From iv with Some f => b =? f | None => false end | None => false end) eqn:Em.
    + destruct (iv_Before p) as [b|] eqn:Eb; [| done]. destruct (iv_From iv) as [f|] eqn:Ef; [| done]. apply Z.eqb_eq in Em as ->.
      destruct (IH p eq_refl Epi) as (H1 & H2 & H3 & H4). split; [lia |]. split; [done |]. split.
      * intros j jv Hj Hjv. destruct (decide (j = S last)) as [->|]; [congruence | apply (H3 j); [lia | done]].
      * intros j jv nv Hj Hjv Hnv. destruct (decide (j = last)) as [->|]; [| apply (H4 j); [lia | done | done]].
        exists f. rewrite Ep in Hjv. rewrite Hiv in Hnv. by simplify_eq.
    + split; [lia |]. split; [by exists iv |]. split; [| lia]. intros j jv Hj Hjv.
      replace j with (S last) in Hjv by lia. congruence.
  - split; [lia |]. split; [by exists iv |]. split; [| lia]. intros j jv Hj Hjv.
    replace j with (S last) in Hjv by lia. congruence.
Qed.

(** Days between intervals that meet are named throughout. *)
Lemma run_names ivs instr k last kv lv d :
  (k <= last)%nat -> ivs !! k = Some kv -> ivs !! last = Some lv ->
  (forall j jv, (k <= j <= last)%nat -> ivs !! j = Some jv -> iv_Instr jv = instr) ->
  (forall j jv nv, (k <= j < last)%nat -> ivs !! j = Some jv -> ivs !! S j = Some nv ->
     exists d, iv_Before jv = Some d /\ iv_From nv = Some d) ->
  from_le (iv_From kv) d -> day_before d (iv_Before lv) -> exists v, names ivs d instr v.
Proof.
  intros Hle Hk Hl Hi Hm Hf Hb. remember (last - k)%nat as n eqn:En. revert k kv Hle Hk Hi Hm Hf En.
  induction n as [|n IH]; intros k kv Hle Hk Hi Hm Hf En.
  - assert (k = last) as -> by lia. rewrite Hk in Hl. injection Hl as ->. exists (iv_Validity lv), lv.
    split; [by eapply list_elem_of_lookup_2 |]. split; [by apply Interval_Contains_spec |]. split; [| done].
    apply (Hi last); [lia | done].
  - destruct (ivs !! S k) as [nv|] eqn:Enx.
    2: { apply lookup_ge_None in Enx. apply lookup_lt_Some in Hl. lia. }
    destruct (Hm k kv nv) as (e & E1 & E2); [lia | done | done |].
    destruct (Z.lt_ge_cases d e).
    + exists (iv_Validity kv), kv. split; [by eapply list_elem_of_lookup_2 |]. split.
      * apply Interval_Contains_spec. by rewrite E1.
      * split; [apply (Hi k); [lia | done] | done].
    + apply (IH (S k) nv); try done; try lia.
      * intros j jv Hj. apply Hi. lia.
      * intros j jv nv' Hj. apply Hm. lia.
      * unfold from_le. by rewrite E2.
Qed.

(** ** What an instrument's assertions state *)

(** The currency of the last of [l] at the venue [v] that states one. *)
Definition last_currency (l : list Assertion) (v : string) : string :=
  foldl (fun c a => if bool_decide (st_Venue (as_Stated a) = v) && negb (bool_decide (st_Currency (as_Stated a) = ""))
                    then st_Currency (as_Stated a) else c) ""%string l.

Lemma last_currency_snoc l a v :
  last_currency (l ++ [a]) v =
  if bool_decide (st_Venue (as_Stated a) = v) && negb (bool_decide (st_Currency (as_Stated a) = ""))
  then st_Currency (as_Stated a) else last_currency l v.
Proof. unfold last_currency. by rewrite foldl_app. Qed.

Lemma last_currency_none l v : (forall b, b ∈ l -> st_Venue (as_Stated b) <> v) -> last_currency l v = ""%string.
Proof.
  induction l as [|b l IH] using rev_ind; [done |]. intros H. rewrite last_currency_snoc.
  rewrite bool_decide_false by (apply H, elem_of_app; right; left). apply IH.
  intros b' Hb'. apply H, elem_of_app. by left.
Qed.

Lemma venue_fold l :
  let st := foldl venue_step ([], ∅) l in
  NoDup st.1 /\ (forall v, v ∈ st.1 <-> v <> ""%string /\ exists a, a ∈ l /\ st_Venue (as_Stated a) = v) /\
  forall v, st.2 !! v = if decide (v ∈ st.1) then Some (last_currency l v) else None.
Proof.
  induction l as [|a l IH] using rev_ind; simpl.
  { split; [constructor |]. split; [| intros v; by rewrite lookup_empty].
    intros v. split; [by intros []%not_elem_of_nil | by intros (_ & ? & []%not_elem_of_nil & _)]. }
  rewrite foldl_app. destruct (foldl venue_step ([], ∅) l) as [venues m].
  cbn [fst snd foldl] in *. destruct IH as (Hnd & Hin & Hm). unfold venue_step.
  setoid_rewrite elem_of_app. setoid_rewrite list_elem_of_singleton.
  set (v := st_Venue (as_Stated a)). set (c := st_Currency (as_Stated a)).
  destruct (decide (v = ""%string)) as [Ev|Ev].
  { rewrite bool_decide_true by done. cbn [fst snd]. split; [done |]. split.
    - intros w. rewrite Hin. split; [intros (? & b & ? & ?); eauto |]. intros (Hw & b & [Hb| ->] & Eb); [eauto |]. exfalso. apply Hw. rewrite <- Eb. exact Ev.
    - intros w. rewrite Hm, last_currency_snoc. destruct (decide (w ∈ venues)) as [Hw|]; [| done].
      apply Hin in Hw as [Hw _]. fold v. by rewrite bool_decide_false by congruence. }
  rewrite bool_decide_false by done. cbn [fst snd].
  set (st := match m !! v with None => (venues ++ [v], <[v := ""%string]> m) | Some _ => (venues, m) end).
  assert (NoDup st.1 /\ (forall w, w ∈ st.1 <-> w ∈ venues \/ w = v) /\
    (forall w, st.2 !! w = if decide (w ∈ st.1) then Some (last_currency l w) else None)) as (S1 & S2 & S3).
  { unfold st. rewrite Hm. destruct (decide (v ∈ venues)) as [Hv|Hv]; cbn [fst snd].
    - split; [done |]. split; [naive_solver | done].
    - split; [apply NoDup_app; split; [done |]; split; [set_solver | apply NoDup_singleton] |].
      split; [intros w; by rewrite elem_of_app, list_elem_of_singleton |]. intros w. destruct (decide (v = w)) as [<-|Hvw].
      + rewrite lookup_insert_eq, decide_True by (apply elem_of_app; right; left). f_equal. symmetry.
        apply last_currency_none. intros b Hb E. apply Hv, Hin. split; [done | by exists b].
      + rewrite lookup_insert_ne, Hm by done. repeat case_decide; try done; set_solver. }
  assert (forall w, w ∈ st.1 <-> w <> ""%string /\ exists b, (b ∈ l \/ b = a) /\ st_Venue (as_Stated b) = w) as S4.
  { intros w. rewrite S2, Hin. unfold v in *. naive_solver. }
  fold st. fold v. fold c. destruct (decide (c = ""%string)) as [Ec|Ec].
  - rewrite (bool_decide_true (c = ""%string)) by done. cbn [fst snd]. split; [done |]. split; [done |].
    intros w. rewrite S3, last_currency_snoc. fold v c. rewrite (bool_decide_true (c = ""%string)) by done. by rewrite andb_false_r.
  - rewrite (bool_decide_false (c = ""%string)) by done. cbn [fst snd]. split; [done |]. split; [done |].
    intros w. destruct (decide (v = w)) as [<-|Hvw].
    + rewrite lookup_insert_eq, decide_True, last_currency_snoc by (apply S2; by right). fold v c.
      by rewrite bool_decide_true, bool_decide_false.
    + rewrite lookup_insert_ne, S3, last_currency_snoc by done. fold v. by rewrite (bool_decide_false (v = w)).
Qed.

#[export] Instance stated_cmp_cmp : GoCmp stated_cmp.
Proof. apply _. Qed.

(** [a] states a currency at the venue [v]. *)
Definition prices_at (v : string) (a : Assertion) : Prop :=
  st_Venue (as_Stated a) = v /\ st_Currency (as_Stated a) <> ""%string.

(** In a sorted list, the currency is that of a latest assertion. *)
Lemma last_currency_latest l v :
  StronglySorted (cmp_le stated_cmp) l ->
  (last_currency l v = ""%string /\ forall a, a ∈ l -> ~ prices_at v a) \/
  exists a, a ∈ l /\ prices_at v a /\ last_currency l v = st_Currency (as_Stated a) /\
    forall b, b ∈ l -> prices_at v b -> stated_cmp b a <> Gt.
Proof.
  induction l as [|x l IH] using rev_ind; intros Hs; [left; split; [done | by intros ? []%not_elem_of_nil] |].
  rewrite last_currency_snoc. setoid_rewrite elem_of_app. setoid_rewrite list_elem_of_singleton.
  destruct (bool_decide (st_Venue (as_Stated x) = v) && negb (bool_decide (st_Currency (as_Stated x) = ""%string))) eqn:E.
  - rewrite andb_true_iff, negb_true_iff, bool_decide_eq_true, bool_decide_eq_false in E. right. exists x.
    split; [by right |]. split; [done |]. split; [done |]. intros b [Hb| ->] _.
    + apply (StronglySorted_app_1_elem_of _ _ _ _ _ Hs Hb). left.
    + by rewrite (cmp_refl stated_cmp).
  - rewrite andb_false_iff, negb_false_iff, bool_decide_eq_true, bool_decide_eq_false in E.
    assert (~ prices_at v x) as Hx by (intros [? ?]; tauto).
    destruct (IH (StronglySorted_app_1_l _ _ _ Hs)) as [[H1 H2]|(a & H1 & H2 & H3 & H4)].
    + left. split; [done |]. intros a [Ha| ->]; auto.
    + right. exists a. split; [by left |]. split; [done |]. split; [done |]. intros b [Hb| ->] Hp; [auto | done].
Qed.

Lemma elem_of_named l instr a : a ∈ stated_named l instr <-> a ∈ l /\ as_Instr a = Some instr.
Proof. unfold stated_named. by rewrite elem_of_sort_func, elem_of_lfilter, bool_decide_eq_true. Qed.

Lemma stated_named_sorted l instr : StronglySorted (cmp_le stated_cmp) (stated_named l instr).
Proof. apply sort_func_sorted, _. Qed.

(** The rows of [stated]: one per venue, or one without a venue. *)
Lemma stated_rows l instr :
  let named := stated_named l instr in
  ((forall a, a ∈ named -> st_Venue (as_Stated a) = ""%string) /\
   exists c, stated l instr = [MkStated "" c]) \/
  ((exists a, a ∈ named /\ st_Venue (as_Stated a) <> ""%string) /\
   exists venues, stated l instr = map (fun v => MkStated v (last_currency named v)) venues /\ NoDup venues /\
     StronglySorted (cmp_le String.compare) venues /\
     forall v, v ∈ venues <-> v <> ""%string /\ exists a, a ∈ named /\ st_Venue (as_Stated a) = v).
Proof.
  intros named. unfold stated. fold named. pose proof (venue_fold named) as (H1 & H2 & H3).
  destruct (foldl venue_step ([], ∅) named) as [venues m]. cbn [fst snd] in *. destruct venues as [|v0 vs].
  - left. split; [| eauto]. intros a Ha. destruct (decide (st_Venue (as_Stated a) = ""%string)) as [|Hne]; [done | exfalso].
    apply (not_elem_of_nil (st_Venue (as_Stated a))), H2. split; [done | eauto].
  - right. split.
    { destruct (proj1 (H2 v0) ltac:(left)) as (Hv & a & Ha & <-). eauto. }
    exists (sort_func String.compare (v0 :: vs)). split; [| split; [| split]].
    + apply map_ext_in. intros v Hv. rewrite <- list_elem_of_In, elem_of_sort_func in Hv.
      rewrite H3, decide_True by done. done.
    + by rewrite sort_func_perm.
    + apply sort_func_sorted, _.
    + intros v. by rewrite elem_of_sort_func, H2.
Qed.

(** * Properties *)

(** The day [FirstUnconfirmed] answers is the earliest of the dates that no
    confirmed interval holds, and it answers none exactly when every date is
    confirmed. *)
Theorem FirstUnconfirmed_spec ivs dates :
  intervals_ok ivs ->
  match FirstUnconfirmed ivs dates with
  | Some f => f ∈ dates /\ (forall i, ~ names ivs f i Confirmed) /\
      forall d, d ∈ dates -> (forall i, ~ names ivs d i Confirmed) -> f <= d
  | None => forall d, d ∈ dates -> exists i, names ivs d i Confirmed
  end.
Proof.
  intros Hok. pose proof (unconfirmed_fold ivs dates None) as H. unfold FirstUnconfirmed.
  assert (forall d, (forall i, ~ names ivs d i Confirmed) <-> confirmedOn ivs d = false) as Hc.
  { intros d. rewrite <- not_true_iff_false, confirmedOn_spec by done. naive_solver. }
  destruct (foldl _ None dates) as [f|].
  - destruct H as ([?|[H1 H2]] & _ & H3); [done |]. split; [done |]. split; [by apply Hc |].
    intros d Hd Hn. apply H3; [done | by apply Hc].
  - destruct H as [_ H]. intros d Hd. apply confirmedOn_spec; auto.
Qed.

(** The gaps of a period are the days of it that no confirmed interval
    holds, as ordered periods that neither overlap nor meet. *)
Theorem Intervals_Gaps_spec ivs p :
  intervals_ok ivs ->
  (forall d, AnyContains (Intervals_Gaps ivs p) d = true <->
     Contains p d = true /\ forall i, ~ names ivs d i Confirmed) /\
  Forall p_nonempty (Intervals_Gaps ivs p) /\ StronglySorted apart (Intervals_Gaps ivs p).
Proof.
  intros Hok. unfold Intervals_Gaps. destruct (Gaps_spec (confirmed_clips ivs p) p (confirmed_clips_nonempty ivs p)) as (H1 & H2 & H3).
  split; [| done]. intros d. rewrite H1, confirmed_clips_contains, andb_true_iff, negb_true_iff by done.
  assert ((forall i, ~ names ivs d i Confirmed) <-> confirmedOn ivs d = false) as ->.
  { rewrite <- not_true_iff_false, confirmedOn_spec by done. naive_solver. }
  destruct (Contains p d), (confirmedOn ivs d); naive_solver.
Qed.

(** The ticker that names an instrument at a market is one whose validity
    names it, and no other of the market is better by the end of its last
    interval of it, then the last day it won for it, then the lower value; the
    bounds of its rows hold only days it names the instrument, and it names the
    instrument on no day after them. There is no row exactly when no ticker
    names the instrument. *)
Theorem resolveNames_spec instr ts :
  Forall (fun t => intervals_ok (dv_Intervals (tf_Derived t))) ts ->
  (resolveNames instr ts = [] <-> forall t, t ∈ ts -> name_of instr t = None) /\
  forall r, r ∈ resolveNames instr ts ->
    exists t k, t ∈ ts /\ rn_Ticker r = tf_Ticker t /\ rn_Instr r = instr /\ name_of instr t = Some k /\
      (forall u j, u ∈ ts -> name_of instr u = Some j -> name_cmp j k <> Gt) /\
      (forall d, from_le (rn_From r) d -> day_before d (rn_Before r) ->
         exists v, names (dv_Intervals (tf_Derived t)) d instr v) /\
      (forall d v, names (dv_Intervals (tf_Derived t)) d instr v -> day_before d (rn_Before r)) /\
      rn_Stated r ∈ stated (f_Assertions (tf_Facts t)) instr.
Proof.
  intros Hok. rewrite Forall_forall in Hok. unfold resolveNames. pose proof (best_fold_inv instr ts) as Hb.
  destruct (foldl (best_name_step instr) None ts) as [[[b stop] won]|].
  2: { split; [done |]. by intros r []%not_elem_of_nil. }
  destruct Hb as (Hin & Hn & Hbest). set (ivs := dv_Intervals (tf_Derived b)) in *.
  destruct (lastNaming ivs instr) as [last|] eqn:El; [| unfold name_of in Hn; fold ivs in Hn; by rewrite El in Hn].
  destruct (lastNaming_Some _ _ _ El) as [(lv & Hlv & Hli) Hlast].
  destruct (run_start_spec ivs instr last lv Hlv Hli) as (R1 & (kv & Hkv) & R3 & R4). rewrite Hkv, Hlv.
  split.
  - split; [| intros H; rewrite (H b Hin) in Hn; done]. intros Hmap. exfalso.
    destruct (stated_rows (f_Assertions (tf_Facts b)) instr) as [[_ (c & Hs)]|[(a & Ha & Hv) (venues & Hs & _ & _ & Hvs)]];
      rewrite Hs in Hmap; [done |]. destruct venues as [|v vs]; [| done].
    by apply (not_elem_of_nil (st_Venue (as_Stated a))), Hvs; eauto.
  - intros r Hr. apply list_elem_of_In, in_map_iff in Hr as (s & <- & Hs). exists b. eexists.
    split; [done |]. split; [done |]. split; [done |]. split; [exact Hn |]. split; [exact Hbest |]. simpl. split; [| split].
    + intros d Hf Hd. by apply (run_names ivs instr (run_start ivs instr last) last kv lv).
    + intros d v (iv & Hiv & Hc & Hi & _). apply list_elem_of_lookup in Hiv as [j Hj].
      apply Interval_Contains_spec in Hc as [_ Hc]. pose proof (io_sorted _ (Hok b Hin)) as Hsort. fold ivs in Hsort.
      destruct (lt_eq_lt_dec j last) as [[Hlt| ->]|Hgt].
      * pose proof (StronglySorted_lookup _ _ _ _ _ _ Hsort Hj Hlv Hlt) as Hp. unfold iv_precedes in Hp.
        pose proof (io_nonempty _ (Hok b Hin)) as Hne. fold ivs in Hne. rewrite Forall_forall in Hne.
        specialize (Hne lv (list_elem_of_lookup_2 _ _ _ Hlv)). unfold iv_nonempty in Hne. unfold day_before.
        destruct (iv_Before iv), (iv_From lv); try done. destruct (iv_Before lv); [lia | done].
      * change (ivs !! last = Some iv) in Hj. rewrite Hj in Hlv. injection Hlv as ->. done.
      * exfalso. by apply (Hlast j iv Hgt Hj).
    + by apply list_elem_of_In.
Qed.

(** An instrument's row at a venue exists exactly where one of its
    assertions states the venue, one row per venue in order, with the currency
    of a latest assertion there that states one; where none states a venue, one
    row has none. *)
Theorem stated_spec l instr :
  NoDup (map st_Venue (stated l instr)) /\
  (forall v, v <> ""%string ->
     (exists s, s ∈ stated l instr /\ st_Venue s = v) <->
     exists a, a ∈ l /\ as_Instr a = Some instr /\ st_Venue (as_Stated a) = v) /\
  (forall s, s ∈ stated l instr -> st_Venue s = ""%string ->
     forall a, a ∈ l -> as_Instr a = Some instr -> st_Venue (as_Stated a) = ""%string) /\
  (forall s, s ∈ stated l instr -> st_Venue s <> ""%string ->
     (st_Currency s = ""%string /\ forall a, a ∈ l -> as_Instr a = Some instr -> ~ prices_at (st_Venue s) a) \/
     exists a, a ∈ l /\ as_Instr a = Some instr /\ prices_at (st_Venue s) a /\ st_Currency s = st_Currency (as_Stated a) /\
       forall b, b ∈ l -> as_Instr b = Some instr -> prices_at (st_Venue s) b -> stated_cmp b a <> Gt).
Proof.
  pose proof (elem_of_named l instr) as Hin.
  destruct (stated_rows l instr) as [[Hnone (c & Hs)]|[_ (venues & Hs & Hnd & _ & Hv)]]; rewrite Hs.
  - split; [apply NoDup_singleton |]. split; [| split].
    + intros v Hv. split.
      * by intros (s & ->%list_elem_of_singleton & <-).
      * intros (a & Ha & Hi & <-). exfalso. apply Hv, Hnone, Hin. done.
    + intros s _ _ a Ha Hi. by apply Hnone, Hin.
    + by intros s ->%list_elem_of_singleton Hne.
  - assert (forall s, s ∈ map (fun v => MkStated v (last_currency (stated_named l instr) v)) venues <->
      st_Venue s ∈ venues /\ st_Currency s = last_currency (stated_named l instr) (st_Venue s)) as Hrow.
    { intros [v cur]. rewrite list_elem_of_In, in_map_iff. simpl. setoid_rewrite <- list_elem_of_In. split.
      - by intros (w & [= -> ->] & Hw).
      - intros [Hw ->]. by exists v. }
    split; [| split; [| split]].
    + rewrite map_map. simpl. by rewrite map_id.
    + intros v Hne. split.
      * intros (s & [Hw _]%Hrow & <-). apply Hv in Hw as (_ & a & Ha%Hin & E). exists a. tauto.
      * intros (a & Ha & Hi & E). exists (MkStated v (last_currency (stated_named l instr) v)). split; [| done].
        apply Hrow. simpl. split; [| done]. apply Hv. split; [done |]. exists a. split; [by apply Hin | done].
    + intros s [Hw _]%Hrow E. apply Hv in Hw as [Hne _]. done.
    + intros s [Hw Hc]%Hrow _. rewrite Hc.
      destruct (last_currency_latest (stated_named l instr) (st_Venue s) (stated_named_sorted l instr)) as [[H1 H2]|(a & H1 & H2 & H3 & H4)].
      * left. split; [done |]. intros a Ha Hi. by apply H2, Hin.
      * right. exists a. apply Hin in H1 as [??]. repeat (split; [done |]). intros b Hb Hbi. by apply H4, Hin.
Qed.

(** ** Examples, on the ticker of [Derive.v] *)

Lemma ex_intervals_ok : intervals_ok (dv_Intervals ex_derived).
Proof. split; repeat constructor; vm_compute; discriminate. Defined.

Lemma FirstUnconfirmed_spec_witness :
  FirstUnconfirmed (dv_Intervals ex_derived) [ex_day 40; ex_day 25; ex_day 33] = Some (ex_day 33) /\
  match FirstUnconfirmed (dv_Intervals ex_derived) [ex_day 40; ex_day 25; ex_day 33] with
  | Some f => f ∈ [ex_day 40; ex_day 25; ex_day 33] /\ (forall i, ~ names (dv_Intervals ex_derived) f i Confirmed) /\
      forall d, d ∈ [ex_day 40; ex_day 25; ex_day 33] -> (forall i, ~ names (dv_Intervals ex_derived) d i Confirmed) -> f <= d
  | None => forall d, d ∈ [ex_day 40; ex_day 25; ex_day 33] -> exists i, names (dv_Intervals ex_derived) d i Confirmed
  end.
Proof.
  split; [vm_compute; reflexivity |].
  apply (FirstUnconfirmed_spec (dv_Intervals ex_derived) [ex_day 40; ex_day 25; ex_day 33] ex_intervals_ok).
Defined.

Lemma Intervals_Gaps_spec_witness :
  Intervals_Gaps (dv_Intervals ex_derived) (MkPeriod (ex_day 5) (ex_day 33)) =
    [MkPeriod (ex_day 5) (ex_day 9); MkPeriod (ex_day 30) (ex_day 33)] /\
  StronglySorted apart (Intervals_Gaps (dv_Intervals ex_derived) (MkPeriod (ex_day 5) (ex_day 33))).
Proof.
  split; [vm_compute; reflexivity |].
  apply (Intervals_Gaps_spec (dv_Intervals ex_derived) (MkPeriod (ex_day 5) (ex_day 33)) ex_intervals_ok).
Defined.

Definition ex_ticker : tickerFacts := MkTickerFacts (MkMarketTicker "US" "ABC") ex_facts ex_derived.

Definition ex_name : resolvedName :=
  MkResolvedName (MkMarketTicker "US" "ABC") 2%N (MkStated "" "") (Some (ex_day 20)) None.

Lemma resolveNames_spec_witness :
  resolveNames 2%N [ex_ticker] = [ex_name] /\
  exists t k, t ∈ [ex_ticker] /\ rn_Ticker ex_name = tf_Ticker t /\ name_of 2%N t = Some k.
Proof.
  assert (resolveNames 2%N [ex_ticker] = [ex_name]) as E by (vm_compute; reflexivity). split; [exact E |].
  destruct (proj2 (resolveNames_spec 2%N [ex_ticker] ltac:(constructor; [exact ex_intervals_ok | constructor])) ex_name)
    as (t & k & H1 & H2 & _ & H3 & _); [rewrite E; left |]. by exists t, k.
Defined.
