(* ===== verification/CorpAct.v ===== *)
(** Corporate actions, [server/internal/corpact]: what an action does to a
    quantity ([decision.go]), which reported actions are share counts and which
    stored ones an answer repeats ([record.go]), and the days an unknown action
    takes from coverage ([read.go]). *)
From S2P Require Import Prelude Period Decimal.

(** * Actions, [read.go] and [decision.go] *)

(** The [corp_act_decision] enum; the empty string is [None]. *)
Inductive CorpActDecision : Type :=
| CorpActDecisionSplit
| CorpActDecisionReverseSplit
| CorpActDecisionStockDividend
| CorpActDecisionSpinOffPriceFactor
| CorpActDecisionRightsIssue
| CorpActDecisionOther.

#[export] Instance CorpActDecision_eq_dec : EqDecision CorpActDecision.
Proof. solve_decision. Defined.

Record Act (D : Type) : Type := MkAct {
  act_ID : uuid;
  act_ExDate : time;
  act_Ratio : Ratio D;
  act_Type : string;
  act_Handled : bool;
  act_Decision : option CorpActDecision;
}.
Arguments MkAct {D} _ _ _ _ _ _.
Arguments act_ID {D} _.
Arguments act_ExDate {D} _.
Arguments act_Ratio {D} _.
Arguments act_Type {D} _.
Arguments act_Handled {D} _.
Arguments act_Decision {D} _.

(** A row of [corp_acts], [011_corp_acts.sql]. *)
Record CorpActRow (D : Type) : Type := MkCorpActRow {
  cr_ID : uuid;
  cr_AnswerID : uuid;
  cr_ExDate : time;
  cr_RatioFrom : D;
  cr_RatioTo : D;
  cr_Type : option string;
  cr_Handled : bool;
  cr_Decision : option CorpActDecision;
}.
Arguments MkCorpActRow {D} _ _ _ _ _ _ _ _.
Arguments cr_ID {D} _.
Arguments cr_AnswerID {D} _.
Arguments cr_ExDate {D} _.
Arguments cr_RatioFrom {D} _.
Arguments cr_RatioTo {D} _.
Arguments cr_Type {D} _.
Arguments cr_Handled {D} _.
Arguments cr_Decision {D} _.

Definition toAct {D} (e : CorpActRow D) : Act D :=
  MkAct (cr_ID e) (cr_ExDate e) (MkRatio (cr_RatioFrom e) (cr_RatioTo e)) (default ""%string (cr_Type e))
    (cr_Handled e) (cr_Decision e).

(** A reported action, [market/corp_acts.go]. *)
Record CorpAct (D : Type) : Type := MkCorpAct {
  ca_ExDate : time;
  ca_Ratio : Ratio D;
  ca_Type : string;
  ca_Handled : bool;
}.
Arguments MkCorpAct {D} _ _ _ _.
Arguments ca_ExDate {D} _.
Arguments ca_Ratio {D} _.
Arguments ca_Type {D} _.
Arguments ca_Handled {D} _.

Section CorpAct.
Context {D : Type} `{Decimal D}.

Definition Restates (e : Act D) : bool :=
  match act_Decision e with
  | Some CorpActDecisionSplit | Some CorpActDecisionReverseSplit | Some CorpActDecisionStockDividend => true
  | None => act_Handled e
  | Some _ => false
  end.

Definition Fits (d : option CorpActDecision) (r : Ratio D) : bool :=
  match d with
  | Some CorpActDecisionSplit | Some CorpActDecisionStockDividend => dec_GreaterThan (r_To r) (r_From r)
  | Some CorpActDecisionReverseSplit => dec_LessThan (r_To r) (r_From r)
  | _ => true
  end.

Definition Unknown (e : Act D) : bool :=
  (bool_decide (act_Decision e = None) && negb (act_Handled e))
  || bool_decide (act_Decision e = Some CorpActDecisionOther).

(** [same] of [calendar.go]. *)
Definition Act_same (e o : Act D) : bool :=
  (act_ExDate e =? act_ExDate o) && Ratio_Equal (act_Ratio e) (act_Ratio o)
  && Bool.eqb (Restates e) (Restates o) && Bool.eqb (Unknown e) (Unknown o).

(** * Share counts and price factors, [record.go] *)

Definition maxShareTerm : Z := 100.

Definition restatesShares (r : Ratio D) : bool :=
  if negb (dec_IsInteger (r_From r)) || negb (dec_IsInteger (r_To r)) then false
  else
    let from := dec_BigInt (r_From r) in
    let to := dec_BigInt (r_To r) in
    if (from <=? 0) || (to <=? 0) then false
    else
      let smaller := if to <? from then to else from in
      Z.quot smaller (Z.gcd from to) <=? maxShareTerm.

Definition judged (es : list (CorpAct D)) : list (CorpAct D) :=
  map (fun e => MkCorpAct (ca_ExDate e) (ca_Ratio e) (ca_Type e) (ca_Handled e && restatesShares (ca_Ratio e))) es.

Definition covered (c : option Period) (at_ : time) : option (time * time) :=
  match c with
  | None => None
  | Some c =>
      let from := Day (p_From c) in
      let stop := AddDays (Day at_) 1 in
      let before := if stop <? Day (p_Before c) then stop else Day (p_Before c) in
      if negb (from <? before) then None else Some (from, before)
  end.

(** ** Repeated actions *)

(** The columns of a stored action that [merge] reads; the decision stays on
    the row. *)
Definition repeats (s : CorpActRow D) (e : CorpAct D) : bool :=
  (Day (ca_ExDate e) =? cr_ExDate s) && Ratio_Equal (ca_Ratio e) (MkRatio (cr_RatioFrom s) (cr_RatioTo s))
  && bool_decide (ca_Type e = default ""%string (cr_Type s)) && Bool.eqb (ca_Handled e) (cr_Handled s).

(** [firstUnpaired]; the slice [paired] is zipped with [es]. *)
Fixpoint firstUnpaired (es : list (CorpAct D * bool)) (f : CorpAct D -> bool) : option nat :=
  match es with
  | [] => None
  | (e, paired) :: es' => if negb paired && f e then Some 0%nat else S <$> firstUnpaired es' f
  end.

(** One turn of the loop over the stored actions: the slices [paired] and
    [gone]. *)
Definition merge_step (st : list (CorpAct D * bool) * list uuid) (s : CorpActRow D) : list (CorpAct D * bool) * list uuid :=
  match firstUnpaired st.1 (repeats s) with
  | None => (st.1, st.2 ++ [cr_ID s])
  | Some i => (alter (fun ep => (ep.1, true)) i st.1, st.2)
  end.

Definition merge (stored : list (CorpActRow D)) (reported : list (CorpAct D)) : list uuid * list (CorpAct D) :=
  let '(es, gone) := foldl merge_step (map (fun e => (e, false)) reported, []) stored in
  (gone, map fst (List.filter (fun ep => negb ep.2) es)).

End CorpAct.

(** * Days removed from coverage, [read.go] *)

(** The inner loop of [remove]: the pieces cut off so far come first. *)
Fixpoint remove_days (p : Period) (ds : list time) : list Period :=
  match ds with
  | [] => if p_From p <? p_Before p then [p] else []
  | d :: ds' =>
      if Contains p d
      then (if p_From p <? d then [MkPeriod (p_From p) d] else []) ++ remove_days (MkPeriod (AddDays d 1) (p_Before p)) ds'
      else remove_days p ds'
  end.

Definition remove (ps : list Period) (ds : list time) : list Period :=
  concat (map (fun p => remove_days p (sort_func Z.compare ds)) ps).

(** * How many days apart, [split.go] *)

Definition window : Z := 7.

(** [time.Duration] holds an int64 of nanoseconds, and [Sub] saturates. *)
Definition max_duration : Z := 2 ^ 63 - 1.

Definition Sub (a b : time) : Z := Z.max (- 2 ^ 63) (Z.min max_duration (a - b)).

(** [int(d.Hours() / 24)] truncates toward zero. *)
Definition days (a b : time) : Z :=
  let d := Z.quot (Sub a b) day_len in
  if d <? 0 then - d else d.

(** * Lemmas *)

Section Lemmas.
Context {D : Type} `{DecimalLaws D}.

(** An action never both restates and is unknown. *)
Lemma Restates_Unknown (e : Act D) : Restates e = true -> Unknown e = false.
Proof. unfold Restates, Unknown. destruct (act_Decision e) as [[]|], (act_Handled e); done. Qed.

(** ** Share counts *)

(** The ratio of two whole counts in lowest terms. *)
Definition share_count (r : Ratio D) : Prop :=
  exists f t, 0 < f /\ 0 < t /\ Z.gcd f t = 1 /\ Z.min f t <= maxShareTerm /\
    ratio_value r = (Qc_of_Z t / Qc_of_Z f)%Qc.

Lemma gcd_quot a b : 0 < a -> 0 < b -> a = Z.quot a (Z.gcd a b) * Z.gcd a b.
Proof.
  intros Ha Hb. pose proof (Z.gcd_divide_l a b) as [q Hq]. pose proof (Z.gcd_nonneg a b).
  assert (Z.gcd a b <> 0) by (intros E; apply Z.gcd_eq_0_l in E; lia).
  rewrite Hq at 2. rewrite Z.quot_mul by done. done.
Qed.

Lemma lowest_terms a b :
  0 < a -> 0 < b ->
  let g := Z.gcd a b in
  0 < Z.quot a g /\ 0 < Z.quot b g /\ Z.gcd (Z.quot a g) (Z.quot b g) = 1 /\
  (if b <? a then Z.quot b g else Z.quot a g) = Z.min (Z.quot a g) (Z.quot b g).
Proof.
  intros Ha Hb g. pose proof (gcd_quot a b Ha Hb) as E1. pose proof (gcd_quot b a Hb Ha) as E2.
  rewrite (Z.gcd_comm b a) in E2. fold g in E1, E2. set (x := Z.quot a g) in *. set (y := Z.quot b g) in *.
  assert (0 < g) as Hg.
  { pose proof (Z.gcd_nonneg a b). fold g in H1. destruct (Z.eq_dec g 0) as [E|]; [rewrite E in E1; lia | lia]. }
  split; [nia |]. split; [nia |]. split.
  - assert (g = Z.gcd x y * g) as E by (rewrite <- Z.gcd_mul_mono_r_nonneg by lia; rewrite <- E1, <- E2; done). nia.
  - destruct (Z.ltb_spec b a); [rewrite Z.min_r by nia | rewrite Z.min_l by nia]; done.
Qed.

Lemma Qc_ratio a b x y g :
  0 < g -> 0 < x -> a = x * g -> b = y * g -> (Qc_of_Z b / Qc_of_Z a)%Qc = (Qc_of_Z y / Qc_of_Z x)%Qc.
Proof.
  intros Hg Hx -> ->. rewrite !Z2Qc_inj_mul. apply Qcdiv_eq.
  - intros E%Qcmult_integral. destruct E as [E|E]; apply Qc_of_Z_nonzero in E; lia.
  - apply Qc_of_Z_nonzero. lia.
  - ring.
Qed.

Lemma lowest_unique x y f t :
  0 < x -> 0 < y -> 0 < f -> 0 < t -> Z.gcd x y = 1 -> Z.gcd f t = 1 ->
  (Qc_of_Z y / Qc_of_Z x = Qc_of_Z t / Qc_of_Z f)%Qc -> x = f /\ y = t.
Proof.
  intros Hx Hy Hf Ht Gxy Gft E. rewrite Qcdiv_eq in E by (apply Qc_of_Z_nonzero; lia).
  rewrite <- !Z2Qc_inj_mul in E. apply Z2Qc_inj in E.
  assert (x = f) as ->.
  { apply Z.divide_antisym_nonneg; try lia.
    - apply Z.gauss with y; [| done]. exists t. lia.
    - apply Z.gauss with t; [| done]. exists y. lia. }
  split; [done |]. nia.
Qed.

Lemma restatesShares_eq r :
  ratio_pos r ->
  restatesShares r = true <-> dec_IsInteger (r_From r) = true /\ dec_IsInteger (r_To r) = true /\ share_count r.
Proof.
  intros [Hf Ht]. unfold restatesShares.
  destruct (dec_IsInteger (r_From r)) eqn:If, (dec_IsInteger (r_To r)) eqn:It; simpl; try naive_solver.
  pose proof (dec_BigInt_spec _ If) as Ef. pose proof (dec_BigInt_spec _ It) as Et.
  unfold share_count, ratio_value. rewrite Ef, Et in *. set (a := dec_BigInt (r_From r)) in *. set (b := dec_BigInt (r_To r)) in *.
  assert (0 < a /\ 0 < b) as [Ha Hb].
  { rewrite <- Z2Qc_inj_0 in Hf, Ht. apply Z2Qc_inj_lt in Hf, Ht. done. }
  replace (a <=? 0) with false by lia. replace (b <=? 0) with false by lia. simpl.
  destruct (lowest_terms a b Ha Hb) as (L1 & L2 & L3 & L4).
  replace (Z.quot (if b <? a then b else a) (Z.gcd a b)) with (if b <? a then Z.quot b (Z.gcd a b) else Z.quot a (Z.gcd a b)) by (by destruct (b <? a)).
  rewrite L4, Z.leb_le. set (x := Z.quot a (Z.gcd a b)) in *. set (y := Z.quot b (Z.gcd a b)) in *.
  assert (Qc_of_Z b / Qc_of_Z a = Qc_of_Z y / Qc_of_Z x)%Qc as Eq.
  { apply (Qc_ratio a b x y (Z.gcd a b)); [| done | by apply gcd_quot |].
    - pose proof (Z.gcd_nonneg a b). assert (Z.gcd a b <> 0) by (intros E; apply Z.gcd_eq_0_l in E; lia). lia.
    - unfold y. rewrite (Z.gcd_comm a b). by apply gcd_quot. }
  rewrite Eq. split.
  - intros Hm. split; [done |]. split; [done |]. by exists x, y.
  - intros (_ & _ & f & t & Hf' & Ht' & G & Hm & E). destruct (lowest_unique x y f t) as [-> ->]; done.
Qed.

(** ** Repeated actions *)

Lemma firstUnpaired_spec (es : list (CorpAct D * bool)) f :
  match firstUnpaired es f with
  | Some i => exists e, es !! i = Some (e, false) /\ f e = true
  | None => forall e, (e, false) ∈ es -> f e = false
  end.
Proof.
  induction es as [|[e b] es IH]; simpl; [by intros ? []%not_elem_of_nil |].
  destruct (negb b && f e) eqn:E.
  - apply andb_true_iff in E as [Hb Hf]. exists e. by destruct b.
  - destruct (firstUnpaired es f) as [i|]; simpl; [done |].
    intros x [[= -> <-]|Hx]%elem_of_cons; [by simpl in E | by apply IH].
Qed.

(** What the loop has paired: each stored action seen either has one reported
    action of its own that repeats it, or is gone and none left over does. *)
Definition merge_inv (reported : list (CorpAct D)) (seen : list (CorpActRow D))
    (st : list (CorpAct D * bool) * list uuid) : Prop :=
  map fst st.1 = reported /\
  exists pairs lost, seen ≡ₚ pairs.*1 ++ lost /\ st.2 = map cr_ID lost /\
    pairs.*2 ≡ₚ map fst (List.filter (fun ep => ep.2) st.1) /\
    Forall (fun p => repeats p.1 p.2 = true) pairs /\
    forall s e, s ∈ lost -> (e, false) ∈ st.1 -> repeats s e = false.

Lemma pair_at (es : list (CorpAct D * bool)) i e :
  es !! i = Some (e, false) ->
  let es' := alter (fun ep : CorpAct D * bool => (ep.1, true)) i es in
  map fst es' = map fst es /\
  map fst (List.filter (fun ep => ep.2) es') ≡ₚ e :: map fst (List.filter (fun ep => ep.2) es) /\
  forall x, (x, false) ∈ es' -> (x, false) ∈ es.
Proof.
  revert i. induction es as [|[x b] es IH]; intros i Hi; [done |]. destruct i as [|i]; simpl in *.
  - injection Hi as -> ->. split; [done |]. split; [done |]. intros y [Hy|Hy]%elem_of_cons; [done | by right].
  - destruct (IH i Hi) as (H1 & H2 & H3). split; [f_equal; apply H1 |]. split.
    + destruct b; simpl; [| exact H2]. etransitivity; [apply perm_skip; exact H2 |]. apply perm_swap.
    + intros y [->|Hy]%elem_of_cons; [left | right; by apply H3].
Qed.

Lemma merge_step_inv reported seen st s :
  merge_inv reported seen st -> merge_inv reported (seen ++ [s]) (merge_step st s).
Proof.
  destruct st as [es gone]. intros (Hr & pairs & lost & Hp & Hg & H2 & Hrep & Hlost). simpl in *.
  unfold merge_step. cbn [fst snd]. pose proof (firstUnpaired_spec es (repeats s)) as Hf.
  destruct (firstUnpaired es (repeats s)) as [i|].
  - destruct Hf as (e & Hi & He). destruct (pair_at es i e Hi) as (P1 & P2 & P3).
    split; [simpl; congruence |]. exists ((s, e) :: pairs), lost. simpl. split; [| split; [done | split; [| split]]].
    + rewrite Hp. rewrite (Permutation_app_comm (pairs.*1 ++ lost)). done.
    + rewrite P2. by constructor.
    + by constructor.
    + intros t x Ht Hx. by apply Hlost, P3.
  - split; [done |]. exists pairs, (lost ++ [s]). simpl. split; [| split; [| split; [done | split; [done |]]]].
    + by rewrite Hp, app_assoc.
    + by rewrite map_app, Hg.
    + intros t x Ht Hx. apply elem_of_app in Ht as [Ht|Ht]; [by apply Hlost |].
      apply list_elem_of_singleton in Ht as ->. by apply Hf.
Qed.

Lemma merge_pairs_of (stored : list (CorpActRow D)) reported gone added :
  merge stored reported = (gone, added) ->
  exists pairs lost, stored ≡ₚ pairs.*1 ++ lost /\ gone = map cr_ID lost /\ reported ≡ₚ pairs.*2 ++ added /\
    Forall (fun p => repeats p.1 p.2 = true) pairs /\
    forall s e, s ∈ lost -> e ∈ added -> repeats s e = false.
Proof.
  assert (merge_inv reported stored (foldl merge_step (map (fun e => (e, false)) reported, []) stored)) as Hinv.
  { induction stored as [|s stored IH] using rev_ind; [| rewrite foldl_app; by apply merge_step_inv].
    split; [simpl; by rewrite map_map, map_id |]. exists [], []. simpl. split; [done |]. split; [done |]. split.
    - clear. by induction reported.
    - split; [constructor | by intros ? ? []%not_elem_of_nil]. }
  unfold merge. destruct (foldl merge_step _ stored) as [es g]. destruct Hinv as (Hr & pairs & lost & H1 & H2 & H3 & H4 & H5).
  simpl in *. intros [= <- <-]. exists pairs, lost. split; [done |]. split; [done |]. split; [| split; [done |]].
  - rewrite <- Hr, H3, <- map_app. apply Permutation_map. apply filter_negb_perm.
  - intros s e Hs He. apply H5; [done |]. apply list_elem_of_In, in_map_iff in He as ([x b] & <- & Hx).
    apply filter_In in Hx as [Hx Hb]. destruct b; [done |]. by apply list_elem_of_In.
Qed.
End Lemmas.

(** ** Days removed *)

(** An instant within the day that starts at [d] is of that day. *)
Lemma day_unique d x : Day d = d -> d <= x < d + day_len -> d = Day x.
Proof.
  intros Hd Hx. pose proof (Day_le x). pose proof (Day_mono d x ltac:(lia)). rewrite Hd in *.
  destruct (Z.eq_dec d (Day x)); [done |].
  pose proof (Day_lt d (Day x) Hd (Day_idemp x) ltac:(lia)). lia.
Qed.

Lemma remove_days_spec p ds x :
  p_days p -> Forall (fun d => Day d = d) ds -> StronglySorted (cmp_le Z.compare) ds ->
  AnyContains (remove_days p ds) x = (Contains p x && negb (existsb (fun d => Contains (OneDay d) x) ds))%bool.
Proof.
  intros [Hp1 Hp2] Hds Hs. revert p Hp1 Hp2. induction Hs as [|d ds Hs IH Hf]; intros p Hp1 Hp2; cbn [remove_days existsb].
  { destruct (p_From p <? p_Before p) eqn:E; unfold AnyContains, Contains; simpl; lia. }
  apply Forall_cons in Hds as [Hd Hds]. pose proof day_len_pos as Hpos. rewrite Forall_forall in Hf.
  assert (forall e, e ∈ ds -> d <= e) as Hle.
  { intros e He. specialize (Hf e He). unfold cmp_le in Hf. by rewrite Z.compare_le_iff in Hf. }
  assert (x < d -> existsb (fun d => Contains (OneDay d) x) ds = false) as Hearly.
  { intros Hx. apply existsb_false. intros e He. apply Contains_false. unfold OneDay. rewrite Forall_forall in Hds.
    rewrite (Hds e He). simpl. specialize (Hle e He). lia. }
  assert (Contains (OneDay d) x = (d <=? x) && (x <? d + day_len))%bool as ->.
  { unfold OneDay, Contains, AddDays. rewrite Hd. simpl. lia. }
  destruct (Contains p d) eqn:Ec.
  - apply Contains_spec in Ec. rewrite AnyContains_app, IH; simpl; [| done | | done].
    + destruct (Z.lt_ge_cases x d) as [Hx|Hx].
      * rewrite Hearly by done. destruct (p_From p <? d) eqn:E; unfold AnyContains, Contains, AddDays; simpl; lia.
      * destruct (p_From p <? d) eqn:E; unfold AnyContains, Contains, AddDays; simpl;
          destruct (existsb _ ds); simpl; lia.
    + by rewrite Day_AddDays, Hd.
  - rewrite IH by done. destruct (Contains p x) eqn:Ex; [| done]. simpl.
    apply Contains_spec in Ex. apply Contains_false in Ec.
    destruct (Z.lt_ge_cases x d); [replace (d <=? x) with false by lia; done |].
    replace ((d <=? x) && (x <? d + day_len))%bool with false; [done |]. symmetry.
    assert (d < p_From p) as Hlt by lia. pose proof (Day_lt d (p_From p) Hd Hp1 Hlt). lia.
Qed.

Lemma remove_contains ps ds x :
  Forall p_days ps -> Forall (fun d => Day d = d) ds ->
  AnyContains (remove ps ds) x = (AnyContains ps x && negb (existsb (fun d => Contains (OneDay d) x) ds))%bool.
Proof.
  intros Hps Hds. unfold remove. set (sd := sort_func Z.compare ds).
  assert (sd ≡ₚ ds) as Hp by apply sort_func_perm.
  assert (existsb (fun d => Contains (OneDay d) x) ds = existsb (fun d => Contains (OneDay d) x) sd) as ->.
  { apply eq_true_iff_eq. rewrite !existsb_elem. by setoid_rewrite Hp. }
  induction Hps as [|p ps Hpd _ IH]; [done |]. cbn [map concat]. rewrite AnyContains_app, AnyContains_cons, IH.
  rewrite remove_days_spec; [| done | by rewrite Hp | apply sort_func_sorted, _].
  by destruct (Contains p x), (AnyContains ps x), (existsb _ sd).
Qed.

Lemma remove_days_ok p ds :
  Forall p_nonempty (remove_days p ds) /\ (p_days p -> Forall (fun d => Day d = d) ds -> Forall p_days (remove_days p ds)).
Proof.
  revert p. induction ds as [|d ds IH]; intros p; cbn [remove_days].
  - split; [apply Forall_if; unfold p_nonempty; lia |]. intros Hp _. by apply Forall_if.
  - destruct (Contains p d) eqn:Ec; [| destruct (IH p) as [H1 H2]; split; [done |]; intros Hp Hds; apply H2; [done | by apply Forall_cons in Hds as [_ ?]]].
    destruct (IH (MkPeriod (AddDays d 1) (p_Before p))) as [H1 H2]. split.
    + apply Forall_app. split; [apply Forall_if; unfold p_nonempty; simpl; lia | done].
    + intros [Hp1 Hp2] [Hd Hds]%Forall_cons. apply Forall_app. split; [by apply Forall_if |].
      apply H2; [| done]. split; simpl; [by rewrite Day_AddDays, Hd | done].
Qed.

Lemma remove_ok ps ds :
  Forall p_nonempty (remove ps ds) /\ (Forall p_days ps -> Forall (fun d => Day d = d) ds -> Forall p_days (remove ps ds)).
Proof.
  unfold remove. split.
  - apply Forall_concat, Forall_map, Forall_forall. intros p _. apply remove_days_ok.
  - intros Hps Hds. apply Forall_concat, Forall_map. eapply Forall_impl; [exact Hps |].
    intros p Hp. apply remove_days_ok; [done |]. by rewrite sort_func_perm.
Qed.

Lemma remove_any ps ds x :
  Forall p_days ps -> Forall (fun d => Day d = d) ds ->
  AnyContains (remove ps ds) x = true <-> AnyContains ps x = true /\ Day x ∉ ds.
Proof.
  intros Hps Hds.
  rewrite remove_contains by done. rewrite andb_true_iff, negb_true_iff, existsb_false.
  rewrite Forall_forall in Hds. split; intros [Hx Hd]; (split; [done |]).
  - intros Hin. specialize (Hd _ Hin). apply Contains_false in Hd. unfold OneDay in Hd. simpl in Hd.
    rewrite Day_idemp in Hd. pose proof (Day_le x). unfold AddDays in Hd. lia.
  - intros d Hin. apply Contains_false. unfold OneDay, AddDays. simpl. rewrite (Hds d Hin). intros Hb. apply Hd.
    replace (Day x) with d; [done |]. by apply day_unique; [apply Hds | lia].
Qed.

(** * Properties *)

Section Properties.
Context {D : Type} `{DecimalLaws D}.

(** An action states a change in share count exactly when both sides of its
    ratio are whole and its value is a fraction of two positive whole numbers
    without a common factor, the smaller of them at most [maxShareTerm]. *)
Theorem restatesShares_spec (r : Ratio D) :
  ratio_pos r ->
  restatesShares r = true <->
    dec_IsInteger (r_From r) = true /\ dec_IsInteger (r_To r) = true /\
    exists f t, 0 < f /\ 0 < t /\ Z.gcd f t = 1 /\ Z.min f t <= maxShareTerm /\
      ratio_value r = (Qc_of_Z t / Qc_of_Z f)%Qc.
Proof. apply restatesShares_eq. Qed.

(** [merge] pairs the stored actions with the reported ones, each at most
    once: it drops exactly the stored actions left without a partner and adds
    exactly the reported ones left without one, the partners repeat each other,
    and no dropped action could have been kept for an added one. *)
Theorem merge_pairs (stored : list (CorpActRow D)) (reported : list (CorpAct D)) :
  exists pairs lost,
    let '(gone, added) := merge stored reported in
    stored ≡ₚ pairs.*1 ++ lost /\ gone = map cr_ID lost /\ reported ≡ₚ pairs.*2 ++ added /\
    Forall (fun p => repeats p.1 p.2 = true) pairs /\
    forall s e, s ∈ lost -> e ∈ added -> repeats s e = false.
Proof.
  destruct (merge stored reported) as [gone added] eqn:E.
  destruct (merge_pairs_of _ _ _ _ E) as (pairs & lost & Hm). by exists pairs, lost.
Qed.
End Properties.

(** The days an unknown action falls on leave coverage and no others do; what
    is left of periods of whole days is again non-empty periods of whole days. *)
Theorem remove_spec ps ds :
  Forall p_days ps -> Forall (fun d => Day d = d) ds ->
  (forall x, AnyContains (remove ps ds) x = true <-> AnyContains ps x = true /\ Day x ∉ ds) /\
  Forall p_nonempty (remove ps ds) /\ Forall p_days (remove ps ds).
Proof.
  intros Hps Hds. split; [intros x; by apply remove_any | split; [apply remove_ok | by apply remove_ok]].
Qed.

(** * Witnesses *)

Definition ex_ratio (f t : Z) : Ratio fixed := MkRatio (Fixed f 0) (Fixed t 0).

Lemma restatesShares_spec_witness :
  ratio_pos (ex_ratio 4 10) /\ restatesShares (ex_ratio 4 10) = true /\ restatesShares (ex_ratio 1000 1281) = false /\
  exists f t, 0 < f /\ 0 < t /\ Z.gcd f t = 1 /\ Z.min f t <= maxShareTerm /\
    ratio_value (ex_ratio 4 10) = (Qc_of_Z t / Qc_of_Z f)%Qc.
Proof.
  assert (ratio_pos (ex_ratio 4 10)) as Hr by (split; vm_compute; reflexivity).
  split; [exact Hr |]. split; [vm_compute; reflexivity |]. split; [vm_compute; reflexivity |].
  apply (restatesShares_spec (ex_ratio 4 10) Hr). vm_compute. reflexivity.
Defined.

Lemma remove_spec_witness :
  let d n := n * day_len in
  remove [MkPeriod (d 0) (d 5)] [d 2; d 4] = [MkPeriod (d 0) (d 2); MkPeriod (d 3) (d 4)] /\
  forall x, AnyContains (remove [MkPeriod (d 0) (d 5)] [d 2; d 4]) x = true <->
    AnyContains [MkPeriod (d 0) (d 5)] x = true /\ Day x ∉ [d 2; d 4].
Proof.
  split; [vm_compute; reflexivity |].
  apply (remove_spec [MkPeriod (0 * day_len) (5 * day_len)] [2 * day_len; 4 * day_len]).
  - repeat constructor; vm_compute; reflexivity.
  - repeat constructor; vm_compute; reflexivity.
Defined.
