(* ===== verification/Mic.v ===== *)
(** Venues, currencies and the identifier a datasource is sent:
    [server/internal/mic], [server/internal/currency] and
    [server/internal/market/identifier.go].

    A Go string is a list of bytes. [ToUpper] and [TrimSpace] are modelled on
    ASCII, and [strings.Map] on valid UTF-8, where a separator is a byte of its
    own. *)
From Stdlib Require Import Ascii.
From S2P Require Import Prelude Types Rows.

(** * Strings *)

Definition upper (c : ascii) : ascii :=
  let n := Ascii.N_of_ascii c in
  if ((97 <=? n) && (n <=? 122))%N then Ascii.ascii_of_N (n - 32) else c.

Fixpoint string_map (f : ascii -> ascii) (s : string) : string :=
  match s with
  | EmptyString => EmptyString
  | String c s' => String (f c) (string_map f s')
  end.

Definition ToUpper (s : string) : string := string_map upper s.

(** Tab, newline, vertical tab, form feed, carriage return and space. *)
Definition is_space (c : ascii) : bool :=
  let n := Ascii.N_of_ascii c in ((9 <=? n) && (n <=? 13) || (n =? 32))%N.

Fixpoint trim_left (s : string) : string :=
  match s with
  | EmptyString => EmptyString
  | String c s' => if is_space c then trim_left s' else s
  end.

Fixpoint trim_right (s : string) : string :=
  match s with
  | EmptyString => EmptyString
  | String c s' =>
      match trim_right s' with
      | EmptyString => if is_space c then EmptyString else String c EmptyString
      | r => String c r
      end
  end.

Definition TrimSpace (s : string) : string := trim_right (trim_left s).

(** * Venues, [mic/mic.go] *)

Record MIC : Type := MkMIC {
  mic_Operating : string;
  mic_Market : string;
}.

Abbreviation MICMap := (gmap string MIC) (only parsing).

Definition mic_Of (ops : gmap string string) : MICMap := (fun op => MkMIC op op) <$> ops.

(** The rows of the view [mic_markets]: MIC, operating MIC and market. *)
Definition mic_Load (rows : list (string * string * string)) : MICMap :=
  foldl (fun t r => <[r.1.1 := MkMIC r.1.2 r.2]> t) ∅ rows.

Definition Operating (t : MICMap) (m : string) : option string := mic_Operating <$> t !! ToUpper (TrimSpace m).

Definition Market (t : MICMap) (m : string) : option string := mic_Market <$> t !! ToUpper (TrimSpace m).

Definition IsMarket (t : MICMap) (m : string) : bool :=
  existsb (fun e => bool_decide (mic_Market e = m)) (map_to_list t).*2.

Definition mics_MarketTicker (t : MICMap) (v : Identifier) : option MarketTicker :=
  if negb (bool_decide (id_Type v = IdentifierTypeMicTicker)) || bool_decide (id_Value v = ""%string) then None
  else m ← Market t (id_Domain v); Some (MkMarketTicker m (id_Value v)).

Definition Venues (t : MICMap) (market : string) : list string :=
  sort_func String.compare (map_to_list (filter (fun me : string * MIC => mic_Market me.2 = market) t)).*1.

(** The identifier each probe is written from; the JSON text is left out. *)
Fixpoint TickerProbes (t : MICMap) (ts : list MarketTicker) : res MarketTicker (list Identifier) :=
  match ts with
  | [] => Ok []
  | mt :: ts' =>
      match Venues t (mt_Market mt) with
      | [] => Err mt
      | vs => res_map (app (map (fun v => MkIdentifier IdentifierTypeMicTicker v (mt_Value mt)) vs)) (TickerProbes t ts')
      end
  end.

(** * Currencies, [currency/currency.go] *)

Abbreviation Families := (gmap string string) (only parsing).

(** A Go map answers the empty family for a code it lacks. *)
Definition Family (f : Families) (code : string) : string := default ""%string (f !! code).

Definition Known (f : Families) (code : string) : bool := bool_decide (is_Some (f !! code)).

Definition Scale {D} (one : D) (s : gmap string D) (code : string) : D := default one (s !! code).

(** * Spelling, [market/identifier.go] *)

(** [classSeps], the runes of [".-/ "]. *)
Definition classSeps (c : ascii) : bool :=
  contains [Ascii.ascii_of_N 46; Ascii.ascii_of_N 45; Ascii.ascii_of_N 47; Ascii.ascii_of_N 32] c.

Fixpoint count_seps (s : string) : nat :=
  match s with
  | EmptyString => 0
  | String c s' => if classSeps c then S (count_seps s') else count_seps s'
  end.

Definition WithClassSep (ticker : string) (sep : ascii) : string * bool :=
  let out := string_map (fun c => if classSeps c then sep else c) ticker in
  if (1 <? count_seps ticker)%nat then (ticker, false) else (out, true).

Definition dot : ascii := Ascii.ascii_of_N 46.

Definition Canonical (ticker : string) : bool :=
  let '(out, ok) := WithClassSep ticker dot in ok && bool_decide (out = ticker).

(** * What a datasource is sent *)

Definition Equities (c : AssetClass) : bool :=
  contains [AssetClassUnknown; AssetClassSecurity; AssetClassEquity; AssetClassStock; AssetClassEtf; AssetClassMutualFund] c.

Inductive declined : Type :=
| ClassRejected (c : AssetClass)
| VenueRejected (domain : string)
| VenueUnknown (id : Identifier)
| BareDeclined (id : Identifier)
| NoIdentifier.

Definition sendBare (key : StatedKey) (bare : Identifier) : res declined Identifier :=
  match find_func IsGlobal (sk_Identifiers key) with
  | Some id => Err (BareDeclined id)
  | None => Ok bare
  end.

Record Preference : Type := MkPreference {
  pf_Served : option (AssetClass -> bool);
  pf_Order : list IdentifierType;
  pf_Lists : option (string -> bool);
  pf_Mics : MICMap;
}.

(** The variables of the loop of [Serves]. *)
Record serving : Type := MkServing {
  sv_first : gmap IdentifierType Identifier;
  sv_bare : option Identifier;
  sv_unknown : option Identifier;
}.

Definition add_first (s : serving) (id : Identifier) : serving :=
  match sv_first s !! id_Type id with
  | Some _ => s
  | None => MkServing (<[id_Type id := id]> (sv_first s)) (sv_bare s) (sv_unknown s)
  end.

Definition serves_step (p : Preference) (s : serving) (id : Identifier) : res declined serving :=
  if bool_decide (id_Type id = IdentifierTypeMicTicker) then
    if bool_decide (id_Domain id = ""%string)
    then Ok (MkServing (sv_first s) (match sv_bare s with None => Some id | b => b end) (sv_unknown s))
    else
      match pf_Lists p, Operating (pf_Mics p) (id_Domain id) with
      | Some _, None => Err (VenueRejected (id_Domain id))
      | None, None => Ok (MkServing (sv_first s) (sv_bare s) (Some id))
      | Some l, Some op =>
          if l op then Ok (add_first s (MkIdentifier (id_Type id) op (id_Value id))) else Err (VenueRejected (id_Domain id))
      | None, Some op => Ok (add_first s (MkIdentifier (id_Type id) op (id_Value id)))
      end
  else Ok (add_first s id).

(** The first of [order] that [first] holds. *)
Fixpoint first_of (first : gmap IdentifierType Identifier) (order : list IdentifierType) : option Identifier :=
  match order with
  | [] => None
  | t :: order' => match first !! t with Some id => Some id | None => first_of first order' end
  end.

Definition Serves (p : Preference) (key : StatedKey) : res declined Identifier :=
  match sk_AssetClass key, pf_Served p with
  | Some c, Some served => if served c then Ok tt else Err (ClassRejected c)
  | _, _ => Ok tt
  end ≫= fun _ =>
  res_fold (serves_step p) (MkServing ∅ None None) (sk_Identifiers key) ≫= fun s =>
  match first_of (sv_first s) (pf_Order p) with
  | Some id => Ok id
  | None =>
      match sv_bare s, contains (pf_Order p) IdentifierTypeMicTicker with
      | Some b, true => sendBare key b
      | _, _ => match sv_unknown s with Some id => Err (VenueUnknown id) | None => Err NoIdentifier end
      end
  end.

(** * Lemmas *)

Lemma classSeps_dot : classSeps dot = true.
Proof. reflexivity. Qed.

(** A ticker is spelled canonically when its only separator is a dot, and there
    is at most one. *)
Fixpoint only_dots (s : string) : bool :=
  match s with
  | EmptyString => true
  | String c s' => (negb (classSeps c) || bool_decide (c = dot)) && only_dots s'
  end.

Lemma string_map_id f s : string_map f s = s <-> forall c, c ∈ String.list_ascii_of_string s -> f c = c.
Proof.
  induction s as [|c s IH]; simpl; [split; [by intros _ c []%not_elem_of_nil | done] |].
  setoid_rewrite elem_of_cons. split.
  - intros [= Hc Hs]. rewrite IH in Hs. naive_solver.
  - intros Hf. f_equal; [apply Hf; by left | apply IH; auto].
Qed.

Lemma only_dots_spec s : only_dots s = true <-> forall c, c ∈ String.list_ascii_of_string s -> classSeps c = true -> c = dot.
Proof.
  induction s as [|c s IH]; simpl; [split; [by intros _ c []%not_elem_of_nil | done] |].
  setoid_rewrite elem_of_cons. rewrite andb_true_iff, IH, orb_true_iff, negb_true_iff, bool_decide_eq_true.
  destruct (classSeps c) eqn:E; naive_solver congruence.
Qed.

Lemma count_seps_map sep s :
  classSeps sep = true -> count_seps (string_map (fun c => if classSeps c then sep else c) s) = count_seps s.
Proof. intros Hs. induction s as [|c s IH]; simpl; [done |]. destruct (classSeps c) eqn:E; rewrite ?Hs, ?E, IH; done. Qed.

Lemma string_map_idemp f s : (forall c, f (f c) = f c) -> string_map f (string_map f s) = string_map f s.
Proof. intros Hf. induction s as [|c s IH]; simpl; [done |]. by rewrite Hf, IH. Qed.

Lemma Canonical_eq s : Canonical s = true <-> only_dots s = true /\ (count_seps s <= 1)%nat.
Proof.
  unfold Canonical, WithClassSep. destruct (Nat.ltb_spec 1 (count_seps s)) as [Hlt|Hge]; simpl.
  - split; [done | intros [_ ?]; lia].
  - rewrite bool_decide_eq_true, string_map_id, only_dots_spec. split.
    + intros Hf. split; [| done]. intros c Hc Hs. specialize (Hf c Hc). rewrite Hs in Hf. done.
    + intros [Hd _] c Hc. destruct (classSeps c) eqn:E; [| done]. symmetry. by apply Hd.
Qed.

(** ** Serving a key *)

(** A ticker at a venue the integration does not list. *)
Definition venue_rejected (p : Preference) (id : Identifier) : bool :=
  bool_decide (id_Type id = IdentifierTypeMicTicker) && negb (bool_decide (id_Domain id = ""%string)) &&
  match pf_Lists p with
  | None => false
  | Some l => match Operating (pf_Mics p) (id_Domain id) with Some op => negb (l op) | None => true end
  end.

Definition is_bare (id : Identifier) : bool :=
  bool_decide (id_Type id = IdentifierTypeMicTicker) && bool_decide (id_Domain id = ""%string).

(** The identifier as it is sent: a ticker at its operating MIC. *)
Definition sendable (p : Preference) (id : Identifier) : option Identifier :=
  if bool_decide (id_Type id = IdentifierTypeMicTicker) then
    if bool_decide (id_Domain id = ""%string) then None
    else (fun op => MkIdentifier (id_Type id) op (id_Value id)) <$> Operating (pf_Mics p) (id_Domain id)
  else Some id.

Definition venue_unknown (p : Preference) (id : Identifier) : bool :=
  bool_decide (id_Type id = IdentifierTypeMicTicker) && negb (bool_decide (id_Domain id = ""%string)) &&
  bool_decide (Operating (pf_Mics p) (id_Domain id) = None).

(** The first sendable identifier of a type. *)
Definition first_sendable (p : Preference) (ids : list Identifier) (t : IdentifierType) : option Identifier :=
  find_func (fun id => bool_decide (id_Type id = t)) (omap (sendable p) ids).

Definition last_of {A} (f : A -> bool) (l : list A) : option A := find_func f (rev l).

Lemma find_func_app {A} (f : A -> bool) l k :
  find_func f (l ++ k) = match find_func f l with Some x => Some x | None => find_func f k end.
Proof. induction l as [|x l IH]; simpl; [done |]. by destruct (f x). Qed.

Definition serving_of (p : Preference) (ids : list Identifier) (s : serving) : Prop :=
  (forall t, sv_first s !! t = first_sendable p ids t) /\ sv_bare s = find_func is_bare ids /\
  sv_unknown s = last_of (venue_unknown p) ids.

Lemma add_first_spec s id t :
  sv_first (add_first s id) !! t =
    match sv_first s !! t with Some x => Some x | None => if bool_decide (id_Type id = t) then Some id else None end /\
  sv_bare (add_first s id) = sv_bare s /\ sv_unknown (add_first s id) = sv_unknown s.
Proof.
  unfold add_first. destruct (sv_first s !! id_Type id) as [x|] eqn:E.
  - split; [| done]. case_bool_decide as Et; [by rewrite <- Et, E | by destruct (sv_first s !! t)].
  - simpl. split; [| done]. case_bool_decide as Et.
    + by rewrite <- Et, lookup_insert_eq, E.
    + rewrite lookup_insert_ne by done. by destruct (sv_first s !! t).
Qed.

Lemma serving_snoc p ids id s s' :
  serving_of p ids s ->
  (forall t, sv_first s' !! t = match sv_first s !! t with Some x => Some x | None =>
     match sendable p id with Some y => if bool_decide (id_Type y = t) then Some y else None | None => None end end) ->
  sv_bare s' = match sv_bare s with Some x => Some x | None => if is_bare id then Some id else None end ->
  sv_unknown s' = (if venue_unknown p id then Some id else sv_unknown s) ->
  serving_of p (ids ++ [id]) s'.
Proof.
  intros (H1 & H2 & H3) E1 E2 E3. split; [| split].
  - intros t. rewrite E1, H1. unfold first_sendable. rewrite omap_app, find_func_app. simpl.
    by destruct (sendable p id).
  - rewrite E2, H2, find_func_app. done.
  - rewrite E3, H3. unfold last_of. by rewrite rev_unit.
Qed.

Lemma serves_step_spec p ids s id :
  serving_of p ids s ->
  if venue_rejected p id then serves_step p s id = Err (VenueRejected (id_Domain id))
  else exists s', serves_step p s id = Ok s' /\ serving_of p (ids ++ [id]) s'.
Proof.
  intros Hs.
  assert (forall x : Identifier, sendable p id = Some x -> is_bare id = false -> venue_unknown p id = false ->
    serving_of p (ids ++ [id]) (add_first s x)) as Hadd.
  { intros x Hx Hb Hu. apply (serving_snoc p ids id s); [done | | |].
    - intros t. rewrite Hx. apply add_first_spec.
    - rewrite Hb. rewrite (proj1 (proj2 (add_first_spec s x (id_Type x)))). by destruct (sv_bare s).
    - rewrite Hu. apply (proj2 (proj2 (add_first_spec s x (id_Type x)))). }
  pose proof (fun s' => serving_snoc p ids id s s' Hs) as Hsnoc.
  unfold serves_step, venue_rejected, sendable, is_bare, venue_unknown in *.
  destruct (bool_decide (id_Type id = IdentifierTypeMicTicker)); simpl in *.
  2: { eexists. split; [reflexivity | by apply Hadd]. }
  destruct (bool_decide (id_Domain id = ""%string)); simpl in *.
  { eexists. split; [reflexivity |]. apply Hsnoc; simpl; try done. intros t. by destruct (sv_first s !! t). }
  destruct (Operating (pf_Mics p) (id_Domain id)) as [op|]; simpl in *; destruct (pf_Lists p) as [l|]; simpl.
  - destruct (l op); simpl; [| done]. eexists. split; [reflexivity | by apply Hadd].
  - eexists. split; [reflexivity | by apply Hadd].
  - done.
  - eexists. split; [reflexivity |]. apply Hsnoc; simpl; try done.
    + intros t. by destruct (sv_first s !! t).
    + by destruct (sv_bare s).
Qed.

Lemma serves_fold p ids : forall ids0 s,
  serving_of p ids0 s ->
  match find_func (venue_rejected p) ids with
  | Some id => res_fold (serves_step p) s ids = Err (VenueRejected (id_Domain id))
  | None => exists s', res_fold (serves_step p) s ids = Ok s' /\ serving_of p (ids0 ++ ids) s'
  end.
Proof.
  induction ids as [|id ids IH]; intros ids0 s Hs; simpl; [exists s; by rewrite app_nil_r |].
  pose proof (serves_step_spec p ids0 s id Hs) as Hstep. destruct (venue_rejected p id); [by rewrite Hstep |].
  destruct Hstep as (s' & -> & Hs'). specialize (IH _ s' Hs'). by rewrite <- app_assoc in IH.
Qed.

Fixpoint first_some {A B} (f : A -> option B) (l : list A) : option B :=
  match l with
  | [] => None
  | a :: l' => match f a with Some b => Some b | None => first_some f l' end
  end.

Lemma first_of_eq first f order : (forall t, first !! t = f t) -> first_of first order = first_some f order.
Proof. intros H. induction order as [|t order IH]; simpl; [done |]. rewrite H. by destruct (f t). Qed.

(** * Properties *)

(** A ticker is written as the system writes one when its only separator is
    a dot and it has at most one. Writing a ticker with a dot fails exactly when
    it has several separators, and otherwise gives that spelling. *)
Theorem Canonical_spec t :
  let '(out, ok) := WithClassSep t dot in
  (Canonical t = true <-> (count_seps t <= 1)%nat /\
     forall c, c ∈ String.list_ascii_of_string t -> classSeps c = true -> c = dot) /\
  (ok = true <-> (count_seps t <= 1)%nat) /\ (ok = true -> Canonical out = true).
Proof.
  destruct (WithClassSep t dot) as [out ok] eqn:E. split; [| split].
  - rewrite Canonical_eq, only_dots_spec. tauto.
  - unfold WithClassSep in E. destruct (Nat.ltb_spec 1 (count_seps t)); injection E as <- <-; [split; [done | lia] | done].
  - unfold WithClassSep in E. destruct (Nat.ltb_spec 1 (count_seps t)) as [|Hle]; injection E as <- <-; [done |]. intros _.
    apply Canonical_eq. rewrite count_seps_map by done. split; [| done]. apply only_dots_spec. intros c Hc Hs.
    assert (string_map (fun c => if classSeps c then dot else c) (string_map (fun c => if classSeps c then dot else c) t) =
      string_map (fun c => if classSeps c then dot else c) t) as Ei.
    { apply string_map_idemp. intros x. destruct (classSeps x) eqn:Ex; by rewrite ?Ex. }
    rewrite string_map_id in Ei. specialize (Ei c Hc). rewrite Hs in Ei. done.
Qed.

(** What is sent for a key: nothing where its class is not served or it names
    a ticker at a venue outside those listed. Otherwise it is the first
    identifier of the first type of the order that the key states, a ticker at
    its operating MIC and only where its venue is known; failing those, a ticker
    without a venue, and that only for a key without a global identifier. *)
Theorem Serves_spec (p : Preference) (key : StatedKey) :
  Serves p key =
    let ids := sk_Identifiers key in
    let rejected := match sk_AssetClass key, pf_Served p with Some c, Some served => if served c then None else Some c | _, _ => None end in
    match rejected, find_func (venue_rejected p) ids with
    | Some c, _ => Err (ClassRejected c)
    | None, Some id => Err (VenueRejected (id_Domain id))
    | None, None =>
        match first_some (first_sendable p ids) (pf_Order p) with
        | Some id => Ok id
        | None =>
            match find_func is_bare ids, contains (pf_Order p) IdentifierTypeMicTicker, find_func IsGlobal ids with
            | Some b, true, None => Ok b
            | Some b, true, Some g => Err (BareDeclined g)
            | _, _, _ => match last_of (venue_unknown p) ids with Some id => Err (VenueUnknown id) | None => Err NoIdentifier end
            end
        end
    end.
Proof.
  unfold Serves. cbv zeta.
  pose proof (serves_fold p (sk_Identifiers key) [] (MkServing ∅ None None)) as Hf.
  destruct (sk_AssetClass key) as [c|], (pf_Served p) as [served|]; try destruct (served c); simpl; try done;
    (destruct (find_func (venue_rejected p) (sk_Identifiers key)) as [id|];
     [by rewrite Hf | destruct Hf as (s & -> & H1 & H2 & H3); [done |]; simpl in *;
      rewrite (first_of_eq _ _ _ H1), H2, H3; destruct (first_some _ _); [done |]; unfold sendBare;
      destruct (find_func is_bare _); [| done];
      destruct (contains (pf_Order p) IdentifierTypeMicTicker); [by destruct (find_func IsGlobal _) | done]]).
Qed.
