(* ===== verification/Ingest.v ===== *)
(** What a statement states, [server/internal/stmt/stmt.go] and [validate.go]:
    the keys its rows and splits state, read into one canonical form, the rows
    it accepts and rejects, and the run that ingests it.

    The messages are generated from [proto/stmt/v1/stmt.proto]. An enum is what
    [types.FromProto] reads of its number: [None] is outside the vocabulary and
    [Some None] is unspecified. The texts of the dates and the decimals are read
    by the standard library and by a third-party package, so what they read is a
    parameter. *)
From S2P Require Import Prelude Types Period Mic Runs.

(** * Definitions *)

Inductive Broker : Type :=
| BrokerIbkr
| BrokerSchwab
| BrokerFidelityUk.

#[export] Instance Broker_eq_dec : EqDecision Broker.
Proof. solve_decision. Defined.

Definition Broker_string (b : Broker) : string :=
  match b with BrokerIbkr => "ibkr" | BrokerSchwab => "schwab" | BrokerFidelityUk => "fidelity_uk" end%string.

(** ** The messages *)

Record IdentifierMsg : Type := MkIdentifierMsg {
  im_Type : option (option IdentifierType);
  im_Domain : string;
  im_Value : string;
}.

Record StatedKeyMsg : Type := MkStatedKeyMsg {
  km_Identifiers : list IdentifierMsg;
  km_AssetClass : option (option AssetClass);
  km_Currency : option string;
}.

Record RowMsg : Type := MkRowMsg {
  rm_Key : option StatedKeyMsg;
  rm_OrderDate : string;
  rm_SettlementDate : string;
  rm_AsAt : string;
  rm_Quantity : string;
}.

Record RatioMsg : Type := MkRatioMsg {
  am_From : string;
  am_To : string;
}.

Record StatedSplitMsg : Type := MkStatedSplitMsg {
  sm_Key : option StatedKeyMsg;
  sm_EffectiveDate : string;
  sm_Quantity : string;
  sm_Ratio : option RatioMsg;
}.

Record StmtMsg : Type := MkStmtMsg {
  tm_Broker : option (option Broker);
  tm_From : string;
  tm_Before : string;
  tm_Rows : list RowMsg;
  tm_Splits : list StatedSplitMsg;
}.

(** ** Keys *)

Record key : Type := MkKey {
  k_class : option AssetClass;
  k_currency : option string;
  k_identifiers : list Identifier;
}.

Definition statable (k : key) : bool := negb (bool_decide (k_identifiers k = [])).

Inductive key_error : Type :=
| NoKey
| ClassOutside
| TypeOutside
| TickerStated
| NoValue (t : IdentifierType)
| OtherBroker (t : IdentifierType) (domain : string)
| TwoIdentifiers (t : IdentifierType) (held value : string)
| NoIdentifier
| UnknownCurrency (c : string).

(** One identifier of [keyOf]'s loop. *)
Definition read_id (broker : Broker) (msg : IdentifierMsg) : res key_error Identifier :=
  match im_Type msg with
  | None | Some None => Err TypeOutside
  | Some (Some t) =>
      if bool_decide (t = IdentifierTypeDatasourceTicker) then Err TickerStated
      else if bool_decide (im_Value msg = ""%string) then Err (NoValue t)
      else if (bool_decide (t = IdentifierTypeBrokerID) || bool_decide (t = IdentifierTypeBrokerDescription))
        && negb (bool_decide (im_Domain msg = Broker_string broker)) then Err (OtherBroker t (im_Domain msg))
      else Ok (MkIdentifier t (im_Domain msg) (im_Value msg))
  end.

Definition contradicts (id held : Identifier) : bool :=
  bool_decide (id_Type held = id_Type id) && bool_decide (id_Domain held = id_Domain id) && Exclusive id.

Definition id_step (broker : Broker) (ids : list Identifier) (msg : IdentifierMsg) : res key_error (list Identifier) :=
  match read_id broker msg with
  | Err e => Err e
  | Ok id =>
      if bool_decide (id ∈ ids) then Ok ids
      else match find_func (contradicts id) ids with
           | Some held => Err (TwoIdentifiers (id_Type id) (id_Value held) (id_Value id))
           | None => Ok (ids ++ [id])
           end
  end.

Definition id_cmp : Identifier -> Identifier -> comparison :=
  cmp_lex (cmp_on (fun i => IdentifierType_string (id_Type i)) String.compare)
    (cmp_lex (cmp_on id_Domain String.compare) (cmp_on id_Value String.compare)).

Definition keyOf (sk : StatedKeyMsg) (broker : Broker) : res key_error key :=
  match km_AssetClass sk with
  | None => Err ClassOutside
  | Some class =>
      match res_fold (id_step broker) [] (km_Identifiers sk) with
      | Err e => Err e
      | Ok ids => Ok (MkKey class (km_Currency sk) (sort_func id_cmp ids))
      end
  end.

Definition keyFor (families : Families) (broker : Broker) (sk : option StatedKeyMsg) : res key_error key :=
  match sk with
  | None => Err NoKey
  | Some sk =>
      match keyOf sk broker with
      | Err e => Err e
      | Ok k =>
          if negb (statable k) then Err NoIdentifier
          else match k_currency k with
               | Some c => if Known families c then Ok k else Err (UnknownCurrency c)
               | None => Ok k
               end
      end
  end.

Definition nul : string := String Ascii.zero "".

Definition canon_part (s : option string) : string :=
  match s with Some s => String Ascii.one s +:+ nul | None => nul end.

Definition canon_id (id : Identifier) : string := IdentifierType_string (id_Type id) +:+ nul +:+ (id_Domain id +:+ nul +:+ (id_Value id +:+ nul)).

Definition canon (k : key) : string :=
  canon_part (AssetClass_string <$> k_class k) +:+ (canon_part (k_currency k) +:+ foldr (fun id s => canon_id id +:+ s) ""%string (k_identifiers k)).

(** ** The statement *)

Inductive row_error : Type :=
| BadKey (e : key_error)
| BadOrderDate (s : string)
| BadSettlementDate (s : string)
| BadAsAt (s : string)
| BadQuantity (s : string)
| OutsidePeriod
| AfterToday.

Inductive split_error : Type :=
| BadSplitKey (e : key_error)
| BadEffectiveDate (s : string)
| BadSplitQuantity (s : string)
| BadRatioFrom (s : string)
| BadRatioTo (s : string).

Inductive create_error : Type :=
| BadBroker
| BadFrom (s : string)
| BadBefore (s : string)
| EmptyPeriod
| BadSplit (i : Z) (e : split_error)
| NotStarted.

Section Stmt.
Context {D : Type} (parseDate : string -> option time) (NewFromString : string -> option D).

(** What an accepted row states; its key is a place in the statement's keys, as
    the pointer of the source is. *)
Record stated : Type := MkStated {
  st_key : nat;
  st_order : time;
  st_settlement : time;
  st_asAt : time;
  st_quantity : D;
}.

Record row : Type := MkRow {
  rw_ordinal : Z;
  rw_stated : RowMsg;
  rw_valid : res row_error stated;
}.

Record split : Type := MkSplit {
  sp_ordinal : Z;
  sp_key : nat;
  sp_effective : time;
  sp_quantity : D;
  sp_ratio : option (D * D);
}.

Record ingestion : Type := MkIngestion {
  ig_user : uuid;
  ig_broker : Broker;
  ig_from : time;
  ig_before : time;
  ig_rows : list row;
  ig_splits : list split;
  ig_keys : gmap string nat;
  ig_order : list key;
}.

Definition add_row (r : row) (g : ingestion) : ingestion :=
  MkIngestion (ig_user g) (ig_broker g) (ig_from g) (ig_before g) (ig_rows g ++ [r]) (ig_splits g) (ig_keys g) (ig_order g).
Definition add_split (s : split) (g : ingestion) : ingestion :=
  MkIngestion (ig_user g) (ig_broker g) (ig_from g) (ig_before g) (ig_rows g) (ig_splits g ++ [s]) (ig_keys g) (ig_order g).

Definition intern (k : key) (g : ingestion) : nat * ingestion :=
  let c := canon k in
  match ig_keys g !! c with
  | Some n => (n, g)
  | None =>
      let n := length (ig_order g) in
      (n, MkIngestion (ig_user g) (ig_broker g) (ig_from g) (ig_before g) (ig_rows g) (ig_splits g) (<[c := n]> (ig_keys g)) (ig_order g ++ [k]))
  end.

Definition parsed {E : Type} (e : E) (o : option time) : res E time := match o with Some t => Ok t | None => Err e end.
Definition number {E : Type} (e : E) (o : option D) : res E D := match o with Some d => Ok d | None => Err e end.

(** [validate], before it interns the key. *)
Definition check_row (families : Families) (today : time) (g : ingestion) (r : RowMsg) : res row_error (key * (nat -> stated)) :=
  match keyFor families (ig_broker g) (rm_Key r) with
  | Err e => Err (BadKey e)
  | Ok k =>
      order ← parsed (BadOrderDate (rm_OrderDate r)) (parseDate (rm_OrderDate r));
      settlement ← parsed (BadSettlementDate (rm_SettlementDate r)) (parseDate (rm_SettlementDate r));
      asAt ← parsed (BadAsAt (rm_AsAt r)) (parseDate (rm_AsAt r));
      quantity ← number (BadQuantity (rm_Quantity r)) (NewFromString (rm_Quantity r));
      if (order <? ig_from g) || negb (order <? ig_before g) then Err OutsidePeriod
      else if today <? order then Err AfterToday
      else Ok (k, fun n => MkStated n order settlement asAt quantity)
  end.

Definition validate (families : Families) (today : time) (ordinal : Z) (r : RowMsg) (g : ingestion) : row * ingestion :=
  match check_row families today g r with
  | Err e => (MkRow ordinal r (Err e), g)
  | Ok (k, st) => let '(n, g) := intern k g in (MkRow ordinal r (Ok (st n)), g)
  end.

Definition read_ratio (r : option RatioMsg) : res split_error (option (D * D)) :=
  match r with
  | None => Ok None
  | Some r =>
      from ← number (BadRatioFrom (am_From r)) (NewFromString (am_From r));
      to ← number (BadRatioTo (am_To r)) (NewFromString (am_To r));
      Ok (Some (from, to))
  end.

Definition check_split (families : Families) (broker : Broker) (sp : StatedSplitMsg) : res split_error (key * (Z -> nat -> split)) :=
  match keyFor families broker (sm_Key sp) with
  | Err e => Err (BadSplitKey e)
  | Ok k =>
      effective ← parsed (BadEffectiveDate (sm_EffectiveDate sp)) (parseDate (sm_EffectiveDate sp));
      quantity ← number (BadSplitQuantity (sm_Quantity sp)) (NewFromString (sm_Quantity sp));
      ratio ← read_ratio (sm_Ratio sp);
      Ok (k, fun ordinal n => MkSplit ordinal n effective quantity ratio)
  end.

Definition read_split (families : Families) (ordinal : Z) (sp : StatedSplitMsg) (g : ingestion) : res split_error (split * ingestion) :=
  match check_split families (ig_broker g) sp with
  | Err e => Err e
  | Ok (k, s) => let '(n, g) := intern k g in Ok (s ordinal n, g)
  end.

Fixpoint validate_rows (families : Families) (today : time) (i : Z) (rs : list RowMsg) (g : ingestion) : ingestion :=
  match rs with
  | [] => g
  | r :: rs => let '(w, g) := validate families today i r g in validate_rows families today (i + 1) rs (add_row w g)
  end.

Fixpoint read_splits (families : Families) (i : Z) (sps : list StatedSplitMsg) (g : ingestion) : res create_error ingestion :=
  match sps with
  | [] => Ok g
  | sp :: sps =>
      match read_split families i sp g with
      | Err e => Err (BadSplit i e)
      | Ok (s, g) => read_splits families (i + 1) sps (add_split s g)
      end
  end.

(** [Create] until the run: what the statement states. *)
Definition read_stmt (families : Families) (now : time) (user : uuid) (msg : StmtMsg) : res create_error ingestion :=
  match tm_Broker msg with
  | None | Some None => Err BadBroker
  | Some (Some broker) =>
      from ← parsed (BadFrom (tm_From msg)) (parseDate (tm_From msg));
      before ← parsed (BadBefore (tm_Before msg)) (parseDate (tm_Before msg));
      if negb (from <? before) then Err EmptyPeriod
      else read_splits families 0 (tm_Splits msg)
             (validate_rows families (Day now) 0 (tm_Rows msg) (MkIngestion user broker from before [] [] ∅ []))
  end.

Definition stmt_spec (user : uuid) (broker : Broker) : Spec := MkSpec RunKindIngestStmt RunTriggerUser (Some user) (Broker_string broker) true.

(** [Create]: the run is queued in the lane of the user and the broker. *)
Definition Create (families : Families) (now : time) (user : uuid) (msg : StmtMsg) (w : world) : res create_error (ingestion * world) :=
  match read_stmt families now user msg with
  | Err e => Err e
  | Ok g => match Start (stmt_spec user (ig_broker g)) w with None => Err NotStarted | Some w => Ok (g, w) end
  end.

End Stmt.

(** * Keys *)

(** Two values of an exclusive type in one domain. *)
Definition agreeable (ids : list Identifier) : Prop := forall i j, i ∈ ids -> j ∈ ids -> contradicts i j = true -> i = j.

(** The identifiers that a key's messages state. *)
Definition stating (broker : Broker) (ms : list IdentifierMsg) (i : Identifier) : Prop := exists m, m ∈ ms /\ read_id broker m = Ok i.

Definition readable (broker : Broker) (ms : list IdentifierMsg) : Prop :=
  (forall m, m ∈ ms -> exists i, read_id broker m = Ok i) /\
  forall i j, stating broker ms i -> stating broker ms j -> contradicts i j = true -> i = j.

Lemma contradicts_sym i j : contradicts i j = contradicts j i.
Proof.
  unfold contradicts, Exclusive. destruct (decide (id_Type i = id_Type j)) as [E|Hne].
  - rewrite E, !(bool_decide_true (id_Type j = id_Type j)) by done. f_equal. f_equal. apply bool_decide_ext. split; congruence.
  - by rewrite (bool_decide_false (id_Type i = _)), (bool_decide_false (id_Type j = _)) by congruence.
Qed.

Lemma id_step_ok broker ids m ids' : id_step broker ids m = Ok ids' -> NoDup ids -> agreeable ids ->
  exists i, read_id broker m = Ok i /\ NoDup ids' /\ agreeable ids' /\ forall j, j ∈ ids' <-> j ∈ ids \/ j = i.
Proof.
  unfold id_step. destruct (read_id broker m) as [i|e]; [| done]. case_bool_decide as Hi.
  - intros [= <-] Hn Ha. exists i. split; [done |]. split; [done |]. split; [done |]. intros j. split; [by left |]. by intros [?| ->].
  - destruct (find_func (contradicts i) ids) as [h|] eqn:Ef; [done |]. intros [= <-] Hn Ha. rewrite find_func_None in Ef. exists i. split; [done |]. split; [| split].
    + apply NoDup_app. split; [done |]. split; [intros x Hx ->%list_elem_of_singleton; done | apply NoDup_singleton].
    + intros a b [Ha'| ->%list_elem_of_singleton]%elem_of_app [Hb| ->%list_elem_of_singleton]%elem_of_app; [by apply Ha | | |done].
      * rewrite contradicts_sym. by rewrite Ef.
      * by rewrite Ef.
    + intros j. rewrite elem_of_app, list_elem_of_singleton. done.
Qed.

Lemma ids_loop_ok broker ms ids ids' : res_fold (id_step broker) ids ms = Ok ids' -> NoDup ids -> agreeable ids ->
  NoDup ids' /\ agreeable ids' /\ (forall m, m ∈ ms -> exists i, read_id broker m = Ok i) /\ forall j, j ∈ ids' <-> j ∈ ids \/ stating broker ms j.
Proof.
  revert ids. induction ms as [|m ms IH]; simpl; intros ids H Hn Ha.
  - injection H as <-. split; [done |]. split; [done |]. split; [by intros m ?%elem_of_nil |]. intros j. split; [by left |]. intros [?|(m & ?%elem_of_nil & _)]; done.
  - destruct (id_step broker ids m) as [ids1|e] eqn:E; [| done]. destruct (id_step_ok _ _ _ _ E Hn Ha) as (i & Hi & Hn1 & Ha1 & H1).
    destruct (IH ids1 H Hn1 Ha1) as (Hn2 & Ha2 & Hr & H2). split; [done |]. split; [done |]. split.
    + intros x [->|Hx]%elem_of_cons; [by exists i | by apply Hr].
    + intros j. rewrite H2, H1. unfold stating. setoid_rewrite elem_of_cons. split.
      * intros [[?| ->]|(x & ? & ?)]; [by left | right; eauto | right; eauto].
      * intros [?|(x & [->|?] & Hx)]; [by left; left | left; right; congruence | right; eauto].
Qed.

Lemma ids_loop_total broker ms ids : NoDup ids -> agreeable ids -> (forall m, m ∈ ms -> exists i, read_id broker m = Ok i) ->
  (forall i j, i ∈ ids \/ stating broker ms i -> j ∈ ids \/ stating broker ms j -> contradicts i j = true -> i = j) ->
  exists ids', res_fold (id_step broker) ids ms = Ok ids'.
Proof.
  revert ids. induction ms as [|m ms IH]; simpl; intros ids Hn Ha Hr Hc; [by eexists |]. destruct (Hr m ltac:(left)) as [i Hi].
  assert (exists ids1, id_step broker ids m = Ok ids1) as [ids1 E1].
  { unfold id_step. rewrite Hi. case_bool_decide as Hin; [by eexists |]. destruct (find_func (contradicts i) ids) as [h|] eqn:Ef; [| by eexists].
    apply find_func_Some in Ef as [Hh Hcon]. destruct Hin. rewrite (Hc i h); [done | right; exists m; split; [left | done] | by left | done]. }
  rewrite E1. destruct (id_step_ok _ _ _ _ E1 Hn Ha) as (i' & Hi' & Hn1 & Ha1 & H1). assert (i' = i) as -> by congruence.
  apply IH; [done | done | intros x Hx; apply Hr; by right |].
  assert (forall j, j ∈ ids1 \/ stating broker ms j -> j ∈ ids \/ stating broker (m :: ms) j) as Hback.
  { intros j [[Hj| ->]%H1|(x & Hx & Hj)]; [by left | right; exists m; split; [left | done] | right; exists x; split; [by right | done]]. }
  intros a b Ha' Hb'. apply Hc; by apply Hback.
Qed.

Lemma id_cmp_eq i j : id_cmp i j = Eq -> i = j.
Proof.
  unfold id_cmp, cmp_lex, cmp_or, cmp_on. destruct i as [t d v], j as [t' d' v']; simpl.
  destruct (String.compare (IdentifierType_string t) _) eqn:E1; try done. destruct (String.compare d d') eqn:E2; try done. intros E3.
  apply String.compare_eq_iff in E1, E2, E3. apply IdentifierType_string_inj in E1. congruence.
Qed.

#[export] Instance id_cmp_cmp : GoCmp id_cmp.
Proof. unfold id_cmp. apply _. Qed.

(** The canonical form: sorted, and each stated once. *)
Definition canonical (ids : list Identifier) : Prop := StronglySorted (cmp_le id_cmp) ids /\ NoDup ids.

Lemma canonical_unique ids ids' : canonical ids -> canonical ids' -> (forall i, i ∈ ids <-> i ∈ ids') -> ids = ids'.
Proof.
  intros [S1 N1] [S2 N2] He. rewrite <- (sort_func_id id_cmp ids S1), <- (sort_func_id id_cmp ids' S2). apply sort_func_unique; [apply _ | |].
  - intros x y _ _. apply id_cmp_eq.
  - by apply NoDup_Permutation.
Qed.

Lemma keyOf_ok sk broker k : keyOf sk broker = Ok k -> km_AssetClass sk = Some (k_class k) /\ k_currency k = km_Currency sk /\
  canonical (k_identifiers k) /\ agreeable (k_identifiers k) /\ (forall m, m ∈ km_Identifiers sk -> exists i, read_id broker m = Ok i) /\
  forall i, i ∈ k_identifiers k <-> stating broker (km_Identifiers sk) i.
Proof.
  unfold keyOf. destruct (km_AssetClass sk) as [class|]; [| done]. destruct (res_fold _ _ _) as [ids|e] eqn:E; [| done]. intros [= <-]. simpl.
  destruct (ids_loop_ok _ _ _ _ E (NoDup_nil_2) ltac:(by intros ? ? ?%elem_of_nil)) as (Hn & Ha & Hr & Hin). split; [done |]. split; [done |].
  split; [split; [by apply sort_func_sorted, _ | by rewrite sort_func_perm] |]. split; [| split; [done |]].
  - intros i j. rewrite !elem_of_sort_func. apply Ha.
  - intros i. rewrite elem_of_sort_func, Hin, elem_of_nil. tauto.
Qed.

Lemma keyOf_readable sk broker : (exists k, keyOf sk broker = Ok k) <-> is_Some (km_AssetClass sk) /\ readable broker (km_Identifiers sk).
Proof.
  split.
  - intros [k Hk]. destruct (keyOf_ok sk broker k Hk) as (Hc & _ & _ & Ha & Hr & Hin). split; [by eexists |]. split; [done |].
    intros i j Hi%Hin Hj%Hin. by apply Ha.
  - intros ([class Hc] & Hr & Hag). unfold keyOf. rewrite Hc. destruct (ids_loop_total broker (km_Identifiers sk) []) as [ids ->]; [apply NoDup_nil_2 | by intros ? ? ?%elem_of_nil | done | | by eexists].
    intros i j [?%elem_of_nil|Hi] [?%elem_of_nil|Hj]; [done.. |]. by apply Hag.
Qed.

(** ** The encoding *)

Fixpoint nul_free (s : string) : Prop := match s with EmptyString => True | String c s => c <> Ascii.zero /\ nul_free s end.

Lemma nul_split a b x y : nul_free a -> nul_free b -> a +:+ (nul +:+ x) = b +:+ (nul +:+ y) -> a = b /\ x = y.
Proof.
  change (nul +:+ x) with (String Ascii.zero x). change (nul +:+ y) with (String Ascii.zero y). revert b. induction a as [|c a IH]; intros [|d b]; simpl; [by intros _ _ [= ->] | intros _ [Hd _] [= <- _]; done | intros [Hc _] _ [= -> _]; done |].
  intros [_ Ha] [_ Hb] [= -> E]. destruct (IH b Ha Hb E) as [-> ->]. done.
Qed.

Definition nul_free_key (k : key) : Prop :=
  (forall c, k_currency k = Some c -> nul_free c) /\ forall i, i ∈ k_identifiers k -> nul_free (id_Domain i) /\ nul_free (id_Value i).

Lemma class_nul_free c : nul_free (AssetClass_string c).
Proof. destruct c; simpl; repeat split; discriminate. Qed.

Lemma type_nul_free t : nul_free (IdentifierType_string t).
Proof. destruct t; simpl; repeat split; discriminate. Qed.

Lemma class_string_inj c d : AssetClass_string c = AssetClass_string d -> c = d.
Proof. by destruct c, d. Qed.

Lemma append_assoc (a b c : string) : (a +:+ b) +:+ c = a +:+ (b +:+ c).
Proof. induction a as [|x a IH]; [done |]. change (String x ((a +:+ b) +:+ c) = String x (a +:+ (b +:+ c))). by rewrite IH. Qed.

Lemma canon_part_inj s t x y : (forall a, s = Some a -> nul_free a) -> (forall a, t = Some a -> nul_free a) -> canon_part s +:+ x = canon_part t +:+ y -> s = t /\ x = y.
Proof.
  intros Hs Ht.
  assert (forall a z, canon_part (Some a) +:+ z = String Ascii.one (a +:+ (nul +:+ z))) as Hsome.
  { intros a z. change (String Ascii.one ((a +:+ nul) +:+ z) = String Ascii.one (a +:+ (nul +:+ z))). by rewrite append_assoc. }
  assert (forall z, canon_part None +:+ z = String Ascii.zero z) as Hnone by done.
  destruct s as [s|], t as [t|]; rewrite ?Hsome, ?Hnone; intros E; injection E as E; try done.
  apply nul_split in E as [-> ->]; [done | by apply Hs | by apply Ht].
Qed.

Lemma canon_id_inj i j x y : nul_free (id_Domain i) -> nul_free (id_Value i) -> nul_free (id_Domain j) -> nul_free (id_Value j) ->
  canon_id i +:+ x = canon_id j +:+ y -> i = j /\ x = y.
Proof.
  intros Hd Hv Hd' Hv'. unfold canon_id. rewrite !append_assoc. intros E. apply nul_split in E as [E1 E]; [| apply type_nul_free..].
  apply nul_split in E as [E2 E]; [| done..]. apply nul_split in E as [E3 E]; [| done..].
  apply IdentifierType_string_inj in E1. destruct i, j; simpl in *. by simplify_eq.
Qed.

Lemma canon_inj_ok k l : nul_free_key k -> nul_free_key l -> canon k = canon l -> k = l.
Proof.
  destruct k as [c1 u1 ids], l as [c2 u2 js]. intros [Hu1 Hi] [Hu2 Hj] E. unfold canon in E. simpl in *.
  apply canon_part_inj in E as [E1 E]; [| intros a Ha; destruct c1; by simplify_eq/=; apply class_nul_free | intros a Ha; destruct c2; by simplify_eq/=; apply class_nul_free].
  apply canon_part_inj in E as [-> E]; [| done..].
  assert (c1 = c2) as -> by (destruct c1, c2; simplify_eq/=; [by f_equal; apply class_string_inj | done..]). f_equal.
  revert js Hj E. induction ids as [|i ids IH]; intros [|j js] Hj E; simpl in *; [done | | |].
  - exfalso. unfold canon_id in E. by destruct (id_Type j).
  - exfalso. unfold canon_id in E. by destruct (id_Type i).
  - destruct (Hi i ltac:(left)), (Hj j ltac:(left)). apply canon_id_inj in E as [-> E]; [| done..]. f_equal. apply IH; [| | done].
    + intros x Hx. apply Hi. by right.
    + intros x Hx. apply Hj. by right.
Qed.

(** * Statements *)

Section Reads.
Context {D : Type} (parseDate : string -> option time) (NewFromString : string -> option D) (families : Families) (today : time).
Implicit Types g : @ingestion D.

(** The keys of a statement, under their encodings. *)
Definition interned g : Prop := forall c n, ig_keys g !! c = Some n <-> exists k, ig_order g !! n = Some k /\ canon k = c.

(** A place holds a key that is encoded as [k] is. *)
Definition place_of g (k : key) (n : nat) : Prop := exists k', ig_order g !! n = Some k' /\ canon k' = canon k.

(** The keys of [g'] are those of [g], in their places, and [ks]. *)
Definition same_stmt g g' : Prop := ig_user g' = ig_user g /\ ig_broker g' = ig_broker g /\ ig_from g' = ig_from g /\ ig_before g' = ig_before g.

Lemma intern_ok k g n g' : interned g -> intern k g = (n, g') ->
  interned g' /\ place_of g' k n /\ same_stmt g g' /\ ig_rows g' = ig_rows g /\ ig_splits g' = ig_splits g /\
  ig_order g `prefix_of` ig_order g' /\ forall k', k' ∈ ig_order g' -> k' ∈ ig_order g \/ k' = k.
Proof.
  intros Hi. unfold intern. destruct (ig_keys g !! canon k) as [m|] eqn:E; intros [= <- <-].
  - split; [done |]. split; [by apply Hi |]. repeat (split; [done |]). intros k' Hk'. by left.
  - split; [| split; [| split; [done | split; [done | split; [done | split; [by exists [k] |]]]]]]; simpl.
    + intros c m. simpl. split.
      * intros [[<- <-]|[Hne Hm]]%lookup_insert_Some; [exists k; split; [by rewrite lookup_app_r, Nat.sub_diag by lia | done] |].
        apply Hi in Hm as (k0 & Hk0 & <-). exists k0. split; [by apply lookup_app_l_Some | done].
      * intros (k0 & Hk0 & <-). apply lookup_app_Some in Hk0 as [Hk0|[Hge Hk0]].
        -- assert (ig_keys g !! canon k0 = Some m) by (apply Hi; by exists k0). rewrite lookup_insert_ne; [done |]. intros Ec. rewrite Ec in E. congruence.
        -- apply list_lookup_singleton_Some in Hk0 as [Hz ->]. rewrite lookup_insert_eq. f_equal. lia.
    + exists k. simpl. split; [by rewrite lookup_app_r, Nat.sub_diag by lia | done].
    + intros k' [?| ->%list_elem_of_singleton]%elem_of_app; [by left | by right].
Qed.

Lemma place_of_prefix g g' k n : ig_order g `prefix_of` ig_order g' -> place_of g k n -> place_of g' k n.
Proof. intros [l Hl] (k' & Hk' & E). exists k'. split; [rewrite Hl; by apply lookup_app_l_Some | done]. Qed.

(** What becomes of one row, and of one split. *)
Definition row_read g (i : nat) (r : RowMsg) (w : row) : Prop :=
  rw_ordinal w = Z.of_nat i /\ rw_stated w = r /\
  match check_row parseDate NewFromString families today g r with
  | Err e => rw_valid w = Err e
  | Ok (k, st) => exists n, place_of g k n /\ rw_valid w = Ok (st n)
  end.

Definition split_read g (i : nat) (sp : StatedSplitMsg) (s : split) : Prop :=
  exists k mk n, check_split parseDate NewFromString families (ig_broker g) sp = Ok (k, mk) /\ place_of g k n /\ s = mk (Z.of_nat i) n.

(** A key of the statement is what an accepted row or a split states. *)
Definition key_stated g (rs : list RowMsg) (sps : list StatedSplitMsg) (k : key) : Prop :=
  (exists r st, r ∈ rs /\ check_row parseDate NewFromString families today g r = Ok (k, st)) \/
  (exists sp mk, sp ∈ sps /\ check_split parseDate NewFromString families (ig_broker g) sp = Ok (k, mk)).

Record read_so_far g (rs : list RowMsg) (sps : list StatedSplitMsg) : Prop := {
  rd_interned : interned g;
  rd_rows : length (ig_rows g) = length rs /\ forall i r, rs !! i = Some r -> exists w, ig_rows g !! i = Some w /\ row_read g i r w;
  rd_splits : length (ig_splits g) = length sps /\ forall i sp, sps !! i = Some sp -> exists s, ig_splits g !! i = Some s /\ split_read g i sp s;
  rd_keys k : k ∈ ig_order g -> key_stated g rs sps k;
}.

Lemma check_row_same g g' r : same_stmt g g' -> check_row parseDate NewFromString families today g' r = check_row parseDate NewFromString families today g r.
Proof. intros (_ & Hb & Hf & Hbe). unfold check_row. by rewrite Hb, Hf, Hbe. Qed.

Lemma row_read_mono g g' i r w : same_stmt g g' -> ig_order g `prefix_of` ig_order g' -> row_read g i r w -> row_read g' i r w.
Proof.
  intros Hs Hp (H1 & H2 & H3). split; [done |]. split; [done |]. rewrite (check_row_same g g') by done.
  destruct (check_row _ _ _ _ _ _) as [[k st]|e]; [| done]. destruct H3 as (n & Hn & Hv). exists n. split; [by apply (place_of_prefix g) | done].
Qed.

Lemma split_read_mono g g' i sp s : same_stmt g g' -> ig_order g `prefix_of` ig_order g' -> split_read g i sp s -> split_read g' i sp s.
Proof.
  intros (_ & Hb & _) Hp (k & mk & n & Hc & Hn & Hs). exists k, mk, n. rewrite Hb. split; [done |]. split; [by apply (place_of_prefix g) | done].
Qed.

Lemma key_stated_mono g g' rs rs' sps sps' k : same_stmt g g' -> (forall r, r ∈ rs -> r ∈ rs') -> (forall sp, sp ∈ sps -> sp ∈ sps') ->
  key_stated g rs sps k -> key_stated g' rs' sps' k.
Proof.
  intros Hs Hr Hsp [(r & st & Hin & Hc)|(sp & mk & Hin & Hc)]; [left | right].
  - exists r, st. split; [by apply Hr |]. by rewrite (check_row_same g g').
  - exists sp, mk. split; [by apply Hsp |]. destruct Hs as (_ & -> & _). done.
Qed.

(** A list that grows at its end by what is read of the next message. *)
Lemma read_snoc {A B} (R : nat -> A -> B -> Prop) (l : list A) (m : list B) a b :
  length m = length l -> (forall i x, l !! i = Some x -> exists y, m !! i = Some y /\ R i x y) -> R (length l) a b ->
  length (m ++ [b]) = length (l ++ [a]) /\ forall i x, (l ++ [a]) !! i = Some x -> exists y, (m ++ [b]) !! i = Some y /\ R i x y.
Proof.
  intros Hl H Hab. split; [rewrite !length_app; simpl; lia |]. intros i x [Hx|[Hge Hx]]%lookup_app_Some.
  - destruct (H i x Hx) as (y & Hy & HR). exists y. split; [by apply lookup_app_l_Some | done].
  - apply list_lookup_singleton_Some in Hx as [Hz <-]. assert (i = length l) as -> by lia. exists b. split; [by rewrite lookup_app_r, Hl, Nat.sub_diag by lia | done].
Qed.

Lemma validate_ok g rs i r w g' : read_so_far g rs [] -> length rs = i -> validate parseDate NewFromString families today (Z.of_nat i) r g = (w, g') ->
  read_so_far (add_row w g') (rs ++ [r]) [] /\ same_stmt g (add_row w g').
Proof.
  intros [Hi [Hlr Hr] [Hls Hs] Hk] Hlen. unfold validate. destruct (check_row _ _ _ _ _ _) as [[k st]|e] eqn:Ec.
  - destruct (intern k g) as [n g1] eqn:Ei. intros [= <- <-]. destruct (intern_ok k g n g1 Hi Ei) as (Hi1 & Hn & Hsame & Hr1 & Hs1 & Hp & Hnew).
    assert (same_stmt g (add_row (MkRow (Z.of_nat i) r (Ok (st n))) g1)) as Hsame1 by done. split; [| done]. split; simpl.
    + done.
    + rewrite Hr1. apply (read_snoc (row_read (add_row _ g1))); [done | |].
      * intros j x Hx. destruct (Hr j x Hx) as (y & Hy & HR). exists y. split; [done | by apply (row_read_mono g)].
      * split; [simpl; by rewrite Hlen |]. split; [done |]. rewrite (check_row_same g) by done. rewrite Ec. by exists n.
    + rewrite Hs1. split; [done |]. intros j x Hx. destruct (Hs j x Hx) as (y & Hy & HR). exists y. split; [done | by apply (split_read_mono g)].
    + intros k' [Hk'| ->]%Hnew.
      * apply (key_stated_mono g _ rs _ []); [done | | done | by apply Hk]. intros x Hx. apply elem_of_app. by left.
      * left. exists r, st. split; [apply elem_of_app; right; left |]. by rewrite (check_row_same g).
  - intros [= <- <-]. split; [| done]. split; simpl.
    + done.
    + apply (read_snoc (row_read (add_row _ g))); [done | |].
      * intros j x Hx. destruct (Hr j x Hx) as (y & Hy & HR). exists y. split; [done | by apply (row_read_mono g)].
      * split; [simpl; by rewrite Hlen |]. split; [done |]. rewrite (check_row_same g) by done. by rewrite Ec.
    + split; [done |]. intros j x Hx. destruct (Hs j x Hx) as (y & Hy & HR). exists y. split; [done | by apply (split_read_mono g)].
    + intros k' Hk'. apply (key_stated_mono g _ rs _ []); [done | | done | by apply Hk]. intros x Hx. apply elem_of_app. by left.
Qed.

Lemma validate_rows_ok g rs todo i : read_so_far g rs [] -> i = length rs ->
  let g' := validate_rows parseDate NewFromString families today (Z.of_nat i) todo g in read_so_far g' (rs ++ todo) [] /\ same_stmt g g'.
Proof.
  revert g rs i. induction todo as [|r todo IH]; intros g rs i Hg Hi; simpl; [by rewrite app_nil_r |].
  destruct (validate _ _ _ _ _ _ _) as [w g1] eqn:E. destruct (validate_ok g rs i r w g1 Hg (eq_sym Hi) E) as [H1 Hs1].
  replace (Z.of_nat i + 1) with (Z.of_nat (S i)) by lia. destruct (IH (add_row w g1) (rs ++ [r]) (S i) H1) as [H2 Hs2]; [rewrite length_app; simpl; lia |].
  rewrite <- app_assoc in H2. split; [done |]. destruct Hs1 as (? & ? & ? & ?), Hs2 as (? & ? & ? & ?). repeat split; congruence.
Qed.

Lemma read_splits_ok g rs sps todo i g' : read_so_far g rs sps -> i = length sps ->
  read_splits parseDate NewFromString families (Z.of_nat i) todo g = Ok g' -> read_so_far g' rs (sps ++ todo) /\ same_stmt g g'.
Proof.
  revert g sps i. induction todo as [|sp todo IH]; intros g sps i Hg Hlen; simpl; [intros [= <-]; by rewrite app_nil_r |].
  unfold read_split. destruct (check_split _ _ _ _ _) as [[k mk]|e] eqn:Ec; [| done]. destruct (intern k g) as [n g1] eqn:Ei.
  replace (Z.of_nat i + 1) with (Z.of_nat (S i)) by lia. intros H. destruct Hg as [Hi [Hlr Hr] [Hls Hs] Hk].
  destruct (intern_ok k g n g1 Hi Ei) as (Hi1 & Hn & Hsame & Hr1 & Hs1 & Hp & Hnew). set (s := mk (Z.of_nat i) n) in *.
  assert (same_stmt g (add_split s g1)) as Hsame1 by done.
  destruct (IH (add_split s g1) (sps ++ [sp]) (S i)) as [H2 Hs2]; [split; simpl | rewrite length_app; simpl; lia | done |].
  - done.
  - rewrite Hr1. split; [done |]. intros j x Hx. destruct (Hr j x Hx) as (y & Hy & HR). exists y. split; [done | by apply (row_read_mono g)].
  - rewrite Hs1. apply (read_snoc (split_read (add_split s g1))); [done | |].
    + intros j x Hx. destruct (Hs j x Hx) as (y & Hy & HR). exists y. split; [done | by apply (split_read_mono g)].
    + exists k, mk, n. simpl. destruct Hsame as (_ & -> & _). split; [done |]. split; [done |]. unfold s. by rewrite Hlen.
  - intros k' [Hk'| ->]%Hnew.
    + apply (key_stated_mono g _ rs _ sps); [done | done | | by apply Hk]. intros x Hx. apply elem_of_app. by left.
    + right. exists sp, mk. split; [apply elem_of_app; right; left |]. simpl. by destruct Hsame as (_ & -> & _).
  - rewrite <- app_assoc in H2. split; [done |]. destruct Hsame1 as (? & ? & ? & ?), Hs2 as (? & ? & ? & ?). repeat split; congruence.
Qed.

Lemma read_splits_total g todo i : (forall sp, sp ∈ todo -> exists x, check_split parseDate NewFromString families (ig_broker g) sp = Ok x) ->
  exists g', read_splits parseDate NewFromString families i todo g = Ok g'.
Proof.
  revert g i. induction todo as [|sp todo IH]; intros g i H; simpl; [by eexists |]. unfold read_split. destruct (H sp ltac:(left)) as [[k mk] ->].
  destruct (intern k g) as [n g1] eqn:Ei. apply IH. intros x Hx. simpl. assert (ig_broker g1 = ig_broker g) as ->.
  { unfold intern in Ei. by destruct (ig_keys g !! canon k); simplify_eq. }
  apply H. by right.
Qed.

End Reads.

(** What [Create] reads, and when it reads nothing. *)
Lemma read_stmt_ok {D} parseDate (NewFromString : string -> option D) families now user msg :
  ((exists g, read_stmt parseDate NewFromString families now user msg = Ok g) <->
    exists broker from before, tm_Broker msg = Some (Some broker) /\ parseDate (tm_From msg) = Some from /\ parseDate (tm_Before msg) = Some before /\ from < before /\
      forall sp, sp ∈ tm_Splits msg -> exists x, check_split parseDate NewFromString families broker sp = Ok x) /\
  forall g, read_stmt parseDate NewFromString families now user msg = Ok g ->
    ig_user g = user /\ tm_Broker msg = Some (Some (ig_broker g)) /\ parseDate (tm_From msg) = Some (ig_from g) /\ parseDate (tm_Before msg) = Some (ig_before g) /\
    read_so_far parseDate NewFromString families (Day now) g (tm_Rows msg) (tm_Splits msg) /\
    forall w st, w ∈ ig_rows g -> rw_valid w = Ok st -> (st_key st < length (ig_order g))%nat /\ ig_from g <= st_order st < ig_before g /\ st_order st <= Day now.
Proof.
  assert (forall user broker from before, read_so_far parseDate NewFromString families (Day now) (MkIngestion user broker from before [] [] ∅ []) [] []) as H0.
  { intros. split; simpl; [| done | done | by intros ? ?%elem_of_nil]. intros c n. simpl. split; [by rewrite lookup_empty | by intros (? & ? & _)]. }
  unfold read_stmt. destruct (tm_Broker msg) as [[broker|]|]; [| split; [split; [by intros [? ?] | by intros (? & ? & ? & ? & _)] | done]..].
  destruct (parseDate (tm_From msg)) as [from|]; simpl; [| split; [split; [by intros [? ?] | by intros (? & ? & ? & _ & ? & _)] | done]].
  destruct (parseDate (tm_Before msg)) as [before|]; simpl; [| split; [split; [by intros [? ?] | by intros (? & ? & ? & _ & _ & ? & _)] | done]].
  destruct (Z.ltb_spec from before) as [Hlt|Hge]; simpl; [| split; [split; [by intros [? ?] | intros (? & ? & ? & _ & [= <-] & [= <-] & ? & _); lia] | done]].
  set (g0 := MkIngestion user broker from before [] [] ∅ []).
  destruct (validate_rows_ok parseDate NewFromString families (Day now) g0 [] (tm_Rows msg) 0%nat (H0 _ _ _ _) eq_refl) as [Hrows Hs0].
  change (Z.of_nat 0) with 0 in *. set (g1 := validate_rows _ _ _ _ _ _ _) in *. assert (ig_broker g1 = broker) as Hb by (by destruct Hs0 as (_ & -> & _)). split; [split |].
  - intros [g Hg]. exists broker, from, before. repeat (split; [done |]). destruct (read_splits_ok _ _ _ _ g1 (tm_Rows msg) [] (tm_Splits msg) 0%nat g Hrows eq_refl Hg) as [[_ _ [_ Hsp] _] Hs].
    intros sp Hin. apply list_elem_of_lookup in Hin as [i Hi]. destruct (Hsp i sp Hi) as (s & _ & k & mk & n & Hc & _). exists (k, mk). rewrite <- Hc. f_equal. destruct Hs as (_ & -> & _). done.
  - intros (b & f & bf & [= <-] & _ & _ & _ & Hsp). apply read_splits_total. rewrite Hb. done.
  - intros g Hg. destruct (read_splits_ok _ _ _ _ g1 (tm_Rows msg) [] (tm_Splits msg) 0%nat g Hrows eq_refl Hg) as [Hrd Hs].
    destruct Hs0 as (E1 & E2 & E3 & E4), Hs as (F1 & F2 & F3 & F4). simpl in *. rewrite F1, F2, F3, F4, E1, E2, E3, E4. do 4 (split; [done |]). split; [exact Hrd |].
    destruct Hrd as [_ [Hlen Hr] _ _]. intros w st Hw Hv. apply list_elem_of_lookup in Hw as [i Hi]. assert (is_Some (tm_Rows msg !! i)) as [r Hri] by (apply lookup_lt_is_Some; rewrite <- Hlen; by eapply lookup_lt_Some).
    destruct (Hr i r Hri) as (w' & Hw' & _ & _ & HR). assert (w' = w) as -> by congruence. rewrite Hv in HR. unfold check_row in HR. rewrite F3, F4, E3, E4 in HR.
    destruct (keyFor _ _ _); [| done]. destruct (parseDate (rm_OrderDate r)) as [o|]; simpl in HR; [| done]. destruct (parseDate (rm_SettlementDate r)); simpl in HR; [| done].
    destruct (parseDate (rm_AsAt r)); simpl in HR; [| done]. destruct (NewFromString _); simpl in HR; [| done].
    destruct (Z.ltb_spec o from); simpl in HR; [done |]. destruct (Z.ltb_spec o before); simpl in HR; [| done]. destruct (Z.ltb_spec (Day now) o); [done |].
    destruct HR as (n & (k' & Hk' & _) & [= ->]). simpl. split; [by eapply lookup_lt_Some | lia].
Qed.

Lemma check_split_at {D} parseDate (NewFromString : string -> option D) families broker sp k mk i n :
  check_split parseDate NewFromString families broker sp = Ok (k, mk) -> sp_key (mk i n) = n /\ sp_ordinal (mk i n) = i.
Proof.
  unfold check_split. destruct (keyFor _ _ _); [| done]. destruct (parseDate _); simpl; [| done]. destruct (NewFromString _); simpl; [| done].
  destruct (read_ratio _ _); simpl; [| done]. by intros [= _ <-].
Qed.

(** The rows and splits are numbered by their places, and their keys are there. *)
Lemma read_places {D} parseDate (NewFromString : string -> option D) families today g rs sps : read_so_far parseDate NewFromString families today g rs sps ->
  NoDup (map rw_ordinal (ig_rows g)) /\ NoDup (map sp_ordinal (ig_splits g)) /\ forall s, s ∈ ig_splits g -> (sp_key s < length (ig_order g))%nat.
Proof.
  intros [_ [Hlr Hr] [Hls Hs] _].
  assert (forall i w, ig_rows g !! i = Some w -> rw_ordinal w = Z.of_nat i) as Hrow.
  { intros i w Hw. destruct (lookup_lt_is_Some_2 rs i) as [r Hri]; [rewrite <- Hlr; by eapply lookup_lt_Some |]. destruct (Hr i r Hri) as (w' & Hw' & Ho & _). congruence. }
  assert (forall i s, ig_splits g !! i = Some s -> sp_ordinal s = Z.of_nat i /\ (sp_key s < length (ig_order g))%nat) as Hsplit.
  { intros i s Hsi. destruct (lookup_lt_is_Some_2 sps i) as [sp Hspi]; [rewrite <- Hls; by eapply lookup_lt_Some |].
    destruct (Hs i sp Hspi) as (s' & Hs' & k & mk & n & Hc & (k' & Hk' & _) & E). assert (s' = s) as <- by congruence. destruct (check_split_at _ _ _ _ _ _ _ (Z.of_nat i) n Hc) as [Ek Eo].
    rewrite E, Ek, Eo. split; [done | by eapply lookup_lt_Some]. }
  split; [| split].
  - apply NoDup_alt. intros i j o (w & E1 & Hw)%list_lookup_fmap_Some (w' & E2 & Hw')%list_lookup_fmap_Some. rewrite (Hrow i w Hw) in E1. rewrite (Hrow j w' Hw') in E2. lia.
  - apply NoDup_alt. intros i j o (w & E1 & Hw)%list_lookup_fmap_Some (w' & E2 & Hw')%list_lookup_fmap_Some. destruct (Hsplit i w Hw), (Hsplit j w' Hw'). lia.
  - intros s (i & Hi)%list_elem_of_lookup. by destruct (Hsplit i s Hi).
Qed.

(** * Examples *)

Module Example.

Definition families : Families := {["USD" := "USD"; "GBP" := "GBP"]}%string.

(** Dates written as day numbers, and decimals as integers, one digit each. *)
Definition digit (s : string) : option Z :=
  match s with
  | String c EmptyString => let n := Z.of_N (Ascii.N_of_ascii c) - 48 in if (0 <=? n) && (n <=? 9) then Some n else None
  | _ => None
  end.
Definition parseDate (s : string) : option time := n ← digit s; Some (n * day_len).

Definition isin (v : string) : IdentifierMsg := MkIdentifierMsg (Some (Some IdentifierTypeIsin)) "" v.
Definition sedol (v : string) : IdentifierMsg := MkIdentifierMsg (Some (Some IdentifierTypeSedol)) "" v.

Definition apple : StatedKeyMsg := MkStatedKeyMsg [sedol "2046251"; isin "US0378331005"; sedol "2046251"] (Some (Some AssetClassStock)) (Some "USD"%string).
Definition apple_again : StatedKeyMsg := MkStatedKeyMsg [isin "US0378331005"; sedol "2046251"] (Some (Some AssetClassStock)) (Some "USD"%string).
Definition two_isins : StatedKeyMsg := MkStatedKeyMsg [isin "US0378331005"; isin "GB0002374006"] (Some None) None.

Definition apple_key : key :=
  MkKey (Some AssetClassStock) (Some "USD"%string) [MkIdentifier IdentifierTypeIsin "" "US0378331005"; MkIdentifier IdentifierTypeSedol "" "2046251"].

(** Two keys that differ and encode alike, one stating a NUL. *)
Definition with_nul : StatedKeyMsg := MkStatedKeyMsg [isin ("A" +:+ nul +:+ "sedol" +:+ nul +:+ nul +:+ "B")] (Some None) None.
Definition without_nul : StatedKeyMsg := MkStatedKeyMsg [isin "A"; sedol "B"] (Some None) None.

Definition msg : StmtMsg :=
  MkStmtMsg (Some (Some BrokerIbkr)) "2" "5"
    [MkRowMsg (Some apple) "3" "4" "3" "7"; MkRowMsg (Some apple_again) "4" "5" "4" "8"; MkRowMsg (Some two_isins) "3" "4" "3" "1";
     MkRowMsg (Some apple) "5" "5" "5" "1"; MkRowMsg None "3" "3" "3" "3"]
    [MkStatedSplitMsg (Some apple_again) "3" "6" None].

Definition stmt : ingestion :=
  match read_stmt parseDate digit families (9 * day_len) 7%N msg with Ok g => g | Err _ => MkIngestion 0 BrokerIbkr 0 0 [] [] ∅ [] end.
End Example.

(** The statement without a NUL takes the key of the one with it. *)
Example canon_collides : exists k l, keyOf Example.with_nul BrokerIbkr = Ok k /\ keyOf Example.without_nul BrokerIbkr = Ok l /\ k <> l /\ canon k = canon l.
Proof. do 2 eexists. split; [vm_compute; reflexivity |]. split; [vm_compute; reflexivity |]. split; [discriminate | vm_compute; reflexivity]. Qed.

(** Two runs of statements share a lane exactly when they are one user's at one
    broker. *)
Lemma stmt_lane u b u' b' : lane_of (stmt_spec u b) = lane_of (stmt_spec u' b') <-> u = u' /\ b = b'.
Proof. unfold lane_of, stmt_spec. simpl. split; [| by intros [-> ->]]. intros [= -> E]. split; [done |]. by destruct b, b'. Qed.

(** * Theorems *)

(** C17: [keyOf] reads a stated key exactly when its class and each of its
    identifiers can be read and no two values of an exclusive type contradict each
    other in one domain. The key then holds the stated class, currency and
    identifiers, each once, in one order whatever the order they were stated in:
    two keys that state one set of identifiers are read alike. *)
Theorem keyOf_spec sk broker :
  ((exists k, keyOf sk broker = Ok k) <-> is_Some (km_AssetClass sk) /\ readable broker (km_Identifiers sk)) /\
  forall k, keyOf sk broker = Ok k -> km_AssetClass sk = Some (k_class k) /\ k_currency k = km_Currency sk /\ canonical (k_identifiers k) /\
    (forall i, i ∈ k_identifiers k <-> stating broker (km_Identifiers sk) i) /\
    forall sk', km_AssetClass sk' = km_AssetClass sk -> km_Currency sk' = km_Currency sk -> (forall m, m ∈ km_Identifiers sk' <-> m ∈ km_Identifiers sk) -> keyOf sk' broker = Ok k.
Proof.
  split; [apply keyOf_readable |]. intros k Hk. destruct (keyOf_ok sk broker k Hk) as (Hc & Hu & Hcan & Hag & Hr & Hin).
  split; [done |]. split; [done |]. split; [done |]. split; [done |]. intros sk' Hc' Hu' Hm.
  assert (forall i, stating broker (km_Identifiers sk') i <-> stating broker (km_Identifiers sk) i) as Hst by (intros i; unfold stating; by setoid_rewrite Hm).
  destruct (proj2 (keyOf_readable sk' broker)) as [k' Hk'].
  { split; [rewrite Hc', Hc; by eexists |]. split; [intros m Hm'%Hm; by apply Hr |]. intros i j Hi%Hst%Hin Hj%Hst%Hin. by apply Hag. }
  destruct (keyOf_ok sk' broker k' Hk') as (Hc2 & Hu2 & Hcan2 & _ & _ & Hin2). rewrite Hk'. f_equal. destruct k as [c u ids], k' as [c' u' ids']; simpl in *.
  assert (ids' = ids) as ->; [| congruence]. apply canonical_unique; [done | done |]. intros i. by rewrite Hin2, Hst, Hin.
Qed.

(** C18: two keys encode alike exactly when they state the same class, currency
    and set of identifiers, where no stated value carries a NUL. (Nothing checks
    that none does; see [canon_collides].) *)
Theorem canon_spec sk sk' broker k k' : keyOf sk broker = Ok k -> keyOf sk' broker = Ok k' -> nul_free_key k -> nul_free_key k' ->
  canon k = canon k' <-> km_AssetClass sk = km_AssetClass sk' /\ km_Currency sk = km_Currency sk' /\
    forall i, stating broker (km_Identifiers sk) i <-> stating broker (km_Identifiers sk') i.
Proof.
  intros Hk Hk' Hn Hn'. destruct (keyOf_ok _ _ _ Hk) as (Hc & Hu & Hcan & _ & _ & Hin), (keyOf_ok _ _ _ Hk') as (Hc' & Hu' & Hcan' & _ & _ & Hin'). split.
  - intros E. apply canon_inj_ok in E as <-; [| done..]. split; [congruence |]. split; [congruence |]. intros i. by rewrite <- Hin, <- Hin'.
  - intros (E1 & E2 & E3). f_equal. destruct k as [c u ids], k' as [c' u' ids']; simpl in *. assert (ids = ids') as ->; [| congruence].
    apply canonical_unique; [done | done |]. intros i. by rewrite Hin, Hin', E3.
Qed.

(** C16: [Create] reads a statement exactly when its broker, its period and each
    of its splits can be read: a bad row never refuses the statement. Each row
    then has one outcome in its place: the first check it fails, or the dates and
    quantity it states with the place of its key; an accepted row's order date
    lies in the claimed period and not after today. The statement's keys are those
    its accepted rows and splits state, one for each encoding. *)
Theorem read_stmt_spec {D} parseDate (NewFromString : string -> option D) families now user msg :
  ((exists g, read_stmt parseDate NewFromString families now user msg = Ok g) <->
    exists broker from before, tm_Broker msg = Some (Some broker) /\ parseDate (tm_From msg) = Some from /\ parseDate (tm_Before msg) = Some before /\ from < before /\
      forall sp, sp ∈ tm_Splits msg -> exists x, check_split parseDate NewFromString families broker sp = Ok x) /\
  forall g, read_stmt parseDate NewFromString families now user msg = Ok g ->
    ig_user g = user /\ tm_Broker msg = Some (Some (ig_broker g)) /\ parseDate (tm_From msg) = Some (ig_from g) /\ parseDate (tm_Before msg) = Some (ig_before g) /\
    read_so_far parseDate NewFromString families (Day now) g (tm_Rows msg) (tm_Splits msg) /\
    forall w st, w ∈ ig_rows g -> rw_valid w = Ok st -> (st_key st < length (ig_order g))%nat /\ ig_from g <= st_order st < ig_before g /\ st_order st <= Day now.
Proof. apply read_stmt_ok. Qed.

(** ** Witnesses *)

Lemma keyOf_spec_witness : keyOf Example.apple BrokerIbkr = Ok Example.apple_key /\ keyOf Example.apple_again BrokerIbkr = Ok Example.apple_key.
Proof.
  assert (keyOf Example.apple BrokerIbkr = Ok Example.apple_key) as Hk by (vm_compute; reflexivity). split; [exact Hk |].
  destruct (proj2 (keyOf_spec Example.apple BrokerIbkr) Example.apple_key Hk) as (_ & _ & _ & _ & Hsame). apply Hsame; [reflexivity | reflexivity |].
  intros m. simpl. rewrite !elem_of_cons. tauto.
Defined.

Lemma canon_spec_witness : exists k k', keyOf Example.apple BrokerIbkr = Ok k /\ keyOf Example.apple_again BrokerIbkr = Ok k' /\ canon k = canon k'.
Proof.
  exists Example.apple_key, Example.apple_key. split; [vm_compute; reflexivity |]. split; [vm_compute; reflexivity |].
  assert (nul_free_key Example.apple_key) as Hn.
  { split; [intros c [= <-]; simpl; repeat split; discriminate |]. intros i Hi. unfold Example.apple_key in Hi. simpl in Hi.
    rewrite !elem_of_cons, elem_of_nil in Hi. destruct Hi as [->|[->|[]]]; simpl; repeat split; discriminate. }
  apply (canon_spec Example.apple Example.apple_again BrokerIbkr); [vm_compute; reflexivity | vm_compute; reflexivity | exact Hn | exact Hn |].
  split; [reflexivity |]. split; [reflexivity |]. intros i. unfold stating. simpl. setoid_rewrite elem_of_cons. setoid_rewrite elem_of_cons. setoid_rewrite elem_of_cons. naive_solver.
Defined.

(** Two rows are accepted under one key, and three are rejected. *)
Lemma read_stmt_spec_witness : read_stmt Example.parseDate Example.digit Example.families (9 * day_len) 7%N Example.msg = Ok Example.stmt /\
  map (fun w => match rw_valid w with Ok st => Some (st_key st) | Err _ => None end) (ig_rows Example.stmt) = [Some 0; Some 0; None; None; None]%nat /\
  ig_order Example.stmt = [Example.apple_key] /\
  forall w st, w ∈ ig_rows Example.stmt -> rw_valid w = Ok st -> (st_key st < length (ig_order Example.stmt))%nat.
Proof.
  assert (read_stmt Example.parseDate Example.digit Example.families (9 * day_len) 7%N Example.msg = Ok Example.stmt) as Hg by (vm_compute; reflexivity).
  split; [exact Hg |]. split; [vm_compute; reflexivity |]. split; [vm_compute; reflexivity |].
  destruct (proj2 (read_stmt_spec Example.parseDate Example.digit Example.families (9 * day_len) 7%N Example.msg) Example.stmt Hg) as (_ & _ & _ & _ & _ & H).
  intros w st Hw Hv. apply (H w st Hw Hv).
Defined.
