(* ===== verification/Tickers.v ===== *)
(** The rows of [tickers], [server/internal/identity/tickers/tickers.go]: the
    system's spelling, finding and creating rows, and the ticker of a dated
    association. A row's errors other than [ErrSpelling] come from the driver and
    are left out. *)
From S2P Require Import Prelude Types Rows Mic.

(** * Spelling *)

Inductive spelling_error : Type :=
| MarketSpelling (m : string)
| ValueSpelling (v : string).

Definition SpelledMarket (mics : MICMap) (m : string) : res spelling_error unit :=
  if negb (IsMarket mics m) then Err (MarketSpelling m) else Ok tt.

Definition Spelled (mics : MICMap) (t : MarketTicker) : res spelling_error unit :=
  match SpelledMarket mics (mt_Market t) with
  | Err e => Err e
  | Ok _ => if negb (Canonical (mt_Value t)) then Err (ValueSpelling (mt_Value t)) else Ok tt
  end.

(** * Rows *)

(** [Of]. *)
Definition ticker_of (r : TickerRow) : MarketTicker := MkMarketTicker (tk_Market r) (tk_Value r).

Definition MarketTicker_cmp : MarketTicker -> MarketTicker -> comparison :=
  cmp_lex (cmp_on mt_Market String.compare) (cmp_on mt_Value String.compare).

Definition ticker_eqb (a b : MarketTicker) : bool := bool_decide (a = b).

Definition sorted (ts : list MarketTicker) : list MarketTicker :=
  compact_func ticker_eqb (sort_func MarketTicker_cmp ts).

(** The table and the next id [db.NewID] mints. *)
Record ticker_table : Type := MkTickerTable {
  tt_rows : list TickerRow;
  tt_next : uuid;
}.

(** The tickers of [tickers] that the arrays hold at one index. *)
Definition asked_tickers (ts : list TickerRow) (asked : list MarketTicker) : list TickerRow :=
  concat (map (fun t => List.filter (fun r => bool_decide (ticker_of r = t)) ts) asked).

(** [ON CONFLICT (market, value) DO NOTHING], a row at a time. *)
Definition insert_ticker (rows : list TickerRow) (r : TickerRow) : list TickerRow :=
  if existsb (fun q => ticker_eqb (ticker_of q) (ticker_of r)) rows then rows else rows ++ [r].

Definition CreateTickers (rows : list TickerRow) (args : list TickerRow) : list TickerRow :=
  foldl insert_ticker rows (sort_func (cmp_on ticker_of MarketTicker_cmp) args).

Definition ListTickers (rows : list TickerRow) (ts : list MarketTicker) : list TickerRow :=
  sort_func (cmp_on ticker_of MarketTicker_cmp) (asked_tickers rows ts).

Definition Find (rows : list TickerRow) (ts : list MarketTicker) : gmap MarketTicker TickerRow :=
  foldl (fun out r => <[ticker_of r := r]> out) ∅ (ListTickers rows ts).

Definition ByID (rows : list TickerRow) (ids : list uuid) : gmap uuid TickerRow :=
  foldl (fun out r => <[tk_ID r := r]> out) ∅
    (sort_func (cmp_on ticker_of MarketTicker_cmp) (List.filter (fun r => contains ids (tk_ID r)) rows)).

(** The first of [ts] that is not in the system's spelling. *)
Fixpoint first_misspelled (mics : MICMap) (ts : list MarketTicker) : option spelling_error :=
  match ts with
  | [] => None
  | t :: ts' => match Spelled mics t with Err e => Some e | Ok _ => first_misspelled mics ts' end
  end.

Inductive get_error : Type :=
| ErrSpelling (e : spelling_error)
| ErrNoRow (t : MarketTicker).

(** A new row for each ticker, each with an id of its own. *)
Fixpoint new_rows (next : uuid) (ts : list MarketTicker) : list TickerRow :=
  match ts with
  | [] => []
  | t :: ts' => MkTickerRow next (mt_Market t) (mt_Value t) :: new_rows (next + 1) ts'
  end.

Definition Get (db : ticker_table) (mics : MICMap) (ts : list MarketTicker) :
    ticker_table * res get_error (gmap MarketTicker TickerRow) :=
  let ts := sorted ts in
  match first_misspelled mics ts with
  | Some e => (db, Err (ErrSpelling e))
  | None =>
      match ts with
      | [] => (db, Ok ∅)
      | _ =>
          let rows := CreateTickers (tt_rows db) (new_rows (tt_next db) ts) in
          let out := Find rows ts in
          let db := MkTickerTable rows (tt_next db + N.of_nat (length ts))%N in
          match find_func (fun t => bool_decide (out !! t = None)) ts with
          | Some t => (db, Err (ErrNoRow t))
          | None => (db, Ok out)
          end
      end
  end.

(** * Locks *)

(** The ids of the rows a transaction holds. *)
Record Locked : Type := MkLocked { lk_ids : list uuid }.

Definition Lock (rows : list TickerRow) (ids : list uuid) : Locked :=
  match ids with
  | [] => MkLocked []
  | _ => MkLocked (sort_func N.compare (List.filter (contains ids) (map tk_ID rows)))
  end.

Definition LockBatch (rows : list TickerRow) (after : option uuid) (lim : nat) : Locked :=
  MkLocked (take lim (sort_func N.compare (List.filter (fun id =>
    match after with None => true | Some a => (a <? id)%N end) (map tk_ID rows)))).

(** * Dated associations *)

Definition via_ids (keys : list StatedKey) : list uuid :=
  foldl (fun ids k => match sk_ViaTickerID k with Some id => append_unique ids id | None => ids end) [] keys.

Definition OfKeys (rows : list TickerRow) (keys : list StatedKey) : gmap uuid TickerRow :=
  match via_ids keys with [] => ∅ | ids => ByID rows ids end.

Definition Dated (k : StatedKey) (rows : gmap uuid TickerRow) : option (MarketTicker * Identifier) :=
  match sk_ViaTickerID k, sk_ViaVenue k with
  | Some id, Some venue =>
      r ← rows !! id; Some (ticker_of r, MkIdentifier IdentifierTypeMicTicker venue (tk_Value r))
  | _, _ => None
  end.

(** * Lemmas *)

#[export] Instance MarketTicker_GoCmp : GoCmp MarketTicker_cmp.
Proof. apply _. Qed.

Lemma String_compare_eq a b : String.compare a b = Eq -> a = b.
Proof. apply String.compare_eq_iff. Qed.

Lemma MarketTicker_cmp_eq a b : MarketTicker_cmp a b = Eq -> a = b.
Proof.
  unfold MarketTicker_cmp, cmp_lex, cmp_on, cmp_or. destruct a as [m v], b as [n w]. simpl.
  destruct (String.compare m n) eqn:E; try done. intros E'. apply String_compare_eq in E, E'. by subst.
Qed.

Lemma compact_elem {A} (eqb : A -> A -> bool) l x :
  (forall a b, eqb a b = true <-> a = b) -> x ∈ compact_func eqb l <-> x ∈ l.
Proof.
  intros Heq. destruct l as [|a l]; simpl; [done |]. rewrite !elem_of_cons.
  revert a. induction l as [|b l IH]; intros a; simpl; [done |]. destruct (eqb a b) eqn:E.
  - apply Heq in E as ->. rewrite IH, elem_of_cons. tauto.
  - specialize (IH b). rewrite !elem_of_cons. tauto.
Qed.

Lemma compact_sorted {A} (cmp : A -> A -> comparison) (eqb : A -> A -> bool) l :
  (forall a b, eqb a b = true <-> a = b) -> (forall a b, cmp a b = Eq -> a = b) -> GoCmp cmp ->
  StronglySorted (cmp_le cmp) l -> NoDup (compact_func eqb l).
Proof.
  intros Heq Hcmp Hgo Hs. destruct Hs as [|a l Hs Ha]; simpl; [constructor |].
  revert a Ha. induction Hs as [|b l Hs IH Hb]; intros a Ha; simpl; [apply NoDup_singleton |].
  apply Forall_cons in Ha as [Hab Ha]. destruct (eqb a b) eqn:E; [by apply IH |].
  constructor; [| by apply IH]. intros [->|Hin]%elem_of_cons.
  - assert (eqb b b = true) by (by apply Heq). congruence.
  - apply compact_after_elem in Hin. rewrite Forall_forall in Hb. specialize (Hb a Hin).
    pose proof (cmp_le_antisym cmp a b Hab Hb) as Eq%Hcmp. subst. assert (eqb b b = true) by (by apply Heq). congruence.
Qed.

Lemma ticker_eqb_eq a b : ticker_eqb a b = true <-> a = b.
Proof. apply bool_decide_eq_true. Qed.

Lemma elem_of_sorted ts t : t ∈ sorted ts <-> t ∈ ts.
Proof. unfold sorted. rewrite compact_elem by apply ticker_eqb_eq. apply elem_of_sort_func. Qed.

Lemma NoDup_sorted ts : NoDup (sorted ts).
Proof.
  apply (compact_sorted MarketTicker_cmp); [apply ticker_eqb_eq | apply MarketTicker_cmp_eq | apply _ |].
  apply sort_func_sorted, _.
Qed.

Lemma first_misspelled_spec mics ts :
  match first_misspelled mics ts with
  | Some e => exists t, t ∈ ts /\ Spelled mics t = Err e
  | None => forall t, t ∈ ts -> Spelled mics t = Ok tt
  end.
Proof.
  induction ts as [|t ts IH]; simpl; [by intros t []%not_elem_of_nil |].
  destruct (Spelled mics t) as [[]|e] eqn:E.
  - destruct (first_misspelled mics ts) as [e|].
    + destruct IH as (u & Hu & Eu). exists u. split; [by right | done].
    + intros u [->|Hu]%elem_of_cons; [done | by apply IH].
  - exists t. split; [by left | done].
Qed.

(** The table's constraints. *)
Record tickers_ok (db : ticker_table) : Prop := {
  tt_ids : NoDup (map tk_ID (tt_rows db));
  tt_keys : NoDup (map ticker_of (tt_rows db));
  tt_minted r : r ∈ tt_rows db -> (tk_ID r < tt_next db)%N;
}.

Lemma insert_tickers rows args :
  NoDup (map ticker_of rows) -> NoDup (map tk_ID rows) -> NoDup (map tk_ID args) ->
  (forall r a, r ∈ rows -> a ∈ args -> tk_ID r <> tk_ID a) ->
  let out := foldl insert_ticker rows args in
  NoDup (map ticker_of out) /\ NoDup (map tk_ID out) /\
  (exists added, out = rows ++ added /\ forall r, r ∈ added -> r ∈ args /\ ticker_of r ∉ map ticker_of rows) /\
  (forall a, a ∈ args -> ticker_of a ∈ map ticker_of out).
Proof.
  revert rows. induction args as [|a args IH]; intros rows H1 H2 H3 H4; simpl.
  { split; [done |]. split; [done |]. split; [exists []; rewrite app_nil_r; split; [done | by intros r []%not_elem_of_nil] |].
    by intros ? []%not_elem_of_nil. }
  simpl in H3. apply NoDup_cons in H3 as [H3 H5].
  assert (forall r, r ∈ rows -> tk_ID r <> tk_ID a) as Hra by (intros r Hr; apply H4; [done | by left]).
  unfold insert_ticker at 2 4 6 8. destruct (existsb _ rows) eqn:E.
  - destruct (IH rows) as (I1 & I2 & (added & I3 & I4) & I5); [done | done | done | intros r b Hr Hb; apply H4; [done | by right] |].
    split; [done |]. split; [done |]. split.
    + exists added. split; [done |]. intros r Hr. destruct (I4 r Hr). split; [by right | done].
    + intros b [->|Hb]%elem_of_cons; [| by apply I5]. apply existsb_elem in E as (q & Hq & Eq%ticker_eqb_eq).
      rewrite I3, map_app, <- Eq. apply elem_of_app. left. by apply list_elem_of_fmap_2.
  - rewrite existsb_false in E.
    assert (ticker_of a ∉ map ticker_of rows) as Hna.
    { intros (q & Eq & Hq)%list_elem_of_fmap. specialize (E q Hq). rewrite <- not_true_iff_false, ticker_eqb_eq in E. congruence. }
    destruct (IH (rows ++ [a])) as (I1 & I2 & (added & I3 & I4) & I5).
    + rewrite map_app. apply NoDup_app. split; [done | split; [| apply NoDup_singleton]].
      intros x Hx ->%list_elem_of_singleton. done.
    + rewrite map_app. apply NoDup_app. split; [done | split; [| apply NoDup_singleton]].
      intros x (q & -> & Hq)%list_elem_of_fmap Ex%list_elem_of_singleton. by apply (Hra q).
    + done.
    + intros r b [Hr| ->%list_elem_of_singleton]%elem_of_app Hb; [apply H4; [done | by right] |].
      intros Eb. apply H3. rewrite Eb. by apply list_elem_of_fmap_2.
    + split; [done |]. split; [done |]. split.
      * exists (a :: added). split; [by rewrite I3, <- app_assoc |]. intros r [->|Hr]%elem_of_cons; [split; [by left | done] |].
        destruct (I4 r Hr) as [Hin Hn]. split; [by right |]. intros Hr'. apply Hn. rewrite map_app. apply elem_of_app. by left.
      * intros b [->|Hb]%elem_of_cons; [| by apply I5]. rewrite I3, !map_app. apply elem_of_app. left. apply elem_of_app. right. by left.
Qed.

Lemma Find_spec rows ts t r :
  NoDup (map ticker_of rows) -> Find rows ts !! t = Some r <-> t ∈ ts /\ r ∈ rows /\ ticker_of r = t.
Proof.
  intros Hnd. unfold Find.
  assert (forall l, (forall x, x ∈ l -> x ∈ rows) ->
    foldl (fun (out : gmap MarketTicker TickerRow) r => <[ticker_of r := r]> out) ∅ l !! t = Some r <-> r ∈ l /\ ticker_of r = t) as Hl.
  { induction l as [|x l IH] using rev_ind; intros Hin; simpl.
    - rewrite lookup_empty. split; [done | by intros [[]%not_elem_of_nil _]].
    - rewrite foldl_app. simpl. rewrite elem_of_app, list_elem_of_singleton.
      destruct (decide (ticker_of x = t)) as [<-|Hne].
      + rewrite lookup_insert_eq. split; [intros [= ->]; auto |]. intros [[Hr| ->] E]; [| done]. f_equal.
        symmetry. apply (NoDup_key ticker_of rows); [done | | | done]; apply Hin, elem_of_app; [by left | right; by left].
      + rewrite lookup_insert_ne, IH by (done || intros y Hy; apply Hin, elem_of_app; by left). split; [naive_solver |].
        intros [[Hr| ->] E]; done. }
  rewrite Hl.
  - unfold ListTickers. rewrite elem_of_sort_func. unfold asked_tickers. rewrite elem_of_concat_map.
    setoid_rewrite elem_of_lfilter. setoid_rewrite bool_decide_eq_true. naive_solver.
  - intros x. unfold ListTickers. rewrite elem_of_sort_func. unfold asked_tickers. rewrite elem_of_concat_map.
    intros (u & _ & [Hx _]%elem_of_lfilter). done.
Qed.

Lemma elem_of_new_rows next ts r :
  r ∈ new_rows next ts -> ticker_of r ∈ ts /\ (next <= tk_ID r < next + N.of_nat (length ts))%N.
Proof.
  revert next. induction ts as [|t ts IH]; intros next; simpl; [by intros []%not_elem_of_nil |].
  intros [->|Hr]%elem_of_cons.
  - split; [| simpl; lia]. replace (ticker_of _) with t by (by destruct t). by left.
  - destruct (IH _ Hr). split; [by right | lia].
Qed.

Lemma new_rows_of next ts t : t ∈ ts -> exists r, r ∈ new_rows next ts /\ ticker_of r = t.
Proof.
  revert next. induction ts as [|u ts IH]; intros next; simpl; [by intros []%not_elem_of_nil |].
  intros [->|Ht]%elem_of_cons.
  - eexists. split; [left | by destruct u].
  - destruct (IH (next + 1)%N Ht) as (r & Hr & E). exists r. split; [by right | done].
Qed.

Lemma NoDup_new_rows next ts : NoDup (map tk_ID (new_rows next ts)).
Proof.
  revert next. induction ts as [|t ts IH]; intros next; simpl; [constructor |].
  constructor; [| apply IH]. intros (r & E & Hr)%list_elem_of_fmap. destruct (elem_of_new_rows _ _ _ Hr). lia.
Qed.

(** * Properties *)

(** Getting the rows of tickers refuses the whole call, writing nothing, when
    one of them is not in the system's spelling; otherwise it returns the row of
    each and of no other, keeping the rows there were and adding one for each
    ticker that had none, so two calls return one row. *)
Theorem Get_spec (db : ticker_table) mics ts :
  tickers_ok db ->
  match Get db mics ts with
  | (db', Err (ErrSpelling e)) => db' = db /\ exists t, t ∈ ts /\ Spelled mics t = Err e
  | (_, Err (ErrNoRow _)) => False
  | (db', Ok out) =>
      tickers_ok db' /\ (forall t, t ∈ ts -> Spelled mics t = Ok tt) /\
      (forall t, is_Some (out !! t) <-> t ∈ ts) /\
      (forall t r, out !! t = Some r -> r ∈ tt_rows db' /\ ticker_of r = t) /\
      exists added, tt_rows db' = tt_rows db ++ added /\
        forall r, r ∈ added -> ticker_of r ∈ ts /\ ticker_of r ∉ map ticker_of (tt_rows db)
  end.
Proof.
  intros Hok. unfold Get. pose proof (first_misspelled_spec mics (sorted ts)) as Hsp.
  destruct (first_misspelled mics (sorted ts)) as [e|].
  { split; [done |]. destruct Hsp as (t & Ht & E). exists t. by rewrite elem_of_sorted in Ht. }
  assert (forall t, t ∈ ts -> Spelled mics t = Ok tt) as Hspelled by (intros t Ht; by apply Hsp, elem_of_sorted).
  destruct (sorted ts) as [|u us] eqn:Es.
  { split; [done |]. split; [done |]. split; [| split].
    - intros t. rewrite lookup_empty, <- elem_of_sorted, Es. split; [by intros [? ?] | by intros []%not_elem_of_nil].
    - intros t r. by rewrite lookup_empty.
    - exists []. rewrite app_nil_r. split; [done | by intros r []%not_elem_of_nil]. }
  rewrite <- Es in *. clear Es u us. set (args := sort_func (cmp_on ticker_of MarketTicker_cmp) (new_rows (tt_next db) (sorted ts))).
  assert (args ≡ₚ new_rows (tt_next db) (sorted ts)) as Hargs by apply sort_func_perm.
  destruct (insert_tickers (tt_rows db) args) as (I1 & I2 & (added & I3 & I4) & I5).
  { apply Hok. } { apply Hok. }
  { unfold args. rewrite sort_func_perm. apply NoDup_new_rows. }
  { intros r a Hr Ha E. rewrite Hargs in Ha. destruct (elem_of_new_rows _ _ _ Ha) as [_ Hlt].
    pose proof (tt_minted db Hok r Hr). lia. }
  assert (forall t, is_Some (Find (CreateTickers (tt_rows db) (new_rows (tt_next db) (sorted ts))) (sorted ts) !! t) <-> t ∈ ts) as Hout.
  { intros t. rewrite <- (elem_of_sorted ts). split.
    - by intros [r [Ht _]%Find_spec].
    - intros Ht. destruct (new_rows_of (tt_next db) _ _ Ht) as (a & Ha & E). rewrite <- Hargs in Ha.
      specialize (I5 a Ha). rewrite E in I5. apply list_elem_of_fmap in I5 as (r & Er & Hr). exists r. by apply Find_spec. }
  assert (forall t, t ∈ sorted ts -> bool_decide (Find (CreateTickers (tt_rows db) (new_rows (tt_next db) (sorted ts))) (sorted ts) !! t = None) = false) as Hno.
  { intros t Ht. apply bool_decide_eq_false. intros E. apply elem_of_sorted, Hout in Ht as [r Hr]. congruence. }
  destruct (find_func _ (sorted ts)) as [t|] eqn:Ef.
  { apply find_some in Ef as [Ht%list_elem_of_In Hb]. rewrite (Hno t Ht) in Hb. done. }
  split; [| split; [done | split; [done | split]]].
  - split; simpl; [done | done |]. intros r Hr. unfold CreateTickers in Hr. fold args in Hr. rewrite I3 in Hr.
    apply elem_of_app in Hr as [Hr|Hr]; [pose proof (tt_minted db Hok r Hr); lia |].
    apply I4 in Hr as [Ha _]. rewrite Hargs in Ha. destruct (elem_of_new_rows _ _ _ Ha). lia.
  - intros t r [_ Hr]%Find_spec; done.
  - exists added. split; [done |]. intros r [Ha Hn]%I4. split; [| done]. rewrite Hargs in Ha.
    apply elem_of_sorted. by destruct (elem_of_new_rows _ _ _ Ha).
Qed.

(** * Witnesses *)

Definition ex_mics : MICMap :=
  {["XNAS" := MkMIC "XNAS" "US"; "XNYS" := MkMIC "XNYS" "US"; "XNGS" := MkMIC "XNAS" "US"; "XLON" := MkMIC "XLON" "GB"]}%string.

Definition ex_ticker_table : ticker_table := MkTickerTable [MkTickerRow 1 "US" "BRK.B"] 2.

Lemma ex_ticker_table_ok : tickers_ok ex_ticker_table.
Proof.
  split; simpl; [apply NoDup_singleton | apply NoDup_singleton |]. intros r ->%list_elem_of_singleton. done.
Qed.

Lemma Get_spec_witness :
  tickers_ok ex_ticker_table /\
  (Get ex_ticker_table ex_mics [MkMarketTicker "US" "BRK/B"]).2 = Err (ErrSpelling (ValueSpelling "BRK/B")) /\
  match Get ex_ticker_table ex_mics [MkMarketTicker "US" "NVDA"; MkMarketTicker "US" "BRK.B"; MkMarketTicker "US" "NVDA"] with
  | (db', Ok out) => tt_rows db' = [MkTickerRow 1 "US" "BRK.B"; MkTickerRow 3 "US" "NVDA"] /\
      (forall t, is_Some (out !! t) <-> t ∈ [MkMarketTicker "US" "NVDA"; MkMarketTicker "US" "BRK.B"; MkMarketTicker "US" "NVDA"])
  | _ => False
  end.
Proof.
  split; [exact ex_ticker_table_ok |]. split; [vm_compute; reflexivity |].
  pose proof (Get_spec ex_ticker_table ex_mics [MkMarketTicker "US" "NVDA"; MkMarketTicker "US" "BRK.B"; MkMarketTicker "US" "NVDA"] ex_ticker_table_ok) as Hg.
  assert (exists db' out, Get ex_ticker_table ex_mics [MkMarketTicker "US" "NVDA"; MkMarketTicker "US" "BRK.B"; MkMarketTicker "US" "NVDA"] = (db', Ok out) /\
    tt_rows db' = [MkTickerRow 1 "US" "BRK.B"; MkTickerRow 3 "US" "NVDA"]) as (db' & out & E & Er).
  { eexists _, _. split; [vm_compute; reflexivity | vm_compute; reflexivity]. }
  rewrite E in Hg |- *. destruct Hg as (_ & _ & Hout & _). split; [exact Er | exact Hout].
Defined.
