(* ===== verification/Calendar.v ===== *)
(** The calendar of an instrument, [server/internal/corpact]: the answers read
    from the tables ([read.go]), the calendar they make over the days the
    tickers of its market named the instrument, and the factor that restates a
    quantity ([calendar.go]). *)
From S2P Require Import Prelude Types Period Decimal Facts Validity Rows Mic Tickers CorpAct.

(** * Tables, [011_corp_acts.sql], [010_ticker_validity.sql] and [003_instrs.sql] *)

(** A row of [corp_act_answers]. *)
Record CorpActAnswer : Type := MkCorpActAnswer {
  an_ID : uuid;
  an_FetchKeyID : uuid;
  an_Datasource : string;
  an_TickerID : uuid;
  an_CoveredFrom : option time;
  an_CoveredBefore : option time;
}.

#[export] Instance CorpActAnswer_eq_dec : EqDecision CorpActAnswer.
Proof. solve_decision. Defined.

(** A row of [ticker_validity]. *)
Record ValidityRow : Type := MkValidityRow {
  tv_TickerID : uuid;
  tv_InstrID : uuid;
  tv_From : option time;
  tv_Before : option time;
  tv_Validity : Validity;
}.

(** A row of [listings], its instrument and its [primary_mic]. *)
Record ListingRow : Type := MkListingRow {
  ls_InstrID : uuid;
  ls_PrimaryMIC : option string;
}.

Record tables (D : Type) : Type := MkTables {
  db_tickers : list TickerRow;
  db_validity : list ValidityRow;
  db_listings : list ListingRow;
  (** [market_members]: an operating MIC and its market. *)
  db_members : list (string * string);
  (** [markets.corp_act_source] of each market that names one. *)
  db_sources : gmap string string;
  db_answers : list CorpActAnswer;
  db_acts : list (CorpActRow D);
}.
Arguments MkTables {D} _ _ _ _ _ _ _.
Arguments db_tickers {D} _.
Arguments db_validity {D} _.
Arguments db_listings {D} _.
Arguments db_members {D} _.
Arguments db_sources {D} _.
Arguments db_answers {D} _.
Arguments db_acts {D} _.

(** The first of each of [ts]: the loops that build the arrays of a query skip a
    ticker already seen. *)
Definition distinct_tickers (ts : list MarketTicker) : list MarketTicker := foldl append_unique [] ts.

(** * Reading ticker validity, [tickervalidity/store.go] *)

Section Load.
Context {D : Type}.

Definition nulls_first (a b : option time) : comparison :=
  match a, b with
  | None, None => Eq
  | None, Some _ => Lt
  | Some _, None => Gt
  | Some a, Some b => Z.compare a b
  end.

Definition ListTickerValidity (db : tables D) (asked : list MarketTicker) : list (MarketTicker * Interval) :=
  sort_func (cmp_lex (cmp_on fst MarketTicker_cmp) (cmp_on (fun r => iv_From r.2) nulls_first))
    (concat (map (fun r =>
      map (fun v => (ticker_of r, MkInterval (tv_From v) (tv_Before v) (tv_InstrID v) (tv_Validity v)))
        (List.filter (fun v => bool_decide (tv_TickerID v = tk_ID r)) (db_validity db)))
      (asked_tickers (db_tickers db) asked))).

(** [out[t] = append(out[t], ...)] for each row. *)
Definition load_step (out : gmap MarketTicker (list Interval)) (r : MarketTicker * Interval) : gmap MarketTicker (list Interval) :=
  <[r.1 := default [] (out !! r.1) ++ [r.2]]> out.

Definition Load (db : tables D) (ts : list MarketTicker) : gmap MarketTicker (list Interval) :=
  let asked := distinct_tickers ts in
  foldl load_step (list_to_map (map (fun t => (t, [])) asked)) (ListTickerValidity db asked).

Definition ListTickersNaming (db : tables D) (instrs : list uuid) : list MarketTicker :=
  sort_func MarketTicker_cmp (distinct_tickers (map ticker_of (List.filter (fun r =>
    existsb (fun v => bool_decide (tv_TickerID v = tk_ID r) && contains instrs (tv_InstrID v)) (db_validity db))
    (db_tickers db)))).

Definition LoadNaming (db : tables D) (instrs : list uuid) : gmap MarketTicker (list Interval) :=
  Load db (ListTickersNaming db instrs).

(** * The market of an instrument *)

(** The markets of the primary venues of the listings of an instrument. *)
Definition listed_markets (db : tables D) (instr : uuid) : list string :=
  foldl append_unique [] (concat (map (fun l =>
    map snd (List.filter (fun m => bool_decide (ls_PrimaryMIC l = Some m.1)) (db_members db)))
    (List.filter (fun l => bool_decide (ls_InstrID l = instr)) (db_listings db)))).

(** [HAVING COUNT(DISTINCT market) = 1]. *)
Definition ListInstrMarkets (db : tables D) (instrs : list uuid) : list (uuid * string) :=
  omap (fun i => match listed_markets db i with [m] => Some (i, m) | _ => None end) (foldl append_unique [] instrs).

Definition Markets (db : tables D) (instrs : list uuid) : gmap uuid string :=
  foldl (fun out row => <[row.1 := row.2]> out) ∅ (ListInstrMarkets db instrs).

End Load.

(** * Answers, [read.go] *)

Record Answer (D : Type) : Type := MkAnswer {
  aw_Datasource : string;
  aw_Acts : list (Act D);
  aw_Coverage : list Period;
}.
Arguments MkAnswer {D} _ _ _.
Arguments aw_Datasource {D} _.
Arguments aw_Acts {D} _.
Arguments aw_Coverage {D} _.

Section Read.
Context {D : Type} `{Decimal D}.

(** The answers of each market's source for the tickers the arrays hold. *)
Definition asked_answers (db : tables D) (asked : list MarketTicker) : list (CorpActAnswer * MarketTicker) :=
  concat (map (fun r =>
    map (fun a => (a, ticker_of r)) (List.filter (fun a =>
      bool_decide (an_TickerID a = tk_ID r) && bool_decide (db_sources db !! tk_Market r = Some (an_Datasource a)))
      (db_answers db)))
    (asked_tickers (db_tickers db) asked)).

Definition ListCorpActAnswers (db : tables D) (asked : list MarketTicker) : list (CorpActAnswer * MarketTicker) :=
  sort_func (cmp_on snd MarketTicker_cmp) (asked_answers db asked).

Definition by_ex_date : CorpActRow D -> CorpActRow D -> comparison :=
  cmp_lex (cmp_on cr_ExDate Z.compare) (cmp_on cr_ID N.compare).

Definition ListCorpActs (db : tables D) (asked : list MarketTicker) (p : Period) : list (CorpActRow D) :=
  sort_func by_ex_date (concat (map (fun a =>
    List.filter (fun e => bool_decide (cr_AnswerID e = an_ID a.1) && Contains p (cr_ExDate e)) (db_acts db))
    (asked_answers db asked))).

(** The coverage of one row. *)
Definition row_coverage (a : CorpActAnswer) : list Period :=
  match an_CoveredFrom a, an_CoveredBefore a with
  | Some f, Some b => [MkPeriod f b]
  | _, _ => []
  end.

(** The loop over the answers: [byID] and [stored]. *)
Definition answer_step (st : gmap uuid MarketTicker * gmap MarketTicker (Answer D)) (row : CorpActAnswer * MarketTicker) :
    gmap uuid MarketTicker * gmap MarketTicker (Answer D) :=
  (<[an_ID row.1 := row.2]> st.1, <[row.2 := MkAnswer (an_Datasource row.1) [] (row_coverage row.1)]> st.2).

Definition add_act (a : Answer D) (e : Act D) : Answer D := MkAnswer (aw_Datasource a) (aw_Acts a ++ [e]) (aw_Coverage a).

Definition act_step (byID : gmap uuid MarketTicker) (stored : gmap MarketTicker (Answer D)) (e : CorpActRow D) :
    gmap MarketTicker (Answer D) :=
  match byID !! cr_AnswerID e with
  | None => stored
  | Some t => alter (fun a => add_act a (toAct e)) t stored
  end.

(** The ex-dates of unknown actions. *)
Definition unknown_days (es : list (Act D)) : list time := map act_ExDate (List.filter Unknown es).

(** One turn of the loop over [stored]. *)
Definition within (p : Period) (a : Answer D) : option (Answer D) :=
  let cov := omap (fun c => clip_opt c p) (remove (aw_Coverage a) (unknown_days (aw_Acts a))) in
  if bool_decide (cov = []) && bool_decide (length (aw_Acts a) = 0%nat) then None
  else Some (MkAnswer (aw_Datasource a) (aw_Acts a) cov).

Definition Read (db : tables D) (ts : list MarketTicker) (p : Period) : gmap MarketTicker (Answer D) :=
  let want := distinct_tickers ts in
  match want with
  | [] => ∅
  | _ =>
      match ListCorpActAnswers db want with
      | [] => ∅
      | rows =>
          let '(byID, stored) := foldl answer_step (∅, ∅) rows in
          omap (within p) (foldl (act_step byID) stored (ListCorpActs db want p))
      end
  end.

(** [time.Date(9999, 1, 1)] in days since the Unix epoch. *)
Definition always : Period := MkPeriod zero_time (2932532 * day_len).

End Read.

(** * Calendars, [calendar.go] *)

Record Calendar (D : Type) : Type := MkCalendar {
  c_Market : string;
  c_Answer : Answer D;
}.
Arguments MkCalendar {D} _ _.
Arguments c_Market {D} _.
Arguments c_Answer {D} _.

Section Calendar.
Context {D : Type} `{Decimal D}.

(** [append] unless an action of the slice is the same. *)
Definition add_same (es : list (Act D)) (e : Act D) : list (Act D) :=
  if existsb (Act_same e) es then es else es ++ [e].

(** One turn of the loop over the intervals of a ticker, at the answer [a]. Go
    reads a missing key of [markets] as the empty market. *)
Definition calendar_step (markets : gmap uuid string) (t : MarketTicker) (a : Answer D)
    (st : gmap uuid (Calendar D) * gmap uuid (list time)) (iv : Interval) :
    gmap uuid (Calendar D) * gmap uuid (list time) :=
  let '(built, unknown) := st in
  if negb (bool_decide (default ""%string (markets !! iv_Instr iv) = mt_Market t)) then st
  else
    let c := default (MkCalendar (mt_Market t) (MkAnswer (aw_Datasource a) [] [])) (built !! iv_Instr iv) in
    let ans := c_Answer c in
    let es := List.filter (fun e => Interval_Contains iv (act_ExDate e)) (aw_Acts a) in
    let cov := omap (fun p => let '(p, ok) := Interval_Clip iv p in if ok then Some p else None) (aw_Coverage a) in
    (<[iv_Instr iv := MkCalendar (c_Market c)
         (MkAnswer (aw_Datasource ans) (foldl add_same (aw_Acts ans) es) (aw_Coverage ans ++ cov))]> built,
     <[iv_Instr iv := default [] (unknown !! iv_Instr iv) ++ unknown_days es]> unknown).

(** The loops over [answers], in the order Go visits the map. *)
Definition calendar_build (markets : gmap uuid string) (read : gmap MarketTicker (list Interval))
    (answers : list (MarketTicker * Answer D)) : gmap uuid (Calendar D) * gmap uuid (list time) :=
  foldl (fun st ta => foldl (calendar_step markets ta.1 ta.2) st (default [] (read !! ta.1))) (∅, ∅) answers.

(** One turn of the last loop. *)
Definition calendar_done (unknown : list time) (c : Calendar D) : option (Calendar D) :=
  let cov := Union (remove (aw_Coverage (c_Answer c)) unknown) in
  let es := aw_Acts (c_Answer c) in
  if bool_decide (cov = []) && bool_decide (length es = 0%nat) then None
  else Some (MkCalendar (c_Market c) (MkAnswer (aw_Datasource (c_Answer c)) (sort_func (cmp_on act_ExDate Z.compare) es) cov)).

Definition calendars_of (markets : gmap uuid string) (read : gmap MarketTicker (list Interval))
    (answers : list (MarketTicker * Answer D)) : gmap uuid (Calendar D) :=
  let '(built, unknown) := calendar_build markets read answers in
  map_imap (fun id c => calendar_done (default [] (unknown !! id)) c) built.

(** The tickers of [read] that name an instrument at its market. *)
Definition calendar_tickers (markets : gmap uuid string) (read : gmap MarketTicker (list Interval)) : list MarketTicker :=
  omap (fun tivs : MarketTicker * list Interval =>
    if existsb (fun iv => bool_decide (default ""%string (markets !! iv_Instr iv) = mt_Market tivs.1)) tivs.2
    then Some tivs.1 else None) (map_to_list read).

Definition Calendars (db : tables D) (instrs : list uuid) : gmap uuid (Calendar D) :=
  let markets := Markets db instrs in
  if bool_decide (markets = ∅) then ∅
  else
    let read := LoadNaming db (map_to_list markets).*1 in
    calendars_of markets read (map_to_list (Read db (calendar_tickers markets read) always)).

(** ** The factor *)

(** [Quo] panics on a zero divisor: [None]. *)
Definition Quo (a b : Qc) : option Qc := if bool_decide (b = 0%Qc) then None else Some (a / b)%Qc.

Definition needed (asAt today : time) : Period := MkPeriod (AddDays (Day asAt) 1) (AddDays (Day today) 1).

Definition factor_step (need : Period) (f : Qc) (e : Act D) : option Qc :=
  if Restates e && Contains need (act_ExDate e)
  then q ← Quo (dec_Rat (r_To (act_Ratio e))) (dec_Rat (r_From (act_Ratio e))); Some (f * q)%Qc
  else Some f.

Definition Factor (c : Answer D) (asAt today : time) : option (Qc * bool) :=
  let need := needed asAt today in
  if negb (p_From need <? p_Before need) then Some (1%Qc, true)
  else
    f ← opt_fold (factor_step need) 1%Qc (aw_Acts c);
    Some (f, bool_decide (Gaps (aw_Coverage c) need = [])).

Definition Calendar_Gaps (c : Answer D) (p : Period) : list Period := Gaps (aw_Coverage c) p.

End Calendar.

(** * Lemmas *)

Section Lemmas.
Context {D : Type} `{DecimalLaws D}.

(** ** Equal actions *)

Definition act_ok (e : Act D) : Prop := ratio_pos (act_Ratio e) /\ Day (act_ExDate e) = act_ExDate e.

Lemma Act_same_eq (e o : Act D) :
  Act_same e o = true <-> act_ExDate e = act_ExDate o /\ Ratio_Equal (act_Ratio e) (act_Ratio o) = true /\
    Restates e = Restates o /\ Unknown e = Unknown o.
Proof. unfold Act_same. rewrite !andb_true_iff, Z.eqb_eq, !Bool.eqb_true_iff. tauto. Qed.

Lemma Act_same_refl (e : Act D) : Act_same e e = true.
Proof. apply Act_same_eq. by rewrite Ratio_Equal_refl. Qed.

Lemma Act_same_sym (e o : Act D) : Act_same e o = true -> Act_same o e = true.
Proof. rewrite !Act_same_eq, Ratio_Equal_comm. naive_solver. Qed.

Lemma Act_same_trans (e o p : Act D) :
  act_ok e -> act_ok o -> act_ok p -> Act_same e o = true -> Act_same o p = true -> Act_same e p = true.
Proof.
  intros [He _] [Ho _] [Hp _]. rewrite !Act_same_eq. intros (? & ? & ? & ?) (? & ? & ? & ?).
  split; [congruence |]. split; [by apply (Ratio_Equal_trans _ (act_Ratio o)) | split; congruence].
Qed.

Lemma Act_same_value (e o : Act D) :
  act_ok e -> act_ok o -> Act_same e o = true -> ratio_value (act_Ratio e) = ratio_value (act_Ratio o).
Proof. intros [He _] [Ho _] (_ & Hr & _)%Act_same_eq. by apply Ratio_Equal_spec. Qed.

(** No two actions of the list are the same. *)
Definition no_same : list (Act D) -> Prop := StronglySorted (fun a b => Act_same a b = false).

Lemma add_same_spec es e :
  Forall act_ok es -> act_ok e -> no_same es ->
  no_same (add_same es e) /\
  (forall x, x ∈ add_same es e -> x ∈ es \/ x = e) /\
  (forall x, act_ok x -> x = e \/ (exists y, y ∈ es /\ Act_same x y = true) -> exists y, y ∈ add_same es e /\ Act_same x y = true).
Proof.
  intros Hes He Hn. unfold add_same. destruct (existsb (Act_same e) es) eqn:E.
  - apply existsb_elem in E as (y & Hy & Hs). split; [done |]. split; [by left |].
    intros x _ [->|Hx]; [by exists y | done].
  - rewrite existsb_false in E. split; [| split].
    + clear Hes. induction Hn as [|a es Hn IH Ha]; simpl; [repeat constructor |].
      constructor; [apply IH; intros; apply E; by right |]. apply Forall_app. split; [done |].
      constructor; [| constructor]. specialize (E a ltac:(left)). destruct (Act_same a e) eqn:E'; [| done].
      apply Act_same_sym in E'. congruence.
    + intros x. rewrite elem_of_app, list_elem_of_singleton. done.
    + intros x _ [->|(y & Hy & Hs)].
      * exists e. split; [apply elem_of_app; right; by left |]. apply Act_same_refl.
      * exists y. split; [apply elem_of_app; by left | done].
Qed.

(** The list [es] holds each of [all], once up to [Act_same], and no other. *)
Definition enumerates (es : list (Act D)) (all : Act D -> Prop) : Prop :=
  no_same es /\ (forall e, e ∈ es -> all e) /\ forall e, all e -> exists o, o ∈ es /\ Act_same e o = true.

Lemma dedup_enumerates es : Forall act_ok es -> enumerates (foldl add_same [] es) (fun e => e ∈ es).
Proof.
  induction es as [|e es IH] using rev_ind; intros Hok.
  { split; [constructor |]. split; [done |]. by intros e []%not_elem_of_nil. }
  apply Forall_app in Hok as [Hes [He _]%Forall_cons]. destruct (IH Hes) as (H1 & H2 & H3). rewrite foldl_app. simpl.
  rewrite Forall_forall in Hes.
  destruct (add_same_spec (foldl add_same [] es) e) as (A1 & A2 & A3); [| done | done |].
  { apply Forall_forall. intros x Hx. by apply Hes, H2. }
  split; [done |]. split.
  - intros x [Hx| ->]%A2; apply elem_of_app; [left; by apply H2 | right; by left].
  - intros x [Hx|Hx]%elem_of_app; apply A3.
    + by apply Hes. + right. by apply H3.
    + by apply list_elem_of_singleton in Hx as ->. + left. by apply list_elem_of_singleton in Hx.
Qed.

Lemma no_same_perm es es' : es ≡ₚ es' -> no_same es -> no_same es'.
Proof.
  intros Hp. induction Hp as [|x l l' Hp IH|x y l|l1 l2 l3 _ IH1 _ IH2]; intros Hn; auto.
  - inversion_clear Hn as [|? ? H1 H2]. constructor; [by apply IH | by rewrite <- Hp].
  - inversion_clear Hn as [|? ? H1 H2]. inversion_clear H1 as [|? ? H3 H4].
    apply Forall_cons in H2 as [Hyx Hy]. repeat constructor; [done | done | | done].
    destruct (Act_same x y) eqn:E; [| done]. apply Act_same_sym in E. congruence.
Qed.

Definition product (es : list (Act D)) : Qc := foldr (fun e f => (ratio_value (act_Ratio e) * f)%Qc) 1%Qc es.

Lemma product_perm es es' : es ≡ₚ es' -> product es = product es'.
Proof.
  induction 1 as [|x l l' _ IH|x y l|l1 l2 l3 _ IH1 _ IH2]; simpl; [done | by rewrite IH | ring | congruence].
Qed.

(** The product over the actions does not depend on which list of them it
    runs through. *)
Lemma product_unique es es' all all' :
  (forall e, all e <-> all' e) -> (forall e, all e -> act_ok e) ->
  enumerates es all -> enumerates es' all' -> product es = product es'.
Proof.
  intros Hall Hok (N1 & A1 & B1) (N2 & A2 & B2).
  assert (forall e, e ∈ es -> exists o, o ∈ es' /\ Act_same e o = true) as C1.
  { intros e He. by apply B2, Hall, A1. }
  assert (forall e, e ∈ es' -> exists o, o ∈ es /\ Act_same e o = true) as C2.
  { intros e He. by apply B1, Hall, A2. }
  assert (Forall act_ok es) as O1 by (apply Forall_forall; auto).
  assert (Forall act_ok es') as O2 by (apply Forall_forall; intros e He; by apply Hok, Hall, A2).
  clear all all' Hall Hok A1 B1 A2 B2. revert es' N2 C1 C2 O2.
  induction N1 as [|e es N1 IH He]; intros es' N2 C1 C2 O2.
  { destruct es' as [|e' es']; [done |]. by destruct (C2 e' ltac:(left)) as (o & []%not_elem_of_nil & _). }
  destruct (C1 e ltac:(left)) as (o & Ho & Hs). apply elem_of_Permutation in Ho as [rest Hp].
  rewrite (product_perm _ _ Hp). apply Forall_cons in O1 as [Oe O1].
  assert (Forall act_ok (o :: rest)) as [Oo O3]%Forall_cons by (by rewrite <- Hp).
  pose proof (no_same_perm _ _ Hp N2) as N3. inversion_clear N3 as [|? ? N4 N5].
  rewrite Forall_forall in O1, O3, He, N5. simpl. rewrite (Act_same_value e o) by done. f_equal.
  apply IH; [by apply Forall_forall | done | | | by apply Forall_forall].
  - intros x Hx. destruct (C1 x ltac:(by right)) as (y & Hy & Hxy). exists y. split; [| done].
    rewrite Hp in Hy. apply elem_of_cons in Hy as [->|Hy]; [| done].
    exfalso. specialize (He x Hx). pose proof (Act_same_trans e o x Oe Oo (O1 x Hx) Hs (Act_same_sym _ _ Hxy)). congruence.
  - intros y Hy. destruct (C2 y) as (x & Hx & Hxy); [rewrite Hp; by right |]. exists x. split; [| done].
    apply elem_of_cons in Hx as [->|Hx]; [| done].
    exfalso. specialize (N5 y Hy). pose proof (Act_same_trans o e y Oo Oe (O3 y Hy) (Act_same_sym _ _ Hs) (Act_same_sym _ _ Hxy)). congruence.
Qed.

(** ** Factors *)

Lemma factor_fold need f es :
  Forall act_ok es ->
  opt_fold (factor_step need) f es =
    Some (f * product (List.filter (fun e => Restates e && Contains need (act_ExDate e)) es))%Qc.
Proof.
  intros Hes. revert f. induction Hes as [|e es [He _] _ IH]; intros f; simpl; [f_equal; ring |].
  unfold factor_step. destruct (Restates e && Contains need (act_ExDate e)); [| apply IH].
  unfold Quo. rewrite bool_decide_eq_false_2 by (by apply ratio_pos_From). simpl. rewrite IH. f_equal. unfold ratio_value. ring.
Qed.

Lemma no_same_filter f es : no_same es -> no_same (List.filter f es).
Proof.
  induction 1 as [|e es _ IH He]; simpl; [constructor |]. destruct (f e); [| done].
  constructor; [done |]. rewrite Forall_forall in *. intros x [Hx _]%elem_of_lfilter. by apply He.
Qed.

End Lemmas.

(** ** What the loops build *)

Section Build.
Context {D : Type} `{DecimalLaws D}.
Context (markets : gmap uuid string) (read : gmap MarketTicker (list Interval)).

Definition market_of (i : uuid) : string := default ""%string (markets !! i).

(** The intervals the loops visit, each with its ticker and answer. *)
Definition visits (answers : list (MarketTicker * Answer D)) : list (MarketTicker * Answer D * Interval) :=
  concat (map (fun ta => map (fun iv => (ta, iv)) (default [] (read !! ta.1))) answers).

Definition is_mine (i : uuid) (v : MarketTicker * Answer D * Interval) : bool :=
  bool_decide (iv_Instr v.2 = i) && bool_decide (market_of i = mt_Market v.1.1).

Definition acts_in (v : MarketTicker * Answer D * Interval) : list (Act D) :=
  List.filter (fun e => Interval_Contains v.2 (act_ExDate e)) (aw_Acts v.1.2).

Definition cover_in (v : MarketTicker * Answer D * Interval) : list Period :=
  omap (fun p => let '(p, ok) := Interval_Clip v.2 p in if ok then Some p else None) (aw_Coverage v.1.2).

Definition mine {A} (i : uuid) (f : MarketTicker * Answer D * Interval -> list A) vs : list A :=
  concat (map f (List.filter (is_mine i) vs)).

Lemma mine_app {A} i (f : _ -> list A) vs v :
  mine i f (vs ++ [v]) = mine i f vs ++ (if is_mine i v then f v else []).
Proof.
  unfold mine. rewrite List.filter_app, map_app, concat_app. f_equal. simpl.
  destruct (is_mine i v); simpl; by rewrite ?app_nil_r.
Qed.

Lemma elem_of_mine {A} i (f : _ -> list A) answers x :
  x ∈ mine i f (visits answers) <->
  exists t a iv, (t, a) ∈ answers /\ iv ∈ default [] (read !! t) /\ iv_Instr iv = i /\ market_of i = mt_Market t /\ x ∈ f (t, a, iv).
Proof.
  unfold mine, visits, is_mine. rewrite elem_of_concat_map. split.
  - intros (v & [Hv Hm]%elem_of_lfilter & Hx). apply elem_of_concat_map in Hv as ([t a] & Hta & Hv).
    apply list_elem_of_In, in_map_iff in Hv as (iv & <- & Hiv%list_elem_of_In). simpl in *.
    apply andb_true_iff in Hm as [H1%bool_decide_eq_true H2%bool_decide_eq_true]. by exists t, a, iv.
  - intros (t & a & iv & Hta & Hiv & Hi & Hm & Hx). exists (t, a, iv). split; [| done].
    apply elem_of_lfilter. simpl. rewrite !bool_decide_eq_true_2 by done. split; [| done].
    apply elem_of_concat_map. exists (t, a). split; [done |]. apply list_elem_of_In, in_map_iff. exists iv.
    by rewrite <- list_elem_of_In.
Qed.

Definition calendar_fold (vs : list (MarketTicker * Answer D * Interval)) :=
  foldl (fun st v => calendar_step markets v.1.1 v.1.2 st v.2) (∅, ∅) vs.

Lemma calendar_build_eq answers : calendar_build markets read answers = calendar_fold (visits answers).
Proof.
  unfold calendar_build, calendar_fold, visits. rewrite <- foldl_nested.
  generalize (@empty (gmap uuid (Calendar D)) _, @empty (gmap uuid (list time)) _).
  induction answers as [|[t a] answers IH]; intros st; simpl; [done |].
  assert (forall ivs st, foldl (calendar_step markets t a) st ivs =
    foldl (fun st v => calendar_step markets v.1.1 v.1.2 st v.2) st (map (fun iv => (t, a, iv)) ivs)) as E.
  { induction ivs as [|iv ivs IHi]; intros st'; simpl; [done | apply IHi]. }
  rewrite E. apply IH.
Qed.

Definition empty_answer : Answer D := MkAnswer "" [] [].

(** What an instrument's calendar holds before the last loop. *)
Definition built_as (i : uuid) (vs : list (MarketTicker * Answer D * Interval))
    (st : gmap uuid (Calendar D) * gmap uuid (list time)) : Prop :=
  let a := default empty_answer (c_Answer <$> st.1 !! i) in
  aw_Acts a = foldl add_same [] (mine i acts_in vs) /\ aw_Coverage a = mine i cover_in vs /\
  default [] (st.2 !! i) = unknown_days (mine i acts_in vs).

Lemma calendar_fold_spec i vs : built_as i vs (calendar_fold vs).
Proof.
  induction vs as [|[[t a] iv] vs IH] using rev_ind; [by unfold built_as; simpl; rewrite !lookup_empty |].
  unfold calendar_fold. rewrite foldl_app. fold (calendar_fold vs). destruct (calendar_fold vs) as [built unknown].
  destruct IH as (I1 & I2 & I3). cbn [foldl fst snd]. unfold built_as. rewrite !mine_app.
  unfold is_mine at 1 2 3. cbn [fst snd]. unfold calendar_step. fold (market_of (iv_Instr iv)).
  destruct (decide (iv_Instr iv = i)) as [<-|Hne].
  - rewrite (bool_decide_eq_true_2 (iv_Instr iv = iv_Instr iv)) by done. simpl andb.
    case_bool_decide as Hm; simpl negb; cbn iota.
    + simpl fst in *. simpl snd in *. rewrite !lookup_insert_eq. simpl. rewrite I3.
      split; [| split].
      * rewrite foldl_app. f_equal. by destruct (built !! iv_Instr iv).
      * f_equal. by destruct (built !! iv_Instr iv).
      * unfold unknown_days. by rewrite List.filter_app, map_app.
    + by rewrite !app_nil_r.
  - rewrite (bool_decide_eq_false_2 (iv_Instr iv = i)) by done. simpl andb. cbn iota. rewrite !app_nil_r.
    destruct (negb _); [done |]. simpl. by rewrite !lookup_insert_ne by done.
Qed.

(** The calendar of an instrument, the zero one where it has none. *)
Definition calendar_for (answers : list (MarketTicker * Answer D)) (i : uuid) : Answer D :=
  default empty_answer (c_Answer <$> calendars_of markets read answers !! i).

Lemma calendar_for_spec answers i :
  let vs := visits answers in
  aw_Acts (calendar_for answers i) = sort_func (cmp_on act_ExDate Z.compare) (foldl add_same [] (mine i acts_in vs)) /\
  aw_Coverage (calendar_for answers i) = Union (remove (mine i cover_in vs) (unknown_days (mine i acts_in vs))).
Proof.
  intros vs. unfold calendar_for, calendars_of. rewrite calendar_build_eq. fold vs.
  pose proof (calendar_fold_spec i vs) as (I1 & I2 & I3). destruct (calendar_fold vs) as [built unknown].
  simpl in *. rewrite map_lookup_imap. rewrite <- I1, <- I2, <- I3.
  destruct (built !! i) as [c|]; simpl; [| done]. unfold calendar_done.
  case_bool_decide as Hcov; simpl; [| done]. case_bool_decide as Hacts; simpl; [| done].
  rewrite Hcov. by destruct (aw_Acts (c_Answer c)).
Qed.

(** ** What a calendar promises *)

(** A ticker of the market of [i] that names [i] on the day of [e] reports it. *)
Definition reports (answers : list (MarketTicker * Answer D)) (i : uuid) (e : Act D) : Prop :=
  exists t a iv, (t, a) ∈ answers /\ iv ∈ default [] (read !! t) /\ iv_Instr iv = i /\ market_of i = mt_Market t /\
    e ∈ aw_Acts a /\ Interval_Contains iv (act_ExDate e) = true.

(** The answer for a ticker of the market of [i] that names [i] at [x] covers
    [x]. *)
Definition covers (answers : list (MarketTicker * Answer D)) (i : uuid) (x : time) : Prop :=
  exists t a iv, (t, a) ∈ answers /\ iv ∈ default [] (read !! t) /\ iv_Instr iv = i /\ market_of i = mt_Market t /\
    AnyContains (aw_Coverage a) x = true /\ Interval_Contains iv x = true.

Definition iv_days (iv : Interval) : Prop :=
  (forall f, iv_From iv = Some f -> Day f = f) /\ (forall b, iv_Before iv = Some b -> Day b = b).

(** Dates are stored as dates, and ratios are positive. *)
Definition answers_ok (answers : list (MarketTicker * Answer D)) : Prop :=
  forall t a, (t, a) ∈ answers -> Forall act_ok (aw_Acts a) /\ Forall p_days (aw_Coverage a) /\
    Forall iv_days (default [] (read !! t)).

Lemma reports_eq answers i e : reports answers i e <-> e ∈ mine i acts_in (visits answers).
Proof.
  rewrite elem_of_mine. unfold reports, acts_in. cbn [fst snd].
  split; intros (t & a & iv & ? & ? & ? & ? & Hx); exists t, a, iv; by rewrite elem_of_lfilter in *.
Qed.

Lemma cover_in_contains t a iv x :
  AnyContains (cover_in (t, a, iv)) x = AnyContains (aw_Coverage a) x && Interval_Contains iv x.
Proof.
  unfold cover_in. cbn [fst snd]. apply eq_true_iff_eq. rewrite andb_true_iff, !AnyContains_spec.
  setoid_rewrite list_elem_of_omap. split.
  - intros (c & (p & Hp & Hc) & Hx). pose proof (Interval_Clip_contains iv p x) as E. unfold Interval_Clip in Hc.
    fold (clip_opt p (MkPeriod (default (p_From p) (iv_From iv)) (default (p_Before p) (iv_Before iv)))) in Hc.
    rewrite Hc, Hx in E. symmetry in E. apply andb_true_iff in E as [H1 H2]. eauto.
  - intros [(p & Hp & Hx) Hi]. pose proof (Interval_Clip_contains iv p x) as E. rewrite Hi, Hx in E.
    destruct (clip_opt p _) as [c|] eqn:Ec; [| done]. exists c. split; [| done]. by exists p.
Qed.

Lemma cover_in_days t a iv : Forall p_days (aw_Coverage a) -> iv_days iv -> Forall p_days (cover_in (t, a, iv)).
Proof.
  intros Ha [Hf Hb]. unfold cover_in. cbn [fst snd]. rewrite Forall_forall in Ha. apply Forall_forall. intros c.
  rewrite list_elem_of_omap. intros (p & Hp & Hc). destruct (Ha p Hp) as [H1 H2].
  change (clip_opt p (MkPeriod (default (p_From p) (iv_From iv)) (default (p_Before p) (iv_Before iv))) = Some c) in Hc.
  apply clip_opt_Some in Hc as (E1 & E2 & _). unfold p_days. rewrite E1, E2. cbn [p_From p_Before].
  assert (Day (default (p_From p) (iv_From iv)) = default (p_From p) (iv_From iv)) by (destruct (iv_From iv); simpl; auto).
  assert (Day (default (p_Before p) (iv_Before iv)) = default (p_Before p) (iv_Before iv)) by (destruct (iv_Before iv); simpl; auto).
  split.
  - by destruct (Z.max_spec (p_From p) (default (p_From p) (iv_From iv))) as [[_ ->]|[_ ->]].
  - by destruct (Z.min_spec (p_Before p) (default (p_Before p) (iv_Before iv))) as [[_ ->]|[_ ->]].
Qed.

Lemma covers_eq answers i x : covers answers i x <-> AnyContains (mine i cover_in (visits answers)) x = true.
Proof.
  rewrite AnyContains_spec. setoid_rewrite elem_of_mine. unfold covers. split.
  - intros (t & a & iv & ? & ? & ? & ? & Hx). rewrite <- andb_true_iff, <- (cover_in_contains t), AnyContains_spec in Hx.
    destruct Hx as (p & Hp & Hx). exists p. split; [| done]. by exists t, a, iv.
  - intros (p & (t & a & iv & ? & ? & ? & ? & Hp) & Hx). exists t, a, iv. do 4 (split; [done |]).
    rewrite <- andb_true_iff, <- (cover_in_contains t), AnyContains_spec. by exists p.
Qed.

Lemma mine_acts_ok answers i : answers_ok answers -> Forall act_ok (mine i acts_in (visits answers)).
Proof.
  intros Hok. apply Forall_forall. intros e He. apply elem_of_mine in He as (t & a & iv & Ha & _ & _ & _ & He).
  destruct (Hok t a Ha) as [Hacts _]. rewrite Forall_forall in Hacts. apply elem_of_lfilter in He as [He _]. by apply Hacts.
Qed.

Lemma calendar_coverage answers i x :
  answers_ok answers ->
  AnyContains (aw_Coverage (calendar_for answers i)) x = true <->
    covers answers i x /\ forall e, reports answers i e -> Unknown e = true -> act_ExDate e <> Day x.
Proof.
  intros Hok. destruct (calendar_for_spec answers i) as [_ ->]. rewrite Union_contains.
  pose proof (mine_acts_ok answers i Hok) as Hacts. rewrite Forall_forall in Hacts.
  rewrite remove_any.
  - rewrite <- covers_eq. split; intros [Hc Hu]; (split; [done |]).
    + intros e He Hun Ed. apply Hu. apply list_elem_of_In, in_map_iff. exists e. split; [done |].
      apply filter_In. split; [| done]. apply list_elem_of_In. by apply reports_eq.
    + intros (e & Ed & [He Hun]%filter_In)%list_elem_of_In%in_map_iff. apply list_elem_of_In in He.
      apply (Hu e); [by apply reports_eq | done | done].
  - apply Forall_forall. intros p Hp. apply elem_of_mine in Hp as (t & a & iv & Ha & Hiv & _ & _ & Hp).
    destruct (Hok t a Ha) as (_ & Hcov & Hivs). rewrite Forall_forall in Hivs.
    pose proof (cover_in_days t a iv Hcov (Hivs iv Hiv)) as Hd. rewrite Forall_forall in Hd. by apply Hd.
  - apply Forall_forall. intros d (e & <- & [He Hun]%filter_In)%list_elem_of_In%in_map_iff.
    apply Hacts. by apply list_elem_of_In.
Qed.

Lemma calendar_nonempty answers i : Forall p_nonempty (aw_Coverage (calendar_for answers i)).
Proof. destruct (calendar_for_spec answers i) as [_ ->]. apply Union_apart, remove_ok. Qed.

Lemma calendar_acts answers i :
  answers_ok answers ->
  enumerates (aw_Acts (calendar_for answers i)) (reports answers i) /\ Forall act_ok (aw_Acts (calendar_for answers i)).
Proof.
  intros Hok. destruct (calendar_for_spec answers i) as [-> _].
  pose proof (mine_acts_ok answers i Hok) as Hacts. destruct (dedup_enumerates _ Hacts) as (E1 & E2 & E3).
  set (es := foldl add_same [] _) in *. pose proof (sort_func_perm (cmp_on act_ExDate Z.compare) es) as Hp.
  assert (forall e, e ∈ sort_func (cmp_on act_ExDate Z.compare) es -> reports answers i e) as Hrep.
  { intros e. rewrite Hp, reports_eq. apply E2. }
  split; [split; [by apply (no_same_perm es) | split; [exact Hrep |]] |].
  - intros e He%reports_eq. destruct (E3 e He) as (o & Ho & Hs). exists o. by rewrite Hp.
  - apply Forall_forall. intros e He%Hrep%reports_eq. rewrite Forall_forall in Hacts. by apply Hacts.
Qed.

End Build.

(** ** Factors over a span *)

Section FactorLemmas.
Context {D : Type} `{DecimalLaws D}.

Definition in_need (need : Period) (e : Act D) : bool := Restates e && Contains need (act_ExDate e).

Lemma needed_nonempty asAt today : (p_From (needed asAt today) <? p_Before (needed asAt today)) = (Day asAt <? Day today).
Proof. unfold needed, AddDays. simpl. lia. Qed.

(** Both branches of [Factor] in one form. *)
Lemma Factor_eq (c : Answer D) asAt today :
  Forall act_ok (aw_Acts c) -> Forall p_nonempty (aw_Coverage c) ->
  Factor c asAt today =
    Some (product (List.filter (in_need (needed asAt today)) (aw_Acts c)),
          bool_decide (Gaps (aw_Coverage c) (needed asAt today) = [])).
Proof.
  intros Hacts Hcov. unfold Factor. rewrite needed_nonempty. destruct (Z.ltb_spec (Day asAt) (Day today)) as [Hlt|Hge]; simpl negb; cbn iota.
  - rewrite factor_fold by done. simpl. do 2 f_equal. unfold in_need. ring.
  - assert (forall x, Contains (needed asAt today) x = false) as Hno.
    { intros x. apply Contains_false. unfold needed, AddDays. simpl. pose proof day_len_pos. lia. }
    rewrite filter_none by (intros e; unfold in_need; by rewrite Hno, andb_false_r).
    rewrite bool_decide_eq_true_2; [done |]. apply Gaps_nil; [done |]. intros x Hx. by rewrite Hno in Hx.
Qed.

Lemma product_filter_split (f g h : Act D -> bool) es :
  (forall e, f e = g e || h e) -> (forall e, g e && h e = false) ->
  product (List.filter f es) = (product (List.filter g es) * product (List.filter h es))%Qc.
Proof.
  intros Hf Hgh. induction es as [|e es IH]; simpl; [ring |]. rewrite Hf. specialize (Hgh e).
  destruct (g e), (h e); simpl in *; try done; rewrite IH; ring.
Qed.

Lemma needed_split asAt mid today x :
  asAt <= mid -> mid <= today ->
  Contains (needed asAt today) x = Contains (needed asAt mid) x || Contains (needed mid today) x.
Proof.
  intros H1 H2. pose proof (Day_mono _ _ H1). pose proof (Day_mono _ _ H2).
  unfold needed, Contains, AddDays. simpl. lia.
Qed.

End FactorLemmas.

(** * Reading the tables *)

Lemma elem_of_distinct ts t : t ∈ distinct_tickers ts <-> t ∈ ts.
Proof. apply elem_of_append_all. Qed.

Lemma NoDup_distinct ts : NoDup (distinct_tickers ts).
Proof. apply NoDup_append_all. Qed.

Section ReadLemmas.
Context {D : Type} `{DecimalLaws D}.

(** The primary keys and unique constraints of the tables. *)
Record tables_ok (db : tables D) : Prop := {
  tickers_ID : NoDup (map tk_ID (db_tickers db));
  tickers_key : NoDup (map ticker_of (db_tickers db));
  answers_ID : NoDup (map an_ID (db_answers db));
  answers_key : NoDup (map (fun a => (an_Datasource a, an_TickerID a)) (db_answers db));
  acts_ID : NoDup (map cr_ID (db_acts db));
}.

(** [a] is the answer of the source of the market of [t] for [t]. *)
Definition answer_for (db : tables D) (t : MarketTicker) (a : CorpActAnswer) : Prop :=
  a ∈ db_answers db /\ db_sources db !! mt_Market t = Some (an_Datasource a) /\
  exists r, r ∈ db_tickers db /\ ticker_of r = t /\ an_TickerID a = tk_ID r.

Lemma elem_of_asked_answers db asked a t :
  (a, t) ∈ asked_answers db asked <-> t ∈ asked /\ answer_for db t a.
Proof.
  unfold asked_answers, asked_tickers, answer_for. rewrite elem_of_concat_map. split.
  - intros (r & Hr & Ha). apply elem_of_concat_map in Hr as (u & Hu & [Hr Eu%bool_decide_eq_true]%elem_of_lfilter).
    apply list_elem_of_In, in_map_iff in Ha as (b & [= -> <-] & [Hb Hk]%filter_In).
    apply andb_true_iff in Hk as [H1%bool_decide_eq_true H2%bool_decide_eq_true]. subst u.
    split; [done |]. split; [by apply list_elem_of_In |]. split; [done | by exists r].
  - intros (Ht & Ha & Hs & r & Hr & <- & E). exists r. split.
    + apply elem_of_concat_map. exists (ticker_of r). split; [done |]. apply elem_of_lfilter. by rewrite bool_decide_eq_true_2.
    + apply list_elem_of_In, in_map_iff. exists a. split; [done |]. apply filter_In. split; [by apply list_elem_of_In |].
      by rewrite !bool_decide_eq_true_2.
Qed.

Lemma answer_for_unique db t a b : tables_ok db -> answer_for db t a -> answer_for db t b -> a = b.
Proof.
  intros Hok (Ha & Sa & r & Hr & Er & Ta) (Hb & Sb & q & Hq & Eq & Tb).
  assert (r = q) as <- by (apply (NoDup_key ticker_of (db_tickers db)); [apply Hok | done | done | congruence]).
  apply (NoDup_key _ _ _ _ (answers_key db Hok)); [done | done |]. congruence.
Qed.

Lemma answer_for_ID db t u a b : tables_ok db -> answer_for db t a -> answer_for db u b -> an_ID a = an_ID b -> t = u /\ a = b.
Proof.
  intros Hok (Ha & _ & r & Hr & Er & Ta) (Hb & _ & q & Hq & Eq & Tb) E.
  assert (a = b) as <- by (by apply (NoDup_key _ _ _ _ (answers_ID db Hok))).
  split; [| done]. assert (r = q) as <- by (apply (NoDup_key _ _ _ _ (tickers_ID db Hok)); [done | done | congruence]).
  congruence.
Qed.

(** What the loop over the answers leaves in its maps. *)
Lemma answer_fold rows byID (stored : gmap MarketTicker (Answer D)) :
  (forall a b t u, (a, t) ∈ rows -> (b, u) ∈ rows -> an_ID a = an_ID b \/ t = u -> (a, t) = (b, u)) ->
  let st := foldl answer_step (byID, stored) rows in
  (forall a t, (a, t) ∈ rows -> st.1 !! an_ID a = Some t /\ st.2 !! t = Some (MkAnswer (an_Datasource a) [] (row_coverage a))) /\
  (forall id, (forall a t, (a, t) ∈ rows -> an_ID a <> id) -> st.1 !! id = byID !! id) /\
  (forall t, (forall a u, (a, u) ∈ rows -> u <> t) -> st.2 !! t = stored !! t).
Proof.
  induction rows as [|[b u] rows IH] using rev_ind; intros Hu.
  { split; [by intros ? ? []%not_elem_of_nil | done]. }
  rewrite foldl_app. cbn [foldl]. destruct IH as (I1 & I2 & I3).
  { intros *. intros. apply Hu; rewrite ?elem_of_app; auto. }
  destruct (foldl answer_step (byID, stored) rows) as [by' st']. simpl in *. split; [| split].
  - intros a t [Hin|[= -> ->]%list_elem_of_singleton]%elem_of_app; [| by rewrite !lookup_insert_eq].
    destruct (decide ((a, t) = (b, u))) as [[= -> ->]|Hne]; [by rewrite !lookup_insert_eq |].
    rewrite !lookup_insert_ne; [by apply I1 | |]; intros E; apply Hne, Hu; auto; apply elem_of_app; auto; right; by left.
  - intros id Hid. rewrite lookup_insert_ne; [apply I2 | apply (Hid b u)]; [intros a t Ha; apply (Hid a t) |]; apply elem_of_app; [by left | right; by left].
  - intros t Ht. rewrite lookup_insert_ne; [apply I3 | apply (Ht b u)]; [intros a v Ha; apply (Ht a v) |]; apply elem_of_app; [by left | right; by left].
Qed.

Lemma act_fold byID (stored : gmap MarketTicker (Answer D)) es t :
  foldl (act_step byID) stored es !! t =
    (fun a => MkAnswer (aw_Datasource a)
       (aw_Acts a ++ map toAct (List.filter (fun e => bool_decide (byID !! cr_AnswerID e = Some t)) es)) (aw_Coverage a)) <$> stored !! t.
Proof.
  revert stored. induction es as [|e es IH]; intros stored; simpl.
  - destruct (stored !! t) as [[]|]; simpl; by rewrite ?app_nil_r.
  - rewrite IH. unfold act_step. destruct (byID !! cr_AnswerID e) as [u|] eqn:E.
    + destruct (decide (u = t)) as [->|Hne].
      * rewrite bool_decide_eq_true_2, lookup_alter_eq by done. destruct (stored !! t); simpl; [| done]. by rewrite <- app_assoc.
      * rewrite bool_decide_eq_false_2, lookup_alter_ne by congruence. done.
    + by rewrite bool_decide_eq_false_2.
Qed.

#[export] Instance by_ex_date_cmp : GoCmp (@by_ex_date D).
Proof. apply _. Qed.

(** The actions of one answer in a period, as the rows are ordered. *)
Definition acts_of (db : tables D) (a : CorpActAnswer) (p : Period) : list (CorpActRow D) :=
  List.filter (fun e => bool_decide (cr_AnswerID e = an_ID a) && Contains p (cr_ExDate e)) (db_acts db).

Lemma ListCorpActs_of db asked p t a (byID : gmap uuid MarketTicker) :
  tables_ok db -> NoDup asked -> (a, t) ∈ asked_answers db asked ->
  (forall b u, (b, u) ∈ asked_answers db asked -> byID !! an_ID b = Some u) ->
  List.filter (fun e => bool_decide (byID !! cr_AnswerID e = Some t)) (ListCorpActs db asked p) =
  sort_func by_ex_date (acts_of db a p).
Proof.
  intros Hok Hnd Ha Hby. pose proof (NoDup_of_key _ _ (acts_ID db Hok)) as Hacts.
  pose proof (proj1 (elem_of_asked_answers _ _ _ _) Ha) as [Hta Hfa].
  assert (NoDup (asked_answers db asked)) as Hrows.
  { unfold asked_answers, asked_tickers. apply NoDup_concat_map.
    - apply NoDup_concat_map; [done | intros; apply NoDup_lfilter; apply NoDup_of_key with (f := tk_ID), Hok |].
      intros x y r _ _ [_ Hx%bool_decide_eq_true]%elem_of_lfilter [_ Hy%bool_decide_eq_true]%elem_of_lfilter. congruence.
    - intros r _. apply NoDup_fmap_2_strong; [congruence |]. apply NoDup_lfilter. apply NoDup_of_key with (f := an_ID), Hok.
    - intros x y [b u] Hx Hy (b1 & [= E1 E2] & _)%list_elem_of_In%in_map_iff (b2 & [= E3 E4] & _)%list_elem_of_In%in_map_iff.
      apply elem_of_concat_map in Hx as (? & _ & [Hx _]%elem_of_lfilter).
      apply elem_of_concat_map in Hy as (? & _ & [Hy _]%elem_of_lfilter).
      apply (NoDup_key _ _ _ _ (tickers_key db Hok)); [done | done | congruence]. }
  apply StronglySorted_unique_strong with (cmp_le by_ex_date).
  - intros e f [He _]%elem_of_lfilter Hf%elem_of_sort_func Hef Hfe.
    apply elem_of_sort_func, elem_of_concat_map in He as ([b u] & _ & [He _]%elem_of_lfilter).
    apply elem_of_lfilter in Hf as [Hf _].
    pose proof (cmp_le_antisym _ _ _ Hef Hfe) as E. unfold by_ex_date, cmp_lex, cmp_on, cmp_or in E.
    destruct (Z.compare_spec (cr_ExDate e) (cr_ExDate f)); try done.
    apply N.compare_eq_iff in E. by apply (NoDup_key _ _ _ _ (acts_ID db Hok)).
  - apply StronglySorted_lfilter, sort_func_sorted, _.
  - apply sort_func_sorted, _.
  - apply NoDup_Permutation.
    + apply NoDup_lfilter. unfold ListCorpActs. rewrite sort_func_perm. apply NoDup_concat_map; [done | |].
      * intros x _. by apply NoDup_lfilter.
      * intros [b u] [c v] e Hb Hc [_ E1]%elem_of_lfilter [_ E2]%elem_of_lfilter.
        apply andb_true_iff in E1 as [E1%bool_decide_eq_true _]. apply andb_true_iff in E2 as [E2%bool_decide_eq_true _].
        apply elem_of_asked_answers in Hb as [_ Hb], Hc as [_ Hc]. simpl in *.
        destruct (answer_for_ID db u v b c) as [-> ->]; [done | done | done | congruence | done].
    + rewrite sort_func_perm. by apply NoDup_lfilter.
    + intros e. unfold ListCorpActs, acts_of. rewrite elem_of_lfilter, !elem_of_sort_func, elem_of_concat_map.
      rewrite bool_decide_eq_true. setoid_rewrite elem_of_lfilter. split.
      * intros [([b u] & Hb & He & Hk) Et]. split; [done |]. simpl in Hk.
        apply andb_true_iff in Hk as [E%bool_decide_eq_true Hp]. rewrite E, (Hby b u Hb) in Et. injection Et as ->.
        apply elem_of_asked_answers in Hb as [_ Hb]. rewrite (answer_for_unique db t a b) by done.
        by rewrite E, bool_decide_eq_true_2.
      * intros [He Hk]. split; [by exists (a, t) |]. apply andb_true_iff in Hk as [E%bool_decide_eq_true _].
        rewrite E. by apply Hby.
Qed.

Lemma asked_unique db asked a b t u :
  tables_ok db -> (a, t) ∈ asked_answers db asked -> (b, u) ∈ asked_answers db asked ->
  an_ID a = an_ID b \/ t = u -> (a, t) = (b, u).
Proof.
  intros Hok [_ Ha]%elem_of_asked_answers [_ Hb]%elem_of_asked_answers [E|E].
  - by destruct (answer_for_ID db t u a b) as [-> ->].
  - subst u. f_equal. by apply (answer_for_unique db t).
Qed.

(** The answer of the source for one ticker, within [p]. *)
Definition answer_within (db : tables D) (a : CorpActAnswer) (p : Period) : option (Answer D) :=
  within p (MkAnswer (an_Datasource a) (map toAct (sort_func by_ex_date (acts_of db a p))) (row_coverage a)).

Lemma Read_lookup db ts p t :
  tables_ok db ->
  (forall a, t ∈ ts -> answer_for db t a -> Read db ts p !! t = answer_within db a p) /\
  (t ∉ ts \/ (forall a, ~ answer_for db t a) -> Read db ts p !! t = None).
Proof.
  intros Hok. set (want := distinct_tickers ts).
  assert (forall a, (a, t) ∈ asked_answers db want <-> t ∈ ts /\ answer_for db t a) as Hin.
  { intros a. rewrite elem_of_asked_answers. unfold want. by rewrite elem_of_distinct. }
  set (rows := ListCorpActAnswers db want).
  assert (forall x, x ∈ rows <-> x ∈ asked_answers db want) as Hrows by (intros; apply elem_of_sort_func).
  assert (Read db ts p = let '(byID, stored) := foldl answer_step (∅, ∅) rows in
    omap (within p) (foldl (act_step byID) stored (ListCorpActs db want p))) as ->.
  { unfold Read. fold want. destruct want as [|w ws] eqn:Ew; [| fold rows; destruct rows; [| done]].
    - unfold rows, ListCorpActAnswers. simpl. apply map_eq. intros i. by rewrite lookup_omap, !lookup_empty.
    - apply map_eq. intros i. simpl. rewrite lookup_omap, act_fold. by rewrite !lookup_empty. }
  destruct (answer_fold rows ∅ ∅) as (F1 & _ & F3).
  { intros *. rewrite !Hrows. by apply asked_unique. }
  destruct (foldl answer_step (∅, ∅) rows) as [byID stored]. simpl in *. rewrite lookup_omap, act_fold.
  split.
  - intros a Ht Ha. assert ((a, t) ∈ rows) as Har by (rewrite Hrows, Hin; done).
    destruct (F1 a t Har) as [_ ->]. simpl. unfold answer_within. do 3 f_equal.
    apply ListCorpActs_of; [done | apply NoDup_distinct | by apply Hrows |].
    intros b u Hb. apply F1. by apply Hrows.
  - intros Hno. rewrite F3; [done |]. intros a u Ha%Hrows ->. apply Hin in Ha as [? Ha].
    destruct Hno as [Hno|Hno]; [done | by apply (Hno a)].
Qed.

End ReadLemmas.

(** * Properties *)

Section Properties.
Context {D : Type} `{DecimalLaws D}.

(** Whatever order Go visits its maps in, the calendar of an instrument gives
    a factor, and it is the product of the ratios of the restating actions that
    the tickers of its market reported while they named it, with an ex-date
    after the day of the quantity and up to today, each counted once however
    many tickers report it. It says covered exactly when on each of those days
    such a ticker's answer covers the day and no action of unknown effect falls
    on it. *)
Theorem calendar_factor markets read (answers : list (MarketTicker * Answer D)) i asAt today :
  answers_ok read answers ->
  let counted e := reports markets read answers i e /\ in_need (needed asAt today) e = true in
  exists f cov,
    Factor (calendar_for markets read answers i) asAt today = Some (f, cov) /\
    (exists es, enumerates es counted) /\ (forall es, enumerates es counted -> f = product es) /\
    (cov = true <-> forall x, Contains (needed asAt today) x = true ->
       covers markets read answers i x /\
       forall e, reports markets read answers i e -> Unknown e = true -> act_ExDate e <> Day x).
Proof.
  intros Hok counted. destruct (calendar_acts markets read answers i Hok) as [(N & A & B) Hacts].
  pose proof (calendar_nonempty markets read answers i) as Hne. rewrite Factor_eq by done.
  do 2 eexists. split; [reflexivity |].
  assert (enumerates (List.filter (in_need (needed asAt today)) (aw_Acts (calendar_for markets read answers i))) counted) as He.
  { split; [by apply no_same_filter | split].
    - intros e [He Hn]%elem_of_lfilter. split; [by apply A | done].
    - intros e [He Hn]. destruct (B e He) as (o & Ho & Hs). exists o. split; [| done]. apply elem_of_lfilter. split; [done |].
      apply Act_same_eq in Hs as (Ed & _ & Er & _). unfold in_need in *. by rewrite <- Ed, <- Er. }
  split; [by eexists |]. split.
  - intros es Hes. apply (product_unique _ _ counted counted); [done | | done | done].
    intros e [He' _]. pose proof (mine_acts_ok markets read answers i Hok) as Ha. rewrite Forall_forall in Ha.
    by apply Ha, reports_eq.
  - rewrite bool_decide_eq_true, Gaps_nil by done. by setoid_rewrite calendar_coverage.
Qed.

(** Restating a quantity from one day to a second and on to a third is
    restating it from the first to the third: the factors multiply, and the
    whole is covered exactly when both parts are. *)
Theorem Factor_compose (c : Answer D) asAt mid today :
  Forall act_ok (aw_Acts c) -> Forall p_nonempty (aw_Coverage c) -> asAt <= mid -> mid <= today ->
  exists f g cov cov',
    Factor c asAt mid = Some (f, cov) /\ Factor c mid today = Some (g, cov') /\
    Factor c asAt today = Some ((f * g)%Qc, cov && cov').
Proof.
  intros Hacts Hcov H1 H2. do 4 eexists. split; [by apply Factor_eq |]. split; [by apply Factor_eq |].
  rewrite Factor_eq by done. do 2 f_equal.
  - apply product_filter_split; intros e; unfold in_need.
    + rewrite (needed_split asAt mid today) by done. by destruct (Restates e).
    + destruct (Restates e); simpl; [| done]. pose proof (Day_mono _ _ H1). unfold needed, Contains, AddDays. simpl. lia.
  - apply eq_true_iff_eq. rewrite andb_true_iff, !bool_decide_eq_true, !Gaps_nil by done.
    setoid_rewrite (needed_split asAt mid today _ H1 H2). setoid_rewrite orb_true_iff. naive_solver.
Qed.

(** [Read] gives a ticker an answer exactly when it is asked for and the
    source of its market has answered for it, with something to show within the
    period: the actions of that answer's rows with an ex-date in the period, in
    order of date, and the days its row covers in the period that hold no
    unknown action of those. *)
Theorem Read_spec (db : tables D) ts p t w :
  tables_ok db ->
  Read db ts p !! t = Some w <->
    t ∈ ts /\ exists a, answer_for db t a /\
      aw_Datasource w = an_Datasource a /\
      aw_Acts w = map toAct (sort_func by_ex_date (acts_of db a p)) /\
      aw_Coverage w = omap (fun c => clip_opt c p) (remove (row_coverage a) (unknown_days (aw_Acts w))) /\
      (aw_Coverage w <> [] \/ aw_Acts w <> []).
Proof.
  intros Hok. destruct (Read_lookup db ts p t Hok) as [Hyes Hno]. split.
  - intros HR. destruct (decide (t ∈ ts)) as [Ht|Ht]; [| rewrite Hno in HR; [done | by left]]. split; [done |].
    destruct (decide (Exists (fun r => ticker_of r = t /\ Exists (fun a => an_TickerID a = tk_ID r /\
      db_sources db !! mt_Market t = Some (an_Datasource a)) (db_answers db)) (db_tickers db))) as [He|He].
    + apply Exists_exists in He as (r & Hr & Et & (a & Ha & Ea & Es)%Exists_exists).
      assert (answer_for db t a) as Hfa by (split; [done | split; [done | by exists r]]). exists a. split; [done |].
      rewrite (Hyes a Ht Hfa) in HR. unfold answer_within, within in HR. simpl in HR.
      case_bool_decide as E1; [case_bool_decide as E2; [done |]|]; injection HR as <-; simpl; repeat split; auto.
      right. intros E. by rewrite E in E2.
    + rewrite Hno in HR; [done |]. right. intros a (Ha & Hs & r & Hr & Er & Ea). apply He, Exists_exists.
      exists r. split; [done |]. split; [done |]. apply Exists_exists. by exists a.
  - intros (Ht & a & Hfa & E1 & E2 & E3 & E4). rewrite (Hyes a Ht Hfa). unfold answer_within, within. simpl.
    rewrite <- E2, <- E3. destruct w as [ds es cov]. simpl in *. subst ds.
    case_bool_decide; [case_bool_decide as E; [| done] | done]. destruct es; simpl in *; naive_solver.
Qed.
End Properties.

(** * Witnesses *)

Section Witnesses.

Definition ex_cal_day (n : Z) : time := n * day_len.

Definition ex_ticker_row : TickerRow := MkTickerRow 1 "US" "NVDA".
Definition ex_split : CorpActRow fixed :=
  MkCorpActRow 10 5 (ex_cal_day 40) (Fixed 1 0) (Fixed 10 0) (Some "split"%string) true None.
Definition ex_spin : CorpActRow fixed :=
  MkCorpActRow 11 5 (ex_cal_day 60) (Fixed 1000 0) (Fixed 1281 0) None false None.

Definition ex_tables : tables fixed :=
  MkTables [ex_ticker_row] [MkValidityRow 1 7 None None Confirmed] [MkListingRow 7 (Some "XNAS"%string)]
    [("XNAS", "US")]%string {["US" := "massive"]}%string
    [MkCorpActAnswer 5 6 "massive" 1 (Some (ex_cal_day 0)) (Some (ex_cal_day 100))] [ex_spin; ex_split].

Definition ex_nvda : MarketTicker := MkMarketTicker "US" "NVDA".

Lemma ex_tables_ok : tables_ok ex_tables.
Proof. split; vm_compute; (repeat constructor); intros Hin; repeat (apply elem_of_cons in Hin as [Hin|Hin]; [discriminate |]); by apply not_elem_of_nil in Hin. Qed.

Definition ex_answers : list (MarketTicker * Answer fixed) := map_to_list (Read ex_tables [ex_nvda] always).
Definition ex_read : gmap MarketTicker (list Interval) := LoadNaming ex_tables [7%N].
Definition ex_markets : gmap uuid string := Markets ex_tables [7%N].

Lemma ex_answers_eq : ex_answers = [(ex_nvda, MkAnswer "massive" [toAct ex_split; toAct ex_spin]
  [MkPeriod (ex_cal_day 0) (ex_cal_day 60); MkPeriod (ex_cal_day 61) (ex_cal_day 100)])].
Proof. vm_compute. reflexivity. Qed.

Lemma ex_read_answers_ok : answers_ok ex_read ex_answers.
Proof.
  rewrite ex_answers_eq. intros t a [= -> ->]%list_elem_of_singleton. split; [| split].
  - repeat constructor; vm_compute; reflexivity.
  - repeat constructor; vm_compute; reflexivity.
  - assert (default [] (ex_read !! ex_nvda) = [MkInterval None None 7 Confirmed]) as -> by (vm_compute; reflexivity).
    repeat constructor; done.
Qed.

Lemma Read_spec_witness :
  exists w, Read ex_tables [ex_nvda] always !! ex_nvda = Some w /\
    exists a, answer_for ex_tables ex_nvda a /\ aw_Datasource w = an_Datasource a.
Proof.
  exists (MkAnswer "massive" [toAct ex_split; toAct ex_spin] [MkPeriod (ex_cal_day 0) (ex_cal_day 60); MkPeriod (ex_cal_day 61) (ex_cal_day 100)]).
  match goal with |- ?P /\ _ => assert P as HR by (vm_compute; reflexivity) end. split; [exact HR |].
  destruct (proj1 (Read_spec ex_tables [ex_nvda] always ex_nvda _ ex_tables_ok) HR) as (_ & a & Ha & E & _).
  exists a. split; [exact Ha | exact E].
Defined.

Lemma calendar_factor_witness :
  let c := calendar_for ex_markets ex_read ex_answers 7 in
  Calendars ex_tables [7%N] !! 7%N = Some (MkCalendar "US" c) /\
  fmap (fun p : Qc * bool => (this p.1, p.2)) (Factor c (ex_cal_day 10) (ex_cal_day 50)) = Some (QArith_base.Qmake 10 1, true) /\
  fmap (fun p : Qc * bool => (this p.1, p.2)) (Factor c (ex_cal_day 10) (ex_cal_day 70)) = Some (QArith_base.Qmake 10 1, false) /\
  exists f cov, Factor c (ex_cal_day 10) (ex_cal_day 50) = Some (f, cov) /\
    (cov = true <-> forall x, Contains (needed (ex_cal_day 10) (ex_cal_day 50)) x = true ->
       covers ex_markets ex_read ex_answers 7 x /\
       forall e, reports ex_markets ex_read ex_answers 7 e -> Unknown e = true -> act_ExDate e <> Day x).
Proof.
  intros c. split; [vm_compute; reflexivity |]. split; [vm_compute; reflexivity |]. split; [vm_compute; reflexivity |].
  destruct (calendar_factor ex_markets ex_read ex_answers 7 (ex_cal_day 10) (ex_cal_day 50) ex_read_answers_ok)
    as (f & cov & HF & _ & _ & Hcov).
  exists f, cov. split; [exact HF | exact Hcov].
Defined.

Lemma Factor_compose_witness :
  let c := MkAnswer "massive" [toAct ex_split] [MkPeriod (ex_cal_day 0) (ex_cal_day 60)] in
  exists f g cov cov',
    Factor c (ex_cal_day 10) (ex_cal_day 30) = Some (f, cov) /\ Factor c (ex_cal_day 30) (ex_cal_day 50) = Some (g, cov') /\
    Factor c (ex_cal_day 10) (ex_cal_day 50) = Some ((f * g)%Qc, cov && cov').
Proof.
  intros c. apply (Factor_compose c).
  - repeat constructor; vm_compute; reflexivity.
  - repeat constructor; vm_compute; reflexivity.
  - vm_compute. discriminate.
  - vm_compute. discriminate.
Defined.

End Witnesses.
