(* ===== verification/CorpActStore.v ===== *)
(** Recording an answer, [server/internal/corpact/record.go]: [writeAnswer]
    against the tables it writes, and the standing findings it raises
    ([server/internal/db/findings.go]). *)
From S2P Require Import Prelude Types Period Decimal Facts Rows CorpAct Calendar.

(** * Standing findings, [006_findings.sql] *)

(** A row of [findings]: what it concerns, without its texts. *)
Record Finding : Type := MkFinding {
  fd_ID : uuid;
  fd_RunID : uuid;
  fd_Kind : FindingKind;
  fd_StatedKeyID : option uuid;
  fd_CorpActID : option uuid;
  fd_EffectiveDate : option time;
  fd_Cleared : bool;
}.

(** [findings_corp_act_idx] and [findings_unmatched_split_idx]: a NULL conflicts
    with nothing. *)
Definition finding_conflicts (a b : Finding) : bool :=
  bool_decide (fd_ID a = fd_ID b)
  || (bool_decide (fd_CorpActID a = fd_CorpActID b) && negb (bool_decide (fd_CorpActID a = None)))
  || (bool_decide (fd_Kind a = FindingKindUnmatchedSplit) && bool_decide (fd_Kind b = FindingKindUnmatchedSplit)
      && bool_decide (fd_StatedKeyID a = fd_StatedKeyID b) && negb (bool_decide (fd_StatedKeyID a = None))
      && bool_decide (fd_EffectiveDate a = fd_EffectiveDate b) && negb (bool_decide (fd_EffectiveDate a = None))).

(** The insert that does nothing on a conflict, and whether it wrote a row. *)
Definition CreateStandingFinding (fs : list Finding) (f : Finding) : list Finding * bool :=
  if existsb (finding_conflicts f) fs then (fs, false) else (fs ++ [f], true).

(** * The tables *)

Record store (D : Type) : Type := MkStore {
  s_answers : list CorpActAnswer;
  s_acts : list (CorpActRow D);
  s_findings : list Finding;
  (** [fetch_keys.answered_at]. *)
  s_answered : gmap uuid time;
  (** The next id [db.NewID] mints: the ids it has minted are the smaller
      ones. *)
  s_next : uuid;
}.
Arguments MkStore {D} _ _ _ _ _.
Arguments s_answers {D} _.
Arguments s_acts {D} _.
Arguments s_findings {D} _.
Arguments s_answered {D} _.
Arguments s_next {D} _.

(** A served fetch key of a corporate actions request. *)
Record answerKey (D : Type) : Type := MkAnswerKey {
  k_ID : uuid;
  k_Source : string;
  k_RunID : uuid;
  k_AnsweredAt : time;
  k_Acts : list (CorpAct D);
  k_Coverage : option Period;
}.
Arguments MkAnswerKey {D} _ _ _ _ _ _.
Arguments k_ID {D} _.
Arguments k_Source {D} _.
Arguments k_RunID {D} _.
Arguments k_AnsweredAt {D} _.
Arguments k_Acts {D} _.
Arguments k_Coverage {D} _.

(** The error of a write that a CHECK of the schema refuses. *)
Inductive write_error : Type :=
| CheckRatio.

Section Store.
Context {D : Type} `{Decimal D}.

Definition NewID (s : store D) : uuid * store D :=
  (s_next s, MkStore (s_answers s) (s_acts s) (s_findings s) (s_answered s) (s_next s + 1)%N).

Definition set_answers (s : store D) (l : list CorpActAnswer) : store D :=
  MkStore l (s_acts s) (s_findings s) (s_answered s) (s_next s).
Definition set_acts (s : store D) (l : list (CorpActRow D)) : store D :=
  MkStore (s_answers s) l (s_findings s) (s_answered s) (s_next s).
Definition set_findings (s : store D) (l : list Finding) : store D :=
  MkStore (s_answers s) (s_acts s) l (s_answered s) (s_next s).

Definition is_answer (ds : string) (t : uuid) (a : CorpActAnswer) : bool :=
  bool_decide (an_Datasource a = ds) && bool_decide (an_TickerID a = t).

(** The answer of a datasource for a ticker, joined to the moment of its fetch
    key. *)
Definition GetCorpActAnswer (s : store D) (ds : string) (t : uuid) : option (uuid * time) :=
  match List.filter (is_answer ds t) (s_answers s) with
  | [] => None
  | a :: _ => (fun at_ => (an_ID a, at_)) <$> s_answered s !! an_FetchKeyID a
  end.

Definition UpdateCorpActAnswer (s : store D) (id key : uuid) (from before : option time) : store D :=
  set_answers s (map (fun a =>
    if bool_decide (an_ID a = id) then MkCorpActAnswer (an_ID a) key (an_Datasource a) (an_TickerID a) from before else a)
    (s_answers s)).

Definition of_answer (id : uuid) (e : CorpActRow D) : bool := bool_decide (cr_AnswerID e = id).

Definition ListAnswerCorpActs (s : store D) (id : uuid) : list (CorpActRow D) :=
  sort_func by_ex_date (List.filter (of_answer id) (s_acts s)).

(** The findings of the deleted actions go with them, [ON DELETE CASCADE]. *)
Definition DeleteCorpActs (s : store D) (ids : list uuid) : store D :=
  let gone (i : uuid) := bool_decide (i ∈ ids) in
  set_findings
    (set_acts s (List.filter (fun e => negb (gone (cr_ID e))) (s_acts s)))
    (List.filter (fun f => match fd_CorpActID f with Some i => negb (gone i) | None => true end) (s_findings s)).

Definition CreateCorpAct (s : store D) (e : CorpActRow D) : res write_error (store D) :=
  if dec_LessThan dec_Zero (cr_RatioFrom e) && dec_LessThan dec_Zero (cr_RatioTo e)
  then Ok (set_acts s (s_acts s ++ [e])) else Err CheckRatio.

(** One turn of the loop over the added actions. *)
Definition add_step (run answer : uuid) (st : store D * nat) (e : CorpAct D) : res write_error (store D * nat) :=
  let '(s, found) := st in
  let '(id, s) := NewID s in
  let type := if bool_decide (ca_Type e = ""%string) then None else Some (ca_Type e) in
  s ← CreateCorpAct s (MkCorpActRow id answer (Day (ca_ExDate e)) (r_From (ca_Ratio e)) (r_To (ca_Ratio e)) type (ca_Handled e) None);
  if ca_Handled e then Ok (s, found)
  else
    let '(fid, s) := NewID s in
    let '(fs, created) := CreateStandingFinding (s_findings s) (MkFinding fid run FindingKindUnhandledCorpAct None (Some id) None false) in
    Ok (set_findings s fs, if created then S found else found).

(** The switch of [writeAnswer]: the id of the answer's row, the tables with the
    row written, and the actions it held; [None] where the stored answer is
    later. *)
Definition answer_row (s : store D) (k : answerKey D) (t : uuid) : option (uuid * store D * list (CorpActRow D)) :=
  let bounds := covered (k_Coverage k) (k_AnsweredAt k) in
  let from := fst <$> bounds in
  let before := snd <$> bounds in
  match GetCorpActAnswer s (k_Source k) t with
  | None =>
      let '(id, s) := NewID s in
      Some (id, set_answers s (s_answers s ++ [MkCorpActAnswer id (k_ID k) (k_Source k) t from before]), [])
  | Some (id, at_) =>
      if k_AnsweredAt k <? at_ then None
      else
        let s := UpdateCorpActAnswer s id (k_ID k) from before in
        Some (id, s, ListAnswerCorpActs s id)
  end.

Definition writeAnswer (s : store D) (k : answerKey D) (t : uuid) : res write_error (store D * nat) :=
  match answer_row s k t with
  | None => Ok (s, 0%nat)
  | Some (id, s, old) =>
      let '(gone, added) := merge old (judged (k_Acts k)) in
      let s := if bool_decide (gone = []) then s else DeleteCorpActs s gone in
      res_fold (add_step (k_RunID k) id) (s, 0%nat) added
  end.

(** [record]: the transaction is rolled back on an error. *)
Definition record (s : store D) (k : answerKey D) (t : uuid) : store D * res write_error nat :=
  match writeAnswer s k t with
  | Ok (s', n) => (s', Ok n)
  | Err e => (s, Err e)
  end.

End Store.

(** * Lemmas *)

Section Lemmas.
Context {D : Type} `{DecimalLaws D}.

(** The constraints of the schema, and that every id was minted. *)
Record store_ok (s : store D) : Prop := {
  ok_answer_ids : NoDup (map an_ID (s_answers s));
  ok_answer_keys : NoDup (map (fun a => (an_Datasource a, an_TickerID a)) (s_answers s));
  ok_answered a : a ∈ s_answers s -> is_Some (s_answered s !! an_FetchKeyID a);
  ok_answers_next a : a ∈ s_answers s -> (an_ID a < s_next s)%N;
  ok_act_ids : NoDup (map cr_ID (s_acts s));
  ok_acts e : e ∈ s_acts s -> (cr_ID e < s_next s)%N /\ cr_AnswerID e ∈ map an_ID (s_answers s) /\
    ratio_pos (MkRatio (cr_RatioFrom e) (cr_RatioTo e));
  ok_findings f : f ∈ s_findings s -> (fd_ID f < s_next s)%N /\
    forall i, fd_CorpActID f = Some i -> i ∈ map cr_ID (s_acts s);
}.

(** ** The loop over the added actions *)

(** [row] is a row written for the reported action [e]. *)
Definition written_for (answer : uuid) (e : CorpAct D) (row : CorpActRow D) : Prop :=
  cr_AnswerID row = answer /\ repeats row e = true /\ cr_Decision row = None /\
  cr_RatioFrom row = r_From (ca_Ratio e) /\ cr_RatioTo row = r_To (ca_Ratio e).

(** [s'] is [s] with the rows [rows] and the findings [fs] appended. *)
Record extends (s s' : store D) (rows : list (CorpActRow D)) (fs : list Finding) : Prop := {
  ext_answers : s_answers s' = s_answers s;
  ext_answered : s_answered s' = s_answered s;
  ext_acts : s_acts s' = s_acts s ++ rows;
  ext_findings : s_findings s' = s_findings s ++ fs;
  ext_next : (s_next s <= s_next s')%N;
  ext_fresh e : e ∈ rows -> (s_next s <= cr_ID e < s_next s')%N;
  ext_NoDup : NoDup (map cr_ID rows);
  ext_named : map fd_CorpActID fs = map (fun e => Some (cr_ID e)) (List.filter (fun e => negb (cr_Handled e)) rows);
  ext_minted f : f ∈ fs -> (s_next s <= fd_ID f < s_next s')%N;
}.

Definition findings_minted (s : store D) : Prop :=
  forall f, f ∈ s_findings s -> (fd_ID f < s_next s)%N /\ forall i, fd_CorpActID f = Some i -> (i < s_next s)%N.

Lemma CreateStandingFinding_new fs f :
  (forall g, g ∈ fs -> fd_ID g <> fd_ID f /\ fd_CorpActID g <> fd_CorpActID f) -> fd_Kind f = FindingKindUnhandledCorpAct ->
  CreateStandingFinding fs f = (fs ++ [f], true).
Proof.
  intros Hf Hk. unfold CreateStandingFinding. replace (existsb (finding_conflicts f) fs) with false; [done |].
  symmetry. apply existsb_false. intros g Hg. destruct (Hf g Hg) as [H1 H2]. unfold finding_conflicts. rewrite Hk.
  rewrite (bool_decide_eq_false_2 (fd_ID f = fd_ID g)), (bool_decide_eq_false_2 (fd_CorpActID f = fd_CorpActID g)) by congruence.
  done.
Qed.

Lemma dec_pos a : dec_LessThan dec_Zero a = true <-> (0 < dec_Rat a)%Qc.
Proof. by rewrite dec_LessThan_spec, dec_Rat_Zero. Qed.

Lemma add_step_spec run answer s n e :
  findings_minted s -> ratio_pos (ca_Ratio e) ->
  exists s' row fs, add_step run answer (s, n) e = Ok (s', (n + length fs)%nat) /\
    written_for answer e row /\ extends s s' [row] fs.
Proof.
  intros Hf [Hp1 Hp2]. unfold add_step, NewID, CreateCorpAct. cbn [fst snd cr_RatioFrom cr_RatioTo s_next s_acts s_answers s_findings s_answered].
  rewrite (proj2 (dec_pos _) Hp1), (proj2 (dec_pos _) Hp2). cbn [andb mbind res_bind].
  set (row := MkCorpActRow (s_next s) _ _ _ _ _ _ _).
  assert (written_for answer e row) as Hw.
  { split; [done |]. split; [| done]. unfold repeats, row. simpl. destruct (ca_Ratio e) as [f t]. simpl. rewrite Z.eqb_refl, Ratio_Equal_refl. simpl.
    rewrite Bool.eqb_reflx, andb_true_r. apply bool_decide_eq_true. by case_bool_decide. }
  destruct (ca_Handled e) eqn:Eh.
  - exists (set_acts (MkStore (s_answers s) (s_acts s) (s_findings s) (s_answered s) (s_next s + 1)%N) (s_acts s ++ [row])), row, [].
    split; [by rewrite Nat.add_0_r |]. split; [done |].
    split; simpl; rewrite ?app_nil_r, ?Eh; try done; try lia; try apply NoDup_singleton; try (by intros ? []%not_elem_of_nil).
    intros x ->%list_elem_of_singleton. simpl. lia.
  - rewrite CreateStandingFinding_new; [| simpl | done].
    + set (f := MkFinding _ _ _ _ _ _ _). eexists _, row, [f]. split; [simpl; by rewrite Nat.add_1_r |]. split; [done |].
      split; simpl; rewrite ?Eh; try done; try lia; try apply NoDup_singleton; intros x ->%list_elem_of_singleton; simpl; lia.
    + intros g Hg. destruct (Hf g Hg) as [Hid Hca]. split; [lia |]. intros E. specialize (Hca _ E). lia.
Qed.

Lemma extends_minted s s' rows fs : extends s s' rows fs -> findings_minted s -> findings_minted s'.
Proof.
  intros He Hf f. rewrite (ext_findings _ _ _ _ He), elem_of_app. pose proof (ext_next _ _ _ _ He). intros [Hin|Hin].
  - destruct (Hf f Hin) as [Hid Hca]. split; [lia |]. intros i Ei. specialize (Hca i Ei). lia.
  - pose proof (ext_minted _ _ _ _ He f Hin). split; [lia |]. intros i Ei.
    assert (Some i ∈ map fd_CorpActID fs) as Hi by (rewrite <- Ei; by apply list_elem_of_fmap_2).
    rewrite (ext_named _ _ _ _ He) in Hi. apply list_elem_of_fmap in Hi as (x & [= ->] & [Hx _]%elem_of_lfilter).
    apply (ext_fresh _ _ _ _ He x Hx).
Qed.

Lemma extends_trans s1 s2 s3 r1 r2 f1 f2 :
  extends s1 s2 r1 f1 -> extends s2 s3 r2 f2 -> extends s1 s3 (r1 ++ r2) (f1 ++ f2).
Proof.
  intros H1 H2. destruct H1 as [A1 A2 A3 A4 A5 A6 A7 A8 A9], H2 as [B1 B2 B3 B4 B5 B6 B7 B8 B9]. split.
  - congruence.
  - congruence.
  - by rewrite B3, A3, app_assoc.
  - by rewrite B4, A4, app_assoc.
  - lia.
  - intros e [He|He]%elem_of_app; [specialize (A6 e He) | specialize (B6 e He)]; lia.
  - rewrite map_app. apply NoDup_app. split; [done | split; [| done]].
    intros i (x & -> & Hx)%list_elem_of_fmap (y & E & Hy)%list_elem_of_fmap. specialize (A6 x Hx). specialize (B6 y Hy). lia.
  - by rewrite map_app, List.filter_app, map_app, A8, B8.
  - intros f [Hf|Hf]%elem_of_app; [specialize (A9 f Hf) | specialize (B9 f Hf)]; lia.
Qed.

Lemma add_fold run answer added : forall s n,
  findings_minted s -> Forall (fun e => ratio_pos (ca_Ratio e)) added ->
  exists s' rows fs, res_fold (add_step run answer) (s, n) added = Ok (s', (n + length fs)%nat) /\
    Forall2 (written_for answer) added rows /\ extends s s' rows fs.
Proof.
  induction added as [|e added IH]; intros s n Hf Hpos; cbn [res_fold].
  - exists s, [], []. rewrite Nat.add_0_r. split; [done |]. split; [constructor |].
    split; simpl; rewrite ?app_nil_r; try done; try lia; try (by intros ? []%not_elem_of_nil). constructor.
  - apply Forall_cons in Hpos as [He Hpos]. destruct (add_step_spec run answer s n e Hf He) as (s1 & row & f1 & -> & Hw & He1).
    destruct (IH s1 (n + length f1)%nat (extends_minted _ _ _ _ He1 Hf) Hpos) as (s' & rows & fs & -> & Hws & He').
    exists s', (row :: rows), (f1 ++ fs). rewrite length_app, Nat.add_assoc. split; [done |]. split; [by constructor |].
    by apply (extends_trans s s1 s' [row] rows).
Qed.

(** ** The answer's row *)

Definition row_of (id : uuid) (k : answerKey D) (t : uuid) : CorpActAnswer :=
  let bounds := covered (k_Coverage k) (k_AnsweredAt k) in
  MkCorpActAnswer id (k_ID k) (k_Source k) t (fst <$> bounds) (snd <$> bounds).

(** The stored answer of the datasource for the ticker is later than [k]. *)
Definition later_stored (s : store D) (k : answerKey D) (t : uuid) : Prop :=
  exists a at_, a ∈ s_answers s /\ is_answer (k_Source k) t a = true /\
    s_answered s !! an_FetchKeyID a = Some at_ /\ k_AnsweredAt k < at_.

Lemma is_answer_true ds t a : is_answer ds t a = true <-> an_Datasource a = ds /\ an_TickerID a = t.
Proof. unfold is_answer. by rewrite andb_true_iff, !bool_decide_eq_true. Qed.

Lemma is_answer_unique s ds t a b :
  store_ok s -> a ∈ s_answers s -> b ∈ s_answers s -> is_answer ds t a = true -> is_answer ds t b = true -> a = b.
Proof.
  intros Hok Ha Hb [E1 E2]%is_answer_true [E3 E4]%is_answer_true.
  apply (NoDup_key _ _ _ _ (ok_answer_keys s Hok)); [done | done | congruence].
Qed.

Lemma GetCorpActAnswer_spec s ds t :
  store_ok s ->
  match GetCorpActAnswer s ds t with
  | Some (id, at_) => exists a, a ∈ s_answers s /\ is_answer ds t a = true /\ an_ID a = id /\ s_answered s !! an_FetchKeyID a = Some at_
  | None => forall a, a ∈ s_answers s -> is_answer ds t a = false
  end.
Proof.
  intros Hok. unfold GetCorpActAnswer. destruct (List.filter _ (s_answers s)) as [|a l] eqn:E.
  - intros a Ha. destruct (is_answer ds t a) eqn:Ei; [| done]. exfalso.
    assert (a ∈ @nil CorpActAnswer) as []%not_elem_of_nil. rewrite <- E. by apply elem_of_lfilter.
  - assert (a ∈ a :: l) as Ha by left. rewrite <- E in Ha. apply elem_of_lfilter in Ha as [Ha Hi].
    destruct (ok_answered s Hok a Ha) as [at_ Hat]. rewrite Hat. simpl. by exists a.
Qed.

(** What writing the row leaves. *)
Record row_written (s s1 : store D) (id : uuid) (k : answerKey D) (t : uuid) : Prop := {
  rw_ok : store_ok s1;
  rw_acts : s_acts s1 = s_acts s;
  rw_findings : s_findings s1 = s_findings s;
  rw_answered : s_answered s1 = s_answered s;
  rw_next : (s_next s <= s_next s1)%N;
  rw_row : row_of id k t ∈ s_answers s1;
  rw_others a : is_answer (k_Source k) t a = false -> a ∈ s_answers s1 <-> a ∈ s_answers s;
}.

Lemma set_answers_ok s l n :
  store_ok s -> NoDup (map an_ID l) -> NoDup (map (fun a => (an_Datasource a, an_TickerID a)) l) ->
  (forall a, a ∈ l -> is_Some (s_answered s !! an_FetchKeyID a) /\ (an_ID a < n)%N) ->
  (forall a, a ∈ s_answers s -> an_ID a ∈ map an_ID l) -> (s_next s <= n)%N ->
  store_ok (MkStore l (s_acts s) (s_findings s) (s_answered s) n).
Proof.
  intros Hok H1 H2 H3 H4 H5. split; simpl; [done | done | apply H3 | apply H3 | apply Hok | |].
  - intros e He. destruct (ok_acts s Hok e He) as (E1 & E2 & E3). split; [lia |]. split; [| done].
    apply list_elem_of_fmap in E2 as (a & -> & Ha). by apply H4.
  - intros f Hf. destruct (ok_findings s Hok f Hf). split; [lia | done].
Qed.

Lemma answer_row_spec s k t :
  store_ok s -> s_answered s !! k_ID k = Some (k_AnsweredAt k) ->
  match answer_row s k t with
  | None => later_stored s k t
  | Some (id, s1, old) => ~ later_stored s k t /\ row_written s s1 id k t /\
      old ≡ₚ List.filter (of_answer id) (s_acts s)
  end.
Proof.
  intros Hok Hk. unfold answer_row. pose proof (GetCorpActAnswer_spec s (k_Source k) t Hok) as HG.
  destruct (GetCorpActAnswer s (k_Source k) t) as [[id at_]|].
  - destruct HG as (a & Ha & Hi & <- & Hat). destruct (Z.ltb_spec (k_AnsweredAt k) at_) as [Hlt|Hge]; [by exists a, at_ |].
    split; [| split].
    + intros (b & bt & Hb & Hib & Hbt & Hlt). rewrite (is_answer_unique s (k_Source k) t b a) in Hbt by done.
      rewrite Hbt in Hat. injection Hat as ->. lia.
    + assert (forall b, b ∈ s_answers s -> an_ID b = an_ID a -> b = a) as Hu.
      { intros b Hb E. by apply (NoDup_key _ _ _ _ (ok_answer_ids s Hok)). }
      pose proof Hi as [Ed Et]%is_answer_true.
      assert (map an_ID (s_answers (UpdateCorpActAnswer s (an_ID a) (k_ID k)
        (fst <$> covered (k_Coverage k) (k_AnsweredAt k)) (snd <$> covered (k_Coverage k) (k_AnsweredAt k)))) = map an_ID (s_answers s)) as Eid.
      { unfold UpdateCorpActAnswer. simpl. rewrite map_map. apply map_ext. intros b. by case_bool_decide. }
      cbn [UpdateCorpActAnswer set_answers s_answers] in Eid.
      split; try done.
      * apply set_answers_ok; [done | rewrite Eid; apply Hok | | | intros b Hb; rewrite Eid; by apply list_elem_of_fmap_2 | lia].
        -- rewrite map_map. rewrite (map_ext_in _ (fun a => (an_Datasource a, an_TickerID a))); [apply Hok |].
           intros b Hb. by case_bool_decide.
        -- intros b (c & -> & Hc)%list_elem_of_fmap. pose proof (ok_answers_next s Hok c Hc). pose proof (ok_answered s Hok c Hc).
           case_bool_decide; simpl; [| done]. split; [by exists (k_AnsweredAt k) | done].
      * simpl. apply list_elem_of_fmap. exists a. split; [| done]. rewrite bool_decide_eq_true_2 by done.
        unfold row_of. by rewrite Ed, Et.
      * intros b Hb. simpl. rewrite list_elem_of_fmap. split.
        -- intros (c & -> & Hc). case_bool_decide as E; [| done]. exfalso. rewrite (Hu c Hc E) in Hb. simpl in Hb.
           unfold is_answer in Hb. simpl in Hb. unfold is_answer in Hi. congruence.
        -- intros Hin. exists b. split; [| done]. rewrite bool_decide_eq_false_2; [done |]. intros E.
           rewrite (Hu b Hin E) in Hb. congruence.
    + unfold ListAnswerCorpActs. rewrite sort_func_perm. done.
  - cbn [NewID fst snd]. split; [| split].
    + intros (b & bt & Hb & Hib & _). specialize (HG b Hb). congruence.
    + split; try done; simpl.
      * apply (set_answers_ok s _ (s_next s + 1)%N Hok); [| | | | lia].
        -- rewrite map_app. apply NoDup_app. split; [apply Hok | split; [| apply NoDup_singleton]].
           intros i (b & -> & Hb)%list_elem_of_fmap Hin%list_elem_of_singleton. simpl in Hin.
           pose proof (ok_answers_next s Hok b Hb). lia.
        -- rewrite map_app. apply NoDup_app. split; [apply Hok | split; [| apply NoDup_singleton]].
           intros i (b & -> & Hb)%list_elem_of_fmap [= E1 E2]%list_elem_of_singleton. specialize (HG b Hb).
           assert (is_answer (k_Source k) t b = true) by (by apply is_answer_true). congruence.
        -- intros b [Hb| ->%list_elem_of_singleton]%elem_of_app; simpl; [| split; [by exists (k_AnsweredAt k) | lia]].
           pose proof (ok_answers_next s Hok b Hb). split; [by apply Hok | lia].
        -- intros b Hb. rewrite map_app. apply elem_of_app. left. by apply list_elem_of_fmap_2.
      * lia.
      * apply elem_of_app. right. by left.
      * intros b Hb. rewrite elem_of_app, list_elem_of_singleton. split; [| by left]. intros [Hin| ->]; [done |].
        unfold is_answer in Hb. simpl in Hb. by rewrite !bool_decide_eq_true_2 in Hb.
    + simpl. rewrite filter_nil_all; [done |]. intros e He. destruct (ok_acts s Hok e He) as (_ & Ha & _).
      apply bool_decide_eq_false. intros E. rewrite E in Ha. apply list_elem_of_fmap in Ha as (b & Eb & Hb).
      pose proof (ok_answers_next s Hok b Hb). lia.
Qed.

End Lemmas.

(** ** The actions of the answer *)

Section Acts.
Context {D : Type} `{DecimalLaws D}.

(** The rows state the reported actions, one row each. *)
Definition holds_acts (rows : list (CorpActRow D)) (reported : list (CorpAct D)) : Prop :=
  exists l, rows ≡ₚ l /\ Forall2 (fun row e => repeats row e = true) l reported.

Definition rows_pos (rows : list (CorpActRow D)) : Prop :=
  Forall (fun r => ratio_pos (MkRatio (cr_RatioFrom r) (cr_RatioTo r))) rows.

Definition acts_pos (es : list (CorpAct D)) : Prop := Forall (fun e => ratio_pos (ca_Ratio e)) es.

Lemma judged_pos es : acts_pos es -> acts_pos (judged es).
Proof. unfold acts_pos, judged. rewrite Forall_fmap. done. Qed.

Lemma holds_acts_perm rows reported reported' :
  holds_acts rows reported -> reported ≡ₚ reported' -> holds_acts rows reported'.
Proof.
  intros (l & Hl & Hf) Hp. revert l rows Hl Hf. induction Hp as [|e es es' _ IH|e f es|es1 es2 es3 _ IH1 _ IH2]; intros l rows Hl Hf.
  - by exists l.
  - inversion Hf as [|r ? l' ? Hr Hf']; subst. destruct (IH l' l' (reflexivity _) Hf') as (k & Hk & Hf2).
    exists (r :: k). split; [by rewrite Hl, Hk | by constructor].
  - inversion Hf as [|r ? l' ? Hr Hf']; subst. inversion Hf' as [|q ? k ? Hq Hf2]; subst.
    exists (q :: r :: k). split; [rewrite Hl; apply perm_swap | by repeat constructor].
  - destruct (IH1 l rows Hl Hf) as (k & Hk & Hf2). by apply (IH2 k rows).
Qed.

(** Two rows that repeat one action repeat the same ones. *)
Lemma repeats_class r s e f :
  ratio_pos (MkRatio (cr_RatioFrom r) (cr_RatioTo r)) -> ratio_pos (MkRatio (cr_RatioFrom s) (cr_RatioTo s)) ->
  ratio_pos (ca_Ratio e) -> ratio_pos (ca_Ratio f) ->
  repeats r e = true -> repeats s e = true -> repeats s f = true -> repeats r f = true.
Proof.
  intros Hr Hs He Hf. unfold repeats. rewrite !andb_true_iff, !Z.eqb_eq, !bool_decide_eq_true, !Bool.eqb_true_iff.
  rewrite !Ratio_Equal_spec by done.
  intros [[[A1 A2] A3] A4] [[[B1 B2] B3] B4] [[[C1 C2] C3] C4].
  repeat split; [rewrite C1, <- B1 | rewrite C2, <- B2 | rewrite C3, <- B3 | rewrite C4, <- B4]; done.
Qed.

(** [s0] fixed, the rows and the actions of its content are as many on either
    side of a pairing. *)
Lemma Forall2_count e0 l reported :
  rows_pos l -> acts_pos reported -> ratio_pos (ca_Ratio e0) ->
  Forall2 (fun row e => repeats row e = true) l reported ->
  forall s0, ratio_pos (MkRatio (cr_RatioFrom s0) (cr_RatioTo s0)) -> repeats s0 e0 = true ->
  length (List.filter (fun r => repeats r e0) l) = length (List.filter (repeats s0) reported).
Proof.
  intros Hl Hr He0 H2 s0 Hs0 E0. induction H2 as [|r e l reported Hre _ IH]; simpl; [done |].
  apply Forall_cons in Hl as [Hl1 Hl2]. apply Forall_cons in Hr as [Hr1 Hr2]. specialize (IH Hl2 Hr2).
  destruct (repeats r e0) eqn:E1, (repeats s0 e) eqn:E2; simpl; [by f_equal | | | done].
  - rewrite (repeats_class s0 r e0 e) in E2; done.
  - rewrite (repeats_class r s0 e e0) in E1; done.
Qed.

(** An answer that is stored already has nothing to drop and nothing to add. *)
Lemma merge_complete old reported :
  rows_pos old -> acts_pos reported -> holds_acts old reported -> merge old reported = ([], []).
Proof.
  intros Hpos Hrpos (l & Hl & Hf). destruct (merge old reported) as [gone added] eqn:E.
  destruct (merge_pairs_of _ _ _ _ E) as (pairs & lost & H1 & -> & H2 & H3 & H4).
  assert (rows_pos l) as Hlpos by (unfold rows_pos; by rewrite <- Hl).
  pose proof (Forall2_length _ _ _ Hf) as Hlen.
  assert (rows_pos (pairs.*1 ++ lost)) as Hppos by (unfold rows_pos; by rewrite <- H1).
  apply Forall_app in Hppos as [Hp1 Hp2].
  assert (acts_pos (pairs.*2 ++ added)) as Hapos by (unfold acts_pos; by rewrite <- H2).
  apply Forall_app in Hapos as [Ha1 Ha2].
  assert (length lost = length added) as Heq.
  { rewrite H1 in Hl. rewrite H2 in Hlen. apply Permutation_length in Hl. rewrite length_app, length_fmap in Hl.
    rewrite length_app, length_fmap in Hlen. lia. }
  assert (added = []) as ->.
  2: { destruct lost; [done | simpl in Heq; lia]. }
  destruct added as [|e added']; [done | exfalso].
  (* the rows of the content of [e] are as many as the actions of it *)
  assert (Forall2 (fun row e => repeats row e = true) pairs.*1 pairs.*2) as Hpairs.
  { clear -H3. induction H3 as [|[r x] pairs Hx _ IH]; simpl; by constructor. }
  assert (exists s0, s0 ∈ l /\ repeats s0 e = true) as (s0 & Hs0 & Es0).
  { assert (e ∈ reported) as He by (rewrite H2; apply elem_of_app; right; by left).
    apply list_elem_of_lookup in He as [i Hi]. destruct (Forall2_lookup_r _ _ _ _ _ Hf Hi) as (s0 & Hs & Er).
    exists s0. split; [by apply (list_elem_of_lookup_2 _ i) | done]. }
  assert (ratio_pos (ca_Ratio e)) as Hepos by (by apply Forall_cons in Ha2 as [? _]).
  assert (ratio_pos (MkRatio (cr_RatioFrom s0) (cr_RatioTo s0))) as Hspos by (unfold rows_pos in Hlpos; rewrite Forall_forall in Hlpos; by apply Hlpos).
  pose proof (Forall2_count e l reported Hlpos Hrpos Hepos Hf s0 Hspos Es0) as C1.
  pose proof (Forall2_count e pairs.*1 pairs.*2 Hp1 Ha1 Hepos Hpairs s0 Hspos Es0) as C2.
  rewrite <- Hl, H1, H2, !List.filter_app, !length_app in C1. rewrite C2 in C1.
  rewrite (filter_nil_all (fun r => repeats r e) lost) in C1.
  - simpl in C1. rewrite Es0 in C1. simpl in C1. lia.
  - intros r Hr. apply H4; [done | by left].
Qed.

End Acts.

(** ** Writing an answer *)

Section Write.
Context {D : Type} `{DecimalLaws D}.

Lemma delete_if (s : store D) gone : (if bool_decide (gone = []) then s else DeleteCorpActs s gone) = DeleteCorpActs s gone.
Proof.
  case_bool_decide as E; [| done]. subst gone. unfold DeleteCorpActs, set_findings, set_acts. simpl.
  rewrite !filter_id_all; [by destruct s | | done]. intros f _. by destruct (fd_CorpActID f).
Qed.

Lemma DeleteCorpActs_ok (s : store D) gone : store_ok s -> store_ok (DeleteCorpActs s gone).
Proof.
  intros Hok. destruct Hok as [K1 K2 K3 K4 K5 K6 K7]. split; simpl; try done.
  - apply (NoDup_key_filter cr_ID). done.
  - intros e [He _]%elem_of_lfilter. by apply K6.
  - intros f [Hf Hg]%elem_of_lfilter. destruct (K7 f Hf) as [Hid Hc]. split; [done |]. intros i Ei.
    rewrite Ei in Hg. specialize (Hc i Ei). apply list_elem_of_fmap in Hc as (e & -> & He).
    apply list_elem_of_fmap_2. by apply elem_of_lfilter.
Qed.

Lemma store_ok_minted (s : store D) : store_ok s -> findings_minted s.
Proof.
  intros Hok f Hf. destruct (ok_findings s Hok f Hf) as [Hid Hc]. split; [done |]. intros i Ei.
  specialize (Hc i Ei). apply list_elem_of_fmap in Hc as (e & -> & He). by apply Hok.
Qed.

(** Rows appended for an answer that exists keep the schema's constraints. *)
Lemma extends_ok (s s' : store D) rows fs answer added :
  store_ok s -> answer ∈ map an_ID (s_answers s) -> acts_pos added -> extends s s' rows fs ->
  Forall2 (written_for answer) added rows -> store_ok s'.
Proof.
  intros Hok Ha Hpos He Hw. pose proof (ext_next _ _ _ _ He) as Hn.
  assert (forall r, r ∈ rows -> exists e, e ∈ added /\ written_for answer e r) as Hrows.
  { intros r Hr. apply list_elem_of_lookup in Hr as [i Hi]. destruct (Forall2_lookup_r _ _ _ _ _ Hw Hi) as (e & Hei & Hwe).
    exists e. split; [by apply (list_elem_of_lookup_2 _ i) | done]. }
  split.
  - rewrite (ext_answers _ _ _ _ He). apply Hok.
  - rewrite (ext_answers _ _ _ _ He). apply Hok.
  - rewrite (ext_answers _ _ _ _ He), (ext_answered _ _ _ _ He). apply Hok.
  - rewrite (ext_answers _ _ _ _ He). intros a Hin. pose proof (ok_answers_next s Hok a Hin). lia.
  - rewrite (ext_acts _ _ _ _ He), map_app. apply NoDup_app. split; [apply Hok | split; [| apply He]].
    intros i (e & -> & Hin)%list_elem_of_fmap (r & E & Hr)%list_elem_of_fmap.
    destruct (ok_acts s Hok e Hin) as [Hlt _]. pose proof (ext_fresh _ _ _ _ He r Hr). lia.
  - intros e. rewrite (ext_acts _ _ _ _ He), (ext_answers _ _ _ _ He). intros [Hin|Hin]%elem_of_app.
    + destruct (ok_acts s Hok e Hin) as (H1' & H2' & H3'). split; [lia | done].
    + destruct (Hrows e Hin) as (x & Hx & (W1 & _ & _ & W4 & W5)). pose proof (ext_fresh _ _ _ _ He e Hin).
      split; [lia |]. split; [by rewrite W1 |]. rewrite W4, W5. unfold acts_pos in Hpos. rewrite Forall_forall in Hpos.
      specialize (Hpos x Hx). by destruct (ca_Ratio x).
  - intros f. rewrite (ext_findings _ _ _ _ He), (ext_acts _ _ _ _ He), map_app. intros [Hin|Hin]%elem_of_app.
    + destruct (ok_findings s Hok f Hin) as [Hid Hc]. split; [lia |]. intros i Ei. apply elem_of_app. left. by apply Hc.
    + pose proof (ext_minted _ _ _ _ He f Hin). split; [lia |]. intros i Ei. apply elem_of_app. right.
      assert (Some i ∈ map fd_CorpActID fs) as Hi by (rewrite <- Ei; by apply list_elem_of_fmap_2).
      rewrite (ext_named _ _ _ _ He) in Hi. apply list_elem_of_fmap in Hi as (x & [= ->] & [Hx _]%elem_of_lfilter).
      by apply list_elem_of_fmap_2.
Qed.

(** The actions of an answer other than [id]. *)
Definition others (id : uuid) (rows : list (CorpActRow D)) : list (CorpActRow D) :=
  List.filter (fun e => negb (of_answer id e)) rows.

(** What [writeAnswer] leaves of [s] when it writes [k] over the answer [id]:
    [kept] are the stored actions it keeps, [added] the rows it writes, and
    [fs] the findings. *)
Record answer_written (s s' : store D) (id : uuid) (k : answerKey D) (t : uuid)
    (kept added : list (CorpActRow D)) (fs : list Finding) : Prop := {
  wr_ok : store_ok s';
  wr_row : row_of id k t ∈ s_answers s';
  wr_answered : s_answered s' = s_answered s;
  wr_other_answers a : is_answer (k_Source k) t a = false -> a ∈ s_answers s' <-> a ∈ s_answers s;
  wr_acts : List.filter (of_answer id) (s_acts s') ≡ₚ kept ++ added;
  wr_other_acts : others id (s_acts s') = others id (s_acts s);
  wr_holds : holds_acts (kept ++ added) (judged (k_Acts k));
  wr_kept e : e ∈ kept -> e ∈ s_acts s;
  wr_added e : e ∈ added -> cr_Decision e = None /\ forall r, r ∈ s_acts s -> cr_ID r <> cr_ID e;
  wr_dropped e r x : e ∈ s_acts s -> of_answer id e = true -> e ∉ kept -> r ∈ added -> ratio_pos (ca_Ratio x) ->
    repeats r x = true -> repeats e x = false;
  wr_findings : s_findings s' = List.filter (fun f => match fd_CorpActID f with Some i => bool_decide (i ∈ map cr_ID (s_acts s')) | None => true end) (s_findings s) ++ fs;
  wr_named : map fd_CorpActID fs = map (fun e => Some (cr_ID e)) (List.filter (fun e => negb (cr_Handled e)) added);
}.

Lemma of_answer_split (f : CorpActRow D -> bool) id rows :
  (forall e, e ∈ rows -> f e = false -> of_answer id e = true) -> others id (List.filter f rows) = others id rows.
Proof.
  unfold others. induction rows as [|e rows IH]; intros Hf; simpl; [done |].
  assert (others id (List.filter f rows) = others id rows) as IH' by (apply IH; intros x Hx; apply Hf; by right).
  unfold others in IH'. destruct (f e) eqn:E; simpl.
  - destruct (of_answer id e); simpl; by rewrite IH'.
  - rewrite (Hf e) by (done || left). simpl. done.
Qed.

Lemma writeAnswer_write (s : store D) k t :
  store_ok s -> s_answered s !! k_ID k = Some (k_AnsweredAt k) -> acts_pos (k_Acts k) ->
  match answer_row s k t with
  | None => later_stored s k t /\ writeAnswer s k t = Ok (s, 0%nat)
  | Some (id, s1, old) => ~ later_stored s k t /\ row_written s s1 id k t /\
      exists s' kept added fs, writeAnswer s k t = Ok (s', length fs) /\ answer_written s s' id k t kept added fs
  end.
Proof.
  intros Hok Hk Hpos. pose proof (answer_row_spec s k t Hok Hk) as Hrow. unfold writeAnswer.
  destruct (answer_row s k t) as [[[id s1] old]|]; [| done]. destruct Hrow as (Hnot & Hrw & Hold).
  split; [done |]. split; [done |].
  destruct (merge old (judged (k_Acts k))) as [gone added] eqn:Em.
  destruct (merge_pairs_of _ _ _ _ Em) as (pairs & lost & M1 & -> & M2 & M3 & M4).
  rewrite delete_if. set (s2 := DeleteCorpActs s1 (map cr_ID lost)).
  pose proof (rw_ok _ _ _ _ _ Hrw) as Hok1. pose proof (DeleteCorpActs_ok s1 (map cr_ID lost) Hok1) as Hok2. fold s2 in Hok2.
  pose proof (judged_pos _ Hpos) as Hjpos.
  assert (acts_pos (pairs.*2 ++ added)) as Hapos by (unfold acts_pos; by rewrite <- M2).
  apply Forall_app in Hapos as [Hapos1 Hapos].
  destruct (add_fold (k_RunID k) id added s2 0%nat (store_ok_minted s2 Hok2) Hapos) as (s' & rows & fs & HF & Hw & He).
  exists s', pairs.*1, rows, fs. split; [done |].
  assert (forall e, e ∈ old <-> e ∈ s_acts s /\ of_answer id e = true) as Holde.
  { intros e. rewrite Hold, elem_of_lfilter. done. }
  assert (NoDup (pairs.*1 ++ lost)) as Hnd.
  { rewrite <- M1, Hold. apply NoDup_lfilter. apply (NoDup_of_key cr_ID), Hok. }
  assert (forall e, e ∈ s_acts s -> cr_ID e ∈ map cr_ID lost -> e ∈ lost) as Hlost.
  { intros e Hes (l & El & Hl)%list_elem_of_fmap. rewrite (NoDup_key _ _ e l (ok_act_ids s Hok)); [done | done | | done].
    apply (Holde l). rewrite M1. apply elem_of_app. by right. }
  assert (s_acts s2 = List.filter (fun e => negb (bool_decide (cr_ID e ∈ map cr_ID lost))) (s_acts s)) as Es2.
  { unfold s2. simpl. by rewrite (rw_acts _ _ _ _ _ Hrw). }
  assert (forall r, r ∈ rows -> exists x, x ∈ added /\ written_for id x r) as Hrows.
  { intros r Hr. apply list_elem_of_lookup in Hr as [i Hi]. destruct (Forall2_lookup_r _ _ _ _ _ Hw Hi) as (x & Hx & Hwx).
    exists x. split; [by apply (list_elem_of_lookup_2 _ i) | done]. }
  assert (List.filter (of_answer id) (s_acts s2) ≡ₚ pairs.*1) as Hkept.
  { apply NoDup_Permutation; [| by apply NoDup_app in Hnd as [? _] |].
    - apply NoDup_lfilter. apply (NoDup_of_key cr_ID), Hok2.
    - intros e. rewrite Es2, !elem_of_lfilter, negb_true_iff, bool_decide_eq_false. split.
      + intros [[Hes Hn] Hid]. assert (e ∈ old) as Heo by (by apply Holde). rewrite M1 in Heo.
        apply elem_of_app in Heo as [?|Hel]; [done |]. exfalso. apply Hn. by apply list_elem_of_fmap_2.
      + intros Hp. assert (e ∈ old) as [Hes Hid]%Holde by (rewrite M1; apply elem_of_app; by left).
        split; [| done]. split; [done |]. intros Hin%Hlost; [| done]. apply NoDup_app in Hnd as (_ & Hnd & _). by apply (Hnd e). }
  assert (s_next s <= s_next s2)%N as Hnext by apply (rw_next _ _ _ _ _ Hrw).
  split.
  - apply (extends_ok s2 s' rows fs id added); [done | | done | done | done].
    apply list_elem_of_fmap. exists (row_of id k t). split; [done |]. apply (rw_row _ _ _ _ _ Hrw).
  - rewrite (ext_answers _ _ _ _ He). apply (rw_row _ _ _ _ _ Hrw).
  - rewrite (ext_answered _ _ _ _ He). apply (rw_answered _ _ _ _ _ Hrw).
  - rewrite (ext_answers _ _ _ _ He). apply (rw_others _ _ _ _ _ Hrw).
  - rewrite (ext_acts _ _ _ _ He), List.filter_app, Hkept. apply Permutation_app_head.
    rewrite filter_id_all; [done |]. intros r (x & _ & (Hid & _))%Hrows. unfold of_answer. by rewrite Hid, bool_decide_eq_true_2.
  - rewrite (ext_acts _ _ _ _ He), Es2. unfold others at 1. rewrite List.filter_app.
    rewrite (filter_nil_all _ rows), app_nil_r.
    + apply (of_answer_split _ id). intros e Hes Hn%negb_false_iff%bool_decide_eq_true.
      apply Holde. rewrite M1. apply elem_of_app. right. by apply Hlost.
    + intros r (x & _ & (Hid & _))%Hrows. unfold of_answer. by rewrite Hid, bool_decide_eq_true_2.
  - apply (holds_acts_perm _ (pairs.*2 ++ added)); [| by symmetry]. exists (pairs.*1 ++ rows). split; [done |].
    apply Forall2_app.
    + clear -M3. induction M3 as [|[r x] pairs Hx _ IH]; simpl; by constructor.
    + apply Forall2_flip. eapply Forall2_impl; [exact Hw |]. by intros x r (_ & Hr & _).
  - intros e Hp. apply (Holde e). rewrite M1. apply elem_of_app. by left.
  - intros r Hr. destruct (Hrows r Hr) as (x & _ & (_ & _ & Hd & _)). split; [done |]. intros e Hes E.
    destruct (ok_acts s Hok e Hes) as [Hlt _]. pose proof (ext_fresh _ _ _ _ He r Hr). lia.
  - intros e r x Hes Hid Hnk Hr Hx Hrx. destruct (Hrows r Hr) as (y & Hy & (_ & Hry & _ & W4 & W5)).
    destruct (repeats e x) eqn:Eex; [| done]. rewrite <- (M4 e y); [symmetry | | done].
    + unfold acts_pos in Hapos. rewrite Forall_forall in Hapos. pose proof (Hapos y Hy) as Hyp.
      destruct (ok_acts s Hok e Hes) as (_ & _ & Hep).
      apply (repeats_class e r x y); try done. rewrite W4, W5. by destruct (ca_Ratio y).
    + assert (e ∈ old) as Heo by (by apply Holde). rewrite M1 in Heo. by apply elem_of_app in Heo as [?|?].
  - rewrite (ext_findings _ _ _ _ He). f_equal. unfold s2. simpl. rewrite (rw_findings _ _ _ _ _ Hrw).
    apply filter_ext_in. intros f Hf%list_elem_of_In. destruct (fd_CorpActID f) as [i|] eqn:Ei; [| done].
    destruct (ok_findings s Hok f Hf) as [_ Hc]. specialize (Hc i Ei). apply list_elem_of_fmap in Hc as (e & -> & Hes).
    rewrite <- bool_decide_not. apply bool_decide_ext. rewrite (ext_acts _ _ _ _ He), map_app, elem_of_app, Es2.
    split.
    + intros Hn. left. apply list_elem_of_fmap_2. apply elem_of_lfilter. split; [done |]. by rewrite negb_true_iff, bool_decide_eq_false.
    + intros [Hin|Hin] Hg; apply list_elem_of_fmap in Hin as (e' & E & Hin).
      * apply elem_of_lfilter in Hin as [_ Hn]. rewrite <- E, negb_true_iff, bool_decide_eq_false in Hn. done.
      * destruct (ok_acts s Hok e Hes) as [Hlt _]. pose proof (ext_fresh _ _ _ _ He e' Hin). lia.
  - apply (ext_named _ _ _ _ He).
Qed.

End Write.

(** * Properties *)

Section Properties.
Context {D : Type} `{DecimalLaws D}.

(** C38: recording an answer writes nothing when the stored answer is later.
    Otherwise the answer's row states it, the stored actions of the answer are
    the reported ones, each judged and each once, an action the answer repeats
    keeps its row and with it its decision and finding, an action it no longer
    reports goes with its finding, every new unhandled action has a finding of
    its own and only those are counted, and no other answer's row or action
    changes. *)
Theorem writeAnswer_spec (s : store D) k t :
  store_ok s -> s_answered s !! k_ID k = Some (k_AnsweredAt k) -> acts_pos (k_Acts k) ->
  exists s' n, writeAnswer s k t = Ok (s', n) /\ store_ok s' /\
    (later_stored s k t /\ s' = s /\ n = 0%nat \/
     ~ later_stored s k t /\ exists id kept added fs, n = length fs /\ answer_written s s' id k t kept added fs).
Proof.
  intros Hok Hk Hpos. pose proof (writeAnswer_write s k t Hok Hk Hpos) as Hw.
  destruct (answer_row s k t) as [[[id s1] old]|].
  - destruct Hw as (Hnot & _ & s' & kept & added & fs & E & Hw). exists s', (length fs). split; [done |].
    split; [apply Hw |]. right. split; [done |]. by exists id, kept, added, fs.
  - destruct Hw as [Hl E]. exists s, 0%nat. split; [done |]. split; [done |]. by left.
Qed.

(** Recording an answer a second time changes nothing and raises no finding,
    so a retried or repeated fetch loses no decision and repeats no alert. *)
Theorem writeAnswer_again (s s' : store D) k t n :
  store_ok s -> s_answered s !! k_ID k = Some (k_AnsweredAt k) -> acts_pos (k_Acts k) ->
  writeAnswer s k t = Ok (s', n) -> writeAnswer s' k t = Ok (s', 0%nat).
Proof.
  intros Hok Hk Hpos HW. pose proof (writeAnswer_write s k t Hok Hk Hpos) as Hw.
  destruct (answer_row s k t) as [[[id s1] old]|].
  2: { destruct Hw as [_ E]. rewrite E in HW. injection HW as <- <-. done. }
  destruct Hw as (_ & _ & s2 & kept & added & fs & E & Hw). rewrite E in HW. injection HW as -> _.
  pose proof (wr_ok _ _ _ _ _ _ _ _ Hw) as Hok'. pose proof (wr_row _ _ _ _ _ _ _ _ Hw) as Hrow.
  pose proof (GetCorpActAnswer_spec s' (k_Source k) t Hok') as HG. unfold writeAnswer, answer_row.
  assert (is_answer (k_Source k) t (row_of id k t) = true) as Hi by (by apply is_answer_true).
  destruct (GetCorpActAnswer s' (k_Source k) t) as [[id' at_]|]; [| rewrite (HG _ Hrow) in Hi; done].
  destruct HG as (a & Ha & Hia & <- & Hat). rewrite (is_answer_unique s' _ t a (row_of id k t) Hok' Ha Hrow Hia Hi) in *.
  simpl in Hat. rewrite (wr_answered _ _ _ _ _ _ _ _ Hw), Hk in Hat. injection Hat as <-. rewrite Z.ltb_irrefl.
  assert (UpdateCorpActAnswer s' (an_ID (row_of id k t)) (k_ID k) (fst <$> covered (k_Coverage k) (k_AnsweredAt k))
    (snd <$> covered (k_Coverage k) (k_AnsweredAt k)) = s') as ->.
  { unfold UpdateCorpActAnswer, set_answers. destruct s' as [ans acts fnd answered nxt]. simpl in *. f_equal.
    rewrite <- (map_id ans) at 2. apply map_ext_in. intros b Hb%list_elem_of_In. case_bool_decide as Eb; [| done].
    rewrite (NoDup_key an_ID ans b (row_of id k t)); [done | apply (ok_answer_ids _ Hok') | done | done | done]. }
  rewrite (merge_complete (ListAnswerCorpActs s' (an_ID (row_of id k t)))); [done | | by apply judged_pos |].
  - unfold rows_pos, ListAnswerCorpActs. rewrite sort_func_perm. apply Forall_forall. intros r [Hr _]%elem_of_lfilter.
    by apply (ok_acts s' Hok').
  - unfold ListAnswerCorpActs. destruct (wr_holds _ _ _ _ _ _ _ _ Hw) as (l & Hl & Hf). exists l. split; [| done].
    by rewrite sort_func_perm, (wr_acts _ _ _ _ _ _ _ _ Hw).
Qed.

End Properties.

(** * Witnesses *)

Definition ex_store : store fixed :=
  MkStore [MkCorpActAnswer 5 1 "massive" 1 (Some (0 * day_len)) (Some (100 * day_len))]
    [MkCorpActRow 10 5 (40 * day_len) (Fixed 1 0) (Fixed 10 0) (Some "split"%string) true None;
     MkCorpActRow 11 5 (60 * day_len) (Fixed 1000 0) (Fixed 1281 0) None false (Some CorpActDecisionSpinOffPriceFactor);
     MkCorpActRow 12 5 (70 * day_len) (Fixed 1 0) (Fixed 2 0) (Some "split"%string) true None]
    [MkFinding 13 2 FindingKindUnhandledCorpAct None (Some 11%N) None true] {[1%N := 100 * day_len; 3%N := 120 * day_len]} 20.

(** The next answer repeats the first two, states a spin-off more and no longer
    states the third. *)
Definition ex_key : answerKey fixed :=
  MkAnswerKey 3 "massive" 4 (120 * day_len)
    [MkCorpAct (60 * day_len) (MkRatio (Fixed 100 1) (Fixed 1281 0)) "" true;
     MkCorpAct (80 * day_len) (MkRatio (Fixed 1000 0) (Fixed 1253 0)) "split" true;
     MkCorpAct (40 * day_len + 5) (MkRatio (Fixed 2 0) (Fixed 20 0)) "split" true]
    (Some (MkPeriod (0 * day_len) (200 * day_len))).

Definition ex_stored : store fixed :=
  MkStore [MkCorpActAnswer 5 3 "massive" 1 (Some (0 * day_len)) (Some (121 * day_len))]
    [MkCorpActRow 10 5 (40 * day_len) (Fixed 1 0) (Fixed 10 0) (Some "split"%string) true None;
     MkCorpActRow 11 5 (60 * day_len) (Fixed 1000 0) (Fixed 1281 0) None false (Some CorpActDecisionSpinOffPriceFactor);
     MkCorpActRow 20 5 (80 * day_len) (Fixed 1000 0) (Fixed 1253 0) (Some "split"%string) false None]
    [MkFinding 13 2 FindingKindUnhandledCorpAct None (Some 11%N) None true;
     MkFinding 21 4 FindingKindUnhandledCorpAct None (Some 20%N) None false] {[1%N := 100 * day_len; 3%N := 120 * day_len]} 22.

Lemma ex_written : writeAnswer ex_store ex_key 1 = Ok (ex_stored, 1%nat).
Proof. vm_compute. reflexivity. Qed.

Ltac by_cases_of_list :=
  repeat lazymatch goal with
  | |- forall _, _ => intro
  | H : _ ∈ [] |- _ => by apply not_elem_of_nil in H
  | H : _ ∈ _ :: _ |- _ => apply elem_of_cons in H as [-> | H]
  end.

Lemma ex_store_ok : store_ok ex_store.
Proof.
  split; simpl.
  - apply (bool_decide_unpack _). vm_compute. done.
  - apply (bool_decide_unpack _). vm_compute. done.
  - by_cases_of_list. apply (bool_decide_unpack _). vm_compute. done.
  - by_cases_of_list. done.
  - apply (bool_decide_unpack _). vm_compute. done.
  - by_cases_of_list; (split; [done |]; split; [by left | split; vm_compute; reflexivity]).
  - intros f Hf. by_cases_of_list. split; [done |]. intros i [= <-]. right. by left.
Qed.

Lemma ex_key_pos : acts_pos (k_Acts ex_key).
Proof. repeat constructor; vm_compute; reflexivity. Qed.

Lemma writeAnswer_spec_witness :
  store_ok ex_store /\ exists s' n, writeAnswer ex_store ex_key 1 = Ok (s', n) /\ store_ok s'.
Proof.
  split; [exact ex_store_ok |].
  destruct (writeAnswer_spec ex_store ex_key 1 ex_store_ok ltac:(vm_compute; reflexivity) ex_key_pos) as (s' & n & E & Hok & _).
  exists s', n. split; [exact E | exact Hok].
Defined.

Lemma writeAnswer_again_witness : writeAnswer ex_stored ex_key 1 = Ok (ex_stored, 0%nat).
Proof.
  apply (writeAnswer_again ex_store ex_stored ex_key 1 1); [exact ex_store_ok | vm_compute; reflexivity | exact ex_key_pos | exact ex_written].
Defined.
