(* ===== verification/Holding.v ===== *)
(** Holdings, [server/internal/service/holding/holding.go]: the quantities of
    the instruments and groups a user's keys sum to, restated to today by the
    calendars. The names, identifiers and listings beside a holding are read
    through and left out, apart from the listing a key sits under. *)
From S2P Require Import Prelude Types Period Decimal Rows Mic CorpAct Calendar.

(** The sum of a key's transactions that name one instrument, or none, as at one
    date: a row of [ListHoldingKeys]. *)
Record HoldingRow (D : Type) : Type := MkHoldingRow {
  hr_Key : StatedKey;
  hr_InstrID : option uuid;
  hr_AsAt : time;
  hr_Quantity : D;
}.
Arguments MkHoldingRow {D} _ _ _ _.
Arguments hr_Key {D} _.
Arguments hr_InstrID {D} _.
Arguments hr_AsAt {D} _.
Arguments hr_Quantity {D} _.

Inductive HoldingMark : Type :=
| HoldingMarkRaw
| HoldingMarkAdjusted
| HoldingMarkCorpActsProvisional.

#[export] Instance HoldingMark_eq_dec : EqDecision HoldingMark.
Proof. solve_decision. Defined.

Record day (D : Type) : Type := MkDay {
  d_asAt : time;
  d_quantity : D;
}.
Arguments MkDay {D} _ _.
Arguments d_asAt {D} _.
Arguments d_quantity {D} _.

(** The slices [days] and [raw] grow together: [kd_days] holds each day with its
    raw sum. *)
Record keyDays (D : Type) : Type := MkKeyDays {
  kd_key : StatedKey;
  kd_days : list (day D * D);
}.
Arguments MkKeyDays {D} _ _.
Arguments kd_key {D} _.
Arguments kd_days {D} _.

Record sum (D : Type) : Type := MkSum {
  sum_quantity : D;
  sum_keys : list D;
  sum_mark : HoldingMark;
  sum_provisionalFrom : option time;
  sum_gaps : list Period;
}.
Arguments MkSum {D} _ _ _ _ _.
Arguments sum_quantity {D} _.
Arguments sum_keys {D} _.
Arguments sum_mark {D} _.
Arguments sum_provisionalFrom {D} _.
Arguments sum_gaps {D} _.

(** A row of [ListListingNames]: a listing and one ticker that reaches it. *)
Record ListingName : Type := MkListingName {
  ln_ListingID : uuid;
  ln_InstrID : uuid;
  ln_Currency : string;
  ln_TickerID : option uuid;
  ln_Venue : option string;
}.

Record InstrHolding (D : Type) : Type := MkInstrHolding {
  ih_InstrID : uuid;
  ih_AssetClass : AssetClass;
  ih_Sum : sum D;
  (** Each key with its quantity and the listing it sits under. *)
  ih_Keys : list (StatedKey * D * option uuid);
}.
Arguments MkInstrHolding {D} _ _ _ _.
Arguments ih_InstrID {D} _.
Arguments ih_AssetClass {D} _.
Arguments ih_Sum {D} _.
Arguments ih_Keys {D} _.

(** [stating] and the holding it fills. *)
Record GroupHolding (D : Type) : Type := MkGroupHolding {
  gh_AssetClasses : list AssetClass;
  gh_Identifiers : list Identifier;
  gh_Keys : list (StatedKey * D);
}.
Arguments MkGroupHolding {D} _ _ _.
Arguments gh_AssetClasses {D} _.
Arguments gh_Identifiers {D} _.
Arguments gh_Keys {D} _.

Section Holding.
Context {D : Type} `{Decimal D}.

(** * Sums *)

Definition rawSum (ks : list (keyDays D)) : sum D :=
  foldl (fun out k =>
    let '(q, key) := foldl (fun qk d => (dec_Add qk.1 (d_quantity d.1), dec_Add qk.2 d.2))
                       (sum_quantity out, dec_Zero) (kd_days k) in
    MkSum q (sum_keys out ++ [key]) (sum_mark out) (sum_provisionalFrom out) (sum_gaps out))
    (MkSum dec_Zero [] HoldingMarkRaw None []) ks.

(** The most decimal places of a transaction; an exponent is an int32, whose
    negation is taken to be in range. *)
Definition scale_of (ks : list (keyDays D)) : Z :=
  foldl (fun s k => foldl (fun s d => Z.max s (- dec_Exponent (d_quantity d.1))) s (kd_days k)) 0 ks.

(** One turn of the loop over the days of a key: the key's exact sum and the
    earliest uncovered date. *)
Definition restate_day (cal : Answer D) (today : time) (st : Qc * option time) (d : day D * D) : option (Qc * option time) :=
  '(f, ok) ← Factor cal (d_asAt d.1) today;
  let uncovered :=
    if negb ok && match st.2 with None => true | Some u => d_asAt d.1 <? u end then Some (d_asAt d.1) else st.2 in
  Some ((st.1 + dec_Rat (d_quantity d.1) * f)%Qc, uncovered).

Definition restate_key (cal : Answer D) (today : time) (st : list Qc * option time) (k : keyDays D) : option (list Qc * option time) :=
  '(key, uncovered) ← opt_fold (restate_day cal today) (0%Qc, st.2) (kd_days k);
  Some (st.1 ++ [key], uncovered).

Definition restate (cal : Answer D) (ks : list (keyDays D)) (today : time) : option (sum D) :=
  let scale := scale_of ks in
  '(keys, uncovered) ← opt_fold (restate_key cal today) ([], None) ks;
  let quantity := dec_NewFromBigRat (foldl Qcplus 0%Qc keys) scale in
  let shown := map (fun key => dec_NewFromBigRat key scale) keys in
  match uncovered with
  | None => Some (MkSum quantity shown HoldingMarkAdjusted None [])
  | Some u =>
      let from := AddDays u 1 in
      Some (MkSum quantity shown HoldingMarkCorpActsProvisional (Some from)
              (Calendar_Gaps cal (MkPeriod from (AddDays today 1))))
  end.

(** * Holdings of instruments *)

(** The last of [ks] takes the day where it is of the key; else a new one is
    appended. *)
Definition add_day (ks : list (keyDays D)) (k : StatedKey) (d : day D) (raw : D) : list (keyDays D) :=
  match rev ks with
  | kd :: before =>
      if bool_decide (sk_ID (kd_key kd) = sk_ID k)
      then rev before ++ [MkKeyDays (kd_key kd) (kd_days kd ++ [(d, raw)])]
      else ks ++ [MkKeyDays k [(d, raw)]]
  | [] => [MkKeyDays k [(d, raw)]]
  end.

(** A row's quantity in the unit of its holding: cash in its family's unit. *)
Definition unit_quantity (scales : gmap string D) (class : AssetClass) (r : HoldingRow D) : D :=
  match sk_Currency (hr_Key r) with
  | Some c => if bool_decide (class = AssetClassCash) then dec_Mul (hr_Quantity r) (Scale (dec_NewFromInt 1) scales c) else hr_Quantity r
  | None => hr_Quantity r
  end.

Definition held_step (scales : gmap string D) (classOf : gmap uuid AssetClass)
    (held : gmap uuid (list (keyDays D))) (r : HoldingRow D) : gmap uuid (list (keyDays D)) :=
  match hr_InstrID r with
  | None => held
  | Some id =>
      let q := unit_quantity scales (default AssetClassNone (classOf !! id)) r in
      <[id := add_day (default [] (held !! id)) (hr_Key r) (MkDay (hr_AsAt r) q) (hr_Quantity r)]> held
  end.

Definition held_of (scales : gmap string D) (classOf : gmap uuid AssetClass) (rows : list (HoldingRow D)) :
    gmap uuid (list (keyDays D)) :=
  foldl (held_step scales classOf) ∅ rows.

Definition listing (families : Families) (k : StatedKey) (listings : list ListingName) : option uuid :=
  let '(carrier, family) :=
    match sk_ViaTickerID k, sk_ViaVenue k with
    | Some t, Some v =>
        match find_func (fun l => bool_decide (ln_TickerID l = Some t) && bool_decide (ln_Venue l = Some v)) listings with
        | Some l => (Some (ln_ListingID l), ln_Currency l)
        | None => (None, ""%string)
        end
    | _, _ => (None, ""%string)
    end in
  let stated :=
    match sk_Currency k with
    | Some c =>
        let fam := Family families c in
        if negb (bool_decide (fam = ""%string)) && negb (bool_decide (fam = family))
        then find_func (fun l => bool_decide (ln_Currency l = fam)) listings else None
    | None => None
    end in
  match stated with Some l => Some (ln_ListingID l) | None => carrier end.

Definition sorted_ids {A} (m : gmap uuid A) : list uuid := sort_func N.compare (map_to_list m).*1.

Definition nonZero (total : gmap uuid D) : list uuid :=
  delete_func (fun id => dec_IsZero (default dec_Zero (total !! id))) (sorted_ids total).

(** The sum of one instrument's holding. *)
Definition sum_of (classOf : gmap uuid AssetClass) (cals : gmap uuid (Calendar D)) (today : time)
    (id : uuid) (ks : list (keyDays D)) : option (sum D) :=
  if Restated (default AssetClassNone (classOf !! id))
  then restate (default (MkAnswer "" [] []) (c_Answer <$> cals !! id)) ks today
  else Some (rawSum ks).

(** The sums of every holding; [None] where one of them divides by zero. *)
Definition sums_of (classOf : gmap uuid AssetClass) (cals : gmap uuid (Calendar D)) (today : time)
    (held : gmap uuid (list (keyDays D))) : option (gmap uuid (sum D)) :=
  opt_fold (fun out ks => r ← sum_of classOf cals today ks.1 ks.2; Some (<[ks.1 := r]> out)) ∅ (map_to_list held).

Definition instrs (scales : gmap string D) (families : Families) (classOf : gmap uuid AssetClass)
    (cals : gmap uuid (Calendar D)) (listed : gmap uuid (list ListingName)) (now : time) (rows : list (HoldingRow D)) :
    option (list (InstrHolding D)) :=
  let held := held_of scales classOf rows in
  sums ← sums_of classOf cals (Day now) held;
  Some (omap (fun id =>
    r ← sums !! id;
    ks ← held !! id;
    Some (MkInstrHolding id (default AssetClassNone (classOf !! id)) r
      (zip_with (fun k q => (kd_key k, q,
         match sk_ViaTickerID (kd_key k) with Some _ => listing families (kd_key k) (default [] (listed !! id)) | None => None end))
         ks (sum_keys r))))
    (nonZero (sum_quantity <$> sums))).

(** * Holdings of groups *)

Definition fold_key (h : GroupHolding D) (k : StatedKey) : GroupHolding D :=
  MkGroupHolding
    (match sk_AssetClass k with Some c => append_unique (gh_AssetClasses h) c | None => gh_AssetClasses h end)
    (foldl append_unique (gh_Identifiers h) (sk_Identifiers k)) (gh_Keys h).

(** The variables of the loop: the totals, what the groups state, and the key
    whose rows are being summed. *)
Record grouping : Type := MkGrouping {
  gp_total : gmap uuid D;
  gp_stated : gmap uuid (GroupHolding D);
  gp_key : option (StatedKey * D);
}.

Definition add_key (h : GroupHolding D) (k : StatedKey) (q : D) : GroupHolding D :=
  MkGroupHolding (gh_AssetClasses h) (gh_Identifiers h) (gh_Keys h ++ [(k, q)]).

Definition flush (s : grouping) : grouping :=
  match gp_key s with
  | Some (k, q) =>
      match sk_GroupID k with
      | Some g => MkGrouping (gp_total s) (alter (fun h => add_key h k q) g (gp_stated s)) None
      | None => MkGrouping (gp_total s) (gp_stated s) None
      end
  | None => s
  end.

(** A dated key without a group. *)
Definition group_step (s : grouping) (r : HoldingRow D) : res StatedKey grouping :=
  let k := hr_Key r in
  match hr_InstrID r, sk_GroupID k, sk_ViaTickerID k with
  | Some _, _, _ => Ok s
  | None, None, Some _ => Err k
  | None, None, None => Ok s
  | None, Some g, _ =>
      let s :=
        match gp_key s with
        | Some (k', _) => if bool_decide (sk_ID k' = sk_ID k) then s else flush s
        | None => s
        end in
      let '(key, q, stated) :=
        match gp_key s with
        | Some (k', q) => (k', q, gp_stated s)
        | None => (k, dec_Zero, <[g := fold_key (default (MkGroupHolding [] [] []) (gp_stated s !! g)) k]> (gp_stated s))
        end in
      Ok (MkGrouping (<[g := dec_Add (default dec_Zero (gp_total s !! g)) (hr_Quantity r)]> (gp_total s)) stated
            (Some (key, dec_Add q (hr_Quantity r))))
  end.

Definition AssetClass_number (c : AssetClass) : Z :=
  match c with
  | AssetClassNone => 0 | AssetClassUnknown => 1 | AssetClassCash => 2 | AssetClassSecurity => 3 | AssetClassEquity => 4
  | AssetClassStock => 5 | AssetClassEtf => 6 | AssetClassMutualFund => 7 | AssetClassFixedIncome => 8
  | AssetClassDerivative => 9 | AssetClassOption => 10 | AssetClassFuture => 11
  end.

(** The holdings of groups, each with its id and quantity. *)
Definition groups (rows : list (HoldingRow D)) : res StatedKey (list (uuid * D * GroupHolding D)) :=
  match res_fold group_step (MkGrouping ∅ ∅ None) rows with
  | Err k => Err k
  | Ok s =>
      let s := flush s in
      Ok (map (fun id =>
        let h := default (MkGroupHolding [] [] []) (gp_stated s !! id) in
        (id, default dec_Zero (gp_total s !! id),
         MkGroupHolding (sort_func (cmp_on AssetClass_number Z.compare) (gh_AssetClasses h)) (gh_Identifiers h) (gh_Keys h)))
        (nonZero (gp_total s)))
  end.

End Holding.

(** * Lemmas *)

Section Lemmas.
Context {D : Type} `{DecimalLaws D}.

Fixpoint total (l : list Qc) : Qc :=
  match l with
  | [] => 0%Qc
  | x :: l' => (x + total l')%Qc
  end.

Lemma total_app l k : total (l ++ k) = (total l + total k)%Qc.
Proof. induction l as [|x l IH]; simpl; [ring |]. rewrite IH. ring. Qed.

Lemma foldl_total q l : foldl Qcplus q l = (q + total l)%Qc.
Proof. revert q. induction l as [|x l IH]; intros q; simpl; [ring |]. rewrite IH. ring. Qed.

(** ** Rounding *)

(** A whole number of units in the last of [p] places. *)
Definition multiple (p : Z) (x : Qc) : Prop := exists c, x = (Qc_of_Z c * pow10 (- p))%Qc.

(** [x] is [e] rounded to [p] places: a multiple, at most half a unit away, and
    [e] itself where [e] is a multiple. *)
Definition rounds (p : Z) (x e : Qc) : Prop :=
  multiple p x /\ (Qc_of_Z 2 * (x - e) <= pow10 (- p))%Qc /\ (- pow10 (- p) <= Qc_of_Z 2 * (x - e))%Qc /\
  (multiple p e -> x = e).

Lemma multiple_total p l : Forall (multiple p) l -> multiple p (total l).
Proof.
  induction 1 as [|x l [c ->] _ [d IH]]; simpl; [exists 0; rewrite Z2Qc_inj_0; ring |].
  exists (c + d). rewrite Z2Qc_inj_add, IH. ring.
Qed.

Lemma Qc_cancel_le (a b : Qc) u : (0 < u)%Qc -> (a * u <= b * u)%Qc -> (a <= b)%Qc.
Proof. intros Hu Hab. by apply Qcmult_lt_0_le_reg_r in Hab. Qed.

Lemma rounds_exact p c d :
  (Qc_of_Z 2 * (Qc_of_Z c * pow10 (- p) - Qc_of_Z d * pow10 (- p)) <= pow10 (- p))%Qc ->
  (- pow10 (- p) <= Qc_of_Z 2 * (Qc_of_Z c * pow10 (- p) - Qc_of_Z d * pow10 (- p)))%Qc -> c = d.
Proof.
  intros H1 H2. pose proof (pow10_pos (- p)) as Hpos. set (u := pow10 (- p)) in *.
  assert (2 * (c - d) <= 1).
  { apply Z2Qc_inj_le. apply (Qc_cancel_le _ _ u Hpos). rewrite Z2Qc_inj_mul, Z2Qc_inj_sub, Z2Qc_inj_1.
    replace (Qc_of_Z 2 * (Qc_of_Z c - Qc_of_Z d) * u)%Qc with (Qc_of_Z 2 * (Qc_of_Z c * u - Qc_of_Z d * u))%Qc by ring.
    by rewrite Qcmult_1_l. }
  assert (- (1) <= 2 * (c - d)).
  { apply Z2Qc_inj_le. apply (Qc_cancel_le _ _ u Hpos). rewrite Z2Qc_inj_mul, Z2Qc_inj_sub, Z2Qc_inj_opp, Z2Qc_inj_1.
    replace (Qc_of_Z 2 * (Qc_of_Z c - Qc_of_Z d) * u)%Qc with (Qc_of_Z 2 * (Qc_of_Z c * u - Qc_of_Z d * u))%Qc by ring.
    replace (- (1) * u)%Qc with (- u)%Qc by ring. done. }
  lia.
Qed.

Lemma NewFromBigRat_rounds q p : 0 <= p -> rounds p (dec_Rat (dec_NewFromBigRat (D := D) q p)) q.
Proof.
  intros Hp. destruct (dec_NewFromBigRat_step q p Hp) as [c Hc]. destruct (dec_NewFromBigRat_near q p Hp) as [H1 H2].
  split; [by exists c |]. split; [done |]. split; [done |]. intros [d ->]. rewrite Hc in *.
  by rewrite (rounds_exact p c d).
Qed.

Lemma scale_days s (ds : list (day D * D)) :
  s <= foldl (fun s d => Z.max s (- dec_Exponent (d_quantity d.1))) s ds /\
  forall d, d ∈ ds -> - dec_Exponent (d_quantity d.1) <= foldl (fun s d => Z.max s (- dec_Exponent (d_quantity d.1))) s ds.
Proof.
  revert s. induction ds as [|d ds IH]; intros s; simpl; [split; [lia | by intros d []%not_elem_of_nil] |].
  destruct (IH (Z.max s (- dec_Exponent (d_quantity d.1)))) as [I1 I2]. split; [lia |].
  intros e [->|He]%elem_of_cons; [lia | by apply I2].
Qed.

Lemma scale_of_spec (ks : list (keyDays D)) :
  0 <= scale_of ks /\ forall k d, k ∈ ks -> d ∈ kd_days k -> - dec_Exponent (d_quantity d.1) <= scale_of ks.
Proof.
  unfold scale_of. generalize 0 as s. induction ks as [|k ks IH]; intros s; simpl; [split; [lia | by intros k d []%not_elem_of_nil] |].
  destruct (scale_days s (kd_days k)) as [S1 S2]. destruct (IH (foldl (fun s d => Z.max s (- dec_Exponent (d_quantity d.1))) s (kd_days k))) as [I1 I2].
  split; [lia |]. intros k' d [->|Hk]%elem_of_cons Hd; [specialize (S2 d Hd); lia | by apply (I2 k' d)].
Qed.

Lemma pow10_multiple p e : - e <= p -> exists c, pow10 e = (Qc_of_Z c * pow10 (- p))%Qc.
Proof.
  intros Hp. exists (10 ^ (e + p)). rewrite <- pow10_nat by lia. rewrite <- pow10_add. f_equal. lia.
Qed.

Lemma quantity_multiple (ks : list (keyDays D)) k d : k ∈ ks -> d ∈ kd_days k -> multiple (scale_of ks) (dec_Rat (d_quantity d.1)).
Proof.
  intros Hk Hd. destruct (scale_of_spec ks) as [_ Hs]. specialize (Hs k d Hk Hd).
  destruct (dec_Exponent_spec (d_quantity d.1)) as [c Hc]. destruct (pow10_multiple _ _ Hs) as [e He].
  exists (c * e). rewrite Hc, He, Z2Qc_inj_mul. ring.
Qed.

(** ** Restating *)

Definition days_of (ks : list (keyDays D)) : list (day D * D) := concat (map kd_days ks).

(** The factor of a day, and whether the calendar covers it. *)
Definition day_factor (cal : Answer D) (today : time) (d : day D * D) : Qc :=
  match Factor cal (d_asAt d.1) today with Some (f, _) => f | None => 0%Qc end.

Definition day_covered (cal : Answer D) (today : time) (d : day D * D) : bool :=
  match Factor cal (d_asAt d.1) today with Some (_, ok) => ok | None => false end.

Definition restated_days (cal : Answer D) (today : time) (ds : list (day D * D)) : Qc :=
  total (map (fun d => (dec_Rat (d_quantity d.1) * day_factor cal today d)%Qc) ds).

(** The earliest of [u] and the dates of the uncovered days. *)
Definition earliest (cal : Answer D) (today : time) (u : option time) (ds : list (day D * D)) : option time :=
  foldl (fun u d => if negb (day_covered cal today d) && match u with None => true | Some u => d_asAt d.1 <? u end
                    then Some (d_asAt d.1) else u) u ds.

Context (cal : Answer D) (today : time) (Hacts : Forall act_ok (aw_Acts cal)) (Hcov : Forall p_nonempty (aw_Coverage cal)).

Lemma Factor_total asAt : exists f ok, Factor cal asAt today = Some (f, ok).
Proof. rewrite Factor_eq by done. eauto. Qed.

Lemma restate_days_eq ds q u :
  opt_fold (restate_day cal today) (q, u) ds = Some ((q + restated_days cal today ds)%Qc, earliest cal today u ds).
Proof.
  revert q u. induction ds as [|d ds IH]; intros q u; simpl; [unfold restated_days; simpl; do 2 f_equal; ring |].
  unfold restate_day at 1. destruct (Factor_total (d_asAt d.1)) as (f & ok & E). rewrite E. simpl. rewrite IH. f_equal. f_equal.
  - unfold restated_days. simpl. unfold day_factor at 2. rewrite E. ring.
  - unfold day_covered. by rewrite E.
Qed.

Lemma restate_keys_eq ks qs u :
  opt_fold (restate_key cal today) (qs, u) ks =
    Some (qs ++ map (fun k => restated_days cal today (kd_days k)) ks, earliest cal today u (days_of ks)).
Proof.
  revert qs u. induction ks as [|k ks IH]; intros qs u; simpl; [by rewrite app_nil_r |].
  unfold restate_key at 1. rewrite restate_days_eq. simpl. rewrite IH. f_equal. f_equal.
  - rewrite <- app_assoc. simpl. repeat f_equal. ring.
  - unfold days_of, earliest. simpl. by rewrite foldl_app.
Qed.

Lemma earliest_spec u ds :
  match earliest cal today u ds with
  | None => u = None /\ forall d, d ∈ ds -> day_covered cal today d = true
  | Some t => (u = Some t \/ exists d, d ∈ ds /\ day_covered cal today d = false /\ d_asAt d.1 = t) /\
      (forall u', u = Some u' -> t <= u') /\ forall d, d ∈ ds -> day_covered cal today d = false -> t <= d_asAt d.1
  end.
Proof.
  revert u. induction ds as [|d ds IH]; intros u; simpl.
  { destruct u as [t|]; [| split; [done | by intros d []%not_elem_of_nil]].
    split; [by left |]. split; [intros ? [= ->]; lia | by intros d []%not_elem_of_nil]. }
  set (u' := if _ && _ then _ else u). specialize (IH u').
  assert ((u' = u /\ (day_covered cal today d = true \/ exists t, u = Some t /\ t <= d_asAt d.1)) \/
    (u' = Some (d_asAt d.1) /\ day_covered cal today d = false /\ forall t, u = Some t -> d_asAt d.1 <= t)) as Hu.
  { unfold u'. destruct (day_covered cal today d); simpl; [by left; auto |]. destruct u as [t|]; [| by right].
    destruct (Z.ltb_spec (d_asAt d.1) t); [right | left; split; [done | right; by exists t]].
    split; [done |]. split; [done |]. intros ? [= <-]. lia. }
  destruct Hu as [[-> Hd]|(-> & Hd & Ht)]; destruct (earliest _ _ _ ds) as [t|].
  - destruct IH as (H1' & H2' & H3'). split; [| split; [done |]].
    + destruct H1' as [?|(e & He & ?)]; [by left | right; exists e; split; [by right | done]].
    + intros e [->|He]%elem_of_cons Hc; [| by apply H3']. destruct Hd as [Hd|(t' & Et & Hle)]; [congruence |].
      specialize (H2' t' Et). lia.
  - destruct IH as [-> Hall]. split; [done |]. intros e [->|He]%elem_of_cons; [| by apply Hall].
    destruct Hd as [Hd|(t' & Et & _)]; [done | discriminate].
  - destruct IH as (H1' & H2' & H3'). specialize (H2' _ eq_refl). split; [| split].
    + right. destruct H1' as [[= <-]|(e & He & ?)]; [exists d; split; [by left | done] | exists e; split; [by right | done]].
    + intros t' Et. specialize (Ht t' Et). lia.
    + intros e [->|He]%elem_of_cons Hc; [done | by apply H3'].
  - by destruct IH.
Qed.

End Lemmas.

(** ** Counting rows *)

Section Counting.
Context {D : Type} `{DecimalLaws D}.

(** The sum of the rows that [f] picks. *)
Definition rows_total (f : HoldingRow D -> bool) (rows : list (HoldingRow D)) : Qc :=
  total (map (fun r => dec_Rat (hr_Quantity r)) (List.filter f rows)).

Lemma rows_total_snoc f rows r :
  rows_total f (rows ++ [r]) = (rows_total f rows + (if f r then dec_Rat (hr_Quantity r) else 0))%Qc.
Proof.
  unfold rows_total. rewrite List.filter_app, map_app, total_app. simpl. destruct (f r); simpl; ring.
Qed.

Definition of_instr (id : uuid) (r : HoldingRow D) : bool := bool_decide (hr_InstrID r = Some id).

Definition of_group (g : uuid) (r : HoldingRow D) : bool :=
  bool_decide (hr_InstrID r = None) && bool_decide (sk_GroupID (hr_Key r) = Some g).

(** A dated key whose transactions name nothing must have a group. *)
Definition defect (r : HoldingRow D) : bool :=
  bool_decide (hr_InstrID r = None) && bool_decide (sk_GroupID (hr_Key r) = None) &&
  negb (bool_decide (sk_ViaTickerID (hr_Key r) = None)).

Definition keys_total (h : GroupHolding D) : Qc := total (map (fun kq => dec_Rat kq.2) (gh_Keys h)).

Definition no_holding : GroupHolding D := MkGroupHolding [] [] [].

(** The quantity of the key being summed, where it is of the group. *)
Definition open_total (g : uuid) (o : option (StatedKey * D)) : Qc :=
  match o with Some (k, q) => if bool_decide (sk_GroupID k = Some g) then dec_Rat q else 0%Qc | None => 0%Qc end.

Definition group_inv (rows : list (HoldingRow D)) (s : grouping) : Prop :=
  (forall g, dec_Rat (default dec_Zero (gp_total s !! g)) = rows_total (of_group g) rows) /\
  (forall g, (keys_total (default no_holding (gp_stated s !! g)) + open_total g (gp_key s))%Qc = rows_total (of_group g) rows) /\
  (forall k q, gp_key s = Some (k, q) -> (exists r, r ∈ rows /\ hr_Key r = k) /\ forall g, sk_GroupID k = Some g -> is_Some (gp_stated s !! g)).

Lemma flush_inv rows s : group_inv rows s -> group_inv rows (flush s) /\ gp_key (flush s) = None.
Proof.
  intros Hinv. pose proof Hinv as (I1 & I2 & I3). unfold flush. destruct (gp_key s) as [[k q]|] eqn:Ek; [| done].
  destruct (I3 k q eq_refl) as [_ Hst]. destruct (sk_GroupID k) as [g|] eqn:Eg; simpl; (split; [| done]).
  - split; [done |]. split; [| done]. intros g'. rewrite <- I2. simpl. destruct (decide (g = g')) as [<-|Hne].
    + rewrite lookup_alter_eq. destruct (Hst g eq_refl) as [h Hh]. rewrite Hh. simpl. unfold keys_total. simpl.
      rewrite map_app, total_app, bool_decide_eq_true_2 by done. simpl. ring.
    + rewrite lookup_alter_ne, bool_decide_eq_false_2 by congruence. done.
  - split; [done |]. split; [| done]. intros g'. rewrite <- I2. simpl. by rewrite bool_decide_eq_false_2 by congruence.
Qed.

Lemma group_step_inv rows s r :
  (forall a b, a ∈ rows ++ [r] -> b ∈ rows ++ [r] -> sk_ID (hr_Key a) = sk_ID (hr_Key b) -> hr_Key a = hr_Key b) ->
  group_inv rows s ->
  if defect r then group_step s r = Err (hr_Key r) else exists s', group_step s r = Ok s' /\ group_inv (rows ++ [r]) s'.
Proof.
  intros Hkeys Hinv. unfold group_step, defect.
  assert (forall s, group_inv rows s -> (forall g, of_group g r = false) -> group_inv (rows ++ [r]) s) as Hskip.
  { intros s' (I1 & I2 & I3) Hno. split; [| split].
    - intros g. rewrite rows_total_snoc, Hno, I1. ring.
    - intros g. rewrite rows_total_snoc, Hno, I2. ring.
    - intros k q E. destruct (I3 k q E) as [(a & Ha & Ea) Hs]. split; [| done]. exists a. split; [apply elem_of_app; by left | done]. }
  unfold of_group in Hskip.
  destruct (hr_InstrID r) as [i|] eqn:Ei; simpl; [exists s; split; [done | by apply Hskip] |].
  destruct (sk_GroupID (hr_Key r)) as [g|] eqn:Eg; simpl.
  2: { destruct (sk_ViaTickerID (hr_Key r)); simpl; [done |]. exists s. split; [done |]. by apply Hskip. }
  clear Hskip. set (s0 := match gp_key s with Some (k', _) => _ | None => s end).
  assert (group_inv rows s0 /\ (gp_key s0 = None \/ exists q, gp_key s0 = Some (hr_Key r, q))) as [(I1 & I2 & I3) Hopen].
  { unfold s0. destruct (gp_key s) as [[k' q']|] eqn:Ek; [| by split; [| left]].
    destruct (decide (sk_ID k' = sk_ID (hr_Key r))) as [Eid|Eid];
      [rewrite (bool_decide_eq_true_2 _ Eid) | rewrite (bool_decide_eq_false_2 _ Eid)].
    - split; [done |]. right. exists q'. destruct Hinv as (_ & _ & I3). destruct (I3 k' q' Ek) as [(a & Ha & <-) _].
      rewrite Ek. do 2 f_equal. apply Hkeys; [apply elem_of_app; by left | apply elem_of_app; right; by left | done].
    - destruct (flush_inv rows s Hinv). split; [done | by left]. }
  clearbody s0.
  assert (forall g', of_group g' r = bool_decide (g = g')) as Hof.
  { intros g'. unfold of_group. rewrite Ei, Eg. simpl. apply bool_decide_ext. naive_solver. }
  destruct Hopen as [Ek|[q Ek]]; rewrite Ek in *; eexists; (split; [reflexivity |]).
  - split; [| split]; simpl.
    + intros g'. rewrite rows_total_snoc, Hof, <- I1. case_bool_decide as E.
      * subst. rewrite lookup_insert_eq. simpl. by rewrite dec_Rat_Add.
      * rewrite lookup_insert_ne by done. ring.
    + intros g'. rewrite rows_total_snoc, Hof, <- I2. simpl. rewrite Eg. destruct (decide (g = g')) as [<-|Hne].
      * rewrite lookup_insert_eq, !bool_decide_eq_true_2, dec_Rat_Add, dec_Rat_Zero by done. unfold keys_total, no_holding. simpl. ring.
      * rewrite lookup_insert_ne, !bool_decide_eq_false_2 by congruence. ring.
    + intros k q [= <- <-]. split; [exists r; split; [apply elem_of_app; right; by left | done] |].
      intros g' [= <-]%(eq_trans (eq_sym Eg)). rewrite lookup_insert_eq. by eexists.
  - split; [| split]; simpl.
    + intros g'. rewrite rows_total_snoc, Hof, <- I1. case_bool_decide as E.
      * subst. rewrite lookup_insert_eq. simpl. by rewrite dec_Rat_Add.
      * rewrite lookup_insert_ne by done. ring.
    + intros g'. rewrite rows_total_snoc, Hof, <- I2. simpl. rewrite Eg.
      destruct (decide (g = g')) as [->|Hne].
      * rewrite !bool_decide_eq_true_2, dec_Rat_Add by done. ring.
      * rewrite !bool_decide_eq_false_2 by congruence. ring.
    + intros k q' [= <- <-]. split; [exists r; split; [apply elem_of_app; right; by left | done] |]. by apply (I3 _ q).
Qed.

Lemma group_fold rows : forall rows0 s,
  (forall a b, a ∈ rows0 ++ rows -> b ∈ rows0 ++ rows -> sk_ID (hr_Key a) = sk_ID (hr_Key b) -> hr_Key a = hr_Key b) ->
  group_inv rows0 s ->
  match res_fold group_step s rows with
  | Err k => exists r, r ∈ rows /\ defect r = true /\ hr_Key r = k
  | Ok s' => group_inv (rows0 ++ rows) s' /\ forall r, r ∈ rows -> defect r = false
  end.
Proof.
  induction rows as [|r rows IH]; intros rows0 s Hkeys Hinv; simpl.
  { rewrite app_nil_r. split; [done | by intros r []%not_elem_of_nil]. }
  pose proof (group_step_inv rows0 s r) as Hstep. destruct (defect r) eqn:Ed.
  - rewrite Hstep; [exists r; split; [by left | done] | | done]. intros a b Ha Hb. apply Hkeys; set_solver.
  - destruct Hstep as (s' & -> & Hs'); [| done |]. { intros a b Ha Hb. apply Hkeys; set_solver. }
    specialize (IH (rows0 ++ [r]) s'). rewrite <- app_assoc in IH. specialize (IH Hkeys Hs').
    destruct (res_fold group_step s' rows).
    + destruct IH as [I1 I2]. split; [done |]. intros r' [->|Hr]%elem_of_cons; [done | by apply I2].
    + destruct IH as (r' & Hr & ?). exists r'. split; [by right | done].
Qed.

Lemma elem_of_nonZero (m : gmap uuid D) id :
  id ∈ nonZero m <-> is_Some (m !! id) /\ dec_Rat (default dec_Zero (m !! id)) <> 0%Qc.
Proof.
  unfold nonZero. rewrite elem_of_delete_func. unfold sorted_ids. rewrite elem_of_sort_func, list_elem_of_fmap.
  rewrite <- not_true_iff_false, dec_IsZero_spec. split.
  - intros [([i q] & -> & Hq%elem_of_map_to_list) Hz]. split; [by exists q | done].
  - intros [[q Hq] Hz]. split; [| done]. exists (id, q). split; [done |]. by apply elem_of_map_to_list.
Qed.

End Counting.

(** ** The holdings of instruments *)

Section Listing.
Context {D : Type} `{DecimalLaws D}.

Lemma restate_ok (cal : Answer D) (ks : list (keyDays D)) today :
  Forall act_ok (aw_Acts cal) -> Forall p_nonempty (aw_Coverage cal) ->
  let p := scale_of ks in
  exists r, restate cal ks today = Some r /\
    rounds p (dec_Rat (sum_quantity r)) (restated_days cal today (days_of ks)) /\
    Forall2 (fun q k => rounds p (dec_Rat q) (restated_days cal today (kd_days k))) (sum_keys r) ks /\
    ((forall d, d ∈ days_of ks -> day_factor cal today d = 1%Qc) ->
       dec_Rat (sum_quantity r) = total (map (fun d => dec_Rat (d_quantity d.1)) (days_of ks))) /\
    match sum_provisionalFrom r with
    | None => sum_mark r = HoldingMarkAdjusted /\ sum_gaps r = [] /\ forall d, d ∈ days_of ks -> day_covered cal today d = true
    | Some from => sum_mark r = HoldingMarkCorpActsProvisional /\
        sum_gaps r = Gaps (aw_Coverage cal) (MkPeriod from (AddDays today 1)) /\
        (exists d, d ∈ days_of ks /\ day_covered cal today d = false /\ from = AddDays (d_asAt d.1) 1) /\
        forall d, d ∈ days_of ks -> day_covered cal today d = false -> from <= AddDays (d_asAt d.1) 1
    end.
Proof.
  intros Hacts Hcov p. unfold restate. rewrite restate_keys_eq by done. simpl. fold p.
  assert (foldl Qcplus 0%Qc (map (fun k => restated_days cal today (kd_days k)) ks) = restated_days cal today (days_of ks)) as ->.
  { rewrite foldl_total. unfold days_of. induction ks as [|k ks IH]; simpl; [unfold restated_days; simpl; ring |].
    unfold restated_days in *. rewrite map_app, total_app. rewrite Qcplus_0_l in *. by rewrite IH. }
  destruct (scale_of_spec ks) as [Hp _]. fold p in Hp.
  pose proof (NewFromBigRat_rounds (restated_days cal today (days_of ks)) p Hp) as Hround.
  assert (Forall2 (fun q k => rounds p (dec_Rat q) (restated_days cal today (kd_days k)))
    (map (fun key => dec_NewFromBigRat key p) (map (fun k => restated_days cal today (kd_days k)) ks)) ks) as Hkeys.
  { clear Hround. rewrite map_map. revert Hp. generalize p as p'. intros p' Hp. clear p. induction ks as [|k ks IH]; simpl; constructor; [by apply NewFromBigRat_rounds | done]. }
  assert ((forall d, d ∈ days_of ks -> day_factor cal today d = 1%Qc) ->
    dec_Rat (dec_NewFromBigRat (D := D) (restated_days cal today (days_of ks)) p) = total (map (fun d => dec_Rat (d_quantity d.1)) (days_of ks))) as Hone.
  { intros Hone. assert (restated_days cal today (days_of ks) = total (map (fun d => dec_Rat (d_quantity d.1)) (days_of ks))) as E.
    { unfold restated_days. f_equal. apply map_ext_in. intros d Hd%list_elem_of_In. rewrite Hone by done. ring. }
    rewrite E in *. apply Hround. apply multiple_total, Forall_fmap, Forall_forall. intros d Hd.
    unfold days_of in Hd. apply elem_of_concat_map in Hd as (k & Hk & Hd). by apply (quantity_multiple ks k). }
  pose proof (earliest_spec cal today None (days_of ks)) as Hu. destruct (earliest cal today None (days_of ks)) as [u|].
  - eexists. split; [reflexivity |]. simpl. do 3 (split; [done |]). split; [done |]. split; [done |].
    destruct Hu as ([?|(d & Hd & Hc & <-)] & _ & Hmin); [done |]. split; [by exists d |].
    intros e He Hce. specialize (Hmin e He Hce). unfold AddDays. lia.
  - eexists. split; [reflexivity |]. simpl. do 3 (split; [done |]). split; [done |]. split; [done |]. by apply Hu.
Qed.

(** The days of [ks], each with its key. *)
Definition keyed (ks : list (keyDays D)) : list (StatedKey * (day D * D)) :=
  concat (map (fun k => map (pair (kd_key k)) (kd_days k)) ks).

Lemma keyed_app ks ks' : keyed (ks ++ ks') = keyed ks ++ keyed ks'.
Proof. unfold keyed. by rewrite map_app, concat_app. Qed.

Lemma keyed_one k ds : keyed [MkKeyDays k ds] = map (pair k) ds.
Proof. unfold keyed. simpl. apply app_nil_r. Qed.

Lemma keyed_days ks : days_of ks = map snd (keyed ks).
Proof.
  induction ks as [|k ks IH]; [done |]. unfold days_of, keyed in *. simpl. rewrite map_app, map_map, IH. simpl. by rewrite map_id.
Qed.

Lemma add_day_keyed ks k d raw : (forall kd, kd ∈ ks -> sk_ID (kd_key kd) = sk_ID k -> kd_key kd = k) ->
  keyed (add_day ks k d raw) = keyed ks ++ [(k, (d, raw))].
Proof.
  intros Hk. unfold add_day. destruct (rev ks) as [|kd before] eqn:E; apply (f_equal (@rev _)) in E; rewrite rev_involutive in E; [by subst |].
  simpl in E. subst ks. case_bool_decide as Eid; rewrite !keyed_app; [| by rewrite keyed_one].
  destruct kd as [k' ds]. simpl in *. assert (k' = k) as -> by (apply (Hk (MkKeyDays k' ds)); [apply elem_of_app; right; left | done]).
  by rewrite !keyed_one, map_app, app_assoc.
Qed.

Lemma add_day_filled (ks : list (keyDays D)) k d raw : Forall (fun kd => kd_days kd <> []) ks -> Forall (fun kd => kd_days kd <> []) (add_day ks k d raw).
Proof.
  intros Hks. unfold add_day. destruct (rev ks) as [|kd before] eqn:E; [by repeat constructor |].
  apply (f_equal (@rev _)) in E. rewrite rev_involutive in E. simpl in E. subst ks. pose proof (proj1 (proj1 (Forall_app _ _ _) Hks)) as Hb.
  case_bool_decide; apply Forall_app; (split; [done |]); apply Forall_singleton; simpl; [by destruct (kd_days kd) | done].
Qed.

(** The keys are rows of one table: an id is one key's. *)
Definition keys_ok (rows : list (HoldingRow D)) : Prop :=
  forall a b, a ∈ rows -> b ∈ rows -> sk_ID (hr_Key a) = sk_ID (hr_Key b) -> hr_Key a = hr_Key b.

Section Held.
Context (scales : gmap string D) (classOf : gmap uuid AssetClass).

Definition class_of (id : uuid) : AssetClass := default AssetClassNone (classOf !! id).

Definition row_day (id : uuid) (r : HoldingRow D) : StatedKey * (day D * D) :=
  (hr_Key r, (MkDay (hr_AsAt r) (unit_quantity scales (class_of id) r), hr_Quantity r)).

(** The keys of an instrument hold the rows that name it, in their order. *)
Lemma held_keyed rows id : keys_ok rows ->
  let ks := default [] (held_of scales classOf rows !! id) in
  keyed ks = map (row_day id) (List.filter (of_instr id) rows) /\ Forall (fun kd => kd_days kd <> []) ks.
Proof.
  induction rows as [|r rows IH] using rev_ind; intros Hkeys; [done |].
  destruct IH as [IH1 IH2]. { intros a b Ha Hb. apply Hkeys; apply elem_of_app; by left. }
  unfold held_of in *. rewrite foldl_app, List.filter_app, map_app. cbn [foldl]. set (held := foldl _ ∅ rows) in *. unfold held_step, of_instr at 2.
  destruct (hr_InstrID r) as [i|] eqn:Ei; simpl; [| rewrite Ei, bool_decide_eq_false_2 by done; simpl; by rewrite app_nil_r].
  rewrite Ei. destruct (decide (i = id)) as [->|Hne].
  - rewrite lookup_insert_eq, bool_decide_eq_true_2 by done. simpl. split; [| by apply add_day_filled].
    rewrite add_day_keyed, IH1; [done |]. intros kd Hkd Hid.
    rewrite Forall_forall in IH2. pose proof (IH2 kd Hkd) as Hne. destruct (kd_days kd) as [|d ds] eqn:Ed; [done |].
    assert ((kd_key kd, d) ∈ keyed (default [] (held !! id))) as Hin.
    { apply elem_of_concat_map. exists kd. split; [done |]. rewrite Ed. left. }
    rewrite IH1 in Hin. apply list_elem_of_fmap in Hin as (a & [= Ea _] & Ha). apply elem_of_lfilter in Ha as [Ha _]. rewrite Ea in *.
    apply Hkeys; [apply elem_of_app; by left | apply elem_of_app; right; left | done].
  - rewrite lookup_insert_ne, bool_decide_eq_false_2 by congruence. simpl. by rewrite app_nil_r.
Qed.

Lemma held_named rows id : is_Some (held_of scales classOf rows !! id) <-> exists r, r ∈ rows /\ hr_InstrID r = Some id.
Proof.
  induction rows as [|r rows IH] using rev_ind.
  { unfold held_of. simpl. rewrite lookup_empty. split; [by intros [] | by intros (? & []%not_elem_of_nil & _)]. }
  unfold held_of in *. rewrite foldl_app. cbn [foldl]. set (held := foldl _ ∅ rows) in *. unfold held_step.
  setoid_rewrite elem_of_app. setoid_rewrite list_elem_of_singleton. destruct (hr_InstrID r) as [i|] eqn:Ei.
  - rewrite lookup_insert_is_Some, IH. destruct (decide (i = id)) as [->|]; naive_solver.
  - rewrite IH. naive_solver.
Qed.
End Held.

(** [rawSum] adds up what its days hold. *)
Lemma rawSum_ok (ks : list (keyDays D)) :
  dec_Rat (sum_quantity (rawSum ks)) = total (map (fun d => dec_Rat (d_quantity d.1)) (days_of ks)) /\
  Forall2 (fun q k => dec_Rat q = total (map (fun d => dec_Rat d.2) (kd_days k))) (sum_keys (rawSum ks)) ks.
Proof.
  assert (forall ds (q key : D), let '(q', key') := foldl (fun qk d => (dec_Add qk.1 (d_quantity d.1), dec_Add qk.2 d.2)) (q, key) ds in
    dec_Rat q' = (dec_Rat q + total (map (fun d => dec_Rat (d_quantity d.1)) ds))%Qc /\
    dec_Rat key' = (dec_Rat key + total (map (fun d : day D * D => dec_Rat d.2) ds))%Qc) as Hin.
  { induction ds as [|d ds IH]; intros q key; simpl; [split; ring |]. specialize (IH (dec_Add q (d_quantity d.1)) (dec_Add key d.2)).
    destruct (foldl _ _ ds) as [q' key']. destruct IH as [-> ->]. rewrite !dec_Rat_Add. split; ring. }
  unfold rawSum. induction ks as [|k ks IH] using rev_ind; simpl; [split; [apply dec_Rat_Zero | constructor] |].
  rewrite foldl_app. simpl. set (out := foldl _ _ ks) in *. specialize (Hin (kd_days k) (sum_quantity out) dec_Zero).
  destruct (foldl _ _ (kd_days k)) as [q key]. destruct Hin as [Hq Hkey], IH as [IHq IHk]. simpl. split.
  - unfold days_of in *. rewrite map_app, concat_app, map_app, total_app. simpl. rewrite app_nil_r, Hq, IHq. done.
  - apply Forall2_app; [done |]. repeat constructor. rewrite Hkey, dec_Rat_Zero. ring.
Qed.

(** [p] is the most decimal places of the quantities, and not negative. *)
Definition places (qs : list D) (p : Z) : Prop :=
  0 <= p /\ (forall q, q ∈ qs -> - dec_Exponent q <= p) /\ (p = 0 \/ exists q, q ∈ qs /\ p = - dec_Exponent q).

Lemma scale_of_places ks : places (map (fun d => d_quantity d.1) (days_of ks)) (scale_of ks).
Proof.
  assert (forall ks s, exists m, foldl (fun s k => foldl (fun s (d : day D * D) => Z.max s (- dec_Exponent (d_quantity d.1))) s (kd_days k)) s ks = m /\
    (m = s \/ exists d, d ∈ days_of ks /\ m = - dec_Exponent (d_quantity d.1))) as Hmax.
  { clear ks. intros ks s. assert (forall l s, foldl (fun s k => foldl (fun s (d : day D * D) => Z.max s (- dec_Exponent (d_quantity d.1))) s (kd_days k)) s l =
      foldl (fun s (d : day D * D) => Z.max s (- dec_Exponent (d_quantity d.1))) s (days_of l)) as ->.
    { induction l as [|k l IH]; intros s'; [done |]. simpl. rewrite IH. unfold days_of. simpl. by rewrite foldl_app. }
    eexists. split; [reflexivity |]. revert s. induction (days_of ks) as [|d ds IH]; intros s; simpl; [by left |].
    destruct (IH (Z.max s (- dec_Exponent (d_quantity d.1)))) as [->|(e & He & ->)]; [| right; exists e; split; [by right | done]].
    destruct (Z.max_spec s (- dec_Exponent (d_quantity d.1))) as [[_ ->]|[_ ->]]; [right; exists d; split; [left | done] | by left]. }
  destruct (scale_of_spec ks) as [H1' H2']. destruct (Hmax ks 0) as (m & Hm & Ha). split; [done |]. split.
  - intros q (d & -> & Hd)%list_elem_of_fmap. unfold days_of in Hd. apply elem_of_concat_map in Hd as (k & Hk & Hd). by apply (H2' k).
  - change (scale_of ks) with (foldl (fun s k => foldl (fun s (d : day D * D) => Z.max s (- dec_Exponent (d_quantity d.1))) s (kd_days k)) 0 ks).
    rewrite Hm. destruct Ha as [->|(d & Hd & ->)]; [by left |]. right. exists (d_quantity d.1). split; [| done]. apply list_elem_of_fmap. by exists d.
Qed.

Section Instrs.
Context (scales : gmap string D) (families : Families) (classOf : gmap uuid AssetClass) (cals : gmap uuid (Calendar D))
  (listed : gmap uuid (list ListingName)) (now : time) (rows : list (HoldingRow D)).

Definition calendar_of (id : uuid) : Answer D := default (MkAnswer "" [] []) (c_Answer <$> cals !! id).

(** The rows that name an instrument. *)
Definition instr_rows (id : uuid) : list (HoldingRow D) := List.filter (of_instr id) rows.

(** Pence are hundredths of a pound: what one unit of a row is worth. *)
Definition worth (id : uuid) (r : HoldingRow D) : Qc :=
  match sk_Currency (hr_Key r) with
  | Some c => if bool_decide (class_of classOf id = AssetClassCash)
              then match scales !! c with Some s => dec_Rat s | None => 1%Qc end else 1%Qc
  | None => 1%Qc
  end.

Definition factor_of (id : uuid) (r : HoldingRow D) : Qc :=
  match Factor (calendar_of id) (hr_AsAt r) (Day now) with Some (f, _) => f | None => 0%Qc end.

(** The holding of an instrument amounts to [x]: where its class is not restated,
    the sum of the rows that name it; else the sum of them restated to today,
    rounded to the most decimal places they state. *)
Definition amounts (id : uuid) (x : Qc) : Prop :=
  if Restated (class_of classOf id)
  then exists p, places (map hr_Quantity (instr_rows id)) p /\
         rounds p x (total (map (fun r => (dec_Rat (hr_Quantity r) * factor_of id r)%Qc) (instr_rows id)))
  else x = total (map (fun r => (dec_Rat (hr_Quantity r) * worth id r)%Qc) (instr_rows id)).

Definition cals_ok : Prop :=
  forall id c, cals !! id = Some c -> Forall act_ok (aw_Acts (c_Answer c)) /\ Forall p_nonempty (aw_Coverage (c_Answer c)).

Lemma calendar_of_ok id : cals_ok -> Forall act_ok (aw_Acts (calendar_of id)) /\ Forall p_nonempty (aw_Coverage (calendar_of id)).
Proof. intros Hc. unfold calendar_of. destruct (cals !! id) as [c|] eqn:E; simpl; [by apply (Hc id) | done]. Qed.

Lemma unit_worth id r : dec_Rat (unit_quantity scales (class_of classOf id) r) = (dec_Rat (hr_Quantity r) * worth id r)%Qc.
Proof.
  unfold unit_quantity, worth, Scale. destruct (sk_Currency (hr_Key r)) as [c|]; [| ring]. case_bool_decide; [| ring].
  rewrite dec_Rat_Mul. destruct (scales !! c); simpl; [done |]. by rewrite dec_Rat_NewFromInt, Z2Qc_inj_1.
Qed.

Lemma unit_restated id r : Restated (class_of classOf id) = true -> unit_quantity scales (class_of classOf id) r = hr_Quantity r.
Proof. intros Hr. unfold unit_quantity. destruct (sk_Currency (hr_Key r)); [| done]. case_bool_decide as E; [| done]. by rewrite E in Hr. Qed.

(** The sum of a holding is there, amounts to its rows, and has a quantity for
    each of its keys. *)
Lemma sum_of_ok id ks : cals_ok -> keyed ks = map (row_day scales classOf id) (instr_rows id) ->
  exists r, sum_of classOf cals (Day now) id ks = Some r /\ amounts id (dec_Rat (sum_quantity r)) /\
    length (sum_keys r) = length ks /\
    (Restated (class_of classOf id) = false -> Forall2 (fun q k => dec_Rat q = total (map (fun d => dec_Rat d.2) (kd_days k))) (sum_keys r) ks).
Proof.
  intros Hcals Hks. destruct (calendar_of_ok id Hcals) as [Ha Hc]. unfold sum_of, amounts. fold (class_of classOf id). fold (calendar_of id).
  assert (forall f : day D * D -> Qc, map f (days_of ks) = map (fun r => f (row_day scales classOf id r).2) (instr_rows id)) as Hdays.
  { intros f. by rewrite keyed_days, Hks, !map_map. }
  destruct (Restated (class_of classOf id)) eqn:Er.
  - destruct (restate_ok (calendar_of id) ks (Day now) Ha Hc) as (r & -> & Hround & Hkeys & _). exists r. split; [done |].
    split; [| split; [by apply Forall2_length in Hkeys | done]]. exists (scale_of ks). split.
    + pose proof (scale_of_places ks) as Hp. replace (map hr_Quantity (instr_rows id)) with (map (fun d => d_quantity d.1) (days_of ks)); [done |].
      rewrite keyed_days, Hks, !map_map. apply map_ext. intros r'. simpl. by apply unit_restated.
    + unfold restated_days in Hround. rewrite Hdays in Hround.
      replace (map _ (instr_rows id)) with (map (fun r0 => (dec_Rat (hr_Quantity r0) * factor_of id r0)%Qc) (instr_rows id)) in Hround; [done |].
      apply map_ext. intros r'. simpl. rewrite unit_restated by done. done.
  - exists (rawSum ks). destruct (rawSum_ok ks) as [Hq Hk]. split; [done |]. split; [| split; [by apply Forall2_length in Hk | done]].
    rewrite Hq, Hdays. f_equal. apply map_ext. intros r. simpl. apply unit_worth.
Qed.

Lemma sums_of_ok (held : gmap uuid (list (keyDays D))) :
  (forall id ks, held !! id = Some ks -> is_Some (sum_of classOf cals (Day now) id ks)) ->
  exists m, sums_of classOf cals (Day now) held = Some m /\ forall id, m !! id = (ks ← held !! id; sum_of classOf cals (Day now) id ks).
Proof.
  intros Hall. set (g := fun (out : gmap uuid (sum D)) ks => r ← sum_of classOf cals (Day now) ks.1 ks.2; Some (<[ks.1 := r]> out)).
  assert (forall l m0, NoDup l.*1 -> (forall id ks, (id, ks) ∈ l -> is_Some (sum_of classOf cals (Day now) id ks)) ->
    exists m, opt_fold g m0 l = Some m /\ (forall id ks, (id, ks) ∈ l -> m !! id = sum_of classOf cals (Day now) id ks) /\
      forall id, id ∉ l.*1 -> m !! id = m0 !! id) as Hf.
  { induction l as [|[i ks] l IH]; intros m0 Hnd Hs; simpl; [exists m0; split; [done |]; split; [by intros ? ? []%not_elem_of_nil | done] |].
    simpl in Hnd. apply NoDup_cons in Hnd as [Hi Hnd]. destruct (Hs i ks ltac:(left)) as [r Hr]. unfold g at 1. simpl. rewrite Hr. simpl.
    destruct (IH (<[i := r]> m0) Hnd (fun id ks Hin => Hs id ks ltac:(by right))) as (m & -> & H1' & H2'). exists m. split; [done |]. split.
    - intros id ks' [[= -> ->]|Hin]%elem_of_cons; [| by apply H1']. by rewrite H2', lookup_insert_eq.
    - intros id [Hne Hid]%not_elem_of_cons. by rewrite H2', lookup_insert_ne. }
  destruct (Hf (map_to_list held) ∅ (NoDup_fst_map_to_list held)) as (m & Hm & H1' & H2').
  { intros id ks Hin%elem_of_map_to_list. by apply Hall. }
  exists m. split; [done |]. intros id. destruct (held !! id) as [ks|] eqn:E; simpl.
  - apply H1'. by apply elem_of_map_to_list.
  - rewrite H2'; [by rewrite lookup_empty |]. intros ([i ks] & -> & Hin%elem_of_map_to_list)%list_elem_of_fmap. simpl in E. congruence.
Qed.

(** The quantities a holding shows for the key of one id. *)
Definition shown_for (h : InstrHolding D) (i : uuid) : Qc :=
  total (map (fun kq => dec_Rat kq.1.2) (List.filter (fun kq => bool_decide (sk_ID kq.1.1 = i)) (ih_Keys h))).

Lemma elem_of_zip_key (ks : list (keyDays D)) (qs : list D) (f : keyDays D -> option uuid) k :
  length qs = length ks ->
  (exists q l, (k, q, l) ∈ zip_with (fun k q => (kd_key k, q, f k)) ks qs) <-> exists kd, kd ∈ ks /\ kd_key kd = k.
Proof.
  intros Hlen. split.
  - intros (q & l & [j (kd & q' & [= -> -> ->] & Hkd & _)%lookup_zip_with_Some]%list_elem_of_lookup). exists kd. split; [by eapply list_elem_of_lookup_2 | done].
  - intros (kd & [j Hj]%list_elem_of_lookup & <-). destruct (lookup_lt_is_Some_2 qs j) as [q Hq]; [rewrite Hlen; by eapply lookup_lt_Some |].
    exists q, (f kd). apply list_elem_of_lookup. exists j. by rewrite lookup_zip_with, Hj, Hq.
Qed.

Lemma zip_key_total (ks : list (keyDays D)) (qs : list D) (f : keyDays D -> option uuid) i :
  Forall2 (fun q k => dec_Rat q = total (map (fun d => dec_Rat d.2) (kd_days k))) qs ks ->
  total (map (fun kq => dec_Rat kq.1.2) (List.filter (fun kq => bool_decide (sk_ID kq.1.1 = i)) (zip_with (fun k q => (kd_key k, q, f k)) ks qs))) =
  total (map (fun kd => dec_Rat kd.2.2) (List.filter (fun kd => bool_decide (sk_ID kd.1 = i)) (keyed ks))).
Proof.
  induction 1 as [|q k qs ks Hq _ IH]; [done |]. unfold keyed in *. simpl. rewrite List.filter_app, map_app, total_app, <- IH.
  assert (List.filter (fun kd => bool_decide (sk_ID kd.1 = i)) (map (pair (kd_key k)) (kd_days k)) =
    if bool_decide (sk_ID (kd_key k) = i) then map (pair (kd_key k)) (kd_days k) else []) as ->.
  { clear Hq. generalize (kd_days k) as ds. case_bool_decide as E; induction ds as [|d ds IHd]; simpl; try done.
    - rewrite bool_decide_eq_true_2 by done. by rewrite IHd.
    - by rewrite bool_decide_eq_false_2. }
  case_bool_decide; simpl; [| ring]. by rewrite map_map, Hq.
Qed.

Lemma keyed_key (ks : list (keyDays D)) k : Forall (fun kd => kd_days kd <> []) ks ->
  (exists kd, kd ∈ ks /\ kd_key kd = k) <-> exists d, (k, d) ∈ keyed ks.
Proof.
  intros Hne. rewrite Forall_forall in Hne. unfold keyed. split.
  - intros (kd & Hkd & <-). pose proof (Hne kd Hkd). destruct (kd_days kd) as [|d ds] eqn:E; [done |].
    exists d. apply elem_of_concat_map. exists kd. rewrite E. split; [done | left].
  - intros [d (kd & Hkd & (d' & [= -> ->] & _)%list_elem_of_fmap)%elem_of_concat_map]. by exists kd.
Qed.

Lemma nonZero_NoDup (m : gmap uuid D) : NoDup (nonZero m).
Proof.
  unfold nonZero, sorted_ids, delete_func. apply NoDup_lfilter. rewrite sort_func_perm. apply NoDup_fst_map_to_list.
Qed.

(** What the list of the holdings of instruments holds. *)
Lemma instrs_ok : keys_ok rows -> cals_ok ->
  exists out, instrs scales families classOf cals listed now rows = Some out /\ NoDup (map ih_InstrID out) /\
    (forall r id, r ∈ rows -> hr_InstrID r = Some id -> id ∈ map ih_InstrID out \/ amounts id 0) /\
    forall h, h ∈ out ->
      amounts (ih_InstrID h) (dec_Rat (sum_quantity (ih_Sum h))) /\ dec_Rat (sum_quantity (ih_Sum h)) <> 0%Qc /\
      (forall k, (exists q l, (k, q, l) ∈ ih_Keys h) <-> exists r, r ∈ instr_rows (ih_InstrID h) /\ hr_Key r = k) /\
      (Restated (class_of classOf (ih_InstrID h)) = false -> forall i,
         shown_for h i = rows_total (fun r => of_instr (ih_InstrID h) r && bool_decide (sk_ID (hr_Key r) = i)) rows).
Proof.
  intros Hkeys Hcals. set (held := held_of scales classOf rows).
  assert (forall id ks, held !! id = Some ks -> keyed ks = map (row_day scales classOf id) (instr_rows id) /\ Forall (fun kd => kd_days kd <> []) ks) as Hheld.
  { intros id ks E. pose proof (held_keyed scales classOf rows id Hkeys) as Hk. fold held in Hk. by rewrite E in Hk. }
  destruct (sums_of_ok held) as (m & Hm & Hlook).
  { intros id ks E. destruct (sum_of_ok id ks Hcals (proj1 (Hheld id ks E))) as (r & -> & _). by eexists. }
  unfold instrs. fold held. rewrite Hm. simpl. eexists. split; [reflexivity |].
  set (zs := nonZero (sum_quantity <$> m)). set (F := fun id : uuid => _).
  assert (forall id, id ∈ zs <-> exists r, m !! id = Some r /\ dec_Rat (sum_quantity r) <> 0%Qc) as Hzs.
  { intros id. unfold zs. rewrite elem_of_nonZero, lookup_fmap. destruct (m !! id) as [r|]; simpl; [| split; [by intros [[? ?] _] | by intros (? & ? & _)]].
    split; [intros [_ ?]; by exists r | intros (? & [= <-] & ?); by split]. }
  assert (forall id r, m !! id = Some r -> exists ks, held !! id = Some ks /\ sum_of classOf cals (Day now) id ks = Some r) as Hm_held.
  { intros id r. rewrite Hlook. destruct (held !! id) as [ks|]; simpl; [by exists ks | done]. }
  assert (map ih_InstrID (omap F zs) = zs) as Hids.
  { assert (forall l, (forall id, id ∈ l -> id ∈ zs) -> map ih_InstrID (omap F l) = l) as Hl; [| by apply Hl].
    induction l as [|id l IH]; intros Hin; [done |]. destruct (proj1 (Hzs id) (Hin id ltac:(left))) as (r & Hr & _).
    destruct (Hm_held id r Hr) as (ks & Hks & _). cbn [omap list_omap]. unfold F at 1. rewrite Hr, Hks. simpl. f_equal. apply IH. intros i Hi. apply Hin. by right. }
  rewrite Hids. split; [apply nonZero_NoDup |]. split.
  - intros r id Hr Hi. destruct (proj2 (held_named scales classOf rows id) (ex_intro _ r (conj Hr Hi))) as [ks Hks]. fold held in Hks.
    destruct (sum_of_ok id ks Hcals (proj1 (Hheld id ks Hks))) as (x & Hx & Ham & _).
    assert (m !! id = Some x) as Emx by (rewrite Hlook, Hks; done).
    destruct (decide (dec_Rat (sum_quantity x) = 0%Qc)) as [E|E]; [right; by rewrite <- E | left; apply Hzs; by exists x].
  - intros h (id & Hid & Hh)%list_elem_of_omap. destruct (proj1 (Hzs id) Hid) as (r & Hr & Hne). destruct (Hm_held id r Hr) as (ks & Hks & Hsum).
    unfold F in Hh. rewrite Hr, Hks in Hh. simpl in Hh. injection Hh as <-. simpl. destruct (Hheld id ks Hks) as [Hkeyed Hfill].
    destruct (sum_of_ok id ks Hcals Hkeyed) as (r' & Hr' & Ham & Hlen & Hraw). assert (r' = r) as -> by congruence.
    split; [done |]. split; [done |]. split.
    + intros k. rewrite elem_of_zip_key, keyed_key by done. rewrite Hkeyed. unfold row_day. split.
      * intros (d & (x & [= -> _] & Hx)%list_elem_of_fmap). by exists x.
      * intros (x & Hx & <-). eexists. apply list_elem_of_fmap. by exists x.
    + intros Hre i. unfold shown_for. simpl. rewrite zip_key_total by by apply Hraw. rewrite Hkeyed. unfold rows_total, instr_rows.
      clear. induction rows as [|x l IH]; [done |]. simpl. destruct (of_instr id x); simpl; [| done].
      case_bool_decide; simpl; by rewrite IH.
Qed.

End Instrs.

(** What the list of the holdings of groups holds. *)
Lemma groups_ok rows : keys_ok rows ->
  match groups rows with
  | Err k => exists r, r ∈ rows /\ defect r = true /\ hr_Key r = k
  | Ok out =>
      (forall r, r ∈ rows -> defect r = false) /\ NoDup (map (fun x => x.1.1) out) /\
      (forall g, g ∈ map (fun x => x.1.1) out <-> rows_total (of_group g) rows <> 0%Qc) /\
      forall g q h, (g, q, h) ∈ out -> dec_Rat q = rows_total (of_group g) rows /\ keys_total h = dec_Rat q
  end.
Proof.
  intros Hkeys. unfold groups.
  assert (group_inv [] (MkGrouping ∅ ∅ None)) as H0inv.
  { split; [intros g; simpl; rewrite lookup_empty; apply dec_Rat_Zero | split; [| done]].
    intros g. simpl. rewrite lookup_empty. unfold keys_total, rows_total. simpl. ring. }
  pose proof (group_fold rows [] (MkGrouping ∅ ∅ None) Hkeys H0inv) as Hf.
  destruct (res_fold _ _ rows) as [s|k]; [| done]. destruct Hf as [Hinv Hd].
  destruct (flush_inv _ _ Hinv) as [(I1 & I2 & _) Ek]. set (s' := flush s) in *. rewrite Ek in I2. simpl in I1, I2. split; [done |].
  rewrite map_map. simpl. rewrite map_id. split; [apply nonZero_NoDup |]. split.
  - intros g. rewrite elem_of_nonZero, I1. split; [by intros [_ ?] |]. intros Hne. split; [| done].
    destruct (gp_total s' !! g) eqn:E; [by eexists |]. exfalso. apply Hne. rewrite <- I1, E. apply dec_Rat_Zero.
  - intros g q h (id & [= -> -> ->] & _)%list_elem_of_fmap. split; [apply I1 |].
    rewrite I1. rewrite <- (I2 id). unfold keys_total, no_holding. simpl. ring.
Qed.

End Listing.

(** * Properties *)

Section Properties.
Context {D : Type} `{DecimalLaws D}.

(** C39: restating a holding always gives a sum. Each key's quantity, and the whole
    one, is its exact sum of factors times quantities rounded once, to the most
    decimal places a transaction states: at most half a unit of the last place
    away, exact where that sum has so few places, and as stated where no action
    touches it. It is adjusted when the calendar covers every transaction;
    otherwise it is provisional from the day after the earliest uncovered one,
    with the days from there to today that the calendar lacks as gaps. *)
Theorem restate_spec (cal : Answer D) (ks : list (keyDays D)) today :
  Forall act_ok (aw_Acts cal) -> Forall p_nonempty (aw_Coverage cal) ->
  let p := scale_of ks in
  exists r, restate cal ks today = Some r /\
    rounds p (dec_Rat (sum_quantity r)) (restated_days cal today (days_of ks)) /\
    Forall2 (fun q k => rounds p (dec_Rat q) (restated_days cal today (kd_days k))) (sum_keys r) ks /\
    ((forall d, d ∈ days_of ks -> day_factor cal today d = 1%Qc) ->
       dec_Rat (sum_quantity r) = total (map (fun d => dec_Rat (d_quantity d.1)) (days_of ks))) /\
    match sum_provisionalFrom r with
    | None => sum_mark r = HoldingMarkAdjusted /\ sum_gaps r = [] /\ forall d, d ∈ days_of ks -> day_covered cal today d = true
    | Some from => sum_mark r = HoldingMarkCorpActsProvisional /\
        sum_gaps r = Gaps (aw_Coverage cal) (MkPeriod from (AddDays today 1)) /\
        (exists d, d ∈ days_of ks /\ day_covered cal today d = false /\ from = AddDays (d_asAt d.1) 1) /\
        forall d, d ∈ days_of ks -> day_covered cal today d = false -> from <= AddDays (d_asAt d.1) 1
    end.
Proof. apply restate_ok. Qed.

(** C40: which holding each transaction is counted in. A row of [ListHoldingKeys] that
    names an instrument counts in that instrument's holding alone; one that names
    none counts in its key's group's holding alone; and one that names none, of a
    key with no group, counts in no holding, which is an error where the key is
    dated and is passed over where it is not. So the instruments listed are those
    whose rows amount to other than zero (their sum in the unit of cash, or
    restated to today and rounded), each once, with that quantity and exactly the
    keys of its rows; where the class is not restated, a key shows the sum of its
    rows. And the groups fail exactly when a row is such an error; else they list
    each group whose rows sum to other than zero, once, with that sum, which the
    quantities of its keys make up. It takes that a key id is one key's and that
    the calendars hold valid acts. *)
Theorem holdings_conserve scales families classOf cals listed now (rows : list (HoldingRow D)) :
  keys_ok rows -> cals_ok cals ->
  (exists out, instrs scales families classOf cals listed now rows = Some out /\ NoDup (map ih_InstrID out) /\
    (forall r id, r ∈ rows -> hr_InstrID r = Some id -> id ∈ map ih_InstrID out \/ amounts scales classOf cals now rows id 0) /\
    forall h, h ∈ out ->
      amounts scales classOf cals now rows (ih_InstrID h) (dec_Rat (sum_quantity (ih_Sum h))) /\ dec_Rat (sum_quantity (ih_Sum h)) <> 0%Qc /\
      (forall k, (exists q l, (k, q, l) ∈ ih_Keys h) <-> exists r, r ∈ instr_rows rows (ih_InstrID h) /\ hr_Key r = k) /\
      (Restated (class_of classOf (ih_InstrID h)) = false -> forall i,
         shown_for h i = rows_total (fun r => of_instr (ih_InstrID h) r && bool_decide (sk_ID (hr_Key r) = i)) rows)) /\
  match groups rows with
  | Err k => exists r, r ∈ rows /\ defect r = true /\ hr_Key r = k
  | Ok out =>
      (forall r, r ∈ rows -> defect r = false) /\ NoDup (map (fun x => x.1.1) out) /\
      (forall g, g ∈ map (fun x => x.1.1) out <-> rows_total (of_group g) rows <> 0%Qc) /\
      forall g q h, (g, q, h) ∈ out -> dec_Rat q = rows_total (of_group g) rows /\ keys_total h = dec_Rat q
  end.
Proof. intros Hkeys Hcals. split; [by apply instrs_ok | by apply groups_ok]. Qed.
End Properties.

(** * Witnesses *)

Definition ex_stated_key (id : uuid) (via : option uuid) (g : option uuid) : StatedKey :=
  MkStatedKey id 1 None None [] None via None g.

Definition ex_answer : Answer fixed :=
  MkAnswer "massive" [MkAct 10 (40 * day_len) (MkRatio (Fixed 3 0) (Fixed 1 0)) "" true None] [MkPeriod 0 (60 * day_len)].

(** Ten shares bought before a 1 for 3 consolidation, and one third of a share
    short of four sold after it. *)
Definition ex_days : list (keyDays fixed) :=
  [MkKeyDays (ex_stated_key 2 None None) [(MkDay (10 * day_len) (Fixed 10 0), Fixed 10 0); (MkDay (50 * day_len) (Fixed (-333) (-2)), Fixed (-333) (-2))]].

Lemma restate_spec_witness :
  fmap (fun r => (coef (sum_quantity r), expo (sum_quantity r), sum_mark r)) (restate ex_answer ex_days (59 * day_len)) = Some (0, -2, HoldingMarkAdjusted) /\
  fmap (fun r => (sum_mark r, sum_provisionalFrom r, sum_gaps r)) (restate ex_answer ex_days (61 * day_len)) =
    Some (HoldingMarkCorpActsProvisional, Some (11 * day_len), [MkPeriod (60 * day_len) (62 * day_len)]) /\
  exists r, restate ex_answer ex_days (59 * day_len) = Some r /\
    rounds (scale_of ex_days) (dec_Rat (sum_quantity r)) (restated_days ex_answer (59 * day_len) (days_of ex_days)).
Proof.
  split; [vm_compute; reflexivity |]. split; [vm_compute; reflexivity |].
  destruct (restate_spec ex_answer ex_days (59 * day_len)) as (r & Hr & Hround & _).
  - repeat constructor; vm_compute; reflexivity.
  - repeat constructor; vm_compute; reflexivity.
  - exists r. split; [exact Hr | exact Hround].
Defined.

Definition ex_rows : list (HoldingRow fixed) :=
  [MkHoldingRow (ex_stated_key 2 (Some 9%N) (Some 5%N)) None 0 (Fixed 4 0);
   MkHoldingRow (ex_stated_key 2 (Some 9%N) (Some 5%N)) (Some 7%N) day_len (Fixed 6 0);
   MkHoldingRow (ex_stated_key 3 None (Some 5%N)) None 0 (Fixed (-1) 0)].

(** The instrument is a bond, whose quantity is not restated. *)
Definition ex_classes : gmap uuid AssetClass := {[ 7%N := AssetClassFixedIncome ]}.

Lemma ex_rows_ok : keys_ok ex_rows.
Proof.
  unfold ex_rows.
  intros a b Ha Hb. repeat (apply elem_of_cons in Ha as [->|Ha]); try (by apply not_elem_of_nil in Ha);
    repeat (apply elem_of_cons in Hb as [->|Hb]); try (by apply not_elem_of_nil in Hb); simpl; congruence.
Defined.

Lemma holdings_conserve_witness :
  fmap (fun out : list (uuid * fixed * GroupHolding fixed) => map (fun x => (x.1.1, coef x.1.2)) out)
    (match groups ex_rows with Ok out => Some out | Err _ => None end) = Some [(5%N, 3)] /\
  fmap (map (fun h => (ih_InstrID h, coef (sum_quantity (ih_Sum h))))) (instrs ∅ ∅ ex_classes ∅ ∅ 0 ex_rows) = Some [(7%N, 6)] /\
  exists out, instrs ∅ ∅ ex_classes ∅ ∅ 0 ex_rows = Some out /\
    forall h, h ∈ out -> amounts ∅ ex_classes ∅ 0 ex_rows (ih_InstrID h) (dec_Rat (sum_quantity (ih_Sum h))).
Proof.
  split; [vm_compute; reflexivity |]. split; [vm_compute; reflexivity |].
  destruct (holdings_conserve ∅ ∅ ex_classes (∅ : gmap uuid (Calendar fixed)) ∅ 0 ex_rows ex_rows_ok) as [(out & Hout & _ & _ & Hh) _].
  - intros id c Hc. by rewrite lookup_empty in Hc.
  - exists out. split; [exact Hout |]. intros h Hin. exact (proj1 (Hh h Hin)).
Defined.
