(* ===== verification/Coverage.v ===== *)
(** Ticker validity as the admin area reads it,
    [server/internal/identity/coverage/coverage.go]: the gaps of a ticker, the
    days its keys hold a position, and the alerts. The proto conversions and the
    names of instruments are left out. *)
From S2P Require Import Prelude Types Period Decimal Facts Winners Derive Validity Tickers.

(** The transactions of one key on one as-at day. *)
Record txnDay (D : Type) : Type := MkTxnDay {
  td_Key : uuid;
  td_AsAt : time;
  td_Txns : Z;
  td_Quantity : D;
}.
Arguments MkTxnDay {D} _ _ _ _.
Arguments td_Key {D} _.
Arguments td_AsAt {D} _.
Arguments td_Txns {D} _.
Arguments td_Quantity {D} _.

Record Gap : Type := MkGap {
  g_Period : Period;
  g_Keys : nat;
  g_Txns : Z;
}.

Record NamesNothing : Type := MkNamesNothing {
  nn_Ticker : MarketTicker;
  nn_Keys : nat;
  nn_Txns : Z;
  nn_First : time;
}.

(** A gap without its name. *)
Record TickerGap : Type := MkTickerGap {
  tg_Ticker : MarketTicker;
  tg_Instr : option uuid;
  tg_Gap : Gap;
}.

Inductive TickerRelation : Type :=
| TickerRelationCurrent
| TickerRelationFormer
| TickerRelationDefunct.

#[export] Instance TickerRelation_eq_dec : EqDecision TickerRelation.
Proof. solve_decision. Defined.

Record InstrTicker : Type := MkInstrTicker {
  it_Ticker : MarketTicker;
  it_Relation : TickerRelation;
  it_Txns : Z;
}.

(** * The tickers of an instrument *)

Definition relationOrder (r : TickerRelation) : Z :=
  match r with TickerRelationCurrent => 0 | TickerRelationDefunct => 1 | TickerRelationFormer => 2 end.

Definition instr_ticker_cmp : InstrTicker -> InstrTicker -> comparison :=
  cmp_lex (cmp_flip (cmp_on it_Txns Z.compare))
    (cmp_lex (cmp_on (fun t => relationOrder (it_Relation t)) Z.compare)
       (cmp_on (fun t => MarketTicker_Name (it_Ticker t)) String.compare)).

(** [count] is the query that counts the transactions of a ticker. *)
Definition InstrTickers (count : MarketTicker -> Z) (rows : list (MarketTicker * TickerRelation)) : list InstrTicker :=
  sort_func instr_ticker_cmp (map (fun r => MkInstrTicker r.1 r.2 (count r.1)) rows).

(** * Gaps *)

Section Coverage.
Context {D : Type} `{Decimal D}.

(** [len] of the map of keys. *)
Definition count_keys (ds : list (txnDay D)) : nat := size (list_to_set (C := gset uuid) (map td_Key ds)).

Definition sum_txns (ds : list (txnDay D)) : Z := foldl (fun n d => n + td_Txns d) 0 ds.

Definition gap_of (days : list (txnDay D)) (p : Period) : Gap :=
  let inside := List.filter (fun d => Contains p (td_AsAt d)) days in
  MkGap p (count_keys inside) (sum_txns inside).

Definition gaps (ivs : list Interval) (settled : list Period) (days : list (txnDay D)) (today : time) : list Gap :=
  match days with
  | [] => []
  | d0 :: _ =>
      let period := MkPeriod (td_AsAt d0) (AddDays (Day today) 1) in
      if negb (p_From period <? p_Before period) then []
      else map (gap_of days) (Gaps (settled ++ confirmed_clips ivs period) period)
  end.

(** The distinct as-at days of a page, of transactions in order of day. *)
Definition page_days (txns : list (txnDay D)) : list time :=
  foldl (fun out d => match last out with
    | Some l => if l =? td_AsAt d then out else out ++ [td_AsAt d]
    | None => out ++ [td_AsAt d]
    end) [] txns.

(** * Alerts *)

Definition namesNothing (v : MarketTicker) (ds : list (txnDay D)) (settled : list Period) : option NamesNothing :=
  let left := List.filter (fun d => negb (AnyContains settled (td_AsAt d))) ds in
  let n := foldl (fun n d => MkNamesNothing v 0 (nn_Txns n + td_Txns d) (if nn_Txns n =? 0 then td_AsAt d else nn_First n))
             (MkNamesNothing v 0 0 zero_time) left in
  if 0 <? nn_Txns n then Some (MkNamesNothing v (count_keys left) (nn_Txns n) (nn_First n)) else None.

(** An entry of [out] with its key of [open] and its sum. *)
Record held : Type := MkHeld {
  h_Key : uuid;
  h_Period : Period;
  h_Sum : D;
}.

Fixpoint hold_step (out : list held) (d : txnDay D) : list held :=
  match out with
  | [] => [MkHeld (td_Key d) (MkPeriod (td_AsAt d) (AddDays (td_AsAt d) 1)) (dec_Add dec_Zero (td_Quantity d))]
  | h :: out' =>
      if bool_decide (h_Key h = td_Key d)
      then MkHeld (h_Key h) (MkPeriod (p_From (h_Period h)) (AddDays (td_AsAt d) 1)) (dec_Add (h_Sum h) (td_Quantity d)) :: out'
      else h :: hold_step out' d
  end.

Definition held_until (today : time) (h : held) : Period :=
  if dec_IsZero (h_Sum h) then h_Period h else MkPeriod (p_From (h_Period h)) (AddDays (Day today) 1).

Definition holdings (ds : list (txnDay D)) (today : time) : list Period :=
  map (held_until today) (foldl hold_step [] ds).

Definition gapInstr (ivs : list Interval) (g : Period) : option uuid :=
  match On ivs (p_From g) with
  | Some iv => Some (iv_Instr iv)
  | None =>
      match find_func (fun iv => bool_decide (iv_Before iv = Some (p_From g))) ivs with
      | Some iv => Some (iv_Instr iv)
      | None => iv_Instr <$> find_func (fun iv => bool_decide (iv_From iv = Some (p_Before g))) ivs
      end
  end.

(** The alerts of one ticker. *)
Definition ticker_alerts (v : MarketTicker) (ivs : list Interval) (settled : list Period) (ds : list (txnDay D)) (today : time) :
    list NamesNothing * list TickerGap :=
  if negb (Any ivs) then (match namesNothing v ds settled with Some n => [n] | None => [] end, [])
  else
    let hs := holdings ds today in
    ([], omap (fun g =>
      if existsb (fun p => (Clip p (g_Period g)).2) hs
      then Some (MkTickerGap v (gapInstr ivs (g_Period g)) g) else None)
      (gaps ivs settled ds today)).

(** The rows of [ListAttestedNothing] by ticker. *)
Definition attestedNothing (rows : list (MarketTicker * Period)) : gmap MarketTicker (list Period) :=
  foldl (fun out r => <[r.1 := default [] (out !! r.1) ++ [r.2]]> out) ∅ rows.

Definition Unconfirmed (rows : list (MarketTicker * txnDay D)) (settled : gmap MarketTicker (list Period))
    (ivs : gmap MarketTicker (list Interval)) (today : time) : list NamesNothing * list TickerGap :=
  let order := foldl append_unique [] (map fst rows) in
  let days v := map snd (List.filter (fun r => bool_decide (r.1 = v)) rows) in
  let alerts := map (fun v => ticker_alerts v (default [] (ivs !! v)) (default [] (settled !! v)) (days v) today) order in
  (concat (map fst alerts), concat (map snd alerts)).

(** * Lemmas *)

Context `{!DecimalLaws D}.

(** The transactions of one key. *)
Definition of_key (k : uuid) (ds : list (txnDay D)) : list (txnDay D) := List.filter (fun d => bool_decide (td_Key d = k)) ds.

Fixpoint quantity_of (ds : list (txnDay D)) : Qc :=
  match ds with
  | [] => 0%Qc
  | d :: ds' => (dec_Rat (td_Quantity d) + quantity_of ds')%Qc
  end.

Lemma quantity_of_snoc ds d : quantity_of (ds ++ [d]) = (quantity_of ds + dec_Rat (td_Quantity d))%Qc.
Proof. induction ds as [|e ds IH]; simpl; [ring |]. rewrite IH. ring. Qed.

(** What an entry states of the transactions of its key. *)
Definition held_ok (ds : list (txnDay D)) (h : held) : Prop :=
  exists f l, head (of_key (h_Key h) ds) = Some f /\ last (of_key (h_Key h) ds) = Some l /\
    h_Period h = MkPeriod (td_AsAt f) (AddDays (td_AsAt l) 1) /\ dec_Rat (h_Sum h) = quantity_of (of_key (h_Key h) ds).

Lemma of_key_snoc k ds d : of_key k (ds ++ [d]) = of_key k ds ++ (if bool_decide (td_Key d = k) then [d] else []).
Proof. unfold of_key. rewrite List.filter_app. simpl. by case_bool_decide. Qed.

Lemma hold_step_keys out d k : k ∈ map h_Key (hold_step out d) <-> k ∈ map h_Key out \/ k = td_Key d.
Proof.
  induction out as [|h out IH]; simpl; [rewrite list_elem_of_singleton; split; [by right | intros [[]%not_elem_of_nil|?]; done] |].
  case_bool_decide as E; simpl; rewrite !elem_of_cons; [naive_solver | rewrite IH; tauto].
Qed.

Lemma hold_step_NoDup out d : NoDup (map h_Key out) -> NoDup (map h_Key (hold_step out d)).
Proof.
  induction out as [|h out IH]; simpl; [intros; apply NoDup_singleton |]. intros [Hh Ho]%NoDup_cons.
  case_bool_decide as E; simpl; apply NoDup_cons; (split; [| auto]); [done |].
  rewrite hold_step_keys. intros [?|?]; done.
Qed.

Lemma hold_step_ok ds out d :
  NoDup (map h_Key out) -> (forall h, h ∈ out -> held_ok ds h) -> (forall k, of_key k ds <> [] -> k ∈ map h_Key out) ->
  forall h, h ∈ hold_step out d -> held_ok (ds ++ [d]) h.
Proof.
  intros Hnd Hok Hall.
  assert (forall h, held_ok ds h -> h_Key h <> td_Key d -> held_ok (ds ++ [d]) h) as Hother.
  { intros h (f & l & ? & ? & ? & ?) Hne. exists f, l. rewrite of_key_snoc, bool_decide_eq_false_2, app_nil_r by congruence. done. }
  assert (td_Key d ∉ map h_Key out -> of_key (td_Key d) ds = []) as Hnew.
  { intros Hn. destruct (of_key (td_Key d) ds) as [|x xs] eqn:E; [done |]. exfalso. apply Hn, Hall. by rewrite E. }
  clear Hall. induction out as [|g out IH]; simpl; intros h Hh.
  - apply list_elem_of_singleton in Hh as ->. exists d, d. simpl. rewrite of_key_snoc, bool_decide_eq_true_2, Hnew by (done || apply not_elem_of_nil).
    simpl. repeat split. rewrite dec_Rat_Add, dec_Rat_Zero. ring.
  - simpl in Hnd. apply NoDup_cons in Hnd as [Hg Hnd]. case_bool_decide as E; apply elem_of_cons in Hh as [->|Hh].
    + destruct (Hok g ltac:(left)) as (f & l & Hf & Hl & Hp & Hq). exists f, d. simpl. rewrite of_key_snoc, bool_decide_eq_true_2 by done.
      split; [| split; [by rewrite last_snoc | split; [by rewrite Hp |]]].
      * destruct (of_key (h_Key g) ds); simpl in *; [done | done].
      * by rewrite dec_Rat_Add, quantity_of_snoc, Hq.
    + apply Hother; [apply Hok; by right |]. intros Ek. apply Hg. rewrite E, <- Ek. by apply list_elem_of_fmap_2.
    + apply Hother; [apply Hok; by left | done].
    + apply IH; [done | intros x Hx; apply Hok; by right | | done]. intros Hn. apply Hnew. simpl. rewrite elem_of_cons. intros [?|?]; congruence.
Qed.

Lemma held_fold ds :
  let out := foldl hold_step [] ds in
  NoDup (map h_Key out) /\ (forall h, h ∈ out -> held_ok ds h) /\ (forall k, of_key k ds <> [] -> k ∈ map h_Key out).
Proof.
  induction ds as [|d ds (I1 & I2 & I3)] using rev_ind; simpl.
  { split; [constructor |]. split; [by intros h []%not_elem_of_nil | done]. }
  rewrite foldl_app. simpl. split; [by apply hold_step_NoDup |]. split; [by apply hold_step_ok |].
  intros k. rewrite of_key_snoc, hold_step_keys. case_bool_decide as E; [by right |]. rewrite app_nil_r. left. by apply I3.
Qed.

(** The key [k] holds a position at [x]: between its first transaction and its
    last, or and today where what it states does not sum to zero. *)
Definition holds_at (ds : list (txnDay D)) (today : time) (k : uuid) (x : time) : Prop :=
  exists f l, head (of_key k ds) = Some f /\ last (of_key k ds) = Some l /\ td_AsAt f <= x /\
    (quantity_of (of_key k ds) = 0%Qc -> x < AddDays (td_AsAt l) 1) /\
    (quantity_of (of_key k ds) <> 0%Qc -> x < AddDays (Day today) 1).

Lemma holdings_contains ds today x : AnyContains (holdings ds today) x = true <-> exists k, holds_at ds today k x.
Proof.
  unfold holdings. destruct (held_fold ds) as (_ & Hok & Hall). rewrite AnyContains_spec.
  assert (forall h, held_ok ds h -> Contains (held_until today h) x = true <-> holds_at ds today (h_Key h) x) as Hc.
  { intros h (f & l & Hf & Hl & Hp & Hq). rewrite Contains_spec. unfold held_until, holds_at. rewrite Hf, Hl, <- Hq.
    destruct (dec_IsZero (h_Sum h)) eqn:Ez.
    - apply dec_IsZero_spec in Ez. rewrite Hp. simpl. split; [intros [? ?]; exists f, l; repeat split; auto; done |].
      intros (f' & l' & [= <-] & [= <-] & ? & Hz & _). split; [done | by apply Hz].
    - assert (dec_Rat (h_Sum h) <> 0%Qc) as Hnz by (rewrite <- dec_IsZero_spec; congruence). simpl. rewrite Hp. simpl.
      split; [intros [? ?]; exists f, l; repeat split; auto; done |].
      intros (f' & l' & [= <-] & [= <-] & ? & _ & Hz). split; [done | by apply Hz]. }
  split.
  - intros (p & (h & -> & Hh)%list_elem_of_fmap & Hx). exists (h_Key h). by apply Hc; [apply Hok |].
  - intros [k Hk]. assert (k ∈ map h_Key (foldl hold_step [] ds)) as (h & -> & Hh)%list_elem_of_fmap.
    { apply Hall. destruct Hk as (f & _ & Hf & _). intros E. by rewrite E in Hf. }
    exists (held_until today h). split; [by apply list_elem_of_fmap_2 |]. apply Hc; [by apply Hok | done].
Qed.

(** ** Gaps *)

Lemma gaps_eq ivs settled d0 ds today :
  gaps ivs settled (d0 :: ds) today =
    map (gap_of (d0 :: ds))
      (let period := MkPeriod (td_AsAt d0) (AddDays (Day today) 1) in
       if negb (p_From period <? p_Before period) then [] else Gaps (settled ++ confirmed_clips ivs period) period).
Proof. unfold gaps. simpl. by destruct (negb _). Qed.

Lemma gaps_periods ivs settled ds today x :
  intervals_ok ivs -> Forall p_nonempty settled ->
  AnyContains (map g_Period (gaps ivs settled ds today)) x = true <->
    (exists d0, head ds = Some d0 /\ td_AsAt d0 <= x) /\ x < AddDays (Day today) 1 /\
    confirmedOn ivs x = false /\ AnyContains settled x = false.
Proof.
  intros Hok Hs. destruct ds as [|d0 ds]; [split; [done | by intros [(d & Hd & _) _]] |].
  rewrite gaps_eq, map_map. simpl. rewrite map_id.
  assert ((exists d, Some d0 = Some d /\ td_AsAt d <= x) <-> td_AsAt d0 <= x) as -> by (split; [by intros (? & [= <-] & ?) | by exists d0]).
  destruct (Z.ltb_spec (td_AsAt d0) (AddDays (Day today) 1)) as [Hlt|Hge]; simpl.
  - rewrite Gaps_contains by (apply Forall_app; split; [done | apply confirmed_clips_nonempty]).
    rewrite AnyContains_app, confirmed_clips_contains by done.
    pose proof (Contains_spec (MkPeriod (td_AsAt d0) (AddDays (Day today) 1)) x) as Hc. simpl in Hc.
    destruct (Contains _ x), (confirmedOn ivs x), (AnyContains settled x); simpl; intuition (done || lia).
  - split; [done |]. lia.
Qed.

Lemma gaps_shape ivs settled ds today :
  Forall p_nonempty settled ->
  Forall p_nonempty (map g_Period (gaps ivs settled ds today)) /\ StronglySorted apart (map g_Period (gaps ivs settled ds today)) /\
  forall g, g ∈ gaps ivs settled ds today -> g = gap_of ds (g_Period g).
Proof.
  intros Hs. destruct ds as [|d0 ds]; [split; [constructor | split; [constructor | by intros g []%not_elem_of_nil]] |].
  rewrite gaps_eq, map_map. simpl. rewrite map_id.
  destruct (negb _); [split; [constructor | split; [constructor | by intros g []%not_elem_of_nil]] |].
  destruct (Gaps_spec (settled ++ confirmed_clips ivs (MkPeriod (td_AsAt d0) (AddDays (Day today) 1))) (MkPeriod (td_AsAt d0) (AddDays (Day today) 1))) as (_ & H1 & H2).
  { apply Forall_app. split; [done | apply confirmed_clips_nonempty]. }
  split; [done |]. split; [done |]. by intros g (p & -> & _)%list_elem_of_fmap.
Qed.

Lemma Clip_overlap p q : (Clip p q).2 = true <-> exists x, Contains p x = true /\ Contains q x = true.
Proof.
  pose proof (fun x => clip_opt_contains p q x) as Hc. unfold clip_opt in Hc. pose proof (clip_opt_Some p q) as Hn.
  unfold clip_opt in Hn. destruct (Clip p q) as [c [|]]; simpl in *.
  - split; [intros _ | done]. destruct (Hn c eq_refl) as (_ & _ & Hne). exists (p_From c). rewrite <- andb_true_iff, Hc.
    apply Contains_spec. unfold p_nonempty in Hne. lia.
  - split; [done |]. intros (x & Hx). rewrite <- andb_true_iff, Hc in Hx. done.
Qed.

End Coverage.

(** * Properties *)

Section Properties.
Context {D : Type} `{DecimalLaws D}.

(** The gaps of a ticker are the days from its first transaction to today that
    no confirmed interval and no settled period holds, as ordered periods that
    neither overlap nor meet, each with the count of the transactions dated in it
    and of their keys. *)
Theorem gaps_spec ivs settled (ds : list (txnDay D)) today :
  intervals_ok ivs -> Forall p_nonempty settled ->
  let out := gaps ivs settled ds today in
  (forall x, AnyContains (map g_Period out) x = true <->
     (exists d0, head ds = Some d0 /\ td_AsAt d0 <= x) /\ x < AddDays (Day today) 1 /\
     (forall i, ~ names ivs x i Confirmed) /\ AnyContains settled x = false) /\
  Forall p_nonempty (map g_Period out) /\ StronglySorted apart (map g_Period out) /\
  forall g, g ∈ out ->
    let inside := List.filter (fun d => Contains (g_Period g) (td_AsAt d)) ds in
    g_Txns g = sum_txns inside /\ g_Keys g = size (list_to_set (C := gset uuid) (map td_Key inside)).
Proof.
  intros Hok Hs out. destruct (gaps_shape ivs settled ds today Hs) as (H1 & H2 & H3).
  split; [| split; [done | split; [done |]]].
  - intros x. unfold out. rewrite gaps_periods by done.
    assert ((forall i, ~ names ivs x i Confirmed) <-> confirmedOn ivs x = false) as ->; [| done].
    rewrite <- not_true_iff_false, confirmedOn_spec by done. naive_solver.
  - intros g Hg. pose proof (H3 g Hg) as E. destruct g as [p k n]. simpl in *. injection E as -> ->. done.
Qed.

(** A gap of a ticker that names something is an alert exactly when a key
    that states the ticker held a position on some day of the gap: from the
    key's first transaction to its last, or to today while the quantities it
    states do not sum to zero. *)
Theorem ticker_alerts_spec v ivs settled (ds : list (txnDay D)) today g :
  Any ivs = true ->
  g ∈ map tg_Gap (ticker_alerts v ivs settled ds today).2 <->
    g ∈ gaps ivs settled ds today /\ exists k x, Contains (g_Period g) x = true /\ holds_at ds today k x.
Proof.
  intros Hany. unfold ticker_alerts. rewrite Hany. cbn [negb snd].
  assert (forall g, existsb (fun p => (Clip p (g_Period g)).2) (holdings ds today) = true <->
    exists k x, Contains (g_Period g) x = true /\ holds_at ds today k x) as He.
  { intros g'. rewrite existsb_elem. setoid_rewrite Clip_overlap. split.
    - intros (p & Hp & x & Hx & Hgx). assert (AnyContains (holdings ds today) x = true) as [k Hk]%holdings_contains.
      { apply AnyContains_spec. by exists p. }
      by exists k, x.
    - intros (k & x & Hgx & Hk). assert (AnyContains (holdings ds today) x = true) as Hx by (apply holdings_contains; by exists k).
      apply AnyContains_spec in Hx as (p & Hp & Hx). exists p. split; [done |]. by exists x. }
  rewrite list_elem_of_fmap. setoid_rewrite list_elem_of_omap. split.
  - intros (a & -> & g' & Hg & Ha). destruct (existsb _ (holdings ds today)) eqn:E; [| done]. injection Ha as <-.
    simpl. split; [done | by apply He].
  - intros [Hg Hk]. exists (MkTickerGap v (gapInstr ivs (g_Period g)) g). split; [done |]. exists g. split; [done |]. by rewrite (proj2 (He g) Hk).
Qed.
End Properties.

(** * Witnesses *)

Definition ex_txns : list (txnDay fixed) :=
  [MkTxnDay 1 (ex_day 5) 1 (Fixed 10 0); MkTxnDay 2 (ex_day 6) 2 (Fixed 1 0); MkTxnDay 1 (ex_day 8) 1 (Fixed (-10) 0)].

Lemma gaps_spec_witness :
  gaps (dv_Intervals ex_derived) [] ex_txns (ex_day 32) = [MkGap (MkPeriod (ex_day 5) (ex_day 9)) 2 4; MkGap (MkPeriod (ex_day 30) (ex_day 33)) 0 0] /\
  StronglySorted apart (map g_Period (gaps (dv_Intervals ex_derived) [] ex_txns (ex_day 32))).
Proof.
  split; [vm_compute; reflexivity |].
  apply (gaps_spec (dv_Intervals ex_derived) [] ex_txns (ex_day 32) ex_intervals_ok). constructor.
Defined.

Lemma ticker_alerts_spec_witness :
  map tg_Gap (ticker_alerts (MkMarketTicker "US" "ABC") (dv_Intervals ex_derived) [] ex_txns (ex_day 32)).2 =
    gaps (dv_Intervals ex_derived) [] ex_txns (ex_day 32) /\
  exists k x, Contains (MkPeriod (ex_day 30) (ex_day 33)) x = true /\ holds_at ex_txns (ex_day 32) k x.
Proof.
  split; [vm_compute; reflexivity |].
  apply (ticker_alerts_spec (MkMarketTicker "US" "ABC") (dv_Intervals ex_derived) [] ex_txns (ex_day 32) (MkGap (MkPeriod (ex_day 30) (ex_day 33)) 0 0)).
  - vm_compute. reflexivity.
  - assert (map tg_Gap (ticker_alerts (MkMarketTicker "US" "ABC") (dv_Intervals ex_derived) [] ex_txns (ex_day 32)).2 =
      [MkGap (MkPeriod (ex_day 5) (ex_day 9)) 2 4; MkGap (MkPeriod (ex_day 30) (ex_day 33)) 0 0]) as -> by (vm_compute; reflexivity).
    right. left.
Defined.
