(* ===== verification/Splits.v ===== *)
(** Stated splits against the calendar, and what an administrator weighs,
    [server/internal/corpact]: which source a request goes to ([corpact.go]),
    the stated splits a fetch finds no action for ([split.go]), and the evidence
    about an action ([decision.go]). The texts of findings are left out. *)
From S2P Require Import Prelude Types Period Decimal Facts Derive Validity Rows Mic Tickers CorpAct Calendar CorpActStore.

(** * Requests and sources, [corpact.go] *)

Record CorpActRequest : Type := MkCorpActRequest {
  rq_Ticker : Identifier;
  rq_Period : Period;
}.

(** The key of [seen]: a ticker at its market, or the identifier as it is. *)
Definition request_key (mics : MICMap) (q : CorpActRequest) : MarketTicker + Identifier :=
  match mics_MarketTicker mics (rq_Ticker q) with Some t => inl t | None => inr (rq_Ticker q) end.

Definition distinct (mics : MICMap) (reqs : list CorpActRequest) : list CorpActRequest :=
  foldl (fun out q => if existsb (fun r => bool_decide (request_key mics r = request_key mics q)) out then out else out ++ [q]) [] reqs.

(** The enabled datasources, and whether each serves corporate actions. *)
Abbreviation Sources := (gmap string bool) (only parsing).

Inductive unusable : Type :=
| SourceUnset
| SourceNotEnabled (name : string)
| SourceNotServing (name : string).

Definition source (sources : Sources) (name : string) : string + unusable :=
  if bool_decide (name = ""%string) then inr SourceUnset
  else match sources !! name with
       | None => inr (SourceNotEnabled name)
       | Some false => inr (SourceNotServing name)
       | Some true => inl name
       end.

Record sourceGroup : Type := MkSourceGroup {
  sg_entry : string;
  sg_reqs : list CorpActRequest;
}.

(** One turn of the loop; the warnings are left out. *)
Definition source_step (mics : MICMap) (sources : Sources) (named : gmap string string)
    (out : list sourceGroup) (q : CorpActRequest) : list sourceGroup :=
  match mics_MarketTicker mics (rq_Ticker q) with
  | None => out
  | Some t =>
      match source sources (default ""%string (named !! mt_Market t)) with
      | inr _ => out
      | inl e =>
          match index_func (fun g => bool_decide (sg_entry g = e)) out with
          | Some i => alter (fun g => MkSourceGroup (sg_entry g) (sg_reqs g ++ [q])) i out
          | None => out ++ [MkSourceGroup e [q]]
          end
      end
  end.

Definition bySource (mics : MICMap) (sources : Sources) (named : gmap string string) (reqs : list CorpActRequest) : list sourceGroup :=
  foldl (source_step mics sources named) [] reqs.

(** The ticker an answer is recorded under. *)
Definition marketTicker (mics : MICMap) (q : CorpActRequest) : option MarketTicker :=
  t ← mics_MarketTicker mics (rq_Ticker q);
  match Spelled mics t with Ok _ => Some t | Err _ => None end.

(** * Stated splits, [split.go] *)

Record cover : Type := MkCover {
  cv_instr : uuid;
  cv_period : Period;
  cv_run : uuid;
}.

Record splitGroup (D : Type) : Type := MkSplitGroup {
  gr_key : uuid;
  gr_day : time;
  gr_instr : uuid;
  gr_ratios : list (Ratio D);
  gr_run : uuid;
}.
Arguments MkSplitGroup {D} _ _ _ _ _.
Arguments gr_key {D} _.
Arguments gr_day {D} _.
Arguments gr_instr {D} _.
Arguments gr_ratios {D} _.
Arguments gr_run {D} _.

(** A row of [ListStatedSplits]: a split and the instrument its key names on its
    date. *)
Record SplitRow (D : Type) : Type := MkSplitRow {
  sp_KeyID : uuid;
  sp_EffectiveDate : time;
  sp_RatioFrom : option D;
  sp_RatioTo : option D;
  sp_InstrID : uuid;
}.
Arguments MkSplitRow {D} _ _ _ _ _.
Arguments sp_KeyID {D} _.
Arguments sp_EffectiveDate {D} _.
Arguments sp_RatioFrom {D} _.
Arguments sp_RatioTo {D} _.
Arguments sp_InstrID {D} _.

(** A served fetch key and the ticker of its answer. *)
Record recordedKey : Type := MkRecordedKey {
  rk_Source : string;
  rk_RunID : uuid;
  rk_ticker : MarketTicker;
}.

Section Splits.
Context {D : Type} `{Decimal D}.

Definition sp_ratio (r : SplitRow D) : option (Ratio D) :=
  match sp_RatioFrom r, sp_RatioTo r with Some f, Some t => Some (MkRatio f t) | _, _ => None end.

(** The periods that one recorded key covers. *)
Definition covers_of (markets : gmap uuid string) (read : gmap MarketTicker (list Interval))
    (answers : gmap MarketTicker (Answer D)) (rec : recordedKey) : list cover :=
  match answers !! rk_ticker rec with
  | None => []
  | Some a =>
      if negb (bool_decide (aw_Datasource a = rk_Source rec)) then []
      else concat (map (fun iv =>
        if negb (bool_decide (default ""%string (markets !! iv_Instr iv) = mt_Market (rk_ticker rec))) then []
        else omap (fun c => let '(p, ok) := Interval_Clip iv c in if ok then Some (MkCover (iv_Instr iv) p (rk_RunID rec)) else None) (aw_Coverage a))
        (default [] (read !! rk_ticker rec)))
  end.

Definition coverage (db : tables D) (recorded : list recordedKey) (read : gmap MarketTicker (list Interval)) : list cover :=
  let instrs := foldl append_unique [] (concat (map (fun rec => map iv_Instr (default [] (read !! rk_ticker rec))) recorded)) in
  concat (map (covers_of (Markets db instrs) read (Read db (map rk_ticker recorded) always)) recorded).

Definition add_ratio (g : splitGroup D) (r : option (Ratio D)) : splitGroup D :=
  match r with
  | None => g
  | Some r =>
      if existsb (Ratio_Equal r) (gr_ratios g) then g
      else MkSplitGroup (gr_key g) (gr_day g) (gr_instr g) (gr_ratios g ++ [r]) (gr_run g)
  end.

Definition cover_holds (row : SplitRow D) (c : cover) : bool :=
  bool_decide (cv_instr c = sp_InstrID row) && Contains (cv_period c) (sp_EffectiveDate row).

Definition same_group (row : SplitRow D) (g : splitGroup D) : bool :=
  bool_decide (gr_key g = sp_KeyID row) && (gr_day g =? sp_EffectiveDate row).

Definition split_step (covers : list cover) (groups : list (splitGroup D)) (row : SplitRow D) : list (splitGroup D) :=
  match find_func (cover_holds row) covers with
  | None => groups
  | Some c =>
      match index_func (same_group row) groups with
      | Some i => alter (fun g => add_ratio g (sp_ratio row)) i groups
      | None => groups ++ [add_ratio (MkSplitGroup (sp_KeyID row) (sp_EffectiveDate row) (sp_InstrID row) [] (cv_run c)) (sp_ratio row)]
      end
  end.

(** [classOf] holds the class of each stored instrument. *)
Definition restatedOnly (classOf : gmap uuid AssetClass) (groups : list (splitGroup D)) : list (splitGroup D) :=
  delete_func (fun g => negb (match classOf !! gr_instr g with Some c => Restated c | None => false end)) groups.

Definition coveredSplits (classOf : gmap uuid AssetClass) (rows : list (SplitRow D)) (covers : list cover) : list (splitGroup D) :=
  match covers with
  | [] => []
  | _ => restatedOnly classOf (foldl (split_step covers) [] rows)
  end.

(** An action of the calendar that a split of the day may be. *)
Definition near (day : time) (e : Act D) : bool :=
  negb ((window <? days (act_ExDate e) day) || (negb (bool_decide (act_Decision e = None)) && negb (Restates e))).

(** What the calendar lacks of one group: nothing, a split without a ratio, or
    the first ratio it has no action of. *)
Definition unmatched_of (acts : list (Act D)) (g : splitGroup D) : option (option (Ratio D)) :=
  let es := List.filter (near (gr_day g)) acts in
  match gr_ratios g with
  | [] => if bool_decide (length es = 0%nat) then Some None else None
  | rs => Some <$> find_func (fun r => negb (existsb (fun e => Ratio_Equal (act_Ratio e) r) es)) rs
  end.

Definition unmatchedSplits (groups : list (splitGroup D)) (cal : gmap uuid (list (Act D))) : list (splitGroup D * option (Ratio D)) :=
  omap (fun g => (fun r => (g, r)) <$> unmatched_of (default [] (cal !! gr_instr g)) g) groups.

Definition calendar (db : tables D) (instrs : list uuid) : gmap uuid (list (Act D)) :=
  (fun c => aw_Acts (c_Answer c)) <$> Calendars db instrs.

(** The finding of one unmatched group. [next] is the id [db.NewID] gives. *)
Definition split_finding (next : uuid) (m : splitGroup D * option (Ratio D)) : Finding :=
  MkFinding next (gr_run m.1) FindingKindUnmatchedSplit (Some (gr_key m.1)) None (Some (gr_day m.1)) false.

(** [stmt_splits] gives the rows of [ListStatedSplits] for the instruments and
    ticker ids. *)
Definition splitFindings (db : tables D) (stmt_splits : list uuid -> list uuid -> list (SplitRow D)) (classOf : gmap uuid AssetClass)
    (recorded : list recordedKey) (next : uuid) : list Finding :=
  let ts := map rk_ticker recorded in
  let covers := coverage db recorded (Load db ts) in
  let instrs := foldl append_unique [] (map cv_instr covers) in
  let ids := map (fun r => tk_ID r.2) (map_to_list (Find (db_tickers db) ts)) in
  let groups := coveredSplits classOf (stmt_splits instrs ids) covers in
  let cal := calendar db (foldl append_unique [] (map gr_instr groups)) in
  imap (fun i => split_finding (next + N.of_nat i)%N) (unmatchedSplits groups cal).

(** The stored findings after the check, and how many of them are new. *)
Definition checkSplits (db : tables D) (stmt_splits : list uuid -> list uuid -> list (SplitRow D)) (classOf : gmap uuid AssetClass)
    (findings : list Finding) (recorded : list recordedKey) (next : uuid) : list Finding * nat :=
  match recorded with
  | [] => (findings, 0%nat)
  | _ => foldl (fun st f => let '(fs, created) := CreateStandingFinding st.1 f in (fs, if created then S st.2 else st.2))
           (findings, 0%nat) (splitFindings db stmt_splits classOf recorded next)
  end.

(** * Evidence, [decision.go] *)

Record InstrAct : Type := MkInstrAct {
  ia_Act : Act D;
  ia_Datasource : string;
  ia_Ticker : MarketTicker;
  ia_Applied : bool;
}.

(** A row of [ListInstrCorpActs], [ListUnknownCorpActs] or [GetCorpAct]: an action
    with its ticker, whether its datasource is the source of the market, and the
    instrument the ticker named on the ex-date. *)
Record ActListRow : Type := MkActListRow {
  al_Act : CorpActRow D;
  al_Datasource : string;
  al_Ticker : MarketTicker;
  al_Source : bool;
  al_InstrID : option uuid;
}.

(** [rows] are the stored actions of tickers that named [instr] on the ex-date. *)
Definition ListInstrActs (markets : gmap uuid string) (rows : list ActListRow) (instr : uuid) : list InstrAct :=
  map (fun r => MkInstrAct (toAct (al_Act r)) (al_Datasource r) (al_Ticker r)
    (al_Source r && bool_decide (mt_Market (al_Ticker r) = default ""%string (markets !! instr)))) rows.

Definition ListUnknownActs (markets : gmap uuid string) (rows : list ActListRow) : list InstrAct :=
  map (fun r => MkInstrAct (toAct (al_Act r)) (al_Datasource r) (al_Ticker r)
    (al_Source r && match al_InstrID r with
                    | Some i => bool_decide (mt_Market (al_Ticker r) = default ""%string (markets !! i))
                    | None => false
                    end)) rows.

Record StmtSplit : Type := MkStmtSplit {
  ss_EffectiveDate : time;
  ss_Ratio : option (Ratio D);
}.

Definition StmtSplit_same (s o : StmtSplit) : bool :=
  (ss_EffectiveDate s =? ss_EffectiveDate o) &&
  match ss_Ratio s, ss_Ratio o with
  | None, None => true
  | Some r, Some q => Ratio_Equal r q
  | _, _ => false
  end.

Record Evidence : Type := MkEvidence {
  ev_Act : InstrAct;
  ev_StmtSplits : list StmtSplit;
  ev_Others : list InstrAct;
}.

Definition set_Applied (a : InstrAct) (b : bool) : InstrAct := MkInstrAct (ia_Act a) (ia_Datasource a) (ia_Ticker a) b.

Definition evidence_step (ev : Evidence) (a : InstrAct) : Evidence :=
  if bool_decide (act_ID (ia_Act a) = act_ID (ia_Act (ev_Act ev))) then MkEvidence (set_Applied (ev_Act ev) (ia_Applied a)) (ev_StmtSplits ev) (ev_Others ev)
  else if negb (bool_decide (ia_Datasource a = ia_Datasource (ev_Act ev))) &&
          (days (act_ExDate (ia_Act a)) (act_ExDate (ia_Act (ev_Act ev))) <=? window)
  then MkEvidence (ev_Act ev) (ev_StmtSplits ev) (ev_Others ev ++ [a])
  else ev.

Definition stmt_step (at_ : time) (out : list StmtSplit) (r : SplitRow D) : list StmtSplit :=
  if window <? days (sp_EffectiveDate r) at_ then out
  else
    let s := MkStmtSplit (sp_EffectiveDate r) (sp_ratio r) in
    if existsb (StmtSplit_same s) out then out else out ++ [s].

(** [row] is the action, [ivs] its ticker's validity, [rows] and [splits] the
    actions and stated splits of an instrument. *)
Definition ReadEvidence (markets : gmap uuid string) (row : ActListRow) (ivs : list Interval)
    (rows : uuid -> list ActListRow) (splits : uuid -> list (SplitRow D)) : Evidence :=
  let act := toAct (al_Act row) in
  let ev := MkEvidence (MkInstrAct act (al_Datasource row) (al_Ticker row) false) [] [] in
  match On ivs (act_ExDate act) with
  | None => ev
  | Some iv =>
      let ev := foldl evidence_step ev (ListInstrActs markets (rows (iv_Instr iv)) (iv_Instr iv)) in
      MkEvidence (ev_Act ev) (foldl (stmt_step (act_ExDate act)) [] (splits (iv_Instr iv))) (ev_Others ev)
  end.

(** * Lemmas *)

Context `{!DecimalLaws D}.

Lemma day_diff a b : Day a = a -> Day b = b -> exists n, a - b = n * day_len.
Proof. unfold Day. intros Ha Hb. exists (a / day_len - b / day_len). rewrite <- Ha, <- Hb at 1. lia. Qed.

(** Within the range of a duration, dates at most seven days apart either way. *)
Lemma days_window a b : Day a = a -> Day b = b -> Z.abs (a - b) <= max_duration -> (window <? days a b) = (7 * day_len <? Z.abs (a - b)).
Proof.
  intros Ha Hb Hr. destruct (day_diff a b Ha Hb) as [n Hn]. pose proof day_len_pos as Hp. unfold days, Sub, window.
  rewrite Z.min_r, Z.max_r by (unfold max_duration in *; lia). rewrite Hn, Z.quot_mul by lia.
  rewrite Z.abs_mul, (Z.abs_eq day_len) by lia.
  destruct (Z.ltb_spec n 0); [rewrite Z.abs_neq by lia | rewrite Z.abs_eq by lia]; nia.
Qed.

Lemma near_spec day (e : Act D) :
  Day day = day -> Day (act_ExDate e) = act_ExDate e -> Z.abs (act_ExDate e - day) <= max_duration ->
  near day e = true <-> Z.abs (act_ExDate e - day) <= 7 * day_len /\ (act_Decision e = None \/ Restates e = true).
Proof.
  intros Hd He Hr. unfold near. rewrite days_window by done. rewrite negb_true_iff, orb_false_iff, andb_false_iff, !negb_false_iff, bool_decide_eq_true.
  rewrite Z.ltb_ge. done.
Qed.

Lemma unmatched_of_spec acts g :
  match unmatched_of acts g with
  | Some None => gr_ratios g = [] /\ forall e, e ∈ acts -> near (gr_day g) e = false
  | Some (Some r) => r ∈ gr_ratios g /\ forall e, e ∈ acts -> near (gr_day g) e = true -> Ratio_Equal (act_Ratio e) r = false
  | None => (gr_ratios g = [] -> exists e, e ∈ acts /\ near (gr_day g) e = true) /\
      forall r, r ∈ gr_ratios g -> exists e, e ∈ acts /\ near (gr_day g) e = true /\ Ratio_Equal (act_Ratio e) r = true
  end.
Proof.
  unfold unmatched_of. set (es := List.filter (near (gr_day g)) acts).
  assert (forall e, e ∈ es <-> e ∈ acts /\ near (gr_day g) e = true) as Hes by (intros; apply elem_of_lfilter).
  destruct (gr_ratios g) as [|r0 rs] eqn:Er.
  - case_bool_decide as El.
    + split; [done |]. intros e He. destruct (near (gr_day g) e) eqn:En; [| done].
      assert (e ∈ es) as Hin by (by apply Hes). destruct es; [by apply not_elem_of_nil in Hin | done].
    + destruct es as [|e es']; [done |]. split; [| by intros r []%not_elem_of_nil].
      intros _. exists e. apply Hes. by left.
  - rewrite <- Er. destruct (find_func _ (gr_ratios g)) as [r|] eqn:Ef; simpl.
    + apply find_some in Ef as [Hr Hn]. split; [by apply list_elem_of_In |]. rewrite negb_true_iff, existsb_false in Hn.
      intros e He Hnear. apply Hn. by apply Hes.
    + split; [by rewrite Er |]. intros r Hr. pose proof (find_none _ _ Ef r) as Hn. rewrite negb_false_iff, existsb_elem in Hn.
      destruct Hn as (e & [He Hnr]%Hes & Hq); [by apply list_elem_of_In |]. by exists e.
Qed.

(** ** Covered splits *)

Definition covered_row (covers : list cover) (r : SplitRow D) : Prop := exists c, c ∈ covers /\ cover_holds r c = true.

Definition group_id (g : splitGroup D) : uuid * time := (gr_key g, gr_day g).

Definition row_id (r : SplitRow D) : uuid * time := (sp_KeyID r, sp_EffectiveDate r).

Lemma same_group_eq r g : same_group r g = true <-> group_id g = row_id r.
Proof.
  unfold same_group, group_id, row_id. rewrite andb_true_iff, bool_decide_eq_true, Z.eqb_eq.
  split; [intros [-> ->]; done | by intros [= -> ->]].
Qed.

(** What a group states of the rows seen: one of its rows is covered and gave it
    its instrument, and its ratios are those of its covered rows, each once. *)
Definition group_ok (covers : list cover) (rows : list (SplitRow D)) (g : splitGroup D) : Prop :=
  (exists r c, r ∈ rows /\ row_id r = group_id g /\ sp_InstrID r = gr_instr g /\ c ∈ covers /\ cover_holds r c = true /\ gr_run g = cv_run c) /\
  (forall q, q ∈ gr_ratios g -> exists r, r ∈ rows /\ row_id r = group_id g /\ covered_row covers r /\ sp_ratio r = Some q) /\
  StronglySorted (fun q q' => Ratio_Equal q q' = false) (gr_ratios g).

Lemma add_ratio_id g q : group_id (add_ratio g q) = group_id g /\ gr_instr (add_ratio g q) = gr_instr g /\ gr_run (add_ratio g q) = gr_run g.
Proof. unfold add_ratio. destruct q as [q|]; [| done]. by destruct (existsb _ _). Qed.

Lemma add_ratio_ratios g q :
  StronglySorted (fun q q' => Ratio_Equal q q' = false) (gr_ratios g) ->
  StronglySorted (fun q q' => Ratio_Equal q q' = false) (gr_ratios (add_ratio g q)) /\
  (forall x, x ∈ gr_ratios (add_ratio g q) -> x ∈ gr_ratios g \/ q = Some x) /\
  (forall x, x ∈ gr_ratios g -> x ∈ gr_ratios (add_ratio g q)) /\
  (forall x, q = Some x -> exists y, y ∈ gr_ratios (add_ratio g q) /\ Ratio_Equal x y = true).
Proof.
  intros Hs. unfold add_ratio. destruct q as [q|]; [| repeat split; auto; done].
  destruct (existsb (Ratio_Equal q) (gr_ratios g)) eqn:E.
  - repeat split; auto. intros x [= <-]. by apply existsb_elem.
  - rewrite existsb_false in E. simpl. split; [| split; [| split]].
    + clear -Hs E DecimalLaws0. induction Hs as [|a l Hs IH Ha]; simpl; [repeat constructor |]. constructor; [apply IH; intros; apply E; by right |].
      apply Forall_app. split; [done |]. apply Forall_singleton. rewrite Ratio_Equal_comm. apply E. by left.
    + intros x. rewrite elem_of_app, list_elem_of_singleton. naive_solver.
    + intros x Hx. apply elem_of_app. by left.
    + intros x [= <-]. exists q. split; [apply elem_of_app; right; by left | apply Ratio_Equal_refl].
Qed.

Lemma group_ok_mono covers rows r g : group_ok covers rows g -> group_ok covers (rows ++ [r]) g.
Proof.
  intros ((r0 & c & Hr & ?) & H2 & H3). split; [| split; [| done]].
  - exists r0, c. split; [apply elem_of_app; by left | done].
  - intros q Hq. destruct (H2 q Hq) as (r' & Hr' & ?). exists r'. split; [apply elem_of_app; by left | done].
Qed.

Lemma group_ok_add covers rows r g :
  covered_row covers r -> row_id r = group_id g -> group_ok covers (rows ++ [r]) g -> group_ok covers (rows ++ [r]) (add_ratio g (sp_ratio r)).
Proof.
  intros Hc Hid (H1 & H2 & H3). destruct (add_ratio_id g (sp_ratio r)) as (E1 & E2 & E3).
  destruct (add_ratio_ratios g (sp_ratio r) H3) as (A1 & A2 & _). split; [by rewrite E1, E2, E3 | split; [| done]].
  intros q [Hq|Hq]%A2; rewrite E1; [by apply H2 |]. exists r. split; [apply elem_of_app; right; by left | done].
Qed.

Record groups_ok (covers : list cover) (rows : list (SplitRow D)) (groups : list (splitGroup D)) : Prop := {
  go_ids : NoDup (map group_id groups);
  go_ok g : g ∈ groups -> group_ok covers rows g;
  go_all r : r ∈ rows -> covered_row covers r -> exists g, g ∈ groups /\ group_id g = row_id r /\
    forall q, sp_ratio r = Some q -> exists y, y ∈ gr_ratios g /\ Ratio_Equal q y = true;
}.

Lemma alter_ids {A B} (f : A -> A) (id : A -> B) i (l : list A) : (forall x, id (f x) = id x) -> map id (alter f i l) = map id l.
Proof. intros Hf. revert i. induction l as [|x l IH]; intros [|i]; simpl; [done | done | by rewrite Hf | f_equal; apply IH]. Qed.

Lemma elem_of_alter {A} (f : A -> A) i (l : list A) y : y ∈ alter f i l -> y ∈ l \/ exists x, l !! i = Some x /\ y = f x.
Proof.
  revert i. induction l as [|x l IH]; intros [|i]; simpl; [by intros []%not_elem_of_nil | by intros []%not_elem_of_nil | |].
  - intros [->|Hy]%elem_of_cons; [right; by exists x | left; by right].
  - intros [->|Hy]%elem_of_cons; [left; by left |]. destruct (IH i Hy) as [?|?]; [left; by right | by right].
Qed.

Lemma elem_of_alter_2 {A} (f : A -> A) i (l : list A) x : x ∈ l -> x ∈ alter f i l \/ f x ∈ alter f i l.
Proof.
  revert i. induction l as [|y l IH]; intros [|i]; simpl; try (by intros []%not_elem_of_nil); intros [->|Hx]%elem_of_cons.
  - right. left.
  - left. by right.
  - left. by left.
  - destruct (IH i Hx) as [?|?]; [left | right]; by right.
Qed.

Lemma covered_row_dec covers r : match find_func (cover_holds r) covers with Some c => c ∈ covers /\ cover_holds r c = true | None => ~ covered_row covers r end.
Proof.
  destruct (find_func _ covers) as [c|] eqn:E.
  - apply find_some in E as [Hc Hh]. by rewrite list_elem_of_In.
  - intros (c & Hc & Hh). pose proof (find_none _ _ E c) as Hn. rewrite Hn in Hh; [done | by apply list_elem_of_In].
Qed.

Lemma split_step_ok covers rows groups r :
  groups_ok covers rows groups -> groups_ok covers (rows ++ [r]) (split_step covers groups r).
Proof.
  intros [G1 G2 G3]. unfold split_step. pose proof (covered_row_dec covers r) as Hc.
  destruct (find_func (cover_holds r) covers) as [c|].
  2: { split; [done | intros g Hg; by apply group_ok_mono, G2 |].
       intros r' [Hr| ->%list_elem_of_singleton]%elem_of_app Hcov; [by apply G3 | done]. }
  destruct Hc as [Hc Hh]. assert (covered_row covers r) as Hcov by (by exists c).
  destruct (index_func (same_group r) groups) as [i|] eqn:Ei.
  - apply index_func_Some in Ei as (g0 & Hg0 & Hs%same_group_eq & _). split.
    + rewrite alter_ids; [done |]. intros x. apply add_ratio_id.
    + intros g Hg. apply elem_of_alter in Hg as [Hg|(x & Hx & ->)]; [by apply group_ok_mono, G2 |].
      rewrite Hg0 in Hx. injection Hx as <-. apply group_ok_add; [done | done |]. apply group_ok_mono, G2. by apply (list_elem_of_lookup_2 _ i).
    + assert (forall g, g ∈ groups -> exists g', g' ∈ alter (fun g => add_ratio g (sp_ratio r)) i groups /\ group_id g' = group_id g /\
        forall q, q ∈ gr_ratios g -> q ∈ gr_ratios g') as Hkeep.
      { intros g Hg. destruct (elem_of_alter_2 (fun g => add_ratio g (sp_ratio r)) i groups g Hg) as [?|?]; [by exists g |].
        exists (add_ratio g (sp_ratio r)). split; [done |]. split; [apply add_ratio_id |]. apply add_ratio_ratios. by apply G2. }
      intros r' [Hr| ->%list_elem_of_singleton]%elem_of_app Hcr.
      * destruct (G3 r' Hr Hcr) as (g & Hg & Eg & Hq). destruct (Hkeep g Hg) as (g' & Hg' & Eg' & Hq').
        exists g'. split; [done |]. split; [congruence |]. intros q Eq. destruct (Hq q Eq) as (y & Hy & ?). exists y. auto.
      * exists (add_ratio g0 (sp_ratio r)). split; [| split].
        -- apply (list_elem_of_lookup_2 _ i). by rewrite list_lookup_alter_eq, Hg0.
        -- rewrite (proj1 (add_ratio_id _ _)). done.
        -- apply add_ratio_ratios. apply G2. by apply (list_elem_of_lookup_2 _ i).
  - rewrite index_func_None in Ei. set (g0 := MkSplitGroup _ _ _ _ _). destruct (add_ratio_id g0 (sp_ratio r)) as (E1 & _).
    assert (group_ok covers (rows ++ [r]) g0) as Hg0.
    { split; [| split; [by intros q []%not_elem_of_nil | constructor]]. exists r, c. split; [apply elem_of_app; right; by left | done]. }
    split.
    + rewrite map_app. apply NoDup_app. split; [done |]. split; [| apply NoDup_singleton].
      intros x (g & -> & Hg)%list_elem_of_fmap Hin%list_elem_of_singleton. rewrite E1 in Hin. specialize (Ei g Hg).
      rewrite <- not_true_iff_false, same_group_eq in Ei. by apply Ei.
    + intros g [Hg| ->%list_elem_of_singleton]%elem_of_app; [by apply group_ok_mono, G2 |]. by apply group_ok_add.
    + intros r' [Hr| ->%list_elem_of_singleton]%elem_of_app Hcr.
      * destruct (G3 r' Hr Hcr) as (g & Hg & ?). exists g. split; [apply elem_of_app; by left | done].
      * exists (add_ratio g0 (sp_ratio r)). split; [apply elem_of_app; right; by left |]. split; [done |].
        apply add_ratio_ratios. constructor.
Qed.

Lemma split_fold covers rows : groups_ok covers rows (foldl (split_step covers) [] rows).
Proof.
  induction rows as [|r rows IH] using rev_ind.
  - split; [constructor | by intros g []%not_elem_of_nil | by intros r []%not_elem_of_nil].
  - rewrite foldl_app. by apply split_step_ok.
Qed.

End Splits.

(** * Properties *)

Section Properties.
Context {D : Type} `{DecimalLaws D}.

(** A group of stated splits is reported exactly when the calendar lacks it:
    it states no ratio and no action that may be one falls within seven days of
    its day, or one of the ratios it states has no such action of equal value.
    An action decided as one that leaves the quantity alone is no match. The
    ratio reported is one the actions lack. *)
Theorem unmatchedSplits_spec (groups : list (splitGroup D)) (cal : gmap uuid (list (Act D))) :
  (forall g e, g ∈ groups -> e ∈ default [] (cal !! gr_instr g) ->
     Day (gr_day g) = gr_day g /\ Day (act_ExDate e) = act_ExDate e /\ Z.abs (act_ExDate e - gr_day g) <= max_duration) ->
  let may_be g e := e ∈ default [] (cal !! gr_instr g) /\ Z.abs (act_ExDate e - gr_day g) <= 7 * day_len /\
    (act_Decision e = None \/ Restates e = true) in
  let out := unmatchedSplits groups cal in
  (forall g, (exists r, (g, r) ∈ out) <-> g ∈ groups /\
     (gr_ratios g = [] /\ (forall e, ~ may_be g e) \/
      exists r, r ∈ gr_ratios g /\ forall e, may_be g e -> Ratio_Equal (act_Ratio e) r = false)) /\
  (forall g r, (g, Some r) ∈ out -> r ∈ gr_ratios g /\ forall e, may_be g e -> Ratio_Equal (act_Ratio e) r = false).
Proof.
  intros Hdates may_be out.
  assert (forall g r, (g, r) ∈ out <-> g ∈ groups /\ unmatched_of (default [] (cal !! gr_instr g)) g = Some r) as Hout.
  { intros g r. unfold out, unmatchedSplits. rewrite list_elem_of_omap. split.
    - intros (g' & Hg & E). destruct (unmatched_of _ g') eqn:Eu; [| done]. by injection E as -> ->.
    - intros [Hg E]. exists g. by rewrite E. }
  assert (forall g, g ∈ groups -> forall e, may_be g e <-> e ∈ default [] (cal !! gr_instr g) /\ near (gr_day g) e = true) as Hmay.
  { intros g Hg e. unfold may_be. split; intros [He ?]; (split; [done |]); destruct (Hdates g e Hg He) as (? & ? & ?); by apply near_spec. }
  split.
  - intros g. setoid_rewrite Hout. pose proof (unmatched_of_spec (default [] (cal !! gr_instr g)) g) as Hu. split.
    + intros (r & Hg & E). rewrite E in Hu. split; [done |]. destruct r as [r|].
      * right. exists r. split; [apply Hu |]. intros e [He Hn]%Hmay; [| done]. by apply Hu.
      * left. split; [apply Hu |]. intros e [He Hn]%Hmay; [| done]. destruct Hu as [_ Hu]. rewrite Hu in Hn; done.
    + intros [Hg Hcase]. destruct (unmatched_of _ g) as [r|] eqn:E; [by exists r | exfalso]. destruct Hu as [U1 U2].
      destruct Hcase as [[Hr Hno]|(r & Hr & Hno)].
      * destruct (U1 Hr) as (e & He & Hn). apply (Hno e). by apply Hmay.
      * destruct (U2 r Hr) as (e & He & Hn & Hq). rewrite (Hno e) in Hq; [done | by apply Hmay].
  - intros g r [Hg E]%Hout. pose proof (unmatched_of_spec (default [] (cal !! gr_instr g)) g) as Hu. rewrite E in Hu.
    split; [apply Hu |]. intros e [He Hn]%Hmay; [| done]. by apply Hu.
Qed.

(** The covered splits are the stated splits that the recorded answers cover,
    of instruments of a restated class, grouped by key and day: one group for
    each, with every ratio its covered rows state and each of those once. *)
Theorem coveredSplits_spec classOf (rows : list (SplitRow D)) covers :
  let out := coveredSplits classOf rows covers in
  NoDup (map group_id out) /\
  (forall g, g ∈ out -> group_ok covers rows g /\ exists c, classOf !! gr_instr g = Some c /\ Restated c = true) /\
  (forall r, r ∈ rows -> covered_row covers r ->
     exists g, group_id g = row_id r /\ (forall q, sp_ratio r = Some q -> exists y, y ∈ gr_ratios g /\ Ratio_Equal q y = true) /\
       ((exists c, classOf !! gr_instr g = Some c /\ Restated c = true) -> g ∈ out)).
Proof.
  intros out. destruct (split_fold covers rows) as [G1 G2 G3]. set (all := foldl (split_step covers) [] rows) in *.
  assert (forall g, g ∈ out <-> g ∈ all /\ exists c, classOf !! gr_instr g = Some c /\ Restated c = true) as Hout.
  { intros g. unfold out, coveredSplits. destruct covers as [|c0 cs].
    - split; [by intros []%not_elem_of_nil |]. intros [Hg _]. destruct (G2 g Hg) as ((? & ? & _ & _ & _ & []%not_elem_of_nil & _) & _).
    - unfold restatedOnly. fold all. rewrite elem_of_delete_func, negb_false_iff. split; intros [Hg Hc]; (split; [done |]).
      + destruct (classOf !! gr_instr g) as [c|]; [by exists c | done].
      + by destruct Hc as (c & -> & ?). }
  split; [| split].
  - unfold out, coveredSplits. destruct covers; [constructor |]. apply NoDup_key_filter. done.
  - intros g [Hg Hc]%Hout. split; [by apply G2 | done].
  - intros r Hr Hc. destruct (G3 r Hr Hc) as (g & Hg & E & Hq). exists g. split; [done |]. split; [done |]. intros Hcl. by apply Hout.
Qed.
End Properties.

(** * Witnesses *)

Definition ex_stated : splitGroup fixed := MkSplitGroup 1 (20 * day_len) 7 [MkRatio (Fixed 1 0) (Fixed 2 0); MkRatio (Fixed 1 0) (Fixed 3 0)] 4.

Definition ex_split_calendar : gmap uuid (list (Act fixed)) :=
  {[7%N := [MkAct 10 (25 * day_len) (MkRatio (Fixed 2 0) (Fixed 4 0)) "" true None;
            MkAct 11 (20 * day_len) (MkRatio (Fixed 1 0) (Fixed 3 0)) "" true (Some CorpActDecisionRightsIssue)]]}.

Lemma unmatchedSplits_spec_witness :
  unmatchedSplits [ex_stated] ex_split_calendar = [(ex_stated, Some (MkRatio (Fixed 1 0) (Fixed 3 0)))] /\
  (MkRatio (Fixed 1 0) (Fixed 3 0)) ∈ gr_ratios ex_stated.
Proof.
  assert (unmatchedSplits [ex_stated] ex_split_calendar = [(ex_stated, Some (MkRatio (Fixed 1 0) (Fixed 3 0)))]) as E by (vm_compute; reflexivity).
  split; [exact E |]. apply (unmatchedSplits_spec [ex_stated] ex_split_calendar).
  - assert (default [] (ex_split_calendar !! gr_instr ex_stated) = [MkAct 10 (25 * day_len) (MkRatio (Fixed 2 0) (Fixed 4 0)) "" true None;
      MkAct 11 (20 * day_len) (MkRatio (Fixed 1 0) (Fixed 3 0)) "" true (Some CorpActDecisionRightsIssue)]) as Ed by (vm_compute; reflexivity).
    intros g e Hg He. apply list_elem_of_singleton in Hg as ->. rewrite Ed in He.
    apply elem_of_cons in He as [->|He]; [repeat split; vm_compute; (reflexivity || discriminate) |].
    apply list_elem_of_singleton in He as ->. repeat split; vm_compute; (reflexivity || discriminate).
  - rewrite E. left.
Defined.

Definition ex_split_row : SplitRow fixed := MkSplitRow 1 (20 * day_len) (Some (Fixed 1 0)) (Some (Fixed 2 0)) 7.

Definition ex_cover : cover := MkCover 7 (MkPeriod (10 * day_len) (30 * day_len)) 4.

Lemma coveredSplits_spec_witness :
  let out := coveredSplits {[7%N := AssetClassStock]} [ex_split_row; ex_split_row] [ex_cover] in
  length out = 1%nat /\ NoDup (map group_id out).
Proof. split; [vm_compute; reflexivity | apply (coveredSplits_spec {[7%N := AssetClassStock]} [ex_split_row; ex_split_row] [ex_cover])]. Defined.
