(* ===== verification/Bounds.v ===== *)
(** Where the bounds of ticker validity come from: each bound of an interval that
    [derive] answers is a bound of an assertion, of the period its request asked
    of, or of assertion coverage. Whatever holds of each of those holds of each
    bound of the answer; the facts of the database are whole days, so the
    intervals are. *)
From S2P Require Import Prelude Period Facts Winners Derive.

Section Bounds.
Context (P : time -> Prop).

Definition p_all (p : Period) : Prop := P (p_From p) /\ P (p_Before p).

(** What [current] reads of an assertion. *)
Definition as_all (a : Assertion) : Prop :=
  p_all (as_Period a) /\ (p_From (src_Asked (as_Source a)) < p_Before (src_Asked (as_Source a)) -> p_all (src_Asked (as_Source a))).

Definition facts_all (f : facts) : Prop := Forall as_all (f_Assertions f) /\ Forall p_all (periods (f_AssertionCoverage f)).

Definition opt_all (o : option time) : Prop := forall x, o = Some x -> P x.

Definition iv_all (iv : Interval) : Prop := opt_all (iv_From iv) /\ opt_all (iv_Before iv).

Definition w_all (w : winner) : Prop := p_all (w_period w).

Definition s_all (s : span) : Prop := p_all (s_period s).

Lemma Union_all ps : Forall p_all ps -> Forall p_all (Union ps).
Proof.
  rewrite !Forall_forall. intros H p Hp. destruct (Union_bounds ps p Hp) as [(q & Hq & E1) (r & Hr & E2)].
  unfold p_all. rewrite E1, E2. split; [by apply (H q) | by apply (H r)].
Qed.

(** ** [current] *)

Lemma clip_add_all a f b : P f -> P b -> Forall (fun x => p_all (as_Period x)) (clip_add a f b).
Proof. intros. unfold clip_add. case_match; [constructor |]. by repeat constructor. Qed.

Lemma clip_loop_all a taken from :
  p_all (as_Period a) -> Forall p_all taken -> P from -> Forall (fun x => p_all (as_Period x)) (clip_loop a taken from).
Proof.
  intros [_ Ha] Ht. revert from. induction Ht as [|t taken [H1 H2] _ IH]; intros from Hf; cbn [clip_loop]; [by apply clip_add_all |].
  case_match; [by apply IH |]. case_match; [by apply clip_add_all |]. apply Forall_app. split; [| by apply IH].
  case_match; [by apply clip_add_all | constructor].
Qed.

Lemma reach_all a : as_all a -> Forall p_all (reach a).
Proof.
  intros [H1 H2]. unfold reach. constructor; [done |]. case_match eqn:E; repeat constructor; apply H2; lia.
Qed.

Lemma replaced_all l a : Forall as_all l -> Forall p_all (replaced l a).
Proof.
  rewrite Forall_forall. intros H. apply Union_all, Forall_forall.
  intros p (b & [Hb _]%elem_of_later_answers & Hp)%elem_of_concat_map. specialize (reach_all b (H b Hb)). rewrite Forall_forall. auto.
Qed.

Lemma edges_of_all a e : p_all (as_Period a) -> e ∈ edges_of a -> P (e_At e).
Proof.
  intros [H1 H2]. unfold edges_of. rewrite elem_of_app.
  intros [He|He]; case_match; try (by apply not_elem_of_nil in He); apply list_elem_of_singleton in He as ->; done.
Qed.

Lemma current_all l out es :
  assertions_ok l -> Forall as_all l -> current l = Some (out, es) ->
  Forall (fun x => p_all (as_Period x)) out /\ Forall (fun e => P (e_At e)) es.
Proof.
  intros Hok Hall Hc. rewrite current_eq in Hc by done. unfold current_spec in Hc. simplify_eq.
  pose proof Hall as Hall'. rewrite Forall_forall in Hall'. split; apply Forall_forall.
  - intros x (a & Ha & Hx)%elem_of_concat_map. destruct (Hall' a Ha) as [Hp _].
    specialize (clip_loop_all a (replaced l a) (p_From (as_Period a)) Hp (replaced_all l a Hall) (proj1 Hp)).
    rewrite Forall_forall. auto.
  - intros e (a & Ha & He)%elem_of_concat_map. apply elem_of_lfilter in He as [He _]. apply (edges_of_all a); [by apply Hall' | done].
Qed.

(** ** [winners] *)

Lemma win_append_all cut from before best out :
  P from -> P before -> Forall (fun w => w_all w.1) out -> Forall (fun w => w_all w.1) (win_append cut from before best out).
Proof.
  intros Hf Hb Ho. unfold win_append. destruct out as [|[w i] out]; [repeat constructor; done |].
  case_match; [| constructor; [done | exact Ho]]. inversion_clear Ho as [|? ? [H1 H2] H3]. by repeat constructor.
Qed.

Lemma win_loop_all cs cut st bounds :
  Forall P bounds -> Forall (fun w => w_all w.1) (ws_out st) -> Forall (fun w => w_all w.1) (ws_out (win_loop cs cut st bounds)).
Proof.
  intros Hb. revert st. induction Hb as [|f bounds Hf Hb IH]; intros st Hst; [done |].
  destruct bounds as [|b bounds]; [done |]. cbn [win_loop]. apply IH. unfold win_step.
  case_match; [| done]. apply win_append_all; [done | by inversion Hb | done].
Qed.

Lemma winners_all l es ws gs :
  Forall (fun a => p_all (as_Period a)) l -> Forall (fun e => P (e_At e)) es -> winners l es = (ws, gs) -> Forall w_all ws.
Proof.
  intros Hl He [= <- _]. apply Forall_forall. intros w Hw. rewrite <- Permutation_rev in Hw.
  apply list_elem_of_fmap in Hw as (wi & -> & Hw).
  revert wi Hw. apply Forall_forall, win_loop_all; [| constructor]. apply Forall_forall. intros x Hx.
  apply elem_of_sorted_times, elem_of_app in Hx as [Hx|Hx].
  - apply elem_of_concat_map in Hx as ([i a] & Hia & Hx).
    assert (as_all' : a ∈ l).
    { unfold counted in Hia. destruct (foldl _ _ _). apply elem_of_lfilter in Hia as [Hia%elem_of_imap_pair%list_elem_of_lookup_2 _].
      by rewrite <- (sort_func_perm by_first l). }
    rewrite Forall_forall in Hl. destruct (Hl a as_all') as [H1 H2].
    apply elem_of_cons in Hx as [->|Hx]; [done |]. by apply list_elem_of_singleton in Hx as ->.
  - apply list_elem_of_fmap in Hx as (e & -> & Hx). rewrite Forall_forall in He. by apply He.
Qed.

Lemma spans_all ws : winners_ok ws -> Forall w_all ws -> Forall s_all (spans ws).
Proof.
  intros Hok Hw. rewrite Forall_forall in Hw. apply Forall_forall. intros s Hs.
  destruct (sp_bounds _ _ (spans_meets ws Hok) s Hs) as (v & w & Hv & Hu & _ & _ & E1 & E2 & _).
  unfold s_all, p_all, s_period. simpl. rewrite <- E1, <- E2. split; [by apply (Hw v) | by apply (Hw w)].
Qed.

(** ** Segments *)

Lemma forward_all cover d limit : Forall p_all cover -> P d -> opt_all limit -> P (forward d limit cover).
Proof.
  intros Hc Hd Hl. unfold forward.
  assert (P (foldl (fun d p => if Contains p d then p_Before p else d) d cover)).
  { clear Hl. revert d Hd. induction Hc as [|p cover [_ Hp] _ IH]; intros d Hd; [done |]. simpl. apply IH. by case_match. }
  destruct limit as [l|]; [| done]. case_match; [by apply Hl | done].
Qed.

Lemma back_all cover d limit : Forall p_all cover -> P d -> opt_all limit -> P (back d limit cover).
Proof.
  intros Hc' Hd Hl. unfold back. assert (Forall p_all (rev cover)) as Hc by (by rewrite <- Permutation_rev). clear Hc'.
  assert (P (foldl (fun d p => if Contains p (prev d) then p_From p else d) d (rev cover))).
  { clear Hl. revert d Hd. induction Hc as [|p ps [Hp _] _ IH]; intros d Hd; [done |]. simpl. apply IH. by case_match. }
  destruct limit as [l|]; [| done]. case_match; [by apply Hl | done].
Qed.

Lemma opt_all_Some x : P x -> opt_all (Some x).
Proof. by intros ? ? [= <-]. Qed.

Lemma span_intervals_all first r i floor ceil cover :
  Forall p_all cover -> s_all r -> opt_all floor -> opt_all ceil -> Forall iv_all (span_intervals first r i floor ceil cover).
Proof.
  intros Hc [H1 H2] Hf Hl. unfold span_intervals.
  pose proof (opt_all_Some _ (back_all cover (s_from r) floor Hc H1 Hf)) as Hb.
  pose proof (opt_all_Some _ (forward_all cover (s_before r) ceil Hc H2 Hl)) as Ht.
  repeat (apply Forall_app; split); repeat case_match; repeat constructor; done.
Qed.

Lemma segment_loop_all cover stop : forall ss first floor,
  Forall p_all cover -> opt_all stop -> Forall s_all ss -> opt_all floor -> Forall iv_all (segment_loop first floor ss stop cover).1.
Proof.
  intros ss. induction ss as [|r ss IH]; intros first floor Hc Hst Hss Hf; [constructor |].
  apply Forall_cons in Hss as [Hr Hss]. cbn [segment_loop].
  set (ceil := match ss with n :: _ => Some (s_from n) | [] => stop end).
  assert (opt_all ceil) as Hceil.
  { subst ceil. destruct ss as [|n ss]; [done |]. apply opt_all_Some. apply Forall_cons in Hss as [[Hn _] _]. exact Hn. }
  destruct (s_instr r) as [i|].
  - specialize (IH false ceil Hc Hst Hss Hceil). destruct (segment_loop false ceil ss stop cover). apply Forall_app.
    split; [by apply span_intervals_all | exact IH].
  - specialize (IH false (Some (s_before r)) Hc Hst Hss (opt_all_Some _ (proj2 Hr))).
    destruct (segment_loop false _ ss stop cover). exact IH.
Qed.

Lemma derive_loop_all cover : forall bounds start ws,
  Forall p_all cover -> Forall P bounds -> opt_all start -> winners_ok ws -> Forall w_all ws ->
  Forall iv_all (derive_loop bounds start ws cover).1.
Proof.
  induction bounds as [|b bounds IH]; intros start ws Hc Hb Hs Hok Hw; cbn [derive_loop].
  - destruct (take_segment None ws) as [seg rest] eqn:Et. destruct (take_segment_spec _ _ _ _ Hok Et) as (-> & _ & _).
    apply Forall_app in Hw as [Hw _]. apply winners_ok_app in Hok as [Hok _]. unfold segment.
    pose proof (segment_loop_all cover None (spans seg) true start Hc ltac:(by intros ?) (spans_all seg Hok Hw) Hs) as H.
    by destruct (segment_loop true start (spans seg) None cover).
  - destruct (take_segment (Some b) ws) as [seg rest] eqn:Et. destruct (take_segment_spec _ _ _ _ Hok Et) as (-> & _ & _).
    apply Forall_app in Hw as [Hw Hr]. apply winners_ok_app in Hok as [Hok Hok']. apply Forall_cons in Hb as [Hb1 Hb2]. unfold segment.
    pose proof (segment_loop_all cover (Some b) (spans seg) true start Hc (opt_all_Some _ Hb1) (spans_all seg Hok Hw) Hs) as H.
    specialize (IH (Some b) rest Hc Hb2 (opt_all_Some _ Hb1) Hok' Hr).
    destruct (segment_loop true start (spans seg) (Some b) cover), (derive_loop bounds (Some b) rest cover).
    apply Forall_app. done.
Qed.

Lemma join_all ivs : Forall iv_all ivs -> Forall iv_all (join_intervals ivs).
Proof.
  intros H. unfold join_intervals. apply Forall_forall. intros x Hx. rewrite <- Permutation_rev in Hx. revert x Hx. apply Forall_forall.
  assert (forall out, Forall iv_all out -> Forall iv_all (foldl join_step out ivs)) as Hf; [| apply Hf; constructor].
  induction H as [|iv ivs [H1 H2] _ IH]; intros out Ho; [done |]. simpl. apply IH. destruct out as [|p out]; [by repeat constructor |].
  simpl. case_match; [| constructor; [done | exact Ho]]. apply Forall_cons in Ho as [[Hp _] Ho]. by repeat constructor.
Qed.

Lemma derive_all f dv : facts_ok f -> facts_all f -> derive f = Some dv -> Forall iv_all (dv_Intervals dv).
Proof.
  intros Hok [Ha Hc] Hd. pose proof Hd as Hd'. destruct (derive_inv f dv Hok Hd) as (l & es & Hst).
  unfold derive in Hd'. rewrite (dt_current _ _ _ _ Hst) in Hd'. cbn [mbind option_bind] in Hd'.
  rewrite (dt_winners _ _ _ _ Hst) in Hd'. destruct (current_all _ _ _ (fo_assertions f Hok) Ha (dt_current _ _ _ _ Hst)) as [Hl He].
  pose proof (winners_all _ _ _ _ Hl He (dt_winners _ _ _ _ Hst)) as Hw.
  pose proof (derive_loop_all (Union (periods (f_AssertionCoverage f))) (cut_days l es) None (dv_winners dv)
    (Union_all _ Hc)) as Hloop. unfold cut_days in Hloop.
  destruct (derive_loop _ None (dv_winners dv) _) as [out inf]. injection Hd' as <-. simpl in *. apply join_all, Hloop; [| by intros ? | | done].
  - apply Forall_forall. intros x (e & [Hx _]%elem_of_lfilter & <-)%cuts_spec. rewrite Forall_forall in He. by apply He.
  - apply Hst.
Qed.

End Bounds.

(** * Properties *)

(** Where every fact is stated in whole days, so is ticker validity: a bound
    that is no whole day would be stored as another day. *)
Theorem derive_days f dv :
  facts_ok f -> facts_all (fun x => Day x = x) f -> derive f = Some dv ->
  Forall (fun iv => opt_all (fun x => Day x = x) (iv_From iv) /\ opt_all (fun x => Day x = x) (iv_Before iv)) (dv_Intervals dv).
Proof. apply derive_all. Qed.

Lemma derive_days_witness :
  Forall (fun iv => opt_all (fun x => Day x = x) (iv_From iv) /\ opt_all (fun x => Day x = x) (iv_Before iv)) (dv_Intervals ex_derived).
Proof.
  apply (derive_days ex_facts ex_derived ex_facts_ok); [| exact ex_derived_run].
  split; repeat constructor; intros; reflexivity.
Defined.
