(* ===== verification/ValidityStore.v ===== *)
(** Stored ticker validity, [server/internal/identity/tickervalidity]: the facts
    of a ticker as the tables hold them ([store.go], [ticker.go]), and the
    rewrite of [ticker_validity] and [resolved_tickers] from them
    ([resolved.go]). The tables keep the columns these functions read, and an
    insert checks the constraints of its table. *)
From S2P Require Import Prelude Types Period Facts Winners Derive Bounds Validity Rows Tickers Decimal CorpAct Calendar.

(** * Tables, [005_datasources.sql] and [010_ticker_validity.sql] *)

(** A row of [identifier_assertions]. *)
Record AssertionRow : Type := MkAssertionRow {
  ia_ID : uuid;
  ia_FetchKeyID : option uuid;
  ia_RunID : option uuid;
  ia_TickerID : uuid;
  ia_Market : string;
  ia_InstrID : option uuid;
  ia_AssertedFrom : time;
  ia_AssertedBefore : time;
  ia_EdgeFrom : bool;
  ia_EdgeBefore : bool;
  ia_Venue : option string;
  ia_Currency : option string;
}.

(** A row of [identifier_assertion_coverage]. *)
Record CoverageRow : Type := MkCoverageRow {
  cw_ID : uuid;
  cw_FetchKeyID : uuid;
  cw_Market : string;
  cw_TickerID : uuid;
  cw_CoveredFrom : time;
  cw_CoveredBefore : time;
}.

(** A served row of [fetch_keys] with the datasource of its fetch. *)
Record FetchKeyRow : Type := MkFetchKeyRow {
  fk_AnsweredAt : time;
  fk_AskedFrom : option time;
  fk_AskedBefore : option time;
  fk_Datasource : string;
  fk_Precedence : Z;
}.

(** A row of [resolved_tickers]. *)
Record ResolvedRow : Type := MkResolvedRow {
  rt_TickerID : uuid;
  rt_Market : string;
  rt_InstrID : uuid;
  rt_Venue : option string;
  rt_From : option time;
  rt_Before : option time;
  rt_Currency : option string;
}.

Record validity_db : Type := MkValidityDB {
  vd_tickers : list TickerRow;
  vd_assertions : list AssertionRow;
  vd_coverage : list CoverageRow;
  vd_keys : gmap uuid FetchKeyRow;
  (** [runs.created_at]. *)
  vd_runs : gmap uuid time;
  (** [markets.identifier_event_source]. *)
  vd_event_sources : gmap string string;
  vd_validity : list ValidityRow;
  vd_resolved : list ResolvedRow;
}.

Definition set_validity (db : validity_db) (rows : list ValidityRow) : validity_db :=
  MkValidityDB (vd_tickers db) (vd_assertions db) (vd_coverage db) (vd_keys db) (vd_runs db) (vd_event_sources db) rows (vd_resolved db).

Definition set_resolved (db : validity_db) (rows : list ResolvedRow) : validity_db :=
  MkValidityDB (vd_tickers db) (vd_assertions db) (vd_coverage db) (vd_keys db) (vd_runs db) (vd_event_sources db) (vd_validity db) rows.

#[export] Instance TickerRow_eq_dec : EqDecision TickerRow.
Proof. solve_decision. Defined.

(** * Reading facts, [store.go] *)

(** A row of [ListIdentifierAssertions]. *)
Record ListAssertionRow : Type := MkListAssertionRow {
  la_Assertion : AssertionRow;
  la_Value : string;
  la_Datasource : option string;
  la_Precedence : option Z;
  la_Answered : time;
  la_AskedFrom : option time;
  la_AskedBefore : option time;
  la_IsEventSource : bool;
}.

(** A row of [ListIdentifierAssertionCoverage]. *)
Record ListCoverageRow : Type := MkListCoverageRow {
  lc_Coverage : CoverageRow;
  lc_Value : string;
  lc_Datasource : string;
  lc_Precedence : Z;
  lc_IsEventSource : bool;
}.

Definition is_event_source (db : validity_db) (market ds : string) : bool :=
  bool_decide (vd_event_sources db !! market = Some ds).

(** The joins of one assertion of the ticker [r]. Each assertion has a fetch key
    or a run, so [answered] is never NULL. *)
Definition assertion_join (db : validity_db) (r : TickerRow) (a : AssertionRow) : ListAssertionRow :=
  let key := k ← ia_FetchKeyID a; vd_keys db !! k in
  MkListAssertionRow a (tk_Value r) (fk_Datasource <$> key) (fk_Precedence <$> key)
    (match fk_AnsweredAt <$> key with Some t => t | None => default zero_time (k ← ia_RunID a; vd_runs db !! k) end)
    (k ← key; fk_AskedFrom k) (k ← key; fk_AskedBefore k)
    (match key with Some k => is_event_source db (tk_Market r) (fk_Datasource k) | None => false end).

Definition assertion_cmp : ListAssertionRow -> ListAssertionRow -> comparison :=
  cmp_lex (cmp_on (fun r => ia_AssertedFrom (la_Assertion r)) Z.compare) (cmp_on (fun r => ia_ID (la_Assertion r)) N.compare).

Definition assertions_of (db : validity_db) (r : TickerRow) : list ListAssertionRow :=
  map (assertion_join db r) (List.filter (fun a => bool_decide (ia_TickerID a = tk_ID r)) (vd_assertions db)).

Definition ListIdentifierAssertions (db : validity_db) (asked : list MarketTicker) : list ListAssertionRow :=
  sort_func assertion_cmp (concat (map (assertions_of db) (asked_tickers (vd_tickers db) asked))).

(** The joins of one row of coverage of the ticker [r]; a row without a served
    key joins nothing. *)
Definition coverage_join (db : validity_db) (r : TickerRow) (c : CoverageRow) : option ListCoverageRow :=
  k ← vd_keys db !! cw_FetchKeyID c;
  Some (MkListCoverageRow c (tk_Value r) (fk_Datasource k) (fk_Precedence k) (is_event_source db (cw_Market c) (fk_Datasource k))).

Definition coverage_cmp : ListCoverageRow -> ListCoverageRow -> comparison :=
  cmp_lex (cmp_on lc_Datasource String.compare)
    (cmp_lex (cmp_on (fun r => cw_CoveredFrom (lc_Coverage r)) Z.compare) (cmp_on (fun r => cw_ID (lc_Coverage r)) N.compare)).

Definition coverage_of (db : validity_db) (r : TickerRow) : list ListCoverageRow :=
  omap (coverage_join db r) (List.filter (fun c => bool_decide (cw_TickerID c = tk_ID r)) (vd_coverage db)).

Definition ListIdentifierAssertionCoverage (db : validity_db) (asked : list MarketTicker) : list ListCoverageRow :=
  sort_func coverage_cmp (concat (map (coverage_of db) (asked_tickers (vd_tickers db) asked))).

(** [Rows]. *)
Record FactRows : Type := MkFactRows {
  rw_Assertions : list ListAssertionRow;
  rw_AssertionCoverage : list ListCoverageRow;
}.

Definition add_assertion (out : gmap MarketTicker FactRows) (a : ListAssertionRow) : gmap MarketTicker FactRows :=
  let t := MkMarketTicker (ia_Market (la_Assertion a)) (la_Value a) in
  let r := default (MkFactRows [] []) (out !! t) in
  <[t := MkFactRows (rw_Assertions r ++ [a]) (rw_AssertionCoverage r)]> out.

Definition add_coverage (out : gmap MarketTicker FactRows) (p : ListCoverageRow) : gmap MarketTicker FactRows :=
  let t := MkMarketTicker (cw_Market (lc_Coverage p)) (lc_Value p) in
  let r := default (MkFactRows [] []) (out !! t) in
  <[t := MkFactRows (rw_Assertions r) (rw_AssertionCoverage r ++ [p])]> out.

Definition readRowsOf (db : validity_db) (ts : list MarketTicker) : gmap MarketTicker FactRows :=
  let asked := distinct_tickers ts in
  let out := foldl add_assertion (list_to_map (map (fun t => (t, MkFactRows [] [])) asked)) (ListIdentifierAssertions db asked) in
  foldl add_coverage out (ListIdentifierAssertionCoverage db asked).

Definition ReadRows (db : validity_db) (t : MarketTicker) : FactRows := default (MkFactRows [] []) (readRowsOf db [t] !! t).

(** The source of an assertion. *)
Definition row_source (row : ListAssertionRow) : Source :=
  let ia := la_Assertion row in
  let st := match la_Datasource row with None => attested | Some _ => if la_IsEventSource row then eventSource else other end in
  let '(ds, pr) := match la_Datasource row, la_Precedence row with Some d, Some p => (d, p) | _, _ => (""%string, 0) end in
  let asked := match la_AskedFrom row, la_AskedBefore row with Some f, Some b => MkPeriod f b | _, _ => MkPeriod zero_time zero_time end in
  let answer := match ia_FetchKeyID ia, ia_RunID ia with Some k, _ => k | None, Some r => r | None, None => 0%N end in
  MkSource ds pr answer (la_Answered row) asked st.

Definition row_assertion (row : ListAssertionRow) : Assertion :=
  let ia := la_Assertion row in
  let src := row_source row in
  let event := bool_decide (src_standing src = eventSource) in
  MkAssertion (MkPeriod (ia_AssertedFrom ia) (ia_AssertedBefore ia)) (ia_InstrID ia)
    (event && ia_EdgeFrom ia) (event && ia_EdgeBefore ia) src
    (MkStated (default ""%string (ia_Venue ia)) (default ""%string (ia_Currency ia))).

Definition row_assertion_coverage (p : ListCoverageRow) : option AssertionCoverage :=
  if negb (lc_IsEventSource p) then None
  else Some (MkAssertionCoverage (MkPeriod (cw_CoveredFrom (lc_Coverage p)) (cw_CoveredBefore (lc_Coverage p)))
         (MkSource (lc_Datasource p) (lc_Precedence p) (cw_FetchKeyID (lc_Coverage p)) zero_time (MkPeriod zero_time zero_time) eventSource)).

(** [Rows.facts]. *)
Definition Rows_facts (r : FactRows) : facts :=
  MkFacts (map row_assertion (rw_Assertions r)) (omap row_assertion_coverage (rw_AssertionCoverage r)).

Definition Diagnose (db : validity_db) (t : MarketTicker) : option Diagnosis :=
  dv_Diagnosis <$> derive (Rows_facts (ReadRows db t)).

(** [readTickers]. An entry is missing only where [derive] does not end. *)
Definition readTickers (db : validity_db) (ts : list MarketTicker) : gmap MarketTicker tickerFacts :=
  map_imap (fun t r => MkTickerFacts t (Rows_facts r) <$> derive (Rows_facts r)) (readRowsOf db ts).

(** * Writing, [resolved.go] *)

(** [isoDay]: a bound as a [date]. *)
Definition isoDay (d : option time) : option time := Day <$> d.

(** The constraints of [ticker_validity]: CHECK, and EXCLUDE on overlapping
    ranges of one ticker. *)
Definition range_ok (from before : option time) : bool :=
  match from, before with Some f, Some b => f <? b | _, _ => true end.

Definition starts_before (f b : option time) : bool :=
  match f, b with Some f, Some b => f <? b | _, _ => true end.

Definition range_conflicts (v w : ValidityRow) : bool :=
  bool_decide (tv_TickerID v = tv_TickerID w) && starts_before (tv_From v) (tv_Before w) && starts_before (tv_From w) (tv_Before v).

Definition insert_range (rows : list ValidityRow) (v : ValidityRow) : option (list ValidityRow) :=
  if range_ok (tv_From v) (tv_Before v) && negb (existsb (range_conflicts v) rows) then Some (rows ++ [v]) else None.

Definition DeleteTickerValidity (rows : list ValidityRow) (ids : list uuid) : list ValidityRow :=
  List.filter (fun v => negb (contains ids (tv_TickerID v))) rows.

Definition CreateTickerValidity (rows new : list ValidityRow) : option (list ValidityRow) := opt_fold insert_range rows new.

(** The constraints of [resolved_tickers]: CHECK, and UNIQUE NULLS NOT
    DISTINCT. *)
Definition resolved_key (r : ResolvedRow) : uuid * string * option string := (rt_InstrID r, rt_Market r, rt_Venue r).

Definition insert_resolved (rows : list ResolvedRow) (r : ResolvedRow) : option (list ResolvedRow) :=
  if range_ok (rt_From r) (rt_Before r) && negb (existsb (fun q => bool_decide (resolved_key q = resolved_key r)) rows)
  then Some (rows ++ [r]) else None.

Abbreviation pair := (uuid * string)%type (only parsing).

Definition DeleteResolvedTickers (rows : list ResolvedRow) (asked : list pair) : list ResolvedRow :=
  List.filter (fun r => negb (contains asked (rt_InstrID r, rt_Market r))) rows.

Definition CreateResolvedTickers (rows new : list ResolvedRow) : option (list ResolvedRow) := opt_fold insert_resolved rows new.

Definition ListTickersByID (ts : list TickerRow) (ids : list uuid) : list TickerRow :=
  sort_func (cmp_on ticker_of MarketTicker_cmp) (List.filter (fun r => contains ids (tk_ID r)) ts).

Definition pair_cmp : pair -> pair -> comparison := cmp_lex (cmp_on fst N.compare) (cmp_on snd String.compare).

Definition ListResolvePairs (db : validity_db) (ids : list uuid) : list pair :=
  sort_func pair_cmp (foldl append_unique []
    (omap (fun a => if contains ids (ia_TickerID a) then (fun i => (i, ia_Market a)) <$> ia_InstrID a else None) (vd_assertions db) ++
     map (fun r => (rt_InstrID r, rt_Market r)) (List.filter (fun r => contains ids (rt_TickerID r)) (vd_resolved db)))).

(** A row of [ListPairTickers]: an instrument and a ticker. *)
Definition pair_tickers (db : validity_db) (p : pair) : list (uuid * TickerRow) :=
  concat (map (fun a => map (fun t => (p.1, t)) (List.filter (fun t => bool_decide (tk_ID t = ia_TickerID a)) (vd_tickers db)))
    (List.filter (fun a => bool_decide (ia_InstrID a = Some p.1) && bool_decide (ia_Market a = p.2)) (vd_assertions db))).

Definition ListPairTickers (db : validity_db) (asked : list pair) : list (uuid * TickerRow) :=
  sort_func (cmp_lex (cmp_on fst N.compare) (cmp_on (fun r => ticker_of r.2) MarketTicker_cmp))
    (foldl append_unique [] (concat (map (pair_tickers db) asked))).

Definition validity_rows (r : TickerRow) (ivs : list Interval) : list ValidityRow :=
  map (fun iv => MkValidityRow (tk_ID r) (iv_Instr iv) (isoDay (iv_From iv)) (isoDay (iv_Before iv)) (iv_Validity iv)) ivs.

(** [None] is the nil dereference of a ticker missing from [read], or the error
    of a violated constraint. *)
Definition writeValidity (db : validity_db) (rebuilt : list TickerRow) (read : gmap MarketTicker tickerFacts) : option validity_db :=
  arg ← mapM (fun r => tf ← read !! ticker_of r; Some (validity_rows r (dv_Intervals (tf_Derived tf)))) rebuilt;
  let kept := DeleteTickerValidity (vd_validity db) (map tk_ID rebuilt) in
  rows ← CreateTickerValidity kept (concat arg);
  Some (set_validity db rows).

(** NULLIF of the empty string. *)
Definition nullif (s : string) : option string := if bool_decide (s = ""%string) then None else Some s.

Definition resolved_row (idOf : gmap MarketTicker uuid) (r : resolvedName) : ResolvedRow :=
  MkResolvedRow (default 0%N (idOf !! rn_Ticker r)) (mt_Market (rn_Ticker r)) (rn_Instr r) (nullif (st_Venue (rn_Stated r)))
    (isoDay (rn_From r)) (isoDay (rn_Before r)) (nullif (st_Currency (rn_Stated r))).

(** The tickers of one pair, in the order of the map [of]. *)
Definition pair_of (rows : list (uuid * TickerRow)) (p : pair) : list MarketTicker :=
  map (fun r => ticker_of r.2) (List.filter (fun r => bool_decide ((r.1, tk_Market r.2) = p)) rows).

(** The rows of one pair. *)
Definition resolve_pair (read : gmap MarketTicker tickerFacts) (idOf : gmap MarketTicker uuid) (rows : list (uuid * TickerRow)) (p : pair) :
    option (list ResolvedRow) :=
  ts ← mapM (fun t => read !! t) (pair_of rows p);
  let ts := sort_func (cmp_on (fun tf => mt_Value (tf_Ticker tf)) String.compare) ts in
  Some (map (resolved_row idOf) (resolveNames p.1 ts)).

(** The map [idOf]. *)
Definition id_map (l : list TickerRow) : gmap MarketTicker uuid := foldl (fun m r => <[ticker_of r := tk_ID r]> m) ∅ l.

Definition Rebuild (db : validity_db) (locked : Locked) : option validity_db :=
  match lk_ids locked with
  | [] => Some db
  | ids =>
      let rebuilt := ListTickersByID (vd_tickers db) ids in
      let pairs := ListResolvePairs db ids in
      let rows := match pairs with [] => [] | _ => ListPairTickers db pairs end in
      let all := map ticker_of rebuilt ++ map (fun r => ticker_of r.2) rows in
      let idOf := id_map (rebuilt ++ map snd rows) in
      let read := readTickers db all in
      db ← writeValidity db rebuilt read;
      out ← mapM (resolve_pair read idOf rows) pairs;
      match pairs with
      | [] => Some db
      | _ =>
          resolved ← CreateResolvedTickers (DeleteResolvedTickers (vd_resolved db) pairs) (concat out);
          Some (set_resolved db resolved)
      end
  end.

(** * What the schema checks of the tables *)

Definition whole_day (x : time) : Prop := Day x = x.

Definition ranges_ok (rows : list ValidityRow) : Prop :=
  Forall (fun v => range_ok (tv_From v) (tv_Before v) = true) rows /\ StronglySorted (fun v w => range_conflicts w v = false) rows.

Definition resolved_ok (rows : list ResolvedRow) : Prop :=
  Forall (fun r => range_ok (rt_From r) (rt_Before r) = true) rows /\ NoDup (map resolved_key rows).

Record validity_db_ok (db : validity_db) : Prop := {
  vo_ID : NoDup (map tk_ID (vd_tickers db));
  vo_key : NoDup (map ticker_of (vd_tickers db));
  vo_assertion a : a ∈ vd_assertions db -> ia_AssertedFrom a < ia_AssertedBefore a /\
    whole_day (ia_AssertedFrom a) /\ whole_day (ia_AssertedBefore a);
  vo_assertion_ticker a : a ∈ vd_assertions db ->
    exists r, r ∈ vd_tickers db /\ tk_ID r = ia_TickerID a /\ tk_Market r = ia_Market a;
  vo_coverage c : c ∈ vd_coverage db -> cw_CoveredFrom c < cw_CoveredBefore c /\
    whole_day (cw_CoveredFrom c) /\ whole_day (cw_CoveredBefore c);
  vo_coverage_ticker c : c ∈ vd_coverage db ->
    exists r, r ∈ vd_tickers db /\ tk_ID r = cw_TickerID c /\ tk_Market r = cw_Market c;
  vo_asked i k : vd_keys db !! i = Some k -> opt_all whole_day (fk_AskedFrom k) /\ opt_all whole_day (fk_AskedBefore k);
  vo_ranges : ranges_ok (vd_validity db);
  vo_resolved : resolved_ok (vd_resolved db);
}.

#[export] Instance assertion_cmp_cmp : GoCmp assertion_cmp.
Proof. apply _. Qed.

#[export] Instance coverage_cmp_cmp : GoCmp coverage_cmp.
Proof. apply _. Qed.

(** * The facts of a ticker *)

(** The rows of the ticker [r], and the facts they hold. *)
Definition rows_of (db : validity_db) (r : TickerRow) : FactRows :=
  MkFactRows (sort_func assertion_cmp (assertions_of db r)) (sort_func coverage_cmp (coverage_of db r)).

Definition facts_of (db : validity_db) (r : TickerRow) : facts := Rows_facts (rows_of db r).

Definition assertion_ticker (a : ListAssertionRow) : MarketTicker := MkMarketTicker (ia_Market (la_Assertion a)) (la_Value a).

Definition coverage_ticker (p : ListCoverageRow) : MarketTicker := MkMarketTicker (cw_Market (lc_Coverage p)) (lc_Value p).

Lemma add_assertion_fold t l : forall out r,
  out !! t = Some r ->
  foldl add_assertion out l !! t =
    Some (MkFactRows (rw_Assertions r ++ List.filter (fun a => bool_decide (assertion_ticker a = t)) l) (rw_AssertionCoverage r)).
Proof.
  induction l as [|a l IH]; intros out r Hr; simpl; [by rewrite app_nil_r, Hr; destruct r |].
  unfold add_assertion at 2. fold (assertion_ticker a). destruct (decide (assertion_ticker a = t)) as [->|Hne].
  - rewrite bool_decide_eq_true_2, Hr by done. simpl. rewrite (IH _ _ (lookup_insert_eq _ _ _)). simpl. by rewrite <- app_assoc.
  - rewrite bool_decide_eq_false_2 by done. apply IH. by rewrite lookup_insert_ne.
Qed.

Lemma add_coverage_fold t l : forall out r,
  out !! t = Some r ->
  foldl add_coverage out l !! t =
    Some (MkFactRows (rw_Assertions r) (rw_AssertionCoverage r ++ List.filter (fun p => bool_decide (coverage_ticker p = t)) l)).
Proof.
  induction l as [|a l IH]; intros out r Hr; simpl; [by rewrite app_nil_r, Hr; destruct r |].
  unfold add_coverage at 2. fold (coverage_ticker a). destruct (decide (coverage_ticker a = t)) as [->|Hne].
  - rewrite bool_decide_eq_true_2, Hr by done. simpl. rewrite (IH _ _ (lookup_insert_eq _ _ _)). simpl. by rewrite <- app_assoc.
  - rewrite bool_decide_eq_false_2 by done. apply IH. by rewrite lookup_insert_ne.
Qed.

Section Facts.
Context (db : validity_db) (Hok : validity_db_ok db).

Lemma same_ID r q : r ∈ vd_tickers db -> q ∈ vd_tickers db -> tk_ID r = tk_ID q -> r = q.
Proof. apply NoDup_key, Hok. Qed.

Lemma same_ticker r q : r ∈ vd_tickers db -> q ∈ vd_tickers db -> ticker_of r = ticker_of q -> r = q.
Proof. apply NoDup_key, Hok. Qed.

Lemma asked_spec ts r : r ∈ asked_tickers (vd_tickers db) ts <-> r ∈ vd_tickers db /\ ticker_of r ∈ ts.
Proof.
  unfold asked_tickers. rewrite elem_of_concat_map. setoid_rewrite elem_of_lfilter. setoid_rewrite bool_decide_eq_true. split.
  - by intros (t & Ht & Hr & <-).
  - intros [Hr Ht]. by exists (ticker_of r).
Qed.

Lemma NoDup_asked ts : NoDup ts -> NoDup (asked_tickers (vd_tickers db) ts).
Proof.
  intros Hts. apply NoDup_concat_map; [done | intros; apply NoDup_lfilter, NoDup_of_key with (f := tk_ID), Hok |].
  intros x y r _ _ [_ Hx%bool_decide_eq_true]%elem_of_lfilter [_ Hy%bool_decide_eq_true]%elem_of_lfilter. congruence.
Qed.

Lemma elem_of_assertions_of r a :
  a ∈ assertions_of db r <-> exists b, b ∈ vd_assertions db /\ ia_TickerID b = tk_ID r /\ a = assertion_join db r b.
Proof.
  unfold assertions_of. rewrite list_elem_of_fmap. setoid_rewrite elem_of_lfilter. setoid_rewrite bool_decide_eq_true.
  split; [intros (b & -> & ? & ?); by exists b | intros (b & ? & ? & ->); by exists b].
Qed.

Lemma elem_of_coverage_of r p :
  p ∈ coverage_of db r <-> exists c, c ∈ vd_coverage db /\ cw_TickerID c = tk_ID r /\ coverage_join db r c = Some p.
Proof.
  unfold coverage_of. rewrite list_elem_of_omap. setoid_rewrite elem_of_lfilter. setoid_rewrite bool_decide_eq_true.
  naive_solver.
Qed.

Lemma assertions_of_ticker r a : r ∈ vd_tickers db -> a ∈ assertions_of db r -> assertion_ticker a = ticker_of r.
Proof.
  intros Hr (b & Hb & E & ->)%elem_of_assertions_of. destruct (vo_assertion_ticker db Hok b Hb) as (q & Hq & E1 & E2).
  assert (q = r) as -> by (apply same_ID; congruence). unfold assertion_ticker, ticker_of. simpl. by rewrite E2.
Qed.

Lemma coverage_of_ticker r p : r ∈ vd_tickers db -> p ∈ coverage_of db r -> coverage_ticker p = ticker_of r.
Proof.
  intros Hr (c & Hc & E & Hj)%elem_of_coverage_of. destruct (vo_coverage_ticker db Hok c Hc) as (q & Hq & E1 & E2).
  assert (q = r) as -> by (apply same_ID; congruence). unfold coverage_join in Hj. destruct (vd_keys db !! _); [| done].
  injection Hj as <-. unfold coverage_ticker, ticker_of. simpl. by rewrite E2.
Qed.

Lemma readRowsOf_spec ts r : r ∈ vd_tickers db -> ticker_of r ∈ ts -> readRowsOf db ts !! ticker_of r = Some (rows_of db r).
Proof.
  intros Hr Ht. unfold readRowsOf. set (asked := distinct_tickers ts).
  assert (NoDup (asked_tickers (vd_tickers db) asked)) as Hnd by apply NoDup_asked, NoDup_distinct.
  assert (r ∈ asked_tickers (vd_tickers db) asked) as Hin by (apply asked_spec; split; [done | by apply elem_of_distinct]).
  assert ((list_to_map (map (fun t => (t, MkFactRows [] [])) asked) : gmap MarketTicker FactRows) !! ticker_of r = Some (MkFactRows [] [])) as Hinit.
  { apply elem_of_list_to_map_1.
    - rewrite map_map, map_id. apply NoDup_distinct.
    - apply list_elem_of_fmap. exists (ticker_of r). split; [done |]. by apply elem_of_distinct. }
  rewrite (add_coverage_fold _ _ _ _ (add_assertion_fold _ _ _ _ Hinit)). simpl. unfold rows_of, ListIdentifierAssertions, ListIdentifierAssertionCoverage.
  rewrite !sort_func_filter by apply _. do 3 f_equal; apply filter_concat_one; try done.
  - intros a Ha. by apply bool_decide_eq_true_2, assertions_of_ticker.
  - intros q a [Hq _]%asked_spec Hne Ha. apply bool_decide_eq_false_2. rewrite (assertions_of_ticker q) by done.
    intros E. by apply Hne, same_ticker.
  - intros a Ha. by apply bool_decide_eq_true_2, coverage_of_ticker.
  - intros q a [Hq _]%asked_spec Hne Ha. apply bool_decide_eq_false_2. rewrite (coverage_of_ticker q) by done.
    intros E. by apply Hne, same_ticker.
Qed.

Lemma row_assertion_Period row : as_Period (row_assertion row) = MkPeriod (ia_AssertedFrom (la_Assertion row)) (ia_AssertedBefore (la_Assertion row)).
Proof. done. Qed.

Lemma elem_of_periods r p :
  p ∈ periods (f_AssertionCoverage (facts_of db r)) -> exists c, c ∈ vd_coverage db /\ p = MkPeriod (cw_CoveredFrom c) (cw_CoveredBefore c).
Proof.
  unfold periods. simpl. intros (ac & -> & (q & Hq & Hac)%list_elem_of_omap)%list_elem_of_fmap.
  apply elem_of_sort_func, elem_of_coverage_of in Hq as (c & Hc & _ & Hj). exists c. split; [done |].
  unfold coverage_join in Hj. destruct (vd_keys db !! _); [| done]. injection Hj as <-.
  unfold row_assertion_coverage in Hac. simpl in Hac. case_match; [done |]. by injection Hac as <-.
Qed.

Lemma facts_of_ok r : facts_ok (facts_of db r).
Proof.
  split.
  - apply Forall_forall. intros x (a & -> & Ha)%list_elem_of_fmap. apply elem_of_sort_func, elem_of_assertions_of in Ha as (b & Hb & _ & ->).
    apply (vo_assertion db Hok b Hb).
  - apply Forall_forall. intros p (c & Hc & ->)%elem_of_periods. apply (vo_coverage db Hok c Hc).
  - apply Forall_forall. intros p (c & Hc & ->)%elem_of_periods. apply (vo_coverage db Hok c Hc).
Qed.

Lemma facts_of_days r : facts_all whole_day (facts_of db r).
Proof.
  split; apply Forall_forall.
  - intros x (a & -> & Ha)%list_elem_of_fmap. apply elem_of_sort_func, elem_of_assertions_of in Ha as (b & Hb & _ & ->).
    destruct (vo_assertion db Hok b Hb) as (_ & H1 & H2). split; [done |].
    unfold row_assertion, row_source. simpl. destruct (ia_FetchKeyID b) as [k|]; [| simpl; lia].
    simpl. destruct (vd_keys db !! k) as [key|] eqn:Ek; [| simpl; lia].
    destruct (vo_asked db Hok k key Ek) as [A1 A2]. simpl.
    destruct (fk_AskedFrom key), (fk_AskedBefore key); simpl; try lia. intros _. split; [by apply A1 | by apply A2].
  - intros p (c & Hc & ->)%elem_of_periods. apply (vo_coverage db Hok c Hc).
Qed.

(** What the facts of [r] imply. *)
Definition derived_of (r : TickerRow) : derived :=
  default (MkDerived (MkDiagnosis [] [] []) [] [] []) (derive (facts_of db r)).

Lemma derived_of_eq r : derive (facts_of db r) = Some (derived_of r).
Proof. unfold derived_of. destruct (derive_steps_of _ (facts_of_ok r)) as (? & ? & dv & -> & _). done. Qed.

Lemma derived_of_intervals r : intervals_ok (dv_Intervals (derived_of r)).
Proof. destruct (derive_inv _ _ (facts_of_ok r) (derived_of_eq r)) as (? & ? & H). split; apply H. Qed.

Lemma derived_of_days r : Forall (iv_all whole_day) (dv_Intervals (derived_of r)).
Proof. apply (derive_all whole_day (facts_of db r)); [apply facts_of_ok | apply facts_of_days | apply derived_of_eq]. Qed.

Definition tickerFacts_of (r : TickerRow) : tickerFacts := MkTickerFacts (ticker_of r) (facts_of db r) (derived_of r).

Lemma readTickers_spec ts r : r ∈ vd_tickers db -> ticker_of r ∈ ts -> readTickers db ts !! ticker_of r = Some (tickerFacts_of r).
Proof.
  intros Hr Ht. unfold readTickers. rewrite map_lookup_imap, (readRowsOf_spec ts r Hr Ht). simpl.
  change (derive (Rows_facts (rows_of db r))) with (derive (facts_of db r)). by rewrite derived_of_eq.
Qed.

End Facts.

(** * Writing validity *)

(** An insert of rows that meet the constraints writes them all. *)
Lemma CreateTickerValidity_ok kept new :
  ranges_ok (kept ++ new) -> CreateTickerValidity kept new = Some (kept ++ new).
Proof.
  unfold CreateTickerValidity. revert kept. induction new as [|v new IH]; intros kept [H1 H2]; simpl; [by rewrite app_nil_r |].
  assert (insert_range kept v = Some (kept ++ [v])) as ->.
  { unfold insert_range. rewrite Forall_app, Forall_cons in H1. destruct H1 as (_ & -> & _).
    replace (existsb (range_conflicts v) kept) with false; [done |]. symmetry. apply existsb_false. intros w Hw.
    apply (StronglySorted_app_1_elem_of _ _ _ _ _ H2 Hw). left. }
  rewrite IH; rewrite <- app_assoc; done.
Qed.

Lemma CreateResolvedTickers_ok kept new :
  resolved_ok (kept ++ new) -> CreateResolvedTickers kept new = Some (kept ++ new).
Proof.
  unfold CreateResolvedTickers. revert kept. induction new as [|v new IH]; intros kept [H1 H2]; simpl; [by rewrite app_nil_r |].
  assert (insert_resolved kept v = Some (kept ++ [v])) as ->.
  { unfold insert_resolved. rewrite Forall_app, Forall_cons in H1. destruct H1 as (_ & -> & _).
    replace (existsb (fun q => bool_decide (resolved_key q = resolved_key v)) kept) with false; [done |].
    symmetry. apply existsb_false. intros w Hw. apply bool_decide_eq_false_2. intros E.
    rewrite map_app, NoDup_app in H2. destruct H2 as (_ & H2 & _). apply (H2 (resolved_key w)); [by apply list_elem_of_fmap_2 |].
    rewrite E. left. }
  rewrite IH; rewrite <- app_assoc; done.
Qed.

Lemma isoDay_days o : opt_all whole_day o -> isoDay o = o.
Proof. destruct o as [x|]; [| done]. intros H. simpl. by rewrite (H x eq_refl). Qed.

Lemma range_ok_nonempty iv : iv_all whole_day iv -> iv_nonempty iv -> range_ok (isoDay (iv_From iv)) (isoDay (iv_Before iv)) = true.
Proof.
  intros [H1 H2] Hne. rewrite !isoDay_days by done. unfold range_ok, iv_nonempty in *. destruct (iv_From iv), (iv_Before iv); try done. lia.
Qed.

Lemma elem_of_validity_rows r ivs v :
  v ∈ validity_rows r ivs <-> exists iv, iv ∈ ivs /\ v = MkValidityRow (tk_ID r) (iv_Instr iv) (isoDay (iv_From iv)) (isoDay (iv_Before iv)) (iv_Validity iv).
Proof. unfold validity_rows. rewrite list_elem_of_fmap. naive_solver. Qed.

Lemma validity_rows_ok r ivs : intervals_ok ivs -> Forall (iv_all whole_day) ivs -> ranges_ok (validity_rows r ivs).
Proof.
  intros [Hs Hne] Hd. rewrite Forall_forall in Hne, Hd. split.
  - apply Forall_forall. intros v (iv & Hiv & ->)%elem_of_validity_rows. apply range_ok_nonempty; auto.
  - assert (Forall (iv_all whole_day) ivs) as Hd' by (by apply Forall_forall). clear Hne Hd.
    induction Hs as [|iv ivs Hs IH Hp]; [constructor |]. apply Forall_cons in Hd' as [H1 H2]. simpl. constructor; [by apply IH |].
    rewrite Forall_forall in Hp, H2. apply Forall_forall. intros w (jv & Hjv & ->)%elem_of_validity_rows.
    specialize (Hp jv Hjv). destruct (H2 jv Hjv) as [J1 J2], H1 as [I1 I2].
    unfold range_conflicts. simpl. rewrite !isoDay_days by done. unfold iv_precedes in Hp.
    destruct (iv_Before iv) as [b|], (iv_From jv) as [f|]; try done. rewrite bool_decide_eq_true_2 by done. simpl.
    replace (f <? b) with false by lia. done.
Qed.

Lemma ranges_other v w : tv_TickerID v <> tv_TickerID w -> range_conflicts v w = false.
Proof. intros. unfold range_conflicts. by rewrite bool_decide_eq_false_2. Qed.

Lemma elem_of_DeleteTickerValidity rows ids v : v ∈ DeleteTickerValidity rows ids <-> v ∈ rows /\ tv_TickerID v ∉ ids.
Proof. unfold DeleteTickerValidity. by rewrite elem_of_lfilter, negb_true_iff, contains_false. Qed.

(** The stored validity of one ticker. *)
Definition stored (rows : list ValidityRow) (r : TickerRow) : list ValidityRow :=
  List.filter (fun v => bool_decide (tv_TickerID v = tk_ID r)) rows.

Section Rebuild.
Context (db : validity_db) (Hok : validity_db_ok db).

Lemma elem_of_ListTickersByID ids r : r ∈ ListTickersByID (vd_tickers db) ids <-> r ∈ vd_tickers db /\ tk_ID r ∈ ids.
Proof. unfold ListTickersByID. by rewrite elem_of_sort_func, elem_of_lfilter, contains_true. Qed.

Lemma NoDup_ListTickersByID ids : NoDup (ListTickersByID (vd_tickers db) ids).
Proof. unfold ListTickersByID. rewrite sort_func_perm. apply NoDup_lfilter, NoDup_of_key with (f := tk_ID), Hok. Qed.

(** The rows [writeValidity] leaves. *)
Definition rebuilt_rows (rebuilt : list TickerRow) : list ValidityRow :=
  DeleteTickerValidity (vd_validity db) (map tk_ID rebuilt) ++
  concat (map (fun r => validity_rows r (dv_Intervals (derived_of db r))) rebuilt).

Lemma rebuilt_rows_ok rebuilt : NoDup rebuilt -> (forall r, r ∈ rebuilt -> r ∈ vd_tickers db) -> ranges_ok (rebuilt_rows rebuilt).
Proof.
  intros Hnd Hin. pose proof (fun r => validity_rows_ok r _ (derived_of_intervals db Hok r) (derived_of_days db Hok r)) as Hv.
  assert (forall r v, v ∈ validity_rows r (dv_Intervals (derived_of db r)) -> tv_TickerID v = tk_ID r) as Hid.
  { by intros r v (iv & _ & ->)%elem_of_validity_rows. }
  split.
  - apply Forall_app. split; apply Forall_forall.
    + intros v [Hv' _]%elem_of_DeleteTickerValidity. pose proof (proj1 (vo_ranges db Hok)) as H. rewrite Forall_forall in H. auto.
    + intros v (r & Hr & Hvr)%elem_of_concat_map. destruct (Hv r) as [H _]. rewrite Forall_forall in H. auto.
  - apply StronglySorted_app_2.
    + intros v w [_ Hv']%elem_of_DeleteTickerValidity (r & Hr & Hw)%elem_of_concat_map. apply ranges_other. intros E. apply Hv'.
      rewrite <- E, (Hid r w Hw). by apply list_elem_of_fmap_2.
    + apply StronglySorted_lfilter, Hok.
    + apply StronglySorted_concat; [done | intros; apply Hv |]. intros r q v w Hr Hq Hne Hv1 Hw1. apply ranges_other.
      rewrite (Hid _ _ Hv1), (Hid _ _ Hw1). intros E. apply Hne. apply (same_ID db Hok); auto.
Qed.

Lemma rebuilt_rows_stored rebuilt r :
  NoDup rebuilt -> (forall q, q ∈ rebuilt -> q ∈ vd_tickers db) -> r ∈ vd_tickers db ->
  stored (rebuilt_rows rebuilt) r =
    if decide (r ∈ rebuilt) then validity_rows r (dv_Intervals (derived_of db r)) else stored (vd_validity db) r.
Proof.
  intros Hnd Hin Hr. unfold stored, rebuilt_rows. rewrite List.filter_app.
  assert (forall q v, v ∈ validity_rows q (dv_Intervals (derived_of db q)) -> tv_TickerID v = tk_ID q) as Hid.
  { by intros q v (iv & _ & ->)%elem_of_validity_rows. }
  destruct (decide (r ∈ rebuilt)) as [Hrb|Hrb].
  - rewrite filter_nil_all.
    + simpl. apply (filter_concat_one _ (fun q => validity_rows q (dv_Intervals (derived_of db q)))); [done | done | |].
      * intros v Hv. by apply bool_decide_eq_true_2, Hid.
      * intros q v Hq Hne Hv. apply bool_decide_eq_false_2. rewrite (Hid q v Hv). intros E. apply Hne, (same_ID db Hok); auto.
    + intros v [_ Hv]%elem_of_DeleteTickerValidity. apply bool_decide_eq_false_2. intros E. apply Hv. rewrite E. by apply list_elem_of_fmap_2.
  - rewrite filter_concat_none, app_nil_r.
    + unfold DeleteTickerValidity. induction (vd_validity db) as [|v rows IH]; [done |]. simpl.
      destruct (decide (tv_TickerID v = tk_ID r)) as [E|E].
      * rewrite (bool_decide_eq_true_2 (tv_TickerID v = tk_ID r)) by done.
        replace (contains (map tk_ID rebuilt) (tv_TickerID v)) with false; simpl; [by rewrite bool_decide_eq_true_2, IH |].
        symmetry. apply contains_false. rewrite E. intros (q & Eq & Hq)%list_elem_of_fmap. apply Hrb.
        by rewrite (same_ID db Hok r q Hr (Hin q Hq) Eq).
      * rewrite (bool_decide_eq_false_2 (tv_TickerID v = tk_ID r)) by done.
        destruct (contains _ _); simpl; [done |]. by rewrite bool_decide_eq_false_2.
    + intros q v Hq Hv. apply bool_decide_eq_false_2. rewrite (Hid q v Hv). intros E. apply Hrb.
      by rewrite <- (same_ID db Hok q r (Hin q Hq) Hr E).
Qed.

Lemma writeValidity_eq rebuilt ts :
  NoDup rebuilt -> (forall r, r ∈ rebuilt -> r ∈ vd_tickers db /\ ticker_of r ∈ ts) ->
  writeValidity db rebuilt (readTickers db ts) = Some (set_validity db (rebuilt_rows rebuilt)).
Proof.
  intros Hnd Hin. unfold writeValidity.
  rewrite (mapM_total _ (fun r => validity_rows r (dv_Intervals (derived_of db r)))).
  - cbn [mbind option_bind]. rewrite CreateTickerValidity_ok; [done |].
    apply rebuilt_rows_ok; [done |]. intros r Hr. by apply Hin.
  - intros r Hr. destruct (Hin r Hr). by rewrite (readTickers_spec db Hok).
Qed.

End Rebuild.

(** * Writing names *)

Lemma stated_venues l instr : NoDup (map st_Venue (stated l instr)).
Proof.
  destruct (stated_rows l instr) as [[_ (c & ->)]|[_ (venues & -> & Hnd & _)]]; [apply NoDup_singleton |].
  by rewrite map_map, map_id.
Qed.

(** The rows of a name share a ticker, and the bounds of a run of its
    intervals. *)
Lemma resolveNames_rows instr ts :
  resolveNames instr ts = [] \/
  exists t f b, t ∈ ts /\
    resolveNames instr ts = map (fun s => MkResolvedName (tf_Ticker t) instr s f b) (stated (f_Assertions (tf_Facts t)) instr) /\
    (intervals_ok (dv_Intervals (tf_Derived t)) -> Forall (iv_all whole_day) (dv_Intervals (tf_Derived t)) ->
     range_ok (isoDay f) (isoDay b) = true).
Proof.
  unfold resolveNames. pose proof (best_fold_inv instr ts) as Hb.
  destruct (foldl (best_name_step instr) None ts) as [[[t stop] won]|]; [| by left]. destruct Hb as (Hin & _ & _).
  set (ivs := dv_Intervals (tf_Derived t)). destruct (lastNaming ivs instr) as [last|] eqn:El; [right | by left].
  destruct (lastNaming_Some _ _ _ El) as [(lv & Hlv & Hli) _].
  destruct (run_start_spec ivs instr last lv Hlv Hli) as (Hle & (kv & Hkv) & _ & _). rewrite Hkv, Hlv.
  exists t, (iv_From kv), (iv_Before lv). split; [done |]. split; [done |]. intros [Hs Hne] Hd. fold ivs in Hs, Hne, Hd.
  rewrite Forall_forall in Hne, Hd. apply list_elem_of_lookup_2 in Hkv as Hk, Hlv as Hl.
  pose proof (Hd kv Hk) as [Dk _]. pose proof (Hd lv Hl) as [Dl Dl']. rewrite !isoDay_days by done.
  pose proof (Hne kv Hk) as Nk. pose proof (Hne lv Hl) as Nl. unfold iv_nonempty, range_ok in *.
  destruct (decide (run_start ivs instr last = last)) as [E|Hlt].
  - rewrite E, Hlv in Hkv. injection Hkv as <-. destruct (iv_From lv), (iv_Before lv); try done. lia.
  - pose proof (StronglySorted_lookup _ _ _ _ _ _ Hs Hkv Hlv ltac:(lia)) as Hp. unfold iv_precedes in Hp.
    destruct (iv_From kv), (iv_Before kv), (iv_From lv), (iv_Before lv); try done. lia.
Qed.

Lemma nullif_inj a b : nullif a = nullif b -> a = b.
Proof. unfold nullif. repeat case_bool_decide; by intros [= ->] || congruence. Qed.

Section Names.
Context (db : validity_db) (Hok : validity_db_ok db).

(** An assertion of the ticker [r] names the instrument of [p] at its market. *)
Definition naming (p : pair) (r : TickerRow) : bool :=
  bool_decide (tk_Market r = p.2) &&
  existsb (fun a => bool_decide (ia_TickerID a = tk_ID r) && bool_decide (ia_InstrID a = Some p.1)) (vd_assertions db).

Definition by_value : tickerFacts -> tickerFacts -> comparison := cmp_on (fun tf => mt_Value (tf_Ticker tf)) String.compare.

(** The name of a pair, from the facts of each ticker that names it. *)
Definition names_of (p : pair) : list resolvedName :=
  resolveNames p.1 (sort_func by_value (map (tickerFacts_of db) (List.filter (naming p) (vd_tickers db)))).

Definition name_rows (p : pair) : list ResolvedRow := map (resolved_row (id_map (vd_tickers db))) (names_of p).

Lemma naming_spec p r :
  r ∈ vd_tickers db -> naming p r = true <->
  exists a, a ∈ vd_assertions db /\ ia_InstrID a = Some p.1 /\ ia_Market a = p.2 /\ tk_ID r = ia_TickerID a.
Proof.
  intros Hr. unfold naming. rewrite andb_true_iff, bool_decide_eq_true, existsb_elem. setoid_rewrite andb_true_iff.
  setoid_rewrite bool_decide_eq_true. split.
  - intros [Hm (a & Ha & E & Hi)]. exists a. destruct (vo_assertion_ticker db Hok a Ha) as (q & Hq & E1 & E2).
    assert (q = r) as -> by (apply (same_ID db Hok); congruence). split; [done |]. split; [done |]. split; congruence.
  - intros (a & Ha & Hi & Hm & E). destruct (vo_assertion_ticker db Hok a Ha) as (q & Hq & E1 & E2).
    assert (q = r) as -> by (apply (same_ID db Hok); congruence). split; [congruence |]. by exists a.
Qed.

Lemma elem_of_ListPairTickers asked i r :
  (i, r) ∈ ListPairTickers db asked <-> r ∈ vd_tickers db /\ exists p, p ∈ asked /\ p.1 = i /\ naming p r = true.
Proof.
  unfold ListPairTickers. rewrite elem_of_sort_func, elem_of_append_all, elem_of_concat_map. unfold pair_tickers.
  setoid_rewrite elem_of_concat_map. split.
  - intros (p & Hp & a & Ha & Hr). apply list_elem_of_fmap in Hr as (t & [= -> ->] & Hr).
    apply elem_of_lfilter in Ha as [Ha Hk], Hr as [Hr E%bool_decide_eq_true].
    apply andb_true_iff in Hk as [Hi%bool_decide_eq_true Hm%bool_decide_eq_true].
    split; [done |]. exists p. split; [done |]. split; [done |]. apply naming_spec; [done |]. by exists a.
  - intros (Hr & p & Hp & <- & Hn). apply naming_spec in Hn as (a & Ha & Hi & Hm & E); [| done].
    exists p. split; [done |]. exists a. split; [apply elem_of_lfilter; split; [done |]; by rewrite !bool_decide_eq_true_2 |].
    apply list_elem_of_fmap. exists r. split; [done |]. apply elem_of_lfilter. by rewrite bool_decide_eq_true_2.
Qed.

Lemma NoDup_ListPairTickers asked : NoDup (ListPairTickers db asked).
Proof. unfold ListPairTickers. rewrite sort_func_perm. apply NoDup_append_all. Qed.

Lemma naming_market p r : naming p r = true -> tk_Market r = p.2.
Proof. unfold naming. by intros [H%bool_decide_eq_true _]%andb_true_iff. Qed.

(** The tickers of [of] for a pair are those that name it. *)
Lemma pair_of_perm asked p :
  p ∈ asked ->
  map snd (List.filter (fun r => bool_decide ((r.1, tk_Market r.2) = p)) (ListPairTickers db asked)) ≡ₚ
  List.filter (naming p) (vd_tickers db).
Proof.
  intros Hp. apply NoDup_Permutation.
  - apply NoDup_fmap_2_strong; [| apply NoDup_lfilter, NoDup_ListPairTickers].
    intros [i r] [j q] [_ H1%bool_decide_eq_true]%elem_of_lfilter [_ H2%bool_decide_eq_true]%elem_of_lfilter. simpl in *. congruence.
  - apply NoDup_lfilter, NoDup_of_key with (f := tk_ID), Hok.
  - intros r. rewrite list_elem_of_fmap, elem_of_lfilter. split.
    + intros ([i q] & -> & [Hq E%bool_decide_eq_true]%elem_of_lfilter). simpl in *.
      apply elem_of_ListPairTickers in Hq as (Hq & u & Hu & <- & Hn). split; [done |].
      rewrite (naming_market u q Hn) in E. by destruct u; subst.
    + intros [Hr Hn]. exists (p.1, r). split; [done |]. apply elem_of_lfilter. split.
      * apply elem_of_ListPairTickers. split; [done |]. by exists p.
      * simpl. rewrite (naming_market p r Hn). by destruct p; apply bool_decide_eq_true_2.
Qed.

Lemma id_map_lookup l r : (forall q, q ∈ l -> q ∈ vd_tickers db) -> r ∈ l -> id_map l !! ticker_of r = Some (tk_ID r).
Proof.
  unfold id_map. induction l as [|q l IH] using rev_ind; intros Hl Hr; [by apply not_elem_of_nil in Hr |].
  rewrite foldl_app. simpl. assert (q ∈ vd_tickers db) as Hq by (apply Hl, elem_of_app; right; left).
  destruct (decide (ticker_of q = ticker_of r)) as [E|Hne].
  - rewrite E, lookup_insert_eq. f_equal. rewrite (same_ticker db Hok q r Hq (Hl r Hr) E). done.
  - rewrite lookup_insert_ne by done. apply IH; [intros u Hu; apply Hl, elem_of_app; by left |].
    apply elem_of_app in Hr as [Hr| ->%list_elem_of_singleton]; done.
Qed.

#[local] Instance by_value_cmp : GoCmp by_value.
Proof. apply _. Qed.

Lemma names_of_rows p : 
  names_of p = [] \/ exists r f b, r ∈ vd_tickers db /\ naming p r = true /\ range_ok (isoDay f) (isoDay b) = true /\
    names_of p = map (fun s => MkResolvedName (ticker_of r) p.1 s f b) (stated (f_Assertions (facts_of db r)) p.1).
Proof.
  unfold names_of. destruct (resolveNames_rows p.1 (sort_func by_value (map (tickerFacts_of db) (List.filter (naming p) (vd_tickers db)))))
    as [?|(t & f & b & Ht & E & Hr)]; [by left | right].
  apply elem_of_sort_func, list_elem_of_fmap in Ht as (r & -> & [Hin Hn]%elem_of_lfilter). exists r, f, b.
  split; [done |]. split; [done |]. split; [| done]. apply Hr; [by apply derived_of_intervals | by apply derived_of_days].
Qed.

Lemma resolve_pair_eq asked ts l p :
  p ∈ asked -> (forall q, q ∈ l -> q ∈ vd_tickers db) ->
  (forall r, r ∈ map snd (ListPairTickers db asked) -> ticker_of r ∈ ts /\ r ∈ l) ->
  resolve_pair (readTickers db ts) (id_map l) (ListPairTickers db asked) p = Some (name_rows p).
Proof.
  intros Hp Hl Hts. unfold resolve_pair, pair_of. set (rows := List.filter _ (ListPairTickers db asked)).
  pose proof (pair_of_perm asked p Hp) as Hperm. fold rows in Hperm.
  assert (forall x, x ∈ rows -> x.2 ∈ vd_tickers db /\ ticker_of x.2 ∈ ts) as Hin.
  { intros [i r] [Hx _]%elem_of_lfilter. split; [by apply elem_of_ListPairTickers in Hx as [? _] |].
    apply Hts. apply list_elem_of_fmap. by exists (i, r). }
  assert (mapM (fun t => readTickers db ts !! t) (map (fun r => ticker_of r.2) rows) = Some (map (fun r => tickerFacts_of db r.2) rows)) as ->.
  { rewrite mapM_map. apply mapM_total. intros x Hx. simpl. destruct (Hin x Hx). by apply (readTickers_spec db Hok). }
  cbn [mbind option_bind]. f_equal. unfold name_rows, names_of.
  replace (sort_func (cmp_on _ String.compare) (map (fun r => tickerFacts_of db r.2) rows))
    with (sort_func by_value (map (tickerFacts_of db) (List.filter (naming p) (vd_tickers db)))).
  - apply map_ext_in. intros n Hn%list_elem_of_In. destruct (names_of_rows p) as [E|(r & f & b & Hr & Hnm & _ & E)].
    { unfold names_of in E. rewrite E in Hn. by apply not_elem_of_nil in Hn. }
    unfold names_of in E. rewrite E in Hn. apply list_elem_of_fmap in Hn as (s & -> & _). unfold resolved_row. simpl.
    rewrite (id_map_lookup (vd_tickers db) r), (id_map_lookup l r); try done.
    apply Hts. rewrite list_elem_of_fmap. exists (p.1, r). split; [done |]. apply elem_of_ListPairTickers. split; [done |]. by exists p.
  - symmetry. replace (map (fun r => tickerFacts_of db r.2) rows) with (map (tickerFacts_of db) (map snd rows)) by (by rewrite map_map).
    apply sort_func_unique; [apply _ | | by rewrite Hperm].
    intros x y (r & -> & Hr)%list_elem_of_fmap (q & -> & Hq)%list_elem_of_fmap. rewrite Hperm in Hr, Hq.
    apply elem_of_lfilter in Hr as [Hr Nr], Hq as [Hq Nq]. unfold cmp_on. intros E%String.compare_eq_iff. simpl in E.
    f_equal. apply (same_ticker db Hok); [done | done |]. unfold ticker_of.
    by rewrite (naming_market p r Nr), (naming_market p q Nq), E.
Qed.

End Names.

Section RebuildNames.
Context (db : validity_db) (Hok : validity_db_ok db).

Definition row_pair (r : ResolvedRow) : pair := (rt_InstrID r, rt_Market r).

(** The rows [Rebuild] leaves for the pairs. *)
Definition new_resolved (pairs : list pair) : list ResolvedRow :=
  DeleteResolvedTickers (vd_resolved db) pairs ++ concat (map (name_rows db) pairs).

(** The stored names of one pair. *)
Definition stored_names (rows : list ResolvedRow) (p : pair) : list ResolvedRow :=
  List.filter (fun r => bool_decide (row_pair r = p)) rows.

Lemma name_rows_spec p r : r ∈ name_rows db p -> row_pair r = p /\ range_ok (rt_From r) (rt_Before r) = true.
Proof.
  unfold name_rows. intros (n & -> & Hn)%list_elem_of_fmap. destruct (names_of_rows db Hok p) as [E|(q & f & b & Hq & Hnm & Hr & E)]; rewrite E in Hn.
  { by apply not_elem_of_nil in Hn. }
  apply list_elem_of_fmap in Hn as (s & -> & _). unfold row_pair. simpl. rewrite (naming_market db p q Hnm). by destruct p.
Qed.

Lemma name_rows_NoDup p : NoDup (map resolved_key (name_rows db p)).
Proof.
  unfold name_rows. destruct (names_of_rows db Hok p) as [E|(q & f & b & Hq & Hnm & Hr & E)]; rewrite E; [constructor |].
  pose proof (stated_venues (f_Assertions (facts_of db q)) p.1) as Hnd. rewrite !map_map.
  apply NoDup_fmap_2_strong; [| by apply NoDup_of_key in Hnd]. intros x y Hx Hy. unfold resolved_key. simpl. intros [= E2].
  apply (NoDup_key st_Venue _ _ _ Hnd Hx Hy). by apply nullif_inj.
Qed.

Lemma elem_of_DeleteResolved rows pairs r : r ∈ DeleteResolvedTickers rows pairs <-> r ∈ rows /\ row_pair r ∉ pairs.
Proof. unfold DeleteResolvedTickers. by rewrite elem_of_lfilter, negb_true_iff, contains_false. Qed.

Lemma key_pair r q : resolved_key r = resolved_key q -> row_pair r = row_pair q.
Proof. unfold resolved_key, row_pair. congruence. Qed.

Lemma new_resolved_ok pairs : NoDup pairs -> resolved_ok (new_resolved pairs).
Proof.
  intros Hnd. destruct (vo_resolved db Hok) as [R1 R2]. split.
  - apply Forall_app. split; apply Forall_forall.
    + intros r [Hr _]%elem_of_DeleteResolved. rewrite Forall_forall in R1. auto.
    + intros r (p & _ & Hr)%elem_of_concat_map. by apply (name_rows_spec p).
  - unfold new_resolved. rewrite map_app, concat_map, map_map. apply NoDup_app. split; [| split].
    + by apply NoDup_key_filter.
    + intros k (r & -> & [_ Hr]%elem_of_DeleteResolved)%list_elem_of_fmap (p & Hp & (q & E & Hq)%list_elem_of_fmap)%elem_of_concat_map.
      apply Hr. rewrite (key_pair _ _ E). by rewrite (proj1 (name_rows_spec p q Hq)).
    + apply NoDup_concat_map; [done | intros; apply name_rows_NoDup |].
      intros p p' k Hp Hp' (r & -> & Hr)%list_elem_of_fmap (q & E & Hq)%list_elem_of_fmap. apply key_pair in E.
      by rewrite (proj1 (name_rows_spec p r Hr)), (proj1 (name_rows_spec p' q Hq)) in E.
Qed.

Lemma new_resolved_stored pairs p :
  NoDup pairs -> stored_names (new_resolved pairs) p =
    if decide (p ∈ pairs) then name_rows db p else stored_names (vd_resolved db) p.
Proof.
  intros Hnd. unfold stored_names, new_resolved. rewrite List.filter_app. destruct (decide (p ∈ pairs)) as [Hp|Hp].
  - rewrite filter_nil_all.
    + simpl. apply (filter_concat_one _ (name_rows db)); [done | done | |].
      * intros r Hr. by apply bool_decide_eq_true_2, name_rows_spec.
      * intros q r _ Hne Hr. apply bool_decide_eq_false_2. rewrite (proj1 (name_rows_spec q r Hr)). congruence.
    + intros r [_ Hr]%elem_of_DeleteResolved. apply bool_decide_eq_false_2. congruence.
  - rewrite filter_concat_none, app_nil_r.
    + unfold DeleteResolvedTickers. induction (vd_resolved db) as [|r rows IH]; [done |]. simpl.
      fold (row_pair r). destruct (decide (row_pair r = p)) as [E|E].
      * rewrite (bool_decide_eq_true_2 (row_pair r = p)) by done.
        replace (contains pairs (row_pair r)) with false by (symmetry; apply contains_false; congruence).
        simpl. by rewrite bool_decide_eq_true_2, IH.
      * rewrite (bool_decide_eq_false_2 (row_pair r = p)) by done.
        destruct (contains _ _); simpl; [done |]. by rewrite bool_decide_eq_false_2.
    + intros q r Hq Hr. apply bool_decide_eq_false_2. rewrite (proj1 (name_rows_spec q r Hr)). congruence.
Qed.

Lemma NoDup_ListResolvePairs ids : NoDup (ListResolvePairs db ids).
Proof. unfold ListResolvePairs. rewrite sort_func_perm. apply NoDup_append_all. Qed.

(** What one [Rebuild] leaves. *)
Lemma Rebuild_eq ids :
  ids <> [] ->
  Rebuild db (MkLocked ids) =
    Some (set_resolved (set_validity db (rebuilt_rows db (ListTickersByID (vd_tickers db) ids))) (new_resolved (ListResolvePairs db ids))).
Proof.
  intros Hids. unfold Rebuild. simpl. destruct ids as [|id ids']; [done |]. set (ids := id :: ids') in *.
  set (rebuilt := ListTickersByID (vd_tickers db) ids). set (pairs := ListResolvePairs db ids).
  set (rows := match pairs with [] => [] | _ => ListPairTickers db pairs end).
  assert (forall r, r ∈ rebuilt ++ map snd rows -> r ∈ vd_tickers db) as Hin.
  { intros r [Hr%elem_of_ListTickersByID|Hr]%elem_of_app; [apply Hr |]. apply list_elem_of_fmap in Hr as ([i q] & -> & Hq).
    unfold rows in Hq. destruct pairs; [by apply not_elem_of_nil in Hq |]. by apply (elem_of_ListPairTickers db Hok) in Hq as [? _]. }
  rewrite (writeValidity_eq db Hok).
  2: { apply (NoDup_ListTickersByID db Hok). }
  2: { intros r Hr. split; [apply Hin, elem_of_app; by left |]. apply elem_of_app. left. by apply list_elem_of_fmap_2. }
  cbn [mbind option_bind]. rewrite (mapM_total _ (name_rows db)).
  2: { intros p Hp. unfold rows. destruct pairs as [|p0 ps] eqn:Ep; [by apply not_elem_of_nil in Hp |].
    apply (resolve_pair_eq db Hok); [done | |].
    - exact Hin.
    - intros r Hr. split; apply elem_of_app; right; [| done]. apply list_elem_of_fmap in Hr as (x & -> & Hx).
      apply list_elem_of_fmap. by exists x. }
  cbn [mbind option_bind]. pose proof (new_resolved_ok pairs (NoDup_ListResolvePairs ids)) as Hres.
  assert (pairs = [] -> new_resolved pairs = vd_resolved db) as Hnone.
  { intros ->. unfold new_resolved, DeleteResolvedTickers. simpl. rewrite app_nil_r. apply filter_id_all. done. }
  destruct pairs as [|p ps] eqn:Ep.
  - rewrite Hnone by done. done.
  - change (vd_resolved (set_validity db (rebuilt_rows db rebuilt))) with (vd_resolved db). unfold new_resolved in Hres.
    by rewrite CreateResolvedTickers_ok.
Qed.

(** The rows written name instruments that assertions of the tickers name. *)
Lemma rebuilt_rows_names rebuilt v : v ∈ rebuilt_rows db rebuilt ->
  v ∈ vd_validity db \/ exists a, a ∈ vd_assertions db /\ ia_InstrID a = Some (tv_InstrID v).
Proof.
  unfold rebuilt_rows. intros [[Hv _]%elem_of_DeleteTickerValidity|(r & _ & (iv & Hiv & ->)%elem_of_validity_rows)%elem_of_concat_map]%elem_of_app; [by left | right].
  destruct (derive_instr _ _ iv (facts_of_ok db Hok r) (derived_of_eq db Hok r) Hiv) as (x & Hx & Hi).
  apply list_elem_of_fmap in Hx as (row & -> & Hrow). apply elem_of_sort_func, elem_of_assertions_of in Hrow as (a & Ha & _ & ->). by exists a.
Qed.

Lemma new_resolved_names pairs x : x ∈ new_resolved pairs ->
  x ∈ vd_resolved db \/ exists a, a ∈ vd_assertions db /\ ia_InstrID a = Some (rt_InstrID x).
Proof.
  unfold new_resolved. intros [[Hx _]%elem_of_DeleteResolved|(p & _ & Hx)%elem_of_concat_map]%elem_of_app; [by left | right].
  destruct (name_rows_spec p x Hx) as [Hp _]. unfold name_rows in Hx. destruct (names_of_rows db Hok p) as [E|(r & _ & _ & Hr & Hn & _ & _)].
  - rewrite E in Hx. by apply not_elem_of_nil in Hx.
  - apply (naming_spec db Hok p r Hr) in Hn as (a & Ha & Hi & _). exists a. split; [done |]. by rewrite Hi, <- Hp.
Qed.

(** A rebuild leaves tables in order, and names no instrument that no assertion
    names. *)
Lemma Rebuild_ok ids : exists db', Rebuild db (MkLocked ids) = Some db' /\ validity_db_ok db' /\
  (exists rows names, db' = set_resolved (set_validity db rows) names) /\
  (forall v, v ∈ vd_validity db' -> v ∈ vd_validity db \/ exists a, a ∈ vd_assertions db /\ ia_InstrID a = Some (tv_InstrID v)) /\
  (forall x, x ∈ vd_resolved db' -> x ∈ vd_resolved db \/ exists a, a ∈ vd_assertions db /\ ia_InstrID a = Some (rt_InstrID x)).
Proof.
  destruct (decide (ids = [])) as [->|Hids].
  { exists db. split; [done |]. split; [done |]. split; [by exists (vd_validity db), (vd_resolved db); destruct db | auto]. }
  rewrite (Rebuild_eq ids Hids). eexists. split; [reflexivity |]. split; [| split; [by eauto | split]].
  - destruct Hok as [O1 O2 O3 O4 O5 O6 O7 O8 O9]. split; simpl; try done.
    + apply (rebuilt_rows_ok db Hok); [by apply NoDup_ListTickersByID | by intros r [? _]%elem_of_ListTickersByID].
    + apply new_resolved_ok, NoDup_ListResolvePairs.
  - intros v. apply rebuilt_rows_names.
  - intros x. apply new_resolved_names.
Qed.

End RebuildNames.

(** * Reading validity back *)

Section Load.
Context {D : Type}.

Lemma load_fold t rows : forall out l,
  out !! t = Some l -> foldl load_step out rows !! t = Some (l ++ map snd (List.filter (fun r => bool_decide (r.1 = t)) rows)).
Proof.
  induction rows as [|[u iv] rows IH]; intros out l Hl; simpl; [by rewrite app_nil_r |].
  unfold load_step at 2. simpl. destruct (decide (u = t)) as [->|Hne].
  - rewrite bool_decide_eq_true_2, Hl by done. simpl. rewrite (IH _ _ (lookup_insert_eq _ _ _)). by rewrite <- app_assoc.
  - rewrite bool_decide_eq_false_2 by done. apply IH. by rewrite lookup_insert_ne.
Qed.

#[export] Instance nulls_first_cmp : GoCmp nulls_first.
Proof.
  split; intros [] []; simpl; try done; [apply Z.compare_antisym | |].
  - intros []; [apply (cmp_trans Z.compare) | done].
  - by intros [].
Qed.

#[export] Instance MarketTicker_cmp_cmp : GoCmp MarketTicker_cmp.
Proof. apply _. Qed.

Definition row_interval (v : ValidityRow) : Interval := MkInterval (tv_From v) (tv_Before v) (tv_InstrID v) (tv_Validity v).

(** [Load] answers the stored rows of a ticker in order of their start. *)
Lemma Load_stored (T : tables D) ts r :
  NoDup (map tk_ID (db_tickers T)) -> NoDup (map ticker_of (db_tickers T)) -> r ∈ db_tickers T -> ticker_of r ∈ ts ->
  StronglySorted (cmp_le (cmp_on iv_From nulls_first)) (map row_interval (stored (db_validity T) r)) ->
  Load T ts !! ticker_of r = Some (map row_interval (stored (db_validity T) r)).
Proof.
  intros HI HK Hr Ht Hs. unfold Load.
  set (init := list_to_map (map (fun t => (t, [])) (distinct_tickers ts)) : gmap MarketTicker (list Interval)).
  assert (init !! ticker_of r = Some []) as Hinit.
  { apply elem_of_list_to_map_1; [rewrite map_map, map_id; apply NoDup_distinct |].
    apply list_elem_of_fmap. exists (ticker_of r). split; [done |]. by apply elem_of_distinct. }
  rewrite (load_fold _ _ _ _ Hinit). simpl. unfold ListTickerValidity. rewrite sort_func_filter by apply _.
  set (g := fun q => map (fun v => (ticker_of q, row_interval v)) (stored (db_validity T) q)).
  replace (List.filter _ _) with (g r); [rewrite sort_func_id; [unfold g; by rewrite map_map | apply _ |] |].
  - unfold g. clear -Hs. induction (stored (db_validity T) r) as [|v l IH]; [constructor |]. simpl in *.
    inversion_clear Hs as [|? ? Hs' Hf]. constructor; [by apply IH |]. rewrite Forall_forall in Hf.
    apply Forall_forall. intros x (w & -> & Hw)%list_elem_of_fmap. unfold cmp_le, cmp_lex at 1, cmp_on at 1. simpl.
    rewrite (cmp_refl MarketTicker_cmp). apply (Hf (row_interval w)). by apply list_elem_of_fmap_2.
  - symmetry. apply (filter_concat_one _ g).
    + apply NoDup_concat_map; [apply NoDup_distinct | intros; apply NoDup_lfilter; by apply NoDup_of_key with (f := tk_ID) |].
      intros x y q _ _ [_ Hx%bool_decide_eq_true]%elem_of_lfilter [_ Hy%bool_decide_eq_true]%elem_of_lfilter. congruence.
    + apply elem_of_concat_map. exists (ticker_of r). split; [by apply elem_of_distinct |]. apply elem_of_lfilter.
      by rewrite bool_decide_eq_true_2.
    + intros x (v & -> & _)%list_elem_of_fmap. by apply bool_decide_eq_true_2.
    + intros q x (t & _ & [Hq _]%elem_of_lfilter)%elem_of_concat_map Hne (v & -> & _)%list_elem_of_fmap.
      apply bool_decide_eq_false_2. simpl. intros E. apply Hne. by apply (NoDup_key _ _ _ _ HK).
Qed.

Lemma validity_rows_back r ivs : Forall (iv_all whole_day) ivs -> map row_interval (validity_rows r ivs) = ivs.
Proof.
  induction 1 as [|iv ivs [H1 H2] _ IH]; [done |]. simpl. rewrite IH. f_equal. unfold row_interval. simpl.
  rewrite !isoDay_days by done. by destruct iv.
Qed.

Lemma intervals_by_start ivs : intervals_ok ivs -> StronglySorted (cmp_le (cmp_on iv_From nulls_first)) ivs.
Proof.
  intros [Hs Hne]. induction Hs as [|iv ivs Hs IH Hp]; [constructor |]. apply Forall_cons in Hne as [H1 H2]. constructor; [by apply IH |].
  eapply Forall_impl; [exact Hp |]. intros jv Hj. unfold iv_precedes, iv_nonempty, cmp_le, cmp_on in *.
  destruct (iv_From iv), (iv_Before iv), (iv_From jv); simpl; try done. apply Z.compare_le_iff. lia.
Qed.
End Load.

(** * Properties *)

Lemma Rebuild_rows_ok db ids :
  validity_db_ok db ->
  exists db', Rebuild db (MkLocked ids) = Some db' /\ validity_db_ok db' /\
    (vd_tickers db' = vd_tickers db /\ vd_assertions db' = vd_assertions db /\ vd_coverage db' = vd_coverage db) /\
    forall r, r ∈ vd_tickers db ->
      if decide (tk_ID r ∈ ids)
      then exists dv, derive (facts_of db r) = Some dv /\ stored (vd_validity db') r = validity_rows r (dv_Intervals dv)
      else stored (vd_validity db') r = stored (vd_validity db) r.
Proof.
  intros Hok. destruct ids as [|id ids'].
  { exists db. split; [done |]. split; [done |]. split; [done |]. intros r _. rewrite decide_False; [done | apply not_elem_of_nil]. }
  set (ids := id :: ids'). eexists. split; [by apply Rebuild_eq |].
  pose proof (elem_of_ListTickersByID db ids) as Hin. pose proof (NoDup_ListTickersByID db Hok ids) as Hnd.
  set (rebuilt := ListTickersByID (vd_tickers db) ids) in *. split; [| split; [done |]].
  - destruct Hok. split; simpl; try done.
    + apply rebuilt_rows_ok; [done | done | by intros r [? _]%Hin].
    + apply new_resolved_ok; [done | apply NoDup_ListResolvePairs].
  - intros r Hr. simpl. rewrite (rebuilt_rows_stored db Hok) by (done || by intros q [? _]%Hin).
    destruct (decide (tk_ID r ∈ ids)) as [Hi|Hi].
    + rewrite decide_True by (by apply Hin). exists (derived_of db r). split; [by apply derived_of_eq | done].
    + rewrite decide_False; [done |]. by intros [_ ?]%Hin.
Qed.

(** C4: [Rebuild] ends on any tables the schema admits, without a nil
    dereference or a violated constraint, and leaves tables the schema admits. It
    stores exactly the intervals [derive] answers of the facts of each ticker
    asked for, and keeps the rows of every other ticker. *)
Theorem Rebuild_validity db ids :
  validity_db_ok db ->
  exists db', Rebuild db (MkLocked ids) = Some db' /\ validity_db_ok db' /\
    (vd_tickers db' = vd_tickers db /\ vd_assertions db' = vd_assertions db /\ vd_coverage db' = vd_coverage db) /\
    forall r, r ∈ vd_tickers db ->
      if decide (tk_ID r ∈ ids)
      then exists dv, derive (facts_of db r) = Some dv /\ stored (vd_validity db') r = validity_rows r (dv_Intervals dv)
      else stored (vd_validity db') r = stored (vd_validity db) r.
Proof. apply Rebuild_rows_ok. Qed.

Lemma Rebuild_names_ok db ids db' p :
  validity_db_ok db -> ids <> [] -> Rebuild db (MkLocked ids) = Some db' ->
  stored_names (vd_resolved db') p =
    if decide (p ∈ ListResolvePairs db ids) then name_rows db p else stored_names (vd_resolved db) p.
Proof.
  intros Hok Hids HR. rewrite (Rebuild_eq db Hok ids Hids) in HR. injection HR as <-. simpl.
  apply new_resolved_stored; [done | apply NoDup_ListResolvePairs].
Qed.

(** ** The pairs a rebuild writes, and their names *)

(** An assertion of one of the tickers names the instrument at the market, or a
    stored name of the pair is one of them. *)
Definition touched (db : validity_db) (ids : list uuid) (p : pair) : Prop :=
  (exists a, a ∈ vd_assertions db /\ ia_TickerID a ∈ ids /\ ia_InstrID a = Some p.1 /\ ia_Market a = p.2) \/
  (exists r, r ∈ vd_resolved db /\ rt_TickerID r ∈ ids /\ rt_InstrID r = p.1 /\ rt_Market r = p.2).

Lemma elem_of_ListResolvePairs db ids p : p ∈ ListResolvePairs db ids <-> touched db ids p.
Proof.
  unfold ListResolvePairs, touched. rewrite elem_of_sort_func, elem_of_append_all, elem_of_app, list_elem_of_omap, list_elem_of_fmap. f_equiv.
  - split.
    + intros (a & Ha & He). destruct (contains _ _) eqn:Ec; [| done]. apply contains_true in Ec. destruct (ia_InstrID a) eqn:Ei; [| done]. simpl in He. injection He as <-. by exists a.
    + intros (a & Ha & Ht & Hi & Hm). exists a. split; [done |]. rewrite (proj2 (contains_true _ _) Ht), Hi. simpl. rewrite Hm. by destruct p.
  - split.
    + intros (r & -> & [Hr Hc%contains_true]%elem_of_lfilter). by exists r.
    + intros (r & Hr & Ht & Ei & Em). exists r. split; [destruct p; simpl in *; congruence |]. apply elem_of_lfilter. by rewrite contains_true.
Qed.

Section NameRows.
Context (db : validity_db) (Hok : validity_db_ok db).

(** A ticker of the market that an assertion names the instrument. *)
Definition asserts_pair (p : pair) (r : TickerRow) : Prop :=
  r ∈ vd_tickers db /\ tk_Market r = p.2 /\ exists a, a ∈ vd_assertions db /\ ia_TickerID a = tk_ID r /\ ia_InstrID a = Some p.1.

(** The ticker's derived validity names the instrument on the day. *)
Definition names_on (p : pair) (r : TickerRow) (d : time) : Prop := exists v, names (dv_Intervals (derived_of db r)) d p.1 v.

(** A row of the name of a pair: its ticker names the instrument on the days
    between its bounds and on none after them, it is the best of the tickers that
    do, and its venue and currency are stated by an assertion of it. *)
Record name_row (p : pair) (x : ResolvedRow) : Prop := {
  nr_pair : rt_InstrID x = p.1 /\ rt_Market x = p.2;
  nr_ticker : exists r k s, asserts_pair p r /\ rt_TickerID x = tk_ID r /\
    (forall d, from_le (rt_From x) d -> day_before d (rt_Before x) -> names_on p r d) /\
    (forall d, names_on p r d -> day_before d (rt_Before x)) /\
    name_of p.1 (tickerFacts_of db r) = Some k /\
    (forall q j, asserts_pair p q -> name_of p.1 (tickerFacts_of db q) = Some j -> name_cmp j k <> Gt) /\
    s ∈ stated (f_Assertions (facts_of db r)) p.1 /\ rt_Venue x = nullif (st_Venue s) /\ rt_Currency x = nullif (st_Currency s);
}.

Lemma asserts_naming p r : asserts_pair p r <-> r ∈ vd_tickers db /\ naming db p r = true.
Proof.
  unfold asserts_pair, naming. rewrite andb_true_iff, bool_decide_eq_true, existsb_elem. setoid_rewrite andb_true_iff. setoid_rewrite bool_decide_eq_true. naive_solver.
Qed.

Lemma elem_of_naming p t : t ∈ sort_func by_value (map (tickerFacts_of db) (List.filter (naming db p) (vd_tickers db))) <->
  exists r, asserts_pair p r /\ t = tickerFacts_of db r.
Proof. rewrite elem_of_sort_func, list_elem_of_fmap. setoid_rewrite elem_of_lfilter. setoid_rewrite asserts_naming. naive_solver. Qed.

Lemma name_of_None i r : name_of i (tickerFacts_of db r) = None <-> forall d v, ~ names (dv_Intervals (derived_of db r)) d i v.
Proof.
  pose proof (derived_of_intervals db Hok r) as [Hs Hne]. split.
  - intros Hn d v (iv & Hiv & _ & Hi & _). unfold name_of in Hn. simpl in Hn. apply list_elem_of_lookup in Hiv as [j Hj].
    pose proof (lastNaming_from_spec (dv_Intervals (derived_of db r)) i (length (dv_Intervals (derived_of db r)))) as Hl. unfold lastNaming in Hn.
    destruct (lastNaming_from _ _ _) as [n|].
    + destruct Hl as (_ & (lv & Hlv & _) & _). simpl in Hn. rewrite Hlv in Hn. discriminate Hn.
    + apply (Hl j iv); [by eapply lookup_lt_Some | done | done].
  - intros H. destruct (name_of i (tickerFacts_of db r)) as [k|] eqn:E; [exfalso | done]. unfold name_of in E. simpl in E.
    destruct (lastNaming _ _) as [n|] eqn:El; [| done]. destruct (lastNaming_Some _ _ _ El) as [(iv & Hiv & Hi) _].
    apply list_elem_of_lookup_2 in Hiv. rewrite Forall_forall in Hne. pose proof (Hne iv Hiv) as Hn.
    assert (exists d, Interval_Contains iv d = true) as [d Hd].
    { setoid_rewrite Interval_Contains_spec. unfold iv_nonempty in Hn. unfold from_le. destruct (iv_From iv) as [f|], (iv_Before iv) as [b|]; [exists f | exists f | exists (b - 1) | exists 0]; split; try done; lia. }
    by apply (H d (iv_Validity iv)); exists iv.
Qed.

Lemma resolveNames_days i ts x : Forall (fun t => Forall (iv_all whole_day) (dv_Intervals (tf_Derived t))) ts -> x ∈ resolveNames i ts ->
  isoDay (rn_From x) = rn_From x /\ isoDay (rn_Before x) = rn_Before x.
Proof.
  intros Hd. unfold resolveNames. pose proof (best_fold_inv i ts) as Hb. destruct (foldl _ None ts) as [[[t stop] won]|]; [| by intros ?%not_elem_of_nil].
  destruct Hb as (Hin & _). rewrite Forall_forall in Hd. pose proof (Hd t Hin) as Ht. rewrite Forall_forall in Ht.
  destruct (lastNaming _ _) as [n|]; [| by intros ?%not_elem_of_nil]. intros (s & -> & _)%list_elem_of_fmap. simpl.
  assert (forall m iv, dv_Intervals (tf_Derived t) !! m = Some iv -> iv_all whole_day iv) as Hl by (intros m iv Hm; by eapply Ht, list_elem_of_lookup_2).
  split; apply isoDay_days; [destruct (_ !! run_start _ _ _) eqn:E | destruct (_ !! n) eqn:E]; try (by intros ? ?); by apply Hl in E as [? ?].
Qed.

Lemma name_rows_ok p : (name_rows db p = [] <-> forall r d, asserts_pair p r -> ~ names_on p r d) /\ forall x, x ∈ name_rows db p -> name_row p x.
Proof.
  set (ts := sort_func by_value (map (tickerFacts_of db) (List.filter (naming db p) (vd_tickers db)))).
  assert (forall t, t ∈ ts -> exists r, asserts_pair p r /\ t = tickerFacts_of db r) as Hts by (intros t; apply elem_of_naming).
  destruct (resolveNames_spec p.1 ts) as [Hnil Hrow].
  { apply Forall_forall. intros t (r & _ & ->)%Hts. by apply derived_of_intervals. }
  unfold name_rows, names_of. fold ts. split.
  - assert (forall {A B} (f : A -> B) l, map f l = [] <-> l = []) as -> by (intros A B f []; done). rewrite Hnil. split.
    + intros H r d Hr [v Hv]. assert (name_of p.1 (tickerFacts_of db r) = None) as Hn by (apply H, elem_of_naming; by exists r). rewrite name_of_None in Hn. by apply (Hn d v).
    + intros H t (r & Hr & ->)%Hts. apply name_of_None. intros d v Hv. apply (H r d Hr). by exists v.
  - intros x (n & -> & Hn)%list_elem_of_fmap. destruct (resolveNames_days p.1 ts n) as [Ef Eb]; [| done |].
    { apply Forall_forall. intros t (r & _ & ->)%Hts. by apply derived_of_days. }
    destruct (Hrow n Hn) as (t & k & Ht & Etk & Ein & Hk & Hbest & Hon & Hafter & Hst). apply Hts in Ht as (r & Hr & ->). simpl in Etk, Hst.
    unfold resolved_row. split; simpl; [rewrite Ein, Etk; split; [done | apply Hr] |]. rewrite Ef, Eb, Etk, (id_map_lookup db Hok _ r) by (try done; apply Hr).
    exists r, k, (rn_Stated n). split; [done |]. split; [done |]. split; [done |]. split; [by intros d [v Hv]; apply (Hafter d v) |]. split; [done |]. split; [| done].
    intros q j Hq. apply Hbest. apply elem_of_naming. by exists q.
Qed.

End NameRows.

(** C6: an instrument and market are written by [Rebuild] exactly where an
    assertion of a locked ticker names the instrument at the market or a stored
    name of the two is a locked ticker. Their rows are then those [resolveNames]
    answers of the tickers of the market that an assertion names the instrument,
    whether locked or not: none where no such ticker names it on any day, and
    otherwise rows of the one that is best by the end of its last interval naming
    it, the last day it won and its value, whose bounds hold days it names the
    instrument, and end after all of them. The rows of every other instrument and
    market stand. *)
Theorem Rebuild_names db ids db' p :
  validity_db_ok db -> ids <> [] -> Rebuild db (MkLocked ids) = Some db' ->
  let rows := stored_names (vd_resolved db') p in
  (touched db ids p -> rows = name_rows db p /\ (rows = [] <-> forall r d, asserts_pair db p r -> ~ names_on db p r d) /\ forall x, x ∈ rows -> name_row db p x) /\
  (~ touched db ids p -> rows = stored_names (vd_resolved db) p).
Proof.
  intros Hok Hids HR rows. unfold rows. rewrite (Rebuild_names_ok db ids db' p Hok Hids HR), <- elem_of_ListResolvePairs. case_decide as Hp; [| by split].
  split; [intros _; split; [done | by apply name_rows_ok] | done].
Qed.

(** C5: what [Rebuild] writes is what [Load] reads: for each ticker rebuilt,
    [Load] answers the very intervals [derive] answers of its facts, whatever
    other tickers it is asked for. *)
Theorem Rebuild_Load {D} (T : tables D) db ids db' ts r :
  validity_db_ok db -> Rebuild db (MkLocked ids) = Some db' ->
  db_tickers T = vd_tickers db' -> db_validity T = vd_validity db' ->
  r ∈ vd_tickers db -> tk_ID r ∈ ids -> ticker_of r ∈ ts ->
  exists dv, derive (facts_of db r) = Some dv /\ Load T ts !! ticker_of r = Some (dv_Intervals dv).
Proof.
  intros Hok HR HT HV Hr Hi Ht. assert (ids <> []) as Hids by (intros ->; by apply not_elem_of_nil in Hi).
  rewrite (Rebuild_eq db Hok ids Hids) in HR. injection HR as <-. simpl in HT, HV.
  exists (derived_of db r). split; [by apply derived_of_eq |].
  assert (stored (db_validity T) r = validity_rows r (dv_Intervals (derived_of db r))) as Est.
  { rewrite HV, (rebuilt_rows_stored db Hok); [| by apply NoDup_ListTickersByID | by intros q [? _]%elem_of_ListTickersByID | done].
    rewrite decide_True; [done |]. by apply elem_of_ListTickersByID. }
  assert (map row_interval (stored (db_validity T) r) = dv_Intervals (derived_of db r)) as Eiv.
  { rewrite Est. apply validity_rows_back. by apply derived_of_days. }
  rewrite <- Eiv at 1. apply Load_stored; [rewrite HT; apply Hok .. | by rewrite HT | done |].
  rewrite Eiv. apply intervals_by_start. by apply derived_of_intervals.
Qed.

(** * Witnesses: two tickers of a market, the first named twice by one answer *)

Definition ex_row_1 : TickerRow := MkTickerRow 5 "XNAS" "ABC".
Definition ex_row_2 : TickerRow := MkTickerRow 6 "XNAS" "ABD".

Definition ex_stored : AssertionRow :=
  MkAssertionRow 21 (Some 31%N) None 5 "XNAS" (Some 7%N) (ex_day 10) (ex_day 12) false true (Some "XNGS") (Some "USD").

Definition ex_attested : AssertionRow :=
  MkAssertionRow 22 None (Some 41%N) 6 "XNAS" (Some 7%N) (ex_day 3) (ex_day 4) false false None None.

Definition ex_db : validity_db :=
  MkValidityDB [ex_row_1; ex_row_2] [ex_stored; ex_attested] [MkCoverageRow 51 31 "XNAS" 5 (ex_day 8) (ex_day 14)]
    {[31%N := MkFetchKeyRow 99 (Some (ex_day 8)) (Some (ex_day 14)) "eodhd" 1]} {[41%N := 98]} {["XNAS"%string := "eodhd"%string]}
    [MkValidityRow 6 9 None None Provisional] [MkResolvedRow 6 "XNAS" 9 None None None None].

Lemma ex_db_ok : validity_db_ok ex_db.
Proof.
  assert (forall x, Day x = x -> opt_all whole_day (Some x)) as Hd by (by intros x Hx y [= <-]).
  split.
  - apply (bool_decide_unpack _). vm_compute. exact I.
  - apply (bool_decide_unpack _). vm_compute. exact I.
  - intros a [->| ->%list_elem_of_singleton]%elem_of_cons; repeat split.
  - intros a [->| ->%list_elem_of_singleton]%elem_of_cons; [exists ex_row_1 | exists ex_row_2]; (split; [| done]); [left | right; left].
  - intros a ->%list_elem_of_singleton. repeat split.
  - intros a ->%list_elem_of_singleton. exists ex_row_1. split; [left | done].
  - intros i k Hk. cbn [vd_keys ex_db] in Hk. apply lookup_singleton_Some in Hk as [_ <-]. split; by apply Hd.
  - split; repeat constructor.
  - split; [repeat constructor | apply NoDup_singleton].
Defined.

Definition ex_rebuilt : validity_db := default ex_db (Rebuild ex_db (MkLocked [5%N; 6%N])).

Lemma ex_rebuild_run : Rebuild ex_db (MkLocked [5%N; 6%N]) = Some ex_rebuilt.
Proof. vm_compute. reflexivity. Defined.

Lemma Rebuild_validity_witness :
  validity_db_ok ex_db /\ exists db', Rebuild ex_db (MkLocked [5%N; 6%N]) = Some db' /\ validity_db_ok db'.
Proof.
  split; [exact ex_db_ok |]. destruct (Rebuild_validity ex_db [5%N; 6%N] ex_db_ok) as (db' & H1 & H2 & _).
  exists db'. exact (conj H1 H2).
Defined.

(** The pair of the instrument 7 is written, and that of the instrument 9, whose
    stored name is a locked ticker that no assertion names it any more: it loses
    its name. *)
Lemma Rebuild_names_witness :
  (exists x, x ∈ stored_names (vd_resolved ex_rebuilt) (7%N, "XNAS"%string) /\ name_row ex_db (7%N, "XNAS"%string) x) /\
  stored_names (vd_resolved ex_db) (9%N, "XNAS"%string) <> [] /\ stored_names (vd_resolved ex_rebuilt) (9%N, "XNAS"%string) = [].
Proof.
  split; [| split; [vm_compute; discriminate |]].
  - destruct (Rebuild_names ex_db [5%N; 6%N] ex_rebuilt (7%N, "XNAS"%string) ex_db_ok ltac:(discriminate) ex_rebuild_run) as [Ht _].
    destruct Ht as (_ & _ & Hx); [left; exists ex_stored; repeat split; [left | left] |].
    destruct (stored_names (vd_resolved ex_rebuilt) (7%N, "XNAS"%string)) as [|x xs] eqn:E; [vm_compute in E; discriminate E |].
    exists x. split; [left | apply Hx; left].
  - destruct (Rebuild_names ex_db [5%N; 6%N] ex_rebuilt (9%N, "XNAS"%string) ex_db_ok ltac:(discriminate) ex_rebuild_run) as [Ht _].
    destruct Ht as (_ & Hn & _); [right; exists (MkResolvedRow 6 "XNAS" 9 None None None None); repeat split; [left | right; left] |].
    apply Hn. intros r d (_ & _ & a & Ha & _ & Hi) _. simpl in Ha. apply elem_of_cons in Ha as [->|Ha]; [discriminate Hi |]. apply list_elem_of_singleton in Ha as ->. discriminate Hi.
Defined.

Lemma Rebuild_Load_witness :
  exists dv, derive (facts_of ex_db ex_row_1) = Some dv /\
    Load (MkTables (D := fixed) (vd_tickers ex_rebuilt) (vd_validity ex_rebuilt) [] [] ∅ [] []) [ticker_of ex_row_1] !! ticker_of ex_row_1 =
      Some (dv_Intervals dv).
Proof.
  apply (Rebuild_Load _ ex_db [5%N; 6%N] ex_rebuilt); [exact ex_db_ok | exact ex_rebuild_run | reflexivity | reflexivity | left | left | left].
Defined.
