(* ===== verification/Rebuilding.v ===== *)
(** Rebuilding the ticker validity and the names of every ticker, a batch at a
    time, [server/internal/run/rebuildtickervalidity/rebuildtickervalidity.go].
    Nothing else writes beside the run. *)
From S2P Require Import Prelude Types Period Facts Derive Validity Rows Runs Mic Tickers Calendar ValidityStore.

(** * Definitions *)

(** The transaction of a batch: the ids it held, and the tables it leaves. *)
Definition rebuild_batch (batch : nat) (after : option uuid) (db : validity_db) : option (list uuid * validity_db) :=
  let locked := Tickers.LockBatch (vd_tickers db) after batch in
  db ← Rebuild db locked; Some (lk_ids locked, db).

(** [None] is a loop that has not ended, and [Some None] the error of a batch, or
    the index of an empty batch where [batch] is not positive. *)
Fixpoint rebuild (fuel : nat) (batch : nat) (after : option uuid) (db : validity_db) : option (option validity_db) :=
  match fuel with
  | O => None
  | S fuel' =>
      match rebuild_batch batch after db with
      | None => Some None
      | Some (ids, db') =>
          if (length ids <? batch)%nat then Some (Some db')
          else match last ids with None => Some None | Some a => rebuild fuel' batch (Some a) db' end
      end
  end.

(** [Start]. *)
Definition rebuild_start : Runs.Spec := Runs.MkSpec RunKindRebuildTickerValidity RunTriggerAdministrator None "rebuild_ticker_validity" false.

(** * The batches *)

(** The ids in order. *)
Definition ticker_ids (db : validity_db) : list uuid := sort_func N.compare (map tk_ID (vd_tickers db)).

Lemma NoDup_ticker_ids db : validity_db_ok db -> NoDup (ticker_ids db).
Proof. intros Hok. unfold ticker_ids. rewrite sort_func_perm. apply Hok. Qed.

(** The ids after the one at [k] are those past it in order. *)
Lemma ids_after (l : list N) k a : StronglySorted (cmp_le N.compare) l -> NoDup l -> l !! k = Some a -> List.filter (fun x => (a <? x)%N) l = drop (S k) l.
Proof.
  intros Hs Hnd Hk. rewrite <- (take_drop_middle l k a Hk) at 1. rewrite List.filter_app. simpl. rewrite N.ltb_irrefl.
  assert (forall i x, l !! i = Some x -> (i < k)%nat -> (x < a)%N) as Hlt.
  { intros i x Hi Hik. pose proof (StronglySorted_lookup _ _ _ _ _ _ Hs Hi Hk Hik) as Hle. unfold cmp_le in Hle.
    destruct (decide (x = a)) as [->|Hne]; [pose proof (NoDup_lookup _ _ _ _ Hnd Hi Hk); lia |]. change (x <= a)%N in Hle. lia. }
  assert (forall i x, l !! i = Some x -> (k < i)%nat -> (a < x)%N) as Hgt.
  { intros i x Hi Hik. pose proof (StronglySorted_lookup _ _ _ _ _ _ Hs Hk Hi Hik) as Hle. unfold cmp_le in Hle.
    destruct (decide (x = a)) as [->|Hne]; [pose proof (NoDup_lookup _ _ _ _ Hnd Hi Hk); lia |]. change (a <= x)%N in Hle. lia. }
  rewrite filter_nil_all, filter_id_all; [done | |].
  - intros x [i Hi]%list_elem_of_lookup. rewrite lookup_drop in Hi. apply N.ltb_lt. apply (Hgt _ _ Hi). lia.
  - intros x [i Hi]%list_elem_of_lookup. apply lookup_take_Some in Hi as [Hi Hik]. apply N.ltb_ge. pose proof (Hlt _ _ Hi Hik). lia.
Qed.

(** The position of a batch: after the first [n] ids. *)
Definition at_position (db : validity_db) (n : nat) (after : option uuid) : Prop :=
  match after with None => n = 0%nat | Some a => exists k, n = S k /\ ticker_ids db !! k = Some a end.

Lemma LockBatch_ids db n after batch : validity_db_ok db -> at_position db n after -> lk_ids (Tickers.LockBatch (vd_tickers db) after batch) = take batch (drop n (ticker_ids db)).
Proof.
  intros Hok Hp. unfold Tickers.LockBatch. cbn [lk_ids]. f_equal. rewrite <- sort_func_filter by apply _. fold (ticker_ids db). destruct after as [a|].
  - destruct Hp as (k & -> & Hk). apply ids_after; [apply sort_func_sorted; apply _ | by apply NoDup_ticker_ids | done].
  - simpl in Hp. subst n. by apply filter_id_all.
Qed.

(** * What the batches leave *)

Section Rebuilt.
Context (db : validity_db) (Hok : validity_db_ok db).

(** The tables once the batches [done] are rebuilt: the intervals of their tickers
    are those derived, and so is the name of each pair their tickers touch. *)
Record rebuilt (ids : list uuid) (db' : validity_db) : Prop := {
  rd_ok : validity_db_ok db';
  rd_shape : exists rows names, db' = set_resolved (set_validity db rows) names;
  rd_rows r : r ∈ vd_tickers db -> stored (vd_validity db') r =
    if decide (tk_ID r ∈ ids) then validity_rows r (dv_Intervals (derived_of db r)) else stored (vd_validity db) r;
  rd_names p : stored_names (vd_resolved db') p = name_rows db p \/
    (stored_names (vd_resolved db') p = stored_names (vd_resolved db) p /\ ~ touched db ids p);
}.

Lemma rebuilt_nil : rebuilt [] db.
Proof.
  split; [done | | |].
  - exists (vd_validity db), (vd_resolved db). by destruct db.
  - intros r _. by rewrite decide_False by apply not_elem_of_nil.
  - intros p. right. split; [done |]. intros [(a & _ & ?%elem_of_nil & _)|(r & _ & ?%elem_of_nil & _)]; done.
Qed.

Lemma rebuilt_batch ids more cur : rebuilt ids cur -> exists cur', Rebuild cur (MkLocked more) = Some cur' /\ rebuilt (ids ++ more) cur'.
Proof using Hok.
  intros [Hc (rows & names & Ec) Hr Hn]. destruct (decide (more = [])) as [->|Hne]; [exists cur; rewrite app_nil_r; split; [done |]; split; try done; by eexists _, _ |].
  destruct (Rebuild_rows_ok cur more Hc) as (cur' & Hrun & Hok' & _ & Hrows). exists cur'. split; [done |].
  destruct (Rebuild_ok cur Hc more) as (cur2 & Hrun2 & _ & (rows' & names' & E') & _). rewrite Hrun in Hrun2. injection Hrun2 as <-.
  split; [done | | |].
  - exists rows', names'. by rewrite E', Ec.
  - intros r Hin. specialize (Hrows r). rewrite Ec in Hrows. specialize (Hrows Hin). rewrite <- Ec in Hrows. destruct (decide (tk_ID r ∈ more)) as [Hm|Hm].
    + destruct Hrows as (dv & Hd & ->). rewrite decide_True by (apply elem_of_app; by right). rewrite Ec in Hd. change (derive (facts_of db r) = Some dv) in Hd.
      rewrite (derived_of_eq db Hok r) in Hd. by injection Hd as <-.
    + rewrite Hrows, (Hr r Hin). destruct (decide (tk_ID r ∈ ids)) as [Hi|Hi]; [rewrite decide_True | rewrite decide_False]; try done; rewrite elem_of_app; tauto.
  - intros p. rewrite (Rebuild_names_ok cur more cur' p Hc Hne Hrun). destruct (decide (p ∈ ListResolvePairs cur more)) as [Hp|Hp]; [left; by rewrite Ec |].
    destruct (Hn p) as [->|[E Hnot]]; [by left | right]. split; [done |]. rewrite elem_of_ListResolvePairs in Hp.
    intros [(a & Ha & [Hi|Hm]%elem_of_app & Hia)|(r & Hin & [Hi|Hm]%elem_of_app & Hrp)].
    + apply Hnot. left. by exists a.
    + apply Hp. left. exists a. by rewrite Ec.
    + apply Hnot. right. by exists r.
    + apply Hp. right. exists r. split; [| done]. assert (r ∈ stored_names (vd_resolved db) p) as Hs.
      { apply elem_of_lfilter. split; [done |]. apply bool_decide_eq_true. destruct Hrp as [Ei Em]. unfold row_pair. rewrite Ei, Em. by destruct p. }
      rewrite <- E in Hs. by apply elem_of_lfilter in Hs as [? _].
Qed.

Lemma rebuild_ok batch fuel : (0 < batch)%nat -> forall n after cur, (length (ticker_ids db) - n < fuel)%nat -> at_position db n after -> rebuilt (take n (ticker_ids db)) cur ->
  exists db', rebuild fuel batch after cur = Some (Some db') /\ rebuilt (ticker_ids db) db'.
Proof using Hok.
  intros Hb. set (L := ticker_ids db). induction fuel as [|fuel IH]; intros n after cur Hf Hp Hcur; [lia |].
  assert (vd_tickers cur = vd_tickers db) as Et by by destruct (rd_shape _ _ Hcur) as (? & ? & ->).
  assert (lk_ids (Tickers.LockBatch (vd_tickers cur) after batch) = take batch (drop n L)) as El by (rewrite Et; by apply LockBatch_ids).
  simpl. unfold rebuild_batch. destruct (Tickers.LockBatch (vd_tickers cur) after batch) as [ids] eqn:Eb. simpl in El. subst ids.
  destruct (rebuilt_batch _ (take batch (drop n L)) cur Hcur) as (cur' & -> & Hcur'). cbn [mbind option_bind lk_ids].
  rewrite take_take_drop in Hcur'. pose proof (length_take (drop n L) batch) as Hlen. rewrite length_drop in Hlen.
  destruct (length (take batch (drop n L)) <? batch)%nat eqn:Elt.
  - apply Nat.ltb_lt in Elt. exists cur'. split; [done |]. by rewrite take_ge in Hcur' by (fold L; lia).
  - apply Nat.ltb_ge in Elt. assert (last (take batch (drop n L)) = L !! (n + batch - 1)%nat) as ->.
    { rewrite last_lookup, Hlen, lookup_take_lt, lookup_drop by lia. f_equal. lia. }
    destruct (lookup_lt_is_Some_2 L (n + batch - 1)%nat) as [a Ha]; [lia |]. rewrite Ha. apply (IH (n + batch)%nat); [fold L; lia | | done].
    exists (n + batch - 1)%nat. split; [lia | done].
Qed.

End Rebuilt.

(** C25: A rebuild of every ticker ends, whatever the size of its batches, without an
    error, on any tables the schema admits: after one batch more than there are
    tickers at most. It stores for every ticker exactly the intervals derived of its
    facts, and for every instrument and market that a ticker's assertion or name
    touches exactly the names of its tickers; what it stores does not depend on the
    size of the batches, and the facts stand. *)
Theorem rebuild_spec batch db : (0 < batch)%nat -> validity_db_ok db ->
  exists db', rebuild (S (length (vd_tickers db))) batch None db = Some (Some db') /\ validity_db_ok db' /\
    (exists rows names, db' = set_resolved (set_validity db rows) names) /\
    (forall r, r ∈ vd_tickers db -> stored (vd_validity db') r = validity_rows r (dv_Intervals (derived_of db r))) /\
    (forall p, touched db (ticker_ids db) p -> stored_names (vd_resolved db') p = name_rows db p) /\
    (forall p, ~ touched db (ticker_ids db) p -> stored_names (vd_resolved db') p = name_rows db p \/ stored_names (vd_resolved db') p = stored_names (vd_resolved db) p).
Proof.
  intros Hb Hok. destruct (rebuild_ok db Hok batch (S (length (vd_tickers db))) Hb 0 None db) as (db' & Hrun & [H1 H2 H3 H4]); [| done | by apply rebuilt_nil |].
  { unfold ticker_ids. rewrite length_sort_func, length_map. lia. }
  exists db'. split; [done |]. split; [done |]. split; [done |]. split; [| split].
  - intros r Hr. rewrite (H3 r Hr), decide_True; [done |]. unfold ticker_ids. apply elem_of_sort_func. by apply list_elem_of_fmap_2.
  - intros p Hp. by destruct (H4 p) as [?|[_ ?]].
  - intros p _. destruct (H4 p) as [?|[? _]]; auto.
Qed.

(** Two batches of one ticker, and a last empty one, leave what one rebuild of both
    tickers leaves. *)
Example two_batches : rebuild 3 1 None ex_db = Some (Some ex_rebuilt).
Proof. vm_compute. reflexivity. Qed.

Lemma rebuild_spec_witness : exists db', rebuild 3 1 None ex_db = Some (Some db') /\ validity_db_ok db' /\
  stored_names (vd_resolved db') (7%N, "XNAS"%string) = name_rows ex_db (7%N, "XNAS"%string).
Proof.
  destruct (rebuild_spec 1 ex_db ltac:(lia) ex_db_ok) as (db' & Hrun & Hok & _ & _ & Hn & _). exists db'. split; [exact Hrun |]. split; [exact Hok |].
  apply Hn. left. exists ex_stored. repeat split; [left | left].
Defined.
