(* ===== verification/Market.v ===== *)
(** What a datasource is asked and what it answers: [server/internal/market],
    [fetch.go]'s [FetchKey] and [identity.go]. *)
From S2P Require Import Prelude Types Rows.

(** * Fetch keys, [fetch.go] *)

(** [gen.FetchOutcome], with the empty string of a fetch key under way. *)
Inductive FetchOutcome : Type :=
| FetchOutcomeNone
| FetchOutcomeServed
| FetchOutcomeNotServed
| FetchOutcomeBlocked
| FetchOutcomeFailedTemporary
| FetchOutcomeFailedPermanent.

#[export] Instance FetchOutcome_eq_dec : EqDecision FetchOutcome.
Proof. solve_decision. Defined.

(** One request of a fetch and what it got. [fk_Run] is the id of its run. A
    pointer to a fetch key is its id, which [db.NewID] makes its own. *)
Record FetchKey (Q P : Type) : Type := MkFetchKey {
  fk_Request : Q;
  fk_Run : uuid;
  fk_Source : string;
  fk_ID : uuid;
  fk_Outcome : FetchOutcome;
  fk_SentID : option Identifier;
  fk_Reason : string;
  fk_Response : P;
  fk_AnsweredAt : time;
  fk_attempts : Z;
  fk_cached : bool;
}.
Arguments MkFetchKey {Q P} _ _ _ _ _ _ _ _ _ _ _.
Arguments fk_Request {Q P} _.
Arguments fk_Run {Q P} _.
Arguments fk_Source {Q P} _.
Arguments fk_ID {Q P} _.
Arguments fk_Outcome {Q P} _.
Arguments fk_SentID {Q P} _.
Arguments fk_Reason {Q P} _.
Arguments fk_Response {Q P} _.
Arguments fk_AnsweredAt {Q P} _.
Arguments fk_attempts {Q P} _.
Arguments fk_cached {Q P} _.

(** * Identity answers, [identity.go] *)

(** [market.Listing], one listing as a datasource returned it. *)
Record MarketListing : Type := MkMarketListing {
  ml_Identifiers : list Identifier;
  ml_Class : AssetClass;
  ml_Currency : string;
  ml_Primary : string;
}.

Record IdentityResult : Type := MkIdentityResult {
  ir_Filtered : list Identifier;
  ir_Listings : list MarketListing;
  ir_Limited : bool;
  ir_Unknown : bool;
}.

Definition IdentityResult_zero : IdentityResult := MkIdentityResult [] [] false false.

(** A ticker is filtered on its value alone. *)
Definition identity_Answer (sent : Identifier) (limited : bool) : IdentityResult :=
  let sent := if bool_decide (id_Type sent = IdentifierTypeMicTicker)
              then MkIdentifier (id_Type sent) "" (id_Value sent) else sent in
  MkIdentityResult [sent] [] limited false.
