(* ===== verification/Resolution.v ===== *)
(** A stated key on its way to an outcome: the instruments the database holds,
    [server/internal/db/join/instr.go], and the resolution of a key,
    [server/internal/identity/resolve/instr.go]. *)
From S2P Require Import Prelude Types Rows Period Facts Mic Market.

(** * Instruments as rows, [join/instr.go] *)

Record join_Instr : Type := MkJoin {
  ji_Row : InstrRow;
  ji_Identifiers : list IdentifierRow;
  ji_Listings : list InstrListing;
}.

Record InstrWithCoverage : Type := MkInstrWithCoverage {
  iw_Instr : join_Instr;
  iw_Coverage : list string;
}.

(** The [Row] of the embedded [Instr]. *)
Definition iw_Row (j : InstrWithCoverage) : InstrRow := ji_Row (iw_Instr j).

(** Reference data is covered by every datasource. *)
Definition Covered (j : InstrWithCoverage) (datasource : string) : bool :=
  bool_decide (in_FetchKeyID (iw_Row j) = None) || contains (iw_Coverage j) datasource.

Definition join_Listing (j : join_Instr) (fam : string) : option InstrListing :=
  find_func (fun l => bool_decide (lr_Currency l = fam)) (ji_Listings j).

Definition join_Identifier (j : join_Instr) (id : Identifier) : option IdentifierRow :=
  find_func (fun r => bool_decide (to_Identifier r = id)) (ji_Identifiers j).

(** The map [famOf]. *)
Definition fam_of (ls : list InstrListing) : gmap uuid string := foldl (fun m l => <[lr_ID l := lr_Currency l]> m) ∅ ls.

Definition instr_step (famOf : gmap uuid string) (out : Instr) (id : IdentifierRow) : Instr :=
  match ir_ListingID id with
  | None => MkInstr (instr_Class out) (instr_Identifiers out ++ [to_Identifier id]) (instr_Listings out)
  | Some l =>
      let fam := default ""%string (famOf !! l) in
      let listing := listing_of out fam in
      MkInstr (instr_Class out) (instr_Identifiers out)
        (<[fam := MkListing (listing_Identifiers listing ++ [to_Identifier id]) (listing_Primary listing)]> (instr_Listings out))
  end.

(** Go's [Instr]. *)
Definition join_types (j : join_Instr) : Instr :=
  let listings := foldl (fun m l => <[lr_Currency l := MkListing [] (default ""%string (lr_PrimaryMic l))]> m) ∅ (ji_Listings j) in
  foldl (instr_step (fam_of (ji_Listings j))) (MkInstr (in_AssetClass (ji_Row j)) [] listings) (ji_Identifiers j).

(** * Currencies, [resolve/currency.go] *)

(** The family of no known currency. *)
Definition noFamily : string := "".

Definition known (f : Families) (code : string) : string := if Known f code then code else "".

Definition keyFamily (f : Families) (k : StatedKey) : string :=
  match sk_Currency k with Some c => Family f c | None => noFamily end.

(** * Resolutions, [resolve/instr.go] *)

Abbreviation fetchKey := (FetchKey StatedKey IdentityResult) (only parsing).

(** [gen.ResolutionOutcome], with the empty string of an undecided key. *)
Inductive ResolutionOutcome : Type :=
| ResolutionOutcomeNone
| ResolutionOutcomeMatched
| ResolutionOutcomeRejected
| ResolutionOutcomeUnrecognised
| ResolutionOutcomeUnavailable.

#[export] Instance ResolutionOutcome_eq_dec : EqDecision ResolutionOutcome.
Proof. solve_decision. Defined.

(** [gen.CreateFindingParams], before the ids of the finding, its run and its
    key are set. *)
Record CreateFindingParams : Type := MkFindingParams {
  fp_Kind : FindingKind;
  fp_FetchKeyID : option uuid;
  fp_Step : option DropStep;
  fp_Detail : option string;
}.

(** The market ticker that may date a key, with its stored ticker validity,
    [dated.go]. *)
Record dating : Type := MkDating {
  dt_ticker : MarketTicker;
  dt_ivs : list Interval;
}.

(** [resolution], without the cache [firstVerdict] of what [first] computes. *)
Record resolution : Type := MkResolution {
  rs_row : StatedKey;
  rs_globalAndDescriptionIDs : list Identifier;
  rs_family : string;
  rs_families : Families;
  rs_knownInstr : option InstrWithCoverage;
  rs_mics : MICMap;
  rs_fetchKeys : list fetchKey;
  rs_findings : list CreateFindingParams;
  rs_outcome : ResolutionOutcome;
  rs_reason : string;
  (** The zero identifier is [None]. *)
  rs_via : option Identifier;
  rs_dating : option dating;
  rs_dates : list time;
  rs_datedFromFacts : bool;
  rs_tickers : gmap MarketTicker TickerRow;
  rs_written : list (fetchKey * Identifier);
}.

Definition globalAndDescriptionIDs (k : StatedKey) : list Identifier :=
  sort_func (cmp_on Strength Z.compare)
    (List.filter (fun id => IsGlobal id || bool_decide (id_Type id = IdentifierTypeBrokerDescription)) (sk_Identifiers k)).

Definition statesBareTicker (k : StatedKey) : bool :=
  existsb (fun id => bool_decide (id_Type id = IdentifierTypeMicTicker) && bool_decide (id_Domain id = ""%string)) (sk_Identifiers k).

Definition statesCurrency (k : StatedKey) : bool :=
  existsb (fun id => bool_decide (id_Type id = IdentifierTypeCurrency)) (sk_Identifiers k).

Definition classConflict (k : StatedKey) (class : AssetClass) : option string :=
  match sk_AssetClass k with
  | Some c => if Disjoint c class
              then Some ("asset class " +:+ AssetClass_string c +:+ " contradicts the instrument's " +:+ AssetClass_string class)
              else None
  | None => None
  end.

Definition lookupIDs (ids : list Identifier) : list Identifier := List.filter (fun id => negb (Ticker id)) ids.

(** [decide]. *)
Definition rs_decide (res : resolution) (outcome : ResolutionOutcome) (reason : string) : resolution :=
  MkResolution (rs_row res) (rs_globalAndDescriptionIDs res) (rs_family res) (rs_families res) (rs_knownInstr res) (rs_mics res)
    (rs_fetchKeys res) (rs_findings res) outcome reason (rs_via res) (rs_dating res) (rs_dates res) (rs_datedFromFacts res)
    (rs_tickers res) (rs_written res).

Definition rs_know (res : resolution) (f : InstrWithCoverage) : resolution :=
  MkResolution (rs_row res) (rs_globalAndDescriptionIDs res) (rs_family res) (rs_families res) (Some f) (rs_mics res)
    (rs_fetchKeys res) (rs_findings res) (rs_outcome res) (rs_reason res) (rs_via res) (rs_dating res) (rs_dates res) (rs_datedFromFacts res)
    (rs_tickers res) (rs_written res).

Definition rs_find (res : resolution) (f : CreateFindingParams) : resolution :=
  MkResolution (rs_row res) (rs_globalAndDescriptionIDs res) (rs_family res) (rs_families res) (rs_knownInstr res) (rs_mics res)
    (rs_fetchKeys res) (rs_findings res ++ [f]) (rs_outcome res) (rs_reason res) (rs_via res) (rs_dating res) (rs_dates res)
    (rs_datedFromFacts res) (rs_tickers res) (rs_written res).

(** The resolution [prepare] starts from, [resolve.go]. *)
Definition prepared (families : Families) (mics : MICMap) (row : StatedKey) : resolution :=
  MkResolution row (globalAndDescriptionIDs row) (keyFamily families row) families
    None mics [] [] ResolutionOutcomeNone "" None None [] false ∅ [].

Definition unnamed (ids : list Identifier) : string :=
  match ids with [] => "no global identifier" | _ => "failed to match broker description" end.

(** The loop of [match]: the first identifier that names an instrument, or the
    two that name different ones. *)
Fixpoint match_loop (byID : gmap Identifier InstrWithCoverage) (ids : list Identifier)
    (f : option (Identifier * InstrWithCoverage)) : option (Identifier * InstrWithCoverage) + Identifier * Identifier :=
  match ids with
  | [] => inl f
  | id :: ids' =>
      match byID !! id, f with
      | None, _ => match_loop byID ids' f
      | Some hit, None => match_loop byID ids' (Some (id, hit))
      | Some hit, Some (first, g) =>
          if bool_decide (in_ID (iw_Row hit) = in_ID (iw_Row g)) then match_loop byID ids' f else inr (first, id)
      end
  end.

(** Go's [match]. *)
Definition rs_match (res : resolution) (byID : gmap Identifier InstrWithCoverage) : resolution :=
  match match_loop byID (lookupIDs (rs_globalAndDescriptionIDs res)) None with
  | inr (first, id) =>
      let detail := Name first +:+ " and " +:+ Name id +:+ " name different instruments" in
      rs_decide (rs_find res (MkFindingParams FindingKindContradiction None None (Some detail))) ResolutionOutcomeUnrecognised detail
  | inl None =>
      if negb (existsb IsGlobal (rs_globalAndDescriptionIDs res)) && negb (statesBareTicker (rs_row res))
      then rs_decide res ResolutionOutcomeUnrecognised (unnamed (rs_globalAndDescriptionIDs res))
      else res
  | inl (Some (_, f)) =>
      let res := rs_know res f in
      match classConflict (rs_row res) (in_AssetClass (iw_Row f)) with
      | Some reason => rs_decide res ResolutionOutcomeUnrecognised reason
      | None => res
      end
  end.
