(* ===== verification/Claims.v ===== *)
(** The claims of a datasource's response,
    [server/internal/identity/resolve/claim.go]: the returned listings joined
    into instruments, and what makes a claim contradict, corroborate or confirm
    another account of the instrument.

    A claim is a pointer in the code. Here it holds the place it has among the
    claims of its response, so the pointer is its fetch key and its place. *)
From S2P Require Import Prelude Types Rows Period Mic UnionFind Market Resolution.

(** * Definitions *)

Record identityClaim : Type := MkClaim {
  cl_fetchKey : option fetchKey;
  cl_place : nat;
  cl_Instr : Instr;
}.

Definition cl_Class (c : identityClaim) : AssetClass := instr_Class (cl_Instr c).
Definition cl_Identifiers (c : identityClaim) : list Identifier := instr_Identifiers (cl_Instr c).
Definition cl_Listings (c : identityClaim) : gmap string Listing := instr_Listings (cl_Instr c).

(** Equality of the pointers to two claims. *)
Definition same_claim (c d : identityClaim) : bool :=
  bool_decide (fk_ID <$> cl_fetchKey c = fk_ID <$> cl_fetchKey d) && bool_decide (cl_place c = cl_place d).

(** ** The listings of one claim *)

Definition claim_find (fuel : nat) (parent : list nat) (i : nat) : option (list nat * nat) :=
  uf_find fuel parent i.

(** The first root stays. *)
Definition claim_union (fuel : nat) (parent : list nat) (a b : nat) : option (list nat) :=
  uf_union (fun ra rb => (ra, rb)) fuel parent a b.

(** The slice [parent] and the map [owner] of [partition]. *)
Record partitioning : Type := MkPartitioning {
  pt_parent : list nat;
  pt_owner : gmap Identifier nat;
}.

Definition is_instr_grain (id : Identifier) : bool := bool_decide (Grain id = IdentifierGrainInstr).

(** The inner loop's body, for an identifier of the listing [i]. *)
Definition own (fuel : nat) (i : nat) (st : partitioning) (id : Identifier) : option partitioning :=
  if negb (is_instr_grain id) then Some st
  else match pt_owner st !! id with
       | Some j => parent ← claim_union fuel (pt_parent st) j i; Some (MkPartitioning parent (pt_owner st))
       | None => Some (MkPartitioning (pt_parent st) (<[id := i]> (pt_owner st)))
       end.

Definition partition_step (fuel : nat) (strict : bool) (st : partitioning) (ic : nat * MarketListing) : option partitioning :=
  let '(i, c) := ic in
  let parent := <[i := i]> (pt_parent st) in
  parent ← (if strict then claim_union fuel parent 0 i else Some parent);
  opt_fold (own fuel i) (MkPartitioning parent (pt_owner st)) (ml_Identifiers c).

(** The last loop of [partition], the walks compressing the paths. *)
Definition root_step (fuel : nat) (st : list nat * list nat) (i : nat) : option (list nat * list nat) :=
  let '(parent, roots) := st in
  '(parent, r) ← claim_find fuel parent i;
  Some (parent, roots ++ [r]).

(** The number of listings is fuel for every walk. [None] is a walk it does
    not finish, or an index out of range. *)
Definition partition (ls : list MarketListing) (strict : bool) : option (list nat) :=
  let n := length ls in
  st ← opt_fold (partition_step n strict) (MkPartitioning (replicate n 0%nat) ∅) (zip (seq 0 n) ls);
  '(_, roots) ← opt_fold (root_step n) (pt_parent st, []) (seq 0 n);
  Some roots.

(** ** Claims *)

Abbreviation appendUnique := append_unique (only parsing).

Definition claim_class_unset (c : AssetClass) : bool :=
  bool_decide (c = AssetClassNone) || bool_decide (c = AssetClassUnknown).

Definition add_identifier (st : list Identifier * Listing) (id : Identifier) : list Identifier * Listing :=
  if is_instr_grain id then (appendUnique st.1 id, st.2)
  else (st.1, MkListing (appendUnique (listing_Identifiers st.2) id) (listing_Primary st.2)).

(** [add], of the instrument a claim holds. *)
Definition add (i : Instr) (listing : MarketListing) (fam : string) : Instr :=
  let class := if claim_class_unset (instr_Class i) then ml_Class listing else instr_Class i in
  let '(ids, l) := foldl add_identifier (instr_Identifiers i, listing_of i fam) (ml_Identifiers listing) in
  let l := if bool_decide (listing_Primary l = ""%string) then MkListing (listing_Identifiers l) (ml_Primary listing) else l in
  MkInstr class ids (<[fam := l]> (instr_Listings i)).

(** The map [byRoot], a claim being its place in the slice [out]. *)
Record claiming : Type := MkClaiming {
  cm_byRoot : gmap nat nat;
  cm_out : list identityClaim;
}.

Definition claim_add (families : Families) (listing : MarketListing) (c : identityClaim) : identityClaim :=
  MkClaim (cl_fetchKey c) (cl_place c) (add (cl_Instr c) listing (Family families (ml_Currency listing))).

Definition claim_step (fk : fetchKey) (families : Families) (strict : list Identifier) (st : claiming)
    (lr : MarketListing * nat) : claiming :=
  let '(listing, r) := lr in
  let '(byRoot, out, at_) :=
    match cm_byRoot st !! r with
    | Some at_ => (cm_byRoot st, cm_out st, at_)
    | None =>
        let at_ := length (cm_out st) in
        (<[r := at_]> (cm_byRoot st), cm_out st ++ [MkClaim (Some fk) at_ (MkInstr AssetClassNone strict ∅)], at_)
    end in
  MkClaiming byRoot (alter (claim_add families listing) at_ out).

Definition strict_ids (fk : fetchKey) : list Identifier := List.filter is_instr_grain (ir_Filtered (fk_Response fk)).

Definition claims (fk : fetchKey) (families : Families) : option (list identityClaim) :=
  let strict := strict_ids fk in
  let ls := ir_Listings (fk_Response fk) in
  roots ← partition ls (0 <? length strict)%nat;
  Some (cm_out (foldl (claim_step fk families strict) (MkClaiming ∅ []) (zip ls roots))).

(** ** What a claim says *)

(** Whether the identifier sent identifies the claim. *)
Definition claim_named (c : identityClaim) : bool :=
  match cl_fetchKey c with
  | Some fk => match fk_SentID fk with Some id => IdentifiedBy (cl_Instr c) id | None => false end
  | None => false
  end.

Definition listed (c : identityClaim) : list string :=
  sort_func String.compare (List.filter (fun f => negb (bool_decide (f = noFamily))) (map_to_list (cl_Listings c)).*1).

(** The identifiers [contradicts] compares [id] with. *)
Definition contradict_pool (c : identityClaim) (id : Identifier) (fam : string) : list Identifier :=
  if bool_decide (Grain id = IdentifierGrainListing)
  then concat (map (fun f =>
         if bool_decide (fam = noFamily) || bool_decide (f = fam) || bool_decide (f = noFamily)
         then listing_Identifiers (listing_of (cl_Instr c) f) else [])
       (sorted_keys (cl_Listings c)))
  else cl_Identifiers c.

(** The loop over the pool; [other] is the last that differs so far. *)
Fixpoint contradict_loop (id : Identifier) (pool : list Identifier) (other : option Identifier) : option Identifier :=
  match pool with
  | [] => other
  | h :: pool' =>
      if negb (bool_decide (id_Type h = id_Type id)) || negb (bool_decide (id_Domain h = id_Domain id))
      then contradict_loop id pool' other
      else if bool_decide (id_Value h = id_Value id) then None
      else contradict_loop id pool' (Some h)
  end.

Definition contradicts (c : identityClaim) (id : Identifier) (fam : string) : option Identifier :=
  if negb (Exclusive id) then None else contradict_loop id (contradict_pool c id fam) None.

Definition claim_from (c : identityClaim) : string :=
  match cl_fetchKey c with None => "database" | Some fk => fk_Source fk end.

Definition stronger (best : option Identifier) (id : Identifier) : option Identifier :=
  match best with
  | None => Some id
  | Some b => if Strength id <? Strength b then Some id else best
  end.

Definition strongest (c : identityClaim) : option Identifier := foldl stronger None (AllIDs (cl_Instr c)).

Definition strongestStable (c : identityClaim) : option Identifier :=
  foldl (fun best id => if Stable id then stronger best id else best) None (AllIDs (cl_Instr c)).

Definition label (c : identityClaim) (detail : string) : string :=
  match strongest c with Some id => Name id +:+ ": " +:+ detail | None => detail end.

Definition claim_ref (c : identityClaim) : string :=
  let what := if bool_decide (is_Some (cl_fetchKey c)) then "the candidate" else "the instrument" in
  let what := match strongest c with Some id => what +:+ " identified by " +:+ Name id | None => what end in
  what +:+ " (" +:+ claim_from c +:+ ")".

(** [strings.Join]. *)
Fixpoint Join (l : list string) (sep : string) : string :=
  match l with
  | [] => ""
  | [s] => s
  | s :: l' => s +:+ sep +:+ Join l' sep
  end.

Fixpoint first_some {A B} (f : A -> option B) (l : list A) : option B :=
  match l with
  | [] => None
  | x :: l' => match f x with Some y => Some y | None => first_some f l' end
  end.

Definition family_unlisted (c : identityClaim) (limited : bool) (fam : string) : bool :=
  negb limited && negb (bool_decide (fam = noFamily)) && negb (bool_decide (listed c = []))
  && negb (contains (listed c) fam) && bool_decide (cl_Listings c !! noFamily = None).

(** [None] is a nil dereference: a claim of the database has no fetch key. *)
Definition contradicted (c : identityClaim) (res : resolution) : option (option string) :=
  fk ← cl_fetchKey c;
  let k := rs_row res in
  let fam := rs_family res in
  let by_id := first_some (fun id => match contradicts c id fam with
      | Some other => Some ("stated " +:+ Name id +:+ " contradicts " +:+ Name other)
      | None => None end) (sk_Identifiers k) in
  Some (
    if family_unlisted c (ir_Limited (fk_Response fk)) fam
    then Some ("stated " +:+ fam +:+ " has no listing among " +:+ Join (listed c) ", ")
    else match sk_AssetClass k with
         | Some cl => if Disjoint (cl_Class c) cl
                      then Some ("stated " +:+ AssetClass_string cl +:+ " contradicts the class " +:+ AssetClass_string (cl_Class c))
                      else by_id
         | None => by_id
         end).

Definition against (c : identityClaim) (res : resolution) : option (option string) :=
  fk ← cl_fetchKey c;
  d ← contradicted c res;
  Some (match d with Some detail => Some (detail +:+ " (" +:+ fk_Source fk +:+ ")") | None => None end).

(** The identifiers of [a], each with the family [inconsistent] compares it
    in. *)
Definition compared_ids (a : identityClaim) : list (Identifier * string) :=
  map (fun id => (id, noFamily)) (cl_Identifiers a) ++
  concat (map (fun f => map (fun id => (id, f)) (listing_Identifiers (listing_of (cl_Instr a) f))) (sorted_keys (cl_Listings a))).

Definition inconsistent (c a : identityClaim) : option string :=
  if Disjoint (cl_Class c) (cl_Class a)
  then Some ("class " +:+ AssetClass_string (cl_Class c) +:+ " contradicts the class " +:+ AssetClass_string (cl_Class a)
             +:+ " (" +:+ claim_from a +:+ ")")
  else first_some (fun '(id, f) => match contradicts c id f with
         | Some other => Some (Name other +:+ " contradicts " +:+ Name id +:+ " (" +:+ claim_from a +:+ ")")
         | None => None end) (compared_ids a).

Definition sharesStable (c a : identityClaim) : bool :=
  existsb (fun id => Stable id && IdentifiedBy (cl_Instr a) id) (AllIDs (cl_Instr c)).

Definition market_tickers (mics : MICMap) (c : identityClaim) : list MarketTicker := omap (mics_MarketTicker mics) (AllIDs (cl_Instr c)).

Definition sameDayTicker (c a : identityClaim) (mics : MICMap) : bool :=
  match cl_fetchKey c, cl_fetchKey a with
  | Some f, Some g =>
      bool_decide (Day (fk_AnsweredAt f) = Day (fk_AnsweredAt g))
      && existsb (fun t => contains (market_tickers mics a) t) (market_tickers mics c)
  | _, _ => false
  end.

Definition corroborates (c a : identityClaim) (mics : MICMap) : bool := sharesStable c a || sameDayTicker c a mics.

Definition confirms (c : identityClaim) (res : resolution) : Z :=
  Z.of_nat (length (List.filter (IdentifiedBy (cl_Instr c)) (sk_Identifiers (rs_row res))))
  + (if bool_decide (is_Some (cl_Listings c !! rs_family res)) && negb (bool_decide (rs_family res = noFamily)) then 1 else 0).

(** * The partition of the listings *)

(** Two listings that share an identifier of the instrument grain, or that one
    strict call returned. *)
Definition claim_shares (strict : bool) (ls : list MarketListing) : relation nat := fun i j =>
  exists l m, ls !! i = Some l /\ ls !! j = Some m /\
    (strict = true \/ exists id, is_instr_grain id = true /\ id ∈ ml_Identifiers l /\ id ∈ ml_Identifiers m).

Lemma claim_shares_sym strict ls : Symmetric (claim_shares strict ls).
Proof. intros i j (l & m & ? & ? & [?|(id & ? & ? & ?)]); exists m, l; eauto 10. Qed.

#[local] Instance claim_chain_equivalence strict ls : Equivalence (rtc (claim_shares strict ls)).
Proof. apply rtc_equivalence, claim_shares_sym. Qed.

Lemma first_root_picks : picks (fun ra rb : nat => (ra, rb)).
Proof. by left. Qed.

(** The walks keep the length of the slice. *)
Lemma claim_find_length fuel parent k parent' r :
  claim_find fuel parent k = Some (parent', r) -> length parent' = length parent.
Proof.
  unfold claim_find. revert parent k. induction fuel as [|fuel IH]; intros parent k; simpl; [done |].
  destruct (parent !! k) as [p|]; simpl; [| done]. case_bool_decide; [by intros [= <- <-] |].
  destruct (parent !! p) as [g|]; simpl; [| done].
  destruct (<[k:=g]> parent !! k) as [k'|]; simpl; [| done]. intros ->%IH. by rewrite length_insert.
Qed.

Lemma claim_union_length fuel parent a b parent' : claim_union fuel parent a b = Some parent' -> length parent' = length parent.
Proof.
  unfold claim_union, uf_union.
  destruct (uf_find fuel parent a) as [[s1 ra]|] eqn:E1; simpl; [| done].
  destruct (uf_find fuel s1 b) as [[s2 rb]|] eqn:E2; simpl; [| done].
  apply claim_find_length in E1, E2. case_bool_decide; intros [= <-]; simpl; rewrite ?length_insert; lia.
Qed.

(** What the loops have built over the listings [ks], once they have seen the
    identifiers [ss]. *)
Record parted (n : nat) (strict : bool) (ks : list nat) (ss : list (Identifier * nat)) (st : partitioning) : Prop := {
  parted_length : length (pt_parent st) = n;
  parted_edges : exists es, represents (pt_parent st) ks es /\
    (forall a b, (a, b) ∈ es -> strict = true \/ exists id, (id, a) ∈ ss /\ (id, b) ∈ ss) /\
    (forall id a b, (id, a) ∈ ss -> pt_owner st !! id = Some b -> linked es b a) /\
    (strict = true -> forall a, a ∈ ks -> linked es 0%nat a);
  parted_owner id b : pt_owner st !! id = Some b -> (id, b) ∈ ss;
  parted_seen id a : (id, a) ∈ ss -> is_Some (pt_owner st !! id) /\ a ∈ ks;
}.

Lemma own_parted fuel n strict ks ss st i id :
  parted n strict ks ss st -> i ∈ ks -> is_instr_grain id = true -> (length ks <= fuel)%nat ->
  exists st', own fuel i st id = Some st' /\ parted n strict ks (ss ++ [(id, i)]) st'.
Proof.
  intros [Hlen (es & Hr & He & Hl & Hst) Ho Hs] Hi Hg Hfuel. unfold own. rewrite Hg. simpl.
  destruct (pt_owner st !! id) as [j|] eqn:Ej; simpl.
  - destruct (Hs _ _ (Ho _ _ Ej)) as [_ Hj].
    destruct (uf_union_spec _ fuel _ _ _ j i first_root_picks Hr Hj Hi Hfuel) as (p' & Hp & Hr').
    unfold claim_union. rewrite Hp. simpl. eexists; split; [reflexivity |].
    assert (forall u v, linked es u v -> linked (es ++ [(j, i)]) u v) as Hsub.
    { intros u v. apply linked_sub. intros a b Hab. apply linked_edge, elem_of_app. by left. }
    split; simpl.
    + rewrite (claim_union_length _ _ _ _ _ Hp). done.
    + exists (es ++ [(j, i)]). split; [done |]. split; [| split].
      * intros a b [Hab|[= -> ->]%list_elem_of_singleton]%elem_of_app.
        -- destruct (He _ _ Hab) as [?|(x & ? & ?)]; [by left | right]. exists x. rewrite !elem_of_app. auto.
        -- right. exists id. rewrite !elem_of_app, !list_elem_of_singleton. auto.
      * intros x a b [Ha|[= -> ->]%list_elem_of_singleton]%elem_of_app Hb; [by eapply Hsub, Hl |].
        simplify_eq. apply linked_edge, elem_of_app. right. by apply list_elem_of_singleton.
      * intros Hs' a Ha. by apply Hsub, Hst.
    + intros x b Hb. apply elem_of_app. left. by apply Ho.
    + intros x a [Ha|[= -> ->]%list_elem_of_singleton]%elem_of_app; [by apply Hs |]. split; [by exists j | done].
  - eexists; split; [reflexivity |]. split; simpl; [done | | |].
    + exists es. split; [done |]. split; [| split; [| done]].
      * intros a b Hab. destruct (He _ _ Hab) as [?|(x & ? & ?)]; [by left | right]. exists x. rewrite !elem_of_app. auto.
      * intros x a b [Ha|[= -> ->]%list_elem_of_singleton]%elem_of_app.
        -- rewrite lookup_insert_ne; [by apply Hl |]. intros ->. destruct (Hs _ _ Ha) as [[? ?] _]. congruence.
        -- rewrite lookup_insert_eq. intros [= <-]. reflexivity.
    + intros x b. destruct (decide (id = x)) as [->|Hne].
      * rewrite lookup_insert_eq. intros [= <-]. apply elem_of_app. right. by apply list_elem_of_singleton.
      * rewrite lookup_insert_ne by done. intros Hb. apply elem_of_app. left. by apply Ho.
    + intros x a [Ha|[= -> ->]%list_elem_of_singleton]%elem_of_app; [| by rewrite lookup_insert_eq].
      destruct (Hs _ _ Ha) as [? ?]. split; [| done]. destruct (decide (id = x)) as [->|]; [by rewrite lookup_insert_eq |].
      by rewrite lookup_insert_ne.
Qed.

(** The identifiers of the listings up to [i], each with its listing. *)
Definition grain_pairs (ics : list (nat * MarketListing)) : list (Identifier * nat) :=
  concat (map (fun ic => map (fun id => (id, ic.1)) (List.filter is_instr_grain (ml_Identifiers ic.2))) ics).

Lemma own_all fuel n strict ks ss st i ids :
  parted n strict ks ss st -> i ∈ ks -> (length ks <= fuel)%nat ->
  exists st', opt_fold (own fuel i) st ids = Some st' /\
    parted n strict ks (ss ++ map (fun id => (id, i)) (List.filter is_instr_grain ids)) st'.
Proof.
  intros Hp Hi Hfuel. revert ss st Hp. induction ids as [|id ids IH]; intros ss st Hp; simpl.
  - exists st. by rewrite app_nil_r.
  - destruct (is_instr_grain id) eqn:Hg.
    + destruct (own_parted fuel n strict ks ss st i id Hp Hi Hg Hfuel) as (st' & -> & Hp').
      destruct (IH _ _ Hp') as (st'' & -> & Hp''). exists st''. split; [done |].
      simpl. by rewrite <- app_assoc in Hp''.
    + unfold own at 1. rewrite Hg. simpl. by apply IH.
Qed.

Lemma partition_step_parted n strict i c ss st :
  parted n strict (seq 0 i) ss st -> (i < n)%nat ->
  exists st', partition_step n strict st (i, c) = Some st' /\
    parted n strict (seq 0 (S i)) (ss ++ grain_pairs [(i, c)]) st'.
Proof.
  intros [Hlen (es & Hr & He & Hl & Hst) Ho Hs] Hi. unfold partition_step.
  assert (i ∉ seq 0 i) as Hnew by (rewrite elem_of_seq; lia).
  assert (represents (<[i := i]> (pt_parent st)) (seq 0 (S i)) es) as Hr1.
  { rewrite seq_S. apply (represents_fresh (pt_parent st) (seq 0 i) es i Hr Hnew). apply lookup_lt_is_Some. simpl. lia. }
  assert (exists p, (if strict then claim_union n (<[i := i]> (pt_parent st)) 0 i else Some (<[i := i]> (pt_parent st))) = Some p /\
    parted n strict (seq 0 (S i)) ss (MkPartitioning p (pt_owner st))) as (p & -> & Hp).
  { assert (forall id a, (id, a) ∈ ss -> is_Some (pt_owner st !! id) /\ a ∈ seq 0 (S i)) as Hs'.
    { intros id a Ha. destruct (Hs _ _ Ha) as [? Hin]. split; [done |]. rewrite elem_of_seq in *. lia. }
    destruct strict.
    - destruct (uf_union_spec _ n _ _ _ 0%nat i first_root_picks Hr1) as (p & Hp & Hr2).
      { apply elem_of_seq. lia. } { apply elem_of_seq. lia. } { rewrite length_seq. lia. }
      exists p. split; [done |]. split; simpl; [| | done | done].
      + by rewrite (claim_union_length _ _ _ _ _ Hp), length_insert.
      + exists (es ++ [(0%nat, i)]).
        assert (forall u v, linked es u v -> linked (es ++ [(0%nat, i)]) u v) as Hsub.
        { intros u v. apply linked_sub. intros a b Hab. apply linked_edge, elem_of_app. by left. }
        split; [done |]. split; [by left |]. split; [by eauto |].
        intros _ a Ha. change (a ∈ seq 0 (S i)) in Ha. apply elem_of_seq in Ha. destruct (decide (a = i)) as [->|].
        * apply linked_edge, elem_of_app. right. by apply list_elem_of_singleton.
        * apply Hsub, Hst; [done |]. apply elem_of_seq. lia.
    - exists (<[i:=i]> (pt_parent st)). split; [done |]. split; simpl; [by rewrite length_insert | by exists es | done | done]. }
  simpl. destruct (own_all n n strict (seq 0 (S i)) ss _ i (ml_Identifiers c) Hp) as (st' & Hst' & Hp').
  - apply elem_of_seq. lia.
  - rewrite length_seq. lia.
  - exists st'. split; [done |]. unfold grain_pairs. simpl. by rewrite app_nil_r.
Qed.

Lemma grain_pairs_cons ic l : grain_pairs (ic :: l) = grain_pairs [ic] ++ grain_pairs l.
Proof. unfold grain_pairs. simpl. by rewrite app_nil_r. Qed.

Lemma partition_loop n strict i l ss st :
  parted n strict (seq 0 i) ss st -> (i + length l <= n)%nat ->
  exists st', opt_fold (partition_step n strict) st (zip (seq i (length l)) l) = Some st' /\
    parted n strict (seq 0 (i + length l)) (ss ++ grain_pairs (zip (seq i (length l)) l)) st'.
Proof.
  revert i ss st. induction l as [|c l IH]; intros i ss st Hp Hn; simpl in *.
  - exists st. unfold grain_pairs. simpl. by rewrite app_nil_r, Nat.add_0_r.
  - destruct (partition_step_parted n strict i c ss st Hp ltac:(lia)) as (st1 & E1 & Hp1).
    unfold partition_step in E1. rewrite E1.
    destruct (IH (S i) _ _ Hp1 ltac:(lia)) as (st2 & -> & Hp2). exists st2. split; [done |].
    rewrite <- app_assoc, <- grain_pairs_cons in Hp2. replace (i + S (length l))%nat with (S i + length l)%nat by lia. exact Hp2.
Qed.

Lemma elem_of_grain_pairs ls id i :
  (id, i) ∈ grain_pairs (zip (seq 0 (length ls)) ls) <->
  is_instr_grain id = true /\ exists l, ls !! i = Some l /\ id ∈ ml_Identifiers l.
Proof.
  unfold grain_pairs. rewrite elem_of_concat_map. split.
  - intros ([k c] & Hkc & Hin). apply list_elem_of_fmap in Hin as (x & [= -> ->] & Hx).
    apply elem_of_lfilter in Hx as [Hx Hg]. split; [done |]. exists c. split; [| done].
    apply list_elem_of_lookup in Hkc as (j & Hj). apply lookup_zip_with_Some in Hj as (a & b & [= -> ->] & Ha & Hb).
    apply lookup_seq in Ha as [-> _]. done.
  - intros (Hg & l & Hl & Hid). exists (i, l). split.
    + apply list_elem_of_lookup. exists i. apply lookup_zip_with_Some. exists i, l. repeat split; try done.
      apply lookup_seq. split; [done |]. by apply lookup_lt_Some in Hl.
    + apply list_elem_of_fmap. exists id. split; [done |]. by apply elem_of_lfilter.
Qed.

Lemma root_steps n parent parent0 roots es ks :
  represents parent0 (seq 0 n) es -> same_roots parent0 parent -> forest parent (seq 0 n) ->
  (forall i, i ∈ ks -> (i < n)%nat) ->
  exists parent' out, opt_fold (root_step n) (parent, roots) ks = Some (parent', roots ++ out) /\
    Forall2 (fun i r => exists m, rooted parent0 i r m) ks out.
Proof.
  intros Hr. revert parent roots. induction ks as [|i ks IH]; intros parent roots Hs Hf Hin; simpl.
  - exists parent, []. by rewrite app_nil_r.
  - assert (i ∈ seq 0 n) as Hi by (apply elem_of_seq; specialize (Hin i ltac:(by left)); lia).
    destruct (uf_find_forest n parent (seq 0 n) i Hf Hi) as (p' & r & m & Hfind & Hroot & _ & Hs' & Hf'); [by rewrite length_seq |].
    unfold claim_find. rewrite Hfind. simpl.
    destruct (IH p' (roots ++ [r])) as (p'' & out & -> & Hout).
    + by eapply same_roots_trans.
    + done.
    + intros j Hj. apply Hin. by right.
    + exists p'', (r :: out). split; [by rewrite <- app_assoc |]. constructor; [| done].
      destruct (forest_rooted _ _ (represents_forest _ _ _ Hr) i Hi) as (r0 & n0 & Hr0). exists n0.
      destruct (Hs _ _ _ Hr0) as (? & _ & Hr1). by destruct (rooted_det _ _ _ _ _ _ Hr1 Hroot) as [-> _].
Qed.

(** The edges link exactly the listings a chain of shared identifiers joins. *)
Lemma parted_chain strict ls st es :
  let n := length ls in
  represents (pt_parent st) (seq 0 n) es ->
  (forall a b, (a, b) ∈ es -> strict = true \/ exists id, (id, a) ∈ grain_pairs (zip (seq 0 n) ls) /\ (id, b) ∈ grain_pairs (zip (seq 0 n) ls)) ->
  (forall id a b, (id, a) ∈ grain_pairs (zip (seq 0 n) ls) -> pt_owner st !! id = Some b -> linked es b a) ->
  (forall id a, (id, a) ∈ grain_pairs (zip (seq 0 n) ls) -> is_Some (pt_owner st !! id)) ->
  (strict = true -> forall a, a ∈ seq 0 n -> linked es 0%nat a) ->
  forall i j, linked es i j <-> rtc (claim_shares strict ls) i j.
Proof.
  intros n Hr He Hl Hs Hst i j.
  assert (forall i, i ∈ seq 0 n <-> (i < n)%nat) as Hseq by (intros; rewrite elem_of_seq; lia). split.
  - induction 1 as [|x y z Hstep _ IH]; [reflexivity |].
    assert (forall u v, (u, v) ∈ es -> rtc (claim_shares strict ls) u v) as Hedge.
    { intros u v Huv. apply rtc_once. destruct (represents_edges _ _ _ Hr _ _ Huv) as [Hu%Hseq Hv%Hseq].
      destruct (lookup_lt_is_Some_2 ls u Hu) as [l El]. destruct (lookup_lt_is_Some_2 ls v Hv) as [l' El'].
      exists l, l'. split; [done |]. split; [done |]. destruct (He _ _ Huv) as [?|(id & H1 & H2)]; [by left | right].
      apply elem_of_grain_pairs in H1 as (Hg & ? & ? & ?), H2 as (_ & ? & ? & ?). simplify_eq. eauto. }
    transitivity y; [| done]. destruct Hstep as [H'|H']; [by apply Hedge | symmetry; by apply Hedge].
  - induction 1 as [|x y z Hstep _ IH]; [reflexivity |].
    destruct Hstep as (l & l' & El & El' & Hsh). transitivity y; [| done].
    destruct Hsh as [Hs'|(id & Hg & H1 & H2)].
    + apply lookup_lt_Some in El, El'. transitivity 0%nat; [symmetry |]; apply Hst; try done; by apply Hseq.
    + assert ((id, x) ∈ grain_pairs (zip (seq 0 n) ls)) as P1 by (apply elem_of_grain_pairs; eauto).
      assert ((id, y) ∈ grain_pairs (zip (seq 0 n) ls)) as P2 by (apply elem_of_grain_pairs; eauto).
      destruct (Hs _ _ P1) as [o Eo]. transitivity o; [symmetry; by eapply Hl | by eapply Hl].
Qed.

(** [partition] answers a root for each listing; it is the place of a listing
    of the same claim, and two listings have one root where a chain of shared
    identifiers joins them. *)
Lemma partition_total ls strict :
  exists roots, partition ls strict = Some roots /\ length roots = length ls /\
    (forall i r, roots !! i = Some r -> roots !! r = Some r) /\
    (forall i j r r', roots !! i = Some r -> roots !! j = Some r' -> r = r' <-> rtc (claim_shares strict ls) i j).
Proof.
  set (n := length ls).
  destruct (partition_loop n strict 0 ls [] (MkPartitioning (replicate n 0%nat) ∅)) as (st & E & Hp); [| lia |].
  { split; simpl; [by rewrite length_replicate | | done | by intros ?? []%not_elem_of_nil].
    exists []. split; [apply represents_nil; by intros k []%not_elem_of_nil |].
    split; [by intros ?? []%not_elem_of_nil |]. split; [by intros ??? []%not_elem_of_nil | by intros ?? []%not_elem_of_nil]. }
  unfold partition. fold n. fold n in E. rewrite E. simpl. simpl in Hp. fold n in Hp.
  destruct Hp as [Hlen (es & Hr & He & Hl & Hst) Ho Hs].
  destruct (root_steps n (pt_parent st) (pt_parent st) [] es (seq 0 n) Hr) as (p' & out & -> & Hout);
    [apply same_roots_refl | apply Hr | by intros i ?%elem_of_seq; lia |].
  simpl. exists out. split; [done |].
  assert (length out = n) as Hlo by (apply Forall2_length in Hout; by rewrite length_seq in Hout).
  assert (forall i r, out !! i = Some r -> (i < n)%nat /\ exists m, rooted (pt_parent st) i r m) as Hroot.
  { intros i r Hi. pose proof (lookup_lt_Some _ _ _ Hi). split; [lia |].
    eapply Forall2_lookup_r in Hout as (k & Hk & Hx); [| done]. apply lookup_seq in Hk as [-> _]. done. }
  assert (forall i, i ∈ seq 0 n <-> (i < n)%nat) as Hseq by (intros; rewrite elem_of_seq; lia).
  split; [done |]. split.
  - intros i r Hi. destruct (Hroot _ _ Hi) as (Hin & m & Hm). apply Hseq in Hin.
    pose proof (rooted_root_in _ _ _ _ _ (represents_forest _ _ _ Hr) Hin Hm) as Hrin. apply Hseq in Hrin as Hrn.
    destruct (lookup_lt_is_Some_2 out r ltac:(lia)) as [r' Hr']. destruct (Hroot _ _ Hr') as (_ & m' & Hm').
    pose proof (rooted_is_root _ _ _ _ Hm) as Hrr. destruct (rooted_det _ _ _ _ _ _ Hm' Hrr) as [-> _]. done.
  - intros i j r r' Hi Hj. destruct (Hroot _ _ Hi) as (Hin & m & Hm), (Hroot _ _ Hj) as (Hjn & m' & Hm').
    rewrite (represents_linked _ _ _ Hr i j r r' m m') by (try done; by apply Hseq).
    apply (parted_chain strict ls st es); try done. intros id a Ha. by apply (Hs id a).
Qed.

(** * The claims of a response *)

(** The instrument of the listings [ls] folded together. *)
Definition gathered (families : Families) (strict : list Identifier) (ls : list MarketListing) : Instr :=
  foldl (fun i l => add i l (Family families (ml_Currency l))) (MkInstr AssetClassNone strict ∅) ls.

Definition of_root (r : nat) (ps : list (MarketListing * nat)) : list MarketListing :=
  map fst (List.filter (fun p => bool_decide (p.2 = r)) ps).

Lemma of_root_snoc r ps p :
  of_root r (ps ++ [p]) = if bool_decide (p.2 = r) then of_root r ps ++ [p.1] else of_root r ps.
Proof.
  unfold of_root. rewrite List.filter_app, map_app. simpl. case_bool_decide; simpl; [done | by rewrite app_nil_r].
Qed.

(** The slice [out] holds one claim per root, in the order of their first
    listings. *)
Lemma claim_fold fk families strict ps :
  let st := foldl (claim_step fk families strict) (MkClaiming ∅ []) ps in
  let ds := foldl append_unique [] (map snd ps) in
  cm_out st = imap (fun k r => MkClaim (Some fk) k (gathered families strict (of_root r ps))) ds /\
  forall r k, cm_byRoot st !! r = Some k <-> ds !! k = Some r.
Proof.
  induction ps as [|[l r] ps IH] using rev_ind; simpl.
  { split; [done |]. intros r k. by rewrite lookup_empty. }
  rewrite map_app, !foldl_app. simpl. simpl in IH. revert IH.
  set (st := foldl (claim_step fk families strict) (MkClaiming ∅ []) ps).
  pose proof (NoDup_append_all (map snd ps)) as Hnd. revert Hnd.
  set (ds := foldl append_unique [] (map snd ps)). intros Hnd [Ho Hb].
  destruct (cm_byRoot st !! r) as [k|] eqn:Ek; simpl.
  - pose proof (proj1 (Hb _ _) Ek) as Hk. unfold append_unique. rewrite (proj2 (contains_true ds r)) by (by eapply list_elem_of_lookup_2).
    split; [| done]. rewrite Ho. apply list_eq. intros j.
    destruct (decide (j = k)) as [->|Hj].
    + rewrite list_lookup_alter_eq, !list_lookup_imap, Hk. simpl. unfold claim_add. simpl.
      rewrite of_root_snoc. simpl. rewrite bool_decide_true by done. unfold gathered. by rewrite foldl_app.
    + rewrite list_lookup_alter_ne, !list_lookup_imap by done. destruct (ds !! j) as [r'|] eqn:Ej; [| done]. simpl.
      rewrite of_root_snoc. simpl. rewrite bool_decide_false; [done |]. intros ->.
      by destruct Hj; eapply NoDup_lookup.
  - assert (r ∉ ds) as Hr.
    { intros (k & Hk)%list_elem_of_lookup. apply Hb in Hk. congruence. }
    unfold append_unique. rewrite (proj2 (contains_false ds r)) by done. split.
    + rewrite Ho, imap_app. rewrite alter_app_r_alt by (by rewrite length_imap).
      rewrite length_imap, Nat.sub_diag. simpl. f_equal.
      * apply imap_ext. intros j r' Hj. simpl. rewrite of_root_snoc. simpl. rewrite bool_decide_false; [done |].
        intros ->. apply Hr. by eapply list_elem_of_lookup_2.
      * unfold claim_add. simpl. rewrite Nat.add_0_r, of_root_snoc. simpl. rewrite bool_decide_true by done.
        unfold gathered. rewrite foldl_app. simpl. repeat f_equal.
        assert (of_root r ps = []) as ->; [| done]. unfold of_root.
        rewrite filter_nil_all; [done |]. intros [l' r'] Hin. apply bool_decide_eq_false. simpl. intros ->.
        apply Hr. apply elem_of_append_all. apply list_elem_of_fmap. by exists (l', r).
    + intros r' k'. rewrite Ho, length_imap. destruct (decide (r = r')) as [<-|Hne].
      * rewrite lookup_insert_eq. split.
        -- intros [= <-]. by apply list_lookup_middle.
        -- intros Hk'. f_equal. destruct (lookup_app_Some ds [r] k' r) as [Hx _]. apply Hx in Hk' as [Hk'|[Hle Hk']].
           ++ destruct Hr. by eapply list_elem_of_lookup_2.
           ++ apply lookup_lt_Some in Hk'. simpl in Hk'. lia.
      * rewrite lookup_insert_ne by done. rewrite Hb, lookup_app. destruct (ds !! k') eqn:E'; [done |].
        split; [done |]. intros Hx. apply list_lookup_singleton_Some in Hx as [_ ->]. done.
Qed.

(** ** The instrument of a claim *)

Lemma add_identifiers ids st :
  foldl add_identifier st ids =
  (foldl append_unique st.1 (List.filter is_instr_grain ids),
   MkListing (foldl append_unique (listing_Identifiers st.2) (List.filter (fun id => negb (is_instr_grain id)) ids)) (listing_Primary st.2)).
Proof.
  revert st. induction ids as [|id ids IH]; intros [acc l]; simpl; [by destruct l |].
  rewrite IH. unfold add_identifier. simpl. by destruct (is_instr_grain id).
Qed.

Lemma add_Identifiers i l fam id :
  id ∈ instr_Identifiers (add i l fam) <-> id ∈ instr_Identifiers i \/ (is_instr_grain id = true /\ id ∈ ml_Identifiers l).
Proof. unfold add. rewrite add_identifiers. simpl. rewrite elem_of_append_fold, elem_of_lfilter. tauto. Qed.

Lemma add_Listings i l fam f : is_Some (instr_Listings (add i l fam) !! f) <-> is_Some (instr_Listings i !! f) \/ f = fam.
Proof.
  unfold add. rewrite add_identifiers. simpl. rewrite lookup_insert_is_Some. destruct (decide (fam = f)); naive_solver.
Qed.

Lemma add_listing i l fam f id :
  id ∈ listing_Identifiers (listing_of (add i l fam) f) <->
  id ∈ listing_Identifiers (listing_of i f) \/ (f = fam /\ is_instr_grain id = false /\ id ∈ ml_Identifiers l).
Proof.
  unfold add. rewrite add_identifiers. unfold listing_of at 1. simpl. destruct (decide (fam = f)) as [->|Hne].
  - rewrite lookup_insert_eq. simpl.
    assert (forall b (x y : Listing), listing_Identifiers x = listing_Identifiers y ->
      listing_Identifiers (if b : bool then x else y) = listing_Identifiers y) as Hif by by intros [] ???.
    rewrite Hif by done. simpl. rewrite elem_of_append_fold, elem_of_lfilter, negb_true_iff. tauto.
  - rewrite lookup_insert_ne by done. change (default Listing_zero (instr_Listings i !! f)) with (listing_of i f). naive_solver.
Qed.

Lemma exists_snoc {A} (ls : list A) (x : A) (P : A -> Prop) : (exists l, l ∈ ls ++ [x] /\ P l) <-> (exists l, l ∈ ls /\ P l) \/ P x.
Proof.
  setoid_rewrite elem_of_app. setoid_rewrite list_elem_of_singleton. split.
  - intros (l & [Hl| ->] & HP); [left; by exists l | by right].
  - intros [(l & Hl & HP)|HP]; eauto.
Qed.

(** What the listings folded into an instrument give it. *)
Lemma gathered_spec families strict ls :
  let g := gathered families strict ls in
  (forall id, id ∈ instr_Identifiers g <-> id ∈ strict \/ exists l, l ∈ ls /\ is_instr_grain id = true /\ id ∈ ml_Identifiers l) /\
  (forall f, is_Some (instr_Listings g !! f) <-> exists l, l ∈ ls /\ Family families (ml_Currency l) = f) /\
  (forall f id, id ∈ listing_Identifiers (listing_of g f) <->
     exists l, l ∈ ls /\ Family families (ml_Currency l) = f /\ is_instr_grain id = false /\ id ∈ ml_Identifiers l).
Proof.
  unfold gathered. induction ls as [|l ls (I1 & I2 & I3)] using rev_ind; simpl.
  - split; [| split].
    + intros id. split; [by left |]. intros [?|(? & []%not_elem_of_nil & _)]; done.
    + intros f. rewrite lookup_empty. split; [by intros [] | intros (? & []%not_elem_of_nil & _)].
    + intros f id. unfold listing_of. simpl. rewrite lookup_empty. simpl. split; [by intros []%not_elem_of_nil | intros (? & []%not_elem_of_nil & _)].
  - rewrite foldl_app. simpl. simpl in I1, I2, I3.
    split; [| split].
    + intros id. rewrite add_Identifiers, I1, exists_snoc. tauto.
    + intros f. rewrite add_Listings, I2, exists_snoc. intuition.
    + intros f id. rewrite add_listing, I3, exists_snoc. intuition.
Qed.

(** The claim of each listing: the place its root has among the distinct
    roots. *)
Definition claim_places (roots : list nat) : list nat :=
  map (fun r => default 0%nat (index_func (fun r' => bool_decide (r' = r)) (foldl append_unique [] roots))) roots.

Lemma claim_places_lookup roots i k :
  claim_places roots !! i = Some k <-> exists r, roots !! i = Some r /\ foldl append_unique [] roots !! k = Some r.
Proof.
  unfold claim_places. rewrite list_lookup_fmap, fmap_Some. pose proof (NoDup_append_all roots) as Hnd.
  assert (forall r, r ∈ roots -> foldl append_unique [] roots !! default 0%nat
    (index_func (fun r' => bool_decide (r' = r)) (foldl append_unique [] roots)) = Some r) as Hidx.
  { intros r Hr. destruct (index_func _ _) as [j|] eqn:E; simpl.
    - apply index_func_Some in E as (x & Hx & ->%bool_decide_eq_true & _). done.
    - pose proof (proj1 (index_func_None _ _) E r) as Hf. apply elem_of_append_all in Hr.
      by apply Hf, bool_decide_eq_false in Hr. }
  split.
  - intros (r & Hi & ->). exists r. split; [done |]. apply Hidx. by eapply list_elem_of_lookup_2.
  - intros (r & Hi & Hk). exists r. split; [done |].
    eapply NoDup_lookup; [exact Hnd | exact Hk |]. apply Hidx. by eapply list_elem_of_lookup_2.
Qed.

Lemma elem_of_of_root r ls roots l :
  l ∈ of_root r (zip ls roots) <-> exists i, ls !! i = Some l /\ roots !! i = Some r.
Proof.
  unfold of_root. rewrite list_elem_of_fmap. split.
  - intros ([l' r'] & -> & Hin). apply elem_of_lfilter in Hin as [Hin Hb]. simpl in Hb. apply bool_decide_eq_true in Hb as ->. simpl.
    apply list_elem_of_lookup in Hin as [i Hi]. apply lookup_zip_with_Some in Hi as (a & b & [= -> ->] & ? & ?). by exists i.
  - intros (i & Hl & Hr). exists (l, r). split; [done |]. apply elem_of_lfilter. split; [| simpl; by rewrite bool_decide_true].
    apply list_elem_of_lookup. exists i. apply lookup_zip_with_Some. by exists l, r.
Qed.

(** The claims are those of the distinct roots. *)
Lemma claims_form fk families :
  let ls := ir_Listings (fk_Response fk) in
  exists roots, length roots = length ls /\
    (forall i j r r', roots !! i = Some r -> roots !! j = Some r' ->
       r = r' <-> rtc (claim_shares (0 <? length (strict_ids fk))%nat ls) i j) /\
    claims fk families = Some (imap (fun k r => MkClaim (Some fk) k (gathered families (strict_ids fk) (of_root r (zip ls roots))))
                                 (foldl append_unique [] roots)).
Proof.
  intros ls. destruct (partition_total ls (0 <? length (strict_ids fk))%nat) as (roots & Ep & Hlen & _ & Hchain).
  exists roots. split; [done |]. split; [done |]. unfold claims. fold ls. rewrite Ep. simpl.
  destruct (claim_fold fk families (strict_ids fk) (zip ls roots)) as [-> _].
  replace (map snd (zip ls roots)) with roots; [done |]. symmetry. apply snd_zip. lia.
Qed.

(** The claim at a place is made by the fetch key. *)
Lemma claims_place fk families cs k c :
  claims fk families = Some cs -> cs !! k = Some c -> cl_fetchKey c = Some fk /\ cl_place c = k.
Proof.
  destruct (claims_form fk families) as (roots & _ & _ & ->). intros [= <-] Hc. rewrite list_lookup_imap in Hc.
  destruct (foldl append_unique [] roots !! k); simpl in Hc; [| done]. by injection Hc as <-.
Qed.

(** [claims] always answers. Each returned listing belongs to one claim, two
    listings to the same one exactly where a chain of listings joins them, each
    sharing an instrument grain identifier with the next, or where the call was
    strict. The claims are numbered in the order of their first listings, and
    each is made of its own listings alone: its identifiers are the strict ones
    and the instrument grain ones of its listings, and its listing of a family
    holds the other identifiers of its returned listings of that family. *)
Theorem claims_spec fk families :
  let ls := ir_Listings (fk_Response fk) in
  let strict := strict_ids fk in
  exists cs owner, claims fk families = Some cs /\ length owner = length ls /\
    (forall i k, owner !! i = Some k -> (k < length cs)%nat) /\
    (forall k, (k < length cs)%nat -> exists i, owner !! i = Some k) /\
    (forall i k k', owner !! i = Some k -> (k' < k)%nat -> exists i', (i' < i)%nat /\ owner !! i' = Some k') /\
    (forall i j k k', owner !! i = Some k -> owner !! j = Some k' ->
       k = k' <-> rtc (claim_shares (0 <? length strict)%nat ls) i j) /\
    (forall k c, cs !! k = Some c -> cl_fetchKey c = Some fk /\ cl_place c = k /\
       (forall id, id ∈ cl_Identifiers c <-> id ∈ strict \/
          exists i l, owner !! i = Some k /\ ls !! i = Some l /\ is_instr_grain id = true /\ id ∈ ml_Identifiers l) /\
       (forall f, is_Some (cl_Listings c !! f) <->
          exists i l, owner !! i = Some k /\ ls !! i = Some l /\ Family families (ml_Currency l) = f) /\
       (forall f id, id ∈ listing_Identifiers (listing_of (cl_Instr c) f) <->
          exists i l, owner !! i = Some k /\ ls !! i = Some l /\ Family families (ml_Currency l) = f /\
            is_instr_grain id = false /\ id ∈ ml_Identifiers l)).
Proof.
  intros ls strict. destruct (claims_form fk families) as (roots & Hlen & Hchain & Ec). fold ls strict in Hlen, Hchain, Ec.
  set (ds := foldl append_unique [] roots) in *.
  assert (forall k, (k < length ds)%nat -> exists i r, roots !! i = Some r /\ ds !! k = Some r) as Hback.
  { intros k [r Hr]%lookup_lt_is_Some_2. pose proof (list_elem_of_lookup_2 _ _ _ Hr) as Hin.
    apply (proj1 (elem_of_append_all roots r)), list_elem_of_lookup in Hin as [i Hi]. eauto. }
  assert (forall k r, ds !! k = Some r -> forall (P : MarketListing -> Prop),
    (exists l, l ∈ of_root r (zip ls roots) /\ P l) <-> exists i l, claim_places roots !! i = Some k /\ ls !! i = Some l /\ P l) as Hof.
  { intros k r Hk P. setoid_rewrite elem_of_of_root. setoid_rewrite claim_places_lookup. fold ds. split.
    - intros (l & (i & ? & ?) & ?). exists i, l. eauto.
    - intros (i & l & (r' & ? & ?) & ? & ?). simplify_eq. eauto. }
  eexists _, (claim_places roots). split; [exact Ec |].
  rewrite length_imap. split; [by unfold claim_places; rewrite length_map |].
  split; [intros i k (r & _ & Hk)%claim_places_lookup; by apply lookup_lt_Some in Hk |].
  split; [intros k (i & r & Hi & Hk)%Hback; exists i; apply claim_places_lookup; eauto |].
  split; [| split].
  - intros i k k' (r & Hi & Hk)%claim_places_lookup Hlt. destruct (lookup_lt_is_Some_2 ds k') as [r' Hr'].
    { apply lookup_lt_Some in Hk. fold ds in Hk. lia. }
    destruct (append_all_order roots i r k k' r' Hi Hk Hlt Hr') as (i' & ? & Hi'). exists i'. split; [done |].
    apply claim_places_lookup. eauto.
  - intros i j k k' (r & Hi & Hk)%claim_places_lookup (r' & Hj & Hk')%claim_places_lookup.
    rewrite <- (Hchain i j r r' Hi Hj). split; [intros <-; congruence | intros <-].
    eapply NoDup_lookup; [apply (NoDup_append_all roots) | done | done].
  - intros k c Hc. rewrite list_lookup_imap in Hc. destruct (ds !! k) as [r|] eqn:Hk; simpl in Hc; [| done].
    injection Hc as <-.
    destruct (gathered_spec families strict (of_root r (zip ls roots))) as (G1 & G2 & G3).
    split; [done |]. split; [done |]. unfold cl_Identifiers, cl_Listings. simpl. split; [| split].
    + intros id. rewrite G1. by rewrite (Hof k r Hk (fun l => is_instr_grain id = true /\ id ∈ ml_Identifiers l)).
    + intros f. rewrite G2. by rewrite (Hof k r Hk (fun l => Family families (ml_Currency l) = f)).
    + intros f id. rewrite G3.
      by rewrite (Hof k r Hk (fun l => Family families (ml_Currency l) = f /\ is_instr_grain id = false /\ id ∈ ml_Identifiers l)).
Qed.

(** Two claims of a response share no identifier of the instrument grain. *)
Lemma claims_distinct fk families cs c d id :
  claims fk families = Some cs -> c ∈ cs -> d ∈ cs -> is_instr_grain id = true ->
  id ∈ cl_Identifiers c -> id ∈ cl_Identifiers d -> c = d.
Proof.
  destruct (claims_form fk families) as (roots & Hlen & Hchain & ->). intros [= <-] Hc Hd Hg Hic Hid.
  set (ls := ir_Listings (fk_Response fk)) in *. set (ds := foldl append_unique [] roots) in *.
  assert (forall x, x ∈ imap (fun k r => MkClaim (Some fk) k (gathered families (strict_ids fk) (of_root r (zip ls roots)))) ds ->
    exists k r i, ds !! k = Some r /\ roots !! i = Some r /\
      x = MkClaim (Some fk) k (gathered families (strict_ids fk) (of_root r (zip ls roots)))) as Hform.
  { intros x (k & Hx)%list_elem_of_lookup. rewrite list_lookup_imap in Hx. destruct (ds !! k) as [r|] eqn:Hk; [| done].
    injection Hx as <-. pose proof (list_elem_of_lookup_2 _ _ _ Hk) as Hr.
    apply (proj1 (elem_of_append_all roots r)), list_elem_of_lookup in Hr as [i Hi]. eauto 10. }
  destruct (Hform _ Hc) as (k & r & i & Hk & Hi & ->), (Hform _ Hd) as (k' & r' & i' & Hk' & Hi' & ->).
  clear Hform Hc Hd. unfold cl_Identifiers in *. simpl in *.
  assert (r = r') as <-.
  { destruct (gathered_spec families (strict_ids fk) (of_root r (zip ls roots))) as (G & _ & _).
    destruct (gathered_spec families (strict_ids fk) (of_root r' (zip ls roots))) as (G' & _ & _).
    apply G in Hic. apply G' in Hid.
    assert (forall l r, l ∈ of_root r (zip ls roots) -> exists j, ls !! j = Some l /\ roots !! j = Some r) as Hof
      by (intros ??; apply elem_of_of_root).
    assert (strict_ids fk = [] \/ (0 <? length (strict_ids fk))%nat = true) as [Hs|Hs].
    { destruct (strict_ids fk); [by left | by right]. }
    - rewrite Hs in Hic, Hid. destruct Hic as [[]%not_elem_of_nil|(l & Hl & _ & Hll)], Hid as [[]%not_elem_of_nil|(l' & Hl' & _ & Hll')].
      apply Hof in Hl as (j & Ej & Erj), Hl' as (j' & Ej' & Erj').
      apply (Hchain j j' r r' Erj Erj'). apply rtc_once. exists l, l'. eauto 10.
    - assert (exists l, ls !! i = Some l) as [l Hl] by (apply lookup_lt_is_Some_2; apply lookup_lt_Some in Hi; lia).
      assert (exists l, ls !! i' = Some l) as [l' Hl'] by (apply lookup_lt_is_Some_2; apply lookup_lt_Some in Hi'; lia).
      apply (Hchain i i' r r' Hi Hi'). apply rtc_once. exists l, l'. auto. }
  assert (k = k') as <-; [| done]. eapply NoDup_lookup; [apply (NoDup_append_all roots) | exact Hk | exact Hk'].
Qed.

(** A claim of a response: its own identifiers and those of its listings are of
    the two grains, and a listing is in a family the code holds. *)
Record formed (families : Families) (c : identityClaim) : Prop := {
  fm_instr id : id ∈ cl_Identifiers c -> is_instr_grain id = true;
  fm_listing f id : id ∈ listing_Identifiers (listing_of (cl_Instr c) f) -> is_instr_grain id = false;
  fm_family f : is_Some (cl_Listings c !! f) -> exists code, Family families code = f;
}.

Lemma claims_formed fk families cs c : claims fk families = Some cs -> c ∈ cs -> cl_fetchKey c = Some fk /\ formed families c.
Proof.
  intros Ec Hc. apply list_elem_of_lookup in Hc as [k Hk]. destruct (claims_place _ _ _ _ _ Ec Hk) as [Hfk _]. split; [done |].
  destruct (claims_form fk families) as (roots & _ & _ & Ef). rewrite Ec in Ef. injection Ef as ->. rewrite list_lookup_imap in Hk.
  destruct (foldl append_unique [] roots !! k) as [r|]; simpl in Hk; [| done]. injection Hk as <-.
  destruct (gathered_spec families (strict_ids fk) (of_root r (zip (ir_Listings (fk_Response fk)) roots))) as (G1 & G2 & G3). split; unfold cl_Identifiers, cl_Listings; simpl.
  - intros id [Hs|(l & _ & Hg & _)]%G1; [| done]. by apply elem_of_lfilter in Hs as [_ ?].
  - intros f id (l & _ & _ & Hg & _)%G3. done.
  - intros f (l & _ & Hl)%G2. by exists (ml_Currency l).
Qed.

(** The identifiers of a claim are those of its response, which has a listing. *)
Lemma claims_ids fk families cs c : claims fk families = Some cs -> c ∈ cs -> ir_Listings (fk_Response fk) <> [] /\
  forall id, id ∈ AllIDs (cl_Instr c) -> id ∈ ir_Filtered (fk_Response fk) ++ concat (map ml_Identifiers (ir_Listings (fk_Response fk))).
Proof.
  intros Ec Hc. apply list_elem_of_lookup in Hc as [k Hk].
  destruct (claims_form fk families) as (roots & Hlen & _ & Ef). rewrite Ec in Ef. injection Ef as ->. rewrite list_lookup_imap in Hk.
  destruct (foldl append_unique [] roots !! k) as [r|] eqn:Er; simpl in Hk; [| done]. injection Hk as <-. split.
  { intros Hn. rewrite Hn in Hlen. by destruct roots. }
  destruct (gathered_spec families (strict_ids fk) (of_root r (zip (ir_Listings (fk_Response fk)) roots))) as (G1 & _ & G3).
  assert (forall l, l ∈ of_root r (zip (ir_Listings (fk_Response fk)) roots) -> l ∈ ir_Listings (fk_Response fk)) as Hl.
  { intros l (i & Hi & _)%elem_of_of_root. by eapply list_elem_of_lookup_2. }
  intros id. unfold AllIDs. rewrite !elem_of_app, !elem_of_concat_map. intros [Hid|(f & _ & Hid)].
  - apply G1 in Hid as [Hs|(l & ? & _ & ?)]; [left; by apply elem_of_lfilter in Hs as [? _] | right; eauto].
  - apply G3 in Hid as (l & ? & _ & _ & ?). right. eauto.
Qed.
