(* ===== verification/ClaimSpec.v ===== *)
(** What the checks on a claim find, in terms of the identifiers and the listings
    it carries, apart from the loops that look for them:
    [server/internal/identity/resolve/claim.go]. The theorems about the choice of
    a claim are stated with these predicates. *)
From S2P Require Import Prelude Types Rows Period Mic Market Resolution Claims.

(** * The predicates *)

(** An identifier of the claim's instrument or of one of its listings. *)
Definition carries (c : identityClaim) (id : Identifier) : Prop :=
  id ∈ cl_Identifiers c \/ exists f l, cl_Listings c !! f = Some l /\ id ∈ listing_Identifiers l.

(** The claim carries the identifier its fetch key went out under. *)
Definition names_sent (c : identityClaim) : Prop :=
  exists fk sent, cl_fetchKey c = Some fk /\ fk_SentID fk = Some sent /\ carries c sent.

(** The identifiers of the claim that [id], stated in the family [fam], is held
    against: those of the instrument, or, for one of the listing grain, those of
    the listings in the family and in none. *)
Definition beside (c : identityClaim) (id : Identifier) (fam : string) (h : Identifier) : Prop :=
  if decide (Grain id = IdentifierGrainListing)
  then exists f l, cl_Listings c !! f = Some l /\ (fam = noFamily \/ f = fam \/ f = noFamily) /\ h ∈ listing_Identifiers l
  else h ∈ cl_Identifiers c.

(** The claim carries another value of an exclusive identifier, and not this one. *)
Definition denies (c : identityClaim) (id : Identifier) (fam : string) : Prop :=
  Exclusive id = true /\ ~ beside c id fam id /\ exists h, beside c id fam h /\ id_Type h = id_Type id /\ id_Domain h = id_Domain id.

(** [c] denies the class or an identifier of [a]. *)
Definition disagree (c a : identityClaim) : Prop :=
  Disjoint (cl_Class c) (cl_Class a) = true \/ (exists id, id ∈ cl_Identifiers a /\ denies c id noFamily) \/
  exists f l id, cl_Listings a !! f = Some l /\ id ∈ listing_Identifiers l /\ denies c id f.

(** What the key states is denied: its class, an identifier, or its family, which
    a claim with listings in other families alone denies where its response
    returns all of them. *)
Definition denies_stated (c : identityClaim) (res : resolution) : Prop :=
  (exists cl, sk_AssetClass (rs_row res) = Some cl /\ Disjoint (cl_Class c) cl = true) \/
  (exists id, id ∈ sk_Identifiers (rs_row res) /\ denies c id (rs_family res)) \/
  exists fk, cl_fetchKey c = Some fk /\ ir_Limited (fk_Response fk) = false /\ rs_family res <> noFamily /\
    (exists f, f <> noFamily /\ is_Some (cl_Listings c !! f)) /\ cl_Listings c !! rs_family res = None /\ cl_Listings c !! noFamily = None.

(** The two share a stable identifier, or a ticker of one market that both were
    answered with on one day. *)
Definition backs (mics : MICMap) (c a : identityClaim) : Prop :=
  (exists id, Stable id = true /\ carries c id /\ carries a id) \/
  exists f g i j t, cl_fetchKey c = Some f /\ cl_fetchKey a = Some g /\ Day (fk_AnsweredAt f) = Day (fk_AnsweredAt g) /\
    carries c i /\ carries a j /\ mics_MarketTicker mics i = Some t /\ mics_MarketTicker mics j = Some t.

#[export] Instance carries_dec c id : Decision (carries c id).
Proof. refine (cast_if (decide (id ∈ AllIDs (cl_Instr c)))); unfold carries; by rewrite <- (elem_of_AllIDs (cl_Instr c)). Defined.

(** How much of what the key states the claim carries: its identifiers, and a
    listing in its family. *)
Definition agreement (c : identityClaim) (res : resolution) : nat :=
  (length (filter (carries c) (sk_Identifiers (rs_row res))) +
   if decide (rs_family res <> noFamily /\ is_Some (cl_Listings c !! rs_family res)) then 1 else 0)%nat.

(** * The loops meet them *)

Lemma carries_spec c id : carries c id <-> id ∈ AllIDs (cl_Instr c).
Proof. by rewrite elem_of_AllIDs. Qed.

Lemma claim_named_spec c : claim_named c = true <-> names_sent c.
Proof.
  unfold claim_named, names_sent. setoid_rewrite carries_spec. split.
  - destruct (cl_fetchKey c) as [fk|]; [| done]. destruct (fk_SentID fk) as [s|] eqn:E; [| done]. intros H%IdentifiedBy_spec. by exists fk, s.
  - intros (fk & s & -> & -> & H). by apply IdentifiedBy_spec.
Qed.

Lemma first_some_None {A B} (f : A -> option B) l : first_some f l = None <-> forall x, x ∈ l -> f x = None.
Proof.
  induction l as [|x l IH]; simpl; [by split; [intros _ ? ?%not_elem_of_nil | done] |].
  destruct (f x) eqn:E.
  - split; [done |]. intros H. rewrite (H x) in E by left. done.
  - rewrite IH. setoid_rewrite elem_of_cons. split; [| by auto]. intros H y [->|Hy]; auto.
Qed.

Lemma contradict_pool_spec c id fam h : h ∈ contradict_pool c id fam <-> beside c id fam h.
Proof.
  unfold contradict_pool, beside. case_bool_decide as Hg; [rewrite decide_True by done | by rewrite decide_False by done].
  rewrite elem_of_concat_map. split.
  - intros (f & [l Hl]%elem_of_sorted_keys & Hh). unfold listing_of in Hh. change (instr_Listings (cl_Instr c)) with (cl_Listings c) in Hh. rewrite Hl in Hh.
    destruct (bool_decide (fam = noFamily) || _ || _) eqn:E; [| by apply not_elem_of_nil in Hh]. exists f, l. split; [done |]. split; [| done].
    rewrite !orb_true_iff, !bool_decide_eq_true in E. tauto.
  - intros (f & l & Hl & Hf & Hh). exists f. split; [apply elem_of_sorted_keys; by exists l |].
    unfold listing_of. change (instr_Listings (cl_Instr c)) with (cl_Listings c). rewrite Hl.
    assert (bool_decide (fam = noFamily) || bool_decide (f = fam) || bool_decide (f = noFamily) = true) as ->; [| done].
    rewrite !orb_true_iff, !bool_decide_eq_true. tauto.
Qed.

Lemma contradict_loop_None id pool other : contradict_loop id pool other = None <->
  id ∈ pool \/ other = None /\ forall h, h ∈ pool -> id_Type h = id_Type id -> id_Domain h = id_Domain id -> False.
Proof.
  revert other. induction pool as [|h pool IH]; intros other; simpl.
  - split; [intros ->; right; split; [done | by intros ? ?%not_elem_of_nil] | by intros [?%not_elem_of_nil|[-> _]]].
  - destruct (decide (id_Type h = id_Type id)) as [Et|Et]; [rewrite (bool_decide_true (id_Type h = _)) by done; simpl | rewrite (bool_decide_false (id_Type h = _)) by done; simpl].
    + destruct (decide (id_Domain h = id_Domain id)) as [Ed|Ed]; [rewrite (bool_decide_true (id_Domain h = _)) by done; simpl | rewrite (bool_decide_false (id_Domain h = _)) by done; simpl].
      * case_bool_decide as Ev.
        -- split; [intros _; left | done]. assert (h = id) as -> by (destruct h, id; simpl in *; congruence). left.
        -- rewrite IH. split; [intros [H|[? _]]; [left; by right | done] |]. intros [[->|H]%elem_of_cons|[_ H]]; [done | by left | exfalso; by apply (H h); [left | |]].
      * rewrite IH. setoid_rewrite elem_of_cons. split; [| naive_solver]. intros [H|[-> H]]; [by left; right | right; split; [done |]]. intros x [->|Hx]; [done | by apply H].
    + rewrite IH. setoid_rewrite elem_of_cons. split; [| naive_solver]. intros [H|[-> H]]; [by left; right | right; split; [done |]]. intros x [->|Hx]; [done | by apply H].
Qed.

Lemma contradicts_None c id fam : contradicts c id fam = None <-> ~ denies c id fam.
Proof.
  unfold contradicts, denies. destruct (Exclusive id); simpl; [| naive_solver]. rewrite contradict_loop_None. setoid_rewrite contradict_pool_spec.
  destruct (decide (id ∈ contradict_pool c id fam)) as [H|H]; rewrite contradict_pool_spec in H; naive_solver.
Qed.

Lemma inconsistent_None c a : inconsistent c a = None <-> ~ disagree c a.
Proof.
  unfold inconsistent, disagree. destruct (Disjoint _ _); [naive_solver |]. rewrite first_some_None. unfold compared_ids.
  assert (forall id f, match contradicts c id f with Some o => Some (Name o +:+ " contradicts " +:+ Name id +:+ " (" +:+ claim_from a +:+ ")") | None => None end = None <-> ~ denies c id f) as Hc.
  { intros id f. rewrite <- contradicts_None. by destruct (contradicts c id f). }
  split.
  - intros H [?|[(id & Hid & Hd)|(f & l & id & Hl & Hid & Hd)]]; [done | |].
    + apply (Hc id noFamily); [| done]. apply (H (id, noFamily)). apply elem_of_app. left. apply list_elem_of_fmap. by exists id.
    + apply (Hc id f); [| done]. apply (H (id, f)). apply elem_of_app. right. apply elem_of_concat_map. exists f. split; [apply elem_of_sorted_keys; by exists l |].
      apply list_elem_of_fmap. exists id. split; [done |]. unfold listing_of. change (instr_Listings (cl_Instr a)) with (cl_Listings a). by rewrite Hl.
  - intros H [id f] [(x & [= -> ->] & Hx)%list_elem_of_fmap|(g & [l Hl]%elem_of_sorted_keys & (x & [= -> ->] & Hx)%list_elem_of_fmap)%elem_of_concat_map]%elem_of_app; apply Hc; intros Hd; apply H; right.
    + left. by exists x.
    + right. unfold listing_of in Hx. change (instr_Listings (cl_Instr a)) with (cl_Listings a) in Hx. rewrite Hl in Hx. by exists g, l, x.
Qed.

Lemma elem_of_listed c f : f ∈ listed c <-> f <> noFamily /\ is_Some (cl_Listings c !! f).
Proof.
  unfold listed. rewrite elem_of_sort_func, elem_of_lfilter, negb_true_iff, bool_decide_eq_false, list_elem_of_fmap. split.
  - intros [((g & l) & -> & Hl%elem_of_map_to_list) Hn]. split; [done | by exists l].
  - intros [Hn [l Hl]]. split; [| done]. exists (f, l). split; [done |]. by apply elem_of_map_to_list.
Qed.

Lemma contradicted_None c res fk : cl_fetchKey c = Some fk -> contradicted c res = Some None <-> ~ denies_stated c res.
Proof.
  intros Hfk. unfold contradicted, denies_stated. rewrite Hfk. simpl.
  assert (family_unlisted c (ir_Limited (fk_Response fk)) (rs_family res) = true <-> ir_Limited (fk_Response fk) = false /\ rs_family res <> noFamily /\
    (exists f, f <> noFamily /\ is_Some (cl_Listings c !! f)) /\ cl_Listings c !! rs_family res = None /\ cl_Listings c !! noFamily = None) as Hf.
  { unfold family_unlisted. rewrite !andb_true_iff, !negb_true_iff, !bool_decide_eq_false, bool_decide_eq_true, contains_false, elem_of_listed, (eq_None_not_Some (cl_Listings c !! rs_family res)).
    setoid_rewrite <- elem_of_listed. split.
    - intros ((((? & ?) & Hn) & Hno) & ?). split; [done |]. split; [done |]. split; [| split; [| done]].
      + destruct (listed c) as [|f fs]; [done |]. exists f. left.
      + intros Hs. by apply Hno, elem_of_listed.
    - intros (? & ? & (f & Hin) & Hno & ?). split; [split; [split; [done |] |] | done].
      + intros E. rewrite E in Hin. by apply not_elem_of_nil in Hin.
      + by intros [_ Hs]%elem_of_listed. }
  set (by_id := first_some _ _). assert (by_id = None <-> forall id, id ∈ sk_Identifiers (rs_row res) -> ~ denies c id (rs_family res)) as Hb.
  { unfold by_id. rewrite first_some_None. setoid_rewrite <- contradicts_None. split; intros H id Hid; specialize (H id Hid); by destruct (contradicts c id (rs_family res)). }
  destruct (family_unlisted _ _ _) eqn:E; [split; [done |]; intros []; right; right; exists fk; split; [done | by apply Hf] |].
  assert (~ (exists fk0, Some fk = Some fk0 /\ ir_Limited (fk_Response fk0) = false /\ rs_family res <> noFamily /\
    (exists f, f <> noFamily /\ is_Some (cl_Listings c !! f)) /\ cl_Listings c !! rs_family res = None /\ cl_Listings c !! noFamily = None)) as Hnf
    by (intros (? & [= <-] & ?%Hf); congruence).
  assert (Some by_id = Some None <-> by_id = None) as Hs by (split; congruence).
  destruct (sk_AssetClass (rs_row res)) as [cl|]; [destruct (Disjoint (cl_Class c) cl) eqn:Ed |]; try (rewrite Hs, Hb); naive_solver.
Qed.

Lemma corroborates_spec c a mics : corroborates c a mics = true <-> backs mics c a.
Proof.
  unfold corroborates, backs. rewrite orb_true_iff. apply Morphisms_Prop.or_iff_morphism.
  - unfold sharesStable. rewrite existsb_elem. setoid_rewrite andb_true_iff. setoid_rewrite IdentifiedBy_spec. setoid_rewrite carries_spec. naive_solver.
  - unfold sameDayTicker. setoid_rewrite carries_spec. split.
    + destruct (cl_fetchKey c) as [f|]; [| done]. destruct (cl_fetchKey a) as [g|]; [| done].
      intros [Hd%bool_decide_eq_true (t & Ht & Ha%contains_true)%existsb_elem]%andb_true_iff.
      apply list_elem_of_omap in Ht as (i & Hi & Et), Ha as (j & Hj & Ej). by exists f, g, i, j, t.
    + intros (f & g & i & j & t & -> & -> & Hd & Hi & Hj & Ei & Ej). rewrite bool_decide_true by done. simpl. apply existsb_elem. exists t.
      split; [apply list_elem_of_omap; by exists i | apply contains_true, list_elem_of_omap; by exists j].
Qed.

Lemma confirms_spec c res : confirms c res = Z.of_nat (agreement c res).
Proof.
  unfold confirms, agreement. rewrite Nat2Z.inj_add. f_equal.
  - f_equal. induction (sk_Identifiers (rs_row res)) as [|id ids IH]; simpl; [done |]. rewrite filter_cons. destruct (IdentifiedBy (cl_Instr c) id) eqn:E.
    + rewrite decide_True by (by apply carries_spec, IdentifiedBy_spec). simpl. by rewrite IH.
    + rewrite decide_False; [done |]. intros H%carries_spec%IdentifiedBy_spec. congruence.
  - destruct (decide (is_Some (cl_Listings c !! rs_family res))) as [Hs|Hs], (decide (rs_family res = noFamily)) as [Hf|Hf];
      rewrite ?(bool_decide_true (is_Some _)), ?(bool_decide_false (is_Some _)), ?(bool_decide_true (rs_family res = _)), ?(bool_decide_false (rs_family res = _)) by done; simpl;
      case_decide; naive_solver.
Qed.
