(* ===== verification/Choose.v ===== *)
(** The claim a resolution chooses, and the sets of claims it offers the user:
    [choose.go], [candidate.go] and [reason.go] of
    [server/internal/identity/resolve].

    The slices of one verdict are threaded as a state. A map from a datasource
    to a count, which the code only reads by key, is a [gmap]. *)
From S2P Require Import Prelude Types Rows Mic Market Resolution Claims ClaimSpec.

(** * Findings *)

(** The detail of each finding is the text the code writes. *)
Definition finding (fk : fetchKey) (kind : FindingKind) (step : DropStep) (detail : string) : CreateFindingParams :=
  MkFindingParams kind (Some (fk_ID fk)) (if bool_decide (kind = FindingKindDropped) then Some step else None) (Some detail).

Definition dropped (fk : fetchKey) (step : DropStep) (detail : string) : CreateFindingParams :=
  finding fk FindingKindDropped step detail.

(** * One response *)

Record alternatives : Type := MkAlternatives {
  al_count : nat;
  al_survivors : list identityClaim;
  al_offered : list identityClaim;
  al_fallback : bool;
  al_notNaming : nat;
  al_findings : list CreateFindingParams;
}.

(** The loop's body. *)
Definition alternative_step (fk : fetchKey) (res : resolution) (global confirmed : bool) (alts : alternatives) (c : identityClaim) :
    option alternatives :=
  let '(MkAlternatives n ss os fb nn fs) := alts in
  if negb global && negb confirmed then
    bad ← against c res;
    Some (MkAlternatives n ss (match bad with Some _ => os | None => os ++ [c] end) fb (S nn) fs)
  else if global && negb (claim_named c) && negb fb then Some (MkAlternatives n ss os fb (S nn) fs)
  else
    bad ← against c res;
    Some (match bad with
          | Some detail => MkAlternatives n ss os fb nn (fs ++ [dropped fk DropStepStated (label c detail)])
          | None => MkAlternatives n (ss ++ [c]) os fb nn fs
          end).

(** [None] is a nil dereference: a fetch key that was not sent. *)
Definition filterAlternatives (fk : fetchKey) (res : resolution) (confirmed : bool) : option alternatives :=
  sent ← fk_SentID fk;
  gs ← claims fk (rs_families res);
  let global := IsGlobal sent in
  let named := existsb claim_named gs in
  let ticker := MkIdentifier IdentifierTypeMicTicker "" (id_Value sent) in
  let fallback := global && negb named && bool_decide (id_Type sent = IdentifierTypeMicTicker)
                  && contains (ir_Filtered (fk_Response fk)) ticker in
  opt_fold (alternative_step fk res global confirmed) (MkAlternatives (length gs) [] [] fallback 0 []) gs.

(** * Claims below the winner *)

(** The first of [chosen] that [c] contradicts, and how. *)
Definition first_inconsistent (c : identityClaim) (chosen : list identityClaim) : option (identityClaim * string) :=
  first_some (fun o => match inconsistent c o with Some d => Some (o, d) | None => None end) chosen.

(** The outer option is a nil dereference: a claim of the database is never
    rejected. *)
Definition rejects (c : identityClaim) (chosen : list identityClaim) (mics : MICMap) : option (option CreateFindingParams) :=
  match first_inconsistent c chosen with
  | Some (o, detail) =>
      fk ← cl_fetchKey c;
      let kind := if bool_decide (cl_fetchKey o = None) then FindingKindContradiction else FindingKindDropped in
      Some (Some (finding fk kind DropStepPrecedence (label c detail)))
  | None =>
      match chosen with
      | o :: _ =>
          if corroborates c o mics then Some None
          else fk ← cl_fetchKey c;
               Some (Some (dropped fk DropStepCorroboration
                 (label c ("shares neither a stable identifier nor a same-day ticker in one market with " +:+ claim_ref o))))
      | [] => Some None
      end
  end.

(** [rank]: -1 puts [a] first. *)
Definition rank (res : resolution) (a b : identityClaim) : comparison :=
  match claim_named a, claim_named b with
  | true, false => Lt
  | false, true => Gt
  | _, _ => Z.compare (confirms b res) (confirms a res)
  end.

(** * The verdict *)

Record claimVerdict : Type := MkVerdict {
  vd_winner : option identityClaim;
  vd_confirmed : bool;
  (** Why the user's choice fails a check, if it does. *)
  vd_refused : string;
  vd_attached : list identityClaim;
  vd_findings : list CreateFindingParams;
  vd_counts : gmap string nat;
  vd_notNaming : gmap string nat;
  vd_offered : list (list identityClaim);
}.

Definition vd_find (v : claimVerdict) (fs : list CreateFindingParams) : claimVerdict :=
  MkVerdict (vd_winner v) (vd_confirmed v) (vd_refused v) (vd_attached v) (vd_findings v ++ fs) (vd_counts v) (vd_notNaming v) (vd_offered v).

(** The counts of one response. *)
Definition vd_count (v : claimVerdict) (source : string) (alts : alternatives) : claimVerdict :=
  MkVerdict (vd_winner v) (vd_confirmed v) (vd_refused v) (vd_attached v) (vd_findings v)
    (<[source := al_count alts]> (vd_counts v))
    (if (0 <? al_notNaming alts)%nat
     then <[source := (default 0 (vd_notNaming v !! source) + al_notNaming alts)%nat]> (vd_notNaming v) else vd_notNaming v)
    (vd_offered v).

(** [attached] takes [c], which becomes the winner where there is none. *)
Definition vd_attach (v : claimVerdict) (c : identityClaim) : claimVerdict :=
  MkVerdict (match vd_winner v with Some w => Some w | None => Some c end) (vd_confirmed v) (vd_refused v) (vd_attached v ++ [c])
    (vd_findings v) (vd_counts v) (vd_notNaming v) (vd_offered v).

(** The [slices.DeleteFunc] of [bestClaim]: the survivors [rejects] passes, and
    the findings of the others. *)
Definition sieve_step (chosen : list identityClaim) (mics : MICMap) (st : list identityClaim * list CreateFindingParams) (c : identityClaim) :
    option (list identityClaim * list CreateFindingParams) :=
  f ← rejects c chosen mics;
  Some (match f with Some f => (st.1, st.2 ++ [f]) | None => (st.1 ++ [c], st.2) end).

Definition bestClaim (v : claimVerdict) (fk : fetchKey) (res : resolution) (chosen : list identityClaim) :
    option (claimVerdict * option identityClaim * list identityClaim) :=
  match fk_SentID fk with
  | None => Some (v, None, [])
  | Some _ =>
      alts ← filterAlternatives fk res (vd_confirmed v);
      let v := vd_find (vd_count v (fk_Source fk) alts) (al_findings alts) in
      '(survivors, fs) ← opt_fold (sieve_step chosen (rs_mics res)) ([], []) (al_survivors alts);
      let v := vd_find v fs in
      Some (match survivors with
            | [] => (v, None, al_offered alts)
            | s :: ss =>
                if al_fallback alts && bool_decide (chosen = []) && negb (bool_decide (ss = []))
                then (v, None, al_offered alts ++ survivors)
                else (v, head (sort_func (rank res) survivors), al_offered alts)
            end)
  end.

(** ** Sets of consistent claims

    A set is a list, the head first; it is never empty. *)

Definition set_head (a : list identityClaim) : option identityClaim := head a.

(** The pointer to the fetch key of a claim is [fk]. *)
Definition made_by (fk : fetchKey) (c : identityClaim) : bool := bool_decide (fk_ID <$> cl_fetchKey c = Some (fk_ID fk)).

Definition member (a : list identityClaim) (fk : fetchKey) : option identityClaim := find_func (made_by fk) a.

Definition confirmable (a : list identityClaim) : bool :=
  match set_head a with Some h => bool_decide (is_Some (strongestStable h)) | None => false end.

(** The member of [a] from [group]. *)
Definition best_member_step (res : resolution) (a : list identityClaim) (best : option identityClaim) (c : identityClaim) :
    option (option identityClaim) :=
  r ← rejects c a (rs_mics res);
  Some (match r, best with
        | Some _, _ => best
        | None, None => Some c
        | None, Some b => match rank res c b with Lt => Some c | _ => best end
        end).

(** The loop over [out], with the map [joined] as a list. *)
Fixpoint gather_joined (res : resolution) (group : list identityClaim) (out : list (list identityClaim)) :
    option (list (list identityClaim) * list identityClaim) :=
  match out with
  | [] => Some ([], [])
  | a :: out' =>
      best ← opt_fold (best_member_step res a) None group;
      '(out', joined) ← gather_joined res group out';
      Some (match best with
            | Some b => ((a ++ [b]) :: out', b :: joined)
            | None => (a :: out', joined)
            end)
  end.

(** The longest prefix of elements [f] holds of, and the rest. *)
Fixpoint span_prefix {A} (f : A -> bool) (l : list A) : list A * list A :=
  match l with
  | [] => ([], [])
  | x :: l' => if f x then let '(g, r) := span_prefix f l' in (x :: g, r) else ([], l)
  end.

Definition same_fetchKey (c d : identityClaim) : bool := bool_decide (fk_ID <$> cl_fetchKey d = fk_ID <$> cl_fetchKey c).

(** One turn takes a group off [cs], so the number of claims is fuel. *)
Fixpoint gather_loop (res : resolution) (fuel : nat) (out : list (list identityClaim)) (cs : list identityClaim) :
    option (list (list identityClaim)) :=
  match cs, fuel with
  | [], _ => Some out
  | _, O => None
  | c :: cs', S fuel =>
      let '(g, rest) := span_prefix (same_fetchKey c) cs' in
      let group := c :: g in
      '(out, joined) ← gather_joined res group out;
      gather_loop res fuel (out ++ map (fun c => [c]) (List.filter (fun c => negb (existsb (same_claim c) joined)) group)) rest
  end.

Definition gatherConsistentClaims (res : resolution) (cs : list identityClaim) : option (list (list identityClaim)) :=
  gather_loop res (length cs) [] cs.

(** ** The choice *)

(** The slices [verdict], [chosen] and [offered] of [choose]. *)
Record choosing : Type := MkChoosing {
  ch_verdict : claimVerdict;
  ch_chosen : list identityClaim;
  ch_offered : list identityClaim;
}.

Definition ch_attach (st : choosing) (c : identityClaim) : choosing :=
  MkChoosing (vd_attach (ch_verdict st) c) (ch_chosen st ++ [c]) (ch_offered st).

(** The body of the loop over the fetch keys; a nil [userChoice] is the empty
    list. *)
Definition choose_step (res : resolution) (userChoice : list identityClaim) (st : choosing) (fk : fetchKey) : option choosing :=
  match member userChoice fk with
  | Some m =>
      if match set_head userChoice with Some h => same_claim m h | None => false end then Some st
      else
        f ← rejects m (ch_chosen st) (rs_mics res);
        Some (match f with
              | Some f => MkChoosing (vd_find (ch_verdict st) [f]) (ch_chosen st) (ch_offered st)
              | None => ch_attach st m
              end)
  | None =>
      '(v, best, more) ← bestClaim (ch_verdict st) fk res (ch_chosen st);
      let st := MkChoosing v (ch_chosen st) (ch_offered st ++ more) in
      Some (match best, userChoice with
            | Some b, [] => ch_attach st b
            | _, _ => st
            end)
  end.

Definition vd_refuse (v : claimVerdict) (why : string) : claimVerdict :=
  MkVerdict (vd_winner v) (vd_confirmed v) why (vd_attached v) (vd_findings v) (vd_counts v) (vd_notNaming v) (vd_offered v).

Definition vd_offer (v : claimVerdict) (offered : list (list identityClaim)) : claimVerdict :=
  MkVerdict (vd_winner v) (vd_confirmed v) (vd_refused v) (vd_attached v) (vd_findings v) (vd_counts v) (vd_notNaming v) offered.

(** The checks of the head of the user's choice: why it is refused, if it is. *)
Definition head_refused (res : resolution) (known : option identityClaim) (h : identityClaim) : option (option string) :=
  bad ← against h res;
  Some (match bad with
        | Some detail => Some (label h detail)
        | None => match known with
                  | Some k => match inconsistent h k with Some detail => Some (label h detail) | None => None end
                  | None => None
                  end
        end).

Definition choose (res : resolution) (known : option identityClaim) (userChoice : list identityClaim) : option claimVerdict :=
  let v := MkVerdict known (negb (bool_decide (userChoice = []))) "" [] [] ∅ ∅ [] in
  let st := MkChoosing v (match known with Some k => [k] | None => [] end) [] in
  refused ← (match set_head userChoice with Some h => head_refused res known h | None => Some None end);
  match refused with
  | Some why => Some (vd_refuse v why)
  | None =>
      let st := match set_head userChoice with Some h => ch_attach st h | None => st end in
      st ← opt_fold (choose_step res userChoice) st (rs_fetchKeys res);
      sets ← gatherConsistentClaims res (ch_offered st);
      Some (vd_offer (ch_verdict st) (List.filter confirmable sets))
  end.

(** [first]: the verdict without the database's claim. *)
Definition first_verdict (res : resolution) (userChoice : list identityClaim) : option claimVerdict := choose res None userChoice.

(** * Reasons, [reason.go] *)

Definition unresolved (res : resolution) : ResolutionOutcome :=
  if existsb (fun fk => match fk_Outcome fk with
       | FetchOutcomeBlocked | FetchOutcomeFailedTemporary | FetchOutcomeFailedPermanent => true
       | _ => false end) (rs_fetchKeys res)
  then ResolutionOutcomeUnavailable else ResolutionOutcomeUnrecognised.

(** A Go map answers the empty string for an outcome it lacks. *)
Definition unserved (o : FetchOutcome) : string :=
  match o with
  | FetchOutcomeNotServed => "skipped"
  | FetchOutcomeBlocked => "blocked"
  | FetchOutcomeFailedTemporary | FetchOutcomeFailedPermanent => "failed"
  | FetchOutcomeNone | FetchOutcomeServed => ""
  end.

Definition unservedReason (fk : fetchKey) : string :=
  let s := fk_Source fk +:+ ": " +:+ unserved (fk_Outcome fk) in
  if bool_decide (fk_Reason fk = ""%string) then s else s +:+ ": " +:+ fk_Reason fk.

Definition reasons (reason : string) : list string := if bool_decide (reason = ""%string) then [] else [reason].

Definition plural (n : nat) (noun : string) : string :=
  if bool_decide (n = 1%nat) then "1 " +:+ noun else pretty n +:+ " " +:+ noun +:+ "s".

Definition claim_sets (n : nat) : string :=
  if bool_decide (n = 1%nat) then "1 set of identifiers" else pretty n +:+ " sets of identifiers".

(** [None] is a nil dereference: a datasource with claims not naming the
    identifier sent was sent one. *)
Definition summary_part (verdict : claimVerdict) (fk : fetchKey) : option string :=
  if negb (bool_decide (fk_Outcome fk = FetchOutcomeServed)) then Some (unservedReason fk)
  else
    let s := fk_Source fk +:+ ": " +:+ plural (length (ir_Listings (fk_Response fk))) "listing" in
    let n := default 0%nat (vd_counts verdict !! fk_Source fk) in
    let s := if (0 <? n)%nat then s +:+ " in " +:+ claim_sets n else s in
    let n := default 0%nat (vd_notNaming verdict !! fk_Source fk) in
    s ← (if (0 <? n)%nat
         then sent ← fk_SentID fk; Some (s +:+ ", " +:+ claim_sets n +:+ " not naming " +:+ Name sent)
         else Some s);
    let d := length (List.filter (fun f => bool_decide (fp_Kind f = FindingKindDropped) && bool_decide (fp_FetchKeyID f = Some (fk_ID fk)))
                       (vd_findings verdict)) in
    Some (if (0 <? d)%nat then s +:+ ", " +:+ claim_sets d +:+ " dropped" else s).

Definition summary (res : resolution) (verdict : claimVerdict) : option (list string) :=
  match rs_fetchKeys res with
  | [] => Some ["no datasource enabled"%string]
  | fks => mapM (summary_part verdict) fks
  end.

(** * Candidates, [candidate.go] *)

Record Candidate : Type := MkCandidate {
  cd_Datasource : string;
  cd_Attached : list string;
  cd_Strongest : Identifier;
  cd_Instr : Instr;
}.

Record Pick : Type := MkPick {
  pk_Datasource : string;
  pk_Identifier : Identifier;
}.

Record userChoice : Type := MkUserChoice {
  uc_claims : list identityClaim;
  uc_via : Identifier;
}.

(** [members] of a choice, nil being [None]. *)
Definition uc_members (c : option userChoice) : list identityClaim := match c with Some c => uc_claims c | None => [] end.

Inductive no_candidate : Type :=
| ErrNoCandidate (reason : string).

Definition offered_step (res : resolution) (st : list identityClaim * list CreateFindingParams * list string) (fk : fetchKey) :
    option (list identityClaim * list CreateFindingParams * list string) :=
  let '(cs, findings, unserved) := st in
  if negb (bool_decide (fk_Outcome fk = FetchOutcomeServed)) then Some (cs, findings, unserved ++ [unservedReason fk])
  else
    alts ← filterAlternatives fk res false;
    Some (cs ++ al_offered alts ++ al_survivors alts, findings ++ al_findings alts, unserved).

Definition offeredClaims (res : resolution) : option (list identityClaim * list CreateFindingParams * list string) :=
  opt_fold (offered_step res) ([], [], []) (rs_fetchKeys res).

Definition unstableReason (h : identityClaim) : option string :=
  fk ← cl_fetchKey h;
  let s := fk_Source fk +:+ ": " in
  let s := match strongest h with Some id => s +:+ Name id +:+ " " | None => s end in
  Some (s +:+ "carries no stable identifier").

(** The sets the loop of [findUserChoice] passes over and the one it takes. *)
Definition picks_head (p : Pick) (a : list identityClaim) : bool :=
  match set_head a with
  | Some h => match cl_fetchKey h with
              | Some fk => bool_decide (fk_Source fk = pk_Datasource p) && IdentifiedBy (cl_Instr h) (pk_Identifier p)
              | None => false
              end
  | None => false
  end.

Definition findUserChoice (r : resolution) (p : Pick) : option (res no_candidate userChoice) :=
  match find_func (fun fk => bool_decide (fk_Source fk = pk_Datasource p)) (rs_fetchKeys r) with
  | None => Some (Err (ErrNoCandidate (pk_Datasource p +:+ " was not asked")))
  | Some fk =>
      if negb (bool_decide (fk_Outcome fk = FetchOutcomeServed)) then Some (Err (ErrNoCandidate (unservedReason fk)))
      else
        '(cs, _, _) ← offeredClaims r;
        sets ← gatherConsistentClaims r cs;
        match find_func (picks_head p) sets with
        | None => Some (Err (ErrNoCandidate (Name (pk_Identifier p) +:+ " names no candidate of " +:+ pk_Datasource p)))
        | Some a =>
            if Stable (pk_Identifier p) then Some (Ok (MkUserChoice a (pk_Identifier p)))
            else
              h ← set_head a;
              match strongestStable h with
              | Some via => Some (Ok (MkUserChoice a via))
              | None => why ← unstableReason h; Some (Err (ErrNoCandidate why))
              end
        end
  end.

(** The listings of a member, combined into those of the candidate. A turn for
    a family touches that family alone, so the order of the turns, Go's map
    order, is no matter. *)
Definition combine_listing (gls : gmap string Listing) (ls : gmap string Listing) (fam : string) : gmap string Listing :=
  let gl := default Listing_zero (gls !! fam) in
  let l := default Listing_zero (ls !! fam) in
  let ids := foldl append_unique (listing_Identifiers l) (listing_Identifiers gl) in
  <[fam := MkListing ids (if bool_decide (listing_Primary l = ""%string) then listing_Primary gl else listing_Primary l)]> ls.

Definition combine_claim (h : identityClaim) (out : Candidate) (c : identityClaim) : option Candidate :=
  attached ← (if same_claim c h then Some (cd_Attached out)
              else fk ← cl_fetchKey c; Some (cd_Attached out ++ [fk_Source fk]));
  Some (MkCandidate (cd_Datasource out) attached (cd_Strongest out)
    (MkInstr (instr_Class (cd_Instr out)) (foldl append_unique (instr_Identifiers (cd_Instr out)) (cl_Identifiers c))
       (foldl (combine_listing (cl_Listings c)) (instr_Listings (cd_Instr out)) (sorted_keys (cl_Listings c))))).

(** The outer option is a nil dereference, the inner one [false]. *)
Definition candidateOf (a : list identityClaim) : option (option Candidate) :=
  h ← set_head a;
  match strongest h with
  | None => Some None
  | Some s =>
      fk ← cl_fetchKey h;
      let class := if bool_decide (cl_Class h = AssetClassNone) then AssetClassUnknown else cl_Class h in
      Some <$> opt_fold (combine_claim h) (MkCandidate (fk_Source fk) [] s (MkInstr class [] ∅)) a
  end.

(** [Offer], and the loop of [Candidates] that fills it. *)
Record Offer : Type := MkOffer {
  of_Candidates : list Candidate;
  of_Reasons : list string;
}.

Definition offer_step (o : Offer) (a : list identityClaim) : option Offer :=
  if negb (confirmable a) then
    h ← set_head a;
    why ← unstableReason h;
    Some (MkOffer (of_Candidates o) (of_Reasons o ++ [why]))
  else
    c ← candidateOf a;
    Some (match c with Some c => MkOffer (of_Candidates o ++ [c]) (of_Reasons o) | None => o end).

(** [Candidates], of a resolution [prepare] returned: the offer and the
    findings it writes. *)
Definition Candidates (r : resolution) : option (Offer * list CreateFindingParams) :=
  let start := if bool_decide (rs_outcome r = ResolutionOutcomeNone) then [] else reasons (rs_reason r) in
  '(cs, dropped, unserved) ← offeredClaims r;
  sets ← gatherConsistentClaims r cs;
  o ← opt_fold offer_step (MkOffer [] (start ++ unserved)) sets;
  Some (o, rs_findings r ++ dropped).

(** * What the choice decides *)

(** [c] does not contradict what the key states. *)
Definition agrees (res : resolution) (c : identityClaim) : bool :=
  match contradicted c res with Some None => true | _ => false end.

(** [c] contradicts no claim of [chosen] and corroborates the first. *)
Definition fits (mics : MICMap) (chosen : list identityClaim) (c : identityClaim) : bool :=
  forallb (fun o => bool_decide (inconsistent c o = None)) chosen
  && match chosen with o :: _ => corroborates c o mics | [] => true end.

(** The identifier sent is a venue ticker the provider filtered bare, and no
    claim names the venue. *)
Definition ambiguous (fk : fetchKey) (gs : list identityClaim) : bool :=
  match fk_SentID fk with
  | Some sent =>
      IsGlobal sent && negb (existsb claim_named gs) && bool_decide (id_Type sent = IdentifierTypeMicTicker)
      && contains (ir_Filtered (fk_Response fk)) (MkIdentifier IdentifierTypeMicTicker "" (id_Value sent))
  | None => false
  end.

Lemma against_some res c fk : cl_fetchKey c = Some fk ->
  exists d, against c res = Some d /\ (bool_decide (d = None) = agrees res c).
Proof.
  intros Hc. unfold against, agrees, contradicted. rewrite Hc. simpl. eexists; split; [reflexivity |].
  by repeat case_match; simplify_eq.
Qed.

Lemma first_inconsistent_None c chosen :
  bool_decide (first_inconsistent c chosen = None) = forallb (fun o => bool_decide (inconsistent c o = None)) chosen.
Proof.
  unfold first_inconsistent. induction chosen as [|o os IH]; simpl; [done |].
  destruct (inconsistent c o); simpl; [done | exact IH].
Qed.

Lemma rejects_some c chosen mics fk : cl_fetchKey c = Some fk ->
  exists f, rejects c chosen mics = Some f /\ bool_decide (f = None) = fits mics chosen c.
Proof.
  intros Hc. unfold rejects, fits. rewrite <- first_inconsistent_None, Hc. simpl.
  destruct (first_inconsistent c chosen) as [[o d]|]; [by eexists |].
  destruct chosen as [|o os]; [by eexists |]. destruct (corroborates c o mics); by eexists.
Qed.

(** ** The claims of one response *)

(** What [filterAlternatives] makes of a response, in terms of its claims. *)
Lemma filterAlternatives_some fk res confirmed sent :
  fk_SentID fk = Some sent ->
  exists gs alts, claims fk (rs_families res) = Some gs /\ filterAlternatives fk res confirmed = Some alts /\
    al_fallback alts = ambiguous fk gs /\ al_count alts = length gs /\
    al_survivors alts = List.filter (fun c => agrees res c &&
      (if IsGlobal sent then claim_named c || ambiguous fk gs else confirmed)) gs /\
    al_offered alts = List.filter (fun c => agrees res c && negb (IsGlobal sent) && negb confirmed) gs.
Proof.
  intros Hs. unfold filterAlternatives, ambiguous. rewrite Hs. simpl.
  destruct (claims_form fk (rs_families res)) as (roots & _ & _ & Hgs). destruct (claims fk (rs_families res)) as [gs|] eqn:Eg; [| done].
  clear Hgs. simpl. exists gs. set (fb := IsGlobal sent && negb (existsb claim_named gs) && _ && _).
  assert (forall l ss os nn fs, (forall c, c ∈ l -> cl_fetchKey c = Some fk) -> exists nn' fs',
    opt_fold (alternative_step fk res (IsGlobal sent) confirmed) (MkAlternatives (length gs) ss os fb nn fs) l =
    Some (MkAlternatives (length gs)
      (ss ++ List.filter (fun c => agrees res c && (if IsGlobal sent then claim_named c || fb else confirmed)) l)
      (os ++ List.filter (fun c => agrees res c && negb (IsGlobal sent) && negb confirmed) l) fb nn' fs')) as Hloop.
  { induction l as [|c l IH]; intros ss os nn fs Hl; simpl; [rewrite !app_nil_r; eauto |].
    assert (forall c, c ∈ l -> cl_fetchKey c = Some fk) as Hl' by (intros; apply Hl; by right).
    destruct (against_some res c fk (Hl c ltac:(left))) as (d & Hd & Hag). rewrite Hd. simpl.
    destruct (IsGlobal sent) eqn:Eglob, confirmed; simpl; rewrite <- Hag.
    all: try (destruct (claim_named c || fb) eqn:En; [assert (negb (claim_named c) && negb fb = false) as -> by
           (by apply orb_true_iff in En as [->| ->]; rewrite ?andb_false_r) |
         apply orb_false_iff in En as [-> ->]; simpl]).
    all: rewrite ?andb_false_r, ?andb_true_r; destruct d; simpl.
    all: edestruct IH as (nn' & fs' & ->); [done |]; rewrite <- ?app_assoc; simpl; eauto. }
  destruct (Hloop gs [] [] 0%nat []) as (nn & fs & E).
  { intros c [k Hk]%list_elem_of_lookup. by eapply claims_place. }
  eexists. split; [done |]. split; [exact E |]. done.
Qed.

(** A claim of [fk] that may be chosen below [chosen]: it names the identifier
    sent, it agrees with what the key states, it is consistent with the claims
    above it and it corroborates the first of them. *)
Definition eligible (res : resolution) (fk : fetchKey) (confirmed : bool) (chosen gs : list identityClaim) (c : identityClaim) : bool :=
  agrees res c
  && match fk_SentID fk with
     | Some sent => if IsGlobal sent then claim_named c || ambiguous fk gs else confirmed
     | None => false
     end
  && fits (rs_mics res) chosen c.

Lemma filter_filter {A} (f g : A -> bool) l : List.filter f (List.filter g l) = List.filter (fun x => g x && f x) l.
Proof. induction l as [|x l IH]; simpl; [done |]. destruct (g x); simpl; by rewrite IH. Qed.

Lemma sieve_some chosen mics ss fs l : (forall c, c ∈ l -> is_Some (cl_fetchKey c)) ->
  exists fs', opt_fold (sieve_step chosen mics) (ss, fs) l = Some (ss ++ List.filter (fits mics chosen) l, fs').
Proof.
  revert ss fs. induction l as [|c l IH]; intros ss fs Hl; simpl; [rewrite app_nil_r; eauto |].
  destruct (Hl c ltac:(left)) as [fk Hc]. destruct (rejects_some c chosen mics fk Hc) as (f & Hf & Hfit).
  unfold sieve_step at 1. rewrite Hf. simpl. rewrite <- Hfit.
  destruct f; simpl; edestruct IH as (fs' & ->); try (intros; apply Hl; by right); rewrite <- ?app_assoc; eauto.
Qed.

(** The best of the eligible claims [es]. *)
Definition best_of (res : resolution) (fk : fetchKey) (chosen gs es : list identityClaim) : option identityClaim :=
  if ambiguous fk gs && bool_decide (chosen = []) && (1 <? length es)%nat then None
  else head (sort_func (rank res) es).

Lemma bestClaim_some v fk res chosen sent :
  fk_SentID fk = Some sent ->
  exists gs v' more, claims fk (rs_families res) = Some gs /\
    let es := List.filter (eligible res fk (vd_confirmed v) chosen gs) gs in
    bestClaim v fk res chosen = Some (v', best_of res fk chosen gs es, more) /\
    vd_winner v' = vd_winner v /\ vd_attached v' = vd_attached v /\ vd_confirmed v' = vd_confirmed v /\
    vd_refused v' = vd_refused v /\
    more = List.filter (fun c => agrees res c && negb (IsGlobal sent) && negb (vd_confirmed v)) gs ++
           (if ambiguous fk gs && bool_decide (chosen = []) && (1 <? length es)%nat then es else []).
Proof.
  intros Hs. destruct (filterAlternatives_some fk res (vd_confirmed v) sent Hs) as (gs & alts & Hgs & Ha & Hfb & _ & Hsu & Ho).
  exists gs. set (es := List.filter _ gs).
  destruct (sieve_some chosen (rs_mics res) [] [] (al_survivors alts)) as (fs' & Hsv).
  { intros c. rewrite Hsu, elem_of_lfilter. intros [[k Hk]%list_elem_of_lookup _].
    destruct (claims_place _ _ _ _ _ Hgs Hk) as [-> _]. eauto. }
  assert (List.filter (fits (rs_mics res) chosen) (al_survivors alts) = es) as Hes.
  { rewrite Hsu, filter_filter. unfold es, eligible. by rewrite Hs. }
  unfold bestClaim. rewrite Hs, Ha. simpl. rewrite Hsv. simpl. rewrite Hes, Hfb. unfold best_of.
  destruct es as [|e es'] eqn:Ee.
  - eexists _, _. split; [done |]. simpl. rewrite andb_false_r. split; [done |]. repeat (split; [done |]). by rewrite app_nil_r, Ho.
  - assert (negb (bool_decide (es' = [])) = (1 <? length (e :: es'))%nat) as -> by by destruct es'.
    destruct (ambiguous fk gs && bool_decide (chosen = []) && _); eexists _, _; (split; [done |]); split; try reflexivity;
      repeat (split; [done |]); rewrite Ho; by rewrite ?app_nil_r.
Qed.

(** ** The loop over the fetch keys *)

(** What a fetch key gives a resolution below the claims [chosen]. *)
Definition picked (res : resolution) (confirmed : bool) (fk : fetchKey) (chosen : list identityClaim) (p : option identityClaim) : Prop :=
  match fk_SentID fk with
  | None => p = None
  | Some _ => exists gs, claims fk (rs_families res) = Some gs /\
      p = best_of res fk chosen gs (List.filter (eligible res fk confirmed chosen gs) gs)
  end.

Lemma gather_joined_some res group out :
  (forall c, c ∈ group -> is_Some (cl_fetchKey c)) ->
  exists out' joined, gather_joined res group out = Some (out', joined).
Proof.
  intros Hg. induction out as [|a out (out' & joined & IH)]; simpl; [eauto |].
  assert (exists best, opt_fold (best_member_step res a) None group = Some best) as (best & ->).
  { destruct (opt_fold_inv (fun _ _ => True) (best_member_step res a) None group) as (best & Hb & _); [done | | eauto].
    intros seen best c _ Hc _. destruct (Hg c Hc) as [fk Hfk]. destruct (rejects_some c a (rs_mics res) fk Hfk) as (f & Hf & _).
    unfold best_member_step. rewrite Hf. simpl. eauto. }
  simpl. rewrite IH. simpl. destruct best; eauto.
Qed.

Lemma span_prefix_app {A} (f : A -> bool) l g r : span_prefix f l = (g, r) -> l = g ++ r.
Proof.
  revert g r. induction l as [|x l IH]; intros g r; simpl; [by intros [= <- <-] |].
  destruct (f x); [| by intros [= <- <-]]. destruct (span_prefix f l) as [g' r']. intros [= <- <-]. simpl. by rewrite <- (IH g' r').
Qed.

Lemma gather_some res cs : (forall c, c ∈ cs -> is_Some (cl_fetchKey c)) ->
  exists sets, gatherConsistentClaims res cs = Some sets.
Proof.
  unfold gatherConsistentClaims. intros Hcs.
  assert (forall fuel out cs, (forall c, c ∈ cs -> is_Some (cl_fetchKey c)) -> (length cs <= fuel)%nat ->
    exists sets, gather_loop res fuel out cs = Some sets) as Hgen; [| by apply Hgen].
  clear cs Hcs. induction fuel as [|fuel IH]; intros out [|c cs] Hcs Hlen; simpl in *; eauto; [lia |].
  destruct (span_prefix (same_fetchKey c) cs) as [g rest] eqn:Es. apply span_prefix_app in Es as ->.
  destruct (gather_joined_some res (c :: g) out) as (out' & joined & ->).
  { intros d Hd. apply Hcs. rewrite elem_of_cons in *. rewrite elem_of_app. naive_solver. }
  simpl. apply IH.
  - intros d Hd. apply Hcs. right. apply elem_of_app. by right.
  - rewrite length_app in Hlen. lia.
Qed.

Lemma omap_id_snoc {A} (l : list (option A)) x : omap id (l ++ [x]) = omap id l ++ option_list x.
Proof. rewrite omap_app. simpl. by destruct x. Qed.

(** The state of the loop once it has taken the fetch keys [fks], where the
    user chose nothing. *)
Record chose (res : resolution) (known : option identityClaim) (fks : list fetchKey) (st : choosing) (picks : list (option identityClaim)) : Prop := {
  chose_confirmed : vd_confirmed (ch_verdict st) = false;
  chose_refused : vd_refused (ch_verdict st) = ""%string;
  chose_chosen : ch_chosen st = option_list known ++ omap id picks;
  chose_attached : vd_attached (ch_verdict st) = omap id picks;
  chose_winner : vd_winner (ch_verdict st) = head (option_list known ++ omap id picks);
  chose_offered c : c ∈ ch_offered st -> is_Some (cl_fetchKey c);
  chose_length : length picks = length fks;
  chose_picks n fk p : fks !! n = Some fk -> picks !! n = Some p ->
    picked res false fk (option_list known ++ omap id (take n picks)) p;
}.

Lemma head_snoc {A} (l : list A) x : head (l ++ [x]) = match head l with Some y => Some y | None => Some x end.
Proof. by destruct l. Qed.

Lemma choose_step_chose res known fks st picks fk :
  chose res known fks st picks ->
  exists st' p, choose_step res [] st fk = Some st' /\ chose res known (fks ++ [fk]) st' (picks ++ [p]).
Proof.
  intros [Hc Hr Hch Ha Hw Ho Hlen Hp].
  assert (forall v' best more, vd_winner v' = vd_winner (ch_verdict st) -> vd_attached v' = vd_attached (ch_verdict st) ->
    vd_confirmed v' = false -> vd_refused v' = ""%string -> (forall c, c ∈ more -> is_Some (cl_fetchKey c)) ->
    picked res false fk (ch_chosen st) best ->
    let st1 := MkChoosing v' (ch_chosen st) (ch_offered st ++ more) in
    chose res known (fks ++ [fk]) (match best with Some b => ch_attach st1 b | None => st1 end) (picks ++ [best])) as Hnext.
  { intros v' best more Hw' Ha' Hc' Hr' Hmore Hbest st1.
    assert (forall c, c ∈ ch_offered st1 -> is_Some (cl_fetchKey c)) as Ho1 by (simpl; intros c [?|?]%elem_of_app; auto).
    assert (forall n fk' p, (fks ++ [fk]) !! n = Some fk' -> (picks ++ [best]) !! n = Some p ->
      picked res false fk' (option_list known ++ omap id (take n (picks ++ [best]))) p) as Hp1.
    { intros n fk' p Hn Hn'. apply lookup_snoc_Some in Hn as [[Hlt Hn]|[-> <-]].
      - rewrite lookup_app_l in Hn' by lia. rewrite take_app_le by lia. by apply Hp.
      - rewrite <- Hlen, list_lookup_middle in Hn' by done. simplify_eq. rewrite <- Hlen, take_app_length. by rewrite <- Hch. }
    destruct best as [b|]; split; simpl; rewrite ?Hw', ?Ha', ?Hch, ?Ha, ?omap_id_snoc, ?length_app; simpl; rewrite ?app_nil_r, ?app_assoc; try done; try lia.
    by rewrite head_snoc, Hw. }
  unfold choose_step. simpl. destruct (fk_SentID fk) as [sent|] eqn:Es.
  - destruct (bestClaim_some (ch_verdict st) fk res (ch_chosen st) sent Es) as (gs & v' & more & Hgs & E & E1 & E2 & E3 & E4 & E5).
    rewrite Hc in E, E5. rewrite E. simpl. revert E E5. set (p := best_of _ _ _ _ _). intros E E5.
    eexists _, p. split; cycle 1; [apply (Hnext v' p more); try congruence | by destruct p].
    + rewrite E5. intros c [[Hin _]%elem_of_lfilter|Hin]%elem_of_app.
      * apply list_elem_of_lookup in Hin as [k Hk]. destruct (claims_place _ _ _ _ _ Hgs Hk) as [-> _]. eauto.
      * case_match; [| by apply not_elem_of_nil in Hin]. apply elem_of_lfilter in Hin as [Hin _].
        apply list_elem_of_lookup in Hin as [k Hk]. destruct (claims_place _ _ _ _ _ Hgs Hk) as [-> _]. eauto.
    + unfold picked. rewrite Es. eauto.
  - unfold bestClaim. rewrite Es. simpl. eexists _, _. split; [reflexivity |].
    apply (Hnext (ch_verdict st) None []); try done; [by intros c []%not_elem_of_nil |]. unfold picked. by rewrite Es.
Qed.

Lemma choose_loop_chose res known fks st picks rest :
  chose res known fks st picks ->
  exists st' picks', opt_fold (choose_step res []) st rest = Some st' /\ chose res known (fks ++ rest) st' picks'.
Proof.
  revert fks st picks. induction rest as [|fk rest IH]; intros fks st picks Hst; simpl.
  - rewrite app_nil_r. eauto.
  - destruct (choose_step_chose res known fks st picks fk Hst) as (st1 & p & -> & Hst1).
    destruct (IH _ _ _ Hst1) as (st2 & picks2 & -> & Hst2). rewrite <- app_assoc in Hst2. eauto.
Qed.

Lemma best_of_elem res fk chosen gs es c : best_of res fk chosen gs es = Some c -> c ∈ es.
Proof.
  unfold best_of. case_match; [done |]. intros Hh. apply (elem_of_sort_func (rank res)).
  destruct (sort_func (rank res) es); simpl in Hh; simplify_eq. by left.
Qed.

(** ** What a verdict is made of *)

(** The findings of the choice: each is of a claim of one of the fetch keys. *)
Definition found_by (fks : list fetchKey) (f : CreateFindingParams) : Prop :=
  exists fk kind step detail, fk ∈ fks /\ f = finding fk kind step detail /\ kind ∈ [FindingKindDropped; FindingKindContradiction].

Lemma dropped_found fks fk step detail : fk ∈ fks -> found_by fks (dropped fk step detail).
Proof. intros Hfk. exists fk, FindingKindDropped, step, detail. split; [done |]. split; [done | by left]. Qed.

Lemma rejects_found c chosen mics fk fks f : cl_fetchKey c = Some fk -> fk ∈ fks -> rejects c chosen mics = Some (Some f) -> found_by fks f.
Proof.
  intros Hfk Hin. unfold rejects. rewrite Hfk. simpl. destruct (first_inconsistent c chosen) as [[o detail]|].
  - intros [= <-]. eexists fk, _, _, _. split; [done |]. split; [done |]. case_bool_decide; [right; left | left].
  - destruct chosen as [|o ?]; [done |]. destruct (corroborates _ _ _); [done |]. intros [= <-]. by apply dropped_found.
Qed.

Lemma filterAlternatives_found fk res confirmed alts : filterAlternatives fk res confirmed = Some alts -> Forall (found_by [fk]) (al_findings alts).
Proof.
  unfold filterAlternatives. destruct (fk_SentID fk) as [sent|]; [| done]. simpl. destruct (claims fk (rs_families res)) as [gs|] eqn:Eg; [| done]. simpl.
  apply (opt_fold_preserve (fun a => Forall (found_by [fk]) (al_findings a))); [constructor |].
  intros [n ss os fb nn fs] c alts' Hc Hfs. unfold alternative_step. simpl in *.
  destruct (negb _ && negb _); [destruct (against c res) as [bad|]; [| done]; by intros [= <-] |].
  destruct (_ && _ && _); [by intros [= <-] |]. destruct (against c res) as [[detail|]|]; [| | done]; simpl; intros [= <-]; simpl; [| done].
  apply Forall_app. split; [done |]. apply Forall_singleton, dropped_found. by left.
Qed.

Lemma sieve_found chosen mics fk l st : (forall c, c ∈ l -> cl_fetchKey c = Some fk) -> opt_fold (sieve_step chosen mics) ([], []) l = Some st ->
  Forall (found_by [fk]) st.2.
Proof.
  intros Hl. apply (opt_fold_preserve (fun st => Forall (found_by [fk]) st.2)); [constructor |]. intros st0 c st1 Hc Hfs. unfold sieve_step.
  destruct (rejects c chosen mics) as [[f|]|] eqn:Er; [| | done]; simpl; intros [= <-]; simpl; [| done]. apply Forall_app. split; [done |].
  apply Forall_singleton. eapply rejects_found; [by apply Hl | by left | exact Er].
Qed.

Lemma bestClaim_found v fk res chosen r : bestClaim v fk res chosen = Some r ->
  exists fs, vd_findings r.1.1 = vd_findings v ++ fs /\ Forall (found_by [fk]) fs.
Proof.
  unfold bestClaim. destruct (fk_SentID fk) as [sent|] eqn:Es; [| intros [= <-]; exists []; simpl; by rewrite app_nil_r].
  destruct (filterAlternatives_some fk res (vd_confirmed v) sent Es) as (gs & alts & Hgs & Ef & _ & _ & Hsurv & _). rewrite Ef. simpl.
  destruct (opt_fold _ _ _) as [[survivors fs]|] eqn:Ev; [| done]. simpl.
  assert (Forall (found_by [fk]) fs) as Hfs.
  { apply (sieve_found chosen (rs_mics res) fk (al_survivors alts) _) in Ev; [done |]. intros c. rewrite Hsurv. intros [Hc _]%elem_of_lfilter.
    apply list_elem_of_lookup in Hc as [k Hk]. by destruct (claims_place _ _ _ _ _ Hgs Hk). }
  pose proof (filterAlternatives_found fk res _ _ Ef) as Hal. intros Hr. exists (al_findings alts ++ fs). split; [| by apply Forall_app].
  rewrite app_assoc. destruct survivors as [|s ss]; [by injection Hr as <- |]. by destruct (_ && _ && _); injection Hr as <-.
Qed.

Lemma choose_step_found res fks st fk st' : fk ∈ fks -> choose_step res [] st fk = Some st' -> Forall (found_by fks) (vd_findings (ch_verdict st)) ->
  Forall (found_by fks) (vd_findings (ch_verdict st')).
Proof.
  intros Hfk. unfold choose_step. simpl. destruct (bestClaim _ _ _ _) as [[[v best] more]|] eqn:Eb; [| done]. simpl.
  destruct (bestClaim_found _ _ _ _ _ Eb) as (fs & Hv & Hfs). simpl in Hv. intros [= <-] Hst.
  assert (Forall (found_by fks) (vd_findings v)) as Hall.
  { rewrite Hv. apply Forall_app. split; [done |]. eapply Forall_impl; [exact Hfs |].
    intros f (fk' & kind & step & detail & ->%list_elem_of_singleton & Hf). by exists fk, kind, step, detail. }
  by destruct best.
Qed.

Lemma keys_sublist {A B} (f : A -> option B) : forall (fks : list B) (picks : list (option A)), length picks = length fks ->
  (forall n fk c, fks !! n = Some fk -> picks !! n = Some (Some c) -> f c = Some fk) -> omap f (omap id picks) `sublist_of` fks.
Proof.
  induction fks as [|fk fks IH]; intros [|p picks] Hl H; simpl in *; try done. injection Hl as Hl.
  assert (omap f (omap id picks) `sublist_of` fks) as Hsub by (apply IH; [done |]; intros n; apply (H (S n))).
  destruct p as [c|]; simpl; [| by apply sublist_cons]. rewrite (H 0%nat fk c) by done. by apply sublist_skip.
Qed.

(** What the loop leaves is the verdict, with the sets it offers. *)
Lemma choose_chose res known :
  exists st picks offered, choose res known [] = Some (vd_offer (ch_verdict st) offered) /\ chose res known (rs_fetchKeys res) st picks /\
    opt_fold (choose_step res []) (MkChoosing (MkVerdict known false "" [] [] ∅ ∅ []) (option_list known) []) (rs_fetchKeys res) = Some st.
Proof.
  set (st0 := MkChoosing (MkVerdict known false "" [] [] ∅ ∅ []) (option_list known) []).
  assert (chose res known [] st0 []) as H0.
  { split; simpl; try done; try (by destruct known). by intros c []%not_elem_of_nil. }
  destruct (choose_loop_chose res known [] st0 [] (rs_fetchKeys res) H0) as (st & picks & E & Hch).
  destruct (gather_some res (ch_offered st) (chose_offered _ _ _ _ _ Hch)) as [sets Hsets].
  exists st, picks, (List.filter confirmable sets). split; [| done]. unfold choose. simpl.
  change (MkChoosing _ _ _) with st0. rewrite E. simpl. by rewrite Hsets.
Qed.

(** The choice always answers, where the user chose nothing: its claims are of
    the fetch keys, one of each at most. *)
Lemma choose_run res known : exists v, choose res known [] = Some v /\ vd_refused v = ""%string /\
  vd_winner v = head (option_list known ++ vd_attached v) /\
  (forall c, c ∈ vd_attached v -> exists fk gs, fk ∈ rs_fetchKeys res /\ cl_fetchKey c = Some fk /\ claims fk (rs_families res) = Some gs /\ c ∈ gs) /\
  omap cl_fetchKey (vd_attached v) `sublist_of` rs_fetchKeys res /\ Forall (found_by (rs_fetchKeys res)) (vd_findings v).
Proof.
  destruct (choose_chose res known) as (st & picks & offered & -> & [Hc Hr Hch Ha Hw Ho Hlen Hp] & E). eexists. split; [reflexivity |]. simpl.
  assert (forall n fk c, rs_fetchKeys res !! n = Some fk -> picks !! n = Some (Some c) -> cl_fetchKey c = Some fk /\
    exists gs, claims fk (rs_families res) = Some gs /\ c ∈ gs) as Hpick.
  { intros n fk c Hn Hnc. specialize (Hp n fk _ Hn Hnc). unfold picked in Hp. destruct (fk_SentID fk); [| done]. destruct Hp as (gs & Hgs & Hb).
    symmetry in Hb. apply best_of_elem, elem_of_lfilter in Hb as [Hin _]. split; [| by exists gs].
    apply list_elem_of_lookup in Hin as [k Hk]. by destruct (claims_place _ _ _ _ _ Hgs Hk). }
  split; [done |]. split; [by rewrite Hw, Ha |]. rewrite Ha. split; [| split].
  - intros c (p & Hin & Hpc)%list_elem_of_omap. change (p = Some c) in Hpc. subst p. apply list_elem_of_lookup in Hin as [n Hn].
    destruct (lookup_lt_is_Some_2 (rs_fetchKeys res) n) as [fk Hfk]; [rewrite <- Hlen; by eapply lookup_lt_Some |].
    destruct (Hpick n fk c Hfk Hn) as (Hck & gs & Hgs & Hin). exists fk, gs. split; [by eapply list_elem_of_lookup_2 | done].
  - apply keys_sublist; [done |]. intros n fk c Hn Hnc. by apply (Hpick n fk c).
  - refine (opt_fold_preserve (fun st => Forall (found_by (rs_fetchKeys res)) (vd_findings (ch_verdict st))) _ _ _ _ _ _ E); [constructor |].
    intros s fk s' Hfk Hs Hstep. by eapply choose_step_found.
Qed.



(** The claims chosen so far are consistent, each with those above it, and
    those below the first corroborate it, the head of the user's choice
    apart. *)
Record consistent (res : resolution) (known h : option identityClaim) (st : choosing) : Prop := {
  cs_chosen : ch_chosen st = option_list known ++ vd_attached (ch_verdict st);
  cs_winner : vd_winner (ch_verdict st) = head (ch_chosen st);
  cs_pairs i j a c : (i < j)%nat -> ch_chosen st !! i = Some a -> ch_chosen st !! j = Some c -> inconsistent c a = None;
  cs_corroborate j c o : (0 < j)%nat -> ch_chosen st !! j = Some c -> head (ch_chosen st) = Some o ->
    corroborates c o (rs_mics res) = true \/ h = Some c;
  cs_offered c : c ∈ ch_offered st -> is_Some (cl_fetchKey c);
}.

(** A step that changes the findings, the counts and the offered claims. *)
Lemma consistent_same res known h st v' more :
  consistent res known h st -> vd_winner v' = vd_winner (ch_verdict st) -> vd_attached v' = vd_attached (ch_verdict st) ->
  (forall c, c ∈ more -> is_Some (cl_fetchKey c)) ->
  consistent res known h (MkChoosing v' (ch_chosen st) (ch_offered st ++ more)).
Proof.
  intros [Hc Hw Hp Hco Ho] Ew Ea Hmore. split; simpl; rewrite ?Ew, ?Ea; try done.
  intros c [?|?]%elem_of_app; auto.
Qed.

Lemma consistent_attach res known h st c :
  consistent res known h st ->
  (forall o, o ∈ ch_chosen st -> inconsistent c o = None) ->
  (forall o, head (ch_chosen st) = Some o -> corroborates c o (rs_mics res) = true \/ h = Some c) ->
  consistent res known h (ch_attach st c).
Proof.
  intros [Hc Hw Hp Hco Ho] Hin Hcorr. split; simpl.
  - by rewrite Hc, app_assoc.
  - by rewrite head_snoc, Hw.
  - intros i j a d Hij Hi Hj. apply lookup_snoc_Some in Hj as [[Hjl Hj]|[-> <-]].
    + rewrite lookup_app_l in Hi by lia. eauto.
    + rewrite lookup_app_l in Hi by lia. by apply Hin, (list_elem_of_lookup_2 _ i).
  - intros j d o Hj Hd Ho'. rewrite head_snoc in Ho'. apply lookup_snoc_Some in Hd as [[Hjl Hd]|[-> <-]].
    + destruct (ch_chosen st) as [|o' os]; [done |]. simpl in *. simplify_eq. by apply (Hco j d o).
    + destruct (ch_chosen st) as [|o' os]; [simpl in Hj; lia |]. simpl in *. simplify_eq. auto.
  - done.
Qed.

Lemma fits_spec mics chosen c :
  fits mics chosen c = true <->
  (forall o, o ∈ chosen -> inconsistent c o = None) /\ (forall o, head chosen = Some o -> corroborates c o mics = true).
Proof.
  unfold fits. rewrite andb_true_iff, forallb_elem. setoid_rewrite bool_decide_eq_true.
  destruct chosen as [|o os]; simpl; [naive_solver |]. split; [| naive_solver]. intros [H1 H2]. split; [done |]. by intros ? [= <-].
Qed.

Lemma choose_step_consistent res known uc st fk :
  (forall c, c ∈ uc -> is_Some (cl_fetchKey c)) -> consistent res known (head uc) st ->
  exists st', choose_step res uc st fk = Some st' /\ consistent res known (head uc) st'.
Proof.
  intros Huc Hst. unfold choose_step. destruct (member uc fk) as [m|] eqn:Em.
  - case_match; [eauto |]. apply find_some in Em as [Hm%list_elem_of_In _]. destruct (Huc m Hm) as [fm Hfm].
    destruct (rejects_some m (ch_chosen st) (rs_mics res) fm Hfm) as (f & -> & Hf). simpl. eexists; split; [reflexivity |].
    destruct f as [f|].
    + replace (ch_offered st) with (ch_offered st ++ []) by apply app_nil_r.
      apply consistent_same; try done. by intros c []%not_elem_of_nil.
    + symmetry in Hf. apply fits_spec in Hf as [Hf1 Hf2]. apply consistent_attach; auto.
  - destruct (fk_SentID fk) as [sent|] eqn:Es.
    + destruct (bestClaim_some (ch_verdict st) fk res (ch_chosen st) sent Es) as (gs & v' & more & Hgs & E & E1 & E2 & _ & _ & E5).
      rewrite E. simpl. eexists; split; [reflexivity |].
      assert (forall c, c ∈ gs -> is_Some (cl_fetchKey c)) as Hgk.
      { intros c [k Hk]%list_elem_of_lookup. destruct (claims_place _ _ _ _ _ Hgs Hk) as [-> _]. eauto. }
      pose proof (consistent_same res known (head uc) st v' more Hst E1 E2) as Hst1.
      destruct Hst1 as [H1 H2 H3 H4 H5].
      { intros c. rewrite E5, elem_of_app, elem_of_lfilter. intros [[Hin _]|Hin]; [by apply Hgk |].
        case_match; [| by apply not_elem_of_nil in Hin]. apply elem_of_lfilter in Hin as [Hin _]. by apply Hgk. }
      destruct (best_of _ _ _ _ _) as [b|] eqn:Eb; [| by split]. destruct uc; [| by split].
      apply best_of_elem, elem_of_lfilter in Eb as [_ Hel]. unfold eligible in Hel.
      apply andb_true_iff in Hel as [_ [Hf1 Hf2]%fits_spec]. apply consistent_attach; [by split | done | auto].
    + unfold bestClaim. rewrite Es. simpl. eexists; split; [reflexivity |]. apply consistent_same; try done. by intros c []%not_elem_of_nil.
Qed.

(** A step only adds to the claims attached. *)
Lemma choose_step_prefix res uc st fk st' :
  choose_step res uc st fk = Some st' ->
  exists tail, vd_attached (ch_verdict st') = vd_attached (ch_verdict st) ++ tail.
Proof.
  unfold choose_step. destruct (member uc fk) as [m|].
  - case_match; [intros [= <-]; exists []; by rewrite app_nil_r |].
    destruct (rejects m _ _) as [[f|]|]; simpl; intros [= <-]; [exists []; by rewrite app_nil_r | by exists [m]].
  - destruct (fk_SentID fk) as [sent|] eqn:Es.
    + destruct (bestClaim_some (ch_verdict st) fk res (ch_chosen st) sent Es) as (gs & v' & more & Hgs & -> & _ & E2 & _).
      simpl. intros [= <-]. destruct (best_of _ _ _ _ _) as [b|]; [destruct uc |]; simpl; rewrite E2;
        (by exists [b]) || (exists []; by rewrite app_nil_r).
    + unfold bestClaim. rewrite Es. simpl. intros [= <-]. exists []. simpl. by rewrite app_nil_r.
Qed.

Lemma choose_loop_consistent res known uc st fks :
  (forall c, c ∈ uc -> is_Some (cl_fetchKey c)) -> consistent res known (head uc) st ->
  exists st' tail, opt_fold (choose_step res uc) st fks = Some st' /\ consistent res known (head uc) st' /\
    vd_attached (ch_verdict st') = vd_attached (ch_verdict st) ++ tail.
Proof.
  intros Huc Hst.
  destruct (opt_fold_inv (fun _ s => consistent res known (head uc) s /\
    exists tail, vd_attached (ch_verdict s) = vd_attached (ch_verdict st) ++ tail) (choose_step res uc) st fks) as (st' & E & Hst' & tail & Ht).
  - split; [done |]. exists []. by rewrite app_nil_r.
  - intros seen s fk _ _ [Hs [tl Htl]]. destruct (choose_step_consistent res known uc s fk Huc Hs) as (s' & E & Hs').
    exists s'. split; [done |]. split; [done |]. destruct (choose_step_prefix _ _ _ _ _ E) as [tl' Htl'].
    exists (tl ++ tl'). by rewrite Htl', Htl, app_assoc.
  - eauto.
Qed.

(** C32: [choose] returns a verdict for every resolution. The claims it attaches
    below the database's claim are consistent: none contradicts a claim chosen
    above it, and each below the winner corroborates the winner, the head of
    the user's choice apart. The winner is the database's claim, or else the
    first claim attached. Where the head of the user's choice contradicts what
    the key states or the database's claim, nothing is attached. *)
Theorem choose_consistent res known uc :
  (forall c, c ∈ uc -> is_Some (cl_fetchKey c)) ->
  exists v, choose res known uc = Some v /\
    let chosen := option_list known ++ vd_attached v in
    vd_winner v = head chosen /\
    (forall i j a c, (i < j)%nat -> chosen !! i = Some a -> chosen !! j = Some c -> inconsistent c a = None) /\
    (forall j c o, (0 < j)%nat -> chosen !! j = Some c -> head chosen = Some o ->
       corroborates c o (rs_mics res) = true \/ head uc = Some c) /\
    (forall h, head uc = Some h ->
       vd_attached v = [] \/ head (vd_attached v) = Some h /\ agrees res h = true /\ (forall k, known = Some k -> inconsistent h k = None)).
Proof.
  intros Huc. unfold choose. set (v0 := MkVerdict _ _ _ _ _ _ _ _).
  set (st0 := MkChoosing v0 (match known with Some k => [k] | None => [] end) []).
  assert (consistent res known (head uc) st0) as H0.
  { destruct known as [k|]; split; simpl; try done; try (by intros ? ?%not_elem_of_nil).
    - intros i j a c Hij _ Hj. apply list_lookup_singleton_Some in Hj as [-> _]. lia.
    - intros j c o Hj Hc. apply list_lookup_singleton_Some in Hc as [-> _]. lia. }
  assert (forall st v sets, consistent res known (head uc) st -> v = vd_offer (ch_verdict st) sets ->
    let chosen := option_list known ++ vd_attached v in
    vd_winner v = head chosen /\
    (forall i j a c, (i < j)%nat -> chosen !! i = Some a -> chosen !! j = Some c -> inconsistent c a = None) /\
    (forall j c o, (0 < j)%nat -> chosen !! j = Some c -> head chosen = Some o ->
       corroborates c o (rs_mics res) = true \/ head uc = Some c)) as Hfin.
  { intros st v sets [Hc Hw Hp Hco _] -> chosen. subst chosen. simpl. rewrite <- Hc. split; [done |]. by split. }
  assert (forall st, consistent res known (head uc) st ->
    exists st' tail v, opt_fold (choose_step res uc) st (rs_fetchKeys res) = Some st' /\ consistent res known (head uc) st' /\
      vd_attached (ch_verdict st') = vd_attached (ch_verdict st) ++ tail /\
      (sets ← gatherConsistentClaims res (ch_offered st'); Some (vd_offer (ch_verdict st') (List.filter confirmable sets))) = Some v /\
      vd_attached v = vd_attached (ch_verdict st') /\ exists sets, v = vd_offer (ch_verdict st') sets) as Hrun.
  { intros st Hst. destruct (choose_loop_consistent res known uc st (rs_fetchKeys res) Huc Hst) as (st' & tail & E & Hst' & Ht).
    destruct (gather_some res (ch_offered st') (cs_offered _ _ _ _ Hst')) as [sets Hsets].
    exists st', tail. eexists. split; [done |]. split; [done |]. split; [done |]. rewrite Hsets. simpl. eauto. }
  destruct uc as [|h uc]; simpl.
  - destruct (Hrun st0 H0) as (st' & tail & v & -> & Hst' & _ & Hv & _ & sets & Hvs). simpl. exists v. split; [done |].
    destruct (Hfin st' v sets Hst' Hvs) as (F1 & F2 & F3). by repeat (split; [done |]).
  - destruct (Huc h ltac:(left)) as [fh Hfh]. unfold head_refused.
    destruct (against_some res h fh Hfh) as (bad & -> & Hbad). simpl. simpl in *.
    destruct (match bad with Some detail => Some (label h detail) | None => _ end) as [why|] eqn:Ewhy.
    + eexists. split; [reflexivity |]. destruct (Hfin st0 (vd_offer v0 []) [] H0 eq_refl) as (F1 & F2 & F3).
      split; [exact F1 |]. split; [exact F2 |]. split; [exact F3 |]. by left.
    + destruct bad; [done |]. symmetry in Hbad. rewrite bool_decide_true in Hbad by done.
      assert (forall k, known = Some k -> inconsistent h k = None) as Hk.
      { intros k ->. by destruct (inconsistent h k). }
      assert (consistent res known (Some h) (ch_attach st0 h)) as H1.
      { apply consistent_attach; [done | | by right]. intros o Ho. destruct known as [k|]; simpl in Ho;
          [apply list_elem_of_singleton in Ho as ->; by apply Hk | by apply not_elem_of_nil in Ho]. }
      destruct (Hrun _ H1) as (st' & tail & v & -> & Hst' & Htail & Hv & Hva & sets & Hvs). simpl. exists v. split; [done |].
      destruct (Hfin st' v sets Hst' Hvs) as (F1 & F2 & F3). split; [done |]. split; [done |]. split; [done |].
      intros h' [= <-]. right. rewrite Hva, Htail. done.
Qed.

(** ** The best claim *)

#[export] Instance rank_cmp res : GoCmp (rank res).
Proof.
  apply (cmp_ext _ (cmp_lex (cmp_on (fun c => if claim_named c then 0 else 1) Z.compare) (cmp_on (fun c => - confirms c res) Z.compare))).
  - intros a b. unfold rank, cmp_lex, cmp_or, cmp_on. rewrite <- Z.compare_opp.
    by destruct (claim_named a), (claim_named b).
  - apply _.
Qed.

Lemma claims_sorted fk families gs f : claims fk families = Some gs ->
  StronglySorted (fun c d => (cl_place c < cl_place d)%nat) (List.filter f gs).
Proof.
  intros Hgs. apply StronglySorted_lfilter.
  assert (forall k c, gs !! k = Some c -> cl_place c = (0 + k)%nat) as Hk by (intros k c Hc; by destruct (claims_place _ _ _ _ _ Hgs Hc)).
  revert Hk. generalize 0%nat. clear Hgs. induction gs as [|c gs IH]; intros n Hk; constructor.
  - apply (IH (S n)). intros k d Hd. rewrite (Hk (S k) d Hd). lia.
  - apply Forall_forall. intros d [k Hd]%list_elem_of_lookup. rewrite (Hk 0%nat c eq_refl), (Hk (S k) d Hd). lia.
Qed.

Lemma best_claim_spec res fk chosen gs f : claims fk (rs_families res) = Some gs ->
  let es := List.filter f gs in
  match best_of res fk chosen gs es with
  | Some c => c ∈ es /\ forall d, d ∈ es -> rank res c d = Lt \/ rank res c d = Eq /\ (cl_place c <= cl_place d)%nat
  | None => es = [] \/ ambiguous fk gs = true /\ chosen = [] /\ exists c d, c ∈ es /\ d ∈ es /\ c <> d
  end.
Proof.
  intros Hgs es. pose proof (claims_sorted _ _ _ f Hgs) as Hs. fold es in Hs. unfold best_of.
  destruct (ambiguous fk gs && _ && _) eqn:E.
  - right. apply andb_true_iff in E as [[Ha Hc%bool_decide_eq_true]%andb_true_iff Hl]. split; [done |]. split; [done |].
    destruct es as [|c [|d es']]; try done. exists c, d. repeat split; [by left | by right; left |]. intros ->.
    inversion Hs as [|? ? _ Hall]; subst. apply Forall_cons in Hall as [Hlt _]. lia.
  - destruct (sort_func (rank res) es) as [|c cs] eqn:Eh; simpl.
    + left. apply (f_equal length) in Eh. rewrite length_sort_func in Eh. by destruct es.
    + destruct (sort_func_head (rank res) es c cs Eh) as (Hc & Hle & k & Hk). split; [done |]. intros d Hd.
      pose proof (Hle d Hd) as Hcd. unfold cmp_le in Hcd. destruct (rank res c d) eqn:Er; [right | by left | done].
      split; [done |].
      assert (d ∈ c :: k) as Hin by (rewrite <- Hk; by apply list_elem_of_filter).
      apply elem_of_cons in Hin as [->|Hin]; [lia |].
      assert (StronglySorted (fun c d => (cl_place c < cl_place d)%nat) (c :: k)) as Hs'.
      { rewrite <- Hk. clear -Hs. induction Hs as [|x l Hl IH Hx]; [constructor |]. rewrite filter_cons. case_decide; [| done].
        constructor; [done |]. rewrite Forall_forall in *. intros y [_ Hy]%list_elem_of_filter. auto. }
      inversion Hs' as [|? ? _ Hall]; subst. rewrite Forall_forall in Hall. apply Hall in Hin. lia.
Qed.

(** The key of [fk] went out under a venue ticker that the provider filtered bare,
    and no claim of the response names it. *)
Definition filtered_bare (fk : fetchKey) (gs : list identityClaim) : Prop :=
  exists sent, fk_SentID fk = Some sent /\ IsGlobal sent = true /\ id_Type sent = IdentifierTypeMicTicker /\
    MkIdentifier IdentifierTypeMicTicker "" (id_Value sent) ∈ ir_Filtered (fk_Response fk) /\ forall c, c ∈ gs -> ~ names_sent c.

Lemma ambiguous_spec fk gs : ambiguous fk gs = true <-> filtered_bare fk gs.
Proof.
  unfold ambiguous, filtered_bare. destruct (fk_SentID fk) as [sent|]; [| split; [done | by intros (? & ? & _)]].
  rewrite !andb_true_iff, negb_true_iff, existsb_false, bool_decide_eq_true, contains_true. setoid_rewrite <- claim_named_spec. setoid_rewrite not_true_iff_false. split.
  - intros [[[? ?] ?] ?]. by exists sent.
  - by intros (? & [= <-] & ? & ? & ? & ?).
Qed.

(** [c] may be chosen from the response of [fk], whose claims are [gs], below
    [chosen]: it is a claim of the response; the key went out under a global
    identifier that the claim names, or under a venue ticker the provider
    filtered bare and no claim of it names; it denies nothing the key states;
    and it denies nothing of the claims above it and backs the first of them. *)
Definition may_choose (res : resolution) (fk : fetchKey) (gs chosen : list identityClaim) (c : identityClaim) : Prop :=
  c ∈ gs /\ (exists sent, fk_SentID fk = Some sent /\ IsGlobal sent = true) /\
  (names_sent c \/ filtered_bare fk gs) /\ ~ denies_stated c res /\
  (forall o, o ∈ chosen -> ~ disagree c o) /\ (forall o, head chosen = Some o -> backs (rs_mics res) c o).

(** The order of preference: a claim naming the identifier sent, then one that
    carries more of what the key states, then the first in the response. *)
Definition preferred (res : resolution) (c d : identityClaim) : Prop :=
  names_sent c /\ ~ names_sent d \/
  (names_sent c <-> names_sent d) /\
    ((agreement d res < agreement c res)%nat \/ agreement c res = agreement d res /\ (cl_place c <= cl_place d)%nat).

Lemma claims_fetchKey fk families gs c : claims fk families = Some gs -> c ∈ gs -> cl_fetchKey c = Some fk.
Proof. intros Hgs [k Hk]%list_elem_of_lookup. by destruct (claims_place _ _ _ _ _ Hgs Hk). Qed.

Lemma may_choose_spec res fk gs chosen c : claims fk (rs_families res) = Some gs ->
  c ∈ List.filter (eligible res fk false chosen gs) gs <-> may_choose res fk gs chosen c.
Proof.
  intros Hgs. rewrite elem_of_lfilter. unfold eligible, may_choose, agrees. rewrite !andb_true_iff, fits_spec.
  setoid_rewrite <- inconsistent_None. setoid_rewrite <- corroborates_spec. rewrite <- claim_named_spec, <- ambiguous_spec.
  assert (c ∈ gs -> contradicted c res = Some None <-> ~ denies_stated c res) as Hd by (intros Hc; by eapply contradicted_None, claims_fetchKey).
  assert (match contradicted c res with Some None => true | _ => false end = true <-> contradicted c res = Some None) as ->
    by by destruct (contradicted c res) as [[]|].
  destruct (fk_SentID fk) as [sent|]; [| naive_solver]. destruct (IsGlobal sent) eqn:E; [| naive_solver].
  rewrite orb_true_iff. assert (exists s, Some sent = Some s /\ IsGlobal s = true) by (by exists sent). tauto.
Qed.

Lemma rank_preferred res c d : rank res c d = Lt \/ rank res c d = Eq /\ (cl_place c <= cl_place d)%nat -> preferred res c d.
Proof.
  unfold rank, preferred. rewrite <- !claim_named_spec, !confirms_spec. destruct (claim_named c), (claim_named d); simpl;
    rewrite ?Z.compare_lt_iff, ?Z.compare_eq_iff, ?Nat2Z.inj_iff, <- ?Nat2Z.inj_lt; intuition congruence.
Qed.

(** C31: without a choice of the user, [choose] takes from each response, in
    precedence order, the best of the claims it may choose below those already
    chosen: one naming the identifier sent first, then one carrying more of
    what the key states, then the first in the response. It takes none where
    there is none to choose, or where several stand for a venue ticker that
    was filtered bare and nothing above settles among them. The winner is the
    first claim of all, the database's where it has one. *)
Theorem choose_spec res known :
  exists v picks, choose res known [] = Some v /\ vd_refused v = ""%string /\
    length picks = length (rs_fetchKeys res) /\ vd_attached v = omap id picks /\
    vd_winner v = head (option_list known ++ vd_attached v) /\
    forall n fk p, rs_fetchKeys res !! n = Some fk -> picks !! n = Some p ->
      let chosen := option_list known ++ omap id (take n picks) in
      fk_SentID fk = None /\ p = None \/
      exists gs, claims fk (rs_families res) = Some gs /\
        match p with
        | Some c => may_choose res fk gs chosen c /\ forall d, may_choose res fk gs chosen d -> preferred res c d
        | None => (forall c, ~ may_choose res fk gs chosen c) \/
            filtered_bare fk gs /\ chosen = [] /\ exists c d, may_choose res fk gs chosen c /\ may_choose res fk gs chosen d /\ c <> d
        end.
Proof.
  destruct (choose_chose res known) as (st & picks & offered & -> & [Hc Hr Hch Ha Hw Ho Hlen Hp] & _).
  exists (vd_offer (ch_verdict st) offered), picks. split; [done |]. split; [done |]. split; [done |]. split; [done |].
  split; [simpl; by rewrite Hw, Ha |]. intros n fk p Hn Hnp. specialize (Hp n fk p Hn Hnp).
  unfold picked in Hp. set (chosen := option_list known ++ omap id (take n picks)) in *.
  destruct (fk_SentID fk) as [sent|] eqn:Es; [right | by left]. destruct Hp as (gs & Hgs & ->). exists gs. split; [done |].
  pose proof (best_claim_spec res fk chosen gs (eligible res fk false chosen gs) Hgs) as Hb. simpl in Hb.
  destruct (best_of _ _ _ _ _) as [c|].
  - destruct Hb as [Hin Hb]. split; [by apply may_choose_spec |]. intros d Hd%may_choose_spec; [| done]. by apply rank_preferred, Hb.
  - destruct Hb as [Hb|(Hfb & Hnone & c & d & Hcs & Hds & Hne)].
    + left. intros c Hin%may_choose_spec; [| done]. rewrite Hb in Hin. by apply not_elem_of_nil in Hin.
    + right. split; [by apply ambiguous_spec |]. split; [done |]. exists c, d. split; [by apply may_choose_spec | split; [by apply may_choose_spec | done]].
Qed.

(** * The sets of consistent claims *)

(** The member a group gives the set [a]: the best ranked of its claims that
    fit below [a]. *)
Definition joins (res : resolution) (group a : list identityClaim) (p : option identityClaim) : Prop :=
  match p with
  | Some b => b ∈ group /\ fits (rs_mics res) a b = true /\
      forall c, c ∈ group -> fits (rs_mics res) a c = true -> rank res b c <> Gt
  | None => forall c, c ∈ group -> fits (rs_mics res) a c = false
  end.

Lemma best_member_some res a group :
  (forall c, c ∈ group -> is_Some (cl_fetchKey c)) ->
  exists p, opt_fold (best_member_step res a) None group = Some p /\ joins res group a p.
Proof.
  intros Hg. destruct (opt_fold_inv (fun seen p => joins res seen a p) (best_member_step res a) None group) as (p & E & Hp).
  - by intros c []%not_elem_of_nil.
  - intros seen best c Hin Hc Hb. destruct (Hg c Hc) as [fk Hfk].
    destruct (rejects_some c a (rs_mics res) fk Hfk) as (f & Hf & Hfit). unfold best_member_step. rewrite Hf. simpl.
    eexists; split; [reflexivity |].
    destruct f as [f|]; simpl in Hfit; destruct best as [b|]; unfold joins in Hb |- *.
    + destruct Hb as (? & ? & Hb). split; [apply elem_of_app; by left |]. split; [done |].
      intros d [Hd| ->%list_elem_of_singleton]%elem_of_app; [by apply Hb | congruence].
    + intros d [Hd| ->%list_elem_of_singleton]%elem_of_app; [by apply Hb | congruence].
    + destruct Hb as (Hbin & Hbf & Hb). pose proof (cmp_eq_sym (rank res) c b). pose proof (cmp_gt_lt (rank res) c b).
      destruct (rank res c b) eqn:Er; (split; [apply elem_of_app; (by left) || (by right; apply list_elem_of_singleton) | split; [done |]]);
        intros d [Hd| ->%list_elem_of_singleton]%elem_of_app Hdf; rewrite ?(cmp_refl (rank res)); try congruence; auto.
      * intuition congruence.
      * specialize (Hb d Hd Hdf). apply (cmp_trans (rank res) c b d); [congruence | done].
      * intuition congruence.
    + split; [apply elem_of_app; by right; apply list_elem_of_singleton |]. split; [done |].
      intros d [Hd| ->%list_elem_of_singleton]%elem_of_app Hdf; [by rewrite Hb in Hdf | by rewrite (cmp_refl (rank res))].
  - eauto.
Qed.

Lemma gather_joined_spec res group out :
  (forall c, c ∈ group -> is_Some (cl_fetchKey c)) ->
  exists bests, Forall2 (joins res group) out bests /\
    gather_joined res group out = Some (zip_with (fun a p => a ++ option_list p) out bests, omap id bests).
Proof.
  intros Hg. induction out as [|a out (bests & Hb & IH)]; simpl; [by exists [] |].
  destruct (best_member_some res a group Hg) as (p & -> & Hp). simpl. rewrite IH. simpl.
  exists (p :: bests). split; [by constructor |]. destruct p; simpl; [done | by rewrite app_nil_r].
Qed.

(** What the sets over the claims [seen] are. *)
Record gathered_sets (res : resolution) (seen : list identityClaim) (out : list (list identityClaim)) : Prop := {
  gs_sub i a : out !! i = Some a -> a <> [] /\ a `sublist_of` seen;
  gs_pairs i a j k c d : out !! i = Some a -> (j < k)%nat -> a !! j = Some c -> a !! k = Some d -> inconsistent d c = None;
  gs_corroborate i a j h c : out !! i = Some a -> head a = Some h -> (0 < j)%nat -> a !! j = Some c -> corroborates c h (rs_mics res) = true;
  gs_cover c : c ∈ seen -> exists a, a ∈ out /\ c ∈ a;
  gs_head i j a b h : out !! i = Some a -> out !! j = Some b -> head a = Some h -> h ∈ b -> i = j;
}.

(** The pointer to a claim. *)
Definition pointer (c : identityClaim) : option uuid * nat := (fk_ID <$> cl_fetchKey c, cl_place c).

Lemma same_claim_pointer c d : same_claim c d = true <-> pointer c = pointer d.
Proof. unfold same_claim, pointer. rewrite andb_true_iff, !bool_decide_eq_true. split; [by intros [-> ->] | by intros [= ? ?]]. Qed.

(** One group joins the sets over the claims [seen] before it. *)
Section GatherStep.
Context (res : resolution) (seen group : list identityClaim) (out : list (list identityClaim)) (bests : list (option identityClaim)).
Context (Hsets : gathered_sets res seen out) (Hb : Forall2 (joins res group) out bests) (Hnd : NoDup (map pointer (seen ++ group))).

Let old := zip_with (fun a p => a ++ option_list p) out bests.
Let news := List.filter (fun c => negb (existsb (same_claim c) (omap id bests))) group.

Lemma pointer_inj c d : c ∈ seen ++ group -> d ∈ seen ++ group -> pointer c = pointer d -> c = d.
Proof using Hnd. by apply NoDup_key. Qed.

Lemma seen_not_group c : c ∈ seen -> c ∈ group -> False.
Proof using Hnd.
  intros Hs Hg. rewrite map_app in Hnd. apply NoDup_app in Hnd as (_ & Hd & _).
  apply (Hd (pointer c)); apply list_elem_of_fmap; eauto.
Qed.

Lemma old_lookup i a : old !! i = Some a ->
  exists a0 p, out !! i = Some a0 /\ bests !! i = Some p /\ joins res group a0 p /\ a = a0 ++ option_list p /\
    a0 <> [] /\ a0 `sublist_of` seen /\ head a = head a0.
Proof using Hb Hsets.
  intros (a0 & p & -> & Ha & Hp)%lookup_zip_with_Some. exists a0, p. destruct (gs_sub _ _ _ Hsets _ _ Ha).
  repeat split; try done; [by eapply Forall2_lookup_lr | by destruct a0].
Qed.

Lemma old_elem i a x : old !! i = Some a -> x ∈ a -> x ∈ seen \/ x ∈ group /\ x ∈ omap id bests.
Proof using Hb Hsets.
  intros (a0 & p & Ha0 & Hp & Hj & -> & _ & Hs & _)%old_lookup [Hx|Hx]%elem_of_app; [left; by eapply elem_of_sublist | right].
  destruct p as [b|]; simpl in Hx; [| by apply not_elem_of_nil in Hx]. apply list_elem_of_singleton in Hx as ->.
  destruct Hj as (? & _). split; [done |]. apply list_elem_of_omap. exists (Some b). split; [by eapply list_elem_of_lookup_2 | done].
Qed.

Lemma old_head i a h : old !! i = Some a -> head a = Some h -> h ∈ seen.
Proof using Hb Hsets.
  intros (a0 & p & _ & _ & _ & _ & Hne & Hs & ->)%old_lookup Hh. eapply elem_of_sublist; [| exact Hs].
  destruct a0; simplify_eq/=. by left.
Qed.

Lemma news_elem i c : news !! i = Some c -> c ∈ group /\ forall d, d ∈ omap id bests -> c <> d.
Proof using.
  intros [Hc Hn]%list_elem_of_lookup_2%elem_of_lfilter. split; [done |]. intros d Hd <-.
  rewrite negb_true_iff, existsb_false in Hn. apply Hn in Hd. by rewrite (proj2 (same_claim_pointer c c) eq_refl) in Hd.
Qed.

Lemma step_lookup i a : (old ++ map (fun c => [c]) news) !! i = Some a ->
  old !! i = Some a \/ (length old <= i)%nat /\ exists c, news !! (i - length old)%nat = Some c /\ a = [c].
Proof using.
  intros [Ha|[Hle Ha]]%lookup_app_Some; [by left | right]. split; [done |]. rewrite list_lookup_fmap in Ha.
  destruct (news !! _) as [c|]; simplify_eq/=. eauto.
Qed.

Lemma step_pairs i a j k c d : (old ++ map (fun c => [c]) news) !! i = Some a -> (j < k)%nat ->
  a !! j = Some c -> a !! k = Some d -> inconsistent d c = None.
Proof using Hb Hsets.
  intros [(a0 & p & Ha0 & Hp & Hj & -> & _)%old_lookup|(_ & e & _ & ->)]%step_lookup Hjk Hc Hd.
  - apply lookup_app_Some in Hd as [Hd|[Hle Hd]].
    + rewrite lookup_app_l in Hc by (apply lookup_lt_Some in Hd; lia). by eapply gs_pairs.
    + destruct p as [b|]; [| done]. apply list_lookup_singleton_Some in Hd as [Hk <-]. rewrite lookup_app_l in Hc by lia.
      destruct Hj as (_ & Hf & _). apply fits_spec in Hf as [Hf _]. apply Hf. by eapply list_elem_of_lookup_2.
  - apply list_lookup_singleton_Some in Hd as [-> _]. lia.
Qed.

Lemma step_corroborate i a j h c : (old ++ map (fun c => [c]) news) !! i = Some a -> head a = Some h -> (0 < j)%nat ->
  a !! j = Some c -> corroborates c h (rs_mics res) = true.
Proof using Hb Hsets.
  intros [(a0 & p & Ha0 & Hp & Hjo & -> & _ & _ & Heq)%old_lookup|(_ & e & _ & ->)]%step_lookup Hh Hj Hc.
  - rewrite Heq in Hh. apply lookup_app_Some in Hc as [Hc|[Hle Hc]]; [by eapply gs_corroborate |].
    destruct p as [b|]; [| done]. apply list_lookup_singleton_Some in Hc as [_ <-].
    destruct Hjo as (_ & Hf & _). apply fits_spec in Hf as [_ Hf]. by apply Hf.
  - apply list_lookup_singleton_Some in Hc as [-> _]. lia.
Qed.

Lemma step_cover c : c ∈ seen ++ group -> exists a, a ∈ old ++ map (fun c => [c]) news /\ c ∈ a.
Proof using Hb Hsets Hnd.
  assert (forall i a p, out !! i = Some a -> bests !! i = Some p -> a ++ option_list p ∈ old ++ map (fun c => [c]) news) as Hold.
  { intros i a p Ha Hp. apply elem_of_app. left. apply list_elem_of_lookup. exists i. apply lookup_zip_with_Some. by exists a, p. }
  intros Hin. pose proof Hin as [Hc|Hc]%elem_of_app.
  - destruct (gs_cover _ _ _ Hsets c Hc) as (a & [i Hi]%list_elem_of_lookup & Hca).
    destruct (Forall2_lookup_l _ _ _ _ _ Hb Hi) as (p & Hp & _). exists (a ++ option_list p).
    split; [by eapply Hold | apply elem_of_app; by left].
  - destruct (existsb (same_claim c) (omap id bests)) eqn:E.
    + apply existsb_elem in E as (d & (p & Hp & Hpd)%list_elem_of_omap & Hcd%same_claim_pointer).
      unfold id in Hpd. subst p. apply list_elem_of_lookup in Hp as [i Hi].
      destruct (Forall2_lookup_r _ _ _ _ _ Hb Hi) as (a & Ha & Hdg & _).
      assert (c = d) as <- by (apply pointer_inj; try done; apply elem_of_app; auto).
      exists (a ++ option_list (Some c)). split; [by eapply Hold | apply elem_of_app; right; by left].
    + exists [c]. split; [| by left]. apply elem_of_app. right. apply list_elem_of_fmap. exists c. split; [done |].
      apply elem_of_lfilter. by rewrite E.
Qed.

Lemma step_head i j a b h : (old ++ map (fun c => [c]) news) !! i = Some a -> (old ++ map (fun c => [c]) news) !! j = Some b ->
  head a = Some h -> h ∈ b -> i = j.
Proof using Hb Hsets Hnd.
  intros [Ha|(Hi & c & Hc & ->)]%step_lookup [Hj|(Hjl & d & Hd & ->)]%step_lookup Hh Hhb.
  - pose proof (old_head _ _ _ Ha Hh) as Hhs. apply old_lookup in Ha as (a0 & p & Ha0 & _ & _ & _ & _ & _ & Heq).
    apply old_lookup in Hj as (b0 & q & Hb0 & Hq & Hjq & -> & _). rewrite Heq in Hh.
    apply elem_of_app in Hhb as [Hhb|Hhb]; [by eapply (gs_head _ _ _ Hsets) |]. destruct q as [b1|]; [| by apply not_elem_of_nil in Hhb].
    apply list_elem_of_singleton in Hhb as <-. destruct Hjq as (Hg & _). by destruct (seen_not_group h).
  - exfalso. apply list_elem_of_singleton in Hhb as <-. apply news_elem in Hd as [Hd _].
    by apply (seen_not_group h (old_head _ _ _ Ha Hh)).
  - exfalso. simpl in Hh. simplify_eq. apply news_elem in Hc as [Hc Hcn].
    destruct (old_elem _ _ h Hj Hhb) as [Hs|[_ Hom]]; [by apply (seen_not_group h) | by apply (Hcn h)].
  - simpl in Hh. simplify_eq. apply list_elem_of_singleton in Hhb as <-.
    assert (NoDup news) as Hnn.
    { apply NoDup_lfilter. rewrite map_app in Hnd. apply NoDup_app in Hnd as (_ & _ & Hn). by eapply NoDup_of_key. }
    pose proof (NoDup_lookup _ _ _ _ Hnn Hc Hd). lia.
Qed.

Lemma gather_step_sets : gathered_sets res (seen ++ group) (old ++ map (fun c => [c]) news).
Proof using Hb Hsets Hnd.
  split; [| exact step_pairs | exact step_corroborate | exact step_cover | exact step_head].
  intros i a [(a0 & p & Ha0 & Hp & Hj & -> & Hne & Hs & _)%old_lookup|(_ & c & Hc & ->)]%step_lookup.
  - split; [by destruct a0 |]. apply sublist_app; [done |].
    destruct p as [b|]; [| apply sublist_nil_l]. destruct Hj as (Hin & _). by apply singleton_sublist_l.
  - split; [done |]. apply sublist_inserts_l, singleton_sublist_l. by apply news_elem in Hc as [? _].
Qed.
End GatherStep.

Lemma gather_loop_sets res fuel seen out cs sets :
  gathered_sets res seen out -> NoDup (map pointer (seen ++ cs)) -> (forall c, c ∈ cs -> is_Some (cl_fetchKey c)) ->
  gather_loop res fuel out cs = Some sets -> gathered_sets res (seen ++ cs) sets.
Proof.
  revert seen out cs. induction fuel as [|fuel IH]; intros seen out [|c cs] Hs Hnd Hk; simpl; try done;
    try (intros [= <-]; by rewrite app_nil_r).
  destruct (span_prefix (same_fetchKey c) cs) as [g rest] eqn:Es. apply span_prefix_app in Es as ->.
  destruct (gather_joined_spec res (c :: g) out) as (bests & Hb & ->).
  { intros d Hd. apply Hk. rewrite elem_of_cons in *. rewrite elem_of_app. tauto. }
  simpl. replace (seen ++ c :: g ++ rest) with ((seen ++ c :: g) ++ rest) in * by (by rewrite <- app_assoc).
  apply IH; [| done | intros d Hd; apply Hk; right; apply elem_of_app; by right].
  apply (gather_step_sets res seen (c :: g) out bests Hs Hb).
  rewrite map_app in Hnd. by apply NoDup_app in Hnd as (? & _).
Qed.

(** [gatherConsistentClaims] always answers. Every claim is in a set; each
    set is non-empty and keeps the claims in precedence order; each of its
    members is consistent with the members above it, and those below the head
    corroborate the head. A claim that heads a set is in no other. *)
Theorem gather_spec res cs :
  NoDup (map pointer cs) -> (forall c, c ∈ cs -> is_Some (cl_fetchKey c)) ->
  exists sets, gatherConsistentClaims res cs = Some sets /\
    (forall c, c ∈ cs -> exists a, a ∈ sets /\ c ∈ a) /\
    (forall a, a ∈ sets -> exists h t, a = h :: t /\ a `sublist_of` cs /\
       (forall c, c ∈ t -> corroborates c h (rs_mics res) = true) /\
       (forall j k c d, (j < k)%nat -> a !! j = Some c -> a !! k = Some d -> inconsistent d c = None)) /\
    (forall i j a b h, sets !! i = Some a -> sets !! j = Some b -> head a = Some h -> h ∈ b -> i = j).
Proof.
  intros Hnd Hk. destruct (gather_some res cs Hk) as [sets Hsets]. exists sets. split; [done |].
  assert (gathered_sets res [] []) as H0 by (split; try done; by intros c []%not_elem_of_nil).
  destruct (gather_loop_sets res (length cs) [] [] cs sets H0 Hnd Hk Hsets) as [G1 G2 G3 G4 G5].
  split; [done |]. split; [| done]. intros a [i Hi]%list_elem_of_lookup. destruct (G1 i a Hi) as [Hne Hs].
  destruct a as [|h t]; [done |]. exists h, t. split; [done |]. split; [done |]. split.
  - intros c [k Hc]%list_elem_of_lookup. by apply (G3 i (h :: t) (S k) h c); [| | lia |].
  - intros j k c d. by apply G2 with i.
Qed.

(** * Confirming an offered candidate *)

(** The claims a served fetch key offers the user. *)
Definition offerable (r : resolution) (fk : fetchKey) : list identityClaim :=
  match claims fk (rs_families r), fk_SentID fk with
  | Some gs, Some sent =>
      List.filter (fun c => agrees r c && (negb (IsGlobal sent) || claim_named c || ambiguous fk gs)) gs
  | _, _ => []
  end.

Definition is_served (fk : fetchKey) : bool := bool_decide (fk_Outcome fk = FetchOutcomeServed).

Lemma offerable_place r fk c : c ∈ offerable r fk -> cl_fetchKey c = Some fk /\
  exists gs, claims fk (rs_families r) = Some gs /\ c ∈ gs /\ gs !! cl_place c = Some c.
Proof.
  unfold offerable. destruct (claims fk _) as [gs|] eqn:E; [| by intros ?%not_elem_of_nil].
  destruct (fk_SentID fk); [| by intros ?%not_elem_of_nil]. intros [Hc _]%elem_of_lfilter.
  pose proof Hc as [k Hk]%list_elem_of_lookup. destruct (claims_place _ _ _ _ _ E Hk) as [-> ->]. eauto.
Qed.

Lemma offered_step_some r cs fs us fk : (is_served fk = true -> is_Some (fk_SentID fk)) ->
  exists fs' us', offered_step r (cs, fs, us) fk = Some (cs ++ (if is_served fk then offerable r fk else []), fs', us').
Proof.
  intros Hs. unfold offered_step. fold (is_served fk). destruct (is_served fk) eqn:E; simpl.
  - destruct (Hs eq_refl) as [sent Hsent].
    destruct (filterAlternatives_some fk r false sent Hsent) as (gs & alts & Hgs & -> & _ & _ & Hsu & Ho). simpl.
    eexists _, _. repeat f_equal. rewrite Hsu, Ho. unfold offerable. rewrite Hgs, Hsent.
    destruct (IsGlobal sent); simpl.
    + rewrite filter_none by (intros; by rewrite andb_false_r). done.
    + rewrite (filter_none (fun c => agrees r c && false)) by (intros; by rewrite andb_false_r). rewrite app_nil_r.
      apply List.filter_ext. intros c. by rewrite !andb_true_r.
  - rewrite app_nil_r. eauto.
Qed.

Lemma offeredClaims_some r :
  (forall fk, fk ∈ rs_fetchKeys r -> is_served fk = true -> is_Some (fk_SentID fk)) ->
  exists fs us, offeredClaims r = Some (concat (map (offerable r) (List.filter is_served (rs_fetchKeys r))), fs, us).
Proof.
  intros Hs. unfold offeredClaims.
  destruct (opt_fold_inv (fun seen st => st.1.1 = concat (map (offerable r) (List.filter is_served seen)))
    (offered_step r) ([], [], []) (rs_fetchKeys r)) as ([[cs fs] us] & E & Hcs); [done | | simpl in Hcs; subst; eauto].
  intros seen [[cs fs] us] fk _ Hfk Hcs. simpl in Hcs. subst cs.
  destruct (offered_step_some r (concat (map (offerable r) (List.filter is_served seen))) fs us fk (Hs fk Hfk)) as (fs' & us' & ->).
  eexists; split; [reflexivity |]. simpl. rewrite List.filter_app, map_app, concat_app. simpl.
  destruct (is_served fk); simpl; by rewrite ?app_nil_r.
Qed.

Lemma claims_NoDup fk families gs : claims fk families = Some gs -> NoDup gs.
Proof.
  intros E. apply NoDup_alt. intros i j c Hi Hj.
  destruct (claims_place _ _ _ _ _ E Hi) as [_ <-], (claims_place _ _ _ _ _ E Hj) as [_ <-]. done.
Qed.

Lemma offered_pointers r fks : NoDup (map fk_ID fks) -> NoDup (map pointer (concat (map (offerable r) fks))).
Proof.
  intros Hnd. rewrite concat_map, map_map. apply NoDup_concat_map.
  - by eapply NoDup_of_key.
  - intros fk Hfk. apply NoDup_fmap_2_strong.
    + intros c d Hc Hd [= _ Hp]. apply offerable_place in Hc as (_ & gs & Hgs & _ & Hc), Hd as (_ & gs' & Hgs' & _ & Hd).
      simplify_eq. congruence.
    + unfold offerable. destruct (claims fk _) as [gs|] eqn:E; [| constructor]. destruct (fk_SentID fk); [| constructor].
      by apply NoDup_lfilter, (claims_NoDup fk (rs_families r)).
  - intros fk fk' p Hfk Hfk' Hp Hp'. apply list_elem_of_fmap in Hp as (c & -> & (Hc & _)%offerable_place).
    apply list_elem_of_fmap in Hp' as (d & Hcd & (Hd & _)%offerable_place). unfold pointer in Hcd. rewrite Hc, Hd in Hcd.
    simplify_eq/=. by apply (NoDup_key fk_ID fks).
Qed.

(** ** The name of a claim *)

Lemma stronger_fold (f : Identifier -> bool) best l s :
  foldl (fun b id => if f id then stronger b id else b) best l = Some s ->
  best = Some s \/ (s ∈ l /\ f s = true).
Proof.
  revert best. induction l as [|id l IH]; intros best; simpl; [by left |]. intros H. apply IH in H as [H|[H ?]]; [| right; split; [by right | done]].
  destruct (f id) eqn:E; [| by left]. unfold stronger in H. destruct best as [b|]; [case_match |]; simplify_eq; auto using list_elem_of_here.
Qed.

Lemma strongest_elem c s : strongest c = Some s -> s ∈ AllIDs (cl_Instr c).
Proof. unfold strongest. intros H. by apply (stronger_fold (fun _ => true)) in H as [|[? _]]. Qed.

Lemma strongestStable_elem c s : strongestStable c = Some s -> s ∈ AllIDs (cl_Instr c) /\ Stable s = true.
Proof. unfold strongestStable. intros H. by apply (stronger_fold Stable) in H as [|[? ?]]. Qed.

Lemma candidateOf_head a c h : candidateOf a = Some (Some c) -> set_head a = Some h ->
  exists fk, cl_fetchKey h = Some fk /\ cd_Datasource c = fk_Source fk /\ strongest h = Some (cd_Strongest c).
Proof.
  intros Hc Hh. unfold candidateOf in Hc. rewrite Hh in Hc. simpl in Hc. destruct (strongest h) as [s|]; [| done].
  destruct (cl_fetchKey h) as [fk|]; [| done]. simpl in Hc. exists fk. split; [done |].
  apply fmap_Some in Hc as (c' & Hf & [= <-]). revert Hf.
  assert (forall l c0 c1, opt_fold (combine_claim h) c0 l = Some c1 -> cd_Datasource c1 = cd_Datasource c0 /\ cd_Strongest c1 = cd_Strongest c0) as Hgen.
  { induction l as [|d l IH]; intros c0 c1; simpl; [by intros [= <-] |]. unfold combine_claim at 1.
    destruct (same_claim d h); simpl; [intros H; by apply IH in H |]. destruct (cl_fetchKey d); simpl; [intros H; by apply IH in H | done]. }
  intros H. apply Hgen in H as [-> ->]. done.
Qed.

(** An instrument grain identifier of a claim of a response is one of the
    instrument's own. *)
Lemma instr_grain_own fk families gs c id : claims fk families = Some gs -> c ∈ gs ->
  id ∈ AllIDs (cl_Instr c) -> is_instr_grain id = true -> id ∈ cl_Identifiers c.
Proof.
  destruct (claims_form fk families) as (roots & _ & _ & ->). intros [= <-] [k Hk]%list_elem_of_lookup.
  rewrite list_lookup_imap in Hk. destruct (_ !! k) as [r|]; simplify_eq/=. unfold cl_Identifiers. simpl.
  intros [Hi|(f & l & Hl & Hi)]%elem_of_AllIDs Hg; [done |].
  destruct (gathered_spec families (strict_ids fk) (of_root r (zip (ir_Listings (fk_Response fk)) roots))) as (_ & _ & G).
  assert (id ∈ listing_Identifiers (listing_of (gathered families (strict_ids fk) (of_root r (zip (ir_Listings (fk_Response fk)) roots))) f)) as Hin.
  { unfold listing_of. by rewrite Hl. }
  apply G in Hin as (_ & _ & _ & Hg' & _). congruence.
Qed.

Lemma candidateOf_some a h : set_head a = Some h -> (forall c, c ∈ a -> is_Some (cl_fetchKey c)) -> is_Some (candidateOf a).
Proof.
  intros Hh Hk. unfold candidateOf. rewrite Hh. simpl. destruct (strongest h); [| eauto].
  destruct (Hk h) as [fk ->]; [destruct a; simplify_eq/=; by left |]. simpl.
  edestruct (opt_fold_inv (fun _ _ => True) (combine_claim h)) as (c & -> & _); [done | | by eexists].
  intros seen out c _ Hc _. unfold combine_claim. destruct (same_claim c h); simpl; [eauto |].
  destruct (Hk c Hc) as [fk' ->]. simpl. eauto.
Qed.

(** The offer lists the candidate of each confirmable set. *)
Lemma offer_loop o sets :
  (forall a, a ∈ sets -> exists h, set_head a = Some h /\ forall c, c ∈ a -> is_Some (cl_fetchKey c)) ->
  exists o', opt_fold offer_step o sets = Some o' /\
    forall c, c ∈ of_Candidates o' -> c ∈ of_Candidates o \/ exists a, a ∈ sets /\ confirmable a = true /\ candidateOf a = Some (Some c).
Proof.
  revert o. induction sets as [|a sets IH]; intros o Hs; simpl; [eauto |].
  destruct (Hs a ltac:(left)) as (h & Hh & Hk). assert (forall a, a ∈ sets -> exists h, set_head a = Some h /\ forall c, c ∈ a -> is_Some (cl_fetchKey c)) as Hs' by (intros; apply Hs; by right).
  unfold offer_step at 1. destruct (confirmable a) eqn:Ec; simpl.
  - destruct (candidateOf_some a h Hh Hk) as [c Hc]. rewrite Hc. simpl.
    destruct (IH (match c with Some c => MkOffer (of_Candidates o ++ [c]) (of_Reasons o) | None => o end) Hs') as (o' & -> & Ho').
    exists o'. split; [done |]. intros d [Hd|(b & Hb & ?)]%Ho'; [| right; exists b; split; [by right | done]].
    destruct c as [c|]; [| by left]. simpl in Hd. apply elem_of_app in Hd as [Hd| ->%list_elem_of_singleton]; [by left | right].
    exists a. split; [by left | done].
  - rewrite Hh. simpl. destruct (Hk h) as [fk Hfk]; [destruct a; simplify_eq/=; by left |]. unfold unstableReason. rewrite Hfk. simpl.
    edestruct IH as (o' & -> & Ho'); [done |]. exists o'. split; [done |].
    intros d [Hd|(b & Hb & ?)]%Ho'; [by left | right; exists b; split; [by right | done]].
Qed.

(** The sets gathered from what the served fetch keys of [r] offer. *)
Lemma offered_sets r :
  (forall fk, fk ∈ rs_fetchKeys r -> is_served fk = true -> is_Some (fk_SentID fk)) -> NoDup (map fk_ID (rs_fetchKeys r)) ->
  exists cs fs us sets, offeredClaims r = Some (cs, fs, us) /\ gatherConsistentClaims r cs = Some sets /\ gathered_sets r cs sets /\
    forall c, c ∈ cs -> exists fk gs, fk ∈ rs_fetchKeys r /\ is_served fk = true /\ cl_fetchKey c = Some fk /\
      claims fk (rs_families r) = Some gs /\ c ∈ gs.
Proof.
  intros Hsent Hnd. destruct (offeredClaims_some r Hsent) as (fs & us & E). set (cs := concat _) in E.
  assert (forall c, c ∈ cs -> exists fk gs, fk ∈ rs_fetchKeys r /\ is_served fk = true /\ cl_fetchKey c = Some fk /\
    claims fk (rs_families r) = Some gs /\ c ∈ gs) as Hcs.
  { intros c (fk & [Hfk Hsv]%elem_of_lfilter & Hc)%elem_of_concat_map. apply offerable_place in Hc as (? & gs & ? & ? & _). exists fk, gs. done. }
  assert (forall c, c ∈ cs -> is_Some (cl_fetchKey c)) as Hk by (intros c (fk & gs & _ & _ & -> & _)%Hcs; eauto).
  destruct (gather_some r cs Hk) as [sets Hsets]. exists cs, fs, us, sets. split; [done |]. split; [done |]. split; [| done].
  apply (gather_loop_sets r (length cs) [] [] cs sets); try done; [split; try done; by intros c []%not_elem_of_nil |].
  apply offered_pointers. by apply NoDup_key_filter.
Qed.

(** The set that [findUserChoice] takes for the name of the head [h] of an
    offered set. *)
Lemma picked_set r sets cs i a h fk gs p :
  gathered_sets r cs sets -> (forall c, c ∈ cs -> exists fk gs, fk ∈ rs_fetchKeys r /\ is_served fk = true /\ cl_fetchKey c = Some fk /\
      claims fk (rs_families r) = Some gs /\ c ∈ gs) -> NoDup (map fk_Source (rs_fetchKeys r)) ->
  sets !! i = Some a -> set_head a = Some h -> cl_fetchKey h = Some fk -> fk ∈ rs_fetchKeys r ->
  claims fk (rs_families r) = Some gs -> h ∈ gs -> p = MkPick (fk_Source fk) (pk_Identifier p) ->
  pk_Identifier p ∈ AllIDs (cl_Instr h) ->
  exists a' h', find_func (picks_head p) sets = Some a' /\ set_head a' = Some h' /\ cl_fetchKey h' = Some fk /\
    pk_Identifier p ∈ AllIDs (cl_Instr h') /\ (is_instr_grain (pk_Identifier p) = true -> a' = a).
Proof.
  intros [G1 _ _ _ G5] Hcs Hsrc Hi Hh Hfk Hin Hgs Hhg Hp Hid.
  assert (picks_head p a = true) as Ha.
  { unfold picks_head. rewrite Hh, Hfk, Hp. simpl. rewrite bool_decide_true by done. by apply IdentifiedBy_spec. }
  destruct (find_func (picks_head p) sets) as [a'|] eqn:E; cycle 1.
  { apply list_elem_of_lookup_2, list_elem_of_In in Hi. apply (find_none _ _ E) in Hi. congruence. }
  apply find_some in E as [[j Hj]%list_elem_of_In%list_elem_of_lookup Ha']. exists a'. unfold picks_head in Ha'.
  destruct (set_head a') as [h'|] eqn:Hh'; [| done]. destruct (cl_fetchKey h') as [fk'|] eqn:Hfk'; [| done].
  apply andb_true_iff in Ha' as [Hs%bool_decide_eq_true Hid'%IdentifiedBy_spec].
  assert (h' ∈ cs) as Hc'.
  { destruct (G1 j a' Hj) as [_ Hsub]. eapply elem_of_sublist; [| exact Hsub]. unfold set_head in Hh'. destruct a'; simplify_eq/=. by left. }
  destruct (Hcs h' Hc') as (fk2 & gs' & Hin' & _ & Hfk2 & Hgs' & Hg'). assert (fk2 = fk') as -> by congruence.
  assert (fk' = fk) as -> by (apply (NoDup_key fk_Source (rs_fetchKeys r)); try done; by rewrite Hs, Hp).
  assert (gs' = gs) as -> by congruence.
  exists h'. repeat (split; [done |]). intros Hg.
  assert (h = h') as <-.
  { apply (claims_distinct fk (rs_families r) gs h h' (pk_Identifier p)); try done; by apply (instr_grain_own fk (rs_families r) gs). }
  assert (j = i) as ->; [| by simplify_eq]. apply (G5 j i a' a h); try done. unfold set_head in Hh. destruct a; simplify_eq/=. by left.
Qed.

(** ** What the user chose *)

(** A claim the user may be offered: one of the response of a served fetch key,
    that denies nothing the key states; where the key went out under a global
    identifier the claim names it, or stands for a venue ticker filtered bare. *)
Definition offered_claim (r : resolution) (c : identityClaim) : Prop :=
  exists fk gs sent, fk ∈ rs_fetchKeys r /\ fk_Outcome fk = FetchOutcomeServed /\ fk_SentID fk = Some sent /\ cl_fetchKey c = Some fk /\
    claims fk (rs_families r) = Some gs /\ c ∈ gs /\ ~ denies_stated c r /\ (IsGlobal sent = false \/ names_sent c \/ filtered_bare fk gs).

(** The choice that [p] picks: a set of offered claims whose head is an answer of
    the datasource picked and carries the identifier picked. The others back the
    head and deny nothing of those above them. The choice is fixed through a
    stable identifier of the head: the one picked where it is stable. *)
Record picked_choice (r : resolution) (p : Pick) (u : userChoice) : Prop := {
  pc_head : exists h t fk, uc_claims u = h :: t /\ cl_fetchKey h = Some fk /\ fk_Source fk = pk_Datasource p /\ carries h (pk_Identifier p) /\
    Stable (uc_via u) = true /\ carries h (uc_via u) /\ (forall c, c ∈ t -> backs (rs_mics r) c h);
  pc_via : Stable (pk_Identifier p) = true -> uc_via u = pk_Identifier p;
  pc_offered c : c ∈ uc_claims u -> offered_claim r c;
  pc_above j k c d : (j < k)%nat -> uc_claims u !! j = Some c -> uc_claims u !! k = Some d -> ~ disagree d c;
}.

Lemma offerable_offered r fk c : fk ∈ rs_fetchKeys r -> is_served fk = true -> c ∈ offerable r fk -> offered_claim r c.
Proof.
  unfold offerable. intros Hfk Hs%bool_decide_eq_true. destruct (claims fk _) as [gs|] eqn:Hgs; [| by intros ?%not_elem_of_nil].
  destruct (fk_SentID fk) as [sent|] eqn:Hsent; [| by intros ?%not_elem_of_nil].
  intros [Hc [Ha Hn]%andb_true_iff]%elem_of_lfilter. pose proof (claims_fetchKey _ _ _ _ Hgs Hc) as Hck. exists fk, gs, sent. do 6 (split; [done |]). split.
  - apply (contradicted_None c r fk Hck). unfold agrees in Ha. by destruct (contradicted c r) as [[]|].
  - rewrite <- claim_named_spec, <- ambiguous_spec. rewrite !orb_true_iff, negb_true_iff in Hn. tauto.
Qed.

(** [findUserChoice] answers with such a choice or with none. *)
Lemma choice_picked r p u :
  (forall fk, fk ∈ rs_fetchKeys r -> is_served fk = true -> is_Some (fk_SentID fk)) -> NoDup (map fk_ID (rs_fetchKeys r)) ->
  findUserChoice r p = Some (Ok u) -> picked_choice r p u.
Proof.
  intros Hsent Hnd. destruct (offered_sets r Hsent Hnd) as (cs & fs & us & sets & Eo & Es & [G1 G2 G3 _ _] & _).
  assert (forall c, c ∈ cs -> offered_claim r c) as Hcs.
  { destruct (offeredClaims_some r Hsent) as (fs' & us' & E). rewrite Eo in E. injection E as -> _ _.
    intros c (fk & [Hfk Hsv]%elem_of_lfilter & Hc)%elem_of_concat_map. by eapply offerable_offered. }
  unfold findUserChoice. destruct (find_func _ (rs_fetchKeys r)) as [fk0|]; [| done]. destruct (negb _); [done |]. rewrite Eo. simpl. rewrite Es. simpl.
  destruct (find_func (picks_head p) sets) as [a|] eqn:Ea; [| done]. apply find_func_Some in Ea as [[i Hi]%list_elem_of_lookup Hp].
  destruct (G1 i a Hi) as [Hne Hsub]. destruct a as [|h t]; [done |]. unfold picks_head in Hp. simpl in Hp. destruct (cl_fetchKey h) as [fk|] eqn:Hfk; [| done].
  apply andb_true_iff in Hp as [Hsrc%bool_decide_eq_true Hid%IdentifiedBy_spec%carries_spec].
  assert (forall via, Stable via = true -> carries h via -> (Stable (pk_Identifier p) = true -> via = pk_Identifier p) -> picked_choice r p (MkUserChoice (h :: t) via)) as Hok.
  { intros via Hst Hc Heq. split; simpl; [| done | |].
    - exists h, t, fk. do 6 (split; [done |]). intros c [k Hk]%list_elem_of_lookup. apply corroborates_spec. by apply (G3 i (h :: t) (S k) h c Hi); [| lia |].
    - intros c Hc'. apply Hcs. by eapply elem_of_sublist.
    - intros j k c d Hjk Hj Hk. apply inconsistent_None. by apply (G2 i (h :: t) j k c d). }
  destruct (Stable (pk_Identifier p)) eqn:Est; [intros [= <-]; by apply Hok |]. simpl.
  destruct (strongestStable h) as [via|] eqn:Ev; [| destruct (unstableReason h); simpl; congruence]. intros [= <-]. apply strongestStable_elem in Ev as [Hv ?].
  apply Hok; [done | by apply carries_spec | done].
Qed.

(** [Candidates] always answers, and the user can confirm what it offers.
    A candidate is named to the user by its strongest identifier. Where that
    identifier is stable, or one of the instrument grain, confirming it against
    the same answers finds a choice, whose head carries the identifier and
    which is fixed through a stable identifier of that head. Where it is one
    of the instrument grain, the choice is the very candidate offered. *)
Theorem confirm_offered r :
  (forall fk, fk ∈ rs_fetchKeys r -> fk_Outcome fk = FetchOutcomeServed -> is_Some (fk_SentID fk)) ->
  NoDup (map fk_ID (rs_fetchKeys r)) -> NoDup (map fk_Source (rs_fetchKeys r)) ->
  exists o fs, Candidates r = Some (o, fs) /\
    forall c, c ∈ of_Candidates o ->
      let s := cd_Strongest c in
      Stable s = true \/ Grain s = IdentifierGrainInstr ->
      exists u h, findUserChoice r (MkPick (cd_Datasource c) s) = Some (Ok u) /\ head (uc_claims u) = Some h /\
        s ∈ AllIDs (cl_Instr h) /\ uc_via u ∈ AllIDs (cl_Instr h) /\ Stable (uc_via u) = true /\
        (Grain s = IdentifierGrainInstr -> candidateOf (uc_claims u) = Some (Some c)).
Proof.
  intros Hsent Hnd Hsrc. assert (forall fk, fk ∈ rs_fetchKeys r -> is_served fk = true -> is_Some (fk_SentID fk)) as Hsent'
    by (intros fk Hfk Hs%bool_decide_eq_true; by apply Hsent).
  destruct (offered_sets r Hsent' Hnd) as (cs & fs & us & sets & Eo & Es & Hset & Hcs).
  pose proof (gs_sub _ _ _ Hset) as G1.
  assert (forall i a, sets !! i = Some a -> exists h, set_head a = Some h /\ h ∈ cs /\ forall c, c ∈ a -> is_Some (cl_fetchKey c)) as Hheads.
  { intros i a Ha. destruct (G1 i a Ha) as [Hne Hsub]. destruct a as [|h t]; [done |]. exists h. split; [done |].
    assert (forall c, c ∈ h :: t -> c ∈ cs) as Hin by (intros; by eapply elem_of_sublist). split; [apply Hin; by left |].
    intros c (fk & gs & _ & _ & -> & _)%Hin%Hcs. eauto. }
  destruct (offer_loop (MkOffer [] ((if bool_decide (rs_outcome r = ResolutionOutcomeNone) then [] else reasons (rs_reason r)) ++ us)) sets) as (o & Eof & Hof).
  { intros a [i Hi]%list_elem_of_lookup. destruct (Hheads i a Hi) as (h & ? & _ & ?). eauto. }
  unfold Candidates. rewrite Eo. simpl. rewrite Es. simpl. rewrite Eof. simpl. eexists _, _. split; [reflexivity |].
  intros c Hc Hs. set (s := cd_Strongest c) in *. apply Hof in Hc as [[]%not_elem_of_nil|(a & [i Hi]%list_elem_of_lookup & Hconf & Hcand)].
  destruct (Hheads i a Hi) as (h & Hh & Hhcs & _). destruct (candidateOf_head a c h Hcand Hh) as (fk & Hfk & Hds & Hstr). fold s in Hstr.
  destruct (Hcs h Hhcs) as (fk' & gs & Hin & Hsv & Hfk' & Hgs & Hhg). assert (fk' = fk) as -> by congruence.
  pose proof (strongest_elem h s Hstr) as Hsin.
  destruct (picked_set r sets cs i a h fk gs (MkPick (fk_Source fk) s)) as (a' & h' & Ef & Hh' & Hfkh' & Hs' & Hsame); try done.
  unfold findUserChoice. simpl. rewrite Hds, (find_key fk_Source) by done. unfold is_served in Hsv. rewrite Hsv. simpl.
  rewrite Eo. simpl. rewrite Es. simpl. rewrite Ef. destruct (Stable s) eqn:Est.
  - eexists _, h'. split; [reflexivity |]. simpl. repeat (split; [done |]). intros Hg. rewrite Hsame; [done |]. by apply bool_decide_eq_true.
  - destruct Hs as [?|Hg]; [done |]. assert (a' = a) as -> by (apply Hsame; by apply bool_decide_eq_true).
    assert (h' = h) as -> by congruence. rewrite Hh. simpl. unfold confirmable in Hconf. rewrite Hh in Hconf. apply bool_decide_eq_true in Hconf as [via Hvia].
    rewrite Hvia. simpl. apply strongestStable_elem in Hvia as [? ?]. eexists _, h. split; [reflexivity |]. done.
Qed.

(** [p] names a candidate that [Candidates] offers, by the datasource and the
    strongest identifier of its head, which is stable or of the instrument grain. *)
Definition offers (r : resolution) (p : Pick) : Prop :=
  exists o fs c, Candidates r = Some (o, fs) /\ c ∈ of_Candidates o /\ p = MkPick (cd_Datasource c) (cd_Strongest c) /\
    (Stable (cd_Strongest c) = true \/ Grain (cd_Strongest c) = IdentifierGrainInstr).

(** No such candidate is refused. *)
Lemma offers_found r p :
  (forall fk, fk ∈ rs_fetchKeys r -> is_served fk = true -> is_Some (fk_SentID fk)) -> NoDup (map fk_ID (rs_fetchKeys r)) -> NoDup (map fk_Source (rs_fetchKeys r)) ->
  offers r p -> exists u, findUserChoice r p = Some (Ok u).
Proof.
  intros Hsent Hnd Hsrc (o & fs & c & Ho & Hc & -> & Hg).
  destruct (confirm_offered r) as (o' & fs' & Ho' & H); [intros fk Hfk Hs; apply Hsent; [done |]; by apply bool_decide_eq_true | done | done |].
  assert (o' = o) as -> by congruence. destruct (H c Hc Hg) as (u & h & Hu & _). by exists u.
Qed.

(** * A resolution *)

Definition ex_isin (v : string) : Identifier := MkIdentifier IdentifierTypeIsin "" v.
Definition ex_ticker (venue v : string) : Identifier := MkIdentifier IdentifierTypeMicTicker venue v.

Definition ex_mics : MICMap := mic_Load [("XNAS"%string, "XNAS"%string, "US"%string); ("XLON"%string, "XLON"%string, "GB"%string)].
Definition ex_families : Families := {["USD"%string := "USD"%string; "GBP"%string := "GBP"%string; "GBX"%string := "GBP"%string]}.

(** A user states the bare ticker ABC. *)
Definition ex_key : StatedKey := MkStatedKey 7 1 None None [ex_ticker "" "ABC"] None None None None.

Definition ex_fk (source : string) (id : uuid) (ls : list MarketListing) : fetchKey :=
  MkFetchKey ex_key 3 source id FetchOutcomeServed (Some (ex_ticker "" "ABC")) "" (MkIdentityResult [ex_ticker "" "ABC"] ls false false)
    (100 * day_len) 1 false.

(** Two datasources know a stock of the ticker in New York, and the first
    another one in London, quoted in pence. *)
Definition ex_fks : list fetchKey :=
  [ex_fk "A" 11 [MkMarketListing [ex_isin "US1"; ex_ticker "XNAS" "ABC"] AssetClassStock "USD" "XNAS";
                 MkMarketListing [ex_isin "GB2"; ex_ticker "XLON" "ABC"] AssetClassStock "GBX" ""];
   ex_fk "B" 12 [MkMarketListing [ex_isin "US1"] AssetClassUnknown "USD" ""]].

Definition ex_res : resolution :=
  let r := prepared ex_families ex_mics ex_key in
  MkResolution (rs_row r) (rs_globalAndDescriptionIDs r) (rs_family r) (rs_families r) None (rs_mics r) ex_fks [] ResolutionOutcomeNone ""
    None None [] false ∅ [].

Definition ex_claims : list identityClaim := match offeredClaims ex_res with Some (cs, _, _) => cs | None => [] end.

Example ex_offer :
  (o ← Candidates ex_res; Some (map (fun c => (cd_Datasource c, cd_Attached c, id_Value (cd_Strongest c))) (of_Candidates o.1))) =
  Some [("A", ["B"], "US1"); ("A", [], "GB2")]%string.
Proof. vm_compute. reflexivity. Qed.

Lemma choose_consistent_witness : exists v, choose ex_res None (take 1 ex_claims) = Some v /\ vd_attached v = take 1 ex_claims.
Proof.
  destruct (choose_consistent ex_res None (take 1 ex_claims)) as (v & E & _ & _ & _ & H).
  - apply Forall_forall. vm_compute. repeat constructor; eauto.
  - exists v. split; [exact E |]. vm_compute in E. injection E as <-. vm_compute. reflexivity.
Defined.

Lemma gather_spec_witness : exists sets, gatherConsistentClaims ex_res ex_claims = Some sets /\ length sets = 2%nat.
Proof.
  destruct (gather_spec ex_res ex_claims) as (sets & E & _).
  - refine (bool_decide_unpack _ _). vm_compute. exact I.
  - apply Forall_forall. vm_compute. repeat constructor; eauto.
  - exists sets. split; [exact E |]. vm_compute in E. injection E as <-. reflexivity.
Defined.

Lemma confirm_offered_witness : exists u, findUserChoice ex_res (MkPick "A" (ex_isin "US1")) = Some (Ok u) /\ uc_via u = ex_isin "US1".
Proof.
  destruct (confirm_offered ex_res) as (o & fs & E & H).
  - apply (Forall_forall (fun fk => fk_Outcome fk = FetchOutcomeServed -> is_Some (fk_SentID fk))). vm_compute. repeat constructor; eauto.
  - refine (bool_decide_unpack _ _). vm_compute. exact I.
  - refine (bool_decide_unpack _ _). vm_compute. exact I.
  - vm_compute in E. injection E as <- <-. destruct (H _ (list_elem_of_here _ _)) as (u & h & Hu & _).
    + left. reflexivity.
    + exists u. split; [exact Hu |]. vm_compute in Hu. by injection Hu as <-.
Defined.
