(* ===== verification/Fetch.v ===== *)
(** Fetches, [server/internal/market]: the retry loop of a call
    ([request.go]), the limiter of a datasource ([registry.go]), the cache key
    ([cache.go]) and a fetch from its requests to its rows ([fetch.go]).

    The clock, the sleep, the rate limiter, the random jitter and the provider
    are a world the code acts on through the interface [World]. The cache is a
    map of answers; its JSON and its expiry are left out, and so are the errors
    of the drivers, the log and the metrics. *)
From S2P Require Import Prelude Types Period Rows Market.

(** * Parameters of a fetch, [market.go] *)

Inductive Scope : Type :=
| ScopeKey
| ScopeDatasource
| ScopeRequest.

#[export] Instance Scope_eq_dec : EqDecision Scope.
Proof. solve_decision. Defined.

Record Failure : Type := MkFailure {
  fl_Temporary : bool;
  fl_Scope : Scope;
  fl_Reason : string;
  fl_RetryAfter : Z;
}.

Record Request (Q : Type) : Type := MkRequest {
  rq_Value : Q;
  rq_Sent : Identifier;
}.
Arguments MkRequest {Q} _ _.
Arguments rq_Value {Q} _.
Arguments rq_Sent {Q} _.

(** [market.Response]: the provider's answer, or its error for that request
    alone. *)
Abbreviation Response E P := (res E P) (only parsing).

(** What a fetch acts on. A failing operation answers an error. *)
Class World (W E Q P : Type) : Type := {
  w_now : W -> time * W;
  w_sleep : W -> Z -> option E * W;
  (** [rate.Limiter.Wait]. *)
  w_rate : W -> option E * W;
  (** [Server.Fetch]. *)
  w_Fetch : W -> list (Request Q) -> res E (list (Response E P)) * W;
  (** [rand.N], of a positive bound. *)
  w_rand : W -> Z -> Z * W;
}.

(** The integration of a datasource, and its server for one kind of data. *)
Record Integration (E : Type) : Type := MkIntegration {
  ig_Classify : E -> Failure;
  ig_Error : E -> string;
  (** [fmt.Errorf("rate limit: %w", err)]. *)
  ig_RateLimit : E -> E;
  ig_Batch : Z;
}.
Arguments ig_Classify {E} _ _.
Arguments ig_Error {E} _ _.
Arguments ig_RateLimit {E} _ _.
Arguments ig_Batch {E} _.

Record Server (Q : Type) : Type := MkServer {
  sr_Serves : Q -> res string Identifier;
  sr_Params : Q -> list string;
}.
Arguments sr_Serves {Q} _ _.
Arguments sr_Params {Q} _ _.

(** [Kind], with nil functions as their empty answers. *)
Record Kind (Q P : Type) : Type := MkKind {
  kd_name : string;
  kd_server : option (Server Q);
  kd_statedKey : Q -> option uuid;
  kd_count : P -> Z;
  kd_params : Q -> list string;
  kd_asked : Q -> option Period;
}.
Arguments kd_name {Q P} _.
Arguments kd_server {Q P} _.
Arguments kd_statedKey {Q P} _ _.
Arguments kd_count {Q P} _ _.
Arguments kd_params {Q P} _ _.
Arguments kd_asked {Q P} _ _.

(** * The limiter, [registry.go] *)

(** Without its [rate.Limiter]. *)
Record limiter : Type := MkLimiter {
  lm_wait : time;
  lm_until : time;
  lm_why : string;
}.

Definition waits (l : limiter) (now : time) : Z := Z.max (lm_wait l - now) 0.

Definition waitUntil (l : limiter) (t : time) : limiter :=
  if lm_wait l <? t then MkLimiter t (lm_until l) (lm_why l) else l.

Definition pause (l : limiter) (t : time) (why : string) : limiter :=
  if lm_until l <? t then MkLimiter (lm_wait l) t why else l.

(** The reason [paused] gives; the text of the moment is a parameter. *)
Definition paused (format : time -> string) (l : limiter) (now : time) : option string :=
  if negb (now <? lm_until l) then None
  else Some ("paused until " +:+ format (lm_until l) +:+ " after: " +:+ lm_why l).

(** * One call with its retries, [request.go] *)

Definition retryBase : Z := 250 * 1000000.
Definition retryMax : Z := 2 * 1000000000.
Definition retryTries : Z := 3.

Section Request.
Context {W E Q P : Type} `{World W E Q P}.
Variables (ig : Integration E) (format : time -> string) (base tries : Z).

Definition reasonOf (fail : Failure) (text : string) : string := if bool_decide (fl_Reason fail = ""%string) then text else fl_Reason fail.

(** A [pausedError], or any other error. *)
Definition req_error : Type := string + E.

Definition req_result : Type := res req_error (list (Response E P)) * Z * limiter * W.

(** The failing call's end: what the loop does with [err]. A pause of the
    datasource is noted first. *)
Definition note_pause (fail : Failure) (err : E) (l : limiter) (w : W) : limiter * W :=
  if fl_Temporary fail && bool_decide (fl_Scope fail = ScopeDatasource) && (0 <? fl_RetryAfter fail)
  then let '(now, w) := w_now w in (pause l (now + fl_RetryAfter fail) (reasonOf fail (ig_Error ig err)), w)
  else (l, w).

(** The loop [for attempt := 1; ; attempt++]. A call is made at most once a
    turn, and the loop ends at the turn [tries], so [tries] turns are fuel. *)
Fixpoint request_loop (fuel : nat) (reqs : list (Request Q)) (attempt wait : Z) (l : limiter) (w : W) : option req_result :=
  match fuel with
  | O => None
  | S fuel =>
      let '(now, w) := w_now w in
      match paused format l now with
      | Some reason => Some (Err (inl reason), attempt - 1, l, w)
      | None =>
          let '(now, w) := w_now w in
          let d := waits l now in
          let '(err, w) := if 0 <? d then w_sleep w d else (None, w) in
          match err with
          | Some err => Some (Err (inr err), attempt - 1, l, w)
          | None =>
              let '(err, w) := w_rate w in
              match err with
              | Some err => Some (Err (inr (ig_RateLimit ig err)), attempt - 1, l, w)
              | None =>
                  let '(resps, w) := w_Fetch w reqs in
                  match resps with
                  | Ok resps => Some (Ok resps, attempt, l, w)
                  | Err err =>
                      let fail := ig_Classify ig err in
                      let '(l, w) := note_pause fail err l w in
                      if negb (fl_Temporary fail) || bool_decide (fl_Scope fail = ScopeDatasource) || (tries <=? attempt)
                      then Some (Err (inr err), attempt, l, w)
                      else if 0 <? fl_RetryAfter fail then
                        let d := Z.min (fl_RetryAfter fail) retryMax in
                        let '(now, w) := w_now w in
                        request_loop fuel reqs (attempt + 1) wait (waitUntil l (now + d)) w
                      else
                        let '(jitter, w) := w_rand w (Z.quot wait 2 + 1) in
                        let '(err, w) := w_sleep w (Z.min (wait + jitter) retryMax) in
                        match err with
                        | Some err => Some (Err (inr err), attempt, l, w)
                        | None => request_loop fuel reqs (attempt + 1) (Z.min (wait * 2) retryMax) l w
                        end
                  end
              end
          end
      end
  end.

Definition request (reqs : list (Request Q)) (l : limiter) (w : W) : option req_result :=
  request_loop (Z.to_nat (Z.max 1 tries)) reqs 1 base l w.

End Request.

(** * Blocks *)

Inductive BlockScope : Type :=
| BlockScopeIdentifier
| BlockScopeDomain
| BlockScopeDatasource.

#[export] Instance BlockScope_eq_dec : EqDecision BlockScope.
Proof. solve_decision. Defined.

(** A row of [datasource_blocks], of one datasource and kind and uncleared. *)
Record DatasourceBlock : Type := MkDatasourceBlock {
  bk_ID : uuid;
  bk_Scope : BlockScope;
  bk_SentType : option IdentifierType;
  bk_SentDomain : string;
  bk_SentValue : option string;
  bk_Reason : string;
  bk_FetchKeyID : uuid;
}.

(** [gen.CreateDatasourceBlockParams] is the row before its id is minted. *)
Definition with_ID (b : DatasourceBlock) (id : uuid) : DatasourceBlock :=
  MkDatasourceBlock id (bk_Scope b) (bk_SentType b) (bk_SentDomain b) (bk_SentValue b) (bk_Reason b) (bk_FetchKeyID b).

(** [sentColumns]. *)
Definition sentColumns (id : Identifier) : option IdentifierType * string * option string :=
  if IsDomain id then (Some (id_Type id), id_Domain id, None) else (Some (id_Type id), id_Domain id, Some (id_Value id)).

(** [sent] of [db/to/to.go], which [BlockSent] applies to a block. *)
Definition sent_of (typ : option IdentifierType) (domain : string) (value : option string) : option Identifier :=
  t ← typ; Some (MkIdentifier t domain (default ""%string value)).

Definition BlockSent (b : DatasourceBlock) : option Identifier := sent_of (bk_SentType b) (bk_SentDomain b) (bk_SentValue b).

(** [identifierBlock]; the outer option is a nil dereference. *)
Definition identifierBlock {Q P} (r : FetchKey Q P) : option DatasourceBlock :=
  sent ← fk_SentID r;
  let scope := if IsDomain sent then BlockScopeDomain else BlockScopeIdentifier in
  let '(t, d, v) := sentColumns sent in
  Some (MkDatasourceBlock 0 scope t d v (fk_Reason r) (fk_ID r)).

Record blockSet : Type := MkBlockSet {
  bs_datasource : string;
  bs_all : bool;
  bs_identifier : gmap Identifier string;
}.

Definition newBlockSet_step (b : blockSet) (row : DatasourceBlock) : blockSet :=
  if bool_decide (bk_Scope row = BlockScopeDatasource) then MkBlockSet (bk_Reason row) true (bs_identifier b)
  else match BlockSent row with
       | Some id => MkBlockSet (bs_datasource b) (bs_all b) (<[id := bk_Reason row]> (bs_identifier b))
       | None => b
       end.

Definition newBlockSet (rows : list DatasourceBlock) : blockSet := foldl newBlockSet_step (MkBlockSet "" false ∅) rows.

(** [add]; [None] is the nil dereference of a block without a type. *)
Definition add_block (b : blockSet) (bl : DatasourceBlock) : option blockSet :=
  if bool_decide (bk_Scope bl = BlockScopeDatasource) then Some (MkBlockSet (bk_Reason bl) true (bs_identifier b))
  else t ← bk_SentType bl;
       Some (MkBlockSet (bs_datasource b) (bs_all b)
               (<[MkIdentifier t (bk_SentDomain bl) (default ""%string (bk_SentValue bl)) := bk_Reason bl]> (bs_identifier b))).

Definition add_blocks (b : blockSet) (bls : list DatasourceBlock) : option blockSet := opt_fold add_block b bls.

Definition covers (b : blockSet) (id : Identifier) : option string :=
  if bs_all b then Some (bs_datasource b) else bs_identifier b !! id.

(** * Cached answers, [cache.go] *)

Definition keyPrefix : string := "stonks:fetch:v1:".

(** [strings.Join] of the parts, by colons. *)
Fixpoint colons (parts : list string) : string :=
  match parts with
  | [] => ""
  | [s] => s
  | s :: parts' => s +:+ ":" +:+ colons parts'
  end.

Definition cacheKey (datasource kind : string) (sent : Identifier) (params : list string) : string :=
  keyPrefix +:+ colons ([datasource; kind; IdentifierType_string (id_Type sent); id_Domain sent; id_Value sent] ++ params).

Record cacheEntry (P : Type) : Type := MkCacheEntry {
  ce_At : time;
  ce_Answer : P;
}.
Arguments MkCacheEntry {P} _ _.
Arguments ce_At {P} _.
Arguments ce_Answer {P} _.

(** A nil cache is [None]. *)
Abbreviation Cache P := (option (gmap string (cacheEntry P))) (only parsing).

(** * A fetch, [fetch.go] *)

(** Setters of a fetch key. *)
Section Setters.
Context {Q P : Type}.
Implicit Types (r : FetchKey Q P).

Definition fk_fail (o : FetchOutcome) (reason : string) r : FetchKey Q P :=
  MkFetchKey (fk_Request r) (fk_Run r) (fk_Source r) (fk_ID r) o (fk_SentID r) reason (fk_Response r) (fk_AnsweredAt r) (fk_attempts r) (fk_cached r).

Definition fk_send (sent : Identifier) r : FetchKey Q P :=
  MkFetchKey (fk_Request r) (fk_Run r) (fk_Source r) (fk_ID r) (fk_Outcome r) (Some sent) (fk_Reason r) (fk_Response r) (fk_AnsweredAt r)
    (fk_attempts r) (fk_cached r).

Definition fk_serve (v : P) (at_ : time) r : FetchKey Q P :=
  MkFetchKey (fk_Request r) (fk_Run r) (fk_Source r) (fk_ID r) FetchOutcomeServed (fk_SentID r) (fk_Reason r) v at_ (fk_attempts r) (fk_cached r).

Definition fk_hit (e : cacheEntry P) r : FetchKey Q P :=
  MkFetchKey (fk_Request r) (fk_Run r) (fk_Source r) (fk_ID r) FetchOutcomeServed (fk_SentID r) (fk_Reason r) (ce_Answer e) (ce_At e)
    (fk_attempts r) true.

Definition fk_tried (n : Z) r : FetchKey Q P :=
  MkFetchKey (fk_Request r) (fk_Run r) (fk_Source r) (fk_ID r) (fk_Outcome r) (fk_SentID r) (fk_Reason r) (fk_Response r) (fk_AnsweredAt r) n (fk_cached r).

End Setters.

Section Fetch.
Context {W E Q P : Type} `{World W E Q P}.
Variables (ig : Integration E) (format : time -> string) (base tries : Z).
(** The zero response. *)
Variable (zero : P).
Implicit Types (fks : list (FetchKey Q P)).

(** [requestFailed]: the keys [batch] fail with [fail]. *)
Definition requestFailed (fail : Failure) (text : string) fks (batch : list nat) (attempts : Z) :
    option (list (FetchKey Q P) * list DatasourceBlock) :=
  let outcome := if fl_Temporary fail then FetchOutcomeFailedTemporary else FetchOutcomeFailedPermanent in
  let reason := reasonOf fail text in
  let fks := foldl (fun fks i => alter (fun r => fk_tried attempts (fk_fail outcome reason r)) i fks) fks batch in
  if fl_Temporary fail || bool_decide (fl_Scope fail = ScopeRequest) then Some (fks, [])
  else if bool_decide (fl_Scope fail = ScopeDatasource) then
    i ← head batch;
    r ← fks !! i;
    Some (fks, [MkDatasourceBlock 0 BlockScopeDatasource None "" None reason (fk_ID r)])
  else
    blocks ← mapM (fun i => r ← fks !! i; identifierBlock r) batch;
    Some (fks, blocks).

(** The loop over the keys of a call that returned [resps]; the position in the
    batch is the head of what is left of [resps]. *)
Fixpoint answer_keys (attempts : Z) fks (blocks : list DatasourceBlock) (batch : list nat) (resps : list (Response E P)) (w : W) :
    option (list (FetchKey Q P) * list DatasourceBlock * W) :=
  match batch with
  | [] => Some (fks, blocks, w)
  | i :: batch' =>
      match resps with
      | [] =>
          answer_keys attempts
            (alter (fun r => fk_fail FetchOutcomeFailedTemporary "the datasource returned fewer results than it was sent" (fk_tried attempts r)) i fks)
            blocks batch' [] w
      | Ok v :: resps' =>
          let '(now, w) := w_now w in
          answer_keys attempts (alter (fun r => fk_serve v now (fk_tried attempts r)) i fks) blocks batch' resps' w
      | Err e :: resps' =>
          let fail := ig_Classify ig e in
          let outcome := if fl_Temporary fail then FetchOutcomeFailedTemporary else FetchOutcomeFailedPermanent in
          let fks := alter (fun r => fk_fail outcome (reasonOf fail (ig_Error ig e)) (fk_tried attempts r)) i fks in
          blocks ← (if fl_Temporary fail || bool_decide (fl_Scope fail = ScopeRequest) then Some blocks
                    else r ← fks !! i; b ← identifierBlock r; Some (blocks ++ [b]));
          answer_keys attempts fks blocks batch' resps' w
      end
  end.

(** [fetchChunk]: the keys, the blocks its failures require, and what it leaves
    of the limiter and the world. *)
Definition fetchChunk fks (batch : list nat) (l : limiter) (w : W) :
    option (list (FetchKey Q P) * list DatasourceBlock * limiter * W) :=
  reqs ← mapM (fun i => r ← fks !! i; sent ← fk_SentID r; Some (MkRequest (fk_Request r) sent)) batch;
  '(result, attempts, l, w) ← request ig format base tries reqs l w;
  match result with
  | Err (inl why) =>
      '(fks, blocks) ← requestFailed (MkFailure true ScopeDatasource why 0) why fks batch attempts;
      Some (fks, blocks, l, w)
  | Err (inr e) =>
      '(fks, blocks) ← requestFailed (ig_Classify ig e) (ig_Error ig e) fks batch attempts;
      Some (fks, blocks, l, w)
  | Ok resps =>
      '(fks, blocks, w) ← answer_keys attempts fks [] batch resps w;
      Some (fks, blocks, l, w)
  end.

(** [chunks]; each run but the last takes [n], so the length is fuel. *)
Fixpoint chunk_loop {A} (fuel : nat) (batch : list A) (n : nat) : list (list A) :=
  match fuel, batch with
  | S fuel, _ :: _ => take n batch :: chunk_loop fuel (drop n batch) n
  | _, _ => []
  end.

Definition chunks {A} (batch : list A) (n : Z) : list (list A) :=
  match batch with
  | [] => []
  | _ => if n <=? 0 then [batch] else chunk_loop (length batch) batch (Z.to_nat n)
  end.

(** The first loop of [fetchRun]: each request's key, the places of those the
    server serves, and their cache keys. *)
Record starting : Type := MkStarting {
  sg_keys : list (FetchKey Q P);
  sg_served : list nat;
  sg_cacheKeys : gmap nat string;
}.

Definition start_key (source : string) (run : uuid) (kind : Kind Q P) (next : uuid) (st : starting) (q : Q) : starting :=
  let i := length (sg_keys st) in
  let r := MkFetchKey q run source (next + N.of_nat i)%N FetchOutcomeNone None "" zero zero_time 0 false in
  match kd_server kind with
  | None => MkStarting (sg_keys st ++ [fk_fail FetchOutcomeNotServed ("the datasource serves no " +:+ kd_name kind) r]) (sg_served st) (sg_cacheKeys st)
  | Some s =>
      match sr_Serves s q with
      | Err e => MkStarting (sg_keys st ++ [fk_fail FetchOutcomeNotServed e r]) (sg_served st) (sg_cacheKeys st)
      | Ok sent =>
          MkStarting (sg_keys st ++ [fk_send sent r]) (sg_served st ++ [i])
            (<[i := cacheKey source (kd_name kind) sent (kd_params kind q ++ sr_Params s q)]> (sg_cacheKeys st))
      end
  end.

(** [readCache]. A Go map answers the empty string for a place it lacks. *)
Definition readCache (cache : Cache P) (fresh : bool) fks (served : list nat) (cacheKeys : gmap nat string) : list (FetchKey Q P) :=
  match cache with
  | Some c =>
      if fresh then fks
      else foldl (fun fks i => match c !! default ""%string (cacheKeys !! i) with
             | Some e => alter (fk_hit e) i fks
             | None => fks end) fks served
  | None => fks
  end.

Definition writeCache (cache : Cache P) fks (batch : list nat) (cacheKeys : gmap nat string) : Cache P :=
  c ← cache;
  Some (foldl (fun c i => match fks !! i with
    | Some r => if bool_decide (fk_Outcome r = FetchOutcomeServed)
                then <[default ""%string (cacheKeys !! i) := MkCacheEntry (fk_AnsweredAt r) (fk_Response r)]> c else c
    | None => c end) c batch).

(** The key at [i] against the blocks: kept to be sent, or blocked. *)
Definition block_step (blocked : blockSet) (st : list (FetchKey Q P) * list nat) (i : nat) : option (list (FetchKey Q P) * list nat) :=
  let '(fks, send) := st in
  r ← fks !! i;
  sent ← fk_SentID r;
  Some (match covers blocked sent with
        | Some reason => (alter (fk_fail FetchOutcomeBlocked reason) i fks, send)
        | None => (fks, send ++ [i])
        end).

(** The second loop, which skips the keys the cache answered. *)
Definition batch_step (blocked : blockSet) (st : list (FetchKey Q P) * list nat) (i : nat) : option (list (FetchKey Q P) * list nat) :=
  r ← st.1 !! i;
  if fk_cached r then Some st else block_step blocked st i.

Record fetching : Type := MkFetching {
  fg_keys : list (FetchKey Q P);
  fg_blocked : blockSet;
  fg_pending : list DatasourceBlock;
  fg_limiter : limiter;
  fg_world : W;
}.

Definition chunk_step (st : fetching) (chunk : list nat) : option fetching :=
  '(fks, send) ← opt_fold (block_step (fg_blocked st)) (fg_keys st, []) chunk;
  match send with
  | [] => Some (MkFetching fks (fg_blocked st) (fg_pending st) (fg_limiter st) (fg_world st))
  | _ =>
      '(fks, blocks, l, w) ← fetchChunk fks send (fg_limiter st) (fg_world st);
      blocked ← add_blocks (fg_blocked st) blocks;
      Some (MkFetching fks blocked (fg_pending st ++ blocks) l w)
  end.

(** [fetchRun] up to its transaction: the fetch keys, the pending blocks and the
    cache, the limiter and the world it leaves. [next] is the first id
    [db.NewID] mints. *)
Definition fetch_keys (source : string) (run next : uuid) (kind : Kind Q P) (open : list DatasourceBlock) (cache : Cache P) (fresh : bool)
    (reqs : list Q) (l : limiter) (w : W) : option (fetching * Cache P) :=
  let blocked := newBlockSet open in
  let st := foldl (start_key source run kind next) (MkStarting [] [] ∅) reqs in
  let fks := readCache cache fresh (sg_keys st) (sg_served st) (sg_cacheKeys st) in
  '(fks, batch) ← opt_fold (batch_step blocked) (fks, []) (sg_served st);
  fg ← opt_fold chunk_step (MkFetching fks blocked [] l w) (chunks batch (ig_Batch ig));
  Some (fg, writeCache cache (fg_keys fg) batch (sg_cacheKeys st)).

End Fetch.

(** * The rows a fetch writes, [005_datasources.sql] *)

(** Go's conversion to [int16]. *)
Definition int16 (x : Z) : Z := (x + 32768) mod 65536 - 32768.

(** [gen.CreateFetchKeyParams], of one fetch. *)
Record FetchKeyParams : Type := MkFetchKeyParams {
  cf_ID : uuid;
  cf_FetchID : uuid;
  cf_StatedKeyID : option uuid;
  cf_Outcome : FetchOutcome;
  cf_Attempts : Z;
  cf_SentType : option IdentifierType;
  cf_SentDomain : string;
  cf_SentValue : option string;
  cf_Reason : option string;
  cf_Candidates : Z;
  cf_AnsweredAt : option time;
  cf_AskedFrom : option time;
  cf_AskedBefore : option time;
}.

(** [record]. *)
Definition record_key {Q P} (run : uuid) (kind : Kind Q P) (r : FetchKey Q P) : FetchKeyParams :=
  let '(t, d, v) := match fk_SentID r with Some sent => sentColumns sent | None => (None, ""%string, None) end in
  let asked := kd_asked kind (fk_Request r) in
  let served := bool_decide (fk_Outcome r = FetchOutcomeServed) in
  MkFetchKeyParams (fk_ID r) run (kd_statedKey kind (fk_Request r)) (fk_Outcome r) (int16 (fk_attempts r)) t d v
    (if served then None else Some (fk_Reason r)) (if served then int16 (kd_count kind (fk_Response r)) else 0)
    (if served then Some (fk_AnsweredAt r) else None) (p_From <$> asked) (p_Before <$> asked).

(** The CHECK constraints of [fetch_keys]; the empty outcome is no value of the
    enum. *)
Definition fetch_key_checks (r : FetchKeyParams) : bool :=
  let served := bool_decide (cf_Outcome r = FetchOutcomeServed) in
  let unsent := bool_decide (cf_SentType r = None) in
  negb (bool_decide (cf_Outcome r = FetchOutcomeNone))
  && Bool.eqb (bool_decide (cf_Outcome r = FetchOutcomeNotServed)) unsent
  && (bool_decide (cf_SentValue r = None) || negb unsent)
  && (unsent || negb (bool_decide (cf_SentValue r = None)) || negb (bool_decide (cf_SentDomain r = ""%string)))
  && (negb unsent || bool_decide (cf_SentDomain r = ""%string))
  && Bool.eqb served (bool_decide (cf_Reason r = None))
  && Bool.eqb served (negb (bool_decide (cf_AnsweredAt r = None)))
  && (negb (contains [FetchOutcomeNotServed; FetchOutcomeBlocked] (cf_Outcome r)) || (cf_Attempts r =? 0))
  && (served || (cf_Candidates r =? 0))
  && Bool.eqb (bool_decide (cf_AskedFrom r = None)) (bool_decide (cf_AskedBefore r = None))
  && match cf_AskedFrom r, cf_AskedBefore r with Some f, Some b => f <? b | _, _ => true end.

(** The primary key, and UNIQUE (fetch_id, stated_key_id), where a NULL
    conflicts with nothing. *)
Definition fetch_key_conflicts (a b : FetchKeyParams) : bool :=
  bool_decide (cf_ID a = cf_ID b)
  || bool_decide (cf_FetchID a = cf_FetchID b) && bool_decide (cf_StatedKeyID a = cf_StatedKeyID b)
     && negb (bool_decide (cf_StatedKeyID a = None)).

(** [None] is a violated constraint. *)
Definition CreateFetchKey (rows : list FetchKeyParams) (r : FetchKeyParams) : option (list FetchKeyParams) :=
  if fetch_key_checks r && negb (existsb (fetch_key_conflicts r) rows) then Some (rows ++ [r]) else None.

(** The CHECK constraints of [datasource_blocks]. *)
Definition block_checks (b : DatasourceBlock) : bool :=
  Bool.eqb (bool_decide (bk_Scope b = BlockScopeDatasource)) (bool_decide (bk_SentType b = None))
  && Bool.eqb (bool_decide (bk_Scope b = BlockScopeIdentifier)) (negb (bool_decide (bk_SentValue b = None)))
  && (negb (bool_decide (bk_Scope b = BlockScopeDomain)) || negb (bool_decide (bk_SentDomain b = ""%string)))
  && (negb (bool_decide (bk_SentType b = None)) || bool_decide (bk_SentDomain b = ""%string)).

(** The unique indexes of the open blocks of one datasource and kind. *)
Definition block_conflicts (a b : DatasourceBlock) : bool :=
  bool_decide (bk_ID a = bk_ID b)
  || bool_decide (bk_Scope a = bk_Scope b)
     && match bk_Scope a with
        | BlockScopeIdentifier => bool_decide (bk_SentType a = bk_SentType b) && bool_decide (bk_SentDomain a = bk_SentDomain b)
                                  && bool_decide (bk_SentValue a = bk_SentValue b)
        | BlockScopeDomain => bool_decide (bk_SentType a = bk_SentType b) && bool_decide (bk_SentDomain a = bk_SentDomain b)
        | BlockScopeDatasource => true
        end.

(** Nothing is written while an open block of the same scope exists; the number
    of rows written. *)
Definition CreateDatasourceBlock (open : list DatasourceBlock) (b : DatasourceBlock) : option (list DatasourceBlock * nat) :=
  if negb (block_checks b) then None
  else if existsb (block_conflicts b) open then Some (open, 0%nat) else Some (open ++ [b], 1%nat).

(** A turn of the loop over the pending blocks. *)
Definition write_block '(open, found, id) (b : DatasourceBlock) : option (list DatasourceBlock * nat * uuid) :=
  '(open, n) ← CreateDatasourceBlock open (with_ID b id); Some (open, (found + n)%nat, (id + 1)%N).

Section FetchRun.
Context {W E Q P : Type} `{World W E Q P}.
Variables (ig : Integration E) (format : time -> string) (base tries : Z) (zero : P).

(** What a fetch leaves. *)
Record fetched : Type := MkFetched {
  fd_keys : list (FetchKey Q P);
  fd_rows : list FetchKeyParams;
  fd_blocks : list DatasourceBlock;
  fd_found : nat;
  fd_cache : Cache P;
  fd_limiter : limiter;
  fd_world : W;
}.

(** [fetchRun]; [rows] are the fetch keys of the database and [open] its open
    blocks of the datasource and kind. The ids of the fetch keys start at
    [next], and those of the blocks follow them. *)
Definition fetchRun (source : string) (run next : uuid) (kind : Kind Q P) (rows : list FetchKeyParams) (open : list DatasourceBlock)
    (cache : Cache P) (fresh : bool) (reqs : list Q) (l : limiter) (w : W) : option fetched :=
  '(fg, cache) ← fetch_keys ig format base tries zero source run next kind open cache fresh reqs l w;
  rows ← opt_fold (fun rows r => CreateFetchKey rows (record_key run kind r)) rows (fg_keys fg);
  let first := (next + N.of_nat (length reqs))%N in
  '(open, found, _) ← opt_fold write_block (open, 0%nat, first) (fg_pending fg);
  Some (MkFetched (fg_keys fg) rows open found cache (fg_limiter fg) (fg_world fg)).

End FetchRun.

(** * The retries of a call *)

(** A count that only the calls of the provider change, each by [per]. *)
Class Counted (W E Q P : Type) `{World W E Q P} (calls : W -> Z) (per : Z) : Prop := {
  counted_now w : calls (w_now w).2 = calls w;
  counted_sleep w d : calls (w_sleep w d).2 = calls w;
  counted_rate w : calls (w_rate w).2 = calls w;
  counted_Fetch w reqs : calls (w_Fetch w reqs).2 = calls w + per;
  counted_rand w n : calls (w_rand w n).2 = calls w;
}.

#[export] Instance Counted_none {W E Q P : Type} `{World W E Q P} : Counted W E Q P (fun _ => 0) 0.
Proof. by split. Qed.

Section RequestTheory.
Context {W E Q P : Type} `{World W E Q P} {calls : W -> Z} {per : Z} `{!Counted W E Q P calls per}.
Variables (ig : Integration E) (format : time -> string) (base tries : Z).

(** Why a call with its retries ends with an error: the last call failed in a
    way no retry helps, or as often as the retries allow, or the sleep or the
    rate limiter failed. *)
Definition failed_with (reqs : list (Request Q)) (n : Z) (e : E) : Prop :=
  (exists w w', w_Fetch w reqs = (Err e, w') /\
     (fl_Temporary (ig_Classify ig e) = true -> fl_Scope (ig_Classify ig e) = ScopeDatasource \/ tries <= n)) \/
  (exists w d w', w_sleep w d = (Some e, w')) \/
  (exists w e' w', w_rate w = (Some e', w') /\ e = ig_RateLimit ig e').

Definition ended (reqs : list (Request Q)) (n : Z) (r : res req_error (list (Response E P))) : Prop :=
  match r with
  | Ok resps => exists w w', w_Fetch w reqs = (Ok resps, w')
  | Err (inl why) => exists l now, paused format l now = Some why
  | Err (inr e) => failed_with reqs n e
  end.

Lemma note_pause_calls fail err l w l' w' : note_pause (Q := Q) (P := P) ig fail err l w = (l', w') -> calls w' = calls w.
Proof.
  unfold note_pause. case_match; [| by intros [= <- <-]].
  pose proof (counted_now w). destruct (w_now w) as [now w1]. by intros [= <- <-].
Qed.

Lemma request_loop_spec fuel reqs attempt wait l w :
  1 <= attempt -> tries - attempt + 1 <= Z.of_nat fuel -> (1 <= fuel)%nat ->
  exists r n l' w', request_loop ig format tries fuel reqs attempt wait l w = Some (r, n, l', w') /\
    attempt - 1 <= n <= Z.max attempt tries /\ calls w' = calls w + per * (n - (attempt - 1)) /\ ended reqs n r.
Proof.
  revert attempt wait l w. induction fuel as [|fuel IH]; intros attempt wait l w Ha Hf Hf1; [lia |]. simpl.
  pose proof (counted_now w) as H1. destruct (w_now w) as [now w1]. simpl in H1.
  destruct (paused format l now) as [why|] eqn:Ep; [eexists _, _, _, _; split; [reflexivity |]; repeat split; try lia; simpl; eauto |].
  pose proof (counted_now w1) as H2. destruct (w_now w1) as [now2 w2]. simpl in H2.
  assert (exists err w3, (if 0 <? waits l now2 then w_sleep w2 (waits l now2) else (None, w2)) = (err, w3) /\ calls w3 = calls w2 /\
    (forall e, err = Some e -> exists w d w', w_sleep w d = (Some e, w'))) as (err & w3 & -> & H3 & Hs).
  { case_match; [| eexists _, _; split; [reflexivity | done]]. pose proof (counted_sleep w2 (waits l now2)).
    destruct (w_sleep w2 (waits l now2)) as [e w'] eqn:Es. eexists _, _. split; [reflexivity |]. split; [done |]. intros ? ->. eauto. }
  destruct err as [e|].
  { eexists _, _, _, _. split; [reflexivity |]. repeat split; try lia. simpl. right; left. by apply Hs. }
  pose proof (counted_rate w3) as H4. destruct (w_rate w3) as [err w4] eqn:Er. simpl in H4.
  destruct err as [e|].
  { eexists _, _, _, _. split; [reflexivity |]. repeat split; try lia. simpl. right; right. eauto. }
  pose proof (counted_Fetch w4 reqs) as H5. destruct (w_Fetch w4 reqs) as [[resps|e] w5] eqn:Ef; simpl in H5.
  { eexists _, _, _, _. split; [reflexivity |]. repeat split; try lia. simpl. eauto. }
  destruct (note_pause ig (ig_Classify ig e) e l w5) as [l' w6] eqn:En. apply note_pause_calls in En.
  destruct (negb (fl_Temporary (ig_Classify ig e)) || _ || _) eqn:Estop.
  { eexists _, _, _, _. split; [reflexivity |]. repeat split; try lia. simpl. left. eexists _, _. split; [exact Ef |].
    intros Ht. rewrite Ht in Estop. simpl in Estop. apply orb_true_iff in Estop as [Hd%bool_decide_eq_true|Hle]; [by left | right; lia]. }
  apply orb_false_iff in Estop as [_ Hle].
  assert (forall wait l w', calls w' = calls w6 -> exists r n l' w'', request_loop ig format tries fuel reqs (attempt + 1) wait l w' = Some (r, n, l', w'') /\
    attempt - 1 <= n <= Z.max attempt tries /\ calls w'' = calls w + per * (n - (attempt - 1)) /\ ended reqs n r) as Hnext.
  { intros wait0 l0 w0 H6. destruct (IH (attempt + 1) wait0 l0 w0) as (r & n & l'' & w'' & Hr & Hn & Hc & He); try lia.
    exists r, n, l'', w''. repeat split; try done; lia. }
  destruct (0 <? fl_RetryAfter (ig_Classify ig e)).
  - pose proof (counted_now w6). destruct (w_now w6) as [now7 w7]. by apply Hnext.
  - pose proof (counted_rand w6 (Z.quot wait 2 + 1)). destruct (w_rand w6 (Z.quot wait 2 + 1)) as [j w7]. simpl in *.
    pose proof (counted_sleep w7 (Z.min (wait + j) retryMax)). destruct (w_sleep w7 (Z.min (wait + j) retryMax)) as [[e'|] w8] eqn:Es; simpl in *.
    + eexists _, _, _, _. split; [reflexivity |]. repeat split; try lia. simpl. right; left. eauto.
    + apply Hnext. lia.
Qed.

End RequestTheory.

(** A call with its retries always ends, whatever the provider, the clock
    and the limiter do. It makes at most [tries] calls, and one where [tries]
    allows none, and it answers how many it made. It ends with the answer of
    its last call; with a pause of the datasource; or with an error: of a last
    call that was not temporary, that concerned the whole datasource or that
    used the last try, of a sleep, or of the rate limiter. *)
Theorem request_spec {W E Q P : Type} `{World W E Q P} {calls : W -> Z} (ig : Integration E) (format : time -> string) (base tries : Z)
    (reqs : list (Request Q)) (l : limiter) (w : W) :
  Counted W E Q P calls 1 ->
  exists r n l' w', request ig format base tries reqs l w = Some (r, n, l', w') /\
    0 <= n <= Z.max 1 tries /\ calls w' = calls w + n /\ ended (P := P) ig format tries reqs n r.
Proof.
  intros Hc. destruct (request_loop_spec ig format tries (Z.to_nat (Z.max 1 tries)) reqs 1 base l w) as (r & n & l' & w' & Hr & Hn & Hcalls & He);
    [lia | lia | lia |].
  exists r, n, l', w'. split; [exact Hr |]. split; [lia |]. split; [lia | done].
Qed.

(** * The keys of a fetch *)

Lemma covers_add b bl b' id : add_block b bl = Some b' -> is_Some (covers b id) -> is_Some (covers b' id).
Proof.
  unfold add_block, covers. case_bool_decide; [intros [= <-]; by eexists |].
  destruct (bk_SentType bl); simpl; intros [= <-]; simpl. destruct (bs_all b); [done |].
  rewrite lookup_insert_is_Some. destruct (decide (MkIdentifier i (bk_SentDomain bl) (default ""%string (bk_SentValue bl)) = id)); auto.
Qed.

Lemma covers_adds b bls b' id : add_blocks b bls = Some b' -> is_Some (covers b id) -> is_Some (covers b' id).
Proof.
  unfold add_blocks. revert b. induction bls as [|bl bls IH]; intros b; simpl; [by intros [= <-] |].
  destruct (add_block b bl) as [b1|] eqn:E; [| done]. intros Hb Hc. eapply IH; [exact Hb | by eapply covers_add].
Qed.

Section Keys.
Context {W E Q P : Type} `{World W E Q P}.
Variables (ig : Integration E) (format : time -> string) (base tries : Z).
Implicit Types (fks orig : list (FetchKey Q P)) (r : FetchKey Q P) (b open : blockSet) (todo batch : list nat).

(** A key under way. *)
Record waiting r : Prop := {
  waiting_Outcome : fk_Outcome r = FetchOutcomeNone;
  waiting_SentID : is_Some (fk_SentID r);
  waiting_attempts : fk_attempts r = 0;
  waiting_cached : fk_cached r = false;
}.

(** A key with its outcome: whether it was sent, how many calls carried it, and
    the blocks that kept it from a call, [open] when the fetch starts and [b]
    now. *)
Record settled open b r : Prop := {
  settled_Outcome : fk_Outcome r <> FetchOutcomeNone;
  settled_SentID : fk_Outcome r = FetchOutcomeNotServed <-> fk_SentID r = None;
  settled_uncalled : fk_Outcome r = FetchOutcomeNotServed \/ fk_Outcome r = FetchOutcomeBlocked -> fk_attempts r = 0;
  settled_attempts : 0 <= fk_attempts r <= Z.max 1 tries;
  settled_called sent : 0 < fk_attempts r -> fk_SentID r = Some sent -> covers open sent = None;
  settled_blocked sent : fk_Outcome r = FetchOutcomeBlocked -> fk_SentID r = Some sent -> is_Some (covers b sent);
}.

(** What no step of a fetch changes. *)
Definition same_key (r0 r : FetchKey Q P) : Prop :=
  fk_Request r = fk_Request r0 /\ fk_Run r = fk_Run r0 /\ fk_Source r = fk_Source r0 /\ fk_ID r = fk_ID r0 /\ fk_SentID r = fk_SentID r0.

(** The keys [fks] of the fetch that started with [orig], those of [todo]
    under way. *)
Definition under_way open b orig todo fks : Prop :=
  length fks = length orig /\
  forall i r, fks !! i = Some r -> exists r0, orig !! i = Some r0 /\ same_key r0 r /\ if decide (i ∈ todo) then waiting r else settled open b r.

Lemma settled_weaken open b b' r : (forall id, is_Some (covers b id) -> is_Some (covers b' id)) -> settled open b r -> settled open b' r.
Proof. intros Hb [H1 H2 H3 H4 H5 H6]. split; eauto. Qed.

Lemma under_way_weaken open b b' orig todo fks :
  (forall id, is_Some (covers b id) -> is_Some (covers b' id)) -> under_way open b orig todo fks -> under_way open b' orig todo fks.
Proof.
  intros Hb [Hl Hk]. split; [done |]. intros i r Hr. destruct (Hk i r Hr) as (r0 & ? & ? & Hw). exists r0. split; [done |]. split; [done |].
  case_decide; [done | by eapply settled_weaken].
Qed.

Lemma under_way_perm open b orig todo todo' fks :
  todo ≡ₚ todo' -> under_way open b orig todo fks -> under_way open b orig todo' fks.
Proof.
  intros Hp [Hl Hk]. split; [done |]. intros i r Hr. destruct (Hk i r Hr) as (r0 & ? & ? & Hw). exists r0. split; [done |]. split; [done |].
  assert (i ∈ todo <-> i ∈ todo') as Hi by (by rewrite Hp). case_decide; case_decide; tauto.
Qed.

(** A step settles the key at [i]. *)
Lemma under_way_settle open b orig i todo fks f :
  under_way open b orig (i :: todo) fks -> i ∉ todo ->
  (forall r, fks !! i = Some r -> waiting r -> same_key r (f r) /\ settled open b (f r)) ->
  under_way open b orig todo (alter f i fks).
Proof.
  intros [Hl Hk] Hi Hf. split; [by rewrite length_alter |]. intros j r Hj. destruct (decide (j = i)) as [->|Hne].
  - rewrite list_lookup_alter_eq in Hj. apply fmap_Some in Hj as (r1 & Hr1 & ->).
    destruct (Hk i r1 Hr1) as (r0 & Hr0 & Hs & Hw). rewrite decide_True in Hw by by left.
    destruct (Hf r1 Hr1 Hw) as [Hs' Hset]. exists r0. split; [done |]. split.
    + unfold same_key in *. intuition congruence.
    + by rewrite decide_False.
  - rewrite list_lookup_alter_ne in Hj by done. destruct (Hk j r Hj) as (r0 & Hr0 & Hs & Hw). exists r0. split; [done |]. split; [done |].
    destruct (decide (j ∈ todo)); [by rewrite decide_True in Hw by by right |]. rewrite decide_False in Hw; [done |]. by intros [->|?]%elem_of_cons.
Qed.

Lemma under_way_lookup open b orig todo fks i : under_way open b orig todo fks -> i ∈ todo -> (i < length orig)%nat ->
  exists r, fks !! i = Some r /\ waiting r.
Proof.
  intros [Hl Hk] Hi Hlt. destruct (lookup_lt_is_Some_2 fks i ltac:(lia)) as [r Hr]. exists r. split; [done |].
  destruct (Hk i r Hr) as (r0 & _ & _ & Hw). by rewrite decide_True in Hw.
Qed.

(** ** A call and its keys *)

(** A key a call carried. *)
Lemma settled_failed open b r n (temporary : bool) reason :
  waiting r -> 0 <= n <= Z.max 1 tries -> (forall sent, fk_SentID r = Some sent -> covers open sent = None) ->
  settled open b (fk_tried n (fk_fail (if temporary then FetchOutcomeFailedTemporary else FetchOutcomeFailedPermanent) reason r)).
Proof.
  intros [Ho [sent Hs] Ha _] Hn Hc. destruct temporary; split; simpl; try done; try (by rewrite Hs); try (by intros [?|?]); eauto.
Qed.

Lemma settled_served open b r n v at_ :
  waiting r -> 0 <= n <= Z.max 1 tries -> (forall sent, fk_SentID r = Some sent -> covers open sent = None) ->
  settled open b (fk_serve v at_ (fk_tried n r)).
Proof. intros [Ho [sent Hs] Ha _] Hn Hc. split; simpl; try done; try (by rewrite Hs); try (by intros [?|?]); eauto. Qed.

(** Every key of [batch] was sent under an identifier no open block covers. *)
Definition sendable open fks batch : Prop :=
  forall i r sent, i ∈ batch -> fks !! i = Some r -> fk_SentID r = Some sent -> covers open sent = None.

Lemma sendable_alter open fks i batch f : sendable open fks (i :: batch) -> (forall r, fk_SentID (f r) = fk_SentID r) -> sendable open (alter f i fks) batch.
Proof.
  intros Hs Hf j r sent Hj Hr. destruct (decide (j = i)) as [->|Hne].
  - rewrite list_lookup_alter_eq in Hr. apply fmap_Some in Hr as (r1 & Hr1 & ->). rewrite Hf. apply (Hs i r1 sent); [by left | done].
  - rewrite list_lookup_alter_ne in Hr by done. apply (Hs j r sent); [by right | done].
Qed.

Lemma identifierBlock_some r : is_Some (fk_SentID r) -> exists bl, identifierBlock r = Some bl /\
  block_checks bl = true /\ is_Some (bk_SentType bl).
Proof.
  intros [sent Hs]. unfold identifierBlock, sentColumns. rewrite Hs. simpl. unfold IsDomain.
  destruct (bool_decide (id_Value sent = ""%string) && _) eqn:Ed; eexists; split; try reflexivity; split; try (by eexists); try done.
  apply andb_true_iff in Ed as [_ Ed]. unfold block_checks. simpl. by rewrite Ed.
Qed.

(** What the blocks of a fetch are. *)
Definition good_block (bl : DatasourceBlock) : Prop := block_checks bl = true /\ (bk_Scope bl = BlockScopeDatasource \/ is_Some (bk_SentType bl)).

Lemma answer_keys_some open b orig todo n fks blocks batch resps w :
  0 <= n <= Z.max 1 tries -> under_way open b orig (batch ++ todo) fks -> NoDup (batch ++ todo) ->
  (forall i, i ∈ batch -> (i < length orig)%nat) -> sendable open fks batch -> Forall good_block blocks ->
  exists fks' blocks' w', answer_keys (W := W) ig n fks blocks batch resps w = Some (fks', blocks', w') /\
    under_way open b orig todo fks' /\ Forall good_block blocks'.
Proof.
  intros Hn. revert fks blocks resps w. induction batch as [|i batch IH]; intros fks blocks resps w Hu Hnd Hin Hs Hb; simpl; [eauto 10 |].
  inversion Hnd as [|? ? Hi Hnd']; subst. assert (forall i, i ∈ batch -> (i < length orig)%nat) as Hin' by (intros; apply Hin; by right).
  assert (forall f, (forall r, fks !! i = Some r -> waiting r -> same_key r (f r) /\ settled open b (f r)) ->
    under_way open b orig (batch ++ todo) (alter f i fks)) as Hset.
  { intros f Hf. by apply under_way_settle. }
  assert (forall r, fks !! i = Some r -> forall sent, fk_SentID r = Some sent -> covers open sent = None) as Hc.
  { intros r Hr sent Hsent. apply (Hs i r sent); [by left | done | done]. }
  destruct resps as [|[v|e] resps].
  - apply IH; try done.
    + apply Hset. intros r Hr Hw. split; [by repeat split |].
      pose proof (settled_failed open b r n true "the datasource returned fewer results than it was sent" Hw Hn (Hc r Hr)) as Hf. exact Hf.
    + by apply sendable_alter.
  - destruct (w_now w) as [now w1]. apply IH; try done.
    + apply Hset. intros r Hr Hw. split; [by repeat split |]. by apply settled_served; [| | apply Hc].
    + by apply sendable_alter.
  - set (fail := ig_Classify ig e).
    set (f := fun r => fk_fail (if fl_Temporary fail then FetchOutcomeFailedTemporary else FetchOutcomeFailedPermanent)
      (reasonOf fail (ig_Error ig e)) (fk_tried n r)).
    assert (under_way open b orig (batch ++ todo) (alter f i fks)) as Hu1.
    { apply Hset. intros r Hr Hw. split; [by repeat split |]. apply (settled_failed open b r n (fl_Temporary fail)); [done | done | by apply Hc]. }
    assert (sendable open (alter f i fks) batch) as Hs1 by by apply sendable_alter.
    destruct (fl_Temporary fail || bool_decide (fl_Scope fail = ScopeRequest)); simpl; [by apply IH |].
    destruct (under_way_lookup _ _ _ _ _ i Hu) as (r & Hr & Hw); [by left | apply Hin; by left |].
    rewrite list_lookup_alter_eq, Hr. simpl. destruct (identifierBlock_some (f r)) as (bl & -> & Hck & Hty); [apply Hw |]. simpl.
    apply IH; try done. apply Forall_app. split; [done |]. apply Forall_singleton. split; [done | by right].
Qed.

Lemma settle_all open b orig todo fks batch f :
  under_way open b orig (batch ++ todo) fks -> NoDup (batch ++ todo) ->
  (forall i r, i ∈ batch -> fks !! i = Some r -> waiting r -> same_key r (f r) /\ settled open b (f r)) ->
  under_way open b orig todo (foldl (fun fks i => alter f i fks) fks batch).
Proof.
  revert fks. induction batch as [|i batch IH]; intros fks Hu Hnd Hf; simpl; [done |]. inversion Hnd as [|? ? Hi Hnd']; subst.
  apply IH; [| done |].
  - apply under_way_settle; [done | done |]. intros r. apply Hf. by left.
  - intros j r Hj Hr Hw. rewrite list_lookup_alter_ne in Hr; [apply (Hf j r); [by right | done | done] |].
    intros ->. apply Hi, elem_of_app. by left.
Qed.

Lemma requestFailed_some open b orig todo n fail text fks batch :
  0 <= n <= Z.max 1 tries -> under_way open b orig (batch ++ todo) fks -> NoDup (batch ++ todo) -> batch <> [] ->
  (forall i, i ∈ batch -> (i < length orig)%nat) -> sendable open fks batch ->
  exists fks' blocks, requestFailed fail text fks batch n = Some (fks', blocks) /\ under_way open b orig todo fks' /\ Forall good_block blocks.
Proof.
  intros Hn Hu Hnd Hne Hin Hs. unfold requestFailed.
  set (f := fun r => fk_tried n (fk_fail (if fl_Temporary fail then FetchOutcomeFailedTemporary else FetchOutcomeFailedPermanent) (reasonOf fail text) r)).
  assert (under_way open b orig todo (foldl (fun fks i => alter f i fks) fks batch)) as Hu'.
  { apply settle_all; try done. intros i r Hi Hr Hw. split; [by repeat split |]. apply (settled_failed open b r n (fl_Temporary fail)); [done | done |].
    intros sent. by apply (Hs i r sent). }
  assert (forall i, i ∈ batch -> exists r, foldl (fun fks i => alter f i fks) fks batch !! i = Some r /\ is_Some (fk_SentID r)) as Hlk.
  { intros i Hi. pose proof (Hin i Hi). destruct Hu' as [Hl Hk]. destruct (lookup_lt_is_Some_2 (foldl (fun fks i => alter f i fks) fks batch) i ltac:(lia)) as [r Hr].
    exists r. split; [done |]. destruct (Hk i r Hr) as (r0 & Hr0 & (_ & _ & _ & _ & ->) & _).
    destruct (under_way_lookup open b orig (batch ++ todo) fks i Hu) as (r1 & Hr1 & [_ Hs1 _ _]); [apply elem_of_app; by left | lia |].
    destruct Hu as [_ Hk0]. destruct (Hk0 i r1 Hr1) as (r0' & Hr0' & (_ & _ & _ & _ & Hse) & _). simplify_eq. by rewrite <- Hse. }
  destruct (fl_Temporary fail || _); [eauto 10 |]. case_bool_decide.
  - destruct batch as [|i batch]; [done |]. destruct (Hlk i ltac:(left)) as (r & Hr & _). simpl. simpl in Hr. rewrite Hr. simpl.
    eexists _, _. split; [reflexivity |]. split; [done |]. apply Forall_singleton. split; [done | by left].
  - assert (exists blocks, mapM (fun i => r ← foldl (fun fks i => alter f i fks) fks batch !! i; identifierBlock r) batch = Some blocks /\ Forall good_block blocks) as (blocks & -> & Hg).
    { revert Hlk. generalize (foldl (fun fks i => alter f i fks) fks batch). clear. intros l. induction batch as [|i batch IH]; intros Hlk; simpl; [eauto |].
      destruct (Hlk i ltac:(left)) as (r & -> & Hr). simpl. destruct (identifierBlock_some r Hr) as (bl & -> & ? & ?). simpl.
      destruct IH as (bls & -> & Hg); [intros; apply Hlk; by right |]. simpl. eexists; split; [reflexivity |]. constructor; [by split; auto | done]. }
    simpl. eauto 10.
Qed.

Lemma fetchChunk_some open b orig todo fks batch l w :
  under_way open b orig (batch ++ todo) fks -> NoDup (batch ++ todo) -> batch <> [] ->
  (forall i, i ∈ batch -> (i < length orig)%nat) -> sendable open fks batch ->
  exists fks' blocks l' w', fetchChunk ig format base tries fks batch l w = Some (fks', blocks, l', w') /\
    under_way open b orig todo fks' /\ Forall good_block blocks.
Proof.
  intros Hu Hnd Hne Hin Hs. unfold fetchChunk.
  assert (exists reqs, mapM (fun i => r ← fks !! i; sent ← fk_SentID r; Some (MkRequest (fk_Request r) sent)) batch = Some reqs) as [reqs ->].
  { apply mapM_is_Some_2, Forall_forall. intros i Hi. simpl.
    destruct (under_way_lookup open b orig (batch ++ todo) fks i Hu) as (r & -> & [_ [sent Hse] _ _]); [apply elem_of_app; by left | by apply Hin |].
    simpl. rewrite Hse. simpl. eauto. }
  cbn [mbind option_bind]. destruct (request_loop_spec ig format tries (Z.to_nat (Z.max 1 tries)) reqs 1 base l w) as (res & n & l' & w' & Hr & Hn & _ & _); [lia | lia | lia |].
  unfold request. rewrite Hr. cbn [mbind option_bind]. assert (0 <= n <= Z.max 1 tries) as Hn' by lia. destruct res as [resps|[why|e]].
  - destruct (answer_keys_some open b orig todo n fks [] batch resps w' Hn' Hu Hnd Hin Hs ltac:(constructor)) as (fks' & bls & w'' & -> & ? & ?). simpl. eauto 10.
  - destruct (requestFailed_some open b orig todo n (MkFailure true ScopeDatasource why 0) why fks batch Hn' Hu Hnd Hne Hin Hs) as (fks' & bls & -> & ? & ?).
    simpl. eauto 10.
  - destruct (requestFailed_some open b orig todo n (ig_Classify ig e) (ig_Error ig e) fks batch Hn' Hu Hnd Hne Hin Hs) as (fks' & bls & -> & ? & ?).
    simpl. eauto 10.
Qed.

(** ** Blocked keys *)

Lemma settled_blocked_key open b r sent reason :
  waiting r -> fk_SentID r = Some sent -> covers b sent = Some reason -> settled open b (fk_fail FetchOutcomeBlocked reason r).
Proof.
  intros [Ho _ Ha _] Hs Hc. split; simpl; try done; try (by rewrite Hs).
  - rewrite Ha. lia.
  - intros s. rewrite Ha. lia.
  - intros s _ Hs'. simplify_eq. by rewrite Hc.
Qed.

(** Filtering the keys of [batch] by the blocks, after those of [sent] have
    passed. *)
Lemma block_steps open b orig send todo batch fks :
  (forall id, is_Some (covers open id) -> is_Some (covers b id)) ->
  under_way open b orig (send ++ batch ++ todo) fks -> NoDup (send ++ batch ++ todo) ->
  (forall i, i ∈ send ++ batch -> (i < length orig)%nat) -> sendable open fks send ->
  exists fks' send', opt_fold (block_step b) (fks, send) batch = Some (fks', send') /\
    under_way open b orig (send' ++ todo) fks' /\ NoDup (send' ++ todo) /\ (forall i, i ∈ send' -> (i < length orig)%nat) /\ sendable open fks' send'.
Proof.
  intros Hopen. revert send fks. induction batch as [|i batch IH]; intros send fks Hu Hnd Hin Hs; simpl.
  { exists fks, send. repeat split; try done; [apply Hu | apply Hu |]. intros j Hj. apply Hin. apply elem_of_app. by left. }
  destruct (under_way_lookup open b orig _ fks i Hu) as (r & Hr & Hw).
  { rewrite !elem_of_app, elem_of_cons. auto. } { apply Hin. rewrite elem_of_app, elem_of_cons. auto. }
  destruct (waiting_SentID _ Hw) as [sent Hse]. rewrite Hr. simpl. rewrite Hse. simpl.
  assert (send ++ i :: batch ++ todo ≡ₚ i :: send ++ batch ++ todo) as Hperm by (symmetry; apply Permutation_middle).
  destruct (covers b sent) as [reason|] eqn:Hc.
  - apply IH.
    + apply under_way_settle.
      * by eapply under_way_perm.
      * rewrite Hperm in Hnd. by inversion Hnd.
      * intros r' Hr'. simplify_eq. intros Hw'. split; [by repeat split | by eapply settled_blocked_key].
    + rewrite Hperm in Hnd. by inversion Hnd.
    + intros j Hj. apply Hin. rewrite elem_of_app, elem_of_cons in *. tauto.
    + intros j r' s Hj Hr' Hs'. destruct (decide (j = i)) as [->|Hne].
      * rewrite Hperm in Hnd. inversion Hnd as [|? ? Hni _]; subst. destruct Hni. apply elem_of_app. by left.
      * rewrite list_lookup_alter_ne in Hr' by done. by apply (Hs j r' s).
  - assert (send ++ (i :: batch) ++ todo = (send ++ [i]) ++ batch ++ todo) as Heq by (by rewrite <- app_assoc).
    rewrite Heq in Hu, Hnd. apply IH; try done.
    + intros j Hj. apply Hin. rewrite !elem_of_app, list_elem_of_singleton in Hj. rewrite elem_of_app, elem_of_cons. tauto.
    + intros j r' s [Hj| ->%list_elem_of_singleton]%elem_of_app Hr' Hs'; [by apply (Hs j r' s) |].
      assert (s = sent) as -> by congruence. destruct (covers open sent) as [x|] eqn:Ho; [| done]. destruct (Hopen sent) as [y Hy]; [by eexists | congruence].
Qed.

(** ** Chunks *)

(** What the loop over the chunks keeps; [rest] are the keys it has not
    reached. *)
Record chunking open orig (rest : list nat) (st : @fetching W Q P) : Prop := {
  chunking_keys : under_way open (fg_blocked st) orig rest (fg_keys st);
  chunking_open id : is_Some (covers open id) -> is_Some (covers (fg_blocked st) id);
  chunking_pending : Forall good_block (fg_pending st);
}.

Lemma add_blocks_some b bls : Forall good_block bls -> is_Some (add_blocks b bls).
Proof.
  unfold add_blocks. intros Hg. revert b. induction Hg as [|bl bls [_ Hbl] _ IH]; intros b; simpl; [by eexists |].
  assert (is_Some (add_block b bl)) as [b' ->]; [| apply IH]. unfold add_block. case_bool_decide; [by eexists |].
  destruct Hbl as [?|[t ->]]; [done | by eexists].
Qed.

Lemma chunk_step_some open orig chunk rest st :
  chunking open orig (chunk ++ rest) st -> NoDup (chunk ++ rest) -> (forall i, i ∈ chunk ++ rest -> (i < length orig)%nat) ->
  exists st', chunk_step ig format base tries st chunk = Some st' /\ chunking open orig rest st' /\
    add_blocks (fg_blocked st) (drop (length (fg_pending st)) (fg_pending st')) = Some (fg_blocked st') /\
    take (length (fg_pending st)) (fg_pending st') = fg_pending st.
Proof.
  intros [Hu Hopen Hp] Hnd Hin. unfold chunk_step.
  destruct (block_steps open (fg_blocked st) orig [] rest chunk (fg_keys st)) as (fks & send & -> & Hu' & Hnd' & Hin' & Hs); try done.
  { intros i Hi. apply Hin, elem_of_app. by left. } { by intros i r sent Hi%elem_of_nil. }
  cbn [mbind option_bind]. destruct send as [|i send].
  { eexists. split; [reflexivity |]. simpl. rewrite drop_all, take_ge by done. by repeat split; [apply Hu' | apply Hu' | |]. }
  destruct (fetchChunk_some open (fg_blocked st) orig rest fks (i :: send) (fg_limiter st) (fg_world st)) as (fks' & bls & l' & w' & -> & Hu'' & Hg); try done.
  simpl. destruct (add_blocks_some (fg_blocked st) bls Hg) as [b' Hb]. rewrite Hb. simpl. eexists. split; [reflexivity |]. simpl.
  rewrite drop_app_length, take_app_length. split; [| by split]. split; simpl.
  - eapply under_way_weaken; [| exact Hu'']. intros id. by eapply covers_adds.
  - intros id Hid. eapply covers_adds; [exact Hb | by apply Hopen].
  - by apply Forall_app.
Qed.

Lemma add_blocks_app b bls bls' : add_blocks b (bls ++ bls') = b' ← add_blocks b bls; add_blocks b' bls'.
Proof. apply opt_fold_app. Qed.

Lemma chunk_steps open orig b0 cs st :
  chunking open orig (concat cs) st -> NoDup (concat cs) -> (forall i, i ∈ concat cs -> (i < length orig)%nat) ->
  add_blocks b0 (fg_pending st) = Some (fg_blocked st) ->
  exists st', opt_fold (chunk_step ig format base tries) st cs = Some st' /\ chunking open orig [] st' /\
    add_blocks b0 (fg_pending st') = Some (fg_blocked st').
Proof.
  revert st. induction cs as [|chunk cs IH]; intros st Hc Hnd Hin Hb; simpl; [eauto |]. simpl in *.
  destruct (chunk_step_some open orig chunk (concat cs) st Hc Hnd Hin) as (st1 & -> & Hc1 & Hadd & Htake). simpl. apply IH; [done | | |].
  - by apply NoDup_app in Hnd as (_ & _ & ?).
  - intros i Hi. apply Hin, elem_of_app. by right.
  - rewrite <- (take_drop (length (fg_pending st)) (fg_pending st1)), add_blocks_app, Htake, Hb. done.
Qed.

Lemma chunk_loop_concat {A} fuel (batch : list A) n : (1 <= n)%nat -> (length batch <= fuel)%nat -> concat (chunk_loop fuel batch n) = batch.
Proof.
  intros Hn. revert batch. induction fuel as [|fuel IH]; intros [|x batch] Hf; simpl in *; try done; [lia |].
  rewrite IH; [by rewrite take_drop |]. rewrite length_drop. simpl. lia.
Qed.

Lemma chunks_concat {A} (batch : list A) n : concat (chunks batch n) = batch.
Proof.
  unfold chunks. destruct batch as [|x batch]; [done |]. destruct (n <=? 0) eqn:En; simpl; [by rewrite app_nil_r |].
  apply (chunk_loop_concat (S (length batch)) (x :: batch)); simpl; lia.
Qed.

(** ** The requests, the cache and the open blocks *)

Lemma under_way_snoc open b orig todo fks r0 :
  under_way open b orig todo fks -> (forall i, i ∈ todo -> (i < length orig)%nat) ->
  (forall todo', todo' = todo /\ settled open b r0 \/ todo' = todo ++ [length orig] /\ waiting r0 ->
   under_way open b (orig ++ [r0]) todo' (fks ++ [r0])).
Proof.
  intros [Hl Hk] Hin todo' Htodo. split; [rewrite !length_app; simpl; lia |]. intros i r Hi.
  assert (i ∈ todo' <-> i ∈ todo \/ (i = length orig /\ todo' = todo ++ [length orig])) as Hi'.
  { destruct Htodo as [[-> Hset]|[-> _]]; [| rewrite elem_of_app, list_elem_of_singleton; tauto].
    split; [auto | intros [?|[_ Hbad]]; [done |]]. apply (f_equal length) in Hbad. rewrite length_app in Hbad. simpl in Hbad. lia. }
  destruct (decide (i = length orig)) as [->|Hne].
  - rewrite <- Hl, list_lookup_middle in Hi by done. simplify_eq. exists r. split; [by rewrite list_lookup_middle |]. split; [by repeat split |].
    destruct Htodo as [[-> Hset]|[-> Hw]].
    + rewrite decide_False; [done |]. intros Hbad%Hin. lia.
    + rewrite decide_True; [done |]. apply elem_of_app. right. by left.
  - rewrite lookup_app_l in Hi by (apply lookup_lt_Some in Hi; rewrite length_app in Hi; simpl in Hi; lia).
    destruct (Hk i r Hi) as (r0' & Hr0 & Hs & Hd). exists r0'. split; [by apply lookup_app_l_Some |]. split; [done |].
    destruct (decide (i ∈ todo')) as [Hc|Hc]; rewrite Hi' in Hc; [rewrite decide_True in Hd by tauto | rewrite decide_False in Hd by tauto]; done.
Qed.

Section Start.
Variables (zero : P) (source : string) (run next : uuid) (kind : Kind Q P).

(** The key of the request [q] at [i]. *)
Definition key_of (i : nat) (q : Q) r : Prop :=
  fk_Request r = q /\ fk_Run r = run /\ fk_Source r = source /\ fk_ID r = (next + N.of_nat i)%N.

Record started open (reqs : list Q) (st : @starting Q P) : Prop := {
  started_keys : under_way open open (sg_keys st) (sg_served st) (sg_keys st);
  started_served : NoDup (sg_served st) /\ (forall i, i ∈ sg_served st -> (i < length (sg_keys st))%nat);
  started_reqs : Forall2 (fun '(i, q) r => key_of i q r) (imap (fun i q => (i, q)) reqs) (sg_keys st);
}.

Lemma start_keys_started open reqs : started open reqs (foldl (start_key zero source run kind next) (MkStarting [] [] ∅) reqs).
Proof.
  induction reqs as [|q reqs IH] using rev_ind.
  - simpl. split; simpl; [by split | | by constructor]. split; [constructor |]. by intros i ?%elem_of_nil.
  - rewrite foldl_app. simpl. set (st := foldl _ _ reqs) in *. destruct IH as [Hu [Hnd Hin] Hf].
    assert (length (sg_keys st) = length reqs) as Hlen by (apply Forall2_length in Hf; rewrite length_imap in Hf; lia).
    assert (forall r, fk_Request r = q -> fk_Run r = run -> fk_Source r = source -> fk_ID r = (next + N.of_nat (length (sg_keys st)))%N ->
      Forall2 (fun '(i, q) r => key_of i q r) (imap (fun i q => (i, q)) (reqs ++ [q])) (sg_keys st ++ [r])) as Hsnoc.
    { intros r ? ? ? ?. rewrite imap_app. apply Forall2_app; [done |]. simpl. constructor; [| constructor].
      rewrite Nat.add_0_r, <- Hlen. done. }
    assert (forall reason r, fk_SentID r = None -> fk_attempts r = 0 -> settled open open (fk_fail FetchOutcomeNotServed reason r)) as Hset.
    { intros reason r Hs Ha. split; simpl; try done; try lia. }
    assert (NoDup (sg_served st ++ [length (sg_keys st)])) as Hnd'.
    { apply NoDup_app. split; [done |]. split; [| apply NoDup_singleton]. intros i Hi%Hin ->%list_elem_of_singleton. lia. }
    unfold start_key. destruct (kd_server kind) as [s|]; [destruct (sr_Serves s q) as [sent|e] |]; split; simpl; try (by apply Hsnoc).
    + apply (under_way_snoc _ _ _ _ _ _ Hu Hin). right. split; [done |]. by split; simpl; [| eexists | |].
    + split; [done |]. intros i [Hi%Hin|Hi%list_elem_of_singleton]%elem_of_app; rewrite length_app; simpl; lia.
    + apply (under_way_snoc _ _ _ _ _ _ Hu Hin). left. split; [done |]. by apply Hset.
    + split; [done |]. intros i Hi%Hin. rewrite length_app. simpl. lia.
    + apply (under_way_snoc _ _ _ _ _ _ Hu Hin). left. split; [done |]. by apply Hset.
    + split; [done |]. intros i Hi%Hin. rewrite length_app. simpl. lia.
Qed.
End Start.

(** ** The cache *)

(** The keys the cache has not answered. *)
Definition uncached fks (i : nat) : bool := match fks !! i with Some r => negb (fk_cached r) | None => false end.

Lemma settled_hit open b r e : waiting r -> settled open b (fk_hit e r).
Proof.
  intros [Ho [sent Hs] Ha _]. split; simpl; try done; try (by rewrite Hs); try (by intros [?|?]); rewrite Ha; [lia |]. intros s. lia.
Qed.

(** Answering some keys of [served] by their entries. *)
Lemma hit_steps open b orig todo served fks (entry : nat -> option (cacheEntry P)) :
  under_way open b orig (todo ++ served) fks -> NoDup (todo ++ served) ->
  (forall i, i ∈ todo ++ served -> (i < length orig)%nat) ->
  let fks' := foldl (fun fks i => match entry i with Some e => alter (fk_hit e) i fks | None => fks end) fks served in
  under_way open b orig (todo ++ filter (fun i => uncached fks' i) served) fks' /\ (forall i, i ∉ served -> fks' !! i = fks !! i).
Proof.
  revert todo fks. induction served as [|i served IH]; intros todo fks Hu Hnd Hin; simpl.
  { by rewrite app_nil_r in *. }
  assert (todo ++ i :: served ≡ₚ i :: todo ++ served) as Hperm by (symmetry; apply Permutation_middle).
  assert (i ∉ served) as Hi. { rewrite Hperm in Hnd. inversion Hnd as [|? ? Hni]; subst. intros ?. apply Hni, elem_of_app. by right. }
  destruct (under_way_lookup open b orig _ fks i Hu) as (r & Hr & Hw).
  { rewrite elem_of_app, elem_of_cons. auto. } { apply Hin. rewrite elem_of_app, elem_of_cons. auto. }
  destruct (entry i) as [e|].
  - destruct (IH todo (alter (fk_hit e) i fks)) as [IHu IHl].
    + apply under_way_settle; [by eapply under_way_perm | rewrite Hperm in Hnd; by inversion Hnd |].
      intros r' Hr'. simplify_eq. intros _. split; [by repeat split | by apply settled_hit].
    + rewrite Hperm in Hnd. by inversion Hnd.
    + intros j Hj. apply Hin. rewrite elem_of_app, elem_of_cons in *. tauto.
    + split.
      * rewrite filter_cons_False; [done |]. unfold uncached. rewrite IHl by done. rewrite list_lookup_alter_eq, Hr. by intros [].
      * intros j Hj. rewrite elem_of_cons in Hj. rewrite IHl by tauto. apply list_lookup_alter_ne. naive_solver.
  - destruct (IH (todo ++ [i]) fks) as [IHu IHl]; [by rewrite <- app_assoc | by rewrite <- app_assoc | by rewrite <- app_assoc |].
    split.
    + rewrite filter_cons_True; [by rewrite <- app_assoc in IHu |]. unfold uncached. rewrite IHl, Hr by done. by rewrite (waiting_cached _ Hw).
    + intros j Hj. rewrite elem_of_cons in Hj. apply IHl. tauto.
Qed.

Lemma sfilter_all {A} (f : A -> bool) (xs : list A) : (forall x, x ∈ xs -> f x) -> filter (fun x => f x) xs = xs.
Proof.
  induction xs as [|x xs IH]; intros Hf; [done |]. rewrite filter_cons_True by (apply Hf; by left). f_equal. apply IH. intros y Hy. apply Hf. by right.
Qed.

Lemma readCache_some open b orig cache fresh served fks cacheKeys :
  under_way open b orig served fks -> NoDup served -> (forall i, i ∈ served -> (i < length orig)%nat) ->
  let fks' := readCache cache fresh fks served cacheKeys in
  under_way open b orig (filter (fun i => uncached fks' i) served) fks'.
Proof.
  intros Hu Hnd Hin. unfold readCache.
  assert (filter (fun i => uncached fks i) served = served) as Hall.
  { apply sfilter_all. intros i Hi. destruct (under_way_lookup open b orig _ fks i Hu Hi (Hin i Hi)) as (r & Hr & Hw).
    unfold uncached. rewrite Hr. by rewrite (waiting_cached _ Hw). }
  destruct cache as [c|]; [destruct fresh |]; simpl; try by rewrite Hall.
  by apply (hit_steps open b orig [] served fks (fun i => c !! default ""%string (cacheKeys !! i))).
Qed.

(** Skipping the cached keys is filtering them out first. *)
Lemma batch_steps b served fks send (c : nat -> bool) :
  (forall i, i ∈ served -> uncached fks i = c i /\ is_Some (fks !! i)) ->
  opt_fold (batch_step b) (fks, send) served = opt_fold (block_step b) (fks, send) (filter (fun i => c i) served).
Proof.
  revert fks send. induction served as [|i served IH]; intros fks send Hc; simpl; [done |].
  destruct (Hc i ltac:(left)) as [Hci [r Hr]]. unfold batch_step at 1. simpl. rewrite Hr. simpl.
  unfold uncached in Hci. rewrite Hr in Hci. rewrite filter_cons. destruct (fk_cached r) eqn:Ecached; simpl in Hci.
  - rewrite decide_False by (rewrite <- Hci; by intros []). simpl. apply IH. intros j Hj. apply Hc. by right.
  - rewrite decide_True by by rewrite <- Hci. simpl. rewrite Hr. simpl. destruct (fk_SentID r) as [sent|]; simpl; [| done].
    destruct (covers b sent) as [reason|]; apply IH; intros j Hj; [| apply Hc; by right].
    destruct (Hc j ltac:(by right)) as [Hcj [r' Hr']]. destruct (decide (j = i)) as [->|Hne].
    + unfold uncached in *. rewrite list_lookup_alter_eq, Hr in *. simpl in *. split; [congruence | by eexists].
    + unfold uncached in *. by rewrite list_lookup_alter_ne.
Qed.

Lemma fetch_keys_some zero source run next (kind : Kind Q P) (open : list DatasourceBlock) cache fresh reqs l (w : W) :
  exists fg cache', fetch_keys ig format base tries zero source run next kind open cache fresh reqs l w = Some (fg, cache') /\
    add_blocks (newBlockSet open) (fg_pending fg) = Some (fg_blocked fg) /\ Forall good_block (fg_pending fg) /\
    Forall2 (fun '(i, q) r => key_of source run next i q r /\ settled (newBlockSet open) (fg_blocked fg) r)
      (imap (fun i q => (i, q)) reqs) (fg_keys fg).
Proof.
  unfold fetch_keys. set (b := newBlockSet open).
  destruct (start_keys_started zero source run next kind b reqs) as [Hu [Hnd Hin] Hf].
  set (st := foldl _ _ reqs) in *. set (fks := readCache _ _ _ _ _).
  assert (under_way b b (sg_keys st) (filter (fun i => uncached fks i) (sg_served st)) fks) as Hu1 by by apply readCache_some.
  set (todo := filter (fun i => uncached fks i) (sg_served st)) in *.
  assert (forall i, i ∈ todo -> (i < length (sg_keys st))%nat) as Hin1 by (intros i [_ Hi]%list_elem_of_filter; by apply Hin).
  rewrite (batch_steps b (sg_served st) fks [] (uncached fks)).
  2: { intros i Hi. split; [done |]. apply lookup_lt_is_Some. destruct Hu1 as [-> _]. by apply Hin. }
  fold todo. destruct (block_steps b b (sg_keys st) [] [] todo fks) as (fks1 & batch & -> & Hu2 & Hnd2 & Hin2 & _); try done.
  { simpl. by rewrite app_nil_r. } { rewrite app_nil_r. by apply NoDup_filter. } { by intros i r sent ?%elem_of_nil. }
  rewrite app_nil_r in Hu2, Hnd2. cbn [mbind option_bind].
  destruct (chunk_steps b (sg_keys st) b (chunks batch (ig_Batch ig)) (MkFetching fks1 b [] l w)) as (fg & -> & [Hu3 _ Hp] & Hb);
    rewrite ?chunks_concat; try done.
  cbn [mbind option_bind]. eexists _, _. split; [reflexivity |]. split; [done |]. split; [done |].
  apply Forall2_same_length_lookup_2; [rewrite (Forall2_length _ _ _ Hf); by destruct Hu3 as [-> _] |].
  intros i [j q] r Hq Hr. destruct Hu3 as [_ Hk]. destruct (Hk i r Hr) as (r0 & Hr0 & (E1 & E2 & E3 & E4 & _) & Hset).
  rewrite decide_False in Hset by apply not_elem_of_nil. split; [| done].
  pose proof (Forall2_lookup_lr _ _ _ _ _ _ Hf Hq Hr0) as (? & ? & ? & ?). unfold key_of. rewrite E1, E2, E3, E4. done.
Qed.
End Keys.

(** * The rows and the blocks of a fetch *)

(** The identifiers a block keeps from a call. *)
Definition blocks_id (bl : DatasourceBlock) (id : Identifier) : Prop := bk_Scope bl = BlockScopeDatasource \/ BlockSent bl = Some id.

Lemma newBlockSet_covers_from b rows id :
  is_Some (covers (foldl newBlockSet_step b rows) id) <-> is_Some (covers b id) \/ exists bl, bl ∈ rows /\ blocks_id bl id.
Proof.
  revert b. induction rows as [|bl rows IH]; intros b; simpl.
  { split; [auto | intros [?|(bl & ?%elem_of_nil & _)]; done]. }
  assert (is_Some (covers (newBlockSet_step b bl) id) <-> is_Some (covers b id) \/ blocks_id bl id) as Hstep.
  { unfold newBlockSet_step, blocks_id, covers. case_bool_decide as Hds; simpl.
    - split; [auto | by eexists].
    - destruct (BlockSent bl) as [id'|]; [| split; [auto | by intros [?|[?|?]]]]. simpl. destruct (bs_all b); [split; [auto | by eexists] |].
      rewrite lookup_insert_is_Some'. split; [intros [->|?]; auto | intros [?|[?|[= ->]]]; auto; done]. }
  rewrite IH, Hstep. split.
  - intros [[?|?]|(x & ? & ?)]; [auto | right; exists bl; split; [by left | done] | right; exists x; split; [by right | done]].
  - intros [?|(x & [->|?]%elem_of_cons & ?)]; eauto.
Qed.

Lemma newBlockSet_covers rows id : is_Some (covers (newBlockSet rows) id) <-> exists bl, bl ∈ rows /\ blocks_id bl id.
Proof.
  unfold newBlockSet. rewrite newBlockSet_covers_from. split; [intros [[x Hx]|?]; [| done] | auto].
  unfold covers in Hx. simpl in Hx. by rewrite lookup_empty in Hx.
Qed.

Lemma add_block_covers b bl b' id : add_block b bl = Some b' -> is_Some (covers b' id) -> is_Some (covers b id) \/ blocks_id bl id.
Proof.
  unfold add_block, covers, blocks_id, BlockSent, sent_of. case_bool_decide; [auto |]. destruct (bk_SentType bl) as [t|]; simpl; [| done].
  intros [= <-]. simpl. destruct (bs_all b); [auto |]. rewrite lookup_insert_is_Some'. intros [->|?]; auto.
Qed.

Lemma block_checks_sent a b : block_checks a = true -> block_checks b = true -> bk_Scope a = bk_Scope b -> bk_SentType a = bk_SentType b ->
  bk_SentDomain a = bk_SentDomain b -> bk_Scope a = BlockScopeDomain -> BlockSent a = BlockSent b.
Proof.
  unfold block_checks, BlockSent, sent_of. intros Ha Hb Hs -> -> Hd. rewrite <- Hs, Hd in Hb. rewrite Hd in Ha.
  destruct (bk_SentValue a), (bk_SentValue b); try done; simpl in *; rewrite ?andb_false_r in *; done.
Qed.

(** A block that is not written is already open. *)
Lemma block_conflicts_blocks a b id : block_checks a = true -> block_checks b = true -> bk_ID a <> bk_ID b -> block_conflicts b a = true ->
  blocks_id b id -> blocks_id a id.
Proof.
  intros Ha Hb Hid Hc Hbl. unfold block_conflicts in Hc. rewrite bool_decide_eq_false_2 in Hc by done. simpl in Hc.
  apply andb_true_iff in Hc as [Hs%bool_decide_eq_true Hc]. destruct Hbl as [Hds|Hsent]; [left; congruence |].
  unfold blocks_id. destruct (bk_Scope b) eqn:Escope; [| | by left].
  - right. rewrite <- Hsent. unfold BlockSent. apply andb_true_iff in Hc as [[Ht%bool_decide_eq_true Hd%bool_decide_eq_true]%andb_true_iff Hv%bool_decide_eq_true].
    by rewrite Ht, Hd, Hv.
  - right. rewrite <- Hsent. apply andb_true_iff in Hc as [Ht%bool_decide_eq_true Hd%bool_decide_eq_true].
    symmetry. apply block_checks_sent; congruence.
Qed.

(** The open blocks of a fetch: their rows hold, under ids minted before
    [next]. *)
Definition open_blocks (next : uuid) (open : list DatasourceBlock) : Prop :=
  Forall (fun bl => block_checks bl = true /\ (bk_ID bl < next)%N) open.

Lemma write_block_some open found id b : open_blocks id open -> block_checks b = true ->
  exists new n, write_block (open, found, id) b = Some (open ++ new, (found + n)%nat, (id + 1)%N) /\ length new = n /\
    open_blocks (id + 1)%N (open ++ new) /\ (forall s, blocks_id b s -> exists bl, bl ∈ open ++ new /\ blocks_id bl s).
Proof.
  intros Ho Hb. unfold write_block, CreateDatasourceBlock.
  assert (block_checks (with_ID b id) = true) as Hb' by exact Hb. rewrite Hb'. simpl.
  assert (open_blocks (id + 1)%N open) as Ho' by (eapply Forall_impl; [exact Ho |]; intros x [? ?]; split; [done | lia]).
  destruct (existsb (block_conflicts (with_ID b id)) open) eqn:Ex; simpl.
  - exists [], 0%nat. rewrite app_nil_r. split; [done |]. split; [done |]. split; [done |]. intros s Hs.
    apply existsb_exists in Ex as (x & Hx%list_elem_of_In & Hc). exists x. split; [done |].
    apply (Forall_forall _ open) with (x := x) in Ho as [Hck Hlt]; [| done].
    apply (block_conflicts_blocks x (with_ID b id)); try done. simpl. intros Heq. lia.
  - exists [with_ID b id], 1%nat. split; [done |]. split; [done |]. split.
    + apply Forall_app. split; [done |]. apply Forall_singleton. split; [done | simpl; lia].
    + intros s Hs. exists (with_ID b id). split; [apply elem_of_app; right; by left | exact Hs].
Qed.

Lemma write_blocks_some open found id bls : open_blocks id open -> Forall (fun b => block_checks b = true) bls ->
  exists new n id', opt_fold write_block (open, found, id) bls = Some (open ++ new, (found + n)%nat, id') /\ length new = n /\
    (forall b s, b ∈ bls -> blocks_id b s -> exists bl, bl ∈ open ++ new /\ blocks_id bl s).
Proof.
  intros Ho Hb. revert open found id Ho. induction Hb as [|b bls Hb _ IH]; intros open found id Ho; cbn [opt_fold].
  { exists [], 0%nat, id. rewrite app_nil_r, Nat.add_0_r. split; [done |]. split; [done |]. by intros b s ?%elem_of_nil. }
  destruct (write_block_some open found id b Ho Hb) as (new & n & Hw & Hn & Ho' & Hc). rewrite Hw. cbn [mbind option_bind].
  destruct (IH (open ++ new) (found + n)%nat (id + 1)%N Ho') as (new' & n' & id' & -> & Hn' & Hc').
  exists (new ++ new'), (n + n')%nat, id'. rewrite app_assoc, Nat.add_assoc, length_app. split; [done |]. split; [lia |].
  intros x s [->|Hx]%elem_of_cons Hs; [| by eapply Hc']. destruct (Hc s Hs) as (bl & ? & ?). exists bl. split; [apply elem_of_app; by left | done].
Qed.

Section RunTheory.
Context {W E Q P : Type} `{World W E Q P}.
Variables (ig : Integration E) (format : time -> string) (base tries : Z) (zero : P).

Lemma settled_checks open b run (kind : Kind Q P) (r : FetchKey Q P) : settled tries open b r ->
  (forall p, kd_asked kind (fk_Request r) = Some p -> p_From p < p_Before p) -> fetch_key_checks (record_key run kind r) = true.
Proof.
  intros [Ho Hs Hu _ _ _] Hask. unfold fetch_key_checks, record_key.
  assert (match fk_Outcome r with FetchOutcomeNotServed | FetchOutcomeBlocked => int16 (fk_attempts r) =? 0 | _ => true end = true) as Hatt.
  { destruct (fk_Outcome r); try done; rewrite Hu by auto; done. }
  assert (match kd_asked kind (fk_Request r) with Some p => p_From p <? p_Before p | None => true end = true) as Hasked.
  { destruct (kd_asked kind (fk_Request r)) as [p|]; [| done]. specialize (Hask p eq_refl). lia. }
  destruct (fk_SentID r) as [sent|] eqn:Hsent.
  - assert (fk_Outcome r <> FetchOutcomeNotServed) as Hns by (rewrite Hs; done).
    unfold sentColumns, IsDomain. destruct (bool_decide (id_Value sent = ""%string) && _) eqn:Ed.
    + apply andb_true_iff in Ed as [_ Ed]. destruct (fk_Outcome r); try done; cbn -[int16] in *;
        rewrite ?Hatt, ?Ed; destruct (kd_asked kind (fk_Request r)); simpl in *; by rewrite ?Hasked.
    + destruct (fk_Outcome r); try done; cbn -[int16] in *; rewrite ?Hatt; destruct (kd_asked kind (fk_Request r)); simpl in *; by rewrite ?Hasked.
  - assert (fk_Outcome r = FetchOutcomeNotServed) as Hns by by apply Hs. rewrite Hns in *. cbn -[int16] in *. rewrite Hatt.
    destruct (kd_asked kind (fk_Request r)); simpl in *; by rewrite ?Hasked.
Qed.

(** Rows that conflict with none before them are all written. *)
Lemma CreateFetchKeys_some (rows new : list FetchKeyParams) :
  Forall (fun r => fetch_key_checks r = true) new ->
  (forall (r x : FetchKeyParams), r ∈ new -> x ∈ rows -> fetch_key_conflicts r x = false) ->
  (forall i j x y, (i < j)%nat -> new !! i = Some x -> new !! j = Some y -> fetch_key_conflicts y x = false) ->
  opt_fold CreateFetchKey rows new = Some (rows ++ new).
Proof.
  intros Hc. revert rows. induction Hc as [|r new Hr _ IH]; intros rows Hold Hnew; simpl; [by rewrite app_nil_r |].
  unfold CreateFetchKey at 1. rewrite Hr. simpl.
  destruct (existsb (fetch_key_conflicts r) rows) eqn:Ex.
  { apply existsb_exists in Ex as (x & Hx%list_elem_of_In & Hbad). rewrite (Hold r x) in Hbad; [done | by left | done]. }
  simpl. rewrite IH; [by rewrite <- app_assoc | |].
  - intros y x Hy [Hx| ->%list_elem_of_singleton]%elem_of_app; [apply Hold; [by right | done] |].
    apply list_elem_of_lookup in Hy as [j Hj]. by apply (Hnew 0%nat (S j)); [lia | |].
  - intros i j x y Hij Hi Hj. by apply (Hnew (S i) (S j)); [lia | |].
Qed.

Lemma add_blocks_covers b bls b' id : add_blocks b bls = Some b' -> is_Some (covers b' id) ->
  is_Some (covers b id) \/ exists bl, bl ∈ bls /\ blocks_id bl id.
Proof.
  unfold add_blocks. revert b. induction bls as [|bl bls IH]; intros b; simpl; [intros [= ->]; auto |].
  destruct (add_block b bl) as [b1|] eqn:E1; simpl; [| done]. intros Hb Hc.
  destruct (IH b1 Hb Hc) as [Hc1|(x & Hx & ?)]; [| right; exists x; split; [by right | done]].
  destruct (add_block_covers b bl b1 id E1 Hc1) as [?|?]; [auto | right; exists bl; split; [by left | done]].
Qed.

(** A fetch that asks each request a stated key at most once, over a proper
    period: the requests of a fetch. *)
Record well_asked (kind : Kind Q P) (reqs : list Q) : Prop := {
  well_asked_period q p : q ∈ reqs -> kd_asked kind q = Some p -> p_From p < p_Before p;
  well_asked_key i j q q' k : reqs !! i = Some q -> reqs !! j = Some q' -> kd_statedKey kind q = Some k -> kd_statedKey kind q' = Some k -> i = j;
}.

Lemma fetch_rows_some source run next kind reqs rows open b (fks : list (FetchKey Q P)) :
  well_asked kind reqs ->
  (forall x, x ∈ rows -> (cf_ID x < next)%N /\ cf_FetchID x <> run) ->
  Forall2 (fun '(i, q) r => key_of source run next i q r /\ settled tries open b r) (imap (fun i q => (i, q)) reqs) fks ->
  opt_fold (fun rows r => CreateFetchKey rows (record_key run kind r)) rows fks = Some (rows ++ map (record_key run kind) fks).
Proof.
  intros [Hper Hkey] Hold Hf.
  assert (forall i r, fks !! i = Some r -> exists q, reqs !! i = Some q /\ key_of source run next i q r /\ settled tries open b r) as Hlk.
  { intros i r Hr. pose proof (Forall2_lookup_r _ _ _ _ _ Hf Hr) as ([j q] & Hq & Hk). rewrite list_lookup_imap in Hq.
    apply fmap_Some in Hq as (q' & Hq & [= -> ->]). eauto. }
  assert (forall r, cf_ID (record_key run kind r) = fk_ID r /\ cf_FetchID (record_key run kind r) = run /\
    cf_StatedKeyID (record_key run kind r) = kd_statedKey kind (fk_Request r)) as Hcols.
  { intros r. unfold record_key. by destruct (fk_SentID r) as [s|]; [destruct (sentColumns s) as [[? ?] ?] |]. }
  assert (forall xs rows, opt_fold (fun rows r => CreateFetchKey rows (record_key run kind r)) rows xs =
    opt_fold CreateFetchKey rows (map (record_key run kind) xs)) as -> by (induction xs as [|x xs IH]; intros rows'; simpl; [done | by destruct (CreateFetchKey _ _)]).
  apply CreateFetchKeys_some.
  - apply Forall_forall. intros x (r & -> & Hr)%list_elem_of_fmap. apply list_elem_of_lookup in Hr as [i Hr].
    destruct (Hlk i r Hr) as (q & Hq & (Hreq & _) & Hset). eapply settled_checks; [exact Hset |]. rewrite Hreq. intros p.
    apply Hper. by eapply list_elem_of_lookup_2.
  - intros x y (r & -> & Hr)%list_elem_of_fmap Hy. apply list_elem_of_lookup in Hr as [i Hr].
    destruct (Hlk i r Hr) as (q & Hq & (_ & _ & _ & Hid) & _). destruct (Hold y Hy) as [Hlt Hne]. destruct (Hcols r) as (Hc1 & Hc2 & _).
    unfold fetch_key_conflicts. rewrite Hc1, Hc2, Hid. rewrite (bool_decide_eq_false_2 (_ = cf_ID y)) by lia. by rewrite (bool_decide_eq_false_2 (run = _)) by congruence.
  - intros i j x y Hij Hi Hj. rewrite list_lookup_fmap in Hi, Hj. apply fmap_Some in Hi as (ri & Hi & ->). apply fmap_Some in Hj as (rj & Hj & ->).
    destruct (Hlk i ri Hi) as (qi & Hqi & (Hreqi & _ & _ & Hidi) & _). destruct (Hlk j rj Hj) as (qj & Hqj & (Hreqj & _ & _ & Hidj) & _).
    destruct (Hcols ri) as (Hi1 & Hi2 & Hi3). destruct (Hcols rj) as (Hj1 & Hj2 & Hj3). unfold fetch_key_conflicts.
    rewrite Hi1, Hi3, Hj1, Hj3, Hidi, Hidj, Hreqi, Hreqj. rewrite bool_decide_eq_false_2 by lia. simpl.
    destruct (kd_statedKey kind qj) as [k|] eqn:Ek; [| by rewrite andb_false_r]. destruct (bool_decide (Some k = _)) eqn:Hsame; [| by rewrite andb_false_r].
    apply bool_decide_eq_true in Hsame. pose proof (Hkey i j qi qj k Hqi Hqj ltac:(done) Ek). lia.
Qed.

End RunTheory.

(** C36: a fetch answers one key per request, in the order of the requests, each
    with a decided outcome, and its transaction succeeds: every key satisfies
    the constraints of [fetch_keys] and every block those of
    [datasource_blocks]. A key without a sent identifier is exactly one not
    served; a key not served or blocked was carried by no call; a key a call
    carried was covered by no block open when the fetch started; and a blocked
    key is covered by a block that is open when it ends. *)
Theorem fetchRun_spec {W E Q P : Type} `{World W E Q P} (ig : Integration E) (format : time -> string) (base tries : Z) (zero : P)
    (source : string) (run next : uuid) (kind : Kind Q P) (rows : list FetchKeyParams) (open : list DatasourceBlock)
    (cache : option (gmap string (cacheEntry P))) (fresh : bool) (reqs : list Q) (l : limiter) (w : W) :
  well_asked kind reqs -> open_blocks next open ->
  (forall x, x ∈ rows -> (cf_ID x < next)%N /\ cf_FetchID x <> run) ->
  exists fd, fetchRun ig format base tries zero source run next kind rows open cache fresh reqs l w = Some fd /\
    fd_rows fd = rows ++ map (record_key run kind) (fd_keys fd) /\
    (exists new, fd_blocks fd = open ++ new /\ length new = fd_found fd) /\
    Forall2 (fun '(i, q) r => key_of source run next i q r /\ settled tries (newBlockSet open) (newBlockSet (fd_blocks fd)) r)
      (imap (fun i q => (i, q)) reqs) (fd_keys fd).
Proof.
  intros Hasked Ho Hold. unfold fetchRun.
  destruct (fetch_keys_some ig format base tries zero source run next kind open cache fresh reqs l w) as (fg & cache' & -> & Hadd & Hg & Hf).
  cbn [mbind option_bind]. rewrite (fetch_rows_some tries source run next kind reqs rows _ _ (fg_keys fg) Hasked Hold Hf). cbn [mbind option_bind].
  destruct (write_blocks_some open 0 (next + N.of_nat (length reqs))%N (fg_pending fg)) as (new & n & id' & -> & Hn & Hc).
  { eapply Forall_impl; [exact Ho |]. intros x [? ?]. split; [done | lia]. }
  { eapply Forall_impl; [exact Hg |]. by intros x [? ?]. }
  cbn [mbind option_bind]. eexists. split; [reflexivity |]. simpl. split; [done |]. split; [eauto |].
  eapply Forall2_impl; [exact Hf |]. intros [i q] r [Hk Hset]. split; [done |]. eapply settled_weaken; [| exact Hset].
  intros id Hid. rewrite newBlockSet_covers. destruct (add_blocks_covers _ _ _ id Hadd Hid) as [Hb|(bl & Hbl & Hid')].
  - apply newBlockSet_covers in Hb as (bl & ? & ?). exists bl. split; [apply elem_of_app; by left | done].
  - by apply (Hc bl id).
Qed.

(** * A concrete fetch *)

Module Example.

(** A provider that is busy for the first call and refuses the value "bad". *)
Record world : Type := MkWorld {
  clock : Z;
  called : Z;
}.

#[global] Instance world_World : World world string nat string := {
  w_now w := (clock w, MkWorld (clock w + 1) (called w));
  w_sleep w d := (None, MkWorld (clock w + d) (called w));
  w_rate w := (None, w);
  w_Fetch w reqs :=
    ((if called w =? 0 then Err "busy"%string
      else Ok (map (fun q => if bool_decide (rq_Value q = 3%nat) then Err "bad"%string else Ok (id_Value (rq_Sent q))) reqs)),
     MkWorld (clock w) (called w + 1));
  w_rand w n := (0, w);
}.

#[global] Instance world_Counted : Counted world string nat string called 1.
Proof. by split. Qed.

Definition integration : Integration string := {|
  ig_Classify e := if bool_decide (e = "busy"%string) then MkFailure true ScopeRequest "" 0 else MkFailure false ScopeKey "unknown" 0;
  ig_Error e := e;
  ig_RateLimit e := "rate limit: " +:+ e;
  ig_Batch := 2;
|}.

Definition sent (q : nat) : Identifier := MkIdentifier IdentifierTypeMicTicker "XNAS" (match q with 1%nat => "BLKD" | 2%nat => "GOOD" | _ => "UGLY" end).

Definition kind : Kind nat string := {|
  kd_name := "price";
  kd_server := Some {| sr_Serves q := match q with O => Err "not a venue of the datasource"%string | _ => Ok (sent q) end; sr_Params q := [] |};
  kd_statedKey q := Some (N.of_nat q);
  kd_count v := 1;
  kd_params q := [];
  kd_asked q := Some (MkPeriod 0 10);
|}.

Definition open : list DatasourceBlock := [MkDatasourceBlock 5 BlockScopeIdentifier (Some IdentifierTypeMicTicker) "XNAS" (Some "BLKD"%string) "unknown" 1].

Definition run : option (@fetched world nat string) :=
  fetchRun integration (fun _ => "later"%string) retryBase retryTries ""%string "src" 7 20 kind [] open (Some ∅) false (seq 0 4) (MkLimiter 0 0 "") (MkWorld 100 0).

(** The server refuses the first key, an open block the second; the others are
    sent in one call, which its retry answers, and the last key's failure opens
    a block. *)
Example run_outcomes : (fun fd => (map fk_Outcome (fd_keys fd), map fk_attempts (fd_keys fd), fd_found fd, length (fd_blocks fd), called (fd_world fd))) <$> run
  = Some ([FetchOutcomeNotServed; FetchOutcomeBlocked; FetchOutcomeServed; FetchOutcomeFailedPermanent], [0; 0; 2; 2], 1%nat, 2%nat, 2).
Proof. vm_compute. reflexivity. Qed.

End Example.

Lemma fetchRun_spec_witness : exists fd, Example.run = Some fd /\ length (fd_keys fd) = 4%nat.
Proof.
  destruct (fetchRun_spec Example.integration (fun _ => "later"%string) retryBase retryTries ""%string "src" 7 20 Example.kind [] Example.open
    (Some ∅) false (seq 0 4) (MkLimiter 0 0 "") (Example.MkWorld 100 0)) as (fd & Hfd & _ & _ & Hf).
  - split; [intros q p _ [= <-]; by vm_compute |]. intros i j q q' k [-> _]%lookup_seq [-> _]%lookup_seq. simpl. intros Hi Hj. assert (N.of_nat i = N.of_nat j) by congruence. lia.
  - constructor; [| constructor]. split; by vm_compute.
  - intros x Hx. by apply elem_of_nil in Hx.
  - exists fd. split; [exact Hfd |]. by apply Forall2_length in Hf.
Defined.

Lemma request_spec_witness : exists r n l' w',
  request (W := Example.world) Example.integration (fun _ => "later"%string) retryBase retryTries [MkRequest 2%nat (Example.sent 2)] (MkLimiter 0 0 "") (Example.MkWorld 100 0)
    = Some (r, n, l', w') /\ 0 <= n <= 3 /\ Example.called w' = n.
Proof.
  destruct (request_spec (calls := Example.called) Example.integration (fun _ => "later"%string) retryBase retryTries [MkRequest 2%nat (Example.sent 2)]
    (MkLimiter 0 0 "") (Example.MkWorld 100 0)) as (r & n & l' & w' & Hr & Hn & Hc & _); [exact _ |].
  exists r, n, l', w'. split; [exact Hr |]. split; [exact Hn | exact Hc].
Defined.
