(* ===== verification/InstrStore.v ===== *)
(** Stored instruments: the tables an identity write changes, with the
    constraints their schema states ([server/internal/db/migrations]), the
    queries on them ([server/internal/db/queries]) and the rows read back
    ([server/internal/db/join/instr.go]).

    A statement is a step on the tables that fails where it would leave a
    constraint violated. The deferrable foreign keys are checked with each
    statement until [DeferConstraints], and then at the commit. The foreign keys
    into [mics], [market_members], [runs] and [users] are left out, as those
    tables are: a venue is taken to be a member of its ticker's market. *)
From S2P Require Import Prelude Types Period Facts Rows Calendar Validity ValidityStore Market Resolution.

(** * Tables *)

Inductive Arbiter : Type :=
| ArbiterStated
| ArbiterDatasource
| ArbiterGuess
| ArbiterUser.

#[export] Instance Arbiter_eq_dec : EqDecision Arbiter.
Proof. solve_decision. Defined.

(** A row of [stated_keys] with its association. *)
Record StatedKeyRow : Type := MkStatedKeyRow {
  ks_Key : StatedKey;
  ks_ListingID : option uuid;
  ks_ViaIdentifierID : option uuid;
  ks_ViaMarket : option string;
  ks_Arbiter : option Arbiter;
}.

(** A row of [identity_coverage]. *)
Record IdentityCoverageRow : Type := MkIdentityCoverageRow {
  ic_InstrID : uuid;
  ic_Datasource : string;
  ic_FetchKeyID : uuid;
}.

(** A row of [resolution_keys]. *)
Record ResolutionKey : Type := MkResolutionKey {
  rk_RunID : uuid;
  rk_UserID : uuid;
  rk_StatedKeyID : uuid;
  rk_Outcome : ResolutionOutcome;
  rk_Reasons : list string;
  rk_Offered : Z;
}.

(** A row of [findings]. The columns of the kinds no code here writes are NULL:
    the block, the day of a stated split and the corporate action. *)
Record FindingRow : Type := MkFindingRow {
  fr_ID : uuid;
  fr_RunID : uuid;
  fr_StatedKeyID : option uuid;
  fr_Params : CreateFindingParams;
}.

#[export] Instance InstrRow_eq_dec : EqDecision InstrRow.
Proof. solve_decision. Defined.
#[export] Instance InstrListing_eq_dec : EqDecision InstrListing.
Proof. solve_decision. Defined.
#[export] Instance IdentifierRow_eq_dec : EqDecision IdentifierRow.
Proof. solve_decision. Defined.

Record instr_db : Type := MkInstrDB {
  db_instrs : list InstrRow;
  db_listings : list InstrListing;
  db_identifiers : list IdentifierRow;
  db_stated : list StatedKeyRow;
  (** [fetch_keys], by id, with the user and the instrument of each. *)
  db_fetch : gmap uuid (option uuid * option uuid);
  db_coverage : list IdentityCoverageRow;
  db_validity : validity_db;
  db_findings : list FindingRow;
  db_resolutions : list ResolutionKey;
  (** The codes of [currencies] that are their own family, and every code. *)
  db_families : list string;
  db_codes : list string;
  (** The next id [db.NewID] mints, the moment of the transaction, and whether
      the deferrable constraints wait for the commit. *)
  db_next : uuid;
  db_now : time;
  db_deferred : bool;
}.

(** ** Setters *)

Section Setters.
Implicit Types (db : instr_db).

Definition set_instrs (f : list InstrRow -> list InstrRow) db : instr_db :=
  MkInstrDB (f (db_instrs db)) (db_listings db) (db_identifiers db) (db_stated db) (db_fetch db) (db_coverage db) (db_validity db)
    (db_findings db) (db_resolutions db) (db_families db) (db_codes db) (db_next db) (db_now db) (db_deferred db).
Definition set_listings (f : list InstrListing -> list InstrListing) db : instr_db :=
  MkInstrDB (db_instrs db) (f (db_listings db)) (db_identifiers db) (db_stated db) (db_fetch db) (db_coverage db) (db_validity db)
    (db_findings db) (db_resolutions db) (db_families db) (db_codes db) (db_next db) (db_now db) (db_deferred db).
Definition set_identifiers (f : list IdentifierRow -> list IdentifierRow) db : instr_db :=
  MkInstrDB (db_instrs db) (db_listings db) (f (db_identifiers db)) (db_stated db) (db_fetch db) (db_coverage db) (db_validity db)
    (db_findings db) (db_resolutions db) (db_families db) (db_codes db) (db_next db) (db_now db) (db_deferred db).
Definition set_stated (f : list StatedKeyRow -> list StatedKeyRow) db : instr_db :=
  MkInstrDB (db_instrs db) (db_listings db) (db_identifiers db) (f (db_stated db)) (db_fetch db) (db_coverage db) (db_validity db)
    (db_findings db) (db_resolutions db) (db_families db) (db_codes db) (db_next db) (db_now db) (db_deferred db).
Definition set_fetch (f : gmap uuid (option uuid * option uuid) -> gmap uuid (option uuid * option uuid)) db : instr_db :=
  MkInstrDB (db_instrs db) (db_listings db) (db_identifiers db) (db_stated db) (f (db_fetch db)) (db_coverage db) (db_validity db)
    (db_findings db) (db_resolutions db) (db_families db) (db_codes db) (db_next db) (db_now db) (db_deferred db).
Definition set_coverage (f : list IdentityCoverageRow -> list IdentityCoverageRow) db : instr_db :=
  MkInstrDB (db_instrs db) (db_listings db) (db_identifiers db) (db_stated db) (db_fetch db) (f (db_coverage db)) (db_validity db)
    (db_findings db) (db_resolutions db) (db_families db) (db_codes db) (db_next db) (db_now db) (db_deferred db).
Definition set_validity_db (f : validity_db -> validity_db) db : instr_db :=
  MkInstrDB (db_instrs db) (db_listings db) (db_identifiers db) (db_stated db) (db_fetch db) (db_coverage db) (f (db_validity db))
    (db_findings db) (db_resolutions db) (db_families db) (db_codes db) (db_next db) (db_now db) (db_deferred db).
Definition set_findings (f : list FindingRow -> list FindingRow) db : instr_db :=
  MkInstrDB (db_instrs db) (db_listings db) (db_identifiers db) (db_stated db) (db_fetch db) (db_coverage db) (db_validity db)
    (f (db_findings db)) (db_resolutions db) (db_families db) (db_codes db) (db_next db) (db_now db) (db_deferred db).
Definition set_resolutions (f : list ResolutionKey -> list ResolutionKey) db : instr_db :=
  MkInstrDB (db_instrs db) (db_listings db) (db_identifiers db) (db_stated db) (db_fetch db) (db_coverage db) (db_validity db)
    (db_findings db) (f (db_resolutions db)) (db_families db) (db_codes db) (db_next db) (db_now db) (db_deferred db).
Definition set_next (next : uuid) db : instr_db :=
  MkInstrDB (db_instrs db) (db_listings db) (db_identifiers db) (db_stated db) (db_fetch db) (db_coverage db) (db_validity db)
    (db_findings db) (db_resolutions db) (db_families db) (db_codes db) next (db_now db) (db_deferred db).
Definition set_deferred (deferred : bool) db : instr_db :=
  MkInstrDB (db_instrs db) (db_listings db) (db_identifiers db) (db_stated db) (db_fetch db) (db_coverage db) (db_validity db)
    (db_findings db) (db_resolutions db) (db_families db) (db_codes db) (db_next db) (db_now db) deferred.

End Setters.

Definition set_assertions (f : list AssertionRow -> list AssertionRow) (v : validity_db) : validity_db :=
  MkValidityDB (vd_tickers v) (f (vd_assertions v)) (vd_coverage v) (vd_keys v) (vd_runs v) (vd_event_sources v) (vd_validity v) (vd_resolved v).

Definition set_facts_coverage (f : list CoverageRow -> list CoverageRow) (v : validity_db) : validity_db :=
  MkValidityDB (vd_tickers v) (vd_assertions v) (f (vd_coverage v)) (vd_keys v) (vd_runs v) (vd_event_sources v) (vd_validity v) (vd_resolved v).

(** * Constraints *)

Section Constraints.
Variable db : instr_db.

Definition instr_ids : list uuid := map in_ID (db_instrs db).
Definition listing_ids : list uuid := map lr_ID (db_listings db).

(** A reference that may be NULL. *)
Definition refers {A} (xs : list A) (o : option A) : Prop := match o with Some x => x ∈ xs | None => True end.
Definition fetched_by (o : option uuid) : Prop := match o with Some k => is_Some (db_fetch db !! k) | None => True end.

Definition instr_ok (r : InstrRow) : Prop := fetched_by (in_FetchKeyID r).

Definition listing_ok (l : InstrListing) : Prop :=
  lr_InstrID l ∈ instr_ids /\ lr_Currency l ∈ db_families db /\ fetched_by (lr_FetchKeyID l).

(** The grain of the row is generated from its listing. *)
Definition row_grain (r : IdentifierRow) : IdentifierGrain :=
  match ir_ListingID r with None => IdentifierGrainInstr | Some _ => IdentifierGrainListing end.

Definition identifier_ok (r : IdentifierRow) : Prop :=
  ir_InstrID r ∈ instr_ids /\ refers listing_ids (ir_ListingID r) /\ Grain (to_Identifier r) = row_grain r /\
  ir_Type r <> IdentifierTypeMicTicker /\ ir_Type r <> IdentifierTypeDatasourceTicker /\ fetched_by (ir_FetchKeyID r).

Definition stated_ok (k : StatedKeyRow) : Prop :=
  let s := ks_Key k in
  refers instr_ids (sk_InstrID s) /\ refers listing_ids (ks_ListingID k) /\ refers (map ir_ID (db_identifiers db)) (ks_ViaIdentifierID k) /\
  (sk_InstrID s = None <-> ks_ViaIdentifierID k = None) /\ (sk_InstrID s = None -> ks_ListingID k = None) /\
  (sk_GroupID s = None \/ sk_InstrID s = None) /\
  (sk_ViaTickerID s = None <-> ks_ViaMarket k = None) /\ (sk_ViaTickerID s = None <-> sk_ViaVenue s = None) /\
  (sk_InstrID s = None \/ sk_ViaTickerID s = None) /\
  (ks_Arbiter k = None <-> sk_InstrID s = None /\ sk_ViaTickerID s = None) /\
  (sk_ViaTickerID s = None \/ ks_Arbiter k <> Some ArbiterUser).

Definition coverage_key (c : IdentityCoverageRow) : uuid * string := (ic_InstrID c, ic_Datasource c).

Definition coverage_ok (c : IdentityCoverageRow) : Prop := ic_InstrID c ∈ instr_ids /\ is_Some (db_fetch db !! ic_FetchKeyID c).

(** UNIQUE NULLS NOT DISTINCT. *)
Definition assertion_key (a : AssertionRow) : option uuid * option uuid * uuid * time * option string :=
  (ia_FetchKeyID a, ia_RunID a, ia_TickerID a, ia_AssertedFrom a, ia_Venue a).

Definition assertion_ok (a : AssertionRow) : Prop :=
  refers instr_ids (ia_InstrID a) /\ ia_AssertedFrom a < ia_AssertedBefore a /\ fetched_by (ia_FetchKeyID a) /\
  (ia_FetchKeyID a = None <-> ia_RunID a <> None) /\ refers (db_codes db) (ia_Currency a) /\
  (ia_TickerID a, ia_Market a) ∈ map (fun t => (tk_ID t, tk_Market t)) (vd_tickers (db_validity db)).

Definition facts_coverage_ok (c : CoverageRow) : Prop :=
  is_Some (db_fetch db !! cw_FetchKeyID c) /\ cw_CoveredFrom c < cw_CoveredBefore c /\
  (cw_TickerID c, cw_Market c) ∈ map (fun t => (tk_ID t, tk_Market t)) (vd_tickers (db_validity db)).

(** The kinds of a finding of a stated key, and of one of the facts of a
    ticker. *)
Definition key_kinds : list FindingKind := [FindingKindDropped; FindingKindContradiction; FindingKindMerged].
Definition fact_kinds : list FindingKind := [FindingKindIdentifierDisagreement; FindingKindBrokenTickerValidityBracket; FindingKindMissedEvent].

Definition finding_ok (f : FindingRow) : Prop :=
  let p := fr_Params f in
  fp_Kind p ∈ key_kinds ++ fact_kinds /\ fp_Detail p <> None /\
  (fp_Kind p = FindingKindDropped <-> fp_Step p <> None) /\ (fp_Kind p ∉ FindingKindDropped :: fact_kinds \/ fp_FetchKeyID p <> None) /\
  fetched_by (fp_FetchKeyID p) /\ (fp_Kind p ∈ key_kinds <-> fr_StatedKeyID f <> None) /\
  refers (map (fun k => sk_ID (ks_Key k)) (db_stated db)) (fr_StatedKeyID f).

Definition resolution_ok (r : ResolutionKey) : Prop :=
  rk_Outcome r <> ResolutionOutcomeNone /\ (rk_Outcome r = ResolutionOutcomeMatched -> rk_Reasons r = [] /\ rk_Offered r = 0) /\
  (rk_Outcome r = ResolutionOutcomeRejected -> rk_Reasons r <> []) /\ 0 <= rk_Offered r /\
  rk_StatedKeyID r ∈ map (fun k => sk_ID (ks_Key k)) (db_stated db).

(** The unique constraints. *)
Definition unique : Prop :=
  NoDup instr_ids /\ NoDup listing_ids /\ NoDup (map (fun l => (lr_InstrID l, lr_Currency l)) (db_listings db)) /\
  NoDup (map ir_ID (db_identifiers db)) /\ NoDup (map to_Identifier (db_identifiers db)) /\ NoDup (map (fun k => sk_ID (ks_Key k)) (db_stated db)) /\
  NoDup (map coverage_key (db_coverage db)) /\ NoDup (map ia_ID (vd_assertions (db_validity db))) /\
  NoDup (map assertion_key (vd_assertions (db_validity db))) /\ NoDup (map cw_ID (vd_coverage (db_validity db))) /\
  NoDup (map fr_ID (db_findings db)) /\ NoDup (map (fun r => (rk_RunID r, rk_StatedKeyID r)) (db_resolutions db)).

(** What every statement checks when it ends. *)
Definition consistent : Prop :=
  (NoDup instr_ids /\ Forall instr_ok (db_instrs db)) /\
  (NoDup listing_ids /\ NoDup (map (fun l => (lr_InstrID l, lr_Currency l)) (db_listings db)) /\ Forall listing_ok (db_listings db)) /\
  (NoDup (map ir_ID (db_identifiers db)) /\ NoDup (map to_Identifier (db_identifiers db)) /\ Forall identifier_ok (db_identifiers db)) /\
  (NoDup (map (fun k => sk_ID (ks_Key k)) (db_stated db)) /\ Forall stated_ok (db_stated db)) /\
  map_Forall (fun _ f => refers instr_ids f.2) (db_fetch db) /\
  (NoDup (map coverage_key (db_coverage db)) /\ Forall coverage_ok (db_coverage db)) /\
  (NoDup (map ia_ID (vd_assertions (db_validity db))) /\ NoDup (map assertion_key (vd_assertions (db_validity db))) /\
   Forall assertion_ok (vd_assertions (db_validity db))) /\
  (NoDup (map cw_ID (vd_coverage (db_validity db))) /\ Forall facts_coverage_ok (vd_coverage (db_validity db))) /\
  (Forall (fun v => tv_InstrID v ∈ instr_ids) (vd_validity (db_validity db)) /\
   Forall (fun r => rt_InstrID r ∈ instr_ids) (vd_resolved (db_validity db))) /\
  (NoDup (map fr_ID (db_findings db)) /\ Forall finding_ok (db_findings db)) /\
  (NoDup (map (fun r => (rk_RunID r, rk_StatedKeyID r)) (db_resolutions db)) /\ Forall resolution_ok (db_resolutions db)).

(** The deferrable foreign keys: a listing belongs to the instrument of the row
    that refers to it. *)
Definition listing_of_instr (l : option uuid) (instr : option uuid) : Prop :=
  match l, instr with
  | Some l, Some i => (l, i) ∈ map (fun x => (lr_ID x, lr_InstrID x)) (db_listings db)
  | _, _ => True
  end.

Definition linked : Prop :=
  Forall (fun r => listing_of_instr (ir_ListingID r) (Some (ir_InstrID r))) (db_identifiers db) /\
  Forall (fun k => listing_of_instr (ks_ListingID k) (sk_InstrID (ks_Key k))) (db_stated db).

#[export] Instance refers_dec {A} `{!EqDecision A} (xs : list A) o : Decision (refers xs o).
Proof. destruct o; simpl; apply _. Defined.
#[export] Instance fetched_by_dec o : Decision (fetched_by o).
Proof. destruct o; simpl; apply _. Defined.
#[export] Instance iff_dec P Q `{!Decision P, !Decision Q} : Decision (P <-> Q).
Proof. unfold iff. apply _. Defined.
#[export] Instance stated_ok_dec k : Decision (stated_ok k).
Proof. unfold stated_ok. apply _. Defined.
#[export] Instance listing_of_instr_dec l i : Decision (listing_of_instr l i).
Proof. destruct l, i; simpl; apply _. Defined.
#[export] Instance fp_Kind_dec : EqDecision CreateFindingParams.
Proof. solve_decision. Defined.
#[export] Instance consistent_dec : Decision consistent.
Proof. unfold consistent, instr_ok, listing_ok, identifier_ok, coverage_ok, assertion_ok, facts_coverage_ok, finding_ok, resolution_ok. apply _. Defined.
#[export] Instance unique_dec : Decision unique.
Proof. unfold unique. apply _. Defined.
#[export] Instance linked_dec : Decision linked.
Proof. unfold linked. apply _. Defined.

End Constraints.

(** * Transactions *)

(** Why a write fails: a violated unique constraint, another violated
    constraint, a deadlock or a failed serialisation, a check of the user's
    choice ([ErrNoCandidate]), a concurrent write ([db.ErrConcurrent]), or
    another error. *)
Inductive write_error : Type :=
| ErrUnique
| ErrConstraint
| ErrDeadlock
| ErrSerialization
| ErrNoCandidate (detail : string)
| ErrConcurrent (detail : string)
| ErrOther (detail : string).

(** A step of a transaction. *)
Definition tx (A : Type) : Type := instr_db -> res write_error (A * instr_db).

#[export] Instance tx_ret : MRet tx := fun A a db => Ok (a, db).
#[export] Instance tx_bind : MBind tx := fun A B f m db => match m db with Ok (a, db') => f a db' | Err e => Err e end.

Definition tx_get : tx instr_db := fun db => Ok (db, db).
Definition tx_fail {A} (e : write_error) : tx A := fun _ => Err e.
(** A nil dereference is [None]. *)
Definition tx_some {A} (o : option A) : tx A := fun db => match o with Some a => Ok (a, db) | None => Err (ErrOther "nil") end.

Fixpoint tx_fold {A S} (f : S -> A -> tx S) (s : S) (l : list A) : tx S :=
  match l with
  | [] => mret s
  | a :: l' => s' ← f s a; tx_fold f s' l'
  end.

Definition tx_each {A} (f : A -> tx unit) (l : list A) : tx unit := tx_fold (fun _ a => f a) tt l.

(** A statement. Where it violates a unique constraint among others, it reports
    the unique one. *)
Definition statement (f : instr_db -> instr_db) : tx unit := fun db =>
  let db' := f db in
  if bool_decide (consistent db') && (db_deferred db' || bool_decide (linked db')) then Ok (tt, db')
  else if bool_decide (unique db') then Err ErrConstraint else Err ErrUnique.

Definition NewID : tx uuid := fun db => Ok (db_next db, set_next (db_next db + 1)%N db).

(** [once]: the deferrable constraints are immediate again, and hold at the
    commit. A failing transaction leaves the tables as they were. *)
Definition once {A} (m : tx A) : tx A := fun db =>
  match m (set_deferred false db) with
  | Ok (a, db') => if bool_decide (linked db') then Ok (a, set_deferred false db') else Err ErrConstraint
  | Err e => Err e
  end.

(** [cause], [db.go]. *)
Definition cause (e : write_error) : option string :=
  match e with
  | ErrConcurrent _ => Some "concurrent_write"%string
  | ErrUnique => Some "unique_violation"%string
  | ErrDeadlock => Some "deadlock"%string
  | ErrSerialization => Some "serialization_failure"%string
  | _ => None
  end.

Definition IsRetryable (e : write_error) : bool := negb (bool_decide (cause e = None)).

Definition tries : Z := 3.

(** The loop [for attempt := 1; ; attempt++] of [Tx]; the attempt [n] finds the
    tables that other transactions have left it, [dbs n]. The loop ends at the
    attempt [tries], so [tries] turns are fuel. *)
Fixpoint Tx_loop {A} (fuel : nat) (m : tx A) (dbs : Z -> instr_db) (attempt : Z) : option (res write_error (A * instr_db) * Z) :=
  match fuel with
  | O => None
  | S fuel =>
      match once m (dbs attempt) with
      | Ok r => Some (Ok r, attempt)
      | Err e => if negb (IsRetryable e) || (tries <=? attempt) then Some (Err e, attempt) else Tx_loop fuel m dbs (attempt + 1)
      end
  end.

Definition Tx {A} (m : tx A) (dbs : Z -> instr_db) : option (res write_error (A * instr_db) * Z) := Tx_loop (Z.to_nat tries) m dbs 1.

(** * Queries *)

Definition DeferConstraints : tx unit := statement (set_deferred true).

Definition CreateInstr (id : uuid) (class : AssetClass) (fetchKeyID : option uuid) : tx InstrRow :=
  db ← tx_get;
  let row := MkInstrRow id class (db_now db) fetchKeyID in
  statement (set_instrs (fun l => l ++ [row]));; mret row.

Definition CreateListing (id instr : uuid) (currency : string) (fetchKeyID : option uuid) (primary : option string) : tx InstrListing :=
  let row := MkInstrListing id instr currency primary fetchKeyID in
  statement (set_listings (fun l => l ++ [row]));; mret row.

Definition with_primary (p : option string) (l : InstrListing) : InstrListing :=
  MkInstrListing (lr_ID l) (lr_InstrID l) (lr_Currency l) p (lr_FetchKeyID l).

Definition SetListingPrimary (id : uuid) (primary : option string) : tx unit :=
  statement (set_listings (map (fun l => if bool_decide (lr_ID l = id) && bool_decide (lr_PrimaryMic l = None) then with_primary primary l else l))).

Definition CreateIdentifier (id instr : uuid) (listing : option uuid) (name : Identifier) (fetchKeyID : option uuid) : tx IdentifierRow :=
  let row := MkIdentifierRow id instr listing (id_Type name) (id_Domain name) (id_Value name) fetchKeyID in
  statement (set_identifiers (fun l => l ++ [row]));; mret row.

(** The instrument of the row that holds [name], and [None] for
    [db.ErrNotFound]. *)
Definition FindIdentifier (db : instr_db) (name : Identifier) : option (IdentifierRow * InstrRow) :=
  r ← find_func (fun r => bool_decide (to_Identifier r = name)) (db_identifiers db);
  i ← find_func (fun i => bool_decide (in_ID i = ir_InstrID r)) (db_instrs db);
  Some (r, i).

Definition identifier_cmp : IdentifierRow -> IdentifierRow -> comparison :=
  cmp_lex (cmp_on ir_InstrID N.compare)
    (cmp_lex (cmp_on (fun r => trait_NameRank (traits (ir_Type r))) Z.compare)
      (cmp_lex (cmp_on ir_Domain String.compare) (cmp_on ir_Value String.compare))).

Definition ListIdentifiersOf (db : instr_db) (ids : list uuid) : list IdentifierRow :=
  sort_func identifier_cmp (List.filter (fun r => contains ids (ir_InstrID r)) (db_identifiers db)).

Definition ListListingsOf (db : instr_db) (ids : list uuid) : list InstrListing :=
  sort_func (cmp_lex (cmp_on lr_InstrID N.compare) (cmp_on lr_Currency String.compare))
    (List.filter (fun l => contains ids (lr_InstrID l)) (db_listings db)).

Definition ListIdentityCoverage (db : instr_db) (ids : list uuid) : list IdentityCoverageRow :=
  sort_func (cmp_lex (cmp_on ic_InstrID N.compare) (cmp_on ic_Datasource String.compare))
    (List.filter (fun c => contains ids (ic_InstrID c)) (db_coverage db)).

(** [join.InstrsWithCoverage] of the rows [rows], at one of them: the rows of
    the answers that carry its id, in their order. *)
Definition join_InstrWithCoverage (db : instr_db) (rows : list InstrRow) (row : InstrRow) : InstrWithCoverage :=
  let ids := map in_ID rows in
  MkInstrWithCoverage
    (MkJoin row (List.filter (fun r => bool_decide (ir_InstrID r = in_ID row)) (ListIdentifiersOf db ids))
       (List.filter (fun l => bool_decide (lr_InstrID l = in_ID row)) (ListListingsOf db ids)))
    (map ic_Datasource (List.filter (fun c => bool_decide (ic_InstrID c = in_ID row)) (ListIdentityCoverage db ids))).

Definition with_instr (i : uuid) (l : InstrListing) : InstrListing :=
  MkInstrListing (lr_ID l) i (lr_Currency l) (lr_PrimaryMic l) (lr_FetchKeyID l).

Definition MoveListing (id instr : uuid) : tx unit :=
  statement (set_listings (map (fun l => if bool_decide (lr_ID l = id) then with_instr instr l else l))).

(** The subquery of the relinks: the survivor's listing in the family of the
    listing [l]. *)
Definition relisted (db : instr_db) (survivor : uuid) (l : option uuid) : option uuid :=
  id ← l;
  x ← find_func (fun x => bool_decide (lr_ID x = id)) (db_listings db);
  s ← find_func (fun s => bool_decide (lr_Currency s = lr_Currency x) && bool_decide (lr_InstrID s = survivor)) (db_listings db);
  Some (lr_ID s).

Definition relink_identifier (db : instr_db) (survivor loser : uuid) (r : IdentifierRow) : IdentifierRow :=
  if bool_decide (ir_InstrID r = loser)
  then MkIdentifierRow (ir_ID r) survivor (relisted db survivor (ir_ListingID r)) (ir_Type r) (ir_Domain r) (ir_Value r) (ir_FetchKeyID r)
  else r.

Definition RelinkIdentifiers (survivor loser : uuid) : tx unit :=
  statement (fun db => set_identifiers (map (relink_identifier db survivor loser)) db).

Definition with_InstrID (k : StatedKey) (i : option uuid) : StatedKey :=
  MkStatedKey (sk_ID k) (sk_UserID k) (sk_AssetClass k) (sk_Currency k) (sk_Identifiers k) i (sk_ViaTickerID k) (sk_ViaVenue k) (sk_GroupID k).

Definition relink_stated (db : instr_db) (survivor loser : uuid) (k : StatedKeyRow) : StatedKeyRow :=
  if bool_decide (sk_InstrID (ks_Key k) = Some loser)
  then MkStatedKeyRow (with_InstrID (ks_Key k) (Some survivor)) (relisted db survivor (ks_ListingID k)) (ks_ViaIdentifierID k) (ks_ViaMarket k) (ks_Arbiter k)
  else k.

Definition RelinkStatedKeys (survivor loser : uuid) : tx unit :=
  statement (fun db => set_stated (map (relink_stated db survivor loser)) db).

(** [instr_id], with the loser's replaced. *)
Definition relink (survivor loser : uuid) (i : uuid) : uuid := if bool_decide (i = loser) then survivor else i.

Definition RelinkFetchKeys (survivor loser : uuid) : tx unit :=
  statement (set_fetch (fun m => (fun f : option uuid * option uuid => (f.1, relink survivor loser <$> f.2)) <$> m)).

Definition with_ia_InstrID (i : option uuid) (a : AssertionRow) : AssertionRow :=
  MkAssertionRow (ia_ID a) (ia_FetchKeyID a) (ia_RunID a) (ia_TickerID a) (ia_Market a) i (ia_AssertedFrom a) (ia_AssertedBefore a)
    (ia_EdgeFrom a) (ia_EdgeBefore a) (ia_Venue a) (ia_Currency a).

Definition RelinkIdentifierAssertions (survivor loser : uuid) : tx unit :=
  statement (set_validity_db (set_assertions (map (fun a => with_ia_InstrID (relink survivor loser <$> ia_InstrID a) a)))).

(** The rows of the loser that conflict with none of the survivor's. *)
Definition MoveIdentityCoverage (survivor loser : uuid) : tx unit :=
  statement (set_coverage (fun l => l ++
    List.filter (fun c => negb (existsb (fun o => bool_decide (coverage_key o = coverage_key c)) l))
      (map (fun c => MkIdentityCoverageRow survivor (ic_Datasource c) (ic_FetchKeyID c)) (List.filter (fun c => bool_decide (ic_InstrID c = loser)) l)))).

Definition DeleteIdentityCoverage (instr : uuid) : tx unit :=
  statement (set_coverage (List.filter (fun c => negb (bool_decide (ic_InstrID c = instr))))).

Definition DeleteListings (instr : uuid) : tx unit :=
  statement (set_listings (List.filter (fun l => negb (bool_decide (lr_InstrID l = instr))))).

(** The rows of ticker validity and the names of the instrument go with it. *)
Definition cascade_instr (instr : uuid) (v : validity_db) : validity_db :=
  set_resolved (set_validity v (List.filter (fun r => negb (bool_decide (tv_InstrID r = instr))) (vd_validity v)))
    (List.filter (fun r => negb (bool_decide (rt_InstrID r = instr))) (vd_resolved v)).

Definition DeleteInstr (instr : uuid) : tx unit :=
  statement (fun db => set_validity_db (cascade_instr instr) (set_instrs (List.filter (fun r => negb (bool_decide (in_ID r = instr)))) db)).

Definition UpsertIdentityCoverage (instr : uuid) (datasource : string) (fetchKeyID : uuid) : tx unit :=
  let row := MkIdentityCoverageRow instr datasource fetchKeyID in
  statement (set_coverage (fun l =>
    if existsb (fun c => bool_decide (coverage_key c = coverage_key row)) l
    then map (fun c => if bool_decide (coverage_key c = coverage_key row) then row else c) l else l ++ [row])).

Definition SetFetchKeyInstr (id user : uuid) (instr : uuid) : tx unit :=
  statement (set_fetch (alter (fun f => if bool_decide (f.1 = Some user) then (f.1, Some instr) else f) id)).

(** The rows of the user that carry [id], unless the user arbitrated it. *)
Definition associable (id user : uuid) (k : StatedKeyRow) : bool :=
  bool_decide (sk_ID (ks_Key k) = id) && bool_decide (sk_UserID (ks_Key k) = user) && negb (bool_decide (ks_Arbiter k = Some ArbiterUser)).

Definition fixed_key (instr : uuid) (listing : option uuid) (via : uuid) (arbiter : Arbiter) (k : StatedKeyRow) : StatedKeyRow :=
  let s := ks_Key k in
  MkStatedKeyRow (MkStatedKey (sk_ID s) (sk_UserID s) (sk_AssetClass s) (sk_Currency s) (sk_Identifiers s) (Some instr) None None None)
    listing (Some via) None (Some arbiter).

Definition SetStatedKeyAssociation (id user instr : uuid) (listing : option uuid) (via : uuid) (arbiter : Arbiter) : tx unit :=
  statement (set_stated (map (fun k => if associable id user k then fixed_key instr listing via arbiter k else k))).

Definition dated_key (viaTicker : uuid) (viaMarket viaVenue : string) (arbiter : Arbiter) (k : StatedKeyRow) : StatedKeyRow :=
  let s := ks_Key k in
  MkStatedKeyRow (MkStatedKey (sk_ID s) (sk_UserID s) (sk_AssetClass s) (sk_Currency s) (sk_Identifiers s) None (Some viaTicker) (Some viaVenue)
    (sk_GroupID s)) None None (Some viaMarket) (Some arbiter).

Definition SetStatedKeyDatedAssociation (id user viaTicker : uuid) (viaMarket viaVenue : string) (arbiter : Arbiter) : tx unit :=
  statement (set_stated (map (fun k => if associable id user k then dated_key viaTicker viaMarket viaVenue arbiter k else k))).

Definition CreateIdentifierAssertion (a : AssertionRow) : tx unit :=
  statement (set_validity_db (set_assertions (fun l => l ++ [a]))).

Definition CreateIdentifierAssertionCoverage (c : CoverageRow) : tx unit :=
  statement (set_validity_db (set_facts_coverage (fun l => l ++ [c]))).

(** DISTINCT, in the order of the ids. *)
Definition ListTickersOfInstrs (db : instr_db) (instrs : list uuid) : list uuid :=
  sort_func N.compare (foldl append_unique []
    (map ia_TickerID (List.filter (fun a => match ia_InstrID a with Some i => contains instrs i | None => false end) (vd_assertions (db_validity db))))).

Definition CreateFinding (f : FindingRow) : tx unit := statement (set_findings (fun l => l ++ [f])).

Definition CreateResolutionKey (r : ResolutionKey) : tx ResolutionKey := statement (set_resolutions (fun l => l ++ [r]));; mret r.

(** The family of a listing. *)
Definition family_in (db : instr_db) (o : option uuid) : option string :=
  id ← o; x ← find_func (fun x => bool_decide (lr_ID x = id)) (db_listings db); Some (lr_Currency x).

(** * Statements that keep the constraints *)

Lemma statement_ok f db : consistent (f db) -> db_deferred (f db) = true \/ linked (f db) -> statement f db = Ok (tt, f db).
Proof.
  intros Hc Hl. unfold statement. rewrite bool_decide_eq_true_2 by done.
  destruct Hl as [-> | Hl]; [done |]. by rewrite (bool_decide_eq_true_2 (linked _)), orb_true_r.
Qed.

Lemma statement_some f db u db' : statement f db = Ok (u, db') -> db' = f db /\ consistent (f db) /\ (db_deferred (f db) = true \/ linked (f db)).
Proof.
  unfold statement. destruct (bool_decide (consistent (f db))) eqn:Hc; [| by destruct (bool_decide (unique _))]. apply bool_decide_eq_true in Hc. simpl.
  destruct (db_deferred (f db)) eqn:Hd; simpl; [intros [= _ <-]; auto |].
  destruct (bool_decide (linked (f db))) eqn:Hl; [| by destruct (bool_decide (unique _))]. apply bool_decide_eq_true in Hl. intros [= _ <-]. auto.
Qed.

Lemma tx_bind_ok {A B} (m : tx A) (f : A -> tx B) db a db' : m db = Ok (a, db') -> (m ≫= f) db = f a db'.
Proof. intros Hm. unfold mbind, tx_bind. by rewrite Hm. Qed.

(** ** References that stay *)

(** Every row a row of [db] may refer to is in [db']. *)
Record refs_kept (db db' : instr_db) : Prop := {
  kept_instrs : instr_ids db ⊆ instr_ids db';
  kept_listings : listing_ids db ⊆ listing_ids db';
  kept_identifiers : map ir_ID (db_identifiers db) ⊆ map ir_ID (db_identifiers db');
  kept_stated : map (fun k => sk_ID (ks_Key k)) (db_stated db) ⊆ map (fun k => sk_ID (ks_Key k)) (db_stated db');
  kept_fetch k : is_Some (db_fetch db !! k) -> is_Some (db_fetch db' !! k);
  kept_families : db_families db = db_families db';
  kept_codes : db_codes db = db_codes db';
  kept_tickers : vd_tickers (db_validity db) = vd_tickers (db_validity db');
}.

Lemma refs_kept_trans db1 db2 db3 : refs_kept db1 db2 -> refs_kept db2 db3 -> refs_kept db1 db3.
Proof. intros [] []. split; try (by etransitivity); auto. Qed.

Section Kept.
Context (db db' : instr_db) (Hk : refs_kept db db').

Lemma refers_kept {A} (xs ys : list A) o : xs ⊆ ys -> refers xs o -> refers ys o.
Proof. destruct o; simpl; auto. Qed.

Lemma fetched_kept o : fetched_by db o -> fetched_by db' o.
Proof. destruct o; simpl; [apply (kept_fetch _ _ Hk) | done]. Qed.

Lemma listing_ok_kept l : listing_ok db l -> listing_ok db' l.
Proof.
  intros (H1 & H2 & H3). split; [by apply (kept_instrs _ _ Hk) |]. split; [by rewrite <- (kept_families _ _ Hk) | by apply fetched_kept].
Qed.

Lemma identifier_ok_kept r : identifier_ok db r -> identifier_ok db' r.
Proof.
  intros (H1 & H2 & H3 & H4 & H5 & H6). split; [by apply (kept_instrs _ _ Hk) |].
  split; [by eapply refers_kept; [apply (kept_listings _ _ Hk) |] |]. repeat split; try done. by apply fetched_kept.
Qed.

Lemma stated_ok_kept k : stated_ok db k -> stated_ok db' k.
Proof.
  intros (H1 & H2 & H3 & H4). split; [by eapply refers_kept; [apply (kept_instrs _ _ Hk) |] |].
  split; [by eapply refers_kept; [apply (kept_listings _ _ Hk) |] |]. split; [by eapply refers_kept; [apply (kept_identifiers _ _ Hk) |] | done].
Qed.

Lemma coverage_ok_kept c : coverage_ok db c -> coverage_ok db' c.
Proof. intros [H1 H2]. split; [by apply (kept_instrs _ _ Hk) | by apply (kept_fetch _ _ Hk)]. Qed.

Lemma assertion_ok_kept a : assertion_ok db a -> assertion_ok db' a.
Proof.
  intros (H1 & H2 & H3 & H4 & H5 & H6). split; [by eapply refers_kept; [apply (kept_instrs _ _ Hk) |] |]. split; [done |].
  split; [by apply fetched_kept |]. split; [done |]. by rewrite <- (kept_codes _ _ Hk), <- (kept_tickers _ _ Hk).
Qed.

Lemma facts_coverage_ok_kept c : facts_coverage_ok db c -> facts_coverage_ok db' c.
Proof. intros (H1 & H2 & H3). split; [by apply (kept_fetch _ _ Hk) |]. by rewrite <- (kept_tickers _ _ Hk). Qed.

Lemma finding_ok_kept f : finding_ok db f -> finding_ok db' f.
Proof.
  intros (H1 & H2 & H3 & H4 & H5 & H6 & H7). split; [done |]. split; [done |]. split; [done |]. split; [done |].
  split; [by apply fetched_kept |]. split; [done | by eapply refers_kept; [apply (kept_stated _ _ Hk) |]].
Qed.

Lemma resolution_ok_kept r : resolution_ok db r -> resolution_ok db' r.
Proof. intros (H1 & H2 & H3 & H4 & H5). repeat split; try done; try (by apply H2). by apply (kept_stated _ _ Hk). Qed.

End Kept.

(** The constraints, table by table. *)
Record tables_ok (db : instr_db) : Prop := {
  ok_instr_ID : NoDup (instr_ids db);
  ok_instr : Forall (instr_ok db) (db_instrs db);
  ok_listing_ID : NoDup (listing_ids db);
  ok_listing_key : NoDup (map (fun l => (lr_InstrID l, lr_Currency l)) (db_listings db));
  ok_listing : Forall (listing_ok db) (db_listings db);
  ok_identifier_ID : NoDup (map ir_ID (db_identifiers db));
  ok_identifier_key : NoDup (map to_Identifier (db_identifiers db));
  ok_identifier : Forall (identifier_ok db) (db_identifiers db);
  ok_stated_ID : NoDup (map (fun k => sk_ID (ks_Key k)) (db_stated db));
  ok_stated : Forall (stated_ok db) (db_stated db);
  ok_fetch : map_Forall (fun _ f => refers (instr_ids db) f.2) (db_fetch db);
  ok_coverage_key : NoDup (map coverage_key (db_coverage db));
  ok_coverage : Forall (coverage_ok db) (db_coverage db);
  ok_assertion_ID : NoDup (map ia_ID (vd_assertions (db_validity db)));
  ok_assertion_key : NoDup (map assertion_key (vd_assertions (db_validity db)));
  ok_assertion : Forall (assertion_ok db) (vd_assertions (db_validity db));
  ok_facts_coverage_ID : NoDup (map cw_ID (vd_coverage (db_validity db)));
  ok_facts_coverage : Forall (facts_coverage_ok db) (vd_coverage (db_validity db));
  ok_validity : Forall (fun v => tv_InstrID v ∈ instr_ids db) (vd_validity (db_validity db));
  ok_resolved : Forall (fun r => rt_InstrID r ∈ instr_ids db) (vd_resolved (db_validity db));
  ok_finding_ID : NoDup (map fr_ID (db_findings db));
  ok_finding : Forall (finding_ok db) (db_findings db);
  ok_resolution_key : NoDup (map (fun r => (rk_RunID r, rk_StatedKeyID r)) (db_resolutions db));
  ok_resolution : Forall (resolution_ok db) (db_resolutions db);
}.

Lemma consistent_tables db : consistent db <-> tables_ok db.
Proof.
  split.
  - intros ((? & ?) & (? & ? & ?) & (? & ? & ?) & (? & ?) & ? & (? & ?) & (? & ? & ?) & (? & ?) & (? & ?) & (? & ?) & (? & ?)). by split.
  - intros []. by repeat split.
Qed.

(** A step that changes one table keeps the constraints of the others, where
    every reference stays. *)
Lemma tables_ok_kept db db' : tables_ok db -> refs_kept db db' ->
  NoDup (instr_ids db') -> Forall (instr_ok db') (db_instrs db') ->
  NoDup (listing_ids db') -> NoDup (map (fun l => (lr_InstrID l, lr_Currency l)) (db_listings db')) -> Forall (listing_ok db) (db_listings db') ->
  NoDup (map ir_ID (db_identifiers db')) -> NoDup (map to_Identifier (db_identifiers db')) -> Forall (identifier_ok db) (db_identifiers db') ->
  NoDup (map (fun k => sk_ID (ks_Key k)) (db_stated db')) -> Forall (stated_ok db) (db_stated db') ->
  map_Forall (fun _ f => refers (instr_ids db) f.2) (db_fetch db') ->
  NoDup (map coverage_key (db_coverage db')) -> Forall (coverage_ok db) (db_coverage db') ->
  NoDup (map ia_ID (vd_assertions (db_validity db'))) -> NoDup (map assertion_key (vd_assertions (db_validity db'))) ->
  Forall (assertion_ok db) (vd_assertions (db_validity db')) ->
  NoDup (map cw_ID (vd_coverage (db_validity db'))) -> Forall (facts_coverage_ok db) (vd_coverage (db_validity db')) ->
  Forall (fun v => tv_InstrID v ∈ instr_ids db) (vd_validity (db_validity db')) ->
  Forall (fun r => rt_InstrID r ∈ instr_ids db) (vd_resolved (db_validity db')) ->
  NoDup (map fr_ID (db_findings db')) -> Forall (finding_ok db) (db_findings db') ->
  NoDup (map (fun r => (rk_RunID r, rk_StatedKeyID r)) (db_resolutions db')) -> Forall (resolution_ok db) (db_resolutions db') ->
  tables_ok db'.
Proof.
  intros _ Hk ? ? ? ? H3 ? ? H6 ? H8 H9 ? H11 ? ? H14 ? H16 H17 H18 ? H20 ? H22. split; try done.
  - eapply Forall_impl; [exact H3 |]. intros x. by apply listing_ok_kept.
  - eapply Forall_impl; [exact H6 |]. intros x. by apply identifier_ok_kept.
  - eapply Forall_impl; [exact H8 |]. intros x. by apply stated_ok_kept.
  - intros k f Hf. eapply refers_kept; [apply (kept_instrs _ _ Hk) | by apply (H9 k)].
  - eapply Forall_impl; [exact H11 |]. intros x. by apply coverage_ok_kept.
  - eapply Forall_impl; [exact H14 |]. intros x. by apply assertion_ok_kept.
  - eapply Forall_impl; [exact H16 |]. intros x. by apply facts_coverage_ok_kept.
  - eapply Forall_impl; [exact H17 |]. intros x. by apply (kept_instrs _ _ Hk).
  - eapply Forall_impl; [exact H18 |]. intros x. by apply (kept_instrs _ _ Hk).
  - eapply Forall_impl; [exact H20 |]. intros x. by apply finding_ok_kept.
  - eapply Forall_impl; [exact H22 |]. intros x. by apply resolution_ok_kept.
Qed.

(** * Retries *)

Lemma Tx_loop_spec {A} (m : tx A) dbs fuel attempt : 1 <= attempt -> tries - attempt + 1 <= Z.of_nat fuel -> attempt <= tries ->
  exists r n, Tx_loop fuel m dbs attempt = Some (r, n) /\ attempt <= n <= tries /\ r = once m (dbs n) /\
    (forall k, attempt <= k < n -> exists e, once m (dbs k) = Err e /\ IsRetryable e = true) /\
    (forall e, r = Err e -> IsRetryable e = true -> n = tries).
Proof.
  revert attempt. induction fuel as [|fuel IH]; intros attempt Ha Hf Ht; [lia |]. simpl.
  destruct (once m (dbs attempt)) as [r|e] eqn:Eo.
  - exists (Ok r), attempt. repeat split; try done; try lia.
  - destruct (IsRetryable e) eqn:Er; simpl.
    + destruct (tries <=? attempt) eqn:Et.
      * exists (Err e), attempt. repeat split; try done; try lia.
      * destruct (IH (attempt + 1)) as (r & n & Hrun & Hn & Hr & Hb & He); [lia | lia | lia |].
        exists r, n. split; [done |]. split; [lia |]. split; [done |]. split; [| done]. intros k Hk.
        destruct (decide (k = attempt)) as [->|]; [by exists e | apply Hb; lia].
    + exists (Err e), attempt. repeat split; try done; try lia. intros e' [= <-]. congruence.
Qed.

(** C33: a transaction that fails because of another running beside it is run
    again, and ends: it makes at most [tries] attempts, each over the tables it
    finds. Its outcome is that of the first attempt that no concurrent
    transaction made fail, and of the last attempt where there is none. Only
    an attempt that succeeds changes the tables. *)
Theorem Tx_spec {A} (m : tx A) (dbs : Z -> instr_db) :
  exists r n, Tx m dbs = Some (r, n) /\ 1 <= n <= tries /\ r = once m (dbs n) /\
    (forall k, 1 <= k < n -> exists e, once m (dbs k) = Err e /\ IsRetryable e = true) /\
    (forall k, 1 <= k <= tries -> (forall e, once m (dbs k) = Err e -> IsRetryable e = false) -> n <= k /\ forall e, r = Err e -> IsRetryable e = false).
Proof.
  destruct (Tx_loop_spec m dbs (Z.to_nat tries) 1) as (r & n & Hrun & Hn & Hr & Hb & He); [lia | unfold tries; lia | unfold tries; lia |].
  exists r, n. split; [done |]. split; [done |]. split; [done |]. split; [done |]. intros k Hk Hok.
  assert (n <= k) as Hnk.
  { destruct (decide (n <= k)) as [|Hlt]; [done |]. destruct (Hb k ltac:(lia)) as (e & Hek & Het). by rewrite (Hok e Hek) in Het. }
  split; [done |]. intros e Hre. destruct (IsRetryable e) eqn:Ee; [| done]. rewrite (He e Hre Ee) in *.
  assert (k = tries) as -> by lia. assert (IsRetryable e = false) by (apply Hok; congruence). congruence.
Qed.

(** * Writing rows *)

(** The ids of the rows a write inserts. *)
Definition row_ids (db : instr_db) : list uuid :=
  instr_ids db ++ listing_ids db ++ map ir_ID (db_identifiers db) ++ map ia_ID (vd_assertions (db_validity db)) ++
  map cw_ID (vd_coverage (db_validity db)) ++ map fr_ID (db_findings db).

(** Tables that keep every constraint, their ids minted before the next. *)
Record writable (db : instr_db) : Prop := {
  wb_ok : tables_ok db;
  wb_linked : linked db;
  wb_minted i : i ∈ row_ids db -> (i < db_next db)%N;
}.

Definition fresh (db : instr_db) (id : uuid) : Prop := id ∉ row_ids db /\ (id < db_next db)%N.

Lemma row_ids_elem db i : i ∈ row_ids db <-> i ∈ instr_ids db \/ i ∈ listing_ids db \/ i ∈ map ir_ID (db_identifiers db) \/
  i ∈ map ia_ID (vd_assertions (db_validity db)) \/ i ∈ map cw_ID (vd_coverage (db_validity db)) \/ i ∈ map fr_ID (db_findings db).
Proof. unfold row_ids. by rewrite !elem_of_app. Qed.

Lemma NewID_ok db : writable db -> NewID db = Ok (db_next db, set_next (db_next db + 1)%N db) /\
  writable (set_next (db_next db + 1)%N db) /\ fresh (set_next (db_next db + 1)%N db) (db_next db).
Proof.
  intros [Hok Hl Hm]. split; [done |]. split.
  - split; [destruct Hok; by split | done |]. intros i Hi. pose proof (Hm i Hi). simpl. lia.
  - split; [| simpl; lia]. intros Hi. pose proof (Hm _ Hi). lia.
Qed.

(** A statement over tables every row of which stays. *)
Lemma statement_writable f db : tables_ok (f db) -> linked (f db) -> db_next (f db) = db_next db ->
  (forall i, i ∈ row_ids (f db) -> (i < db_next db)%N) -> statement f db = Ok (tt, f db) /\ writable (f db).
Proof.
  intros Hok Hl Hn Hm. split; [apply statement_ok; [by apply consistent_tables | by right] |]. split; [done | done |]. by rewrite Hn.
Qed.

Section Statements.
Context (db : instr_db) (Hw : writable db).

(** The constraints of the tables a statement leaves alone. *)
Local Ltac keep := apply (tables_ok_kept db); try (by destruct Hw as [[]]); try (by split).

Lemma minted_snoc id : fresh db id -> forall db' : instr_db, (forall i, i ∈ row_ids db' -> i ∈ row_ids db \/ i = id) ->
  forall i, i ∈ row_ids db' -> (i < db_next db)%N.
Proof. intros [_ Hlt] db' Hids i [Hi| ->]%Hids; [by apply (wb_minted _ Hw) | done]. Qed.

Lemma fresh_instr id : fresh db id -> id ∉ instr_ids db.
Proof. intros [Hn _] Hi. apply Hn. apply row_ids_elem. auto. Qed.
Lemma fresh_listing id : fresh db id -> id ∉ listing_ids db.
Proof. intros [Hn _] Hi. apply Hn. apply row_ids_elem. auto. Qed.
Lemma fresh_identifier id : fresh db id -> id ∉ map ir_ID (db_identifiers db).
Proof. intros [Hn _] Hi. apply Hn. apply row_ids_elem. auto. Qed.
Lemma fresh_assertion id : fresh db id -> id ∉ map ia_ID (vd_assertions (db_validity db)).
Proof. intros [Hn _] Hi. apply Hn. apply row_ids_elem. auto 10. Qed.
Lemma fresh_coverage id : fresh db id -> id ∉ map cw_ID (vd_coverage (db_validity db)).
Proof. intros [Hn _] Hi. apply Hn. apply row_ids_elem. auto 10. Qed.
Lemma fresh_finding id : fresh db id -> id ∉ map fr_ID (db_findings db).
Proof. intros [Hn _] Hi. apply Hn. apply row_ids_elem. auto 10. Qed.

Lemma CreateInstr_ok id class key : fresh db id -> fetched_by db key ->
  let row := MkInstrRow id class (db_now db) key in
  let db' := set_instrs (fun l => l ++ [row]) db in
  CreateInstr id class key db = Ok (row, db') /\ writable db' /\ refs_kept db db'.
Proof.
  intros Hf Hk row db'.
  assert (refs_kept db db') as Hkept.
  { split; try done. intros i Hi. unfold instr_ids. simpl. rewrite map_app. apply elem_of_app. by left. }
  assert (tables_ok db') as Hok.
  { keep; unfold instr_ids; simpl; [by apply NoDup_map_snoc; [apply Hw | apply fresh_instr] |].
    apply Forall_app. split; [apply Hw | by apply Forall_singleton]. }
  destruct (statement_writable (set_instrs (fun l => l ++ [row])) db Hok (wb_linked _ Hw) eq_refl) as [Hs Hw'].
  { apply (minted_snoc id Hf). intros i. rewrite !row_ids_elem. unfold instr_ids. simpl. rewrite map_app, elem_of_app. simpl. rewrite list_elem_of_singleton. tauto. }
  split; [| done]. unfold CreateInstr. rewrite (tx_bind_ok _ _ db db db) by done. by rewrite (tx_bind_ok _ _ db tt db').
Qed.

Lemma linked_kept (db' : instr_db) : map (fun x => (lr_ID x, lr_InstrID x)) (db_listings db) ⊆ map (fun x => (lr_ID x, lr_InstrID x)) (db_listings db') ->
  Forall (fun r => r ∈ db_identifiers db \/ listing_of_instr db' (ir_ListingID r) (Some (ir_InstrID r))) (db_identifiers db') ->
  Forall (fun k => k ∈ db_stated db \/ listing_of_instr db' (ks_ListingID k) (sk_InstrID (ks_Key k))) (db_stated db') -> linked db'.
Proof.
  intros Hls Hi Hs.
  assert (forall o i, listing_of_instr db o i -> listing_of_instr db' o i) as Hk by (intros [l|] [i|]; simpl; auto).
  destruct (wb_linked _ Hw) as [H1 H2]. split.
  - eapply Forall_impl; [exact Hi |]. intros r [Hr|Hr]; [| done]. apply Hk. by apply (proj1 (Forall_forall _ _) H1).
  - eapply Forall_impl; [exact Hs |]. intros r [Hr|Hr]; [| done]. apply Hk. by apply (proj1 (Forall_forall _ _) H2).
Qed.

Lemma CreateListing_ok id instr family key primary : fresh db id -> instr ∈ instr_ids db -> family ∈ db_families db -> fetched_by db key ->
  (forall x, x ∈ db_listings db -> lr_InstrID x = instr -> lr_Currency x <> family) ->
  let row := MkInstrListing id instr family primary key in
  let db' := set_listings (fun l => l ++ [row]) db in
  CreateListing id instr family key primary db = Ok (row, db') /\ writable db' /\ refs_kept db db'.
Proof.
  intros Hf Hi Hfam Hk Hnew row db'.
  assert (refs_kept db db') as Hkept.
  { split; try done. intros i Hin. unfold listing_ids. simpl. rewrite map_app. apply elem_of_app. by left. }
  assert (tables_ok db') as Hok.
  { keep; unfold listing_ids; simpl.
    - by apply NoDup_map_snoc; [apply Hw | apply fresh_listing].
    - apply NoDup_map_snoc; [apply Hw |]. intros (x & [= He1 He2] & Hx)%list_elem_of_fmap. by apply (Hnew x).
    - apply Forall_app. split; [apply Hw | by apply Forall_singleton]. }
  destruct (statement_writable (set_listings (fun l => l ++ [row])) db Hok) as [Hs Hw']; [| done | |].
  { apply linked_kept; [simpl; rewrite map_app; set_solver | |]; apply Forall_forall; auto. }
  { apply (minted_snoc id Hf). intros i. rewrite !row_ids_elem. unfold listing_ids. simpl. rewrite map_app, elem_of_app. simpl. rewrite list_elem_of_singleton. tauto. }
  split; [| done]. unfold CreateListing. by rewrite (tx_bind_ok _ _ db tt db').
Qed.

Lemma CreateIdentifier_ok id instr listing name key : fresh db id -> instr ∈ instr_ids db -> listing_of_instr db listing (Some instr) ->
  Grain name = match listing with None => IdentifierGrainInstr | Some _ => IdentifierGrainListing end ->
  id_Type name <> IdentifierTypeMicTicker -> id_Type name <> IdentifierTypeDatasourceTicker -> fetched_by db key ->
  (forall r, r ∈ db_identifiers db -> to_Identifier r <> name) ->
  let row := MkIdentifierRow id instr listing (id_Type name) (id_Domain name) (id_Value name) key in
  let db' := set_identifiers (fun l => l ++ [row]) db in
  CreateIdentifier id instr listing name key db = Ok (row, db') /\ writable db' /\ refs_kept db db'.
Proof.
  intros Hf Hi Hl Hg Ht1 Ht2 Hk Hnew row db'.
  assert (to_Identifier row = name) as Hname by by destruct name.
  assert (refers (listing_ids db) listing) as Hlr.
  { destruct listing as [l|]; [| done]. simpl in *. apply list_elem_of_fmap in Hl as (x & [= -> _] & Hx). apply list_elem_of_fmap. eauto. }
  assert (refs_kept db db') as Hkept.
  { split; try done. intros i Hin. simpl. rewrite map_app. apply elem_of_app. by left. }
  assert (tables_ok db') as Hok.
  { keep; simpl.
    - by apply NoDup_map_snoc; [apply Hw | apply fresh_identifier].
    - apply NoDup_map_snoc; [apply Hw |]. rewrite Hname. intros (x & He & Hx)%list_elem_of_fmap. by apply (Hnew x).
    - apply Forall_app. split; [apply Hw | apply Forall_singleton]. unfold identifier_ok. rewrite Hname. repeat split; done. }
  destruct (statement_writable (set_identifiers (fun l => l ++ [row])) db Hok) as [Hs Hw']; [| done | |].
  { apply linked_kept; [done | |]; apply Forall_forall; [| auto]. intros r [Hr| ->%list_elem_of_singleton]%elem_of_app; auto. }
  { apply (minted_snoc id Hf). intros i. rewrite !row_ids_elem. simpl. rewrite map_app, elem_of_app. simpl. rewrite list_elem_of_singleton. tauto. }
  split; [| done]. unfold CreateIdentifier. by rewrite (tx_bind_ok _ _ db tt db').
Qed.

Lemma CreateIdentifierAssertion_ok a : fresh db (ia_ID a) -> assertion_ok db a ->
  assertion_key a ∉ map assertion_key (vd_assertions (db_validity db)) ->
  let db' := set_validity_db (set_assertions (fun l => l ++ [a])) db in
  CreateIdentifierAssertion a db = Ok (tt, db') /\ writable db' /\ refs_kept db db'.
Proof.
  intros Hf Ha Hnew db'.
  assert (refs_kept db db') as Hkept by done.
  assert (tables_ok db') as Hok.
  { keep; simpl.
    - by apply NoDup_map_snoc; [apply Hw | apply fresh_assertion].
    - by apply NoDup_map_snoc; [apply Hw |].
    - apply Forall_app. split; [apply Hw | by apply Forall_singleton]. }
  destruct (statement_writable (set_validity_db (set_assertions (fun l => l ++ [a]))) db Hok (wb_linked _ Hw) eq_refl) as [Hs Hw']; [| done].
  apply (minted_snoc (ia_ID a) Hf). intros i. rewrite !row_ids_elem. simpl. rewrite map_app, elem_of_app. simpl. rewrite list_elem_of_singleton. tauto.
Qed.

Lemma CreateIdentifierAssertionCoverage_ok c : fresh db (cw_ID c) -> facts_coverage_ok db c ->
  let db' := set_validity_db (set_facts_coverage (fun l => l ++ [c])) db in
  CreateIdentifierAssertionCoverage c db = Ok (tt, db') /\ writable db' /\ refs_kept db db'.
Proof.
  intros Hf Ha db'.
  assert (refs_kept db db') as Hkept by done.
  assert (tables_ok db') as Hok.
  { keep; simpl; [by apply NoDup_map_snoc; [apply Hw | apply fresh_coverage] |]. apply Forall_app. split; [apply Hw | by apply Forall_singleton]. }
  destruct (statement_writable (set_validity_db (set_facts_coverage (fun l => l ++ [c]))) db Hok (wb_linked _ Hw) eq_refl) as [Hs Hw']; [| done].
  apply (minted_snoc (cw_ID c) Hf). intros i. rewrite !row_ids_elem. simpl. rewrite map_app, elem_of_app. simpl. rewrite list_elem_of_singleton. tauto.
Qed.

End Statements.

Lemma family_in_some db x : tables_ok db -> x ∈ db_listings db -> family_in db (Some (lr_ID x)) = Some (lr_Currency x).
Proof. intros Hok Hx. unfold family_in. simpl. by rewrite (find_key lr_ID _ _ (ok_listing_ID _ Hok) Hx). Qed.
