(* ===== verification/Merge.v ===== *)
(** The instruments a key's identifiers name and their merge into one:
    [target.go] and [merge.go] of [server/internal/identity/resolve]. The text
    of a moment and of an id are parameters. *)
From S2P Require Import Prelude Types Period Facts Rows Calendar Validity ValidityStore Market Resolution InstrStore.

(** * Instruments by identifier, [target.go] *)

Record instrMatch : Type := MkMatch {
  im_instr : InstrWithCoverage;
  im_matched : list Identifier;
}.

(** The id of a match's instrument. *)
Definition im_ID (m : instrMatch) : uuid := in_ID (iw_Row (im_instr m)).

(** The order of the enum [identifier_type]. *)
Fixpoint type_index (t : IdentifierType) (l : list IdentifierType) : Z :=
  match l with
  | [] => 0
  | u :: l' => if bool_decide (u = t) then 0 else 1 + type_index t l'
  end.

(** A row of [ListInstrsByIdentifiers] for one of the identifiers asked. *)
Definition identified (db : instr_db) (id : Identifier) : list (IdentifierRow * InstrRow) :=
  concat (map (fun r => map (fun i => (r, i)) (List.filter (fun i => bool_decide (in_ID i = ir_InstrID r)) (db_instrs db)))
    (List.filter (fun r => bool_decide (to_Identifier r = id)) (db_identifiers db))).

Definition identified_cmp : IdentifierRow * InstrRow -> IdentifierRow * InstrRow -> comparison :=
  cmp_lex (cmp_on (fun ri => in_ID ri.2) N.compare)
    (cmp_lex (cmp_on (fun ri => type_index (ir_Type ri.1) IdentifierTypes) Z.compare)
      (cmp_lex (cmp_on (fun ri => ir_Domain ri.1) String.compare) (cmp_on (fun ri => ir_Value ri.1) String.compare))).

Definition ListInstrsByIdentifiers (db : instr_db) (ids : list Identifier) : list (IdentifierRow * InstrRow) :=
  sort_func identified_cmp (concat (map (identified db) ids)).

(** The loop over the rows: the instruments in order and the map [matched]. *)
Definition matched_step (st : list InstrRow * gmap uuid (list Identifier)) (ri : IdentifierRow * InstrRow) : list InstrRow * gmap uuid (list Identifier) :=
  let '(instrs, matched) := st in
  let '(r, i) := ri in
  let instrs := match matched !! in_ID i with Some _ => instrs | None => instrs ++ [i] end in
  (instrs, <[in_ID i := default [] (matched !! in_ID i) ++ [to_Identifier r]]> matched).

Definition created_cmp : instrMatch -> instrMatch -> comparison := cmp_on (fun m => in_CreatedAt (iw_Row (im_instr m))) Z.compare.

Definition findInstrsByIdentifier (db : instr_db) (ids : list Identifier) : list instrMatch :=
  let '(instrs, matched) := foldl matched_step ([], ∅) (ListInstrsByIdentifiers db ids) in
  sort_func created_cmp (map (fun i => MkMatch (join_InstrWithCoverage db instrs i) (default [] (matched !! in_ID i))) instrs).

(** * Merging, [merge.go] *)

(** [writeTarget]; the map [taken] is the list of its keys. *)
Record writeTarget : Type := MkTarget {
  wt_instr : option InstrWithCoverage;
  wt_taken : list Identifier;
  wt_findings : list CreateFindingParams;
}.

Definition names (ids : list Identifier) : string := String.concat ", " (map Name ids).

Section Merge.
Variables (stamp : time -> string) (uuid_string : uuid -> string).

(** The key of the map [first]: a type, a domain and a family. *)
Abbreviation conflict_key := (IdentifierType * string * string)%type (only parsing).

(** The body of the loop over the identifiers of one instrument; the early
    return is an error with the detail. *)
Definition conflict_step (famOf : gmap uuid string) (first : gmap conflict_key (Identifier * uuid)) (row : IdentifierRow) :
    res string (gmap conflict_key (Identifier * uuid)) :=
  let id := to_Identifier row in
  if negb (Exclusive id) then Ok first
  else
    let family := match ir_ListingID row with Some l => default ""%string (famOf !! l) | None => ""%string end in
    let k := (id_Type id, id_Domain id, family) in
    match first !! k with
    | Some (prior, instr) =>
        if negb (bool_decide (id_Value prior = id_Value id)) && negb (bool_decide (instr = ir_InstrID row))
        then Err (Name prior +:+ " identifies instrument " +:+ uuid_string instr +:+ " and " +:+ Name id +:+ " identifies " +:+ uuid_string (ir_InstrID row))
        else Ok first
    | None => Ok (<[k := (id, ir_InstrID row)]> first)
    end.

Definition conflict_instr (first : gmap conflict_key (Identifier * uuid)) (h : instrMatch) : res string (gmap conflict_key (Identifier * uuid)) :=
  let j := iw_Instr (im_instr h) in
  res_fold (conflict_step (fam_of (ji_Listings j))) first (ji_Identifiers j).

(** The first pair of disjoint classes. *)
Fixpoint class_pair (matches : list instrMatch) : option (instrMatch * instrMatch) :=
  match matches with
  | [] => None
  | a :: rest =>
      match find_func (fun b => Disjoint (in_AssetClass (iw_Row (im_instr a))) (in_AssetClass (iw_Row (im_instr b)))) rest with
      | Some b => Some (a, b)
      | None => class_pair rest
      end
  end.

Definition mergeConflict (matches : list instrMatch) : option string :=
  match res_fold conflict_instr ∅ matches with
  | Err detail => Some detail
  | Ok _ =>
      '(a, b) ← class_pair matches;
      Some ("class " +:+ AssetClass_string (in_AssetClass (iw_Row (im_instr a))) +:+ " of instrument " +:+ uuid_string (im_ID a) +:+
            " contradicts class " +:+ AssetClass_string (in_AssetClass (iw_Row (im_instr b))) +:+ " of " +:+ uuid_string (im_ID b))
  end.

(** [refuse]; a write that finds no match does not call it. *)
Definition refuse (res : resolution) (fetchKeyID : option uuid) (matches : list instrMatch) (detail : string) : option writeTarget :=
  first ← head matches;
  let kept := default first
    (head (omap (fun id => find_func (fun h => contains (im_matched h) id) matches) (lookupIDs (rs_globalAndDescriptionIDs res)))) in
  let taken := foldl append_unique []
    (concat (map (fun h => if bool_decide (im_ID h = im_ID kept) then [] else map to_Identifier (ji_Identifiers (iw_Instr (im_instr h)))) matches)) in
  Some (MkTarget (Some (im_instr kept)) taken
    [MkFindingParams FindingKindContradiction fetchKeyID None (Some (detail +:+ "; not merged"))]).

(** The loop over the loser's listings, with the map [present]. *)
Definition move_step (survivor : uuid) (present : list string) (l : InstrListing) : tx (list string) :=
  if contains present (lr_Currency l) then mret present
  else MoveListing (lr_ID l) survivor;; mret (lr_Currency l :: present).

Definition fold (survivor : InstrWithCoverage) (matched : list Identifier) (h : instrMatch) (present : list string) (fetchKeyID : option uuid) :
    tx (CreateFindingParams * list string) :=
  let loser := im_ID h in
  let survivor_id := in_ID (iw_Row survivor) in
  present ← tx_fold (move_step survivor_id) present (ji_Listings (iw_Instr (im_instr h)));
  RelinkIdentifiers survivor_id loser;;
  RelinkStatedKeys survivor_id loser;;
  RelinkFetchKeys survivor_id loser;;
  RelinkIdentifierAssertions survivor_id loser;;
  MoveIdentityCoverage survivor_id loser;;
  DeleteIdentityCoverage loser;;
  DeleteListings loser;;
  DeleteInstr loser;;
  let detail := "merged the instrument created " +:+ stamp (in_CreatedAt (iw_Row (im_instr h))) +:+ " into the instrument created " +:+
    stamp (in_CreatedAt (iw_Row survivor)) +:+ "; the response identified the first by " +:+ names (im_matched h) +:+ " and the second by " +:+ names matched in
  mret (MkFindingParams FindingKindMerged fetchKeyID None (Some detail), present).

(** The loop over the losers. *)
Definition merge_fold (survivor : instrMatch) (fetchKeyID : option uuid) (st : list CreateFindingParams * list string) (h : instrMatch) :
    tx (list CreateFindingParams * list string) :=
  '(finding, present) ← fold (im_instr survivor) (im_matched survivor) h (st.2) fetchKeyID;
  mret (st.1 ++ [finding], present).

Definition merge (fetchKeyID : option uuid) (matches : list instrMatch) : tx writeTarget :=
  survivor ← tx_some (head matches);
  DeferConstraints;;
  let present := map lr_Currency (ji_Listings (iw_Instr (im_instr survivor))) in
  '(findings, _) ← tx_fold (merge_fold survivor fetchKeyID) ([], present) (tail matches);
  db ← tx_get;
  let row := iw_Row (im_instr survivor) in
  mret (MkTarget (Some (join_InstrWithCoverage db [row] row)) [] findings).

End Merge.

(** * What a merge does to the instruments *)

(** The rows of [identifiers] and [stated_keys], with the family of each
    listing in the listing's place. *)
Definition identifier_view (db : instr_db) : list (uuid * Identifier * option uuid * uuid * option string) :=
  map (fun r => (ir_ID r, to_Identifier r, ir_FetchKeyID r, ir_InstrID r, family_in db (ir_ListingID r))) (db_identifiers db).

Definition stated_view (db : instr_db) : list (StatedKeyRow * option string) :=
  map (fun k => (MkStatedKeyRow (ks_Key k) None (ks_ViaIdentifierID k) (ks_ViaMarket k) (ks_Arbiter k), family_in db (ks_ListingID k))) (db_stated db).

Definition has_listing (db : instr_db) (i : uuid) (c : string) : Prop := exists x, x ∈ db_listings db /\ lr_InstrID x = i /\ lr_Currency x = c.

Definition has_coverage (db : instr_db) (i : uuid) (d : string) : Prop := exists c, c ∈ db_coverage db /\ ic_InstrID c = i /\ ic_Datasource c = d.

(** The instruments [losers] become the survivor [s]. *)
Definition rename (s : uuid) (losers : list uuid) (i : uuid) : uuid := if contains losers i then s else i.

Definition rename_stated (s : uuid) (losers : list uuid) (k : StatedKeyRow * option string) : StatedKeyRow * option string :=
  (MkStatedKeyRow (with_InstrID (ks_Key k.1) (rename s losers <$> sk_InstrID (ks_Key k.1))) (ks_ListingID k.1) (ks_ViaIdentifierID k.1)
     (ks_ViaMarket k.1) (ks_Arbiter k.1), k.2).

Definition rename_identifier (s : uuid) (losers : list uuid) '(id, name, key, i, f) : uuid * Identifier * option uuid * uuid * option string :=
  (id, name, key, rename s losers i, f).

(** Every reference to a loser is to the survivor, on its listing of the same
    family, and the losers are gone with their rows of ticker validity. *)
Record renamed (s : uuid) (losers : list uuid) (db db' : instr_db) : Prop := {
  rn_instrs : db_instrs db' = List.filter (fun r => negb (contains losers (in_ID r))) (db_instrs db);
  rn_identifiers : identifier_view db' = map (rename_identifier s losers) (identifier_view db);
  rn_stated : stated_view db' = map (rename_stated s losers) (stated_view db);
  rn_listings i c : has_listing db' i c <-> exists j, has_listing db j c /\ rename s losers j = i;
  rn_fetch : db_fetch db' = (fun f : option uuid * option uuid => (f.1, rename s losers <$> f.2)) <$> db_fetch db;
  rn_coverage i d : has_coverage db' i d <-> exists j, has_coverage db j d /\ rename s losers j = i;
  rn_assertions : vd_assertions (db_validity db') = map (fun a => with_ia_InstrID (rename s losers <$> ia_InstrID a) a) (vd_assertions (db_validity db));
  rn_validity : vd_validity (db_validity db') = List.filter (fun r => negb (contains losers (tv_InstrID r))) (vd_validity (db_validity db));
  rn_resolved : vd_resolved (db_validity db') = List.filter (fun r => negb (contains losers (rt_InstrID r))) (vd_resolved (db_validity db));
  rn_tickers : vd_tickers (db_validity db') = vd_tickers (db_validity db) /\ vd_coverage (db_validity db') = vd_coverage (db_validity db);
  rn_rest : db_findings db' = db_findings db /\ db_resolutions db' = db_resolutions db /\ db_families db' = db_families db /\
    db_codes db' = db_codes db /\ db_next db' = db_next db /\ db_now db' = db_now db;
  rn_kept : listing_ids db' ⊆ listing_ids db /\ vd_keys (db_validity db') = vd_keys (db_validity db);
}.

(** * Folding a loser *)

Section FoldTheory.
Context (s l : uuid) (Hsl : s <> l).
Implicit Types (db : instr_db).

Definition relink_opt (i : option uuid) : option uuid := relink s l <$> i.

Lemma relink_loser : relink s l l = s.
Proof. unfold relink. by rewrite bool_decide_eq_true_2. Qed.
Lemma relink_other i : i <> l -> relink s l i = i.
Proof. intros. unfold relink. by rewrite bool_decide_eq_false_2. Qed.
Lemma relink_not_loser i : relink s l i <> l.
Proof. unfold relink. case_bool_decide; congruence. Qed.

(** The families the survivor has a listing in. *)
Definition has_families db (present : list string) : Prop :=
  forall c, c ∈ present <-> exists x, x ∈ db_listings db /\ lr_InstrID x = s /\ lr_Currency x = c.

(** How the listings move. *)
Definition moved (x x' : InstrListing) : Prop := x' = x \/ (lr_InstrID x = l /\ x' = with_instr s x).

Lemma moved_same x x' : moved x x' -> lr_ID x' = lr_ID x /\ lr_Currency x' = lr_Currency x /\ lr_FetchKeyID x' = lr_FetchKeyID x.
Proof. by intros [->|[_ ->]]. Qed.

Lemma moved_ids ls ls' : Forall2 moved ls ls' -> map lr_ID ls' = map lr_ID ls.
Proof. induction 1 as [|x x' ls ls' Hx _ IH]; simpl; [done |]. destruct (moved_same _ _ Hx) as [-> _]. by rewrite IH. Qed.

Lemma move_listing_ok db x :
  tables_ok db -> db_deferred db = true -> s ∈ instr_ids db -> x ∈ db_listings db -> lr_InstrID x = l ->
  (forall y, y ∈ db_listings db -> lr_InstrID y = s -> lr_Currency y <> lr_Currency x) ->
  let db' := set_listings (map (fun y => if bool_decide (lr_ID y = lr_ID x) then with_instr s y else y)) db in
  MoveListing (lr_ID x) s db = Ok (tt, db') /\ tables_ok db' /\ Forall2 moved (db_listings db) (db_listings db').
Proof.
  intros Hok Hdef Hs Hx Hxl Hnew db'.
  assert (forall y, y ∈ db_listings db -> lr_ID y = lr_ID x -> y = x) as Huniq.
  { intros y Hy Heq. eapply (NoDup_key lr_ID); [apply (ok_listing_ID _ Hok) | done | done | done]. }
  assert (Forall2 moved (db_listings db) (db_listings db')) as Hm.
  { simpl. apply Forall2_fmap_r, Forall_Forall2_diag, Forall_forall. intros y Hy. simpl. case_bool_decide as Heq; [| by left].
    right. by rewrite (Huniq y Hy Heq). }
  assert (listing_ids db' = listing_ids db) as Hids by (by apply moved_ids).
  assert (tables_ok db') as Hok'.
  { apply (tables_ok_kept db); try (by destruct Hok); [split; try done; by rewrite Hids | by rewrite Hids; destruct Hok | |].
    - simpl. apply NoDup_map_update; [apply (ok_listing_key _ Hok) |]. intros y z Hy Hz.
      case_bool_decide as H1; case_bool_decide as H2; simpl; try (rewrite (Huniq y Hy H1)); try (rewrite (Huniq z Hz H2)); try done.
      + intros [= He1 He2]. by destruct (Hnew z Hz).
      + intros [= He1 He2]. by destruct (Hnew y Hy).
    - apply Forall_forall. intros y' Hy'. simpl in Hy'. apply list_elem_of_fmap in Hy' as (y & -> & Hy).
      pose proof (proj1 (Forall_forall _ _) (ok_listing _ Hok) y Hy) as (Hy1 & Hy2 & Hy3). case_bool_decide; by repeat split. }
  split; [| by split]. unfold MoveListing. apply statement_ok; [by apply consistent_tables | by left].
Qed.

Lemma Forall2_moved_trans ls1 ls2 ls3 : Forall2 moved ls1 ls2 -> Forall2 moved ls2 ls3 -> Forall2 moved ls1 ls3.
Proof.
  intros H12. revert ls3. induction H12 as [|x y ls1 ls2 Hxy _ IH]; intros ls3 H23; inversion H23 as [|? z ? ls3' Hyz ?]; subst; constructor; [| by apply IH].
  destruct Hxy as [->|[Hx ->]], Hyz as [->|[Hy ->]]; [by left | right; by split | right; by split | right; by split].
Qed.

(** The loop over the loser's listings. *)
Lemma move_steps_ok todo : forall db present,
  tables_ok db -> db_deferred db = true -> s ∈ instr_ids db -> has_families db present ->
  NoDup (map lr_ID todo) -> (forall x, x ∈ todo -> x ∈ db_listings db /\ lr_InstrID x = l) ->
  exists present' ls, tx_fold (move_step s) present todo db = Ok (present', set_listings (fun _ => ls) db) /\
    tables_ok (set_listings (fun _ => ls) db) /\ has_families (set_listings (fun _ => ls) db) present' /\
    Forall2 moved (db_listings db) ls /\ (forall c, c ∈ present' <-> c ∈ present \/ exists x, x ∈ todo /\ lr_Currency x = c).
Proof.
  assert (forall db : instr_db, set_listings (fun _ => db_listings db) db = db) as Hset by (by intros []).
  induction todo as [|x todo IH]; intros db present Hok Hdef Hs Hp Hnd Htodo.
  { exists present, (db_listings db). rewrite Hset. split; [done |]. split; [done |]. split; [done |]. split.
    - apply Forall_Forall2_diag, Forall_forall. intros x _. by left.
    - intros c. split; [auto | intros [?|(x & ?%elem_of_nil & _)]; done]. }
  destruct (Htodo x) as [Hx Hxl]; [by left |]. inversion Hnd as [|? ? Hni Hnd']; subst. cbn [tx_fold].
  destruct (contains present (lr_Currency x)) eqn:Ec.
  - rewrite (tx_bind_ok _ _ db present db) by (unfold move_step; by rewrite Ec). apply contains_true in Ec. destruct (IH db present Hok Hdef Hs Hp Hnd') as (present' & ls & Hrun & Hok' & Hp' & Hm & Hc').
    { intros y Hy. apply Htodo. by right. }
    exists present', ls. split; [exact Hrun |]. split; [done |]. split; [done |]. split; [done |]. intros c. rewrite Hc'. split.
    + intros [?|(y & Hy & <-)]; [auto |]. right. exists y. split; [by right | done].
    + intros [?|(y & [->|Hy]%elem_of_cons & <-)]; [auto | auto | right; eauto].
  - destruct (move_listing_ok db x Hok Hdef Hs Hx Hxl) as (Hrun1 & Hok1 & Hm1).
    { intros y Hy Hys Heq. apply contains_false in Ec. apply Ec, Hp. eauto. }
    set (db1 := set_listings _ db) in *.
    rewrite (tx_bind_ok _ _ db (lr_Currency x :: present) db1) by (unfold move_step; rewrite Ec; by rewrite (tx_bind_ok _ _ db tt db1)).
    destruct (IH db1 (lr_Currency x :: present)) as (present' & ls & Hrun & Hok' & Hp' & Hm & Hc'); try done.
    + intros c. rewrite elem_of_cons. split.
      * intros [->|(y & Hy & Hys & <-)%Hp].
        -- exists (with_instr s x). split; [| done]. simpl. apply list_elem_of_fmap. exists x. split; [by rewrite bool_decide_eq_true_2 | done].
        -- exists y. split; [| done]. simpl. apply list_elem_of_fmap. exists y. split; [| done]. rewrite bool_decide_eq_false_2; [done |].
           intros Heq. apply Hsl. rewrite <- Hys, <- Hxl. by rewrite (NoDup_key lr_ID (db_listings db) y x (ok_listing_ID _ Hok) Hy Hx Heq).
      * intros (y' & Hy' & Hys & <-). simpl in Hy'. apply list_elem_of_fmap in Hy' as (y & -> & Hy). case_bool_decide as Heq; simpl.
        -- left. by rewrite (NoDup_key lr_ID (db_listings db) y x (ok_listing_ID _ Hok) Hy Hx Heq).
        -- right. apply Hp. eauto.
    + intros y Hy. destruct (Htodo y) as [Hy1 Hy2]; [by right |]. split; [| done]. simpl. apply list_elem_of_fmap. exists y. split; [| done].
      rewrite bool_decide_eq_false_2; [done |]. intros Heq. apply Hni. rewrite <- Heq. apply list_elem_of_fmap. eauto.
    + exists present', ls. split; [| split; [done |]; split; [done |]; split].
      * exact Hrun.
      * by eapply Forall2_moved_trans.
      * intros c. rewrite Hc', elem_of_cons. split.
        -- intros [[->|?]|(y & Hy & <-)]; [right; exists x; split; [by left | done] | auto | right; exists y; split; [by right | done]].
        -- intros [?|(y & [->|Hy]%elem_of_cons & <-)]; [auto | auto | right; eauto].
Qed.

(** ** Relinking *)

Lemma rename_relink i : rename s [l] i = relink s l i.
Proof. unfold rename, relink, contains. case_bool_decide as H1; case_bool_decide as H2; rewrite list_elem_of_singleton in H1; done. Qed.

Lemma relisted_some db x y : tables_ok db -> x ∈ db_listings db -> y ∈ db_listings db -> lr_InstrID y = s -> lr_Currency y = lr_Currency x ->
  relisted db s (Some (lr_ID x)) = Some (lr_ID y).
Proof.
  intros Hok Hx Hy Hs Hc. unfold relisted. simpl. rewrite (find_key lr_ID _ _ (ok_listing_ID _ Hok) Hx). simpl.
  destruct (find_func _ _) as [z|] eqn:Ez.
  - apply find_func_Some in Ez as [Hz [Hzc%bool_decide_eq_true Hzs%bool_decide_eq_true]%andb_true_iff]. simpl.
    by rewrite (NoDup_key (fun l => (lr_InstrID l, lr_Currency l)) (db_listings db) z y (ok_listing_key _ Hok) Hz Hy) by congruence.
  - rewrite find_func_None in Ez. specialize (Ez y Hy). by rewrite !bool_decide_eq_true_2 in Ez by congruence.
Qed.

(** The survivor has a listing in the family of the listing [o]. *)
Definition relistable db (o : option uuid) : Prop :=
  forall id, o = Some id -> exists x y, x ∈ db_listings db /\ lr_ID x = id /\ y ∈ db_listings db /\ lr_InstrID y = s /\ lr_Currency y = lr_Currency x.

Lemma relisted_spec db o : tables_ok db -> relistable db o ->
  family_in db (relisted db s o) = family_in db o /\ refers (listing_ids db) (relisted db s o) /\
  (relisted db s o = None <-> o = None) /\ listing_of_instr db (relisted db s o) (Some s).
Proof.
  intros Hok Hr. destruct o as [id|]; [| done]. destruct (Hr id eq_refl) as (x & y & Hx & <- & Hy & Hys & Hc).
  rewrite (relisted_some db x y) by done. rewrite !family_in_some by done. split; [by rewrite Hc |].
  split; [simpl; apply list_elem_of_fmap; eauto |]. split; [done |]. simpl. apply list_elem_of_fmap. exists y. by rewrite Hys.
Qed.

(** Where the rows of the loser may be relinked. *)
Record relinkable db : Prop := {
  rb_ok : tables_ok db;
  rb_deferred : db_deferred db = true;
  rb_survivor : s ∈ instr_ids db;
  rb_identifiers r : r ∈ db_identifiers db -> ir_InstrID r = l -> relistable db (ir_ListingID r);
  rb_stated k : k ∈ db_stated db -> sk_InstrID (ks_Key k) = Some l -> relistable db (ks_ListingID k);
}.

Lemma statement_deferred f db : tables_ok (f db) -> db_deferred (f db) = true -> statement f db = Ok (tt, f db).
Proof. intros Hok Hd. apply statement_ok; [by apply consistent_tables | by left]. Qed.

Lemma RelinkIdentifiers_ok db : relinkable db ->
  let db' := set_identifiers (map (relink_identifier db s l)) db in
  RelinkIdentifiers s l db = Ok (tt, db') /\ relinkable db' /\ identifier_view db' = map (rename_identifier s [l]) (identifier_view db) /\
  (forall r, r ∈ db_identifiers db' -> ir_InstrID r <> l /\
     (r ∈ db_identifiers db \/ listing_of_instr db (ir_ListingID r) (Some (ir_InstrID r)))).
Proof.
  intros [Hok Hd Hs Hi Hst] db'.
  assert (forall r, ir_ID (relink_identifier db s l r) = ir_ID r /\ to_Identifier (relink_identifier db s l r) = to_Identifier r /\
    ir_FetchKeyID (relink_identifier db s l r) = ir_FetchKeyID r /\ ir_Type (relink_identifier db s l r) = ir_Type r /\
    ir_InstrID (relink_identifier db s l r) = relink s l (ir_InstrID r)) as Hsame.
  { intros r. unfold relink_identifier, relink. by case_bool_decide. }
  assert (map ir_ID (db_identifiers db') = map ir_ID (db_identifiers db)) as Hids.
  { simpl. rewrite map_map. apply map_ext. intros r. apply Hsame. }
  assert (tables_ok db') as Hok'.
  { apply (tables_ok_kept db); try (by destruct Hok); [split; try done; by rewrite Hids | by rewrite Hids; apply Hok | |].
    - simpl. rewrite map_map. rewrite (map_ext _ to_Identifier) by apply Hsame. apply Hok.
    - apply Forall_forall. intros r' Hr'. simpl in Hr'. apply list_elem_of_fmap in Hr' as (r & -> & Hr).
      pose proof (proj1 (Forall_forall _ _) (ok_identifier _ Hok) r Hr) as (H1 & H2 & H3 & H4 & H5 & H6).
      unfold relink_identifier. case_bool_decide as Hrl; [| done]. destruct (relisted_spec db (ir_ListingID r) Hok) as (_ & Hf2 & Hf3 & _); [by apply Hi |].
      split; [done |]. split; [done |]. split; [| done].
      change (Grain (to_Identifier r) = match relisted db s (ir_ListingID r) with None => IdentifierGrainInstr | Some _ => IdentifierGrainListing end).
      rewrite H3. unfold row_grain. destruct (relisted db s (ir_ListingID r)), (ir_ListingID r); try done; [by destruct Hf3 as [_ Hf3]; specialize (Hf3 eq_refl) | by destruct Hf3 as [Hf3 _]; specialize (Hf3 eq_refl)]. }
  split; [by apply statement_deferred |]. split; [| split].
  - split; [done | done | done | |].
    + intros r' Hr' Hrl. simpl in Hr'. apply list_elem_of_fmap in Hr' as (r & -> & Hr). destruct (Hsame r) as (_ & _ & _ & _ & He).
      rewrite He in Hrl. by apply relink_not_loser in Hrl.
    + exact Hst.
  - unfold identifier_view. simpl. rewrite !map_map. apply map_ext_in. intros r Hr%list_elem_of_In. simpl.
    destruct (Hsame r) as (-> & -> & -> & _ & ->). rewrite rename_relink. f_equal. unfold relink_identifier. case_bool_decide as Hrl; [| done].
    simpl. apply (relisted_spec db (ir_ListingID r) Hok). by apply Hi.
  - intros r' Hr'. simpl in Hr'. apply list_elem_of_fmap in Hr' as (r & -> & Hr). destruct (Hsame r) as (_ & _ & _ & _ & ->).
    split; [apply relink_not_loser |]. unfold relink_identifier, relink. case_bool_decide as Hrl; [right | by left]. simpl.
    apply (relisted_spec db (ir_ListingID r) Hok). by apply Hi.
Qed.

Lemma RelinkStatedKeys_ok db : relinkable db ->
  let db' := set_stated (map (relink_stated db s l)) db in
  RelinkStatedKeys s l db = Ok (tt, db') /\ tables_ok db' /\ stated_view db' = map (rename_stated s [l]) (stated_view db) /\
  (forall k, k ∈ db_stated db' -> sk_InstrID (ks_Key k) <> Some l /\
     (k ∈ db_stated db \/ listing_of_instr db (ks_ListingID k) (sk_InstrID (ks_Key k)))).
Proof.
  intros [Hok Hd Hs Hi Hst] db'.
  assert (forall k, sk_ID (ks_Key (relink_stated db s l k)) = sk_ID (ks_Key k)) as Hid.
  { intros k. unfold relink_stated. by case_bool_decide. }
  assert (map (fun k => sk_ID (ks_Key k)) (db_stated db') = map (fun k => sk_ID (ks_Key k)) (db_stated db)) as Hids.
  { simpl. rewrite map_map. by apply map_ext. }
  assert (tables_ok db') as Hok'.
  { apply (tables_ok_kept db); try (by destruct Hok); [split; try done; by rewrite Hids | by rewrite Hids; apply Hok |].
    apply Forall_forall. intros k' Hk'. simpl in Hk'. apply list_elem_of_fmap in Hk' as (k & -> & Hk).
    pose proof (proj1 (Forall_forall _ _) (ok_stated _ Hok) k Hk) as (H1 & H2 & H3 & H4 & H5 & H6 & H7 & H8 & H9 & H10 & H11).
    unfold relink_stated. case_bool_decide as Hkl; [| done]. destruct (relisted_spec db (ks_ListingID k) Hok) as (_ & Hf2 & _ & _); [by apply Hst |].
    rewrite Hkl in *. unfold stated_ok. simpl. repeat split; try done; try (by apply H4); try (by apply H7); try (by apply H8).
    - intros Hv. by apply H4 in Hv.
    - destruct H6; [by left | done].
    - destruct H9; [done | by right].
    - by destruct (proj1 H10 ltac:(eassumption)).
    - by destruct (proj1 H10 ltac:(eassumption)).
    - by intros [? _]. }
  split; [by apply statement_deferred |]. split; [done |]. split.
  - unfold stated_view. simpl. rewrite !map_map. apply map_ext_in. intros k Hk%list_elem_of_In. unfold relink_stated, rename_stated. simpl.
    case_bool_decide as Hkl; simpl.
    + f_equal; [| by apply (relisted_spec db (ks_ListingID k) Hok), Hst]. rewrite Hkl. simpl. by rewrite rename_relink, relink_loser.
    + f_equal. f_equal. destruct (ks_Key k) as [? ? ? ? ? [i|] ? ? ?]; simpl; [| done]. unfold with_InstrID. simpl.
      rewrite rename_relink, relink_other; [done | simpl in Hkl; congruence].
  - intros k' Hk'. simpl in Hk'. apply list_elem_of_fmap in Hk' as (k & -> & Hk). unfold relink_stated. case_bool_decide as Hkl; [| by auto]. simpl.
    split; [congruence |]. right. apply (relisted_spec db (ks_ListingID k) Hok). by apply Hst.
Qed.

(** ** The other tables *)

Lemma RelinkFetchKeys_ok db : tables_ok db -> db_deferred db = true -> s ∈ instr_ids db ->
  let db' := set_fetch (fun m => (fun f : option uuid * option uuid => (f.1, relink s l <$> f.2)) <$> m) db in
  RelinkFetchKeys s l db = Ok (tt, db') /\ tables_ok db' /\ (forall k f, db_fetch db' !! k = Some f -> f.2 <> Some l).
Proof.
  intros Hok Hd Hs db'. assert (tables_ok db') as Hok'.
  { assert (forall o, fetched_by db o -> fetched_by db' o) as Hfb by (intros [k|]; simpl; [by rewrite lookup_fmap, fmap_is_Some | done]).
    apply (tables_ok_kept db); try (by destruct Hok).
    - split; try done. intros k. simpl. by rewrite lookup_fmap, fmap_is_Some.
    - eapply Forall_impl; [apply (ok_instr _ Hok) |]. intros x. apply Hfb.
    - intros k f Hf. simpl in Hf. rewrite lookup_fmap in Hf. apply fmap_Some in Hf as ([u o] & Hf & ->). pose proof (ok_fetch _ Hok k _ Hf) as Ho.
      simpl in *. destruct o as [i|]; simpl in *; [| done]. unfold relink. by case_bool_decide. }
  split; [by apply statement_deferred |]. split; [done |]. intros k f Hf. simpl in Hf. rewrite lookup_fmap in Hf.
  apply fmap_Some in Hf as ([u o] & Hf & ->). simpl. destruct o as [i|]; simpl; [| done]. intros [= Heq]. by apply relink_not_loser in Heq.
Qed.

Lemma RelinkIdentifierAssertions_ok db : tables_ok db -> db_deferred db = true -> s ∈ instr_ids db ->
  let db' := set_validity_db (set_assertions (map (fun a => with_ia_InstrID (relink s l <$> ia_InstrID a) a))) db in
  RelinkIdentifierAssertions s l db = Ok (tt, db') /\ tables_ok db' /\ (forall a, a ∈ vd_assertions (db_validity db') -> ia_InstrID a <> Some l).
Proof.
  intros Hok Hd Hs db'. assert (tables_ok db') as Hok'.
  { apply (tables_ok_kept db); try (by destruct Hok).
    - simpl. rewrite map_map. apply Hok.
    - simpl. rewrite map_map. apply Hok.
    - apply Forall_forall. intros a' Ha'. simpl in Ha'. apply list_elem_of_fmap in Ha' as (a & -> & Ha).
      pose proof (proj1 (Forall_forall _ _) (ok_assertion _ Hok) a Ha) as (H1 & H2). split; [| done]. simpl.
      destruct (ia_InstrID a) as [i|]; simpl in *; [| done]. unfold relink. by case_bool_decide. }
  split; [by apply statement_deferred |]. split; [done |]. intros a' Ha'. simpl in Ha'. apply list_elem_of_fmap in Ha' as (a & -> & Ha). simpl.
  destruct (ia_InstrID a); simpl; [| done]. intros [= Heq]. by apply relink_not_loser in Heq.
Qed.

(** Both statements of the coverage. *)
Lemma MoveIdentityCoverage_ok db : tables_ok db -> db_deferred db = true -> s ∈ instr_ids db ->
  exists cs db1, MoveIdentityCoverage s l db = Ok (tt, db1) /\ DeleteIdentityCoverage l db1 = Ok (tt, set_coverage (fun _ => cs) db) /\
    tables_ok (set_coverage (fun _ => cs) db) /\ (forall c, c ∈ cs -> ic_InstrID c <> l) /\
    (forall i d, has_coverage (set_coverage (fun _ => cs) db) i d <-> exists j, has_coverage db j d /\ rename s [l] j = i).
Proof.
  intros Hok Hd Hs. set (ls := db_coverage db).
  set (new := List.filter (fun c => negb (existsb (fun o => bool_decide (coverage_key o = coverage_key c)) ls))
      (map (fun c => MkIdentityCoverageRow s (ic_Datasource c) (ic_FetchKeyID c)) (List.filter (fun c => bool_decide (ic_InstrID c = l)) ls))).
  set (db1 := set_coverage (fun _ => ls ++ new) db).
  assert (forall c, c ∈ new -> ic_InstrID c = s /\ coverage_key c ∉ map coverage_key ls /\ exists c0, c0 ∈ ls /\ ic_InstrID c0 = l /\
    ic_Datasource c0 = ic_Datasource c /\ ic_FetchKeyID c0 = ic_FetchKeyID c) as Hnew.
  { intros c [Hc Hex]%elem_of_lfilter. apply list_elem_of_fmap in Hc as (c0 & -> & [Hc0 Hl%bool_decide_eq_true]%elem_of_lfilter).
    split; [done |]. split; [| eauto]. intros (o & Ho1 & Ho2)%list_elem_of_fmap. apply negb_true_iff in Hex. rewrite existsb_false in Hex.
    specialize (Hex o Ho2). by rewrite bool_decide_eq_true_2 in Hex. }
  assert (tables_ok db1) as Hok1.
  { apply (tables_ok_kept db); try (by destruct Hok).
    - simpl. rewrite map_app. apply NoDup_app. split; [apply Hok |]. split.
      + intros x Hx (c & -> & Hc)%list_elem_of_fmap. by apply (Hnew c).
      + apply NoDup_key_filter. rewrite map_map. unfold coverage_key. simpl.
        assert (NoDup (map coverage_key (List.filter (fun c => bool_decide (ic_InstrID c = l)) ls))) as Hnd by apply NoDup_key_filter, Hok.
        revert Hnd. rewrite <- (map_map ic_Datasource (fun d => (s, d))). intros Hnd. apply NoDup_fmap_2; [by intros ? ? [=] |].
        apply (NoDup_fmap_1 (fun d => (l, d))). rewrite <- list_fmap_compose.
        erewrite list_fmap_ext; [exact Hnd |]. intros i x Hx. apply list_elem_of_lookup_2 in Hx.
        apply elem_of_lfilter in Hx as [_ Hx%bool_decide_eq_true]. unfold coverage_key, compose. by rewrite Hx.
    - apply Forall_app. split; [apply Hok |]. apply Forall_forall. intros c Hc. destruct (Hnew c Hc) as (-> & _ & c0 & Hc0 & _ & _ & Hf) || (destruct (Hnew c Hc) as (Hi & _ & c0 & Hc0 & _ & _ & Hf)).
      split; [by rewrite Hi |]. rewrite <- Hf. apply (proj1 (Forall_forall _ _) (ok_coverage _ Hok) c0 Hc0). }
  set (cs := List.filter (fun c => negb (bool_decide (ic_InstrID c = l))) (ls ++ new)).
  exists cs, db1. split; [by apply statement_deferred |].
  assert (tables_ok (set_coverage (fun _ => cs) db)) as Hok2.
  { apply (tables_ok_kept db1); try (by destruct Hok1); [simpl; apply NoDup_key_filter; apply Hok1 |].
    apply Forall_forall. intros c [Hc _]%elem_of_lfilter. by apply (proj1 (Forall_forall _ _) (ok_coverage _ Hok1)). }
  split; [by apply (statement_deferred (set_coverage _) db1) |]. split; [done |]. split.
  { intros c [_ Hc%negb_true_iff%bool_decide_eq_false]%elem_of_lfilter. done. }
  intros i d. split.
  - intros (c & [Hc Hcl%negb_true_iff%bool_decide_eq_false]%elem_of_lfilter & <- & <-). apply elem_of_app in Hc as [Hc|Hc].
    + exists (ic_InstrID c). split; [by exists c |]. by rewrite rename_relink, relink_other.
    + destruct (Hnew c Hc) as (-> & _ & c0 & Hc0 & Hl & Hds & _). exists l. split; [by exists c0 |]. by rewrite rename_relink, relink_loser.
  - intros (j & (c & Hc & <- & <-) & <-). rewrite rename_relink. destruct (decide (ic_InstrID c = l)) as [Hl|Hl].
    + rewrite Hl, relink_loser. destruct (existsb (fun o => bool_decide (coverage_key o = (s, ic_Datasource c))) ls) eqn:Ex.
      * apply existsb_elem in Ex as (o & Ho & [= Hos Hod]%bool_decide_eq_true). exists o. split; [| done]. apply elem_of_lfilter.
        split; [apply elem_of_app; by left |]. apply negb_true_iff, bool_decide_eq_false. congruence.
      * exists (MkIdentityCoverageRow s (ic_Datasource c) (ic_FetchKeyID c)). split; [| done]. apply elem_of_lfilter. split.
        -- apply elem_of_app. right. apply elem_of_lfilter. split; [| by apply negb_true_iff].
           apply list_elem_of_fmap. exists c. split; [done |]. apply elem_of_lfilter. split; [done | by apply bool_decide_eq_true].
        -- by apply negb_true_iff, bool_decide_eq_false.
    + rewrite relink_other by done. exists c. split; [| done]. apply elem_of_lfilter. split; [apply elem_of_app; by left | by apply negb_true_iff, bool_decide_eq_false].
Qed.

(** Nothing refers to the loser but its listings. *)
Record unreferenced db : Prop := {
  ur_identifiers r : r ∈ db_identifiers db -> ir_InstrID r <> l;
  ur_stated k : k ∈ db_stated db -> sk_InstrID (ks_Key k) <> Some l;
  ur_fetch k f : db_fetch db !! k = Some f -> f.2 <> Some l;
  ur_coverage c : c ∈ db_coverage db -> ic_InstrID c <> l;
  ur_assertions a : a ∈ vd_assertions (db_validity db) -> ia_InstrID a <> Some l;
}.

Definition drop_listings db : instr_db := set_listings (List.filter (fun x => negb (bool_decide (lr_InstrID x = l)))) db.
Definition drop_instr db : instr_db :=
  set_validity_db (cascade_instr l) (set_instrs (List.filter (fun r => negb (bool_decide (in_ID r = l)))) db).

Lemma drop_listings_kept db o i : listing_of_instr db o (Some i) -> i <> l ->
  listing_of_instr (drop_listings db) o (Some i) /\ refers (listing_ids (drop_listings db)) o /\ (tables_ok db -> family_in (drop_listings db) o = family_in db o).
Proof.
  intros Hli Hi. destruct o as [id|]; [| done]. simpl in *. apply list_elem_of_fmap in Hli as (x & [= -> ->] & Hx).
  assert (x ∈ db_listings (drop_listings db)) as Hx'.
  { simpl. apply elem_of_lfilter. split; [done |]. by apply negb_true_iff, bool_decide_eq_false. }
  split; [apply list_elem_of_fmap; eauto |]. split; [apply list_elem_of_fmap; eauto |]. intros Hok.
  unfold family_in. simpl. rewrite (find_key lr_ID (db_listings db) x (ok_listing_ID _ Hok) Hx).
  by rewrite (find_key lr_ID _ x (NoDup_key_filter _ _ _ (ok_listing_ID _ Hok)) Hx').
Qed.

Lemma DeleteListings_ok db : tables_ok db -> db_deferred db = true -> linked db -> unreferenced db ->
  DeleteListings l db = Ok (tt, drop_listings db) /\ tables_ok (drop_listings db) /\ linked (drop_listings db) /\
  identifier_view (drop_listings db) = identifier_view db /\ stated_view (drop_listings db) = stated_view db.
Proof.
  intros Hok Hd [Hl1 Hl2] Hu.
  assert (forall r, r ∈ db_identifiers db -> listing_of_instr (drop_listings db) (ir_ListingID r) (Some (ir_InstrID r)) /\
    refers (listing_ids (drop_listings db)) (ir_ListingID r) /\ (tables_ok db -> family_in (drop_listings db) (ir_ListingID r) = family_in db (ir_ListingID r))) as Hid.
  { intros r Hr. apply drop_listings_kept; [by apply (proj1 (Forall_forall _ _) Hl1) | by apply (ur_identifiers _ Hu)]. }
  assert (forall k, k ∈ db_stated db -> listing_of_instr (drop_listings db) (ks_ListingID k) (sk_InstrID (ks_Key k)) /\
    refers (listing_ids (drop_listings db)) (ks_ListingID k) /\ (tables_ok db -> family_in (drop_listings db) (ks_ListingID k) = family_in db (ks_ListingID k))) as Hst.
  { intros k Hk. pose proof (proj1 (Forall_forall _ _) Hl2 k Hk) as Hlk. cbv beta in Hlk. pose proof (ur_stated _ Hu k Hk) as Hne.
    pose proof (proj1 (Forall_forall _ _) (ok_stated _ Hok) k Hk) as (_ & _ & _ & _ & Hnl & _).
    destruct (sk_InstrID (ks_Key k)) as [i|]; [apply drop_listings_kept; [done | congruence] |]. rewrite Hnl by done. done. }
  assert (tables_ok (drop_listings db)) as Hok'.
  { destruct Hok as [? ? ? ? Hls ? ? Hids ? Hsts]. split; try done; try (by apply NoDup_key_filter).
    - apply Forall_forall. intros x [Hx _]%elem_of_lfilter. by apply (proj1 (Forall_forall _ _) Hls).
    - apply Forall_forall. intros r Hr. pose proof (proj1 (Forall_forall _ _) Hids r Hr) as (H1 & H2 & H3). split; [done |]. split; [by apply Hid | done].
    - apply Forall_forall. intros k Hk. pose proof (proj1 (Forall_forall _ _) Hsts k Hk) as (H1 & H2 & H3). split; [done |]. split; [by apply Hst | done]. }
  split; [by apply statement_deferred |]. split; [done |]. split; [| split].
  - split; apply Forall_forall; intros x Hx; [by apply Hid | by apply Hst].
  - apply map_ext_in. intros r Hr%list_elem_of_In. f_equal. by apply Hid.
  - apply map_ext_in. intros k Hk%list_elem_of_In. f_equal. by apply Hst.
Qed.

Lemma drop_instr_ids db i : i ∈ instr_ids db -> i <> l -> i ∈ instr_ids (drop_instr db).
Proof.
  intros (r & -> & Hr)%list_elem_of_fmap Hi. apply list_elem_of_fmap. exists r. split; [done |]. apply elem_of_lfilter.
  split; [done | by apply negb_true_iff, bool_decide_eq_false].
Qed.

Lemma drop_instr_refers db o : refers (instr_ids db) o -> o <> Some l -> refers (instr_ids (drop_instr db)) o.
Proof. destruct o; simpl; [intros; apply drop_instr_ids; congruence | done]. Qed.

Lemma DeleteInstr_ok db : tables_ok db -> db_deferred db = true -> unreferenced db -> (forall x, x ∈ db_listings db -> lr_InstrID x <> l) ->
  DeleteInstr l db = Ok (tt, drop_instr db) /\ tables_ok (drop_instr db).
Proof.
  intros Hok Hd Hu Hls.
  assert (tables_ok (drop_instr db)) as Hok'.
  { destruct Hok as [? Hin ? ? Hlis ? ? Hids ? Hsts Hfe ? Hco ? ? Has ? ? Hva Hre]. split; try done.
    - by apply NoDup_key_filter.
    - apply Forall_forall. intros x [Hx _]%elem_of_lfilter. by apply (proj1 (Forall_forall _ _) Hin).
    - apply Forall_forall. intros x Hx. pose proof (proj1 (Forall_forall _ _) Hlis x Hx) as [H1 H2]. split; [by apply drop_instr_ids, Hls | done].
    - apply Forall_forall. intros x Hx. pose proof (proj1 (Forall_forall _ _) Hids x Hx) as [H1 H2]. split; [by apply drop_instr_ids, (ur_identifiers _ Hu) | done].
    - apply Forall_forall. intros x Hx. pose proof (proj1 (Forall_forall _ _) Hsts x Hx) as [H1 H2]. split; [by apply drop_instr_refers, (ur_stated _ Hu) | done].
    - intros k f Hf. apply drop_instr_refers; [by apply (Hfe k) | by apply (ur_fetch _ Hu k)].
    - apply Forall_forall. intros x Hx. pose proof (proj1 (Forall_forall _ _) Hco x Hx) as [H1 H2]. split; [by apply drop_instr_ids, (ur_coverage _ Hu) | done].
    - apply Forall_forall. intros x Hx. pose proof (proj1 (Forall_forall _ _) Has x Hx) as [H1 H2]. split; [by apply drop_instr_refers, (ur_assertions _ Hu) | done].
    - apply Forall_forall. intros x [Hx Hne%negb_true_iff%bool_decide_eq_false]%elem_of_lfilter. apply drop_instr_ids; [| done].
      by apply (proj1 (Forall_forall _ _) Hva).
    - apply Forall_forall. intros x [Hx Hne%negb_true_iff%bool_decide_eq_false]%elem_of_lfilter. apply drop_instr_ids; [| done].
      by apply (proj1 (Forall_forall _ _) Hre). }
  split; [| done]. by apply statement_deferred.
Qed.

(** ** The whole fold *)

Lemma filter_one {A} (f : A -> uuid) xs :
  List.filter (fun x => negb (bool_decide (f x = l))) xs = List.filter (fun x => negb (contains [l] (f x))) xs.
Proof.
  apply List.filter_ext. intros x. f_equal. unfold contains. apply bool_decide_ext. by rewrite list_elem_of_singleton.
Qed.

Lemma moved_family ls ls' db o : Forall2 moved ls ls' -> family_in (set_listings (fun _ => ls') db) o = family_in (set_listings (fun _ => ls) db) o.
Proof.
  intros Hm. destruct o as [id|]; [| done]. unfold family_in. simpl. induction Hm as [|x x' ls ls' Hx _ IH]; simpl; [done |].
  destruct (moved_same _ _ Hx) as (-> & Hc & _). case_bool_decide; simpl; [by rewrite Hc | exact IH].
Qed.

Lemma moved_elem ls ls' x' : Forall2 moved ls ls' -> x' ∈ ls' -> exists x, x ∈ ls /\ moved x x'.
Proof.
  intros Hm Hx'. apply list_elem_of_lookup in Hx' as [i Hi]. destruct (Forall2_lookup_r _ _ _ _ _ Hm Hi) as (x & Hx & Hmx).
  exists x. split; [by eapply list_elem_of_lookup_2 | done].
Qed.

Lemma moved_elem_l ls ls' x : Forall2 moved ls ls' -> x ∈ ls -> exists x', x' ∈ ls' /\ moved x x'.
Proof.
  intros Hm Hx. apply list_elem_of_lookup in Hx as [i Hi]. destruct (Forall2_lookup_l _ _ _ _ _ Hm Hi) as (x' & Hx' & Hmx).
  exists x'. split; [by eapply list_elem_of_lookup_2 | done].
Qed.

Lemma moved_linked ls db o i : Forall2 moved (db_listings db) ls -> i <> l -> listing_of_instr db o (Some i) ->
  listing_of_instr (set_listings (fun _ => ls) db) o (Some i).
Proof.
  intros Hm Hi Hl. destruct o as [id|]; [| done]. simpl in *. apply list_elem_of_fmap in Hl as (x & [= -> ->] & Hx).
  destruct (moved_elem_l _ _ x Hm Hx) as (x' & Hx' & [->|[? _]]); [| done]. apply list_elem_of_fmap. eauto.
Qed.

(** The loser's rows as they were read. *)
Definition snapshot db (j : InstrWithCoverage) : Prop :=
  (forall x, x ∈ ji_Listings (iw_Instr j) <-> x ∈ db_listings db /\ lr_InstrID x = in_ID (iw_Row j)) /\ NoDup (map lr_ID (ji_Listings (iw_Instr j))).

Record folded db db' (present : list string) : Prop := {
  fd_ok : tables_ok db';
  fd_deferred : db_deferred db' = true;
  fd_linked : linked db';
  fd_families : has_families db' present;
  fd_renamed : renamed s [l] db db';
  fd_others x : lr_InstrID x <> s -> lr_InstrID x <> l -> (x ∈ db_listings db' <-> x ∈ db_listings db);
}.

Lemma moved_relinkable db ls present : tables_ok db -> db_deferred db = true -> s ∈ instr_ids db -> linked db ->
  tables_ok (set_listings (fun _ => ls) db) -> has_families (set_listings (fun _ => ls) db) present -> Forall2 moved (db_listings db) ls ->
  (forall x, x ∈ db_listings db -> lr_InstrID x = l -> lr_Currency x ∈ present) -> relinkable (set_listings (fun _ => ls) db).
Proof.
  intros Hok Hd Hs [Hl1 Hl2] Hok1 Hp Hm Hc.
  assert (forall o, listing_of_instr db o (Some l) -> relistable (set_listings (fun _ => ls) db) o) as Hre.
  { intros o Ho id ->. simpl in Ho. apply list_elem_of_fmap in Ho as (x & [= -> Hxl] & Hx).
    destruct (moved_elem_l _ _ x Hm Hx) as (x' & Hx' & Hmx). destruct (moved_same _ _ Hmx) as (Hid & Hcur & _).
    destruct (proj1 (Hp (lr_Currency x)) (Hc x Hx (eq_sym Hxl))) as (y & Hy & Hys & Hyc). exists x', y. repeat split; try done. congruence. }
  split; try done.
  - intros r Hr Hrl. apply Hre. rewrite <- Hrl. by apply (proj1 (Forall_forall _ _) Hl1).
  - intros k Hk Hkl. apply Hre. rewrite <- Hkl. by apply (proj1 (Forall_forall _ _) Hl2).
Qed.

Lemma relinked_linked db ls db2 db3 :
  linked db -> Forall2 moved (db_listings db) ls -> let db1 := set_listings (fun _ => ls) db in
  db2 = set_identifiers (map (relink_identifier db1 s l)) db1 -> db3 = set_stated (map (relink_stated db2 s l)) db2 ->
  (forall r, r ∈ db_identifiers db2 -> ir_InstrID r <> l /\ (r ∈ db_identifiers db1 \/ listing_of_instr db1 (ir_ListingID r) (Some (ir_InstrID r)))) ->
  (forall k, k ∈ db_stated db3 -> sk_InstrID (ks_Key k) <> Some l /\ (k ∈ db_stated db2 \/ listing_of_instr db2 (ks_ListingID k) (sk_InstrID (ks_Key k)))) ->
  linked db3.
Proof.
  intros [Hl1 Hl2] Hm db1 -> -> Hr Hk. split; apply Forall_forall.
  - intros r Hr3. destruct (Hr r Hr3) as [Hne [Hr1|Hli]]; [| exact Hli]. apply (moved_linked ls db); [done | done |].
    by apply (proj1 (Forall_forall _ _) Hl1).
  - intros k Hk3. destruct (Hk k Hk3) as [Hne [Hk1|Hli]]; [| exact Hli].
    pose proof (proj1 (Forall_forall _ _) Hl2 k Hk1) as Hlk. cbv beta in Hlk. destruct (sk_InstrID (ks_Key k)) as [i|]; [| by destruct (ks_ListingID k)].
    apply (moved_linked ls db); [done | congruence | done].
Qed.

(** The listings left when the loser's are deleted. *)
Lemma kept_listings db ls ls' present :
  Forall2 moved (db_listings db) ls -> has_families (set_listings (fun _ => ls) db) present ->
  (forall x, x ∈ db_listings db -> lr_InstrID x = l -> lr_Currency x ∈ present) -> (forall x, x ∈ ls' <-> x ∈ ls /\ lr_InstrID x <> l) ->
  let db' := set_listings (fun _ => ls') db in
  has_families db' present /\ (forall i c, has_listing db' i c <-> exists j, has_listing db j c /\ rename s [l] j = i) /\
  (forall x, lr_InstrID x <> s -> lr_InstrID x <> l -> (x ∈ ls' <-> x ∈ db_listings db)).
Proof.
  intros Hm Hp Hc Hls db'. split; [| split].
  - intros c. rewrite (Hp c). split.
    + intros (x & Hx & Hxs & <-). exists x. split; [apply Hls; split; [done | congruence] | done].
    + intros (x & [Hx _]%Hls & Hxs & <-). by exists x.
  - intros i c. split.
    + intros (x & [Hx Hxl]%Hls & <- & <-). destruct (moved_elem _ _ x Hm Hx) as (x0 & Hx0 & [->|[Hx0l ->]]).
      * exists (lr_InstrID x0). split; [by exists x0 |]. by rewrite rename_relink, relink_other.
      * exists l. split; [by exists x0 |]. by rewrite rename_relink, relink_loser.
    + intros (j & (x & Hx & <- & <-) & <-). rewrite rename_relink. destruct (decide (lr_InstrID x = l)) as [Hxl|Hxl].
      * rewrite Hxl, relink_loser. destruct (proj1 (Hp (lr_Currency x)) (Hc x Hx Hxl)) as (y & Hy & Hys & Hyc).
        exists y. split; [apply Hls; split; [done | congruence] | done].
      * rewrite relink_other by done. destruct (moved_elem_l _ _ x Hm Hx) as (x' & Hx' & [->|[? _]]); [| done].
        exists x. split; [by apply Hls | done].
  - intros x Hxs Hxl. rewrite Hls. split.
    + intros [Hx _]. destruct (moved_elem _ _ x Hm Hx) as (x0 & Hx0 & [->|[_ ->]]); done.
    + intros Hx. split; [| done]. by destruct (moved_elem_l _ _ x Hm Hx) as (x' & Hx' & [->|[? _]]).
Qed.

Lemma fold_ok stamp db survivor matched h present fetchKeyID :
  tables_ok db -> db_deferred db = true -> linked db -> s ∈ instr_ids db -> has_families db present ->
  in_ID (iw_Row survivor) = s -> im_ID h = l -> snapshot db (im_instr h) ->
  exists detail present' db', fold stamp survivor matched h present fetchKeyID db =
      Ok ((MkFindingParams FindingKindMerged fetchKeyID None (Some detail), present'), db') /\ folded db db' present'.
Proof.
  intros Hok Hd Hl Hs Hp Hsurv Hh [Hsnap Hsnapnd]. unfold fold. rewrite Hsurv, Hh. fold (im_ID h) in Hsnap. rewrite Hh in Hsnap.
  destruct (move_steps_ok (ji_Listings (iw_Instr (im_instr h))) db present Hok Hd Hs Hp Hsnapnd) as (present' & ls & Hrun & Hok1 & Hp1 & Hm & Hc).
  { intros x Hx. by apply Hsnap. }
  set (db1 := set_listings (fun _ => ls) db) in *. rewrite (tx_bind_ok _ _ db present' db1 Hrun).
  assert (relinkable db1) as Hr1.
  { apply (moved_relinkable db ls present'); try done. intros x Hx Hxl. apply Hc. right. exists x. split; [by apply Hsnap | done]. }
  destruct (RelinkIdentifiers_ok db1 Hr1) as (Hrun2 & Hr2 & Hview2 & Hids). set (db2 := set_identifiers _ db1) in *.
  rewrite (tx_bind_ok _ _ db1 tt db2 Hrun2).
  destruct (RelinkStatedKeys_ok db2 Hr2) as (Hrun3 & Hok3 & Hview3 & Hsts). set (db3 := set_stated _ db2) in *.
  rewrite (tx_bind_ok _ _ db2 tt db3 Hrun3).
  assert (linked db3) as Hl3 by by apply (relinked_linked db ls db2 db3).
  destruct (RelinkFetchKeys_ok db3 Hok3 Hd Hs) as (Hrun4 & Hok4 & Hfe). set (db4 := set_fetch _ db3) in *.
  rewrite (tx_bind_ok _ _ db3 tt db4 Hrun4).
  destruct (RelinkIdentifierAssertions_ok db4 Hok4 Hd Hs) as (Hrun5 & Hok5 & Has). set (db5 := set_validity_db _ db4) in *.
  rewrite (tx_bind_ok _ _ db4 tt db5 Hrun5).
  destruct (MoveIdentityCoverage_ok db5 Hok5 Hd Hs) as (cs & db6 & Hrun6 & Hrun7 & Hok7 & Hcs & Hcov). set (db7 := set_coverage (fun _ => cs) db5) in *.
  rewrite (tx_bind_ok _ _ db5 tt db6 Hrun6), (tx_bind_ok _ _ db6 tt db7 Hrun7).
  assert (unreferenced db7) as Hu by (split; [intros r Hr; by apply Hids | intros k Hk; by apply Hsts | exact Hfe | exact Hcs | exact Has]).
  assert (linked db7) as Hl7 by exact Hl3.
  destruct (DeleteListings_ok db7 Hok7 Hd Hl7 Hu) as (Hrun8 & Hok8 & Hl8 & Hv8 & Hv8'). set (db8 := drop_listings db7) in *.
  rewrite (tx_bind_ok _ _ db7 tt db8 Hrun8).
  assert (unreferenced db8) as Hu8 by (destruct Hu; by split).
  destruct (DeleteInstr_ok db8 Hok8 Hd Hu8) as (Hrun9 & Hok9). { intros x [_ Hx%negb_true_iff%bool_decide_eq_false]%elem_of_lfilter. done. }
  set (db9 := drop_instr db8) in *. rewrite (tx_bind_ok _ _ db8 tt db9 Hrun9).
  eexists _, present', db9. split; [reflexivity |].
  assert (forall x, x ∈ db_listings db9 <-> x ∈ ls /\ lr_InstrID x <> l) as Hls9.
  { intros x. change (db_listings db9) with (List.filter (fun x => negb (bool_decide (lr_InstrID x = l))) ls).
    rewrite elem_of_lfilter, negb_true_iff, bool_decide_eq_false. done. }
  destruct (kept_listings db ls (db_listings db9) present' Hm Hp1) as (Hp9 & Hhas & Hoth); [| done |].
  { intros x Hx Hxl. apply Hc. right. exists x. split; [by apply Hsnap | done]. }
  split; [done | done | done | done | | done].
  assert (set_listings (fun _ => db_listings db) db = db) as Hsame by by destruct db.
  split; try done.
  - simpl. apply filter_one.
  - change (identifier_view db9) with (identifier_view db8). rewrite Hv8. change (identifier_view db7) with (identifier_view db2). rewrite Hview2.
    f_equal. apply map_ext. intros r. f_equal. unfold db1. rewrite (moved_family _ _ _ _ Hm). by rewrite Hsame.
  - change (stated_view db9) with (stated_view db8). rewrite Hv8'. change (stated_view db7) with (stated_view db3). rewrite Hview3.
    f_equal. apply map_ext. intros k. f_equal. change (family_in db2 (ks_ListingID k)) with (family_in db1 (ks_ListingID k)).
    unfold db1. rewrite (moved_family _ _ _ _ Hm). by rewrite Hsame.
  - simpl. apply map_fmap_ext. intros k [u o] _. simpl. f_equal. apply option_fmap_ext. intros i. by rewrite rename_relink.
  - simpl. apply map_ext. intros a. f_equal. apply option_fmap_ext. intros i. by rewrite rename_relink.
  - simpl. apply filter_one.
  - simpl. apply filter_one.
  - split; [| done]. intros i (x & -> & [Hx _]%Hls9)%list_elem_of_fmap. rewrite <- (moved_ids _ _ Hm : map lr_ID ls = listing_ids db).
    apply list_elem_of_fmap. eauto.
Qed.
End FoldTheory.

(** * Folding every loser *)

Lemma contains_cons {A} `{EqDecision A} (x : A) xs y : contains (x :: xs) y = bool_decide (y = x) || contains xs y.
Proof.
  unfold contains. rewrite <- (bool_decide_or (y = x)). apply bool_decide_ext. by rewrite elem_of_cons.
Qed.

Lemma renamed_nil s db : renamed s [] db db.
Proof.
  assert (forall i, rename s [] i = i) as Hid by done.
  assert (forall o : option uuid, rename s [] <$> o = o) as Hido by (by intros []).
  split; try done.
  - by rewrite filter_id_all.
  - rewrite (map_ext _ id); [by rewrite map_id |]. by intros [[[[? ?] ?] ?] ?].
  - rewrite (map_ext _ id); [by rewrite map_id |]. intros [[k ? ? ? ?] ?]. unfold rename_stated. simpl. rewrite Hido. by destruct k.
  - intros i c. split; [intros Hh; by exists i | by intros (j & Hh & <-)].
  - rewrite <- (map_fmap_id (db_fetch db)) at 1. apply map_fmap_ext. intros k [u o] _. simpl. by rewrite Hido.
  - intros i c. split; [intros Hh; by exists i | by intros (j & Hh & <-)].
  - rewrite (map_ext _ id); [by rewrite map_id |]. intros a. rewrite Hido. by destruct a.
  - by rewrite filter_id_all.
  - by rewrite filter_id_all.
Qed.

Lemma renamed_cons s l losers db db1 db2 : s ∉ losers -> renamed s [l] db db1 -> renamed s losers db1 db2 -> renamed s (l :: losers) db db2.
Proof.
  intros Hs H1 H2.
  assert (forall i, rename s losers (rename s [l] i) = rename s (l :: losers) i) as Hc.
  { intros i. unfold rename. rewrite !contains_cons. change (contains [] i) with false. rewrite orb_false_r.
    case_bool_decide; simpl; [| done]. assert (contains losers s = false) as -> by by apply contains_false. done. }
  assert (forall {A} (f : A -> uuid) xs, List.filter (fun r => negb (contains losers (f r))) (List.filter (fun r => negb (contains [l] (f r))) xs) =
    List.filter (fun r => negb (contains (l :: losers) (f r))) xs) as Hfil.
  { intros A f xs. induction xs as [|x xs IH]; simpl; [done |]. rewrite !contains_cons. change (contains [] (f x)) with false. rewrite orb_false_r.
    destruct (bool_decide (f x = l)); simpl; [done |]. destruct (contains losers (f x)); simpl; by rewrite IH. }
  assert (forall o : option uuid, rename s losers <$> (rename s [l] <$> o) = rename s (l :: losers) <$> o) as Hco.
  { intros [i|]; simpl; [by rewrite Hc | done]. }
  destruct H1 as [A1 A2 A3 A4 A5 A6 A7 A8 A9 [A10 A10'] A11 [A12 A12']], H2 as [B1 B2 B3 B4 B5 B6 B7 B8 B9 [B10 B10'] B11 [B12 B12']]. split.
  - by rewrite B1, A1, Hfil.
  - rewrite B2, A2, map_map. apply map_ext. intros [[[[x1 x2] x3] x4] x5]. simpl. by rewrite Hc.
  - rewrite B3, A3, map_map. apply map_ext. intros [[k ? ? ? ?] ?]. unfold rename_stated. simpl. by rewrite Hco.
  - intros i c. rewrite B4. split.
    + intros (j & (k & Hk & <-)%A4 & <-). exists k. by rewrite Hc.
    + intros (k & Hk & <-). exists (rename s [l] k). split; [apply A4; by exists k | by rewrite Hc].
  - rewrite B5, A5, <- map_fmap_compose. apply map_fmap_ext. intros k [u o] _. simpl. by rewrite Hco.
  - intros i c. rewrite B6. split.
    + intros (j & (k & Hk & <-)%A6 & <-). exists k. by rewrite Hc.
    + intros (k & Hk & <-). exists (rename s [l] k). split; [apply A6; by exists k | by rewrite Hc].
  - rewrite B7, A7, map_map. apply map_ext. intros a. simpl. by rewrite Hco.
  - by rewrite B8, A8, Hfil.
  - by rewrite B9, A9, Hfil.
  - split; congruence.
  - destruct A11 as (? & ? & ? & ? & ? & ?), B11 as (? & ? & ? & ? & ? & ?). repeat split; congruence.
  - split; [by intros i Hi%B12; apply A12 | by rewrite B12'].
Qed.

Lemma merge_folds stamp survivor fetchKeyID losers : let s := im_ID survivor in forall db fs present,
  tables_ok db -> db_deferred db = true -> linked db -> s ∈ instr_ids db -> has_families s db present ->
  NoDup (map im_ID losers) -> s ∉ map im_ID losers -> (forall h, h ∈ losers -> snapshot db (im_instr h)) ->
  exists fs' present' db', tx_fold (merge_fold stamp survivor fetchKeyID) (fs, present) losers db = Ok ((fs ++ fs', present'), db') /\
    tables_ok db' /\ db_deferred db' = true /\ linked db' /\ renamed s (map im_ID losers) db db' /\
    Forall2 (fun h f => exists detail, f = MkFindingParams FindingKindMerged fetchKeyID None (Some detail)) losers fs'.
Proof.
  intros s. induction losers as [|h losers IH]; intros db fs present Hok Hd Hl Hs Hp Hnd Hni Hsnap.
  { exists [], present, db. rewrite app_nil_r. repeat (split; [done |]). split; [apply renamed_nil | constructor]. }
  simpl in Hnd, Hni. rewrite not_elem_of_cons in Hni. destruct Hni as [Hsh Hni]. inversion Hnd as [|? ? Hhn Hnd']; subst.
  destruct (fold_ok s (im_ID h) Hsh stamp db (im_instr survivor) (im_matched survivor) h present fetchKeyID) as (detail & present1 & db1 & Hrun & [Hok1 Hd1 Hl1 Hp1 Hrn1 Hoth]); try done.
  { apply Hsnap. by left. }
  destruct (IH db1 (fs ++ [MkFindingParams FindingKindMerged fetchKeyID None (Some detail)]) present1) as (fs' & present' & db' & Hrun' & Hok' & Hd' & Hl' & Hrn & Hf); try done.
  { apply list_elem_of_fmap in Hs as (r & Hr1 & Hr2). apply list_elem_of_fmap. exists r. split; [done |]. rewrite (rn_instrs _ _ _ _ Hrn1).
    apply elem_of_lfilter. split; [done |]. rewrite <- Hr1. apply negb_true_iff, contains_false. by rewrite list_elem_of_singleton. }
  { intros g Hg. destruct (Hsnap g) as [Hg1 Hg2]; [by right |]. split; [| done]. intros x. rewrite Hg1.
    assert (im_ID g ∈ map im_ID losers) as Hgi by (apply list_elem_of_fmap; eauto). split.
    - intros [Hx Hxg]. split; [| done]. apply Hoth; [| | done]; rewrite Hxg; unfold im_ID in *; congruence.
    - intros [Hx Hxg]. split; [| done]. apply Hoth in Hx; [done | |]; rewrite Hxg; unfold im_ID in *; congruence. }
  exists (MkFindingParams FindingKindMerged fetchKeyID None (Some detail) :: fs'), present', db'. split.
  - cbn [tx_fold]. rewrite (tx_bind_ok _ _ db (fs ++ [MkFindingParams FindingKindMerged fetchKeyID None (Some detail)], present1) db1).
    + rewrite Hrun'. by rewrite <- app_assoc.
    + unfold merge_fold. simpl. by rewrite (tx_bind_ok _ _ _ _ _ Hrun).
  - repeat (split; [done |]). split; [by apply (renamed_cons _ _ _ _ db1) | constructor; [by eexists | done]].
Qed.

(** * The instruments identifiers name *)

Lemma elem_of_ListInstrs db ids r i : (r, i) ∈ ListInstrsByIdentifiers db ids <->
  to_Identifier r ∈ ids /\ r ∈ db_identifiers db /\ i ∈ db_instrs db /\ in_ID i = ir_InstrID r.
Proof.
  unfold ListInstrsByIdentifiers. rewrite elem_of_sort_func, elem_of_concat_map. split.
  - intros (id & Hid & Hri). unfold identified in Hri. apply elem_of_concat_map in Hri as (r' & [Hr' Heq%bool_decide_eq_true]%elem_of_lfilter & Hi).
    apply list_elem_of_fmap in Hi as (i' & [= -> ->] & [Hi' He%bool_decide_eq_true]%elem_of_lfilter). by subst id.
  - intros (Hid & Hr & Hi & He). exists (to_Identifier r). split; [done |]. apply elem_of_concat_map. exists r. split.
    + apply elem_of_lfilter. split; [done | by apply bool_decide_eq_true].
    + apply list_elem_of_fmap. exists i. split; [done |]. apply elem_of_lfilter. split; [done | by apply bool_decide_eq_true].
Qed.

(** What the loop over the rows keeps. *)
Record matching (db : instr_db) (rows : list (IdentifierRow * InstrRow)) (st : list InstrRow * gmap uuid (list Identifier)) : Prop := {
  mg_rows i : i ∈ st.1 <-> exists r, (r, i) ∈ rows;
  mg_NoDup : NoDup (map in_ID st.1);
  mg_keys k : is_Some (st.2 !! k) <-> exists i, i ∈ st.1 /\ in_ID i = k;
  mg_matched k id : id ∈ default [] (st.2 !! k) <-> exists r i, (r, i) ∈ rows /\ in_ID i = k /\ to_Identifier r = id;
}.

Lemma matched_steps db rows : NoDup (map in_ID (db_instrs db)) -> (forall r i, (r, i) ∈ rows -> i ∈ db_instrs db) ->
  matching db rows (foldl matched_step ([], ∅) rows).
Proof.
  intros Hnd. induction rows as [|[r i] rows IH] using rev_ind; intros Hin.
  { split; simpl.
    - intros i. split; [by intros ?%elem_of_nil | by intros (r & ?%elem_of_nil)].
    - constructor.
    - intros k. rewrite lookup_empty. split; [by intros [] | by intros (i & ?%elem_of_nil & _)].
    - intros k id. rewrite lookup_empty. simpl. split; [by intros ?%elem_of_nil | by intros (r & i & ?%elem_of_nil & _)]. }
  rewrite foldl_app. simpl. destruct IH as [H1 H2 H3 H4]; [intros r' i' Hr'; apply (Hin r'), elem_of_app; by left |].
  destruct (foldl matched_step ([], ∅) rows) as [instrs matched] eqn:Est. unfold matched_step. simpl in *.
  assert (forall r' i', (r', i') ∈ rows ++ [(r, i)] <-> (r', i') ∈ rows \/ (r' = r /\ i' = i)) as Happ.
  { intros r' i'. rewrite elem_of_app, list_elem_of_singleton. split; [intros [?|[= -> ->]]; auto | intros [?|[-> ->]]; auto]. }
  assert (i ∈ db_instrs db) as Hi by (apply (Hin r), elem_of_app; right; by left).
  assert (forall j, j ∈ instrs -> in_ID j = in_ID i -> j = i) as Hsame.
  { intros j Hj He. apply (NoDup_key in_ID (db_instrs db)); [done | | done | done]. apply H1 in Hj as (r' & Hr'). apply (Hin r'), Happ. by left. }
  assert (forall j, j ∈ (match matched !! in_ID i with Some _ => instrs | None => instrs ++ [i] end) <-> j ∈ instrs \/ j = i) as Hins.
  { intros j. destruct (matched !! in_ID i) eqn:Em; [| by rewrite elem_of_app, list_elem_of_singleton].
    split; [auto | intros [?| ->]; [done |]]. destruct (proj1 (H3 (in_ID i))) as (j & Hj & He); [by rewrite Em |]. by rewrite <- (Hsame j). }
  split; simpl.
  - intros j. rewrite Hins, H1. split.
    + intros [(r' & Hr')| ->]; [exists r'; apply Happ; by left | exists r; apply Happ; by right].
    + intros (r' & [?|[-> ->]]%Happ); eauto.
  - destruct (matched !! in_ID i) eqn:Em; [done |]. apply NoDup_map_snoc; [done |]. intros (j & He & Hj)%list_elem_of_fmap.
    assert (is_Some (matched !! in_ID i)) as [? ?]; [| congruence]. apply H3. by exists j.
  - intros k. rewrite lookup_insert_is_Some', H3. split.
    + intros [<-|(j & Hj & <-)]; [exists i | exists j]; (split; [apply Hins; auto | done]).
    + intros (j & [Hj| ->]%Hins & <-); eauto.
  - intros k id. destruct (decide (in_ID i = k)) as [<-|Hne].
    + rewrite lookup_insert_eq. simpl. rewrite elem_of_app, list_elem_of_singleton, H4. split.
      * intros [(r' & i' & Hr' & ?)| ->]; [exists r', i'; split; [apply Happ; by left | done] | exists r, i; split; [apply Happ; by right | done]].
      * intros (r' & i' & [Hr'|[-> ->]]%Happ & He & <-); [left; eauto | by right].
    + rewrite lookup_insert_ne by done. rewrite H4. split.
      * intros (r' & i' & Hr' & ?). exists r', i'. split; [apply Happ; by left | done].
      * intros (r' & i' & [Hr'|[-> ->]]%Happ & He & <-); [eauto | done].
Qed.

Lemma join_snapshot db rows row : tables_ok db -> row ∈ rows -> snapshot db (join_InstrWithCoverage db rows row).
Proof.
  intros Hok Hrow. split.
  - intros x. simpl. unfold ListListingsOf. rewrite elem_of_lfilter, elem_of_sort_func, elem_of_lfilter, contains_true, bool_decide_eq_true.
    split; [intros [[? _] ?]; done |]. intros [Hx He]. split; [| done]. split; [done |]. rewrite He. apply list_elem_of_fmap. eauto.
  - simpl. apply NoDup_key_filter. unfold ListListingsOf. eapply NoDup_Permutation_proper; [apply fmap_Permutation, sort_func_perm |].
    apply NoDup_key_filter, Hok.
Qed.

Lemma matches_spec db ids : tables_ok db -> let ms := findInstrsByIdentifier db ids in
  NoDup (map im_ID ms) /\
  (forall m, m ∈ ms -> snapshot db (im_instr m) /\ iw_Row (im_instr m) ∈ db_instrs db /\ im_matched m <> [] /\
     forall id, id ∈ im_matched m <-> id ∈ ids /\ exists r, r ∈ db_identifiers db /\ to_Identifier r = id /\ ir_InstrID r = im_ID m) /\
  (forall r, r ∈ db_identifiers db -> to_Identifier r ∈ ids -> exists m, m ∈ ms /\ im_ID m = ir_InstrID r) /\
  StronglySorted (cmp_le created_cmp) ms.
Proof.
  intros Hok ms. unfold ms, findInstrsByIdentifier.
  pose proof (matched_steps db (ListInstrsByIdentifiers db ids) (ok_instr_ID _ Hok)) as Hmg.
  destruct (foldl matched_step ([], ∅) (ListInstrsByIdentifiers db ids)) as [instrs matched].
  destruct Hmg as [H1 H2 H3 H4]; [by intros r i (_ & _ & ? & _)%elem_of_ListInstrs |]. simpl in *.
  set (mk := fun i => MkMatch (join_InstrWithCoverage db instrs i) (default [] (matched !! in_ID i))).
  split; [| split; [| split]].
  - eapply NoDup_Permutation_proper; [apply fmap_Permutation, sort_func_perm |]. by rewrite <- list_fmap_compose.
  - intros m Hm%elem_of_sort_func. apply list_elem_of_fmap in Hm as (i & -> & Hi). simpl. split; [by apply join_snapshot |].
    apply H1 in Hi as Hri. destruct Hri as (r & Hr). apply elem_of_ListInstrs in Hr as Hr'. destruct Hr' as (Hid & Hr1 & Hi1 & He).
    split; [done |]. split.
    + intros Hnil. assert (to_Identifier r ∈ default [] (matched !! in_ID i)) as Hel by (apply H4; eauto). rewrite Hnil in Hel. by apply elem_of_nil in Hel.
    + intros id. change (im_ID (mk i)) with (in_ID i). rewrite H4. split.
      * intros (r' & i' & (? & ? & ? & ?)%elem_of_ListInstrs & He' & <-). split; [done |]. exists r'. repeat split; congruence.
      * intros (Hids & r' & Hr'1 & <- & He'). exists r', i. split; [| done]. by apply elem_of_ListInstrs.
  - intros r Hr Hid. pose proof (proj1 (Forall_forall _ _) (ok_identifier _ Hok) r Hr) as (Hi & _).
    apply list_elem_of_fmap in Hi as (i & He & Hi). exists (mk i). split; [| done]. apply elem_of_sort_func, list_elem_of_fmap.
    exists i. split; [done |]. apply H1. exists r. by apply elem_of_ListInstrs.
  - apply sort_func_sorted. apply _.
Qed.

(** * Conflicts *)

Lemma res_fold_app {X A S} (f : S -> A -> res X S) s l k : res_fold f s (l ++ k) = s' ← res_fold f s l; res_fold f s' k.
Proof. revert s. induction l as [|a l IH]; intros s; simpl; [done |]. by destruct (f s a). Qed.

Lemma res_fold_nested {X A B C S} (f : C -> S -> B -> res X S) (h : A -> C) (g : A -> list B) s l :
  res_fold (fun s a => res_fold (f (h a)) s (g a)) s l = res_fold (fun s cb => f cb.1 s cb.2) s (concat (map (fun a => map (fun b => (h a, b)) (g a)) l)).
Proof.
  revert s. induction l as [|a l IH]; intros s; simpl; [done |]. rewrite res_fold_app.
  assert (forall s, res_fold (fun s cb => f cb.1 s cb.2) s (map (fun b => (h a, b)) (g a)) = res_fold (f (h a)) s (g a)) as ->.
  { generalize (g a). intros bs s0. revert s0. induction bs as [|b bs IHb]; intros s0; simpl; [done |]. destruct (f (h a) s0 b); [apply IHb | done]. }
  destruct (res_fold (f (h a)) s (g a)); simpl; [apply IH | done].
Qed.

(** The identifiers of one family of one instrument. *)
Definition row_family (famOf : gmap uuid string) (r : IdentifierRow) : string :=
  match ir_ListingID r with Some l => default ""%string (famOf !! l) | None => ""%string end.

Definition row_key (fr : gmap uuid string * IdentifierRow) : IdentifierType * string * string :=
  (ir_Type fr.2, ir_Domain fr.2, row_family fr.1 fr.2).

(** Exclusive identifiers of one type, domain and family have one value. *)
Definition agree (xs : list (gmap uuid string * IdentifierRow)) : Prop :=
  forall x y, x ∈ xs -> y ∈ xs -> Exclusive (to_Identifier x.2) = true -> Exclusive (to_Identifier y.2) = true -> row_key x = row_key y ->
    ir_Value x.2 = ir_Value y.2.

Section Conflicts.
Variable uuid_string : uuid -> string.

(** The map [first] after the rows [seen]. *)
Definition firsts (seen : list (gmap uuid string * IdentifierRow)) (first : gmap (IdentifierType * string * string) (Identifier * uuid)) : Prop :=
  (forall k prior i, first !! k = Some (prior, i) ->
     exists x, x ∈ seen /\ Exclusive (to_Identifier x.2) = true /\ row_key x = k /\ to_Identifier x.2 = prior /\ ir_InstrID x.2 = i) /\
  (forall x, x ∈ seen -> Exclusive (to_Identifier x.2) = true -> exists prior i, first !! row_key x = Some (prior, i) /\ id_Value prior = ir_Value x.2).

Lemma conflict_steps todo : forall seen first,
  firsts seen first ->
  (forall x y, x ∈ seen ++ todo -> y ∈ seen ++ todo -> Exclusive (to_Identifier x.2) = true -> Exclusive (to_Identifier y.2) = true ->
     row_key x = row_key y -> ir_InstrID x.2 = ir_InstrID y.2 -> ir_Value x.2 = ir_Value y.2) ->
  (exists first', res_fold (fun st fr => conflict_step uuid_string fr.1 st fr.2) first todo = Ok first') <-> agree (seen ++ todo).
Proof.
  induction todo as [|x todo IH]; intros seen first [Hf1 Hf2] Hone; simpl.
  { rewrite app_nil_r in *. split; [intros _ | intros _; eauto]. intros x y Hx Hy Ex Ey Hk.
    destruct (Hf2 x Hx Ex) as (p & i & Hp & <-). destruct (Hf2 y Hy Ey) as (q & j & Hq & <-). rewrite Hk, Hq in Hp. congruence. }
  assert (seen ++ x :: todo = (seen ++ [x]) ++ todo) as Heq by by rewrite <- app_assoc. rewrite Heq in *.
  assert (x ∈ (seen ++ [x]) ++ todo) as Hxin by (rewrite !elem_of_app; left; right; by left).
  unfold conflict_step. destruct (Exclusive (to_Identifier x.2)) eqn:Ex; simpl.
  2: { apply IH; [| done]. split.
    - intros k prior i Hk. destruct (Hf1 k prior i Hk) as (y & Hy & ?). exists y. split; [apply elem_of_app; by left | done].
    - intros y [Hy| ->%list_elem_of_singleton]%elem_of_app Ey; [by apply Hf2 | congruence]. }
  fold (row_family x.1 x.2). change (ir_Type x.2, ir_Domain x.2, row_family x.1 x.2) with (row_key x).
  destruct (first !! row_key x) as [[prior i]|] eqn:Ef.
  - destruct (Hf1 _ _ _ Ef) as (y & Hy & Ey & Hk & Hp & Hi).
    assert (y ∈ (seen ++ [x]) ++ todo) as Hyin by (rewrite !elem_of_app; by left; left).
    assert (id_Value prior = ir_Value y.2) as Hpv by by rewrite <- Hp.
    destruct (negb (bool_decide (id_Value prior = ir_Value x.2)) && negb (bool_decide (i = ir_InstrID x.2))) eqn:Ec.
    + split; [by intros [? ?] |]. intros Hag. apply andb_true_iff in Ec as [Hv%negb_true_iff%bool_decide_eq_false _]. destruct Hv.
      rewrite Hpv. by apply Hag.
    + assert (id_Value prior = ir_Value x.2) as Hv.
      { destruct (decide (id_Value prior = ir_Value x.2)) as [|Hne]; [done |]. rewrite (bool_decide_eq_false_2 _ Hne) in Ec. simpl in Ec.
        apply negb_false_iff, bool_decide_eq_true in Ec. rewrite Hpv. apply Hone; try done. congruence. }
      apply IH; [| done]. split.
      * intros k p j Hkj. destruct (Hf1 k p j Hkj) as (z & Hz & ?). exists z. split; [apply elem_of_app; by left | done].
      * intros z [Hz| ->%list_elem_of_singleton]%elem_of_app Ez; [by apply Hf2 | eauto].
  - apply IH; [| done]. split.
    + intros k p j [[<- [= <- <-]]|[_ Hkj]]%lookup_insert_Some.
      * exists x. split; [apply elem_of_app; right; by left | done].
      * destruct (Hf1 k p j Hkj) as (z & Hz & ?). exists z. split; [apply elem_of_app; by left | done].
    + intros z [Hz| ->%list_elem_of_singleton]%elem_of_app Ez.
      * destruct (Hf2 z Hz Ez) as (p & j & Hpj & Hv). exists p, j. split; [| done]. rewrite lookup_insert_ne; [done | congruence].
      * eexists _, _. split; [apply lookup_insert_eq | done].
Qed.

Lemma class_pair_None ms : class_pair ms = None <->
  forall i j a b, (i < j)%nat -> ms !! i = Some a -> ms !! j = Some b -> Disjoint (in_AssetClass (iw_Row (im_instr a))) (in_AssetClass (iw_Row (im_instr b))) = false.
Proof.
  induction ms as [|m ms IH]; simpl; [split; [intros _ i j a b _ [=] | done] |].
  destruct (find_func _ ms) as [b|] eqn:Ef.
  - split; [done |]. intros Hall. apply find_func_Some in Ef as [Hb Hd]. apply list_elem_of_lookup in Hb as [j Hj].
    by rewrite (Hall 0%nat (S j) m b) in Hd by (lia || done).
  - rewrite find_func_None in Ef. rewrite IH. split.
    + intros Hall [|i] [|j] a b Hij Ha Hb; simpl in *; [lia | simplify_eq; apply Ef; by eapply list_elem_of_lookup_2 | lia | by apply (Hall i j a b); [lia | |]].
    + intros Hall i j a b Hij Ha Hb. by apply (Hall (S i) (S j)); [lia | |].
Qed.

End Conflicts.

(** Exclusive identifiers of the instruments [insts], taken as one, have one value
    in each type, domain and family. *)
Definition one_valued (db : instr_db) (insts : list uuid) : Prop :=
  forall r r', r ∈ db_identifiers db -> r' ∈ db_identifiers db -> ir_InstrID r ∈ insts -> ir_InstrID r' ∈ insts ->
    Exclusive (to_Identifier r) = true -> Exclusive (to_Identifier r') = true -> ir_Type r = ir_Type r' -> ir_Domain r = ir_Domain r' ->
    family_in db (ir_ListingID r) = family_in db (ir_ListingID r') -> ir_Value r = ir_Value r'.

(** No two of the instruments have disjoint classes. *)
Definition classes_agree (ms : list instrMatch) : Prop :=
  forall i j a b, (i < j)%nat -> ms !! i = Some a -> ms !! j = Some b -> Disjoint (in_AssetClass (iw_Row (im_instr a))) (in_AssetClass (iw_Row (im_instr b))) = false.

Lemma join_identifiers db rows row r : row ∈ rows ->
  r ∈ ji_Identifiers (iw_Instr (join_InstrWithCoverage db rows row)) <-> r ∈ db_identifiers db /\ ir_InstrID r = in_ID row.
Proof.
  intros Hrow. simpl. unfold ListIdentifiersOf. rewrite elem_of_lfilter, elem_of_sort_func, elem_of_lfilter, contains_true, bool_decide_eq_true.
  split; [intros [[? _] ?]; done |]. intros [Hx He]. split; [| done]. split; [done |]. rewrite He. apply list_elem_of_fmap. eauto.
Qed.

Lemma matches_identifiers db ids m r : m ∈ findInstrsByIdentifier db ids ->
  r ∈ ji_Identifiers (iw_Instr (im_instr m)) <-> r ∈ db_identifiers db /\ ir_InstrID r = im_ID m.
Proof.
  unfold findInstrsByIdentifier. destruct (foldl _ _ _) as [instrs matched]. intros Hm%elem_of_sort_func.
  apply list_elem_of_fmap in Hm as (i & -> & Hi). by apply join_identifiers.
Qed.

Lemma fam_of_lookup ls : NoDup (map lr_ID ls) -> forall x, x ∈ ls -> fam_of ls !! lr_ID x = Some (lr_Currency x).
Proof.
  unfold fam_of. induction ls as [|y ls IH] using rev_ind; intros Hnd x Hx; [by apply elem_of_nil in Hx |].
  rewrite foldl_app. simpl. rewrite map_app in Hnd. apply NoDup_app in Hnd as (Hnd & Hdisj & _).
  apply elem_of_app in Hx as [Hx| ->%list_elem_of_singleton]; [| apply lookup_insert_eq].
  rewrite lookup_insert_ne; [by apply IH |]. intros He. apply (Hdisj (lr_ID x)); [apply list_elem_of_fmap; eauto |]. rewrite <- He. by left.
Qed.

(** The rows [mergeConflict] reads, with the map [famOf] of each. *)
Definition conflict_rows (ms : list instrMatch) : list (gmap uuid string * IdentifierRow) :=
  concat (map (fun h => map (fun r => (fam_of (ji_Listings (iw_Instr (im_instr h))), r)) (ji_Identifiers (iw_Instr (im_instr h)))) ms).

Lemma conflict_rows_spec db ids ms x : tables_ok db -> linked db -> (forall m, m ∈ ms -> m ∈ findInstrsByIdentifier db ids) -> x ∈ conflict_rows ms ->
  x.2 ∈ db_identifiers db /\ ir_InstrID x.2 ∈ map im_ID ms /\ row_family x.1 x.2 = default ""%string (family_in db (ir_ListingID x.2)).
Proof.
  intros Hok [Hl _] Hms Hx. apply elem_of_concat_map in Hx as (h & Hh & Hx). apply list_elem_of_fmap in Hx as (r & -> & Hr). simpl.
  apply (matches_identifiers db ids) in Hr as [Hr He]; [| by apply Hms]. split; [done |]. split; [apply list_elem_of_fmap; eauto |].
  unfold row_family. destruct (ir_ListingID r) as [id|] eqn:Eid; [| done].
  pose proof (proj1 (Forall_forall _ _) Hl r Hr) as Hlr. cbv beta in Hlr. rewrite Eid in Hlr. simpl in Hlr.
  apply list_elem_of_fmap in Hlr as (y & [= -> Hy2] & Hy). rewrite (family_in_some db y Hok Hy). simpl.
  destruct (matches_spec db ids Hok) as (_ & Hspec & _). destruct (Hspec h (Hms h Hh)) as ([Hs1 Hs2] & _).
  rewrite (fam_of_lookup _ Hs2 y); [done |]. apply Hs1. split; [done |]. unfold im_ID in He. congruence.
Qed.

Lemma agree_one_valued db ids ms : tables_ok db -> linked db -> (forall m, m ∈ ms -> m ∈ findInstrsByIdentifier db ids) ->
  agree (conflict_rows ms) <-> one_valued db (map im_ID ms).
Proof.
  intros Hok Hl Hms.
  assert (forall r, r ∈ db_identifiers db -> ir_InstrID r ∈ map im_ID ms -> exists x, x ∈ conflict_rows ms /\ x.2 = r) as Hrows.
  { intros r Hr (h & He & Hh)%list_elem_of_fmap. eexists (_, r). split; [| done]. apply elem_of_concat_map. exists h. split; [done |].
    apply list_elem_of_fmap. exists r. split; [done |]. by apply (matches_identifiers db ids); [apply Hms |]. }
  assert (forall x y, x ∈ conflict_rows ms -> y ∈ conflict_rows ms -> row_key x = row_key y <->
    ir_Type x.2 = ir_Type y.2 /\ ir_Domain x.2 = ir_Domain y.2 /\ family_in db (ir_ListingID x.2) = family_in db (ir_ListingID y.2)) as Hkey.
  { intros x y Hx Hy. destruct (conflict_rows_spec db ids ms x Hok Hl Hms Hx) as (Hx1 & _ & Hfx).
    destruct (conflict_rows_spec db ids ms y Hok Hl Hms Hy) as (Hy1 & _ & Hfy). unfold row_key. rewrite Hfx, Hfy. split; [| by intros (-> & -> & ->)].
    intros [= Ht Hd Hf]. split; [done |]. split; [done |].
    pose proof (proj1 (Forall_forall _ _) (ok_identifier _ Hok) _ Hx1) as (_ & Hrx & Hgx & _).
    pose proof (proj1 (Forall_forall _ _) (ok_identifier _ Hok) _ Hy1) as (_ & Hry & Hgy & _).
    assert (row_grain x.2 = row_grain y.2) as Hg by (rewrite <- Hgx, <- Hgy; unfold Grain; simpl; by rewrite Ht).
    unfold row_grain in Hg. destruct (ir_ListingID x.2) as [a|], (ir_ListingID y.2) as [b|]; try done. simpl in Hrx, Hry.
    apply list_elem_of_fmap in Hrx as (u & -> & Hu). apply list_elem_of_fmap in Hry as (v & -> & Hv).
    rewrite !family_in_some in Hf |- * by done. simpl in Hf. by rewrite Hf. }
  split.
  - intros Hag r r' Hr Hr' Hi Hi' Er Er' Ht Hd Hf. destruct (Hrows r Hr Hi) as (x & Hx & <-). destruct (Hrows r' Hr' Hi') as (y & Hy & <-).
    apply Hag; try done. by apply Hkey.
  - intros Hov x y Hx Hy Ex Ey Hk. apply Hkey in Hk as (Ht & Hd & Hf); [| done | done].
    destruct (conflict_rows_spec db ids ms x Hok Hl Hms Hx) as (Hx1 & Hx2 & _). destruct (conflict_rows_spec db ids ms y Hok Hl Hms Hy) as (Hy1 & Hy2 & _).
    by apply Hov.
Qed.

Lemma mergeConflict_agrees uuid_string db ids : consistent db -> linked db ->
  let ms := findInstrsByIdentifier db ids in
  (forall m, m ∈ ms -> one_valued db [im_ID m]) ->
  mergeConflict uuid_string ms = None <-> one_valued db (map im_ID ms) /\ classes_agree ms.
Proof.
  intros Hok%consistent_tables Hl ms Hone. unfold mergeConflict.
  pose proof (res_fold_nested (conflict_step uuid_string) (fun h => fam_of (ji_Listings (iw_Instr (im_instr h))))
    (fun h => ji_Identifiers (iw_Instr (im_instr h))) ∅ ms) as Hfold.
  change (res_fold (fun s a => res_fold _ s _) ∅ ms) with (res_fold (conflict_instr uuid_string) ∅ ms) in Hfold. rewrite Hfold.
  fold (conflict_rows ms).
  assert (forall m, m ∈ ms -> m ∈ findInstrsByIdentifier db ids) as Hms by done.
  destruct (conflict_steps uuid_string (conflict_rows ms) [] ∅) as [Hag1 Hag2].
  - split; [by intros k p i Hk | by intros x Hx%elem_of_nil].
  - simpl. intros x y Hx Hy Ex Ey Hk Hi.
    destruct (conflict_rows_spec db ids ms x Hok Hl Hms Hx) as (_ & (m & Hm1 & Hm2)%list_elem_of_fmap & _).
    assert (agree (conflict_rows [m])) as Hag.
    { apply (agree_one_valued db ids [m]); try done; [intros m' ->%list_elem_of_singleton; done | by apply Hone]. }
    assert (forall z, z ∈ conflict_rows ms -> ir_InstrID z.2 = im_ID m -> z ∈ conflict_rows [m]) as Hsub.
    { intros z Hz He. apply elem_of_concat_map in Hz as (h & Hh & Hz). apply elem_of_concat_map. exists m. split; [by left |].
      apply list_elem_of_fmap in Hz as (r & -> & Hr). simpl in He. apply (matches_identifiers db ids) in Hr as [Hr He']; [| by apply Hms].
      assert (h = m) as <-; [| apply list_elem_of_fmap; exists r; split; [done | by apply (matches_identifiers db ids); [apply Hms |]]].
      eapply (NoDup_key im_ID ms); [apply (matches_spec db ids Hok) | done | done | congruence]. }
    apply Hag; try done; apply Hsub; congruence.
  - rewrite <- (agree_one_valued db ids ms Hok Hl Hms). unfold classes_agree. rewrite <- class_pair_None.
    destruct (res_fold _ ∅ (conflict_rows ms)) as [first|detail].
    + destruct (class_pair ms) as [[a b]|]; simpl; split; try done; [by intros [_ ?] |]. intros _. split; [apply Hag1; by eexists | done].
    + split; [done |]. intros [Hag _]. destruct (Hag2 Hag) as [? ?]. done.
Qed.

(** [mergeConflict] reports no conflict exactly when the instruments found
    can be one: no two of them have disjoint classes, and over all of them each
    type, domain and currency family has one value of an exclusive identifier.
    Each instrument found has one value of each to begin with. *)
Theorem mergeConflict_spec uuid_string db ids : consistent db -> linked db ->
  let ms := findInstrsByIdentifier db ids in
  (forall m, m ∈ ms -> one_valued db [im_ID m]) ->
  mergeConflict uuid_string ms = None <-> one_valued db (map im_ID ms) /\ classes_agree ms.
Proof. apply mergeConflict_agrees. Qed.

(** * The merge *)

Section MergeTheory.
Variable stamp : time -> string.

Lemma once_ok {A} (m : tx A) db a db' : m (set_deferred false db) = Ok (a, db') -> linked db' -> once m db = Ok (a, set_deferred false db').
Proof. intros Hm Hl. unfold once. rewrite Hm. by rewrite bool_decide_eq_true_2. Qed.

(** What a merge of the instruments [m :: losers] leaves. *)
Record merged (fetchKeyID : option uuid) (m : instrMatch) (losers : list instrMatch) (db : instr_db) (t : writeTarget) (db' : instr_db) : Prop := {
  me_consistent : consistent db';
  me_linked : linked db';
  me_renamed : renamed (im_ID m) (map im_ID losers) db db';
  me_instr : wt_instr t = Some (join_InstrWithCoverage db' [iw_Row (im_instr m)] (iw_Row (im_instr m))) /\ iw_Row (im_instr m) ∈ db_instrs db';
  me_taken : wt_taken t = [];
  me_findings : Forall2 (fun h f => exists detail, f = MkFindingParams FindingKindMerged fetchKeyID None (Some detail)) losers (wt_findings t);
}.

Lemma merge_ok fetchKeyID db ids m losers : tables_ok db -> linked db -> findInstrsByIdentifier db ids = m :: losers ->
  exists t db', merge stamp fetchKeyID (m :: losers) db = Ok (t, db') /\ merged fetchKeyID m losers db t db'.
Proof.
  intros Hok Hl Hms. destruct (matches_spec db ids Hok) as (Hnd & Hsnap & _ & _). rewrite Hms in Hnd, Hsnap.
  inversion Hnd as [|? ? Hni Hnd']; subst. destruct (Hsnap m ltac:(left)) as ([Hm1 Hm2] & Hrow & _ & _).
  assert (im_ID m ∈ instr_ids db) as Hs by (apply list_elem_of_fmap; eauto).
  unfold merge. simpl head. simpl tail. rewrite (tx_bind_ok _ _ db m db) by done.
  set (db1 := set_deferred true db). assert (tables_ok db1) as Hok1 by (destruct Hok; by split).
  rewrite (tx_bind_ok _ _ db tt db1) by by apply statement_deferred.
  destruct (merge_folds stamp m fetchKeyID losers db1 [] (map lr_Currency (ji_Listings (iw_Instr (im_instr m)))))
    as (fs & present & db' & Hrun & Hok' & Hd' & Hl' & Hrn & Hf); try done.
  - intros c. split.
    + intros (x & -> & Hx%Hm1)%list_elem_of_fmap. exists x. destruct Hx. done.
    + intros (x & Hx & He & <-). apply list_elem_of_fmap. exists x. split; [done |]. by apply Hm1.
  - intros h Hh. apply (Hsnap h). by right.
  - rewrite (tx_bind_ok _ _ db1 _ _ Hrun). cbn [app]. rewrite (tx_bind_ok _ _ db' db' db') by done. eexists _, db'. split; [reflexivity |].
    split; [by apply consistent_tables | done | destruct Hrn; by split | | done | done]. simpl. split; [done |]. rewrite (rn_instrs _ _ _ _ Hrn).
    apply elem_of_lfilter. split; [done |]. by apply negb_true_iff, contains_false.
Qed.

End MergeTheory.

(** C34: a merge of the instruments that identifiers find always succeeds, its
    commit included, and keeps every constraint of the tables. The instrument
    created first survives, with a merged finding for each of the others; each
    row that named another instrument names the survivor, on its listing in the
    same currency family; each family and each datasource's coverage of the
    others is the survivor's; and the others are gone. *)
Theorem merge_spec stamp fetchKeyID db ids m losers :
  consistent db -> linked db -> findInstrsByIdentifier db ids = m :: losers ->
  (forall h, h ∈ losers -> in_CreatedAt (iw_Row (im_instr m)) <= in_CreatedAt (iw_Row (im_instr h))) /\
  exists t db', once (merge stamp fetchKeyID (m :: losers)) db = Ok (t, db') /\ merged fetchKeyID m losers db t db'.
Proof.
  intros Hok%consistent_tables Hl Hms. split.
  - destruct (matches_spec db ids Hok) as (_ & _ & _ & Hsort). rewrite Hms in Hsort. inversion Hsort as [|? ? _ Hall]; subst.
    intros h Hh. pose proof (proj1 (Forall_forall _ _) Hall h Hh) as Hle. unfold cmp_le, created_cmp, cmp_on in Hle. by apply Z.compare_le_iff in Hle.
  - assert (tables_ok (set_deferred false db)) as Hok0 by (destruct Hok; by split).
    destruct (merge_ok stamp fetchKeyID (set_deferred false db) ids m losers Hok0 Hl Hms) as (t & db' & Hrun & [H1 H2 H3 H4 H5 H6]).
    exists t, (set_deferred false db'). split; [by apply once_ok |]. split; try done. destruct H3. by split.
Qed.

Lemma renamed_identifier s losers db db' r' : renamed s losers db db' -> r' ∈ db_identifiers db' ->
  exists r, r ∈ db_identifiers db /\ to_Identifier r' = to_Identifier r /\ ir_ID r' = ir_ID r /\
    ir_InstrID r' = rename s losers (ir_InstrID r) /\ family_in db' (ir_ListingID r') = family_in db (ir_ListingID r).
Proof.
  intros Hrn Hr'. assert ((ir_ID r', to_Identifier r', ir_FetchKeyID r', ir_InstrID r', family_in db' (ir_ListingID r')) ∈ identifier_view db') as Hv.
  { apply list_elem_of_fmap. eauto. }
  rewrite (rn_identifiers _ _ _ _ Hrn) in Hv. apply list_elem_of_fmap in Hv as (v & Hv & (r & -> & Hr)%list_elem_of_fmap).
  cbn [rename_identifier] in Hv. exists r. split; [done |]. split; [exact (f_equal (fun v => v.1.1.1.2) Hv) |].
  split; [exact (f_equal (fun v => v.1.1.1.1) Hv) |]. split; [exact (f_equal (fun v => v.1.2) Hv) | exact (f_equal snd Hv)].
Qed.

(** C35: instruments that do not conflict merge into one that is still
    identified by one value of each exclusive type, domain and family, and the
    identifiers that found the several now find the survivor alone. *)
Theorem merge_unites stamp uuid_string fetchKeyID db ids m losers t db' :
  consistent db -> linked db -> findInstrsByIdentifier db ids = m :: losers ->
  (forall h, h ∈ m :: losers -> one_valued db [im_ID h]) -> mergeConflict uuid_string (m :: losers) = None ->
  once (merge stamp fetchKeyID (m :: losers)) db = Ok (t, db') ->
  one_valued db' [im_ID m] /\ exists m', findInstrsByIdentifier db' ids = [m'] /\ im_ID m' = im_ID m.
Proof.
  intros Hc Hl Hms Hone Hno Hrun. pose proof Hc as Hok%consistent_tables.
  destruct (matches_spec db ids Hok) as (Hnd & Hsnap & Hall & _). rewrite Hms in Hnd, Hsnap, Hall.
  assert (tables_ok (set_deferred false db)) as Hok0 by (destruct Hok; by split).
  destruct (merge_ok stamp fetchKeyID (set_deferred false db) ids m losers Hok0 Hl Hms) as (t0 & db1 & Hrun0 & [Hc1 Hl1 Hrn [_ Hin] _ _]).
  pose proof (once_ok _ db t0 db1 Hrun0 Hl1) as Htx. rewrite Hrun in Htx. injection Htx as -> ->.
  assert (forall i, i ∈ map im_ID (m :: losers) -> rename (im_ID m) (map im_ID losers) i = im_ID m) as Hren.
  { intros i [->|Hi]%elem_of_cons; unfold rename; [by case_match | by rewrite (proj2 (contains_true _ _) Hi)]. }
  assert (forall i, rename (im_ID m) (map im_ID losers) i = im_ID m -> i ∈ map im_ID (m :: losers)) as Hren'.
  { intros i. unfold rename. destruct (contains (map im_ID losers) i) eqn:Ei; [intros _; right; by apply contains_true | intros ->; by left]. }
  split.
  - assert (one_valued db (map im_ID (m :: losers))) as Hov.
    { rewrite <- Hms. apply (mergeConflict_agrees uuid_string); try done; [by rewrite Hms | by rewrite Hms]. }
    intros r r' Hr Hr' Hi%list_elem_of_singleton Hi'%list_elem_of_singleton Er Er' Ht Hd Hf.
    destruct (renamed_identifier _ _ _ _ r Hrn Hr) as (x & Hx & Hxn & _ & Hxi & Hxf).
    destruct (renamed_identifier _ _ _ _ r' Hrn Hr') as (x' & Hx' & Hxn' & _ & Hxi' & Hxf').
    rewrite Hxn in Er. rewrite Hxn' in Er'.
    assert (ir_Type r = ir_Type x) as Et by exact (f_equal id_Type Hxn). assert (ir_Type r' = ir_Type x') as Et' by exact (f_equal id_Type Hxn').
    assert (ir_Domain r = ir_Domain x) as Ed by exact (f_equal id_Domain Hxn). assert (ir_Domain r' = ir_Domain x') as Ed' by exact (f_equal id_Domain Hxn').
    assert (ir_Value r = ir_Value x) as -> by exact (f_equal id_Value Hxn). assert (ir_Value r' = ir_Value x') as -> by exact (f_equal id_Value Hxn').
    change (family_in db1 (ir_ListingID r) = family_in db1 (ir_ListingID r')) in Hf.
    apply Hov; try done; try (apply Hren'); try congruence.
    change (family_in (set_deferred false db) (ir_ListingID x) = family_in (set_deferred false db) (ir_ListingID x')). congruence.
  - set (db' := set_deferred false db1).
    assert (tables_ok db') as Hok' by (apply consistent_tables in Hc1; destruct Hc1; by split).
    destruct (matches_spec db' ids Hok') as (Hnd' & Hsnap' & Hall' & _).
    assert (forall m', m' ∈ findInstrsByIdentifier db' ids -> im_ID m' = im_ID m) as Hsame.
    { intros m' Hm'. destruct (Hsnap' m' Hm') as (_ & _ & Hne & Hmt). destruct (im_matched m') as [|id l'] eqn:Eid; [done |].
      destruct (proj1 (Hmt id) ltac:(by left)) as (Hid & r' & Hr' & <- & Hri).
      destruct (renamed_identifier _ _ _ _ r' Hrn Hr') as (r & Hr & Hn & _ & Hi & _). rewrite <- Hri, Hi. apply Hren.
      rewrite Hn in Hid. destruct (Hall r Hr Hid) as (h & Hh & <-). apply list_elem_of_fmap. eauto. }
    destruct (Hsnap m ltac:(by left)) as (_ & _ & Hne & Hmt). destruct (im_matched m) as [|id l'] eqn:Eid; [done |].
    destruct (proj1 (Hmt id) ltac:(by left)) as (Hid & r & Hr & <- & Hri).
    assert (exists r', r' ∈ db_identifiers db' /\ to_Identifier r' = to_Identifier r) as (r' & Hr' & Hn').
    { assert ((ir_ID r, to_Identifier r, ir_FetchKeyID r, rename (im_ID m) (map im_ID losers) (ir_InstrID r), family_in db (ir_ListingID r)) ∈ identifier_view db') as Hv.
      { change (identifier_view db') with (identifier_view db1). rewrite (rn_identifiers _ _ _ _ Hrn). apply list_elem_of_fmap.
        exists (ir_ID r, to_Identifier r, ir_FetchKeyID r, ir_InstrID r, family_in db (ir_ListingID r)). split; [done |]. apply list_elem_of_fmap. eauto. }
      apply list_elem_of_fmap in Hv as (r' & Hv & Hr'). exists r'. split; [done |]. symmetry. exact (f_equal (fun v => v.1.1.1.2) Hv). }
    destruct (Hall' r' Hr') as (m' & Hm' & _); [by rewrite Hn' |]. exists m'. split; [| by apply Hsame].
    destruct (findInstrsByIdentifier db' ids) as [|a [|b rest]]; [by apply elem_of_nil in Hm' | by apply list_elem_of_singleton in Hm' as -> |].
    exfalso. simpl in Hnd'. inversion Hnd' as [|? ? Hn _]; subst. apply Hn. rewrite (Hsame a), <- (Hsame b); [by left | right; by left | by left].
Qed.

(** * A concrete merge *)

Module Example.

Definition key (id instr listing via : uuid) : StatedKeyRow :=
  MkStatedKeyRow (MkStatedKey id 90 None None [] (Some instr) None None None) (Some listing) (Some via) None (Some ArbiterStated).

(** One instrument known by its ISIN and another by its CUSIP, each with a
    listing in dollars, and a key that names the second on its listing in
    euros. *)
Definition db : instr_db := {|
  db_instrs := [MkInstrRow 2 AssetClassStock 7 (Some 50%N); MkInstrRow 1 AssetClassEquity 5 (Some 50%N)];
  db_listings := [MkInstrListing 11 1 "USD" None (Some 50%N); MkInstrListing 12 2 "USD" (Some "XNAS"%string) None; MkInstrListing 13 2 "EUR" None None];
  db_identifiers := [
    MkIdentifierRow 21 1 None IdentifierTypeIsin "" "US0378331005" (Some 50%N);
    MkIdentifierRow 22 2 None IdentifierTypeCusip "" "037833100" None;
    MkIdentifierRow 23 2 (Some 12%N) IdentifierTypeOpenfigiComposite "" "BBG000B9XRY4" None;
    MkIdentifierRow 24 2 (Some 13%N) IdentifierTypeSedol "" "B0YQ5W0" None];
  db_stated := [key 31 2 13 24; key 32 1 11 21];
  db_fetch := {[50%N := (Some 90%N, Some 2%N)]};
  db_coverage := [MkIdentityCoverageRow 1 "openfigi" 50; MkIdentityCoverageRow 2 "openfigi" 50; MkIdentityCoverageRow 2 "eodhd" 50];
  db_validity := MkValidityDB [MkTickerRow 41 "us" "AAPL"] [MkAssertionRow 61 (Some 50%N) None 41 "us" (Some 2%N) 0 10 false false None None] [] ∅ ∅ ∅ [] [];
  db_findings := [];
  db_resolutions := [];
  db_families := ["USD"; "EUR"];
  db_codes := ["USD"; "EUR"];
  db_next := 100;
  db_now := 9;
  db_deferred := false;
|}.

Definition asked : list Identifier := [MkIdentifier IdentifierTypeCusip "" "037833100"; MkIdentifier IdentifierTypeIsin "" "US0378331005"].

Definition ms : list instrMatch := findInstrsByIdentifier db asked.
Definition m : instrMatch := default (MkMatch (join_InstrWithCoverage db [] (MkInstrRow 0 AssetClassNone 0 None)) []) (head ms).

Definition run : res write_error (writeTarget * instr_db) := once (merge (fun _ => "then"%string) (Some 50%N) ms) db.
Definition after : instr_db := match run with Ok (_, d) => d | Err _ => db end.
Definition target : writeTarget := match run with Ok (t, _) => t | Err _ => MkTarget None [] [] end.

(** The earlier instrument takes the later's listing in euros and its
    identifiers. *)
Example merged_rows : (map in_ID (db_instrs after), map (fun l => (lr_ID l, lr_InstrID l)) (db_listings after),
    map (fun r => (ir_ID r, ir_InstrID r, ir_ListingID r)) (db_identifiers after), map ks_ListingID (db_stated after))
  = ([1%N], [(11%N, 1%N); (13%N, 1%N)],
     [(21%N, 1%N, None); (22%N, 1%N, None); (23%N, 1%N, Some 11%N); (24%N, 1%N, Some 13%N)], [Some 13%N; Some 11%N]).
Proof. vm_compute. reflexivity. Qed.

Lemma db_ok : consistent db /\ linked db.
Proof. split; refine (bool_decide_unpack _ _); vm_compute; exact I. Qed.

Lemma ms_eq : findInstrsByIdentifier db asked = m :: tail ms.
Proof. vm_compute. reflexivity. Qed.

Lemma run_eq : once (merge (fun _ => "then"%string) (Some 50%N) (m :: tail ms)) db = Ok (target, after).
Proof. vm_compute. reflexivity. Qed.

#[export] Instance one_valued_dec d insts : Decision (one_valued d insts).
Proof.
  destruct (decide (Forall (fun r => Forall (fun r' => ir_InstrID r ∈ insts -> ir_InstrID r' ∈ insts ->
    Exclusive (to_Identifier r) = true -> Exclusive (to_Identifier r') = true -> ir_Type r = ir_Type r' -> ir_Domain r = ir_Domain r' ->
    family_in d (ir_ListingID r) = family_in d (ir_ListingID r') -> ir_Value r = ir_Value r') (db_identifiers d)) (db_identifiers d))) as [H|H]; [left | right];
    [intros r r' Hr Hr'; by apply (proj1 (Forall_forall _ _) (proj1 (Forall_forall _ _) H r Hr)) |].
  intros Hov. apply H. apply Forall_forall. intros r Hr. apply Forall_forall. intros r' Hr'. by apply Hov.
Defined.

Lemma ms_one : forall h, h ∈ ms -> one_valued db [im_ID h].
Proof. apply Forall_forall. refine (bool_decide_unpack _ _). vm_compute. exact I. Qed.

End Example.

Lemma mergeConflict_spec_witness : mergeConflict (fun _ => "id"%string) Example.ms = None /\ one_valued Example.db (map im_ID Example.ms).
Proof.
  assert (mergeConflict (fun _ => "id"%string) Example.ms = None) as Hnone by (vm_compute; reflexivity). split; [exact Hnone |].
  apply (mergeConflict_spec (fun _ => "id"%string) Example.db Example.asked); [apply Example.db_ok | apply Example.db_ok | exact Example.ms_one | exact Hnone].
Defined.

Lemma merge_spec_witness : exists t d, once (merge (fun _ => "then"%string) (Some 50%N) (Example.m :: tail Example.ms)) Example.db = Ok (t, d) /\ consistent d.
Proof.
  destruct (merge_spec (fun _ => "then"%string) (Some 50%N) Example.db Example.asked Example.m (tail Example.ms)) as [_ (t & d & Hrun & [Hc _ _ _ _ _])];
    [apply Example.db_ok | apply Example.db_ok | exact Example.ms_eq |].
  exists t, d. split; [exact Hrun | exact Hc].
Defined.

Lemma merge_unites_witness : exists m', findInstrsByIdentifier Example.after Example.asked = [m'] /\ im_ID m' = 1%N.
Proof.
  destruct (merge_unites (fun _ => "then"%string) (fun _ => "id"%string) (Some 50%N) Example.db Example.asked Example.m (tail Example.ms) Example.target Example.after)
    as [_ (m' & Hm & Hid)]; [apply Example.db_ok | apply Example.db_ok | exact Example.ms_eq | exact Example.ms_one | vm_compute; reflexivity | exact Example.run_eq |].
  exists m'. split; [exact Hm | exact Hid].
Defined.
