(* ===== verification/Record.v ===== *)
(** Recording the facts of tickers, [record.go] of
    [server/internal/identity/tickervalidity]: the assertions and the coverage a
    fetch answered, the instruments they name, and the attestations of an
    administrator. *)
From S2P Require Import Prelude Types Period Facts Winners Derive Bounds Rows Mic Tickers Calendar Validity ValidityStore Market Resolution InstrStore.

(** * Facts a datasource answers, [market/identifier_facts.go] *)

Record IdentifierFactRequest : Type := MkFactRequest {
  fq_Identifier : Identifier;
  fq_Period : Period;
}.

(** [market.Assertion]. *)
Record MarketAssertion : Type := MkMarketAssertion {
  ma_Ticker : MarketTicker;
  ma_Of : MarketListing;
  ma_Negative : bool;
  ma_Period : Period;
  ma_EdgeFrom : bool;
  ma_EdgeBefore : bool;
}.

(** [market.AssertionCoverage]. *)
Record MarketCoverage : Type := MkMarketCoverage {
  mc_Ticker : MarketTicker;
  mc_Period : Period;
}.

Record IdentifierFactResult : Type := MkFactResult {
  fs_Assertions : list MarketAssertion;
  fs_AssertionCoverage : list MarketCoverage;
}.

Definition fact_Tickers (r : IdentifierFactResult) : list MarketTicker := map ma_Ticker (fs_Assertions r) ++ map mc_Ticker (fs_AssertionCoverage r).

Abbreviation factKey := (FetchKey IdentifierFactRequest IdentifierFactResult) (only parsing).

(** * Recording, [record.go] *)

Definition served (k : factKey) : bool := bool_decide (fk_Outcome k = FetchOutcomeServed).

(** [RecordTickers]. *)
Definition RecordTickers (db : ticker_table) (mics : MICMap) (keys : list factKey) : ticker_table * res get_error (gmap MarketTicker TickerRow) :=
  Tickers.Get db mics (concat (map (fun k => if served k then fact_Tickers (fk_Response k) else []) keys)).

(** The identifiers [Record] locks. *)
Definition stable_ids (keys : list factKey) : list Identifier :=
  foldl append_unique [] (concat (map (fun k => if served k
    then List.filter Stable (concat (map (fun a => ml_Identifiers (ma_Of a)) (fs_Assertions (fk_Response k)))) else []) keys)).

(** [assert], with the pointers of [Stated] to nothing where it is empty. *)
Definition assert_row (id key : uuid) (t : TickerRow) (instr : option uuid) (p : Period) (edgeFrom edgeBefore : bool) (s : Stated) : AssertionRow :=
  MkAssertionRow id (Some key) None (tk_ID t) (tk_Market t) instr (p_From p) (p_Before p) edgeFrom edgeBefore (nullif (st_Venue s)) (nullif (st_Currency s)).

Definition assert (key : uuid) (t : TickerRow) (instr : option uuid) (p : Period) (edgeFrom edgeBefore : bool) (s : Stated) : tx unit :=
  id ← NewID; CreateIdentifierAssertion (assert_row id key t instr p edgeFrom edgeBefore s).

Definition AssertInstr (key : uuid) (t : TickerRow) (instr : option uuid) (at_ : time) (s : Stated) : tx unit :=
  assert key t instr (OneDay at_) false false s.

(** [StoredInstr]. *)
Fixpoint StoredInstr (db : instr_db) (ids : list Identifier) : option uuid :=
  match ids with
  | [] => None
  | id :: ids' =>
      if negb (Stable id) then StoredInstr db ids'
      else match FindIdentifier db id with
           | Some (_, i) => Some (in_ID i)
           | None => StoredInstr db ids'
           end
  end.

(** The loop of [create] over the identifiers [kept]. *)
Definition create_identifier (key instr : uuid) (listing : option uuid) (id : Identifier) : tx unit :=
  new ← NewID;
  CreateIdentifier new instr (if bool_decide (Grain id = IdentifierGrainListing) then listing else None) id (Some key);;
  mret tt.

Definition kept_ids (family : string) (stable : list Identifier) : list Identifier :=
  List.filter (fun id => bool_decide (Grain id = IdentifierGrainInstr) || negb (bool_decide (family = ""%string))) stable.

Definition create (family : string) (key : uuid) (a : MarketAssertion) (stable : list Identifier) : tx (option uuid) :=
  match kept_ids family stable with
  | [] => mret None
  | kept =>
      let class := if bool_decide (ml_Class (ma_Of a) = AssetClassNone) then AssetClassUnknown else ml_Class (ma_Of a) in
      new ← NewID;
      instr ← CreateInstr new class (Some key);
      listing ← (if bool_decide (family = ""%string) then mret None
                 else id ← NewID; row ← CreateListing id (in_ID instr) family (Some key) None; mret (Some (lr_ID row)));
      tx_each (create_identifier key (in_ID instr) listing) kept;;
      mret (Some (in_ID instr))
  end.

Definition instrOf (families : Families) (key : uuid) (a : MarketAssertion) : tx (option uuid) :=
  match List.filter Stable (ml_Identifiers (ma_Of a)) with
  | [] => mret None
  | stable =>
      db ← tx_get;
      match StoredInstr db stable with
      | Some i => mret (Some i)
      | None => create (Family families (ml_Currency (ma_Of a))) key a stable
      end
  end.

Definition assertFact (families : Families) (key : uuid) (t : TickerRow) (a : MarketAssertion) : tx unit :=
  if ma_Negative a then assert key t None (ma_Period a) (ma_EdgeFrom a) (ma_EdgeBefore a) (MkStated "" "")
  else
    instr ← instrOf families key a;
    match instr with
    | None => mret tt
    | Some i => assert key t (Some i) (ma_Period a) (ma_EdgeFrom a) (ma_EdgeBefore a) (MkStated "" "")
    end.

(** The closure [row]. *)
Definition ticker_row (rows : gmap MarketTicker TickerRow) (t : MarketTicker) : tx TickerRow :=
  match rows !! t with Some r => mret r | None => tx_fail (ErrOther "ticker has no row") end.

Definition record_coverage (rows : gmap MarketTicker TickerRow) (key : uuid) (p : MarketCoverage) : tx unit :=
  t ← ticker_row rows (mc_Ticker p);
  id ← NewID;
  CreateIdentifierAssertionCoverage (MkCoverageRow id key (tk_Market t) (tk_ID t) (p_From (mc_Period p)) (p_Before (mc_Period p))).

Definition record_assertion (families : Families) (rows : gmap MarketTicker TickerRow) (key : uuid) (a : MarketAssertion) : tx unit :=
  t ← ticker_row rows (ma_Ticker a); assertFact families key t a.

(** [record]. *)
Definition record_facts (families : Families) (rows : gmap MarketTicker TickerRow) (key : uuid) (r : IdentifierFactResult) : tx unit :=
  tx_each (record_assertion families rows key) (fs_Assertions r);;
  tx_each (record_coverage rows key) (fs_AssertionCoverage r).

(** [Rebuild] in a transaction: its statements check the constraints too. *)
Definition tx_Rebuild (locked : Locked) : tx unit := fun db =>
  match Rebuild (db_validity db) locked with
  | Some v => statement (set_validity_db (fun _ => v)) db
  | None => Err ErrConstraint
  end.

(** [Record]. The map [rows] is read as the list of its values. *)
Definition RecordFacts (families : Families) (rows : gmap MarketTicker TickerRow) (keys : list factKey) : tx unit :=
  db ← tx_get;
  let locked := Tickers.Lock (vd_tickers (db_validity db)) (map (fun tr => tk_ID tr.2) (map_to_list rows)) in
  tx_each (fun k => if served k then record_facts families rows (fk_ID k) (fk_Response k) else mret tt) keys;;
  tx_Rebuild locked.

(** * Attesting *)

Inductive attest_error : Type :=
| AttestSpelling (e : spelling_error)
| ErrFuture.

Definition CheckAttest (mics : MICMap) (t : MarketTicker) (on today : time) : res attest_error unit :=
  match Spelled mics t with
  | Err e => Err (AttestSpelling e)
  | Ok _ => if Day today <? Day on then Err ErrFuture else Ok tt
  end.

(** The kind and the user of a run, as [Attest] reads them. *)
Record AttestRun : Type := MkAttestRun {
  ar_ID : uuid;
  ar_AttestIdentifier : bool;
  ar_UserID : option uuid;
}.

Definition CreateIdentifierAttestation (id run : uuid) (t : TickerRow) (instr : option uuid) (p : Period) : tx unit :=
  CreateIdentifierAssertion (MkAssertionRow id None (Some run) (tk_ID t) (tk_Market t) instr (p_From p) (p_Before p) false false None None).

Definition Attest (mics : MICMap) (run : AttestRun) (t : TickerRow) (instr : option uuid) (p : Period) (today : time) : tx unit :=
  if negb (ar_AttestIdentifier run) || negb (bool_decide (ar_UserID run = None)) then tx_fail (ErrOther "not a system attest identifier run")
  else match CheckAttest mics (ticker_of t) (AddDays (p_Before p) (-1)) today with
       | Err (AttestSpelling _) => tx_fail (ErrOther "spelling")
       | Err ErrFuture => tx_fail (ErrOther "an identifier attestation cannot reach past the day it is made")
       | Ok _ => id ← NewID; CreateIdentifierAttestation id (ar_ID run) t instr p
       end.

(** * The instrument an assertion names *)

Lemma FindIdentifier_Some db id r i : tables_ok db ->
  FindIdentifier db id = Some (r, i) <-> r ∈ db_identifiers db /\ to_Identifier r = id /\ i ∈ db_instrs db /\ in_ID i = ir_InstrID r.
Proof.
  intros Hok. unfold FindIdentifier. split.
  - destruct (find_func _ (db_identifiers db)) as [r'|] eqn:Er; simpl; [| done]. apply find_func_Some in Er as [Hr He%bool_decide_eq_true].
    destruct (find_func _ (db_instrs db)) as [i'|] eqn:Ei; simpl; [| done]. apply find_func_Some in Ei as [Hi Hie%bool_decide_eq_true].
    intros [= <- <-]. done.
  - intros (Hr & <- & Hi & He). rewrite (find_key to_Identifier _ r (ok_identifier_key _ Hok) Hr). cbn [mbind option_bind]. rewrite <- He.
    by rewrite (find_key in_ID _ i (ok_instr_ID _ Hok) Hi).
Qed.

Lemma FindIdentifier_None db id : tables_ok db -> FindIdentifier db id = None <-> forall r, r ∈ db_identifiers db -> to_Identifier r <> id.
Proof.
  intros Hok. split.
  - intros Hn r Hr He. pose proof (proj1 (Forall_forall _ _) (ok_identifier _ Hok) r Hr) as (Hi & _).
    apply list_elem_of_fmap in Hi as (i & He' & Hi). assert (FindIdentifier db id = Some (r, i)) as Hs by (by apply FindIdentifier_Some). congruence.
  - intros Hn. destruct (FindIdentifier db id) as [[r i]|] eqn:Ef; [| done]. apply FindIdentifier_Some in Ef as (Hr & He & _); [| done]. by destruct (Hn r).
Qed.

Lemma StoredInstr_None db ids : (forall id, id ∈ ids -> Stable id = true) -> StoredInstr db ids = None <-> forall id, id ∈ ids -> FindIdentifier db id = None.
Proof.
  induction ids as [|id ids IH]; intros Hst; simpl; [split; [by intros _ ? ?%elem_of_nil | done] |].
  rewrite (Hst id) by by left. simpl. destruct (FindIdentifier db id) as [[r i]|] eqn:Ef.
  - split; [done |]. intros Hn. by rewrite (Hn id) in Ef by by left.
  - rewrite IH by (intros; apply Hst; by right). split; [intros Hn id' [->|Hi]%elem_of_cons; auto | intros Hn id' Hi; apply Hn; by right].
Qed.

(** An instrument that carries every identifier of [ids] that is stored. *)
Lemma StoredInstr_all db ids i : (forall id, id ∈ ids -> Stable id = true) ->
  (forall id r j, id ∈ ids -> FindIdentifier db id = Some (r, j) -> in_ID j = i) ->
  (exists id, id ∈ ids /\ FindIdentifier db id <> None) -> StoredInstr db ids = Some i.
Proof.
  induction ids as [|id ids IH]; intros Hst Hall (x & Hx & Hs); [by apply elem_of_nil in Hx |]. simpl. rewrite (Hst id) by by left. simpl.
  destruct (FindIdentifier db id) as [[r j]|] eqn:Ef.
  - f_equal. by eapply (Hall id); [left |].
  - apply IH; [intros; apply Hst; by right | intros; eapply Hall; [by right | done] |].
    apply elem_of_cons in Hx as [->|Hx]; [done | eauto].
Qed.

Lemma Stable_not_ticker id : Stable id = true -> id_Type id <> IdentifierTypeMicTicker /\ id_Type id <> IdentifierTypeDatasourceTicker.
Proof. unfold Stable. destruct id as [[] d v]; done. Qed.

(** The rows of the loop of [create]. *)
Lemma create_identifiers_ok key instr listing ids : forall db,
  writable db -> instr ∈ instr_ids db -> listing_of_instr db listing (Some instr) -> is_Some (db_fetch db !! key) ->
  NoDup ids -> (forall id, id ∈ ids -> Stable id = true /\ (Grain id = IdentifierGrainListing -> is_Some listing) /\
    forall r, r ∈ db_identifiers db -> to_Identifier r <> id) ->
  exists n rows, let db' := set_next n (set_identifiers (fun l => l ++ rows) db) in
    tx_each (create_identifier key instr listing) ids db = Ok (tt, db') /\ writable db' /\
    Forall2 (fun id r => to_Identifier r = id /\ ir_InstrID r = instr /\
      ir_ListingID r = if bool_decide (Grain id = IdentifierGrainListing) then listing else None) ids rows.
Proof.
  unfold tx_each. induction ids as [|id ids IH]; intros db Hw Hi Hl Hk Hnd Hids.
  { exists (db_next db), []. assert (set_next (db_next db) (set_identifiers (fun l => l ++ []) db) = db) as ->; [| done].
    destruct db. unfold set_identifiers, set_next. simpl. by rewrite app_nil_r. }
  inversion Hnd as [|? ? Hni Hnd']; subst. destruct (Hids id ltac:(by left)) as (Hst & Hg & Hnew). destruct (Stable_not_ticker id Hst) as [Ht1 Ht2].
  destruct (NewID_ok db Hw) as (Hid & Hw1 & Hf1). set (db1 := set_next _ db) in *.
  set (l := if bool_decide (Grain id = IdentifierGrainListing) then listing else None).
  destruct (CreateIdentifier_ok db1 Hw1 (db_next db) instr l id (Some key) Hf1 Hi) as (Hc & Hw2 & _); try done.
  { unfold l. by case_bool_decide. }
  { unfold l. case_bool_decide as Hgr; [destruct (Hg Hgr) as [? ->]; done | by destruct (Grain id)]. }
  set (row := MkIdentifierRow _ _ _ _ _ _ _) in *. set (db2 := set_identifiers _ db1) in *.
  destruct (IH db2 Hw2) as (n & rows & Hrun & Hw3 & Hf2); try done.
  { intros id' Hid'. destruct (Hids id') as (H1 & H2 & H3); [by right |]. split; [done |]. split; [done |].
    intros r [Hr| ->%list_elem_of_singleton]%elem_of_app; [by apply H3 |]. assert (to_Identifier row = id) as -> by by destruct id. by intros ->. }
  assert (set_next n (set_identifiers (fun l => l ++ row :: rows) db) = set_next n (set_identifiers (fun l => l ++ rows) db2)) as Heq.
  { unfold db2, db1, set_identifiers, set_next. simpl. by rewrite <- app_assoc. }
  exists n, (row :: rows). cbv zeta. rewrite Heq. split; [| split; [done | constructor; [| done]]].
  - cbn [tx_fold]. rewrite (tx_bind_ok _ _ db tt db2); [done |]. unfold create_identifier. rewrite (tx_bind_ok _ _ db _ _ Hid).
    by rewrite (tx_bind_ok _ _ db1 _ _ Hc).
  - split; [by destruct id |]. done.
Qed.

(** The listing of a family that [create] writes, where there is one. *)
Definition create_listing (family : string) (key instr : uuid) : tx (option uuid) :=
  if bool_decide (family = ""%string) then mret None
  else id ← NewID; row ← CreateListing id instr family (Some key) None; mret (Some (lr_ID row)).

Lemma create_listing_ok family key instr db : writable db -> instr ∈ instr_ids db -> (family = ""%string \/ family ∈ db_families db) ->
  is_Some (db_fetch db !! key) -> (forall x, x ∈ db_listings db -> lr_InstrID x <> instr) ->
  exists n ls listing, let db' := set_next n (set_listings (fun l => l ++ ls) db) in
    create_listing family key instr db = Ok (listing, db') /\ writable db' /\ listing_of_instr db' listing (Some instr) /\
    (listing = None <-> family = ""%string) /\ Forall (fun x => lr_InstrID x = instr /\ lr_Currency x = family /\ listing = Some (lr_ID x)) ls.
Proof.
  intros Hw Hi Hfam Hk Hnew. unfold create_listing. case_bool_decide as Hf.
  - exists (db_next db), [], None. assert (set_next (db_next db) (set_listings (fun l => l ++ []) db) = db) as ->; [| done].
    destruct db. unfold set_listings, set_next. simpl. by rewrite app_nil_r.
  - destruct Hfam as [?|Hfam]; [done |]. destruct (NewID_ok db Hw) as (Hid & Hw1 & Hf1). set (db1 := set_next _ db) in *.
    destruct (CreateListing_ok db1 Hw1 (db_next db) instr family (Some key) None Hf1 Hi Hfam Hk) as (Hc & Hw2 & _).
    { intros x Hx He. by destruct (Hnew x Hx). }
    set (row := MkInstrListing _ _ _ _ _) in *. exists (db_next db1), [row], (Some (lr_ID row)). cbv zeta. split; [| split; [exact Hw2 | split; [| split]]].
    + rewrite (tx_bind_ok _ _ db _ _ Hid). by rewrite (tx_bind_ok _ _ db1 _ _ Hc).
    + simpl. rewrite map_app. apply elem_of_app. right. by left.
    + done.
    + by apply Forall_singleton.
Qed.

(** What creating an instrument leaves alone. *)
Record grown (db db' : instr_db) : Prop := {
  gw_refs : refs_kept db db';
  gw_identifiers : db_identifiers db ⊆ db_identifiers db';
  gw_validity : db_validity db' = db_validity db;
  gw_fetch : db_fetch db' = db_fetch db;
  gw_stated : db_stated db' = db_stated db;
  gw_coverage : db_coverage db' = db_coverage db;
  gw_findings : db_findings db' = db_findings db;
  gw_resolutions : db_resolutions db' = db_resolutions db;
}.

Lemma grown_refl db : grown db db.
Proof. by repeat split. Qed.

Lemma create_ok family key a stable db : writable db -> (family = ""%string \/ family ∈ db_families db) -> is_Some (db_fetch db !! key) ->
  NoDup stable -> (forall id, id ∈ stable -> Stable id = true /\ FindIdentifier db id = None) -> kept_ids family stable <> [] ->
  exists i db', create family key a stable db = Ok (Some i, db') /\ writable db' /\ i ∉ instr_ids db /\ i ∈ instr_ids db' /\
    grown db db' /\
    exists rows, db_identifiers db' = db_identifiers db ++ rows /\
      Forall2 (fun id r => to_Identifier r = id /\ ir_InstrID r = i /\
        family_in db' (ir_ListingID r) = if bool_decide (Grain id = IdentifierGrainListing) then Some family else None) (kept_ids family stable) rows.
Proof.
  intros Hw Hfam Hk Hnd Hst Hkept. unfold create. set (kept := kept_ids family stable) in *.
  assert (forall id, id ∈ kept -> id ∈ stable /\ (Grain id = IdentifierGrainInstr \/ family <> ""%string)) as Hin.
  { intros id [Hid Hb]%elem_of_lfilter. split; [done |]. apply orb_true_iff in Hb as [?%bool_decide_eq_true|?%negb_true_iff%bool_decide_eq_false]; auto. }
  assert (NoDup kept) as Hndk by by apply NoDup_lfilter.
  destruct kept as [|id0 kept0] eqn:Ek; [done |]. rewrite <- Ek in *. cbv beta iota zeta.
  set (class := if bool_decide _ then _ else _). destruct (NewID_ok db Hw) as (Hid & Hw1 & Hf1). set (db1 := set_next _ db) in *.
  destruct (CreateInstr_ok db1 Hw1 (db_next db) class (Some key) Hf1 Hk) as (Hc & Hw2 & _). set (row := MkInstrRow _ _ _ _) in *. set (db2 := set_instrs _ db1) in *.
  assert (in_ID row ∈ instr_ids db2) as Hi2 by (unfold instr_ids; simpl; rewrite map_app; apply elem_of_app; right; by left).
  assert (in_ID row ∉ instr_ids db) as Hfresh by (apply (fresh_instr db1 (db_next db) Hf1)).
  assert (forall x, x ∈ db_listings db2 -> lr_InstrID x <> in_ID row) as Hnl.
  { intros x Hx He. pose proof (proj1 (Forall_forall _ _) (ok_listing _ (wb_ok _ Hw)) x Hx) as (Hxi & _). rewrite He in Hxi. done. }
  destruct (create_listing_ok family key (in_ID row) db2 Hw2 Hi2 Hfam Hk Hnl) as (n3 & ls & listing & Hl & Hw3 & Hli & Hln & Hls). set (db3 := set_next n3 _) in *.
  destruct (create_identifiers_ok key (in_ID row) listing kept db3 Hw3 Hi2 Hli Hk Hndk) as (n4 & rows & Hrun & Hw4 & Hrows).
  { intros id Hidk. destruct (Hin id Hidk) as [Hids Hg]. destruct (Hst id Hids) as [Hs Hf]. split; [done |]. split.
    - intros Hgl. destruct listing as [l|]; [by eexists |]. destruct Hg as [Hg|Hg]; [congruence |]. by rewrite (proj1 Hln) in Hg.
    - by apply (FindIdentifier_None db id (wb_ok _ Hw)). }
  set (db4 := set_next n4 _) in *. exists (in_ID row), db4. split.
  { rewrite Ek. rewrite <- Ek. rewrite (tx_bind_ok _ _ db _ _ Hid), (tx_bind_ok _ _ db1 _ _ Hc).
    change (if bool_decide (family = ""%string) then mret None else _) with (create_listing family key (in_ID row)).
    rewrite (tx_bind_ok _ _ db2 _ _ Hl). by rewrite (tx_bind_ok _ _ db3 _ _ Hrun). }
  split; [exact Hw4 |]. split; [exact Hfresh |]. split; [exact Hi2 |]. split.
  { split; try done; [split; try done |]; intros x Hx; simpl.
    - change (x ∈ instr_ids db2). unfold instr_ids. simpl. rewrite map_app. apply elem_of_app. by left.
    - unfold listing_ids. simpl. rewrite map_app. apply elem_of_app. by left.
    - rewrite map_app. apply elem_of_app. by left.
    - apply elem_of_app. by left. }
  exists rows. split; [done |]. apply Forall2_same_length_lookup_2; [by eapply Forall2_length |]. intros j id r Hj Hr.
  destruct (Forall2_lookup_lr _ _ _ _ _ _ Hrows Hj Hr) as (H1 & H2 & H3). split; [done |]. split; [done |]. rewrite H3.
  case_bool_decide as Hgr; [| done]. destruct (Hin id) as [_ Hg]; [by eapply list_elem_of_lookup_2 |].
  destruct listing as [l|]; [| destruct Hg as [Hg|Hg]; [congruence | by rewrite (proj1 Hln) in Hg]]. simpl in Hli.
  apply list_elem_of_fmap in Hli as (x & [= -> Hxi] & Hx). change (family_in db4 (Some (lr_ID x)) = Some family).
  rewrite (family_in_some db4 x (wb_ok _ Hw4)) by exact Hx. f_equal. simpl in Hx. apply elem_of_app in Hx as [Hx|Hx]; [by destruct (Hnl x Hx) |].
  by apply (proj1 (Forall_forall _ _) Hls).
Qed.

(** The families of the table of currencies are those the code holds. *)
Definition families_ok (families : Families) (db : instr_db) : Prop := forall c, Family families c = ""%string \/ Family families c ∈ db_families db.

Lemma instrOf_ok families key a db : writable db -> families_ok families db -> is_Some (db_fetch db !! key) ->
  let stable := List.filter Stable (ml_Identifiers (ma_Of a)) in
  let kept := kept_ids (Family families (ml_Currency (ma_Of a))) stable in
  NoDup stable ->
  exists i db', instrOf families key a db = Ok (i, db') /\ writable db' /\ StoredInstr db' stable = i /\
    grown db db' /\ refers (instr_ids db') i /\
    if decide (StoredInstr db stable = None /\ kept <> [])
    then exists new rows, i = Some new /\ new ∉ instr_ids db /\ db_identifiers db' = db_identifiers db ++ rows /\
      Forall2 (fun id r => to_Identifier r = id /\ ir_InstrID r = new /\
        family_in db' (ir_ListingID r) = if bool_decide (Grain id = IdentifierGrainListing) then Some (Family families (ml_Currency (ma_Of a))) else None) kept rows
    else db' = db /\ i = StoredInstr db stable.
Proof.
  intros Hw Hfam Hk stable kept Hnd.
  assert (forall id, id ∈ stable -> Stable id = true) as Hst by (intros id [_ ?]%elem_of_lfilter; done).
  assert (forall i, StoredInstr db stable = Some i -> i ∈ instr_ids db) as Hin.
  { clear Hnd kept. induction stable as [|id ids IH]; intros i; simpl; [done |]. rewrite (Hst id) by by left. simpl.
    destruct (FindIdentifier db id) as [[r j]|] eqn:Ef; [| apply IH; intros; apply Hst; by right]. intros [= <-].
    apply FindIdentifier_Some in Ef as (_ & _ & Hj & _); [| apply Hw]. apply list_elem_of_fmap. eauto. }
  assert (instrOf families key a db = match StoredInstr db stable with Some i => Ok (Some i, db) | None => create (Family families (ml_Currency (ma_Of a))) key a stable db end) as Hrun.
  { unfold instrOf. fold stable. destruct stable as [|id ids]; [done |]. rewrite (tx_bind_ok _ _ db db db) by done.
    by destruct (StoredInstr db (id :: ids)). }
  rewrite Hrun. destruct (StoredInstr db stable) as [i|] eqn:Es.
  { exists (Some i), db. rewrite decide_False by by intros [? _]. split; [done |]. split; [done |]. split; [done |]. split; [apply grown_refl |]. split; [by apply Hin | done]. }
  rewrite StoredInstr_None in Es by done. destruct (decide (kept = [])) as [Hke|Hke].
  { exists None, db. rewrite decide_False by by intros [_ ?]. unfold create. fold kept. rewrite Hke. split; [done |]. split; [done |].
    split; [by apply StoredInstr_None |]. split; [apply grown_refl | done]. }
  destruct (create_ok (Family families (ml_Currency (ma_Of a))) key a stable db Hw (Hfam _) Hk Hnd) as (new & db' & Hc & Hw' & Hn1 & Hn2 & Hg & rows & Hr1 & Hr2); [by intros id Hid; auto | done |].
  exists (Some new), db'. rewrite decide_True by done. split; [done |]. split; [done |]. split.
  - apply StoredInstr_all; [done | |].
    + intros id r j Hid (Hr & He & Hj & Hij)%FindIdentifier_Some; [| apply Hw']. rewrite Hij. rewrite Hr1 in Hr. apply elem_of_app in Hr as [Hr|Hr].
      * by destruct (proj1 (FindIdentifier_None db id (wb_ok _ Hw)) (Es id Hid) r Hr).
      * apply list_elem_of_lookup in Hr as [n Hn]. by destruct (Forall2_lookup_r _ _ _ _ _ Hr2 Hn) as (x & _ & _ & ? & _).
    + destruct (kept_ids _ stable) as [|id0 ids0] eqn:Ekk; [done |]. inversion Hr2 as [|? r ? rows' (Hr0 & Hi0 & _) _]; subst.
      exists (to_Identifier r). assert (to_Identifier r ∈ kept_ids (Family families (ml_Currency (ma_Of a))) stable) as Hkin by (rewrite Ekk; by left).
      apply elem_of_lfilter in Hkin as [Hkin _]. split; [done |]. intros Hnone. apply (proj1 (FindIdentifier_None db' _ (wb_ok _ Hw')) Hnone r); [| done].
      rewrite Hr1. apply elem_of_app. right. by left.
  - split; [done |]. split; [done |]. exists new, rows. done.
Qed.

(** A positive assertion of a fetched answer is given an instrument without
    a violated constraint, and a later answer that states its stable
    identifiers finds the same one. Where one of them is stored, the tables
    stay as they are and the instrument is that of the first that is. Where
    none is, a new instrument carries exactly the stable identifiers that have
    a place: those of the instrument itself and, where the answer states a
    known currency, those of a listing, on its listing in that family. *)
Theorem instrOf_spec families key a db : writable db -> families_ok families db -> is_Some (db_fetch db !! key) ->
  let stable := List.filter Stable (ml_Identifiers (ma_Of a)) in
  let kept := kept_ids (Family families (ml_Currency (ma_Of a))) stable in
  NoDup stable ->
  exists i db', instrOf families key a db = Ok (i, db') /\ writable db' /\ StoredInstr db' stable = i /\
    if decide (StoredInstr db stable = None /\ kept <> [])
    then exists new rows, i = Some new /\ new ∉ instr_ids db /\ db_identifiers db' = db_identifiers db ++ rows /\
      Forall2 (fun id r => to_Identifier r = id /\ ir_InstrID r = new /\
        family_in db' (ir_ListingID r) = if bool_decide (Grain id = IdentifierGrainListing) then Some (Family families (ml_Currency (ma_Of a))) else None) kept rows
    else db' = db /\ i = StoredInstr db stable.
Proof.
  intros Hw Hfam Hk stable kept Hnd. destruct (instrOf_ok families key a db Hw Hfam Hk Hnd) as (i & db' & H1 & H2 & H3 & _ & _ & H4).
  exists i, db'. done.
Qed.

(** * A concrete answer *)

Module Example.

(** One instrument with an ISIN, and an answer that states a CUSIP and a SEDOL
    in pence. *)
Definition db : instr_db := {|
  db_instrs := [MkInstrRow 1 AssetClassStock 5 (Some 50%N)];
  db_listings := [MkInstrListing 11 1 "USD" None (Some 50%N)];
  db_identifiers := [MkIdentifierRow 21 1 None IdentifierTypeIsin "" "US0378331005" (Some 50%N)];
  db_stated := [];
  db_fetch := {[50%N := (None, None)]};
  db_coverage := [];
  db_validity := MkValidityDB [MkTickerRow 41 "us" "AAPL"] [] [] ∅ ∅ ∅ [] [];
  db_findings := [];
  db_resolutions := [];
  db_families := ["USD"; "GBP"];
  db_codes := ["USD"; "GBP"; "GBX"];
  db_next := 100;
  db_now := 9;
  db_deferred := false;
|}.

Definition families : Families := {["USD" := "USD"; "GBP" := "GBP"; "GBX" := "GBP"]}.

Definition cusip : Identifier := MkIdentifier IdentifierTypeCusip "" "037833100".
Definition sedol : Identifier := MkIdentifier IdentifierTypeSedol "" "B0YQ5W0".

Definition a : MarketAssertion :=
  MkMarketAssertion (MkMarketTicker "us" "AAPL") (MkMarketListing [cusip; sedol] AssetClassStock "GBX" "") false (MkPeriod 0 864000000000000) false false.

Lemma example_writable : writable db.
Proof.
  assert (consistent db /\ linked db /\ Forall (fun i => (i < db_next db)%N) (row_ids db)) as (Hc & Hl & Hm).
  { refine (bool_decide_unpack _ _). vm_compute. exact I. }
  split; [by apply consistent_tables | done |]. intros i Hi. by apply (proj1 (Forall_forall _ _) Hm).
Qed.

Lemma example_families : families_ok families db.
Proof.
  intros c. unfold Family. destruct (families !! c) as [f|] eqn:Ef; [right | by left]. simpl.
  assert (map_Forall (fun _ f => f ∈ db_families db) families) as Hall by (refine (bool_decide_unpack _ _); vm_compute; exact I).
  by apply (Hall c).
Qed.

End Example.

Lemma instrOf_spec_witness : exists i db', instrOf Example.families 50%N Example.a Example.db = Ok (Some i, db') /\ writable db' /\
  StoredInstr db' [Example.sedol] = Some i.
Proof.
  destruct (instrOf_spec Example.families 50%N Example.a Example.db) as (i & db' & Hrun & Hw & Hst & Hif).
  - exact Example.example_writable.
  - exact Example.example_families.
  - by exists (None, None).
  - refine (bool_decide_unpack _ _). vm_compute. exact I.
  - rewrite decide_True in Hif by (split; [vm_compute; reflexivity | discriminate]). destruct Hif as (new & rows & -> & _ & _ & _).
    exists new, db'. split; [exact Hrun |]. split; [exact Hw |]. revert Hrun. vm_compute. intros [= <- <-]. reflexivity.
Defined.
