(* ===== verification/Statements.v ===== *)
(** The statements of a key's write that keep the constraints of the tables, and
    the triples the write is proved with: what a step of a transaction returns
    and leaves, where it fails with nothing. *)
From S2P Require Import Prelude Types Period Facts Rows Calendar Tickers Validity ValidityStore Market Resolution InstrStore Record.

(** * Triples *)

(** [m] succeeds over [db], with a result and tables that satisfy [P]. *)
Definition yields {A} (m : tx A) (db : instr_db) (P : A -> instr_db -> Prop) : Prop := exists a db', m db = Ok (a, db') /\ P a db'.

Lemma yields_ret {A} (a : A) db (P : A -> instr_db -> Prop) : P a db -> yields (mret a) db P.
Proof. exists a, db. done. Qed.

Lemma yields_bind {A B} (m : tx A) (f : A -> tx B) db (P : A -> instr_db -> Prop) (Q : B -> instr_db -> Prop) :
  yields m db P -> (forall a db', P a db' -> yields (f a) db' Q) -> yields (m ≫= f) db Q.
Proof. intros (a & db' & Hm & HP) Hf. destruct (Hf a db' HP) as (b & db'' & Hb & HQ). exists b, db''. by rewrite (tx_bind_ok _ _ _ _ _ Hm). Qed.

Lemma yields_impl {A} (m : tx A) db (P Q : A -> instr_db -> Prop) : yields m db P -> (forall a db', P a db' -> Q a db') -> yields m db Q.
Proof. intros (a & db' & Hm & HP) HQ. exists a, db'. auto. Qed.

Lemma yields_get {B} (f : instr_db -> tx B) db (Q : B -> instr_db -> Prop) : yields (f db) db Q -> yields (tx_get ≫= f) db Q.
Proof. intros (b & db' & Hf & HQ). exists b, db'. by rewrite (tx_bind_ok _ _ db db db). Qed.

Lemma yields_some {A B} (o : option A) a (f : A -> tx B) db (Q : B -> instr_db -> Prop) : o = Some a -> yields (f a) db Q -> yields (tx_some o ≫= f) db Q.
Proof. intros -> (b & db' & Hf & HQ). exists b, db'. by rewrite (tx_bind_ok _ _ db a db). Qed.

Lemma yields_run {A} (m : tx A) db a db' (P : A -> instr_db -> Prop) : m db = Ok (a, db') -> P a db' -> yields m db P.
Proof. exists a, db'. done. Qed.

(** A loop keeps an invariant of the turns it has made. *)
Lemma yields_fold {A S} (f : S -> A -> tx S) (I : list A -> S -> instr_db -> Prop) l : forall done s db,
  I done s db -> (forall pre x suf s db, done ++ l = pre ++ x :: suf -> I pre s db -> yields (f s x) db (I (pre ++ [x]))) ->
  yields (tx_fold f s l) db (I (done ++ l)).
Proof.
  induction l as [|x l IH]; intros done s db Hs Hstep; simpl.
  { apply yields_ret. by rewrite app_nil_r. }
  apply (yields_bind _ _ _ _ _ (Hstep done x l s db eq_refl Hs)). intros s' db' Hs'.
  replace (done ++ x :: l) with ((done ++ [x]) ++ l) in * by by rewrite <- app_assoc. by apply IH.
Qed.

(** A loop over two lists, one after the other. *)
Lemma tx_fold_app {A S} (f : S -> A -> tx S) l k : forall s db, tx_fold f s (l ++ k) db = (s' ← tx_fold f s l; tx_fold f s' k) db.
Proof.
  induction l as [|a l IH]; intros s db; [done |]. simpl. unfold mbind, tx_bind. destruct (f s a db) as [[s' db']|e]; [| done].
  rewrite IH. reflexivity.
Qed.

Lemma NoDup_keys_mid {A B} (f : A -> B) pre x suf : NoDup (map f (pre ++ x :: suf)) -> f x ∉ map f pre.
Proof. rewrite map_app. intros (_ & Hd & _)%NoDup_app Hin. apply (Hd _ Hin). by left. Qed.

(** ** What every step of a handler keeps *)

(** Wherever [m] succeeds, the tables it leaves are [R] of those it found. *)
Definition keeping (R : relation instr_db) {A} (m : tx A) : Prop := forall db a db', m db = Ok (a, db') -> R db db'.

Section Keeping.
Context (R : relation instr_db) `{!PreOrder R}.

Lemma keeping_ret {A} (a : A) : keeping R (mret a).
Proof. by intros db ? ? [= _ <-]. Qed.

Lemma keeping_bind {A B} (m : tx A) (f : A -> tx B) : keeping R m -> (forall a, keeping R (f a)) -> keeping R (m ≫= f).
Proof.
  intros Hm Hf db b db'' Hrun. unfold mbind, tx_bind in Hrun. destruct (m db) as [[a db']|e] eqn:Em; [| done].
  etransitivity; [by eapply Hm | by eapply Hf].
Qed.

Lemma keeping_fold {A S} (f : S -> A -> tx S) l : (forall s a, keeping R (f s a)) -> forall s, keeping R (tx_fold f s l).
Proof. intros Hf. induction l as [|a l IH]; intros s; simpl; [apply keeping_ret | by apply keeping_bind]. Qed.

Lemma keeping_each {A} (f : A -> tx unit) l : (forall a, keeping R (f a)) -> keeping R (tx_each f l).
Proof. intros Hf. by apply keeping_fold. Qed.

Lemma keeping_statement f : (forall db, R db (f db)) -> keeping R (statement f).
Proof. intros Hf db [] db' Hrun. apply statement_some in Hrun as [-> _]. apply Hf. Qed.

Lemma keeping_NewID : (forall db, R db (set_next (db_next db + 1)%N db)) -> keeping R NewID.
Proof. intros Hn db ? ? [= _ <-]. apply Hn. Qed.

Lemma keeping_get : keeping R tx_get.
Proof. by intros db ? ? [= _ <-]. Qed.

Lemma keeping_fail {A} e : keeping R (@tx_fail A e).
Proof. by intros db ? ?. Qed.

Lemma keeping_some {A} (o : option A) : keeping R (tx_some o).
Proof. intros db a db' Hrun. unfold tx_some in Hrun. destruct o; [by injection Hrun as _ <- | done]. Qed.

Lemma keeping_Rebuild locked : (forall db v, R db (set_validity_db (fun _ => v) db)) -> keeping R (tx_Rebuild locked).
Proof.
  intros Hv db [] db' Hrun. unfold tx_Rebuild in Hrun. destruct (Rebuild _ _) as [v|]; [| done]. apply statement_some in Hrun as [-> _]. apply Hv.
Qed.

(** A transaction that fails keeps the tables as they were. *)
Lemma keeping_once {A} (m : tx A) db a db' : (forall b d, R (set_deferred b d) d /\ R d (set_deferred b d)) -> keeping R m -> once m db = Ok (a, db') -> R db db'.
Proof.
  intros Hd Hm. unfold once. destruct (m _) as [[a' d]|] eqn:Em; [| done]. case_bool_decide; [| done]. intros [= _ <-].
  etransitivity; [apply (Hd false) |]. etransitivity; [by eapply Hm | apply (Hd false)].
Qed.

Lemma yields_keeping {A} (m : tx A) db (P : A -> instr_db -> Prop) : keeping R m -> yields m db P -> yields m db (fun a db' => R db db' /\ P a db').
Proof. intros Hq (a & db' & Hm & HP). exists a, db'. split; [done |]. split; [by eapply Hq | done]. Qed.

End Keeping.

(** The steps of a handler, its branches included; a hint of the database
    [keeping] is a handler that keeps its relation. *)
Create HintDb keeping discriminated.

Ltac keeping := repeat first [ progress intros | solve [auto with keeping nocore] | apply keeping_ret; exact _ | apply keeping_get; exact _ | apply keeping_fail
  | apply keeping_some; exact _ | apply keeping_bind; [exact _ | |] | apply keeping_each; [exact _ |] | apply keeping_fold; [exact _ |]
  | (apply keeping_statement; done) | (apply keeping_NewID; done) | (apply keeping_Rebuild; done) | case_match ].

(** The facts of tickers stay as they are. *)
Definition same_validity (db db' : instr_db) : Prop := db_validity db' = db_validity db.

#[export] Instance same_validity_preorder : PreOrder same_validity.
Proof. split; [done |]. intros a b c H1 H2. unfold same_validity in *. congruence. Qed.

(** No id is minted twice, and the resolutions stay as they are. *)
Definition unresolving (db db' : instr_db) : Prop := (db_next db <= db_next db')%N /\ db_resolutions db' = db_resolutions db.

#[export] Instance unresolving_preorder : PreOrder unresolving.
Proof. split; [intros db; split; [lia | done] |]. intros a b c [H1 H2] [H3 H4]. split; [lia | congruence]. Qed.

Lemma unresolving_same db db' : db_next db' = db_next db -> db_resolutions db' = db_resolutions db -> unresolving db db'.
Proof. intros H1 H2. split; [lia | done]. Qed.

Lemma unresolving_next db : unresolving db (set_next (db_next db + 1)%N db).
Proof. split; [simpl; lia | done]. Qed.

#[export] Hint Resolve unresolving_next : core.
#[export] Hint Extern 1 (unresolving _ _) => apply unresolving_same; reflexivity : core.

(** * Statements *)

(** The constraints of the tables a statement leaves alone. *)
Ltac keep_tables db := apply (tables_ok_kept db);
  try match goal with Hw : writable db |- _ => by destruct Hw as [[]] end; try (by split).

Section Statements.
Context (db : instr_db) (Hw : writable db).

Lemma minted_kept (db' : instr_db) : (forall i, i ∈ row_ids db' -> i ∈ row_ids db) -> forall i, i ∈ row_ids db' -> (i < db_next db)%N.
Proof. intros Hids i Hi. by apply (wb_minted _ Hw), Hids. Qed.

Lemma map_with_primary_ids p id ls : map lr_ID (map (fun l => if bool_decide (lr_ID l = id) && bool_decide (lr_PrimaryMic l = None) then with_primary p l else l) ls) = map lr_ID ls.
Proof. rewrite map_map. apply map_ext. intros l. by destruct (_ && _). Qed.

Lemma SetListingPrimary_ok id p :
  let db' := set_listings (map (fun l => if bool_decide (lr_ID l = id) && bool_decide (lr_PrimaryMic l = None) then with_primary p l else l)) db in
  SetListingPrimary id p db = Ok (tt, db') /\ writable db' /\ refs_kept db db'.
Proof.
  intros db'.
  assert (listing_ids db' = listing_ids db) as Hids by apply map_with_primary_ids.
  assert (refs_kept db db') as Hkept by (split; try done; by rewrite Hids).
  assert (tables_ok db') as Hok.
  { keep_tables db.
    - rewrite Hids. by destruct Hw as [[]].
    - simpl. rewrite map_map. rewrite (map_ext _ (fun l => (lr_InstrID l, lr_Currency l))) by (intros l; by destruct (_ && _)). by destruct Hw as [[]].
    - apply Forall_fmap. eapply Forall_impl; [apply (ok_listing _ (wb_ok _ Hw)) |]. intros l Hl. simpl. by destruct (_ && _). }
  destruct (statement_writable (set_listings (map (fun l => if bool_decide (lr_ID l = id) && bool_decide (lr_PrimaryMic l = None) then with_primary p l else l))) db Hok) as [Hs Hw'];
    [| done | | done].
  { apply (linked_kept db Hw); try done; try (apply Forall_forall; auto). simpl.
    rewrite map_update_same; [done |]. intros l. by destruct (_ && _). }
  { apply (minted_kept db'). intros i. rewrite !row_ids_elem. by rewrite Hids. }
Qed.

Lemma SetFetchKeyInstr_ok id user instr : instr ∈ instr_ids db ->
  let db' := set_fetch (alter (fun f : option uuid * option uuid => if bool_decide (f.1 = Some user) then (f.1, Some instr) else f) id) db in
  SetFetchKeyInstr id user instr db = Ok (tt, db') /\ writable db' /\ refs_kept db db'.
Proof.
  intros Hi db'.
  assert (refs_kept db db') as Hkept.
  { split; try done. intros k Hk. simpl. destruct (decide (k = id)) as [->|]; [rewrite lookup_alter_eq | by rewrite lookup_alter_ne].
    by rewrite fmap_is_Some. }
  assert (tables_ok db') as Hok.
  { keep_tables db. 
    - eapply Forall_impl; [apply (ok_instr _ (wb_ok _ Hw)) |]. intros r. unfold instr_ok. apply (fetched_kept db db' Hkept).
    - intros k f. simpl. destruct (decide (k = id)) as [->|]; [rewrite lookup_alter_eq | rewrite lookup_alter_ne by done; apply (ok_fetch _ (wb_ok _ Hw))].
      intros (g & Hg & ->)%fmap_Some_1. case_bool_decide; [done |]. by apply (ok_fetch _ (wb_ok _ Hw) id). }
  destruct (statement_writable (set_fetch (alter (fun f : option uuid * option uuid => if bool_decide (f.1 = Some user) then (f.1, Some instr) else f) id)) db Hok (wb_linked _ Hw) eq_refl)
    as [Hs Hw']; [| done].
  by apply minted_kept.
Qed.

Definition upserted (row : IdentityCoverageRow) (l : list IdentityCoverageRow) : list IdentityCoverageRow :=
  if existsb (fun c => bool_decide (coverage_key c = coverage_key row)) l
  then map (fun c => if bool_decide (coverage_key c = coverage_key row) then row else c) l else l ++ [row].

Lemma upserted_elem row l c : NoDup (map coverage_key l) ->
  c ∈ upserted row l <-> c = row \/ (c ∈ l /\ coverage_key c <> coverage_key row).
Proof.
  intros Hnd. unfold upserted. destruct (existsb _ l) eqn:E.
  - apply existsb_elem in E as (o & Ho & He%bool_decide_eq_true). rewrite list_elem_of_fmap. split.
    + intros (x & -> & Hx). case_bool_decide; auto.
    + intros [->|[Hc Hk]]; [exists o | exists c]; by case_bool_decide.
  - rewrite elem_of_app, list_elem_of_singleton. rewrite existsb_false in E. split; [intros [Hc| ->]; [right | by left] | tauto].
    split; [done |]. intros He. pose proof (E c Hc) as Hf. simpl in Hf. by rewrite bool_decide_eq_true_2 in Hf.
Qed.

Lemma upserted_keys row l : NoDup (map coverage_key l) -> NoDup (map coverage_key (upserted row l)).
Proof.
  intros Hnd. unfold upserted. destruct (existsb _ l) eqn:E.
  - rewrite map_map. rewrite (map_ext _ coverage_key); [done |]. intros c. by case_bool_decide.
  - apply NoDup_map_snoc; [done |]. intros (x & He & Hx)%list_elem_of_fmap. rewrite existsb_false in E. pose proof (E x Hx) as Hf. simpl in Hf.
    by rewrite bool_decide_eq_true_2 in Hf.
Qed.

Lemma UpsertIdentityCoverage_ok instr datasource key : instr ∈ instr_ids db -> is_Some (db_fetch db !! key) ->
  let db' := set_coverage (upserted (MkIdentityCoverageRow instr datasource key)) db in
  UpsertIdentityCoverage instr datasource key db = Ok (tt, db') /\ writable db' /\ refs_kept db db'.
Proof.
  intros Hi Hk db'.
  assert (refs_kept db db') as Hkept by done.
  assert (tables_ok db') as Hok.
  { keep_tables db; [apply upserted_keys; by destruct Hw as [[]] |]. apply Forall_forall.
    intros c [->|[Hc _]]%upserted_elem; [done | | by destruct Hw as [[]]]. by apply (proj1 (Forall_forall _ _) (ok_coverage _ (wb_ok _ Hw))). }
  destruct (statement_writable (set_coverage (upserted (MkIdentityCoverageRow instr datasource key))) db Hok (wb_linked _ Hw) eq_refl) as [Hs Hw']; [| done].
  by apply minted_kept.
Qed.

Lemma CreateFinding_ok f : fresh db (fr_ID f) -> finding_ok db f ->
  let db' := set_findings (fun l => l ++ [f]) db in
  CreateFinding f db = Ok (tt, db') /\ writable db' /\ refs_kept db db'.
Proof.
  intros Hf Ha db'.
  assert (refs_kept db db') as Hkept by done.
  assert (tables_ok db') as Hok.
  { keep_tables db; simpl; [by apply NoDup_map_snoc; [apply Hw | apply fresh_finding] |]. apply Forall_app. split; [apply Hw | by apply Forall_singleton]. }
  destruct (statement_writable (set_findings (fun l => l ++ [f])) db Hok (wb_linked _ Hw) eq_refl) as [Hs Hw']; [| done].
  apply (minted_snoc _ Hw (fr_ID f) Hf). intros i. rewrite !row_ids_elem. simpl. rewrite map_app, elem_of_app. simpl. rewrite list_elem_of_singleton. tauto.
Qed.

Lemma CreateResolutionKey_ok r : resolution_ok db r -> (forall o, o ∈ db_resolutions db -> (rk_RunID o, rk_StatedKeyID o) <> (rk_RunID r, rk_StatedKeyID r)) ->
  let db' := set_resolutions (fun l => l ++ [r]) db in
  CreateResolutionKey r db = Ok (r, db') /\ writable db' /\ refs_kept db db'.
Proof.
  intros Ha Hnew db'.
  assert (refs_kept db db') as Hkept by done.
  assert (tables_ok db') as Hok.
  { keep_tables db; simpl; [| by apply Forall_app; split; [apply Hw | apply Forall_singleton]].
    apply NoDup_map_snoc; [apply Hw |]. intros (x & He & Hx)%list_elem_of_fmap. by apply (Hnew x). }
  destruct (statement_writable (set_resolutions (fun l => l ++ [r])) db Hok (wb_linked _ Hw) eq_refl) as [Hs Hw']; [by apply minted_kept |].
  split; [| done]. unfold CreateResolutionKey. by rewrite (tx_bind_ok _ _ db tt db').
Qed.

(** An update of stated keys that leaves their ids. *)
Lemma stated_update f : (forall k, sk_ID (ks_Key (f k)) = sk_ID (ks_Key k)) -> (forall k, k ∈ db_stated db -> stated_ok db (f k)) ->
  (forall k, k ∈ db_stated db -> listing_of_instr db (ks_ListingID (f k)) (sk_InstrID (ks_Key (f k)))) ->
  let db' := set_stated (map f) db in
  statement (set_stated (map f)) db = Ok (tt, db') /\ writable db' /\ refs_kept db db'.
Proof.
  intros Hid Hsk Hl db'.
  assert (map (fun k => sk_ID (ks_Key k)) (db_stated db') = map (fun k => sk_ID (ks_Key k)) (db_stated db)) as Hids.
  { simpl. rewrite map_map. apply map_ext. intros k. apply Hid. }
  assert (refs_kept db db') as Hkept by (split; try done; by rewrite Hids).
  assert (tables_ok db') as Hok.
  { keep_tables db; [rewrite Hids; by destruct Hw as [[]] |]. apply Forall_forall. intros k' (k & -> & Hk)%list_elem_of_fmap. by apply Hsk. }
  destruct (statement_writable (set_stated (map f)) db Hok) as [Hs Hw']; [| done | | done].
  { apply (linked_kept db Hw); [done | apply Forall_forall; auto |]. apply Forall_forall. intros k' (k & -> & Hk)%list_elem_of_fmap. right. by apply Hl. }
  by apply (minted_kept db').
Qed.

Definition associated (id user instr : uuid) (listing : option uuid) (via : uuid) (arbiter : Arbiter) (k : StatedKeyRow) : StatedKeyRow :=
  if associable id user k then fixed_key instr listing via arbiter k else k.

Lemma SetStatedKeyAssociation_ok id user instr listing via arbiter : instr ∈ instr_ids db -> listing_of_instr db listing (Some instr) ->
  via ∈ map ir_ID (db_identifiers db) ->
  let db' := set_stated (map (associated id user instr listing via arbiter)) db in
  SetStatedKeyAssociation id user instr listing via arbiter db = Ok (tt, db') /\ writable db' /\ refs_kept db db'.
Proof.
  intros Hi Hl Hv. apply stated_update; unfold associated.
  - intros k. by destruct (associable _ _ _).
  - intros k Hk. destruct (associable _ _ _); [| by apply (proj1 (Forall_forall _ _) (ok_stated _ (wb_ok _ Hw)))].
    assert (refers (listing_ids db) listing) as Hlr.
    { destruct listing as [l|]; [| done]. simpl in *. apply list_elem_of_fmap in Hl as (x & [= -> _] & Hx). apply list_elem_of_fmap. eauto. }
    unfold stated_ok. simpl. repeat split; try done; try tauto; try (by intros [? _]).
  - intros k Hk. destruct (associable _ _ _); [done |]. by apply (proj1 (Forall_forall _ _) (proj2 (wb_linked _ Hw))).
Qed.

Definition redated (id user ticker : uuid) (market venue : string) (arbiter : Arbiter) (k : StatedKeyRow) : StatedKeyRow :=
  if associable id user k then dated_key ticker market venue arbiter k else k.

Lemma SetStatedKeyDatedAssociation_ok id user ticker market venue arbiter : arbiter <> ArbiterUser ->
  let db' := set_stated (map (redated id user ticker market venue arbiter)) db in
  SetStatedKeyDatedAssociation id user ticker market venue arbiter db = Ok (tt, db') /\ writable db' /\ refs_kept db db'.
Proof.
  intros Ha. apply stated_update; unfold redated.
  - intros k. by destruct (associable _ _ _).
  - intros k Hk. destruct (associable _ _ _); [| by apply (proj1 (Forall_forall _ _) (ok_stated _ (wb_ok _ Hw)))].
    unfold stated_ok. simpl. repeat split; try done; try tauto; try (by intros [? _]); try (right; congruence); try (by left); by intros [_ ?].
  - intros k Hk. destruct (associable _ _ _); [by simpl |]. by apply (proj1 (Forall_forall _ _) (proj2 (wb_linked _ Hw))).
Qed.

(** [assert], where no assertion of the fetch key names the ticker from the same
    day at the same venue. *)
Lemma assert_row_ok key t instr p edgeFrom edgeBefore st : is_Some (db_fetch db !! key) -> t ∈ vd_tickers (db_validity db) ->
  refers (instr_ids db) instr -> p_From p < p_Before p -> refers (db_codes db) (nullif (st_Currency st)) ->
  (forall x, x ∈ vd_assertions (db_validity db) -> ia_FetchKeyID x = Some key -> ia_TickerID x = tk_ID t -> ia_AssertedFrom x = p_From p ->
     ia_Venue x = nullif (st_Venue st) -> False) ->
  let row := assert_row (db_next db) key t instr p edgeFrom edgeBefore st in
  let db' := set_validity_db (set_assertions (fun l => l ++ [row])) (set_next (db_next db + 1)%N db) in
  assert key t instr p edgeFrom edgeBefore st db = Ok (tt, db') /\ writable db' /\ refs_kept db db'.
Proof.
  intros Hk Ht Hi Hp Hc Hnew row db'. destruct (NewID_ok db Hw) as (Hid & Hw1 & Hf1). set (db1 := set_next _ db) in *.
  destruct (CreateIdentifierAssertion_ok db1 Hw1 row Hf1) as (Hrun & Hw2 & Hkept).
  { split; [done |]. split; [done |]. split; [done |]. split; [done |]. split; [done |]. apply list_elem_of_fmap. by exists t. }
  { intros (x & He & Hx)%list_elem_of_fmap. unfold assertion_key in He. injection He as Hx1 _ Hx3 Hx4 Hx5. by apply (Hnew x). }
  split; [| split; [done | by destruct Hkept]]. unfold assert. rewrite (tx_bind_ok _ _ db _ _ Hid). exact Hrun.
Qed.

End Statements.

(** [Rebuild] as a step of the transaction. *)
Lemma tx_Rebuild_ok db locked : writable db -> validity_db_ok (db_validity db) ->
  yields (tx_Rebuild locked) db (fun _ db' => writable db' /\ refs_kept db db' /\ validity_db_ok (db_validity db') /\
    Rebuild (db_validity db) locked = Some (db_validity db') /\
    exists rows names, db' = set_validity_db (fun v => set_resolved (set_validity v rows) names) db).
Proof.
  intros Hw Hv. destruct locked as [ids]. destruct (Rebuild_ok (db_validity db) Hv ids) as (v' & Hr & Hv' & (rows & names & E) & Hrows & Hnames).
  unfold tx_Rebuild, yields. rewrite Hr. set (db' := set_validity_db (fun _ => v') db).
  assert (refs_kept db db') as Hkept by (split; try done; simpl; by rewrite E).
  assert (forall a i, a ∈ vd_assertions (db_validity db) -> ia_InstrID a = Some i -> i ∈ instr_ids db) as Hin.
  { intros a i Ha Hi. destruct (proj1 (Forall_forall _ _) (ok_assertion _ (wb_ok _ Hw)) a Ha) as (H1 & _). by rewrite Hi in H1. }
  assert (tables_ok db') as Hok.
  { keep_tables db; simpl; try (rewrite E; simpl; by destruct Hw as [[]]).
    - apply Forall_forall. intros v [Hvv|(a & Ha & Hi)]%Hrows; [| by eapply Hin]. by apply (proj1 (Forall_forall _ _) (ok_validity _ (wb_ok _ Hw))).
    - apply Forall_forall. intros v [Hvv|(a & Ha & Hi)]%Hnames; [| by eapply Hin]. by apply (proj1 (Forall_forall _ _) (ok_resolved _ (wb_ok _ Hw))). }
  destruct (statement_writable (set_validity_db (fun _ => v')) db Hok (wb_linked _ Hw) eq_refl) as [Hs Hw'].
  { apply (minted_kept db Hw db'). intros i. rewrite !row_ids_elem. simpl. rewrite E. done. }
  exists tt, db'. split; [exact Hs |]. split; [done |]. split; [done |]. split; [done |]. split; [done |].
  exists rows, names. unfold db', set_validity_db. f_equal. exact E.
Qed.
