(* ===== verification/Recording.v ===== *)
(** What recording the identifier facts of a fetch leaves, [Record] of
    [server/internal/identity/tickervalidity/record.go]: an assertion for each
    one answered, the instruments created for them, the assertion coverage, and
    the ticker validity rebuilt from them. *)
From S2P Require Import Prelude Types Period Facts Rows Mic Tickers Calendar Bounds Validity ValidityStore Market Resolution InstrStore Record Statements.

(** * The answers *)

(** The assertions and the coverage that the served keys answer, each with its
    fetch key. *)
Definition served_assertions (keys : list factKey) : list (uuid * MarketAssertion) :=
  concat (map (fun k => if served k then map (fun a => (fk_ID k, a)) (fs_Assertions (fk_Response k)) else []) keys).

Definition served_coverage (keys : list factKey) : list (uuid * MarketCoverage) :=
  concat (map (fun k => if served k then map (fun c => (fk_ID k, c)) (fs_AssertionCoverage (fk_Response k)) else []) keys).

Definition stable_of (a : MarketAssertion) : list Identifier := List.filter Stable (ml_Identifiers (ma_Of a)).

(** A period a row may hold: days, and one at least. *)
Definition day_period (p : Period) : Prop := p_From p < p_Before p /\ whole_day (p_From p) /\ whole_day (p_Before p).

(** What an integration answers: each assertion once, over days, with each
    stable identifier once. *)
Record answer_ok (r : IdentifierFactResult) : Prop := {
  an_once : NoDup (map (fun a => (ma_Ticker a, p_From (ma_Period a))) (fs_Assertions r));
  an_days a : a ∈ fs_Assertions r -> day_period (ma_Period a) /\ NoDup (stable_of a);
  an_coverage c : c ∈ fs_AssertionCoverage r -> day_period (mc_Period c);
}.

(** Keys that may be recorded with the ticker rows [rows]. *)
Record recordable_facts (families : Families) (rows : gmap MarketTicker TickerRow) (keys : list factKey) (db : instr_db) : Prop := {
  rf_families : families_ok families db;
  rf_rows t r : rows !! t = Some r -> r ∈ vd_tickers (db_validity db) /\ ticker_of r = t;
  rf_tickers k t : k ∈ keys -> served k = true -> t ∈ fact_Tickers (fk_Response k) -> is_Some (rows !! t);
  rf_ids : NoDup (map fk_ID keys);
  rf_stored k : k ∈ keys -> is_Some (db_fetch db !! fk_ID k);
  rf_fresh k a : k ∈ keys -> a ∈ vd_assertions (db_validity db) -> ia_FetchKeyID a <> Some (fk_ID k);
  rf_answer k : k ∈ keys -> served k = true -> answer_ok (fk_Response k);
}.

(** * The rows *)

(** The row of an assertion of the fetch key [ka.1]. A negative one names
    nothing; a positive one names the instrument of a stable identifier it states.
    One whose identifiers have no place has no row. *)
Definition asserted_row (families : Families) (rows : gmap MarketTicker TickerRow) (db : instr_db) (ka : uuid * MarketAssertion) (o : option AssertionRow) : Prop :=
  let a := ka.2 in
  match o with
  | Some r =>
      ia_FetchKeyID r = Some ka.1 /\ ia_RunID r = None /\ (ia_Venue r, ia_Currency r) = (None, None) /\
      (exists t, rows !! ma_Ticker a = Some t /\ ia_TickerID r = tk_ID t /\ ia_Market r = tk_Market t) /\
      MkPeriod (ia_AssertedFrom r) (ia_AssertedBefore r) = ma_Period a /\ (ia_EdgeFrom r, ia_EdgeBefore r) = (ma_EdgeFrom a, ma_EdgeBefore a) /\
      if ma_Negative a then ia_InstrID r = None
      else exists x, x ∈ db_identifiers db /\ to_Identifier x ∈ stable_of a /\ ia_InstrID r = Some (ir_InstrID x)
  | None => ma_Negative a = false /\ kept_ids (Family families (ml_Currency (ma_Of a))) (stable_of a) = []
  end.

Definition covered_row (rows : gmap MarketTicker TickerRow) (kc : uuid * MarketCoverage) (r : CoverageRow) : Prop :=
  cw_FetchKeyID r = kc.1 /\ (exists t, rows !! mc_Ticker kc.2 = Some t /\ cw_TickerID r = tk_ID t /\ cw_Market r = tk_Market t) /\
  MkPeriod (cw_CoveredFrom r) (cw_CoveredBefore r) = mc_Period kc.2.

(** What the loop leaves once it has recorded the assertions [seen] and the
    coverage [cseen]. *)
Record facts_recorded (families : Families) (rows : gmap MarketTicker TickerRow) (seen : list (uuid * MarketAssertion)) (cseen : list (uuid * MarketCoverage))
    (db0 db : instr_db) : Prop := {
  fc_writable : writable db;
  fc_refs : refs_kept db0 db;
  fc_identifiers : db_identifiers db0 ⊆ db_identifiers db;
  fc_fetch : db_fetch db = db_fetch db0;
  fc_stated : db_stated db = db_stated db0;
  fc_coverage : db_coverage db = db_coverage db0;
  fc_findings : db_findings db = db_findings db0;
  fc_resolutions : db_resolutions db = db_resolutions db0;
  fc_facts : exists os cs, db_validity db = set_assertions (fun l => l ++ omap id os) (set_facts_coverage (fun l => l ++ cs) (db_validity db0)) /\
    Forall2 (asserted_row families rows db) seen os /\ Forall2 (covered_row rows) cseen cs;
}.

Section Record.
Context (families : Families) (rows : gmap MarketTicker TickerRow).

Lemma asserted_row_mono db db' ka o : db_identifiers db ⊆ db_identifiers db' -> asserted_row families rows db ka o -> asserted_row families rows db' ka o.
Proof.
  intros Hs. unfold asserted_row. destruct o as [r|]; [| done]. intros (? & ? & ? & ? & ? & ? & Hi). repeat (split; [done |]).
  destruct (ma_Negative ka.2); [done |]. destruct Hi as (x & ? & ? & ?). exists x. auto.
Qed.

Lemma facts_recorded_refl db : writable db -> facts_recorded families rows [] [] db db.
Proof.
  intros Hw. split; try done. exists [], []. split; [| by split]. simpl.
  destruct (db_validity db). unfold set_assertions, set_facts_coverage. simpl. by rewrite !app_nil_r.
Qed.

Lemma StoredInstr_row db ids i : tables_ok db -> StoredInstr db ids = Some i -> exists x, x ∈ db_identifiers db /\ to_Identifier x ∈ ids /\ ir_InstrID x = i.
Proof.
  intros Hok. induction ids as [|id ids IH]; simpl; [done |]. destruct (Stable id); simpl.
  - destruct (FindIdentifier db id) as [[r j]|] eqn:Ef.
    + intros [= <-]. apply FindIdentifier_Some in Ef as (Hr & <- & _ & ->); [| done]. exists r. split; [done |]. split; [by left | done].
    + intros (x & ? & ? & ?)%IH. exists x. split; [done |]. split; [by right | done].
  - intros (x & ? & ? & ?)%IH. exists x. split; [done |]. split; [by right | done].
Qed.

Lemma facts_recorded_grown seen cseen db0 db db' : facts_recorded families rows seen cseen db0 db -> writable db' -> grown db db' ->
  facts_recorded families rows seen cseen db0 db'.
Proof.
  intros [? ? ? ? ? ? ? ? (os & cs & Hv & Ha & Hc)] Hw [? ? ? ? ? ? ? ?]. split; try congruence; [by eapply refs_kept_trans | by etransitivity |].
  exists os, cs. split; [congruence |]. split; [| done]. eapply Forall2_impl; [exact Ha |]. intros ? ?. by apply asserted_row_mono.
Qed.

Section Step.
Context (db0 : instr_db) (Hv0 : validity_db_ok (db_validity db0)) (Hfam : families_ok families db0).
Context (Hrows : forall t r, rows !! t = Some r -> r ∈ vd_tickers (db_validity db0) /\ ticker_of r = t).
Context (key : uuid) (Hkey : is_Some (db_fetch db0 !! key)) (Hfresh : forall a, a ∈ vd_assertions (db_validity db0) -> ia_FetchKeyID a <> Some key).

Lemma rows_same t u r r' : rows !! t = Some r -> rows !! u = Some r' -> tk_ID r = tk_ID r' -> t = u.
Proof.
  intros Ht Hu He. destruct (Hrows _ _ Ht) as [Hr <-], (Hrows _ _ Hu) as [Hr' <-]. f_equal. exact (same_ID _ Hv0 _ _ Hr Hr' He).
Qed.

(** The row of one more assertion. *)
Lemma assert_recorded seen cseen db a t instr : facts_recorded families rows seen cseen db0 db ->
  rows !! ma_Ticker a = Some t -> p_From (ma_Period a) < p_Before (ma_Period a) ->
  (forall ka, ka ∈ seen -> ka.1 = key -> (ma_Ticker ka.2, p_From (ma_Period ka.2)) <> (ma_Ticker a, p_From (ma_Period a))) ->
  refers (instr_ids db) instr ->
  (if ma_Negative a then instr = None else exists x, x ∈ db_identifiers db /\ to_Identifier x ∈ stable_of a /\ instr = Some (ir_InstrID x)) ->
  yields (assert key t instr (ma_Period a) (ma_EdgeFrom a) (ma_EdgeBefore a) (MkStated "" "")) db
    (fun _ => facts_recorded families rows (seen ++ [(key, a)]) cseen db0).
Proof.
  intros Hrec Ht Hp Honce Hi Hneg. pose proof Hrec as [Hw Hr Hid Hf Hst Hco Hfi Hre (os & cs & Hv & Ha & Hc)].
  destruct (Hrows _ _ Ht) as [Htin Hto].
  destruct (assert_row_ok db Hw key t instr (ma_Period a) (ma_EdgeFrom a) (ma_EdgeBefore a) (MkStated "" "")) as (Hrun & Hw' & Hr'); try done.
  { by rewrite Hf. }
  { by rewrite <- (kept_tickers _ _ Hr). }
  { rewrite Hv. simpl. intros x [Hx|Hx]%elem_of_app Hk Htk Hfrom _; [by apply (Hfresh x) |]. apply list_elem_of_omap in Hx as (o & Ho & Hox).
    simpl in Hox. subst o. apply list_elem_of_lookup in Ho as [n Hn].
    destruct (Forall2_lookup_r _ _ _ _ _ Ha Hn) as (ka & Hka & Hk' & _ & _ & (u & Hu & Hut & _) & Hper & _).
    apply (Honce ka); [by eapply list_elem_of_lookup_2 | congruence |]. rewrite <- Hper. simpl. f_equal; [| done].
    eapply rows_same; [exact Hu | exact Ht |]. congruence. }
  apply (yields_run _ _ tt _ _ Hrun). set (row := assert_row _ _ _ _ _ _ _ _) in *. set (db' := set_validity_db _ _) in *. split; try done; [by eapply refs_kept_trans |].
  exists (os ++ [Some row]), cs. split.
  - rewrite omap_app. simpl. unfold db', set_validity_db. simpl. rewrite Hv. unfold set_assertions, set_facts_coverage. simpl. by rewrite app_assoc.
  - split; [| done]. apply Forall2_app; [done |]. constructor; [| constructor]. repeat (split; [done |]).
    split; [by exists t |]. split; [unfold row, assert_row; simpl; by destruct (ma_Period a) |]. done.
Qed.

Lemma record_assertion_ok seen cseen db a : facts_recorded families rows seen cseen db0 db ->
  is_Some (rows !! ma_Ticker a) -> p_From (ma_Period a) < p_Before (ma_Period a) -> NoDup (stable_of a) ->
  (forall ka, ka ∈ seen -> ka.1 = key -> (ma_Ticker ka.2, p_From (ma_Period ka.2)) <> (ma_Ticker a, p_From (ma_Period a))) ->
  yields (record_assertion families rows key a) db (fun _ => facts_recorded families rows (seen ++ [(key, a)]) cseen db0).
Proof.
  intros Hrec [t Ht] Hp Hnd Honce. unfold record_assertion, ticker_row. rewrite Ht.
  apply (yields_bind _ _ _ (fun t' d => t' = t /\ d = db) _ (yields_ret t db _ (conj eq_refl eq_refl))). intros ? ? [-> ->]. unfold assertFact.
  destruct (ma_Negative a) eqn:En; [apply assert_recorded; try done; by rewrite En |].
  assert (families_ok families db) as Hfam' by (intros c; rewrite <- (kept_families _ _ (fc_refs _ _ _ _ _ _ Hrec)); apply Hfam).
  destruct (instrOf_ok families key a db (fc_writable _ _ _ _ _ _ Hrec) Hfam') as (i & db1 & Hrun & Hw1 & Hsi & Hg & Href & Hcase); [by rewrite (fc_fetch _ _ _ _ _ _ Hrec) | done |].
  fold (stable_of a) in *. pose proof (facts_recorded_grown _ _ _ _ _ Hrec Hw1 Hg) as Hrec1.
  apply (yields_bind _ _ _ (fun i' d => i' = i /\ d = db1) _ (yields_run _ _ _ _ _ Hrun (conj eq_refl eq_refl))). intros ? ? [-> ->].
  destruct i as [i|].
  - apply assert_recorded; try done. rewrite En. destruct (StoredInstr_row _ _ _ (wb_ok _ Hw1) Hsi) as (x & Hx & Hid & <-). by exists x.
  - apply yields_ret. destruct Hrec1 as [? ? ? ? ? ? ? ? (os & cs & Hv & Ha & Hc)]. split; try done. exists (os ++ [None]), cs.
    split; [by rewrite omap_app, app_nil_r |]. split; [| done]. apply Forall2_app; [done |]. constructor; [| constructor]. split; [done |]. simpl.
    destruct (decide _) as [|Hn] in Hcase; [by destruct Hcase as (? & ? & [=] & _) |]. destruct Hcase as [-> Hs]. destruct (decide (kept_ids (Family families (ml_Currency (ma_Of a))) (stable_of a) = [])); [done |].
    by destruct Hn.
Qed.

Lemma record_coverage_ok seen cseen db c : facts_recorded families rows seen cseen db0 db ->
  is_Some (rows !! mc_Ticker c) -> p_From (mc_Period c) < p_Before (mc_Period c) ->
  yields (record_coverage rows key c) db (fun _ => facts_recorded families rows seen (cseen ++ [(key, c)]) db0).
Proof.
  intros Hrec [t Ht] Hp. pose proof Hrec as [Hw Hr Hid Hf Hst Hco Hfi Hre (os & cs & Hv & Ha & Hc)]. destruct (Hrows _ _ Ht) as [Htin Hto].
  unfold record_coverage, ticker_row. rewrite Ht.
  apply (yields_bind _ _ _ (fun t' d => t' = t /\ d = db) _ (yields_ret t db _ (conj eq_refl eq_refl))). intros ? ? [-> ->].
  destruct (NewID_ok db Hw) as (Hnew & Hw1 & Hf1). set (db1 := set_next _ db) in *.
  apply (yields_bind _ _ _ (fun new d => new = db_next db /\ d = db1) _ (yields_run _ _ _ _ _ Hnew (conj eq_refl eq_refl))). intros ? ? [-> ->].
  set (row := MkCoverageRow _ _ _ _ _ _).
  destruct (CreateIdentifierAssertionCoverage_ok db1 Hw1 row Hf1) as (Hrun & Hw2 & Hr2).
  { split; [by simpl; rewrite Hf |]. split; [done |]. apply list_elem_of_fmap. exists t. split; [done |]. simpl. by rewrite <- (kept_tickers _ _ Hr). }
  apply (yields_run _ _ tt _ _ Hrun). set (db' := set_validity_db _ _) in *. split; try done.
  { eapply refs_kept_trans; [exact Hr |]. by destruct Hr2. }
  exists os, (cs ++ [row]). split.
  - unfold db', set_validity_db. simpl. rewrite Hv. unfold set_assertions, set_facts_coverage. simpl. by rewrite app_assoc.
  - split; [done |]. apply Forall2_app; [done |]. constructor; [| constructor]. split; [done |]. split; [by exists t |]. unfold row. simpl. by destruct (mc_Period c).
Qed.

End Step.

Lemma record_facts_ok db0 key r seen cseen db : validity_db_ok (db_validity db0) -> families_ok families db0 ->
  (forall t r, rows !! t = Some r -> r ∈ vd_tickers (db_validity db0) /\ ticker_of r = t) ->
  is_Some (db_fetch db0 !! key) -> (forall a, a ∈ vd_assertions (db_validity db0) -> ia_FetchKeyID a <> Some key) ->
  answer_ok r -> (forall t, t ∈ fact_Tickers r -> is_Some (rows !! t)) -> (forall ka, ka ∈ seen -> ka.1 <> key) ->
  facts_recorded families rows seen cseen db0 db ->
  yields (record_facts families rows key r) db (fun _ => facts_recorded families rows
    (seen ++ map (fun a => (key, a)) (fs_Assertions r)) (cseen ++ map (fun c => (key, c)) (fs_AssertionCoverage r)) db0).
Proof.
  intros Hv Hfam Hrows Hkey Hfresh [Honce Hdays Hcov] Hall Hseen Hrec. unfold record_facts, tx_each.
  eapply yields_bind.
  { apply (yields_fold _ (fun pre _ => facts_recorded families rows (seen ++ map (fun a => (key, a)) pre) cseen db0) (fs_Assertions r) []).
    - by rewrite app_nil_r.
    - intros pre a suf [] db1 Heq H1. simpl in Heq. assert (a ∈ fs_Assertions r) as Ha by (rewrite Heq; apply elem_of_app; right; by left).
      rewrite map_app, app_assoc. destruct (Hdays a Ha) as [(Hp & _) Hnd]. eapply yields_impl.
      + apply (record_assertion_ok db0 Hv Hfam Hrows key Hkey Hfresh _ cseen db1 a H1); try done.
        * apply Hall, elem_of_app. left. by apply list_elem_of_fmap_2.
        * intros ka [Hka|(b & -> & Hb)%list_elem_of_fmap]%elem_of_app; [intros He; by destruct (Hseen ka) |]. intros _ He. simpl in He.
          rewrite Heq in Honce. apply (NoDup_keys_mid _ _ _ _ Honce). rewrite <- He. by apply (list_elem_of_fmap_2 (fun a => (ma_Ticker a, p_From (ma_Period a)))).
      + intros [] db2 H2. exact H2. }
  intros [] db1 H1. rewrite app_nil_l in H1.
  eapply yields_impl; [apply (yields_fold _ (fun pre _ => facts_recorded families rows (seen ++ map (fun a => (key, a)) (fs_Assertions r))
    (cseen ++ map (fun c => (key, c)) pre) db0) (fs_AssertionCoverage r) []) |].
  - by rewrite app_nil_r.
  - intros pre c suf [] db2 Heq H2. simpl in Heq. assert (c ∈ fs_AssertionCoverage r) as Hc by (rewrite Heq; apply elem_of_app; right; by left).
    rewrite map_app, app_assoc. destruct (Hcov c Hc) as (Hp & _). apply (record_coverage_ok db0 Hrows key Hkey _ _ db2 c H2); [| done].
    apply Hall, elem_of_app. right. by apply list_elem_of_fmap_2.
  - by intros [] db2 H2.
Qed.

Lemma served_snoc_assertions pre k : served_assertions (pre ++ [k]) = served_assertions pre ++
  (if served k then map (fun a => (fk_ID k, a)) (fs_Assertions (fk_Response k)) else []).
Proof. unfold served_assertions. rewrite map_app, concat_app. simpl. by rewrite app_nil_r. Qed.

Lemma served_snoc_coverage pre k : served_coverage (pre ++ [k]) = served_coverage pre ++
  (if served k then map (fun c => (fk_ID k, c)) (fs_AssertionCoverage (fk_Response k)) else []).
Proof. unfold served_coverage. rewrite map_app, concat_app. simpl. by rewrite app_nil_r. Qed.

Lemma elem_of_served_assertions keys ka : ka ∈ served_assertions keys <-> exists k, k ∈ keys /\ served k = true /\ ka.1 = fk_ID k /\ ka.2 ∈ fs_Assertions (fk_Response k).
Proof.
  unfold served_assertions. rewrite elem_of_concat_map. split.
  - intros (k & Hk & Hka). exists k. destruct (served k); [| by apply elem_of_nil in Hka]. by apply list_elem_of_fmap in Hka as (a & -> & Ha).
  - intros (k & Hk & Hs & He & Ha). exists k. split; [done |]. rewrite Hs. destruct ka as [i a]. simpl in *. subst i. apply list_elem_of_fmap. eauto.
Qed.

Lemma elem_of_served_coverage keys kc : kc ∈ served_coverage keys <-> exists k, k ∈ keys /\ served k = true /\ kc.1 = fk_ID k /\ kc.2 ∈ fs_AssertionCoverage (fk_Response k).
Proof.
  unfold served_coverage. rewrite elem_of_concat_map. split.
  - intros (k & Hk & Hkc). exists k. destruct (served k); [| by apply elem_of_nil in Hkc]. by apply list_elem_of_fmap in Hkc as (a & -> & Ha).
  - intros (k & Hk & Hs & He & Ha). exists k. split; [done |]. rewrite Hs. destruct kc as [i a]. simpl in *. subst i. apply list_elem_of_fmap. eauto.
Qed.

(** The loop of [Record]. *)
Lemma record_keys_ok keys db : writable db -> validity_db_ok (db_validity db) -> recordable_facts families rows keys db ->
  yields (tx_each (fun k => if served k then record_facts families rows (fk_ID k) (fk_Response k) else mret tt) keys) db
    (fun _ => facts_recorded families rows (served_assertions keys) (served_coverage keys) db).
Proof.
  intros Hw Hv [Hfam Hrows Hall Hids Hst Hfresh Hans]. unfold tx_each.
  eapply yields_impl; [apply (yields_fold _ (fun pre _ => facts_recorded families rows (served_assertions pre) (served_coverage pre) db) keys []); [by apply facts_recorded_refl |] |].
  - intros pre k suf [] db1 Heq H1. simpl in Heq. assert (k ∈ keys) as Hk by (rewrite Heq; apply elem_of_app; right; by left).
    rewrite served_snoc_assertions, served_snoc_coverage. destruct (served k) eqn:Es; [| apply yields_ret; by rewrite !app_nil_r].
    apply record_facts_ok; try done; [by apply Hst | intros a Ha; by apply Hfresh | by apply Hans | intros t Ht; by apply (Hall k) |].
    intros ka (k' & Hk' & _ & -> & _)%elem_of_served_assertions He. rewrite Heq in Hids. apply (NoDup_keys_mid _ _ _ _ Hids). rewrite <- He.
    by apply list_elem_of_fmap_2.
  - by intros [] db1 H1.
Qed.

(** The facts recorded are those the schema admits. *)
Lemma facts_recorded_valid keys db db1 : validity_db_ok (db_validity db) -> recordable_facts families rows keys db ->
  facts_recorded families rows (served_assertions keys) (served_coverage keys) db db1 -> validity_db_ok (db_validity db1).
Proof.
  intros Hv Hrf Hrec. destruct (fc_facts _ _ _ _ _ _ Hrec) as (os & cs & -> & Ha & Hc). destruct Hv as [V1 V2 V3 V4 V5 V6 V7 V8 V9].
  assert (forall r, r ∈ omap id os -> exists ka, ka ∈ served_assertions keys /\ asserted_row families rows db1 ka (Some r)) as Hos.
  { intros r (o & Ho & Hor)%list_elem_of_omap. simpl in Hor. subst o. apply list_elem_of_lookup in Ho as [n Hn]. destruct (Forall2_lookup_r _ _ _ _ _ Ha Hn) as (ka & Hka & Hr).
    exists ka. split; [by eapply list_elem_of_lookup_2 | done]. }
  assert (forall r, r ∈ cs -> exists kc, kc ∈ served_coverage keys /\ covered_row rows kc r) as Hcs.
  { intros r [n Hn]%list_elem_of_lookup. destruct (Forall2_lookup_r _ _ _ _ _ Hc Hn) as (kc & Hkc & Hr). exists kc. split; [by eapply list_elem_of_lookup_2 | done]. }
  split; try done; simpl.
  - intros r [Hr|Hr]%elem_of_app; [by apply V3 |]. destruct (Hos r Hr) as (ka & (k & Hk & Hs & _ & Hka)%elem_of_served_assertions & _ & _ & _ & _ & Hper & _).
    destruct (an_days _ (rf_answer _ _ _ _ Hrf k Hk Hs) _ Hka) as [Hp _]. rewrite <- Hper in Hp. exact Hp.
  - intros r [Hr|Hr]%elem_of_app; [by apply V4 |]. destruct (Hos r Hr) as (ka & _ & _ & _ & _ & (t & Ht & -> & ->) & _).
    exists t. split; [by apply (rf_rows _ _ _ _ Hrf _ _ Ht) | done].
  - intros r [Hr|Hr]%elem_of_app; [by apply V5 |]. destruct (Hcs r Hr) as (kc & (k & Hk & Hs & _ & Hkc)%elem_of_served_coverage & _ & _ & Hper).
    pose proof (an_coverage _ (rf_answer _ _ _ _ Hrf k Hk Hs) _ Hkc) as Hp. rewrite <- Hper in Hp. exact Hp.
  - intros r [Hr|Hr]%elem_of_app; [by apply V6 |]. destruct (Hcs r Hr) as (kc & _ & _ & (t & Ht & -> & ->) & _).
    exists t. split; [by apply (rf_rows _ _ _ _ Hrf _ _ Ht) | done].
Qed.

(** What [Record] leaves: the facts, and the ticker validity rebuilt. *)
Record rebuilt_facts (keys : list factKey) (db db' : instr_db) : Prop := {
  rb_writable : writable db';
  rb_valid : validity_db_ok (db_validity db');
  rb_next : (db_next db <= db_next db')%N;
  rb_facts : exists db1, facts_recorded families rows (served_assertions keys) (served_coverage keys) db db1 /\
    Rebuild (db_validity db1) (Tickers.Lock (vd_tickers (db_validity db)) (map (fun tr => tk_ID tr.2) (map_to_list rows))) = Some (db_validity db') /\
    exists validity names, db' = set_validity_db (fun v => set_resolved (set_validity v validity) names) db1;
}.

Lemma keeping_assert key t instr p edgeFrom edgeBefore st : keeping unresolving (assert key t instr p edgeFrom edgeBefore st).
Proof. unfold assert, CreateIdentifierAssertion. keeping. Qed.

Lemma keeping_create_identifier key instr listing id : keeping unresolving (create_identifier key instr listing id).
Proof. unfold create_identifier, CreateIdentifier. keeping. Qed.

#[local] Hint Resolve keeping_assert keeping_create_identifier : keeping.

Lemma keeping_instrOf key a : keeping unresolving (instrOf families key a).
Proof. unfold instrOf, create, CreateInstr, CreateListing. keeping. Qed.

#[local] Hint Resolve keeping_instrOf : keeping.

Lemma keeping_RecordFacts keys : keeping unresolving (RecordFacts families rows keys).
Proof. unfold RecordFacts, record_facts, record_assertion, record_coverage, assertFact, ticker_row, CreateIdentifierAssertionCoverage. keeping. Qed.

Lemma RecordFacts_ok keys db : writable db -> validity_db_ok (db_validity db) -> recordable_facts families rows keys db ->
  yields (RecordFacts families rows keys) db (fun _ => rebuilt_facts keys db).
Proof.
  intros Hw Hv Hrf. set (locked := Tickers.Lock (vd_tickers (db_validity db)) (map (fun tr => tk_ID tr.2) (map_to_list rows))).
  assert (yields (RecordFacts families rows keys) db (fun _ db' => writable db' /\ validity_db_ok (db_validity db') /\
    exists db1, facts_recorded families rows (served_assertions keys) (served_coverage keys) db db1 /\
      Rebuild (db_validity db1) locked = Some (db_validity db') /\
      exists validity names, db' = set_validity_db (fun v => set_resolved (set_validity v validity) names) db1)) as ([] & db' & Hrun & H1 & H2 & H3).
  { unfold RecordFacts. apply yields_get. cbv zeta. apply (yields_bind _ _ _ _ _ (record_keys_ok keys db Hw Hv Hrf)). intros [] db1 Hrec.
    pose proof (facts_recorded_valid keys db db1 Hv Hrf Hrec) as Hv1.
    eapply yields_impl; [apply (tx_Rebuild_ok db1 _ (fc_writable _ _ _ _ _ _ Hrec) Hv1) |]. intros [] db2 (? & _ & ? & ? & ?). split; [done |].
    split; [done |]. by exists db1. }
  exists tt, db'. split; [done |]. split; [done | done | by eapply (keeping_RecordFacts keys) | done].
Qed.

End Record.

(** C30: recording the identifier facts that served answers state violates no
    constraint. Each assertion answered has one row, under its fetch key, over
    its period and with its edges; a negative one names nothing, and a positive
    one names an instrument that carries a stable identifier it states, created
    where none was stored. Only an assertion whose identifiers have no place is
    left out. Every period of coverage has its row, the facts stored before stand,
    and so do the stated keys, the findings and the resolutions; and the ticker
    validity of the tickers is rebuilt from what is then stored. *)
Theorem RecordFacts_spec families rows keys db : writable db -> validity_db_ok (db_validity db) -> recordable_facts families rows keys db ->
  exists db', RecordFacts families rows keys db = Ok (tt, db') /\ rebuilt_facts families rows keys db db'.
Proof.
  intros Hw Hv Hrf. destruct (RecordFacts_ok families rows keys db Hw Hv Hrf) as ([] & db' & Hrun & H). by exists db'.
Qed.

Module Example.

Import Record.Example.

Definition apple : MarketTicker := MkMarketTicker "us" "AAPL".

(** An answer that states the assertion and its coverage, and that the ticker
    named nothing before. *)
Definition answer : IdentifierFactResult :=
  MkFactResult [a; MkMarketAssertion apple (MkMarketListing [] AssetClassNone "" "") true (MkPeriod (-864000000000000) 0) false false]
    [MkMarketCoverage apple (MkPeriod (-864000000000000) 864000000000000)].

Definition key : factKey :=
  MkFetchKey (MkFactRequest sedol (MkPeriod 0 864000000000000)) 7 "eodhd" 50 FetchOutcomeServed (Some sedol) "" answer 5 1 false.

Definition rows : gmap MarketTicker TickerRow := {[apple := MkTickerRow 41 "us" "AAPL"]}.

Lemma example_valid : validity_db_ok (db_validity db).
Proof.
  split; simpl; try (by intros ? ?%elem_of_nil); try done; try apply NoDup_singleton.
  - split; constructor.
  - split; constructor.
Qed.

Lemma example_answer : answer_ok answer.
Proof.
  assert (NoDup (map (fun a => (ma_Ticker a, p_From (ma_Period a))) (fs_Assertions answer)) /\
    Forall (fun a => day_period (ma_Period a) /\ NoDup (stable_of a)) (fs_Assertions answer) /\
    Forall (fun c => day_period (mc_Period c)) (fs_AssertionCoverage answer)) as (H1 & H2 & H3).
  { unfold day_period, whole_day. refine (bool_decide_unpack _ _). vm_compute. exact I. }
  split; [done | |]; intros x Hx; [by apply (proj1 (Forall_forall _ _) H2) | by apply (proj1 (Forall_forall _ _) H3)].
Qed.

Lemma example_recordable : recordable_facts families rows [key] db.
Proof.
  split.
  - apply example_families.
  - intros t r. unfold rows. rewrite lookup_singleton_Some. intros [<- <-]. split; [by left | done].
  - intros k t ->%list_elem_of_singleton _ Ht. unfold fact_Tickers in Ht. simpl in Ht. rewrite !elem_of_cons, elem_of_nil in Ht. destruct Ht as [->|[->|[->|[]]]]; by eexists.
  - apply NoDup_singleton.
  - intros k ->%list_elem_of_singleton. by eexists.
  - by intros k x _ ?%elem_of_nil.
  - intros k ->%list_elem_of_singleton _. apply example_answer.
Qed.

End Example.

Lemma RecordFacts_spec_witness : exists db', RecordFacts Record.Example.families Example.rows [Example.key] Record.Example.db = Ok (tt, db') /\
  writable db' /\ length (vd_assertions (db_validity db')) = 2%nat /\ length (vd_coverage (db_validity db')) = 1%nat /\ length (db_instrs db') = 2%nat.
Proof.
  destruct (RecordFacts_spec Record.Example.families Example.rows [Example.key] Record.Example.db Record.Example.example_writable Example.example_valid Example.example_recordable)
    as (db' & Hrun & H).
  exists db'. split; [exact Hrun |]. split; [apply H |]. revert Hrun. vm_compute. intros [= <-]. done.
Defined.
