(* ===== verification/Writer.v ===== *)
(** Writing a claim's identity onto an instrument, [writer.go] of
    [server/internal/identity/resolve], with the parts of a resolution it keeps
    ([instr.go], [write.go]).

    The writer is a pointer in the code: each operation returns it as it leaves
    it. Its resolution is one with it, since the code reads and changes it
    through the writer alone while the writer is in use. *)
From S2P Require Import Prelude Types Period Facts Rows Mic Tickers Calendar Validity ValidityStore Market Resolution Claims Choose InstrStore Merge Record Statements.

(** * The resolution of the key being written *)

Definition rs_with_written (res : resolution) (written : list (fetchKey * Identifier)) : resolution :=
  MkResolution (rs_row res) (rs_globalAndDescriptionIDs res) (rs_family res) (rs_families res) (rs_knownInstr res) (rs_mics res)
    (rs_fetchKeys res) (rs_findings res) (rs_outcome res) (rs_reason res) (rs_via res) (rs_dating res) (rs_dates res) (rs_datedFromFacts res)
    (rs_tickers res) written.

(** [wrote]. *)
Definition wrote (res : resolution) (fk : fetchKey) (id : Identifier) : resolution :=
  if bool_decide (id_Type id = IdentifierTypeMicTicker) && negb (bool_decide (id_Domain id = ""%string)) && negb (bool_decide (id_Value id = ""%string))
  then rs_with_written res (rs_written res ++ [(fk, id)]) else res.

(** The market ticker of [id], where it is in the system's spelling. *)
Definition spelled_ticker (mics : MICMap) (id : Identifier) : option MarketTicker :=
  match mics_MarketTicker mics id with
  | Some t => match Spelled mics t with Ok _ => Some t | Err _ => None end
  | None => None
  end.

(** [tickerOf]. *)
Definition tickerOf (res : resolution) (id : Identifier) : tx (option TickerRow) :=
  match spelled_ticker (rs_mics res) id with
  | None => mret None
  | Some t =>
      match rs_tickers res !! t with
      | Some row => mret (Some row)
      | None =>
          db ← tx_get;
          match Find (vd_tickers (db_validity db)) [t] !! t with
          | Some row => mret (Some row)
          | None => tx_fail (ErrOther ("ticker " +:+ mt_Market t +:+ ":" +:+ mt_Value t +:+ " has no row"))
          end
      end
  end.

(** * The writer *)

Record writer : Type := MkWriter {
  w_user : uuid;
  w_instr : join_Instr;
  w_taken : list Identifier;
  w_res : resolution;
}.

Definition w_InstrID (w : writer) : uuid := in_ID (ji_Row (w_instr w)).

Definition w_set_instr (w : writer) (j : join_Instr) : writer := MkWriter (w_user w) j (w_taken w) (w_res w).

(** [create]. *)
Definition w_create (winner : identityClaim) : tx InstrRow :=
  let class := if bool_decide (cl_Class winner = AssetClassNone) then AssetClassUnknown else cl_Class winner in
  fk ← tx_some (cl_fetchKey winner);
  id ← NewID;
  CreateInstr id class (Some (fk_ID fk)).

(** [identify]. *)
Definition identify (fetchKeyID : uuid) (listing : option uuid) (w : writer) (id : Identifier) : tx writer :=
  if bool_decide (is_Some (join_Identifier (w_instr w) id)) || contains (w_taken w) id then mret w
  else
    new ← NewID;
    row ← CreateIdentifier new (w_InstrID w) listing id (Some fetchKeyID);
    mret (w_set_instr w (MkJoin (ji_Row (w_instr w)) (ji_Identifiers (w_instr w) ++ [row]) (ji_Listings (w_instr w)))).

(** The identifiers of a slice that are not tickers. *)
Definition identify_all (fetchKeyID : uuid) (listing : option uuid) (w : writer) (ids : list Identifier) : tx writer :=
  tx_fold (fun w id => if Ticker id then mret w else identify fetchKeyID listing w id) w ids.

(** The listing of the family [fam], created or given the primary venue, and
    its id. *)
Definition attach_listing (c : identityClaim) (fetchKeyID : uuid) (w : writer) (fam : string) : tx (writer * uuid) :=
  let primary := nullif (listing_Primary (listing_of (cl_Instr c) fam)) in
  match join_Listing (w_instr w) fam with
  | None =>
      new ← NewID;
      row ← CreateListing new (w_InstrID w) fam (Some fetchKeyID) primary;
      mret (w_set_instr w (MkJoin (ji_Row (w_instr w)) (ji_Identifiers (w_instr w)) (ji_Listings (w_instr w) ++ [row])), lr_ID row)
  | Some l =>
      if bool_decide (lr_PrimaryMic l = None) && negb (bool_decide (primary = None))
      then
        SetListingPrimary (lr_ID l) primary;;
        mret (w_set_instr w (MkJoin (ji_Row (w_instr w)) (ji_Identifiers (w_instr w))
                (map (fun x => if bool_decide (lr_ID x = lr_ID l) then with_primary primary x else x) (ji_Listings (w_instr w)))), lr_ID l)
      else mret (w, lr_ID l)
  end.

(** The body of the loop over the families. *)
Definition attach_family (c : identityClaim) (fetchKeyID : uuid) (w : writer) (fam : string) : tx writer :=
  if bool_decide (fam = noFamily) then mret w
  else
    '(w, listing) ← attach_listing c fetchKeyID w fam;
    identify_all fetchKeyID (Some listing) w (listing_Identifiers (listing_of (cl_Instr c) fam)).

(** [currencyOf]; the families are those of the system. *)
Definition currencyOf (f : Families) (fk : fetchKey) (id : Identifier) : string :=
  match find_func (fun l => contains (ml_Identifiers l) id) (ir_Listings (fk_Response fk)) with
  | Some l => known f (ml_Currency l)
  | None => ""
  end.

(** The body of the loop over the tickers, with the map [asserted]. *)
Definition attach_ticker (fk : fetchKey) (st : writer * list (uuid * string)) (id : Identifier) : tx (writer * list (uuid * string)) :=
  let '(w, asserted) := st in
  let res := w_res w in
  o ← tickerOf res id;
  let venue := default ""%string (Operating (rs_mics res) (id_Domain id)) in
  let w' := MkWriter (w_user w) (w_instr w) (w_taken w) (wrote res fk id) in
  match o with
  | Some t =>
      if contains asserted (tk_ID t, venue) then mret (w', asserted)
      else
        AssertInstr (fk_ID fk) t (Some (w_InstrID w)) (fk_AnsweredAt fk) (MkStated venue (currencyOf (rs_families res) fk id));;
        mret (w', asserted ++ [(tk_ID t, venue)])
  | None => mret (w', asserted)
  end.

(** [attach]. *)
Definition attach (w : writer) (c : identityClaim) : tx writer :=
  fk ← tx_some (cl_fetchKey c);
  w ← identify_all (fk_ID fk) None w (cl_Identifiers c);
  w ← tx_fold (attach_family c (fk_ID fk)) w (sorted_keys (cl_Listings c));
  SetFetchKeyInstr (fk_ID fk) (w_user w) (w_InstrID w);;
  st ← tx_fold (attach_ticker fk) (w, []) (AllIDs (cl_Instr c));
  mret (st.1).

(** [writeDated]. *)
Definition writeDated (user : uuid) (res : resolution) (v : Identifier) (arbiter : Arbiter) : tx unit :=
  o ← tickerOf res v;
  match o, Operating (rs_mics res) (id_Domain v) with
  | Some t, Some venue => SetStatedKeyDatedAssociation (sk_ID (rs_row res)) user (tk_ID t) (tk_Market t) venue arbiter
  | _, _ => tx_fail (ErrOther ("date key through " +:+ Name v +:+ ": the system cannot spell the ticker"))
  end.

(** [identityVia]. *)
Fixpoint identityVia (j : join_Instr) (ids : list Identifier) : option IdentifierRow :=
  match ids with
  | [] => None
  | id :: ids' => match join_Identifier j id with Some row => Some row | None => identityVia j ids' end
  end.

(** [associate]; its last branches: a user's choice, a dated key and a key with
    nothing to associate through. A key that may be dated has the identifier
    [via]. *)
Definition associate (w : writer) (arbiter : Arbiter) (choice : option userChoice) : tx bool :=
  let res := w_res w in
  let listingID := lr_ID <$> join_Listing (w_instr w) (rs_family res) in
  let fix_ (via : IdentifierRow) :=
    SetStatedKeyAssociation (sk_ID (rs_row res)) (w_user w) (w_InstrID w) listingID (ir_ID via) arbiter;; mret true in
  match identityVia (w_instr w) (rs_globalAndDescriptionIDs res), choice with
  | Some via, _ => fix_ via
  | None, Some ch =>
      match join_Identifier (w_instr w) (uc_via ch) with
      | None => tx_fail (InstrStore.ErrNoCandidate ("another instrument carries " +:+ Name (uc_via ch)))
      | Some row => fix_ row
      end
  | None, None =>
      match rs_dating res with
      | Some _ => v ← tx_some (rs_via res); writeDated (w_user w) res v arbiter;; mret true
      | None => mret false
      end
  end.

(** * The writer over the tables *)

Section Writing.
(** The instrument written, and the fetch keys of the claims. *)
Context (i : uuid) (keys : list uuid).

(** The writer's copies are the instrument's rows. *)
Record held (w : writer) (db : instr_db) : Prop := {
  hd_id : w_InstrID w = i;
  hd_instr : i ∈ instr_ids db;
  hd_identifiers r : r ∈ ji_Identifiers (w_instr w) <-> r ∈ db_identifiers db /\ ir_InstrID r = i;
  hd_listings l : l ∈ ji_Listings (w_instr w) <-> l ∈ db_listings db /\ lr_InstrID l = i;
}.

(** No instrument but the one written, and those the write leaves apart, has
    the identifier. *)
Definition free (w : writer) (db : instr_db) (id : Identifier) : Prop :=
  forall r, r ∈ db_identifiers db -> to_Identifier r = id -> ir_InstrID r = i \/ id ∈ w_taken w.

Definition carries (w : writer) (id : Identifier) : Prop := is_Some (join_Identifier (w_instr w) id) \/ id ∈ w_taken w.

(** The assertion is of one day. *)
Definition one_day (a : AssertionRow) : Prop := exists t, MkPeriod (ia_AssertedFrom a) (ia_AssertedBefore a) = OneDay t.

(** What a write onto the instrument leaves of the tables. *)
Record extends (db db' : instr_db) : Prop := {
  ex_refs : refs_kept db db';
  ex_instrs : db_instrs db' = db_instrs db;
  ex_identifiers : exists rows, db_identifiers db' = db_identifiers db ++ rows /\ Forall (fun r => ir_InstrID r = i) rows;
  ex_linked : map (fun x => (lr_ID x, lr_InstrID x)) (db_listings db) ⊆ map (fun x => (lr_ID x, lr_InstrID x)) (db_listings db');
  ex_listings x : lr_InstrID x <> i -> (x ∈ db_listings db' <-> x ∈ db_listings db);
  ex_rest : db_stated db' = db_stated db /\ db_coverage db' = db_coverage db /\ db_findings db' = db_findings db /\
    db_resolutions db' = db_resolutions db /\ db_deferred db' = db_deferred db;
  ex_assertions : exists rows, db_validity db' = set_assertions (fun l => l ++ rows) (db_validity db) /\
    Forall (fun a => (ia_InstrID a = Some i /\ one_day a) /\ exists k, k ∈ keys /\ ia_FetchKeyID a = Some k) rows;
}.

(** What a write leaves of the writer. *)
Record grows (w w' : writer) : Prop := {
  gr_user : w_user w' = w_user w;
  gr_taken : w_taken w' = w_taken w;
  gr_row : ji_Row (w_instr w') = ji_Row (w_instr w);
  gr_identifiers : exists rows, ji_Identifiers (w_instr w') = ji_Identifiers (w_instr w) ++ rows;
  gr_listings fam l : join_Listing (w_instr w) fam = Some l -> exists l', join_Listing (w_instr w') fam = Some l' /\ lr_ID l' = lr_ID l;
  gr_res : exists written, w_res w' = rs_with_written (w_res w) written;
}.

Lemma set_assertions_nil v : set_assertions (fun l => l ++ []) v = v.
Proof. destruct v. unfold set_assertions. simpl. by rewrite app_nil_r. Qed.

Lemma set_assertions_app rows rows' v : set_assertions (fun l => l ++ rows') (set_assertions (fun l => l ++ rows) v) = set_assertions (fun l => l ++ rows ++ rows') v.
Proof. unfold set_assertions. simpl. by rewrite <- app_assoc. Qed.

Lemma extends_refl db : extends db db.
Proof.
  split; try done; [exists []; by rewrite app_nil_r | exists []; split; [by rewrite set_assertions_nil | done]].
Qed.

Lemma extends_compose db1 db2 db3 : extends db1 db2 -> extends db2 db3 -> extends db1 db3.
Proof.
  intros [R1 I1 (r1 & E1 & F1) K1 L1 (A1 & B1 & C1 & D1 & G1) (a1 & V1 & W1)] [R2 I2 (r2 & E2 & F2) K2 L2 (A2 & B2 & C2 & D2 & G2) (a2 & V2 & W2)].
  split; try (by etransitivity).
  - by eapply refs_kept_trans.
  - exists (r1 ++ r2). rewrite E2, E1, <- app_assoc. split; [done | by apply Forall_app].
  - intros x Hx. by rewrite (L2 x Hx), (L1 x Hx).
  - repeat split; congruence.
  - exists (a1 ++ a2). rewrite V2, V1, set_assertions_app. split; [done | by apply Forall_app].
Qed.

Lemma grows_refl w : grows w w.
Proof.
  split; try done; [exists []; by rewrite app_nil_r | intros fam l Hl; by exists l | exists (rs_written (w_res w)); by destruct w as [? ? ? []]].
Qed.

Lemma grows_trans w1 w2 w3 : grows w1 w2 -> grows w2 w3 -> grows w1 w3.
Proof.
  intros [U1 T1 R1 (i1 & I1) L1 (s1 & S1)] [U2 T2 R2 (i2 & I2) L2 (s2 & S2)]. split; try congruence.
  - exists (i1 ++ i2). by rewrite I2, I1, <- app_assoc.
  - intros fam l (l' & Hl' & He)%L1. destruct (L2 fam l' Hl') as (l'' & ? & ?). exists l''. split; [done | congruence].
  - exists s2. by rewrite S2, S1.
Qed.

Lemma join_Identifier_app j rows id :
  is_Some (join_Identifier j id) -> is_Some (join_Identifier (MkJoin (ji_Row j) (ji_Identifiers j ++ rows) (ji_Listings j)) id).
Proof.
  unfold join_Identifier. rewrite !find_func_is_Some. intros (x & Hx & He). exists x. split; [apply elem_of_app; by left | done].
Qed.

Lemma carries_grows w w' id : grows w w' -> carries w id -> carries w' id.
Proof.
  intros [_ Ht _ (rows & Hi) _ _] [Hc|Hc]; [left | right; by rewrite Ht]. unfold join_Identifier in *. rewrite Hi.
  apply find_func_is_Some in Hc as (x & Hx & He). apply find_func_is_Some. exists x. split; [apply elem_of_app; by left | done].
Qed.

Lemma free_extends w w' db db' id : grows w w' -> extends db db' -> free w db id -> free w' db' id.
Proof.
  intros Hg He Hf r Hr Hid. destruct (ex_identifiers _ _ He) as (rows & Eq & Hrows). rewrite Eq in Hr. rewrite (gr_taken _ _ Hg).
  apply elem_of_app in Hr as [Hr|Hr]; [by apply (Hf r) | left]. by apply (proj1 (Forall_forall _ _) Hrows).
Qed.

(** The state of the writer and the tables since it was at [w0] and [db0]. *)
Record since (w0 : writer) (db0 : instr_db) (w : writer) (db : instr_db) : Prop := {
  si_writable : writable db;
  si_held : held w db;
  si_extends : extends db0 db;
  si_grows : grows w0 w;
}.

Lemma since_refl w db : writable db -> held w db -> since w db w db.
Proof. intros. split; [done | done | apply extends_refl | apply grows_refl]. Qed.

Lemma since_trans w0 db0 w1 db1 w2 db2 : since w0 db0 w1 db1 -> since w1 db1 w2 db2 -> since w0 db0 w2 db2.
Proof. intros [_ _ ? ?] [? ? ? ?]. split; [done | done | by eapply extends_compose | by eapply grows_trans]. Qed.

(** The fetch key of the claim being written. *)
Context (key : uuid) (Hin : key ∈ keys).

Lemma since_key w0 db0 w db : since w0 db0 w db -> is_Some (db_fetch db0 !! key) -> is_Some (db_fetch db !! key).
Proof. intros [_ _ He _]. apply (kept_fetch _ _ (ex_refs _ _ He)). Qed.

Lemma since_linked w0 db0 w db l : since w0 db0 w db -> listing_of_instr db0 l (Some i) -> listing_of_instr db l (Some i).
Proof. intros [_ _ He _]. destruct l as [l|]; [| done]. simpl. apply (ex_linked _ _ He). Qed.

Lemma Ticker_false id : Ticker id = false -> id_Type id <> IdentifierTypeMicTicker /\ id_Type id <> IdentifierTypeDatasourceTicker.
Proof. unfold Ticker. intros [?%bool_decide_eq_false ?%bool_decide_eq_false]%orb_false_iff. done. Qed.

(** ** Identifiers *)

(** The grain of the identifiers a listing takes, and of those the instrument
    does. *)
Definition listing_grain (listing : option uuid) : IdentifierGrain :=
  match listing with None => IdentifierGrainInstr | Some _ => IdentifierGrainListing end.

Lemma identify_ok w db listing id : writable db -> held w db -> is_Some (db_fetch db !! key) -> listing_of_instr db listing (Some i) ->
  Grain id = listing_grain listing -> Ticker id = false -> free w db id ->
  yields (identify key listing w id) db (fun w' db' => since w db w' db' /\ carries w' id).
Proof.
  intros Hw Hh Hk Hl Hg [Ht1 Ht2]%Ticker_false Hf. unfold identify.
  destruct (bool_decide (is_Some (join_Identifier (w_instr w) id)) || contains (w_taken w) id) eqn:Ec.
  { apply yields_ret. split; [by apply since_refl |]. apply orb_true_iff in Ec as [?%bool_decide_eq_true|?%contains_true]; [by left | by right]. }
  apply orb_false_iff in Ec as [Hnone%bool_decide_eq_false Hnt%contains_false].
  destruct (NewID_ok db Hw) as (Hid & Hw1 & Hf1). set (db1 := set_next _ db) in *.
  assert (forall r, r ∈ db_identifiers db1 -> to_Identifier r <> id) as Hnew.
  { intros r Hr He. destruct (Hf r Hr He) as [Hi|Hi]; [| done]. apply Hnone, find_func_is_Some. exists r.
    rewrite (hd_identifiers _ _ Hh). split; [done | by apply bool_decide_eq_true]. }
  destruct (CreateIdentifier_ok db1 Hw1 (db_next db) (w_InstrID w) listing id (Some key) Hf1) as (Hc & Hw2 & Hkept); try done;
    [by rewrite (hd_id _ _ Hh); apply Hh | by rewrite (hd_id _ _ Hh) |].
  set (row := MkIdentifierRow _ _ _ _ _ _ _) in *. set (db2 := set_identifiers _ db1) in *.
  apply (yields_bind _ _ _ (fun new db' => new = db_next db /\ db' = db1) _ (yields_run _ _ _ _ _ Hid (conj eq_refl eq_refl))). intros ? ? [-> ->].
  apply (yields_bind _ _ _ (fun r db' => r = row /\ db' = db2) _ (yields_run _ _ _ _ _ Hc (conj eq_refl eq_refl))). intros ? ? [-> ->].
  apply yields_ret. assert (to_Identifier row = id) as Hrow by by destruct id. split.
  - split; [done | | |].
    + split; [apply Hh | apply Hh | | apply Hh]. intros r. simpl. rewrite !elem_of_app, !list_elem_of_singleton, (hd_identifiers _ _ Hh).
      split; [intros [[? ?]| ->]; [auto | split; [auto | apply (hd_id _ _ Hh)]] | intros [[?| ->] ?]; auto].
    + split; try done; [split; try done; apply Hkept | | exists []; split; [by rewrite set_assertions_nil | done]].
      exists [row]. split; [done |]. apply Forall_singleton. apply (hd_id _ _ Hh).
    + split; try done; [by exists [row] | intros fam l Hl'; by exists l | exists (rs_written (w_res w)); by destruct w as [? ? ? []]].
  - left. apply find_func_is_Some. exists row. split; [apply elem_of_app; right; by left | by apply bool_decide_eq_true].
Qed.

Lemma identify_all_ok w0 db0 listing ids w db : since w0 db0 w db -> is_Some (db_fetch db0 !! key) -> listing_of_instr db listing (Some i) ->
  (forall id, id ∈ ids -> Ticker id = false -> Grain id = listing_grain listing /\ free w0 db0 id) ->
  yields (identify_all key listing w ids) db (fun w' db' => since w0 db0 w' db' /\ since w db w' db' /\ forall id, id ∈ ids -> Ticker id = false -> carries w' id).
Proof.
  intros Hs Hk Hl Hids. unfold identify_all.
  apply (yields_impl _ _ (fun w' db' => since w db w' db' /\ forall id, id ∈ [] ++ ids -> Ticker id = false -> carries w' id));
    [| intros w' db' [H1 H2]; split; [by eapply since_trans | done]].
  apply (yields_fold _ (fun seen w' db' => since w db w' db' /\ forall id, id ∈ seen -> Ticker id = false -> carries w' id)).
  { split; [apply since_refl; apply Hs | by intros ? ?%elem_of_nil]. }
  intros pre id suf w1 db1 Heq [Hs1 Hpre]. assert (id ∈ ids) as Hid by (simpl in Heq; rewrite Heq; apply elem_of_app; right; by left).
  destruct (Ticker id) eqn:Et.
  { apply yields_ret. split; [done |]. intros x [Hx| ->%list_elem_of_singleton]%elem_of_app Hxt; [by apply Hpre | congruence]. }
  destruct (Hids id Hid Et) as [Hg Hf]. pose proof (since_trans _ _ _ _ _ _ Hs Hs1) as Hs01.
  apply (yields_impl _ _ _ _ (identify_ok w1 db1 listing id (si_writable _ _ _ _ Hs1) (si_held _ _ _ _ Hs1) (since_key _ _ _ _ Hs01 Hk)
    (since_linked _ _ _ _ _ Hs1 Hl) Hg Et (free_extends _ _ _ _ _ (si_grows _ _ _ _ Hs01) (si_extends _ _ _ _ Hs01) Hf))).
  intros w2 db2 [Hs2 Hc]. split; [by eapply since_trans |]. intros x [Hx| ->%list_elem_of_singleton]%elem_of_app Hxt; [| done].
  eapply carries_grows; [apply Hs2 | by apply Hpre].
Qed.

(** ** Listings *)

Lemma join_Listing_map j p id fam :
  join_Listing (MkJoin (ji_Row j) (ji_Identifiers j) (map (fun x => if bool_decide (lr_ID x = id) then with_primary p x else x) (ji_Listings j))) fam =
  (fun x => if bool_decide (lr_ID x = id) then with_primary p x else x) <$> join_Listing j fam.
Proof.
  unfold join_Listing, find_func. simpl. induction (ji_Listings j) as [|x l IH]; simpl; [done |].
  assert (lr_Currency (if bool_decide (lr_ID x = id) then with_primary p x else x) = lr_Currency x) as -> by by case_bool_decide.
  by case_bool_decide.
Qed.

Lemma join_Listing_snoc j row fam :
  join_Listing (MkJoin (ji_Row j) (ji_Identifiers j) (ji_Listings j ++ [row])) fam =
  match join_Listing j fam with Some x => Some x | None => if bool_decide (lr_Currency row = fam) then Some row else None end.
Proof. unfold join_Listing, find_func. simpl. induction (ji_Listings j) as [|x l IH]; simpl; [done |]. destruct (bool_decide (lr_Currency x = fam)); [done | exact IH]. Qed.

Lemma attach_listing_ok c w db fam : writable db -> held w db -> is_Some (db_fetch db !! key) -> fam ∈ db_families db ->
  yields (attach_listing c key w fam) db (fun wl db' => since w db wl.1 db' /\ listing_of_instr db' (Some wl.2) (Some i) /\
    lr_ID <$> join_Listing (w_instr wl.1) fam = Some wl.2).
Proof.
  intros Hw Hh Hk Hfam. unfold attach_listing. set (p := nullif _). destruct (join_Listing (w_instr w) fam) as [l|] eqn:El.
  - pose proof El as [Hl Hlc%bool_decide_eq_true]%find_func_Some. apply (hd_listings _ _ Hh) in Hl as [Hl Hli].
    assert (listing_of_instr db (Some (lr_ID l)) (Some i)) as Hlk by (apply list_elem_of_fmap; exists l; by rewrite Hli).
    destruct (bool_decide (lr_PrimaryMic l = None) && negb (bool_decide (p = None))) eqn:Ep.
    2:{ apply yields_ret. split; [by apply since_refl |]. split; [done |]. simpl. by rewrite El. }
    apply andb_true_iff in Ep as [Hp%bool_decide_eq_true _].
    destruct (SetListingPrimary_ok db Hw (lr_ID l) p) as (Hrun & Hw' & Hkept). set (db' := set_listings _ db) in *.
    apply (yields_bind _ _ _ (fun _ d => d = db') _ (yields_run _ _ _ _ _ Hrun eq_refl)). intros ? ? ->. apply yields_ret.
    assert (forall x, x ∈ db_listings db -> (if bool_decide (lr_ID x = lr_ID l) && bool_decide (lr_PrimaryMic x = None) then with_primary p x else x) =
      (if bool_decide (lr_ID x = lr_ID l) then with_primary p x else x)) as Hsame.
    { intros x Hx. case_bool_decide as He; [| done]. assert (x = l) as -> by (by apply (NoDup_key lr_ID (db_listings db)); [apply (ok_listing_ID _ (wb_ok _ Hw)) | ..]).
      by rewrite Hp. }
    set (up := fun x => if bool_decide (lr_ID x = lr_ID l) then with_primary p x else x).
    assert (db_listings db' = map up (db_listings db)) as Hls by (simpl; apply map_ext_in; intros x Hx%list_elem_of_In; by apply Hsame).
    assert (forall x, lr_InstrID (up x) = lr_InstrID x /\ lr_ID (up x) = lr_ID x) as Hup by (intros x; unfold up; by case_bool_decide).
    pose proof (join_Listing_map (w_instr w) p (lr_ID l)) as Hjm. fold up in Hjm.
    split; [split; [done | | |] | split].
    + split; [apply Hh | apply Hh | apply Hh |]. intros x. rewrite Hls. simpl. fold up. rewrite !list_elem_of_fmap. split.
      * intros (y & -> & Hy). apply (hd_listings _ _ Hh) in Hy as [Hy Hyi]. rewrite (proj1 (Hup y)). split; [by exists y | done].
      * intros [(y & -> & Hy) Hyi]. rewrite (proj1 (Hup y)) in Hyi. exists y. split; [done |]. by apply (hd_listings _ _ Hh).
    + split; try done; [by exists []; rewrite app_nil_r | | | exists []; split; [by rewrite set_assertions_nil | done]].
      * rewrite Hls, map_update_same; [done |]. intros x. by destruct (Hup x) as [-> ->].
      * intros x Hx. rewrite Hls, list_elem_of_fmap. split; [intros (y & -> & Hy) | intros Hy; exists x].
        -- unfold up. case_bool_decide as He; [| done]. exfalso. rewrite (proj1 (Hup y)) in Hx. apply Hx.
           assert (y = l) as -> by (by apply (NoDup_key lr_ID (db_listings db)); [apply (ok_listing_ID _ (wb_ok _ Hw)) | ..]). done.
        -- split; [| done]. unfold up. rewrite bool_decide_eq_false_2; [done |]. intros He. apply Hx.
           assert (x = l) as -> by (by apply (NoDup_key lr_ID (db_listings db)); [apply (ok_listing_ID _ (wb_ok _ Hw)) | ..]). done.
    + split; try done; [by exists []; rewrite app_nil_r | | exists (rs_written (w_res w)); by destruct w as [? ? ? []]].
      intros f x Hx. simpl. rewrite Hjm, Hx. exists (up x). split; [done | apply Hup].
    + change ((lr_ID l, i) ∈ map (fun x => (lr_ID x, lr_InstrID x)) (db_listings db')). rewrite Hls. apply list_elem_of_fmap. exists (up l). split; [by destruct (Hup l) as [-> ->]; rewrite Hli |]. apply list_elem_of_fmap. eauto.
    + simpl. rewrite Hjm, El. simpl. f_equal. apply Hup.
  - destruct (NewID_ok db Hw) as (Hid & Hw1 & Hf1). set (db1 := set_next _ db) in *.
    assert (forall x, x ∈ ji_Listings (w_instr w) -> lr_Currency x <> fam) as Hno.
    { intros x Hx Hc. unfold join_Listing in El. rewrite find_func_None in El. pose proof (El x Hx) as Hf. simpl in Hf. by rewrite bool_decide_eq_true_2 in Hf. }
    destruct (CreateListing_ok db1 Hw1 (db_next db) (w_InstrID w) fam (Some key) p Hf1) as (Hc & Hw2 & Hkept); try done.
    { rewrite (hd_id _ _ Hh). apply Hh. }
    { intros x Hx Hxi. apply Hno. apply (hd_listings _ _ Hh). by rewrite (hd_id _ _ Hh) in Hxi. }
    set (row := MkInstrListing _ _ _ _ _) in *. set (db2 := set_listings _ db1) in *.
    apply (yields_bind _ _ _ (fun new d => new = db_next db /\ d = db1) _ (yields_run _ _ _ _ _ Hid (conj eq_refl eq_refl))). intros ? ? [-> ->].
    apply (yields_bind _ _ _ (fun r d => r = row /\ d = db2) _ (yields_run _ _ _ _ _ Hc (conj eq_refl eq_refl))). intros ? ? [-> ->].
    apply yields_ret. assert (lr_InstrID row = i) as Hrow by apply (hd_id _ _ Hh).
    pose proof (join_Listing_snoc (w_instr w) row) as Hjoin.
    split; [split; [done | | |] | split].
    + split; [apply Hh | apply Hh | apply Hh |]. intros x. simpl. rewrite !elem_of_app, !list_elem_of_singleton, (hd_listings _ _ Hh).
      split; [intros [[? ?]| ->]; auto | intros [[?| ->] ?]; auto].
    + split; try done; [split; try done; apply Hkept | by exists []; rewrite app_nil_r | | | exists []; split; [by rewrite set_assertions_nil | done]].
      * simpl. rewrite map_app. set_solver.
      * intros x Hx. simpl. rewrite elem_of_app, list_elem_of_singleton. split; [intros [?| ->]; done | auto].
    + split; try done; [by exists []; rewrite app_nil_r | | exists (rs_written (w_res w)); by destruct w as [? ? ? []]].
      intros f x Hx. simpl. rewrite Hjoin, Hx. by exists x.
    + simpl. rewrite map_app. apply elem_of_app. right. rewrite (eq_sym Hrow : i = w_InstrID w). by left.
    + simpl. rewrite Hjoin, El. by rewrite bool_decide_eq_true_2.
Qed.

(** The identifiers of a claim that are written: none of a listing in no known
    currency. *)
Definition written_ids (c : identityClaim) : list Identifier :=
  List.filter (fun id => negb (Ticker id)) (cl_Identifiers c ++
    concat (map (fun f => if bool_decide (f = noFamily) then [] else listing_Identifiers (listing_of (cl_Instr c) f)) (sorted_keys (cl_Listings c)))).

(** A claim of a response, whose identifiers no instrument left apart has. *)
Record attachable (w : writer) (db : instr_db) (c : identityClaim) : Prop := {
  at_instr id : id ∈ cl_Identifiers c -> Grain id = IdentifierGrainInstr;
  at_listing f id : id ∈ listing_Identifiers (listing_of (cl_Instr c) f) -> Grain id = IdentifierGrainListing;
  at_family f : is_Some (cl_Listings c !! f) -> f = noFamily \/ f ∈ db_families db;
  at_free id : id ∈ written_ids c -> free w db id;
}.

Lemma elem_of_written_ids c id : id ∈ written_ids c <-> Ticker id = false /\
  (id ∈ cl_Identifiers c \/ exists f, f <> noFamily /\ f ∈ sorted_keys (cl_Listings c) /\ id ∈ listing_Identifiers (listing_of (cl_Instr c) f)).
Proof.
  unfold written_ids. rewrite elem_of_lfilter, negb_true_iff, elem_of_app, elem_of_concat_map. split.
  - intros [[Hi|(f & Hf & Hi)] Ht]; [auto |]. case_bool_decide; [by apply elem_of_nil in Hi |]. eauto 10.
  - intros [Ht [Hi|(f & Hn & Hf & Hi)]]; [auto |]. split; [right; exists f; split; [done | by rewrite bool_decide_eq_false_2] | done].
Qed.

Lemma attach_families_ok w0 db0 c w db : since w0 db0 w db -> is_Some (db_fetch db0 !! key) -> attachable w0 db0 c ->
  yields (tx_fold (attach_family c key) w (sorted_keys (cl_Listings c))) db (fun w' db' => since w0 db0 w' db' /\ since w db w' db' /\
    forall f id, f ∈ sorted_keys (cl_Listings c) -> f <> noFamily -> id ∈ listing_Identifiers (listing_of (cl_Instr c) f) -> Ticker id = false -> carries w' id).
Proof.
  intros Hs Hk Ha. set (fams := sorted_keys (cl_Listings c)).
  set (seen_ok := fun (seen : list string) (w' : writer) => forall f id, f ∈ seen -> f <> noFamily -> id ∈ listing_Identifiers (listing_of (cl_Instr c) f) -> Ticker id = false -> carries w' id).
  apply (yields_impl _ _ (fun w' db' => since w db w' db' /\ seen_ok ([] ++ fams) w')); [| intros w' db' [H1 H2]; split; [by eapply since_trans | done]].
  apply (yields_fold _ (fun seen w' db' => since w db w' db' /\ seen_ok seen w')).
  { split; [apply since_refl; apply Hs | by intros ? ? ?%elem_of_nil]. }
  intros pre f suf w1 db1 Heq [Hs1 Hpre]. assert (f ∈ fams) as Hf by (simpl in Heq; rewrite Heq; apply elem_of_app; right; by left).
  unfold attach_family. case_bool_decide as Hn.
  { apply yields_ret. split; [done |]. intros g id [Hg| ->%list_elem_of_singleton]%elem_of_app Hgn Hid Ht; [by apply (Hpre g) | done]. }
  pose proof (since_trans _ _ _ _ _ _ Hs Hs1) as Hs01.
  assert (f ∈ db_families db1) as Hfam.
  { destruct (at_family _ _ _ Ha f) as [?|Hfam]; [by apply elem_of_sorted_keys | done |].
    by rewrite <- (kept_families _ _ (ex_refs _ _ (si_extends _ _ _ _ Hs01))). }
  apply (yields_bind _ _ _ _ _ (attach_listing_ok c w1 db1 f (si_writable _ _ _ _ Hs1) (si_held _ _ _ _ Hs1) (since_key _ _ _ _ Hs01 Hk) Hfam)).
  intros [w2 l] db2 (Hs2 & Hl & _). simpl in *. pose proof (since_trans _ _ _ _ _ _ Hs01 Hs2) as Hs02.
  apply (yields_impl _ _ _ _ (identify_all_ok w0 db0 (Some l) (listing_Identifiers (listing_of (cl_Instr c) f)) w2 db2 Hs02 Hk Hl
    ltac:(intros id Hid Ht; split; [by apply (at_listing _ _ _ Ha f) | apply (at_free _ _ _ Ha), elem_of_written_ids; eauto 10]))).
  intros w3 db3 (_ & Hs3 & Hc). split; [eapply since_trans; [| done]; by eapply since_trans |].
  intros g id [Hg| ->%list_elem_of_singleton]%elem_of_app Hgn Hid Ht; [| by apply Hc].
  eapply carries_grows; [apply (si_grows _ _ _ _ (since_trans _ _ _ _ _ _ Hs2 Hs3)) | by apply (Hpre g)].
Qed.

(** ** Tickers *)

(** The tickers of the identifiers have rows, which the resolution holds or the
    table does. *)
Definition tickers_known (res : resolution) (db : instr_db) (ids : list Identifier) : Prop :=
  NoDup (map ticker_of (vd_tickers (db_validity db))) /\
  (forall t r, rs_tickers res !! t = Some r -> r ∈ vd_tickers (db_validity db) /\ ticker_of r = t) /\
  (forall id t, id ∈ ids -> spelled_ticker (rs_mics res) id = Some t -> t ∈ map ticker_of (vd_tickers (db_validity db))).

Lemma tickerOf_ok res db ids id : tickers_known res db ids -> id ∈ ids ->
  exists o, tickerOf res id db = Ok (o, db) /\
    match spelled_ticker (rs_mics res) id with
    | Some t => exists r, o = Some r /\ r ∈ vd_tickers (db_validity db) /\ ticker_of r = t
    | None => o = None
    end.
Proof.
  intros (Hnd & Hres & Hids) Hid. unfold tickerOf. destruct (spelled_ticker (rs_mics res) id) as [t|] eqn:Et; [| by exists None].
  destruct (rs_tickers res !! t) as [r|] eqn:Er; [exists (Some r); split; [done |]; exists r; split; [done | by apply Hres] |].
  destruct (proj1 (list_elem_of_fmap _ _ _) (Hids id t Hid Et)) as (r & -> & Hr).
  rewrite (tx_bind_ok _ _ db db db) by done. rewrite (proj2 (Find_spec _ [ticker_of r] (ticker_of r) r Hnd)) by (split; [by left | done]).
  exists (Some r). split; [done |]. by exists r.
Qed.

(** The codes the resolution takes for known are those of the table. *)
Definition codes_ok (f : Families) (db : instr_db) : Prop := forall c, Known f c = true -> c ∈ db_codes db.

Lemma currencyOf_ok f fk id db : codes_ok f db -> refers (db_codes db) (nullif (currencyOf f fk id)).
Proof.
  intros Hc. unfold currencyOf, nullif. case_bool_decide as Hn; [done |]. simpl. destruct (find_func _ _) as [l|]; [| done].
  unfold known in *. destruct (Known f (ml_Currency l)) eqn:Ek; [by apply Hc | done].
Qed.


Lemma wrote_written res fk id : exists written, wrote res fk id = rs_with_written res written.
Proof. unfold wrote. destruct (_ && _); [eauto |]. exists (rs_written res). by destruct res. Qed.

Lemma OneDay_order t : p_From (OneDay t) < p_Before (OneDay t).
Proof. unfold OneDay, AddDays. simpl. pose proof day_len_pos. lia. Qed.

(** The assertion of the ticker row [t] at [venue], of the day of the answer. *)
Definition asserts (fk : fetchKey) (a : AssertionRow) (t : uuid) (venue : string) : Prop :=
  ia_FetchKeyID a = Some key /\ ia_InstrID a = Some i /\ ia_TickerID a = t /\ ia_Venue a = nullif venue /\
  ia_AssertedFrom a = p_From (OneDay (fk_AnsweredAt fk)) /\ ia_AssertedBefore a = p_Before (OneDay (fk_AnsweredAt fk)).

(** The assertions of the fetch key are those of [asserted]. *)
Definition asserted_ok (fk : fetchKey) (db : instr_db) (asserted : list (uuid * string)) : Prop :=
  (forall a, a ∈ vd_assertions (db_validity db) -> ia_FetchKeyID a = Some key -> exists tv, tv ∈ asserted /\ asserts fk a tv.1 tv.2) /\
  (forall tv, tv ∈ asserted -> exists a, a ∈ vd_assertions (db_validity db) /\ asserts fk a tv.1 tv.2).

(** The ticker of [id] is asserted of the instrument, at the venue of [id]. *)
Definition asserted_id (fk : fetchKey) (mics : MICMap) (asserted : list (uuid * string)) (db : instr_db) (id : Identifier) : Prop :=
  forall t, spelled_ticker mics id = Some t -> exists r, r ∈ vd_tickers (db_validity db) /\ ticker_of r = t /\
    (tk_ID r, default ""%string (Operating mics (id_Domain id))) ∈ asserted.

Lemma assert_ok w db fk t venue : writable db -> held w db -> fk_ID fk = key -> is_Some (db_fetch db !! key) -> codes_ok (rs_families (w_res w)) db ->
  t ∈ vd_tickers (db_validity db) -> forall id asserted, asserted_ok fk db asserted -> (tk_ID t, venue) ∉ asserted ->
  yields (AssertInstr (fk_ID fk) t (Some (w_InstrID w)) (fk_AnsweredAt fk) (MkStated venue (currencyOf (rs_families (w_res w)) fk id))) db
    (fun _ db' => since w db w db' /\ asserted_ok fk db' (asserted ++ [(tk_ID t, venue)])).
Proof.
  intros Hw Hh Hkey Hk Hc Ht id asserted [Ha1 Ha2] Hn. unfold AssertInstr.
  destruct (assert_row_ok db Hw (fk_ID fk) t (Some (w_InstrID w)) (OneDay (fk_AnsweredAt fk)) false false
    (MkStated venue (currencyOf (rs_families (w_res w)) fk id))) as (Hrun & Hw2 & Hkept); try done.
  { by rewrite Hkey. }
  { simpl. rewrite (hd_id _ _ Hh). apply Hh. }
  { apply OneDay_order. }
  { by apply currencyOf_ok. }
  { intros x Hx Hx1 Hx3 _ Hx5. rewrite Hkey in Hx1. destruct (Ha1 x Hx Hx1) as ([t' v'] & Htv & (_ & _ & Ht' & Hv' & _)). simpl in *.
    rewrite Ht' in Hx3. rewrite Hv' in Hx5. apply nullif_inj in Hx5. subst. by apply Hn. }
  set (a := assert_row _ _ _ _ _ _ _ _) in *. set (db2 := set_validity_db _ _) in *.
  assert (asserts fk a (tk_ID t) venue) as Has by (repeat split; simpl; try done; f_equal; [done | apply (hd_id _ _ Hh)]).
  apply (yields_run _ _ tt db2); [exact Hrun |]. split.
  - split; [done | | | apply grows_refl].
    + split; apply Hh.
    + split; try done; [by exists []; rewrite app_nil_r |]. exists [a]. split; [done |]. apply Forall_singleton. destruct Has as (? & ? & _). split; [split; [done | by exists (fk_AnsweredAt fk)] | eauto].
  - split.
    + intros x [Hx| ->%list_elem_of_singleton]%elem_of_app Hxk.
      * destruct (Ha1 x Hx Hxk) as (tv & ? & ?). exists tv. split; [apply elem_of_app; by left | done].
      * exists (tk_ID t, venue). split; [apply elem_of_app; right; by left | done].
    + intros tv [Htv| ->%list_elem_of_singleton]%elem_of_app.
      * destruct (Ha2 tv Htv) as (x & ? & ?). exists x. split; [apply elem_of_app; by left | done].
      * exists a. split; [apply elem_of_app; right; by left | done].
Qed.

Lemma since_wrote w db fk id : writable db -> held w db -> since w db (MkWriter (w_user w) (w_instr w) (w_taken w) (wrote (w_res w) fk id)) db.
Proof.
  intros Hw Hh. split; [done | split; apply Hh | apply extends_refl |]. destruct (wrote_written (w_res w) fk id) as [ws ->].
  split; try done; [by exists []; rewrite app_nil_r | intros fam l Hl; by exists l | by exists ws].
Qed.

Lemma grows_res w w' : grows w w' -> rs_mics (w_res w') = rs_mics (w_res w) /\ rs_families (w_res w') = rs_families (w_res w) /\
  rs_tickers (w_res w') = rs_tickers (w_res w) /\ rs_row (w_res w') = rs_row (w_res w) /\ rs_fetchKeys (w_res w') = rs_fetchKeys (w_res w).
Proof. intros [_ _ _ _ _ [ws ->]]. done. Qed.

Lemma tickers_known_since w w' db db' ids : since w db w' db' -> tickers_known (w_res w) db ids -> tickers_known (w_res w') db' ids.
Proof.
  intros Hs (H1 & H2 & H3). destruct (grows_res _ _ (si_grows _ _ _ _ Hs)) as (Em & _ & Et & _ & _). unfold tickers_known. rewrite Em, Et.
  by rewrite <- (kept_tickers _ _ (ex_refs _ _ (si_extends _ _ _ _ Hs))).
Qed.

Lemma codes_ok_since w w' db db' : since w db w' db' -> codes_ok (rs_families (w_res w)) db -> codes_ok (rs_families (w_res w')) db'.
Proof.
  intros Hs Hc. destruct (grows_res _ _ (si_grows _ _ _ _ Hs)) as (_ & Ef & _). unfold codes_ok. rewrite Ef.
  by rewrite <- (kept_codes _ _ (ex_refs _ _ (si_extends _ _ _ _ Hs))).
Qed.

Lemma attach_tickers_ok fk ids w db : writable db -> held w db -> fk_ID fk = key -> is_Some (db_fetch db !! key) -> codes_ok (rs_families (w_res w)) db ->
  tickers_known (w_res w) db ids -> (forall a, a ∈ vd_assertions (db_validity db) -> ia_FetchKeyID a <> Some key) ->
  yields (tx_fold (attach_ticker fk) (w, []) ids) db (fun st db' => since w db st.1 db' /\ asserted_ok fk db' st.2 /\
    forall id, id ∈ ids -> asserted_id fk (rs_mics (w_res w)) st.2 db' id).
Proof.
  intros Hw Hh Hkey Hk Hc Ht Hno.
  apply (yields_fold _ (fun seen st db' => since w db st.1 db' /\ asserted_ok fk db' st.2 /\ forall id, id ∈ seen -> asserted_id fk (rs_mics (w_res w)) st.2 db' id) ids []).
  { split; [by apply since_refl |]. split; [split; [intros a Ha He; by destruct (Hno a Ha) | by intros ? ?%elem_of_nil] | by intros ? ?%elem_of_nil]. }
  intros pre id suf [w1 asserted] db1 Heq (Hs1 & Ha & Hpre). simpl in *. assert (id ∈ ids) as Hid by (rewrite Heq; apply elem_of_app; right; by left).
  pose proof (grows_res _ _ (si_grows _ _ _ _ Hs1)) as (Em & _). pose proof (tickers_known_since _ _ _ _ _ Hs1 Ht) as Ht1.
  destruct (tickerOf_ok _ _ _ id Ht1 Hid) as (o & Hrun & Ho). rewrite Em in *.
  apply (yields_bind _ _ _ (fun o' d => o' = o /\ d = db1) _ (yields_run _ _ _ _ _ Hrun (conj eq_refl eq_refl))). intros ? ? [-> ->].
  set (venue := default ""%string _). pose proof (since_wrote w1 db1 fk id (si_writable _ _ _ _ Hs1) (si_held _ _ _ _ Hs1)) as Hsw. set (w1' := MkWriter _ _ _ _) in *.
  destruct (spelled_ticker (rs_mics (w_res w)) id) as [t|] eqn:Et; [destruct Ho as (r & -> & Hr & Hrt) | subst o].
  2:{ apply yields_ret. split; [by eapply since_trans |]. split; [done |]. intros x [Hx| ->%list_elem_of_singleton]%elem_of_app; [by apply Hpre |].
      intros t Hxt. simpl in Hxt. congruence. }
  destruct (contains asserted (tk_ID r, venue)) eqn:Eca.
  { apply yields_ret. split; [by eapply since_trans |]. split; [done |]. intros x [Hx| ->%list_elem_of_singleton]%elem_of_app; [by apply Hpre |].
    intros t' Hxt. assert (t' = t) as -> by congruence. exists r. split; [done |]. split; [done |]. by apply contains_true in Eca. }
  apply contains_false in Eca.
  apply (yields_bind _ _ _ _ _ (assert_ok w1 db1 fk r venue (si_writable _ _ _ _ Hs1) (si_held _ _ _ _ Hs1) Hkey (since_key _ _ _ _ Hs1 Hk) (codes_ok_since _ _ _ _ Hs1 Hc) Hr id asserted Ha Eca)).
  intros [] db2 [Hs2 Ha2]. apply yields_ret. simpl.
  pose proof (since_wrote w1 db2 fk id (si_writable _ _ _ _ Hs2) (si_held _ _ _ _ Hs2)) as Hsw2.
  split; [eapply since_trans; [exact Hs1 | by eapply since_trans] |]. split; [done |].
  pose proof (kept_tickers _ _ (ex_refs _ _ (si_extends _ _ _ _ Hs2))) as Ekt.
  intros x [Hx| ->%list_elem_of_singleton]%elem_of_app t' Hxt.
  - destruct (Hpre x Hx t' Hxt) as (r' & ? & ? & ?). exists r'. rewrite <- Ekt. split; [done |]. split; [done | apply elem_of_app; by left].
  - assert (t' = t) as -> by congruence. exists r. rewrite <- Ekt. split; [done |]. split; [done | apply elem_of_app; right; by left].
Qed.

(** ** A claim *)

Lemma keeping_identify listing w id : keeping same_validity (identify key listing w id).
Proof. unfold identify, CreateIdentifier. keeping. Qed.

#[local] Hint Resolve keeping_identify : keeping.

Lemma keeping_identify_all listing w ids : keeping same_validity (identify_all key listing w ids).
Proof. unfold identify_all. keeping. Qed.

#[local] Hint Resolve keeping_identify_all : keeping.

Lemma keeping_attach_families c w fams : keeping same_validity (tx_fold (attach_family c key) w fams).
Proof. unfold attach_family, attach_listing, CreateListing, SetListingPrimary. keeping. Qed.

(** The claim is written: the instrument carries its identifiers, but for those
    left on another, and its tickers are asserted. *)
Record attached_to (fk : fetchKey) (w : writer) (db : instr_db) (c : identityClaim) : Prop := {
  ac_carries id : id ∈ written_ids c -> carries w id;
  ac_asserted : exists asserted, asserted_ok fk db asserted /\ forall id, id ∈ AllIDs (cl_Instr c) -> asserted_id fk (rs_mics (w_res w)) asserted db id;
}.

Lemma attach_ok fk c w db : writable db -> held w db -> cl_fetchKey c = Some fk -> fk_ID fk = key -> is_Some (db_fetch db !! key) ->
  attachable w db c -> codes_ok (rs_families (w_res w)) db -> tickers_known (w_res w) db (AllIDs (cl_Instr c)) ->
  (forall a, a ∈ vd_assertions (db_validity db) -> ia_FetchKeyID a <> Some key) ->
  yields (attach w c) db (fun w' db' => since w db w' db' /\ attached_to fk w' db' c).
Proof.
  intros Hw Hh Hfk Hkey Hk Ha Hc Ht Hno. unfold attach. apply (yields_some _ fk); [done |]. rewrite Hkey. pose proof (since_refl w db Hw Hh) as Hs0.
  apply (yields_bind _ _ _ _ _ (yields_keeping same_validity _ _ _ (keeping_identify_all None w (cl_Identifiers c))
    (identify_all_ok w db None (cl_Identifiers c) w db Hs0 Hk I ltac:(intros id Hid Htk; split; [by apply (at_instr _ _ _ Ha) | apply (at_free _ _ _ Ha), elem_of_written_ids; auto])))).
  intros w1 db1 [Hq1 (Hs1 & _ & Hc1)].
  apply (yields_bind _ _ _ _ _ (yields_keeping same_validity _ _ _ (keeping_attach_families c w1 (sorted_keys (cl_Listings c))) (attach_families_ok w db c w1 db1 Hs1 Hk Ha))).
  intros w2 db2 [Hq2 (Hs2 & Hs12 & Hc2)].
  destruct (SetFetchKeyInstr_ok db2 (si_writable _ _ _ _ Hs2) key (w_user w2) (w_InstrID w2)) as (Hrun & Hw3 & Hkept).
  { rewrite (hd_id _ _ (si_held _ _ _ _ Hs2)). apply (si_held _ _ _ _ Hs2). }
  set (db3 := set_fetch _ db2) in *. apply (yields_bind _ _ _ (fun _ d => d = db3) _ (yields_run _ _ _ _ _ Hrun eq_refl)). intros _ ? ->.
  assert (since w2 db2 w2 db3) as Hs23.
  { split; [done | split; apply (si_held _ _ _ _ Hs2) | | apply grows_refl]. split; try done; [by exists []; rewrite app_nil_r | exists []; by rewrite set_assertions_nil]. }
  pose proof (since_trans _ _ _ _ _ _ Hs2 Hs23) as Hs3.
  eapply yields_bind.
  { apply (attach_tickers_ok fk (AllIDs (cl_Instr c)) w2 db3 Hw3 (si_held _ _ _ _ Hs23) Hkey (since_key _ _ _ _ Hs3 Hk) (codes_ok_since _ _ _ _ Hs3 Hc)
      (tickers_known_since _ _ _ _ _ Hs3 Ht)). intros a. change (db_validity db3) with (db_validity db2). rewrite Hq2, Hq1. apply Hno. }
  intros [w4 asserted] db4 (Hs4 & Has & Hids). apply yields_ret. simpl in *. split; [by eapply since_trans |].
  destruct (grows_res _ _ (si_grows _ _ _ _ Hs4)) as [Em _]. split; [| exists asserted; split; [done |]; by rewrite Em].
  intros id [Htk [Hid|(f & Hf & Hfk' & Hid)]]%elem_of_written_ids.
  - eapply carries_grows; [apply (si_grows _ _ _ _ (since_trans _ _ _ _ _ _ Hs12 (since_trans _ _ _ _ _ _ Hs23 Hs4))) | by apply Hc1].
  - eapply carries_grows; [apply (si_grows _ _ _ _ (since_trans _ _ _ _ _ _ Hs23 Hs4)) | by apply (Hc2 f)].
Qed.

End Writing.

(** * Several claims *)

Definition keys_of (cs : list identityClaim) : list uuid := map fk_ID (omap cl_fetchKey cs).

Lemma keys_of_snoc cs c fk : cl_fetchKey c = Some fk -> keys_of (cs ++ [c]) = keys_of cs ++ [fk_ID fk].
Proof. intros Hfk. unfold keys_of. rewrite omap_app, map_app. simpl. by rewrite Hfk. Qed.

Lemma elem_of_keys_of cs k : k ∈ keys_of cs <-> exists c fk, c ∈ cs /\ cl_fetchKey c = Some fk /\ fk_ID fk = k.
Proof.
  unfold keys_of. rewrite list_elem_of_fmap. setoid_rewrite list_elem_of_omap. split.
  - intros (fk & -> & c & Hc & Hfk). eauto 10.
  - intros (c & fk & Hc & Hfk & <-). eauto 10.
Qed.

Section Several.
Context (i : uuid).

Lemma extends_mono keys keys' db db' : keys ⊆ keys' -> extends i keys db db' -> extends i keys' db db'.
Proof.
  intros Hk [H1 H2 H3 H4 H5 H6 (rows & Hv & Hf)]. split; try done. exists rows. split; [done |].
  eapply Forall_impl; [exact Hf |]. intros a (? & k & ? & ?). split; [done |]. exists k. auto.
Qed.

Lemma since_mono keys keys' w0 db0 w db : keys ⊆ keys' -> since i keys w0 db0 w db -> since i keys' w0 db0 w db.
Proof. intros Hk [? ? ? ?]. split; try done. by eapply extends_mono. Qed.

Lemma attachable_since keys w db w' db' c : since i keys w db w' db' -> attachable i w db c -> attachable i w' db' c.
Proof.
  intros [_ _ He Hg] [H1 H2 H3 H4]. split; try done.
  - intros f Hf. rewrite <- (kept_families _ _ (ex_refs _ _ _ _ He)). by apply H3.
  - intros id Hid. by eapply free_extends; [| | apply H4].
Qed.

Lemma attached_to_since keys key fk w db w' db' c : since i keys w db w' db' -> key ∉ keys -> attached_to i key fk w db c -> attached_to i key fk w' db' c.
Proof.
  intros Hs Hk [H1 (asserted & [Ha1 Ha2] & Hid)]. destruct (grows_res _ _ (si_grows _ _ _ _ _ _ Hs)) as [Em _].
  destruct (ex_assertions _ _ _ _ (si_extends _ _ _ _ _ _ Hs)) as (rows & Hv & Hrows). split.
  - intros id Hi. eapply carries_grows; [apply Hs | by apply H1].
  - exists asserted. split; [split | intros id Hi t Ht; rewrite Em in Ht].
    + intros a Ha He. rewrite Hv in Ha. simpl in Ha. apply elem_of_app in Ha as [Ha|Ha]; [by apply Ha1 |].
      destruct (proj1 (Forall_forall _ _) Hrows a Ha) as (_ & k & Hkk & Hak). congruence.
    + intros tv Htv. destruct (Ha2 tv Htv) as (a & ? & ?). exists a. split; [| done]. rewrite Hv. apply elem_of_app. by left.
    + destruct (Hid id Hi t Ht) as (r & ? & ? & ?). exists r. rewrite <- (kept_tickers _ _ (ex_refs _ _ _ _ (si_extends _ _ _ _ _ _ Hs))), Em. done.
Qed.

Lemma attach_all_ok cs w db : writable db -> held i w db -> NoDup (keys_of cs) ->
  (forall c, c ∈ cs -> exists fk, cl_fetchKey c = Some fk /\ is_Some (db_fetch db !! fk_ID fk) /\ attachable i w db c /\ tickers_known (w_res w) db (AllIDs (cl_Instr c)) /\
    forall a, a ∈ vd_assertions (db_validity db) -> ia_FetchKeyID a <> Some (fk_ID fk)) ->
  codes_ok (rs_families (w_res w)) db ->
  yields (tx_fold attach w cs) db (fun w' db' => since i (keys_of cs) w db w' db' /\
    forall c, c ∈ cs -> exists fk, cl_fetchKey c = Some fk /\ attached_to i (fk_ID fk) fk w' db' c).
Proof.
  intros Hw Hh Hnd Hcs Hcodes.
  apply (yields_fold _ (fun seen w' db' => since i (keys_of seen) w db w' db' /\ forall c, c ∈ seen -> exists fk, cl_fetchKey c = Some fk /\ attached_to i (fk_ID fk) fk w' db' c) cs []).
  { split; [by apply since_refl | by intros ? ?%elem_of_nil]. }
  intros pre c suf w1 db1 Heq [Hs1 Hpre]. simpl in Heq. destruct (Hcs c) as (fk & Hfk & Hk & Ha & Ht & Hno); [rewrite Heq; apply elem_of_app; right; by left |].
  assert (fk_ID fk ∉ keys_of pre) as Hnk.
  { rewrite Heq in Hnd. change (c :: suf) with ([c] ++ suf) in Hnd. rewrite app_assoc in Hnd. unfold keys_of in Hnd. rewrite omap_app, map_app in Hnd. apply NoDup_app in Hnd as [Hnd _].
    change (NoDup (keys_of (pre ++ [c]))) in Hnd. rewrite (keys_of_snoc _ _ _ Hfk) in Hnd. apply NoDup_app in Hnd as (_ & Hd & _).
    intros Hin. apply (Hd _ Hin). by left. }
  eapply yields_impl.
  { apply (attach_ok i [fk_ID fk] (fk_ID fk) ltac:(by left) fk c w1 db1 (si_writable _ _ _ _ _ _ Hs1) (si_held _ _ _ _ _ _ Hs1) Hfk eq_refl).
    - apply (kept_fetch _ _ (ex_refs _ _ _ _ (si_extends _ _ _ _ _ _ Hs1))), Hk.
    - by eapply attachable_since.
    - by eapply codes_ok_since.
    - by eapply tickers_known_since.
    - intros a Haa He. destruct (ex_assertions _ _ _ _ (si_extends _ _ _ _ _ _ Hs1)) as (rows & Hv & Hrows). rewrite Hv in Haa. simpl in Haa.
      apply elem_of_app in Haa as [Haa|Haa]; [by apply (Hno a) |]. destruct (proj1 (Forall_forall _ _) Hrows a Haa) as (_ & k & Hkk & Hak). congruence. }
  intros w2 db2 [Hs2 Hat]. rewrite (keys_of_snoc _ _ _ Hfk). split.
  - eapply since_trans; [eapply since_mono; [| exact Hs1] | eapply since_mono; [| exact Hs2]]; intros k Hkk; apply elem_of_app; auto.
  - intros x [Hx| ->%list_elem_of_singleton]%elem_of_app; [| by exists fk]. destruct (Hpre x Hx) as (fk' & Hfk' & Hat'). exists fk'. split; [done |].
    eapply attached_to_since; [exact Hs2 | | exact Hat']. intros Hin%list_elem_of_singleton. apply Hnk. rewrite <- Hin. apply elem_of_keys_of. eauto.
Qed.

End Several.

(** * Associations *)

Lemma spelled_operating mics id t : spelled_ticker mics id = Some t -> is_Some (Operating mics (id_Domain id)).
Proof.
  unfold spelled_ticker, mics_MarketTicker, Market, Operating. destruct (_ || _); [done |].
  by destruct (mics !! ToUpper (TrimSpace (id_Domain id))).
Qed.

Lemma identityVia_Some j ids via : identityVia j ids = Some via ->
  exists pre suf, ids = pre ++ to_Identifier via :: suf /\ via ∈ ji_Identifiers j /\ forall id, id ∈ pre -> join_Identifier j id = None.
Proof.
  induction ids as [|id ids IH]; simpl; [done |]. destruct (join_Identifier j id) as [r|] eqn:Ej.
  - intros [= ->]. apply find_func_Some in Ej as [Hr He%bool_decide_eq_true]. exists [], ids. subst id. split; [done |]. split; [done |]. by intros ? ?%elem_of_nil.
  - intros (pre & suf & -> & Hv & Hpre)%IH. exists (id :: pre), suf. split; [done |]. split; [done |]. intros x [->|Hx]%elem_of_cons; auto.
Qed.

(** The key is fixed through the row [via] on the listing of its family. *)
Definition fixed_through (i : uuid) (w : writer) (arbiter : Arbiter) (via : IdentifierRow) (db db' : instr_db) : Prop :=
  writable db' /\ refs_kept db db' /\ via ∈ db_identifiers db /\ ir_InstrID via = i /\
  db' = set_stated (map (associated (sk_ID (rs_row (w_res w))) (w_user w) i (lr_ID <$> join_Listing (w_instr w) (rs_family (w_res w))) (ir_ID via) arbiter)) db.

Definition dated_through (w : writer) (arbiter : Arbiter) (r : TickerRow) (venue : string) (db db' : instr_db) : Prop :=
  writable db' /\ refs_kept db db' /\
  db' = set_stated (map (redated (sk_ID (rs_row (w_res w))) (w_user w) (tk_ID r) (tk_Market r) venue arbiter)) db.

Section Associate.
Context (i : uuid) (w : writer) (db : instr_db) (Hw : writable db) (Hh : held i w db).

Lemma fix_ok arbiter via : via ∈ ji_Identifiers (w_instr w) ->
  exists db', fixed_through i w arbiter via db db' /\
    SetStatedKeyAssociation (sk_ID (rs_row (w_res w))) (w_user w) (w_InstrID w) (lr_ID <$> join_Listing (w_instr w) (rs_family (w_res w))) (ir_ID via) arbiter db = Ok (tt, db').
Proof.
  intros Hv. apply (hd_identifiers _ _ _ Hh) in Hv as [Hv Hvi]. rewrite (hd_id _ _ _ Hh). set (l := lr_ID <$> _).
  destruct (SetStatedKeyAssociation_ok db Hw (sk_ID (rs_row (w_res w))) (w_user w) i l (ir_ID via) arbiter) as (Hrun & Hw' & Hk);
    [apply Hh | | apply list_elem_of_fmap; by exists via | eexists; split; [split; [exact Hw' | done] | exact Hrun]].
  unfold l. destruct (join_Listing (w_instr w) (rs_family (w_res w))) as [x|] eqn:Ex; [| done].
  apply find_func_Some in Ex as [Hx _]. apply (hd_listings _ _ _ Hh) in Hx as [Hx Hxi]. simpl. apply list_elem_of_fmap. exists x. by rewrite Hxi.
Qed.

Lemma writeDated_ok user v t arbiter res : tickers_known res db [v] -> spelled_ticker (rs_mics res) v = Some t -> arbiter <> ArbiterUser ->
  exists r venue db', r ∈ vd_tickers (db_validity db) /\ ticker_of r = t /\ Operating (rs_mics res) (id_Domain v) = Some venue /\
    writeDated user res v arbiter db = Ok (tt, db') /\ writable db' /\ refs_kept db db' /\
    db' = set_stated (map (redated (sk_ID (rs_row res)) user (tk_ID r) (tk_Market r) venue arbiter)) db.
Proof.
  intros Hk Ht Ha. destruct (tickerOf_ok res db [v] v Hk ltac:(by left)) as (o & Ho & Hr). rewrite Ht in Hr. destruct Hr as (r & -> & Hr & Hrt).
  destruct (spelled_operating _ _ _ Ht) as [venue Hv]. exists r, venue.
  destruct (SetStatedKeyDatedAssociation_ok db Hw (sk_ID (rs_row res)) user (tk_ID r) (tk_Market r) venue arbiter Ha) as (Hrun & Hw' & Hkept).
  eexists. split; [done |]. split; [done |]. split; [done |]. unfold writeDated. rewrite (tx_bind_ok _ _ db _ _ Ho), Hv. done.
Qed.

Lemma associate_ok arbiter choice :
  (rs_dating (w_res w) <> None -> exists v t, rs_via (w_res w) = Some v /\ spelled_ticker (rs_mics (w_res w)) v = Some t /\ tickers_known (w_res w) db [v]) ->
  (choice = None -> arbiter <> ArbiterUser) ->
  match identityVia (w_instr w) (rs_globalAndDescriptionIDs (w_res w)), choice, rs_dating (w_res w) with
  | Some via, _, _ => exists db', associate w arbiter choice db = Ok (true, db') /\ fixed_through i w arbiter via db db'
  | None, Some ch, _ =>
      match join_Identifier (w_instr w) (uc_via ch) with
      | Some via => exists db', associate w arbiter choice db = Ok (true, db') /\ fixed_through i w arbiter via db db'
      | None => exists detail, associate w arbiter choice db = Err (InstrStore.ErrNoCandidate detail)
      end
  | None, None, Some _ => exists v r venue db', rs_via (w_res w) = Some v /\ spelled_ticker (rs_mics (w_res w)) v = Some (ticker_of r) /\ r ∈ vd_tickers (db_validity db) /\
      Operating (rs_mics (w_res w)) (id_Domain v) = Some venue /\ associate w arbiter choice db = Ok (true, db') /\ dated_through w arbiter r venue db db'
  | None, None, None => associate w arbiter choice db = Ok (false, db)
  end.
Proof.
  intros Hdate Harb. unfold associate. destruct (identityVia _ _) as [via|] eqn:Ev.
  - apply identityVia_Some in Ev as (_ & _ & _ & Hv & _). destruct (fix_ok arbiter via Hv) as (db' & Hf & Hrun). exists db'. split; [| done].
    by rewrite (tx_bind_ok _ _ db tt db' Hrun).
  - destruct choice as [ch|].
    + destruct (join_Identifier (w_instr w) (uc_via ch)) as [via|] eqn:Ej; [| by eexists].
      apply find_func_Some in Ej as [Hv _]. destruct (fix_ok arbiter via Hv) as (db' & Hf & Hrun). exists db'. split; [| done].
      by rewrite (tx_bind_ok _ _ db tt db' Hrun).
    + destruct (rs_dating (w_res w)) as [dt|]; [| done]. destruct Hdate as (v & t & Hv & Ht & Hk); [done |].
      destruct (writeDated_ok (w_user w) v t arbiter (w_res w) Hk Ht (Harb eq_refl)) as (r & venue & db' & Hr & Hrt & Hven & Hrun & Hrest).
      exists v, r, venue, db'. rewrite Hrt. split; [done |]. split; [done |]. split; [done |]. split; [done |]. split; [| done].
      rewrite Hv. rewrite (tx_bind_ok _ _ db v db) by done. by rewrite (tx_bind_ok _ _ db tt db' Hrun).
Qed.

End Associate.
