(* ===== verification/Write.v ===== *)
(** Writing the outcome of a key, [write.go] and [target.go] of
    [server/internal/identity/resolve]: the instrument a key takes, the decision
    and the rows it leaves.

    The claims of the first verdict are kept between the attempts of a write
    ([firstVerdict]), and [dropHeld] deletes from the slice that holds them in
    place. The slice is a state of the write: its elements are pointers, [None]
    being nil. *)
From S2P Require Import Prelude Types Period Facts Rows Mic Tickers Calendar Validity ValidityStore Market Resolution Claims Choose InstrStore Merge Record Statements Writer.

(** The columns of a run that the write reads. *)
Record Run : Type := MkRun {
  rn_ID : uuid;
  rn_UserID : option uuid;
}.

(** * The instrument a key takes, [target.go] *)

Definition winnerKey (v : claimVerdict) : option uuid :=
  w ← vd_winner v; fk ← cl_fetchKey w; Some (fk_ID fk).

Definition lookup_of (c : identityClaim) : list Identifier := List.filter (fun id => negb (Ticker id)) (AllIDs (cl_Instr c)).

(** The body of the loop over [attached]: a nil claim is dereferenced, and a nil
    winner is where the claim has a stable identifier. *)
Definition lookup_step (winner : option identityClaim) (ids : list Identifier) (c : option identityClaim) : option (list Identifier) :=
  c ← c;
  match winner with
  | Some w => Some (if same_claim c w || sharesStable c w then foldl append_unique ids (lookup_of c) else ids)
  | None => if existsb Stable (AllIDs (cl_Instr c)) then None else Some ids
  end.

Definition findWriteTarget (uuid_string : uuid -> string) (db : instr_db) (res : resolution) (v : claimVerdict)
    (attached : list (option identityClaim)) : option (writeTarget * list instrMatch) :=
  ids ← opt_fold (lookup_step (vd_winner v)) (lookupIDs (rs_globalAndDescriptionIDs res)) attached;
  match findInstrsByIdentifier db ids with
  | [] => Some (MkTarget None [] [], [])
  | [m] => Some (MkTarget (Some (im_instr m)) [] [], [])
  | ms =>
      match mergeConflict uuid_string ms with
      | Some detail => t ← refuse res (winnerKey v) ms detail; Some (t, [])
      | None => Some (MkTarget None [] [], ms)
      end
  end.

(** [heldBy]. *)
Definition heldBy (c : identityClaim) (ms : list instrMatch) : option Identifier :=
  find_func (IdentifiedBy (cl_Instr c)) (concat (map im_matched ms)).

(** The claims that joined the verdict through a ticker alone. [same] is the
    equality of the pointers to two claims. *)
Definition joined_claims (same : identityClaim -> identityClaim -> bool) (chooser : option identityClaim) (attached : list identityClaim) :
    list identityClaim :=
  List.filter (fun c => match chooser with Some ch => negb (same c ch || sharesStable c ch) | None => true end) attached.

Definition held_step (others : list instrMatch) (st : list identityClaim * list CreateFindingParams) (c : identityClaim) :
    option (list identityClaim * list CreateFindingParams) :=
  match heldBy c others with
  | None => Some st
  | Some id =>
      fk ← cl_fetchKey c;
      Some (List.filter (fun a => negb (same_claim a c)) (st.1),
            st.2 ++ [finding fk FindingKindContradiction DropStepStated (label c (Name id +:+ " identifies another instrument (database)"))])
  end.

(** The claims left attached and the findings. The step of a finding that is no
    drop is not written. *)
Definition dropHeld (db : instr_db) (same : identityClaim -> identityClaim -> bool) (attached : list identityClaim) (chooser : option identityClaim)
    (target : option InstrWithCoverage) : option (list identityClaim * list CreateFindingParams) :=
  match joined_claims same chooser attached with
  | [] => Some (attached, [])
  | joined =>
      let ids := foldl append_unique [] (concat (map lookup_of joined)) in
      let others := List.filter (fun m => negb (bool_decide (Some (im_ID m) = (fun t => in_ID (iw_Row t)) <$> target))) (findInstrsByIdentifier db ids) in
      opt_fold (held_step others) (attached, []) joined
  end.

(** * Locks and tickers, [write.go] *)

Definition identifiersToLock (res : resolution) : list Identifier :=
  foldl append_unique (rs_globalAndDescriptionIDs res)
    (concat (map (fun fk => if bool_decide (fk_Outcome fk = FetchOutcomeServed)
                            then ir_Filtered (fk_Response fk) ++ concat (map ml_Identifiers (ir_Listings (fk_Response fk))) else [])
       (rs_fetchKeys res))).

Definition sent_ids (res : resolution) : list Identifier := omap fk_SentID (rs_fetchKeys res).

Definition rs_with_tickers (res : resolution) (tickers : gmap MarketTicker TickerRow) : resolution :=
  MkResolution (rs_row res) (rs_globalAndDescriptionIDs res) (rs_family res) (rs_families res) (rs_knownInstr res) (rs_mics res)
    (rs_fetchKeys res) (rs_findings res) (rs_outcome res) (rs_reason res) (rs_via res) (rs_dating res) (rs_dates res) (rs_datedFromFacts res)
    tickers (rs_written res).

Definition createTickers (db : ticker_table) (res : resolution) : ticker_table * Prelude.res get_error resolution :=
  let ts := omap (spelled_ticker (rs_mics res)) (identifiersToLock res ++ sent_ids res) in
  let '(db, out) := Tickers.Get db (rs_mics res) ts in
  (db, res_map (rs_with_tickers res) out).

(** Locks of the database are held by one transaction alone here; what the
    code keeps of them is the list of the rows. *)
Definition lockTickers (db : instr_db) (res : resolution) (merging : list instrMatch) : Locked :=
  Tickers.Lock (vd_tickers (db_validity db))
    (map (fun tr => tk_ID tr.2) (map_to_list (rs_tickers res)) ++
     match merging with
     | _ :: ((_ :: _) as losers) => ListTickersOfInstrs db (map im_ID losers)
     | _ => []
     end).

Definition checkMoved (survivor : uuid) (known : list uuid) : tx unit :=
  db ← tx_get;
  match find_func (fun id => negb (contains known id)) (ListTickersOfInstrs db [survivor]) with
  | Some _ => tx_fail (ErrConcurrent "merge moved a ticker")
  | None => mret tt
  end.

(** The body of the loop of [recordUnknown]. *)
Definition unknown_step (res : resolution) (fk : fetchKey) : tx resolution :=
  if negb (bool_decide (fk_Outcome fk = FetchOutcomeServed)) || negb (ir_Unknown (fk_Response fk)) then mret res
  else match fk_SentID fk with
       | None => mret res
       | Some id =>
           o ← tickerOf res id;
           match o with
           | None => mret res
           | Some t => AssertInstr (fk_ID fk) t None (fk_AnsweredAt fk) (MkStated "" "");; mret (wrote res fk id)
           end
       end.

Definition recordUnknown (res : resolution) : tx resolution := tx_fold unknown_step res (rs_fetchKeys res).

(** * The decision *)

Record decision : Type := MkDecision {
  dc_verdict : claimVerdict;
  dc_target : writeTarget;
  dc_conflict : string;
  dc_locked : Locked;
}.

Definition vd_with_attached (v : claimVerdict) (attached : list identityClaim) : claimVerdict :=
  MkVerdict (vd_winner v) (vd_confirmed v) (vd_refused v) attached (vd_findings v) (vd_counts v) (vd_notNaming v) (vd_offered v).

(** The slice of [firstVerdict], where an attempt has computed it. *)
Abbreviation cache := (option (list (option identityClaim))) (only parsing).

(** [first]: the verdict, and the slice its claims are in. *)
Definition first (res : resolution) (choice : option userChoice) (c : cache) : option (claimVerdict * list (option identityClaim)) :=
  v ← first_verdict res (uc_members choice);
  let slice := map Some (vd_attached v) in
  Some (v, match choice, c with None, Some slice => slice | _, _ => slice end).

(** What [slices.DeleteFunc] leaves of a slice when [kept] stays: the elements
    past them are set to nil. *)
Definition deleted_slice (slice : list (option identityClaim)) (kept : list identityClaim) : list (option identityClaim) :=
  map Some kept ++ replicate (length slice - length kept) None.

Section Decide.
Variables (stamp : time -> string) (uuid_string : uuid -> string).

(** The merge of [decide], with its check. *)
Definition decide_merge (v : claimVerdict) (locked : Locked) (t : writeTarget) (merging : list instrMatch) : tx writeTarget :=
  match merging with
  | [] => mret t
  | m :: _ =>
      db ← tx_get;
      let held := ListTickersOfInstrs db [im_ID m] in
      t ← merge stamp (winnerKey v) merging;
      checkMoved (im_ID m) (held ++ lk_ids locked);;
      mret t
  end.

(** The end of [decide], once the target is known: the verdict against the
    database's instrument, without the claims another instrument holds. Also the
    slice of the first verdict: it is the one [dropHeld] deletes from where the
    write has no target and no user's choice. *)
Definition decide_verdict (db : instr_db) (res : resolution) (choice : option userChoice) (v : claimVerdict)
    (slice : list (option identityClaim)) (t : writeTarget) : option (Prelude.res string (claimVerdict * string * list (option identityClaim))) :=
  attached ← mapM id slice;
  let v := vd_with_attached v attached in
  match wt_instr t with
  | None =>
      '(kept, dropped) ← dropHeld db same_claim (vd_attached v) (vd_winner v) None;
      Some (Ok (vd_find (vd_with_attached v kept) (dropped ++ wt_findings t ++ rs_findings res), ""%string, deleted_slice slice kept))
  | Some i =>
      match classConflict (rs_row res) (in_AssetClass (iw_Row i)) with
      | Some reason => Some (Ok (v, reason, slice))
      | None =>
          v' ← choose res (Some (MkClaim None 0 (join_types (iw_Instr i)))) (uc_members choice);
          if negb (bool_decide (vd_refused v' = ""%string)) then Some (Err (vd_refused v'))
          else
            (* The claims of the second verdict are the user's, or new. *)
            let same := match choice with Some _ => same_claim | None => fun _ _ => false end in
            '(kept, dropped) ← dropHeld db same (vd_attached v') (vd_winner v) (Some i);
            Some (Ok (vd_find (vd_with_attached v' kept) (dropped ++ wt_findings t ++ rs_findings res), ""%string, slice))
      end
  end.

(** [decide]. *)
Definition decide_write (res : resolution) (choice : option userChoice) (c : cache) : tx (decision * resolution * list (option identityClaim)) :=
  '(v, slice) ← tx_some (first res choice c);
  if negb (bool_decide (vd_refused v = ""%string)) then tx_fail (InstrStore.ErrNoCandidate (vd_refused v))
  else
    db ← tx_get;
    '(t, merging) ← tx_some (findWriteTarget uuid_string db res v slice);
    let locked := lockTickers db res merging in
    res ← recordUnknown res;
    t ← decide_merge v locked t merging;
    db ← tx_get;
    r ← tx_some (decide_verdict db res choice v slice t);
    match r with
    | Err refused => tx_fail (InstrStore.ErrNoCandidate refused)
    | Ok (v, conflict, slice) => mret (MkDecision v t conflict locked, res, slice)
    end.

(** * The rows *)

Definition writeFindings (run : Run) (res : resolution) (fs : list CreateFindingParams) : tx (list FindingKind) :=
  tx_fold (fun kinds f =>
    id ← NewID;
    CreateFinding (MkFindingRow id (rn_ID run) (Some (sk_ID (rs_row res))) f);;
    mret (kinds ++ [fp_Kind f])) [] fs.

(** [int32(n)]. *)
Definition to_int32 (n : Z) : Z := (n + 2 ^ 31) mod 2 ^ 32 - 2 ^ 31.

Definition recordResolution (run : Run) (res : resolution) (outcome : ResolutionOutcome) (reasons : list string) (fs : list CreateFindingParams)
    (offered : nat) : tx (ResolutionKey * list FindingKind) :=
  kinds ← writeFindings run res fs;
  user ← tx_some (rn_UserID run);
  rk ← CreateResolutionKey (MkResolutionKey (rn_ID run) user (sk_ID (rs_row res)) outcome reasons (to_int32 (Z.of_nat offered)));
  mret (rk, kinds).

Definition cover_step (instr : uuid) (v : claimVerdict) (fk : fetchKey) : tx unit :=
  if negb (bool_decide (fk_Outcome fk = FetchOutcomeServed)) then mret tt
  else if negb (existsb (made_by fk) (vd_attached v)) && negb (bool_decide (ir_Listings (fk_Response fk) = [])) then mret tt
  else UpsertIdentityCoverage instr (fk_Source fk) (fk_ID fk).

Definition recordIdentityCoverage (instr : uuid) (v : claimVerdict) (fks : list fetchKey) : tx unit := tx_each (cover_step instr v) fks.

Definition writeInstr (user : uuid) (res : resolution) (d : decision) : tx writer :=
  j ← match wt_instr (dc_target d) with
      | Some i => mret (iw_Instr i)
      | None =>
          winner ← tx_some (vd_winner (dc_verdict d));
          row ← w_create winner;
          mret (MkJoin row [] [])
      end;
  w ← tx_fold attach (MkWriter user j (wt_taken (dc_target d)) res) (vd_attached (dc_verdict d));
  recordIdentityCoverage (w_InstrID w) (dc_verdict d) (rs_fetchKeys res);;
  mret w.

Definition associateKey (w : writer) (v : claimVerdict) (choice : option userChoice) : tx bool :=
  winner ← tx_some (vd_winner v);
  let arbiter := match choice with
                 | Some _ => ArbiterUser
                 | None => if bool_decide (is_Some (cl_fetchKey winner)) then ArbiterDatasource else ArbiterStated
                 end in
  associate w arbiter choice.

(** [writeDecision], with the resolution as the write leaves it. *)
Definition writeDecision (run : Run) (res : resolution) (d : decision) (choice : option userChoice) :
    tx (ResolutionKey * list FindingKind * resolution) :=
  let v := dc_verdict d in
  let recorded res outcome reasons fs offered := r ← recordResolution run res outcome reasons fs offered; mret (r, res) in
  if negb (bool_decide (dc_conflict d = ""%string))
  then recorded res ResolutionOutcomeUnrecognised [dc_conflict d] (wt_findings (dc_target d)) (length (vd_offered v))
  else match vd_winner v with
       | None => why ← tx_some (summary res v); recorded res (unresolved res) why (vd_findings v) (length (vd_offered v))
       | Some _ =>
           user ← tx_some (rn_UserID run);
           w ← writeInstr user res d;
           ok ← associateKey w v choice;
           if negb ok
           then recorded (w_res w) ResolutionOutcomeUnrecognised ["no identifier to associate through"%string] (vd_findings v) (length (vd_offered v))
           else recorded (w_res w) ResolutionOutcomeMatched [] (vd_findings v) 0%nat
       end.

(** [resolveKey]: what the write returns, the resolution it leaves and the
    slice of the first verdict. *)
Definition resolveKey (run : Run) (res : resolution) (choice : option userChoice) (c : cache) :
    tx (ResolutionKey * list FindingKind * resolution * cache) :=
  let res := rs_with_written res [] in
  if negb (bool_decide (rs_outcome res = ResolutionOutcomeNone)) then
    (if rs_datedFromFacts res
     then user ← tx_some (rn_UserID run); via ← tx_some (rs_via res); writeDated user res via ArbiterStated
     else mret tt);;
    r ← recordResolution run res (rs_outcome res) (reasons (rs_reason res)) (rs_findings res) 0%nat;
    mret (r, res, c)
  else
    '(d, res, slice) ← decide_write res choice c;
    r ← writeDecision run res d choice;
    tx_Rebuild (dc_locked d);;
    mret (r, Some slice).

(** The slice after an attempt over the tables [db]. *)
Definition cache_after (res : resolution) (choice : option userChoice) (c : cache) (db : instr_db) : cache :=
  match decide_write (rs_with_written res []) choice c (set_deferred false db) with
  | Ok (_, _, slice, _) => Some slice
  | Err _ => snd <$> first res choice c
  end.

(** An attempt of the write over the tables [db]. A concurrent transaction may
    make its commit fail, with [interrupted]. *)
Definition attempt_write (run : Run) (res : resolution) (choice : option userChoice) (c : cache) (db : instr_db) (interrupted : option write_error) :
    Prelude.res write_error (ResolutionKey * list FindingKind * resolution * cache * instr_db) :=
  match once (resolveKey run res choice c) db, interrupted with
  | Ok _, Some e => Err e
  | r, _ => r
  end.

(** The attempts of [Tx] at the write: each finds the tables that other
    transactions have left it, [dbs n], and the slice as the attempt before
    left it. *)
Fixpoint write_loop (fuel : nat) (run : Run) (res : resolution) (choice : option userChoice) (dbs : Z -> instr_db) (interrupted : Z -> option write_error)
    (c : cache) (attempt : Z) : option (Prelude.res write_error (ResolutionKey * list FindingKind * resolution * cache * instr_db) * Z) :=
  match fuel with
  | O => None
  | S fuel =>
      match attempt_write run res choice c (dbs attempt) (interrupted attempt) with
      | Ok r => Some (Ok r, attempt)
      | Err e =>
          if negb (IsRetryable e) || (tries <=? attempt) then Some (Err e, attempt)
          else write_loop fuel run res choice dbs interrupted (cache_after res choice c (dbs attempt)) (attempt + 1)
      end
  end.

(** [write]. The tickers are created before the write; what the transaction
    finds of them is in [dbs]. *)
Definition write (run : Run) (tickers : ticker_table) (res : resolution) (choice : option userChoice) (dbs : Z -> instr_db) (interrupted : Z -> option write_error) :
    ticker_table * Prelude.res get_error (option (Prelude.res write_error (ResolutionKey * list FindingKind * resolution * cache * instr_db) * Z)) :=
  let '(tickers, r) := createTickers tickers res in
  (tickers, res_map (fun res => write_loop (Z.to_nat tries) run res choice dbs interrupted None 1) r).

End Decide.

(** * The instrument written *)

(** Whether [recordIdentityCoverage] covers the datasource of [fk]. *)
Definition covers (v : claimVerdict) (fk : fetchKey) : bool :=
  bool_decide (fk_Outcome fk = FetchOutcomeServed) && (existsb (made_by fk) (vd_attached v) || bool_decide (ir_Listings (fk_Response fk) = [])).

(** What covering the instrument leaves of the tables. *)
Record covered (i : uuid) (db db' : instr_db) : Prop := {
  co_writable : writable db';
  co_refs : refs_kept db db';
  co_tables : db' = set_coverage (fun _ => db_coverage db') db;
  co_others c : ic_InstrID c <> i -> (c ∈ db_coverage db' <-> c ∈ db_coverage db);
  co_kept c : c ∈ db_coverage db -> exists c', c' ∈ db_coverage db' /\ coverage_key c' = coverage_key c;
}.

Lemma covered_refl i db : writable db -> covered i db db.
Proof. intros Hw. split; try done; [by destruct db | eauto]. Qed.

Lemma covered_trans i db1 db2 db3 : covered i db1 db2 -> covered i db2 db3 -> covered i db1 db3.
Proof.
  intros [A1 B1 C1 D1 E1] [A2 B2 C2 D2 E2]. split; [done | by eapply refs_kept_trans | by rewrite C2, C1 | |].
  - intros c Hc. by rewrite D2, D1.
  - intros c Hc. destruct (E1 c Hc) as (c' & Hc' & He). destruct (E2 c' Hc') as (c'' & Hc'' & He'). exists c''. split; [done | congruence].
Qed.

Lemma cover_step_ok i v fk db : writable db -> i ∈ instr_ids db -> is_Some (db_fetch db !! fk_ID fk) ->
  yields (cover_step i v fk) db (fun _ db' => covered i db db' /\ (covers v fk = true -> has_coverage db' i (fk_Source fk))).
Proof.
  intros Hw Hi Hk. unfold cover_step, covers. destruct (bool_decide (fk_Outcome fk = FetchOutcomeServed)); simpl; [| apply yields_ret; split; [by apply covered_refl | done]].
  destruct (existsb (made_by fk) (vd_attached v)) eqn:Ee, (bool_decide (ir_Listings (fk_Response fk) = [])) eqn:El; simpl;
    try (apply yields_ret; split; [by apply covered_refl | done]).
  all: destruct (UpsertIdentityCoverage_ok db Hw i (fk_Source fk) (fk_ID fk) Hi Hk) as (Hrun & Hw' & Hkept);
    apply (yields_run _ _ _ _ _ Hrun); pose proof (ok_coverage_key _ (wb_ok _ Hw)) as Hnd; split;
    [split; [done | done | done | |] | intros _; exists (MkIdentityCoverageRow i (fk_Source fk) (fk_ID fk)); split; [apply upserted_elem; auto | done]].
  all: intros c Hc.
  all: try (simpl; rewrite upserted_elem by done; split; [intros [->|[? _]]; done | intros ?; right; split; [done | unfold coverage_key; simpl; congruence]]).
  all: destruct (decide (coverage_key c = coverage_key (MkIdentityCoverageRow i (fk_Source fk) (fk_ID fk)))) as [He|He];
    [exists (MkIdentityCoverageRow i (fk_Source fk) (fk_ID fk)) | exists c]; (split; [simpl; apply upserted_elem; auto | done]).
Qed.

Lemma recordIdentityCoverage_ok i v fks db : writable db -> i ∈ instr_ids db -> (forall fk, fk ∈ fks -> is_Some (db_fetch db !! fk_ID fk)) ->
  yields (recordIdentityCoverage i v fks) db (fun _ db' => covered i db db' /\ forall fk, fk ∈ fks -> covers v fk = true -> has_coverage db' i (fk_Source fk)).
Proof.
  intros Hw Hi Hk. apply (yields_fold _ (fun seen _ db' => covered i db db' /\ forall fk, fk ∈ seen -> covers v fk = true -> has_coverage db' i (fk_Source fk)) fks []).
  { split; [by apply covered_refl | by intros ? ?%elem_of_nil]. }
  intros pre fk suf [] db1 Heq [Hc Hpre]. simpl in Heq. pose proof (co_refs _ _ _ Hc) as Hr.
  eapply yields_impl; [apply (cover_step_ok i v fk db1 (co_writable _ _ _ Hc)); [by apply (kept_instrs _ _ Hr) |] |].
  { apply (kept_fetch _ _ Hr), Hk. rewrite Heq. apply elem_of_app. right. by left. }
  intros [] db2 [Hc2 Hcov]. split; [by eapply covered_trans |]. intros x [Hx| ->%list_elem_of_singleton]%elem_of_app Hxc; [| by apply Hcov].
  destruct (Hpre x Hx Hxc) as (c & Hc' & Hi' & Hd'). destruct (co_kept _ _ _ Hc2 c Hc') as (c' & ? & He). exists c'.
  unfold coverage_key in He. injection He as ? ?. repeat split; try done; congruence.
Qed.

(** The rows of the target are those of its instrument. *)
Definition target_ok (db : instr_db) (t : writeTarget) : Prop :=
  match wt_instr t with
  | Some j => iw_Row j ∈ db_instrs db /\
      (forall r, r ∈ ji_Identifiers (iw_Instr j) <-> r ∈ db_identifiers db /\ ir_InstrID r = in_ID (iw_Row j)) /\
      (forall l, l ∈ ji_Listings (iw_Instr j) <-> l ∈ db_listings db /\ lr_InstrID l = in_ID (iw_Row j))
  | None => True
  end.

Definition target_id (t : writeTarget) : option uuid := (fun j => in_ID (iw_Row j)) <$> wt_instr t.

(** A decision whose claims are of served answers, not written before, and carry
    no identifier of an instrument the write neither targets nor leaves
    apart. *)
Record writes (db : instr_db) (res : resolution) (d : decision) : Prop := {
  ws_target : target_ok db (dc_target d);
  ws_winner : wt_instr (dc_target d) = None -> exists winner fk, vd_winner (dc_verdict d) = Some winner /\ cl_fetchKey winner = Some fk /\ is_Some (db_fetch db !! fk_ID fk);
  ws_once : NoDup (keys_of (vd_attached (dc_verdict d)));
  ws_claims c : c ∈ vd_attached (dc_verdict d) -> exists fk, cl_fetchKey c = Some fk /\ is_Some (db_fetch db !! fk_ID fk) /\ formed (rs_families res) c /\
    tickers_known res db (AllIDs (cl_Instr c)) /\ forall a, a ∈ vd_assertions (db_validity db) -> ia_FetchKeyID a <> Some (fk_ID fk);
  ws_free c id r : c ∈ vd_attached (dc_verdict d) -> id ∈ written_ids c -> r ∈ db_identifiers db -> to_Identifier r = id ->
    Some (ir_InstrID r) = target_id (dc_target d) \/ id ∈ wt_taken (dc_target d);
  ws_codes : codes_ok (rs_families res) db;
  ws_families : families_ok (rs_families res) db;
  ws_keys fk : fk ∈ rs_fetchKeys res -> is_Some (db_fetch db !! fk_ID fk);
}.

(** What [writeInstr] leaves: every identifier of an attached claim is the
    instrument's, unless the write leaves it on another; the tickers are
    asserted of it, and the datasources cover it. *)
Record wrote_instr (user : uuid) (res : resolution) (d : decision) (db : instr_db) (w : writer) (db' : instr_db) : Prop := {
  wi_writable : writable db';
  wi_held : held (w_InstrID w) w db';
  wi_writer : w_user w = user /\ w_taken w = wt_taken (dc_target d) /\ exists ws, w_res w = rs_with_written res ws;
  wi_instr : match wt_instr (dc_target d) with
             | Some j => w_InstrID w = in_ID (iw_Row j) /\ db_instrs db' = db_instrs db
             | None => w_InstrID w ∉ instr_ids db /\ exists row, in_ID row = w_InstrID w /\ db_instrs db' = db_instrs db ++ [row]
             end;
  wi_carries c id : c ∈ vd_attached (dc_verdict d) -> id ∈ written_ids c ->
    id ∈ wt_taken (dc_target d) \/ exists r, r ∈ db_identifiers db' /\ to_Identifier r = id /\ ir_InstrID r = w_InstrID w;
  wi_identifiers : exists rows, db_identifiers db' = db_identifiers db ++ rows /\ Forall (fun r => ir_InstrID r = w_InstrID w) rows;
  wi_listings l : lr_InstrID l <> w_InstrID w -> (l ∈ db_listings db' <-> l ∈ db_listings db);
  wi_asserted c id t : c ∈ vd_attached (dc_verdict d) -> id ∈ AllIDs (cl_Instr c) -> spelled_ticker (rs_mics res) id = Some t ->
    exists fk r a, cl_fetchKey c = Some fk /\ r ∈ vd_tickers (db_validity db) /\ ticker_of r = t /\ a ∈ vd_assertions (db_validity db') /\
      asserts (w_InstrID w) (fk_ID fk) fk a (tk_ID r) (default ""%string (Operating (rs_mics res) (id_Domain id)));
  wi_assertions : exists rows, db_validity db' = set_assertions (fun l => l ++ rows) (db_validity db) /\
    Forall (fun a => (ia_InstrID a = Some (w_InstrID w) /\ one_day a) /\ exists k, k ∈ keys_of (vd_attached (dc_verdict d)) /\ ia_FetchKeyID a = Some k) rows;
  wi_coverage fk : fk ∈ rs_fetchKeys res -> covers (dc_verdict d) fk = true -> has_coverage db' (w_InstrID w) (fk_Source fk);
  wi_rest : db_stated db' = db_stated db /\ db_findings db' = db_findings db /\ db_resolutions db' = db_resolutions db /\ db_deferred db' = db_deferred db;
  wi_refs : refs_kept db db';
}.

(** The start of [writeInstr]: the target's rows, or a new instrument. *)
Definition start_instr (d : decision) : tx join_Instr :=
  match wt_instr (dc_target d) with
  | Some i => mret (iw_Instr i)
  | None => winner ← tx_some (vd_winner (dc_verdict d)); row ← w_create winner; mret (MkJoin row [] [])
  end.

Lemma start_instr_ok user res d db : writable db -> writes db res d ->
  yields (start_instr d) db (fun j db' => writable db' /\ held (in_ID (ji_Row j)) (MkWriter user j (wt_taken (dc_target d)) res) db' /\ refs_kept db db' /\
    (exists n l, db' = set_next n (set_instrs (fun _ => l) db)) /\
    match wt_instr (dc_target d) with
    | Some i => in_ID (ji_Row j) = in_ID (iw_Row i) /\ db_instrs db' = db_instrs db
    | None => in_ID (ji_Row j) ∉ instr_ids db /\ exists row, in_ID row = in_ID (ji_Row j) /\ db_instrs db' = db_instrs db ++ [row]
    end).
Proof.
  intros Hw [Ht Hwin _ _ _ _ _ _]. unfold start_instr, target_ok in *. destruct (wt_instr (dc_target d)) as [i|].
  - destruct Ht as (Hrow & Hi & Hl). apply yields_ret. split; [done |]. split; [| split; [done |]].
    + split; [done | apply list_elem_of_fmap; by exists (iw_Row i) | exact Hi | exact Hl].
    + split; [exists (db_next db), (db_instrs db); by destruct db | done].
  - destruct Hwin as (winner & fk & Hv & Hfk & Hk); [done |]. apply (yields_some _ winner); [done |]. unfold w_create.
    destruct (NewID_ok db Hw) as (Hid & Hw1 & Hf1). set (db1 := set_next _ db) in *. set (class := if bool_decide _ then _ else _).
    destruct (CreateInstr_ok db1 Hw1 (db_next db) class (Some (fk_ID fk)) Hf1 Hk) as (Hc & Hw2 & Hkept). set (row := MkInstrRow _ _ _ _) in *. set (db2 := set_instrs _ db1) in *.
    assert (in_ID row ∉ instr_ids db) as Hfresh by (apply (fresh_instr db1 (db_next db) Hf1)).
    apply (yields_bind _ _ _ (fun r d => r = row /\ d = db2)).
    { exists row, db2. split; [| done]. rewrite (tx_bind_ok _ _ db fk db) by (by rewrite Hfk). rewrite (tx_bind_ok _ _ db _ _ Hid). exact Hc. }
    intros ? ? [-> ->]. apply yields_ret. split; [done |]. split; [| split; [split; apply Hkept |]].
    + split; [done | unfold instr_ids; simpl; rewrite map_app; apply elem_of_app; right; by left | |].
      * intros r. simpl. split; [by intros ?%elem_of_nil |]. intros [Hr He]. exfalso. apply Hfresh. change (db_next db ∈ instr_ids db). rewrite <- He.
        by destruct (proj1 (Forall_forall _ _) (ok_identifier _ (wb_ok _ Hw)) r Hr).
      * intros l. simpl. split; [by intros ?%elem_of_nil |]. intros [Hr He]. exfalso. apply Hfresh. change (db_next db ∈ instr_ids db). rewrite <- He.
        by destruct (proj1 (Forall_forall _ _) (ok_listing _ (wb_ok _ Hw)) l Hr).
    + split; [by exists (db_next db + 1)%N, (db_instrs db ++ [row]) |]. split; [done | by exists row].
Qed.

Lemma formed_attachable i w db c : formed (rs_families (w_res w)) c -> families_ok (rs_families (w_res w)) db ->
  (forall id, id ∈ written_ids c -> free i w db id) -> attachable i w db c.
Proof.
  intros [F1 F2 F3] Hfam Hfree. split; [| | | done].
  - intros id Hid%F1. by apply bool_decide_eq_true in Hid.
  - intros f id Hid%F2. apply bool_decide_eq_false in Hid. by destruct (Grain id).
  - intros f (code & <-)%F3. apply Hfam.
Qed.

Lemma set_coverage_identifiers f db : db_identifiers (set_coverage f db) = db_identifiers db.
Proof. done. Qed.

Lemma held_covered i w db db' : covered i db db' -> held i w db -> held i w db'.
Proof. intros Hc Hh. rewrite (co_tables _ _ _ Hc). split; apply Hh. Qed.

Lemma writeInstr_ok user res d db : writable db -> writes db res d -> yields (writeInstr user res d) db (wrote_instr user res d db).
Proof.
  intros Hw Hd. unfold writeInstr. change (match wt_instr (dc_target d) with Some i => mret (iw_Instr i) | None => _ end) with (start_instr d).
  apply (yields_bind _ _ _ _ _ (start_instr_ok user res d db Hw Hd)). intros j db1 (Hw1 & Hh1 & Hr1 & (n & l1 & E1) & Hi1).
  set (w0 := MkWriter user j (wt_taken (dc_target d)) res) in *. set (i := in_ID (ji_Row j)) in *.
  assert (db_identifiers db1 = db_identifiers db /\ db_listings db1 = db_listings db /\ db_validity db1 = db_validity db /\ db_fetch db1 = db_fetch db /\
    db_families db1 = db_families db /\ db_codes db1 = db_codes db /\ db_stated db1 = db_stated db /\ db_findings db1 = db_findings db /\
    db_resolutions db1 = db_resolutions db /\ db_deferred db1 = db_deferred db) as (Ei & El & Ev & Ef & Efa & Eco & Es & Efi & Ere & Ede) by by subst db1.
  assert (match wt_instr (dc_target d) with Some j => i = in_ID (iw_Row j) | None => i ∉ instr_ids db end) as Hi0 by (destruct (wt_instr _); apply Hi1).
  eapply yields_bind.
  { apply (attach_all_ok i (vd_attached (dc_verdict d)) w0 db1 Hw1 Hh1 (ws_once _ _ _ Hd)); [| unfold codes_ok; rewrite Eco; apply Hd].
    intros c Hc. destruct (ws_claims _ _ _ Hd c Hc) as (fk & Hfk & Hk & Hfm & Ht & Hno). exists fk. split; [done |]. rewrite Ef, Ev. split; [done |].
    split; [| split; [unfold tickers_known; by rewrite Ev | done]]. apply formed_attachable; [done | unfold families_ok; rewrite Efa; apply Hd |].
    intros id Hid r Hr He. rewrite Ei in Hr. destruct (ws_free _ _ _ Hd c id r Hc Hid Hr He) as [Ht'|Ht']; [left | by right].
    unfold target_id in Ht'. destruct (wt_instr (dc_target d)); simpl in Ht'; [congruence | done]. }
  intros w db2 [Hs Hat].
  assert (w_InstrID w = i) as Hwi by apply (hd_id _ _ _ (si_held _ _ _ _ _ _ Hs)). rewrite Hwi.
  eapply yields_bind.
  { apply (recordIdentityCoverage_ok i (dc_verdict d) (rs_fetchKeys res) db2 (si_writable _ _ _ _ _ _ Hs)); [apply (si_held _ _ _ _ _ _ Hs) |].
    intros fk Hfk. apply (kept_fetch _ _ (ex_refs _ _ _ _ (si_extends _ _ _ _ _ _ Hs))). rewrite Ef. by apply (ws_keys _ _ _ Hd). }
  intros [] db3 [Hc Hcov]. apply yields_ret.
  pose proof (si_extends _ _ _ _ _ _ Hs) as Hex. pose proof (co_tables _ _ _ Hc) as E3. rewrite E3 in *. set (cov := db_coverage db3) in *. clearbody cov. clear E3 db3.
  destruct (si_grows _ _ _ _ _ _ Hs) as [Gu Gt Gr _ _ Gres].
  split; rewrite ?Hwi.
  - apply Hc.
  - eapply held_covered; [exact Hc | apply Hs].
  - by rewrite Gu, Gt.
  - pose proof (ex_instrs _ _ _ _ Hex) as Ein. destruct (wt_instr (dc_target d)); simpl; rewrite Ein; [by destruct Hi1 | done].
  - intros c id Hcc Hid. destruct (Hat c Hcc) as (fk & _ & [Hca _]). destruct (Hca id Hid) as [Hj|Hj]; [right | left; by rewrite Gt in Hj].
    apply find_func_is_Some in Hj as (r & Hr & He%bool_decide_eq_true). apply (hd_identifiers _ _ _ (si_held _ _ _ _ _ _ Hs)) in Hr as [Hr Hri]. by exists r.
  - destruct (ex_identifiers _ _ _ _ Hex) as (rows & Hrows & Hf). exists rows. simpl. by rewrite Hrows, Ei.
  - intros x Hx. simpl. rewrite (ex_listings _ _ _ _ Hex x Hx). by rewrite El.
  - intros c id t Hcc Hid Ht. destruct (Hat c Hcc) as (fk & Hfk & [_ (asserted & [_ Ha] & Hids)]). destruct Gres as [ws Gres].
    destruct (Hids id Hid t) as (r & Hr & Hrt & Hin); [by rewrite Gres |]. destruct (Ha _ Hin) as (a & Haa & Has). rewrite Gres in Has.
    exists fk, r, a. split; [done |]. split; [| done]. rewrite <- Ev. by rewrite (kept_tickers _ _ (ex_refs _ _ _ _ Hex)).
  - destruct (ex_assertions _ _ _ _ Hex) as (rows & Hv & Hf). exists rows. simpl. by rewrite Hv, Ev.
  - intros fk Hfk Hcv. by apply Hcov.
  - destruct (ex_rest _ _ _ _ Hex) as (R1 & R2 & R3 & R4 & R5). simpl. rewrite R1, R3, R4, R5. by rewrite Es, Efi, Ere, Ede.
  - eapply refs_kept_trans; [exact Hr1 |]. eapply refs_kept_trans; [apply Hex | apply Hc].
Qed.

(** * What the choice reads *)

(** The choice does not read what the write has asserted. *)
Lemma gather_joined_written res ws group out : gather_joined (rs_with_written res ws) group out = gather_joined res group out.
Proof. induction out as [|a out IH]; simpl; [done |]. by rewrite IH. Qed.

Lemma gather_loop_written res ws fuel : forall out cs, gather_loop (rs_with_written res ws) fuel out cs = gather_loop res fuel out cs.
Proof.
  induction fuel as [|fuel IH]; intros out [|c cs]; simpl; try done. destruct (span_prefix _ _). rewrite gather_joined_written.
  destruct (gather_joined _ _ _) as [[out' joined]|]; [apply IH | done].
Qed.

Lemma choose_written res ws known choice : choose (rs_with_written res ws) known choice = choose res known choice.
Proof.
  unfold choose. change (choose_step (rs_with_written res ws)) with (choose_step res). change (head_refused (rs_with_written res ws)) with (head_refused res).
  change (rs_fetchKeys (rs_with_written res ws)) with (rs_fetchKeys res).
  case (match set_head choice with Some h => head_refused res known h | None => Some None end); simpl; [intros [why|]; [done |] | done].
  destruct (opt_fold _ _ _) as [st|]; simpl; [| done]. unfold gatherConsistentClaims. by rewrite gather_loop_written.
Qed.

Lemma first_written res ws choice : first_verdict (rs_with_written res ws) choice = first_verdict res choice.
Proof. apply choose_written. Qed.
