(* ===== verification/Outcome.v ===== *)
(** The outcome of a key: that its decision and its write keep the constraints
    of the tables, and what they leave ([write.go] and [target.go] of
    [server/internal/identity/resolve], over the definitions of [Write]). *)
From S2P Require Import Prelude Types Period Facts Rows Mic Tickers Calendar Validity ValidityStore Market Resolution Claims Choose InstrStore Merge Record Statements Writer Write.

(** A resolution whose responses are fetched and whose tickers are created: its
    fetch keys are stored, with no assertion under them yet, and a response with
    listings was served and is not one that knows nothing. *)
Record ready (res : resolution) (db : instr_db) : Prop := {
  rd_ids : NoDup (map fk_ID (rs_fetchKeys res));
  rd_fetch fk : fk ∈ rs_fetchKeys res -> is_Some (db_fetch db !! fk_ID fk);
  rd_fresh fk a : fk ∈ rs_fetchKeys res -> a ∈ vd_assertions (db_validity db) -> ia_FetchKeyID a <> Some (fk_ID fk);
  rd_listed fk : fk ∈ rs_fetchKeys res -> ir_Listings (fk_Response fk) <> [] ->
    fk_Outcome fk = FetchOutcomeServed /\ ir_Unknown (fk_Response fk) = false;
  rd_tickers : tickers_known res db (identifiersToLock res ++ sent_ids res);
  rd_codes : codes_ok (rs_families res) db;
  rd_families : families_ok (rs_families res) db;
}.

(** * Negative assertions *)

(** What [recordUnknown] leaves of the tables, once it has taken [fks]. *)
Record noted (fks : list fetchKey) (db db' : instr_db) : Prop := {
  no_writable : writable db';
  no_refs : refs_kept db db';
  no_tables : exists n rows, db' = set_next n (set_validity_db (set_assertions (fun l => l ++ rows)) db) /\
    Forall (fun a => (ia_InstrID a = None /\ one_day a) /\
      exists fk, fk ∈ fks /\ ir_Unknown (fk_Response fk) = true /\ ia_FetchKeyID a = Some (fk_ID fk)) rows;
}.

Lemma noted_refl db : writable db -> noted [] db db.
Proof.
  intros Hw. split; [done | done |]. exists (db_next db), []. split; [| done]. destruct db as [? ? ? ? ? ? v]. simpl.
  unfold set_next, set_validity_db. simpl. by rewrite set_assertions_nil.
Qed.

Lemma noted_mono fks fks' db db' : fks ⊆ fks' -> noted fks db db' -> noted fks' db db'.
Proof.
  intros Hs [Hw Hr (n & rows & E & Hf)]. split; [done | done |]. exists n, rows. split; [done |]. eapply Forall_impl; [exact Hf |].
  intros a (? & fk & ? & ? & ?). split; [done |]. exists fk. auto.
Qed.

Lemma noted_trans fks db1 db2 db3 : noted fks db1 db2 -> noted fks db2 db3 -> noted fks db1 db3.
Proof.
  intros [_ R1 (n1 & r1 & E1 & F1)] [W2 R2 (n2 & r2 & E2 & F2)]. split; [done | by eapply refs_kept_trans |]. exists n2, (r1 ++ r2).
  split; [| by apply Forall_app]. rewrite E2, E1. unfold set_next, set_validity_db. simpl. by rewrite set_assertions_app.
Qed.

Lemma note_ok db fk t : writable db -> is_Some (db_fetch db !! fk_ID fk) -> ir_Unknown (fk_Response fk) = true ->
  t ∈ vd_tickers (db_validity db) -> (forall a, a ∈ vd_assertions (db_validity db) -> ia_FetchKeyID a <> Some (fk_ID fk)) ->
  yields (AssertInstr (fk_ID fk) t None (fk_AnsweredAt fk) (MkStated "" "")) db (fun _ db' => noted [fk] db db').
Proof.
  intros Hw Hk Hu Ht Hno. unfold AssertInstr.
  destruct (assert_row_ok db Hw (fk_ID fk) t None (OneDay (fk_AnsweredAt fk)) false false (MkStated "" "") Hk Ht) as (Hrun & Hw2 & Hkept); try done.
  { apply OneDay_order. }
  { intros x Hx Hx1 _ _ _. by apply (Hno x). }
  apply (yields_run _ _ tt _ _ Hrun). split; [done | done |]. eexists _, [_]. split; [reflexivity |]. apply Forall_singleton.
  split; [split; [done | by exists (fk_AnsweredAt fk)] |]. exists fk. split; [by left | done].
Qed.

Lemma tickers_known_noted fks res db db' ids ws : noted fks db db' -> tickers_known res db ids -> tickers_known (rs_with_written res ws) db' ids.
Proof. intros [_ _ (n & rows & -> & _)] H. exact H. Qed.

Lemma sent_known fk res id : fk ∈ rs_fetchKeys res -> fk_SentID fk = Some id -> id ∈ identifiersToLock res ++ sent_ids res.
Proof. intros Hfk Hs. apply elem_of_app. right. apply list_elem_of_omap. eauto. Qed.

Lemma wrote_with res ws fk id : exists ws', wrote (rs_with_written res ws) fk id = rs_with_written res ws'.
Proof. unfold wrote. destruct (_ && _); [by eexists | by exists ws]. Qed.

Lemma unknown_step_ok res ws fk db : writable db -> fk ∈ rs_fetchKeys res -> tickers_known res db (identifiersToLock res ++ sent_ids res) ->
  is_Some (db_fetch db !! fk_ID fk) -> (forall a, a ∈ vd_assertions (db_validity db) -> ia_FetchKeyID a <> Some (fk_ID fk)) ->
  yields (unknown_step (rs_with_written res ws) fk) db (fun res' db' => noted [fk] db db' /\ exists ws', res' = rs_with_written res ws').
Proof.
  intros Hw Hfk Ht Hk Hno. assert (noted [fk] db db) as Hsame by (apply (noted_mono []); [by intros ? ?%elem_of_nil | by apply noted_refl]).
  unfold unknown_step. destruct (_ || _) eqn:Eu; [apply yields_ret; eauto |]. apply orb_false_iff in Eu as [_ Hu%negb_false_iff].
  destruct (fk_SentID fk) as [id|] eqn:Es; [| apply yields_ret; eauto].
  destruct (tickerOf_ok (rs_with_written res ws) db _ id Ht (sent_known _ _ _ Hfk Es)) as (o & Hrun & Ho).
  apply (yields_bind _ _ _ (fun o' d => o' = o /\ d = db) _ (yields_run _ _ _ _ _ Hrun (conj eq_refl eq_refl))). intros ? ? [-> ->].
  destruct (spelled_ticker _ id) as [t|]; [destruct Ho as (r & -> & Hr & _) | subst o; apply yields_ret; eauto].
  apply (yields_bind _ _ _ _ _ (note_ok db fk r Hw Hk Hu Hr Hno)). intros [] db' Hn. apply yields_ret. split; [done |]. apply wrote_with.
Qed.

Lemma recordUnknown_ok res ws db : writable db -> ready res db ->
  yields (recordUnknown (rs_with_written res ws)) db (fun res' db' => noted (rs_fetchKeys res) db db' /\ exists ws', res' = rs_with_written res ws').
Proof.
  intros Hw [Hids Hfetch Hfresh _ Ht _ _]. unfold recordUnknown. change (rs_fetchKeys (rs_with_written res ws)) with (rs_fetchKeys res).
  apply (yields_fold _ (fun seen res' db' => noted seen db db' /\ exists ws', res' = rs_with_written res ws') (rs_fetchKeys res) []).
  { split; [by apply noted_refl | by exists ws]. }
  intros pre fk suf res1 db1 Heq [Hn [ws1 ->]]. simpl in Heq. assert (fk ∈ rs_fetchKeys res) as Hfk by (rewrite Heq; apply elem_of_app; right; by left).
  pose proof (no_refs _ _ _ Hn) as Hr. eapply yields_impl.
  { apply (unknown_step_ok res ws1 fk db1 (no_writable _ _ _ Hn) Hfk).
    - by apply (tickers_known_noted _ _ _ _ _ (rs_written res) Hn).
    - apply (kept_fetch _ _ Hr), Hfetch, Hfk.
    - destruct (no_tables _ _ _ Hn) as (n & rows & -> & Hrows). simpl. intros a [Ha|Ha]%elem_of_app; [by apply Hfresh |].
      destruct (proj1 (Forall_forall _ _) Hrows a Ha) as (_ & fk' & Hfk' & _ & ->). intros [= He]. rewrite Heq in Hids.
      apply (NoDup_keys_mid _ _ _ _ Hids). rewrite <- He. apply list_elem_of_fmap. eauto. }
  intros res2 db2 [Hn2 Hres]. split; [| done]. eapply noted_trans; (eapply noted_mono; [| eassumption]); intros x Hx; apply elem_of_app; auto.
Qed.

(** * The target *)

(** A finding the write may record: its kind and step are the ones the table
    takes, and its fetch key, if any, is of the resolution. *)
Definition sound (fks : list fetchKey) (f : CreateFindingParams) : Prop :=
  fp_Kind f ∈ key_kinds /\ fp_Detail f <> None /\
  (fp_Kind f = FindingKindDropped <-> fp_Step f <> None) /\ (fp_Kind f <> FindingKindDropped \/ fp_FetchKeyID f <> None) /\
  (forall k, fp_FetchKeyID f = Some k -> k ∈ map fk_ID fks).

Lemma finding_sound fks fk kind step detail : fk ∈ fks -> kind ∈ [FindingKindDropped; FindingKindContradiction] -> sound fks (finding fk kind step detail).
Proof.
  intros Hfk Hk. split; [unfold key_kinds; simpl; rewrite !elem_of_cons in *; tauto |]. split; [done |]. split; [| split; [by right |]].
  - simpl. by case_bool_decide; split.
  - intros k [= <-]. apply list_elem_of_fmap. eauto.
Qed.

Lemma found_sound fks fs : Forall (found_by fks) fs -> Forall (sound fks) fs.
Proof. intros H. eapply Forall_impl; [exact H |]. intros f (fk & kind & step & detail & Hfk & -> & Hk). by apply finding_sound. Qed.

(** The claims [findWriteTarget] looks up. *)
Definition looked (v : claimVerdict) (c : identityClaim) : bool :=
  match vd_winner v with Some w => same_claim c w || sharesStable c w | None => false end.

Lemma lookup_steps w cs : forall ids0, exists ids, opt_fold (lookup_step (Some w)) ids0 (map Some cs) = Some ids /\
  (forall id, id ∈ ids0 -> id ∈ ids) /\ (forall c id, c ∈ cs -> same_claim c w || sharesStable c w = true -> id ∈ lookup_of c -> id ∈ ids).
Proof.
  induction cs as [|c cs IH]; intros ids0; simpl; [exists ids0; split; [done |]; split; [done |]; by intros ? ? ?%elem_of_nil |].
  match goal with |- context [opt_fold _ ?l (map Some cs)] => set (ids1 := l) end. destruct (IH ids1) as (ids & -> & H1 & H2). exists ids. split; [done |]. split.
  - intros id Hid. apply H1. subst ids1. destruct (_ || _); [| done]. apply elem_of_append_fold. by left.
  - intros c' id [->|Hc]%elem_of_cons Hs Hid; [| by eapply H2]. apply H1. subst ids1. rewrite Hs. apply elem_of_append_fold. by right.
Qed.

(** What the lookup settles: the rows of the identifiers looked up are the
    target's, or left apart. *)
Record settled (db : instr_db) (ids : list Identifier) (t : writeTarget) : Prop := {
  se_target : target_ok db t;
  se_rows r : r ∈ db_identifiers db -> to_Identifier r ∈ ids -> Some (ir_InstrID r) = target_id t \/ to_Identifier r ∈ wt_taken t;
}.

Lemma match_target db ids m taken fs : tables_ok db -> m ∈ findInstrsByIdentifier db ids -> target_ok db (MkTarget (Some (im_instr m)) taken fs).
Proof.
  intros Hok Hm. destruct (matches_spec db ids Hok) as (_ & Hsnap & _ & _). destruct (Hsnap m Hm) as ([Hl _] & Hrow & _). split; [done |]. split; [| done].
  intros r. by apply (matches_identifiers db ids).
Qed.

Lemma refuse_ok res key db ids detail : tables_ok db -> let ms := findInstrsByIdentifier db ids in ms <> [] ->
  exists t, refuse res key ms detail = Some t /\ settled db ids t /\
    wt_findings t = [MkFindingParams FindingKindContradiction key None (Some (detail +:+ "; not merged")%string)].
Proof.
  intros Hok ms Hne. unfold refuse. destruct ms as [|m ms'] eqn:Ems; [done |]. cbn [head mbind option_bind]. rewrite <- Ems.
  set (kept := default m (head (omap (fun id => find_func (fun h => contains (im_matched h) id) ms) (lookupIDs (rs_globalAndDescriptionIDs res))))). eexists. split; [reflexivity |]. split; [| done].
  assert (kept ∈ ms) as Hk.
  { subst kept. destruct (head _) as [k|] eqn:Eh; simpl; [| rewrite Ems; left]. apply head_Some_elem_of in Eh.
    apply list_elem_of_omap in Eh as (id & _ & Hf). by apply find_func_Some in Hf as [Hf _]. }
  split; [by apply (match_target db ids) |]. intros r Hr Hid. destruct (matches_spec db ids Hok) as (_ & _ & Hall & _).
  destruct (Hall r Hr Hid) as (m' & Hm' & Hi). unfold target_id. simpl. destruct (decide (im_ID m' = im_ID kept)) as [He|He].
  - left. rewrite <- Hi, He. done.
  - right. apply elem_of_append_all, elem_of_concat_map. exists m'. split; [done |]. rewrite bool_decide_eq_false_2 by done.
    apply list_elem_of_fmap. exists r. split; [done |]. by apply (matches_identifiers db ids).
Qed.

(** ** What a write carries over

    What every step of the write leaves of the tables, but for the rows it is
    about. *)
Record carried (ks : list uuid) (db db' : instr_db) : Prop := {
  ca_writable : writable db';
  ca_fetch k : is_Some (db_fetch db !! k) -> is_Some (db_fetch db' !! k);
  ca_families : db_families db' = db_families db;
  ca_codes : db_codes db' = db_codes db;
  ca_tickers : vd_tickers (db_validity db') = vd_tickers (db_validity db);
  ca_stated : map (fun k => sk_ID (ks_Key k)) (db_stated db') = map (fun k => sk_ID (ks_Key k)) (db_stated db);
  ca_resolutions : db_resolutions db' = db_resolutions db;
  ca_coverage : vd_coverage (db_validity db') = vd_coverage (db_validity db);
  ca_keys : vd_keys (db_validity db') = vd_keys (db_validity db);
  ca_assertions a : a ∈ vd_assertions (db_validity db') ->
    (exists a0, a0 ∈ vd_assertions (db_validity db) /\ ia_FetchKeyID a = ia_FetchKeyID a0 /\
       ia_AssertedFrom a = ia_AssertedFrom a0 /\ ia_AssertedBefore a = ia_AssertedBefore a0) \/
    (one_day a /\ exists k, k ∈ ks /\ ia_FetchKeyID a = Some k);
  ca_ranges : ranges_ok (vd_validity (db_validity db)) -> ranges_ok (vd_validity (db_validity db'));
  ca_resolved : resolved_ok (vd_resolved (db_validity db)) -> resolved_ok (vd_resolved (db_validity db'));
}.

Lemma carried_refl ks db : writable db -> carried ks db db.
Proof. intros Hw. split; try done. intros a Ha. left. by exists a. Qed.

Lemma carried_trans ks db1 db2 db3 : carried ks db1 db2 -> carried ks db2 db3 -> carried ks db1 db3.
Proof.
  intros [W1 F1 A1 C1 T1 S1 R1 V1 K1 X1 G1 N1] [W2 F2 A2 C2 T2 S2 R2 V2 K2 X2 G2 N2]. split; try congruence; auto.
  intros a Ha. destruct (X2 a Ha) as [(a0 & Ha0 & E1 & E2 & E3)|?]; [| by right].
  destruct (X1 a0 Ha0) as [(a1 & Ha1 & ? & ? & ?)|([t Ht] & k & Hk & He)]; [left; exists a1; repeat split; congruence | right].
  split; [exists t; by rewrite E2, E3 | exists k; split; [done | congruence]].
Qed.

Lemma one_day_whole a : one_day a -> whole_day (ia_AssertedFrom a) /\ whole_day (ia_AssertedBefore a).
Proof.
  intros [t Ht]. unfold OneDay in Ht. injection Ht as -> ->. unfold whole_day. split; [apply Day_idemp | by rewrite Day_AddDays, Day_idemp].
Qed.

Lemma carried_validity ks db db' : carried ks db db' -> validity_db_ok (db_validity db) -> validity_db_ok (db_validity db').
Proof.
  intros [Hw _ _ _ Ht _ _ Hc Hk Ha Hr Hn] [O1 O2 O3 O4 O5 O6 O7 O8 O9]. split; try (by rewrite ?Ht, ?Hc, ?Hk); auto.
  - intros a Hin. pose proof (proj1 (Forall_forall _ _) (ok_assertion _ (wb_ok _ Hw)) a Hin) as (_ & Hlt & _). split; [done |].
    destruct (Ha a Hin) as [(a0 & Hin0 & _ & E1 & E2)|[H1 _]]; [| by apply one_day_whole]. rewrite E1, E2. by destruct (O3 a0 Hin0).
  - intros a Hin. pose proof (proj1 (Forall_forall _ _) (ok_assertion _ (wb_ok _ Hw)) a Hin) as (_ & _ & _ & _ & _ & Hx).
    apply list_elem_of_fmap in Hx as (r & [= -> ->] & Hr'). by exists r.
Qed.

Lemma carried_tickers ks res db db' ids ws : carried ks db db' -> tickers_known res db ids -> tickers_known (rs_with_written res ws) db' ids.
Proof. intros Hc. unfold tickers_known. by rewrite (ca_tickers _ _ _ Hc). Qed.

Lemma noted_carried fks db db' : noted fks db db' -> carried (map fk_ID fks) db db'.
Proof.
  intros [Hw _ (n & rows & -> & Hrows)]. split; try done. simpl. intros a [Ha|Ha]%elem_of_app; [left; by exists a | right].
  destruct (proj1 (Forall_forall _ _) Hrows a Ha) as ([_ Hd] & fk & Hfk & _ & He). split; [done |]. exists (fk_ID fk). split; [| done].
  apply list_elem_of_fmap. eauto.
Qed.

(** ** A merge *)

Lemma sublist_lfilter {A} (f : A -> bool) l : List.filter f l `sublist_of` l.
Proof. induction l as [|x l IH]; simpl; [done |]. destruct (f x); [by apply sublist_skip | by apply sublist_cons]. Qed.

Lemma Forall_lfilter {A} (P : A -> Prop) (f : A -> bool) l : Forall P l -> Forall P (List.filter f l).
Proof. rewrite !Forall_forall. intros H x [Hx _]%elem_of_lfilter. auto. Qed.

Lemma NoDup_map_lfilter {A B} (g : A -> B) (f : A -> bool) l : NoDup (map g l) -> NoDup (map g (List.filter f l)).
Proof.
  induction l as [|x l IH]; simpl; [done |]. intros [Hn Hd]%NoDup_cons. destruct (f x); simpl; [| by apply IH]. apply NoDup_cons. split; [| by apply IH].
  intros (y & He & [Hy _]%elem_of_lfilter)%list_elem_of_fmap. apply Hn. rewrite He. apply list_elem_of_fmap. eauto.
Qed.

Lemma merged_carried ks key m losers db t db' : writable db -> merged key m losers db t db' -> carried ks db db'.
Proof.
  intros [Hok Hl Hm] [M1 M2 [R1 R2 R3 _ R5 _ R7 R8 R9 [R10 R10'] (F1 & F2 & F3 & F4 & F5 & F6) [R12 R12']] _ _ _].
  split; try done.
  - split; [by apply consistent_tables | done |]. intros i. rewrite F5. rewrite !row_ids_elem. intros Hi. apply Hm. rewrite row_ids_elem.
    assert (map ir_ID (db_identifiers db') = map ir_ID (db_identifiers db)) as <-.
    { pose proof (f_equal (map (fun x : uuid * Identifier * option uuid * uuid * option string => x.1.1.1.1)) R2) as E. unfold identifier_view in E.
      rewrite !map_map in E. simpl in E. refine (eq_trans E _). apply map_ext. by intros r. }
    assert (map ia_ID (vd_assertions (db_validity db')) = map ia_ID (vd_assertions (db_validity db))) as <- by (rewrite R7, map_map; by apply map_ext).
    rewrite <- R10', <- F1. destruct Hi as [Hi|[Hi|?]]; [left | right; left; by apply R12 | right; right; done].
    unfold instr_ids in *. rewrite R1 in Hi. apply list_elem_of_fmap in Hi as (r & -> & [Hr _]%elem_of_lfilter). apply list_elem_of_fmap. eauto.
  - intros k Hk. rewrite R5, lookup_fmap. by apply fmap_is_Some.
  - pose proof (f_equal (map (fun k : StatedKeyRow * option string => sk_ID (ks_Key k.1))) R3) as E. unfold stated_view in E. rewrite !map_map in E. simpl in E.
    refine (eq_trans E _). apply map_ext. intros k. by destruct (ks_Key k).
  - intros a. rewrite R7. intros (a0 & -> & Ha0)%list_elem_of_fmap. left. by exists a0.
  - intros [H1 H2]. rewrite R8. split; [by apply Forall_lfilter | by apply StronglySorted_lfilter].
  - intros [H1 H2]. rewrite R9. split; [by apply Forall_lfilter | by apply NoDup_map_lfilter].
Qed.

Lemma merged_settled key db ids m losers t db' : tables_ok db -> findInstrsByIdentifier db ids = m :: losers -> merged key m losers db t db' ->
  settled db' ids t /\ target_id t = Some (im_ID m).
Proof.
  intros Hok Hms [Hc _ Hr [Ht Hrow] Htk _]. unfold target_id. rewrite Ht. split; [| done]. split.
  - unfold target_ok. rewrite Ht. split; [done |]. split; intros r; [by apply join_identifiers; left |].
    by apply (join_snapshot db' _ _ (proj1 (consistent_tables _) Hc)); left.
  - intros r' Hr' Hid. left. destruct (renamed_identifier _ _ _ _ r' Hr Hr') as (r & Hrr & Hn & _ & Hi & _). rewrite Hn in Hid.
    destruct (matches_spec db ids Hok) as (_ & _ & Hall & _). destruct (Hall r Hrr Hid) as (m' & Hm' & Hmi). rewrite Hms in Hm'.
    rewrite Hi, <- Hmi. unfold rename, target_id. rewrite Ht. simpl. f_equal. apply elem_of_cons in Hm' as [->|Hm'].
    + destruct (contains _ _); done.
    + replace (contains (map im_ID losers) (im_ID m')) with true; [done |]. symmetry. apply contains_true, list_elem_of_fmap. eauto.
Qed.

Lemma elem_of_ListTickersOfInstrs db is_ t : t ∈ ListTickersOfInstrs db is_ <->
  exists a i, a ∈ vd_assertions (db_validity db) /\ ia_InstrID a = Some i /\ i ∈ is_ /\ ia_TickerID a = t.
Proof.
  unfold ListTickersOfInstrs. rewrite elem_of_sort_func, elem_of_append_all, list_elem_of_fmap. split.
  - intros (a & -> & [Ha Hi]%elem_of_lfilter). destruct (ia_InstrID a) as [i|] eqn:E; [| done]. apply contains_true in Hi. eauto 10.
  - intros (a & i & Ha & Hi & Hin & <-). exists a. split; [done |]. apply elem_of_lfilter. split; [done |]. rewrite Hi. by apply contains_true.
Qed.

Lemma elem_of_Lock rows ids t : t ∈ lk_ids (Tickers.Lock rows ids) <-> t ∈ ids /\ t ∈ map tk_ID rows.
Proof.
  unfold Tickers.Lock. destruct ids as [|i ids]; simpl lk_ids; [split; [by intros ?%elem_of_nil | by intros [?%elem_of_nil _]] |].
  rewrite elem_of_sort_func, elem_of_lfilter, contains_true. tauto.
Qed.

Section DecideMerge.
Context (stamp : time -> string).

(** Every ticker the survivor of a merge has is locked, or was its own: no other
    transaction writes meanwhile. *)
Lemma checkMoved_ok res fks db0 db db' m losers : tables_ok db0 -> noted fks db0 db -> renamed (im_ID m) (map im_ID losers) db db' ->
  checkMoved (im_ID m) (ListTickersOfInstrs db [im_ID m] ++ lk_ids (lockTickers db0 res (m :: losers))) db' = Ok (tt, db').
Proof.
  intros Hok Hn Hr. unfold checkMoved. rewrite (tx_bind_ok _ _ db' db' db') by done.
  destruct (find_func _ _) as [t|] eqn:Ef; [exfalso | done]. apply find_func_Some in Ef as [Ht Hk%negb_true_iff%contains_false]. apply Hk.
  apply elem_of_ListTickersOfInstrs in Ht as (a & i & Ha & Hi & ->%list_elem_of_singleton & <-). rewrite (rn_assertions _ _ _ _ Hr) in Ha.
  apply list_elem_of_fmap in Ha as (a0 & -> & Ha0). simpl in *. destruct (ia_InstrID a0) as [j|] eqn:Ej; [| done]. simpl in Hi. injection Hi as Hi.
  apply elem_of_app. unfold rename in Hi. destruct (contains (map im_ID losers) j) eqn:Ec; [right | left; apply elem_of_ListTickersOfInstrs; subst j].
  2:{ exists a0, (im_ID m). repeat split; [done | done | by left]. }
  apply contains_true in Ec. assert (a0 ∈ vd_assertions (db_validity db0)) as Ha1.
  { destruct (no_tables _ _ _ Hn) as (n & rows & -> & Hrows). simpl in Ha0. apply elem_of_app in Ha0 as [?|Ha0]; [done |].
    destruct (proj1 (Forall_forall _ _) Hrows a0 Ha0) as ([Hnone _] & _). congruence. }
  apply elem_of_Lock. split.
  - apply elem_of_app. right. destruct losers as [|l losers]; [by apply elem_of_nil in Ec |]. apply elem_of_ListTickersOfInstrs. eauto 10.
  - pose proof (proj1 (Forall_forall _ _) (ok_assertion _ Hok) a0 Ha1) as (_ & _ & _ & _ & _ & Hx).
    apply list_elem_of_fmap in Hx as (r & [= -> _] & Hr'). apply list_elem_of_fmap. eauto.
Qed.

Lemma found_noted fks db db' ids : noted fks db db' -> findInstrsByIdentifier db' ids = findInstrsByIdentifier db ids.
Proof. intros [_ _ (n & rows & -> & _)]. reflexivity. Qed.

Lemma settled_noted fks db db' ids t : noted fks db db' -> settled db ids t -> settled db' ids t.
Proof. intros [_ _ (n & rows & -> & _)] [H1 H2]. by split. Qed.

(** Where the matches of the lookup are to be merged, they are; where not, the
    target is settled as it is. *)
Definition choosable (db : instr_db) (ids : list Identifier) (t : writeTarget) (merging : list instrMatch) : Prop :=
  settled db ids t /\ merging = [] \/ merging = findInstrsByIdentifier db ids /\ merging <> [].

Lemma decide_merge_ok v res fks db0 db ids t merging : writable db0 -> noted fks db0 db -> choosable db0 ids t merging ->
  (forall f, f ∈ wt_findings t -> sound (rs_fetchKeys res) f) ->
  (forall k, winnerKey v = Some k -> k ∈ map fk_ID (rs_fetchKeys res)) ->
  yields (decide_merge stamp v (lockTickers db0 res merging) t merging) db (fun t' db' => carried [] db db' /\ settled db' ids t' /\
    (forall f, f ∈ wt_findings t' -> sound (rs_fetchKeys res) f)).
Proof.
  intros Hw Hn Hch Hfs Hwk. unfold decide_merge. destruct merging as [|m losers].
  - destruct Hch as [[Hs _]|[_ ?]]; [| done]. apply yields_ret. split; [apply carried_refl, Hn |]. split; [by eapply settled_noted | done].
  - destruct Hch as [[_ ?]|[Hms _]]; [done |]. apply yields_get.
    pose proof (no_writable _ _ _ Hn) as Hwn.
    assert (findInstrsByIdentifier db ids = m :: losers) as Hms' by (rewrite (found_noted _ _ _ _ Hn); done).
    destruct (merge_ok stamp (winnerKey v) db ids m losers (wb_ok _ Hwn) (wb_linked _ Hwn) Hms') as (t' & db' & Hrun & Hm).
    apply (yields_bind _ _ _ (fun t1 d => t1 = t' /\ d = db') _ (yields_run _ _ _ _ _ Hrun (conj eq_refl eq_refl))). intros ? ? [-> ->].
    pose proof (checkMoved_ok res fks db0 db db' m losers (wb_ok _ Hw) Hn (me_renamed _ _ _ _ _ _ Hm)) as Hck.
    apply (yields_bind _ _ _ (fun _ d => d = db') _ (yields_run _ _ _ _ _ Hck eq_refl)). intros _ ? ->. apply yields_ret.
    split; [by eapply merged_carried |]. split; [by eapply merged_settled; [apply Hwn | |] |].
    intros f Hf. apply list_elem_of_lookup in Hf as [k Hk].
    destruct (Forall2_lookup_r _ _ _ _ _ (me_findings _ _ _ _ _ _ Hm) Hk) as (h & _ & detail & ->).
    split; [unfold key_kinds; simpl; rewrite !elem_of_cons; tauto |]. split; [done |]. split; [by split |]. split; [by left | done].
Qed.

End DecideMerge.

(** ** The lookup *)

Lemma findWriteTarget_ok uuid_string db res v : tables_ok db -> (vd_attached v <> [] -> is_Some (vd_winner v)) ->
  (forall k, winnerKey v = Some k -> k ∈ map fk_ID (rs_fetchKeys res)) ->
  exists t merging ids, findWriteTarget uuid_string db res v (map Some (vd_attached v)) = Some (t, merging) /\ choosable db ids t merging /\
    (forall f, f ∈ wt_findings t -> sound (rs_fetchKeys res) f) /\
    forall c id, c ∈ vd_attached v -> looked v c = true -> id ∈ lookup_of c -> id ∈ ids.
Proof.
  intros Hok Hwin Hwk. unfold findWriteTarget.
  assert (exists ids, opt_fold (lookup_step (vd_winner v)) (lookupIDs (rs_globalAndDescriptionIDs res)) (map Some (vd_attached v)) = Some ids /\
    forall c id, c ∈ vd_attached v -> looked v c = true -> id ∈ lookup_of c -> id ∈ ids) as (ids & -> & Hids).
  { unfold looked. destruct (vd_winner v) as [w|].
    - destruct (lookup_steps w (vd_attached v) (lookupIDs (rs_globalAndDescriptionIDs res))) as (ids & -> & _ & H). by exists ids.
    - destruct (vd_attached v) as [|c cs]; [eexists; split; [reflexivity |]; by intros ? ? ?%elem_of_nil |]. destruct Hwin; [done | done]. }
  cbn [mbind option_bind].
  pose proof (matches_spec db ids Hok) as (_ & _ & Hall & _).
  destruct (findInstrsByIdentifier db ids) as [|m [|m' ms]] eqn:Ems.
  - exists (MkTarget None [] []), [], ids. split; [done |]. split; [left; split; [split; [done |] | done] | split; [by intros ? ?%elem_of_nil | done]].
    intros r Hr Hid. destruct (Hall r Hr Hid) as (x & Hx & _). by apply elem_of_nil in Hx.
  - exists (MkTarget (Some (im_instr m)) [] []), [], ids. split; [done |].
    split; [left; split; [split | done] | split; [by intros ? ?%elem_of_nil | done]].
    + apply (match_target db ids m); [done |]. rewrite Ems. by left.
    + intros r Hr Hid. left. destruct (Hall r Hr Hid) as (x & ->%list_elem_of_singleton & Hi). unfold target_id. simpl. by rewrite <- Hi.
  - destruct (mergeConflict uuid_string _) as [detail|].
    + destruct (refuse_ok res (winnerKey v) db ids detail Hok) as (t & Ht & Hs & Hf); [by rewrite Ems |]. rewrite Ems in Ht. rewrite Ht.
      exists t, [], ids. split; [done |]. split; [by left |]. split; [| done]. rewrite Hf. intros f ->%list_elem_of_singleton.
      split; [simpl; unfold key_kinds; rewrite !elem_of_cons; tauto |]. split; [done |]. split; [by split |]. split; [by left | exact Hwk].
    + exists (MkTarget None [] []), (m :: m' :: ms), ids. split; [done |]. split; [right; by rewrite Ems | split; [by intros ? ?%elem_of_nil | done]].
Qed.

(** ** Claims another instrument holds *)

(** No instrument but the target has an identifier of the claim. *)
Definition unheld (db : instr_db) (t : option uuid) (c : identityClaim) : Prop :=
  forall r, r ∈ db_identifiers db -> to_Identifier r ∈ lookup_of c -> Some (ir_InstrID r) = t.

Lemma elem_of_lookup_of c id : id ∈ lookup_of c <-> id ∈ AllIDs (cl_Instr c) /\ Ticker id = false.
Proof. unfold lookup_of. by rewrite elem_of_lfilter, negb_true_iff. Qed.

Lemma held_steps fks others joined : (forall c, c ∈ joined -> exists fk, cl_fetchKey c = Some fk /\ fk ∈ fks) -> forall st,
  exists st', opt_fold (held_step others) st joined = Some st' /\ st'.1 `sublist_of` st.1 /\
    (forall c, c ∈ joined -> c ∈ st'.1 -> heldBy c others = None) /\
    (Forall (found_by fks) st.2 -> Forall (found_by fks) st'.2).
Proof.
  intros Hfk. induction joined as [|c joined IH]; intros st; simpl; [exists st; repeat split; [done .. | by intros ? ?%elem_of_nil | done] |].
  assert (exists st1, held_step others st c = Some st1 /\ st1.1 `sublist_of` st.1 /\ (c ∈ st1.1 -> heldBy c others = None) /\
    (Forall (found_by fks) st.2 -> Forall (found_by fks) st1.2)) as (st1 & -> & S1 & H1 & F1).
  { unfold held_step. destruct (heldBy c others) as [id|]; [| by exists st]. destruct (Hfk c ltac:(left)) as (fk & -> & Hin). cbn [mbind option_bind].
    eexists. split; [reflexivity |]. simpl. split; [apply sublist_lfilter |]. split.
    - intros [_ Hc]%elem_of_lfilter. unfold same_claim in Hc. by rewrite !bool_decide_eq_true_2 in Hc.
    - intros Hf. apply Forall_app. split; [done |]. apply Forall_singleton. eexists fk, _, _, _. split; [done |]. split; [reflexivity |]. right; left. }
  destruct (IH ltac:(intros c' Hc'; apply Hfk; by right) st1) as (st' & -> & S2 & H2 & F2). exists st'. split; [done |].
  split; [by etransitivity |]. split; [| auto]. intros c' [->|Hc']%elem_of_cons Hin; [| by apply H2]. apply H1. by eapply elem_of_sublist.
Qed.

Lemma heldBy_None db c ids t : tables_ok db -> (forall id, id ∈ lookup_of c -> id ∈ ids) ->
  heldBy c (List.filter (fun m => negb (bool_decide (Some (im_ID m) = t))) (findInstrsByIdentifier db ids)) = None -> unheld db t c.
Proof.
  intros Hok Hids Hh r Hr Hid. destruct (matches_spec db ids Hok) as (_ & Hm & Hall & _). destruct (Hall r Hr (Hids _ Hid)) as (m & Hin & Hmi).
  destruct (decide (Some (ir_InstrID r) = t)) as [|Hne]; [done | exfalso]. unfold heldBy in Hh. rewrite find_func_None in Hh.
  destruct (Hm m Hin) as (_ & _ & _ & Hmatch). pose proof (Hh (to_Identifier r)) as Hf.
  assert (IdentifiedBy (cl_Instr c) (to_Identifier r) = false) as Hf'.
  { apply Hf, elem_of_concat_map. exists m. split; [apply elem_of_lfilter; split; [done |]; rewrite Hmi; by rewrite bool_decide_eq_false_2 |].
    apply Hmatch. split; [by apply Hids | by exists r]. }
  unfold IdentifiedBy in Hf'. rewrite existsb_false in Hf'. apply elem_of_lookup_of in Hid as [Hid _].
  pose proof (Hf' _ Hid) as Hx. simpl in Hx. by rewrite bool_decide_eq_true_2 in Hx.
Qed.

Definition apart (same : identityClaim -> identityClaim -> bool) (chooser : option identityClaim) (c : identityClaim) : bool :=
  match chooser with Some ch => negb (same c ch || sharesStable c ch) | None => true end.

Lemma dropHeld_ok fks db same attached chooser target : tables_ok db -> (forall c, c ∈ attached -> exists fk, cl_fetchKey c = Some fk /\ fk ∈ fks) ->
  exists kept fs, dropHeld db same attached chooser target = Some (kept, fs) /\ kept `sublist_of` attached /\ Forall (found_by fks) fs /\
    forall c, c ∈ kept -> apart same chooser c = true -> unheld db ((fun t => in_ID (iw_Row t)) <$> target) c.
Proof.
  intros Hok Hfk. unfold dropHeld. change (joined_claims same chooser attached) with (List.filter (apart same chooser) attached).
  destruct (List.filter (apart same chooser) attached) as [|j js] eqn:Ej.
  { exists attached, []. split; [done |]. split; [done |]. split; [done |]. intros c Hc Ha.
    assert (c ∈ List.filter (apart same chooser) attached) as Hin by by apply elem_of_lfilter. rewrite Ej in Hin. by apply elem_of_nil in Hin. }
  rewrite <- Ej. set (joined := List.filter (apart same chooser) attached) in *. cbv zeta. set (ids := foldl append_unique [] _). set (others := List.filter _ (findInstrsByIdentifier _ _)).
  destruct (held_steps fks others joined) with (st := (attached, @nil CreateFindingParams)) as ([kept fs] & E & Hsub & Hheld & Hfs).
  { intros c [Hc _]%elem_of_lfilter. auto. }
  exists kept, fs. split; [by rewrite E |]. split; [done |]. split; [by apply Hfs |]. intros c Hc Ha.
  assert (c ∈ joined) as Hj by (apply elem_of_lfilter; split; [by eapply elem_of_sublist | done]).
  eapply (heldBy_None db c ids); [done | | by apply Hheld]. intros id Hid. apply elem_of_append_all, elem_of_concat_map. eauto.
Qed.

(** ** The decision *)

(** The fetch keys a negative assertion may be under. *)
Definition unknown_keys (res : resolution) : list uuid := map fk_ID (List.filter (fun fk => ir_Unknown (fk_Response fk)) (rs_fetchKeys res)).

(** A claim that shares a stable identifier with the winner of the verdict [v]
    is in it. One that is not is late: the second choice alone attaches it, and
    its identifiers are not looked up. *)
Definition timely (v : claimVerdict) (c : identityClaim) : Prop :=
  forall w, vd_winner v = Some w -> sharesStable c w = true -> c ∈ vd_attached v.

(** Claims of the responses, one of each at most. *)
Record of_responses (res : resolution) (cs : list identityClaim) : Prop := {
  or_claims c : c ∈ cs -> exists fk gs, fk ∈ rs_fetchKeys res /\ cl_fetchKey c = Some fk /\ claims fk (rs_families res) = Some gs /\ c ∈ gs;
  or_keys : NoDup (keys_of cs);
}.

Lemma of_responses_sublist res cs cs' : cs' `sublist_of` cs -> of_responses res cs -> of_responses res cs'.
Proof.
  intros Hs [H1 H2]. split; [intros c Hc; apply H1; by eapply elem_of_sublist |]. eapply sublist_NoDup; [exact H2 |].
  unfold keys_of. apply (fmap_sublist fk_ID). clear H1 H2. induction Hs as [|c cs1 cs2 _ IH|c cs1 cs2 _ IH]; simpl; [done | |].
  - destruct (cl_fetchKey c); [by apply sublist_skip | done].
  - destruct (cl_fetchKey c); [by apply sublist_cons | done].
Qed.

Lemma run_of_responses res v : NoDup (map fk_ID (rs_fetchKeys res)) ->
  (forall c, c ∈ vd_attached v -> exists fk gs, fk ∈ rs_fetchKeys res /\ cl_fetchKey c = Some fk /\ claims fk (rs_families res) = Some gs /\ c ∈ gs) ->
  omap cl_fetchKey (vd_attached v) `sublist_of` rs_fetchKeys res -> of_responses res (vd_attached v).
Proof. intros Hnd Hc Hs. split; [done |]. eapply sublist_NoDup; [exact Hnd |]. by apply (fmap_sublist fk_ID). Qed.

Lemma claim_locked res fk gs c : fk ∈ rs_fetchKeys res -> fk_Outcome fk = FetchOutcomeServed -> claims fk (rs_families res) = Some gs -> c ∈ gs ->
  forall id, id ∈ AllIDs (cl_Instr c) -> id ∈ identifiersToLock res.
Proof.
  intros Hfk Ho Hgs Hc id Hid. destruct (claims_ids _ _ _ _ Hgs Hc) as [_ Hids]. unfold identifiersToLock. apply elem_of_append_fold. right.
  apply elem_of_concat_map. exists fk. split; [done |]. rewrite bool_decide_eq_true_2 by done. by apply Hids.
Qed.

Lemma written_lookup c id : id ∈ written_ids c -> id ∈ lookup_of c.
Proof.
  intros [Ht Hid]%elem_of_written_ids. apply elem_of_lookup_of. split; [| done]. unfold AllIDs. apply elem_of_app.
  destruct Hid as [Hid|(f & _ & Hf & Hid)]; [by left | right]. apply elem_of_concat_map. by exists f.
Qed.

(** The claims of the responses may be written onto the target, once the tables
    say no other instrument has an identifier of theirs. *)
Lemma responses_write res ws db0 db d : ready res db0 -> carried (unknown_keys res) db0 db -> target_ok db (dc_target d) ->
  of_responses res (vd_attached (dc_verdict d)) ->
  (wt_instr (dc_target d) = None -> exists winner, vd_winner (dc_verdict d) = Some winner /\ exists fk, cl_fetchKey winner = Some fk /\ fk ∈ rs_fetchKeys res) ->
  (forall c id r, c ∈ vd_attached (dc_verdict d) -> id ∈ written_ids c -> r ∈ db_identifiers db -> to_Identifier r = id ->
    Some (ir_InstrID r) = target_id (dc_target d) \/ id ∈ wt_taken (dc_target d)) ->
  writes db (rs_with_written res ws) d.
Proof.
  intros [Hids Hfetch Hfresh Hlisted Ht Hcodes Hfam] Hc Htg [Hcl Hnd] Hwin Hfree. split; try done.
  - intros (winner & Hv & fk & Hfk & Hin)%Hwin. exists winner, fk. split; [done |]. split; [done |]. by apply (ca_fetch _ _ _ Hc), Hfetch.
  - intros c Hcc. destruct (Hcl c Hcc) as (fk & gs & Hfk & Hck & Hgs & Hin). exists fk. split; [done |].
    destruct (claims_ids _ _ _ _ Hgs Hin) as [Hne _]. destruct (Hlisted fk Hfk Hne) as [Hserved Hknown].
    split; [by apply (ca_fetch _ _ _ Hc), Hfetch |]. split; [by eapply claims_formed |]. split.
    + apply (carried_tickers _ _ _ _ _ _ Hc). destruct Ht as (T1 & T2 & T3). split; [done |]. split; [done |]. intros id t Hid. apply T3, elem_of_app. left.
      by eapply claim_locked.
    + intros a Ha He. destruct (ca_assertions _ _ _ Hc a Ha) as [(a0 & Ha0 & E & _)|(_ & k & Hk & E)]; [by apply (Hfresh fk a0 Hfk Ha0); congruence |].
      apply list_elem_of_fmap in Hk as (fk' & -> & [Hfk' Hu]%elem_of_lfilter). assert (fk' = fk) as -> by (eapply NoDup_key; [exact Hids | done | done | congruence]).
      congruence.
  - unfold codes_ok. by rewrite (ca_codes _ _ _ Hc).
  - unfold families_ok. by rewrite (ca_families _ _ _ Hc).
  - intros fk Hfk. by apply (ca_fetch _ _ _ Hc), Hfetch.
Qed.

(** What the decision [d] of a write leaves: [v] is the verdict without the
    database's claim, and [slice] the claims of the cached verdict. *)
Record decided (res : resolution) (v : claimVerdict) (db0 db : instr_db) (d : decision) (slice : list (option identityClaim)) : Prop := {
  de_carried : carried (unknown_keys res) db0 db;
  de_target : forall f, f ∈ wt_findings (dc_target d) -> sound (rs_fetchKeys res) f;
  de_slice : wt_instr (dc_target d) <> None -> slice = map Some (vd_attached v);
  de_conflict : dc_conflict d <> ""%string -> exists i, wt_instr (dc_target d) = Some i /\ classConflict (rs_row res) (in_AssetClass (iw_Row i)) = Some (dc_conflict d);
  de_findings : dc_conflict d = ""%string -> Forall (sound (rs_fetchKeys res)) (rs_findings res) -> Forall (sound (rs_fetchKeys res)) (vd_findings (dc_verdict d));
  de_winner : dc_conflict d = ""%string -> vd_winner (dc_verdict d) = None -> wt_instr (dc_target d) = None /\ vd_winner v = None;
  de_writes ws : dc_conflict d = ""%string -> vd_winner (dc_verdict d) <> None -> (forall c, c ∈ vd_attached (dc_verdict d) -> timely v c) ->
    writes db (rs_with_written res ws) d;
}.

Lemma mapM_id_Some {A} (l : list A) : mapM id (map Some l) = Some l.
Proof. induction l as [|x l IH]; [done |]. simpl. by rewrite IH. Qed.

Lemma vd_with_attached_same v : vd_with_attached v (vd_attached v) = v.
Proof. by destruct v. Qed.

Lemma class_conflict_nonempty k class reason : classConflict k class = Some reason -> reason <> ""%string.
Proof. unfold classConflict. destruct (sk_AssetClass k); [| done]. destruct (Disjoint _ _); [| done]. by intros [= <-]. Qed.

Section DecideVerdict.
Context (res : resolution) (ws : list (fetchKey * Identifier)) (db0 db : instr_db) (Hready : ready res db0) (Hcar : carried (unknown_keys res) db0 db).
Context (v : claimVerdict) (Hv : first_verdict res [] = Some v).
Context (t : writeTarget) (ids : list Identifier) (Ht : settled db ids t) (Htf : forall f, f ∈ wt_findings t -> sound (rs_fetchKeys res) f).
Context (Hlooked : forall c id, c ∈ vd_attached v -> looked v c = true -> id ∈ lookup_of c -> id ∈ ids).

Lemma first_run : vd_winner v = head (vd_attached v) /\ of_responses res (vd_attached v) /\ Forall (found_by (rs_fetchKeys res)) (vd_findings v).
Proof.
  destruct (choose_run res None) as (v' & E & _ & Hw & Hc & Hs & Hf). unfold first_verdict in Hv. rewrite Hv in E. injection E as <-.
  split; [done |]. split; [| done]. by apply run_of_responses; [apply Hready | |].
Qed.

(** A claim the write attaches: it was looked up, or no other instrument holds
    it. *)
Lemma attached_free same (cs : list identityClaim) c id r :
  (forall c, c ∈ cs -> apart same (vd_winner v) c = true -> unheld db (target_id t) c) ->
  (forall c, c ∈ cs -> timely v c) -> (same = (fun _ _ => false) \/ same = same_claim /\ cs ⊆ vd_attached v) ->
  c ∈ cs -> id ∈ written_ids c -> r ∈ db_identifiers db -> to_Identifier r = id ->
  Some (ir_InstrID r) = target_id t \/ id ∈ wt_taken t.
Proof.
  intros Hap Htm Hsame Hc Hid Hr He. pose proof (written_lookup c id Hid) as Hlk. destruct (apart same (vd_winner v) c) eqn:Ea.
  { left. apply (Hap c Hc Ea r Hr). by rewrite He. }
  unfold apart in Ea. destruct (vd_winner v) as [w|] eqn:Ew; [| done]. apply negb_false_iff in Ea.
  rewrite <- He. apply (se_rows _ _ _ Ht r Hr). rewrite He. apply (Hlooked c); [| | done]; unfold looked; rewrite ?Ew.
  - destruct Hsame as [-> |[-> Hsub]]; [| by apply Hsub]. by apply (Htm c Hc w).
  - destruct Hsame as [-> |[-> _]]; [| done]. simpl in Ea. by rewrite Ea, orb_true_r.
Qed.

Lemma dropped_sound fs : Forall (found_by (rs_fetchKeys res)) fs -> forall vf, Forall (found_by (rs_fetchKeys res)) vf ->
  Forall (sound (rs_fetchKeys res)) (rs_findings res) -> Forall (sound (rs_fetchKeys res)) (vf ++ fs ++ wt_findings t ++ rs_findings res).
Proof.
  intros Hfs vf Hvf Hrf. rewrite !Forall_app. split; [by apply found_sound |]. split; [by apply found_sound |]. split; [| done].
  apply Forall_forall, Htf.
Qed.

Lemma decide_verdict_ok locked : let res' := rs_with_written res ws in
  exists v' conflict slice, decide_verdict db res' None v (map Some (vd_attached v)) t = Some (Ok (v', conflict, slice)) /\
    decided res v db0 db (MkDecision v' t conflict locked) slice.
Proof.
  intros res'. destruct first_run as (Hw & Hor & Hf). pose proof (wb_ok _ (ca_writable _ _ _ Hcar)) as Hok.
  unfold decide_verdict. rewrite mapM_id_Some. cbn [mbind option_bind]. rewrite vd_with_attached_same. destruct (wt_instr t) as [i|] eqn:Ei.
  - destruct (classConflict (rs_row res') (in_AssetClass (iw_Row i))) as [reason|] eqn:Ec.
    { exists v, reason, (map Some (vd_attached v)). split; [done |]. pose proof (class_conflict_nonempty _ _ _ Ec) as Hne.
      split; simpl; try done; try (by intros ->). intros _. by exists i. }
    unfold res'. rewrite choose_written. destruct (choose_run res (Some (MkClaim None 0 (join_types (iw_Instr i))))) as (v' & Ech & Href & Hw' & Hc' & Hs' & Hf').
    unfold uc_members. rewrite Ech. cbn [mbind option_bind]. rewrite bool_decide_eq_true_2 by done. cbn [negb].
    pose proof (run_of_responses res v' (rd_ids _ _ Hready) Hc' Hs') as Hor'.
    destruct (dropHeld_ok (rs_fetchKeys res) db (fun _ _ => false) (vd_attached v') (vd_winner v) (Some i) Hok) as (kept & fs & Ed & Hsub & Hfs & Hkept).
    { intros c Hc. destruct (or_claims _ _ Hor' c Hc) as (fk & gs & ? & ? & _). by exists fk. }
    rewrite Ed. cbn [mbind option_bind]. eexists _, _, _. split; [reflexivity |]. split; try done.
    + intros _ Hrf. simpl. by apply dropped_sound.
    + intros _. simpl. by rewrite Hw'.
    + intros ws' _ _ Htm. eapply (responses_write res ws' db0); [done | exact Hcar | apply Ht | | |].
      * by eapply of_responses_sublist.
      * simpl. congruence.
      * intros c id r Hc. eapply (attached_free (fun _ _ => false) kept); [| done | by left | done].
        intros c1 Hc1 Ha. unfold target_id. rewrite Ei. by apply Hkept.
  - destruct (dropHeld_ok (rs_fetchKeys res) db same_claim (vd_attached v) (vd_winner v) None Hok) as (kept & fs & Ed & Hsub & Hfs & Hkept).
    { intros c Hc. destruct (or_claims _ _ Hor c Hc) as (fk & gs & ? & ? & _). by exists fk. }
    rewrite Ed. cbn [mbind option_bind]. eexists _, _, _. split; [reflexivity |]. split; try done.
    + intros _ Hrf. simpl. by apply dropped_sound.
    + intros ws' _ Hwin Htm. eapply (responses_write res ws' db0); [done | exact Hcar | apply Ht | | |].
      * by eapply of_responses_sublist.
      * intros _. simpl in *. destruct (vd_winner v) as [w|]; [| done]. exists w. split; [done |].
        assert (w ∈ vd_attached v) as Hwv by by apply head_Some_elem_of. destruct (or_claims _ _ Hor w Hwv) as (fk & gs & ? & ? & _). by exists fk.
      * intros c id r Hc. eapply (attached_free same_claim kept); [| done | right; split; [done | intros x Hx; by eapply elem_of_sublist] | done].
        intros c1 Hc1 Ha. unfold target_id. rewrite Ei. by apply Hkept.
Qed.

End DecideVerdict.

Lemma noted_unknown res db db' : noted (rs_fetchKeys res) db db' -> carried (unknown_keys res) db db'.
Proof.
  intros Hn. pose proof (noted_carried _ _ _ Hn) as [? ? ? ? ? ? ? ? ? _ ? ?]. split; try done.
  destruct Hn as [_ _ (n & rows & -> & Hrows)]. simpl. intros a [Ha|Ha]%elem_of_app; [left; by exists a | right].
  destruct (proj1 (Forall_forall _ _) Hrows a Ha) as ([_ Hd] & fk & Hfk & Hu & He). split; [done |]. exists (fk_ID fk). split; [| done].
  apply list_elem_of_fmap. exists fk. split; [done |]. by apply elem_of_lfilter.
Qed.

Lemma carried_mono ks ks' db db' : ks ⊆ ks' -> carried ks db db' -> carried ks' db db'.
Proof.
  intros Hk [? ? ? ? ? ? ? ? ? Ha ? ?]. split; try done. intros a Hin. destruct (Ha a Hin) as [?|(? & k & ? & ?)]; [by left | right]. split; [done |].
  exists k. auto.
Qed.

(** A decision without a user's choice always succeeds. *)
Lemma decide_ok stamp uuid_string res ws c db : writable db -> ready res db ->
  exists v, first_verdict res [] = Some v /\ vd_refused v = ""%string /\
    (c = None \/ c = Some (map Some (vd_attached v)) ->
     yields (decide_write stamp uuid_string (rs_with_written res ws) None c) db (fun r db' =>
       decided res v db db' r.1.1 r.2 /\ exists ws', r.1.2 = rs_with_written res ws')).
Proof.
  intros Hw Hr. destruct (choose_run res None) as (v & Hv & Href & Hwin & Hcl & Hsub & _). exists v. split; [done |]. split; [done |]. intros Hc.
  pose proof (run_of_responses res v (rd_ids _ _ Hr) Hcl Hsub) as Hor.
  unfold decide_write. apply (yields_some _ (v, map Some (vd_attached v))).
  { unfold first, uc_members. rewrite first_written. unfold first_verdict. rewrite Hv. cbn [mbind option_bind]. by destruct Hc as [->| ->]. }
  rewrite bool_decide_eq_true_2 by done. cbn [negb]. apply yields_get.
  assert (forall k, winnerKey v = Some k -> k ∈ map fk_ID (rs_fetchKeys res)) as Hwk.
  { unfold winnerKey. simpl in Hwin. destruct (vd_winner v) as [w|]; [| done]. cbn [mbind option_bind]. symmetry in Hwin. apply head_Some_elem_of in Hwin.
    destruct (Hcl w Hwin) as (fk & gs & Hfk & Hck & _). rewrite Hck. cbn [mbind option_bind]. intros k [= <-]. apply list_elem_of_fmap. eauto. }
  destruct (findWriteTarget_ok uuid_string db (rs_with_written res ws) v (wb_ok _ Hw)) as (t & merging & ids & Ef & Hch & Hfs & Hlk).
  { simpl in Hwin. rewrite Hwin. by destruct (vd_attached v). }
  { exact Hwk. }
  apply (yields_some _ (t, merging)); [exact Ef |]. cbv zeta.
  apply (yields_bind _ _ _ _ _ (recordUnknown_ok res ws db Hw Hr)). intros res1 db1 [Hn [ws1 ->]].
  apply (yields_bind _ _ _ _ _ (decide_merge_ok stamp v (rs_with_written res ws) _ db db1 ids t merging Hw Hn Hch Hfs Hwk)).
  intros t' db2 (Hcar & Hset & Htf). apply yields_get.
  assert (carried (unknown_keys res) db db2) as Hcar2.
  { eapply carried_trans; [by apply noted_unknown | eapply carried_mono; [| exact Hcar]; by intros ? ?%elem_of_nil]. }
  destruct (decide_verdict_ok res ws1 db db2 Hr Hcar2 v Hv t' ids Hset Htf Hlk (lockTickers db (rs_with_written res ws) merging)) as (v' & conflict & slice & Ed & Hd).
  apply (yields_some _ (Ok (v', conflict, slice))); [exact Ed |]. apply yields_ret. split; [exact Hd | by exists ws1].
Qed.

(** * Recording the outcome *)

Lemma fetched_carried ks db db' (fks : list fetchKey) k : carried ks db db' -> (forall fk, fk ∈ fks -> is_Some (db_fetch db !! fk_ID fk)) -> k ∈ map fk_ID fks ->
  is_Some (db_fetch db' !! k).
Proof. intros Hc Hf (fk & -> & Hfk)%list_elem_of_fmap. by apply (ca_fetch _ _ _ Hc), Hf. Qed.

(** The rows of findings the write adds. *)
Record noticed (run : Run) (res : resolution) (fs : list CreateFindingParams) (db db' : instr_db) : Prop := {
  nt_carried : carried [] db db';
  nt_rows : exists n rows, db' = set_next n (set_findings (fun l => l ++ rows) db) /\ map fr_Params rows = fs /\
    Forall (fun f => fr_RunID f = rn_ID run /\ fr_StatedKeyID f = Some (sk_ID (rs_row res))) rows;
}.

Lemma writeFindings_ok run res fks fs db : writable db -> (forall fk, fk ∈ fks -> is_Some (db_fetch db !! fk_ID fk)) ->
  sk_ID (rs_row res) ∈ map (fun k => sk_ID (ks_Key k)) (db_stated db) -> Forall (sound fks) fs ->
  yields (writeFindings run res fs) db (fun kinds db' => kinds = map fp_Kind fs /\ noticed run res fs db db').
Proof.
  intros Hw Hfk Hsk Hfs. unfold writeFindings.
  apply (yields_fold _ (fun seen kinds db' => kinds = map fp_Kind seen /\ noticed run res seen db db') fs []).
  { split; [done |]. split; [by apply carried_refl |]. exists (db_next db), []. split; [| done].
    destruct db. unfold set_next, set_findings. simpl. by rewrite app_nil_r. }
  intros pre f suf kinds db1 Heq [-> [Hc (n & rows & E1 & Hrows & Hruns)]]. simpl in Heq. pose proof (ca_writable _ _ _ Hc) as Hw1.
  destruct (NewID_ok db1 Hw1) as (Hid & Hw2 & Hfr). set (db2 := set_next _ db1) in *.
  apply (yields_bind _ _ _ (fun new d => new = db_next db1 /\ d = db2) _ (yields_run _ _ _ _ _ Hid (conj eq_refl eq_refl))). intros ? ? [-> ->].
  set (row := MkFindingRow (db_next db1) (rn_ID run) (Some (sk_ID (rs_row res))) f).
  assert (sound fks f) as (S1 & S2 & S3 & S4 & S5) by (apply (proj1 (Forall_forall _ _) Hfs); rewrite Heq; apply elem_of_app; right; by left).
  destruct (CreateFinding_ok db2 Hw2 row Hfr) as (Hrun & Hw3 & Hk).
  { unfold finding_ok. cbn [row fr_Params fr_StatedKeyID]. split; [apply elem_of_app; by left |]. split; [done |]. split; [done |].
    split; [| split; [| split; [done |]]].
    - destruct S4 as [S4|?]; [left | by right]. unfold key_kinds, fact_kinds in *. rewrite !elem_of_cons, elem_of_nil in *. intuition congruence.
    - simpl. destruct (fp_FetchKeyID f) as [k|] eqn:Ek; [| done]. simpl. apply (fetched_carried [] db db1 fks k Hc Hfk), S5, eq_refl.
    - simpl. by rewrite (ca_stated _ _ _ Hc). }
  apply (yields_bind _ _ _ _ _ (yields_run _ _ tt _ (fun _ d => d = set_findings (fun l => l ++ [row]) db2) Hrun eq_refl)). intros [] ? ->. apply yields_ret.
  split; [by rewrite map_app |]. split.
  - eapply carried_trans; [exact Hc |]. split; try done. intros a Ha. left. by exists a.
  - exists (db_next db1 + 1)%N, (rows ++ [row]). split; [subst db2; rewrite E1; unfold set_next, set_findings; simpl; by rewrite <- app_assoc |].
    split; [by rewrite map_app, Hrows |]. apply Forall_app. split; [done | by apply Forall_singleton].
Qed.

(** The row of the resolution, and the findings. *)
Record recorded (run : Run) (res : resolution) (fs : list CreateFindingParams) (rk : ResolutionKey) (db db' : instr_db) : Prop := {
  rc_run : rk_RunID rk = rn_ID run;
  rc_key : rk_StatedKeyID rk = sk_ID (rs_row res);
  rc_tables : exists n rows, db' = set_resolutions (fun l => l ++ [rk]) (set_next n (set_findings (fun l => l ++ rows) db)) /\
    map fr_Params rows = fs /\ Forall (fun f => fr_RunID f = rn_ID run /\ fr_StatedKeyID f = Some (sk_ID (rs_row res))) rows;
}.

(** No resolution of the key in the run, which is a user's. *)
Record recordable (run : Run) (user : uuid) (res : resolution) (db : instr_db) : Prop := {
  rb_user : rn_UserID run = Some user;
  rb_key : sk_ID (rs_row res) ∈ map (fun k => sk_ID (ks_Key k)) (db_stated db);
  rb_new r : r ∈ db_resolutions db -> (rk_RunID r, rk_StatedKeyID r) <> (rn_ID run, sk_ID (rs_row res));
}.

Lemma recordable_carried ks run user res ws db db' : carried ks db db' -> recordable run user res db -> recordable run user (rs_with_written res ws) db'.
Proof. intros Hc [H1 H2 H3]. split; [done | simpl; by rewrite (ca_stated _ _ _ Hc) | simpl; by rewrite (ca_resolutions _ _ _ Hc)]. Qed.

Lemma to_int32_id n : 0 <= n < 2 ^ 31 -> to_int32 n = n.
Proof. intros H. unfold to_int32. rewrite Z.mod_small by lia. lia. Qed.

Lemma recordResolution_ok run user res fks fs outcome reasons offered db : writable db -> recordable run user res db ->
  (forall fk, fk ∈ fks -> is_Some (db_fetch db !! fk_ID fk)) -> Forall (sound fks) fs ->
  outcome <> ResolutionOutcomeNone -> (outcome = ResolutionOutcomeMatched -> reasons = [] /\ offered = 0%nat) ->
  (outcome = ResolutionOutcomeRejected -> reasons <> []) -> Z.of_nat offered < 2 ^ 31 ->
  yields (recordResolution run res outcome reasons fs offered) db (fun r db' =>
    r = (MkResolutionKey (rn_ID run) user (sk_ID (rs_row res)) outcome reasons (Z.of_nat offered), map fp_Kind fs) /\
    writable db' /\ recorded run res fs r.1 db db').
Proof.
  intros Hw [Hu Hk Hnew] Hfk Hfs Ho Hm Hrej Hoff. unfold recordResolution.
  apply (yields_bind _ _ _ _ _ (writeFindings_ok run res fks fs db Hw Hfk Hk Hfs)). intros ? db1 [-> [Hc (n & rows & E & Hrows & Hruns)]].
  apply (yields_some _ user); [done |]. rewrite to_int32_id by lia. set (rk := MkResolutionKey _ _ _ _ _ _).
  destruct (CreateResolutionKey_ok db1 (ca_writable _ _ _ Hc) rk) as (Hrun & Hw1 & _).
  { split; [done |]. split; [intros Hmm; destruct (Hm Hmm); by subst |]. split; [done |]. split; [simpl; lia | simpl; by rewrite (ca_stated _ _ _ Hc)]. }
  { intros o. rewrite (ca_resolutions _ _ _ Hc). apply Hnew. }
  apply (yields_bind _ _ _ _ _ (yields_run _ _ rk _ (fun r d => r = rk /\ d = set_resolutions (fun l => l ++ [rk]) db1) Hrun (conj eq_refl eq_refl))).
  intros ? ? [-> ->]. apply yields_ret. split; [done |]. split; [done |]. split; [done | done |]. exists n, rows. by rewrite E.
Qed.

(** ** What each step of the write carries over *)

Lemma wrote_carried user res d db w db' : wrote_instr user res d db w db' -> carried (keys_of (vd_attached (dc_verdict d))) db db'.
Proof.
  intros [Hw _ _ _ _ _ _ _ (rows & Ev & Hrows) _ (R1 & _ & R3 & _) Hr]. split; try done; try (by rewrite Ev).
  - apply (kept_fetch _ _ Hr).
  - symmetry. apply (kept_families _ _ Hr).
  - symmetry. apply (kept_codes _ _ Hr).
  - by rewrite R1.
  - intros a. rewrite Ev. simpl. intros [Ha|Ha]%elem_of_app; [left; by exists a | right].
    destruct (proj1 (Forall_forall _ _) Hrows a Ha) as ([_ Hd] & k & Hk & He). split; [done | by exists k].
Qed.

Lemma stated_carried ks f db : writable (set_stated (map f) db) -> (forall k, sk_ID (ks_Key (f k)) = sk_ID (ks_Key k)) -> carried ks db (set_stated (map f) db).
Proof.
  intros Hw Hid. split; try done; [simpl; rewrite map_map; by apply map_ext | intros a Ha; left; by exists a].
Qed.

Lemma fixed_carried ks i w arbiter via db db' : fixed_through i w arbiter via db db' -> carried ks db db'.
Proof. intros (Hw & _ & _ & _ & ->). apply stated_carried; [done |]. intros k. unfold associated. by destruct (associable _ _ _). Qed.

Lemma dated_carried ks w arbiter r venue db db' : dated_through w arbiter r venue db db' -> carried ks db db'.
Proof. intros (Hw & _ & ->). apply stated_carried; [done |]. intros k. unfold redated. by destruct (associable _ _ _). Qed.

Lemma recorded_validity run res fs rk db db' : recorded run res fs rk db db' -> db_validity db' = db_validity db.
Proof. by intros [_ _ (n & rows & -> & _)]. Qed.

(** ** The write *)

Lemma summary_some res v : (forall fk, fk ∈ rs_fetchKeys res -> fk_Outcome fk = FetchOutcomeServed -> is_Some (fk_SentID fk)) ->
  exists why, summary res v = Some why /\ why <> [].
Proof.
  intros Hs. unfold summary. destruct (rs_fetchKeys res) as [|fk fks] eqn:E; [by eexists |]. rewrite <- E in *.
  assert (is_Some (mapM (summary_part v) (rs_fetchKeys res))) as [why Hwhy].
  { apply mapM_is_Some, Forall_forall. intros x Hx. change (is_Some (summary_part v x)). unfold summary_part.
    case_bool_decide as Ho; simpl; [| exact (mk_is_Some _ _ eq_refl)].
    destruct (Hs x Hx Ho) as [sent ->]. destruct (0 <? default _ (vd_notNaming v !! fk_Source x))%nat; exact (mk_is_Some _ _ eq_refl). }
  exists why. split; [done |]. apply length_mapM in Hwhy. intros ->. by rewrite E in Hwhy.
Qed.

Lemma unresolved_outcome res : unresolved res = ResolutionOutcomeUnavailable \/ unresolved res = ResolutionOutcomeUnrecognised.
Proof. unfold unresolved. destruct (existsb _ _); auto. Qed.

(** How the key ends, by the decision. *)
Definition ends (user : uuid) (res : resolution) (d : decision) (db : instr_db) (rk : ResolutionKey) : Prop :=
  if bool_decide (dc_conflict d = ""%string) then
    match vd_winner (dc_verdict d) with
    | None => rk_Outcome rk = unresolved res
    | Some winner => exists w db', wrote_instr user res d db w db' /\
        let arbiter := if bool_decide (is_Some (cl_fetchKey winner)) then ArbiterDatasource else ArbiterStated in
        match identityVia (w_instr w) (rs_globalAndDescriptionIDs res), rs_dating res with
        | Some via, _ => rk_Outcome rk = ResolutionOutcomeMatched /\ exists db2, fixed_through (w_InstrID w) w arbiter via db' db2
        | None, Some _ => rk_Outcome rk = ResolutionOutcomeMatched /\ exists r venue db2, dated_through w arbiter r venue db' db2
        | None, None => rk_Outcome rk = ResolutionOutcomeUnrecognised
        end
    end
  else rk_Outcome rk = ResolutionOutcomeUnrecognised /\ rk_Reasons rk = [dc_conflict d].

(** The columns of a resolution that may be written. *)
Record writable_key (run : Run) (user : uuid) (res : resolution) (db : instr_db) : Prop := {
  wk_ready : ready res db;
  wk_recordable : recordable run user res db;
  wk_findings : Forall (sound (rs_fetchKeys res)) (rs_findings res);
  wk_sent fk : fk ∈ rs_fetchKeys res -> fk_Outcome fk = FetchOutcomeServed -> is_Some (fk_SentID fk);
  wk_dating : rs_dating res <> None -> exists v t, rs_via res = Some v /\ spelled_ticker (rs_mics res) v = Some t /\ tickers_known res db [v];
}.

Lemma recording_ok run user res ws fs outcome reasons offered ks db0 db (res' : resolution) : writable_key run user res db0 -> carried ks db0 db ->
  validity_db_ok (db_validity db0) -> Forall (sound (rs_fetchKeys res)) fs ->
  outcome <> ResolutionOutcomeNone -> (outcome = ResolutionOutcomeMatched -> reasons = [] /\ offered = 0%nat) -> outcome <> ResolutionOutcomeRejected ->
  Z.of_nat offered < 2 ^ 31 ->
  yields (r ← recordResolution run (rs_with_written res ws) outcome reasons fs offered; mret (r, res')) db (fun r db' =>
    r.2 = res' /\ r.1 = (MkResolutionKey (rn_ID run) user (sk_ID (rs_row res)) outcome reasons (Z.of_nat offered), map fp_Kind fs) /\
    writable db' /\ validity_db_ok (db_validity db') /\ recorded run res fs r.1.1 db db').
Proof.
  intros Hk Hc Hv Hfs H1 H2 H3 H4. eapply yields_bind.
  { apply (recordResolution_ok run user (rs_with_written res ws) (rs_fetchKeys res) fs outcome reasons offered db).
    - exact (ca_writable _ _ _ Hc).
    - eapply recordable_carried; [exact Hc | apply Hk].
    - intros fk Hfk. apply (ca_fetch _ _ _ Hc), (rd_fetch _ _ (wk_ready _ _ _ _ Hk) fk Hfk).
    - exact Hfs.
    - exact H1.
    - exact H2.
    - intros ?. contradiction.
    - exact H4. }
  intros r db' (-> & Hw & Hr). apply yields_ret. simpl in *. split; [done |]. split; [done |]. split; [done |].
  rewrite (recorded_validity _ _ _ _ _ _ Hr). split; [by apply (carried_validity _ _ _ Hc) |]. destruct Hr as [R1 R2 R3]. by split.
Qed.

Lemma associateKey_ok user res ws d db0 db w db1 winner :
  (rs_dating res <> None -> exists v t, rs_via res = Some v /\ spelled_ticker (rs_mics res) v = Some t /\ tickers_known res db0 [v]) ->
  carried (unknown_keys res) db0 db -> wrote_instr user (rs_with_written res ws) d db w db1 -> vd_winner (dc_verdict d) = Some winner ->
  yields (associateKey w (dc_verdict d) None) db1 (fun ok db2 => (exists ks, carried ks db1 db2) /\
    let arbiter := if bool_decide (is_Some (cl_fetchKey winner)) then ArbiterDatasource else ArbiterStated in
    match identityVia (w_instr w) (rs_globalAndDescriptionIDs res), rs_dating res with
    | Some via, _ => ok = true /\ fixed_through (w_InstrID w) w arbiter via db1 db2
    | None, Some _ => ok = true /\ exists r venue, dated_through w arbiter r venue db1 db2
    | None, None => ok = false
    end).
Proof.
  intros Hdate Hc Hwi Hwin. unfold associateKey. apply (yields_some _ winner); [done |]. cbv zeta. set (arbiter := if bool_decide _ then _ else _).
  pose proof (wrote_carried _ _ _ _ _ _ Hwi) as Hc1. destruct (wi_writer _ _ _ _ _ _ Hwi) as (_ & _ & ws' & Eres).
  pose proof (associate_ok (w_InstrID w) w db1 (wi_writable _ _ _ _ _ _ Hwi) (wi_held _ _ _ _ _ _ Hwi) arbiter None) as Ha. rewrite !Eres in Ha. simpl in Ha.
  assert (None = @None userChoice -> arbiter <> ArbiterUser) as Harb by (intros _; subst arbiter; by case_bool_decide).
  assert (rs_dating res <> None -> exists v t, rs_via res = Some v /\ spelled_ticker (rs_mics res) v = Some t /\
    tickers_known (rs_with_written (rs_with_written res ws) ws') db1 [v]) as Hdate1.
  { intros Hd. destruct (Hdate Hd) as (v & t & ? & ? & Hk). exists v, t. split; [done |]. split; [done |].
    apply (carried_tickers _ (rs_with_written res ws) db db1 [v] ws' Hc1). by apply (carried_tickers _ res db0 db [v] ws Hc). }
  specialize (Ha Hdate1 Harb). destruct (identityVia _ _) as [via|].
  - destruct Ha as (db2 & Hrun & Hf). apply (yields_run _ _ _ _ _ Hrun). split; [exists []; by eapply fixed_carried | done].
  - destruct (rs_dating res) as [dt|].
    + destruct Ha as (v & r & venue & db2 & _ & _ & _ & _ & Hrun & Hf). apply (yields_run _ _ _ _ _ Hrun). split; [exists []; by eapply dated_carried | eauto].
    + apply (yields_run _ _ _ _ _ Ha). split; [exists []; apply carried_refl, Hwi | done].
Qed.

Lemma carried_some ks1 ks2 db1 db2 db3 : carried ks1 db1 db2 -> carried ks2 db2 db3 -> carried (ks1 ++ ks2) db1 db3.
Proof. intros H1 H2. eapply carried_trans; eapply carried_mono; [| exact H1 | | exact H2]; intros k Hk; apply elem_of_app; auto. Qed.

(** The key has its resolution, of which [Q] holds, and the constraints hold. *)
Definition keyed (run : Run) (res : resolution) (Q : ResolutionKey -> Prop) (rk : ResolutionKey) (db' : instr_db) : Prop :=
  rk_RunID rk = rn_ID run /\ rk_StatedKeyID rk = sk_ID (rs_row res) /\ rk ∈ db_resolutions db' /\
  writable db' /\ validity_db_ok (db_validity db') /\ Q rk.

Lemma recorded_keyed run user res ws outcome reasons fs offered ks db0 db (res' : resolution) (Q : ResolutionKey -> Prop) : writable_key run user res db0 ->
  validity_db_ok (db_validity db0) -> carried ks db0 db -> Forall (sound (rs_fetchKeys res)) fs ->
  outcome <> ResolutionOutcomeNone -> (outcome = ResolutionOutcomeMatched -> reasons = [] /\ offered = 0%nat) -> outcome <> ResolutionOutcomeRejected ->
  Z.of_nat offered < 2 ^ 31 -> Q (MkResolutionKey (rn_ID run) user (sk_ID (rs_row res)) outcome reasons (Z.of_nat offered)) ->
  yields (r ← recordResolution run (rs_with_written res ws) outcome reasons fs offered; mret (r, res')) db (fun r => keyed run res Q r.1.1).
Proof.
  intros Hk Hv Hc Hfs H1 H2 H3 H4 HQ.
  eapply yields_impl; [apply (recording_ok run user res ws fs outcome reasons offered ks db0 db res' Hk Hc Hv Hfs H1 H2 H3 H4) |].
  intros [[rk kinds] res2] db' (_ & [= -> ->] & Hw & Hvv & [_ _ (n & rows & -> & _)]).
  split; [done |]. split; [done |]. split; [apply elem_of_app; right; by left |]. split; [exact Hw |]. split; [exact Hvv | exact HQ].
Qed.

(** The write of a decision whose claims are timely. *)
Lemma writeDecision_ok run user res ws d slice db0 db v : writable_key run user res db0 -> validity_db_ok (db_validity db0) ->
  decided res v db0 db d slice -> (forall c, c ∈ vd_attached (dc_verdict d) -> timely v c) -> Z.of_nat (length (vd_offered (dc_verdict d))) < 2 ^ 31 ->
  yields (writeDecision run (rs_with_written res ws) d None) db (fun r => keyed run res (ends user (rs_with_written res ws) d db) r.1.1).
Proof.
  intros Hk Hv [Dc Dt _ _ Dfind _ Dwr] Htm Hoff. unfold writeDecision.
  destruct (bool_decide (dc_conflict d = ""%string)) eqn:Eb; cbn [negb].
  2:{ apply (recorded_keyed run user res ws _ _ _ _ _ db0 db _ _ Hk Hv Dc); try done; [by apply Forall_forall |]. unfold ends. by rewrite Eb. }
  pose proof (proj1 (bool_decide_eq_true _) Eb) as Ec. specialize (Dfind Ec (wk_findings _ _ _ _ Hk)). destruct (vd_winner (dc_verdict d)) as [winner|] eqn:Ewin.
  2:{ destruct (summary_some (rs_with_written res ws) (dc_verdict d) (wk_sent _ _ _ _ Hk)) as (why & Hwhy & _). apply (yields_some _ why); [done |].
    pose proof (unresolved_outcome (rs_with_written res ws)) as Hun.
    apply (recorded_keyed run user res ws _ _ _ _ _ db0 db _ _ Hk Hv Dc); try done; [| | | unfold ends; by rewrite Eb, Ewin]; by destruct Hun as [->| ->]. }
  apply (yields_some _ user); [apply Hk |]. eapply yields_bind.
  { apply (writeInstr_ok user (rs_with_written res ws) d db); [apply Dc | apply Dwr; [done | congruence | done]]. }
  intros w db1 Hwi. eapply yields_bind; [eapply (associateKey_ok user res ws d db0 db w db1 winner); [apply Hk | done | done | done] |].
  intros ok db2 [(ks & Hc2) Has]. pose proof (carried_some _ _ _ _ _ Dc (carried_some _ _ _ _ _ (wrote_carried _ _ _ _ _ _ Hwi) Hc2)) as Hc3.
  destruct (wi_writer _ _ _ _ _ _ Hwi) as (_ & _ & ws' & Eres). rewrite Eres. change (rs_with_written (rs_with_written res ws) ws') with (rs_with_written res ws').
  cbv zeta in Has.
  assert (forall rk, match identityVia (w_instr w) (rs_globalAndDescriptionIDs res), rs_dating res with
    | None, None => rk_Outcome rk = ResolutionOutcomeUnrecognised | _, _ => rk_Outcome rk = ResolutionOutcomeMatched end ->
    ends user (rs_with_written res ws) d db rk) as Hends.
  { intros rk Hrk. unfold ends. rewrite Eb, Ewin. exists w, db1. split; [done |]. cbv zeta.
    change (rs_globalAndDescriptionIDs (rs_with_written res ws)) with (rs_globalAndDescriptionIDs res).
    change (rs_dating (rs_with_written res ws)) with (rs_dating res).
    destruct (identityVia _ _) as [via|]; [split; [done | exists db2; apply Has] |]. destruct (rs_dating res); [| done].
    split; [done |]. destruct Has as (_ & r & venue & Hf). by exists r, venue, db2. }
  assert (ok = match identityVia (w_instr w) (rs_globalAndDescriptionIDs res), rs_dating res with None, None => false | _, _ => true end) as Hok.
  { destruct (identityVia _ _); [apply Has |]. destruct (rs_dating res); apply Has. }
  destruct ok; cbn [negb]; apply (recorded_keyed run user res ws' _ _ _ _ _ db0 db2 _ _ Hk Hv Hc3); try done; apply Hends;
    destruct (identityVia _ _); try done; by destruct (rs_dating res).
Qed.

Lemma writable_undeferred db : writable db -> writable (set_deferred false db).
Proof. intros [Hok Hl Hm]. split; [destruct Hok; by split | done | done]. Qed.

Lemma writable_key_undeferred run user res db : writable_key run user res db -> writable_key run user res (set_deferred false db).
Proof. intros [[] [] ? ? ?]. by split. Qed.

Section Resolve.
Context (stamp : time -> string) (uuid_string : uuid -> string).

Lemma resolveKey_ok run user res c db : writable db -> validity_db_ok (db_validity db) -> writable_key run user res db -> rs_outcome res = ResolutionOutcomeNone ->
  exists v, first_verdict res [] = Some v /\ (c = None \/ c = Some (map Some (vd_attached v)) ->
    exists d res1 slice db1, decide_write stamp uuid_string (rs_with_written res []) None c db = Ok (d, res1, slice, db1) /\
      decided res v db db1 d slice /\
      ((forall a, a ∈ vd_attached (dc_verdict d) -> timely v a) -> Z.of_nat (length (vd_offered (dc_verdict d))) < 2 ^ 31 ->
       yields (resolveKey stamp uuid_string run res None c) db (fun r => keyed run res (ends user res1 d db1) r.1.1.1))).
Proof.
  intros Hw Hv Hk Ho. destruct (decide_ok stamp uuid_string res [] c db Hw (wk_ready _ _ _ _ Hk)) as (v & Hfv & _ & Hd). exists v. split; [done |]. intros Hc.
  destruct (Hd Hc) as ([[d res1] slice] & db1 & Hrun & Hdec & ws & Hres). simpl in Hdec, Hres. subst res1.
  exists d, (rs_with_written res ws), slice, db1. split; [done |]. split; [done |]. intros Htm Hoff.
  unfold resolveKey. simpl rs_outcome. rewrite bool_decide_eq_true_2 by done. cbn [negb].
  apply (yields_bind _ _ _ (fun r d' => r = (d, rs_with_written res ws, slice) /\ d' = db1) _ (yields_run _ _ _ _ _ Hrun (conj eq_refl eq_refl))). intros ? ? [-> ->].
  apply (yields_bind _ _ _ _ _ (writeDecision_ok run user res ws d slice db db1 v Hk Hv Hdec Htm Hoff)).
  intros [[rk kinds] res2] db2 (K1 & K2 & K3 & K4 & K5 & K6). simpl in *.
  apply (yields_bind _ _ _ _ _ (tx_Rebuild_ok db2 (dc_locked d) K4 K5)). intros [] db3 (Hw3 & _ & Hv3 & _ & (rows & names & ->)). apply yields_ret.
  by split.
Qed.

End Resolve.

(** C11: a key the database did not settle is written whatever the responses
    state: the choice answers, and its decision finds a target, or merges the
    instruments into one, and succeeds. Where each claim it attaches that shares
    a stable identifier with the first winner was in the first verdict, so that
    its identifiers were looked up, the whole transaction then succeeds, its
    commit included: it keeps every constraint, and leaves the key one
    resolution in the run, matched exactly where the key is associated with an
    instrument that carries the claims' identifiers. *)
Theorem resolveKey_spec stamp uuid_string run user res db :
  writable db -> validity_db_ok (db_validity db) -> writable_key run user res db -> rs_outcome res = ResolutionOutcomeNone ->
  exists v d res1 slice db1, first_verdict res [] = Some v /\
    decide_write stamp uuid_string (rs_with_written res []) None None (set_deferred false db) = Ok (d, res1, slice, db1) /\
    ((forall c, c ∈ vd_attached (dc_verdict d) -> timely v c) -> Z.of_nat (length (vd_offered (dc_verdict d))) < 2 ^ 31 ->
     exists rk kinds res' cache db', once (resolveKey stamp uuid_string run res None None) db = Ok (rk, kinds, res', cache, db') /\
       keyed run res (ends user res1 d db1) rk db').
Proof.
  intros Hw Hv Hk Ho.
  destruct (resolveKey_ok stamp uuid_string run user res None (set_deferred false db)) as (v & Hfv & Hrest); try done;
    [by apply writable_undeferred | by apply writable_key_undeferred |].
  destruct (Hrest (or_introl eq_refl)) as (d & res1 & slice & db1 & Hrun & _ & Hall). exists v, d, res1, slice, db1. split; [done |]. split; [done |]. intros Htm Hoff.
  destruct (Hall Htm Hoff) as ([[[rk kinds] res'] cache] & db' & Hr & K1 & K2 & K3 & K4 & K5 & K6). simpl in *.
  exists rk, kinds, res', cache, (set_deferred false db'). split; [apply once_ok; [done | apply K4] |]. split; [done |]. split; [done |]. split; [done |].
  split; [by apply writable_undeferred |]. by split.
Qed.

(** C12: a decision can be written ([writes]) where no identifier its claims
    write is held by an instrument that it neither targets nor leaves apart, its
    target is as the tables hold it, its claims are of recorded fetch keys, none
    of which has assertions yet, and the tickers, codes and families of the claims
    are known. An identifier a claim writes ([written_ids]) is neither a ticker
    nor of a listing in no known currency. Writing such a decision onto its
    target, or onto a new instrument where it has none, succeeds and leaves one
    instrument that carries every identifier its attached claims write, but for
    those left on the instruments kept apart. Every ticker of those claims is
    asserted of the instrument under the fetch key that answered it, at the venue
    it was answered at; every datasource attached, or that served no listing,
    covers it; the rows of the other instruments, the stated keys and the findings
    stand. The first condition is not always met: a claim that joins late, whose
    identifiers were not looked up, may hold another instrument's, and its write
    fails ([Example.late_claim_unique]). *)
Theorem writeInstr_spec user res d db : writable db -> writes db res d ->
  exists w db', writeInstr user res d db = Ok (w, db') /\ wrote_instr user res d db w db'.
Proof. apply writeInstr_ok. Qed.

(** Associating a key with the instrument written answers in one of four
    ways. Where the instrument carries an identifier the key states, the key is
    fixed through the first of them, the strongest, on the instrument's listing
    in the key's family, and a later lookup of the key's identifiers finds the
    instrument again. Failing that, a user's choice fixes the key through the
    identifier chosen, and is refused with the tables as they were where another
    instrument carries it; a key that may be dated is dated through its venue
    ticker; and any other key is left as it was. An association the user
    arbitrated stands in each case. *)
Theorem associate_spec i w db arbiter choice : writable db -> held i w db ->
  (rs_dating (w_res w) <> None -> exists v t, rs_via (w_res w) = Some v /\ spelled_ticker (rs_mics (w_res w)) v = Some t /\ tickers_known (w_res w) db [v]) ->
  (choice = None -> arbiter <> ArbiterUser) ->
  let ids := rs_globalAndDescriptionIDs (w_res w) in
  (forall r, associate w arbiter choice db = Ok r -> forall k, k ∈ db_stated db -> ks_Arbiter k = Some ArbiterUser -> k ∈ db_stated r.2) /\
  match identityVia (w_instr w) ids, choice, rs_dating (w_res w) with
  | Some via, _, _ => exists db' pre suf m, associate w arbiter choice db = Ok (true, db') /\ fixed_through i w arbiter via db db' /\
      ids = pre ++ to_Identifier via :: suf /\ (forall id r, id ∈ pre -> r ∈ db_identifiers db -> to_Identifier r = id -> ir_InstrID r <> i) /\
      m ∈ findInstrsByIdentifier db' (lookupIDs ids) /\ im_ID m = i
  | None, Some ch, _ =>
      match join_Identifier (w_instr w) (uc_via ch) with
      | Some via => exists db', associate w arbiter choice db = Ok (true, db') /\ fixed_through i w arbiter via db db' /\ to_Identifier via = uc_via ch
      | None => exists detail, associate w arbiter choice db = Err (InstrStore.ErrNoCandidate detail)
      end
  | None, None, Some _ => exists v r venue db', rs_via (w_res w) = Some v /\ spelled_ticker (rs_mics (w_res w)) v = Some (ticker_of r) /\
      Operating (rs_mics (w_res w)) (id_Domain v) = Some venue /\ associate w arbiter choice db = Ok (true, db') /\ dated_through w arbiter r venue db db'
  | None, None, None => associate w arbiter choice db = Ok (false, db)
  end.
Proof.
  intros Hw Hh Hdate Harb ids. pose proof (associate_ok i w db Hw Hh arbiter choice Hdate Harb) as Hok. fold ids in Hok.
  assert (forall user ku, ks_Arbiter ku = Some ArbiterUser -> associable (sk_ID (rs_row (w_res w))) user ku = false) as Huser.
  { intros user ku Hku. unfold associable. by rewrite Hku, (bool_decide_eq_true_2 (Some ArbiterUser = Some ArbiterUser)), andb_false_r. }
  assert (forall via db', fixed_through i w arbiter via db db' -> forall k, k ∈ db_stated db -> ks_Arbiter k = Some ArbiterUser -> k ∈ db_stated db') as Hfix.
  { intros via db' (_ & _ & _ & _ & ->) k Hk Hka. simpl. apply list_elem_of_fmap. exists k. split; [| done]. unfold associated. by rewrite Huser. }
  destruct (identityVia (w_instr w) ids) as [via|] eqn:Ev.
  { destruct Hok as (db' & Hrun & Hf). split; [rewrite Hrun; intros r [= <-]; by apply (Hfix via) |].
    apply identityVia_Some in Ev as (pre & suf & Eids & Hv & Hpre). pose proof Hf as (Hw' & Hk & Hvd & Hvi & Edb).
    destruct (matches_spec db' (lookupIDs ids) (wb_ok _ Hw')) as (_ & _ & Hall & _). destruct (Hall via) as (m & Hm & Hmi).
    - by rewrite Edb.
    - apply elem_of_lfilter. split; [rewrite Eids; apply elem_of_app; right; by left |]. apply negb_true_iff.
      destruct (proj1 (Forall_forall _ _) (ok_identifier _ (wb_ok _ Hw)) via Hvd) as (_ & _ & _ & H1 & H2 & _).
      unfold Ticker. by rewrite !bool_decide_eq_false_2.
    - exists db', pre, suf, m. split; [done |]. split; [done |]. split; [done |]. split; [| split; [done | congruence]].
      intros id r Hid Hr He Hri. specialize (Hpre id Hid). unfold join_Identifier in Hpre. rewrite find_func_None in Hpre.
      pose proof (Hpre r (proj2 (hd_identifiers _ _ _ Hh r) (conj Hr Hri))) as Hf'. simpl in Hf'. by rewrite bool_decide_eq_true_2 in Hf'. }
  destruct choice as [ch|].
  { destruct (join_Identifier (w_instr w) (uc_via ch)) as [via|] eqn:Ej.
    - destruct Hok as (db' & Hrun & Hf). split; [rewrite Hrun; intros r [= <-]; by apply (Hfix via) |]. exists db'. split; [done |]. split; [done |].
      by apply find_func_Some in Ej as [_ He%bool_decide_eq_true].
    - destruct Hok as (detail & Hrun). split; [by rewrite Hrun | by exists detail]. }
  destruct (rs_dating (w_res w)) as [dt|].
  - destruct Hok as (v & r & venue & db' & Hv & Ht & _ & Hven & Hrun & Hd). split; [| by exists v, r, venue, db'].
    rewrite Hrun. intros x [= <-] k Hk Hka. destruct Hd as (_ & _ & ->). simpl. apply list_elem_of_fmap. exists k. split; [| done]. unfold redated. by rewrite Huser.
  - split; [| done]. rewrite Hok. by intros r [= <-] k Hk _.
Qed.

(** * Attempts *)

Lemma opt_fold_none {A S} (f : S -> A -> option S) (a : A) l s : a ∈ l -> (forall s, f s a = None) -> opt_fold f s l = None.
Proof.
  intros Ha Hf. revert s. induction Ha; intros s'; simpl; [by rewrite Hf |]. destruct (f s' _); auto.
Qed.

Section Retry.
Context (stamp : time -> string) (uuid_string : uuid -> string).

(** A nil claim in the slice of the first verdict is dereferenced before the
    write reads a row. *)
Lemma nil_claim_fails run res slice db v : rs_outcome res = ResolutionOutcomeNone -> first_verdict res [] = Some v -> vd_refused v = ""%string ->
  None ∈ slice -> once (resolveKey stamp uuid_string run res None (Some slice)) db = Err (ErrOther "nil").
Proof.
  intros Ho Hv Hr Hn. unfold once, resolveKey. simpl. rewrite Ho. simpl. unfold decide_write, first, uc_members. simpl. rewrite first_written, Hv.
  unfold mbind, mret, tx_bind, tx_ret, tx_some, tx_get. simpl. rewrite Hr. simpl. unfold findWriteTarget.
  by rewrite (opt_fold_none _ None).
Qed.

Lemma deleted_slice_nil slice kept : (length kept < length slice)%nat -> None ∈ deleted_slice slice kept.
Proof.
  intros Hl. unfold deleted_slice. destruct (length slice - length kept)%nat eqn:E; [lia |]. simpl. apply elem_of_app. right. by left.
Qed.

Lemma dropHeld_sublist db same attached chooser target kept fs : dropHeld db same attached chooser target = Some (kept, fs) -> kept `sublist_of` attached.
Proof.
  unfold dropHeld. destruct (joined_claims same chooser attached) as [|j js]; [by intros [= <- _] |]. cbv zeta.
  apply (opt_fold_preserve (fun st => st.1 `sublist_of` attached)); [done |]. intros [k f] c st' _ Hst. unfold held_step.
  destruct (heldBy c _) as [id|]; [| by intros [= <-]]. destruct (cl_fetchKey c) as [fk|]; [| done]. cbn [mbind option_bind]. intros [= <-]. simpl in *.
  etransitivity; [apply sublist_lfilter | done].
Qed.

(** The slice an attempt leaves: without a target it is the one [dropHeld]
    deletes from. *)
Lemma decide_slice res db d res' slice db' v : first_verdict res [] = Some v -> decide_write stamp uuid_string res None None db = Ok (d, res', slice, db') ->
  match wt_instr (dc_target d) with
  | None => vd_attached (dc_verdict d) `sublist_of` vd_attached v /\ slice = deleted_slice (map Some (vd_attached v)) (vd_attached (dc_verdict d))
  | Some _ => slice = map Some (vd_attached v)
  end.
Proof.
  intros Hv. unfold decide_write, first, uc_members. rewrite Hv. unfold mbind, mret, tx_bind, tx_ret, tx_get, tx_some. simpl.
  destruct (negb _); [done |]. destruct (findWriteTarget _ _ _ _ _) as [[t merging]|]; [| done].
  destruct (recordUnknown _ _) as [[res1 db1]|e]; [| done]. destruct (decide_merge _ _ _ _ _ _) as [[t1 db2]|e]; [| done].
  destruct (decide_verdict _ _ _ _ _ _) as [[[[v' conflict] slice']|e]|] eqn:Ed; [| done | done]. intros [= <- <- <- <-]. simpl. revert Ed.
  unfold decide_verdict. rewrite mapM_id_Some. cbn [mbind option_bind]. rewrite vd_with_attached_same. destruct (wt_instr t1) as [i|].
  - destruct (classConflict _ _); [by intros [= _ _ <-] |]. destruct (choose _ _ _) as [v2|]; [| done]. cbn [mbind option_bind].
    destruct (negb _); [done |]. destruct (dropHeld _ _ _ _ _) as [[kept fs]|]; [| done]. by intros [= _ _ <-].
  - destruct (dropHeld _ _ _ _ _) as [[kept fs]|] eqn:Eh; [| done]. cbn [mbind option_bind]. intros [= <- _ <-]. split; [| done].
    by eapply dropHeld_sublist.
Qed.

(** A cache that holds the claims of the first verdict is none. *)
Lemma fresh_cache run res db v interrupted : rs_outcome res = ResolutionOutcomeNone -> first_verdict res [] = Some v ->
  attempt_write stamp uuid_string run res None (Some (map Some (vd_attached v))) db interrupted = attempt_write stamp uuid_string run res None None db interrupted.
Proof.
  intros Ho Hv. unfold attempt_write, once, resolveKey. cbv zeta. rewrite !bool_decide_eq_true_2 by done. cbn [negb].
  assert (decide_write stamp uuid_string (rs_with_written res []) None (Some (map Some (vd_attached v))) = decide_write stamp uuid_string (rs_with_written res []) None None) as E;
    [| by rewrite E].
  unfold decide_write, first, uc_members. by rewrite first_written, Hv.
Qed.

Lemma sublist_same_length {A} (k l : list A) : k `sublist_of` l -> length k = length l -> l = k.
Proof.
  induction 1 as [|x k l Hs IH|x k l Hs IH]; simpl; intros Hl; [done | f_equal; apply IH; lia |]. apply sublist_length in Hs. lia.
Qed.

Lemma deleted_slice_all slice kept : length kept = length slice -> deleted_slice slice kept = map Some kept.
Proof. intros Hl. unfold deleted_slice. rewrite Hl, Nat.sub_diag. apply app_nil_r. Qed.

End Retry.

(** C13: what the attempt after one that a concurrent transaction interrupts does
    rests on the claims of the cached verdict. Where the interrupted attempt had
    a target, or dropped no claim, it is as the first attempt would be over the
    tables it finds. Where it dropped a claim that another instrument held and
    had no target, it is not made: a nil claim is among those of the cached
    verdict, and the write fails before it reads a row, whatever the tables
    hold. *)
Theorem retry_spec stamp uuid_string run res dbs interrupted d res' slice db' v e :
  rs_outcome res = ResolutionOutcomeNone -> first_verdict res [] = Some v -> vd_refused v = ""%string ->
  decide_write stamp uuid_string (rs_with_written res []) None None (set_deferred false (dbs 1)) = Ok (d, res', slice, db') ->
  attempt_write stamp uuid_string run res None None (dbs 1) (interrupted 1) = Err e -> IsRetryable e = true ->
  (wt_instr (dc_target d) <> None \/ length (vd_attached (dc_verdict d)) = length (vd_attached v) ->
     forall db i, attempt_write stamp uuid_string run res None (cache_after stamp uuid_string res None None (dbs 1)) db i =
       attempt_write stamp uuid_string run res None None db i) /\
  (wt_instr (dc_target d) = None -> length (vd_attached (dc_verdict d)) <> length (vd_attached v) ->
     write_loop stamp uuid_string (Z.to_nat tries) run res None dbs interrupted None 1 = Some (Err (ErrOther "nil"), 2)).
Proof.
  intros Ho Hv Hr Hd Hat He. pose proof (decide_slice stamp uuid_string _ _ _ _ _ _ v (eq_trans (first_written _ _ _) Hv) Hd) as Hs.
  unfold cache_after. rewrite Hd. split.
  - intros Hfresh db i. replace slice with (map Some (vd_attached v)); [by apply fresh_cache |]. destruct (wt_instr (dc_target d)); [done |].
    destruct Hfresh as [?|Hl]; [done |]. destruct Hs as [Hsub ->]. rewrite deleted_slice_all by by rewrite length_map. f_equal.
    by apply sublist_same_length.
  - intros Ht Hl. rewrite Ht in Hs. destruct Hs as [Hsub Hs]. pose proof (sublist_length _ _ Hsub) as Hle.
    assert (None ∈ slice) as Hn by (rewrite Hs; apply deleted_slice_nil; rewrite length_map; lia).
    change (Z.to_nat tries) with 3%nat. unfold write_loop. rewrite Hat, He. change (tries <=? 1) with false. cbn [negb orb].
    unfold cache_after. rewrite Hd. unfold attempt_write at 1. rewrite (nil_claim_fails _ _ _ _ _ _ v Ho Hv Hr Hn).
    by destruct (interrupted (1 + 1)).
Qed.
Module Example.

Definition isin : Identifier := ex_isin "US1".
Definition abc : Identifier := ex_ticker "XNAS" "ABC".
Definition cusip (v : string) : Identifier := MkIdentifier IdentifierTypeCusip "" v.
Definition figi : Identifier := MkIdentifier IdentifierTypeOpenfigiShareClass "" "F9".

Definition key (id : Identifier) : StatedKey := MkStatedKey 7 1 None (Some "USD") [id] None None None None.

Definition fk (sent : Identifier) (source : string) (id : uuid) (ids : list Identifier) (venue : string) : fetchKey :=
  MkFetchKey (key sent) 3 source id FetchOutcomeServed (Some sent) "" (MkIdentityResult [sent] [MkMarketListing ids AssetClassStock "USD" venue] false false)
    (100 * day_len) 1 false.

Definition fetched (id : Identifier) (fks : list fetchKey) : resolution :=
  let r := prepared ex_families ex_mics (key id) in
  MkResolution (rs_row r) (rs_globalAndDescriptionIDs r) (rs_family r) (rs_families r) None (rs_mics r) fks [] ResolutionOutcomeNone ""
    None None [] false ∅ [].

Definition db (id : Identifier) (ids : list IdentifierRow) (instrs : list InstrRow): instr_db := {|
  db_instrs := instrs;
  db_listings := [];
  db_identifiers := ids;
  db_stated := [MkStatedKeyRow (key id) None None None None];
  db_fetch := {[50%N := (Some 1%N, None); 51%N := (Some 1%N, None); 52%N := (Some 1%N, None); 53%N := (Some 1%N, None)]};
  db_coverage := [];
  db_validity := MkValidityDB [MkTickerRow 41 "US" "ABC"] [] [] ∅ ∅ ∅ [] [];
  db_findings := [];
  db_resolutions := [];
  db_families := ["USD"; "GBP"];
  db_codes := ["USD"; "GBP"; "GBX"];
  db_next := 100;
  db_now := 9;
  db_deferred := false;
|}.

Definition run : Run := MkRun 3 (Some 1%N).
Definition stamp (_ : time) : string := "then".
Definition text (_ : uuid) : string := "id".
Definition stock (id : uuid) : InstrRow := MkInstrRow id AssetClassStock 5 (Some 50%N).
Definition row (id instr : uuid) (i : Identifier) : IdentifierRow := MkIdentifierRow id instr None (id_Type i) (id_Domain i) (id_Value i) (Some 50%N).

(** ** One key, two answers, and an instrument of one of its identifiers *)

Definition res : resolution := fetched isin [fk isin "A" 51 [isin; abc] "XNAS"; fk isin "B" 52 [isin; cusip "K1"] ""].
Definition tables : instr_db := db isin [row 21 1 (cusip "K1")] [stock 1].

(** ** A claim that joins through a ticker alone *)
Definition res_ticker : resolution := fetched abc [fk abc "A" 51 [isin; abc] "XNAS"; fk abc "B" 52 [figi; abc] "XNAS"].
Definition tables_ticker : instr_db := db abc [row 21 2 figi] [stock 2].

Definition res_late : resolution :=
  fetched isin [fk isin "A" 51 [isin; abc] "XNAS"; fk isin "B" 52 [isin; cusip "K2"] ""; fk isin "C" 53 [isin; cusip "K1"; figi] ""].
Definition tables_late : instr_db := db isin [row 21 1 isin; row 22 1 (cusip "K1"); row 23 2 figi] [stock 1; stock 2].

(** A claim that shares the instrument's identifiers, but none of the winner's,
    joins the verdict with the instrument alone, and names a second one: its
    identifiers are not looked up, and the write inserts one that exists. *)
Lemma late_claim_unique : attempt_write stamp text run res_late None None tables_late None = Err ErrUnique /\
  consistent tables_late /\ linked tables_late.
Proof. split; [vm_compute; reflexivity |]. split; refine (bool_decide_unpack _ _); vm_compute; exact I. Qed.

(** Whether the tables hold the ticker of each identifier the code spells. *)
Definition spelled_known (res : resolution) (d : instr_db) (ids : list Identifier) : bool :=
  forallb (fun id => match spelled_ticker (rs_mics res) id with Some t => contains (map ticker_of (vd_tickers (db_validity d))) t | None => true end) ids.

Definition families_known (f : Families) (d : instr_db) : bool :=
  forallb (fun x => contains (db_codes d) x.1 && contains (db_families d) x.2) (map_to_list f).

Definition listed_ok (fk : fetchKey) : bool :=
  bool_decide (ir_Listings (fk_Response fk) = []) || bool_decide (fk_Outcome fk = FetchOutcomeServed) && negb (ir_Unknown (fk_Response fk)).

Lemma ready_by res d : NoDup (map fk_ID (rs_fetchKeys res)) -> Forall (fun fk => is_Some (db_fetch d !! fk_ID fk)) (rs_fetchKeys res) ->
  vd_assertions (db_validity d) = [] -> forallb listed_ok (rs_fetchKeys res) = true -> NoDup (map ticker_of (vd_tickers (db_validity d))) ->
  rs_tickers res = ∅ -> spelled_known res d (identifiersToLock res ++ sent_ids res) = true -> families_known (rs_families res) d = true -> ready res d.
Proof.
  intros H1 H2 H3 H4 H5 H6 H7 H8.
  assert (forall c f, rs_families res !! c = Some f -> c ∈ db_codes d /\ f ∈ db_families d) as Hfam.
  { intros c f Hc%elem_of_map_to_list. unfold families_known in H8. rewrite forallb_forall in H8. specialize (H8 _ (proj1 (list_elem_of_In _ _) Hc)).
    apply andb_true_iff in H8 as [?%contains_true ?%contains_true]. done. }
  split; try done.
  - by apply Forall_forall.
  - intros fk a _. rewrite H3. by intros ?%elem_of_nil.
  - intros fk Hfk Hne. rewrite forallb_forall in H4. specialize (H4 fk (proj1 (list_elem_of_In _ _) Hfk)). unfold listed_ok in H4.
    rewrite bool_decide_eq_false_2 in H4 by done. simpl in H4. apply andb_true_iff in H4 as [?%bool_decide_eq_true ?%negb_true_iff]. done.
  - split; [done |]. split; [by rewrite H6 |]. intros id t Hid Ht. unfold spelled_known in H7. rewrite forallb_forall in H7.
    specialize (H7 id (proj1 (list_elem_of_In _ _) Hid)). rewrite Ht in H7. by apply contains_true.
  - intros c [f Hc]%bool_decide_eq_true. by apply (Hfam c f).
  - intros c. unfold Family. destruct (rs_families res !! c) as [f|] eqn:Ef; [right; by apply (Hfam c f) | by left].
Qed.

Lemma writable_by d : consistent d /\ linked d /\ Forall (fun i => (i < db_next d)%N) (row_ids d) -> writable d.
Proof. intros (Hc & Hl & Hm). split; [by apply consistent_tables | done |]. by apply Forall_forall. Qed.

Lemma tables_writable : writable tables.
Proof. apply writable_by. refine (bool_decide_unpack _ _). vm_compute. exact I. Qed.

Lemma res_ready : ready res tables.
Proof.
  apply ready_by; try (vm_compute; reflexivity); refine (bool_decide_unpack _ _); vm_compute; exact I.
Qed.

Lemma tables_validity : validity_db_ok (db_validity tables).
Proof.
  split; simpl; try (by intros ? ?%elem_of_nil); try (by intros ? ? ?); try (repeat constructor; by intros ?%elem_of_nil).
Qed.

Lemma res_key : writable_key run 1 res tables.
Proof.
  split; [exact res_ready | | by constructor | | done].
  - split; [done | by left | by intros ? ?%elem_of_nil].
  - intros fk Hfk _. simpl in Hfk. rewrite !elem_of_cons in Hfk. destruct Hfk as [->|[->|Hfk]]; [by eexists .. | by apply elem_of_nil in Hfk].
Qed.

(** The second claim is that of the first verdict. *)
Lemma timely_by (v : claimVerdict) (cs : list identityClaim) : (forall c, c ∈ cs -> c ∈ vd_attached v) -> forall c, c ∈ cs -> timely v c.
Proof. intros H c Hc w _ _. by apply H. Qed.

End Example.

Lemma resolveKey_spec_witness : exists rk kinds r c db', once (resolveKey Example.stamp Example.text Example.run Example.res None None) Example.tables = Ok (rk, kinds, r, c, db') /\
  writable db' /\ rk_Outcome rk = ResolutionOutcomeMatched.
Proof.
  destruct (resolveKey_spec Example.stamp Example.text Example.run 1%N Example.res Example.tables Example.tables_writable Example.tables_validity Example.res_key eq_refl)
    as (v & d & res1 & slice & db1 & Hv & Hd & Hall).
  vm_compute in Hv. injection Hv as <-. vm_compute in Hd. injection Hd as <- <- <- <-.
  destruct Hall as (rk & kinds & r & c & db' & Hrun & (_ & _ & _ & Hw & _ & _)).
  - apply Example.timely_by. intros c Hc%list_elem_of_singleton. rewrite Hc. repeat (left || right).
  - vm_compute. reflexivity.
  - exists rk, kinds, r, c, db'. split; [exact Hrun |]. split; [exact Hw |]. revert Hrun. vm_compute. intros [= <- _ _ _ _]. reflexivity.
Defined.

(** What a write of [res] decides, and the instrument it writes. *)
Lemma example_write : exists d ws db1, decide_write Example.stamp Example.text (rs_with_written Example.res []) None None Example.tables =
    Ok (d, rs_with_written Example.res ws, map Some (vd_attached (default (dc_verdict d) (first_verdict Example.res []))), db1) /\
  writable db1 /\ writes db1 (rs_with_written Example.res ws) d.
Proof.
  destruct (decide_ok Example.stamp Example.text Example.res [] None Example.tables Example.tables_writable Example.res_ready) as (v & Hv & _ & Hd).
  destruct (Hd (or_introl eq_refl)) as ([[d res1] slice] & db1 & Hrun & Hdec & ws & Hres). simpl in Hdec, Hres. subst res1.
  exists d, ws, db1. rewrite Hv. simpl. pose proof Hrun as Hrun'. vm_compute in Hrun'. injection Hrun' as Ed Ews Es Edb. split; [| split; [apply Hdec |]].
  - rewrite Hrun. rewrite (de_slice _ _ _ _ _ _ Hdec); [done |]. rewrite <- Ed. discriminate.
  - apply (de_writes _ _ _ _ _ _ Hdec); [by rewrite <- Ed | rewrite <- Ed; discriminate |]. apply Example.timely_by. rewrite <- Ed. vm_compute in Hv. injection Hv as <-.
    intros c Hc%list_elem_of_singleton. rewrite Hc. repeat (left || right).
Qed.

Lemma writeInstr_spec_witness : exists r d db w db', writeInstr 1 r d db = Ok (w, db') /\ wrote_instr 1 r d db w db'.
Proof.
  destruct example_write as (d & ws & db1 & _ & Hw & Hd). destruct (writeInstr_spec 1%N (rs_with_written Example.res ws) d db1 Hw Hd) as (w & db' & Hrun & Hwi).
  exists (rs_with_written Example.res ws), d, db1, w, db'. split; [exact Hrun | exact Hwi].
Defined.

Lemma associate_spec_witness : exists w db r, associate w ArbiterStated None db = Ok r.
Proof.
  destruct example_write as (d & ws & db1 & _ & Hw & Hd). destruct (writeInstr_ok 1%N (rs_with_written Example.res ws) d db1 Hw Hd) as (w & db' & _ & Hwi).
  destruct (wi_writer _ _ _ _ _ _ Hwi) as (_ & _ & ws' & Hres).
  assert (rs_dating (w_res w) = None) as Hn by (rewrite Hres; reflexivity).
  destruct (associate_spec (w_InstrID w) w db' ArbiterStated None (wi_writable _ _ _ _ _ _ Hwi) (wi_held _ _ _ _ _ _ Hwi)) as [_ H].
  - intros Hs. by destruct (Hs Hn).
  - discriminate.
  - cbv zeta in H. exists w, db'. destruct (identityVia _ _) as [via|]; [destruct H as (db2 & _ & _ & _ & Ha & _); exists (true, db2); exact Ha |].
    rewrite Hn in H. exists (false, db'). exact H.
Defined.

(** An attempt that drops a claim held by another instrument, interrupted. *)
Lemma retry_spec_witness : write_loop Example.stamp Example.text 3 Example.run Example.res_ticker None (fun _ => Example.tables_ticker)
    (fun n => if n =? 1 then Some ErrSerialization else None) None 1 = Some (Err (ErrOther "nil"), 2).
Proof.
  destruct (first_verdict Example.res_ticker []) as [v|] eqn:Hv; [| vm_compute in Hv; discriminate].
  destruct (decide_write Example.stamp Example.text (rs_with_written Example.res_ticker []) None None (set_deferred false Example.tables_ticker)) as [[[[d r] s] b]|e] eqn:Hd;
    [| vm_compute in Hd; discriminate].
  pose proof Hv as Hv'. vm_compute in Hv'. injection Hv' as Ev. pose proof Hd as Hd'. vm_compute in Hd'. injection Hd' as Ed _ _ _.
  refine (proj2 (retry_spec Example.stamp Example.text Example.run Example.res_ticker (fun _ => Example.tables_ticker)
    (fun n => if n =? 1 then Some ErrSerialization else None) d r s b v ErrSerialization eq_refl Hv _ Hd _ eq_refl) _ _).
  - rewrite <- Ev. reflexivity.
  - vm_compute. reflexivity.
  - rewrite <- Ed. reflexivity.
  - rewrite <- Ed, <- Ev. discriminate.
Defined.
