(* ===== verification/Sources.v ===== *)
(** What the resolver asks of the datasources: the entries of the registry and
    the windows of their answers ([server/internal/market/registry.go],
    [identifier_facts.go]), the kinds of data they serve ([identity.go],
    [identifier_facts.go]), and the interface [Fetcher] of
    [server/internal/identity/resolve/store.go], with what a fetch promises of
    the keys it answers and the rows it leaves. *)
From S2P Require Import Prelude Types Period Facts Rows Validity Bounds ValidityStore Market Fetch Resolution InstrStore Record Statements Recording.

(** * Entries *)

(** [market.Entry]. The integration is what it serves: [None] where it does not
    implement the interface. *)
Record Entry : Type := MkEntry {
  en_Name : string;
  en_Identity : option (Server StatedKey);
  (** [IdentifierFacts]' [Facts] and [Windowed]'s [Window]. *)
  en_Facts : option (Server IdentifierFactRequest);
  en_Window : option (time -> time);
}.

(** * Kinds *)

Definition identityKind (e : Entry) : Kind StatedKey IdentityResult :=
  MkKind _ _ "identity" (en_Identity e) (fun k => Some (sk_ID k)) (fun r => Z.of_nat (length (ir_Listings r))) (fun _ => []) (fun _ => None).

Definition tickerIdentityKind (e : Entry) : Kind StatedKey IdentityResult :=
  MkKind _ _ "identity" (kd_server (identityKind e)) (fun _ => None) (kd_count (identityKind e)) (fun _ => []) (fun _ => None).

Definition identifierFactsKind (format_date : time -> string) (e : Entry) : Kind IdentifierFactRequest IdentifierFactResult :=
  MkKind _ _ "identifier_facts" (en_Facts e) (fun _ => None) (fun r => Z.of_nat (length (fs_Assertions r)))
    (fun r => [format_date (p_From (fq_Period r)); format_date (p_Before (fq_Period r))]) (fun r => Some (fq_Period r)).

(** * Windows, [identifier_facts.go] *)

Definition later (a b : time) : time := if a <? b then b else a.

Definition tomorrow (now : time) : time := AddDays (Day now) 1.

Definition LookupDay (earliest : time) (w : time -> time) (now : time) : time := Day (later earliest (w now)).

Definition History (w : time -> time) (now : time) : Period := MkPeriod (Day (w now)) (tomorrow now).

#[export] Instance IdentifierFactRequest_eq_dec : EqDecision IdentifierFactRequest.
Proof. solve_decision. Defined.

(** * Rows a fetch leaves *)

Definition set_keys (f : gmap uuid FetchKeyRow -> gmap uuid FetchKeyRow) (v : validity_db) : validity_db :=
  MkValidityDB (vd_tickers v) (vd_assertions v) (vd_coverage v) (f (vd_keys v)) (vd_runs v) (vd_event_sources v) (vd_validity v) (vd_resolved v).

(** New rows [m] of [fetch_keys], the served ones of them [ks], and the next id. *)
Definition fetch_rows (m : gmap uuid (option uuid * option uuid)) (ks : gmap uuid FetchKeyRow) (n : uuid) (db : instr_db) : instr_db :=
  set_next n (set_validity_db (set_keys (union ks)) (set_fetch (union m) db)).

(** * The fetcher, [store.go] *)

(** A fetch is a child run of the run it is given. It answers the fetch keys and
    the tables it leaves; its error leaves none. *)
Class Fetcher (E : Type) : Type := {
  ft_Identity : uuid -> Entry -> list StatedKey -> instr_db -> res E (list (FetchKey StatedKey IdentityResult) * instr_db);
  ft_TickerIdentity : uuid -> Entry -> list StatedKey -> instr_db -> res E (list (FetchKey StatedKey IdentityResult) * instr_db);
  ft_IdentifierFacts : uuid -> Entry -> list IdentifierFactRequest -> instr_db ->
    res E (list (FetchKey IdentifierFactRequest IdentifierFactResult) * instr_db);
}.

(** The group of concurrent fetches, one for each entry that is asked anything:
    the keys of each entry, in the order of the entries. Each fetch runs in
    transactions of its own, so one after another stands for any interleaving. *)
Fixpoint fetch_each {E Q R : Type} (fetch : Entry -> list Q -> instr_db -> res E (list R * instr_db)) (asked : list (Entry * list Q)) (db : instr_db) :
    res E (list (list R) * instr_db) :=
  match asked with
  | [] => Ok ([], db)
  | (e, reqs) :: asked' =>
      '(keys, db) ← match reqs with [] => Ok ([], db) | _ => fetch e reqs db end;
      '(rest, db) ← fetch_each fetch asked' db;
      Ok (keys :: rest, db)
  end.

(** * What a fetch promises *)

(** A fetch answers one key for each request, in their order, each of its source
    and under a new id; the rows it leaves beside them change nothing else. *)
Record fetched {Q P : Type} (source : string) (reqs : list Q) (db : instr_db) (keys : list (FetchKey Q P)) (db' : instr_db) : Prop := {
  fd_requests : map fk_Request keys = reqs;
  fd_source : Forall (fun k => fk_Source k = source) keys;
  fd_ids : NoDup (map fk_ID keys);
  fd_new : Forall (fun k => db_fetch db !! fk_ID k = None) keys;
  fd_next : (db_next db <= db_next db')%N;
  fd_rows : exists m ks, db' = fetch_rows m ks (db_next db') db /\ dom m = list_to_set (map fk_ID keys) /\
    map_Forall (fun _ f => snd f = None) m /\ (forall i, is_Some (ks !! i) -> is_Some (m !! i)) /\
    map_Forall (fun _ k => opt_all whole_day (fk_AskedFrom k) /\ opt_all whole_day (fk_AskedBefore k)) ks;
}.

(** The laws of a fetcher's identifier facts: a served answer is one the tables
    can hold. *)
Class FactsFetcher (E : Type) `{Fetcher E} : Prop := {
  ff_fetched run e reqs db keys db' : ft_IdentifierFacts run e reqs db = Ok (keys, db') -> fetched (en_Name e) reqs db keys db';
  ff_answers run e reqs db keys db' : ft_IdentifierFacts run e reqs db = Ok (keys, db') ->
    Forall (fun k => served k = true -> answer_ok (fk_Response k)) keys;
}.

(** An identity answer: what was served was sent, and lists what it knows. *)
Definition good_identity (fk : FetchKey StatedKey IdentityResult) : Prop :=
  (fk_Outcome fk = FetchOutcomeServed -> is_Some (fk_SentID fk)) /\
  (ir_Listings (fk_Response fk) <> [] -> fk_Outcome fk = FetchOutcomeServed /\ ir_Unknown (fk_Response fk) = false).

(** The laws of a fetcher's identities. *)
Class IdentityFetcher (E : Type) `{Fetcher E} : Prop := {
  if_identity run e reqs db keys db' : ft_Identity run e reqs db = Ok (keys, db') -> fetched (en_Name e) reqs db keys db' /\ Forall good_identity keys;
  if_tickers run e reqs db keys db' : ft_TickerIdentity run e reqs db = Ok (keys, db') -> fetched (en_Name e) reqs db keys db' /\ Forall good_identity keys;
}.

(** * A fetch of given answers

    What the examples fetch from: a datasource that answers every request at
    once, under new ids. *)

Section Given.
Context {Q P : Type} (source : string) (sent : Q -> Identifier) (answer : Q -> P).

Definition given_keys (run next : uuid) (reqs : list Q) : list (FetchKey Q P) :=
  imap (fun i q => MkFetchKey q run source (next + N.of_nat i)%N FetchOutcomeServed (Some (sent q)) "" (answer q) 6 2 false) reqs.

Definition given_fetch (run : uuid) (reqs : list Q) (db : instr_db) : res unit (list (FetchKey Q P) * instr_db) :=
  let keys := given_keys run (db_next db) reqs in
  if decide (Forall (fun k => db_fetch db !! fk_ID k = None) keys)
  then Ok (keys, fetch_rows (list_to_map (map (fun k => (fk_ID k, (None, None))) keys))
         (list_to_map (map (fun k => (fk_ID k, MkFetchKeyRow 6 None None (fk_Source k) 2)) keys)) (db_next db + N.of_nat (length reqs))%N db)
  else Err tt.

Lemma given_elem run next reqs k : k ∈ given_keys run next reqs -> exists q, fk_Response k = answer q /\ fk_Outcome k = FetchOutcomeServed /\
  fk_SentID k = Some (sent q) /\ fk_Source k = source.
Proof. unfold given_keys. intros (i & q & -> & _)%elem_of_lookup_imap_1. by exists q. Qed.

Lemma given_fetched run reqs db keys db' : given_fetch run reqs db = Ok (keys, db') -> keys = given_keys run (db_next db) reqs /\ fetched source reqs db keys db'.
Proof.
  unfold given_fetch. set (ks := given_keys run (db_next db) reqs). destruct (decide _) as [Hnew|]; [| done]. intros [= <- <-]. split; [done |].
  assert (NoDup (map fk_ID ks)) as Hnd.
  { apply NoDup_alt. intros i j x. unfold ks, given_keys. rewrite !list_lookup_fmap, !list_lookup_imap.
    destruct (reqs !! i), (reqs !! j); simpl; try done. intros [= <-] [= H]. lia. }
  split; [| | done | done | simpl; lia |].
  - apply list_eq. intros i. unfold ks, given_keys. rewrite list_lookup_fmap, list_lookup_imap. by destruct (reqs !! i).
  - apply Forall_forall. intros k (q & _ & _ & _ & Hs)%given_elem. done.
  - do 2 eexists. split; [reflexivity |]. split; [rewrite dom_list_to_map_L; f_equal; by rewrite map_map |].
    split; [intros i f (k & [= -> ->] & _)%elem_of_list_to_map_2%list_elem_of_fmap; done |].
    split; [| intros i f (k & [= -> ->] & _)%elem_of_list_to_map_2%list_elem_of_fmap; done].
    intros i [x (k & [= -> ->] & Hk)%elem_of_list_to_map_2%list_elem_of_fmap]. apply not_eq_None_Some. intros En%not_elem_of_list_to_map_2.
    rewrite map_map in En. by apply En, (list_elem_of_fmap_2 fk_ID).
Qed.

End Given.
