(* ===== verification/Dated.v ===== *)
(** Dating a key through its ticker, [server/internal/identity/resolve/dated.go]:
    the ticker validity a key may be dated through, the identifier facts fetched
    for it, what of them is recorded, and the conflicts they complete. The texts
    of a day and of an id are parameters. *)
From S2P Require Import Prelude Types Period Facts Winners Derive Validity Rows Mic Tickers Calendar Bounds ValidityStore Market Fetch Resolution Claims Choose InstrStore Merge Record Statements Recording Writer Write Outcome Sources.

(** * Definitions *)

(** A transaction of the store over the tables it finds, where no other runs
    beside it. *)
Definition store_tx {A} (m : tx A) (db : instr_db) : res write_error (A * instr_db) :=
  match Tx m (fun _ => db) with Some (r, _) => r | None => Err (ErrOther "nil") end.

(** The ticker table of the database, as [Tickers] reads it. *)
Definition ticker_rows (db : instr_db) : ticker_table := MkTickerTable (vd_tickers (db_validity db)) (db_next db).

Definition set_tickers (rows : list TickerRow) (v : validity_db) : validity_db :=
  MkValidityDB rows (vd_assertions v) (vd_coverage v) (vd_keys v) (vd_runs v) (vd_event_sources v) (vd_validity v) (vd_resolved v).

Definition with_ticker_rows (t : ticker_table) (db : instr_db) : instr_db :=
  set_next (tt_next t) (set_validity_db (set_tickers (tt_rows t)) db).

(** The tables [Load] reads. *)
Definition validity_tables (v : validity_db) : tables unit := MkTables (vd_tickers v) (vd_validity v) [] [] ∅ [] [].

(** A row of [txns] that names a stated key. *)
Record KeyTxn : Type := MkKeyTxn {
  kt_UserID : uuid;
  kt_StatedKeyID : uuid;
  kt_AsAt : time;
}.

(** [KeyDates], [resolve.go]. *)
Record KeyDates : Type := MkKeyDates {
  kd_Row : StatedKey;
  kd_Dates : list time;
}.

Definition rs_date (res : resolution) (via : Identifier) (d : dating) (dates : list time) : resolution :=
  MkResolution (rs_row res) (rs_globalAndDescriptionIDs res) (rs_family res) (rs_families res) (rs_knownInstr res) (rs_mics res)
    (rs_fetchKeys res) (rs_findings res) (rs_outcome res) (rs_reason res) (Some via) (Some d) dates (rs_datedFromFacts res)
    (rs_tickers res) (rs_written res).

Definition rs_with_dates (res : resolution) (dates : list time) : resolution :=
  MkResolution (rs_row res) (rs_globalAndDescriptionIDs res) (rs_family res) (rs_families res) (rs_knownInstr res) (rs_mics res)
    (rs_fetchKeys res) (rs_findings res) (rs_outcome res) (rs_reason res) (rs_via res) (rs_dating res) dates (rs_datedFromFacts res)
    (rs_tickers res) (rs_written res).

(** [datedFromFacts = true]. *)
Definition rs_from_facts (res : resolution) : resolution :=
  MkResolution (rs_row res) (rs_globalAndDescriptionIDs res) (rs_family res) (rs_families res) (rs_knownInstr res) (rs_mics res)
    (rs_fetchKeys res) (rs_findings res) (rs_outcome res) (rs_reason res) (rs_via res) (rs_dating res) (rs_dates res) true
    (rs_tickers res) (rs_written res).

Definition datedTicker (k : StatedKey) (mics : MICMap) : option Identifier :=
  if existsb (fun id => Stable id && IsGlobal id) (sk_Identifiers k) then None
  else head (omap (fun id =>
    if negb (bool_decide (id_Type id = IdentifierTypeMicTicker)) || bool_decide (id_Domain id = ""%string) then None
    else op ← Operating mics (id_Domain id); Some (MkIdentifier (id_Type id) op (id_Value id))) (sk_Identifiers k)).

(** The distinct dates of the rows of [txns], by key and date. *)
Definition ListKeyDates (txns : list KeyTxn) (user : uuid) (ids : list uuid) : list (uuid * time) :=
  sort_func (cmp_lex (cmp_on fst N.compare) (cmp_on snd Z.compare)) (foldl append_unique []
    (map (fun t => (kt_StatedKeyID t, kt_AsAt t))
      (List.filter (fun t => bool_decide (kt_UserID t = user) && contains ids (kt_StatedKeyID t)) txns))).

Definition TickerAssertedOn (db : validity_db) (t : MarketTicker) (day : time) : bool :=
  existsb (fun a => negb (Day day <? ia_AssertedFrom a) && (Day day <? ia_AssertedBefore a) &&
    existsb (fun r => bool_decide (tk_ID r = ia_TickerID a) && bool_decide (ticker_of r = t)) (vd_tickers db)) (vd_assertions db).

(** [vias] and [mts] of the first loop of [findResolutionDated], at one key. *)
Definition dated_through_ticker (dated : gmap uuid TickerRow) (mics : MICMap) (res : resolution) : option (Identifier * MarketTicker) :=
  if negb (bool_decide (rs_outcome res = ResolutionOutcomeNone)) then None
  else v ← match Dated (rs_row res) dated with Some (_, v) => Some v | None => datedTicker (rs_row res) mics end;
       mt ← mics_MarketTicker mics v;
       Some (v, mt).

(** The second loop, at one key. *)
Definition date_key (read : gmap MarketTicker (list Interval)) (res : resolution) (via : option (Identifier * MarketTicker)) (dates : list time) : resolution :=
  match via with
  | None => res
  | Some (v, mt) =>
      let ivs := default [] (read !! mt) in
      let res := rs_date res v (MkDating mt ivs) dates in
      if negb (bool_decide (sk_ViaTickerID (rs_row res) = None)) then rs_decide res ResolutionOutcomeMatched ""
      else if bool_decide (rs_knownInstr res = None) && Any ivs
           then rs_decide (rs_from_facts res) ResolutionOutcomeMatched "" else res
  end.

(** The last loop, at one key, with the map [byKey]. *)
Definition add_dates (byKey : gmap uuid (list time)) (res : resolution) : resolution :=
  match rs_dating res with
  | None => res
  | Some _ => rs_with_dates res (rs_dates res ++ default [] (byKey !! sk_ID (rs_row res)))
  end.

Definition by_key (rows : list (uuid * time)) : gmap uuid (list time) :=
  foldl (fun m r => <[r.1 := default [] (m !! r.1) ++ [r.2]]> m) ∅ rows.

(** [keys] has the key of each of [rs], in their order. *)
Definition findResolutionDated (mics : MICMap) (db : validity_db) (txns : list KeyTxn) (user : uuid) (rs : list resolution) (keys : list KeyDates) :
    list resolution :=
  let dated := OfKeys (vd_tickers db) (map rs_row rs) in
  let vias := map (dated_through_ticker dated mics) rs in
  let read := Load (validity_tables db) (map snd (omap id vias)) in
  let rs := zip_with (fun rv k => date_key read rv.1 rv.2 (kd_Dates k)) (zip rs vias) keys in
  match omap (fun rv => (fun _ => sk_ID (rs_row rv.1)) <$> rv.2) (zip rs vias) with
  | [] => rs
  | ids => map (add_dates (by_key (ListKeyDates txns user ids))) rs
  end.

(** ** Fetching identifier facts *)

Definition ListIdentifierEventSources (db : validity_db) : list (string * string) :=
  omap (fun m => (fun s => (m, s)) <$> vd_event_sources db !! m) (sorted_keys (vd_event_sources db)).

Definition eventSources (db : validity_db) : gmap string string :=
  foldl (fun out row => <[row.1 := row.2]> out) ∅ (ListIdentifierEventSources db).

(** The first verdict is computed once for a key; computing it again answers the
    same. [None] is a nil dereference. *)
Definition chainRequest (res : resolution) (server : Server IdentifierFactRequest) (period : Period) : option (option IdentifierFactRequest) :=
  match rs_fetchKeys res with
  | [] => Some None
  | _ =>
      v ← first_verdict res [];
      Some (winner ← vd_winner v;
            head (omap (fun id =>
              if negb (Stable id) then None
              else let q := MkFactRequest id period in
                   match sr_Serves server q with Ok _ => Some q | Err _ => None end) (AllIDs (cl_Instr winner))))
  end.

Section Facts.
Context {E : Type} `{Fetcher E}.
Variables (mics : MICMap) (families : Families) (entries : list Entry).
(** The texts of a day, [Format(time.DateOnly)], and of an id. *)
Variables (format_date : time -> string) (uuid_string : uuid -> string).

(** The requests to the entry [e] after the key [res]; the map [seen] holds those
    asked. *)
Definition facts_step (db : validity_db) (sources : gmap string string) (now : time) (e : Entry) (server : Server IdentifierFactRequest)
    (w : time -> time) (reqs : list IdentifierFactRequest) (res : resolution) : option (list IdentifierFactRequest) :=
  match rs_dating res with
  | None => Some reqs
  | Some d =>
      let t := dt_ticker d in
      chain ← (if bool_decide (default ""%string (sources !! mt_Market t) = en_Name e) then chainRequest res server (History w now) else Some None);
      let reqs := match chain with Some q => append_unique reqs q | None => reqs end in
      match FirstUnconfirmed (dt_ivs d) (rs_dates res) with
      | None => Some reqs
      | Some first =>
          let day := LookupDay first w now in
          if negb (day <? Day now) || TickerAssertedOn db t day then Some reqs
          else via ← rs_via res; Some (append_unique reqs (MkFactRequest via (OneDay day)))
      end
  end.

Definition facts_requests (db : validity_db) (now : time) (rs : list resolution) (e : Entry) : option (list IdentifierFactRequest) :=
  match en_Facts e, en_Window e with
  | Some server, Some w => opt_fold (facts_step db (eventSources db) now e server w) [] rs
  | _, _ => Some []
  end.

(** [None] is a nil dereference, and the error is of a fetch. *)
Definition fetchResolutionFacts (run : uuid) (now : time) (rs : list resolution) (db : instr_db) : option (Prelude.res E (list factKey * instr_db)) :=
  if negb (existsb (fun res => negb (bool_decide (rs_dating res = None))) rs) then Some (Ok ([], db))
  else
    reqs ← mapM (facts_requests (db_validity db) now rs) entries;
    Some ('(keys, db) ← fetch_each (ft_IdentifierFacts run) (zip entries reqs) db; Ok (concat keys, db)).

(** ** Recording *)

Inductive record_error : Type :=
| RecordTicker (t : MarketTicker)
| RecordWrite (e : write_error).

(** The error of a spelling is logged. *)
Definition recordFacts (keys : list factKey) (db : instr_db) : Prelude.res record_error (bool * instr_db) :=
  match keys with
  | [] => Ok (false, db)
  | _ =>
      let '(tickers, rows) := RecordTickers (ticker_rows db) mics keys in
      let db := with_ticker_rows tickers db in
      match rows with
      | Err (ErrSpelling _) => Ok (false, db)
      | Err (ErrNoRow t) => Err (RecordTicker t)
      | Ok rows =>
          match store_tx (RecordFacts families rows keys) db with
          | Ok (_, db) => Ok (true, db)
          | Err e => Err (RecordWrite e)
          end
      end
  end.

(** [WrittenIdentifierFacts], [written.go]: the id of a run, and the tickers. *)
Record WrittenIdentifierFacts : Type := MkWritten {
  wf_Run : uuid;
  wf_Tickers : list MarketTicker;
}.

(** [writtenSet]; a key of [seen] is a ticker. *)
Record writtenSet : Type := MkWrittenSet {
  ws_mics : MICMap;
  ws_order : list uuid;
  ws_byRun : gmap uuid WrittenIdentifierFacts;
  ws_seen : gmap uuid (gset MarketTicker);
}.

Definition newWritten : writtenSet := MkWrittenSet mics [] ∅ ∅.

(** [writtenSet.run]: the set, and whether [t] is new to the facts of [run]. *)
Definition ws_run (w : writtenSet) (run : uuid) (t : MarketTicker) : writtenSet * bool :=
  let w := match ws_byRun w !! run with
           | None => MkWrittenSet (ws_mics w) (ws_order w ++ [run]) (<[run := MkWritten run []]> (ws_byRun w)) (<[run := ∅]> (ws_seen w))
           | Some _ => w
           end in
  let seen := default ∅ (ws_seen w !! run) in
  if bool_decide (t ∈ seen) then (w, false)
  else (MkWrittenSet (ws_mics w) (ws_order w) (ws_byRun w) (<[run := {[t]} ∪ seen]> (ws_seen w)), true).

Definition addTicker (w : writtenSet) (run : uuid) (t : MarketTicker) : writtenSet :=
  let '(w, ok) := ws_run w run t in
  if ok then MkWrittenSet (ws_mics w) (ws_order w) (alter (fun f => MkWritten (wf_Run f) (wf_Tickers f ++ [t])) run (ws_byRun w)) (ws_seen w) else w.

(** [writtenSet.add]. *)
Definition ws_add (w : writtenSet) (run : uuid) (id : Identifier) : writtenSet :=
  match mics_MarketTicker (ws_mics w) id with Some t => addTicker w run t | None => w end.

Definition addFacts (w : writtenSet) (run : uuid) (r : IdentifierFactResult) : writtenSet := foldl (fun w t => addTicker w run t) w (fact_Tickers r).

(** [writtenSet.list]; every run of the order has its facts. *)
Definition ws_list (w : writtenSet) : list WrittenIdentifierFacts := omap (fun run => ws_byRun w !! run) (ws_order w).

(** [writtenSet.tickers]. *)
Definition ws_tickers (w : writtenSet) : list MarketTicker := foldl append_unique [] (concat (map wf_Tickers (ws_list w))).

(** ** Conflicts *)

Definition days (p : Period) : string :=
  let last := AddDays (p_Before p) (-1) in
  if bool_decide (last = p_From p) then "on " +:+ format_date (p_From p)
  else "from " +:+ format_date (p_From p) +:+ " to " +:+ format_date last.

Definition named (i : option uuid) : string := match i with None => "nothing" | Some i => uuid_string i end.

Definition finding_of (kind : FindingKind) (key : uuid) (detail : string) : CreateFindingParams := MkFindingParams kind (Some key) None (Some detail).

Definition disagreement_finding (v : MarketTicker) (mine : gset uuid) (g : Disagreement) : list CreateFindingParams :=
  let w := as_Source (dg_Winner g) in
  let l := as_Source (dg_Loser g) in
  if negb (bool_decide (src_Answer w ∈ mine)) && negb (bool_decide (src_Answer l ∈ mine)) then []
  else [finding_of FindingKindIdentifierDisagreement (src_Answer l)
    (MarketTicker_Name v +:+ " " +:+ days (dg_Period g) +:+ ": " +:+ src_Datasource w +:+ " named " +:+ named (as_Instr (dg_Winner g)) +:+ " and " +:+
     src_Datasource l +:+ " named " +:+ named (as_Instr (dg_Loser g)) +:+ "; " +:+ src_Datasource w +:+ " was kept")].

Definition broken_finding (v : MarketTicker) (mine : gset uuid) (b : BrokenBracket) : list CreateFindingParams :=
  let key := src_Answer (as_Source (e_Assertion (bb_Edge b))) in
  if negb (bool_decide (key ∈ mine)) then []
  else [finding_of FindingKindBrokenTickerValidityBracket key
    (MarketTicker_Name v +:+ ": an edge at the start of " +:+ format_date (e_At (bb_Edge b)) +:+ " cuts between assertions of " +:+
     uuid_string (bb_Instr b) +:+ " on " +:+ format_date (bb_First b) +:+ " and " +:+ format_date (bb_Last b))].

Definition missed_finding (v : MarketTicker) (mine : gset uuid) (m : MissedEvent) : list CreateFindingParams :=
  let by_ := me_By m in
  let inf := me_Inferred m in
  if negb (bool_decide (src_Answer (ac_Source by_) ∈ mine)) && negb (bool_decide (src_Answer (as_Source (inf_Earlier inf)) ∈ mine))
     && negb (bool_decide (src_Answer (as_Source (inf_Later inf)) ∈ mine)) then []
  else [finding_of FindingKindMissedEvent (src_Answer (ac_Source by_))
    (MarketTicker_Name v +:+ ": assertions " +:+ days (as_Period (inf_Earlier inf)) +:+ " and " +:+ days (as_Period (inf_Later inf)) +:+
     " imply a change between them, and " +:+ src_Datasource (ac_Source by_) +:+ " reported no edge from " +:+ format_date (p_From (ac_Period by_)) +:+
     " to " +:+ format_date (p_Before (ac_Period by_)))].

(** [None] is an error of [Diagnose]. *)
Definition conflicts (db : validity_db) (v : MarketTicker) (mine : gset uuid) : option (list CreateFindingParams) :=
  d ← Diagnose db v;
  Some (concat (map (disagreement_finding v mine) (dx_Disagreements d)) ++ concat (map (broken_finding v mine) (dx_Broken d)) ++
        concat (map (missed_finding v mine) (dx_Missed d))).

Definition conflict_finding (run : uuid) (kinds : list FindingKind) (f : CreateFindingParams) : tx (list FindingKind) :=
  id ← NewID;
  CreateFinding (MkFindingRow id run None f);;
  mret (kinds ++ [fp_Kind f]).

Definition ticker_conflicts (run : uuid) (mine : gset uuid) (kinds : list FindingKind) (t : MarketTicker) : tx (list FindingKind) :=
  db ← tx_get;
  fs ← tx_some (conflicts (db_validity db) t mine);
  tx_fold (conflict_finding run) kinds fs.

(** [recordConflicts], with the kinds it counts. *)
Definition recordConflicts (run : uuid) (written : writtenSet) (mine : gset uuid) (db : instr_db) : Prelude.res write_error (list FindingKind * instr_db) :=
  store_tx (tx_fold (ticker_conflicts run mine) [] (ws_tickers written)) db.

(** The facts each resolution wrote, a datasource at a time. *)
Definition written_step (e : Entry) (w : writtenSet) (f : fetchKey * Identifier) : writtenSet :=
  if bool_decide (fk_Source f.1 = en_Name e) then ws_add w (fk_Run f.1) f.2 else w.

Definition add_served (w : writtenSet) (k : factKey) : writtenSet :=
  if served k then addFacts w (fk_Run k) (fk_Response k) else w.

(** [batch], [resolve.go]. *)
Record batch : Type := MkBatch {
  bt_resolutions : list resolution;
  bt_facts : list factKey;
}.

Definition written_facts (b : batch) (recorded : bool) : writtenSet :=
  let written := foldl (fun w e => foldl (fun w res => foldl (written_step e) w (rs_written res)) w (bt_resolutions b)) newWritten entries in
  if recorded then foldl add_served written (bt_facts b) else written.

Definition recordIdentifierFacts (run : uuid) (b : batch) (db : instr_db) : Prelude.res record_error (list WrittenIdentifierFacts * instr_db) :=
  '(recorded, db) ← recordFacts (bt_facts b) db;
  let written := written_facts b recorded in
  match ws_order written with
  | [] => Ok ([], db)
  | _ =>
      let mine : gset uuid := list_to_set (concat (map (fun res => map fk_ID (rs_fetchKeys res)) (bt_resolutions b)) ++ map fk_ID (bt_facts b)) in
      match recordConflicts run written mine db with
      | Ok (_, db) => Ok (ws_list written, db)
      | Err e => Err (RecordWrite e)
      end
  end.

End Facts.

(** * Transactions of the store *)

Lemma store_tx_once {A} (m : tx A) db : store_tx m db = once m db.
Proof.
  unfold store_tx. destruct (Tx_loop_spec m (fun _ => db) (Z.to_nat tries) 1) as (r & n & Hrun & _ & -> & _); try (unfold tries; lia).
  unfold Tx. by rewrite Hrun.
Qed.

Lemma store_tx_yields {A} (m : tx A) db (P : A -> instr_db -> Prop) : writable db -> yields m (set_deferred false db) P ->
  (forall a db', P a db' -> writable db') -> exists a db', store_tx m db = Ok (a, set_deferred false db') /\ P a db'.
Proof.
  intros Hw (a & db' & Hm & HP) Hwr. exists a, db'. split; [| done]. rewrite store_tx_once. apply once_ok; [done |]. by apply (wb_linked _ (Hwr _ _ HP)).
Qed.

(** * The fetch keys of conflicts *)

(** A fetch key under which a fact is stored. *)
Definition fact_key (db : validity_db) (k : uuid) : Prop :=
  (exists a, a ∈ vd_assertions db /\ ia_FetchKeyID a = Some k) \/ (exists c, c ∈ vd_coverage db /\ cw_FetchKeyID c = k).

Lemma fact_key_stored db k : tables_ok db -> fact_key (db_validity db) k -> is_Some (db_fetch db !! k).
Proof.
  intros Hok [(a & Ha & He)|(c & Hc & <-)].
  - pose proof (proj1 (Forall_forall _ _) (ok_assertion _ Hok) a Ha) as (_ & _ & Hf & _). by rewrite He in Hf.
  - apply (proj1 (Forall_forall _ _) (ok_facts_coverage _ Hok) c Hc).
Qed.

Section ReadFacts.
Context (db : validity_db) (Hok : validity_db_ok db) (t : MarketTicker).

Abbreviation f := (Rows_facts (ReadRows db t)).

Lemma ReadRows_cases : (exists r, r ∈ vd_tickers db /\ ticker_of r = t /\ ReadRows db t = rows_of db r) \/ ReadRows db t = MkFactRows [] [].
Proof.
  destruct (find_func (fun r => bool_decide (ticker_of r = t)) (vd_tickers db)) as [r|] eqn:Er.
  - apply find_func_Some in Er as [Hr Ht%bool_decide_eq_true]. left. exists r. split; [done |]. split; [done |].
    unfold ReadRows. subst t. by rewrite (readRowsOf_spec db Hok [ticker_of r] r Hr) by by left.
  - right. rewrite find_func_None in Er.
    assert (asked_tickers (vd_tickers db) [t] = []) as Ha.
    { destruct (asked_tickers _ _) as [|r rs] eqn:E; [done |]. assert (r ∈ asked_tickers (vd_tickers db) [t]) as Hr by (rewrite E; by left).
      apply (asked_spec db) in Hr as [Hr Ht%list_elem_of_singleton]. pose proof (Er r Hr) as Hf. simpl in Hf. by rewrite bool_decide_eq_true_2 in Hf. }
    unfold ReadRows, readRowsOf, ListIdentifierAssertions, ListIdentifierAssertionCoverage. change (distinct_tickers [t]) with [t]. rewrite Ha. simpl.
    by rewrite lookup_insert_eq.
Qed.

Lemma read_facts_ok : facts_ok f.
Proof.
  destruct ReadRows_cases as [(r & Hr & _ & ->)| ->]; [by apply facts_of_ok |]. split; by constructor.
Qed.

Lemma read_assertion_key a : a ∈ f_Assertions f -> src_attested (as_Source a) = false -> fact_key db (src_Answer (as_Source a)).
Proof.
  destruct ReadRows_cases as [(r & Hr & _ & ->)| ->]; [| by intros ?%elem_of_nil].
  simpl. intros (row & -> & Hrow)%list_elem_of_fmap. apply elem_of_sort_func, elem_of_assertions_of in Hrow as (b & Hb & _ & ->).
  unfold src_attested. simpl. intros Hs%bool_decide_eq_false. left. exists b. split; [done |].
  unfold row_source in *. simpl in *. destruct (ia_FetchKeyID b) as [k|]; [simpl in *; by destruct (vd_keys db !! k) | by destruct Hs].
Qed.

Lemma read_edge_key a e : a ∈ f_Assertions f -> e ∈ edges_of a -> e_Assertion e = a /\ src_attested (as_Source a) = false.
Proof.
  intros Ha He. assert (e_Assertion e = a /\ (as_EdgeFrom a = true \/ as_EdgeBefore a = true)) as [-> Hed].
  { unfold edges_of in He. apply elem_of_app in He as [He|He];
      [destruct (as_EdgeFrom a) eqn:E | destruct (as_EdgeBefore a) eqn:E]; try (by apply elem_of_nil in He);
      apply list_elem_of_singleton in He as ->; auto. }
  split; [done |]. destruct ReadRows_cases as [(r & Hr & _ & Hrr)|Hrr]; rewrite Hrr in Ha; [| by apply elem_of_nil in Ha].
  simpl in Ha. apply list_elem_of_fmap in Ha as (row & -> & _). unfold src_attested. apply bool_decide_eq_false. intros E.
  change (src_standing (row_source row) = attested) in E. unfold row_assertion in Hed. cbn [as_EdgeFrom as_EdgeBefore] in Hed. rewrite E in Hed. by destruct Hed.
Qed.

Lemma read_coverage_key c : c ∈ f_AssertionCoverage f -> fact_key db (src_Answer (ac_Source c)).
Proof.
  destruct ReadRows_cases as [(r & Hr & _ & ->)| ->]; [| by intros ?%elem_of_nil].
  simpl. intros (row & Hrow & Hc)%list_elem_of_omap. apply elem_of_sort_func, elem_of_coverage_of in Hrow as (b & Hb & _ & Hj).
  unfold row_assertion_coverage in Hc. case_match; [done |]. injection Hc as <-. right. exists b. split; [done |]. simpl.
  unfold coverage_join in Hj. destruct (vd_keys db !! _); [| done]. by injection Hj as <-.
Qed.

End ReadFacts.

Lemma current_sources l out es : assertions_ok l -> current l = Some (out, es) ->
  (forall x, x ∈ out -> exists a, a ∈ l /\ as_Source x = as_Source a) /\ (forall e, e ∈ es -> exists a, a ∈ l /\ e ∈ edges_of a).
Proof.
  intros Hok Hc. rewrite (current_eq l Hok) in Hc. injection Hc as <- <-. split.
  - intros x (a & Ha & Hx)%elem_of_concat_map. exists a. split; [done |]. by destruct (current_piece l a x Hok Hx) as [(_ & -> & _) _].
  - intros e (a & Ha & He)%elem_of_concat_map. exists a. split; [done |]. by apply elem_of_lfilter in He as [? _].
Qed.

Lemma missed_by inferred rows cover m : m ∈ missed inferred rows cover -> me_By m ∈ rows.
Proof.
  intros (inf & _ & Hm)%elem_of_concat_map. destruct (index_func _ rows) as [i|]; [| by apply elem_of_nil in Hm].
  destruct (existsb _ _); [| by apply elem_of_nil in Hm]. destruct (rows !! i) as [r|] eqn:Er; [| by apply elem_of_nil in Hm].
  apply list_elem_of_singleton in Hm as ->. by eapply list_elem_of_lookup_2.
Qed.

Lemma broken_edge ws es b : b ∈ broken ws es -> bb_Edge b ∈ es.
Proof.
  intros (e & He & Hb)%elem_of_concat_map. destruct (index_func _ ws) as [[|i]|]; try (by apply elem_of_nil in Hb).
  destruct (ws !! i) as [w|], (ws !! S i) as [v|]; try (by apply elem_of_nil in Hb). destruct (Winners.w_instr w); [| by apply elem_of_nil in Hb].
  destruct (same _ _); [| by apply elem_of_nil in Hb]. by apply list_elem_of_singleton in Hb as ->.
Qed.

Section Conflicts.
Context (format_date : time -> string) (uuid_string : uuid -> string).
Context (db : validity_db) (Hok : validity_db_ok db) (t : MarketTicker) (mine : gset uuid).

(** A finding of a conflict: what it concerns is a fact of the tables, by the
    fetch key that answered it. *)
Definition conflict_ok (p : CreateFindingParams) : Prop :=
  fp_Kind p ∈ fact_kinds /\ fp_Step p = None /\ fp_Detail p <> None /\ exists k, fp_FetchKeyID p = Some k /\ fact_key db k.

Lemma conflicts_ok : exists fs, conflicts format_date uuid_string db t mine = Some fs /\ Forall conflict_ok fs.
Proof.
  pose proof (read_facts_ok db Hok t) as Hf. destruct (derive_steps_of _ Hf) as (l & es & dv & Hd & Hst).
  destruct (current_sources _ _ _ (fo_assertions _ Hf) (dt_current _ _ _ _ Hst)) as [Hl Hes].
  pose proof (current_ok _ _ _ (fo_assertions _ Hf) (dt_current _ _ _ _ Hst)) as Hlok.
  pose proof (winners_meets _ _ _ _ Hlok (dt_winners _ _ _ _ Hst)) as Hw.
  unfold conflicts, Diagnose. rewrite Hd. simpl. eexists. split; [reflexivity |].
  apply Forall_forall. intros p [(g & Hg & Hp)%elem_of_concat_map|[(b & Hb & Hp)%elem_of_concat_map|(m & Hm & Hp)%elem_of_concat_map]%elem_of_app]%elem_of_app.
  - unfold disagreement_finding in Hp. destruct (_ && _); [by apply elem_of_nil in Hp |]. apply list_elem_of_singleton in Hp as ->.
    split; [unfold fact_kinds; simpl; rewrite !elem_of_cons; tauto |]. split; [done |]. split; [done |]. eexists. split; [reflexivity |].
    pose proof (wp_disagree_days _ _ _ _ Hw g Hg) as Hne.
    destruct (proj1 (wp_disagree _ _ _ _ Hw (p_From (dg_Period g)) (dg_Winner g) (dg_Loser g))) as (_ & [Hb _] & _ & _ & Hatt & _).
    { exists g. split; [done |]. split; [done |]. split; [done |]. apply Contains_spec. unfold p_nonempty in Hne. lia. }
    destruct (Hl _ Hb) as (a & Ha & Es). rewrite Es in *. by apply (read_assertion_key db Hok t).
  - unfold broken_finding in Hp. destruct (negb _); [by apply elem_of_nil in Hp |]. apply list_elem_of_singleton in Hp as ->.
    split; [unfold fact_kinds; simpl; rewrite !elem_of_cons; tauto |]. split; [done |]. split; [done |]. eexists. split; [reflexivity |].
    rewrite (dt_broken _ _ _ _ Hst) in Hb. apply broken_edge, elem_of_lfilter in Hb as [He _].
    destruct (Hes _ He) as (a & Ha & Hea). destruct (read_edge_key db Hok t a _ Ha Hea) as [-> Hatt]. by apply (read_assertion_key db Hok t).
  - unfold missed_finding in Hp. destruct (_ && _); [by apply elem_of_nil in Hp |]. apply list_elem_of_singleton in Hp as ->.
    split; [unfold fact_kinds; simpl; rewrite !elem_of_cons; tauto |]. split; [done |]. split; [done |]. eexists. split; [reflexivity |].
    rewrite (dt_missed _ _ _ _ Hst) in Hm. apply missed_by in Hm. by apply (read_coverage_key db Hok t).
Qed.

End Conflicts.

(** * Recording conflicts *)

Section RecordConflicts.
Context (format_date : time -> string) (uuid_string : uuid -> string).

(** The findings [fs] of the run, and nothing else. *)
Definition findings_added (run : uuid) (fs : list CreateFindingParams) (db db' : instr_db) : Prop :=
  exists n rows, db' = set_next n (set_findings (fun l => l ++ rows) db) /\ (db_next db <= n)%N /\ map fr_Params rows = fs /\
    Forall (fun f => fr_RunID f = run /\ fr_StatedKeyID f = None) rows.

Lemma findings_added_refl run db : findings_added run [] db db.
Proof.
  exists (db_next db), []. split; [| done]. destruct db. unfold set_next, set_findings. simpl. by rewrite app_nil_r.
Qed.

Lemma findings_added_trans run fs gs db1 db2 db3 : findings_added run fs db1 db2 -> findings_added run gs db2 db3 -> findings_added run (fs ++ gs) db1 db3.
Proof.
  intros (n & rows & -> & Hn & <- & H1) (m & rows' & -> & Hm & <- & H2). simpl in Hm. exists m, (rows ++ rows'). split; [| split; [lia | split; [by rewrite map_app | by apply Forall_app]]].
  unfold set_next, set_findings. simpl. by rewrite app_assoc.
Qed.

Lemma findings_added_validity run fs db db' : findings_added run fs db db' -> db_validity db' = db_validity db.
Proof. by intros (n & rows & -> & _). Qed.

Lemma conflict_finding_ok run kinds p db : writable db -> conflict_ok (db_validity db) p ->
  yields (conflict_finding run kinds p) db (fun kinds' db' => kinds' = kinds ++ [fp_Kind p] /\ writable db' /\ findings_added run [p] db db').
Proof.
  intros Hw (Hk & Hs & Hd & k & Ek & Hfk). destruct (NewID_ok db Hw) as (Hid & Hw1 & Hf1). set (db1 := set_next _ db) in *. unfold conflict_finding.
  apply (yields_bind _ _ _ (fun new d => new = db_next db /\ d = db1) _ (yields_run _ _ _ _ _ Hid (conj eq_refl eq_refl))). intros ? ? [-> ->].
  set (row := MkFindingRow _ _ _ _).
  destruct (CreateFinding_ok db1 Hw1 row Hf1) as (Hrun & Hw2 & _).
  { unfold finding_ok. cbn [row fr_Params fr_StatedKeyID]. split; [apply elem_of_app; by right |]. split; [done |].
    split; [rewrite Hs; split; [| done]; intros He; rewrite He in Hk; unfold fact_kinds in Hk; rewrite !elem_of_cons, elem_of_nil in Hk; intuition congruence |].
    split; [right; by rewrite Ek |]. split; [rewrite Ek; by apply fact_key_stored; [apply Hw1 |] |]. split; [| done].
    split; [| done]. unfold key_kinds, fact_kinds in *. rewrite !elem_of_cons, elem_of_nil in *. intuition congruence. }
  apply (yields_bind _ _ _ _ _ (yields_run _ _ tt _ (fun _ d => d = set_findings (fun l => l ++ [row]) db1) Hrun eq_refl)). intros [] ? ->. apply yields_ret.
  split; [done |]. split; [done |]. exists (db_next db + 1)%N, [row]. split; [done |]. split; [lia |]. split; [done |]. by apply Forall_singleton.
Qed.

(** The findings [fs] are those of the conflicts of the tickers [ts]. *)
Definition conflicts_of (db : validity_db) (mine : gset uuid) (ts : list MarketTicker) (fs : list CreateFindingParams) : Prop :=
  exists fss, Forall2 (fun t gs => conflicts format_date uuid_string db t mine = Some gs) ts fss /\ fs = concat fss.

Lemma ticker_conflicts_ok run mine kinds t db : writable db -> validity_db_ok (db_validity db) ->
  exists fs, conflicts format_date uuid_string (db_validity db) t mine = Some fs /\ Forall (conflict_ok (db_validity db)) fs /\
    yields (ticker_conflicts format_date uuid_string run mine kinds t) db (fun kinds' db' =>
      kinds' = kinds ++ map fp_Kind fs /\ writable db' /\ findings_added run fs db db').
Proof.
  intros Hw Hv. destruct (conflicts_ok format_date uuid_string (db_validity db) Hv t mine) as (fs & Ef & Hfs). exists fs. split; [done |]. split; [done |].
  unfold ticker_conflicts. apply yields_get. apply (yields_some _ fs); [done |].
  eapply yields_impl; [apply (yields_fold _ (fun pre kinds' db' => kinds' = kinds ++ map fp_Kind pre /\ writable db' /\ findings_added run pre db db') fs []) |].
  - split; [by rewrite app_nil_r |]. split; [done | apply findings_added_refl].
  - intros pre p suf kinds1 db1 Heq (-> & Hw1 & Ha1). simpl in Heq. eapply yields_impl; [apply (conflict_finding_ok run _ p db1 Hw1) |].
    + rewrite (findings_added_validity _ _ _ _ Ha1). apply (proj1 (Forall_forall _ _) Hfs). rewrite Heq. apply elem_of_app. right. by left.
    + intros kinds2 db2 (-> & Hw2 & Ha2). split; [by rewrite map_app, app_assoc |]. split; [done | by eapply findings_added_trans].
  - done.
Qed.

Lemma all_conflicts_ok run mine ts db : writable db -> validity_db_ok (db_validity db) ->
  exists fs, conflicts_of (db_validity db) mine ts fs /\ Forall (conflict_ok (db_validity db)) fs /\
    yields (tx_fold (ticker_conflicts format_date uuid_string run mine) [] ts) db (fun kinds db' =>
      kinds = map fp_Kind fs /\ writable db' /\ findings_added run fs db db').
Proof.
  intros Hw Hv. induction ts as [|t ts IH] using rev_ind.
  - exists []. split; [by exists [] |]. split; [done |]. apply yields_ret. split; [done |]. split; [done | apply findings_added_refl].
  - destruct IH as (fs & (fss & Hfss & Ef) & Hfs & kinds & db1 & Hrun & -> & Hw1 & Ha1). pose proof (findings_added_validity _ _ _ _ Ha1) as Ev.
    destruct (ticker_conflicts_ok run mine (map fp_Kind fs) t db1 Hw1) as (gs & Eg & Hgs & Hy); [by rewrite Ev |]. rewrite Ev in Eg, Hgs.
    exists (fs ++ gs). split; [| split; [by apply Forall_app |]].
    + exists (fss ++ [gs]). split; [apply Forall2_app; [done | by constructor] |]. by rewrite Ef, concat_app, (concat_cons gs), app_nil_r.
    + destruct Hy as (kinds2 & db2 & Hrun2 & -> & Hw2 & Ha2). exists (map fp_Kind fs ++ map fp_Kind gs), db2. split.
      * rewrite tx_fold_app. rewrite (tx_bind_ok _ _ _ _ _ Hrun). simpl. by rewrite (tx_bind_ok _ _ _ _ _ Hrun2).
      * split; [by rewrite map_app |]. split; [done | by eapply findings_added_trans].
Qed.

End RecordConflicts.

(** * The tables as a whole *)

(** Every constraint of the schema holds, and every id is minted. *)
Record stored_ok (db : instr_db) : Prop := {
  so_writable : writable db;
  so_valid : validity_db_ok (db_validity db);
  so_tickers r : r ∈ vd_tickers (db_validity db) -> (tk_ID r < db_next db)%N;
}.

Lemma stored_undeferred db : stored_ok db -> stored_ok (set_deferred false db).
Proof. intros [H1 H2 H3]. split; [by apply writable_undeferred | done | done]. Qed.

Lemma ticker_rows_ok db : stored_ok db -> tickers_ok (ticker_rows db).
Proof. intros [_ [] ?]. by split. Qed.

Lemma Get_next db mics ts : (tt_next db <= tt_next (Get db mics ts).1)%N.
Proof.
  unfold Get. destruct (first_misspelled _ _); [simpl; lia |]. destruct (sorted ts); [simpl; lia |]. cbv zeta. destruct (find_func _ _); simpl; lia.
Qed.

(** More ticker rows. *)
Lemma with_ticker_rows_ok db t added : stored_ok db -> tickers_ok t -> tt_rows t = vd_tickers (db_validity db) ++ added -> (db_next db <= tt_next t)%N ->
  stored_ok (with_ticker_rows t db).
Proof.
  intros [[Hok Hl Hm] [V1 V2 V3 V4 V5 V6 V7 V8 V9] Ht] [T1 T2 T3] Hrows Hn.
  assert (vd_tickers (db_validity db) ⊆ tt_rows t) as Hsub by (rewrite Hrows; intros x Hx; apply elem_of_app; by left).
  assert (forall x, x ∈ map (fun t => (tk_ID t, tk_Market t)) (vd_tickers (db_validity db)) -> x ∈ map (fun t => (tk_ID t, tk_Market t)) (tt_rows t)) as Hin.
  { intros x (r & -> & Hr)%list_elem_of_fmap. apply list_elem_of_fmap. eauto. }
  split; [split; [| done |] | split; try done |].
  - destruct Hok. split; try done; simpl.
    + eapply Forall_impl; [eassumption |]. intros a (A1 & A2 & A3 & A4 & A5 & A6). repeat (split; [done |]). by apply Hin.
    + eapply Forall_impl; [eassumption |]. intros a (A1 & A2 & A3). repeat (split; [done |]). by apply Hin.
  - intros i Hi. pose proof (Hm i Hi). simpl. lia.
  - intros a Ha. destruct (V4 a Ha) as (r & ? & ?). exists r. split; [by apply Hsub | done].
  - intros a Ha. destruct (V6 a Ha) as (r & ? & ?). exists r. split; [by apply Hsub | done].
  - simpl. apply T3.
Qed.

(** The answers of facts fetches that may be recorded. *)
Record answered_facts (families : Families) (keys : list factKey) (db : instr_db) : Prop := {
  af_families : families_ok families db;
  af_ids : NoDup (map fk_ID keys);
  af_stored k : k ∈ keys -> is_Some (db_fetch db !! fk_ID k);
  af_fresh k a : k ∈ keys -> a ∈ vd_assertions (db_validity db) -> ia_FetchKeyID a <> Some (fk_ID k);
  af_answer k : k ∈ keys -> served k = true -> answer_ok (fk_Response k);
}.

(** The tickers the answers state. *)
Definition served_tickers (keys : list factKey) : list MarketTicker := concat (map (fun k => if served k then fact_Tickers (fk_Response k) else []) keys).

(** What recording the keys leaves: all of them, over the ticker rows created
    for them, or none where the system cannot spell a ticker. *)
Definition facts_outcome (mics : MICMap) (families : Families) (keys : list factKey) (db : instr_db) (recorded : bool) (db' : instr_db) : Prop :=
  if recorded
  then (forall t, t ∈ served_tickers keys -> Spelled mics t = Ok tt) /\
    exists t rows added, tt_rows t = vd_tickers (db_validity db) ++ added /\ dom rows = list_to_set (served_tickers keys) /\
      exists db1, rebuilt_facts families rows keys (set_deferred false (with_ticker_rows t db)) db1 /\ db' = set_deferred false db1
  else db' = db /\ (keys = [] \/ exists t e, t ∈ served_tickers keys /\ Spelled mics t = Err e).

Lemma with_ticker_rows_same db : with_ticker_rows (ticker_rows db) db = db.
Proof. destruct db as [? ? ? ? ? ? []]. done. Qed.

Lemma rebuilt_refs families rows keys db db' : rebuilt_facts families rows keys db db' -> refs_kept db db'.
Proof.
  intros [_ _ _ (db1 & Hrec & _ & validity & names & ->)]. destruct (fc_refs _ _ _ _ _ _ Hrec). by split.
Qed.

Lemma rebuilt_stored families rows keys db db' : stored_ok db -> rebuilt_facts families rows keys db db' -> stored_ok db'.
Proof.
  intros [_ _ Ht] Hr. split; [apply Hr | apply Hr |]. rewrite <- (kept_tickers _ _ (rebuilt_refs _ _ _ _ _ Hr)). intros r Hin.
  pose proof (Ht r Hin). pose proof (rb_next _ _ _ _ _ Hr). lia.
Qed.

Lemma recordFacts_ok mics families keys db : stored_ok db -> answered_facts families keys db ->
  exists recorded db', recordFacts mics families keys db = Ok (recorded, db') /\ stored_ok db' /\ facts_outcome mics families keys db recorded db'.
Proof.
  intros Hso [Hfam Hids Hst Hfresh Hans]. unfold recordFacts. destruct keys as [|k0 keys0] eqn:Ek.
  { exists false, db. split; [done |]. split; [done |]. split; [done | by left]. }
  rewrite <- Ek in *. clear Ek k0 keys0. unfold RecordTickers. fold (served_tickers keys).
  pose proof (Get_spec (ticker_rows db) mics (served_tickers keys) (ticker_rows_ok db Hso)) as Hget.
  pose proof (Get_next (ticker_rows db) mics (served_tickers keys)) as Hnext.
  destruct (Get (ticker_rows db) mics (served_tickers keys)) as [t [rows|[e|u]]]; [| | done].
  - destruct Hget as (Ht & Hsp & Hdom & Hrows & added & Hadd & _). simpl in Hnext.
    set (db1 := with_ticker_rows t db). assert (stored_ok (set_deferred false db1)) as Hso1 by by eapply stored_undeferred, with_ticker_rows_ok.
    assert (recordable_facts families rows keys (set_deferred false db1)) as Hrf.
    { split; try done. intros k u Hk Hs Hu. apply Hdom. apply elem_of_concat_map. exists k. split; [done |]. by rewrite Hs. }
    destruct (store_tx_yields (RecordFacts families rows keys) db1 (fun _ => rebuilt_facts families rows keys (set_deferred false db1))) as ([] & db2 & Hrun & Hr).
    { by eapply with_ticker_rows_ok. }
    { apply RecordFacts_ok; [apply Hso1 | apply Hso1 | done]. }
    { by intros ? ? []. }
    rewrite Hrun. exists true, (set_deferred false db2). split; [done |]. split; [by eapply stored_undeferred, rebuilt_stored |].
    split; [done |]. exists t, rows, added. split; [done |]. split; [| by exists db2].
    apply set_eq. intros u. rewrite elem_of_dom, elem_of_list_to_set. apply Hdom.
  - destruct Hget as [-> (u & Hu & He)]. rewrite with_ticker_rows_same. exists false, db. split; [done |]. split; [done |]. split; [done |].
    right. by exists u, e.
Qed.

(** * The facts each run wrote *)

Definition addTickers (mics : MICMap) (l : list (uuid * MarketTicker)) : writtenSet := foldl (fun w rt => addTicker w rt.1 rt.2) (newWritten mics) l.

(** The tickers of [run] among [l], each once. *)
Definition tickers_of_run (l : list (uuid * MarketTicker)) (run : uuid) : list MarketTicker :=
  foldl append_unique [] (map snd (List.filter (fun rt => bool_decide (rt.1 = run)) l)).

(** Each run once, in the order of the runs, with each of its tickers once. *)
Definition written_reference (l : list (uuid * MarketTicker)) : list WrittenIdentifierFacts :=
  map (fun run => MkWritten run (tickers_of_run l run)) (foldl append_unique [] (map fst l)).

Record written_inv (l : list (uuid * MarketTicker)) (w : writtenSet) : Prop := {
  wi_order : ws_order w = foldl append_unique [] (map fst l);
  wi_byRun run : ws_byRun w !! run = if decide (run ∈ ws_order w) then Some (MkWritten run (tickers_of_run l run)) else None;
  wi_seen run t : t ∈ default ∅ (ws_seen w !! run) <-> (run, t) ∈ l;
}.

Lemma elem_of_tickers_of_run l run t : t ∈ tickers_of_run l run <-> (run, t) ∈ l.
Proof.
  unfold tickers_of_run. rewrite elem_of_append_all, list_elem_of_fmap. split.
  - intros ([r u] & -> & [Hin He%bool_decide_eq_true]%elem_of_lfilter). simpl in *. by subst.
  - intros Hin. exists (run, t). split; [done |]. apply elem_of_lfilter. split; [done |]. by apply bool_decide_eq_true_2.
Qed.

Lemma tickers_of_run_snoc l run r t : tickers_of_run (l ++ [(run, t)]) r =
  if decide (r = run) then append_unique (tickers_of_run l r) t else tickers_of_run l r.
Proof.
  unfold tickers_of_run. rewrite List.filter_app. simpl. destruct (decide (r = run)) as [->|Hne].
  - rewrite bool_decide_eq_true_2 by done. rewrite map_app, foldl_app. done.
  - rewrite bool_decide_eq_false_2 by done. by rewrite app_nil_r.
Qed.

Lemma append_unique_in {A} `{EqDecision A} (l : list A) x : x ∈ l -> append_unique l x = l.
Proof. unfold append_unique. intros Hx. by rewrite (proj2 (contains_true _ _) Hx). Qed.

Lemma append_unique_new {A} `{EqDecision A} (l : list A) x : x ∉ l -> append_unique l x = l ++ [x].
Proof. unfold append_unique. intros Hx. by rewrite (proj2 (contains_false _ _) Hx). Qed.

Lemma addTicker_inv l w run t : written_inv l w -> written_inv (l ++ [(run, t)]) (addTicker w run t).
Proof.
  intros [Ho Hb Hs].
  assert (foldl append_unique [] (map fst (l ++ [(run, t)])) = append_unique (ws_order w) run) as Eo by (rewrite map_app, foldl_app; simpl; by rewrite <- Ho).
  assert (ws_byRun w !! run = None -> forall r u, (r, u) ∈ l -> r <> run) as Hnew.
  { intros Hn r u Hin ->. rewrite Hb, Ho in Hn. destruct (decide _) as [|Hni]; [done |]. apply Hni, elem_of_append_all.
    by apply (list_elem_of_fmap_2 fst l (run, u)). }
  set (w1 := match ws_byRun w !! run with
             | None => MkWrittenSet (ws_mics w) (ws_order w ++ [run]) (<[run := MkWritten run []]> (ws_byRun w)) (<[run := ∅]> (ws_seen w))
             | Some _ => w end).
  assert (ws_order w1 = append_unique (ws_order w) run /\
    (forall r, ws_byRun w1 !! r = if decide (r ∈ ws_order w1) then Some (MkWritten r (tickers_of_run l r)) else None) /\
    (forall r u, u ∈ default ∅ (ws_seen w1 !! r) <-> (r, u) ∈ l)) as (Ho1 & Hb1 & Hs1).
  { unfold w1. destruct (ws_byRun w !! run) as [f|] eqn:Er.
    - split; [| by split]. rewrite append_unique_in; [done |]. rewrite Hb in Er. by destruct (decide _).
    - assert (run ∉ ws_order w) as Hni by (rewrite Hb in Er; by destruct (decide _)). simpl. split; [by rewrite append_unique_new |]. split.
      + intros r. destruct (decide (r = run)) as [->|Hne].
        * rewrite lookup_insert_eq, decide_True by (apply elem_of_app; right; by left). do 2 f_equal. symmetry.
          destruct (tickers_of_run l run) as [|u us] eqn:Eu; [done |]. destruct (Hnew eq_refl run u); [| done]. apply elem_of_tickers_of_run. rewrite Eu. by left.
        * rewrite lookup_insert_ne by done. rewrite Hb. destruct (decide (r ∈ ws_order w)) as [Hin|Hin];
            [by rewrite decide_True by (apply elem_of_app; by left) |].
          rewrite decide_False; [done |]. by intros [?|?%list_elem_of_singleton]%elem_of_app.
      + intros r u. destruct (decide (r = run)) as [->|Hne]; [| by rewrite lookup_insert_ne].
        rewrite lookup_insert_eq. simpl. split; [by intros ?%elem_of_empty | intros Hin; by destruct (Hnew eq_refl run u)]. }
  unfold addTicker, ws_run. fold w1. case_bool_decide as Hseen.
  - apply Hs1 in Hseen as Hin. split; [by rewrite Eo | |].
    + intros r. rewrite Hb1. destruct (decide _); [| done]. rewrite tickers_of_run_snoc. destruct (decide (r = run)) as [->|]; [| done].
      rewrite append_unique_in; [done |]. by apply elem_of_tickers_of_run.
    + intros r u. rewrite Hs1, elem_of_app, list_elem_of_singleton. split; [by left | intros [?|[= -> ->]]; done].
  - assert (t ∉ tickers_of_run l run) as Hni by by rewrite elem_of_tickers_of_run, <- Hs1. split; simpl.
    + by rewrite Eo.
    + intros r. rewrite tickers_of_run_snoc. destruct (decide (r = run)) as [->|Hne].
      * rewrite lookup_alter_eq, Hb1. destruct (decide _); [| done]. simpl. by rewrite append_unique_new.
      * by rewrite lookup_alter_ne, Hb1 by done.
    + intros r u. rewrite elem_of_app, list_elem_of_singleton. destruct (decide (r = run)) as [->|Hne].
      * rewrite lookup_insert_eq. simpl. rewrite elem_of_union, elem_of_singleton, Hs1. naive_solver.
      * rewrite lookup_insert_ne by done. rewrite Hs1. naive_solver.
Qed.

Lemma addTickers_inv mics l : written_inv l (addTickers mics l).
Proof.
  induction l as [|[run t] l IH] using rev_ind.
  - split; [done | intros run; by rewrite decide_False by by intros ?%elem_of_nil |]. intros run t. simpl. rewrite lookup_empty. simpl. set_solver.
  - unfold addTickers. rewrite foldl_app. simpl. by apply addTicker_inv.
Qed.

Lemma written_list l w : written_inv l w -> ws_list w = written_reference l.
Proof.
  intros [Ho Hb _]. unfold ws_list, written_reference. rewrite <- Ho.
  assert (forall rs, rs ⊆ ws_order w -> omap (fun run => ws_byRun w !! run) rs = map (fun run => MkWritten run (tickers_of_run l run)) rs) as H.
  { induction rs as [|r rs IH]; intros Hin; [done |]. csimpl. rewrite Hb, decide_True by (apply Hin; by left). f_equal. apply IH. set_solver. }
  by apply H.
Qed.

Lemma elem_of_ws_tickers l w t : written_inv l w -> t ∈ ws_tickers w <-> exists run, (run, t) ∈ l.
Proof.
  intros Hi. unfold ws_tickers. rewrite elem_of_append_all, (written_list l w Hi), elem_of_concat_map. unfold written_reference. split.
  - intros (f & (run & -> & _)%list_elem_of_fmap & Ht). exists run. by apply elem_of_tickers_of_run.
  - intros [run Hin]. exists (MkWritten run (tickers_of_run l run)). split; [| by apply elem_of_tickers_of_run]. apply list_elem_of_fmap.
    exists run. split; [done |]. apply elem_of_append_all. by apply (list_elem_of_fmap_2 fst l (run, t)).
Qed.

(** A loop whose turns are each a loop of additions is one loop of them. *)
Lemma foldl_flat {A B S} (I : S -> Prop) (step : S -> A -> S) (add : S -> B -> S) (g : A -> list B) :
  (forall s b, I s -> I (add s b)) -> (forall s a, I s -> step s a = foldl add s (g a)) ->
  forall l s, I s -> foldl step s l = foldl add s (concat (map g l)) /\ I (foldl add s (concat (map g l))).
Proof.
  intros Hadd Hstep. induction l as [|a l IH]; intros s Hs; [done |]. simpl. rewrite foldl_app, (Hstep s a Hs).
  apply IH. clear -Hadd Hs. revert s Hs. induction (g a) as [|b bs IHb]; intros s Hs; [done |]. simpl. by apply IHb, Hadd.
Qed.

Lemma foldl_over {A B S} (add : S -> B -> S) (g : A -> B) l s : foldl (fun s a => add s (g a)) s l = foldl add s (map g l).
Proof. revert s. induction l as [|a l IH]; intros s; [done |]. apply IH. Qed.

Definition add_pair (w : writtenSet) (rt : uuid * MarketTicker) : writtenSet := addTicker w rt.1 rt.2.

Lemma add_pair_mics w rt : ws_mics (add_pair w rt) = ws_mics w.
Proof. unfold add_pair, addTicker, ws_run. destruct (ws_byRun w !! rt.1); case_bool_decide; done. Qed.

Section Written.
Context (mics : MICMap) (entries : list Entry).

Definition written_pair (e : Entry) (f : fetchKey * Identifier) : list (uuid * MarketTicker) :=
  if bool_decide (fk_Source f.1 = en_Name e)
  then match mics_MarketTicker mics f.2 with Some t => [(fk_Run f.1, t)] | None => [] end else [].

Definition fact_pairs (k : factKey) : list (uuid * MarketTicker) :=
  if served k then map (fun t => (fk_Run k, t)) (fact_Tickers (fk_Response k)) else [].

(** The tickers of the facts a batch wrote, each with its run: the identity
    fetches of each datasource, in precedence order, and the facts fetches. *)
Definition written_pairs (b : batch) (recorded : bool) : list (uuid * MarketTicker) :=
  concat (map (fun e => concat (map (fun res => concat (map (written_pair e) (rs_written res))) (bt_resolutions b))) entries) ++
  if recorded then concat (map fact_pairs (bt_facts b)) else [].

Abbreviation I := (fun w : writtenSet => ws_mics w = mics) (only parsing).

Lemma written_facts_pairs b recorded : written_facts mics entries b recorded = addTickers mics (written_pairs b recorded).
Proof.
  assert (forall w rt, I w -> I (add_pair w rt)) as Hadd by (intros w rt Hw; by rewrite add_pair_mics).
  assert (forall e w f, I w -> written_step e w f = foldl add_pair w (written_pair e f)) as H1.
  { intros e w f Hw. unfold written_step, written_pair, ws_add. rewrite Hw. case_bool_decide; [| done]. by destruct (mics_MarketTicker mics f.2). }
  assert (forall w k, I w -> add_served w k = foldl add_pair w (fact_pairs k)) as H2.
  { intros w k _. unfold add_served, fact_pairs, addFacts. destruct (served k); [| done]. by rewrite <- (foldl_over add_pair (fun t => (fk_Run k, t))). }
  unfold written_facts, addTickers, written_pairs. rewrite foldl_app. change (fun w rt => addTicker w rt.1 rt.2) with add_pair.
  destruct (foldl_flat I (fun w e => foldl (fun w res => foldl (written_step e) w (rs_written res)) w (bt_resolutions b)) add_pair
    (fun e => concat (map (fun res => concat (map (written_pair e) (rs_written res))) (bt_resolutions b))) Hadd) with (l := entries) (s := newWritten mics) as [-> Hi]; [| done |].
  { intros w e Hw. eapply (foldl_flat I); [exact Hadd | | exact Hw]. intros w' res Hw'. by eapply (foldl_flat I); [exact Hadd | apply H1 |]. }
  destruct recorded; [| done]. by apply (foldl_flat I _ _ _ Hadd H2).
Qed.

End Written.

(** * The conflicts a batch completes *)

(** What a diagnosis holds against the fetch keys [mine]: a disagreement one of
    them answered, by the key that lost; a bracket that an edge of one of them
    breaks, by that key; and an event that one of them missed or implies, by the
    key of the coverage that should have it. *)
Inductive completes (mine : gset uuid) (d : Diagnosis) : FindingKind -> uuid -> Prop :=
| completes_disagreement g : g ∈ dx_Disagreements d ->
    src_Answer (as_Source (dg_Winner g)) ∈ mine \/ src_Answer (as_Source (dg_Loser g)) ∈ mine ->
    completes mine d FindingKindIdentifierDisagreement (src_Answer (as_Source (dg_Loser g)))
| completes_broken b : b ∈ dx_Broken d -> src_Answer (as_Source (e_Assertion (bb_Edge b))) ∈ mine ->
    completes mine d FindingKindBrokenTickerValidityBracket (src_Answer (as_Source (e_Assertion (bb_Edge b))))
| completes_missed m : m ∈ dx_Missed d ->
    src_Answer (ac_Source (me_By m)) ∈ mine \/ src_Answer (as_Source (inf_Earlier (me_Inferred m))) ∈ mine \/
      src_Answer (as_Source (inf_Later (me_Inferred m))) ∈ mine ->
    completes mine d FindingKindMissedEvent (src_Answer (ac_Source (me_By m))).

(** The findings [fs] name each conflict of the tickers [ts] by its kind and its
    key, and nothing else. *)
Definition reported (db : validity_db) (mine : gset uuid) (ts : list MarketTicker) (fs : list CreateFindingParams) : Prop :=
  forall kind key, (exists p, p ∈ fs /\ fp_Kind p = kind /\ fp_FetchKeyID p = Some key) <->
    exists t d, t ∈ ts /\ Diagnose db t = Some d /\ completes mine d kind key.

Section Reported.
Context (format_date : time -> string) (uuid_string : uuid -> string).

Lemma elem_of_findings t mine d p :
  p ∈ concat (map (disagreement_finding format_date uuid_string t mine) (dx_Disagreements d)) ++
      concat (map (broken_finding format_date uuid_string t mine) (dx_Broken d)) ++ concat (map (missed_finding format_date t mine) (dx_Missed d)) ->
  exists kind key, fp_Kind p = kind /\ fp_FetchKeyID p = Some key /\ completes mine d kind key.
Proof.
  intros [(x & Hx & Hp)%elem_of_concat_map|[(x & Hx & Hp)%elem_of_concat_map|(x & Hx & Hp)%elem_of_concat_map]%elem_of_app]%elem_of_app;
    unfold disagreement_finding, broken_finding, missed_finding in Hp; repeat case_bool_decide; simpl in Hp; try (by apply elem_of_nil in Hp);
    apply list_elem_of_singleton in Hp as ->; simpl; do 2 eexists; (split; [reflexivity |]); (split; [reflexivity |]); econstructor; tauto.
Qed.

Lemma completes_findings t mine d kind key : completes mine d kind key ->
  exists p, p ∈ concat (map (disagreement_finding format_date uuid_string t mine) (dx_Disagreements d)) ++
      concat (map (broken_finding format_date uuid_string t mine) (dx_Broken d)) ++ concat (map (missed_finding format_date t mine) (dx_Missed d)) /\
    fp_Kind p = kind /\ fp_FetchKeyID p = Some key.
Proof.
  intros [g Hg Hm|b Hb Hm|m Hin Hm]; eexists; (split; [apply elem_of_app | try by split]).
  1: left. 3: right; apply elem_of_app; left. 5: right; apply elem_of_app; right.
  1, 3, 5: apply elem_of_concat_map; eexists; (split; [done |]); unfold disagreement_finding, broken_finding, missed_finding;
    repeat case_bool_decide; try tauto; by left.
  all: by split.
Qed.

Lemma conflicts_reported db mine ts fs : conflicts_of format_date uuid_string db mine ts fs -> reported db mine ts fs.
Proof.
  intros (fss & Hall & ->) kind key. split.
  - rewrite <- (map_id fss). intros (p & (gs & Hgs & Hp)%elem_of_concat_map & <- & Ek). apply list_elem_of_lookup in Hgs as [i Hi].
    destruct (Forall2_lookup_r _ _ _ _ _ Hall Hi) as (t & Ht & Ec). unfold conflicts in Ec. destruct (Diagnose db t) as [d|] eqn:Ed; [| done].
    injection Ec as <-. destruct (elem_of_findings t mine d p Hp) as (kind & key' & <- & Ek' & Hc). rewrite Ek in Ek'. injection Ek' as <-.
    exists t, d. split; [by eapply list_elem_of_lookup_2 |]. by split.
  - intros (t & d & [i Ht]%list_elem_of_lookup & Ed & Hc). destruct (Forall2_lookup_l _ _ _ _ _ Hall Ht) as (gs & Hgs & Ec).
    unfold conflicts in Ec. rewrite Ed in Ec. injection Ec as <-. destruct (completes_findings t mine d kind key Hc) as (p & Hp & Hk).
    exists p. split; [| done]. rewrite <- (map_id fss). apply elem_of_concat_map. eexists. split; [by eapply list_elem_of_lookup_2 | done].
Qed.

(** The tables after the conflicts of a batch are written: the tables before, and
    the findings [fs] of the run. *)
Definition conflicts_recorded (run : uuid) (mine : gset uuid) (ts : list MarketTicker) (db : instr_db) (kinds : list FindingKind) (db' : instr_db) : Prop :=
  exists fs, kinds = map fp_Kind fs /\ reported (db_validity db) mine ts fs /\ Forall (conflict_ok (db_validity db)) fs /\
    findings_added run fs (set_deferred false db) db'.

Lemma findings_added_undeferred run fs db db' : findings_added run fs (set_deferred false db) db' -> set_deferred false db' = db'.
Proof. by intros (n & rows & -> & _). Qed.

Lemma recordConflicts_ok run w mine db : writable db -> validity_db_ok (db_validity db) ->
  exists kinds db', recordConflicts format_date uuid_string run w mine db = Ok (kinds, db') /\ writable db' /\
    conflicts_recorded run mine (ws_tickers w) db kinds db'.
Proof.
  intros Hw Hv. destruct (all_conflicts_ok format_date uuid_string run mine (ws_tickers w) (set_deferred false db)) as (fs & Hc & Hok & Hy);
    [by apply writable_undeferred | done |].
  destruct (store_tx_yields _ _ _ Hw Hy) as (kinds & db' & Hrun & -> & Hw' & Ha); [by intros ? ? (_ & ? & _) |].
  exists (map fp_Kind fs), db'. rewrite <- (findings_added_undeferred _ _ _ _ Ha) at 1. split; [done |]. split; [done |].
  exists fs. split; [done |]. split; [by apply conflicts_reported |]. by split.
Qed.

Lemma findings_added_stored run fs db db' : stored_ok db -> findings_added run fs db db' -> writable db' -> stored_ok db'.
Proof.
  intros [_ Hv Ht] (n & rows & -> & Hn & _) Hw. split; [done | done |]. simpl. intros r Hr. specialize (Ht r Hr). lia.
Qed.

(** The fetch keys of a batch. *)
Definition batch_keys (b : batch) : gset uuid :=
  list_to_set (concat (map (fun res => map fk_ID (rs_fetchKeys res)) (bt_resolutions b)) ++ map fk_ID (bt_facts b)).

Lemma conflicts_recorded_same run mine ts ts' db kinds db' : (forall t, t ∈ ts <-> t ∈ ts') ->
  conflicts_recorded run mine ts db kinds db' -> conflicts_recorded run mine ts' db kinds db'.
Proof.
  intros Ht (fs & Hk & Hr & H). exists fs. split; [done |]. split; [| done]. intros kind key. rewrite (Hr kind key).
  split; intros (t & d & Hin & Hd); exists t, d; (split; [by apply Ht | done]).
Qed.

Lemma written_tickers mics entries b recorded t :
  t ∈ ws_tickers (written_facts mics entries b recorded) <-> t ∈ map snd (written_pairs mics entries b recorded).
Proof.
  rewrite written_facts_pairs, (elem_of_ws_tickers _ _ _ (addTickers_inv _ _)), list_elem_of_fmap. split.
  - intros [run H]. by exists (run, t).
  - intros ([run u] & -> & H). by exists run.
Qed.

Lemma recordIdentifierFacts_ok mics families entries run b db : stored_ok db -> answered_facts families (bt_facts b) db ->
  exists recorded db1 db', let pairs := written_pairs mics entries b recorded in
    recordIdentifierFacts mics families entries format_date uuid_string run b db = Ok (written_reference pairs, db') /\ stored_ok db' /\
    facts_outcome mics families (bt_facts b) db recorded db1 /\
    if bool_decide (pairs = []) then db' = db1
    else exists kinds, conflicts_recorded run (batch_keys b) (map snd pairs) db1 kinds db'.
Proof.
  intros Hso Hans. destruct (recordFacts_ok mics families (bt_facts b) db Hso Hans) as (recorded & db1 & Hrun & Hso1 & Hout).
  unfold recordIdentifierFacts. rewrite Hrun. simpl. pose proof (written_facts_pairs mics entries b recorded) as Ew.
  pose proof (addTickers_inv mics (written_pairs mics entries b recorded)) as Hi. rewrite <- Ew in Hi.
  exists recorded, db1. cbv zeta. rewrite <- (written_list _ _ Hi). case_bool_decide as Hp.
  - exists db1. rewrite (wi_order _ _ Hi), Hp. simpl. split; [| done]. unfold ws_list. by rewrite (wi_order _ _ Hi), Hp.
  - assert (ws_order (written_facts mics entries b recorded) <> []) as Hne.
    { rewrite (wi_order _ _ Hi). destruct (written_pairs _ _ _ _) as [|rt l]; [done |]. intros E. eapply (not_elem_of_nil (A := uuid)).
      rewrite <- E. apply elem_of_append_all. by left. }
    destruct (recordConflicts_ok run (written_facts mics entries b recorded) (batch_keys b) db1) as (kinds & db' & Hc & Hw & Hcr); [apply Hso1 | apply Hso1 |].
    unfold batch_keys in Hc. exists db'. destruct (ws_order _) as [|r rs]; [done |]. rewrite Hc. split; [done |]. split.
    + destruct Hcr as (fs & _ & _ & _ & Ha). eapply findings_added_stored; [by apply stored_undeferred, Hso1 | exact Ha | done].
    + split; [done |]. exists kinds. eapply conflicts_recorded_same; [| exact Hcr]. apply written_tickers.
Qed.

(** C21: recording what a batch's fetches served always ends without an error,
    over tables whose constraints hold and answers the fetches may leave: the
    facts are recorded together, or, where the system cannot spell one of their
    tickers, left out together; each run that wrote a fact is returned once, in
    the order the runs first wrote one, with each ticker it wrote of once; and
    the conflicts that a fetch key of the batch completes, over the tables as
    the recording leaves them, are the findings added. *)
Theorem recordIdentifierFacts_spec mics families entries run b db : stored_ok db -> answered_facts families (bt_facts b) db ->
  exists recorded db1 db', let pairs := written_pairs mics entries b recorded in
    recordIdentifierFacts mics families entries format_date uuid_string run b db = Ok (written_reference pairs, db') /\ stored_ok db' /\
    facts_outcome mics families (bt_facts b) db recorded db1 /\
    if bool_decide (pairs = []) then db' = db1
    else exists kinds, conflicts_recorded run (batch_keys b) (map snd pairs) db1 kinds db'.
Proof. apply recordIdentifierFacts_ok. Qed.

End Reported.

(** * What the datasources are asked *)

Lemma find_func_head {A B} (f : A -> option B) l : head (omap f l) = None \/
  exists pre x y suf, l = pre ++ x :: suf /\ f x = Some y /\ head (omap f l) = Some y /\ forall z, z ∈ pre -> f z = None.
Proof.
  induction l as [|x l IH]; [by left |]. csimpl. destruct (f x) as [y|] eqn:E; simpl.
  - right. exists [], x, y, l. split; [done |]. split; [done |]. split; [done |]. by intros z ?%elem_of_nil.
  - destruct IH as [->|(pre & z & y & suf & -> & Hz & -> & Hpre)]; [by left | right]. exists (x :: pre), z, y, suf.
    split; [done |]. split; [done |]. split; [done |]. intros u [->|Hu]%elem_of_cons; [done | by apply Hpre].
Qed.

Lemma eventSources_lookup db m : eventSources db !! m = vd_event_sources db !! m.
Proof.
  unfold eventSources, ListIdentifierEventSources.
  assert (forall ks, foldl (fun (out : gmap string string) row => <[row.1 := row.2]> out) ∅ (omap (fun m => (fun s => (m, s)) <$> vd_event_sources db !! m) ks) !! m =
    if decide (m ∈ ks) then vd_event_sources db !! m else None) as H.
  { induction ks as [|k ks IH] using rev_ind; [by rewrite decide_False by by intros ?%elem_of_nil |].
    rewrite omap_app, foldl_app. csimpl. destruct (decide (k = m)) as [->|Hne].
    - rewrite (decide_True (P := m ∈ ks ++ [m])) by (apply elem_of_app; right; by left).
      destruct (vd_event_sources db !! m) as [s|] eqn:E; simpl; [by rewrite lookup_insert_eq |]. rewrite IH. by destruct (decide _).
    - assert (m ∈ ks ++ [k] <-> m ∈ ks) as Hiff by (rewrite elem_of_app, list_elem_of_singleton; naive_solver).
      rewrite (decide_ext _ _ _ _ Hiff). destruct (vd_event_sources db !! k); simpl; [by rewrite lookup_insert_ne | done]. }
  rewrite H. destruct (decide _) as [|Hn]; [done |]. rewrite elem_of_sorted_keys in Hn. destruct (vd_event_sources db !! m); [by destruct Hn | done].
Qed.

Lemma TickerAssertedOn_spec db t day : TickerAssertedOn db t day = true <->
  exists a r, a ∈ vd_assertions db /\ r ∈ vd_tickers db /\ ia_TickerID a = tk_ID r /\ ticker_of r = t /\ ia_AssertedFrom a <= Day day < ia_AssertedBefore a.
Proof.
  unfold TickerAssertedOn. rewrite existsb_elem. split.
  - intros (a & Ha & [[H1%negb_true_iff%Z.ltb_ge H2%Z.ltb_lt]%andb_true_iff (r & Hr & [H3%bool_decide_eq_true H4%bool_decide_eq_true]%andb_true_iff)%existsb_elem]%andb_true_iff).
    exists a, r. repeat (split; [done |]). done.
  - intros (a & r & Ha & Hr & Hi & Ht & H1 & H2). exists a. split; [done |]. apply andb_true_iff. split.
    + apply andb_true_iff. split; [by apply negb_true_iff, Z.ltb_ge | by apply Z.ltb_lt].
    + apply existsb_elem. exists r. split; [done |]. apply andb_true_iff. split; by apply bool_decide_eq_true_2.
Qed.

Section Requests.
Context (db : validity_db) (now : time) (e : Entry) (server : Server IdentifierFactRequest) (w : time -> time).

(** The lookup of a key that may be dated: its ticker on one whole past day
    within the window, at or after the first of its dates that no confirmed
    interval holds, where the ticker has no assertion of that day. *)
Inductive lookup_for (res : resolution) (d : dating) : IdentifierFactRequest -> Prop :=
| lookup_first via first : rs_via res = Some via ->
    first ∈ rs_dates res -> (forall i, ~ Derive.names (dt_ivs d) first i Confirmed) ->
    (forall date, date ∈ rs_dates res -> (forall i, ~ Derive.names (dt_ivs d) date i Confirmed) -> first <= date) ->
    Day (Z.max first (w now)) < Day now ->
    ~ (exists a r, a ∈ vd_assertions db /\ r ∈ vd_tickers db /\ ia_TickerID a = tk_ID r /\ ticker_of r = dt_ticker d /\
         ia_AssertedFrom a <= Day (Z.max first (w now)) < ia_AssertedBefore a) ->
    lookup_for res d (MkFactRequest via (OneDay (Day (Z.max first (w now))))).

(** The history of a key's ticker, of the identifier event source of its market:
    of the instrument the identity fetch chose, by the first of its stable
    identifiers that the entry serves. *)
Inductive history_for (res : resolution) (d : dating) : IdentifierFactRequest -> Prop :=
| history_first v winner pre id suf sent : vd_event_sources db !! mt_Market (dt_ticker d) = Some (en_Name e) ->
    first_verdict res [] = Some v -> vd_winner v = Some winner ->
    AllIDs (cl_Instr winner) = pre ++ id :: suf -> Stable id = true -> sr_Serves server (MkFactRequest id (History w now)) = Ok sent ->
    (forall x, x ∈ pre -> Stable x = true -> exists err, sr_Serves server (MkFactRequest x (History w now)) = Err err) ->
    history_for res d (MkFactRequest id (History w now)).

(** What an entry that serves identifier facts is asked. *)
Definition asked_for (rs : list resolution) (q : IdentifierFactRequest) : Prop :=
  exists res d, res ∈ rs /\ rs_dating res = Some d /\ (lookup_for res d q \/ history_for res d q).

(** What dating leaves of a key. *)
Definition dated_ok (res : resolution) : Prop := forall d, rs_dating res = Some d -> is_Some (rs_via res) /\ intervals_ok (dt_ivs d).

Lemma later_max a b : later a b = Z.max a b.
Proof. unfold later. destruct (Z.ltb_spec a b); lia. Qed.

Lemma asked_snoc rs res q : asked_for (rs ++ [res]) q <-> asked_for rs q \/ exists d, rs_dating res = Some d /\ (lookup_for res d q \/ history_for res d q).
Proof.
  split.
  - intros (r & d & [Hr| ->%list_elem_of_singleton]%elem_of_app & H); [left; by exists r, d | right; by exists d].
  - intros [(r & d & Hr & H)|(d & H)]; [exists r, d | exists res, d]; (split; [apply elem_of_app | done]); [by left | right; by left].
Qed.

(** A key none of whose fetches was made chooses nothing. *)
Lemma unfetched_winner res v : rs_fetchKeys res = [] -> first_verdict res [] = Some v -> vd_winner v = None.
Proof.
  intros Hf Hv. destruct (choose_run res None) as (v' & E & _ & Hw & Hc & _). unfold first_verdict in Hv. rewrite Hv in E. injection E as <-.
  rewrite Hw. simpl. destruct (vd_attached v) as [|c cs]; [done |]. destruct (Hc c) as (fk & _ & Hfk & _); [by left |]. rewrite Hf in Hfk. by apply elem_of_nil in Hfk.
Qed.

Lemma chainRequest_ok res d : vd_event_sources db !! mt_Market (dt_ticker d) = Some (en_Name e) ->
  exists r, chainRequest res server (History w now) = Some r /\ forall q, r = Some q <-> history_for res d q.
Proof.
  intros Hs. unfold chainRequest. destruct (choose_run res None) as (v & Ev & _). change (first_verdict res [] = Some v) in Ev.
  destruct (rs_fetchKeys res) as [|fk fks] eqn:Ef.
  { exists None. split; [done |]. intros q. split; [done |]. intros [v' winner ? ? ? ? _ Hv Hw]. by rewrite (unfetched_winner res v' Ef Hv) in Hw. }
  rewrite Ev. simpl. eexists. split; [reflexivity |]. intros q. destruct (vd_winner v) as [winner|] eqn:Ew; simpl.
  2: { split; [done |]. intros [v' winner ? ? ? ? _ Hv Hw]. congruence. }
  set (f := fun id => if negb (Stable id) then None else _). split.
  - destruct (find_func_head f (AllIDs (cl_Instr winner))) as [->|(pre & x & r & suf & Hl & Hx & -> & Hpre)]; [done |]. intros [= ->].
    unfold f in Hx. destruct (Stable x) eqn:Hst; [| done]. simpl in Hx. destruct (sr_Serves server _) as [sent|] eqn:Hsv; [| done]. injection Hx as <-.
    eapply history_first; [done .. |]. intros y Hy Hsy. specialize (Hpre y Hy). unfold f in Hpre.
    rewrite Hsy in Hpre. simpl in Hpre. destruct (sr_Serves server (MkFactRequest y _)) as [|err]; [done | by exists err].
  - intros [v' winner' pre id suf sent _ Hv Hw Hl Hst Hsv Hpre]. rewrite Ev in Hv. injection Hv as <-. rewrite Ew in Hw. injection Hw as <-. rewrite Hl, omap_app.
    assert (omap f pre = []) as ->.
    { clear Hl. induction pre as [|x pre IH]; [done |]. csimpl. rewrite IH by (intros; apply Hpre; [by right | done]).
      unfold f. destruct (Stable x) eqn:Hx; [| done]. simpl. destruct (Hpre x) as [err ->]; [by left | done |]. done. }
    csimpl. unfold f. rewrite Hst. simpl. by rewrite Hsv.
Qed.

(** No other source is asked the history. *)
Lemma chain_step res d : en_Name e <> ""%string ->
  exists r, (if bool_decide (default ""%string (eventSources db !! mt_Market (dt_ticker d)) = en_Name e)
             then chainRequest res server (History w now) else Some None) = Some r /\ forall q, r = Some q <-> history_for res d q.
Proof.
  intros Hne. rewrite eventSources_lookup. case_bool_decide as Hs.
  - apply chainRequest_ok. destruct (vd_event_sources db !! _) as [s|]; simpl in Hs; congruence.
  - exists None. split; [done |]. intros q. split; [done |]. intros [? ? ? ? ? ? E]. by rewrite E in Hs.
Qed.

Lemma lookup_step res d via first q : intervals_ok (dt_ivs d) -> rs_via res = Some via -> FirstUnconfirmed (dt_ivs d) (rs_dates res) = Some first ->
  lookup_for res d q <-> (negb (LookupDay first w now <? Day now) || TickerAssertedOn db (dt_ticker d) (LookupDay first w now)) = false /\
    q = MkFactRequest via (OneDay (LookupDay first w now)).
Proof.
  intros Hok Hv Hf. pose proof (FirstUnconfirmed_spec (dt_ivs d) (rs_dates res) Hok) as Hs. rewrite Hf in Hs. destruct Hs as (H1 & H2 & H3).
  unfold LookupDay. rewrite later_max, orb_false_iff, negb_false_iff, Z.ltb_lt, <- not_true_iff_false, TickerAssertedOn_spec, Day_idemp. split.
  - intros [via' first' Hv' H1' H2' H3' H4 H5]. rewrite Hv in Hv'. injection Hv' as <-.
    assert (first' = first) as -> by (pose proof (H3 first' H1' H2'); pose proof (H3' first H1 H2); lia). done.
  - intros [[H4 H5] ->]. by apply lookup_first.
Qed.

Lemma facts_step_ok reqs res : en_Name e <> ""%string -> dated_ok res ->
  exists reqs', facts_step db (eventSources db) now e server w reqs res = Some reqs' /\ (NoDup reqs -> NoDup reqs') /\
    forall q, q ∈ reqs' <-> q ∈ reqs \/ exists d, rs_dating res = Some d /\ (lookup_for res d q \/ history_for res d q).
Proof.
  intros Hne Hok. unfold facts_step. destruct (rs_dating res) as [d|] eqn:Ed; [| exists reqs; naive_solver].
  destruct (Hok d Ed) as [[via Hv] Hiv]. destruct (chain_step res d Hne) as (r & -> & Hr). cbn [mbind option_bind].
  set (reqs1 := match r with Some q => append_unique reqs q | None => reqs end).
  assert ((NoDup reqs -> NoDup reqs1) /\ forall q, q ∈ reqs1 <-> q ∈ reqs \/ history_for res d q) as [Hnd H1].
  { unfold reqs1. destruct r as [q0|]; [split; [apply append_unique_NoDup |] | split; [done |]]; intros q; rewrite <- Hr;
      [rewrite elem_of_append_unique |]; naive_solver. }
  destruct (FirstUnconfirmed (dt_ivs d) (rs_dates res)) as [first|] eqn:Ef.
  - pose proof (fun q => lookup_step res d via first q Hiv Hv Ef) as Hl. destruct (_ || _).
    + exists reqs1. split; [done |]. split; [done |]. intros q. rewrite H1. specialize (Hl q). naive_solver.
    + rewrite Hv. cbn [mbind option_bind]. eexists. split; [reflexivity |]. split; [intros H; by apply append_unique_NoDup, Hnd |].
      intros q. rewrite elem_of_append_unique, H1. specialize (Hl q). naive_solver.
  - exists reqs1. split; [done |]. split; [done |]. intros q. rewrite H1. split; [naive_solver |]. intros [?|(d' & [= <-] & [Hq|?])]; [by left | | by right].
    exfalso. destruct Hq as [via' first _ Hin Hn _ _ _]. pose proof (FirstUnconfirmed_spec (dt_ivs d) (rs_dates res) Hiv) as Hs. rewrite Ef in Hs.
    destruct (Hs first Hin) as [i Hi]. by apply (Hn i).
Qed.

End Requests.

Lemma facts_requests_ok db now rs e : en_Name e <> ""%string -> Forall dated_ok rs ->
  exists reqs, facts_requests db now rs e = Some reqs /\ NoDup reqs /\
    forall q, q ∈ reqs <-> exists server w, en_Facts e = Some server /\ en_Window e = Some w /\ asked_for db now e server w rs q.
Proof.
  intros Hne Hok. unfold facts_requests. destruct (en_Facts e) as [server|].
  2: { exists []. split; [done |]. split; [constructor |]. intros q. split; [by intros ?%elem_of_nil | naive_solver]. }
  destruct (en_Window e) as [w|].
  2: { exists []. split; [done |]. split; [constructor |]. intros q. split; [by intros ?%elem_of_nil | naive_solver]. }
  destruct (opt_fold_inv (fun done reqs => NoDup reqs /\ forall q, q ∈ reqs <-> asked_for db now e server w done q)
    (facts_step db (eventSources db) now e server w) [] rs) as (reqs & Hrun & Hnd & Hq).
  - split; [constructor |]. intros q. split; [by intros ?%elem_of_nil | by intros (? & ? & ?%elem_of_nil & _)].
  - intros done reqs res _ Hin [Hnd Hq]. destruct (facts_step_ok db now e server w reqs res Hne) as (reqs' & Hrun & Hnd' & Hq').
    { by apply (proj1 (Forall_forall _ _) Hok). }
    exists reqs'. split; [exact Hrun |]. split; [by apply Hnd' |]. intros q. rewrite Hq', asked_snoc, Hq. done.
  - exists reqs. split; [done |]. split; [done |]. intros q. rewrite Hq. naive_solver.
Qed.

(** An entry that serves identifier facts and has a window is asked, each
    once, exactly for the lookups of the keys that may be dated, and for the
    histories it is the event source of: so a lookup is of one whole day before
    today that the window reaches, for a date no confirmed validity holds, and
    never of a day the ticker has an assertion of; and an entry that does not is
    asked nothing. It always ends without an error. *)
Theorem facts_requests_spec db now rs e : en_Name e <> ""%string -> Forall dated_ok rs ->
  exists reqs, facts_requests db now rs e = Some reqs /\ NoDup reqs /\
    forall q, q ∈ reqs <-> exists server w, en_Facts e = Some server /\ en_Window e = Some w /\ asked_for db now e server w rs q.
Proof. apply facts_requests_ok. Qed.

(** * The keys of the facts fetches *)

Lemma fetched_stored {Q P} source (reqs : list Q) db (keys : list (FetchKey Q P)) db' : stored_ok db -> fetched source reqs db keys db' -> stored_ok db'.
Proof.
  intros [[Hok Hl Hm] Hv Ht] [_ _ _ _ Hn (m & ks & -> & _ & Hu & _ & Ha)].
  assert (refs_kept db (fetch_rows m ks (db_next db') db)) as Hk.
  { split; try done. simpl. intros k [x Hx]. destruct (m !! k) as [y|] eqn:E; [exists y; by apply lookup_union_Some_l | exists x; by rewrite lookup_union_r]. }
  split; [split; [| done |] | |].
  - apply (tables_ok_kept db _ Hok Hk); try (by destruct Hok).
    { eapply Forall_impl; [apply Hok |]. intros r. unfold instr_ok, fetched_by. destruct (in_FetchKeyID r); [apply Hk | done]. }
    intros k f [H|[_ H]]%lookup_union_Some_raw; [| by apply (map_Forall_lookup_1 _ _ k f (ok_fetch _ Hok))].
    apply (map_Forall_lookup_1 _ _ k f Hu) in H as Hu'. simpl in Hu'. by rewrite Hu'.
  - intros i Hi. simpl. pose proof (Hm i Hi). lia.
  - destruct Hv. split; try done. intros i k [H|[_ H]]%lookup_union_Some_raw; [by apply (map_Forall_lookup_1 _ _ i k Ha) | by eapply vo_asked].
  - simpl. intros r Hr. pose proof (Ht r Hr). lia.
Qed.

(** The keys of several fetches, over the tables [db] before the first. *)
Record all_fetched {Q P : Type} (good : FetchKey Q P -> Prop) (db : instr_db) (keys : list (FetchKey Q P)) (db' : instr_db) : Prop := {
  al_stored : stored_ok db';
  al_ids : NoDup (map fk_ID keys);
  al_new k : k ∈ keys -> db_fetch db !! fk_ID k = None;
  al_rows k : k ∈ keys -> is_Some (db_fetch db' !! fk_ID k);
  al_kept : exists m ks n, db' = fetch_rows m ks n db;
  al_good : Forall good keys;
}.

Lemma fetch_rows_grown m ks n db k : is_Some (db_fetch db !! k) -> is_Some (db_fetch (fetch_rows m ks n db) !! k).
Proof.
  simpl. intros [x Hx]. destruct (m !! k) as [y|] eqn:Em; [exists y; by apply lookup_union_Some_l | exists x; by rewrite lookup_union_r].
Qed.

Lemma set_fetch_id f db : (forall m, f m = m) -> set_fetch f db = db.
Proof. intros Hf. destruct db. unfold set_fetch. simpl. by rewrite Hf. Qed.

Lemma set_keys_id f v : (forall m, f m = m) -> set_keys f v = v.
Proof. intros Hf. destruct v. unfold set_keys. simpl. by rewrite Hf. Qed.

Lemma set_validity_db_id f db : (forall v, f v = v) -> set_validity_db f db = db.
Proof. intros Hf. destruct db. unfold set_validity_db. simpl. by rewrite Hf. Qed.

Lemma fetch_rows_same db : fetch_rows ∅ ∅ (db_next db) db = db.
Proof.
  unfold fetch_rows. rewrite set_fetch_id by apply map_empty_union. rewrite set_validity_db_id; [by destruct db |].
  intros v. apply set_keys_id, map_empty_union.
Qed.

Lemma set_fetch_rows n f n' f' g g' db : (forall m, f' (f m) = g m) -> (forall v, n' (n v) = g' v) ->
  set_validity_db n' (set_fetch f' (set_validity_db n (set_fetch f db))) = set_validity_db g' (set_fetch g db).
Proof. intros Hf Hn. destruct db. unfold set_validity_db, set_fetch. simpl. by rewrite Hf, Hn. Qed.

Lemma set_keys_twice f f' g v : (forall m, f' (f m) = g m) -> set_keys f' (set_keys f v) = set_keys g v.
Proof. intros Hf. destruct v. unfold set_keys. simpl. by rewrite Hf. Qed.

Lemma set_next_under n n' v f db : set_next n' (set_validity_db v (set_fetch f (set_next n db))) = set_next n' (set_validity_db v (set_fetch f db)).
Proof. by destruct db. Qed.

Lemma fetch_rows_twice m ks n m' ks' n' db : fetch_rows m' ks' n' (fetch_rows m ks n db) = fetch_rows (m' ∪ m) (ks' ∪ ks) n' db.
Proof.
  unfold fetch_rows. rewrite set_next_under, (set_fetch_rows _ _ _ _ (union (m' ∪ m)) (set_keys (union (ks' ∪ ks)))); [done | |].
  - intros x. apply (assoc_L union).
  - intros v. apply set_keys_twice. intros x. apply (assoc_L union).
Qed.

Lemma all_fetched_nil {Q P} (good : FetchKey Q P -> Prop) db : stored_ok db -> all_fetched good db [] db.
Proof.
  intros Hso. split; try done; [constructor | by intros ? ?%elem_of_nil | by intros ? ?%elem_of_nil |].
  exists ∅, ∅, (db_next db). by rewrite fetch_rows_same.
Qed.

Lemma all_fetched_app {Q P} (good : FetchKey Q P -> Prop) source reqs db keys db1 keys' db2 : all_fetched good db keys db1 -> fetched source reqs db1 keys' db2 ->
  Forall good keys' -> all_fetched good db (keys ++ keys') db2.
Proof.
  intros [H1 H2 H3 H4 (m1 & ks1 & n1 & E1) H8] Hf Ha. pose proof (fetched_stored _ _ _ _ _ H1 Hf) as Hso.
  destruct Hf as [_ _ Hnd Hnew _ (m & ks & E2 & Hdom & _)]. rewrite Forall_forall in Hnew.
  assert (forall k, is_Some (db_fetch db1 !! k) -> is_Some (db_fetch db2 !! k)) as Hg by (rewrite E2; apply fetch_rows_grown).
  split; [done | | | | | by apply Forall_app].
  - rewrite map_app. apply NoDup_app. split; [done |]. split; [| done]. intros i (k & -> & Hk)%list_elem_of_fmap (k' & Ei & Hk')%list_elem_of_fmap.
    destruct (H4 k Hk) as [x Hx]. rewrite Ei, (Hnew k' Hk') in Hx. done.
  - intros k [Hk|Hk]%elem_of_app; [by apply H3 |]. destruct (db_fetch db !! fk_ID k) as [x|] eqn:Ex; [| done].
    destruct (fetch_rows_grown m1 ks1 n1 db (fk_ID k)) as [y Hy]; [by exists x |]. rewrite <- E1 in Hy. by rewrite (Hnew k Hk) in Hy.
  - intros k [Hk|Hk]%elem_of_app; [by apply Hg, H4 |]. rewrite E2. simpl.
    assert (fk_ID k ∈ dom m) as [y Hy]%elem_of_dom by (rewrite Hdom; by apply elem_of_list_to_set, list_elem_of_fmap_2). exists y. by apply lookup_union_Some_l.
  - exists (m ∪ m1), (ks ∪ ks1), (db_next db2). rewrite E2 at 1. rewrite E1 at 1. by rewrite fetch_rows_twice.
Qed.

Section FetchEach.
Context {E Q P : Type} (fetch : Entry -> list Q -> instr_db -> Prelude.res E (list (FetchKey Q P) * instr_db)) (good : FetchKey Q P -> Prop).
Context (Hfetch : forall e reqs db keys db', fetch e reqs db = Ok (keys, db') -> fetched (en_Name e) reqs db keys db' /\ Forall good keys).

(** Each entry that is asked anything answers its requests in their order. *)
Lemma fetch_each_ok asked db0 db keys0 : all_fetched good db0 keys0 db ->
  match fetch_each fetch asked db with
  | Err _ => True
  | Ok (keyss, db') => all_fetched good db0 (keys0 ++ concat keyss) db' /\
      Forall2 (fun a keys => map fk_Request keys = a.2 /\ Forall (fun k => fk_Source k = en_Name a.1) keys) asked keyss
  end.
Proof using Hfetch.
  revert keys0 db. induction asked as [|[e reqs] asked IH]; intros keys0 db Hdb; simpl; [rewrite app_nil_r; by split |].
  assert (match (match reqs with [] => Ok ([], db) | _ => fetch e reqs db end) with
    | Err _ => True
    | Ok (keys, db') => all_fetched good db0 (keys0 ++ keys) db' /\ map fk_Request keys = reqs /\ Forall (fun k => fk_Source k = en_Name e) keys end) as Hstep.
  { destruct reqs as [|q qs]; [by rewrite app_nil_r |]. destruct (fetch e (q :: qs) db) as [[keys db1]|] eqn:Ef; [| done].
    destruct (Hfetch _ _ _ _ _ Ef) as [Hf Hg]. split; [by eapply all_fetched_app | split; apply Hf]. }
  destruct (match reqs with [] => Ok ([], db) | _ => fetch e reqs db end) as [[keys db1]|err]; [| done]. cbn [mbind res_bind].
  destruct Hstep as (Hdb1 & Hr & Hs). specialize (IH _ _ Hdb1). destruct (fetch_each _ asked db1) as [[keyss db2]|err]; [| done]. cbn [mbind res_bind].
  rewrite <- app_assoc in IH. destruct IH. split; [done |]. by constructor.
Qed.

End FetchEach.

(** A served answer that the tables can hold. *)
Definition good_facts (k : factKey) : Prop := served k = true -> answer_ok (fk_Response k).

Lemma all_fetched_answers families db keys db' : stored_ok db -> families_ok families db -> all_fetched good_facts db keys db' -> answered_facts families keys db'.
Proof.
  intros [[Hok _ _] _ _] Hfam [_ Hnd Hnew Hrows (m & ks & n & ->) Ha]. split; try done.
  - intros k a Hk Hin Ek. destruct (proj1 (Forall_forall _ _) (ok_assertion _ Hok) a Hin) as (_ & _ & Hfb & _).
    rewrite Ek in Hfb. destruct Hfb as [x Hx]. by rewrite (Hnew k Hk) in Hx.
  - intros k Hk. by apply (proj1 (Forall_forall _ _) Ha).
Qed.

Section Fetching.
Context {E : Type} `{FactsFetcher E} (entries : list Entry).

Lemma ff_ok run e reqs db keys db' : ft_IdentifierFacts run e reqs db = Ok (keys, db') -> fetched (en_Name e) reqs db keys db' /\ Forall good_facts keys.
Proof. intros Ef. split; [by apply (ff_fetched run) | by eapply ff_answers]. Qed.

Lemma facts_requests_undated db now rs e : existsb (fun res => negb (bool_decide (rs_dating res = None))) rs = false -> facts_requests db now rs e = Some [].
Proof.
  intros Hn. unfold facts_requests. destruct (en_Facts e), (en_Window e); try done. induction rs as [|res rs IH]; [done |]. simpl in Hn.
  apply orb_false_iff in Hn as [Hres Hn]. simpl. unfold facts_step at 1. apply negb_false_iff, bool_decide_eq_true in Hres. rewrite Hres. by apply IH.
Qed.

(** The requests to each entry, with the entry's name. *)
Definition named_requests (reqss : list (list IdentifierFactRequest)) : list (string * IdentifierFactRequest) :=
  concat (zip_with (fun e reqs => map (fun q => (en_Name e, q)) reqs) entries reqss).

Lemma named_keys es (reqss : list (list IdentifierFactRequest)) (keyss : list (list factKey)) : length reqss = length es ->
  Forall2 (fun a keys => map fk_Request keys = a.2 /\ Forall (fun k => fk_Source k = en_Name a.1) keys) (zip es reqss) keyss ->
  map (fun k => (fk_Source k, fk_Request k)) (concat keyss) = concat (zip_with (fun e reqs => map (fun q => (en_Name e, q)) reqs) es reqss).
Proof.
  revert reqss keyss. induction es as [|e es IH]; intros [|reqs reqss] keyss Hlen Hz; try done; simpl in Hz.
  { by inversion_clear Hz. }
  inversion_clear Hz as [|? keys ? keyss' [Hr Hs] Hz']. simpl. rewrite map_app. simpl in Hr, Hs. rewrite (IH _ _ ltac:(by injection Hlen) Hz'). f_equal.
  rewrite <- Hr. clear -Hs. induction Hs as [|k keys Hk _ IH]; [done |]. simpl. by rewrite Hk, IH.
Qed.

Lemma fetchResolutionFacts_ok families run now rs db : stored_ok db -> families_ok families db ->
  Forall (fun e => en_Name e <> ""%string) entries -> Forall dated_ok rs ->
  exists r reqss, fetchResolutionFacts entries run now rs db = Some r /\
    Forall2 (fun e reqs => facts_requests (db_validity db) now rs e = Some reqs) entries reqss /\
    match r with
    | Err _ => True
    | Ok (keys, db') => all_fetched good_facts db keys db' /\ answered_facts families keys db' /\ map (fun k => (fk_Source k, fk_Request k)) keys = named_requests reqss
    end.
Proof.
  intros Hso Hfam Hnames Hrs. unfold fetchResolutionFacts.
  pose proof (all_fetched_nil good_facts db Hso) as Hstart.
  destruct (negb (existsb _ rs)) eqn:Ed.
  { apply negb_true_iff in Ed. eexists _, (map (fun _ => []) entries). split; [reflexivity |]. split.
    { clear -Ed. induction entries; constructor; [by apply facts_requests_undated | done]. }
    split; [done |]. split; [by eapply all_fetched_answers |]. unfold named_requests. clear. by induction entries. }
  assert (exists reqss, mapM (facts_requests (db_validity db) now rs) entries = Some reqss) as [reqss Er].
  { apply mapM_is_Some. eapply Forall_impl; [exact Hnames |]. intros e He. destruct (facts_requests_ok (db_validity db) now rs e He Hrs) as (reqs & Hreq & _). by exists reqs. }
  rewrite Er. cbn [mbind option_bind]. eexists _, reqss. split; [reflexivity |]. apply mapM_Some in Er. split; [done |].
  pose proof (fetch_each_ok _ _ (ff_ok run) (zip entries reqss) db db [] Hstart) as He. destruct (fetch_each _ _ db) as [[keyss db']|err]; [| done].
  cbn [mbind res_bind]. destruct He as [Hall Hz]. simpl in Hall. split; [done |]. split; [by eapply all_fetched_answers |].
  apply named_keys; [symmetry; by eapply Forall2_length | done].
Qed.

(** C22: the facts fetches of a batch never dereference nil, and where no fetch
    fails, their keys are those of the requests to each entry, in the order of
    the entries and of its requests, and new; they leave tables whose constraints
    hold, with nothing else changed, and answers that [recordIdentifierFacts]
    records. *)
Theorem fetchResolutionFacts_spec families run now rs db : stored_ok db -> families_ok families db ->
  Forall (fun e => en_Name e <> ""%string) entries -> Forall dated_ok rs ->
  exists r reqss, fetchResolutionFacts entries run now rs db = Some r /\
    Forall2 (fun e reqs => facts_requests (db_validity db) now rs e = Some reqs) entries reqss /\
    match r with
    | Err _ => True
    | Ok (keys, db') => all_fetched good_facts db keys db' /\ answered_facts families keys db' /\ map (fun k => (fk_Source k, fk_Request k)) keys = named_requests reqss
    end.
Proof. apply fetchResolutionFacts_ok. Qed.

End Fetching.

(** * What dating leaves of a key *)

Lemma concat_map_concat {A B C} (g : B -> list C) (h : A -> list B) l : concat (map g (concat (map h l))) = concat (map (fun a => concat (map g (h a))) l).
Proof. induction l as [|a l IH]; [done |]. simpl. by rewrite map_app, concat_app, IH. Qed.

(** Keys dated through one ticker share one read of it. *)
(** The intervals a load reads for a ticker, in the order of the query. *)
Lemma Load_lookup {D} (T : tables D) ts t : t ∈ ts ->
  Load T ts !! t = Some (map snd (sort_func (cmp_lex (cmp_on fst MarketTicker_cmp) (cmp_on (fun r => iv_From r.2) nulls_first))
    (concat (map (fun r => map (fun v => (ticker_of r, MkInterval (tv_From v) (tv_Before v) (tv_InstrID v) (tv_Validity v)))
      (List.filter (fun v => bool_decide (tv_TickerID v = tk_ID r)) (Calendar.db_validity T))) (List.filter (fun r => bool_decide (ticker_of r = t)) (db_tickers T)))))).
Proof.
  intros Ht. unfold Load.
  assert ((list_to_map (map (fun t => (t, [])) (distinct_tickers ts)) : gmap MarketTicker (list Interval)) !! t = Some []) as Hinit.
  { apply elem_of_list_to_map_1; [rewrite map_map, map_id; apply NoDup_distinct |].
    apply list_elem_of_fmap. exists t. split; [done |]. by apply elem_of_distinct. }
  rewrite (load_fold _ _ _ _ Hinit). simpl. unfold ListTickerValidity, asked_tickers. rewrite sort_func_filter by apply _. do 3 f_equal.
  rewrite concat_map_concat. refine (filter_concat_one _ (fun u => concat (map _ (List.filter (fun r => bool_decide (ticker_of r = u)) (db_tickers T)))) _ t _ _ _ _).
  - apply NoDup_distinct.
  - by apply elem_of_distinct.
  - intros b (r & [_ Hr%bool_decide_eq_true]%elem_of_lfilter & (v & -> & _)%list_elem_of_fmap)%elem_of_concat_map. by apply bool_decide_eq_true_2.
  - intros u b _ Hne (r & [_ Hr%bool_decide_eq_true]%elem_of_lfilter & (v & -> & _)%list_elem_of_fmap)%elem_of_concat_map. apply bool_decide_eq_false_2. simpl. congruence.
Qed.

Lemma Load_alone {D} (T : tables D) ts t : t ∈ ts -> Load T ts !! t = Load T [t] !! t.
Proof. intros Ht. rewrite (Load_lookup T ts t Ht). symmetry. apply Load_lookup. by left. Qed.

Lemma StronglySorted_perm {A} (R : relation A) l l' : (forall x y, R x y -> R y x) -> l ≡ₚ l' -> StronglySorted R l -> StronglySorted R l'.
Proof.
  intros Hsym. induction 1 as [|x l l' Hp IH|x y l|l1 l2 l3 _ IH1 _ IH2]; [done | | | auto].
  - inversion_clear 1 as [|? ? Hl Hx]. constructor; [by apply IH | by rewrite <- Hp].
  - inversion_clear 1 as [|? ? Hl Hy]. inversion_clear Hl as [|? ? Hl' Hx]. inversion_clear Hy as [|? ? Hyx Hy']. constructor; [by constructor |]. constructor; auto.
Qed.

(** Apart and in the order of their starts, intervals precede one another. *)
Definition iv_apart (i j : Interval) : Prop := starts_before (iv_From i) (iv_Before j) && starts_before (iv_From j) (iv_Before i) = false.

Lemma apart_precedes i j : iv_apart i j -> nulls_first (iv_From i) (iv_From j) <> Gt -> iv_nonempty j -> iv_precedes i j.
Proof.
  unfold iv_apart, iv_nonempty, iv_precedes, starts_before, nulls_first. destruct (iv_From i) as [a|], (iv_Before i) as [b|], (iv_From j) as [c|], (iv_Before j) as [d|];
    simpl; rewrite ?andb_true_r, ?andb_false_r; try done; intros H1 H2 H3; rewrite ?andb_false_iff, ?Z.ltb_ge in H1;
    try (by destruct H2); try (change (a <= c) in H2); lia.
Qed.

(** The stored validity of a ticker is intervals in order. *)
Lemma Load_intervals v t : validity_db_ok v -> intervals_ok (default [] (Load (validity_tables v) [t] !! t)).
Proof.
  intros Hv. rewrite Load_lookup by by left. simpl. set (cmp := cmp_lex _ _). set (l := concat _).
  assert (Forall (fun x => x.1 = t /\ iv_nonempty x.2) l /\ StronglySorted (fun x y => iv_apart x.2 y.2) l) as [Hl Hap].
  { destruct Hv as [_ Hkey _ _ _ _ _ [Hrg Hcf] _]. unfold l. clear l cmp. split.
    - apply Forall_forall. intros x (r & [_ Hr%bool_decide_eq_true]%elem_of_lfilter & (w & -> & [Hw _]%elem_of_lfilter)%list_elem_of_fmap)%elem_of_concat_map.
      split; [done |]. pose proof (proj1 (Forall_forall _ _) Hrg w Hw) as Hok. unfold range_ok, iv_nonempty in *. simpl. destruct (tv_From w), (tv_Before w); try done. lia.
    - assert (List.filter (fun r => bool_decide (ticker_of r = t)) (vd_tickers v) = [] \/ exists r, List.filter (fun r => bool_decide (ticker_of r = t)) (vd_tickers v) = [r]) as [-> |[r ->]].
      { revert Hkey. induction (vd_tickers v) as [|r rs IH]; [by left |]. intros [Hni Hnd]%NoDup_cons. simpl. case_bool_decide as Ht; [| by apply IH].
        right. exists r. f_equal. destruct (List.filter _ rs) as [|r' rs'] eqn:E; [done |]. assert (r' ∈ List.filter (fun r => bool_decide (ticker_of r = t)) rs) as Hin by (rewrite E; by left).
        apply elem_of_lfilter in Hin as [Hin Hr'%bool_decide_eq_true]. destruct Hni. rewrite Ht, <- Hr'. by apply list_elem_of_fmap_2. }
      + constructor.
      + simpl. rewrite app_nil_r. induction Hcf as [|w ws _ IH Hw]; [constructor |]. simpl. case_bool_decide as He; [| apply IH; by inversion_clear Hrg].
        simpl. constructor; [apply IH; by inversion_clear Hrg |]. apply Forall_forall. intros x (u & -> & [Hu Hue%bool_decide_eq_true]%elem_of_lfilter)%list_elem_of_fmap.
        pose proof (proj1 (Forall_forall _ _) Hw u Hu) as Hc. unfold range_conflicts in Hc. rewrite bool_decide_eq_true_2 in Hc by congruence. simpl in Hc.
        unfold iv_apart. simpl. by rewrite andb_comm. }
  apply (StronglySorted_perm _ _ (sort_func cmp l)) in Hap; [| intros x y; unfold iv_apart; by rewrite andb_comm | symmetry; apply sort_func_perm].
  rewrite <- (sort_func_perm cmp l) in Hl. pose proof (sort_func_sorted cmp l) as Hso.
  revert Hl Hap Hso. generalize (sort_func cmp l). intros k. induction k as [|x k IH]; [split; constructor |]. intros [[Hx Hxn] Hk]%Forall_cons.
  inversion_clear 1 as [|? ? Hk' Hxk]. inversion_clear 1 as [|? ? Hs Hxs]. destruct (IH Hk Hk' Hs) as [I1 I2]. simpl. split; constructor; try done.
  apply Forall_forall. intros i (y & -> & Hy)%list_elem_of_fmap. destruct (proj1 (Forall_forall _ _) Hk y Hy) as [Hyt Hyn].
  pose proof (proj1 (Forall_forall _ _) Hxk y Hy) as Ha. pose proof (proj1 (Forall_forall _ _) Hxs y Hy) as Hle. simpl in Ha.
  apply apart_precedes; [done | | done]. unfold cmp_le, cmp, cmp_lex, cmp_on, cmp_or in Hle. rewrite Hx, Hyt in Hle.
  assert (MarketTicker_cmp t t = Eq) as E by (pose proof (cmp_opp MarketTicker_cmp t t); by destruct (MarketTicker_cmp t t)). rewrite E in Hle. exact Hle.
Qed.

Lemma by_key_lookup rows k : default [] (by_key rows !! k) = map snd (List.filter (fun r => bool_decide (r.1 = k)) rows).
Proof. exact (group_lookup fst snd rows k). Qed.

(** The distinct as-at dates of a user's transactions of a key, in order. *)
Definition txn_dates (txns : list KeyTxn) (user key : uuid) (ds : list time) : Prop :=
  StronglySorted Z.lt ds /\ forall d, d ∈ ds <-> exists t, t ∈ txns /\ kt_UserID t = user /\ kt_StatedKeyID t = key /\ kt_AsAt t = d.

Lemma key_dates_sorted (l : list (uuid * time)) k : NoDup l -> StronglySorted (cmp_le (cmp_lex (cmp_on fst N.compare) (cmp_on snd Z.compare))) l ->
  StronglySorted Z.lt (map snd (List.filter (fun r => bool_decide (r.1 = k)) l)).
Proof.
  intros Hnd Hs. induction Hs as [|[u d] l Hs IH Hd]; [constructor |]. apply NoDup_cons in Hnd as [Hni Hnd]. simpl. case_bool_decide as Hu; [| by apply IH].
  simpl. constructor; [by apply IH |]. apply Forall_forall. intros d' ([u' d1] & -> & [Hin Hu'%bool_decide_eq_true]%elem_of_lfilter)%list_elem_of_fmap.
  simpl in *. subst u u'. pose proof (proj1 (Forall_forall _ _) Hd _ Hin) as Hle. unfold cmp_le, cmp_lex, cmp_on, cmp_or in Hle. simpl in Hle.
  rewrite N.compare_refl in Hle. apply Z.le_neq. split; [exact Hle | by intros ->].
Qed.

Lemma ListKeyDates_ok txns user ids key : key ∈ ids -> txn_dates txns user key (default [] (by_key (ListKeyDates txns user ids) !! key)).
Proof.
  intros Hk. rewrite by_key_lookup. unfold ListKeyDates. split.
  - apply key_dates_sorted; [rewrite sort_func_perm; apply NoDup_append_all | apply sort_func_sorted, _].
  - intros d. rewrite list_elem_of_fmap. split.
    + intros ([u d'] & -> & [Hin Hu%bool_decide_eq_true]%elem_of_lfilter). simpl in *. subst u.
      apply elem_of_sort_func, elem_of_append_all, list_elem_of_fmap in Hin as (t & [= -> ->] & [Ht [Hu%bool_decide_eq_true _]%andb_true_iff]%elem_of_lfilter).
      by exists t.
    + intros (t & Ht & Hu & Hs & <-). exists (key, kt_AsAt t). split; [done |]. apply elem_of_lfilter. split; [| by apply bool_decide_eq_true_2].
      apply elem_of_sort_func, elem_of_append_all, list_elem_of_fmap. exists t. split; [by rewrite Hs |]. apply elem_of_lfilter. split; [done |].
      apply andb_true_iff. split; [by apply bool_decide_eq_true_2 |]. rewrite Hs. by apply contains_true.
Qed.

Lemma txn_dates_unique txns user key ds ds' : txn_dates txns user key ds -> txn_dates txns user key ds' -> ds = ds'.
Proof.
  intros [S1 H1] [S2 H2]. assert (AntiSymm eq Z.lt) by (intros x y ? ?; lia). apply (StronglySorted_unique Z.lt); [done | done |].
  assert (forall l, StronglySorted Z.lt l -> NoDup l) as Hnd.
  { induction 1 as [|x l _ IH Hx]; constructor; [| done]. intros Hin. pose proof (proj1 (Forall_forall _ _) Hx x Hin). lia. }
  apply NoDup_Permutation; [by apply Hnd | by apply Hnd |]. intros d. by rewrite H1, H2.
Qed.

Lemma elem_of_via_ids keys id : id ∈ via_ids keys <-> exists k, k ∈ keys /\ sk_ViaTickerID k = Some id.
Proof.
  unfold via_ids. induction keys as [|k keys IH] using rev_ind; simpl.
  - split; [by intros ?%elem_of_nil | by intros (k & ?%elem_of_nil & _)].
  - rewrite foldl_app. simpl. trans (id ∈ foldl (fun ids k => match sk_ViaTickerID k with Some id => append_unique ids id | None => ids end) [] keys \/ sk_ViaTickerID k = Some id).
    + destruct (sk_ViaTickerID k) as [id'|]; [rewrite elem_of_append_unique; naive_solver | naive_solver].
    + rewrite IH. split.
      * intros [(k' & Hk' & He)|He]; [exists k' | exists k]; (split; [apply elem_of_app | done]); [by left | right; by left].
      * intros (k' & [Hk'|Hk'%list_elem_of_singleton]%elem_of_app & He); [left; by exists k' | right; by rewrite <- Hk'].
Qed.

(** The row of a ticker is the same however many are looked up. *)
Lemma ByID_lookup rows ids id : ByID rows ids !! id =
  if contains ids id then last (sort_func (cmp_on ticker_of MarketTicker_cmp) (List.filter (fun r => bool_decide (tk_ID r = id)) rows)) else None.
Proof.
  assert (forall l : list TickerRow, foldl (fun out r => <[tk_ID r := r]> out) (∅ : gmap uuid TickerRow) l !! id = last (List.filter (fun r => bool_decide (tk_ID r = id)) l)) as Hlast.
  { induction l as [|r l IH] using rev_ind; [done |]. rewrite foldl_app, List.filter_app. simpl. destruct (decide (tk_ID r = id)) as [He|He].
    - rewrite bool_decide_eq_true_2 by done. rewrite <- He at 1. rewrite lookup_insert_eq. by rewrite last_snoc.
    - rewrite bool_decide_eq_false_2, lookup_insert_ne, app_nil_r by done. done. }
  unfold ByID. rewrite Hlast, sort_func_filter by apply _. destruct (contains ids id) eqn:Ec.
  - do 2 f_equal. induction rows as [|r rows IH]; [done |]. simpl. destruct (decide (tk_ID r = id)) as [<-|Hne].
    + rewrite Ec. simpl. by rewrite bool_decide_eq_true_2, IH by done.
    + rewrite (bool_decide_eq_false_2 (tk_ID r = id)) by done. destruct (contains ids (tk_ID r)); simpl; [rewrite bool_decide_eq_false_2 by done |]; apply IH.
  - assert (List.filter (fun r => bool_decide (tk_ID r = id)) (List.filter (fun r => contains ids (tk_ID r)) rows) = []) as ->; [| done].
    induction rows as [|r rows IH]; [done |]. simpl. destruct (contains ids (tk_ID r)) eqn:Er; [| apply IH]. simpl.
    rewrite bool_decide_eq_false_2; [apply IH |]. intros <-. congruence.
Qed.

Lemma OfKeys_alone rows keys k id : k ∈ keys -> sk_ViaTickerID k = Some id -> OfKeys rows keys !! id = OfKeys rows [k] !! id.
Proof.
  assert (forall ks, k ∈ ks -> sk_ViaTickerID k = Some id -> OfKeys rows ks !! id =
    last (sort_func (cmp_on ticker_of MarketTicker_cmp) (List.filter (fun r => bool_decide (tk_ID r = id)) rows))) as Hone.
  { intros ks Hk He. assert (id ∈ via_ids ks) as Hin by (apply elem_of_via_ids; by exists k). unfold OfKeys. destruct (via_ids ks) as [|i is_] eqn:Ei; [by apply elem_of_nil in Hin |].
    rewrite ByID_lookup. by rewrite (proj2 (contains_true _ _) Hin). }
  intros Hk He. rewrite (Hone keys Hk He). symmetry. apply Hone; [by left | done].
Qed.

Lemma dated_through_alone rows keys mics res : rs_row res ∈ keys ->
  dated_through_ticker (OfKeys rows keys) mics res = dated_through_ticker (OfKeys rows [rs_row res]) mics res.
Proof.
  intros Hk. unfold dated_through_ticker. destruct (negb _); [done |]. replace (Dated (rs_row res) (OfKeys rows keys)) with (Dated (rs_row res) (OfKeys rows [rs_row res])); [done |].
  unfold Dated. destruct (sk_ViaTickerID (rs_row res)) as [id|] eqn:Ei; [| done]. destruct (sk_ViaVenue _); [| done]. by rewrite (OfKeys_alone rows keys _ id Hk Ei).
Qed.

(** What dating leaves of one key alone. *)
Definition date_alone (mics : MICMap) (db : validity_db) (txns : list KeyTxn) (user : uuid) (res : resolution) (dates : list time) : resolution :=
  match dated_through_ticker (OfKeys (vd_tickers db) [rs_row res]) mics res with
  | None => res
  | Some (v, mt) =>
      let res := date_key (Load (validity_tables db) [mt]) res (Some (v, mt)) dates in
      add_dates (by_key (ListKeyDates txns user [sk_ID (rs_row res)])) res
  end.

(** The outcome that the ticker validity of a key decides. *)
Definition dated_outcome (res : resolution) (ivs : list Interval) : ResolutionOutcome :=
  if negb (bool_decide (sk_ViaTickerID (rs_row res) = None)) || (bool_decide (rs_knownInstr res = None) && Any ivs)
  then ResolutionOutcomeMatched else ResolutionOutcomeNone.

(** A key that may be dated through [v], at the market ticker [mt]: its dates
    are those asked and those of the user's transactions. *)
Record dated_key (db : validity_db) (txns : list KeyTxn) (user : uuid) (dates : list time) (v : Identifier) (mt : MarketTicker) (res res' : resolution) : Prop := {
  dk_row : rs_row res' = rs_row res /\ rs_knownInstr res' = rs_knownInstr res /\ rs_fetchKeys res' = rs_fetchKeys res /\ rs_findings res' = rs_findings res;
  dk_via : rs_via res' = Some v;
  dk_dating : rs_dating res' = Some (MkDating mt (default [] (Load (validity_tables db) [mt] !! mt)));
  dk_dates : exists ds, rs_dates res' = dates ++ ds /\ txn_dates txns user (sk_ID (rs_row res)) ds;
  dk_outcome : rs_outcome res' = dated_outcome res (default [] (Load (validity_tables db) [mt] !! mt));
}.

Lemma date_key_ok read res v mt dates : rs_outcome res = ResolutionOutcomeNone ->
  let res' := date_key read res (Some (v, mt)) dates in
  (rs_row res' = rs_row res /\ rs_knownInstr res' = rs_knownInstr res /\ rs_fetchKeys res' = rs_fetchKeys res /\ rs_findings res' = rs_findings res) /\
  rs_via res' = Some v /\ rs_dating res' = Some (MkDating mt (default [] (read !! mt))) /\ rs_dates res' = dates /\
  rs_outcome res' = dated_outcome res (default [] (read !! mt)).
Proof.
  intros Ho. unfold date_key, dated_outcome. simpl. destruct (negb (bool_decide (sk_ViaTickerID (rs_row res) = None))); [done |]. simpl.
  by destruct (bool_decide (rs_knownInstr res = None) && Any _).
Qed.

Lemma add_dates_ok byKey res d : rs_dating res = Some d ->
  rs_row (add_dates byKey res) = rs_row res /\ rs_knownInstr (add_dates byKey res) = rs_knownInstr res /\
  rs_fetchKeys (add_dates byKey res) = rs_fetchKeys res /\ rs_findings (add_dates byKey res) = rs_findings res /\
  rs_via (add_dates byKey res) = rs_via res /\ rs_dating (add_dates byKey res) = Some d /\
  rs_dates (add_dates byKey res) = rs_dates res ++ default [] (byKey !! sk_ID (rs_row res)) /\ rs_outcome (add_dates byKey res) = rs_outcome res.
Proof. unfold add_dates. intros H. rewrite H. by repeat split. Qed.

Lemma date_key_rows read res via dates : rs_row (date_key read res via dates) = rs_row res /\
  rs_dating (date_key read res via dates) = match via with Some (_, mt) => Some (MkDating mt (default [] (read !! mt))) | None => rs_dating res end.
Proof. destruct via as [[v mt]|]; [| done]. unfold date_key. cbv zeta. destruct (negb _); [done |]. by destruct (_ && _). Qed.

Lemma date_key_read read read' res v mt dates : read !! mt = read' !! mt -> date_key read res (Some (v, mt)) dates = date_key read' res (Some (v, mt)) dates.
Proof. unfold date_key. by intros ->. Qed.

Lemma add_dates_same m m' res : m !! sk_ID (rs_row res) = m' !! sk_ID (rs_row res) \/ default [] (m !! sk_ID (rs_row res)) = default [] (m' !! sk_ID (rs_row res)) ->
  add_dates m res = add_dates m' res.
Proof. unfold add_dates. destruct (rs_dating res); [| done]. by intros [-> | ->]. Qed.

(** A batch dates each key as it would be dated alone. *)
Lemma findResolutionDated_alone mics db txns user rs keys i res k : length keys = length rs -> rs !! i = Some res -> keys !! i = Some k ->
  rs_dating res = None -> findResolutionDated mics db txns user rs keys !! i = Some (date_alone mics db txns user res (kd_Dates k)).
Proof.
  intros Hlen Hres Hk Hd. unfold findResolutionDated. set (dated := OfKeys _ _). set (vias := map (dated_through_ticker dated mics) rs).
  set (read := Load _ _). set (rs1 := zip_with _ (zip rs vias) keys).
  assert (dated_through_ticker dated mics res = dated_through_ticker (OfKeys (vd_tickers db) [rs_row res]) mics res) as Hvia.
  { apply dated_through_alone, list_elem_of_fmap. exists res. split; [done |]. by eapply list_elem_of_lookup_2. }
  assert (vias !! i = Some (dated_through_ticker dated mics res)) as Hv by (unfold vias; rewrite list_lookup_fmap, Hres; done).
  assert ((zip rs vias) !! i = Some (res, dated_through_ticker dated mics res)) as Hz by (apply lookup_zip_Some; by split).
  set (res1 := date_key read res (dated_through_ticker dated mics res) (kd_Dates k)).
  assert (rs1 !! i = Some res1) as H1 by (unfold rs1; apply lookup_zip_with_Some; by exists (res, dated_through_ticker dated mics res), k).
  assert (zip rs1 vias !! i = Some (res1, dated_through_ticker dated mics res)) as Hz1 by (apply lookup_zip_Some; by split).
  destruct (date_key_rows read res (dated_through_ticker dated mics res) (kd_Dates k)) as [Hrow Hdt]. fold res1 in Hrow, Hdt.
  unfold date_alone. rewrite <- Hvia. set (ids := omap _ (zip rs1 vias)).
  destruct (dated_through_ticker dated mics res) as [[v mt]|] eqn:Et.
  - assert (sk_ID (rs_row res) ∈ ids) as Hid.
    { apply list_elem_of_omap. exists (res1, Some (v, mt)). split; [by eapply list_elem_of_lookup_2 |]. simpl. by rewrite Hrow. }
    assert (res1 = date_key (Load (validity_tables db) [mt]) res (Some (v, mt)) (kd_Dates k)) as Hr1.
    { apply date_key_read. unfold read. apply Load_alone, list_elem_of_fmap. exists (v, mt). split; [done |].
      apply list_elem_of_omap. exists (Some (v, mt)). split; [by eapply list_elem_of_lookup_2 | done]. }
    cbv zeta. rewrite <- Hr1, Hrow. destruct ids as [|id0 ids0]; [by apply elem_of_nil in Hid |]. rewrite list_lookup_fmap, H1. simpl. f_equal.
    apply add_dates_same. right. rewrite Hrow. apply (txn_dates_unique txns user (sk_ID (rs_row res))); apply ListKeyDates_ok; [done | by left].
  - change res1 with res in H1. destruct ids; [done |]. rewrite list_lookup_fmap, H1. simpl. f_equal. unfold add_dates. by rewrite Hd.
Qed.

Lemma date_alone_ok mics db txns user res dates :
  match dated_through_ticker (OfKeys (vd_tickers db) [rs_row res]) mics res with
  | None => date_alone mics db txns user res dates = res
  | Some (v, mt) => dated_key db txns user dates v mt res (date_alone mics db txns user res dates)
  end.
Proof.
  unfold date_alone. destruct (dated_through_ticker _ _ _) as [[v mt]|] eqn:Et; [| done].
  assert (rs_outcome res = ResolutionOutcomeNone) as Ho by (unfold dated_through_ticker in Et; case_bool_decide; done).
  destruct (date_key_ok (Load (validity_tables db) [mt]) res v mt dates Ho) as ((Hrow & Hki & Hfk & Hfs) & Hvia & Hdt & Hds & Hout).
  set (res1 := date_key _ _ _ _) in *. cbv zeta.
  destruct (add_dates_ok (by_key (ListKeyDates txns user [sk_ID (rs_row res1)])) res1 _ Hdt) as (A1 & A2 & A3 & A4 & A5 & A6 & A7 & A8).
  split; [by rewrite A1, A2, A3, A4 | by rewrite A5 | done | | by rewrite A8].
  rewrite A7, Hds, Hrow. eexists. split; [done |]. apply ListKeyDates_ok. by left.
Qed.

Lemma findResolutionDated_ok mics db txns user rs keys i res k : length keys = length rs -> rs !! i = Some res -> keys !! i = Some k ->
  rs_dating res = None ->
  exists res', findResolutionDated mics db txns user rs keys !! i = Some res' /\
    match dated_through_ticker (OfKeys (vd_tickers db) [rs_row res]) mics res with
    | None => res' = res
    | Some (v, mt) => dated_key db txns user (kd_Dates k) v mt res res'
    end.
Proof. intros. eexists. split; [by apply findResolutionDated_alone | apply date_alone_ok]. Qed.

(** C23: a decided key, and one no ticker dates, is left as it is. Any other is
    dated through one ticker: its dated association's, or the first venue
    ticker it states at the operating MIC, with the stored validity of that
    ticker alone, though one read serves the keys that share it, and with the
    dates it was asked at and then the distinct dates of the user's transactions
    of it, in order. It is matched exactly where it has a dated association, or
    where the ticker has validity and the database names no instrument for the
    key. *)
Theorem findResolutionDated_spec mics db txns user rs keys i res k : length keys = length rs -> rs !! i = Some res -> keys !! i = Some k ->
  rs_dating res = None ->
  exists res', findResolutionDated mics db txns user rs keys !! i = Some res' /\
    match dated_through_ticker (OfKeys (vd_tickers db) [rs_row res]) mics res with
    | None => res' = res
    | Some (v, mt) => dated_key db txns user (kd_Dates k) v mt res res'
    end.
Proof. apply findResolutionDated_ok. Qed.

(** * Examples *)

Module Example.

Definition apple : MarketTicker := MkMarketTicker "US" "AAPL".
Definition sedol : Identifier := MkIdentifier IdentifierTypeSedol "" "B0YQ5W0".
Definition ticker : Identifier := MkIdentifier IdentifierTypeMicTicker "XNAS" "AAPL".
Definition day (n : Z) : time := n * day_len.

(** The ticker names instrument 1 over ten days, by the answer of one datasource,
    and key 50 is of another. *)
Definition db : instr_db := {|
  db_instrs := [MkInstrRow 1 AssetClassStock 5 (Some 49%N)];
  db_listings := [];
  db_identifiers := [MkIdentifierRow 21 1 None IdentifierTypeIsin "" "US0378331005" (Some 49%N)];
  db_stated := [];
  db_fetch := {[49%N := (None, None); 50%N := (None, None)]};
  db_coverage := [];
  db_validity := MkValidityDB [MkTickerRow 41 "US" "AAPL"]
    [MkAssertionRow 31 (Some 49%N) None 41 "US" (Some 1%N) (day 0) (day 10) false false None None] []
    {[49%N := MkFetchKeyRow 5 None None "eodhd" 1; 50%N := MkFetchKeyRow 6 None None "massive" 2]} ∅ ∅ [] [];
  db_findings := [];
  db_resolutions := [];
  db_families := ["USD"; "GBP"];
  db_codes := ["USD"; "GBP"];
  db_next := 100;
  db_now := 9;
  db_deferred := false;
|}.

Definition families : Families := {["USD" := "USD"; "GBP" := "GBP"]}.

(** The other datasource answers that it named another instrument on a day, and
    that its answer covers the days. *)
Definition answer : IdentifierFactResult :=
  MkFactResult [MkMarketAssertion apple (MkMarketListing [sedol] AssetClassStock "USD" "") false (MkPeriod (day 3) (day 4)) false false]
    [MkMarketCoverage apple (MkPeriod (day 0) (day 10))].

Definition key : factKey := MkFetchKey (MkFactRequest ticker (MkPeriod (day 3) (day 4))) 7 "massive" 50 FetchOutcomeServed (Some ticker) "" answer 6 2 false.

Definition facts_batch : batch := MkBatch [] [key].

Definition text (_ : Z) : string := "then".
Definition id_text (_ : uuid) : string := "id".

Lemma db_writable : writable db.
Proof.
  assert (consistent db /\ linked db /\ Forall (fun i => (i < db_next db)%N) (row_ids db)) as (Hc & Hl & Hm).
  { refine (bool_decide_unpack _ _). vm_compute. exact I. }
  split; [by apply consistent_tables | done |]. intros i Hi. by apply (proj1 (Forall_forall _ _) Hm).
Qed.

Lemma db_stored_ok : stored_ok db.
Proof.
  split; [apply db_writable | |].
  - split; simpl; try (by intros ? ?%elem_of_nil); try done; try apply NoDup_singleton.
    + intros a ->%list_elem_of_singleton. done.
    + intros a ->%list_elem_of_singleton. exists (MkTickerRow 41 "US" "AAPL"). split; [by left | done].
    + intros i k Hk. apply lookup_insert_Some in Hk as [[_ <-]|[_ [_ <-]%lookup_singleton_Some]]; done.
    + split; constructor.
    + split; constructor.
  - simpl. intros r ->%list_elem_of_singleton. done.
Qed.

Lemma key_answered : answered_facts families [key] db.
Proof.
  split.
  - intros c. unfold Family. destruct (families !! c) as [f|] eqn:Ef; [right | by left]. simpl.
    assert (map_Forall (fun _ f => f ∈ db_families db) families) as Hall by (refine (bool_decide_unpack _ _); vm_compute; exact I).
    by apply (Hall c).
  - apply NoDup_singleton.
  - intros k ->%list_elem_of_singleton. by eexists.
  - intros k a ->%list_elem_of_singleton. simpl. intros ->%list_elem_of_singleton. done.
  - intros k ->%list_elem_of_singleton _.
    assert (NoDup (map (fun a => (ma_Ticker a, p_From (ma_Period a))) (fs_Assertions answer)) /\
      Forall (fun a => day_period (ma_Period a) /\ NoDup (stable_of a)) (fs_Assertions answer) /\
      Forall (fun c => day_period (mc_Period c)) (fs_AssertionCoverage answer)) as (H1 & H2 & H3).
    { unfold day_period, whole_day. refine (bool_decide_unpack _ _). vm_compute. exact I. }
    split; [done | |]; intros x Hx; [by apply (proj1 (Forall_forall _ _) H2) | by apply (proj1 (Forall_forall _ _) H3)].
Qed.

(** The tables after the recording, and the run it returns. *)
Definition recorded : instr_db := match recordIdentifierFacts ex_mics families [] text id_text 3 facts_batch db with Ok (_, d) => d | Err _ => db end.

Example recorded_list : match recordIdentifierFacts ex_mics families [] text id_text 3 facts_batch db with
  | Ok (l, _) => l = [MkWritten 7 [apple]] | Err _ => False end.
Proof. vm_compute. reflexivity. Qed.

Example recorded_facts : map (fun a => (ia_FetchKeyID a, ia_InstrID a)) (vd_assertions (db_validity recorded)) = [(Some 49%N, Some 1%N); (Some 50%N, Some 101%N)] /\
  map (fun f => (fr_RunID f, fp_Kind (fr_Params f), fp_FetchKeyID (fr_Params f))) (db_findings recorded) = [(3%N, FindingKindIdentifierDisagreement, Some 50%N)].
Proof. vm_compute. split; reflexivity. Qed.

(** ** Keys dated through their tickers *)

Definition key_row (id : uuid) (ids : list Identifier) : StatedKey := MkStatedKey id 1 None None ids None None None None.
Definition apple_key : resolution := prepared families ex_mics (key_row 60 [ticker]).
Definition isin_key : resolution := prepared families ex_mics (key_row 61 [MkIdentifier IdentifierTypeIsin "" "US0378331005"; ticker]).

(** The ticker names the instrument over ten confirmed days. *)
Definition validity : validity_db :=
  MkValidityDB [MkTickerRow 41 "US" "AAPL"] [MkAssertionRow 31 (Some 49%N) None 41 "US" (Some 1%N) (day 0) (day 10) false false None None] []
    ∅ ∅ {["US" := "eodhd"]} [MkValidityRow 41 1 (Some (day 0)) (Some (day 10)) Confirmed] [].

Definition txns : list KeyTxn := [MkKeyTxn 1 60 (day 12); MkKeyTxn 1 60 (day 5); MkKeyTxn 2 60 (day 7); MkKeyTxn 1 60 (day 12)].

Definition dated_keys : list resolution :=
  findResolutionDated ex_mics validity txns 1 [isin_key; apple_key] [MkKeyDates (rs_row isin_key) []; MkKeyDates (rs_row apple_key) [day 15]].

Example apple_dated : exists r, dated_keys !! 1%nat = Some r /\ rs_via r = Some ticker /\ rs_dates r = [day 15; day 5; day 12] /\
  rs_outcome r = ResolutionOutcomeMatched /\ rs_dating <$> dated_keys !! 0%nat = Some None.
Proof. eexists. vm_compute. split; [reflexivity |]. done. Qed.

Definition server : Server IdentifierFactRequest := MkServer _ (fun q => if IsGlobal (fq_Identifier q) then Err "unserved" else Ok (fq_Identifier q)) (fun _ => []).
Definition entry : Entry := MkEntry "massive" None (Some server) (Some (fun now => now - day 100)).

Lemma keys_dated : Forall dated_ok dated_keys.
Proof.
  assert (Forall (fun r => match rs_dating r with Some d => rs_via r <> None /\ dt_ivs d = [MkInterval (Some (day 0)) (Some (day 10)) 1 Confirmed] | None => True end) dated_keys) as H.
  { vm_compute. by repeat constructor. }
  eapply Forall_impl; [exact H |]. intros r Hr d Hd. cbn beta in Hr. rewrite Hd in Hr. destruct Hr as [Hv ->]. split; [by destruct (rs_via r) |].
  split; repeat constructor.
Qed.

(** A fetcher whose every answer is [answer]. *)
#[local] Instance fetcher : Fetcher unit := {|
  ft_Identity _ _ _ _ := Err tt;
  ft_TickerIdentity _ _ _ _ := Err tt;
  ft_IdentifierFacts run e reqs db := given_fetch (en_Name e) fq_Identifier (fun _ => answer) run reqs db;
|}.

Lemma answer_served : answer_ok answer.
Proof. apply (af_answer _ _ _ key_answered key); [by left | done]. Qed.

#[local] Instance facts_fetcher : FactsFetcher unit.
Proof.
  split; intros run e reqs db keys db' [-> Hf]%given_fetched; [done |].
  apply Forall_forall. intros k (q & -> & _)%given_elem _. apply answer_served.
Qed.

End Example.

(** The answer creates its instrument, and the disagreement it completes is
    found, by the key of the datasource that lost. *)
Lemma recordIdentifierFacts_spec_witness : exists db1 db',
  recordIdentifierFacts ex_mics Example.families [] Example.text Example.id_text 3 Example.facts_batch Example.db = Ok ([MkWritten 7 [Example.apple]], db') /\
  stored_ok db' /\ exists kinds, conflicts_recorded 3 {[50%N]} [Example.apple] db1 kinds db'.
Proof.
  destruct (recordIdentifierFacts_spec Example.text Example.id_text ex_mics Example.families [] 3 Example.facts_batch Example.db Example.db_stored_ok Example.key_answered)
    as (recorded & db1 & db' & Hrun & Hso & _ & H).
  assert (written_reference (written_pairs ex_mics [] Example.facts_batch recorded) = [MkWritten 7 [Example.apple]]) as Hl.
  { pose proof Example.recorded_list as Hl. by rewrite Hrun in Hl. }
  destruct recorded; [| by cbv in Hl].
  assert (written_pairs ex_mics [] Example.facts_batch true = [(7%N, Example.apple); (7%N, Example.apple)]) as E by (vm_compute; reflexivity).
  exists db1, db'. split; [by rewrite <- Hl |]. split; [exact Hso |].
  rewrite E in H. simpl in H. destruct H as [kinds H]. exists kinds.
  assert (batch_keys Example.facts_batch = {[50%N]}) as <- by (vm_compute; reflexivity).
  eapply conflicts_recorded_same; [| exact H]. intros t. rewrite !elem_of_cons, elem_of_nil. tauto.
Defined.

Lemma findResolutionDated_spec_witness : exists res',
  Example.dated_keys !! 1%nat = Some res' /\ dated_key Example.validity Example.txns 1 [Example.day 15] Example.ticker Example.apple Example.apple_key res'.
Proof.
  destruct (findResolutionDated_spec ex_mics Example.validity Example.txns 1 [Example.isin_key; Example.apple_key]
    [MkKeyDates (rs_row Example.isin_key) []; MkKeyDates (rs_row Example.apple_key) [Example.day 15]] 1 Example.apple_key
    (MkKeyDates (rs_row Example.apple_key) [Example.day 15]) eq_refl eq_refl eq_refl eq_refl) as (res' & E & H).
  exists res'. split; [exact E | exact H].
Defined.

(** The ticker is asked on the first day no confirmed interval holds. *)
Lemma facts_requests_spec_witness : exists reqs,
  facts_requests Example.validity (Example.day 20) Example.dated_keys Example.entry = Some reqs /\ NoDup reqs /\
  reqs = [MkFactRequest Example.ticker (OneDay (Example.day 12))].
Proof.
  destruct (facts_requests_spec Example.validity (Example.day 20) Example.dated_keys Example.entry ltac:(done) Example.keys_dated) as (reqs & E & Hnd & _).
  exists reqs. split; [exact E |]. split; [exact Hnd |]. vm_compute in E. injection E as <-. reflexivity.
Defined.

Lemma fetchResolutionFacts_spec_witness : exists keys db',
  fetchResolutionFacts (H := Example.fetcher) [Example.entry] 3 (Example.day 20) Example.dated_keys Example.db = Some (Ok (keys, db')) /\
  stored_ok db' /\ answered_facts Example.families keys db' /\ length keys = 1%nat.
Proof.
  destruct (fetchResolutionFacts_spec (H := Example.fetcher) (H0 := Example.facts_fetcher) [Example.entry] Example.families 3 (Example.day 20) Example.dated_keys
    Example.db Example.db_stored_ok) as (r & reqss & E & H).
  - intros c. unfold Family. destruct (Example.families !! c) as [f|] eqn:Ef; [right | by left]. simpl.
    assert (map_Forall (fun _ f => f ∈ db_families Example.db) Example.families) as Hall by (refine (bool_decide_unpack _ _); vm_compute; exact I).
    by apply (Hall c).
  - by repeat constructor.
  - exact Example.keys_dated.
  - assert (match fetchResolutionFacts (H := Example.fetcher) [Example.entry] 3 (Example.day 20) Example.dated_keys Example.db with
      | Some (Ok (keys, _)) => length keys = 1%nat | _ => False end) as Hl by (vm_compute; reflexivity).
    rewrite E in Hl. destruct r as [[keys db']|]; [| done]. destruct H as (_ & H1 & H2 & _). exists keys, db'. split; [done |]. split; [apply H1 | done].
Defined.
