(* ===== verification/Stmts.v ===== *)
(** The ingestion of a statement, [server/internal/stmt/stmt.go], [write.go] and
    [candidates.go]: the tables it writes, the prepare step, what the resolution
    is asked and answers, the write that replaces the statement's period, and
    whether the statement is live.

    The answer of the resolver is an argument of [resolve]; [Resolving] proves
    what it is. The tables are those of [004_stmts.sql], with the constraints that
    an insert can break; a text with a NUL is refused, as PostgreSQL documents. A
    transaction sees no other. *)
From S2P Require Import Prelude Types Rows Group Runs Ingest Resolution InstrStore Dated.

(** * Definitions *)

(** ** The tables, [004_stmts.sql] *)

Record StmtRow : Type := MkStmtRow {
  sr_UserID : uuid;
  sr_Broker : Broker;
  sr_OrderFrom : time;
  sr_OrderBefore : time;
  sr_RowCount : Z;
  sr_SettledAt : option time;
}.

(** A row of [stmt_keys]. *)
Record LinkRow : Type := MkLinkRow {
  ln_StmtID : uuid;
  ln_UserID : uuid;
  ln_StatedKeyID : uuid;
}.

#[export] Instance LinkRow_eq_dec : EqDecision LinkRow.
Proof. solve_decision. Defined.

(** The reason of an item: the text of a failed check, or of a rejected key. *)
Inductive rejection : Type :=
| ByRow (e : row_error)
| ByKey (reason : string).

Record ItemRow : Type := MkItemRow {
  it_StmtID : uuid;
  it_UserID : uuid;
  it_Ordinal : Z;
  it_Reason : rejection;
  it_Stated : RowMsg;
}.

Inductive stmt_error : Type :=
| StmtConstraint
| StmtUnique
| StmtText
| NoOutcome (key : uuid)
| ResolutionFailed.

Fixpoint text_ok (s : string) : bool :=
  match s with EmptyString => true | String c s => negb (bool_decide (c = Ascii.zero)) && text_ok s end.

Definition identifiers_ok (ids : list Identifier) : bool := forallb (fun i => text_ok (id_Domain i) && text_ok (id_Value i)) ids.

Definition key_msg_ok (k : StatedKeyMsg) : bool :=
  forallb (fun m => text_ok (im_Domain m) && text_ok (im_Value m)) (km_Identifiers k) && match km_Currency k with Some c => text_ok c | None => true end.

(** The encoding of a row in an item, and the item's reason. *)
Definition row_msg_ok (r : RowMsg) : bool :=
  match rm_Key r with Some k => key_msg_ok k | None => true end
    && text_ok (rm_OrderDate r) && text_ok (rm_SettlementDate r) && text_ok (rm_AsAt r) && text_ok (rm_Quantity r).

Section Stmts.
Context {D : Type}.

(** A row of [stmt_splits]. *)
Record SplitRow : Type := MkSplitRow {
  xs_StmtID : uuid;
  xs_UserID : uuid;
  xs_Ordinal : Z;
  xs_StatedKeyID : uuid;
  xs_EffectiveDate : time;
  xs_Quantity : D;
  xs_Ratio : option (D * D);
}.

Record TxnRow : Type := MkTxnRow {
  tx_ID : uuid;
  tx_UserID : uuid;
  tx_Broker : Broker;
  tx_StmtID : uuid;
  tx_StatedKeyID : uuid;
  tx_OrderDate : time;
  tx_SettlementDate : time;
  tx_AsAt : time;
  tx_Quantity : D;
}.

Record stmt_db : Type := MkStmtDB {
  sd_runs : gmap uuid RunRow;
  sd_stmts : gmap uuid StmtRow;
  sd_keys : list StatedKey;
  sd_links : list LinkRow;
  sd_splits : list SplitRow;
  sd_items : list ItemRow;
  sd_txns : list TxnRow;
  sd_next : uuid;
}.

Definition sd_with_runs (r : gmap uuid RunRow) (d : stmt_db) : stmt_db := MkStmtDB r (sd_stmts d) (sd_keys d) (sd_links d) (sd_splits d) (sd_items d) (sd_txns d) (sd_next d).
Definition sd_with_stmts (s : gmap uuid StmtRow) (d : stmt_db) : stmt_db := MkStmtDB (sd_runs d) s (sd_keys d) (sd_links d) (sd_splits d) (sd_items d) (sd_txns d) (sd_next d).
Definition sd_with_keys (k : list StatedKey) (n : uuid) (d : stmt_db) : stmt_db := MkStmtDB (sd_runs d) (sd_stmts d) k (sd_links d) (sd_splits d) (sd_items d) (sd_txns d) n.
Definition sd_with_links (l : list LinkRow) (d : stmt_db) : stmt_db := MkStmtDB (sd_runs d) (sd_stmts d) (sd_keys d) l (sd_splits d) (sd_items d) (sd_txns d) (sd_next d).
Definition sd_with_splits (s : list SplitRow) (d : stmt_db) : stmt_db := MkStmtDB (sd_runs d) (sd_stmts d) (sd_keys d) (sd_links d) s (sd_items d) (sd_txns d) (sd_next d).
Definition sd_with_items (i : list ItemRow) (d : stmt_db) : stmt_db := MkStmtDB (sd_runs d) (sd_stmts d) (sd_keys d) (sd_links d) (sd_splits d) i (sd_txns d) (sd_next d).
Definition sd_with_txns (t : list TxnRow) (n : uuid) (d : stmt_db) : stmt_db := MkStmtDB (sd_runs d) (sd_stmts d) (sd_keys d) (sd_links d) (sd_splits d) (sd_items d) t n.

(** The foreign key of a statement's rows. *)
Definition stmt_of (d : stmt_db) (stmt user : uuid) : bool :=
  match sd_stmts d !! stmt with Some s => bool_decide (sr_UserID s = user) | None => false end.

Definition has_key (d : stmt_db) (id : uuid) : bool := existsb (fun k => bool_decide (sk_ID k = id)) (sd_keys d).

(** ** The queries of the prepare step *)

Definition CreateStmt (id user : uuid) (broker : Broker) (from before : time) (count : Z) (d : stmt_db) : res stmt_error stmt_db :=
  if negb (match sd_runs d !! id with Some r => bool_decide (rr_UserID r = Some user) | None => false end) || negb (from <? before) || (count <? 0) then Err StmtConstraint
  else if bool_decide (is_Some (sd_stmts d !! id)) then Err StmtUnique
  else Ok (sd_with_stmts (<[id := MkStmtRow user broker from before count None]> (sd_stmts d)) d).

Definition states (user : uuid) (k : key) (row : StatedKey) : bool :=
  bool_decide (sk_UserID row = user) && bool_decide (sk_AssetClass row = k_class k) && bool_decide (sk_Currency row = k_currency k) && bool_decide (sk_Identifiers row = k_identifiers k).

(** The id is made before the query, whether a row takes it or not. *)
Definition UpsertStatedKey (user : uuid) (k : key) (d : stmt_db) : res stmt_error (StatedKey * stmt_db) :=
  let id := sd_next d in
  let next := (id + 1)%N in
  if negb (identifiers_ok (k_identifiers k)) || negb (match k_currency k with Some c => text_ok c | None => true end) then Err StmtText
  else match find_func (states user k) (sd_keys d) with
       | Some row => Ok (row, sd_with_keys (sd_keys d) next d)
       | None =>
           let row := MkStatedKey id user (k_class k) (k_currency k) (k_identifiers k) None None None None in
           Ok (row, sd_with_keys (sd_keys d ++ [row]) next d)
       end.

Definition CreateStmtKey (stmt user key : uuid) (d : stmt_db) : res stmt_error stmt_db :=
  if negb (stmt_of d stmt user) || negb (has_key d key) then Err StmtConstraint
  else if existsb (fun l => bool_decide (ln_StmtID l = stmt) && bool_decide (ln_StatedKeyID l = key)) (sd_links d) then Err StmtUnique
  else Ok (sd_with_links (sd_links d ++ [MkLinkRow stmt user key]) d).

Definition CreateStmtKeys (stmt user : uuid) (keys : list uuid) (d : stmt_db) : res stmt_error stmt_db :=
  res_fold (fun d k => CreateStmtKey stmt user k d) d keys.

Definition CreateStmtSplit (stmt user key : uuid) (s : @split D) (d : stmt_db) : res stmt_error stmt_db :=
  if negb (stmt_of d stmt user) || negb (has_key d key) then Err StmtConstraint
  else if existsb (fun x => bool_decide (xs_StmtID x = stmt) && bool_decide (xs_Ordinal x = sp_ordinal s)) (sd_splits d) then Err StmtUnique
  else Ok (sd_with_splits (sd_splits d ++ [MkSplitRow stmt user (sp_ordinal s) key (sp_effective s) (sp_quantity s) (sp_ratio s)]) d).

(** ** [prepare]

    The rows of the keys, in the order of the statement's keys. A place outside
    it is a nil pointer. *)
Fixpoint upsert_keys (user : uuid) (ks : list key) (d : stmt_db) : res stmt_error (list StatedKey * stmt_db) :=
  match ks with
  | [] => Ok ([], d)
  | k :: ks =>
      match UpsertStatedKey user k d with
      | Err e => Err e
      | Ok (row, d) => match upsert_keys user ks d with Err e => Err e | Ok (rows, d) => Ok (row :: rows, d) end
      end
  end.

Definition create_split (stmt user : uuid) (rows : list StatedKey) (d : stmt_db) (s : @split D) : res stmt_error stmt_db :=
  match rows !! sp_key s with None => Err StmtConstraint | Some row => CreateStmtSplit stmt user (sk_ID row) s d end.

Definition prepare (run : uuid) (g : @ingestion D) (d : stmt_db) : res stmt_error (list StatedKey * stmt_db) :=
  match CreateStmt run (ig_user g) (ig_broker g) (ig_from g) (ig_before g) (Z.of_nat (length (ig_rows g))) d with
  | Err e => Err e
  | Ok d =>
      match upsert_keys (ig_user g) (ig_order g) d with
      | Err e => Err e
      | Ok (rows, d) =>
          match CreateStmtKeys run (ig_user g) (map sk_ID rows) d with
          | Err e => Err e
          | Ok d => match res_fold (create_split run (ig_user g) rows) d (ig_splits g) with Err e => Err e | Ok d => Ok (rows, d) end
          end
      end
  end.

(** ** [resolve] *)

Definition dates_of (g : @ingestion D) (n : nat) : list time :=
  foldl (fun ds w => match rw_valid w with Ok st => if bool_decide (st_key st = n) then append_unique ds (st_asAt st) else ds | Err _ => ds end) [] (ig_rows g).

Definition to_resolve (g : @ingestion D) (rows : list StatedKey) : list KeyDates :=
  omap (fun '(n, row) => if bool_decide (sk_InstrID row = None) then Some (MkKeyDates row (dates_of g n)) else None) (imap pair rows).

(** The outcome and the reason of each key; a key with an instrument has
    neither. *)
Definition take_outcomes (rows : list StatedKey) (answer : list ResolutionKey) : res stmt_error (list (ResolutionOutcome * string)) :=
  let byKey := foldl (fun m rk => <[rk_StatedKeyID rk := rk]> m) (∅ : gmap uuid ResolutionKey) answer in
  res_mapM (fun row =>
    if bool_decide (sk_InstrID row <> None) then Ok (ResolutionOutcomeNone, ""%string)
    else match byKey !! sk_ID row with
         | None => Err (NoOutcome (sk_ID row))
         | Some rk => Ok (rk_Outcome rk, String.concat "; " (rk_Reasons rk))
         end) rows.

(** [None] is a resolution that failed. *)
Definition resolve (rows : list StatedKey) (answer : option (list ResolutionKey)) : res stmt_error (list (ResolutionOutcome * string)) :=
  match answer with None => Err ResolutionFailed | Some answer => take_outcomes rows answer end.

(** ** [write] *)

Definition in_period (user : uuid) (broker : Broker) (from before : time) (t : TxnRow) : bool :=
  bool_decide (tx_UserID t = user) && bool_decide (tx_Broker t = broker) && (from <=? tx_OrderDate t) && (tx_OrderDate t <? before).

Definition DeleteTxns (user : uuid) (broker : Broker) (from before : time) (d : stmt_db) : stmt_db :=
  sd_with_txns (delete_func (in_period user broker from before) (sd_txns d)) (sd_next d) d.

(** The reason of a row, empty where it is accepted. *)
Definition reason_of (outcomes : list (ResolutionOutcome * string)) (w : @row D) : option rejection :=
  match rw_valid w with
  | Err e => Some (ByRow e)
  | Ok st =>
      match outcomes !! st_key st with
      | Some (ResolutionOutcomeRejected, reason) => if bool_decide (reason = ""%string) then None else Some (ByKey reason)
      | _ => None
      end
  end.

Definition item_of (run user : uuid) (outcomes : list (ResolutionOutcome * string)) (w : row) : option ItemRow :=
  reason ← reason_of outcomes w; Some (MkItemRow run user (rw_ordinal w) reason (rw_stated w)).

Definition txn_of (run user : uuid) (broker : Broker) (rows : list StatedKey) (id : uuid) (st : @stated D) : option TxnRow :=
  row ← rows !! st_key st; Some (MkTxnRow id user broker run (sk_ID row) (st_order st) (st_settlement st) (st_asAt st) (st_quantity st)).

Definition accepted_of (outcomes : list (ResolutionOutcome * string)) (w : @row D) : option stated :=
  match reason_of outcomes w, rw_valid w with None, Ok st => Some st | _, _ => None end.

(** The transactions take the ids from [n] on. *)
Fixpoint make_txns (run user : uuid) (broker : Broker) (rows : list StatedKey) (n : uuid) (sts : list (@stated D)) : res stmt_error (list TxnRow) :=
  match sts with
  | [] => Ok []
  | st :: sts =>
      match txn_of run user broker rows n st with
      | None => Err StmtConstraint
      | Some t => match make_txns run user broker rows (n + 1)%N sts with Err e => Err e | Ok ts => Ok (t :: ts) end
      end
  end.

Definition reason_ok (r : rejection) : bool := match r with ByRow _ => true | ByKey s => text_ok s end.

Definition create_item (d : stmt_db) (i : ItemRow) : res stmt_error stmt_db :=
  if negb (row_msg_ok (it_Stated i)) || negb (reason_ok (it_Reason i)) then Err StmtText
  else if negb (stmt_of d (it_StmtID i) (it_UserID i)) then Err StmtConstraint
  else if existsb (fun x => bool_decide (it_StmtID x = it_StmtID i) && bool_decide (it_Ordinal x = it_Ordinal i)) (sd_items d) then Err StmtUnique
  else Ok (sd_with_items (sd_items d ++ [i]) d).

Definition CreateStmtItems (items : list ItemRow) (d : stmt_db) : res stmt_error stmt_db := res_fold create_item d items.

Definition create_txn (d : stmt_db) (t : TxnRow) : res stmt_error stmt_db :=
  if negb (stmt_of d (tx_StmtID t) (tx_UserID t)) || negb (has_key d (tx_StatedKeyID t)) then Err StmtConstraint
  else if existsb (fun x => bool_decide (tx_ID x = tx_ID t)) (sd_txns d) then Err StmtUnique
  else Ok (sd_with_txns (sd_txns d ++ [t]) (N.max (sd_next d) (tx_ID t + 1)) d).

Definition CreateTxns (txns : list TxnRow) (d : stmt_db) : res stmt_error stmt_db := res_fold create_txn d txns.

(** [Regroup] on the tables of the statement. *)
Definition group_db (d : stmt_db) : GroupDB := MkGroupDB (sd_keys d) (map (fun t => (tx_UserID t, tx_StatedKeyID t)) (sd_txns d)).

Definition regroup (user : uuid) (d : stmt_db) : option stmt_db := g ← Regroup (group_db d) user; Some (sd_with_keys (gdb_keys g) (sd_next d) d).

(** [SweepStatedKeys]. A key's row cascades to the rows that reference it: the
    keys of its group, and the transactions, links and splits of each. *)
Definition unreferenced (d : stmt_db) (user : uuid) (k : StatedKey) : bool :=
  bool_decide (sk_UserID k = user)
    && negb (existsb (fun t => bool_decide (tx_UserID t = sk_UserID k) && bool_decide (tx_StatedKeyID t = sk_ID k)) (sd_txns d))
    && negb (existsb (fun l => bool_decide (ln_StatedKeyID l = sk_ID k)) (sd_links d)).

Definition group_in (ids : list uuid) (k : StatedKey) : bool :=
  match sk_GroupID k with Some g => bool_decide (g ∈ ids) | None => false end.

Fixpoint cascade (fuel : nat) (keys : list StatedKey) (ids : list uuid) : list uuid :=
  match fuel with
  | O => ids
  | S fuel =>
      match List.filter (fun k => negb (bool_decide (sk_ID k ∈ ids)) && group_in ids k) keys with
      | [] => ids
      | more => cascade fuel keys (ids ++ map sk_ID more)
      end
  end.

Definition delete_keys (ids : list uuid) (d : stmt_db) : stmt_db :=
  MkStmtDB (sd_runs d) (sd_stmts d) (delete_func (fun k => bool_decide (sk_ID k ∈ ids)) (sd_keys d))
    (delete_func (fun l => bool_decide (ln_StatedKeyID l ∈ ids)) (sd_links d)) (delete_func (fun s => bool_decide (xs_StatedKeyID s ∈ ids)) (sd_splits d)) (sd_items d)
    (delete_func (fun t => bool_decide (tx_StatedKeyID t ∈ ids)) (sd_txns d)) (sd_next d).

Definition SweepStatedKeys (user : uuid) (d : stmt_db) : stmt_db :=
  delete_keys (cascade (length (sd_keys d)) (sd_keys d) (map sk_ID (List.filter (unreferenced d user) (sd_keys d)))) d.

(** One attempt of the transaction of [write]. *)
Definition write (run : uuid) (g : @ingestion D) (rows : list StatedKey) (outcomes : list (ResolutionOutcome * string)) (now : time) (d : stmt_db) : res stmt_error stmt_db :=
  let d := DeleteTxns (ig_user g) (ig_broker g) (ig_from g) (ig_before g) d in
  let items := omap (item_of run (ig_user g) outcomes) (ig_rows g) in
  match make_txns run (ig_user g) (ig_broker g) rows (sd_next d) (omap (accepted_of outcomes) (ig_rows g)) with
  | Err e => Err e
  | Ok txns =>
      match CreateStmtItems items d with
      | Err e => Err e
      | Ok d =>
          match CreateTxns txns d with
          | Err e => Err e
          | Ok d =>
              match regroup (ig_user g) d with
              | None => Err StmtConstraint
              | Some d =>
                  let d := SweepStatedKeys (ig_user g) d in
                  Ok (sd_with_runs (CompleteRun (sd_runs d) run now) d)
              end
          end
      end
  end.

(** ** [work] and what follows it *)

Definition SettleStmt (id : uuid) (now : time) (d : stmt_db) : stmt_db :=
  sd_with_stmts (alter (fun s => MkStmtRow (sr_UserID s) (sr_Broker s) (sr_OrderFrom s) (sr_OrderBefore s) (sr_RowCount s) (Some now)) id (sd_stmts d)) d.

(** The answer is that of the child run, and the follow-ups are between the write
    and [SettleStmt]. *)
Definition work (run : uuid) (g : @ingestion D) (rows : list StatedKey) (answer : option (list ResolutionKey)) (now settled : time) (d : stmt_db) : res stmt_error stmt_db :=
  outcomes ← resolve rows answer;
  d ← write run g rows outcomes now d;
  Ok (SettleStmt run settled d).

Definition Live (s : StmtRow) (r : RunRow) : bool :=
  match rr_State r with
  | RunStatePending | RunStateRunning => true
  | RunStateCompleted => bool_decide (sr_SettledAt s = None)
  | RunStateFailed | RunStateInterrupted => false
  end.

(** [InterruptRuns] settles the statements too. *)
Definition settle (now : time) (s : StmtRow) : StmtRow :=
  MkStmtRow (sr_UserID s) (sr_Broker s) (sr_OrderFrom s) (sr_OrderBefore s) (sr_RowCount s) (match sr_SettledAt s with Some t => Some t | None => Some now end).

Definition sweep_stmts (now : time) (d : stmt_db) : stmt_db := sd_with_runs (InterruptRuns (sd_runs d) now) (sd_with_stmts (settle now <$> sd_stmts d) d).

(** [key] of [candidates.go]. *)
Inductive key_found : Type :=
| KeyFound (k : StatedKey)
| KeyNotFound
| ErrAssociated.

Definition GetStatedKey (user id : uuid) (d : stmt_db) : option StatedKey :=
  find_func (fun k => bool_decide (sk_ID k = id) && bool_decide (sk_UserID k = user)) (sd_keys d).

Definition own_key (user id : uuid) (d : stmt_db) : key_found :=
  match GetStatedKey user id d with
  | None => KeyNotFound
  | Some k => if bool_decide (sk_InstrID k <> None) || bool_decide (sk_ViaTickerID k <> None) then ErrAssociated else KeyFound k
  end.

End Stmts.

(** * The sweep *)

Section Facts.
Context {D : Type}.
Implicit Types d : @stmt_db D.

(** What the tables keep between transactions. *)
Record tables_ok d : Prop := {
  to_ids : NoDup (map sk_ID (sd_keys d));
  to_fresh k : k ∈ sd_keys d -> (sk_ID k < sd_next d)%N;
  (** A user states a key once. *)
  to_once k k' : k ∈ sd_keys d -> k' ∈ sd_keys d -> sk_UserID k = sk_UserID k' -> sk_AssetClass k = sk_AssetClass k' -> sk_Currency k = sk_Currency k' ->
    sk_Identifiers k = sk_Identifiers k' -> k = k';
  (** A group is named by a key of its user. *)
  to_groups k g : k ∈ sd_keys d -> sk_GroupID k = Some g -> exists kg, kg ∈ sd_keys d /\ sk_ID kg = g /\ sk_UserID kg = sk_UserID k;
  to_txn_ids : NoDup (map tx_ID (sd_txns d));
  to_txn_fresh t : t ∈ sd_txns d -> (tx_ID t < sd_next d)%N;
  to_txns t : t ∈ sd_txns d -> exists k, k ∈ sd_keys d /\ sk_ID k = tx_StatedKeyID t /\ sk_UserID k = tx_UserID t;
  to_links l : l ∈ sd_links d -> stmt_of d (ln_StmtID l) (ln_UserID l) = true /\ exists k, k ∈ sd_keys d /\ sk_ID k = ln_StatedKeyID l /\ sk_UserID k = ln_UserID l;
  (** A split's key is linked to its statement. *)
  to_splits s : s ∈ sd_splits d -> exists l, l ∈ sd_links d /\ ln_StmtID l = xs_StmtID s /\ ln_StatedKeyID l = xs_StatedKeyID s;
}.

Lemma unreferenced_spec d user k : unreferenced d user k = true <-> sk_UserID k = user /\
  (forall t, t ∈ sd_txns d -> tx_UserID t = user -> tx_StatedKeyID t = sk_ID k -> False) /\ forall l, l ∈ sd_links d -> ln_StatedKeyID l <> sk_ID k.
Proof.
  unfold unreferenced. rewrite !andb_true_iff, bool_decide_eq_true, !negb_true_iff, !existsb_false. split.
  - intros [[<- Ht] Hl]. split; [done |]. split.
    + intros t Hin Hu Hk. specialize (Ht t Hin). by rewrite !bool_decide_true in Ht.
    + intros l Hin Hk. specialize (Hl l Hin). by rewrite bool_decide_true in Hl.
  - intros (<- & Ht & Hl). split; [split; [done |] |].
    + intros t Hin. destruct (decide (tx_UserID t = sk_UserID k)) as [E|Hne]; [| by rewrite bool_decide_false]. rewrite bool_decide_true by done.
      apply bool_decide_eq_false. intros Hk. by apply (Ht t).
    + intros l Hin. apply bool_decide_eq_false. by apply Hl.
Qed.

Lemma cascade_closed fuel keys ids : (forall k, k ∈ keys -> group_in ids k = true -> sk_ID k ∈ ids) -> cascade fuel keys ids = ids.
Proof.
  intros H. destruct fuel as [|fuel]; [done |]. simpl. rewrite filter_nil_all; [done |]. intros k Hk. destruct (group_in ids k) eqn:E; [| by rewrite andb_false_r].
  rewrite bool_decide_true by by apply H. done.
Qed.

(** What a regroup leaves of a key. *)
Definition regrouped d (user : uuid) (k k' : StatedKey) : Prop := takes_group (group_db d) user k k'.

Lemma regrouped_same d user k k' : regrouped d user k k' -> sk_ID k' = sk_ID k /\ sk_UserID k' = sk_UserID k /\ sk_AssetClass k' = sk_AssetClass k /\ sk_Currency k' = sk_Currency k /\
  sk_Identifiers k' = sk_Identifiers k /\ sk_InstrID k' = sk_InstrID k /\ sk_ViaTickerID k' = sk_ViaTickerID k /\ (sk_UserID k <> user -> k' = k).
Proof.
  unfold regrouped, takes_group. case_bool_decide; [| by intros ->]. destruct (groupable _ _ _); [intros (g & -> & _) | intros ->]; done.
Qed.

Lemma regroup_ok d user : exists d', regroup user d = Some d' /\ Forall2 (regrouped d user) (sd_keys d) (sd_keys d') /\
  sd_runs d' = sd_runs d /\ sd_stmts d' = sd_stmts d /\ sd_links d' = sd_links d /\ sd_splits d' = sd_splits d /\ sd_items d' = sd_items d /\ sd_txns d' = sd_txns d /\ sd_next d' = sd_next d.
Proof.
  unfold regroup. destruct (Regroup_takes (group_db d) user) as (g & -> & _ & Hf). simpl. eexists. split; [reflexivity |]. simpl. done.
Qed.

(** Two lists of keys that differ in their groups alone. *)
Lemma Forall2_same_map {A B} (R : A -> A -> Prop) (f : A -> B) l l' : (forall x y, R x y -> f y = f x) -> Forall2 R l l' -> map f l' = map f l.
Proof. intros Hf. induction 1; simpl; [done |]. f_equal; [by apply Hf | done]. Qed.

Lemma Forall2_elem_r {A B} (R : A -> B -> Prop) l l' y : Forall2 R l l' -> y ∈ l' -> exists x, x ∈ l /\ R x y.
Proof. intros H Hy. apply list_elem_of_lookup in Hy as [i Hi]. destruct (Forall2_lookup_r _ _ _ _ _ H Hi) as (x & Hx & HR). exists x. split; [by eapply list_elem_of_lookup_2 | done]. Qed.

Lemma Forall2_elem_l {A B} (R : A -> B -> Prop) l l' x : Forall2 R l l' -> x ∈ l -> exists y, y ∈ l' /\ R x y.
Proof. intros H Hx. apply list_elem_of_lookup in Hx as [i Hi]. destruct (Forall2_lookup_l _ _ _ _ _ H Hi) as (y & Hy & HR). exists y. split; [by eapply list_elem_of_lookup_2 | done]. Qed.

Lemma regroup_tables d user d' : tables_ok d -> regroup user d = Some d' -> tables_ok d'.
Proof.
  intros [T1 T2 T3 T4 T5 T6 T7 T8 T9] Hr. destruct (regroup_ok d user) as (d1 & Hd1 & Hf & Eruns & Est & El & Es & Ei & Et & En). assert (d1 = d') as -> by congruence.
  assert (forall k', k' ∈ sd_keys d' -> exists k, k ∈ sd_keys d /\ regrouped d user k k') as Hback by (intros k' Hk'; by eapply Forall2_elem_r).
  assert (forall k, k ∈ sd_keys d -> exists k', k' ∈ sd_keys d' /\ sk_ID k' = sk_ID k /\ sk_UserID k' = sk_UserID k) as Hfwd.
  { intros k Hk. destruct (Forall2_elem_l _ _ _ k Hf Hk) as (k' & Hk' & Hg). exists k'. destruct (regrouped_same _ _ _ _ Hg) as (? & ? & _). done. }
  assert (NoDup (map sk_ID (sd_keys d'))) as Hnd.
  { rewrite (Forall2_same_map (regrouped d user) sk_ID (sd_keys d)); [done | | done]. by intros x y (? & _)%regrouped_same. }
  split; rewrite ?En, ?Et, ?El, ?Es; try done.
  - intros k' (k & Hk & (-> & _)%regrouped_same)%Hback. by apply T2.
  - intros k k' Hk Hk' Eu Ec Ecu Eid. destruct (Hback k Hk) as (k0 & Hk0 & (E1 & E2 & E3 & E4 & E5 & _)%regrouped_same), (Hback k' Hk') as (k1 & Hk1 & (F1 & F2 & F3 & F4 & F5 & _)%regrouped_same).
    assert (k0 = k1) as -> by (apply T3; [done | done | congruence..]). by apply (NoDup_key sk_ID (sd_keys d')); [| | | congruence].
  - intros k' g Hk' Hg. destruct (Hback k' Hk') as (k & Hk & Htk). destruct (regrouped_same _ _ _ _ Htk) as (Ei1 & Eu1 & _ & _ & _ & _ & _ & Hother). unfold regrouped, takes_group in Htk.
    assert (exists kg, kg ∈ sd_keys d /\ sk_ID kg = g /\ sk_UserID kg = sk_UserID k) as (kg & Hkg & <- & Eug).
    { case_bool_decide as Hu; [| subst k'; by apply T4]. destruct (groupable _ _ _) eqn:Eg; [| subst k'; by simpl in Hg].
      destruct Htk as (g' & -> & Hin & _). simpl in Hg. injection Hg as ->. apply list_elem_of_fmap in Hin as (kg & -> & Hkg). apply elem_of_groupable_keys in Hkg as [Hkg Hgk].
      apply groupable_spec in Hgk as (E & _). exists kg. split; [done |]. split; [done | congruence]. }
    destruct (Hfwd kg Hkg) as (kg' & ? & ? & ?). exists kg'. split; [done |]. split; [done | congruence].
  - intros t Ht. destruct (T7 t Ht) as (k & Hk & Eid & Eu). destruct (Hfwd k Hk) as (k' & ? & ? & ?). exists k'. split; [done |]. split; congruence.
  - intros l Hl. destruct (T8 l Hl) as (Hst & k & Hk & Eid & Eu). split; [unfold stmt_of in *; by rewrite Est |]. destruct (Hfwd k Hk) as (k' & ? & ? & ?). exists k'. split; [done |]. split; congruence.
Qed.

(** The key that names a group has a transaction. *)
Lemma group_has_txn d user d' k' g : regroup user d = Some d' -> k' ∈ sd_keys d' -> sk_UserID k' = user -> sk_GroupID k' = Some g ->
  exists t, t ∈ sd_txns d' /\ tx_UserID t = user /\ tx_StatedKeyID t = g.
Proof.
  intros Hr Hk' Eu Hg. destruct (regroup_ok d user) as (d1 & Hd1 & Hf & _ & _ & _ & _ & _ & Et & _). assert (d1 = d') as -> by congruence.
  destruct (Forall2_elem_r _ _ _ k' Hf Hk') as (k & Hk & Htk). destruct (regrouped_same _ _ _ _ Htk) as (_ & Euk & _). unfold regrouped, takes_group in Htk.
  rewrite bool_decide_true in Htk by congruence. destruct (groupable _ _ _) eqn:Egr; [| subst k'; by simpl in Hg].
  destruct Htk as (g' & -> & Hing & _). simpl in Hg. injection Hg as ->. apply list_elem_of_fmap in Hing as (k0 & Ek0 & Hk0). apply elem_of_groupable_keys in Hk0 as [_ Hgk].
  apply groupable_spec in Hgk as (_ & _ & Htxn). simpl in Htxn. apply list_elem_of_fmap in Htxn as (t & Et1 & Hint). injection Et1 as Eut Ekt. rewrite Et. exists t. split; [done |]. split; congruence.
Qed.

(** A sweep after a regroup deletes no row but the user's unreferenced keys. *)
Lemma sweep_regrouped d user d' : tables_ok d -> regroup user d = Some d' ->
  SweepStatedKeys user d' = sd_with_keys (delete_func (unreferenced d' user) (sd_keys d')) (sd_next d') d'.
Proof.
  intros Hok Hr. pose proof (regroup_tables d user d' Hok Hr) as Hok'. destruct Hok' as [T1 T2 T3 T4 T5 T6 T7 T8 T9].
  set (ids := map sk_ID (List.filter (unreferenced d' user) (sd_keys d'))).
  assert (forall k, k ∈ sd_keys d' -> sk_ID k ∈ ids <-> unreferenced d' user k = true) as Hids.
  { intros k Hk. unfold ids. split.
    - intros (k0 & E & [Hk0 Hu]%elem_of_lfilter)%list_elem_of_fmap. by rewrite (NoDup_key sk_ID _ k k0 T1 Hk Hk0 E).
    - intros Hu. apply list_elem_of_fmap. exists k. split; [done |]. by apply elem_of_lfilter. }
  assert (cascade (length (sd_keys d')) (sd_keys d') ids = ids) as Hc.
  { apply cascade_closed. intros k' Hk' Hg. exfalso. unfold group_in in Hg. destruct (sk_GroupID k') as [g|] eqn:Egk; [| done]. apply bool_decide_eq_true in Hg.
    destruct (T4 k' g Hk' Egk) as (kg & Hkg & Egid & Eug). rewrite <- Egid in Hg. apply Hids in Hg; [| done]. apply unreferenced_spec in Hg as (Euser & Hnotxn & _).
    destruct (group_has_txn d user d' k' g Hr Hk' ltac:(congruence) Egk) as (t & Ht & Eut & Ekt). apply (Hnotxn t); [done | done | congruence]. }
  unfold SweepStatedKeys. fold ids. rewrite Hc. unfold delete_keys, sd_with_keys, delete_func. f_equal.
  - apply filter_ext_in. intros k Hk%list_elem_of_In. f_equal. apply eq_true_iff_eq. rewrite bool_decide_eq_true. by apply Hids.
  - apply filter_id_all. intros l Hl. apply negb_true_iff, bool_decide_eq_false. destruct (T8 l Hl) as (_ & k & Hk & E & _). rewrite <- E. intros Hin%Hids; [| done].
    apply unreferenced_spec in Hin as (_ & _ & Hno). by apply (Hno l).
  - apply filter_id_all. intros s Hs. apply negb_true_iff, bool_decide_eq_false. destruct (T9 s Hs) as (l & Hl & _ & El). rewrite <- El.
    destruct (T8 l Hl) as (_ & k & Hk & E & _). rewrite <- E. intros Hin%Hids; [| done]. apply unreferenced_spec in Hin as (_ & _ & Hno). by apply (Hno l).
  - apply filter_id_all. intros t Ht. apply negb_true_iff, bool_decide_eq_false. destruct (T7 t Ht) as (k & Hk & E & Eu). rewrite <- E. intros Hin%Hids; [| done].
    apply unreferenced_spec in Hin as (Euser & Hno & _). by apply (Hno t); [| congruence |].
Qed.

Lemma sweep_tables d user d' : tables_ok d -> regroup user d = Some d' -> tables_ok (SweepStatedKeys user d').
Proof.
  intros Hok Hr. rewrite (sweep_regrouped d user d' Hok Hr). pose proof (regroup_tables d user d' Hok Hr) as [T1 T2 T3 T4 T5 T6 T7 T8 T9].
  assert (forall k, k ∈ delete_func (unreferenced d' user) (sd_keys d') <-> k ∈ sd_keys d' /\ unreferenced d' user k = false) as Hin by (intros k; apply elem_of_delete_func).
  split; simpl; try done.
  - by apply NoDup_key_filter.
  - intros k [Hk _]%Hin. by apply T2.
  - intros k k' [Hk _]%Hin [Hk' _]%Hin. by apply T3.
  - intros k' g [Hk' Hun]%Hin Hg. destruct (T4 k' g Hk' Hg) as (kg & Hkg & Eg & Eu). exists kg. split; [| done]. apply Hin. split; [done |].
    destruct (unreferenced d' user kg) eqn:Ek; [| done]. apply unreferenced_spec in Ek as (Euser & Hno & _).
    destruct (group_has_txn d user d' k' g Hr Hk' ltac:(congruence) Hg) as (t & Ht & Eut & Ekt). exfalso. apply (Hno t); [done | done | congruence].
  - intros t Ht. destruct (T7 t Ht) as (k & Hk & E & Eu). exists k. split; [| done]. apply Hin. split; [done |]. destruct (unreferenced d' user k) eqn:Ek; [| done].
    apply unreferenced_spec in Ek as (Euser & Hno & _). exfalso. by apply (Hno t); [| congruence |].
  - intros l Hl. destruct (T8 l Hl) as (Hst & k & Hk & E & Eu). split; [done |]. exists k. split; [| done]. apply Hin. split; [done |]. destruct (unreferenced d' user k) eqn:Ek; [| done].
    apply unreferenced_spec in Ek as (_ & _ & Hno). exfalso. by apply (Hno l).
Qed.

(** * The prepare step *)

Lemma text_ok_identifiers ids : identifiers_ok ids = true <-> forall i, i ∈ ids -> text_ok (id_Domain i) = true /\ text_ok (id_Value i) = true.
Proof. unfold identifiers_ok. rewrite forallb_elem. by setoid_rewrite andb_true_iff. Qed.

Definition storable (k : key) : Prop := identifiers_ok (k_identifiers k) = true /\ match k_currency k with Some c => text_ok c = true | None => True end.

Lemma states_spec user k row : states user k row = true <-> sk_UserID row = user /\ sk_AssetClass row = k_class k /\ sk_Currency row = k_currency k /\ sk_Identifiers row = k_identifiers k.
Proof. unfold states. rewrite !andb_true_iff, !bool_decide_eq_true. tauto. Qed.

(** The tables keep what they promise, the keys of the user grow, and nothing
    else changes. *)
Record keys_grow (user : uuid) d d' : Prop := {
  kg_ok : tables_ok d';
  kg_keys : exists new, sd_keys d' = sd_keys d ++ new /\ forall k, k ∈ new -> sk_UserID k = user /\ (sd_next d <= sk_ID k)%N /\ sk_InstrID k = None /\ sk_ViaTickerID k = None /\ sk_GroupID k = None;
  kg_next : (sd_next d <= sd_next d')%N;
  kg_rest : sd_runs d' = sd_runs d /\ sd_stmts d' = sd_stmts d /\ sd_links d' = sd_links d /\ sd_splits d' = sd_splits d /\ sd_items d' = sd_items d /\ sd_txns d' = sd_txns d;
}.

Lemma upsert_ok user k d : tables_ok d -> storable k -> exists row d', UpsertStatedKey user k d = Ok (row, d') /\ keys_grow user d d' /\ row ∈ sd_keys d' /\ states user k row = true.
Proof.
  intros Hok [Hids Hcur]. unfold UpsertStatedKey. rewrite Hids. assert (match k_currency k with Some c => text_ok c | None => true end = true) as -> by by destruct (k_currency k).
  simpl. destruct Hok as [T1 T2 T3 T4 T5 T6 T7 T8 T9]. destruct (find_func (states user k) (sd_keys d)) as [row|] eqn:Ef.
  - apply find_func_Some in Ef as [Hin Hst]. eexists row, _. split; [reflexivity |]. split; [| done]. split; simpl; [| exists []; split; [by rewrite app_nil_r | by intros ? ?%elem_of_nil] | lia | done].
    split; simpl; try done; [intros x Hx; specialize (T2 x Hx); lia | intros x Hx; specialize (T6 x Hx); lia].
  - rewrite find_func_None in Ef. set (row := MkStatedKey (sd_next d) user (k_class k) (k_currency k) (k_identifiers k) None None None None).
    exists row. eexists. split; [reflexivity |]. assert (states user k row = true) as Hst by by apply states_spec. split; [| split; [apply elem_of_app; right; left | done]].
    assert (forall x, x ∈ sd_keys d ++ [row] <-> x ∈ sd_keys d \/ x = row) as Hin by (intros x; by rewrite elem_of_app, list_elem_of_singleton).
    assert (forall x, x ∈ sd_keys d -> sk_UserID x = user -> sk_AssetClass x = k_class k -> sk_Currency x = k_currency k -> sk_Identifiers x = k_identifiers k -> False) as Hno.
    { intros x Hx ? ? ? ?. specialize (Ef x Hx). assert (states user k x = true) by by apply states_spec. congruence. }
    split; simpl; [| exists [row]; split; [done |]; intros x ->%list_elem_of_singleton; simpl; repeat split; lia | lia | done]. split; simpl; try done.
    + apply NoDup_map_snoc; [done |]. intros (x & E & Hx)%list_elem_of_fmap. specialize (T2 x Hx). simpl in E. lia.
    + intros x [Hx| ->]%Hin; [specialize (T2 x Hx); lia | simpl; lia].
    + intros x y [Hx| ->]%Hin [Hy| ->]%Hin; simpl; intros ? ? ? ?; [by apply T3 | exfalso; by apply (Hno x) | exfalso; by apply (Hno y) | done].
    + intros x g [Hx| ->]%Hin Hg; [| by simpl in Hg]. destruct (T4 x g Hx Hg) as (kg & ? & ?). exists kg. split; [apply Hin; by left | done].
    + intros t Ht. specialize (T6 t Ht). lia.
    + intros t Ht. destruct (T7 t Ht) as (x & ? & ?). exists x. split; [apply Hin; by left | done].
    + intros l Hl. destruct (T8 l Hl) as (? & x & ? & ?). split; [done |]. exists x. split; [apply Hin; by left | done].
Qed.

Lemma keys_grow_trans user d1 d2 d3 : keys_grow user d1 d2 -> keys_grow user d2 d3 -> keys_grow user d1 d3.
Proof.
  intros [A (n1 & A1 & B1) C1 (R1 & R2 & R3 & R4 & R5 & R6)] [A2 (n2 & A3 & B2) C2 (S1 & S2 & S3 & S4 & S5 & S6)]. split; [done | | lia | repeat split; congruence].
  exists (n1 ++ n2). split; [by rewrite A3, A1, app_assoc |]. intros k [Hk|Hk]%elem_of_app; [by apply B1 |]. destruct (B2 k Hk) as (? & ? & ? & ? & ?). repeat split; try done; lia.
Qed.

Lemma keys_grow_elem user d d' k : keys_grow user d d' -> k ∈ sd_keys d -> k ∈ sd_keys d'.
Proof. intros [_ (n & -> & _) _ _] Hk. apply elem_of_app. by left. Qed.

Lemma upsert_keys_ok user ks d : tables_ok d -> (forall k, k ∈ ks -> storable k) ->
  exists rows d', upsert_keys user ks d = Ok (rows, d') /\ keys_grow user d d' /\ Forall2 (fun k row => row ∈ sd_keys d' /\ states user k row = true) ks rows.
Proof.
  revert d. induction ks as [|k ks IH]; intros d Hok Hst; simpl.
  - exists [], d. split; [done |]. split; [| constructor]. split; [done | exists []; split; [by rewrite app_nil_r | by intros ? ?%elem_of_nil] | lia | done].
  - destruct (upsert_ok user k d Hok ltac:(apply Hst; left)) as (row & d1 & -> & Hg1 & Hin & Hs). destruct (IH d1 (kg_ok _ _ _ Hg1)) as (rows & d2 & -> & Hg2 & Hf); [intros x Hx; apply Hst; by right |].
    exists (row :: rows), d2. split; [done |]. split; [by apply (keys_grow_trans user d d1) |]. constructor; [| done]. split; [by eapply keys_grow_elem | done].
Qed.

(** Keys that encode apart are stated by rows apart. *)
Lemma rows_apart user (P : key -> StatedKey -> Prop) ks rows : Forall2 (fun k row => P k row /\ states user k row = true) ks rows -> NoDup (map canon ks) -> NoDup rows.
Proof.
  induction 1 as [|k row ks rows [_ Hs] Hf IH]; simpl; intros Hnd; [constructor |]. apply NoDup_cons in Hnd as [Hni Hnd]. constructor; [| by apply IH].
  intros Hin. destruct (Forall2_elem_r _ _ _ row Hf Hin) as (k' & Hk' & _ & Hs'). apply Hni. apply list_elem_of_fmap. exists k'. split; [| done].
  apply states_spec in Hs as (_ & E1 & E2 & E3), Hs' as (_ & F1 & F2 & F3). f_equal. destruct k, k'; simpl in *. congruence.
Qed.

Lemma interned_NoDup (g : @ingestion D) : interned g -> NoDup (map canon (ig_order g)).
Proof.
  intros Hi. apply NoDup_alt. intros i j c Hci Hcj. apply list_lookup_fmap_Some in Hci as (k & E1 & Hk), Hcj as (k' & E2 & Hk').
  assert (ig_keys g !! c = Some i) by (apply Hi; by exists k). assert (ig_keys g !! c = Some j) by (apply Hi; by exists k'). congruence.
Qed.

Lemma has_key_elem d id : has_key d id = true <-> exists k, k ∈ sd_keys d /\ sk_ID k = id.
Proof. unfold has_key. rewrite existsb_elem. by setoid_rewrite bool_decide_eq_true. Qed.

Lemma links_ok run user keys d : stmt_of d run user = true -> (forall k, k ∈ keys -> has_key d k = true) -> NoDup keys ->
  (forall l, l ∈ sd_links d -> ln_StmtID l <> run) -> CreateStmtKeys run user keys d = Ok (sd_with_links (sd_links d ++ map (MkLinkRow run user) keys) d).
Proof.
  intros Hst Hk Hnd Hno. unfold CreateStmtKeys.
  destruct (res_fold_inv (fun ks x => x = sd_with_links (sd_links d ++ map (MkLinkRow run user) ks) d) (fun d k => CreateStmtKey run user k d) d keys) as (d' & -> & ->); [by rewrite app_nil_r; destruct d | | done].
  intros seen s k [todo Hpre] ->. assert (k ∈ keys) as Hin by (rewrite Hpre; apply elem_of_app; left; apply elem_of_app; right; left).
  assert (k ∉ seen) as Hns. { rewrite Hpre, <- app_assoc in Hnd. apply NoDup_app in Hnd as (_ & Hd & _). intros Hs. apply (Hd k Hs). by left. }
  eexists. split; [| reflexivity]. unfold CreateStmtKey. simpl. unfold stmt_of in *. simpl. rewrite Hst. assert (has_key (sd_with_links (sd_links d ++ map (MkLinkRow run user) seen) d) k = true) as -> by by apply Hk.
  simpl. rewrite (proj2 (existsb_false _ _)); [unfold sd_with_links; simpl; by rewrite map_app, app_assoc |].
  intros l [Hl|Hl]%elem_of_app; [by rewrite (bool_decide_false (ln_StmtID l = run)) by by apply Hno |].
  apply list_elem_of_fmap in Hl as (k' & -> & Hk'). simpl. rewrite bool_decide_true by done. apply bool_decide_eq_false. congruence.
Qed.

Definition split_row (run user : uuid) (rows : list StatedKey) (s : @split D) : option SplitRow :=
  row ← rows !! sp_key s; Some (MkSplitRow run user (sp_ordinal s) (sk_ID row) (sp_effective s) (sp_quantity s) (sp_ratio s)).

Lemma splits_ok run user rows splits d : stmt_of d run user = true -> (forall row, row ∈ rows -> has_key d (sk_ID row) = true) ->
  (forall s, s ∈ splits -> (sp_key s < length rows)%nat) -> NoDup (map sp_ordinal splits) -> (forall x, x ∈ sd_splits d -> xs_StmtID x <> run) ->
  res_fold (create_split run user rows) d splits = Ok (sd_with_splits (sd_splits d ++ omap (split_row run user rows) splits) d).
Proof.
  intros Hst Hk Hin Hnd Hno.
  destruct (res_fold_inv (fun ss x => x = sd_with_splits (sd_splits d ++ omap (split_row run user rows) ss) d) (create_split run user rows) d splits) as (d' & -> & ->); [by rewrite app_nil_r; destruct d | | done].
  intros seen s0 s [todo Hpre] ->. assert (s ∈ splits) as Hs by (rewrite Hpre; apply elem_of_app; left; apply elem_of_app; right; left).
  assert (sp_ordinal s ∉ map sp_ordinal seen) as Hns.
  { rewrite Hpre, <- app_assoc, map_app in Hnd. apply NoDup_app in Hnd as (_ & Hd & _). intros Hx. apply (Hd _ Hx). by left. }
  destruct (lookup_lt_is_Some_2 rows (sp_key s) (Hin s Hs)) as [row Hrow]. eexists. split; [| reflexivity]. unfold create_split. rewrite Hrow. unfold CreateStmtSplit.
  unfold stmt_of in *. simpl. rewrite Hst. assert (has_key (sd_with_splits (sd_splits d ++ omap (split_row run user rows) seen) d) (sk_ID row) = true) as -> by (apply Hk; by eapply list_elem_of_lookup_2).
  simpl. rewrite (proj2 (existsb_false _ _)).
  - unfold sd_with_splits. simpl. rewrite omap_app. simpl. unfold split_row at 3. rewrite Hrow. simpl. by rewrite app_assoc.
  - intros x [Hx|Hx]%elem_of_app; [by rewrite (bool_decide_false (xs_StmtID x = run)) by by apply Hno |].
    apply list_elem_of_omap in Hx as (s' & Hs' & Hx). unfold split_row in Hx. destruct (rows !! sp_key s'); simpl in Hx; [| done]. injection Hx as <-. simpl. rewrite bool_decide_true by done. simpl.
    apply bool_decide_eq_false. intros E. apply Hns. apply list_elem_of_fmap. by exists s'.
Qed.

(** What [prepare] relies on of a statement that [Create] read. *)
Record preparable (g : @ingestion D) : Prop := {
  pr_interned : interned g;
  pr_period : ig_from g < ig_before g;
  pr_storable k : k ∈ ig_order g -> storable k;
  pr_splits s : s ∈ ig_splits g -> (sp_key s < length (ig_order g))%nat;
  pr_ordinals : NoDup (map sp_ordinal (ig_splits g));
}.

Definition key_rows (user : uuid) d (ks : list key) (rows : list StatedKey) : Prop :=
  Forall2 (fun k row => row ∈ sd_keys d /\ states user k row = true) ks rows.

(** The tables after the prepare step. *)
Record was_prepared (run : uuid) (g : @ingestion D) (rows : list StatedKey) d d' : Prop := {
  wp_ok : tables_ok d';
  wp_rows : key_rows (ig_user g) d' (ig_order g) rows /\ NoDup rows;
  wp_stmt : sd_stmts d' = <[run := MkStmtRow (ig_user g) (ig_broker g) (ig_from g) (ig_before g) (Z.of_nat (length (ig_rows g))) None]> (sd_stmts d);
  (** A key that the user had stated keeps its row. *)
  wp_keys : exists new, sd_keys d' = sd_keys d ++ new /\ forall k, k ∈ new -> sk_UserID k = ig_user g /\ sk_InstrID k = None /\ sk_ViaTickerID k = None;
  wp_links : sd_links d' = sd_links d ++ map (MkLinkRow run (ig_user g)) (map sk_ID rows);
  wp_splits : sd_splits d' = sd_splits d ++ omap (split_row run (ig_user g) rows) (ig_splits g) /\ length (omap (split_row run (ig_user g) rows) (ig_splits g)) = length (ig_splits g);
  wp_rest : sd_runs d' = sd_runs d /\ sd_items d' = sd_items d /\ sd_txns d' = sd_txns d /\ (sd_next d <= sd_next d')%N;
}.

Lemma rows_ids d rows : NoDup (map sk_ID (sd_keys d)) -> (forall row, row ∈ rows -> row ∈ sd_keys d) -> NoDup rows -> NoDup (map sk_ID rows).
Proof.
  intros Hids Hin. induction 1 as [|row rows Hni Hnd IH]; simpl; constructor.
  - intros (row' & E & Hr)%list_elem_of_fmap. rewrite (NoDup_key sk_ID (sd_keys d) row row') in Hni; [done | done | apply Hin; left | apply Hin; by right | done].
  - apply IH. intros r Hr. apply Hin. by right.
Qed.

Lemma stmt_prepare_ok run g d r : tables_ok d -> sd_runs d !! run = Some r -> rr_UserID r = Some (ig_user g) -> sd_stmts d !! run = None -> preparable g ->
  exists rows d', prepare run g d = Ok (rows, d') /\ was_prepared run g rows d d'.
Proof.
  intros Hok Hrun Huser Hnew [Hint Hper Hsto Hspl Hord]. pose proof Hok as [T1 T2 T3 T4 T5 T6 T7 T8 T9].
  set (srow := MkStmtRow (ig_user g) (ig_broker g) (ig_from g) (ig_before g) (Z.of_nat (length (ig_rows g))) None).
  assert (CreateStmt run (ig_user g) (ig_broker g) (ig_from g) (ig_before g) (Z.of_nat (length (ig_rows g))) d = Ok (sd_with_stmts (<[run := srow]> (sd_stmts d)) d)) as E1.
  { unfold CreateStmt. rewrite Hrun, (bool_decide_true _ Huser), (proj2 (Z.ltb_lt _ _) Hper). simpl. rewrite (proj2 (Z.ltb_ge _ _)) by lia. simpl. rewrite Hnew. done. }
  set (d1 := sd_with_stmts (<[run := srow]> (sd_stmts d)) d) in *.
  assert (forall l, l ∈ sd_links d -> ln_StmtID l <> run) as Hnolink.
  { intros l Hl E. destruct (T8 l Hl) as [Hst _]. unfold stmt_of in Hst. by rewrite E, Hnew in Hst. }
  assert (tables_ok d1) as Hok1.
  { split; try done. intros l Hl. destruct (T8 l Hl) as (Hst & Hk). split; [| done]. unfold stmt_of in *. simpl. rewrite lookup_insert_ne; [done |]. intros E. by apply (Hnolink l Hl). }
  destruct (upsert_keys_ok (ig_user g) (ig_order g) d1 Hok1 Hsto) as (rows & d2 & E2 & Hg & Hf). pose proof (rows_apart (ig_user g) _ _ _ Hf (interned_NoDup g Hint)) as Hnd.
  destruct Hg as [Hok2 (new & Hnewk & Hnewp) Hnext (R1 & R2 & R3 & R4 & R5 & R6)]. simpl in *.
  assert (forall row, row ∈ rows -> row ∈ sd_keys d2) as Hrows by (intros row Hr; destruct (Forall2_elem_r _ _ _ row Hf Hr) as (? & _ & ? & _); done).
  assert (stmt_of d2 run (ig_user g) = true) as Hst2 by (unfold stmt_of; rewrite R2, lookup_insert_eq; by apply bool_decide_eq_true).
  pose proof (links_ok run (ig_user g) (map sk_ID rows) d2 Hst2) as E3. specialize (E3 ltac:(intros i (row & -> & Hr)%list_elem_of_fmap; apply has_key_elem; eauto) (rows_ids d2 rows (to_ids _ Hok2) Hrows Hnd) ltac:(by rewrite R3)).
  set (d3 := sd_with_links _ d2) in E3.
  assert (length rows = length (ig_order g)) as Hlen by (by apply Forall2_length in Hf).
  pose proof (splits_ok run (ig_user g) rows (ig_splits g) d3 Hst2 ltac:(intros row Hr; apply has_key_elem; eauto) ltac:(by rewrite Hlen) Hord) as E4.
  specialize (E4 ltac:(simpl; rewrite R4; intros x Hx; destruct (T9 x Hx) as (l & Hl & <- & _); by apply Hnolink)).
  exists rows. eexists. split; [unfold prepare; rewrite E1, E2, E3, E4; reflexivity |]. destruct Hok2 as [U1 U2 U3 U4 U5 U6 U7 U8 U9]. split; simpl; try done.
  - split; simpl; try done.
    + intros l [Hl|Hl]%elem_of_app; [by apply U8 |]. apply list_elem_of_fmap in Hl as (i & -> & Hi). apply list_elem_of_fmap in Hi as (row & -> & Hr). simpl. split; [done |].
      exists row. split; [by apply Hrows |]. split; [done |]. destruct (Forall2_elem_r _ _ _ row Hf Hr) as (k & _ & _ & Hs). by apply states_spec in Hs as (? & _).
    + intros x [Hx|Hx]%elem_of_app.
      * destruct (U9 x Hx) as (l & Hl & ?). exists l. split; [apply elem_of_app; by left | done].
      * apply list_elem_of_omap in Hx as (s & Hs & Hx). unfold split_row in Hx. destruct (rows !! sp_key s) as [row|] eqn:Er; simpl in Hx; [| done]. injection Hx as <-.
        exists (MkLinkRow run (ig_user g) (sk_ID row)). split; [| done]. apply elem_of_app. right. apply list_elem_of_fmap. exists (sk_ID row). split; [done |].
        apply list_elem_of_fmap. exists row. split; [done | by eapply list_elem_of_lookup_2].
  - exists new. split; [done |]. intros k Hk. destruct (Hnewp k Hk) as (? & _ & ? & ? & _). done.
  - by rewrite R3.
  - rewrite R4. split; [done |]. clear -Hspl Hlen. induction (ig_splits g) as [|s ss IH]; simpl; [done |].
    destruct (lookup_lt_is_Some_2 rows (sp_key s)) as [row Hr]; [rewrite Hlen; apply Hspl; left |]. unfold split_row at 1. rewrite Hr. simpl. f_equal. apply IH. intros x Hx. apply Hspl. by right.
Qed.

(** * The write *)

(** A transaction that an accepted row states. *)
Definition txn_states (run : uuid) (g : @ingestion D) (rows : list StatedKey) (st : @stated D) (t : TxnRow) : Prop :=
  tx_UserID t = ig_user g /\ tx_Broker t = ig_broker g /\ tx_StmtID t = run /\ (exists row, rows !! st_key st = Some row /\ tx_StatedKeyID t = sk_ID row) /\
  tx_OrderDate t = st_order st /\ tx_SettlementDate t = st_settlement st /\ tx_AsAt t = st_asAt st /\ tx_Quantity t = st_quantity st.

Lemma make_txns_ok run g rows n sts : (forall st, st ∈ sts -> (st_key st < length rows)%nat) ->
  exists ts, make_txns run (ig_user g) (ig_broker g) rows n sts = Ok ts /\ Forall2 (txn_states run g rows) sts ts /\ NoDup (map tx_ID ts) /\ forall t, t ∈ ts -> (n <= tx_ID t)%N.
Proof.
  revert n. induction sts as [|st sts IH]; intros n Hin; simpl.
  - exists []. split; [done |]. split; [constructor |]. split; [constructor | by intros t ?%elem_of_nil].
  - destruct (lookup_lt_is_Some_2 rows (st_key st)) as [row Hrow]; [apply Hin; left |]. unfold txn_of. rewrite Hrow. simpl.
    destruct (IH (n + 1)%N) as (ts & -> & Hf & Hnd & Hge); [intros x Hx; apply Hin; by right |]. eexists. split; [reflexivity |]. split; [constructor; [| done] |].
    + repeat split; try done. by exists row.
    + split; [simpl; constructor; [| done] |].
      * intros (t & E & Ht)%list_elem_of_fmap. specialize (Hge t Ht). lia.
      * intros t [->|Ht]%elem_of_cons; simpl; [lia |]. specialize (Hge t Ht). lia.
Qed.

Lemma items_ok items d : (forall i, i ∈ items -> row_msg_ok (it_Stated i) = true /\ reason_ok (it_Reason i) = true /\ stmt_of d (it_StmtID i) (it_UserID i) = true /\
    forall x, x ∈ sd_items d -> it_StmtID x <> it_StmtID i) -> NoDup (map it_Ordinal items) -> CreateStmtItems items d = Ok (sd_with_items (sd_items d ++ items) d).
Proof.
  intros Hi Hnd. unfold CreateStmtItems.
  destruct (res_fold_inv (fun seen x => x = sd_with_items (sd_items d ++ seen) d) create_item d items) as (d' & -> & ->); [by rewrite app_nil_r; destruct d | | done].
  intros seen s i [todo Hpre] ->. assert (i ∈ items) as Hin by (rewrite Hpre; apply elem_of_app; left; apply elem_of_app; right; left).
  assert (it_Ordinal i ∉ map it_Ordinal seen) as Hns. { rewrite Hpre, <- app_assoc, map_app in Hnd. apply NoDup_app in Hnd as (_ & Hd & _). intros Hx. apply (Hd _ Hx). by left. }
  destruct (Hi i Hin) as (Hm & Hr & Hst & Hno). eexists. split; [| reflexivity]. unfold create_item. rewrite Hm, Hr. simpl. unfold stmt_of in *. simpl. rewrite Hst. simpl.
  rewrite (proj2 (existsb_false _ _)); [unfold sd_with_items; simpl; by rewrite app_assoc |].
  intros x [Hx|Hx]%elem_of_app; [by rewrite (bool_decide_false (it_StmtID x = _)) by (by apply Hno) |]. apply andb_false_iff. right. apply bool_decide_eq_false. intros E. apply Hns. apply list_elem_of_fmap. exists x. by split.
Qed.

Lemma txns_ok ts d : (forall t, t ∈ ts -> stmt_of d (tx_StmtID t) (tx_UserID t) = true /\ has_key d (tx_StatedKeyID t) = true /\ (sd_next d <= tx_ID t)%N) ->
  (forall t, t ∈ sd_txns d -> (tx_ID t < sd_next d)%N) -> NoDup (map tx_ID ts) ->
  exists n, CreateTxns ts d = Ok (sd_with_txns (sd_txns d ++ ts) n d) /\ (sd_next d <= n)%N /\ forall t, t ∈ ts -> (tx_ID t < n)%N.
Proof.
  intros Ht Hfresh Hnd. unfold CreateTxns.
  destruct (res_fold_inv (fun seen x => exists n, x = sd_with_txns (sd_txns d ++ seen) n d /\ (sd_next d <= n)%N /\ forall t, t ∈ seen -> (tx_ID t < n)%N) create_txn d ts)
    as (d' & -> & n & -> & Hn & Hlt); [exists (sd_next d); split; [by rewrite app_nil_r; destruct d | split; [lia | by intros t ?%elem_of_nil]] | | by exists n].
  intros seen s t [todo Hpre] (n & -> & Hn & Hlt). assert (t ∈ ts) as Hin by (rewrite Hpre; apply elem_of_app; left; apply elem_of_app; right; left).
  assert (tx_ID t ∉ map tx_ID seen) as Hns. { rewrite Hpre, <- app_assoc, map_app in Hnd. apply NoDup_app in Hnd as (_ & Hd & _). intros Hx. apply (Hd _ Hx). by left. }
  destruct (Ht t Hin) as (Hst & Hk & Hge). eexists. split.
  - unfold create_txn. unfold stmt_of in *. simpl. rewrite Hst. assert (has_key (sd_with_txns (sd_txns d ++ seen) n d) (tx_StatedKeyID t) = true) as -> by done. simpl.
    rewrite (proj2 (existsb_false _ _)); [reflexivity |]. intros x [Hx|Hx]%elem_of_app; apply bool_decide_eq_false; intros E; [specialize (Hfresh x Hx); lia |].
    apply Hns. apply list_elem_of_fmap. exists x. by split.
  - exists (N.max n (tx_ID t + 1)). split; [unfold sd_with_txns; simpl; by rewrite app_assoc |]. split; [lia |].
    intros x [Hx| ->%list_elem_of_singleton]%elem_of_app; [specialize (Hlt x Hx); lia | lia].
Qed.

(** What [write] relies on: the statement is prepared, and its rows are as
    [Create] read them. *)
Record writable_stmt (run : uuid) (g : @ingestion D) (rows : list StatedKey) (outcomes : list (ResolutionOutcome * string)) d : Prop := {
  ws_ok : tables_ok d;
  ws_stmt : stmt_of d run (ig_user g) = true;
  ws_rows row : row ∈ rows -> exists k, k ∈ sd_keys d /\ sk_ID k = sk_ID row /\ sk_UserID k = ig_user g;
  ws_accepted w st : w ∈ ig_rows g -> rw_valid w = Ok st -> (st_key st < length rows)%nat /\ ig_from g <= st_order st < ig_before g;
  ws_ordinals : NoDup (map rw_ordinal (ig_rows g));
  ws_items i : i ∈ sd_items d -> it_StmtID i <> run;
  ws_text w reason : w ∈ ig_rows g -> reason_of outcomes w = Some reason -> row_msg_ok (rw_stated w) = true /\ reason_ok reason = true;
}.

(** The tables before the regroup: the period is replaced, and the items are
    there. *)
Definition replaced (run : uuid) (g : @ingestion D) (outcomes : list (ResolutionOutcome * string)) (ts : list TxnRow) (n : uuid) d : stmt_db :=
  sd_with_txns (delete_func (in_period (ig_user g) (ig_broker g) (ig_from g) (ig_before g)) (sd_txns d) ++ ts) n
    (sd_with_items (sd_items d ++ omap (item_of run (ig_user g) outcomes) (ig_rows g)) d).

(** A transaction of the user at the broker, ordered in the claimed period. *)
Definition claimed (g : @ingestion D) (t : @TxnRow D) : Prop :=
  tx_UserID t = ig_user g /\ tx_Broker t = ig_broker g /\ ig_from g <= tx_OrderDate t < ig_before g.

#[export] Instance claimed_dec g t : Decision (claimed g t).
Proof. unfold claimed. solve_decision. Defined.

(** Why a row is refused: the error of the row itself, or else the reason its
    key was rejected for. *)
Definition refused_for (outcomes : list (ResolutionOutcome * string)) (w : @row D) (r : rejection) : Prop :=
  (exists e, rw_valid w = Err e /\ r = ByRow e) \/
  exists st reason, rw_valid w = Ok st /\ outcomes !! st_key st = Some (ResolutionOutcomeRejected, reason) /\ reason <> ""%string /\ r = ByKey reason.

(** The rows sorted, in order, into those accepted and the items of the others. *)
Inductive sorted_rows (run user : uuid) (outcomes : list (ResolutionOutcome * string)) : list (@row D) -> list (@stated D) -> list ItemRow -> Prop :=
  | sorted_none : sorted_rows run user outcomes [] [] []
  | sorted_accepted w st ws sts its : rw_valid w = Ok st -> (forall r, ~ refused_for outcomes w r) ->
      sorted_rows run user outcomes ws sts its -> sorted_rows run user outcomes (w :: ws) (st :: sts) its
  | sorted_refused w r ws sts its : refused_for outcomes w r ->
      sorted_rows run user outcomes ws sts its -> sorted_rows run user outcomes (w :: ws) sts (MkItemRow run user (rw_ordinal w) r (rw_stated w) :: its).

(** A key of the user that takes a group: no instrument is its, and one of the
    transactions [ts] names it. *)
Definition ungrouped (user : uuid) (ts : list (@TxnRow D)) (k : StatedKey) : Prop :=
  sk_UserID k = user /\ sk_InstrID k = None /\ exists t, t ∈ ts /\ tx_UserID t = user /\ tx_StatedKeyID t = sk_ID k.

(** Two such keys that state one joining identifier. *)
Definition joined (user : uuid) (ts : list (@TxnRow D)) (keys : list StatedKey) : relation uuid := fun a b =>
  exists i k l, k ∈ keys /\ l ∈ keys /\ ungrouped user ts k /\ ungrouped user ts l /\ Joining i = true /\ i ∈ sk_Identifiers k /\ i ∈ sk_Identifiers l /\
    sk_ID k = a /\ sk_ID l = b.

(** What is left of a key: its group alone may be another, and is the least id of
    the keys that a chain of joined keys reaches. *)
Definition newly_grouped (user : uuid) (ts : list (@TxnRow D)) (keys : list StatedKey) (k k' : StatedKey) : Prop :=
  (sk_UserID k <> user -> k' = k) /\
  (sk_UserID k = user -> ~ ungrouped user ts k -> k' = with_GroupID k None) /\
  (ungrouped user ts k -> exists kg, k' = with_GroupID k (Some (sk_ID kg)) /\ kg ∈ keys /\ ungrouped user ts kg /\
     rtc (joined user ts keys) (sk_ID k) (sk_ID kg) /\
     forall kj, kj ∈ keys -> ungrouped user ts kj -> rtc (joined user ts keys) (sk_ID k) (sk_ID kj) -> (sk_ID kg <= sk_ID kj)%N).

(** The tables after the write. *)
Record was_written (run : uuid) (g : @ingestion D) (rows : list StatedKey) (outcomes : list (ResolutionOutcome * string)) (now : time) (d d' : @stmt_db D) : Prop := {
  ww_ok : tables_ok d';
  (** The period holds the accepted rows and nothing else, the rest is kept, and
      each other row is an item with the reason it was refused for. *)
  ww_rows : exists sts items ts, sorted_rows run (ig_user g) outcomes (ig_rows g) sts items /\ Forall2 (txn_states run g rows) sts ts /\
    sd_txns d' = filter (fun t => ~ claimed g t) (sd_txns d) ++ ts /\ (forall t, t ∈ sd_txns d' -> claimed g t <-> t ∈ ts) /\
    sd_items d' = sd_items d ++ items /\ (length items + length ts = length (ig_rows g))%nat;
  (** The keys are regrouped by the transactions that remain. *)
  ww_groups k' : k' ∈ sd_keys d' -> exists k, k ∈ sd_keys d /\ newly_grouped (ig_user g) (sd_txns d') (sd_keys d) k k';
  (** Only those of the user that neither a transaction nor a link names are gone. *)
  ww_keys k : k ∈ sd_keys d -> (exists k', k' ∈ sd_keys d' /\ sk_ID k' = sk_ID k) <->
    (sk_UserID k = ig_user g ->
     (exists t, t ∈ sd_txns d' /\ tx_UserID t = ig_user g /\ tx_StatedKeyID t = sk_ID k) \/ exists l, l ∈ sd_links d' /\ ln_StatedKeyID l = sk_ID k);
  ww_rest : sd_stmts d' = sd_stmts d /\ sd_links d' = sd_links d /\ sd_splits d' = sd_splits d /\ sd_runs d' = CompleteRun (sd_runs d) run now;
}.

Lemma in_period_claimed g t : in_period (ig_user g) (ig_broker g) (ig_from g) (ig_before g) t = true <-> claimed g t.
Proof. unfold in_period, claimed. rewrite !andb_true_iff, !bool_decide_eq_true, Z.leb_le, Z.ltb_lt. tauto. Qed.

Lemma delete_period g ts : delete_func (in_period (ig_user g) (ig_broker g) (ig_from g) (ig_before g)) ts = filter (fun t => ~ claimed g t) ts.
Proof.
  unfold delete_func. induction ts as [|t ts IH]; simpl; [done |]. rewrite filter_cons, <- IH. destruct (in_period _ _ _ _ t) eqn:E; simpl.
  - by rewrite decide_False by (intros H; by apply H, in_period_claimed).
  - by rewrite decide_True by (intros H%in_period_claimed; congruence).
Qed.

Lemma reason_of_Some outcomes (w : @row D) r : reason_of outcomes w = Some r <-> refused_for outcomes w r.
Proof.
  unfold reason_of, refused_for. destruct (rw_valid w) as [st|e].
  - destruct (outcomes !! st_key st) as [[[] reason]|] eqn:Eo; try (split; [done | intros [(? & ? & _)|(st' & reason' & [= <-] & E & _)]; congruence]).
    case_bool_decide as Hr; split; try done.
    + intros [(? & ? & _)|(st' & reason' & [= <-] & E & Hne & _)]; congruence.
    + intros [= <-]. right. by exists st, reason.
    + intros [(? & ? & _)|(st' & reason' & [= <-] & E & Hne & ->)]; congruence.
  - split; [intros [= <-]; left; by exists e | intros [(e' & [= <-] & ->)|(? & ? & ? & _)]; done].
Qed.

Lemma rows_sorted run user outcomes (ws : list (@row D)) : sorted_rows run user outcomes ws (omap (accepted_of outcomes) ws) (omap (item_of run user outcomes) ws).
Proof.
  induction ws as [|w ws IH]; [constructor |]. simpl. unfold accepted_of at 1, item_of at 1. destruct (reason_of outcomes w) as [r|] eqn:Er; simpl.
  - destruct (rw_valid w); (constructor; [by apply reason_of_Some | done]).
  - destruct (rw_valid w) as [st|e] eqn:Ev.
    + constructor; [done | | done]. intros r Hr%reason_of_Some. congruence.
    + unfold reason_of in Er. by rewrite Ev in Er.
Qed.

Lemma groupable_ungrouped (d : @stmt_db D) user k : groupable (group_db d) user k = true <-> ungrouped user (sd_txns d) k.
Proof.
  rewrite groupable_spec. unfold ungrouped. simpl. rewrite list_elem_of_fmap. split.
  - intros (Hu & Hi & t & [= E1 E2] & Ht). split; [done |]. split; [done |]. by exists t.
  - intros (Hu & Hi & t & Ht & E1 & E2). split; [done |]. split; [done |]. exists t. split; [congruence | done].
Qed.

Lemma connected_joined (d : @stmt_db D) user a b : connected (ListGroupableKeys (group_db d) user) a b <-> rtc (joined user (sd_txns d) (sd_keys d)) a b.
Proof.
  split; intros H; refine (rtc_subrel _ _ _ _ _ H); unfold shares, joined.
  - intros x y (i & k & l & Hj & [Hk Gk]%elem_of_groupable_keys & [Hl Gl]%elem_of_groupable_keys & ? & ? & ? & ?).
    apply groupable_ungrouped in Gk, Gl. exists i, k, l. done.
  - intros x y (i & k & l & Hk & Hl & Gk & Gl & ? & ? & ? & ? & ?). apply groupable_ungrouped in Gk, Gl. exists i, k, l.
    split; [done |]. split; [by apply elem_of_groupable_keys |]. split; [by apply elem_of_groupable_keys | done].
Qed.

Lemma regrouped_newly (d : @stmt_db D) user k k' : regrouped d user k k' -> newly_grouped user (sd_txns d) (sd_keys d) k k'.
Proof.
  unfold regrouped, takes_group. case_bool_decide as Hu; [| intros ->; split; [done |]; split; [done | by intros [? _]]].
  destruct (groupable _ _ _) eqn:Eg.
  - apply groupable_ungrouped in Eg. intros (g & -> & (kg & -> & [Hkg Ggk]%elem_of_groupable_keys)%list_elem_of_fmap & Hc & Hmin).
    split; [done |]. split; [done |]. intros _. exists kg. split; [done |]. split; [done |]. split; [by apply groupable_ungrouped |].
    split; [by apply connected_joined |]. intros kj Hkj Gj Hj. apply Hmin; [| by apply connected_joined].
    apply list_elem_of_fmap_2, elem_of_groupable_keys. split; [done | by apply groupable_ungrouped].
  - intros ->. split; [done |]. split; [done |]. intros G%groupable_ungrouped. congruence.
Qed.

Lemma kept_referenced (d : @stmt_db D) user k : unreferenced d user k = false <-> (sk_UserID k = user ->
  (exists t, t ∈ sd_txns d /\ tx_UserID t = user /\ tx_StatedKeyID t = sk_ID k) \/ exists l, l ∈ sd_links d /\ ln_StatedKeyID l = sk_ID k).
Proof.
  unfold unreferenced. rewrite !andb_false_iff, !negb_false_iff, !existsb_exists, bool_decide_eq_false. setoid_rewrite <- list_elem_of_In.
  setoid_rewrite andb_true_iff. setoid_rewrite bool_decide_eq_true. split.
  - intros [[Hne|(t & Ht & E1 & E2)]|(l & Hl & E)] Hu; [done | left; exists t; repeat split; congruence || done | right; by exists l].
  - intros H. destruct (decide (sk_UserID k = user)) as [Hu|]; [| by left; left]. destruct (H Hu) as [(t & Ht & E1 & E2)|Hl]; [| by right].
    left. right. exists t. repeat split; congruence || done.
Qed.

Lemma omap_lengths {A B C} (f : A -> option B) (g : A -> option C) l : (forall x, x ∈ l -> (is_Some (f x) /\ g x = None) \/ (f x = None /\ is_Some (g x))) ->
  (length (omap f l) + length (omap g l) = length l)%nat.
Proof.
  induction l as [|x l IH]; intros H; simpl; [done |]. pose proof (IH (fun y Hy => H y ltac:(by right))) as Hl. destruct (H x ltac:(left)) as [[[b ->] ->]|[-> [c ->]]]; simpl; rewrite <- Hl; unfold omap; lia.
Qed.

Lemma reason_or_accepted run user outcomes (w : @row D) : (is_Some (item_of run user outcomes w) /\ accepted_of outcomes w = None) \/ (item_of run user outcomes w = None /\ is_Some (accepted_of outcomes w)).
Proof.
  unfold item_of, accepted_of. destruct (reason_of outcomes w) as [r|] eqn:E; simpl; [left; split; [by eexists | by destruct (rw_valid w)] |]. right. split; [done |].
  unfold reason_of in E. destruct (rw_valid w); [by eexists | done].
Qed.

Lemma omap_ordinals run user outcomes (ws : list (@row D)) : NoDup (map rw_ordinal ws) -> NoDup (map it_Ordinal (omap (item_of run user outcomes) ws)).
Proof.
  induction ws as [|w ws IH]; simpl; intros Hnd; [constructor |]. apply NoDup_cons in Hnd as [Hni Hnd]. specialize (IH Hnd). unfold item_of at 1.
  destruct (reason_of outcomes w); simpl; [| done]. constructor; [| done]. intros (i & E & Hi)%list_elem_of_fmap. apply list_elem_of_omap in Hi as (w' & Hw' & Hi).
  unfold item_of in Hi. destruct (reason_of outcomes w'); simpl in Hi; [| done]. injection Hi as <-. simpl in E. apply Hni. apply list_elem_of_fmap. by exists w'.
Qed.

(** The tables with the period replaced. *)
Lemma replaced_tables run g rows outcomes d ts n items : writable_stmt run g rows outcomes d -> Forall2 (txn_states run g rows) (omap (accepted_of outcomes) (ig_rows g)) ts ->
  NoDup (map tx_ID ts) -> (forall t, t ∈ ts -> (sd_next d <= tx_ID t < n)%N) -> (sd_next d <= n)%N ->
  tables_ok (sd_with_txns (delete_func (in_period (ig_user g) (ig_broker g) (ig_from g) (ig_before g)) (sd_txns d) ++ ts) n
    (sd_with_items items (DeleteTxns (ig_user g) (ig_broker g) (ig_from g) (ig_before g) d))).
Proof.
  intros [[T1 T2 T3 T4 T5 T6 T7 T8 T9] Hst Hrows _ _ _ _] Hf Hnd Hts Hn. split; simpl; try done.
  - intros k Hk. specialize (T2 k Hk). lia.
  - rewrite map_app. apply NoDup_app. split; [by apply NoDup_key_filter |]. split; [| done].
    intros i (t & -> & [Ht _]%elem_of_delete_func)%list_elem_of_fmap (t' & E & Ht')%list_elem_of_fmap. specialize (T6 t Ht). destruct (Hts t' Ht'). lia.
  - intros t [[Ht _]%elem_of_delete_func|Ht]%elem_of_app; [specialize (T6 t Ht); lia | by apply Hts].
  - intros t [[Ht _]%elem_of_delete_func|Ht]%elem_of_app; [by apply T7 |]. destruct (Forall2_elem_r _ _ _ t Hf Ht) as (st & _ & Eu & _ & _ & (row & Hrow & ->) & _).
    destruct (Hrows row) as (k & Hk & ? & ?); [by eapply list_elem_of_lookup_2 |]. exists k. split; [done |]. split; congruence.
Qed.

Lemma stmt_of_same d d' run user : sd_stmts d' = sd_stmts d -> stmt_of d' run user = stmt_of d run user.
Proof. intros E. unfold stmt_of. by rewrite E. Qed.

Lemma unreferenced_same d d' user k : sd_txns d' = sd_txns d -> sd_links d' = sd_links d -> unreferenced d' user k = unreferenced d user k.
Proof. intros Et El. unfold unreferenced. by rewrite Et, El. Qed.

Lemma accepted_row outcomes (ws : list (@row D)) st : st ∈ omap (accepted_of outcomes) ws -> exists w, w ∈ ws /\ rw_valid w = Ok st.
Proof.
  intros (w & Hw & Ha)%list_elem_of_omap. exists w. split; [done |]. unfold accepted_of in Ha. destruct (reason_of outcomes w); [by destruct (rw_valid w) |]. by destruct (rw_valid w); simplify_eq.
Qed.

Lemma replace_ok run g rows outcomes d : writable_stmt run g rows outcomes d ->
  exists ts n, make_txns run (ig_user g) (ig_broker g) rows (sd_next d) (omap (accepted_of outcomes) (ig_rows g)) = Ok ts /\
    (d1 ← CreateStmtItems (omap (item_of run (ig_user g) outcomes) (ig_rows g)) (DeleteTxns (ig_user g) (ig_broker g) (ig_from g) (ig_before g) d); CreateTxns ts d1) = Ok (replaced run g outcomes ts n d) /\
    Forall2 (txn_states run g rows) (omap (accepted_of outcomes) (ig_rows g)) ts /\ tables_ok (replaced run g outcomes ts n d).
Proof.
  intros Hw. pose proof Hw as [Hok Hst Hrows Hacc Hord Hit Htext].
  destruct (make_txns_ok run g rows (sd_next d) (omap (accepted_of outcomes) (ig_rows g))) as (ts & Emk & Hf & Hnd & Hge); [intros st (w & Hin & Hv)%accepted_row; by apply (Hacc w st) |].
  assert (CreateStmtItems (omap (item_of run (ig_user g) outcomes) (ig_rows g)) (DeleteTxns (ig_user g) (ig_broker g) (ig_from g) (ig_before g) d) =
    Ok (sd_with_items (sd_items d ++ omap (item_of run (ig_user g) outcomes) (ig_rows g)) (DeleteTxns (ig_user g) (ig_broker g) (ig_from g) (ig_before g) d))) as Eit.
  { refine (items_ok _ (DeleteTxns (ig_user g) (ig_broker g) (ig_from g) (ig_before g) d) _ _); [| by apply omap_ordinals]. intros i (w & Hin & Hi)%list_elem_of_omap. unfold item_of in Hi. destruct (reason_of outcomes w) as [reason|] eqn:Er; simpl in Hi; [| done]. injection Hi as <-. simpl.
    destruct (Htext w reason Hin Er) as [Hm Hr]. split; [done |]. split; [done |]. split; [by rewrite (stmt_of_same d) |]. apply Hit. }
  set (d1 := sd_with_items _ _) in Eit.
  destruct (txns_ok ts d1) as (n & Etx & Hn & Hlt); [| | done |].
  - intros t Ht. destruct (Forall2_elem_r _ _ _ t Hf Ht) as (st & _ & Eu & _ & Es & (row & Hrow & Ek) & _). rewrite Eu, Es, Ek. split; [by rewrite (stmt_of_same d) |]. split; [| by apply Hge].
    apply has_key_elem. destruct (Hrows row) as (k & Hk & ? & _); [by eapply list_elem_of_lookup_2 |]. by exists k.
  - simpl. intros t [Ht _]%elem_of_delete_func. by apply (to_txn_fresh _ Hok).
  - exists ts, n. split; [done |]. split; [rewrite Eit; simpl; rewrite Etx; done |]. split; [done |].
    apply (replaced_tables run g rows outcomes d ts n (sd_items d ++ omap (item_of run (ig_user g) outcomes) (ig_rows g)) Hw Hf Hnd); [| done]. intros t Ht. split; [by apply Hge | by apply Hlt].
Qed.

Lemma unreferenced_id d user k k' : sk_ID k' = sk_ID k -> sk_UserID k' = sk_UserID k -> unreferenced d user k' = unreferenced d user k.
Proof. intros Ei Eu. unfold unreferenced. by rewrite Ei, Eu. Qed.

Lemma write_ok run g rows outcomes now d : writable_stmt run g rows outcomes d ->
  exists d', write run g rows outcomes now d = Ok d' /\ was_written run g rows outcomes now d d'.
Proof.
  intros Hw. destruct (replace_ok run g rows outcomes d Hw) as (ts & n & Emk & Ecr & Hf & Hok). pose proof Hw as [_ _ _ Hacc _ _ _].
  set (dr := replaced run g outcomes ts n d) in *. destruct (regroup_ok dr (ig_user g)) as (dg & Erg & Hfg & E1 & E2 & E3 & E4 & E5 & E6 & E7).
  pose proof (sweep_regrouped dr (ig_user g) dg Hok Erg) as Esw. pose proof (sweep_tables dr (ig_user g) dg Hok Erg) as Hok'.
  exists (sd_with_runs (CompleteRun (sd_runs d) run now) (SweepStatedKeys (ig_user g) dg)). split.
  { unfold write. change (sd_next (DeleteTxns _ _ _ _ d)) with (sd_next d). rewrite Emk. destruct (CreateStmtItems _ _) as [d1|]; simpl in Ecr; [| done]. rewrite Ecr, Erg. do 2 f_equal. rewrite Esw. simpl. by rewrite E1. }
  rewrite Esw. set (d' := sd_with_runs _ _). assert (forall k, unreferenced d' (ig_user g) k = unreferenced dg (ig_user g) k) as Hun by (intros k; by apply unreferenced_same).
  split; simpl.
  - rewrite Esw in Hok'. destruct Hok' as [T1 T2 T3 T4 T5 T6 T7 T8 T9]. by split.
  - exists (omap (accepted_of outcomes) (ig_rows g)), (omap (item_of run (ig_user g) outcomes) (ig_rows g)), ts. split; [apply rows_sorted |]. split; [done |].
    rewrite E6, <- delete_period. split; [done |]. split; [| split; [by rewrite E5 |]].
    + intros t Ht. simpl in Ht. rewrite delete_period in Ht. split; [by apply elem_of_app in Ht as [[? _]%list_elem_of_filter|?] |].
      intros Hin. destruct (Forall2_elem_r _ _ _ t Hf Hin) as (st & Hst & Eu & Eb & _ & _ & Eo & _). apply accepted_row in Hst as (w & Hw' & Hv). destruct (Hacc w st Hw' Hv) as [_ ?].
      unfold claimed. by rewrite Eu, Eb, Eo.
    + rewrite <- (Forall2_length _ _ _ Hf). apply omap_lengths. intros w _. apply reason_or_accepted.
  - intros k' [Hk' _]%elem_of_delete_func. destruct (Forall2_elem_r _ _ _ k' Hfg Hk') as (k & Hk & Hg). exists k. split; [exact Hk |].
    rewrite E6. by apply (regrouped_newly dr).
  - intros k Hk. change (sd_txns dg) with (sd_txns d'). change (sd_links dg) with (sd_links d'). rewrite <- (kept_referenced d'), Hun. destruct (Forall2_elem_l _ _ _ k Hfg Hk) as (k1 & Hk1 & Hg). destruct (regrouped_same _ _ _ _ Hg) as (Ei & Eu & _). split.
    + intros (k' & [Hk' Hn]%elem_of_delete_func & E). rewrite <- Hn. symmetry. apply unreferenced_id; [done |].
      assert (k' = k1) as ->; [| done]. apply (NoDup_key sk_ID (sd_keys dg)); [by apply (to_ids _ (regroup_tables _ _ _ Hok Erg)) | done | done | congruence].
    + intros Hn. exists k1. split; [| done]. apply elem_of_delete_func. split; [done |]. by rewrite (unreferenced_id dg _ k k1).
  - by rewrite E2, E3, E4.
Qed.

(** * The resolution *)

(** The answer has an outcome for every key without an instrument. *)
Definition answered (rows : list StatedKey) (answer : list ResolutionKey) : Prop :=
  forall row, row ∈ rows -> sk_InstrID row = None -> exists rk, rk ∈ answer /\ rk_StatedKeyID rk = sk_ID row.

Definition taken (answer : list ResolutionKey) (row : StatedKey) (o : ResolutionOutcome * string) : Prop :=
  match sk_InstrID row with
  | Some _ => o = (ResolutionOutcomeNone, ""%string)
  | None => exists rk, rk ∈ answer /\ rk_StatedKeyID rk = sk_ID row /\ o = (rk_Outcome rk, String.concat "; " (rk_Reasons rk))
  end.

Lemma by_stated_key_lookup answer m id : NoDup (map rk_StatedKeyID answer) ->
  foldl (fun (m : gmap uuid ResolutionKey) rk => <[rk_StatedKeyID rk := rk]> m) m answer !! id =
  match find_func (fun rk => bool_decide (rk_StatedKeyID rk = id)) answer with Some rk => Some rk | None => m !! id end.
Proof.
  revert m. induction answer as [|rk answer IH]; intros m Hnd; simpl; [done |]. apply NoDup_cons in Hnd as [Hni Hnd]. rewrite IH by done. unfold find_func. simpl.
  destruct (decide (rk_StatedKeyID rk = id)) as [E|Hne].
  - rewrite (bool_decide_true (rk_StatedKeyID rk = id)) by done. fold (find_func (fun x => bool_decide (rk_StatedKeyID x = id)) answer).
    rewrite (proj2 (find_func_None _ _)); [by rewrite <- E, lookup_insert_eq |]. intros x Hx. apply bool_decide_eq_false. intros Ex. apply Hni. apply list_elem_of_fmap. exists x. split; [congruence | done].
  - rewrite (bool_decide_false (rk_StatedKeyID rk = id)) by done. by rewrite lookup_insert_ne.
Qed.

Lemma take_ok rows answer : NoDup (map rk_StatedKeyID answer) ->
  (answered rows answer <-> exists outcomes, take_outcomes rows answer = Ok outcomes) /\
  forall outcomes, take_outcomes rows answer = Ok outcomes -> Forall2 (taken answer) rows outcomes.
Proof.
  intros Hnd. unfold take_outcomes. set (m := foldl _ _ _).
  assert (forall id, m !! id = find_func (fun rk => bool_decide (rk_StatedKeyID rk = id)) answer) as Hm.
  { intros id. unfold m. rewrite by_stated_key_lookup by done. rewrite lookup_empty. by destruct (find_func _ _). }
  induction rows as [|row rows [IH1 IH2]]; simpl.
  - split; [split; [intros _; by eexists | intros _ row ?%elem_of_nil; done] | intros outs [= <-]; constructor].
  - destruct (sk_InstrID row) as [i|] eqn:Ei; simpl.
    + split.
      * split; [intros Ha | intros [outs Ho] x [->|Hx]%elem_of_cons Hn; [congruence |]].
        -- destruct (proj1 IH1) as [outs ->]; [intros x Hx; apply Ha; by right | by eexists].
        -- destruct (res_mapM _ rows) as [os|]; [| done]. apply (proj2 IH1); [by eexists | done | done].
      * intros outs Ho. destruct (res_mapM _ rows) as [os|] eqn:Eo; [| done]. injection Ho as <-. constructor; [unfold taken; by rewrite Ei | by apply IH2].
    + rewrite Hm. destruct (find_func _ answer) as [rk|] eqn:Ef.
      * apply find_func_Some in Ef as [Hin Hid%bool_decide_eq_true]. split.
        -- split; [intros Ha | intros [outs Ho] x [->|Hx]%elem_of_cons Hn; [by exists rk |]].
           ++ destruct (proj1 IH1) as [outs ->]; [intros x Hx; apply Ha; by right | by eexists].
           ++ destruct (res_mapM _ rows) as [os|]; [| done]. apply (proj2 IH1); [by eexists | done | done].
        -- intros outs Ho. destruct (res_mapM _ rows) as [os|] eqn:Eo; [| done]. injection Ho as <-. constructor; [| by apply IH2]. unfold taken. rewrite Ei. by exists rk.
      * rewrite find_func_None in Ef. split; [| done]. split; [| by intros [? ?]]. intros Ha. destruct (Ha row ltac:(left) Ei) as (rk & Hin & Hid).
        specialize (Ef rk Hin). by rewrite bool_decide_true in Ef.
Qed.

(** The dates of a key are those its accepted rows state, each once. *)
Lemma dates_spec (g : @ingestion D) n : NoDup (dates_of g n) /\ forall t, t ∈ dates_of g n <-> exists w st, w ∈ ig_rows g /\ rw_valid w = Ok st /\ st_key st = n /\ st_asAt st = t.
Proof.
  unfold dates_of. assert (forall ws ds, NoDup ds ->
    let out := foldl (fun ds w => match rw_valid w with Ok st => if bool_decide (st_key st = n) then append_unique ds (st_asAt st) else ds | Err _ => ds end) ds ws in
    NoDup out /\ forall t, t ∈ out <-> t ∈ ds \/ exists w (st : @stated D), w ∈ ws /\ rw_valid w = Ok st /\ st_key st = n /\ st_asAt st = t) as H.
  { induction ws as [|w ws IH]; intros ds Hnd; simpl; [split; [done |]; intros t; split; [by left |]; intros [?|(w & _ & ?%elem_of_nil & _)]; done |].
    destruct (rw_valid w) as [st|e] eqn:Ev; [destruct (decide (st_key st = n)) as [En|Hne] |].
    - rewrite bool_decide_true by done. destruct (IH (append_unique ds (st_asAt st)) (append_unique_NoDup ds _ Hnd)) as [Hn Hin]. split; [done |]. intros t. rewrite Hin, elem_of_append_unique.
      setoid_rewrite elem_of_cons. split; [intros [[?| ->]|(x & y & ? & ? & ? & ?)]; [by left | right; eauto 10 | right; eauto 10] |].
      intros [?|(x & y & [->|?] & Hv & ? & ?)]; [by left; left | left; right; congruence | right; eauto 10].
    - rewrite bool_decide_false by done. destruct (IH ds Hnd) as [Hn Hin]. split; [done |]. intros t. rewrite Hin. setoid_rewrite elem_of_cons. split; [intros [?|(x & y & ? & ? & ? & ?)]; [by left | right; eauto 10] |].
      intros [?|(x & y & [->|?] & Hv & ? & ?)]; [by left | congruence | right; eauto 10].
    - destruct (IH ds Hnd) as [Hn Hin]. split; [done |]. intros t. rewrite Hin. setoid_rewrite elem_of_cons. split; [intros [?|(x & y & ? & ? & ? & ?)]; [by left | right; eauto 10] |].
      intros [?|(x & y & [->|?] & Hv & ? & ?)]; [by left | congruence | right; eauto 10]. }
  destruct (H (ig_rows g) [] (NoDup_nil_2)) as [Hn Hin]. split; [done |]. intros t. rewrite Hin, elem_of_nil. tauto.
Qed.

(** * A statement from its receipt to its write *)

(** No text of the statement carries a NUL. *)
Definition texts_ok (g : @ingestion D) : Prop := (forall k, k ∈ ig_order g -> storable k) /\ forall w, w ∈ ig_rows g -> row_msg_ok (rw_stated w) = true.

Lemma read_preparable parseDate NewFromString families now user msg (g : @ingestion D) : read_stmt parseDate NewFromString families now user msg = Ok g -> texts_ok g -> preparable g.
Proof.
  intros Hr [Hs _]. destruct (read_stmt_ok parseDate NewFromString families now user msg) as [Hex Hok]. destruct (Hok g Hr) as (_ & Hb & Hf & Hbe & Hrd & _).
  destruct (proj1 Hex ltac:(by exists g)) as (b & f & bf & Eb & Ef & Ebf & Hlt & _). destruct (read_places _ _ _ _ _ _ _ Hrd) as (_ & Ho & Hk).
  split; [apply (rd_interned _ _ _ _ _ _ _ Hrd) | simplify_eq; congruence || (rewrite Hf in Ef; rewrite Hbe in Ebf; simplify_eq; done) | done | done | done].
Qed.

Lemma prepared_writable parseDate NewFromString families now user msg (g : @ingestion D) run rows outcomes d d' :
  read_stmt parseDate NewFromString families now user msg = Ok g -> texts_ok g -> (forall i, i ∈ sd_items d -> it_StmtID i <> run) ->
  (forall o, o ∈ outcomes -> text_ok o.2 = true) -> was_prepared run g rows d d' -> writable_stmt run g rows outcomes d'.
Proof.
  intros Hr [_ Ht] Hit Hout [Hok [Hrows _] Hst _ _ _ (_ & Ei & _)]. destruct (read_stmt_ok parseDate NewFromString families now user msg) as [_ Hread]. destruct (Hread g Hr) as (_ & _ & _ & _ & Hrd & Hacc).
  destruct (read_places _ _ _ _ _ _ _ Hrd) as (Ho & _). pose proof (Forall2_length _ _ _ Hrows) as Hlen. split; try done.
  - unfold stmt_of. rewrite Hst, lookup_insert_eq. by apply bool_decide_eq_true.
  - intros row Hin. destruct (Forall2_elem_r _ _ _ row Hrows Hin) as (k & _ & Hk & Hs). apply states_spec in Hs as (Eu & _). by exists row.
  - intros w st Hw Hv. destruct (Hacc w st Hw Hv) as (Hk & Hp & _). split; [by rewrite <- Hlen | done].
  - by rewrite Ei.
  - intros w reason Hw Hre. split; [by apply Ht |]. unfold reason_of in Hre. destruct (rw_valid w) as [st|e]; [| by injection Hre as <-].
    destruct (outcomes !! st_key st) as [[o reason']|] eqn:Eo; [| done]. destruct o; try done. case_bool_decide; [done |]. injection Hre as <-.
    apply (Hout (ResolutionOutcomeRejected, reason')). by eapply list_elem_of_lookup_2.
Qed.

End Facts.

(** * Examples *)

Module Example.
Import Ingest.Example.

Definition other_key : key := MkKey None None [MkIdentifier IdentifierTypeIsin "" "GB0002374006"].
Definition row_of (id : uuid) (k : key) : StatedKey := MkStatedKey id 7%N (k_class k) (k_currency k) (k_identifiers k) None None None None.

(** An earlier statement stated the key of the example of [Ingest]; another key
    has one transaction, in the period the statement claims. *)
Definition db : @stmt_db Z :=
  MkStmtDB {[20%N := MkRunRow (Some 7%N) RunKindIngestStmt RunTriggerUser None RunStateRunning None (Some 5) None]}
    {[19%N := MkStmtRow 7%N BrokerIbkr (1 * day_len) (5 * day_len) 3 (Some 4)]}
    [row_of 2 apple_key; row_of 3 other_key] [MkLinkRow 19 7 2] [] []
    [MkTxnRow 10 7 BrokerIbkr 19 2 (3 * day_len) (4 * day_len) (3 * day_len) 6; MkTxnRow 11 7 BrokerIbkr 19 2 (1 * day_len) (2 * day_len) (1 * day_len) 5;
     MkTxnRow 12 7 BrokerIbkr 19 3 (4 * day_len) (4 * day_len) (4 * day_len) 4] 100.

(** The tables after the prepare step, and the rows of the keys. *)
Definition rows : list StatedKey := match prepare 20 stmt db with Ok (rows, _) => rows | Err _ => [] end.
Definition prepared : @stmt_db Z := match prepare 20 stmt db with Ok (_, d) => d | Err _ => db end.

Definition answer : list ResolutionKey := [MkResolutionKey 21 7 2 ResolutionOutcomeUnrecognised ["openfigi: nothing"%string] 0].

Lemma list_forall {A} (P : A -> Prop) (l : list A) : Forall P l -> forall x, x ∈ l -> P x.
Proof. intros H x. by apply Forall_forall. Qed.

Ltac each := repeat (apply Forall_cons; split; [| ]); try apply Forall_nil; try exact I.

Lemma example_tables_ok : tables_ok db.
Proof.
  split.
  - refine (bool_decide_unpack _ _). vm_compute. exact I.
  - apply list_forall. each; vm_compute; reflexivity.
  - intros k k' Hk Hk'. unfold db in Hk, Hk'. simpl in Hk, Hk'. rewrite !elem_of_cons, elem_of_nil in Hk, Hk'. destruct Hk as [->|[->|[]]], Hk' as [->|[->|[]]]; simpl; try done.
  - intros k g Hk. unfold db in Hk. simpl in Hk. rewrite !elem_of_cons, elem_of_nil in Hk. by destruct Hk as [->|[->|[]]].
  - refine (bool_decide_unpack _ _). vm_compute. exact I.
  - apply list_forall. each; vm_compute; reflexivity.
  - apply list_forall. each; [exists (row_of 2 apple_key) | exists (row_of 2 apple_key) | exists (row_of 3 other_key)]; (split; [repeat constructor | done]).
  - apply list_forall. each. split; [vm_compute; reflexivity |]. exists (row_of 2 apple_key). split; [left | done].
  - by intros s ?%elem_of_nil.
Qed.

Lemma stmt_texts : texts_ok stmt.
Proof.
  split; [| apply list_forall; each; vm_compute; reflexivity].
  assert (ig_order stmt = [apple_key]) as -> by (vm_compute; reflexivity). intros k ->%list_elem_of_singleton. split; [vm_compute; reflexivity |]. vm_compute. reflexivity.
Qed.

Lemma stmt_read : read_stmt parseDate digit families (9 * day_len) 7%N msg = Ok stmt.
Proof. vm_compute. reflexivity. Qed.

Lemma stmt_prepared : prepare 20 stmt db = Ok (rows, prepared) /\ was_prepared 20 stmt rows db prepared.
Proof.
  destruct (stmt_prepare_ok 20 stmt db (MkRunRow (Some 7%N) RunKindIngestStmt RunTriggerUser None RunStateRunning None (Some 5) None) example_tables_ok) as (rs & d & Hp & Hw);
    [vm_compute; reflexivity | vm_compute; reflexivity | vm_compute; reflexivity | exact (read_preparable _ _ _ _ _ _ _ stmt_read stmt_texts) |].
  unfold rows, prepared. by rewrite Hp.
Qed.
End Example.

(** * Theorems *)

(** The prepare step of a statement that [Create] read, whose texts carry
    no NUL, keeps every constraint. It records the statement, links it to one row
    for each of its keys, a key that an earlier statement of the user stated
    keeping its row, and writes each stated split under its key's row. The
    statement can then be written whatever its keys resolve to. *)
Theorem stmt_prepare_spec {D} parseDate (NewFromString : string -> option D) families now user msg (g : @ingestion D) run r (d : @stmt_db D) :
  read_stmt parseDate NewFromString families now user msg = Ok g -> texts_ok g -> tables_ok d ->
  sd_runs d !! run = Some r -> rr_UserID r = Some user -> sd_stmts d !! run = None -> (forall i, i ∈ sd_items d -> it_StmtID i <> run) ->
  exists rows d', prepare run g d = Ok (rows, d') /\ was_prepared run g rows d d' /\
    forall outcomes, (forall o, o ∈ outcomes -> text_ok o.2 = true) -> writable_stmt run g rows outcomes d'.
Proof.
  intros Hread Ht Hok Hrun Hu Hst Hit. destruct (read_stmt_ok parseDate NewFromString families now user msg) as [_ Hg]. destruct (Hg g Hread) as (Euser & _).
  destruct (stmt_prepare_ok run g d r Hok Hrun ltac:(congruence) Hst (read_preparable _ _ _ _ _ _ _ Hread Ht)) as (rows & d' & Hp & Hw). exists rows, d'. split; [done |]. split; [done |].
  intros outcomes Ho. by apply (prepared_writable parseDate NewFromString families now user msg g run rows outcomes d d').
Qed.

(** C14: the write of a prepared statement ends and keeps every constraint. The
    transactions of the user at the broker in the claimed period are then those
    the accepted rows state, and every other transaction is kept, of another
    user, at another broker or outside the period; each other row is an item with
    the reason it was refused for, its own error or its key's rejection, and no
    row is lost or counted twice. The user's keys are regrouped by the
    transactions that remain: one with a transaction and no instrument takes the
    least id that shared joining identifiers reach, any other of the user's has no
    group. The sweep deletes exactly the user's keys that have neither a
    transaction nor a link: it cascades to nothing. *)
Theorem write_spec {D} run (g : @ingestion D) rows outcomes now (d : @stmt_db D) : writable_stmt run g rows outcomes d ->
  exists d', write run g rows outcomes now d = Ok d' /\ was_written run g rows outcomes now d d'.
Proof. apply write_ok. Qed.

(** C15: [work] asks the resolver about each key that has no instrument, with
    each as-at date of its accepted rows once. It stops with an error, before any
    write, when the resolution fails or lacks a key's outcome. Else it writes the
    statement with the outcomes, which completes the run; the statement is live
    until the follow-ups stop and it is settled, and not after. *)
Theorem work_spec {D} run (g : @ingestion D) rows answer now settled (d : @stmt_db D) r s :
  NoDup (map rk_StatedKeyID answer) -> (forall outcomes, take_outcomes rows answer = Ok outcomes -> writable_stmt run g rows outcomes d) ->
  sd_runs d !! run = Some r -> rr_State r = RunStateRunning -> sd_stmts d !! run = Some s -> sr_SettledAt s = None ->
  (forall n row, rows !! n = Some row -> sk_InstrID row = None -> exists kd, kd ∈ to_resolve g rows /\ kd_Row kd = row /\ NoDup (kd_Dates kd) /\
     forall t, t ∈ kd_Dates kd <-> exists w st, w ∈ ig_rows g /\ rw_valid w = Ok st /\ st_key st = n /\ st_asAt st = t) /\
  work run g rows None now settled d = Err ResolutionFailed /\
  (~ answered rows answer -> exists e, work run g rows (Some answer) now settled d = Err e) /\
  (answered rows answer -> exists outcomes d1 r1 s2, Forall2 (taken answer) rows outcomes /\ was_written run g rows outcomes now d d1 /\
     work run g rows (Some answer) now settled d = Ok (SettleStmt run settled d1) /\
     sd_runs d1 !! run = Some r1 /\ rr_State r1 = RunStateCompleted /\ Live s r = true /\ Live s r1 = true /\
     sd_stmts (SettleStmt run settled d1) !! run = Some s2 /\ Live s2 r1 = false).
Proof.
  intros Hnd Hw Hr Hrun Hs Hset. destruct (take_ok rows answer Hnd) as [Hiff Htk]. split; [| split; [done | split]].
  - intros n row Hn Hi. exists (MkKeyDates row (dates_of g n)). destruct (dates_spec g n) as [Hd Hin]. split; [| done].
    unfold to_resolve. apply list_elem_of_omap. exists (n, row). split; [| by rewrite bool_decide_true]. apply list_elem_of_lookup. exists n. by rewrite list_lookup_imap, Hn.
  - intros Hna. unfold work, resolve. destruct (take_outcomes rows answer) as [outs|e] eqn:E; [| by eexists]. destruct Hna. apply Hiff. by eexists.
  - intros Ha. apply Hiff in Ha as [outs Eo]. destruct (write_ok run g rows outs now d (Hw outs Eo)) as (d1 & Ewr & Hww). pose proof Hww as [_ _ _ _ (Est & _ & _ & Eruns)].
    exists outs, d1, (stop_row RunStateCompleted (rr_Error r) now r), (MkStmtRow (sr_UserID s) (sr_Broker s) (sr_OrderFrom s) (sr_OrderBefore s) (sr_RowCount s) (Some settled)).
    assert (rr_State (stop_row RunStateCompleted (rr_Error r) now r) = RunStateCompleted) as Ec by (unfold stop_row; by rewrite bool_decide_true).
    split; [by apply Htk |]. split; [done |]. split; [unfold work, resolve; rewrite Eo; simpl; by rewrite Ewr |]. split; [rewrite Eruns; unfold CompleteRun; by rewrite lookup_alter_eq, Hr |].
    split; [done |]. unfold Live. rewrite Hrun, Ec. split; [done |]. split; [by apply bool_decide_eq_true |]. split; [simpl; by rewrite lookup_alter_eq, Est, Hs |]. done.
Qed.

(** No statement is live after the sweep at boot. *)
Lemma swept_not_live {D} now (d : @stmt_db D) id s r : sd_stmts (sweep_stmts now d) !! id = Some s -> sd_runs (sweep_stmts now d) !! id = Some r -> Live s r = false.
Proof.
  simpl. unfold InterruptRuns. rewrite !lookup_fmap. intros (s0 & Hs & ->)%fmap_Some (r0 & Hr & ->)%fmap_Some. unfold Live, interrupt, settle.
  destruct (rr_State r0) eqn:E; simpl; rewrite ?E; try done. by destruct (sr_SettledAt s0).
Qed.

(** ** Witnesses *)

Lemma stmt_prepare_spec_witness : exists rows d', prepare 20 Ingest.Example.stmt Example.db = Ok (rows, d') /\ map sk_ID rows = [2%N] /\ was_prepared 20 Ingest.Example.stmt rows Example.db d'.
Proof.
  destruct (stmt_prepare_spec Ingest.Example.parseDate Ingest.Example.digit Ingest.Example.families (9 * day_len) 7%N Ingest.Example.msg Ingest.Example.stmt 20%N
    (MkRunRow (Some 7%N) RunKindIngestStmt RunTriggerUser None RunStateRunning None (Some 5) None) Example.db Example.stmt_read Example.stmt_texts Example.example_tables_ok
    ltac:(vm_compute; reflexivity) eq_refl ltac:(vm_compute; reflexivity) ltac:(by intros i ?%elem_of_nil)) as (rows & d' & Hp & Hw & _).
  exists rows, d'. split; [exact Hp |]. split; [| exact Hw]. assert (Ok (rows, d') = Ok (E := stmt_error) (Example.rows, Example.prepared)) as E by (rewrite <- Hp; apply Example.stmt_prepared).
  injection E as -> _. vm_compute. reflexivity.
Defined.

(** The transactions 10 and 12 of the period are replaced, 11 is kept, and the
    key 3, which had no other transaction, is gone. *)
Lemma write_spec_witness : exists d', write 20 Ingest.Example.stmt Example.rows [(ResolutionOutcomeUnrecognised, "openfigi: nothing"%string)] 8 Example.prepared = Ok d' /\
  was_written 20 Ingest.Example.stmt Example.rows [(ResolutionOutcomeUnrecognised, "openfigi: nothing"%string)] 8 Example.prepared d'.
Proof.
  apply (write_spec 20%N Ingest.Example.stmt Example.rows [(ResolutionOutcomeUnrecognised, "openfigi: nothing"%string)] 8 Example.prepared).
  apply (prepared_writable _ _ _ _ _ _ _ 20%N _ _ Example.db _ Example.stmt_read Example.stmt_texts ltac:(by intros i ?%elem_of_nil)); [| apply Example.stmt_prepared].
  intros o ->%list_elem_of_singleton. reflexivity.
Defined.

Example written : match write 20 Ingest.Example.stmt Example.rows [(ResolutionOutcomeUnrecognised, "openfigi: nothing"%string)] 8 Example.prepared with
  | Ok d => (map tx_ID (sd_txns d), map sk_ID (sd_keys d), map (fun k => sk_GroupID k) (sd_keys d), map it_Ordinal (sd_items d)) = ([11; 101; 102]%N, [2%N], [Some 2%N], [2; 3; 4])
  | Err _ => False
  end.
Proof. vm_compute. reflexivity. Qed.

Lemma work_spec_witness : exists d1, work 20 Ingest.Example.stmt Example.rows (Some Example.answer) 8 9 Example.prepared = Ok (SettleStmt 20 9 d1).
Proof.
  destruct (work_spec 20%N Ingest.Example.stmt Example.rows Example.answer 8 9 Example.prepared
    (MkRunRow (Some 7%N) RunKindIngestStmt RunTriggerUser None RunStateRunning None (Some 5) None) (MkStmtRow 7%N BrokerIbkr (2 * day_len) (5 * day_len) 5 None)) as (_ & _ & _ & Hok).
  - refine (bool_decide_unpack _ _). vm_compute. exact I.
  - intros outcomes Ho. assert (outcomes = [(ResolutionOutcomeUnrecognised, "openfigi: nothing"%string)]) as ->.
    { assert (take_outcomes Example.rows Example.answer = Ok [(ResolutionOutcomeUnrecognised, "openfigi: nothing"%string)]) as E by (vm_compute; reflexivity). congruence. }
    apply (prepared_writable _ _ _ _ _ _ _ 20%N _ _ Example.db _ Example.stmt_read Example.stmt_texts ltac:(by intros i ?%elem_of_nil)); [| apply Example.stmt_prepared].
    intros o ->%list_elem_of_singleton. reflexivity.
  - vm_compute. reflexivity.
  - reflexivity.
  - vm_compute. reflexivity.
  - reflexivity.
  - destruct Hok as (outs & d1 & r1 & s2 & _ & _ & Hwork & _); [| by exists d1].
    intros row Hrow _. exists (MkResolutionKey 21 7 2 ResolutionOutcomeUnrecognised ["openfigi: nothing"%string] 0). split; [left |].
    assert (map sk_ID Example.rows = [2%N]) as E by (vm_compute; reflexivity). assert (sk_ID row ∈ [2%N]) as Hin by (rewrite <- E; by apply list_elem_of_fmap; exists row).
    apply list_elem_of_singleton in Hin. simpl. congruence.
Defined.
