(* ===== verification/Resolve.v ===== *)
(** Resolving the keys of a run, [server/internal/identity/resolve]: what the
    database knows of each key ([instr.go]), the identity fetches
    ([identity.go]), what a resolution is prepared with and the body of a
    resolve statement keys run ([resolve.go]), and a user's candidates and their
    confirmation ([candidate.go]).

    The run is modelled with no other beside it: the writes of a key under
    concurrent transactions are those of [Write]. *)
From S2P Require Import Prelude Types Period Facts Rows Mic Tickers Calendar ValidityStore Market Fetch Resolution Claims Choose InstrStore Merge Record Statements Recording Writer Write Outcome Sources Dated.

(** * Definitions *)

(** ** What the database knows of a key, [instr.go] *)

(** The identifier of a type and a value, without a domain, and its instrument. *)
Definition FindIdentifier (db : instr_db) (t : IdentifierType) (value : string) : option InstrRow :=
  r ← find_func (fun r => bool_decide (to_Identifier r = MkIdentifier t "" value)) (db_identifiers db);
  find_func (fun i => bool_decide (in_ID i = ir_InstrID r)) (db_instrs db).

Definition currency_code (k : StatedKey) : string :=
  default ""%string (id_Value <$> find_func (fun id => bool_decide (id_Type id = IdentifierTypeCurrency)) (sk_Identifiers k)).

(** A family is that of a stated currency, so [*res.row.Currency] is not nil. *)
Definition findResolutionCurrency (db : instr_db) (res : resolution) : resolution :=
  let code := currency_code (rs_row res) in
  match FindIdentifier db IdentifierTypeCurrency code with
  | None => rs_decide res ResolutionOutcomeRejected ("no currency " +:+ code)
  | Some i =>
      match classConflict (rs_row res) (in_AssetClass i) with
      | Some reason => rs_decide res ResolutionOutcomeRejected reason
      | None =>
          let f := join_InstrWithCoverage db [i] i in
          if negb (bool_decide (rs_family res = noFamily)) && bool_decide (join_Listing (iw_Instr f) (rs_family res) = None)
          then rs_decide res ResolutionOutcomeRejected ("no listing of " +:+ code +:+ " in " +:+ default ""%string (sk_Currency (rs_row res)))
          else rs_know res f
      end
  end.

(** The identifiers of the query: those of every key but a currency's. *)
Definition lookup_ids (rs : list resolution) : list Identifier :=
  concat (map (fun res => if statesCurrency (rs_row res) then [] else lookupIDs (rs_globalAndDescriptionIDs res)) rs).

(** The map [byID]. *)
Definition by_identifier (ms : list instrMatch) : gmap Identifier InstrWithCoverage :=
  foldl (fun m h => foldl (fun m id => <[id := im_instr h]> m) m (im_matched h)) ∅ ms.

Definition findResolutionInstr (db : instr_db) (rs : list resolution) : list resolution :=
  let byID := by_identifier (findInstrsByIdentifier db (lookup_ids rs)) in
  map (fun res => if statesCurrency (rs_row res) then findResolutionCurrency db res else rs_match res byID) rs.

(** ** Identity fetches, [identity.go] *)

Definition rs_fetched (res : resolution) (fk : fetchKey) : resolution :=
  MkResolution (rs_row res) (rs_globalAndDescriptionIDs res) (rs_family res) (rs_families res) (rs_knownInstr res) (rs_mics res)
    (rs_fetchKeys res ++ [fk]) (rs_findings res) (rs_outcome res) (rs_reason res) (rs_via res) (rs_dating res) (rs_dates res)
    (rs_datedFromFacts res) (rs_tickers res) (rs_written res).

(** Whether the entry [e] is asked of [res]. *)
Definition asks (e : Entry) (res : resolution) : bool :=
  bool_decide (rs_outcome res = ResolutionOutcomeNone) && match rs_knownInstr res with None => true | Some f => negb (Covered f (en_Name e)) end.

(** The last loop at one entry: the key [fetchKeys[i][j]] goes to the [j]th
    resolution asked of. [None] is an index out of range. *)
Fixpoint attach_keys (asked : resolution -> bool) (rs : list resolution) (keys : list fetchKey) : option (list resolution) :=
  match rs with
  | [] => Some []
  | res :: rs' =>
      if asked res
      then match keys with
           | [] => None
           | fk :: keys' => rs'' ← attach_keys asked rs' keys'; Some (rs_fetched res fk :: rs'')
           end
      else rs'' ← attach_keys asked rs' keys; Some (res :: rs'')
  end.

Section Resolve.
Context {E : Type} `{Fetcher E}.
Variables (mics : MICMap) (families : Families) (entries : list Entry).
(** The texts of a moment, a day and an id. *)
Variables (stamp format_date : time -> string) (uuid_string : uuid -> string).

Definition identity_requests (rs : list resolution) (e : Entry) : list StatedKey := map rs_row (List.filter (asks e) rs).

Definition fetchResolutionIdentities (run : uuid) (rs : list resolution) (db : instr_db) : option (Prelude.res E (list resolution * instr_db)) :=
  match fetch_each (ft_Identity run) (zip entries (map (identity_requests rs) entries)) db with
  | Err e => Some (Err e)
  | Ok (keyss, db) =>
      rs ← opt_fold (fun rs ek => attach_keys (asks (fst ek)) rs (snd ek)) rs (zip entries keyss);
      Some (Ok (rs, db))
  end.

(** ** A batch, [resolve.go] *)

Inductive resolve_error : Type :=
| ErrSystem
| FetchFailed (e : E).

(** The answer of [prepare] over the tables [db] at the moment [now]. [dating]
    is false for a synchronous resolution. A failed fetch leaves no tables. *)
Definition prepare (run : Run) (now : time) (txns : list KeyTxn) (keys : list KeyDates) (dating : bool) (db : instr_db) :
    option (Prelude.res resolve_error (batch * instr_db)) :=
  match rn_UserID run with
  | None => Some (Err ErrSystem)
  | Some user =>
      let rs := findResolutionInstr db (map (fun k => prepared families mics (kd_Row k)) keys) in
      let rs := if dating then findResolutionDated mics (db_validity db) txns user rs keys else rs in
      r ← fetchResolutionIdentities (rn_ID run) rs db;
      match r with
      | Err e => Some (Err (FetchFailed e))
      | Ok (rs, db) =>
          if dating
          then r ← fetchResolutionFacts entries (rn_ID run) now rs db;
               Some (match r with Err e => Err (FetchFailed e) | Ok (facts, db) => Ok (MkBatch rs facts, db) end)
          else Some (Ok (MkBatch rs [], db))
      end
  end.

(** ** The writes of a run *)

Inductive write_failure : Type :=
| TickersFailed (e : get_error)
| WriteFailed (e : write_error).

(** [write] with no transaction beside it: the tickers are created, and then the
    key is written. [None] is the end of the fuel of the attempts. *)
Definition write_key (run : Run) (res : resolution) (choice : option userChoice) (db : instr_db) :
    option (Prelude.res write_failure (ResolutionKey * resolution) * instr_db) :=
  let found := with_ticker_rows (createTickers (ticker_rows db) res).1 db in
  match (Write.write stamp uuid_string run (ticker_rows db) res choice (fun _ => found) (fun _ => None)).2 with
  | Err e => Some (Err (TickersFailed e), found)
  | Ok None => None
  | Ok (Some (Err e, _)) => Some (Err (WriteFailed e), found)
  | Ok (Some (Ok (rk, _, res, _, db'), _)) => Some (Ok (rk, res), db')
  end.

(** The loop of [Resolve]: what was written, and the error that ended it. *)
Fixpoint write_keys (run : Run) (rs : list resolution) (db : instr_db) :
    option (list (ResolutionKey * resolution) * option write_failure * instr_db) :=
  match rs with
  | [] => Some ([], None, db)
  | res :: rs' =>
      r ← write_key run res None db;
      match r with
      | (Err e, db) => Some ([], Some e, db)
      | (Ok rk, db) => '(out, e, db) ← write_keys run rs' db; Some (rk :: out, e, db)
      end
  end.

(** How a run ends: before it wrote a key, at the write of one, or at the
    facts; the tables are those it leaves. *)
Inductive resolved : Type :=
| Unprepared (e : resolve_error)
| Unwritten (done : list ResolutionKey) (e : write_failure) (db : instr_db)
| Unrecorded (done : list ResolutionKey) (e : record_error)
| Resolved (out : list ResolutionKey) (written : list WrittenIdentifierFacts) (db : instr_db).

Definition Resolve (run : Run) (now : time) (txns : list KeyTxn) (keys : list KeyDates) (db : instr_db) : option resolved :=
  r ← prepare run now txns keys true db;
  match r with
  | Err e => Some (Unprepared e)
  | Ok (b, db) =>
      '(out, e, db) ← write_keys run (bt_resolutions b) db;
      match e with
      | Some e => Some (Unwritten (map fst out) e db)
      | None =>
          Some (match recordIdentifierFacts mics families entries format_date uuid_string (rn_ID run) (MkBatch (map snd out) (bt_facts b)) db with
                | Err e => Unrecorded (map fst out) e
                | Ok (written, db) => Resolved (map fst out) written db
                end)
      end
  end.

(** ** A user's choice, [candidate.go] *)

(** [Candidates]: the offer, the kinds of the findings written and the tables
    left. It dates no key, so the moment and the transactions are no matter. *)
Inductive candidates_error : Type :=
| OfferUnprepared (e : resolve_error)
| OfferUnwritten (e : write_error).

Definition offer_candidates (run : Run) (key : StatedKey) (db : instr_db) : option (Prelude.res candidates_error (Offer * list FindingKind * instr_db)) :=
  r ← prepare run 0 [] [MkKeyDates key []] false db;
  match r with
  | Err e => Some (Err (OfferUnprepared e))
  | Ok (b, db) =>
      res ← head (bt_resolutions b);
      '(o, findings) ← Choose.Candidates res;
      Some (match findings with
            | [] => Ok (o, [], db)
            | _ => match store_tx (writeFindings run res findings) db with
                   | Ok (kinds, db) => Ok (o, kinds, db)
                   | Err e => Err (OfferUnwritten e)
                   end
            end)
  end.

(** How a confirmation ends. *)
Inductive confirmed : Type :=
| ConfirmUnprepared (e : resolve_error)
| NoCandidate (why : no_candidate)
| ConfirmUnwritten (e : write_failure) (db : instr_db)
| ConfirmUnrecorded (rk : ResolutionKey) (e : record_error)
| Confirmed (rk : ResolutionKey) (written : list WrittenIdentifierFacts) (db : instr_db).

Definition Confirm (run : Run) (key : StatedKey) (p : Pick) (db : instr_db) : option confirmed :=
  r ← prepare run 0 [] [MkKeyDates key []] false db;
  match r with
  | Err e => Some (ConfirmUnprepared e)
  | Ok (b, db) =>
      res ← head (bt_resolutions b);
      if negb (bool_decide (rs_outcome res = ResolutionOutcomeNone)) then Some (NoCandidate (Choose.ErrNoCandidate (rs_reason res)))
      else
        choice ← findUserChoice res p;
        match choice with
        | Err why => Some (NoCandidate why)
        | Ok choice =>
            r ← write_key run res (Some choice) db;
            Some (match r with
                  | (Err e, db) => ConfirmUnwritten e db
                  | (Ok (rk, res), db) =>
                      match recordIdentifierFacts mics families entries format_date uuid_string (rn_ID run) (MkBatch [res] (bt_facts b)) db with
                      | Err e => ConfirmUnrecorded rk e
                      | Ok (written, db) => Confirmed rk written db
                      end
                  end)
        end
  end.

End Resolve.

(** * What the database knows of a key *)

(** The instrument an identifier names, with its rows. *)
Definition loaded (db : instr_db) (i : InstrRow) : InstrWithCoverage := join_InstrWithCoverage db [i] i.

Definition named_by (db : instr_db) (id : Identifier) : option InstrWithCoverage :=
  r ← find_func (fun r => bool_decide (to_Identifier r = id)) (db_identifiers db);
  loaded db <$> find_func (fun i => bool_decide (in_ID i = ir_InstrID r)) (db_instrs db).

Lemma join_alone db rows row : row ∈ rows -> join_InstrWithCoverage db rows row = loaded db row.
Proof.
  intros Hrow. unfold loaded, join_InstrWithCoverage, ListIdentifiersOf, ListListingsOf, ListIdentityCoverage.
  assert (forall {A} (l : list A) (f : A -> uuid), List.filter (fun x => bool_decide (f x = in_ID row)) (List.filter (fun x => contains (map in_ID rows) (f x)) l) =
    List.filter (fun x => bool_decide (f x = in_ID row)) (List.filter (fun x => contains (map in_ID [row]) (f x)) l)) as Hf.
  { intros A l f. induction l as [|x l IH]; [done |]. simpl. destruct (decide (f x = in_ID row)) as [Heq|Hne].
    - rewrite (proj2 (contains_true (map in_ID rows) (f x))) by (rewrite Heq; by apply list_elem_of_fmap_2).
      rewrite (proj2 (contains_true [in_ID row] (f x))) by (rewrite Heq; by left). simpl. rewrite bool_decide_eq_true_2 by done. by rewrite IH.
    - rewrite (proj2 (contains_false [in_ID row] (f x))) by by intros ?%list_elem_of_singleton.
      destruct (contains (map in_ID rows) (f x)); simpl; [rewrite bool_decide_eq_false_2 by done |]; apply IH. }
  f_equal; [f_equal |]; rewrite ?sort_func_filter by apply _; by rewrite ?(Hf _ _ ir_InstrID), ?(Hf _ _ lr_InstrID), ?(Hf _ _ ic_InstrID).
Qed.

Lemma match_loaded db ids m : tables_ok db -> m ∈ findInstrsByIdentifier db ids -> im_instr m = loaded db (iw_Row (im_instr m)).
Proof.
  intros Hok. unfold findInstrsByIdentifier. destruct (foldl matched_step _ _) as [instrs matched]. intros Hm%elem_of_sort_func.
  apply list_elem_of_fmap in Hm as (i & -> & Hi). simpl. by apply join_alone.
Qed.

(** The last value written at a key. *)
Lemma foldl_insert_lookup {K V} `{Countable K} (l : list (K * V)) k v : (forall v', (k, v') ∈ l -> v' = v) -> k ∈ map fst l ->
  foldl (fun (m : gmap K V) kv => <[kv.1 := kv.2]> m) ∅ l !! k = Some v.
Proof.
  induction l as [|[k' v'] l IH] using rev_ind; intros Hv Hk; [by apply elem_of_nil in Hk |]. rewrite foldl_app. simpl.
  destruct (decide (k' = k)) as [->|Hne]; [rewrite lookup_insert_eq; f_equal; apply Hv, elem_of_app; right; by left |].
  rewrite lookup_insert_ne by done. apply IH; [intros v'' Hin; apply Hv, elem_of_app; by left |].
  rewrite map_app in Hk. apply elem_of_app in Hk as [Hk| ->%list_elem_of_singleton]; done.
Qed.

Lemma foldl_insert_none {K V} `{Countable K} (l : list (K * V)) k : k ∉ map fst l ->
  foldl (fun (m : gmap K V) kv => <[kv.1 := kv.2]> m) ∅ l !! k = None.
Proof.
  induction l as [|[k' v'] l IH] using rev_ind; intros Hk; [done |]. rewrite foldl_app. simpl. rewrite map_app in Hk.
  rewrite lookup_insert_ne; [apply IH |]; intros Hin; apply Hk, elem_of_app; [by left | right; rewrite Hin; by left].
Qed.

Definition match_pairs (ms : list instrMatch) : list (Identifier * InstrWithCoverage) :=
  concat (map (fun h => map (fun id => (id, im_instr h)) (im_matched h)) ms).

Lemma by_identifier_pairs ms : by_identifier ms = foldl (fun m kv => <[kv.1 := kv.2]> m) ∅ (match_pairs ms).
Proof.
  unfold by_identifier, match_pairs. generalize (∅ : gmap Identifier InstrWithCoverage). induction ms as [|h ms IH]; intros m; [done |].
  simpl. rewrite foldl_app, IH. f_equal. rewrite <- (foldl_over (fun (m : gmap Identifier InstrWithCoverage) kv => <[kv.1 := kv.2]> m)). done.
Qed.

Lemma elem_of_match_pairs ms id j : (id, j) ∈ match_pairs ms <-> exists m, m ∈ ms /\ id ∈ im_matched m /\ j = im_instr m.
Proof.
  unfold match_pairs. rewrite elem_of_concat_map. split.
  - intros (m & Hm & (id' & [= <- ->] & Hid)%list_elem_of_fmap). by exists m.
  - intros (m & Hm & Hid & ->). exists m. split; [done |]. by apply (list_elem_of_fmap_2 (fun id => (id, im_instr m))).
Qed.

(** The query finds, for each identifier asked, the instrument it names. *)
Lemma by_identifier_lookup db ids id : tables_ok db ->
  by_identifier (findInstrsByIdentifier db ids) !! id = if decide (id ∈ ids) then named_by db id else None.
Proof.
  intros Hok. destruct (matches_spec db ids Hok) as (_ & Hspec & Hfound & _). rewrite by_identifier_pairs. set (ms := findInstrsByIdentifier db ids) in *.
  assert (forall m, m ∈ ms -> id ∈ im_matched m -> named_by db id = Some (im_instr m)) as Hone.
  { intros m Hm Hid. destruct (Hspec m Hm) as (_ & Hrow & _ & Hmt). apply Hmt in Hid as (_ & r & Hr & Hrid & Hri). unfold named_by.
    destruct (find_func _ (db_identifiers db)) as [r'|] eqn:Er.
    2: { rewrite find_func_None in Er. specialize (Er r Hr). simpl in Er. by rewrite bool_decide_eq_true_2 in Er. }
    apply find_func_Some in Er as [Hr' Hr'id%bool_decide_eq_true]. assert (r' = r) as -> by (apply (NoDup_key to_Identifier (db_identifiers db)); [apply Hok | done | done | congruence]).
    simpl. destruct (find_func _ (db_instrs db)) as [i|] eqn:Ei.
    2: { rewrite find_func_None in Ei. specialize (Ei _ Hrow). simpl in Ei. by rewrite bool_decide_eq_true_2 in Ei by by rewrite Hri. }
    apply find_func_Some in Ei as [Hi Hii%bool_decide_eq_true].
    assert (i = iw_Row (im_instr m)) as -> by (apply (NoDup_key in_ID (db_instrs db)); [apply Hok | done | done | rewrite Hii, Hri; done]).
    simpl. f_equal. symmetry. by apply (match_loaded db ids). }
  destruct (decide (id ∈ map fst (match_pairs ms))) as [Hin|Hni].
  - apply list_elem_of_fmap in Hin as ([id' j] & Hid & Hin). simpl in Hid. subst id'. pose proof Hin as (m & Hm & Hmt & ->)%elem_of_match_pairs.
    rewrite (foldl_insert_lookup _ id (im_instr m)).
    + rewrite decide_True by by apply (proj2 (proj2 (proj2 (Hspec m Hm))) id) in Hmt as [? _]. symmetry. by apply Hone.
    + intros v (m' & Hm' & Hmt' & ->)%elem_of_match_pairs. pose proof (Hone m Hm Hmt). pose proof (Hone m' Hm' Hmt'). congruence.
    + apply list_elem_of_fmap. by exists (id, im_instr m).
  - rewrite foldl_insert_none by done. destruct (decide (id ∈ ids)) as [Hids|]; [| done]. unfold named_by.
    destruct (find_func _ (db_identifiers db)) as [r|] eqn:Er; [| done]. apply find_func_Some in Er as [Hr Hrid%bool_decide_eq_true].
    destruct (Hfound r Hr) as (m & Hm & Hmi); [by rewrite Hrid |]. destruct Hni. apply list_elem_of_fmap. exists (id, im_instr m). split; [done |].
    apply elem_of_match_pairs. exists m. split; [done |]. split; [| done]. apply (proj2 (proj2 (proj2 (Hspec m Hm)))). split; [done |]. by exists r.
Qed.

(** The reference of one key: the instruments its identifiers name, in order. *)
Definition named_ids (db : instr_db) (res : resolution) : list (Identifier * InstrWithCoverage) :=
  omap (fun id => (fun f => (id, f)) <$> named_by db id) (lookupIDs (rs_globalAndDescriptionIDs res)).

Definition contradiction_of (first id : Identifier) : CreateFindingParams :=
  MkFindingParams FindingKindContradiction None None (Some (Name first +:+ " and " +:+ Name id +:+ " name different instruments")).

(** What a lookup of one key alone leaves of it: a key that states a currency is
    that currency's; identifiers that name two instruments decide it, with a
    finding; one instrument is known, unless its class conflicts with the stated
    one; and no instrument decides it only where no datasource could be asked. *)
Definition find_alone (db : instr_db) (res : resolution) : resolution :=
  if statesCurrency (rs_row res) then findResolutionCurrency db res
  else match named_ids db res with
       | [] =>
           if negb (existsb IsGlobal (rs_globalAndDescriptionIDs res)) && negb (statesBareTicker (rs_row res))
           then rs_decide res ResolutionOutcomeUnrecognised (unnamed (rs_globalAndDescriptionIDs res)) else res
       | (first, f) :: rest =>
           match find_func (fun x => negb (bool_decide (in_ID (iw_Row (snd x)) = in_ID (iw_Row f)))) rest with
           | Some (id, _) =>
               rs_decide (rs_find res (contradiction_of first id)) ResolutionOutcomeUnrecognised (Name first +:+ " and " +:+ Name id +:+ " name different instruments")
           | None =>
               match classConflict (rs_row res) (in_AssetClass (iw_Row f)) with
               | Some reason => rs_decide (rs_know res f) ResolutionOutcomeUnrecognised reason
               | None => rs_know res f
               end
           end
       end.

Lemma match_loop_first byID ids first f :
  match_loop byID ids (Some (first, f)) =
    match find_func (fun x => negb (bool_decide (in_ID (iw_Row (snd x)) = in_ID (iw_Row f)))) (omap (fun id => (fun f => (id, f)) <$> byID !! id) ids) with
    | Some (id, _) => inr (first, id) | None => inl (Some (first, f)) end.
Proof.
  induction ids as [|id ids IH]; [done |]. simpl. csimpl. destruct (byID !! id) as [hit|]; simpl; [| apply IH].
  case_bool_decide; simpl; [apply IH | done].
Qed.

Lemma match_loop_named byID ids :
  match_loop byID ids None =
    match omap (fun id => (fun f => (id, f)) <$> byID !! id) ids with
    | [] => inl None
    | (first, f) :: rest =>
        match find_func (fun x => negb (bool_decide (in_ID (iw_Row (snd x)) = in_ID (iw_Row f)))) rest with
        | Some (id, _) => inr (first, id) | None => inl (Some (first, f)) end
    end.
Proof.
  induction ids as [|id ids IH]; [done |]. simpl. csimpl. destruct (byID !! id) as [hit|]; simpl; [by rewrite match_loop_first | apply IH].
Qed.

(** One query looks up the identifiers of all the keys of a run, and each
    key is left as a lookup of it alone, by the reference [find_alone], would
    leave it: no key of a batch changes what another resolves to. *)
Lemma findResolutionInstr_ok db rs : tables_ok db -> findResolutionInstr db rs = map (find_alone db) rs.
Proof.
  intros Hok. unfold findResolutionInstr. apply map_ext_in. intros res Hres%list_elem_of_In. unfold find_alone.
  destruct (statesCurrency (rs_row res)) eqn:Ec; [done |]. unfold rs_match. rewrite match_loop_named.
  assert (omap (fun id => (fun f => (id, f)) <$> by_identifier (findInstrsByIdentifier db (lookup_ids rs)) !! id) (lookupIDs (rs_globalAndDescriptionIDs res)) =
    named_ids db res) as ->.
  { unfold named_ids. assert (forall id, id ∈ lookupIDs (rs_globalAndDescriptionIDs res) -> id ∈ lookup_ids rs) as Hin.
    { intros id Hid. apply elem_of_concat_map. exists res. split; [done |]. by rewrite Ec. }
    induction (lookupIDs _) as [|id ids IH]; [done |]. csimpl. rewrite (by_identifier_lookup db _ id Hok), decide_True by (apply Hin; by left).
    rewrite IH by (intros; apply Hin; by right). done. }
  destruct (named_ids db res) as [|[first f] rest]; [done |]. by destruct (find_func _ rest) as [[id g]|].
Qed.

(** ** Rejection *)

(** What the tables hold of a currency's instrument: its class, and the families
    of its listings. *)
Definition currency_seed (db : instr_db) (code : string) : option (AssetClass * list string) :=
  (fun i => (in_AssetClass i, map lr_Currency (ji_Listings (iw_Instr (loaded db i))))) <$> FindIdentifier db IdentifierTypeCurrency code.

Lemma join_Listing_none j fam : join_Listing j fam = None <-> fam ∉ map lr_Currency (ji_Listings j).
Proof.
  unfold join_Listing. change List.find with @find_func. rewrite find_func_None. split.
  - intros Hn (l & -> & Hl)%list_elem_of_fmap. specialize (Hn l Hl). simpl in Hn. by rewrite bool_decide_eq_true_2 in Hn.
  - intros Hn l Hl. apply bool_decide_eq_false. intros <-. apply Hn. by apply list_elem_of_fmap_2.
Qed.

(** Whether a currency key is rejected. *)
Definition rejects_currency (db : instr_db) (k : StatedKey) (family : string) : Prop :=
  match currency_seed db (currency_code k) with
  | None => True
  | Some (class, families) => is_Some (classConflict k class) \/ (family <> noFamily /\ family ∉ families)
  end.

Lemma findResolutionCurrency_ok db res : rs_outcome res = ResolutionOutcomeNone ->
  rs_row (findResolutionCurrency db res) = rs_row res /\
  (rs_outcome (findResolutionCurrency db res) = ResolutionOutcomeRejected <-> rejects_currency db (rs_row res) (rs_family res)) /\
  (rs_outcome (findResolutionCurrency db res) = ResolutionOutcomeRejected \/ rs_outcome (findResolutionCurrency db res) = ResolutionOutcomeNone).
Proof.
  intros Ho. unfold findResolutionCurrency, rejects_currency, currency_seed. destruct (FindIdentifier _ _ _) as [i|]; simpl; [| tauto].
  destruct (classConflict _ _) as [why|] eqn:Ec; simpl; [split; [done |]; split; [| by left]; split; [by left; exists why | done] |].
  destruct (bool_decide (rs_family res = noFamily)) eqn:Ef; simpl.
  - apply bool_decide_eq_true in Ef. rewrite Ho. split; [done |]. split; [| by right]. split; [done |]. intros [[? ?]|[? _]]; done.
  - apply bool_decide_eq_false in Ef. case_bool_decide as Hj; simpl.
    + apply join_Listing_none in Hj. split; [done |]. split; [| by left]. split; [by right | done].
    + rewrite Ho. split; [done |]. split; [| by right]. split; [done |]. intros [[? ?]|[_ Hn]]; [done |]. by destruct Hj; apply join_Listing_none.
Qed.

Lemma find_alone_row db res : rs_row (find_alone db res) = rs_row res.
Proof.
  unfold find_alone. destruct (statesCurrency _).
  - unfold findResolutionCurrency. destruct (FindIdentifier _ _ _); [| done]. destruct (classConflict _ _); [done |]. by destruct (_ && _).
  - destruct (named_ids _ _) as [|[first f] rest]; [by destruct (_ && _) |]. destruct (find_func _ _) as [[id g]|]; [done |]. by destruct (classConflict _ _).
Qed.

Lemma find_alone_rejected db res : rs_outcome res = ResolutionOutcomeNone ->
  rs_outcome (find_alone db res) = ResolutionOutcomeRejected <-> statesCurrency (rs_row res) = true /\ rejects_currency db (rs_row res) (rs_family res).
Proof.
  intros Ho. unfold find_alone. destruct (statesCurrency _) eqn:Ec.
  - destruct (findResolutionCurrency_ok db res Ho) as (_ & -> & _). naive_solver.
  - split; [| by intros [? _]]. destruct (named_ids _ _) as [|[first f] rest]; [destruct (_ && _); simpl; congruence |].
    destruct (find_func _ _) as [[id g]|]; [done |]. destruct (classConflict _ _); simpl; congruence.
Qed.

(** * Identity fetches *)

(** A resolution after the fetch keys [ks]. *)
Definition rs_with_keys (res : resolution) (ks : list fetchKey) : resolution := foldl rs_fetched res ks.

Lemma rs_with_keys_fields res ks : let res' := rs_with_keys res ks in
  rs_row res' = rs_row res /\ rs_globalAndDescriptionIDs res' = rs_globalAndDescriptionIDs res /\ rs_family res' = rs_family res /\
  rs_families res' = rs_families res /\ rs_knownInstr res' = rs_knownInstr res /\ rs_mics res' = rs_mics res /\
  rs_fetchKeys res' = rs_fetchKeys res ++ ks /\ rs_findings res' = rs_findings res /\ rs_outcome res' = rs_outcome res /\ rs_reason res' = rs_reason res /\
  rs_via res' = rs_via res /\ rs_dating res' = rs_dating res /\ rs_dates res' = rs_dates res /\ rs_datedFromFacts res' = rs_datedFromFacts res /\
  rs_tickers res' = rs_tickers res /\ rs_written res' = rs_written res.
Proof.
  cbv zeta. induction ks as [|k ks IH] using rev_ind; simpl; [by rewrite app_nil_r |]. unfold rs_with_keys in *. rewrite foldl_app. simpl.
  destruct IH as (-> & -> & -> & -> & -> & -> & -> & -> & -> & -> & -> & -> & -> & -> & -> & ->). by rewrite <- app_assoc.
Qed.

Lemma asks_with_keys e res ks : asks e (rs_with_keys res ks) = asks e res.
Proof. unfold asks. by destruct (rs_with_keys_fields res ks) as (_ & _ & _ & _ & -> & _ & _ & _ & -> & _). Qed.

Lemma attach_keys_ok asked rs keys : map fk_Request keys = map rs_row (List.filter asked rs) ->
  exists out, attach_keys asked rs keys = Some out /\
    Forall2 (fun r o => if asked r then exists k, k ∈ keys /\ fk_Request k = rs_row r /\ o = rs_with_keys r [k] else o = r) rs out.
Proof.
  revert keys. induction rs as [|r rs IH]; intros keys Hk; simpl in *; [by exists [] |]. destruct (asked r) eqn:Ea.
  - destruct keys as [|k keys]; [done |]. injection Hk as Hk Hks. destruct (IH keys Hks) as (out & -> & Hout). simpl. eexists. split; [reflexivity |].
    constructor; [rewrite Ea; exists k; split; [by left | done] |]. eapply Forall2_impl; [exact Hout |]. intros r' o. simpl. destruct (asked r'); [| done].
    intros (k' & Hk' & H). exists k'. split; [by right | done].
  - destruct (IH keys Hk) as (out & -> & Hout). simpl. eexists. split; [reflexivity |]. constructor; [by rewrite Ea | done].
Qed.

Section Identities.
Context {E : Type} `{IdentityFetcher E} (entries : list Entry).

(** The keys [ks] that a resolution takes of the answers [keys]: one of each
    entry that is asked of it, in their order, for its row. *)
Record identified (keys : list fetchKey) (es : list Entry) (res res' : resolution) (ks : list fetchKey) : Prop := {
  id_keys : res' = rs_with_keys res ks;
  id_sources : map fk_Source ks = map en_Name (List.filter (fun e => asks e res) es);
  id_requests : Forall (fun k => fk_Request k = rs_row res) ks;
  id_sublist : ks `sublist_of` keys;
}.

Lemma identity_requests_with rs out e : Forall2 (fun r o => exists ks, o = rs_with_keys r ks) rs out -> identity_requests out e = identity_requests rs e.
Proof.
  unfold identity_requests. induction 1 as [|r o rs out [ks ->] _ IH]; [done |]. simpl. rewrite asks_with_keys.
  destruct (asks e r); simpl; [| done]. destruct (rs_with_keys_fields r ks) as (-> & _). by rewrite IH.
Qed.

Lemma attach_entries es keyss : forall rs,
  Forall2 (fun e keys => map fk_Request keys = identity_requests rs e /\ Forall (fun k => fk_Source k = en_Name e) keys) es keyss ->
  exists out, opt_fold (fun rs ek => attach_keys (asks (fst ek)) rs (snd ek)) rs (zip es keyss) = Some out /\
    Forall2 (fun r o => exists ks, identified (concat keyss) es r o ks) rs out.
Proof.
  revert keyss. induction es as [|e es IH]; intros keyss rs Hk.
  { inversion_clear Hk. exists rs. split; [done |]. apply Forall_Forall2_diag, Forall_forall. intros r _. exists []. split; done. }
  inversion_clear Hk as [|? keys ? keyss' [Hr Hs] Hk']. simpl. destruct (attach_keys_ok (asks e) rs keys Hr) as (out1 & -> & H1).
  destruct (IH keyss' out1) as (out & -> & H2).
  { eapply Forall2_impl; [exact Hk' |]. intros e' keys' [Hr' Hs']. split; [| done]. rewrite Hr'. symmetry. apply identity_requests_with.
    eapply Forall2_impl; [exact H1 |]. intros r o. simpl. destruct (asks e r); [intros (k & _ & _ & ->); by exists [k] | intros ->; by exists []]. }
  exists out. split; [done |]. clear -H1 H2 Hs. revert out H2. induction H1 as [|r o1 rs out1 Hro _ IH]; intros out H2; inversion_clear H2 as [|? o ? out' [ks [-> Hsrc Hreq Hsub]] H2'];
    constructor; [| by apply IH]. clear IH H2'. destruct (asks e r) eqn:Ea.
  - destruct Hro as (k & Hk & Hkr & ->). exists (k :: ks). destruct (rs_with_keys_fields r [k]) as (Hrow & _). split; [done | | |].
    + simpl. rewrite Ea. simpl. f_equal; [by apply (proj1 (Forall_forall _ _) Hs) |]. by rewrite Hsrc.
    + constructor; [done |]. eapply Forall_impl; [exact Hreq |]. intros k' ->. done.
    + apply (sublist_app [k] keys ks); [| done]. by apply singleton_sublist_l.
  - subst o1. exists ks. split; [done | simpl; by rewrite Ea | done |]. simpl. by apply sublist_inserts_l.
Qed.

(** The identity fetches of a batch. *)
Definition all_identified (db : instr_db) (rs rs' : list resolution) (db' : instr_db) : Prop :=
  exists keys, all_fetched good_identity db keys db' /\ Forall2 (fun r r' => exists ks, identified keys entries r r' ks) rs rs'.

(** The identity fetches never run out of answers, and where none fails,
    each key takes one fetch key of each datasource it is asked of, in the order
    of precedence, for its own row: a decided key takes none, and a datasource
    that covers the instrument the database names is not asked. Nothing else of
    a key changes, the fetch keys are new and stored, and the tables keep their
    constraints. *)
Lemma fetchResolutionIdentities_ok run rs db : stored_ok db ->
  exists r, fetchResolutionIdentities entries run rs db = Some r /\ match r with Err _ => True | Ok (rs', db') => all_identified db rs rs' db' end.
Proof.
  intros Hso. unfold fetchResolutionIdentities.
  pose proof (fetch_each_ok (ft_Identity run) good_identity (if_identity run) (zip entries (map (identity_requests rs) entries)) db db [] (all_fetched_nil _ db Hso)) as Hf.
  destruct (fetch_each _ _ db) as [[keyss db']|e]; [| by exists (Err e)]. destruct Hf as [Hall Hz]. simpl in Hall.
  destruct (attach_entries entries keyss rs) as (out & Hout & Hid).
  - clear -Hz. remember entries as es eqn:Ees. clear Ees. revert keyss Hz. induction es as [|e es IH]; intros keyss Hz; simpl in Hz; inversion_clear Hz as [|? keys ? keyss' [Hr Hs] Hz']; [constructor |].
    constructor; [done | by apply IH].
  - rewrite Hout. cbn [mbind option_bind]. eexists. split; [reflexivity |]. by exists (concat keyss).
Qed.

End Identities.
