(* ===== verification/Resolving.v ===== *)
(** What resolving the keys of a run leaves ([resolve.go] of
    [server/internal/identity/resolve], over the definitions of [Resolve]): how
    each key is prepared, the resolutions a run writes and those it leaves where
    it fails partway, and what decides the rejection of a key. *)
From S2P Require Import Prelude Types Period Facts Rows Mic Tickers Calendar ValidityStore Market Fetch Resolution Claims Choose InstrStore Merge Record Statements Recording Writer Write Outcome Sources Dated Resolve.

(** * The resolutions of a write *)

(** Every step of a write but the last leaves the resolutions as they are. *)
Section Unresolving.
Variables (stamp : time -> string) (uuid_string : uuid -> string).

Lemma keeping_AssertInstr key r instr day st : keeping unresolving (AssertInstr key r instr day st).
Proof. apply keeping_assert. Qed.

#[local] Hint Resolve keeping_assert keeping_AssertInstr : keeping.

Lemma keeping_merge key ms : keeping unresolving (merge stamp key ms).
Proof.
  unfold merge, merge_fold, fold, move_step, DeferConstraints, MoveListing, RelinkIdentifiers, RelinkStatedKeys, RelinkFetchKeys,
    RelinkIdentifierAssertions, MoveIdentityCoverage, DeleteIdentityCoverage, DeleteListings, DeleteInstr. keeping.
Qed.

Lemma keeping_tickerOf res id : keeping unresolving (tickerOf res id).
Proof. unfold tickerOf. keeping. Qed.

#[local] Hint Resolve keeping_merge keeping_tickerOf : keeping.

Lemma keeping_recordUnknown res : keeping unresolving (recordUnknown res).
Proof. unfold recordUnknown, unknown_step. keeping. Qed.

Lemma keeping_decide_merge v locked t merging : keeping unresolving (decide_merge stamp v locked t merging).
Proof. unfold decide_merge, checkMoved. keeping. Qed.

#[local] Hint Resolve keeping_recordUnknown keeping_decide_merge : keeping.

Lemma keeping_decide res choice c : keeping unresolving (decide_write stamp uuid_string res choice c).
Proof. unfold decide_write. keeping. Qed.

Lemma unresolving_identify_all key listing w ids : keeping unresolving (identify_all key listing w ids).
Proof. unfold identify_all, identify, CreateIdentifier. keeping. Qed.

#[local] Hint Resolve unresolving_identify_all : keeping.

Lemma keeping_attach_family c key w f : keeping unresolving (attach_family c key w f).
Proof.
  unfold attach_family, attach_listing, CreateListing, SetListingPrimary. keeping.
Qed.

#[local] Hint Resolve keeping_attach_family : keeping.

Lemma keeping_attach w c : keeping unresolving (attach w c).
Proof. unfold attach, SetFetchKeyInstr, attach_ticker. keeping. Qed.

#[local] Hint Resolve keeping_attach : keeping.

Lemma keeping_writeInstr user res d : keeping unresolving (writeInstr user res d).
Proof. unfold writeInstr, w_create, CreateInstr, recordIdentityCoverage, cover_step, UpsertIdentityCoverage. keeping. Qed.

Lemma keeping_writeDated user res v arbiter : keeping unresolving (writeDated user res v arbiter).
Proof. unfold writeDated, SetStatedKeyDatedAssociation. keeping. Qed.

#[local] Hint Resolve keeping_writeDated : keeping.

Lemma keeping_associateKey w v choice : keeping unresolving (associateKey w v choice).
Proof. unfold associateKey, associate, SetStatedKeyAssociation. keeping. Qed.

Lemma keeping_writeFindings run res fs : keeping unresolving (writeFindings run res fs).
Proof. unfold writeFindings, CreateFinding. keeping. Qed.

End Unresolving.

#[export] Hint Resolve keeping_decide keeping_writeInstr keeping_writeDated keeping_associateKey keeping_writeFindings : keeping.

(** Wherever [m] succeeds it adds one resolution, [g] of its answer, of which
    [P] holds. *)
Definition appending (P : ResolutionKey -> Prop) {A} (g : A -> ResolutionKey) (m : tx A) : Prop := forall db a db', m db = Ok (a, db') ->
  (db_next db <= db_next db')%N /\ db_resolutions db' = db_resolutions db ++ [g a] /\ P (g a).

Section Appending.
Context (P : ResolutionKey -> Prop).

Lemma appending_after {A B} (m : tx A) (f : A -> tx B) g : keeping unresolving m -> (forall a, appending P g (f a)) -> appending P g (m ≫= f).
Proof.
  intros Hm Hf db b db'' Hrun. unfold mbind, tx_bind in Hrun. destruct (m db) as [[a db']|e] eqn:Em; [| done].
  destruct (Hm _ _ _ Em) as [N1 E1]. destruct (Hf _ _ _ _ Hrun) as (N2 & E2 & HP). rewrite <- E1. split; [lia | done].
Qed.

Lemma appending_before {A B} (m : tx A) (f : A -> tx B) g g' : appending P g m ->
  (forall a db b db', f a db = Ok (b, db') -> unresolving db db' /\ g' b = g a) -> appending P g' (m ≫= f).
Proof.
  intros Hm Hf db b db'' Hrun. unfold mbind, tx_bind in Hrun. destruct (m db) as [[a db']|e] eqn:Em; [| done].
  destruct (Hm _ _ _ Em) as (N1 & E1 & HP). destruct (Hf _ _ _ _ Hrun) as ([N2 E2] & ->). rewrite E2, E1. split; [lia | done].
Qed.

Lemma appending_map {A B} (m : tx A) (h : A -> B) g g' : appending P g m -> (forall a, g' (h a) = g a) -> appending P g' (a ← m; mret (h a)).
Proof. intros Hm Hh. apply (appending_before _ _ _ _ Hm). intros a db b db' [= <- <-]. split; [done | apply Hh]. Qed.

Lemma appending_fail {A} g e : appending P g (@tx_fail A e).
Proof. by intros db ? ?. Qed.

End Appending.

(** A resolution of the run and the key [k], of whose outcome [Q] holds. *)
Definition resolution_of (run : Run) (k : StatedKey) (Q : ResolutionOutcome -> Prop) (rk : ResolutionKey) : Prop :=
  (rk_RunID rk = rn_ID run /\ Some (rk_UserID rk) = rn_UserID run /\ rk_StatedKeyID rk = sk_ID k) /\ Q (rk_Outcome rk).

Lemma resolution_appended run res outcome rs fs offered :
  appending (resolution_of run (rs_row res) (eq outcome)) fst (recordResolution run res outcome rs fs offered).
Proof.
  unfold recordResolution. apply appending_after; [auto with keeping |]. intros kinds.
  intros db [rk kinds'] db' Hrun. unfold mbind, tx_bind, tx_some in Hrun. destruct (rn_UserID run) as [user|] eqn:Eu; [| done].
  unfold CreateResolutionKey, mbind, tx_bind in Hrun. destruct (statement _ db) as [[[] db1]|] eqn:Es; [| done].
  apply statement_some in Es as [-> _]. injection Hrun as <- <- <-. split; [simpl; lia |]. by split.
Qed.

(** Wherever [m] succeeds, [Q] holds of its answer. *)
Definition answering {A} (Q : A -> Prop) (m : tx A) : Prop := forall db a db', m db = Ok (a, db') -> Q a.

Section Answering.

Lemma answering_ret {A} (Q : A -> Prop) a : Q a -> answering Q (mret a).
Proof. by intros HQ db ? ? [= <- _]. Qed.

Lemma answering_after {A B} (Q : B -> Prop) (m : tx A) (f : A -> tx B) : (forall a, answering Q (f a)) -> answering Q (m ≫= f).
Proof. intros Hf db b db' Hrun. unfold mbind, tx_bind in Hrun. destruct (m db) as [[a d]|]; [by eapply Hf | done]. Qed.

Lemma answering_bind {A B} (P : A -> Prop) (Q : B -> Prop) (m : tx A) (f : A -> tx B) : answering P m -> (forall a, P a -> answering Q (f a)) -> answering Q (m ≫= f).
Proof.
  intros Hm Hf db b db' Hrun. unfold mbind, tx_bind in Hrun. destruct (m db) as [[a d]|] eqn:Em; [| done]. eapply Hf; [by eapply Hm | done].
Qed.

Lemma answering_fold {A S} (Q : S -> Prop) (f : S -> A -> tx S) l : (forall s a, Q s -> answering Q (f s a)) -> forall s, Q s -> answering Q (tx_fold f s l).
Proof. intros Hf. induction l as [|a l IH]; intros s Hs; simpl; [by apply answering_ret |]. apply (answering_bind Q); [by apply Hf | done]. Qed.

Lemma answering_fail {A} (Q : A -> Prop) e : answering Q (tx_fail e).
Proof. by intros db ? ?. Qed.

End Answering.

(** No step of a write changes the row of the key. *)
Section Rows.
Context (k : StatedKey).

Definition of_key (res : resolution) : Prop := rs_row res = k.
Definition writer_of_key (w : writer) : Prop := of_key (w_res w).

Lemma wrote_of_key res fk id : of_key res -> of_key (wrote res fk id).
Proof. unfold wrote. by destruct (_ && _). Qed.

Lemma recordUnknown_of_key res : of_key res -> answering of_key (recordUnknown res).
Proof.
  apply answering_fold. intros s fk Hs. unfold unknown_step. destruct (_ || _); [by apply answering_ret |].
  destruct (fk_SentID fk) as [id|]; [| by apply answering_ret]. apply answering_after. intros [t|]; [| by apply answering_ret].
  apply answering_after. intros _. by apply answering_ret, wrote_of_key.
Qed.

Lemma identify_all_of_key key listing ids w : writer_of_key w -> answering writer_of_key (identify_all key listing w ids).
Proof.
  apply answering_fold. intros s id Hs. destruct (Ticker id); [by apply answering_ret |]. unfold identify. destruct (_ || _); [by apply answering_ret |].
  do 2 (apply answering_after; intros ?). by apply answering_ret.
Qed.

Lemma attach_family_of_key c key w f : writer_of_key w -> answering writer_of_key (attach_family c key w f).
Proof.
  intros Hs. unfold attach_family. case_bool_decide; [by apply answering_ret |]. apply (answering_bind (fun r => writer_of_key r.1)).
  - unfold attach_listing. destruct (join_Listing _ _); [destruct (_ && _); [apply answering_after; intros ? |]; by apply answering_ret |].
    do 2 (apply answering_after; intros ?). by apply answering_ret.
  - intros [w' l] Hw. by apply identify_all_of_key.
Qed.

Lemma attach_of_key w c : writer_of_key w -> answering writer_of_key (attach w c).
Proof.
  intros Hs. unfold attach. apply answering_after. intros fk. apply (answering_bind writer_of_key); [by apply identify_all_of_key |]. intros w1 H1.
  apply (answering_bind writer_of_key); [apply answering_fold; [| done]; intros s f Hf; by apply attach_family_of_key |]. intros w2 H2. apply answering_after. intros _.
  apply (answering_bind (fun st : writer * list (uuid * string) => writer_of_key st.1)); [| intros st Hst; by apply answering_ret].
  apply (answering_fold (fun st : writer * list (uuid * string) => writer_of_key st.1)); [| done]. intros [w3 as_] id H3. unfold attach_ticker.
  apply answering_after. intros [t|]; [destruct (contains _ _); [| apply answering_after; intros ?] |]; by apply answering_ret, wrote_of_key.
Qed.

Lemma writeInstr_of_key user res d : of_key res -> answering writer_of_key (writeInstr user res d).
Proof.
  intros Hr. unfold writeInstr. apply answering_after. intros j. apply (answering_bind writer_of_key).
  - apply answering_fold; [| done]. intros s c. apply attach_of_key.
  - intros w Hw. apply answering_after. intros _. by apply answering_ret.
Qed.

Lemma decide_of_key stamp uuid_string res choice c : of_key res -> answering (fun r => of_key (r.1.2)) (decide_write stamp uuid_string res choice c).
Proof.
  intros Hr. unfold decide_write. apply answering_after. intros [v slice]. case_bool_decide; cbn [negb]; [| by apply answering_fail].
  apply answering_after. intros db. apply answering_after. intros [t merging]. apply (answering_bind of_key); [by apply recordUnknown_of_key |].
  intros res1 H1. apply answering_after; intros t2; apply answering_after; intros db2; apply answering_after; intros a2. destruct a2 as [[[v2 conflict] slice2]|why]; [by apply answering_ret | by apply answering_fail].
Qed.

End Rows.

(** What a write that succeeds adds to the resolutions: one, the one it
    answers, of its run and its key. *)
Section Writes.
Variables (stamp : time -> string) (uuid_string : uuid -> string) (run : Run).

(** A key that is decided ends as it was decided, and no other is rejected. *)
Definition unrejected (o : ResolutionOutcome) : Prop := o <> ResolutionOutcomeNone /\ o <> ResolutionOutcomeRejected.
Definition ends_as (res : resolution) (o : ResolutionOutcome) : Prop :=
  if bool_decide (rs_outcome res = ResolutionOutcomeNone) then unrejected o else o = rs_outcome res.

Lemma unresolved_unrejected res : unrejected (unresolved res).
Proof. unfold unresolved. by destruct (existsb _ _). Qed.

Lemma decision_appended res d choice : appending (resolution_of run (rs_row res) unrejected) (fun r => r.1.1) (writeDecision run res d choice).
Proof.
  unfold writeDecision.
  assert (forall res' outcome rs fs offered, rs_row res' = rs_row res -> unrejected outcome ->
    appending (resolution_of run (rs_row res) unrejected) (fun r => r.1.1) (r ← recordResolution run res' outcome rs fs offered; mret (r, res'))) as Hrec.
  { intros res' outcome rs fs offered Hrow Ho. apply (appending_map _ _ _ fst); [| done]. intros db a db' Hrun.
    pose proof (resolution_appended run res' outcome rs fs offered db a db' Hrun) as (? & ? & H & He). rewrite Hrow in H. rewrite He in Ho. by split. }
  case_bool_decide; cbn [negb]; [| by apply Hrec].
  destruct (vd_winner _) as [winner|]; [| apply appending_after; [keeping |]; intros why; apply Hrec; [done | apply unresolved_unrejected]].
  apply appending_after; [keeping |]. intros user.
  intros db r db' Hrun. unfold mbind at 1, tx_bind at 1 in Hrun. destruct (writeInstr user res d db) as [[w db1]|] eqn:Ew; [| done].
  pose proof (writeInstr_of_key (rs_row res) user res d eq_refl _ _ _ Ew) as Hw. destruct (keeping_writeInstr _ _ _ _ _ _ Ew) as [N1 E1].
  rewrite <- E1. assert (appending (resolution_of run (rs_row res) unrejected) (fun r => r.1.1) (ok ← associateKey w (dc_verdict d) choice;
    (if negb ok then r ← recordResolution run (w_res w) ResolutionOutcomeUnrecognised ["no identifier to associate through"%string] (vd_findings (dc_verdict d)) (length (vd_offered (dc_verdict d))); mret (r, w_res w)
     else r ← recordResolution run (w_res w) ResolutionOutcomeMatched [] (vd_findings (dc_verdict d)) 0%nat; mret (r, w_res w)))) as Ha.
  { apply appending_after; [auto with keeping |]. intros ok. destruct (negb ok); by apply Hrec. }
  destruct (Ha _ _ _ Hrun) as (N2 & E2 & HP). split; [lia | done].
Qed.

Lemma resolveKey_appended res choice c : appending (resolution_of run (rs_row res) (ends_as res)) (fun r => r.1.1.1) (resolveKey stamp uuid_string run res choice c).
Proof.
  unfold resolveKey, ends_as. simpl rs_outcome. case_bool_decide as Ho; cbn [negb].
  - intros db r db' Hrun. unfold mbind at 1, tx_bind at 1 in Hrun. destruct (decide_write _ _ _ _ _ db) as [[[[d res1] slice] db1]|] eqn:Ed; [| done].
    pose proof (decide_of_key (rs_row res) stamp uuid_string (rs_with_written res []) choice c eq_refl _ _ _ Ed) as Hrow. simpl in Hrow.
    destruct (keeping_decide stamp uuid_string _ _ _ _ _ _ Ed) as [N1 E1]. rewrite <- E1.
    assert (appending (resolution_of run (rs_row res) unrejected) (fun r => r.1.1.1) (r ← writeDecision run res1 d choice; tx_Rebuild (dc_locked d);; mret (r, Some slice))) as Ha.
    { apply (appending_before _ _ _ (fun r => r.1.1)).
      - intros ? ? ? H. pose proof (decision_appended res1 d choice _ _ _ H) as (? & ? & HP). by rewrite Hrow in HP.
      - intros a db2 b db3 H2. unfold mbind, tx_bind in H2. destruct (tx_Rebuild _ _) as [[[] db4]|] eqn:Er; [| done].
        injection H2 as <- <-. split; [| done]. by apply (keeping_Rebuild unresolving _) in Er. }
    destruct (Ha _ _ _ Hrun) as (N2 & E2 & HP). split; [lia | done].
  - apply appending_after; [keeping |]. intros _. apply (appending_map _ _ _ fst); [| done]. intros db a db' Hrun.
    pose proof (resolution_appended run (rs_with_written res []) _ _ _ _ db a db' Hrun) as (? & ? & H & He). by repeat split; try apply H.
Qed.

Lemma written_once res choice c db r db' : once (resolveKey stamp uuid_string run res choice c) db = Ok (r, db') ->
  (db_next db <= db_next db')%N /\ db_resolutions db' = db_resolutions db ++ [r.1.1.1] /\ resolution_of run (rs_row res) (ends_as res) r.1.1.1.
Proof.
  unfold once. destruct (resolveKey _ _ _ _ _ _ _) as [[a d]|] eqn:Em; [| done]. case_bool_decide; [| done]. intros [= <- <-].
  exact (resolveKey_appended res choice c _ _ _ Em).
Qed.

End Writes.

(** * The writes of a run *)

Lemma write_loop_once stamp uuid_string run res choice db interrupted fuel : (forall n, interrupted n = None) -> forall c attempt r n,
  write_loop stamp uuid_string fuel run res choice (fun _ => db) interrupted c attempt = Some (r, n) ->
  exists c, once (resolveKey stamp uuid_string run res choice c) db = r.
Proof.
  intros Hi. induction fuel as [|fuel IH]; intros c attempt r n; simpl; [done |]. unfold attempt_write. rewrite Hi.
  assert (forall x : Prelude.res write_error (ResolutionKey * list FindingKind * resolution * cache * instr_db), match x with Ok _ => x | _ => x end = x) as E by by intros [].
  destruct (once _ db) as [a|e] eqn:Eo; [intros [= <- _]; by exists c |]. destruct (_ || _); [intros [= <- _]; by exists c | apply IH].
Qed.

(** The attempts of a write end. *)
Lemma write_loop_ends stamp uuid_string run res choice dbs interrupted c :
  exists r n, write_loop stamp uuid_string (Z.to_nat tries) run res choice dbs interrupted c 1 = Some (r, n).
Proof.
  enough (forall fuel c attempt, attempt <= tries -> tries - attempt < Z.of_nat fuel -> exists r n,
    write_loop stamp uuid_string fuel run res choice dbs interrupted c attempt = Some (r, n)) as H by (apply H; unfold tries; lia).
  clear c. induction fuel as [|fuel IH]; intros c attempt Ha Hf; [lia |]. simpl. destruct (attempt_write _ _ _ _ _ _ _ _) as [r|e]; [by eexists _, _ |].
  destruct (tries <=? attempt) eqn:Et; rewrite ?orb_true_r; [by eexists _, _ |]. apply Z.leb_gt in Et.
  destruct (negb _); simpl; [by eexists _, _ |]. apply IH; lia.
Qed.

Section Batch.
Context {E : Type} `{IdentityFetcher E} `{!FactsFetcher E}.
Variables (mics : MICMap) (families : Families) (entries : list Entry).
Variables (stamp format_date : time -> string) (uuid_string : uuid -> string) (run : Run).

Lemma write_key_ok res choice db : exists r db', write_key stamp uuid_string run res choice db = Some (r, db') /\
  match r with
  | Ok (rk, _) => db_resolutions db' = db_resolutions db ++ [rk] /\ resolution_of run (rs_row res) (ends_as res) rk
  | Err _ => db_resolutions db' = db_resolutions db
  end.
Proof.
  unfold write_key, Write.write. destruct (createTickers _ res) as [t [res1|e]] eqn:Et; cbn [fst snd res_map]; [| by eexists _, _].
  destruct (write_loop_ends stamp uuid_string run res1 choice (fun _ => with_ticker_rows t db) (fun _ => None) None) as (r & n & Hrun).
  rewrite Hrun. destruct r as [[[[[rk kinds] res2] c] db']|e]; [| by eexists _, _].
  eexists _, _. split; [reflexivity |]. apply write_loop_once in Hrun as [c' Hrun]; [| done]. apply written_once in Hrun as (_ & Hr & Hk). simpl in Hr, Hk.
  split; [done |]. change (ends_as res) with (ends_as (rs_with_tickers res ∅)).
  unfold createTickers in Et. destruct (Tickers.Get _ _ _) as [? [rows|]]; [| done].
  simpl in Et. by injection Et as _ <-.
Qed.

(** The keys written, one resolution of each in their order, up to the first
    write that fails. *)
Definition written_keys (rs : list resolution) (out : list ResolutionKey) (e : option write_failure) : Prop :=
  exists pre suf, rs = pre ++ suf /\ Forall2 (fun res => resolution_of run (rs_row res) (ends_as res)) pre out /\ (suf = [] <-> e = None).

Lemma write_keys_ok rs : forall db, exists out e db', write_keys stamp uuid_string run rs db = Some (out, e, db') /\
  db_resolutions db' = db_resolutions db ++ map fst out /\ written_keys rs (map fst out) e.
Proof.
  induction rs as [|res rs IH]; intros db; simpl.
  - exists [], None, db. rewrite app_nil_r. split; [done |]. split; [done |]. by exists [], [].
  - destruct (write_key_ok res None db) as ([[rk res1]|e] & db1 & -> & Hr); cbn [mbind option_bind].
    + destruct Hr as [Hr Hk]. destruct (IH db1) as (out & e & db' & -> & Hout & pre & suf & -> & Hpre & He). cbn [mbind option_bind].
      exists ((rk, res1) :: out), e, db'. split; [done |]. simpl. split; [by rewrite Hout, Hr, <- app_assoc |].
      exists (res :: pre), suf. split; [done |]. split; [by constructor | done].
    + exists [], (Some e), db1. simpl. rewrite app_nil_r. split; [done |]. split; [done |]. exists [], (res :: rs). by split; [| split; [constructor | split]].
Qed.

(** ** What a batch is prepared with *)

(** A key as the database leaves it alone, before it is sent to a datasource. *)
Definition settled_key (txns : list KeyTxn) (user : uuid) (dating : bool) (db : instr_db) (k : KeyDates) : resolution :=
  let res := find_alone db (prepared families mics (kd_Row k)) in
  if dating then date_alone mics (db_validity db) txns user res (kd_Dates k) else res.

Lemma find_alone_undated db res : rs_dating res = None -> rs_dating (find_alone db res) = None.
Proof.
  intros Hd. unfold find_alone. destruct (statesCurrency _).
  - unfold findResolutionCurrency. destruct (FindIdentifier _ _ _); [| done]. destruct (classConflict _ _); [done |]. by destruct (_ && _).
  - destruct (named_ids _ _) as [|[first f] rest]; [by destruct (_ && _) |]. destruct (find_func _ _) as [[id g]|]; [done |]. by destruct (classConflict _ _).
Qed.

Lemma batch_settled txns user (dating : bool) db keys : tables_ok db ->
  (let rs := findResolutionInstr db (map (fun k => prepared families mics (kd_Row k)) keys) in
   if dating then findResolutionDated mics (db_validity db) txns user rs keys else rs) = map (settled_key txns user dating db) keys.
Proof.
  intros Hok. cbv zeta. rewrite findResolutionInstr_ok, map_map by done. unfold settled_key. destruct dating; [| done].
  apply list_eq. intros i. rewrite list_lookup_fmap. destruct (keys !! i) as [k|] eqn:Ek; simpl.
  - apply (findResolutionDated_alone _ _ _ _ _ _ _ (find_alone db (prepared families mics (kd_Row k)))); [by rewrite length_map | by rewrite list_lookup_fmap, Ek | done |].
    by apply find_alone_undated.
  - apply lookup_ge_None. apply lookup_ge_None in Ek. unfold findResolutionDated. case_match; rewrite ?length_map, length_zip_with; lia.
Qed.

Lemma settled_key_dated txns user dating db k : validity_db_ok (db_validity db) -> dated_ok (settled_key txns user dating db k).
Proof.
  intros Hv d Hd. unfold settled_key in *. set (res := find_alone db _) in *. assert (rs_dating res = None) as Hn by by apply find_alone_undated.
  destruct dating; [| congruence]. pose proof (date_alone_ok mics (db_validity db) txns user res (kd_Dates k)) as Ha.
  destruct (dated_through_ticker _ _ _) as [[v mt]|]; [| congruence]. destruct Ha as [_ Hvia Hdt _ _]. rewrite Hdt in Hd. injection Hd as <-.
  split; [by exists v | by apply Load_intervals].
Qed.

(** What [prepare] answers: each key as the database settles it alone, with the
    fetch keys of the identity answers to it, and the facts fetched for the
    tickers of the keys. *)
Record prepared_batch (txns : list KeyTxn) (user : uuid) (dating : bool) (now : time) (keys : list KeyDates) (db : instr_db) (b : batch) (db' : instr_db) : Prop := {
  pb_tables : exists db1, all_identified entries db (map (settled_key txns user dating db) keys) (bt_resolutions b) db1 /\
    if dating
    then all_fetched good_facts db1 (bt_facts b) db' /\ exists reqss,
      Forall2 (fun e reqs => facts_requests (db_validity db1) now (bt_resolutions b) e = Some reqs) entries reqss /\
      map (fun k => (fk_Source k, fk_Request k)) (bt_facts b) = named_requests entries reqss
    else bt_facts b = [] /\ db' = db1;
  pb_stored : stored_ok db';
  pb_facts : answered_facts families (bt_facts b) db';
  pb_resolutions : db_resolutions db' = db_resolutions db;
}.

Lemma prepare_ok user now txns keys dating db : stored_ok db -> families_ok families db -> Forall (fun e => en_Name e <> ""%string) entries ->
  rn_UserID run = Some user ->
  exists r, prepare mics families entries run now txns keys dating db = Some r /\
    match r with Err e => exists f, e = FetchFailed f | Ok (b, db') => prepared_batch txns user dating now keys db b db' end.
Proof.
  intros Hso Hfam Hnames Hu. unfold prepare. rewrite Hu. pose proof (batch_settled txns user dating db keys (wb_ok _ (so_writable _ Hso))) as Hb. cbv zeta in Hb. rewrite Hb.
  destruct (fetchResolutionIdentities_ok entries (rn_ID run) (map (settled_key txns user dating db) keys) db Hso) as (r & -> & Hr). cbn [mbind option_bind].
  destruct r as [[rs db1]|e]; [| eexists; split; [reflexivity | by exists e]].
  destruct Hr as (ikeys & Hall & Hid). pose proof (al_stored _ _ _ _ Hall) as Hso1.
  assert (families_ok families db1 /\ db_resolutions db1 = db_resolutions db) as [Hfam1 Hres1] by by destruct (al_kept _ _ _ _ Hall) as (m & ks & n & ->).
  assert (all_identified entries db (map (settled_key txns user dating db) keys) rs db1) as Hai by by exists ikeys.
  destruct dating.
  - assert (Forall dated_ok rs) as Hdated.
    { apply Forall_forall. intros res Hres. apply list_elem_of_lookup in Hres as [i Hi]. destruct (Forall2_lookup_r _ _ _ _ _ Hid Hi) as (res0 & Hres0 & ks & [-> _ _ _]).
      apply list_lookup_fmap_Some in Hres0 as (k & -> & _). destruct (rs_with_keys_fields (settled_key txns user true db k) ks) as
        (_ & _ & _ & _ & _ & _ & _ & _ & _ & _ & Hvia & Hdt & _).
      intros d. rewrite Hdt, Hvia. apply settled_key_dated, Hso. }
    destruct (fetchResolutionFacts_ok entries families (rn_ID run) now rs db1 Hso1 Hfam1 Hnames Hdated) as (r & reqss & -> & Hreq & Hr). cbn [mbind option_bind].
    destruct r as [[facts db']|e]; [| eexists; split; [reflexivity | by exists e]]. destruct Hr as (Hf & Hans & Hnamed).
    eexists. split; [reflexivity |]. split; simpl; [exists db1; split; [done |]; split; [done | by exists reqss] | apply Hf | done |].
    rewrite <- Hres1. by destruct (al_kept _ _ _ _ Hf) as (m & ks & n & ->).
  - eexists. split; [reflexivity |]. split; simpl; [by exists db1 | done | | done].
    split; simpl; [done | apply NoDup_nil_2 | by intros ? ?%elem_of_nil | by intros ? ? ?%elem_of_nil | by intros ? ?%elem_of_nil].
Qed.

(** ** The run *)

Lemma store_tx_unresolving {A} (m : tx A) db a db' : keeping unresolving m -> store_tx m db = Ok (a, db') -> db_resolutions db' = db_resolutions db.
Proof. intros Hm. rewrite store_tx_once. intros Ho. by apply (keeping_once unresolving) in Ho as [_ ->]; [| by intros b d; split; apply unresolving_same |]. Qed.

Lemma facts_resolutions b db written db' : recordIdentifierFacts mics families entries format_date uuid_string (rn_ID run) b db = Ok (written, db') ->
  db_resolutions db' = db_resolutions db.
Proof.
  unfold recordIdentifierFacts. destruct (recordFacts mics families (bt_facts b) db) as [[recorded db1]|e] eqn:Er; cbn [mbind res_bind]; [| done].
  assert (db_resolutions db1 = db_resolutions db) as <-.
  { unfold recordFacts in Er. destruct (bt_facts b) as [|k0 ks0]; [by injection Er as _ <- |]. destruct (RecordTickers _ _ _) as [t [rows|[e|u]]]; [| by injection Er as _ <- | done].
    destruct (store_tx _ _) as [[[] db2]|e] eqn:Es; [| done]. injection Er as _ <-. apply store_tx_unresolving in Es; [by rewrite Es | apply keeping_RecordFacts]. }
  destruct (ws_order _); [by intros [= _ <-] |]. unfold recordConflicts. destruct (store_tx _ db1) as [[kinds db2]|e] eqn:Es; [| done]. intros [= _ <-].
  apply store_tx_unresolving in Es; [done |]. unfold ticker_conflicts, conflict_finding, CreateFinding. keeping.
Qed.

(** The resolution of the key [k] of a run: its outcome is the one the database
    decides, or else that of its responses, and no rejection. *)
Definition resolves (txns : list KeyTxn) (user : uuid) (db : instr_db) (k : KeyDates) : ResolutionKey -> Prop :=
  resolution_of run (kd_Row k) (ends_as (settled_key txns user true db k)).

Lemma settled_key_row txns user dating db k : rs_row (settled_key txns user dating db k) = kd_Row k.
Proof.
  unfold settled_key. set (res := find_alone db _). assert (rs_row res = kd_Row k) as Hrow by apply find_alone_row. destruct dating; [| done].
  pose proof (date_alone_ok mics (db_validity db) txns user res (kd_Dates k)) as Ha.
  destruct (dated_through_ticker _ _ _) as [[v mt]|]; [destruct Ha as [(-> & _) _ _ _ _] | rewrite Ha]; done.
Qed.

Lemma resolution_with_keys res ks rk : resolution_of run (rs_row (rs_with_keys res ks)) (ends_as (rs_with_keys res ks)) rk -> resolution_of run (rs_row res) (ends_as res) rk.
Proof.
  destruct (rs_with_keys_fields res ks) as (Hrow & _ & _ & _ & _ & _ & _ & _ & Ho & _). unfold resolution_of, ends_as. by rewrite Hrow, Ho.
Qed.

Lemma prepared_resolves txns user now keys db b db1 pre suf out : prepared_batch txns user true now keys db b db1 -> bt_resolutions b = pre ++ suf ->
  Forall2 (fun res => resolution_of run (rs_row res) (ends_as res)) pre out ->
  exists kpre ksuf, keys = kpre ++ ksuf /\ Forall2 (resolves txns user db) kpre out /\ (ksuf = [] <-> suf = []).
Proof.
  intros [(db2 & (ikeys & _ & Hid) & _) _ _ _] Eb Hout. rewrite Eb in Hid. apply Forall2_app_inv_r in Hid as (spre & ssuf & Hpre & Hsuf & Es).
  apply map_eq_app in Es as (kpre & ksuf & -> & <- & <-). exists kpre, ksuf. split; [done |]. split.
  - clear -Hpre Hout. revert out Hout. remember (map (settled_key txns user true db) kpre) as l eqn:El. revert kpre El.
    induction Hpre as [|s res l pre (ks & [-> _ _ _]) _ IH]; intros [|k kpre] [=] out Hout; inversion_clear Hout as [|? rk ? out' Hk Hout']; constructor; [| by apply IH].
    unfold resolves. rewrite <- (settled_key_row txns user true db k). apply (resolution_with_keys (settled_key txns user true db k) ks rk). by subst s.
  - split; intros ->; [by inversion_clear Hsuf | inversion Hsuf as [Hn|]; by destruct ksuf].
Qed.

(** Where a run ends in error, what it has written of the keys is theirs. *)
Lemma Resolve_ok user now txns keys db : stored_ok db -> families_ok families db -> Forall (fun e => en_Name e <> ""%string) entries -> rn_UserID run = Some user ->
  exists r, Resolve mics families entries stamp format_date uuid_string run now txns keys db = Some r /\
    match r with
    | Unprepared e => exists f, e = FetchFailed f
    | Unwritten done _ db' => db_resolutions db' = db_resolutions db ++ done /\ exists pre k suf, keys = pre ++ k :: suf /\ Forall2 (resolves txns user db) pre done
    | Unrecorded done _ => Forall2 (resolves txns user db) keys done
    | Resolved out _ db' => db_resolutions db' = db_resolutions db ++ out /\ Forall2 (resolves txns user db) keys out
    end.
Proof.
  intros Hso Hfam Hnames Hu. unfold Resolve. destruct (prepare_ok user now txns keys true db Hso Hfam Hnames Hu) as (r & -> & Hr). cbn [mbind option_bind].
  destruct r as [[b db1]|e]; [| by eexists]. rename Hr into Hb.
  destruct (write_keys_ok (bt_resolutions b) db1) as (out & e & db2 & -> & Hres & pre & suf & Eb & Hout & He). cbn [mbind option_bind]. rewrite (pb_resolutions _ _ _ _ _ _ _ _ Hb) in Hres.
  destruct (prepared_resolves txns user now keys db b db1 pre suf (map fst out) Hb Eb Hout) as (kpre & ksuf & -> & Hk & Hsuf).
  destruct e as [e|].
  - eexists. split; [reflexivity |]. split; [done |]. destruct ksuf as [|k ksuf]; [discriminate (proj1 He (proj1 Hsuf eq_refl)) |]. by exists kpre, k, ksuf.
  - assert (ksuf = []) as -> by by apply Hsuf, He. rewrite app_nil_r. destruct (recordIdentifierFacts _ _ _ _ _ _ _ _) as [[written db3]|e] eqn:Ef; [| by eexists].
    eexists. split; [reflexivity |]. split; [| done]. apply facts_resolutions in Ef. by rewrite Ef.
Qed.

(** ** Rejection *)

Lemma date_alone_rejected db txns user res dates : rs_outcome (date_alone mics db txns user res dates) = ResolutionOutcomeRejected <-> rs_outcome res = ResolutionOutcomeRejected.
Proof.
  pose proof (date_alone_ok mics db txns user res dates) as Ha. destruct (dated_through_ticker _ _ _) as [[v mt]|] eqn:Et; [| by rewrite Ha].
  assert (rs_outcome res = ResolutionOutcomeNone) as -> by (unfold dated_through_ticker in Et; case_bool_decide; done).
  rewrite (dk_outcome _ _ _ _ _ _ _ _ Ha). unfold dated_outcome. by destruct (_ || _).
Qed.

Lemma settled_key_rejected txns user dating db k : rs_outcome (settled_key txns user dating db k) = ResolutionOutcomeRejected <->
  statesCurrency (kd_Row k) = true /\ rejects_currency db (kd_Row k) (rs_family (prepared families mics (kd_Row k))).
Proof.
  change (kd_Row k) with (rs_row (prepared families mics (kd_Row k))) at 1 2. rewrite <- find_alone_rejected by done.
  unfold settled_key. destruct dating; [apply date_alone_rejected | done].
Qed.

Lemma resolves_rejected txns user db k rk : resolves txns user db k rk -> rk_Outcome rk = ResolutionOutcomeRejected <->
  statesCurrency (kd_Row k) = true /\ rejects_currency db (kd_Row k) (rs_family (prepared families mics (kd_Row k))).
Proof.
  intros [_ Hends]. rewrite <- (settled_key_rejected txns user true db k). unfold ends_as, unrejected in Hends. case_bool_decide as Ho; [| by rewrite Hends].
  rewrite Ho. destruct Hends. by split.
Qed.

(** C9: preparing a batch neither dereferences nil nor runs out of answers.
    Where no fetch fails, each key is as the database settles it alone, whatever
    else the batch holds, but for one fetch key of each datasource it was asked
    of; the facts are the answers to the requests of the keys that may be dated,
    or none where the caller's choice is fixed; and the tables, whose constraints
    hold, have the new fetch keys and no resolution more. *)
Theorem prepare_spec user now txns keys dating db : stored_ok db -> families_ok families db -> Forall (fun e => en_Name e <> ""%string) entries ->
  rn_UserID run = Some user ->
  exists r, prepare mics families entries run now txns keys dating db = Some r /\
    match r with Err e => exists f, e = FetchFailed f | Ok (b, db') => prepared_batch txns user dating now keys db b db' end.
Proof. apply prepare_ok. Qed.

(** C7: a run always ends. Where no fetch fails, it writes one resolution of each
    key, in the order of the keys: a key the database decides ends as decided,
    and no other is rejected. Where the write of a key fails, the keys before it
    keep the resolutions written, which are all that the run adds. *)
Theorem Resolve_spec user now txns keys db : stored_ok db -> families_ok families db -> Forall (fun e => en_Name e <> ""%string) entries -> rn_UserID run = Some user ->
  exists r, Resolve mics families entries stamp format_date uuid_string run now txns keys db = Some r /\
    match r with
    | Unprepared e => exists f, e = FetchFailed f
    | Unwritten done _ db' => db_resolutions db' = db_resolutions db ++ done /\ exists pre k suf, keys = pre ++ k :: suf /\ Forall2 (resolves txns user db) pre done
    | Unrecorded done _ => Forall2 (resolves txns user db) keys done
    | Resolved out _ db' => db_resolutions db' = db_resolutions db ++ out /\ Forall2 (resolves txns user db) keys out
    end.
Proof. apply Resolve_ok. Qed.

(** ** A user's choice *)

(** The one resolution of a user's key. *)
Lemma prepared_one txns user now k db b db' : prepared_batch txns user false now [k] db b db' ->
  exists ikeys ks, bt_resolutions b = [rs_with_keys (settled_key txns user false db k) ks] /\ bt_facts b = [] /\
    all_fetched good_identity db ikeys db' /\ identified ikeys entries (settled_key txns user false db k) (rs_with_keys (settled_key txns user false db k) ks) ks.
Proof.
  intros [(db1 & (ikeys & Hall & Hid) & Hf & ->) _ _ _]. simpl in Hid. inversion_clear Hid as [|? res ? rs (ks & Hks) Hrs]. inversion_clear Hrs.
  exists ikeys, ks. pose proof (id_keys _ _ _ _ _ Hks) as ->. done.
Qed.

Lemma settled_unfetched txns user db k : rs_fetchKeys (settled_key txns user false db k) = [].
Proof.
  unfold settled_key, find_alone. destruct (statesCurrency _).
  - unfold findResolutionCurrency. destruct (Resolve.FindIdentifier _ _ _); [| done]. destruct (classConflict _ _); [done |]. by destruct (_ && _).
  - destruct (named_ids _ _) as [|[first f] rest]; [by destruct (_ && _) |]. destruct (find_func _ _) as [[id g]|]; [done |]. by destruct (classConflict _ _).
Qed.

(** The fetch keys of a user's key are the answers to it, and its offer and the
    user's choice are found in them. *)
Lemma one_answers txns user db k ikeys ks db' : all_fetched good_identity db ikeys db' ->
  let res := rs_with_keys (settled_key txns user false db k) ks in
  identified ikeys entries (settled_key txns user false db k) res ks ->
  NoDup (map fk_ID (rs_fetchKeys res)) /\ (forall fk, fk ∈ rs_fetchKeys res -> is_served fk = true -> is_Some (fk_SentID fk)).
Proof.
  intros Hall res [_ _ _ Hsub]. destruct (rs_with_keys_fields (settled_key txns user false db k) ks) as (_ & _ & _ & _ & _ & _ & Hfk & _). fold res in Hfk.
  rewrite settled_unfetched in Hfk. simpl in Hfk. rewrite Hfk. split.
  - eapply sublist_NoDup; [apply (al_ids _ _ _ _ Hall) |]. by apply (fmap_sublist fk_ID).
  - intros fk Hin Hs. apply bool_decide_eq_true in Hs. refine (proj1 (proj1 (Forall_forall _ _) (al_good _ _ _ _ Hall) fk _) Hs). by eapply elem_of_sublist.
Qed.

Lemma choice_found res p : NoDup (map fk_ID (rs_fetchKeys res)) -> (forall fk, fk ∈ rs_fetchKeys res -> is_served fk = true -> is_Some (fk_SentID fk)) ->
  is_Some (findUserChoice res p).
Proof.
  intros Hnd Hsent. destruct (offered_sets res Hsent Hnd) as (cs & fs & us & sets & Eo & Es & Hset & Hcs). unfold findUserChoice.
  destruct (find_func _ _) as [fk|]; [| by eexists]. destruct (negb _); [by eexists |]. rewrite Eo. simpl. rewrite Es. simpl.
  destruct (find_func _ sets) as [a|] eqn:Ea; [| by eexists]. destruct (Stable _); [by eexists |]. apply find_func_Some in Ea as [[i Hi]%list_elem_of_lookup _].
  destruct (gs_sub _ _ _ Hset i a Hi) as [Hne Hsub]. destruct a as [|h t]; [done |]. simpl. destruct (strongestStable h); [by eexists |].
  destruct (Hcs h) as (fk' & gs & _ & _ & Hfk & _); [eapply elem_of_sublist; [| exact Hsub]; by left |]. unfold unstableReason. rewrite Hfk. by eexists.
Qed.

(** The datasources of the key's fetch keys are distinct where the entries are. *)
Lemma one_sources txns user db k ikeys ks : let res := rs_with_keys (settled_key txns user false db k) ks in
  identified ikeys entries (settled_key txns user false db k) res ks -> NoDup (map en_Name entries) -> NoDup (map fk_Source (rs_fetchKeys res)).
Proof.
  intros res [_ Hsrc _ _] Hnd. destruct (rs_with_keys_fields (settled_key txns user false db k) ks) as (_ & _ & _ & _ & _ & _ & Hfk & _). fold res in Hfk.
  rewrite settled_unfetched in Hfk. simpl in Hfk. rewrite Hfk, Hsrc. by apply NoDup_key_filter.
Qed.

(** The write of the choice that [p] picks among the answers of [res]. *)
Definition writes_choice (res : resolution) (p : Pick) (db : instr_db) (r : Prelude.res write_failure (ResolutionKey * resolution)) (db' : instr_db) : Prop :=
  exists u, picked_choice res p u /\ write_key stamp uuid_string run res (Some u) db = Some (r, db').

(** C10: a confirmation always ends, and writes what it was asked or nothing of
    the key. Its batch is prepared for the key alone, or a fetch fails. Where the
    database decides the key there is no candidate, for the reason it decides it.
    Otherwise what it writes is the choice picked: a set of claims offered for the
    key, whose head is an answer of the datasource picked and carries the
    identifier picked, whose other claims back the head and deny nothing above
    them, and which is fixed through a stable identifier of the head, the one
    picked where that is stable. Where there is none, the datasources having
    distinct names, the pick names no candidate that was offered by a stable
    identifier or one of the instrument. Where the write succeeds it adds one
    resolution, of the key, which is not rejected. *)
Theorem Confirm_spec user key p db : stored_ok db -> families_ok families db -> Forall (fun e => en_Name e <> ""%string) entries -> rn_UserID run = Some user ->
  let k := MkKeyDates key [] in
  let known := settled_key [] user false db k in
  exists r, Confirm mics families entries stamp format_date uuid_string run key p db = Some r /\
    ((exists f, r = ConfirmUnprepared (FetchFailed f)) \/
     exists b db1 res, prepare mics families entries run 0 [] [k] false db = Some (Ok (b, db1)) /\ prepared_batch [] user false 0 [k] db b db1 /\
       bt_resolutions b = [res] /\
       match r with
       | ConfirmUnprepared _ => False
       | NoCandidate why => (rs_outcome known <> ResolutionOutcomeNone -> why = Choose.ErrNoCandidate (rs_reason known)) /\
           (rs_outcome known = ResolutionOutcomeNone -> NoDup (map en_Name entries) -> ~ offers res p)
       | ConfirmUnwritten e db' => rs_outcome known = ResolutionOutcomeNone /\ writes_choice res p db1 (Err e) db' /\ db_resolutions db' = db_resolutions db
       | ConfirmUnrecorded rk _ => rs_outcome known = ResolutionOutcomeNone /\ (exists res' db2, writes_choice res p db1 (Ok (rk, res')) db2) /\
           resolution_of run key unrejected rk
       | Confirmed rk _ db' => rs_outcome known = ResolutionOutcomeNone /\ (exists res' db2, writes_choice res p db1 (Ok (rk, res')) db2) /\
           resolution_of run key unrejected rk /\ db_resolutions db' = db_resolutions db ++ [rk]
       end).
Proof.
  intros Hso Hfam Hnames Hu k known. unfold Confirm. fold k. destruct (prepare_ok user 0 [] [k] false db Hso Hfam Hnames Hu) as (r & -> & Hr). cbn [mbind option_bind].
  destruct r as [[b db1]|e]; [| destruct Hr as [f ->]; eexists; split; [done | left; by exists f]].
  destruct (prepared_one _ _ _ _ _ _ _ Hr) as (ikeys & ks & Hb & _ & Hall & Hid). rewrite Hb. cbn [mbind option_bind head hd_error].
  fold known in Hb, Hid |- *. set (res := rs_with_keys known ks) in *.
  destruct (rs_with_keys_fields known ks) as (Hrow & _ & _ & _ & _ & _ & _ & _ & Hout & Hreason & _). fold res in Hrow, Hout, Hreason. rewrite Hout, Hreason.
  case_bool_decide as Ho; cbn [negb]; [| eexists; split; [done | right; by exists b, db1, res]].
  destruct (one_answers [] user db k ikeys ks db1 Hall Hid) as [Hnd Hsent]. fold known res in Hnd, Hsent. destruct (choice_found res p Hnd Hsent) as [ch Hch]. rewrite Hch.
  cbn [mbind option_bind]. destruct ch as [u|why].
  2: { eexists. split; [done |]. right. exists b, db1, res. do 3 (split; [done |]). split; [done |]. intros _ Hen Hoff.
       destruct (offers_found res p Hsent Hnd (one_sources _ _ _ _ _ _ Hid Hen) Hoff) as [u Hu']. congruence. }
  pose proof (choice_picked res p u Hsent Hnd Hch) as Hp.
  destruct (write_key_ok res (Some u) db1) as ([[rk res1]|e] & db2 & Ewr & Hw); rewrite Ewr; cbn [mbind option_bind]; rewrite (pb_resolutions _ _ _ _ _ _ _ _ Hr) in Hw.
  2: { eexists. split; [done |]. right. exists b, db1, res. do 4 (split; [done |]). split; [by exists u | done]. }
  destruct Hw as [Hw Hk]. assert (resolution_of run key unrejected rk) as Hrk.
  { replace key with (rs_row res) by (rewrite Hrow; apply settled_key_row). unfold ends_as in Hk. by rewrite Hout, bool_decide_eq_true_2 in Hk. }
  assert (exists res' db2, writes_choice res p db1 (Ok (rk, res')) db2) as Hwc by (exists res1, db2, u; done).
  destruct (recordIdentifierFacts _ _ _ _ _ _ _ _) as [[written db3]|e] eqn:Ef; (eexists; split; [done |]; right; exists b, db1, res; do 5 (split; [done |])); [| done].
  split; [done |]. apply facts_resolutions in Ef. by rewrite Ef.
Qed.

End Batch.

(** C8: whether a key is rejected depends on the key and on the seeds of the
    currencies alone: over any two databases that agree on those, whatever else
    the users of the system have resolved in them, two runs of the same keys
    reject the same ones, whatever the datasources answer, and only keys that
    state a currency. *)
Theorem rejection_spec {E : Type} `{IdentityFetcher E} `{!FactsFetcher E} mics families stamp format_date uuid_string user keys
    entries1 run1 now1 txns1 db1 out1 written1 db1' entries2 run2 now2 txns2 db2 out2 written2 db2' :
  stored_ok db1 -> families_ok families db1 -> Forall (fun e => en_Name e <> ""%string) entries1 -> rn_UserID run1 = Some user ->
  stored_ok db2 -> families_ok families db2 -> Forall (fun e => en_Name e <> ""%string) entries2 -> rn_UserID run2 = Some user ->
  (forall code, currency_seed db1 code = currency_seed db2 code) ->
  Resolve mics families entries1 stamp format_date uuid_string run1 now1 txns1 keys db1 = Some (Resolved out1 written1 db1') ->
  Resolve mics families entries2 stamp format_date uuid_string run2 now2 txns2 keys db2 = Some (Resolved out2 written2 db2') ->
  Forall2 (fun k r => (rk_Outcome r.1 = ResolutionOutcomeRejected <-> rk_Outcome r.2 = ResolutionOutcomeRejected) /\
    (rk_Outcome r.1 = ResolutionOutcomeRejected -> statesCurrency (kd_Row k) = true)) keys (zip out1 out2).
Proof.
  intros Hso1 Hf1 Hn1 Hu1 Hso2 Hf2 Hn2 Hu2 Hseed H1 H2.
  destruct (Resolve_ok mics families entries1 stamp format_date uuid_string run1 user now1 txns1 keys db1 Hso1 Hf1 Hn1 Hu1) as (r1 & E1 & R1).
  destruct (Resolve_ok mics families entries2 stamp format_date uuid_string run2 user now2 txns2 keys db2 Hso2 Hf2 Hn2 Hu2) as (r2 & E2 & R2).
  rewrite H1 in E1. injection E1 as <-. rewrite H2 in E2. injection E2 as <-. destruct R1 as [_ R1], R2 as [_ R2]. clear H1 H2.
  revert out2 R2. induction R1 as [|k rk1 ks out1 K1 _ IH]; intros out2 R2; inversion_clear R2 as [|? rk2 ? out2' K2 R2']; simpl; constructor; [| by apply IH].
  apply resolves_rejected in K1, K2. simpl. unfold rejects_currency in K1. rewrite Hseed in K1. rewrite K1, K2. split; [done | by intros [? _]].
Qed.

(** * Witnesses *)
(** * A run *)

Module Example.
Import Dated.Example.

Definition isin : Identifier := MkIdentifier IdentifierTypeIsin "" "US0378331005".
Definition code (c : string) : Identifier := MkIdentifier IdentifierTypeCurrency "" c.

(** A dated ticker, an ISIN, and a currency the system does not have. *)
Definition keys : list KeyDates :=
  [MkKeyDates (key_row 60 [ticker]) [day 15]; MkKeyDates (key_row 61 [isin]) []; MkKeyDates (key_row 62 [code "XXX"]) []].

(** The tables, where another user has resolved the instruments [instrs]. *)
Definition tables (instrs : list InstrRow) (ids : list IdentifierRow) : instr_db := {|
  db_instrs := MkInstrRow 5 AssetClassCash 1 None :: instrs;
  db_listings := [];
  db_identifiers := MkIdentifierRow 25 5 None IdentifierTypeCurrency "" "USD" None :: ids;
  db_stated := map (fun k => MkStatedKeyRow (kd_Row k) None None None None) keys;
  db_fetch := {[49%N := (None, None)]};
  db_coverage := [];
  db_validity := MkValidityDB [MkTickerRow 41 "US" "AAPL"] [] [] ∅ ∅ {["US" := "massive"]} [MkValidityRow 41 5 (Some (day 0)) (Some (day 10)) Facts.Confirmed] [];
  db_findings := [];
  db_resolutions := [];
  db_families := ["USD"; "GBP"];
  db_codes := ["USD"; "GBP"];
  db_next := 100;
  db_now := 9;
  db_deferred := false;
|}.

Definition before : instr_db := tables [] [].
Definition after : instr_db := tables [MkInstrRow 1 AssetClassStock 5 (Some 49%N)] [MkIdentifierRow 21 1 None IdentifierTypeIsin "" "US0378331005" (Some 49%N)].

Definition stated_answer (k : StatedKey) : IdentityResult :=
  MkIdentityResult (sk_Identifiers k) [MkMarketListing (isin :: sk_Identifiers k) AssetClassStock "USD" ""] false false.

#[local] Instance fetcher : Fetcher unit := {|
  ft_Identity run e reqs db := given_fetch (en_Name e) (fun k => default isin (head (sk_Identifiers k))) stated_answer run reqs db;
  ft_TickerIdentity run e reqs db := Err tt;
  ft_IdentifierFacts run e reqs db := given_fetch (en_Name e) fq_Identifier (fun _ => answer) run reqs db;
|}.

#[local] Instance identity_fetcher : IdentityFetcher unit.
Proof.
  split; intros run e reqs db keys db' Hf; [| done]. apply given_fetched in Hf as [-> Hf]. split; [done |].
  apply Forall_forall. intros k (q & Hr & Ho & Hs & _)%given_elem. split; [by rewrite Hs |]. by rewrite Ho, Hr.
Qed.

#[local] Instance facts_fetcher : FactsFetcher unit.
Proof.
  split; intros run e reqs db keys db' [-> Hf]%given_fetched; [done |].
  apply Forall_forall. intros k (q & -> & _)%given_elem _. apply answer_served.
Qed.

Definition massive : Entry := MkEntry "massive" (Some (MkServer _ (fun k => Ok isin) (fun _ => []))) (en_Facts entry) (en_Window entry).

Definition user_run : Run := MkRun 3 (Some 1%N).
Definition resolve (db : instr_db) : option resolved :=
  Resolve ex_mics families [massive] text text id_text user_run (day 20) txns keys db.

Lemma tables_stored db : consistent db /\ linked db /\ Forall (fun i => (i < db_next db)%N) (row_ids db) ->
  db_validity db = db_validity before -> db_next db = 100%N -> stored_ok db.
Proof.
  intros H Hv Hn. split; [by apply Outcome.Example.writable_by | |]; rewrite Hv.
  - split; simpl; try (by intros ? ?%elem_of_nil); try apply NoDup_singleton; [by intros i k ?%lookup_empty_Some | |]; split; repeat constructor.
  - rewrite Hn. by intros r ->%list_elem_of_singleton.
Qed.

Lemma before_stored : stored_ok before.
Proof. apply tables_stored; [refine (bool_decide_unpack _ _); vm_compute; exact I | done | done]. Qed.

Lemma after_stored : stored_ok after.
Proof. apply tables_stored; [refine (bool_decide_unpack _ _); vm_compute; exact I | done | done]. Qed.

Lemma tables_families db : db_families db = ["USD"; "GBP"] -> families_ok families db.
Proof.
  intros Hf c. unfold Family. destruct (families !! c) as [f|] eqn:Ef; [right | by left]. simpl. rewrite Hf.
  assert (map_Forall (fun _ f => f ∈ ["USD"; "GBP"]) families) as Hall by (refine (bool_decide_unpack _ _); vm_compute; exact I).
  by apply (Hall c).
Qed.

Lemma massive_named : Forall (fun e => en_Name e <> ""%string) [massive].
Proof. by repeat constructor. Qed.

(** Each of the two databases answers. *)
Definition answers (db : instr_db) : bool :=
  match resolve db with
  | Some (Resolved out _ _) => bool_decide (map rk_Outcome out = [ResolutionOutcomeMatched; ResolutionOutcomeMatched; ResolutionOutcomeRejected])
  | _ => false
  end.

Lemma before_answers : answers before = true.
Proof. vm_compute. reflexivity. Qed.

Lemma after_answers : answers after = true.
Proof. vm_compute. reflexivity. Qed.

Lemma resolve_answers db : answers db = true -> exists out written db', resolve db = Some (Resolved out written db') /\
  map rk_Outcome out = [ResolutionOutcomeMatched; ResolutionOutcomeMatched; ResolutionOutcomeRejected].
Proof. unfold answers. destruct (resolve db) as [[| | |out written db']|]; try done. intros H%bool_decide_eq_true. by exists out, written, db'. Qed.

(** The user confirms the ISIN's candidate. *)
Definition confirm (db : instr_db) : option confirmed :=
  Confirm ex_mics families [massive] text text id_text user_run (key_row 61 [isin]) (MkPick "massive" isin) db.

Lemma confirm_before : match confirm before with
  | Some (Confirmed rk _ db') => rk_Outcome rk = ResolutionOutcomeMatched /\
      map (fun k => (sk_ID (ks_Key k), sk_InstrID (ks_Key k), ks_Arbiter k)) (db_stated db') = [(60%N, None, None); (61%N, Some 101%N, Some ArbiterUser); (62%N, None, None)]
  | _ => False end.
Proof. vm_compute. done. Qed.

Lemma same_seed c : currency_seed before c = currency_seed after c.
Proof.
  unfold currency_seed, Resolve.FindIdentifier. simpl. destruct (decide (c = "USD")) as [->|Hne]; [vm_compute; reflexivity |].
  rewrite !(bool_decide_eq_false_2 (_ = MkIdentifier IdentifierTypeCurrency "" c)) by (unfold to_Identifier; simpl; congruence). simpl. done.
Qed.

End Example.

(** The first key is dated and matched, the second is matched through the answer
    to it, and the third is of a currency the system does not have. *)
Lemma Resolve_spec_witness : exists out written db',
  Example.resolve Example.before = Some (Resolved out written db') /\ db_resolutions db' = out /\
  Forall2 (resolves ex_mics Dated.Example.families Example.user_run Dated.Example.txns 1 Example.before) Example.keys out.
Proof.
  destruct (Example.resolve_answers _ Example.before_answers) as (out & written & db' & Hr & _). exists out, written, db'. split; [exact Hr |].
  destruct (Resolve_spec (H := Example.fetcher) (H0 := Example.identity_fetcher) (FactsFetcher0 := Example.facts_fetcher) ex_mics Dated.Example.families [Example.massive]
    Dated.Example.text Dated.Example.text Dated.Example.id_text Example.user_run 1 (Dated.Example.day 20) Dated.Example.txns Example.keys Example.before
    Example.before_stored (Example.tables_families Example.before eq_refl) Example.massive_named eq_refl) as (r & E & H).
  unfold Example.resolve in Hr. rewrite Hr in E. injection E as <-. exact H.
Defined.

Lemma prepare_spec_witness : exists b db',
  prepare (H := Example.fetcher) ex_mics Dated.Example.families [Example.massive] Example.user_run (Dated.Example.day 20) Dated.Example.txns Example.keys true Example.before = Some (Ok (b, db')) /\
  prepared_batch ex_mics Dated.Example.families [Example.massive] Dated.Example.txns 1 true (Dated.Example.day 20) Example.keys Example.before b db'.
Proof.
  destruct (Example.resolve_answers _ Example.before_answers) as (out & written & db' & Hr & _). unfold Example.resolve, Resolve in Hr.
  destruct (prepare_spec (H := Example.fetcher) (H0 := Example.identity_fetcher) (FactsFetcher0 := Example.facts_fetcher) ex_mics Dated.Example.families [Example.massive]
    Example.user_run 1 (Dated.Example.day 20) Dated.Example.txns Example.keys true Example.before
    Example.before_stored (Example.tables_families Example.before eq_refl) Example.massive_named eq_refl) as (r & E & H).
  rewrite E in Hr. destruct r as [[b db1]|e]; [| discriminate Hr]. exists b, db1. split; [exact E | exact H].
Defined.

(** Another user has resolved the ISIN of the second run's database. *)
Lemma rejection_spec_witness : exists out1 written1 db1 out2 written2 db2,
  Example.resolve Example.before = Some (Resolved out1 written1 db1) /\ Example.resolve Example.after = Some (Resolved out2 written2 db2) /\
  Forall2 (fun k r => (rk_Outcome r.1 = ResolutionOutcomeRejected <-> rk_Outcome r.2 = ResolutionOutcomeRejected) /\
    (rk_Outcome r.1 = ResolutionOutcomeRejected -> statesCurrency (kd_Row k) = true)) Example.keys (zip out1 out2).
Proof.
  destruct (Example.resolve_answers _ Example.before_answers) as (out1 & written1 & db1 & H1 & _).
  destruct (Example.resolve_answers _ Example.after_answers) as (out2 & written2 & db2 & H2 & _).
  exists out1, written1, db1, out2, written2, db2. split; [exact H1 |]. split; [exact H2 |].
  exact (rejection_spec (H := Example.fetcher) (H0 := Example.identity_fetcher) (FactsFetcher0 := Example.facts_fetcher) ex_mics Dated.Example.families
    Dated.Example.text Dated.Example.text Dated.Example.id_text 1 Example.keys
    [Example.massive] Example.user_run (Dated.Example.day 20) Dated.Example.txns Example.before out1 written1 db1
    [Example.massive] Example.user_run (Dated.Example.day 20) Dated.Example.txns Example.after out2 written2 db2
    Example.before_stored (Example.tables_families Example.before eq_refl) Example.massive_named eq_refl
    Example.after_stored (Example.tables_families Example.after eq_refl) Example.massive_named eq_refl Example.same_seed H1 H2).
Defined.

Lemma Confirm_spec_witness : exists rk written db',
  Example.confirm Example.before = Some (Confirmed rk written db') /\ resolution_of Example.user_run (Dated.Example.key_row 61 [Example.isin]) unrejected rk /\
  db_resolutions db' = [rk].
Proof.
  destruct (Confirm_spec (H := Example.fetcher) (H0 := Example.identity_fetcher) (FactsFetcher0 := Example.facts_fetcher) ex_mics Dated.Example.families [Example.massive]
    Dated.Example.text Dated.Example.text Dated.Example.id_text Example.user_run 1 (Dated.Example.key_row 61 [Example.isin]) (MkPick "massive" Example.isin) Example.before
    Example.before_stored (Example.tables_families Example.before eq_refl) Example.massive_named eq_refl) as (r & E & H).
  pose proof Example.confirm_before as Hc. unfold Example.confirm in Hc. rewrite E in Hc. destruct r as [| | | |rk written db']; [destruct Hc .. |].
  exists rk, written, db'. split; [exact E |]. destruct H as [[f Hf]|(b & db1 & res & _ & _ & _ & H)]; [discriminate Hf | split; apply H].
Defined.
