(* ===== verification/Reassert.v ===== *)
(** Asserting again the tickers held, [server/internal/identity/resolve/reassert_tickers.go]:
    what is read of each held ticker, what each datasource is asked of it, and
    what the answers assert. The datasources are asked one after another, and the
    run is modelled with no other beside it. *)
From S2P Require Import Prelude Types Period Facts Rows Runs Validity Mic Tickers Calendar Bounds ValidityStore Market Fetch Resolution InstrStore Record Statements Recording Writer Write Outcome Sources Dated.

(** * Definitions *)

(** A row of [ListHeldTickers], with the asset class and the currency of the
    oldest key dated through the ticker at the venue. *)
Record ListHeldTickersRow : Type := MkHeldRow {
  lh_TickerID : uuid;
  lh_Venue : string;
  lh_Market : string;
  lh_Value : string;
  lh_AssetClass : option AssetClass;
  lh_Currency : option string;
}.

Record heldTicker : Type := MkHeldTicker {
  ht_row : ListHeldTickersRow;
  ht_key : MarketTicker;
  ht_ticker : Identifier;
  ht_tickerRow : TickerRow;
  ht_instr : option uuid;
  ht_ids : list Identifier;
}.

Record heldAnswer : Type := MkHeldAnswer {
  ha_t : heldTicker;
  ha_fk : fetchKey;
}.

(** ** Reading, [readHeld] *)

(** The first loop at one row; the map [seen] holds the keys of [ts]. *)
Definition held_step (ts : list heldTicker) (row : ListHeldTickersRow) : list heldTicker :=
  let v := MkIdentifier IdentifierTypeMicTicker (lh_Venue row) (lh_Value row) in
  let key := MkMarketTicker (lh_Market row) (lh_Value row) in
  if contains (map ht_key ts) key then ts
  else ts ++ [MkHeldTicker row key v (MkTickerRow (lh_TickerID row) (lh_Market row) (lh_Value row)) None []].

(** The instrument of the last interval, where it has not ended. *)
Definition latest_instr (ivs : list Interval) : option uuid :=
  iv ← last ivs; if bool_decide (iv_Before iv = None) then Some (iv_Instr iv) else None.

Definition ht_name (t : heldTicker) (instr : option uuid) : heldTicker :=
  MkHeldTicker (ht_row t) (ht_key t) (ht_ticker t) (ht_tickerRow t) instr (ht_ids t).

Definition ht_identify (t : heldTicker) (ids : list Identifier) : heldTicker :=
  MkHeldTicker (ht_row t) (ht_key t) (ht_ticker t) (ht_tickerRow t) (ht_instr t) ids.

Definition by_instr (rows : list IdentifierRow) : gmap uuid (list Identifier) :=
  foldl (fun m r => <[ir_InstrID r := default [] (m !! ir_InstrID r) ++ [to_Identifier r]]> m) ∅ rows.

Definition readHeld (db : instr_db) (held : list ListHeldTickersRow) : list heldTicker :=
  let ts := foldl held_step [] held in
  let read := Load (validity_tables (db_validity db)) (map ht_key ts) in
  let ts := map (fun t => ht_name t (latest_instr (default [] (read !! ht_key t)))) ts in
  match omap ht_instr ts with
  | [] => ts
  | instrs =>
      let ids := by_instr (ListIdentifiersOf db instrs) in
      map (fun t => match ht_instr t with Some i => ht_identify t (default [] (ids !! i)) | None => t end) ts
  end.

(** ** Asking, [fetchHeld] *)

Definition historyRequest (e : Entry) (t : heldTicker) (now : time) : option IdentifierFactRequest :=
  server ← en_Facts e;
  _ ← ht_instr t;
  w ← en_Window e;
  head (omap (fun id =>
    if negb (Stable id) then None
    else let q := MkFactRequest id (History w now) in
         match sr_Serves server q with Ok _ => Some q | Err _ => None end) (ht_ids t)).

(** The history of [t] that [e] is asked for. *)
Definition asks_history (sources : gmap string string) (now : time) (e : Entry) (t : heldTicker) : option IdentifierFactRequest :=
  q ← historyRequest e t now;
  if bool_decide (default ""%string (sources !! mt_Market (ht_key t)) = en_Name e) then Some q else None.

(** What [e] is asked of the held tickers: [idOf], and [factReqs]. *)
Definition held_requests (sources : gmap string string) (now : time) (e : Entry) (ts : list heldTicker) : list heldTicker * list IdentifierFactRequest :=
  foldl (fun st t => match asks_history sources now e t with
    | Some q => (st.1, append_unique st.2 q)
    | None => (st.1 ++ [t], st.2)
    end) ([], []) ts.

(** The request for the ticker's identity, a key with no id. *)
Definition identity_request (t : heldTicker) : StatedKey :=
  MkStatedKey 0 0 (lh_AssetClass (ht_row t)) (lh_Currency (ht_row t)) [ht_ticker t] None None None None.

(** ** Asserting, [assertHeld] *)

(** [shares]. *)
Definition held_shares (l : MarketListing) (t : heldTicker) : bool := existsb (contains (ht_ids t)) (ml_Identifiers l).

Inductive reassert_error (E : Type) : Type :=
| ReassertRun
| ReassertFetch (e : E)
| ReassertRecord (e : record_error)
| ReassertWrite (e : write_error).
Arguments ReassertRun {E}.
Arguments ReassertFetch {E}.
Arguments ReassertRecord {E}.
Arguments ReassertWrite {E}.

Section Run.
Context {E : Type} `{Fetcher E}.
Variables (mics : MICMap) (families : Families) (entries : list Entry).
(** The texts of a day, [Format(time.DateOnly)], and of an id. *)
Variables (format_date : time -> string) (uuid_string : uuid -> string).

(** The fetches of each entry, an identity fetch before a facts fetch. Every
    identity request has its fetch key. *)
Fixpoint fetch_held_each (run : uuid) (asked : list (Entry * (list heldTicker * list IdentifierFactRequest))) (db : instr_db) :
    Prelude.res E (list heldAnswer * list factKey * instr_db) :=
  match asked with
  | [] => Ok ([], [], db)
  | (e, (ts, qs)) :: asked' =>
      '(idKeys, db) ← match ts with [] => Ok ([], db) | _ => ft_TickerIdentity run e (map identity_request ts) db end;
      '(factKeys, db) ← match qs with [] => Ok ([], db) | _ => ft_IdentifierFacts run e qs db end;
      '(answers, facts, db) ← fetch_held_each run asked' db;
      Ok (zip_with MkHeldAnswer ts idKeys ++ answers, factKeys ++ facts, db)
  end.

Definition fetchHeld (run : uuid) (now : time) (ts : list heldTicker) (db : instr_db) : Prelude.res E (list heldAnswer * list factKey * instr_db) :=
  let sources := eventSources (db_validity db) in
  fetch_held_each run (map (fun e => (e, held_requests sources now e ts)) entries) db.

Definition states_key (key : MarketTicker) (id : Identifier) : bool := bool_decide (mics_MarketTicker mics id = Some key).

Definition listingOf (r : IdentityResult) (key : MarketTicker) : option MarketListing :=
  find_func (fun l => existsb (states_key key) (ml_Identifiers l)) (ir_Listings r).

Definition stated (l : MarketListing) (key : MarketTicker) : Stated :=
  let venue := match find_func (states_key key) (ml_Identifiers l) with
               | Some id => default ""%string (Operating mics (id_Domain id)) | None => ""%string end in
  MkStated venue (known families (ml_Currency l)).

(** What [assertHeld] asserts of [a]: nothing, or the instrument and what the
    listing states. *)
Definition held_named (a : heldAnswer) : tx (option (option uuid * Stated)) :=
  let t := ha_t a in
  if ir_Unknown (fk_Response (ha_fk a)) then mret (Some (None, MkStated "" ""))
  else match listingOf (fk_Response (ha_fk a)) (ht_key t) with
  | None => mret None
  | Some l =>
      let s := stated l (ht_key t) in
      if bool_decide (ht_instr t = None) || negb (held_shares l t) then
        db ← tx_get;
        mret ((fun i => (Some i, s)) <$> StoredInstr db (ml_Identifiers l))
      else mret (Some (ht_instr t, s))
  end.

Definition assertHeld (written : writtenSet) (a : heldAnswer) : tx writtenSet :=
  let fk := ha_fk a in
  if negb (bool_decide (fk_Outcome fk = FetchOutcomeServed)) then mret written
  else
    named ← held_named a;
    match named with
    | None => mret written
    | Some (instr, s) =>
        AssertInstr (fk_ID fk) (ht_tickerRow (ha_t a)) instr (fk_AnsweredAt fk) s;;
        mret (addTicker written (fk_Run fk) (ht_key (ha_t a)))
    end.

(** The transaction of the answers. *)
Definition assertAnswers (ids : list uuid) (answers : list heldAnswer) : tx writtenSet :=
  db ← tx_get;
  let locked := Tickers.Lock (vd_tickers (db_validity db)) ids in
  written ← tx_fold assertHeld (newWritten mics) answers;
  tx_Rebuild locked;;
  mret written.

Definition ReassertTickers (kind : RunKind) (run : Run) (now : time) (held : list ListHeldTickersRow) (db : instr_db) :
    Prelude.res (reassert_error E) (list WrittenIdentifierFacts * instr_db) :=
  if negb (bool_decide (kind = RunKindReassertTickers)) || negb (bool_decide (rn_UserID run = None)) then Err ReassertRun
  else
    match fetchHeld (rn_ID run) now (readHeld db held) db with
    | Err e => Err (ReassertFetch e)
    | Ok (answers, factKeys, db) =>
        match recordFacts mics families factKeys db with
        | Err e => Err (ReassertRecord e)
        | Ok (recorded, db) =>
            let ids := foldl append_unique [] (map (fun a => tk_ID (ht_tickerRow (ha_t a))) answers) in
            match store_tx (assertAnswers ids answers) db with
            | Err e => Err (ReassertWrite e)
            | Ok (written, db) =>
                let mine : gset uuid := list_to_set (map (fun a => fk_ID (ha_fk a)) answers ++ map fk_ID factKeys) in
                let written := if recorded then foldl add_served written factKeys else written in
                match ws_order written with
                | [] => Ok ([], db)
                | _ =>
                    match recordConflicts format_date uuid_string (rn_ID run) written mine db with
                    | Ok (_, db) => Ok (ws_list written, db)
                    | Err e => Err (ReassertWrite e)
                    end
                end
            end
        end
    end.

End Run.

(** * What is read *)

(** A held ticker as the tables have it: the instrument its latest interval names,
    and the identifiers of that instrument. *)
Record ticker_of_held (db : instr_db) (t : heldTicker) : Prop := {
  ho_key : ht_key t = MkMarketTicker (lh_Market (ht_row t)) (lh_Value (ht_row t));
  ho_ticker : ht_ticker t = MkIdentifier IdentifierTypeMicTicker (lh_Venue (ht_row t)) (lh_Value (ht_row t));
  ho_row : ht_tickerRow t = MkTickerRow (lh_TickerID (ht_row t)) (lh_Market (ht_row t)) (lh_Value (ht_row t));
  ho_instr : ht_instr t = latest_instr (default [] (Load (validity_tables (db_validity db)) [ht_key t] !! ht_key t));
  ho_ids id : id ∈ ht_ids t <-> exists x, x ∈ db_identifiers db /\ ht_instr t = Some (ir_InstrID x) /\ to_Identifier x = id;
}.

Definition row_key (row : ListHeldTickersRow) : MarketTicker := MkMarketTicker (lh_Market row) (lh_Value row).

Definition unread (row : ListHeldTickersRow) : heldTicker :=
  MkHeldTicker row (row_key row) (MkIdentifier IdentifierTypeMicTicker (lh_Venue row) (lh_Value row)) (MkTickerRow (lh_TickerID row) (lh_Market row) (lh_Value row)) None [].

(** The first loop takes the first row of each key. *)
Lemma held_rows held : exists rows, foldl held_step [] held = map unread rows /\ NoDup (map row_key rows) /\ rows ⊆ held /\
  (forall row, row ∈ held -> row_key row ∈ map row_key rows).
Proof.
  induction held as [|row held IH] using rev_ind; [by exists []; split; [| split; [apply NoDup_nil_2 | split; [| by intros ? ?%elem_of_nil]]] |].
  destruct IH as (rows & Hr & Hnd & Hs & Hall). rewrite foldl_app, Hr. simpl. unfold held_step. rewrite map_map. fold (row_key row).
  change (map (fun x => ht_key (unread x)) rows) with (map row_key rows). destruct (contains (map row_key rows) (row_key row)) eqn:Ec.
  - apply contains_true in Ec. exists rows. split; [done |]. split; [done |]. split; [set_solver |].
    by intros r [Hin| ->%list_elem_of_singleton]%elem_of_app; [apply Hall |].
  - apply contains_false in Ec. exists (rows ++ [row]). split; [by rewrite map_app |]. split; [by apply NoDup_map_snoc |]. split; [set_solver |].
    intros r [Hin| ->%list_elem_of_singleton]%elem_of_app; rewrite map_app; apply elem_of_app; [left; by apply Hall | right; by left].
Qed.

Lemma elem_of_ids db (instrs : list uuid) i id : i ∈ instrs ->
  id ∈ default [] (by_instr (ListIdentifiersOf db instrs) !! i) <-> exists x, x ∈ db_identifiers db /\ Some i = Some (ir_InstrID x) /\ to_Identifier x = id.
Proof.
  intros Hi. unfold by_instr. rewrite group_lookup, list_elem_of_fmap. unfold ListIdentifiersOf. split.
  - intros (x & -> & [[Hx _]%elem_of_sort_func%elem_of_lfilter <-%bool_decide_eq_true]%elem_of_lfilter). by exists x.
  - intros (x & Hx & [= ->] & <-). exists x. split; [done |]. rewrite elem_of_lfilter, bool_decide_eq_true, elem_of_sort_func, elem_of_lfilter, contains_true. done.
Qed.

(** Each market ticker held is read once. *)
Lemma readHeld_ok db held : Forall (ticker_of_held db) (readHeld db held) /\ NoDup (map ht_key (readHeld db held)) /\ map ht_row (readHeld db held) ⊆ held /\
  (forall row, row ∈ held -> row_key row ∈ map ht_key (readHeld db held)).
Proof.
  destruct (held_rows held) as (rows & Hr & Hnd & Hs & Hall). unfold readHeld. rewrite Hr. clear Hr.
  set (T := validity_tables _). set (read := Load T _). rewrite map_map.
  set (named := map (fun row => ht_name (unread row) (latest_instr (default [] (read !! ht_key (unread row))))) rows).
  set (instrs := omap ht_instr named).
  assert (forall ts, ts = map (fun t => match ht_instr t with Some i => ht_identify t (default [] (by_instr (ListIdentifiersOf db instrs) !! i)) | None => t end) named ->
    Forall (ticker_of_held db) ts /\ map ht_key ts = map row_key rows /\ map ht_row ts = rows) as H.
  { intros ts ->. split; [| unfold named; rewrite !map_map; split].
    - apply Forall_forall. intros t (n & -> & Hn)%list_elem_of_fmap. pose proof Hn as (row & -> & Hrow)%list_elem_of_fmap.
      set (n := ht_name _ _) in *. assert (ht_instr n = latest_instr (default [] (Load T [ht_key n] !! ht_key n))) as Hi.
      { simpl. f_equal. f_equal. apply Load_alone. rewrite map_map. by apply (list_elem_of_fmap_2 row_key). }
      destruct (ht_instr n) as [i|] eqn:Ei; (split; try done; [simpl in *; rewrite Ei; exact Hi |]); simpl in *; rewrite Ei; intros id.
      + apply elem_of_ids. apply list_elem_of_omap. by exists n.
      + split; [by intros ?%elem_of_nil | by intros (? & _ & ? & _)].
    - apply map_ext. intros row. by destruct (ht_instr _).
    - rewrite <- (map_id rows) at 2. apply map_ext. intros row. by destruct (ht_instr _). }
  assert (instrs = [] -> named = map (fun t => match ht_instr t with Some i => ht_identify t (default [] (by_instr (ListIdentifiersOf db instrs) !! i)) | None => t end) named) as E.
  { intros Ei. rewrite <- (map_id named) at 1. apply map_ext_in. intros t Ht%list_elem_of_In. destruct (ht_instr t) as [i|] eqn:Et; [| done].
    exfalso. apply (not_elem_of_nil i). rewrite <- Ei. apply list_elem_of_omap. by exists t. }
  match goal with |- Forall _ ?ts /\ _ => destruct (H ts) as (Hof & Hk & Hrow) end; [| by rewrite Hk, Hrow].
  cbv zeta. fold named. change (omap ht_instr _) with instrs. destruct instrs eqn:Ei; [by apply E | done].
Qed.

(** An instrument a latest interval names is stored. *)
Lemma latest_stored db t i : tables_ok db -> latest_instr (default [] (Load (validity_tables (db_validity db)) [t] !! t)) = Some i -> i ∈ instr_ids db.
Proof.
  intros Hok. rewrite Load_lookup by by left. simpl. unfold latest_instr. destruct (last _) as [iv|] eqn:El; simpl; [| done]. case_bool_decide; [| done].
  intros [= <-]. apply last_Some_elem_of, list_elem_of_fmap in El as (x & -> & Hx%elem_of_sort_func). apply elem_of_concat_map in Hx as (r & _ & Hx).
  apply list_elem_of_fmap in Hx as (v & -> & [Hv _]%elem_of_lfilter). simpl. exact (proj1 (Forall_forall _ _) (ok_validity _ Hok) v Hv).
Qed.

(** * What is asked *)

Section Requests.
Context (sources : gmap string string) (now : time) (e : Entry).

(** A request for the history of a held ticker: of its instrument, over the
    window, under an identifier that names it for good, and the first of its
    identifiers the source serves. *)
Lemma historyRequest_Some t q : historyRequest e t now = Some q -> exists server w i pre suf,
  en_Facts e = Some server /\ en_Window e = Some w /\ ht_instr t = Some i /\ fq_Period q = History w now /\
  ht_ids t = pre ++ fq_Identifier q :: suf /\ Stable (fq_Identifier q) = true /\ (exists id, sr_Serves server q = Ok id) /\
  forall id, id ∈ pre -> Stable id = true -> exists err, sr_Serves server (MkFactRequest id (History w now)) = Err err.
Proof.
  unfold historyRequest. destruct (en_Facts e) as [server|]; [| done]. simpl. destruct (ht_instr t) as [i|]; [| done]. simpl.
  destruct (en_Window e) as [w|]; [| done]. simpl. intros Hq. exists server, w, i. generalize dependent (ht_ids t). intros ids. induction ids as [|id ids IH]; [done |].
  csimpl. destruct (Stable id) eqn:Es; simpl.
  - destruct (sr_Serves server (MkFactRequest id (History w now))) as [sent|err] eqn:Ev; simpl.
    + intros [= <-]. exists [], ids. repeat (split; [done |]). split; [by exists sent | by intros ? ?%elem_of_nil].
    + intros Hq. destruct (IH Hq) as (pre & suf & ? & ? & ? & ? & -> & ? & ? & Hpre). exists (id :: pre), suf. repeat (split; [done |]).
      intros id' [->|Hin]%elem_of_cons Hst; [by exists err | by apply Hpre].
  - intros Hq. destruct (IH Hq) as (pre & suf & ? & ? & ? & ? & -> & ? & ? & Hpre). exists (id :: pre), suf. repeat (split; [done |]).
    intros id' [->|Hin]%elem_of_cons Hst; [congruence | by apply Hpre].
Qed.

(** [e] is the event source of the ticker's market and serves the history of its
    instrument, over its window, under the request's identifier: the first stable
    one of the instrument that it serves. *)
Definition history_of (t : heldTicker) (q : IdentifierFactRequest) : Prop :=
  default ""%string (sources !! mt_Market (ht_key t)) = en_Name e /\
  exists server w i pre suf, en_Facts e = Some server /\ en_Window e = Some w /\ ht_instr t = Some i /\ fq_Period q = History w now /\
    ht_ids t = pre ++ fq_Identifier q :: suf /\ Stable (fq_Identifier q) = true /\ (exists id, sr_Serves server q = Ok id) /\
    forall id, id ∈ pre -> Stable id = true -> exists err, sr_Serves server (MkFactRequest id (History w now)) = Err err.

Lemma asks_history_spec t q : asks_history sources now e t = Some q <-> history_of t q.
Proof.
  unfold asks_history, history_of. split.
  - destruct (historyRequest e t now) as [q'|] eqn:Eq; [| done]. simpl. case_bool_decide as Hs; [| done]. intros [= ->]. split; [done |]. by apply historyRequest_Some.
  - intros [Hs (server & w & i & pre & suf & Ef & Ew & Ei & Ep & Eids & Hst & [id Hok] & Hpre)].
    assert (historyRequest e t now = Some q) as ->; [| simpl; by rewrite bool_decide_eq_true_2].
    unfold historyRequest. rewrite Ef, Ew, Ei. simpl. rewrite Eids. clear Eids. induction pre as [|x pre IH]; simpl.
    + rewrite Hst. simpl. rewrite <- Ep. replace (MkFactRequest (fq_Identifier q) (fq_Period q)) with q by by destruct q. by rewrite Hok.
    + destruct (Stable x) eqn:Ex; simpl; [| apply IH; intros y Hy; apply Hpre; by right].
      destruct (Hpre x ltac:(left) Ex) as [err ->]. apply IH. intros y Hy. apply Hpre. by right.
Qed.

(** Each held ticker is asked one way: for its identity, in order, or for its
    instrument's history, each history once. *)
Lemma held_requests_ok ts : (held_requests sources now e ts).1 = List.filter (fun t => bool_decide (asks_history sources now e t = None)) ts /\
  NoDup (held_requests sources now e ts).2 /\
  (forall q, q ∈ (held_requests sources now e ts).2 <-> exists t, t ∈ ts /\ asks_history sources now e t = Some q).
Proof.
  unfold held_requests. induction ts as [|t ts IH] using rev_ind; [split; [done |]; split; [apply NoDup_nil_2 |]; intros q; split; [by intros ?%elem_of_nil | by intros (? & ?%elem_of_nil & _)] |].
  rewrite foldl_app, List.filter_app. simpl. destruct (foldl _ _ ts) as [ids qs]. simpl in IH. destruct IH as (Hi & Hnd & Hq).
  assert (forall q, (exists u, u ∈ ts ++ [t] /\ asks_history sources now e u = Some q) <-> q ∈ qs \/ asks_history sources now e t = Some q) as Hs.
  { intros q. rewrite Hq. split.
    - intros (u & [Hu| ->%list_elem_of_singleton]%elem_of_app & H); [left; by exists u | by right].
    - intros [(u & Hu & H)|H]; [exists u; split; [apply elem_of_app; by left | done] | exists t; split; [apply elem_of_app; right; by left | done]]. }
  destruct (asks_history sources now e t) as [q0|] eqn:Et; simpl.
  - split; [by rewrite app_nil_r |]. split; [by apply append_unique_NoDup |]. intros q. rewrite Hs, elem_of_append_unique. split; [intros [?| ->]; auto | intros [?|[= ->]]; auto].
  - split; [by rewrite Hi |]. split; [done |]. intros q. rewrite Hs. split; [auto | by intros [?|?]].
Qed.

End Requests.

(** * What is answered *)

(** A fetch key but for what it asked and was answered. *)
Definition erase {Q P} (k : FetchKey Q P) : FetchKey unit unit :=
  MkFetchKey tt (fk_Run k) (fk_Source k) (fk_ID k) (fk_Outcome k) (fk_SentID k) (fk_Reason k) tt (fk_AnsweredAt k) (fk_attempts k) (fk_cached k).

Lemma erase_ids {Q P} (keys : list (FetchKey Q P)) : map fk_ID (map erase keys) = map fk_ID keys.
Proof. by rewrite map_map. Qed.

Lemma fetched_erase {Q P} source (reqs : list Q) db (keys : list (FetchKey Q P)) db' : fetched source reqs db keys db' ->
  fetched source (map (fun _ => tt) reqs) db (map erase keys) db'.
Proof.
  intros [Hr Hs Hnd Hnew Hn Hrows]. split; rewrite ?erase_ids; try done.
  - rewrite <- Hr, !map_map. done.
  - by apply Forall_map.
  - by apply Forall_map.
Qed.

Definition any_key (k : FetchKey unit unit) : Prop := True.

Lemma all_fetched_perm {Q P} (good : FetchKey Q P -> Prop) db ks ks' db' : ks ≡ₚ ks' -> all_fetched good db ks db' -> all_fetched good db ks' db'.
Proof. intros Hp [H1 H2 H3 H4 H5 H6]. split; try done; [by rewrite <- Hp | intros k; rewrite <- Hp; apply H3 | intros k; rewrite <- Hp; apply H4 | by rewrite <- Hp]. Qed.

Lemma erased_app {Q P} source (reqs : list Q) db ks db1 (keys : list (FetchKey Q P)) db2 : all_fetched any_key db ks db1 ->
  fetched source reqs db1 keys db2 -> all_fetched any_key db (ks ++ map erase keys) db2.
Proof. intros Ha Hf. eapply all_fetched_app; [exact Ha | exact (fetched_erase _ _ _ _ _ Hf) | by apply Forall_forall]. Qed.

Section Answers.
Context {E : Type} `{IdentityFetcher E} `{!FactsFetcher E}.

(** Who is asked what: each name with a held ticker asked for its identity, and
    each name with a history asked for. *)
Definition asked_identities (asked : list (Entry * (list heldTicker * list IdentifierFactRequest))) : list (string * heldTicker) :=
  concat (map (fun a => map (fun t => (en_Name a.1, t)) a.2.1) asked).
Definition asked_histories (asked : list (Entry * (list heldTicker * list IdentifierFactRequest))) : list (string * IdentifierFactRequest) :=
  concat (map (fun a => map (fun q => (en_Name a.1, q)) a.2.2) asked).

(** The answers, one for each ticker asked and each history, in order, under new
    fetch keys. *)
Record held_answered (asked : list (Entry * (list heldTicker * list IdentifierFactRequest))) (answers : list heldAnswer) (facts : list factKey) : Prop := {
  hn_identities : map (fun a => (fk_Source (ha_fk a), ha_t a)) answers = asked_identities asked;
  hn_requests : Forall (fun a => fk_Request (ha_fk a) = identity_request (ha_t a)) answers;
  hn_histories : map (fun k => (fk_Source k, fk_Request k)) facts = asked_histories asked;
  hn_good : Forall (fun a => good_identity (ha_fk a)) answers;
  hn_facts : Forall good_facts facts;
}.

Definition erased (answers : list heldAnswer) (facts : list factKey) : list (FetchKey unit unit) :=
  map (fun a => erase (ha_fk a)) answers ++ map erase facts.

Lemma zip_answers ts (keys : list fetchKey) : map fk_Request keys = map identity_request ts ->
  map (fun a => erase (ha_fk a)) (zip_with MkHeldAnswer ts keys) = map erase keys /\ map ha_t (zip_with MkHeldAnswer ts keys) = ts /\
  map ha_fk (zip_with MkHeldAnswer ts keys) = keys /\ Forall (fun a => fk_Request (ha_fk a) = identity_request (ha_t a)) (zip_with MkHeldAnswer ts keys).
Proof.
  revert keys. induction ts as [|t ts IH]; intros [|k keys]; try done; simpl. intros [= Hk Hr]. destruct (IH keys Hr) as (-> & -> & -> & Hf).
  repeat (split; [done |]). by constructor.
Qed.

Lemma fetch_held_each_ok run asked : forall db0 db ks, all_fetched any_key db0 ks db ->
  match fetch_held_each run asked db with
  | Err _ => True
  | Ok (answers, facts, db') => all_fetched any_key db0 (ks ++ erased answers facts) db' /\ held_answered asked answers facts
  end.
Proof.
  induction asked as [|[e [ts qs]] asked IH]; intros db0 db ks Hdb; simpl.
  { unfold erased. simpl. rewrite app_nil_r. by split. }
  set (m1 := match ts with [] => Ok ([], db) | _ => ft_TickerIdentity run e (map identity_request ts) db end).
  assert (match m1 with Err _ => True | Ok (keys, db1) => all_fetched any_key db0 (ks ++ map erase keys) db1 /\ map fk_Request keys = map identity_request ts /\
    Forall (fun k => fk_Source k = en_Name e) keys /\ Forall good_identity keys end) as H1.
  { unfold m1. destruct ts as [|t ts]; [by rewrite app_nil_r |]. destruct (ft_TickerIdentity _ _ _ _) as [[keys db1]|] eqn:Ef; [| done].
    apply if_tickers in Ef as [Hf Hg]. split; [by eapply erased_app |]. split; [apply Hf |]. by split; [apply Hf |]. }
  destruct m1 as [[keys db1]|]; [| done]. cbn [mbind res_bind]. destruct H1 as (Hdb1 & Hreq & Hsrc & Hgood).
  set (m2 := match qs with [] => Ok ([], db1) | _ => ft_IdentifierFacts run e qs db1 end).
  assert (match m2 with Err _ => True | Ok (fks, db2) => all_fetched any_key db0 ((ks ++ map erase keys) ++ map erase fks) db2 /\ map fk_Request fks = qs /\
    Forall (fun k => fk_Source k = en_Name e) fks /\ Forall good_facts fks end) as H2.
  { unfold m2. destruct qs as [|q qs]; [by rewrite app_nil_r |]. destruct (ft_IdentifierFacts _ _ _ _) as [[fks db2]|] eqn:Ef; [| done].
    apply ff_ok in Ef as [Hf Hg]. split; [by eapply erased_app |]. split; [apply Hf |]. by split; [apply Hf |]. }
  destruct m2 as [[fks db2]|]; [| done]. cbn [mbind res_bind]. destruct H2 as (Hdb2 & Hfreq & Hfsrc & Hfgood).
  specialize (IH _ _ _ Hdb2). destruct (fetch_held_each run asked db2) as [[[answers facts] db3]|]; [| done]. cbn [mbind res_bind].
  destruct IH as [Hdb3 [A1 A2 A3 A4 A5]]. destruct (zip_answers ts keys Hreq) as (Z1 & Z2 & Z3 & Z4). split.
  - eapply all_fetched_perm; [| exact Hdb3]. unfold erased. rewrite !map_app, Z1. solve_Permutation.
  - split; unfold asked_identities, asked_histories in *; simpl.
    + rewrite map_app, A1. f_equal. transitivity (map (fun t => (en_Name e, t)) (map ha_t (zip_with MkHeldAnswer ts keys))); [rewrite map_map | by rewrite Z2]. apply map_ext_in. intros a Ha%list_elem_of_In. f_equal.
      rewrite Forall_forall in Hsrc. apply Hsrc. rewrite <- Z3. by apply list_elem_of_fmap_2.
    + by apply Forall_app.
    + rewrite map_app, A3. f_equal. rewrite <- Hfreq. rewrite map_map. apply map_ext_in. intros k Hk%list_elem_of_In. f_equal. by apply (proj1 (Forall_forall _ _) Hfsrc).
    + apply Forall_app. split; [| done]. apply Forall_forall. intros a Ha. apply (proj1 (Forall_forall _ _) Hgood). rewrite <- Z3. by apply list_elem_of_fmap_2.
    + by apply Forall_app.
Qed.

Definition held_asked (entries : list Entry) (db : instr_db) (now : time) (ts : list heldTicker) : list (Entry * (list heldTicker * list IdentifierFactRequest)) :=
  map (fun e => (e, held_requests (eventSources (db_validity db)) now e ts)) entries.

Lemma fetchHeld_ok entries run now ts db : stored_ok db ->
  match fetchHeld entries run now ts db with
  | Err _ => True
  | Ok (answers, facts, db') => all_fetched any_key db (erased answers facts) db' /\ held_answered (held_asked entries db now ts) answers facts
  end.
Proof. intros Hso. apply (fetch_held_each_ok run _ db db []). by apply all_fetched_nil. Qed.

End Answers.

(** * What an answer asserts *)

Section Assert.
Context (mics : MICMap) (families : Families).

(** An answer whose ticker and fetch key are stored, with what is known of the
    ticker's instrument. *)
Record answer_held (db : instr_db) (a : heldAnswer) : Prop := {
  ah_row : ht_tickerRow (ha_t a) ∈ vd_tickers (db_validity db);
  ah_instr i : ht_instr (ha_t a) = Some i -> i ∈ instr_ids db;
  ah_ids id : id ∈ ht_ids (ha_t a) -> exists x, x ∈ db_identifiers db /\ ht_instr (ha_t a) = Some (ir_InstrID x) /\ to_Identifier x = id;
  ah_fetch : is_Some (db_fetch db !! fk_ID (ha_fk a));
  ah_fresh x : x ∈ vd_assertions (db_validity db) -> ia_FetchKeyID x <> Some (fk_ID (ha_fk a));
}.

Record answers_held (db : instr_db) (answers : list heldAnswer) : Prop := {
  as_each : Forall (answer_held db) answers;
  as_once : NoDup (map (fun a => fk_ID (ha_fk a)) answers);
  as_codes : codes_ok families db;
}.

(** The listing has an identifier of the ticker's instrument. *)
Definition lists_held (l : MarketListing) (t : heldTicker) : Prop := exists id, id ∈ ml_Identifiers l /\ id ∈ ht_ids t.

Lemma held_shares_spec l t : held_shares l t = true <-> lists_held l t.
Proof. unfold held_shares, lists_held. rewrite existsb_elem. by setoid_rewrite contains_true. Qed.

Definition lists_key (key : MarketTicker) (l : MarketListing) : Prop := exists id, id ∈ ml_Identifiers l /\ mics_MarketTicker mics id = Some key.

(** What an answer names: nothing, where the source knows no such ticker, or the
    instrument that a listing of the ticker shares an identifier with, stated at
    the venue where the listing has the ticker. The instrument of the ticker comes
    before any other. *)
Inductive names (db : instr_db) (a : heldAnswer) : option uuid -> Stated -> Prop :=
| names_nothing : ir_Unknown (fk_Response (ha_fk a)) = true -> names db a None (MkStated "" "")
| names_instr l id venue x : ir_Unknown (fk_Response (ha_fk a)) = false -> l ∈ ir_Listings (fk_Response (ha_fk a)) ->
    id ∈ ml_Identifiers l -> mics_MarketTicker mics id = Some (ht_key (ha_t a)) -> Operating mics (id_Domain id) = Some venue ->
    x ∈ db_identifiers db -> to_Identifier x ∈ ml_Identifiers l -> (lists_held l (ha_t a) -> ht_instr (ha_t a) = Some (ir_InstrID x)) ->
    names db a (Some (ir_InstrID x)) (MkStated venue (known families (ml_Currency l))).

(** An answer that names nothing stored: no listing has the ticker, or one that
    has it shares no identifier with the ticker's instrument and states no stable
    identifier that is stored. *)
Definition unmatched (db : instr_db) (a : heldAnswer) : Prop :=
  ir_Unknown (fk_Response (ha_fk a)) = false /\
  ((forall l, l ∈ ir_Listings (fk_Response (ha_fk a)) -> ~ lists_key (ht_key (ha_t a)) l) \/
   (exists l, l ∈ ir_Listings (fk_Response (ha_fk a)) /\ lists_key (ht_key (ha_t a)) l /\ ~ lists_held l (ha_t a) /\
      forall id x, id ∈ ml_Identifiers l -> Stable id = true -> x ∈ db_identifiers db -> to_Identifier x <> id)).

Lemma states_key_true key id : states_key mics key id = true <-> mics_MarketTicker mics id = Some key.
Proof. unfold states_key. by rewrite bool_decide_eq_true. Qed.

Lemma listingOf_ok r key : match listingOf mics r key with
  | Some l => l ∈ ir_Listings r /\ lists_key key l
  | None => forall l, l ∈ ir_Listings r -> ~ lists_key key l
  end.
Proof.
  unfold listingOf. destruct (find_func _ _) as [l|] eqn:Ef.
  - apply find_func_Some in Ef as [Hl (id & Hid & Hs%states_key_true)%existsb_elem]. split; [done | by exists id].
  - rewrite find_func_None in Ef. intros l Hl (id & Hid & Hs). specialize (Ef l Hl). simpl in Ef. rewrite existsb_false in Ef.
    specialize (Ef id Hid). apply states_key_true in Hs. congruence.
Qed.

Lemma market_operating id key : mics_MarketTicker mics id = Some key -> exists venue, Operating mics (id_Domain id) = Some venue.
Proof.
  unfold mics_MarketTicker. destruct (_ || _); [done |]. unfold Market, Operating. destruct (mics !! _) as [m|]; [| done]. simpl. intros _. by eexists.
Qed.

Lemma stated_ok l key : lists_key key l -> exists id venue, id ∈ ml_Identifiers l /\ mics_MarketTicker mics id = Some key /\
  Operating mics (id_Domain id) = Some venue /\ stated mics families l key = MkStated venue (known families (ml_Currency l)).
Proof.
  intros (id0 & Hid0 & Hs0). unfold stated. destruct (find_func _ _) as [id|] eqn:Ef.
  - apply find_func_Some in Ef as [Hid Hs%states_key_true]. destruct (market_operating id key Hs) as [venue Hv]. exists id, venue. by rewrite Hv.
  - rewrite find_func_None in Ef. specialize (Ef id0 Hid0). apply states_key_true in Hs0. simpl in Ef. congruence.
Qed.

Lemma StoredInstr_same db db' ids : db_identifiers db' = db_identifiers db -> db_instrs db' = db_instrs db -> StoredInstr db' ids = StoredInstr db ids.
Proof.
  intros Hd Hi. induction ids as [|id ids IH]; [done |]. cbn [StoredInstr]. rewrite IH. unfold FindIdentifier. by rewrite Hd, Hi.
Qed.

Lemma StoredInstr_none db ids : tables_ok db -> StoredInstr db ids = None ->
  forall id x, id ∈ ids -> Stable id = true -> x ∈ db_identifiers db -> to_Identifier x <> id.
Proof.
  intros Hok. induction ids as [|id ids IH]; simpl; [by intros _ ? ? ?%elem_of_nil |]. destruct (Stable id) eqn:Es; simpl.
  - destruct (FindIdentifier db id) as [[r i]|] eqn:Ef; [done |]. intros Hn id' x [->|Hin]%elem_of_cons Hst Hx; [| by eapply IH].
    by apply (proj1 (FindIdentifier_None db id Hok) Ef).
  - intros Hn id' x [->|Hin]%elem_of_cons Hst Hx; [congruence | by eapply IH].
Qed.

Lemma held_named_ok db a : tables_ok db -> answer_held db a ->
  yields (held_named mics families a) db (fun o db' => db' = db /\ match o with Some (instr, s) => names db a instr s | None => unmatched db a end).
Proof.
  intros Hok [_ Hi Hids _ _]. unfold held_named. destruct (ir_Unknown _) eqn:Eu; [apply yields_ret; split; [done | by apply names_nothing] |].
  pose proof (listingOf_ok (fk_Response (ha_fk a)) (ht_key (ha_t a))) as Hl. destruct (listingOf _ _ _) as [l|]; [| apply yields_ret; split; [done |]; split; [done | by left]].
  destruct Hl as [Hl Hk]. destruct (stated_ok l _ Hk) as (id & venue & Hid & Hmt & Hop & ->).
  destruct (bool_decide _ || _) eqn:Ec.
  - apply yields_get, yields_ret. split; [done |]. assert (~ lists_held l (ha_t a)) as Hs.
    { rewrite <- held_shares_spec. apply not_true_iff_false. apply orb_true_iff in Ec as [Ec%bool_decide_eq_true|Ec%negb_true_iff]; [| done]. apply existsb_false. intros y Hy. apply contains_false. intros Hin.
      destruct (Hids y Hin) as (x & _ & Hx & _). congruence. }
    destruct (StoredInstr db (ml_Identifiers l)) as [i|] eqn:Es; simpl.
    + destruct (StoredInstr_row db _ i Hok Es) as (x & Hx & Hxid & <-). by apply (names_instr db a l id venue x).
    + split; [done |]. right. exists l. split; [done |]. split; [done |]. split; [done |]. by apply StoredInstr_none.
  - apply orb_false_iff in Ec as [Ec%bool_decide_eq_false Es%negb_false_iff]. apply yields_ret. split; [done |].
    pose proof Es as (y & Hy & Hc%contains_true)%existsb_elem. destruct (Hids y Hc) as (x & Hx & E & <-). rewrite E. by apply (names_instr db a l id venue x).
Qed.

(** The row of an answer: of its day, under its fetch key. *)
Definition asserted_answer (db : instr_db) (a : heldAnswer) (o : option AssertionRow) : Prop :=
  match o with
  | Some r => fk_Outcome (ha_fk a) = FetchOutcomeServed /\ exists id instr s, names db a instr s /\
      r = assert_row id (fk_ID (ha_fk a)) (ht_tickerRow (ha_t a)) instr (OneDay (fk_AnsweredAt (ha_fk a))) false false s
  | None => fk_Outcome (ha_fk a) <> FetchOutcomeServed \/ unmatched db a
  end.

(** The tickers asserted, each with the run of its answer. *)
Definition answer_pairs (answers : list heldAnswer) (os : list (option AssertionRow)) : list (uuid * MarketTicker) :=
  omap id (zip_with (fun a (o : option AssertionRow) => (fun _ => (fk_Run (ha_fk a), ht_key (ha_t a))) <$> o) answers os).

(** What the loop leaves once it has taken the answers [seen]. *)
Record asserting (db0 : instr_db) (seen : list heldAnswer) (w : writtenSet) (db : instr_db) : Prop := {
  ag_writable : writable db;
  ag_refs : refs_kept db0 db;
  ag_rows : exists os n, (db_next db0 <= n)%N /\ db = set_next n (set_validity_db (set_assertions (fun l => l ++ omap id os)) db0) /\
    Forall2 (asserted_answer db0) seen os /\ w = addTickers mics (answer_pairs seen os);
}.

Lemma asserting_nil db : writable db -> asserting db [] (newWritten mics) db.
Proof.
  intros Hw. split; [done | done |]. exists [], (db_next db). split; [done |]. split; [| by split].
  destruct db as [? ? ? ? ? ? v]. unfold set_next, set_validity_db. simpl. by rewrite set_assertions_nil.
Qed.

Lemma answer_pairs_app seen os a o : length seen = length os -> answer_pairs (seen ++ [a]) (os ++ [o]) =
  answer_pairs seen os ++ match o with Some _ => [(fk_Run (ha_fk a), ht_key (ha_t a))] | None => [] end.
Proof. intros Hl. unfold answer_pairs. rewrite zip_with_app by done. rewrite omap_app. f_equal. by destruct o. Qed.

(** An answer with no row. *)
Lemma asserting_skip db0 seen w db a : asserting db0 seen w db -> asserted_answer db0 a None -> asserting db0 (seen ++ [a]) w db.
Proof.
  intros [Hw Hr (os & n & Hn & E & Hos & Ew)] Ha. split; [done | done |]. exists (os ++ [None]), n. split; [done |].
  split; [by rewrite omap_app, app_nil_r |]. split; [apply Forall2_app; [done | by constructor] |].
  rewrite answer_pairs_app, app_nil_r by by eapply Forall2_length. done.
Qed.

Lemma names_refers db a instr s : tables_ok db -> codes_ok families db -> names db a instr s -> refers (instr_ids db) instr /\ refers (db_codes db) (nullif (st_Currency s)).
Proof.
  intros Hok Hc [_|l id venue x _ _ _ _ _ Hx _ _]; [done |]. simpl. split.
  - by destruct (proj1 (Forall_forall _ _) (ok_identifier _ Hok) x Hx).
  - unfold nullif, known. case_bool_decide as Hn; [done |]. destruct (Known families (ml_Currency l)) eqn:Ek; [| done]. by apply Hc.
Qed.

Lemma assertHeld_ok db0 seen a suf w db : writable db0 -> answers_held db0 (seen ++ a :: suf) -> asserting db0 seen w db ->
  yields (assertHeld mics families w a) db (asserting db0 (seen ++ [a])).
Proof.
  intros Hw0 [Heach Hnd Hcodes] Has. pose proof Has as [Hw Hr (os & n & Hn & E & Hos & Ew)].
  assert (answer_held db0 a) as Hh by (apply (proj1 (Forall_forall _ _) Heach), elem_of_app; right; by left).
  assert (fk_ID (ha_fk a) ∉ map (fun a => fk_ID (ha_fk a)) seen) as Hnew by exact (NoDup_keys_mid _ seen a suf Hnd).
  unfold assertHeld. case_bool_decide as Hout; cbn [negb]; [| apply yields_ret, asserting_skip; [done | by left]].
  assert (yields (held_named mics families a) db (fun o db' => db' = db /\ match o with Some (instr, s) => names db0 a instr s | None => unmatched db0 a end)) as Hy.
  { clear -Hw0 Hh E. subst db. destruct (held_named_ok db0 a (wb_ok _ Hw0) Hh) as (o & ? & Hrun & -> & Ho). exists o. eexists. split; [| by split].
    revert Hrun. unfold held_named. destruct (ir_Unknown _); [by intros [= <-] |]. destruct (listingOf _ _ _) as [l|]; [| by intros [= <-]].
    destruct (_ || _); [| by intros [= <-]]. intros [= <-]. unfold mbind, tx_bind, tx_get, mret, tx_ret. do 3 f_equal.
    by apply StoredInstr_same. }
  apply (yields_bind _ _ _ _ _ Hy). intros [[instr s]|] ? [-> Ho]; [| apply yields_ret, asserting_skip; [done | by right]].
  destruct (names_refers db0 a instr s (wb_ok _ Hw0) Hcodes Ho) as [Hi Hc]. unfold AssertInstr.
  destruct (assert_row_ok db Hw (fk_ID (ha_fk a)) (ht_tickerRow (ha_t a)) instr (OneDay (fk_AnsweredAt (ha_fk a))) false false s) as (Hrun & Hw' & Hr').
  { apply Hr, Hh. }
  { rewrite <- (kept_tickers _ _ Hr). apply Hh. }
  { destruct instr as [i|]; [| done]. by apply (kept_instrs _ _ Hr). }
  { apply OneDay_order. }
  { by rewrite <- (kept_codes _ _ Hr). }
  { rewrite E. simpl. intros x [Hx|Hx]%elem_of_app Hk _ _ _; [by apply (ah_fresh _ _ Hh x) |]. apply Hnew.
    apply list_elem_of_omap in Hx as (o & Ho' & Hox). simpl in Hox. subst o. apply list_elem_of_lookup in Ho' as [j Hj].
    destruct (Forall2_lookup_r _ _ _ _ _ Hos Hj) as (b & Hb & _ & id' & i' & s' & _ & ->). simpl in Hk. injection Hk as <-.
    apply list_elem_of_fmap. exists b. split; [done |]. by eapply list_elem_of_lookup_2. }
  set (row := assert_row _ _ _ _ _ _ _ _) in *. set (db' := set_validity_db (set_assertions (fun l => l ++ [row])) _) in *.
  apply (yields_bind _ _ _ (fun _ d => d = db') _ (yields_run _ _ tt _ _ Hrun eq_refl)). intros [] ? ->. apply yields_ret.
  split; [done | by eapply refs_kept_trans |]. exists (os ++ [Some row]), (db_next db + 1)%N. split; [rewrite E; simpl; lia |]. split; [| split].
  - unfold db'. rewrite E. unfold set_next, set_validity_db. simpl. by rewrite set_assertions_app, omap_app.
  - apply Forall2_app; [done |]. constructor; [| constructor]. split; [done |]. exists (db_next db), instr, s. split; [exact Ho | reflexivity].
  - rewrite answer_pairs_app by by eapply Forall2_length. unfold addTickers. rewrite foldl_app. simpl. by rewrite Ew.
Qed.

(** The rows of a day keep the facts in form. *)
Lemma asserted_valid v rows : validity_db_ok v -> Forall (fun a => one_day a /\ exists r, r ∈ vd_tickers v /\ tk_ID r = ia_TickerID a /\ tk_Market r = ia_Market a) rows ->
  validity_db_ok (set_assertions (fun l => l ++ rows) v).
Proof.
  intros [V1 V2 V3 V4 V5 V6 V7 V8 V9] Hrows. rewrite Forall_forall in Hrows. split; try done; simpl.
  - intros a [Ha|Ha]%elem_of_app; [by apply V3 |]. destruct (Hrows a Ha) as [Hd _]. split; [| by apply one_day_whole].
    destruct Hd as [t Ht]. pose proof (OneDay_order t) as Ho. by rewrite <- Ht in Ho.
  - intros a [Ha|Ha]%elem_of_app; [by apply V4 |]. by destruct (Hrows a Ha).
Qed.

(** What the transaction leaves: a row for each answer that names something, and
    the ticker validity of the tickers asked rebuilt from what is then stored. *)
Record answers_asserted (db : instr_db) (ids : list uuid) (answers : list heldAnswer) (os : list (option AssertionRow)) (db' : instr_db) : Prop := {
  aa_stored : stored_ok db';
  aa_rows : Forall2 (asserted_answer db) answers os;
  aa_tables : exists n v, db' = set_next n (set_validity_db (fun _ => v) db) /\
    Rebuild (set_assertions (fun l => l ++ omap id os) (db_validity db)) (Tickers.Lock (vd_tickers (db_validity db)) ids) = Some v /\
    vd_tickers v = vd_tickers (db_validity db) /\ vd_assertions v = vd_assertions (db_validity db) ++ omap id os;
}.

Lemma assertAnswers_ok ids answers db : stored_ok db -> answers_held db answers ->
  yields (assertAnswers mics families ids answers) db (fun w db' => exists os, w = addTickers mics (answer_pairs answers os) /\ answers_asserted db ids answers os db').
Proof.
  intros [Hw Hv Ht] Hans. unfold assertAnswers. apply yields_get. cbv zeta. set (locked := Tickers.Lock _ _).
  eapply yields_bind.
  { apply (yields_fold _ (asserting db) answers []); [by apply asserting_nil |]. intros pre a suf w d Heq Has. simpl in Heq. subst answers. by eapply assertHeld_ok. }
  simpl. intros w db1 [Hw1 Hr1 (os & n & Hn & E & Hos & ->)].
  assert (validity_db_ok (db_validity db1)) as Hv1.
  { rewrite E. simpl. apply asserted_valid; [done |]. apply Forall_forall. intros x (o & Ho & Hox)%list_elem_of_omap. simpl in Hox. subst o.
    apply list_elem_of_lookup in Ho as [j Hj]. destruct (Forall2_lookup_r _ _ _ _ _ Hos Hj) as (a & Ha & _ & id' & i & s & _ & ->). simpl. split; [by eexists |].
    exists (ht_tickerRow (ha_t a)). split; [| done]. apply (ah_row db). apply (proj1 (Forall_forall _ _) (as_each _ _ Hans)). by eapply list_elem_of_lookup_2. }
  apply (yields_bind _ _ _ _ _ (tx_Rebuild_ok db1 locked Hw1 Hv1)). intros [] db2 (Hw2 & Hr2 & Hv2 & Hrb & (rows & names' & E2)). apply yields_ret.
  assert (vd_tickers (db_validity db2) = vd_tickers (db_validity db)) as Et by (rewrite <- (kept_tickers _ _ Hr2), <- (kept_tickers _ _ Hr1); done).
  exists os. split; [done |]. split; [| done |].
  - split; [done | done |]. rewrite Et. intros r Hin. pose proof (Ht r Hin). rewrite E2, E. simpl. lia.
  - exists n, (db_validity db2). split; [by rewrite E2, E |]. split; [by rewrite E in Hrb |]. split; [done | by rewrite E2, E].
Qed.

End Assert.

(** * The run *)

(** A held row is one of the table of tickers. *)
Definition held_known (db : instr_db) (row : ListHeldTickersRow) : Prop :=
  MkTickerRow (lh_TickerID row) (lh_Market row) (lh_Value row) ∈ vd_tickers (db_validity db).

Lemma fetched_fresh {Q P} (good : FetchKey Q P -> Prop) db keys db' k a : stored_ok db -> all_fetched good db keys db' -> k ∈ keys ->
  a ∈ vd_assertions (db_validity db') -> ia_FetchKeyID a <> Some (fk_ID k).
Proof.
  intros [[Hok _ _] _ _] [_ _ Hnew _ (m & ks & n & ->) _] Hk Ha Ek. destruct (proj1 (Forall_forall _ _) (ok_assertion _ Hok) a Ha) as (_ & _ & Hfb & _).
  rewrite Ek in Hfb. destruct Hfb as [x Hx]. by rewrite (Hnew k Hk) in Hx.
Qed.

(** Recording facts keeps what is known of the answers under other keys. *)
Lemma recorded_answers mics families facts db recorded db' answers : facts_outcome mics families facts db recorded db' ->
  (forall a, a ∈ answers -> fk_ID (ha_fk a) ∉ map fk_ID facts) -> answers_held families db answers -> answers_held families db' answers.
Proof.
  intros Hout Hdis [Heach Hnd Hc]. destruct recorded; [| by destruct Hout as [-> _]].
  destruct Hout as (_ & t & rows & added & Ht & _ & d & [_ _ _ (d1 & Hrec & _ & validity & names & ->)] & ->).
  pose proof (fc_refs _ _ _ _ _ _ Hrec) as Hr. split; [| done |].
  - apply Forall_forall. intros a Ha. destruct (proj1 (Forall_forall _ _) Heach a Ha) as [A1 A2 A3 A4 A5]. split.
    + simpl. rewrite <- (kept_tickers _ _ Hr). simpl. rewrite Ht. apply elem_of_app. by left.
    + intros i Hi. apply (kept_instrs _ _ Hr). by apply A2.
    + intros id Hid. destruct (A3 id Hid) as (x & Hx & ?). exists x. split; [| done]. by apply (fc_identifiers _ _ _ _ _ _ Hrec).
    + by apply (kept_fetch _ _ Hr).
    + destruct (fc_facts _ _ _ _ _ _ Hrec) as (os & cs & Ev & Hos & _). simpl. rewrite Ev. simpl. intros x [Hx|Hx]%elem_of_app; [by apply A5 |].
      apply list_elem_of_omap in Hx as (o & Ho & Hox). simpl in Hox. subst o. apply list_elem_of_lookup in Ho as [j Hj].
      destruct (Forall2_lookup_r _ _ _ _ _ Hos Hj) as (ka & Hka & Hk & _). rewrite Hk. intros [= E]. apply (Hdis a Ha). rewrite <- E.
      apply list_elem_of_lookup_2, elem_of_served_assertions in Hka as (k & Hk' & _ & -> & _). by apply list_elem_of_fmap_2.
  - unfold codes_ok in *. simpl. by rewrite <- (kept_codes _ _ Hr).
Qed.

Lemma asked_held {E} `{Fetcher E} entries db now ts s t : (s, t) ∈ asked_identities (held_asked entries db now ts) -> t ∈ ts.
Proof.
  unfold asked_identities, held_asked. rewrite map_map. simpl. intros (e & _ & (u & [= -> ->] & Hu)%list_elem_of_fmap)%elem_of_concat_map.
  rewrite (proj1 (held_requests_ok _ _ _ _)) in Hu. by apply elem_of_lfilter in Hu as [? _].
Qed.

Section Reassert.
Context {E : Type} `{IdentityFetcher E} `{!FactsFetcher E}.
Context (mics : MICMap) (families : Families) (entries : list Entry) (format_date : time -> string) (uuid_string : uuid -> string).

(** The held tickers read: one for each market ticker, of a row of it, with the
    instrument of its last interval where that has not ended, and the identifiers
    of the instrument. *)
Record held_read (db : instr_db) (held : list ListHeldTickersRow) (ts : list heldTicker) : Prop := {
  hr_once : NoDup (map ht_key ts);
  hr_rows t : t ∈ ts -> ht_row t ∈ held /\ ht_key t = row_key (ht_row t) /\
    ht_ticker t = MkIdentifier IdentifierTypeMicTicker (lh_Venue (ht_row t)) (lh_Value (ht_row t)) /\ tk_ID (ht_tickerRow t) = lh_TickerID (ht_row t);
  hr_all row : row ∈ held -> row_key row ∈ map ht_key ts;
  hr_instr t i : t ∈ ts -> ht_instr t = Some i <-> exists ivs iv, default [] (Load (validity_tables (db_validity db)) [ht_key t] !! ht_key t) = ivs ++ [iv] /\
    iv_Before iv = None /\ iv_Instr iv = i;
  hr_ids t id : t ∈ ts -> id ∈ ht_ids t <-> exists x, x ∈ db_identifiers db /\ ht_instr t = Some (ir_InstrID x) /\ to_Identifier x = id;
}.

(** The answers to what is asked of them. Each datasource answers, once and in the
    order of the tickers, the identity of each ticker whose history it is not
    asked for, and each history it is asked for once. *)
Record held_fetched (db : instr_db) (now : time) (ts : list heldTicker) (answers : list heldAnswer) (facts : list factKey) : Prop := {
  hf_identities : exists asked, Forall2 (fun e us => us `sublist_of` ts /\
      forall t, t ∈ us <-> t ∈ ts /\ forall q, ~ history_of (eventSources (db_validity db)) now e t q) entries asked /\
    map (fun a => (fk_Source (ha_fk a), ha_t a)) answers = concat (zip_with (fun e us => map (fun t => (en_Name e, t)) us) entries asked);
  hf_requests a : a ∈ answers -> fk_Request (ha_fk a) =
    MkStatedKey 0 0 (lh_AssetClass (ht_row (ha_t a))) (lh_Currency (ht_row (ha_t a))) [ht_ticker (ha_t a)] None None None None;
  hf_histories : exists asked, Forall2 (fun e qs => NoDup qs /\
      forall q, q ∈ qs <-> exists t, t ∈ ts /\ history_of (eventSources (db_validity db)) now e t q) entries asked /\
    map (fun k => (fk_Source k, fk_Request k)) facts = concat (zip_with (fun e qs => map (fun q => (en_Name e, q)) qs) entries asked);
  hf_good : Forall (fun a => good_identity (ha_fk a)) answers /\ Forall good_facts facts;
}.

Lemma latest_instr_Some ivs i : latest_instr ivs = Some i <-> exists ivs' iv, ivs = ivs' ++ [iv] /\ iv_Before iv = None /\ iv_Instr iv = i.
Proof.
  unfold latest_instr. split.
  - destruct (last ivs) as [iv|] eqn:El; [| done]. simpl. case_bool_decide as Hb; [| done]. intros [= <-]. apply last_Some in El as [l ->]. by exists l, iv.
  - intros (l & iv & -> & Hb & <-). rewrite last_snoc. simpl. by rewrite bool_decide_eq_true_2.
Qed.

Lemma held_read_ok db held : held_read db held (readHeld db held).
Proof.
  destruct (readHeld_ok db held) as (Hof & Hnd & Hs & Hall). rewrite Forall_forall in Hof. split; [done | | done | |].
  - intros t Ht. destruct (Hof t Ht) as [Hk Hv Hr _ _]. split; [apply Hs; by apply list_elem_of_fmap_2 |]. split; [done |]. split; [done | by rewrite Hr].
  - intros t i Ht. rewrite (ho_instr _ _ (Hof t Ht)). apply latest_instr_Some.
  - intros t id Ht. apply (ho_ids _ _ (Hof t Ht)).
Qed.

Lemma concat_asked {A} (f : Entry -> list A) es : concat (map (fun a : Entry * list A => map (fun x => (en_Name a.1, x)) a.2) (map (fun e => (e, f e)) es)) =
  concat (zip_with (fun e xs => map (fun x => (en_Name e, x)) xs) es (map f es)).
Proof. induction es as [|e es IH]; simpl; [done | by rewrite IH]. Qed.

Lemma held_fetched_ok db now ts answers facts : held_answered (held_asked entries db now ts) answers facts -> held_fetched db now ts answers facts.
Proof.
  intros [H1 H2 H3 H4 H5]. set (sources := eventSources (db_validity db)). split.
  - exists (map (fun e => (held_requests sources now e ts).1) entries). split.
    + apply Forall2_fmap_r, Forall_Forall2_diag, Forall_forall. intros e _. simpl. rewrite (proj1 (held_requests_ok sources now e ts)). split; [apply sublist_lfilter |].
      intros t. rewrite elem_of_lfilter, bool_decide_eq_true. setoid_rewrite <- asks_history_spec. fold sources. split; intros [Hin Hn]; (split; [done |]).
      * intros q. by rewrite Hn.
      * destruct (asks_history sources now e t) as [q|]; [by destruct (Hn q) | done].
    + rewrite H1. unfold asked_identities, held_asked. rewrite <- concat_asked, !map_map. done.
  - intros a Ha. apply (proj1 (Forall_forall _ _) H2 a Ha).
  - exists (map (fun e => (held_requests sources now e ts).2) entries). split.
    + apply Forall2_fmap_r, Forall_Forall2_diag, Forall_forall. intros e _. simpl. setoid_rewrite <- asks_history_spec. apply (held_requests_ok sources now e ts).
    + rewrite H3. unfold asked_histories, held_asked. rewrite <- concat_asked, !map_map. done.
  - done.
Qed.

(** The answers of the fetches may be recorded, and asserted. *)
Lemma fetched_answers db held answers facts db1 now : stored_ok db -> families_ok families db -> codes_ok families db -> Forall (held_known db) held ->
  all_fetched any_key db (erased answers facts) db1 -> held_answered (held_asked entries db now (readHeld db held)) answers facts ->
  answered_facts families facts db1 /\ answers_held families db1 answers /\ (forall a, a ∈ answers -> fk_ID (ha_fk a) ∉ map fk_ID facts).
Proof.
  intros Hso Hfam Hcodes Hknown Hall Hans. pose proof Hall as [_ Hnd _ Hst (m & ks & n & E1) _].
  pose proof (fetched_fresh any_key db (erased answers facts) db1) as Hfresh. unfold erased in Hnd, Hst, Hfresh. rewrite map_app, map_map, erase_ids in Hnd.
  apply NoDup_app in Hnd as (Hnd1 & Hdis & Hnd2). simpl in Hnd1, Hdis.
  assert (forall k, k ∈ facts -> erase k ∈ map (fun a => erase (ha_fk a)) answers ++ map erase facts) as Hf by (intros k Hk; apply elem_of_app; right; by apply list_elem_of_fmap_2).
  assert (forall a, a ∈ answers -> erase (ha_fk a) ∈ map (fun a => erase (ha_fk a)) answers ++ map erase facts) as Ha
    by (intros a Hin; apply elem_of_app; left; by apply (list_elem_of_fmap_2 (fun a => erase (ha_fk a)))).
  split; [| split].
  - split; [by rewrite E1 | done | | |].
    + intros k Hk. exact (Hst _ (Hf k Hk)).
    + intros k a Hk Hin. exact (Hfresh (erase k) a Hso Hall (Hf k Hk) Hin).
    + intros k Hk. by apply (proj1 (Forall_forall _ _) (hn_facts _ _ _ Hans)).
  - split; [| done | by rewrite E1]. apply Forall_forall. intros a Hin. destruct (readHeld_ok db held) as (Hof & _ & Hrows & _).
    assert (ha_t a ∈ readHeld db held) as Ht.
    { apply (asked_held entries db now _ (fk_Source (ha_fk a))). rewrite <- (hn_identities _ _ _ Hans). by apply (list_elem_of_fmap_2 (fun a => (fk_Source (ha_fk a), ha_t a))). }
    destruct (proj1 (Forall_forall _ _) Hof _ Ht) as [_ _ Hrow Hi Hids]. split.
    + rewrite Hrow, E1. apply (proj1 (Forall_forall _ _) Hknown). apply Hrows. by apply list_elem_of_fmap_2.
    + rewrite E1. intros i Hii. rewrite Hii in Hi. exact (latest_stored db _ i (wb_ok _ (so_writable _ Hso)) (eq_sym Hi)).
    + rewrite E1. intros id Hid. by apply Hids.
    + exact (Hst _ (Ha a Hin)).
    + intros x Hx. exact (Hfresh (erase (ha_fk a)) x Hso Hall (Ha a Hin) Hx).
  - intros a Hin Hk. apply (Hdis (fk_ID (ha_fk a))); [| done]. by apply (list_elem_of_fmap_2 (fun a => fk_ID (ha_fk a))).
Qed.

(** The tickers a run wrote facts of, each with the run that answered it. *)
Definition reasserted_pairs (answers : list heldAnswer) (os : list (option AssertionRow)) (facts : list factKey) (recorded : bool) : list (uuid * MarketTicker) :=
  answer_pairs answers os ++ if recorded then concat (map fact_pairs facts) else [].

Definition held_keys (answers : list heldAnswer) (facts : list factKey) : gset uuid :=
  list_to_set (map (fun a => fk_ID (ha_fk a)) answers ++ map fk_ID facts).

Definition answered_tickers (answers : list heldAnswer) : list uuid := foldl append_unique [] (map (fun a => tk_ID (ht_tickerRow (ha_t a))) answers).

(** What a run leaves once its fetches have answered. *)
Record reasserted (run : Run) (answers : list heldAnswer) (facts : list factKey) (db1 : instr_db) (written : list WrittenIdentifierFacts) (db' : instr_db) : Prop := {
  re_stored : stored_ok db';
  re_tables : exists recorded db2 os db3, let pairs := reasserted_pairs answers os facts recorded in
    facts_outcome mics families facts db1 recorded db2 /\
    answers_asserted mics families (set_deferred false db2) (answered_tickers answers) answers os db3 /\
    written = written_reference pairs /\
    if bool_decide (pairs = []) then db' = db3
    else exists kinds, conflicts_recorded (rn_ID run) (held_keys answers facts) (map snd pairs) db3 kinds db';
}.

Lemma written_pairs_ok pairs facts (recorded : bool) : (if recorded then foldl add_served (addTickers mics pairs) facts else addTickers mics pairs) =
  addTickers mics (pairs ++ if recorded then concat (map fact_pairs facts) else []).
Proof.
  destruct recorded; [| by rewrite app_nil_r]. unfold addTickers at 2. rewrite foldl_app. change (fun w rt => addTicker w rt.1 rt.2) with add_pair.
  change (foldl add_pair (newWritten mics) pairs) with (addTickers mics pairs). generalize (addTickers mics pairs). clear.
  induction facts as [|k facts IH]; intros w; [done |]. simpl. rewrite foldl_app, IH. f_equal. unfold add_served, fact_pairs, addFacts.
  destruct (served k); [| done]. by rewrite <- (foldl_over add_pair (fun t => (fk_Run k, t))).
Qed.

Lemma answers_undeferred db ids answers os db' : answers_asserted mics families (set_deferred false db) ids answers os db' -> set_deferred false db' = db'.
Proof. by intros [_ _ (n & v & -> & _)]. Qed.

Lemma ReassertTickers_ok run now held db : stored_ok db -> families_ok families db -> codes_ok families db -> Forall (held_known db) held ->
  rn_UserID run = None ->
  match ReassertTickers mics families entries format_date uuid_string RunKindReassertTickers run now held db with
  | Err e => exists f, e = ReassertFetch f
  | Ok (written, db') => exists answers facts db1,
      held_answered (held_asked entries db now (readHeld db held)) answers facts /\ all_fetched any_key db (erased answers facts) db1 /\
      reasserted run answers facts db1 written db'
  end.
Proof.
  intros Hso Hfam Hcodes Hknown Hu. unfold ReassertTickers. rewrite Hu. rewrite !bool_decide_eq_true_2 by done. simpl.
  pose proof (fetchHeld_ok entries (rn_ID run) now (readHeld db held) db Hso) as Hfetch.
  destruct (fetchHeld _ _ _ _ db) as [[[answers facts] db1]|f]; [| by exists f]. destruct Hfetch as [Hall Hans].
  destruct (fetched_answers db held answers facts db1 now Hso Hfam Hcodes Hknown Hall Hans) as (Hfacts & Hheld & Hdis).
  destruct (recordFacts_ok mics families facts db1 (al_stored _ _ _ _ Hall) Hfacts) as (recorded & db2 & -> & Hso2 & Hout).
  pose proof (recorded_answers _ _ _ _ _ _ _ Hout Hdis Hheld) as Hheld2. cbv zeta. fold (answered_tickers answers) (held_keys answers facts).
  assert (answers_held families (set_deferred false db2) answers) as Hheld3 by (destruct Hheld2 as [H1 H2 H3]; by split; [eapply Forall_impl; [exact H1 |]; intros a []; by split | |]).
  destruct (store_tx_yields (assertAnswers mics families (answered_tickers answers) answers) db2 _ (so_writable _ Hso2)
    (assertAnswers_ok mics families (answered_tickers answers) answers _ (stored_undeferred _ Hso2) Hheld3)) as (w & db3 & -> & os & -> & Has).
  { intros w d (os & _ & Ha). apply (so_writable _ (aa_stored _ _ _ _ _ _ _ Ha)). }
  rewrite (answers_undeferred _ _ _ _ _ Has), written_pairs_ok. fold (reasserted_pairs answers os facts recorded). set (pairs := reasserted_pairs _ _ _ _).
  pose proof (addTickers_inv mics pairs) as Hi. pose proof (aa_stored _ _ _ _ _ _ _ Has) as Hso3.
  destruct (ws_order (addTickers mics pairs)) as [|r rs] eqn:Eo.
  - exists answers, facts, db1. split; [done |]. split; [done |]. split; [done |]. exists recorded, db2, os, db3. cbv zeta. fold pairs.
    assert (pairs = []) as Hp.
    { destruct pairs as [|rt l]; [done |]. exfalso. rewrite (wi_order _ _ Hi) in Eo. eapply (not_elem_of_nil (A := uuid)). rewrite <- Eo. apply elem_of_append_all. by left. }
    split; [done |]. split; [done |]. by rewrite Hp.
  - destruct (recordConflicts_ok format_date uuid_string (rn_ID run) (addTickers mics pairs) (held_keys answers facts) db3) as (kinds & db' & -> & Hw & Hcr); [apply Hso3 | apply Hso3 |].
    exists answers, facts, db1. split; [done |]. split; [done |]. split.
    + destruct Hcr as (fs & _ & _ & _ & Ha). eapply findings_added_stored; [by apply stored_undeferred, Hso3 | exact Ha | done].
    + exists recorded, db2, os, db3. cbv zeta. fold pairs. split; [done |]. split; [done |]. split; [by apply written_list |].
      rewrite bool_decide_eq_false_2; [| intros Hp; by rewrite (wi_order _ _ Hi), Hp in Eo]. exists kinds. eapply conflicts_recorded_same; [| exact Hcr].
      intros t. rewrite (elem_of_ws_tickers _ _ _ Hi), list_elem_of_fmap. split; [intros [u H1]; by exists (u, t) | intros ([u v] & -> & H1); by exists u].
Qed.

(** C24: a reassert tickers run fails only where it is not one, is a user's, or a
    fetch of its fails. Otherwise each market ticker held is read once, with the
    instrument of its last interval where that has not ended. Each datasource
    answers, under keys of their own, the identity of each ticker but for those
    whose history it is asked for: those of the market it is the event source of,
    whose instrument has a stable identifier it serves; and it is asked for each
    history once, under the first such identifier. The facts of the histories are
    recorded together or not at all; an answer that names something has one
    assertion, under its fetch key and of its day: of nothing where the source
    knows no such ticker, and else of an instrument that carries an identifier of
    the ticker's listing, that of the ticker before any other. The ticker validity
    of the tickers answered is rebuilt, the runs that wrote a fact are returned
    once each, with their tickers, and the conflicts that the fetch keys complete
    are the findings added. Every constraint of the tables holds. *)
Theorem ReassertTickers_spec kind run now held db : stored_ok db -> families_ok families db -> codes_ok families db -> Forall (held_known db) held ->
  match ReassertTickers mics families entries format_date uuid_string kind run now held db with
  | Err ReassertRun => kind <> RunKindReassertTickers \/ rn_UserID run <> None
  | Err (ReassertFetch _) => True
  | Err _ => False
  | Ok (written, db') => kind = RunKindReassertTickers /\ rn_UserID run = None /\ exists ts answers facts db1, held_read db held ts /\
      held_fetched db now ts answers facts /\ all_fetched any_key db (erased answers facts) db1 /\ reasserted run answers facts db1 written db'
  end.
Proof.
  intros Hso Hfam Hcodes Hknown. destruct (decide (kind = RunKindReassertTickers)) as [->|Hk]; [| unfold ReassertTickers; rewrite bool_decide_eq_false_2 by done; by left].
  destruct (decide (rn_UserID run = None)) as [Hu|Hu]; [| unfold ReassertTickers; rewrite (bool_decide_eq_false_2 _ Hu), orb_true_r; by right].
  pose proof (ReassertTickers_ok run now held db Hso Hfam Hcodes Hknown Hu) as H1.
  destruct (ReassertTickers _ _ _ _ _ _ _ _ _ _) as [[written db']|e]; [| by destruct H1 as [f ->]]. destruct H1 as (answers & facts & db1 & Hans & Hall & Hre).
  split; [done |]. split; [done |]. exists (readHeld db held), answers, facts, db1. split; [apply held_read_ok |]. split; [by apply held_fetched_ok | done].
Qed.

End Reassert.

(** * Example *)

Module Example.

Import Dated.Example.

(** The ticker names instrument 1 from a day on, and "massive" is the event source
    of its market. *)
Definition held_db : instr_db :=
  set_validity_db (fun v => MkValidityDB (vd_tickers v) (vd_assertions v) (vd_coverage v) (vd_keys v) (vd_runs v) {["US" := "massive"]}
    [MkValidityRow 41 1 (Some (day 0)) None Confirmed] (vd_resolved v)) Dated.Example.db.

Definition isin : Identifier := MkIdentifier IdentifierTypeIsin "" "US0378331005".

Definition held : list ListHeldTickersRow :=
  [MkHeldRow 41 "XNAS" "US" "AAPL" (Some AssetClassStock) (Some "USD"); MkHeldRow 41 "XBOS" "US" "AAPL" None None].

Definition identity_answer (k : StatedKey) : IdentityResult :=
  MkIdentityResult (sk_Identifiers k) [MkMarketListing (isin :: sk_Identifiers k) AssetClassStock "USD" ""] false false.

Definition eodhd : Entry := MkEntry "eodhd" None None None.
Definition massive : Entry := MkEntry "massive" None (Some (MkServer _ (fun q => Ok (fq_Identifier q)) (fun _ => []))) (Some (fun now => now - day 100)).

#[local] Instance fetcher : Fetcher unit := {|
  ft_Identity _ _ _ _ := Err tt;
  ft_TickerIdentity run e reqs db := given_fetch (en_Name e) (fun k => default isin (head (sk_Identifiers k))) identity_answer run reqs db;
  ft_IdentifierFacts run e reqs db := given_fetch (en_Name e) fq_Identifier (fun _ => answer) run reqs db;
|}.

#[local] Instance identity_fetcher : IdentityFetcher unit.
Proof.
  split; intros run e reqs db keys db' Hf; [done |]. apply given_fetched in Hf as [-> Hf]. split; [done |].
  apply Forall_forall. intros k (q & Hr & Ho & Hs & _)%given_elem. split; [by rewrite Hs |]. by rewrite Ho, Hr.
Qed.

#[local] Instance facts_fetcher : FactsFetcher unit.
Proof.
  split; intros run e reqs db keys db' [-> Hf]%given_fetched; [done |].
  apply Forall_forall. intros k (q & -> & _)%given_elem _. apply answer_served.
Qed.

Lemma held_stored : stored_ok held_db.
Proof.
  assert (consistent held_db /\ linked held_db /\ Forall (fun i => (i < db_next held_db)%N) (row_ids held_db)) as (Hc & Hl & Hm).
  { refine (bool_decide_unpack _ _). vm_compute. exact I. }
  destruct db_stored_ok as [_ [] Ht]. split; [split; [by apply consistent_tables | done |] | | done].
  - intros i Hi. by apply (proj1 (Forall_forall _ _) Hm).
  - split; try done. simpl. split; constructor; try done; constructor.
Qed.

Lemma held_codes : codes_ok families held_db.
Proof.
  intros c Hc%bool_decide_eq_true. destruct Hc as [f Hf]. assert (map_Forall (fun c _ => c ∈ db_codes held_db) families) as Hall by (refine (bool_decide_unpack _ _); vm_compute; exact I).
  by apply (Hall c f).
Qed.

Lemma held_rows_known : Forall (held_known held_db) held.
Proof. unfold held_known. refine (bool_decide_unpack _ _). vm_compute. exact I. Qed.

Definition reassert : Prelude.res (reassert_error unit) (list WrittenIdentifierFacts * instr_db) :=
  ReassertTickers ex_mics families [eodhd; massive] text id_text RunKindReassertTickers (MkRun 3 None) (day 20) held held_db.

Definition reassert_db : instr_db := match reassert with Ok (_, d) => d | Err _ => held_db end.

(** The comment on [assertHeld] says that the run creates no instrument: the
    recording of a history's facts does. *)
Example history_creates : length (db_instrs held_db) = 1%nat /\ length (db_instrs reassert_db) = 2%nat.
Proof. vm_compute. split; reflexivity. Qed.

Example reassert_rows : map (fun a => (ia_FetchKeyID a, ia_InstrID a, ia_Venue a)) (vd_assertions (db_validity reassert_db)) =
  [(Some 49%N, Some 1%N, None); (Some 101%N, Some 103%N, None); (Some 100%N, Some 1%N, Some "XNAS"%string)].
Proof. vm_compute. reflexivity. Qed.

End Example.

(** The datasource asked for the ticker's identity names its instrument at the
    venue of the answer; the history states an instrument that is not stored,
    and creates it. *)
Lemma ReassertTickers_spec_witness : exists written db',
  Example.reassert = Ok (written, db') /\ stored_ok db' /\ length (db_instrs db') = 2%nat.
Proof.
  pose proof (ReassertTickers_spec (H := Example.fetcher) (H0 := Example.identity_fetcher) (FactsFetcher0 := Example.facts_fetcher) ex_mics Dated.Example.families
    [Example.eodhd; Example.massive] Dated.Example.text Dated.Example.id_text RunKindReassertTickers (MkRun 3 None) (Dated.Example.day 20) Example.held Example.held_db
    Example.held_stored (af_families _ _ _ Dated.Example.key_answered)
    Example.held_codes Example.held_rows_known) as H.
  fold Example.reassert in H.
  assert (match Example.reassert with Ok (_, d) => length (db_instrs d) = 2%nat | Err _ => False end) as Hr by (vm_compute; reflexivity).
  destruct Example.reassert as [[written db']|e]; [| done]. destruct H as (_ & _ & ts & answers & facts & db1 & _ & _ & _ & [Hso _]).
  exists written, db'. split; [reflexivity |]. split; [exact Hso | exact Hr].
Defined.
