(* ===== verification/Refresh.v ===== *)
(** What corporate actions are fetched for, [server/internal/run/refreshcorpacts]:
    the instruments that transactions name ([held.go] and its queries), the
    request for each ticker of theirs, and beneath which run a fetch asks
    ([fetch.go], [start.go]). *)
From S2P Require Import Prelude Types Period Decimal Facts Derive Validity Rows Runs Mic Tickers CorpAct Calendar CorpActStore Splits ValidityStore Dated.

(** * Definitions *)

(** ** The instrument a transaction names, the view [txn_instrs] *)

Record TxnInstr : Type := MkTxnInstr {
  ti_UserID : uuid;
  ti_InstrID : option uuid;
  ti_AsAt : time;
}.

(** A row of [ticker_validity] that joins a transaction of a dated key. *)
Definition valid_on (via : option uuid) (day : time) (v : ValidityRow) : bool :=
  bool_decide (via = Some (tv_TickerID v)) && match tv_From v with None => true | Some f => f <=? day end &&
  match tv_Before v with None => true | Some b => day <? b end.

Definition txn_instr (keys : list StatedKey) (validity : list ValidityRow) (t : KeyTxn) : list TxnInstr :=
  match find_func (fun k => bool_decide (sk_ID k = kt_StatedKeyID t)) keys with
  | None => []
  | Some k =>
      let row joined := MkTxnInstr (kt_UserID t) (match sk_InstrID k with None => joined | Some i => Some i end) (kt_AsAt t) in
      match List.filter (valid_on (sk_ViaTickerID k) (kt_AsAt t)) validity with
      | [] => [row None]
      | vs => map (fun v => row (Some (tv_InstrID v))) vs
      end
  end.

Definition txn_instrs (keys : list StatedKey) (validity : list ValidityRow) (txns : list KeyTxn) : list TxnInstr :=
  concat (map (txn_instr keys validity) txns).

(** ** Held instruments, [held.go] *)

Record held : Type := MkHeld {
  hd_from : time;
  hd_users : list uuid;
}.

Record ask : Type := MkAsk {
  ak_req : CorpActRequest;
  ak_users : list uuid;
}.

Record ListHeldInstrsRow : Type := MkHeldInstrsRow {
  hi_InstrID : uuid;
  hi_UserID : uuid;
  hi_FirstAsAt : time;
}.

Definition min_day (l : list time) : time := match l with [] => 0 | d :: ds => foldl Z.min d ds end.

Section Held.
Context {D : Type}.
Variables (mics : MICMap) (db : tables D) (rows : list TxnInstr) (now : time).

Definition ListHeldInstrIDs (user : option uuid) : list uuid :=
  sort_func N.compare (foldl append_unique [] (omap ti_InstrID (List.filter (fun r =>
    match user with None => true | Some u => bool_decide (ti_UserID r = u) end) rows))).

(** [GROUP BY instr_id, user_id]. *)
Definition ListHeldInstrs (instrs : list uuid) : list ListHeldInstrsRow :=
  sort_func (cmp_lex (cmp_on hi_InstrID N.compare) (cmp_on hi_UserID N.compare))
    (map (fun iu => MkHeldInstrsRow iu.1 iu.2
        (min_day (map ti_AsAt (List.filter (fun r => bool_decide (ti_InstrID r = Some iu.1) && bool_decide (ti_UserID r = iu.2)) rows))))
      (foldl append_unique [] (omap (fun r => i ← ti_InstrID r; if contains instrs i then Some (i, ti_UserID r) else None) rows))).

Definition held_row (out : gmap uuid held) (r : ListHeldInstrsRow) : gmap uuid held :=
  let h := default (MkHeld (hi_FirstAsAt r) []) (out !! hi_InstrID r) in
  <[hi_InstrID r := MkHeld (if hi_FirstAsAt r <? hd_from h then hi_FirstAsAt r else hd_from h) (append_unique (hd_users h) (hi_UserID r))]> out.

Definition heldInstrs (instrs : list uuid) : gmap uuid held :=
  match instrs with [] => ∅ | _ => foldl held_row ∅ (ListHeldInstrs instrs) end.

Definition overlaps (iv : Interval) (from before : time) : bool :=
  match iv_Before iv with None => true | Some b => from <? b end && match iv_From iv with None => true | Some f => f <? before end.

Definition refresh_venue (market : string) : option string :=
  find_func (fun v => bool_decide (default ""%string (Operating mics v) = v)) (Venues mics market).

(** The inner loop of [requests]: [from] is [None] until [named] is set. *)
Record asking : Type := MkAsking {
  as_from : option time;
  as_users : list uuid;
  as_asked : bool;
}.

Definition ask_step (hs : gmap uuid held) (markets : gmap uuid string) (kept : list uuid) (before : time) (t : MarketTicker) (a : asking) (iv : Interval) : asking :=
  match hs !! iv_Instr iv with
  | None => a
  | Some h =>
      if negb (bool_decide (default ""%string (markets !! iv_Instr iv) = mt_Market t)) || negb (overlaps iv (hd_from h) before) then a
      else MkAsking (Some (match as_from a with None => hd_from h | Some f => if hd_from h <? f then hd_from h else f end))
             (foldl append_unique (as_users a) (hd_users h)) (as_asked a || contains kept (iv_Instr iv))
  end.

(** The outer loop at one ticker. *)
Definition ask_for (hs : gmap uuid held) (markets : gmap uuid string) (kept : list uuid) (before : time) (t : MarketTicker) (ivs : list Interval) : option ask :=
  let a := foldl (ask_step hs markets kept before t) (MkAsking None [] false) ivs in
  if negb (as_asked a) then None
  else venue ← refresh_venue (mt_Market t);
       Some (MkAsk (MkCorpActRequest (MkIdentifier IdentifierTypeMicTicker venue (mt_Value t)) (MkPeriod (default 0 (as_from a)) before)) (as_users a)).

Definition requests (kept : list uuid) : list ask :=
  match kept with
  | [] => []
  | _ =>
      let read := LoadNaming db kept in
      let ts := sort_func MarketTicker_cmp (map_to_list read).*1 in
      let instrs := foldl append_unique [] (map iv_Instr (concat (map_to_list read).*2)) in
      let hs := heldInstrs instrs in
      let markets := Markets db (map_to_list hs).*1 in
      let before := AddDays (Day now) 1 in
      omap (fun t => ask_for hs markets kept before t (default [] (read !! t))) ts
  end.

(** ** Fetching, [fetch.go] *)

(** [Scope], with the tickers of what was written. *)
Record Scope : Type := MkScope {
  sc_Written : list WrittenIdentifierFacts;
  sc_User : option uuid;
}.

Definition selected (scope : Scope) : list uuid :=
  let out := match sc_User scope with Some u => ListHeldInstrIDs (Some u) | None => [] end in
  match concat (map wf_Tickers (sc_Written scope)) with
  | [] => out
  | ts => out ++ map iv_Instr (concat (map_to_list (Load db ts)).*2)
  end.

(** The requests fetched beneath the parent itself, and those fetched beneath a
    system child of it. *)
Definition beneath (parent : option uuid) (asks : list ask) : list CorpActRequest * list CorpActRequest :=
  foldl (fun out a =>
    if bool_decide (parent = None) || bool_decide (parent = head (ak_users a)) && bool_decide (length (ak_users a) = 1%nat)
    then (out.1 ++ [ak_req a], out.2) else (out.1, out.2 ++ [ak_req a])) ([], []) asks.

Definition FetchHeld (parent : option uuid) (scope : Scope) : list CorpActRequest * list CorpActRequest := beneath parent (requests (selected scope)).

(** [Start], [start.go]: the spec, and the requests of the run. [None] is
    [ErrEmpty]. *)
Definition refresh_start : option (Runs.Spec * list CorpActRequest) :=
  match requests (ListHeldInstrIDs None) with
  | [] => None
  | asks => Some (Runs.MkSpec RunKindRefreshCorpActs RunTriggerAdministrator None "refresh_corp_acts" false, map ak_req asks)
  end.

End Held.

(** * The reference *)

Section Reference.
Context {D : Type} (mics : MICMap) (db : tables D) (rows : list TxnInstr) (now : time).

(** The transactions that name an instrument, the first day of one, and whose
    they are. *)
Definition rows_naming (i : uuid) : list TxnInstr := List.filter (fun r => bool_decide (ti_InstrID r = Some i)) rows.
Definition first_day (i : uuid) : time := min_day (map ti_AsAt (rows_naming i)).
Definition users_of (i : uuid) : list uuid := sort_func N.compare (foldl append_unique [] (map ti_UserID (rows_naming i))).

(** The market of an instrument. *)
Definition market_at (i : uuid) : option string := match listed_markets db i with [m] => Some m | _ => None end.

Definition intervals_of (t : MarketTicker) : list Interval := default [] (Load db [t] !! t).

(** The ticker named a held instrument of its market, on a day of its holding. *)
Definition named_held (t : MarketTicker) (iv : Interval) : bool :=
  let i := iv_Instr iv in
  negb (bool_decide (rows_naming i = [])) && bool_decide (default ""%string (market_at i) = mt_Market t) && overlaps iv (first_day i) (AddDays (Day now) 1).

Definition held_names (t : MarketTicker) : list uuid := map iv_Instr (List.filter (named_held t) (intervals_of t)).

(** The interval ends after [from] and begins before [before]. *)
Definition meets (iv : Interval) (from before : time) : Prop :=
  (forall b, iv_Before iv = Some b -> from < b) /\ (forall f, iv_From iv = Some f -> f < before).

(** A transaction names the instrument, its market is the ticker's, and an
    interval in which the ticker names it ends after the first of those
    transactions and begins no later than today. *)
Definition named_while_held (t : MarketTicker) (i : uuid) : Prop :=
  (exists r, r ∈ rows /\ ti_InstrID r = Some i) /\ default ""%string (market_at i) = mt_Market t /\
  exists iv, iv ∈ intervals_of t /\ iv_Instr iv = i /\ meets iv (first_day i) (AddDays (Day now) 1).

(** The request for a ticker, whichever run asks. *)
Definition refresh_ask (t : MarketTicker) : option ask :=
  venue ← refresh_venue mics (mt_Market t);
  Some (MkAsk (MkCorpActRequest (MkIdentifier IdentifierTypeMicTicker venue (mt_Value t)) (MkPeriod (min_day (map first_day (held_names t))) (AddDays (Day now) 1)))
    (foldl append_unique [] (concat (map users_of (held_names t))))).

End Reference.

(** * Minima and groups *)

Lemma min_fold l : forall d, foldl (fun f x => if x <? f then x else f) d l = foldl Z.min d l.
Proof. induction l as [|x l IH]; intros d; [done |]. simpl. rewrite <- IH. f_equal. destruct (Z.ltb_spec x d); lia. Qed.

Lemma min_fold_spec l : forall d, foldl Z.min d l ∈ d :: l /\ Forall (fun x => foldl Z.min d l <= x) (d :: l).
Proof.
  induction l as [|x l IH]; intros d; simpl; [split; [by left | repeat constructor; lia] |]. destruct (IH (Z.min d x)) as [Hin Hle].
  apply Forall_cons in Hle as [H1 H2]. split.
  - apply elem_of_cons in Hin as [Hin|Hin]; [| by right; right]. rewrite Hin. destruct (Z.min_spec d x) as [[_ ->]|[_ ->]]; [by left | right; by left].
  - constructor; [lia |]. constructor; [lia | done].
Qed.

Lemma min_day_spec l : l <> [] -> min_day l ∈ l /\ Forall (fun x => min_day l <= x) l.
Proof. destruct l as [|d l]; [done |]. intros _. apply min_fold_spec. Qed.

(** A minimum is the one value below all that is one of them. *)
Lemma min_day_unique l m : m ∈ l -> Forall (fun x => m <= x) l -> min_day l = m.
Proof.
  intros Hm Hle. assert (l <> []) as Hne by (intros ->; by apply elem_of_nil in Hm). destruct (min_day_spec l Hne) as [H1 H2].
  pose proof (proj1 (Forall_forall _ _) Hle _ H1). pose proof (proj1 (Forall_forall _ _) H2 _ Hm). cbn beta in *. lia.
Qed.

Section Held.
Context (rows : list TxnInstr).

Definition held_add (h : held) (r : ListHeldInstrsRow) : held :=
  MkHeld (if hi_FirstAsAt r <? hd_from h then hi_FirstAsAt r else hd_from h) (append_unique (hd_users h) (hi_UserID r)).

(** The loop of [heldInstrs] at one instrument. *)
Lemma held_rows_fold i l : foldl held_row ∅ l !! i = match List.filter (fun r => bool_decide (hi_InstrID r = i)) l with
  | [] => None
  | r :: rs => Some (foldl held_add (MkHeld (hi_FirstAsAt r) [hi_UserID r]) rs)
  end.
Proof.
  induction l as [|x l IH] using rev_ind; [done |]. rewrite foldl_app, List.filter_app. simpl. unfold held_row at 1. destruct (decide (hi_InstrID x = i)) as [<-|Hne].
  - rewrite lookup_insert_eq, IH, bool_decide_eq_true_2 by done. destruct (List.filter _ l) as [|r rs]; simpl; [by rewrite Z.ltb_irrefl |].
    by rewrite foldl_app.
  - rewrite lookup_insert_ne, IH, bool_decide_eq_false_2 by done. by rewrite app_nil_r.
Qed.

Lemma held_add_fold rs : forall h, NoDup (hd_users h ++ map hi_UserID rs) ->
  foldl held_add h rs = MkHeld (foldl Z.min (hd_from h) (map hi_FirstAsAt rs)) (hd_users h ++ map hi_UserID rs).
Proof.
  induction rs as [|r rs IH]; intros h Hnd; simpl; [rewrite app_nil_r; by destruct h |].
  assert (hi_UserID r ∉ hd_users h) as Hn by (intros Hin; apply NoDup_app in Hnd as (_ & Hd & _); apply (Hd _ Hin); by left).
  assert (hd_users (held_add h r) = hd_users h ++ [hi_UserID r]) as Eu by by apply append_unique_new.
  rewrite IH; [| rewrite Eu, <- app_assoc; exact Hnd]. rewrite Eu, <- app_assoc. simpl. f_equal. f_equal. destruct (Z.ltb_spec (hi_FirstAsAt r) (hd_from h)); lia.
Qed.

Definition group_row (iu : uuid * uuid) : ListHeldInstrsRow :=
  MkHeldInstrsRow iu.1 iu.2 (min_day (map ti_AsAt (List.filter (fun r => bool_decide (ti_InstrID r = Some iu.1) && bool_decide (ti_UserID r = iu.2)) rows))).

(** The rows of one instrument, in the order of its users. *)
Lemma rows_of_instr instrs i : i ∈ instrs ->
  List.filter (fun r => bool_decide (hi_InstrID r = i)) (ListHeldInstrs rows instrs) = map (fun u => group_row (i, u)) (users_of rows i).
Proof.
  intros Hi. unfold ListHeldInstrs, users_of. rewrite sort_func_filter by apply _. fold group_row.
  set (pairs := omap _ rows).
  assert (List.filter (fun r => bool_decide (hi_InstrID r = i)) (map group_row (foldl append_unique [] pairs)) =
    map (fun u => group_row (i, u)) (foldl append_unique [] (map ti_UserID (rows_naming rows i)))) as E.
  { assert (forall l, List.filter (fun r => bool_decide (hi_InstrID r = i)) (map group_row l) = map group_row (List.filter (fun iu => bool_decide (iu.1 = i)) l)) as ->.
    { induction l as [|iu l IH]; [done |]. simpl. by case_bool_decide; simpl; rewrite IH. }
    rewrite filter_append_all.
    assert (List.filter (fun iu => bool_decide (iu.1 = i)) pairs = map (fun u => (i, u)) (map ti_UserID (rows_naming rows i))) as ->.
    { unfold pairs, rows_naming. clear -Hi. induction rows as [|r l IH]; [done |]. csimpl. destruct (ti_InstrID r) as [j|]; csimpl; [| by rewrite IH].
      destruct (decide (j = i)) as [->|Hne].
      - rewrite (proj2 (contains_true _ _) Hi). simpl. rewrite !bool_decide_eq_true_2 by done. simpl. by rewrite IH.
      - rewrite (bool_decide_eq_false_2 (Some j = Some i)) by congruence. destruct (contains instrs j); [simpl; by rewrite bool_decide_eq_false_2 by done | done]. }
    generalize (map ti_UserID (rows_naming rows i)). intros us. induction us as [|u us IH] using rev_ind; [done |]. rewrite map_app, !foldl_app. simpl.
    unfold append_unique at 1 3. set (d := foldl append_unique [] us) in *. set (dp := foldl append_unique [] (map _ us)) in *.
    assert (contains dp (i, u) = contains d u) as ->.
    { apply eq_true_iff_eq. rewrite !contains_true. unfold dp, d. rewrite !elem_of_append_all, list_elem_of_fmap. split; [by intros (v & [= ->] & ?) | intros; by exists u]. }
    destruct (contains d u); [done |]. rewrite !map_app. by rewrite IH. }
  rewrite E. apply sort_func_map. intros u v. unfold cmp_lex, cmp_on, cmp_or. simpl. by rewrite N.compare_refl.
Qed.

Lemma naming_row i u : u ∈ users_of rows i <-> exists r, r ∈ rows /\ ti_InstrID r = Some i /\ ti_UserID r = u.
Proof.
  unfold users_of, rows_naming. rewrite elem_of_sort_func, elem_of_append_all, list_elem_of_fmap. split.
  - intros (r & -> & [Hr Hi%bool_decide_eq_true]%elem_of_lfilter). by exists r.
  - intros (r & Hr & Hi & <-). exists r. split; [done |]. apply elem_of_lfilter. by rewrite bool_decide_eq_true.
Qed.

Lemma NoDup_users_of i : NoDup (users_of rows i).
Proof. unfold users_of. rewrite sort_func_perm. apply NoDup_append_all. Qed.

(** The least of the first days of the users of an instrument is the first of its
    transactions. *)
Lemma first_day_users i : rows_naming rows i <> [] -> min_day (map (fun u => hi_FirstAsAt (group_row (i, u))) (users_of rows i)) = first_day rows i.
Proof.
  intros Hne. set (g := fun u => List.filter (fun r => bool_decide (ti_InstrID r = Some i) && bool_decide (ti_UserID r = u)) rows).
  change (fun u => hi_FirstAsAt (group_row (i, u))) with (fun u => min_day (map ti_AsAt (g u))).
  assert (forall r, r ∈ rows_naming rows i -> ti_UserID r ∈ users_of rows i /\ r ∈ g (ti_UserID r)) as Hg.
  { intros r [Hr Hi%bool_decide_eq_true]%elem_of_lfilter. split; [apply naming_row; by exists r |]. apply elem_of_lfilter. by rewrite !bool_decide_eq_true_2. }
  assert (forall u r, r ∈ g u -> r ∈ rows_naming rows i) as Hg'.
  { intros u r [Hr [Hi _]%andb_true_iff]%elem_of_lfilter. by apply elem_of_lfilter. }
  unfold first_day. destruct (min_day_spec (map ti_AsAt (rows_naming rows i))) as [Hin Hle]; [by destruct (rows_naming rows i) |].
  set (m := min_day (map ti_AsAt (rows_naming rows i))) in *. rewrite Forall_forall in Hle. apply list_elem_of_fmap in Hin as (r & Em & Hr). destruct (Hg r Hr) as [Hu Hru].
  assert (forall u, u ∈ users_of rows i -> m <= min_day (map ti_AsAt (g u))) as Hlow.
  { intros u (x & Hx & Hi & <-)%naming_row. assert (x ∈ g (ti_UserID x)) as Hxg by (apply Hg, elem_of_lfilter; by rewrite bool_decide_eq_true).
    destruct (min_day_spec (map ti_AsAt (g (ti_UserID x)))) as [Hin _]; [intros E; apply (not_elem_of_nil (ti_AsAt x)); rewrite <- E; by apply list_elem_of_fmap_2 |].
    apply list_elem_of_fmap in Hin as (y & -> & Hy). apply Hle, list_elem_of_fmap_2. by eapply Hg'. }
  apply min_day_unique.
  - apply list_elem_of_fmap. exists (ti_UserID r). split; [| done].
    destruct (min_day_spec (map ti_AsAt (g (ti_UserID r)))) as [_ Hall]; [intros E; apply (not_elem_of_nil (ti_AsAt r)); rewrite <- E; by apply list_elem_of_fmap_2 |].
    pose proof (proj1 (Forall_forall _ _) Hall (ti_AsAt r) (list_elem_of_fmap_2 _ _ _ Hru)) as H1. pose proof (Hlow _ Hu). cbn beta in *. lia.
  - apply Forall_forall. intros x (u & -> & Hu')%list_elem_of_fmap. by apply Hlow.
Qed.

(** A held instrument: the first day a transaction names it, and the users of
    those that do. *)
Lemma heldInstrs_lookup instrs i : i ∈ instrs ->
  heldInstrs rows instrs !! i = if bool_decide (rows_naming rows i = []) then None else Some (MkHeld (first_day rows i) (users_of rows i)).
Proof.
  intros Hi. unfold heldInstrs. destruct instrs as [|i0 is0] eqn:Eis; [by apply elem_of_nil in Hi |]. rewrite <- Eis in *. rewrite held_rows_fold, rows_of_instr by done.
  pose proof (first_day_users i) as Hf. pose proof (NoDup_users_of i) as Hnd.
  case_bool_decide as Hn.
  - unfold users_of. by rewrite Hn.
  - specialize (Hf Hn). destruct (users_of rows i) as [|u us] eqn:Eu.
    + exfalso. destruct (rows_naming rows i) as [|r rs] eqn:Er; [done |]. apply (not_elem_of_nil (ti_UserID r)). rewrite <- Eu. apply naming_row. exists r.
      assert (r ∈ rows_naming rows i) as [Hr Hir%bool_decide_eq_true]%elem_of_lfilter by (rewrite Er; by left). done.
    + assert (map hi_UserID (map (fun u => group_row (i, u)) us) = us) as Em by (rewrite map_map; apply map_id). simpl. rewrite held_add_fold by (rewrite Em; exact Hnd). rewrite Em.
      f_equal. rewrite <- Hf. simpl. by rewrite map_map.
Qed.

End Held.

(** * The tickers asked of *)

(** A loop of inserts under distinct keys. *)
Lemma insert_all_lookup {A} (f : uuid -> option A) l i : NoDup l -> forall m : gmap uuid A, (i ∈ l -> m !! i = None) ->
  foldl (fun out row => <[row.1 := row.2]> out) m (omap (fun i => (fun x => (i, x)) <$> f i) l) !! i = if bool_decide (i ∈ l) then f i else m !! i.
Proof.
  induction l as [|j l IH]; intros Hnd m Hm; [done |]. apply NoDup_cons in Hnd as [Hj Hnd]. csimpl. destruct (decide (i = j)) as [<-|Hne].
  - rewrite (bool_decide_eq_true_2 (i ∈ i :: l)) by by left. destruct (f i) as [x|]; simpl.
    + rewrite IH, bool_decide_eq_false_2 by done. by rewrite lookup_insert_eq.
    + rewrite IH, bool_decide_eq_false_2 by done. apply Hm. by left.
  - assert (bool_decide (i ∈ j :: l) = bool_decide (i ∈ l)) as ->.
    { apply bool_decide_ext. rewrite elem_of_cons. split; [by intros [->|?] | auto]. }
    destruct (f j) as [x|]; simpl; rewrite IH; try done.
    + destruct (bool_decide _); [done |]. by rewrite lookup_insert_ne.
    + intros Hin. rewrite lookup_insert_ne by done. apply Hm. by right.
    + intros Hin. apply Hm. by right.
Qed.

Section Requests.
Context {D : Type} (mics : MICMap) (db : tables D) (rows : list TxnInstr) (now : time).

Lemma Markets_lookup js i : i ∈ js -> Markets db js !! i = market_at db i.
Proof.
  intros Hi. unfold Markets, ListInstrMarkets.
  assert (forall l, omap (fun i => match listed_markets db i with [m] => Some (i, m) | _ => None end) l = omap (fun i => (fun x => (i, x)) <$> market_at db i) l) as ->.
  { induction l as [|j l IH]; [done |]. csimpl. rewrite IH. unfold market_at. by destruct (listed_markets db j) as [|k [|]]. }
  rewrite insert_all_lookup by (try apply NoDup_append_all; done). by rewrite bool_decide_eq_true_2 by by apply elem_of_append_all.
Qed.

(** A load reads the tickers asked. *)
Lemma Load_keys ts t : is_Some (Load db ts !! t) <-> t ∈ ts.
Proof.
  split; [| intros Ht; rewrite Load_lookup by done; by eexists].
  unfold Load. assert (forall rs out, (forall r, r ∈ rs -> r.1 ∈ ts) -> (is_Some (out !! t) -> t ∈ ts) -> is_Some (foldl load_step out rs !! t) -> t ∈ ts) as H.
  { induction rs as [|r rs IH]; intros out Hrs Hout; [done |]. simpl. apply IH; [intros; apply Hrs; by right |]. unfold load_step.
    destruct (decide (r.1 = t)) as [<-|Hne]; [intros _; apply Hrs; by left | by rewrite lookup_insert_ne]. }
  apply H.
  - unfold ListTickerValidity. intros r Hr%elem_of_sort_func. apply elem_of_concat_map in Hr as (k & Hk & (v & -> & _)%list_elem_of_fmap). simpl.
    unfold asked_tickers in Hk. apply elem_of_concat_map in Hk as (u & Hu & [_ <-%bool_decide_eq_true]%elem_of_lfilter). by apply elem_of_distinct.
  - intros [x Hx]. apply elem_of_list_to_map_2, list_elem_of_fmap in Hx as (u & [= -> _] & Hu). by apply elem_of_distinct.
Qed.

Lemma Load_read ts t : t ∈ ts -> Load db ts !! t = Some (intervals_of db t).
Proof.
  intros Ht. unfold intervals_of. rewrite (Load_alone db ts t Ht). destruct (proj2 (Load_keys [t] t) ltac:(by left)) as [l ->]. done.
Qed.

(** A ticker with an interval of an instrument is one of those naming it. *)
Lemma interval_naming kept t iv : iv ∈ intervals_of db t -> iv_Instr iv ∈ kept -> t ∈ ListTickersNaming db kept.
Proof.
  unfold intervals_of. rewrite Load_lookup by by left. simpl. intros (x & -> & Hx%elem_of_sort_func)%list_elem_of_fmap Hk.
  apply elem_of_concat_map in Hx as (r & [Hr Ht%bool_decide_eq_true]%elem_of_lfilter & (v & -> & [Hv Hvr%bool_decide_eq_true]%elem_of_lfilter)%list_elem_of_fmap).
  unfold ListTickersNaming. rewrite elem_of_sort_func, elem_of_distinct, list_elem_of_fmap. exists r. split; [done |]. apply elem_of_lfilter. split; [done |].
  apply existsb_elem. exists v. split; [done |]. rewrite bool_decide_eq_true_2 by done. by apply contains_true.
Qed.

(** The inner loop takes the instruments the ticker named while they were held. *)
Lemma ask_fold hs markets kept t ivs : (forall iv, iv ∈ ivs -> hs !! iv_Instr iv = if bool_decide (rows_naming rows (iv_Instr iv) = []) then None
    else Some (MkHeld (first_day rows (iv_Instr iv)) (users_of rows (iv_Instr iv)))) ->
  (forall i, is_Some (hs !! i) -> markets !! i = market_at db i) ->
  let js := map iv_Instr (List.filter (named_held db rows now t) ivs) in
  foldl (ask_step hs markets kept (AddDays (Day now) 1) t) (MkAsking None [] false) ivs =
    MkAsking (match js with [] => None | _ => Some (min_day (map (first_day rows) js)) end) (foldl append_unique [] (concat (map (users_of rows) js))) (existsb (contains kept) js).
Proof.
  intros Hh Hm. induction ivs as [|iv ivs IH] using rev_ind; [done |]. cbv zeta in *. rewrite foldl_app, List.filter_app, IH by (intros; apply Hh, elem_of_app; by left).
  assert (hs !! iv_Instr iv = if bool_decide (rows_naming rows (iv_Instr iv) = []) then None else Some (MkHeld (first_day rows (iv_Instr iv)) (users_of rows (iv_Instr iv)))) as Eh
    by (apply Hh, elem_of_app; right; by left).
  rewrite map_app. set (js := map iv_Instr (List.filter _ ivs)). simpl. unfold ask_step. rewrite Eh.
  destruct (named_held db rows now t iv) eqn:En; unfold named_held in En; destruct (bool_decide (rows_naming rows (iv_Instr iv) = [])) eqn:Er; simpl in En |- *; try done;
    rewrite ?app_nil_r; try done; rewrite Hm by (rewrite Eh, ?Er; by eexists).
  - apply andb_true_iff in En as [-> ->]. simpl. rewrite !map_app, concat_app, foldl_app, existsb_app. simpl. rewrite orb_false_r, app_nil_r. f_equal.
    destruct js as [|j js]; [done |]. simpl. rewrite foldl_app. simpl. f_equal.
    set (m := foldl Z.min _ _). destruct (Z.ltb_spec (first_day rows (iv_Instr iv)) m); lia.
  - by apply andb_false_iff in En as [-> | ->]; simpl; rewrite ?orb_true_r.
Qed.

Lemma elem_of_held_names t i : i ∈ held_names db rows now t <-> exists iv, iv ∈ intervals_of db t /\ iv_Instr iv = i /\ named_held db rows now t iv = true.
Proof.
  unfold held_names. rewrite list_elem_of_fmap. split.
  - intros (iv & -> & [? ?]%elem_of_lfilter). by exists iv.
  - intros (iv & ? & <- & ?). exists iv. split; [done |]. by apply elem_of_lfilter.
Qed.

(** The outer loop at one ticker that was read. *)
Lemma ask_for_ok kept hs markets t : (forall iv, iv ∈ intervals_of db t -> hs !! iv_Instr iv = if bool_decide (rows_naming rows (iv_Instr iv) = []) then None
    else Some (MkHeld (first_day rows (iv_Instr iv)) (users_of rows (iv_Instr iv)))) ->
  (forall i, is_Some (hs !! i) -> markets !! i = market_at db i) ->
  ask_for mics hs markets kept (AddDays (Day now) 1) t (intervals_of db t) =
    if existsb (contains kept) (held_names db rows now t) then refresh_ask mics db rows now t else None.
Proof.
  intros Hh Hm. unfold ask_for. rewrite (ask_fold hs markets kept t _ Hh Hm). simpl. fold (held_names db rows now t).
  destruct (existsb _ _) eqn:Ee; simpl; [| done]. unfold refresh_ask. destruct (refresh_venue _ _) as [v|]; simpl; [| done].
  by destruct (held_names db rows now t).
Qed.

Lemma requests_elem kept a : a ∈ requests mics db rows now kept <->
  exists t, (exists i, i ∈ kept /\ i ∈ held_names db rows now t) /\ refresh_ask mics db rows now t = Some a.
Proof.
  unfold requests. destruct kept as [|k0 ks] eqn:Ek; [split; [by intros ?%elem_of_nil | by intros (? & (? & ?%elem_of_nil & _) & _)] |]. rewrite <- Ek. clear Ek k0 ks.
  set (read := LoadNaming db kept). set (instrs := foldl append_unique [] _). set (hs := heldInstrs rows instrs). set (markets := Markets db _). cbv zeta.
  assert (forall t, is_Some (read !! t) <-> t ∈ ListTickersNaming db kept) as Hkeys by (intros t; apply Load_keys).
  assert (forall t, is_Some (read !! t) -> default [] (read !! t) = intervals_of db t /\
    ask_for mics hs markets kept (AddDays (Day now) 1) t (intervals_of db t) = if existsb (contains kept) (held_names db rows now t) then refresh_ask mics db rows now t else None) as Hask.
  { intros t Ht. assert (read !! t = Some (intervals_of db t)) as Er by by apply Load_read, Hkeys. rewrite Er. split; [done |]. apply ask_for_ok.
    - intros iv Hiv. apply heldInstrs_lookup. unfold instrs. apply elem_of_append_all, list_elem_of_fmap. exists iv. split; [done |].
      apply list_elem_of_In, in_concat. exists (intervals_of db t). rewrite <- !list_elem_of_In. split; [| done]. apply list_elem_of_fmap. exists (t, intervals_of db t).
      split; [done |]. by apply elem_of_map_to_list.
    - intros i [h Hi]. apply Markets_lookup, list_elem_of_fmap. exists (i, h). split; [done |]. by apply elem_of_map_to_list. }
  rewrite list_elem_of_omap. split.
  - intros (t & Ht & Ha). apply elem_of_sort_func, list_elem_of_fmap in Ht as ([u l] & -> & Hl%elem_of_map_to_list). simpl in Ha. destruct (Hask u) as [E1 E2]; [by exists l |]. rewrite E1, E2 in Ha.
    destruct (existsb _ _) eqn:Ee; [| done]. apply existsb_elem in Ee as (i & Hi & Hc%contains_true). exists u. split; [by exists i | done].
  - intros (t & (i & Hi & Hn) & Ha). assert (is_Some (read !! t)) as Ht.
    { apply Hkeys. apply elem_of_held_names in Hn as (iv & Hiv & <- & _). by eapply interval_naming. }
    destruct (Hask t Ht) as [E1 E2]. exists t. split; [apply elem_of_sort_func, list_elem_of_fmap; destruct Ht as [l Hl]; exists (t, l); split; [done | by apply elem_of_map_to_list] |].
    rewrite E1, E2, (proj2 (existsb_elem _ _)); [done |]. exists i. split; [done | by apply contains_true].
Qed.

Lemma overlaps_spec iv from before : overlaps iv from before = true <-> meets iv from before.
Proof.
  unfold overlaps, meets. rewrite andb_true_iff. destruct (iv_Before iv) as [b|], (iv_From iv) as [f|]; rewrite ?Z.ltb_lt; naive_solver.
Qed.

Lemma held_names_spec t i : i ∈ held_names db rows now t <-> named_while_held db rows now t i.
Proof.
  rewrite elem_of_held_names. unfold named_while_held.
  assert (rows_naming rows i <> [] <-> exists r, r ∈ rows /\ ti_InstrID r = Some i) as <-.
  { unfold rows_naming. split.
    - destruct (List.filter _ rows) as [|r l] eqn:E; [done |]. intros _. exists r. assert (r ∈ r :: l) as Hr by left. rewrite <- E in Hr. by apply elem_of_lfilter in Hr as [? ?%bool_decide_eq_true].
    - intros (r & Hr & Hi) E. apply (not_elem_of_nil r). rewrite <- E. apply elem_of_lfilter. by rewrite bool_decide_eq_true. }
  unfold named_held. split.
  - intros (iv & Hiv & <- & [[Hn%negb_true_iff%bool_decide_eq_false Hm%bool_decide_eq_true]%andb_true_iff Ho%overlaps_spec]%andb_true_iff).
    split; [done |]. split; [done |]. by exists iv.
  - intros (Hn & Hm & iv & Hiv & <- & Ho%overlaps_spec). exists iv. split; [done |]. split; [done |]. by rewrite Ho, bool_decide_eq_false_2, bool_decide_eq_true_2.
Qed.

(** On a day of both: the interval and the holding have one in common, where the
    interval has any and the holding has begun. *)
Lemma meets_day iv from before : iv_nonempty iv -> from < before ->
  meets iv from before <-> exists d, from <= d < before /\ from_le (iv_From iv) d /\ day_before d (iv_Before iv).
Proof.
  unfold meets, iv_nonempty, from_le, day_before. intros Hn Hf. destruct (iv_From iv) as [f|], (iv_Before iv) as [b|]; split.
  - intros [H1 H2]. specialize (H1 b eq_refl). specialize (H2 f eq_refl). exists (Z.max f from). lia.
  - intros (d & Hd & H1 & H2). split; intros ? [= <-]; lia.
  - intros [_ H2]. specialize (H2 f eq_refl). exists (Z.max f from). split; [lia | split; [lia | done]].
  - intros (d & Hd & H1 & H2). split; [done | intros ? [= <-]; lia].
  - intros [H1 _]. specialize (H1 b eq_refl). exists from. split; [lia | done].
  - intros (d & Hd & H1 & H2). split; [intros ? [= <-]; lia | done].
  - intros _. exists from. split; [lia | done].
  - by intros _.
Qed.

(** A request for a ticker: at the first operating venue of its market, from the
    first transaction that names an instrument the ticker named while it was held,
    to the day after today, with the users of those transactions. *)
Record ask_ok (t : MarketTicker) (a : ask) : Prop := {
  ak_ticker : exists venue pre suf, rq_Ticker (ak_req a) = MkIdentifier IdentifierTypeMicTicker venue (mt_Value t) /\ Venues mics (mt_Market t) = pre ++ venue :: suf /\
    default ""%string (Operating mics venue) = venue /\ forall v, v ∈ pre -> default ""%string (Operating mics v) <> v;
  ak_before : p_Before (rq_Period (ak_req a)) = AddDays (Day now) 1;
  ak_first : exists r i, r ∈ rows /\ ti_InstrID r = Some i /\ named_while_held db rows now t i /\ ti_AsAt r = p_From (rq_Period (ak_req a));
  ak_from r i : r ∈ rows -> ti_InstrID r = Some i -> named_while_held db rows now t i -> p_From (rq_Period (ak_req a)) <= ti_AsAt r;
  ak_user u : u ∈ ak_users a <-> exists r i, r ∈ rows /\ ti_InstrID r = Some i /\ named_while_held db rows now t i /\ ti_UserID r = u;
  ak_once : NoDup (ak_users a);
}.

Lemma held_naming t i : i ∈ held_names db rows now t -> rows_naming rows i <> [].
Proof.
  intros (iv & _ & <- & Hn)%elem_of_held_names. unfold named_held in Hn. by apply andb_true_iff in Hn as [[Hn%negb_true_iff%bool_decide_eq_false _]%andb_true_iff _].
Qed.

Lemma elem_of_rows_naming r i : r ∈ rows_naming rows i <-> r ∈ rows /\ ti_InstrID r = Some i.
Proof. unfold rows_naming. by rewrite elem_of_lfilter, bool_decide_eq_true. Qed.

Lemma refresh_ask_ok t a : held_names db rows now t <> [] -> refresh_ask mics db rows now t = Some a -> ask_ok t a.
Proof.
  intros Hne. unfold refresh_ask. destruct (refresh_venue _ _) as [venue|] eqn:Ev; simpl; [| done]. intros [= <-].
  apply find_func_split in Ev as (pre & suf & Hv & Hop%bool_decide_eq_true & Hpre). destruct (min_day_spec (map (first_day rows) (held_names db rows now t))) as [Hin Hle]; [by destruct (held_names _ _ _ _) |].
  rewrite Forall_forall in Hle.
  assert (forall i, i ∈ held_names db rows now t -> first_day rows i ∈ map ti_AsAt (rows_naming rows i) /\ Forall (fun x => first_day rows i <= x) (map ti_AsAt (rows_naming rows i))) as Hfirst.
  { intros i Hi. apply min_day_spec. pose proof (held_naming t i Hi). by destruct (rows_naming rows i). }
  assert (forall v, v ∈ pre -> default ""%string (Operating mics v) <> v) as Hno by (intros v Hin'; specialize (Hpre v Hin'); by apply bool_decide_eq_false in Hpre).
  split; simpl; [by exists venue, pre, suf | done | | | | apply NoDup_append_all].
  all: repeat setoid_rewrite <- held_names_spec.
  - apply list_elem_of_fmap in Hin as (i & -> & Hi). destruct (Hfirst i Hi) as [(r & -> & [Hr Hir]%elem_of_rows_naming)%list_elem_of_fmap _]. by exists r, i.
  - intros r i Hr Hir Hi. destruct (Hfirst i Hi) as [_ Hall]. pose proof (proj1 (Forall_forall _ _) Hall (ti_AsAt r)) as H1. cbn beta in H1.
    specialize (H1 ltac:(apply list_elem_of_fmap_2; by apply elem_of_rows_naming)). pose proof (Hle _ (list_elem_of_fmap_2 (first_day rows) _ _ Hi)). cbn beta in *. lia.
  - intros u. rewrite elem_of_append_all, elem_of_concat_map. split.
    + intros (i & Hi & (r & Hr & Hir & Hu)%naming_row). by exists r, i.
    + intros (r & i & Hr & Hir & Hi & Hu). exists i. split; [done |]. apply naming_row. by exists r.
Qed.

(** The venue of a request is one of the market of its ticker. *)
Lemma Venues_market m v : v ∈ Venues mics m -> exists e, mics !! v = Some e /\ mic_Market e = m.
Proof.
  unfold Venues. intros ([w e] & -> & He%elem_of_map_to_list)%elem_of_sort_func%list_elem_of_fmap. apply map_lookup_filter_Some in He as [He Hm]. by exists e.
Qed.

Lemma ask_ticker t u a b : refresh_ask mics db rows now t = Some a -> refresh_ask mics db rows now u = Some b -> rq_Ticker (ak_req a) = rq_Ticker (ak_req b) -> t = u.
Proof.
  unfold refresh_ask. destruct (refresh_venue _ (mt_Market t)) as [v|] eqn:Ev; simpl; [| done]. destruct (refresh_venue _ (mt_Market u)) as [w|] eqn:Ew; simpl; [| done].
  intros [= <-] [= <-]. simpl. intros [= <- Hval]. apply find_func_Some in Ev as [(e & He & Hm)%Venues_market _]. apply find_func_Some in Ew as [(e' & He' & Hm')%Venues_market _].
  rewrite He in He'. injection He' as <-. destruct t, u. simpl in *. congruence.
Qed.

Lemma requests_ok kept : (forall a, a ∈ requests mics db rows now kept <->
    exists t i, i ∈ kept /\ named_while_held db rows now t i /\ refresh_ask mics db rows now t = Some a) /\
  (forall t i a, named_while_held db rows now t i -> refresh_ask mics db rows now t = Some a -> ask_ok t a) /\
  NoDup (map (fun a => rq_Ticker (ak_req a)) (requests mics db rows now kept)).
Proof.
  split; [intros a; rewrite requests_elem; setoid_rewrite held_names_spec; naive_solver |]. split.
  { intros t i a Hi%held_names_spec. apply refresh_ask_ok. intros E. rewrite E in Hi. by apply not_elem_of_nil in Hi. }
  unfold requests. destruct kept as [|k0 ks] eqn:Ek; [constructor |]. rewrite <- Ek. clear Ek k0 ks. cbv zeta.
  set (read := LoadNaming db kept). set (hs := heldInstrs rows _). set (markets := Markets db _).
  assert (NoDup (sort_func MarketTicker_cmp (map_to_list read).*1)) as Hnd by (rewrite sort_func_perm; apply NoDup_fst_map_to_list).
  revert Hnd. generalize (sort_func MarketTicker_cmp (map_to_list read).*1). intros ts.
  assert (forall t a, ask_for mics hs markets kept (AddDays (Day now) 1) t (default [] (read !! t)) = Some a ->
    exists v, rq_Ticker (ak_req a) = MkIdentifier IdentifierTypeMicTicker v (mt_Value t) /\ v ∈ Venues mics (mt_Market t)) as Hv.
  { intros t a. unfold ask_for. destruct (negb _); [done |]. destruct (refresh_venue _ _) as [v|] eqn:Ev; simpl; [| done]. intros [= <-]. exists v. split; [done |].
    by apply find_func_Some in Ev as [? _]. }
  induction ts as [|t ts IH]; intros Hnd; [constructor |]. apply NoDup_cons in Hnd as [Ht Hnd]. csimpl. destruct (ask_for _ _ _ _ _ t _) as [a|] eqn:Ea; [| by apply IH].
  simpl. constructor; [| by apply IH]. intros (b & Eb & (u & Hu & Hub)%list_elem_of_omap)%list_elem_of_fmap. apply Ht.
  destruct (Hv _ _ Ea) as (v & Ev & Hvv), (Hv _ _ Hub) as (w & Ew & Hw). rewrite Ev, Ew in Eb. injection Eb as <- Hval.
  apply Venues_market in Hvv as (e & He & Hm), Hw as (e' & He' & Hm'). rewrite He in He'. injection He' as <-.
  assert (t = u) as -> by (destruct t, u; simpl in *; congruence). done.
Qed.

(** C26: The corporate actions of the instruments [kept] are asked of each ticker,
    of a market with an operating venue, that named one of them at its market
    while it was held, and of no other: in an interval that ends after the first
    transaction that names the instrument and begins no later than today, so that,
    where the interval holds a day and that transaction is not of the future, the
    two have a day in common. Each is asked once, at the first operating venue of
    the market, from the first transaction that names any held instrument the
    ticker so named, kept or not, to the day after today, and with the users of
    all such transactions. The request of a ticker does not depend on [kept], so
    that every run asks for the same period. *)
Theorem requests_spec kept : (forall a, a ∈ requests mics db rows now kept <->
    exists t i, i ∈ kept /\ named_while_held db rows now t i /\ refresh_ask mics db rows now t = Some a) /\
  (forall t, is_Some (refresh_ask mics db rows now t) <-> exists v, v ∈ Venues mics (mt_Market t) /\ default ""%string (Operating mics v) = v) /\
  (forall t i a, named_while_held db rows now t i -> refresh_ask mics db rows now t = Some a -> ask_ok t a) /\
  NoDup (map (fun a => rq_Ticker (ak_req a)) (requests mics db rows now kept)) /\
  forall iv, iv_nonempty iv -> first_day rows (iv_Instr iv) < AddDays (Day now) 1 ->
    meets iv (first_day rows (iv_Instr iv)) (AddDays (Day now) 1) <->
    exists d, first_day rows (iv_Instr iv) <= d < AddDays (Day now) 1 /\ from_le (iv_From iv) d /\ day_before d (iv_Before iv).
Proof.
  destruct (requests_ok kept) as (H1 & H2 & H3). split; [done |]. split; [| split; [done | split; [done | intros iv; apply meets_day]]].
  intros t. unfold refresh_ask. destruct (refresh_venue _ _) as [v|] eqn:Ev; simpl; (split; [| intros (w & Hw & Ho)]).
  - intros _. apply find_func_Some in Ev as [Hv Hop%bool_decide_eq_true]. by exists v.
  - by eexists.
  - by intros [? ?].
  - unfold refresh_venue in Ev. rewrite find_func_None in Ev. specialize (Ev w Hw). simpl in Ev. by rewrite bool_decide_eq_true_2 in Ev.
Qed.

(** ** What is selected and fetched *)

(** The instruments of a scope: those the user's transactions name, and those
    that a ticker of what was written names on any day. *)
Lemma elem_of_selected scope i : i ∈ selected db rows scope <->
  (exists r, r ∈ rows /\ ti_InstrID r = Some i /\ sc_User scope = Some (ti_UserID r)) \/
  (exists w t iv, w ∈ sc_Written scope /\ t ∈ wf_Tickers w /\ iv ∈ intervals_of db t /\ iv_Instr iv = i).
Proof.
  assert (forall l, l = match sc_User scope with Some u => ListHeldInstrIDs rows (Some u) | None => [] end ->
    i ∈ l <-> exists r, r ∈ rows /\ ti_InstrID r = Some i /\ sc_User scope = Some (ti_UserID r)) as Hu.
  { intros l ->. destruct (sc_User scope) as [u|]; [| split; [by intros ?%elem_of_nil | by intros (? & _ & _ & ?)]].
    unfold ListHeldInstrIDs. rewrite elem_of_sort_func, elem_of_append_all, list_elem_of_omap. split.
    - intros (r & [Hr <-%bool_decide_eq_true]%elem_of_lfilter & Hi). by exists r.
    - intros (r & Hr & Hi & [= ->]). exists r. split; [| done]. apply elem_of_lfilter. by rewrite bool_decide_eq_true. }
  specialize (Hu _ eq_refl). unfold selected. set (l := match sc_User scope with Some u => _ | None => _ end) in *. set (ts := concat _).
  assert (i ∈ map iv_Instr (concat (map_to_list (Load db ts)).*2) <-> exists w t iv, w ∈ sc_Written scope /\ t ∈ wf_Tickers w /\ iv ∈ intervals_of db t /\ iv_Instr iv = i) as Hw.
  { rewrite list_elem_of_fmap. split.
    - intros (iv & -> & Hiv). apply list_elem_of_In, in_concat in Hiv as (ivs & Hivs & Hiv). rewrite <- list_elem_of_In in Hivs; rewrite <- list_elem_of_In in Hiv.
      apply list_elem_of_fmap in Hivs as ([t x] & -> & Hx%elem_of_map_to_list). simpl in Hiv.
      assert (t ∈ ts) as Ht by (apply Load_keys; by exists x). rewrite (Load_read ts t Ht) in Hx. injection Hx as <-.
      unfold ts in Ht. apply elem_of_concat_map in Ht as (w & Hw & Ht). by exists w, t, iv.
    - intros (w & t & iv & Hw & Ht & Hiv & <-). exists iv. split; [done |]. apply list_elem_of_In, in_concat. exists (intervals_of db t). rewrite <- !list_elem_of_In. split; [| done].
      apply list_elem_of_fmap. exists (t, intervals_of db t). split; [done |]. apply elem_of_map_to_list, Load_read. apply elem_of_concat_map. by exists w. }
  destruct ts as [|t0 ts0] eqn:Ets; [| rewrite elem_of_app; tauto].
  rewrite Hu. split; [by left |]. intros [?|(w & t & iv & Hin & Ht & _)]; [done |]. exfalso. apply (not_elem_of_nil t). rewrite <- Ets. apply elem_of_concat_map. by exists w.
Qed.

Definition own_ask (parent : option uuid) (a : ask) : bool :=
  bool_decide (parent = None) || bool_decide (parent = head (ak_users a)) && bool_decide (length (ak_users a) = 1%nat).

Lemma beneath_split parent asks : beneath parent asks =
  (map ak_req (List.filter (own_ask parent) asks), map ak_req (List.filter (fun a => negb (own_ask parent a)) asks)).
Proof.
  unfold beneath. induction asks as [|a asks IH] using rev_ind; [done |]. rewrite foldl_app, IH, !List.filter_app, !map_app. simpl. fold (own_ask parent a).
  destruct (own_ask parent a); simpl; by rewrite ?app_nil_r.
Qed.

Lemma own_ask_user u a : own_ask (Some u) a = true <-> ak_users a = [u].
Proof.
  unfold own_ask. simpl. rewrite andb_true_iff, !bool_decide_eq_true. destruct (ak_users a) as [|v [|w vs]]; simpl; split; try (by intros [? ?]); try done.
  - by intros [[= ->] _].
  - by intros [= ->].
Qed.

(** C27: The requests of a fetch beneath a run are those of the instruments its scope
    selects: those the user's transactions name, and those that a ticker of what
    was written names on any day. Each is fetched once. Beneath a system run all of
    them are fetched beneath the run itself; beneath a user's run, so are those of
    the tickers that no other user holds, and the others go beneath a system child
    of it. *)
Theorem FetchHeld_spec parent scope :
  let asks := requests mics db rows now (selected db rows scope) in
  let '(own, others) := FetchHeld mics db rows now parent scope in
  (forall i, i ∈ selected db rows scope <-> (exists r, r ∈ rows /\ ti_InstrID r = Some i /\ sc_User scope = Some (ti_UserID r)) \/
    (exists w t iv, w ∈ sc_Written scope /\ t ∈ wf_Tickers w /\ iv ∈ intervals_of db t /\ iv_Instr iv = i)) /\
  own ++ others ≡ₚ map ak_req asks /\ NoDup (map rq_Ticker (own ++ others)) /\
  match parent with
  | None => others = []
  | Some u => own = map ak_req (List.filter (fun a => bool_decide (ak_users a = [u])) asks)
  end.
Proof.
  unfold FetchHeld. rewrite beneath_split. cbv zeta. set (asks := requests _ _ _ _ _). split; [apply elem_of_selected |].
  assert (map ak_req (List.filter (own_ask parent) asks) ++ map ak_req (List.filter (fun a => negb (own_ask parent a)) asks) ≡ₚ map ak_req asks) as Hp.
  { rewrite <- map_app. by rewrite <- (filter_negb_perm (own_ask parent) asks). }
  split; [exact Hp |]. split; [rewrite Hp, map_map; apply requests_ok |]. destruct parent as [u|].
  - f_equal. apply filter_ext. intros a. apply eq_true_iff_eq. by rewrite own_ask_user, bool_decide_eq_true.
  - rewrite filter_none; done.
Qed.

End Requests.

(** * Example *)

Module Example.

Definition day (n : Z) : time := n * day_len.

(** Instrument 7 moved from one ticker to another, and instrument 8 has a ticker of
    another market. *)
Definition ex_tables : tables unit :=
  MkTables [MkTickerRow 1 "US" "FB"; MkTickerRow 2 "US" "META"; MkTickerRow 3 "GB" "VOD"]
    [MkValidityRow 1 7 None (Some (day 10)) Confirmed; MkValidityRow 2 7 (Some (day 10)) None Confirmed; MkValidityRow 3 8 None None Provisional]
    [MkListingRow 7 (Some "XNAS"); MkListingRow 8 (Some "XLON")] [("XNAS", "US"); ("XLON", "GB")]%string ∅ [] [].

Definition ex_mics : MICMap := mic_Load [("XNAS", "XNAS", "US"); ("XLON", "XLON", "GB")]%string.

(** User 1 holds both, and user 2 the first, by a dated key before the move. *)
Definition keys : list StatedKey :=
  [MkStatedKey 50 1 None None [] (Some 7%N) None None None; MkStatedKey 51 1 None None [] (Some 8%N) None None None;
   MkStatedKey 52 2 None None [] None (Some 1%N) (Some "XNAS"%string) None].

Definition rows : list TxnInstr := txn_instrs keys (Calendar.db_validity ex_tables) [MkKeyTxn 1 50 (day 12); MkKeyTxn 1 51 (day 4); MkKeyTxn 2 52 (day 5); MkKeyTxn 2 52 (day 30)].

Example rows_named : map (fun r => (ti_UserID r, ti_InstrID r)) rows = [(1, Some 7); (1, Some 8); (2, Some 7); (2, None)]%N.
Proof. vm_compute. reflexivity. Qed.

Definition ask_of (market value venue : string) (first : Z) (users : list uuid) : ask :=
  MkAsk (MkCorpActRequest (MkIdentifier IdentifierTypeMicTicker venue value) (MkPeriod (day first) (day 41))) users.

(** The first ticker still names the instrument of the later one. *)
Example requests_of : requests ex_mics ex_tables rows (day 40) [7%N; 8%N] =
  [ask_of "GB" "VOD" "XLON" 4 [1%N]; ask_of "US" "FB" "XNAS" 5 [1%N; 2%N]; ask_of "US" "META" "XNAS" 5 [1%N; 2%N]].
Proof. vm_compute. reflexivity. Qed.

Example fetch_of : let '(own, others) := FetchHeld ex_mics ex_tables rows (day 40) (Some 1%N) (MkScope [] (Some 1%N)) in
  map (fun q => id_Value (rq_Ticker q)) own = ["VOD"]%string /\ map (fun q => id_Value (rq_Ticker q)) others = ["FB"; "META"]%string.
Proof. vm_compute. split; reflexivity. Qed.

End Example.
