(* ===== verification/Replay.v ===== *)
(** Replays of stored keys, [server/internal/run/replayrun] and
    [server/internal/run/reasserttickers]: the keys a replay selects, its work,
    and the children that replay the keys of new identifier facts. *)
From S2P Require Import Stmts Refresh.
From S2P Require Import Prelude Types Rows Group Runs Mic Calendar ValidityStore Market Fetch Resolution Claims Choose InstrStore Merge Record Statements Recording Writer Write Outcome Sources Dated Resolve Resolving.

(** * Definitions *)

(** ** The tables *)

(** A row of [replays]. *)
Record ReplayRow : Type := MkReplayRow {
  ry_ID : uuid;
  ry_UserID : uuid;
  ry_SourceID : uuid;
  ry_Datasource : option string;
  ry_StartedBy : uuid;
}.

(** [rp_users] and [rp_datasources] are the keys of [users] and [datasources]. *)
Record replay_db : Type := MkReplayDB {
  rp_db : instr_db;
  rp_links : list Stmts.LinkRow;
  rp_txns : list KeyTxn;
  rp_runs : gmap uuid RunRow;
  rp_replays : list ReplayRow;
  rp_users : list uuid;
  rp_datasources : list string;
}.

Definition rp_with_db (db : instr_db) (d : replay_db) : replay_db :=
  MkReplayDB db (rp_links d) (rp_txns d) (rp_runs d) (rp_replays d) (rp_users d) (rp_datasources d).

Definition rp_with_replays (l : list ReplayRow) (d : replay_db) : replay_db :=
  MkReplayDB (rp_db d) (rp_links d) (rp_txns d) (rp_runs d) l (rp_users d) (rp_datasources d).

(** ** The queries *)

(** A transaction of the key's user names the key. *)
Definition has_txn (d : replay_db) (k : StatedKey) : bool :=
  existsb (fun t => bool_decide (kt_UserID t = sk_UserID k) && bool_decide (kt_StatedKeyID t = sk_ID k)) (rp_txns d).

(** The source is a statement that states the key, or a run that resolved it. *)
Definition in_source (d : replay_db) (source : uuid) (k : StatedKey) : bool :=
  existsb (fun l => bool_decide (Stmts.ln_StmtID l = source) && bool_decide (Stmts.ln_UserID l = sk_UserID k) && bool_decide (Stmts.ln_StatedKeyID l = sk_ID k)) (rp_links d)
  || existsb (fun r => bool_decide (rk_RunID r = source) && bool_decide (rk_UserID r = sk_UserID k) && bool_decide (rk_StatedKeyID r = sk_ID k)) (db_resolutions (rp_db d)).

(** [ORDER BY run_id DESC LIMIT 1]. *)
Definition later_run (best : option ResolutionKey) (r : ResolutionKey) : option ResolutionKey :=
  match best with Some b => if (rk_RunID b <? rk_RunID r)%N then Some r else best | None => Some r end.

Definition latest (d : replay_db) (k : StatedKey) : option ResolutionKey :=
  foldl later_run None (List.filter (fun r => bool_decide (rk_StatedKeyID r = sk_ID k) && bool_decide (rk_UserID r = sk_UserID k)) (db_resolutions (rp_db d))).

Definition ListUnavailableKeys (user source : uuid) (d : replay_db) : list StatedKey :=
  sort_func (cmp_on sk_ID N.compare) (List.filter (fun k =>
    bool_decide (sk_UserID k = user) && in_source d source k && bool_decide (rk_Outcome <$> latest d k = Some ResolutionOutcomeUnavailable) && has_txn d k)
    (map ks_Key (db_stated (rp_db d)))).

(** The key has no instrument, or one whose identity the datasource has not
    covered; an instrument of reference data has no fetch key. *)
Definition uncovered (db : instr_db) (datasource : string) (k : StatedKey) : bool :=
  match sk_InstrID k with
  | None => true
  | Some i =>
      match find_func (fun r => bool_decide (in_ID r = i)) (db_instrs db) with
      | None => false
      | Some r => negb (bool_decide (in_FetchKeyID r = None))
          && negb (existsb (fun c => bool_decide (ic_InstrID c = i) && bool_decide (ic_Datasource c = datasource)) (db_coverage db))
      end
  end.

Definition ListKeysUncoveredBy (user source : uuid) (datasource : string) (d : replay_db) : list StatedKey :=
  sort_func (cmp_on sk_ID N.compare) (map ks_Key (List.filter (fun r =>
    let k := ks_Key r in
    bool_decide (sk_UserID k = user) && in_source d source k && has_txn d k && negb (bool_decide (ks_Arbiter r = Some ArbiterUser))
    && bool_decide (sk_ViaTickerID k = None) && uncovered (rp_db d) datasource k)
    (db_stated (rp_db d)))).

(** [identifiers @> probe]: the identifier has each field of the probe's object.
    A stored identifier has no field for an empty domain, and a probe always has. *)
Definition probe_contained (p : Identifier) (ids : list Identifier) : bool :=
  existsb (fun i => bool_decide (id_Type i = id_Type p) && bool_decide (id_Domain i = id_Domain p) && negb (bool_decide (id_Domain p = ""%string))
    && (IsDomain p || bool_decide (id_Value i = id_Value p))) ids.

Definition ListUnassociatedKeysStating (probes : list Identifier) (run : uuid) (d : replay_db) : list StatedKey :=
  sort_func (cmp_lex (cmp_on sk_UserID N.compare) (cmp_on sk_ID N.compare)) (List.filter (fun k =>
    bool_decide (sk_InstrID k = None) && bool_decide (sk_ViaTickerID k = None) && existsb (fun p => probe_contained p (sk_Identifiers k)) probes
    && negb (existsb (fun r => bool_decide (rk_RunID r = run) && bool_decide (rk_StatedKeyID r = sk_ID k)) (db_resolutions (rp_db d)))
    && has_txn d k) (map ks_Key (db_stated (rp_db d)))).

(** The insert, with the keys of the table. *)
Definition CreateReplay (r : ReplayRow) (d : replay_db) : option replay_db :=
  let of_user id := match rp_runs d !! id with Some row => bool_decide (rr_UserID row = Some (ry_UserID r)) | None => false end in
  if negb (contains (map ry_ID (rp_replays d)) (ry_ID r)) && contains (rp_users d) (ry_UserID r) && contains (rp_users d) (ry_StartedBy r)
    && match ry_Datasource r with None => true | Some n => contains (rp_datasources d) n end && of_user (ry_ID r) && of_user (ry_SourceID r)
  then Some (rp_with_replays (rp_replays d ++ [r]) d) else None.

(** ** Starting a replay *)

Inductive replay_error : Type :=
| SystemSource
| ErrKind
| ErrDisabled
| ErrNoIdentity
| ErrEmpty.

(** [scope.Datasource], empty for the keys left unavailable. *)
Definition selectKeys (entries : list Entry) (user source : uuid) (kind : RunKind) (datasource : string) (d : replay_db) : res replay_error (list StatedKey) :=
  match kind with
  | RunKindIngestStmt | RunKindResolveStmtKeys =>
      let some out := match out with [] => Err ErrEmpty | _ => Ok out end in
      if bool_decide (datasource = ""%string) then some (ListUnavailableKeys user source d)
      else match find_func (fun e => bool_decide (en_Name e = datasource)) entries with
           | None => Err ErrDisabled
           | Some e =>
               match en_Identity e with
               | None => Err ErrNoIdentity
               | Some s => some (List.filter (fun k => match sr_Serves s k with Ok _ => true | Err _ => false end) (ListKeysUncoveredBy user source datasource d))
               end
           end
  | _ => Err ErrKind
  end.

(** [replay], what its [prepare] and its [work] read. *)
Record replay : Type := MkReplay {
  re_admin : uuid;
  re_source : uuid;
  re_scope : string;
  re_keys : list StatedKey;
}.

Definition replay_start (entries : list Entry) (admin source : uuid) (row : RunRow) (datasource : string) (d : replay_db) : res replay_error (Runs.Spec * replay) :=
  match rr_UserID row with
  | None => Err SystemSource
  | Some user =>
      keys ← selectKeys entries user source (rr_Kind row) datasource d;
      Ok (Runs.MkSpec RunKindReplayRun RunTriggerAdministrator (Some user) "replay_run" true, MkReplay admin source datasource keys)
  end.

Definition replay_prepare (w : replay) (run user : uuid) (d : replay_db) : option replay_db :=
  CreateReplay (MkReplayRow run user (re_source w) (if bool_decide (re_scope w = ""%string) then None else Some (re_scope w)) (re_admin w)) d.

(** ** The work of a replay *)

(** [group.Regroup] on the tables. *)
Definition replay_groups (d : replay_db) : GroupDB := MkGroupDB (map ks_Key (db_stated (rp_db d))) (map (fun t => (kt_UserID t, kt_StatedKeyID t)) (rp_txns d)).

Definition row_with_key (r : StatedKeyRow) (k : StatedKey) : StatedKeyRow := MkStatedKeyRow k (ks_ListingID r) (ks_ViaIdentifierID r) (ks_ViaMarket r) (ks_Arbiter r).

Definition replay_regroup (user : uuid) (d : replay_db) : option replay_db :=
  g ← Regroup (replay_groups d) user;
  Some (rp_with_db (set_stated (fun rows => zip_with row_with_key rows (gdb_keys g)) (rp_db d)) d).

Section Work.
Context {E : Type} `{Fetcher E}.
Variables (mics : MICMap) (families : gmap string string) (entries : list Entry) (stamp : time -> string) (format_date : time -> string) (uuid_string : uuid -> string).

(** How the work ends before the replays that its facts start: at the resolution,
    whose groups stay, or with what the resolution wrote. *)
Inductive replay_end : Type :=
| Unresolved (r : @resolved E)
| Replayed (out : list ResolutionKey) (written : list WrittenIdentifierFacts) (d : replay_db).

(** [work]; [child] is the run of the resolution. *)
Definition replay_work (user child : uuid) (now : time) (keys : list StatedKey) (d : replay_db) : option replay_end :=
  r ← Resolve mics families entries stamp format_date uuid_string (MkRun child (Some user)) now (rp_txns d) (map (fun k => MkKeyDates k []) keys) (rp_db d);
  match r with
  | Resolved out written db => d ← replay_regroup user (rp_with_db db d); Some (Replayed out written d)
  | _ => Some (Unresolved r)
  end.

End Work.

(** ** Replays of new facts *)

(** A call of [ChildAs]: a replay of a user's keys beneath a run, or a system child
    of it with the replays beneath that. *)
Inductive replay_call : Type :=
| ReplayKeys (parent user : uuid) (keys : list StatedKey)
| SystemChild (parent : uuid) (calls : list (uuid * list StatedKey)).

Record picking : Type := MkPicking {
  pk_picked : list uuid;
  pk_users : list uuid;
  pk_byUser : gmap uuid (list StatedKey);
}.

Definition pick (p : picking) (k : StatedKey) : picking :=
  if contains (pk_picked p) (sk_ID k) then p
  else MkPicking (pk_picked p ++ [sk_ID k])
         (match pk_byUser p !! sk_UserID k with None => pk_users p ++ [sk_UserID k] | Some _ => pk_users p end)
         (<[sk_UserID k := default [] (pk_byUser p !! sk_UserID k) ++ [k]]> (pk_byUser p)).

(** The replays beneath [parent], a run of [owner]. *)
Definition replays_beneath (parent : uuid) (owner : option uuid) (users : list uuid) (byUser : gmap uuid (list StatedKey)) : list replay_call :=
  let child u := (u, default [] (byUser !! u)) in
  let own := List.filter (fun u => bool_decide (owner = Some u)) users in
  let others := List.filter (fun u => negb (bool_decide (owner = Some u))) users in
  let replays := map (fun u => ReplayKeys parent u (default [] (byUser !! u))) in
  replays own ++ match others with
                 | [] => []
                 | _ => match owner with None => replays others | Some _ => [SystemChild parent (map child others)] end
                 end.

Section Facts.
Variables (mics : MICMap) (owner : uuid -> option uuid).

Definition replay_written (except : uuid) (st : list uuid * list replay_call) (w : WrittenIdentifierFacts * replay_db) : list uuid * list replay_call :=
  match TickerProbes mics (wf_Tickers w.1) with
  | Err _ | Ok [] => st
  | Ok probes =>
      let p := foldl pick (MkPicking st.1 [] ∅) (ListUnassociatedKeysStating probes except w.2) in
      (pk_picked p, st.2 ++ replays_beneath (wf_Run w.1) (owner (wf_Run w.1)) (pk_users p) (pk_byUser p))
  end.

(** The calls in order. Each of [written] comes with the tables that its listing
    reads, after the replays before it and whatever runs beside them. *)
Definition replayFacts (except : uuid) (written : list (WrittenIdentifierFacts * replay_db)) : list replay_call :=
  (foldl (replay_written except) ([], []) written).2.

End Facts.

(** [AfterIdentifierFacts] and [AfterStmt]: the replays, and the requests fetched
    beneath the run, from the tables that the replays leave. *)
Section After.
Context {D : Type}.
Variables (mics : MICMap) (owner : uuid -> option uuid) (db : Calendar.tables D) (rows : list Refresh.TxnInstr) (now : time).

Definition AfterIdentifierFacts (except : uuid) (written : list (WrittenIdentifierFacts * replay_db)) :=
  (replayFacts mics owner except written, Refresh.FetchHeld mics db rows now (owner except) (Refresh.MkScope (map fst written) None)).

Definition AfterStmt (stmt except : uuid) (written : list (WrittenIdentifierFacts * replay_db)) :=
  (replayFacts mics owner except written, Refresh.FetchHeld mics db rows now (owner stmt) (Refresh.MkScope (map fst written) (owner stmt))).

End After.

(** [Start] of [reasserttickers]; [None] is [ErrEmpty]. *)
Definition reassert_start {A : Type} (held : list A) : option Runs.Spec :=
  match held with
  | [] => None
  | _ => Some (Runs.MkSpec RunKindReassertTickers RunTriggerAdministrator None "reassert_tickers" false)
  end.

(** * The keys picked *)

(** The users of some keys, in the order they first come. *)
Definition users_in (ks : list StatedKey) : list uuid := foldl append_unique [] (map sk_UserID ks).

Definition user_keys (ks : list StatedKey) (u : uuid) : list StatedKey := List.filter (fun k => bool_decide (sk_UserID k = u)) ks.

Lemma elem_of_user_keys ks u k : k ∈ user_keys ks u <-> k ∈ ks /\ sk_UserID k = u.
Proof. unfold user_keys. by rewrite elem_of_lfilter, bool_decide_eq_true. Qed.

Lemma elem_of_users_in ks u : u ∈ users_in ks <-> user_keys ks u <> [].
Proof.
  unfold users_in. rewrite elem_of_append_all, list_elem_of_fmap. split.
  - intros (k & -> & Hk) E. apply (not_elem_of_nil k). rewrite <- E. by apply elem_of_user_keys.
  - destruct (user_keys ks u) as [|k l] eqn:E; [done |]. intros _. exists k. assert (k ∈ user_keys ks u) as [? <-]%elem_of_user_keys by (rewrite E; by left). done.
Qed.

(** The keys of every user are all of the keys. *)
Lemma user_keys_all users : NoDup users -> forall ks, (forall k, k ∈ ks -> sk_UserID k ∈ users) -> concat (map (user_keys ks) users) ≡ₚ ks.
Proof.
  induction users as [|u us IH]; intros Hnd ks Hks; simpl.
  - destruct ks as [|k ks]; [done |]. exfalso. apply (not_elem_of_nil (sk_UserID k)), Hks. by left.
  - apply NoDup_cons in Hnd as [Hu Hnd]. set (rest := List.filter (fun k => negb (bool_decide (sk_UserID k = u))) ks).
    assert (map (user_keys ks) us = map (user_keys rest) us) as ->.
    { apply map_ext_in. intros v Hv%list_elem_of_In. unfold user_keys, rest. clear -Hu Hv. induction ks as [|k ks IH]; [done |]. simpl. destruct (decide (sk_UserID k = u)) as [E|E].
      - rewrite (bool_decide_eq_true_2 (sk_UserID k = u)), (bool_decide_eq_false_2 (sk_UserID k = v)) by congruence. done.
      - rewrite (bool_decide_eq_false_2 (sk_UserID k = u)) by done. simpl. by rewrite IH. }
    rewrite IH; [symmetry; apply filter_negb_perm | done |].
    intros k [Hk Hne%negb_true_iff%bool_decide_eq_false]%elem_of_lfilter. by apply Hks, elem_of_cons in Hk as [?|?].
Qed.

(** The state of the picking, once the keys [ks] are picked after [held]. *)
Record picked_keys (held : list uuid) (ks : list StatedKey) (p : picking) : Prop := {
  pd_picked : pk_picked p = held ++ map sk_ID ks;
  pd_users : pk_users p = users_in ks;
  pd_byUser u : pk_byUser p !! u = match user_keys ks u with [] => None | l => Some l end;
}.

Lemma picked_keys_snoc held ks k p : picked_keys held ks p -> sk_ID k ∉ pk_picked p -> picked_keys held (ks ++ [k]) (pick p k).
Proof.
  intros [H1 H2 H3] Hn. unfold pick. rewrite (proj2 (contains_false _ _) Hn). split; simpl.
  - by rewrite H1, map_app, <- app_assoc.
  - rewrite H2, H3. assert (users_in (ks ++ [k]) = append_unique (users_in ks) (sk_UserID k)) as -> by (unfold users_in; by rewrite map_app, foldl_app). unfold append_unique. destruct (contains (users_in ks) (sk_UserID k)) eqn:Ec.
    + apply contains_true, elem_of_users_in in Ec. by destruct (user_keys ks _).
    + apply contains_false in Ec. destruct (user_keys ks (sk_UserID k)) eqn:Ek; [done |]. exfalso. apply Ec, elem_of_users_in. by rewrite Ek.
  - intros u. unfold user_keys at 1. rewrite List.filter_app. simpl. fold (user_keys ks u). destruct (decide (sk_UserID k = u)) as [<-|Hne].
    + rewrite bool_decide_eq_true_2, lookup_insert_eq, H3 by done. by destruct (user_keys ks (sk_UserID k)).
    + rewrite bool_decide_eq_false_2, lookup_insert_ne, H3, app_nil_r by done. done.
Qed.

(** The picking of a list: each id once, and none that was picked before. *)
Lemma pick_fold held l : NoDup held -> exists ks, picked_keys held ks (foldl pick (MkPicking held [] ∅) l) /\ NoDup (held ++ map sk_ID ks) /\
  (forall k, k ∈ ks -> k ∈ l) /\ (forall k, k ∈ l -> sk_ID k ∈ held ++ map sk_ID ks).
Proof.
  intros Hnd. induction l as [|k l (ks & Hp & Hk & H1 & H2)] using rev_ind.
  - exists []. rewrite app_nil_r. split; [split; simpl; [by rewrite app_nil_r | done | done] |]. split; [done |]. split; intros ? ?%elem_of_nil; done.
  - rewrite foldl_app. simpl. set (p := foldl pick _ l) in *. destruct (decide (sk_ID k ∈ pk_picked p)) as [Hin|Hin].
    + exists ks. unfold pick at 1. rewrite (proj2 (contains_true _ _) Hin). split; [done |]. split; [done |].
      split; [intros x Hx; apply elem_of_app; left; auto |]. intros x [?|E%list_elem_of_singleton]%elem_of_app; [auto |]. subst x. by rewrite <- (pd_picked _ _ _ Hp).
    + exists (ks ++ [k]). split; [by apply picked_keys_snoc |]. rewrite (pd_picked _ _ _ Hp) in Hin. rewrite map_app, app_assoc. simpl. split.
      * apply NoDup_app. split; [done |]. split; [intros x Hx E%list_elem_of_singleton; by subst x | apply NoDup_singleton].
      * split; [intros x [?|?]%elem_of_app; apply elem_of_app; auto |].
        intros x [?|E%list_elem_of_singleton]%elem_of_app; [apply elem_of_app; left; auto |]. subst x. apply elem_of_app. right. by left.
Qed.

(** * The calls *)

(** The keys of a call, and the replays it makes: the run each is beneath, whether
    it is beneath a system child of that, the user and the keys. *)
Definition call_replays (c : replay_call) : list (uuid * bool * uuid * list StatedKey) :=
  match c with
  | ReplayKeys p u ks => [(p, false, u, ks)]
  | SystemChild p l => map (fun uk => (p, true, uk.1, uk.2)) l
  end.

Definition replays (calls : list replay_call) : list (uuid * bool * uuid * list StatedKey) := concat (map call_replays calls).

Lemma replays_app l m : replays (l ++ m) = replays l ++ replays m.
Proof. unfold replays. by rewrite map_app, concat_app. Qed.

(** The system child of a call is needed, and serves one replay for each user. *)
Definition call_ok (owner : uuid -> option uuid) (c : replay_call) : Prop :=
  match c with
  | ReplayKeys p u _ => owner p = None \/ owner p = Some u
  | SystemChild p l => l <> [] /\ NoDup l.*1 /\ exists v, owner p = Some v /\ v ∉ l.*1
  end.

Lemma replays_user_keys parent ks (byUser : gmap uuid (list StatedKey)) users : (forall u, byUser !! u = match user_keys ks u with [] => None | l => Some l end) ->
  replays (map (fun u => ReplayKeys parent u (default [] (byUser !! u))) users) = map (fun u => (parent, false, u, user_keys ks u)) users.
Proof.
  intros Hb. unfold replays. rewrite map_map. simpl. induction users as [|u us IH]; [done |]. simpl. rewrite IH, Hb. by destruct (user_keys ks u).
Qed.

(** The replays beneath a run: those of its own user, then the others, which are
    beneath a system child of a user's run. *)
Lemma replays_beneath_ok parent owner ks p held : picked_keys held ks p ->
  let own := List.filter (fun u => bool_decide (owner parent = Some u)) (users_in ks) in
  let others := List.filter (fun u => negb (bool_decide (owner parent = Some u))) (users_in ks) in
  let calls := replays_beneath parent (owner parent) (pk_users p) (pk_byUser p) in
  replays calls = map (fun u => (parent, false, u, user_keys ks u)) own ++ map (fun u => (parent, bool_decide (owner parent <> None), u, user_keys ks u)) others /\
  Forall (call_ok owner) calls.
Proof.
  intros [_ Hu Hb]. cbv zeta. unfold replays_beneath. rewrite Hu. set (own := List.filter _ (users_in ks)). set (others := List.filter (fun u => negb _) (users_in ks)).
  rewrite replays_app, (replays_user_keys parent ks) by done. rewrite Forall_app.
  assert (Forall (call_ok owner) (map (fun u => ReplayKeys parent u (default [] (pk_byUser p !! u))) own)) as Hown.
  { apply Forall_map, Forall_forall. intros u [_ Hu'%bool_decide_eq_true]%elem_of_lfilter. by right. }
  destruct others as [|o os] eqn:Eo; [by split |]. rewrite <- Eo. destruct (owner parent) as [v|] eqn:Ev.
  - split.
    + f_equal. unfold replays. simpl. rewrite app_nil_r, !map_map. apply map_ext. intros u. simpl. rewrite Hb. by destruct (user_keys ks u).
    + split; [done |]. constructor; [| constructor]. simpl. rewrite <- list_fmap_compose. change (fst ∘ _) with (fun u : uuid => u). rewrite list_fmap_id.
      split; [by rewrite Eo |]. split; [apply NoDup_ListNoDup, List.NoDup_filter, NoDup_ListNoDup, NoDup_append_all |]. exists v. split; [done |].
      intros [_ Hn%negb_true_iff%bool_decide_eq_false]%elem_of_lfilter. congruence.
  - split; [by rewrite (replays_user_keys parent ks) by done |]. split; [done |]. apply Forall_map, Forall_forall. intros u _. by left.
Qed.

Section Facts.
Context (mics : MICMap) (owner : uuid -> option uuid) (except : uuid).

(** The key states a ticker of what was written, at a venue of its market. *)
Definition states_ticker (w : WrittenIdentifierFacts) (k : StatedKey) : Prop :=
  exists t i, t ∈ wf_Tickers w /\ i ∈ sk_Identifiers k /\ id_Type i = IdentifierTypeMicTicker /\
    id_Domain i ∈ Venues mics (mt_Market t) /\ id_Domain i <> ""%string /\ (mt_Value t = ""%string \/ id_Value i = mt_Value t).

(** A transaction of the key's user names the key. *)
Definition transacted (d : replay_db) (k : StatedKey) : Prop := exists t, t ∈ rp_txns d /\ kt_UserID t = sk_UserID k /\ kt_StatedKeyID t = sk_ID k.

Lemma has_txn_spec d k : has_txn d k = true <-> transacted d k.
Proof. unfold has_txn, transacted. rewrite existsb_elem. setoid_rewrite andb_true_iff. by setoid_rewrite bool_decide_eq_true. Qed.

(** The keys that new facts may name: no association, a transaction, a ticker of
    the facts, and no resolution by the run excepted. *)
Definition replayable (w : WrittenIdentifierFacts) (d : replay_db) (k : StatedKey) : Prop :=
  k ∈ map ks_Key (db_stated (rp_db d)) /\ sk_InstrID k = None /\ sk_ViaTickerID k = None /\ transacted d k /\ states_ticker w k /\
  ~ exists r, r ∈ db_resolutions (rp_db d) /\ rk_RunID r = except /\ rk_StatedKeyID r = sk_ID k.

(** Every market of the tickers has a venue. *)
Definition venues_known (w : WrittenIdentifierFacts) : Prop := forall t, t ∈ wf_Tickers w -> Venues mics (mt_Market t) <> [].

Lemma TickerProbes_ok ts : match TickerProbes mics ts with
  | Ok ps => (forall t, t ∈ ts -> Venues mics (mt_Market t) <> []) /\
      forall p, p ∈ ps <-> exists t v, t ∈ ts /\ v ∈ Venues mics (mt_Market t) /\ p = MkIdentifier IdentifierTypeMicTicker v (mt_Value t)
  | Err t => t ∈ ts /\ Venues mics (mt_Market t) = []
  end.
Proof.
  induction ts as [|t ts IH]; cbn [TickerProbes].
  - split; [by intros ? ?%elem_of_nil |]. intros p. rewrite elem_of_nil. split; [done | by intros (t & v & ?%elem_of_nil & _)].
  - destruct (Venues mics (mt_Market t)) as [|v vs] eqn:Ev; [split; [by left | done] |]. rewrite <- Ev. destruct (TickerProbes mics ts) as [ps|e]; cbn [res_map]; [| destruct IH; split; [by right | done]].
    destruct IH as [H1 H2]. split; [intros u [->|Hu]%elem_of_cons; [by rewrite Ev | auto] |].
    intros p. rewrite elem_of_app, H2, list_elem_of_fmap. split.
    + intros [(w & -> & Hw)|(u & w & Hu & Hw & ->)]; [exists t, w | exists u, w]; rewrite elem_of_cons; auto.
    + intros (u & w & [->|Hu]%elem_of_cons & Hw & ->); [left; by exists w | right; by exists u, w].
Qed.

Lemma listed_replayable w d ps k : TickerProbes mics (wf_Tickers w) = Ok ps -> k ∈ ListUnassociatedKeysStating ps except d <-> replayable w d k.
Proof.
  intros Hp. pose proof (TickerProbes_ok (wf_Tickers w)) as Hok. rewrite Hp in Hok. destruct Hok as [_ Hps].
  assert (existsb (fun p => probe_contained p (sk_Identifiers k)) ps = true <-> states_ticker w k) as Hst.
  { rewrite existsb_elem. unfold probe_contained, states_ticker. split.
    - intros (p & (t & v & Ht & Hv & ->)%Hps & (i & Hi & Hm)%existsb_elem). simpl in Hm. rewrite !andb_true_iff, orb_true_iff, negb_true_iff, !bool_decide_eq_true, bool_decide_eq_false in Hm.
      destruct Hm as [[[H1 H2] H3] H4]. exists t, i. rewrite H2. do 5 (split; [done |]). unfold IsDomain in H4. simpl in H4. rewrite andb_true_iff, bool_decide_eq_true in H4. tauto.
    - intros (t & i & Ht & Hi & H1 & H2 & H3 & H4). exists (MkIdentifier IdentifierTypeMicTicker (id_Domain i) (mt_Value t)). split; [apply Hps; by exists t, (id_Domain i) |].
      apply existsb_elem. exists i. split; [done |]. simpl. rewrite !andb_true_iff, orb_true_iff, negb_true_iff, !bool_decide_eq_true, bool_decide_eq_false.
      unfold IsDomain. simpl. rewrite andb_true_iff, negb_true_iff, bool_decide_eq_true, bool_decide_eq_false. tauto. }
  unfold ListUnassociatedKeysStating, replayable. rewrite elem_of_sort_func, elem_of_lfilter, !andb_true_iff, Hst, negb_true_iff, existsb_false, !bool_decide_eq_true, has_txn_spec.
  setoid_rewrite andb_false_iff. setoid_rewrite bool_decide_eq_false. split.
  - intros (H1 & ((((H2 & H3) & H4) & H5) & H6)). do 5 (split; [done |]). intros (r & Hr & E1 & E2). by destruct (H5 r Hr).
  - intros (H1 & H2 & H3 & H4 & H5 & H6). split; [done |]. split; [| done]. split; [done |]. intros r Hr. destruct (decide (rk_RunID r = except)); [| by left].
    right. intros E. apply H6. by exists r.
Qed.

(** What the loop has made: every key once, those of [st.1], each beneath the run
    that wrote a fact it may be named by. *)
Record facts_replayed (written : list (WrittenIdentifierFacts * replay_db)) (st : list uuid * list replay_call) : Prop := {
  fr_once : NoDup st.1;
  fr_keys : map sk_ID (concat (map snd (replays st.2))) ≡ₚ st.1;
  fr_replays p sys u ks : (p, sys, u, ks) ∈ replays st.2 -> ks <> [] /\ sys = negb (bool_decide (owner p = None) || bool_decide (owner p = Some u)) /\
    exists w d, (w, d) ∈ written /\ wf_Run w = p /\ Forall (fun k => sk_UserID k = u /\ replayable w d k) ks;
  fr_all w d k : (w, d) ∈ written -> venues_known w -> replayable w d k -> sk_ID k ∈ st.1;
  fr_calls : Forall (call_ok owner) st.2;
}.

Lemma facts_skipped written st w d : facts_replayed written st -> (venues_known w -> forall k, ~ replayable w d k) -> facts_replayed (written ++ [(w, d)]) st.
Proof.
  intros [H1 H2 H3 H4 H5] Hno. split; try done.
  - intros p sys u ks Hin. destruct (H3 p sys u ks Hin) as (Hne & Hs & w' & d' & Hw & Hr). split; [done |]. split; [done |]. exists w', d'. rewrite elem_of_app. by split; [left |].
  - intros w' d' k [Hw|[= -> ->]%list_elem_of_singleton]%elem_of_app Hv Hr; [by eapply H4 | by destruct (Hno Hv k)].
Qed.

Lemma concat_map_perm {A B} (f : A -> list B) l l' : l ≡ₚ l' -> concat (map f l) ≡ₚ concat (map f l').
Proof. rewrite <- !flat_map_concat_map. apply Permutation_flat_map. Qed.

(** The replays of one step hold each key picked once. *)
Lemma step_keys ks (f : uuid -> bool) (g : uuid -> uuid * bool * uuid * list StatedKey) (h : uuid -> uuid * bool * uuid * list StatedKey) :
  (forall u, (g u).2 = user_keys ks u) -> (forall u, (h u).2 = user_keys ks u) ->
  concat (map snd (map g (List.filter f (users_in ks)) ++ map h (List.filter (fun u => negb (f u)) (users_in ks)))) ≡ₚ ks.
Proof.
  intros Hg Hh. rewrite map_app, !map_map, concat_app, (map_ext _ _ Hg), (map_ext _ _ Hh), <- concat_app, <- map_app.
  transitivity (concat (map (user_keys ks) (users_in ks))); [apply concat_map_perm; by rewrite <- (filter_negb_perm f (users_in ks)) |].
  apply user_keys_all; [apply NoDup_append_all |]. intros k Hk. apply elem_of_append_all, list_elem_of_fmap. by exists k.
Qed.

Lemma facts_step written st w d : facts_replayed written st -> facts_replayed (written ++ [(w, d)]) (replay_written mics owner except st (w, d)).
Proof.
  intros Hst. unfold replay_written. simpl. pose proof (TickerProbes_ok (wf_Tickers w)) as Hok. destruct (TickerProbes mics (wf_Tickers w)) as [[|p0 ps]|e] eqn:Ep.
  - apply facts_skipped; [done |]. intros _ k (_ & _ & _ & _ & (t & i & Ht & _ & _ & Hi & _) & _). apply (not_elem_of_nil (MkIdentifier IdentifierTypeMicTicker (id_Domain i) (mt_Value t))), Hok. by exists t, (id_Domain i).
  - destruct Hst as [H1 H2 H3 H4 H5]. set (l := ListUnassociatedKeysStating _ _ _). destruct (pick_fold st.1 l H1) as (ks & Hp & Hnd & Hfrom & Hall). set (p := foldl pick _ l) in *.
    destruct (replays_beneath_ok (wf_Run w) owner ks p st.1 Hp) as [Hr Hc]. cbv zeta in Hr. split; cbn [fst snd].
    + by rewrite (pd_picked _ _ _ Hp).
    + rewrite (pd_picked _ _ _ Hp), replays_app, map_app, concat_app, map_app, H2. f_equiv. rewrite Hr. by rewrite step_keys.
    + intros q sys u kl Hin. rewrite replays_app, elem_of_app in Hin. destruct Hin as [Hin|Hin].
      * destruct (H3 q sys u kl Hin) as (Hne & Hs & w' & d' & Hw & Hrest). split; [done |]. split; [done |]. exists w', d'. rewrite elem_of_app. by split; [left |].
      * rewrite Hr, elem_of_app, !list_elem_of_fmap in Hin.
        assert (q = wf_Run w /\ kl = user_keys ks u /\ u ∈ users_in ks /\ sys = negb (bool_decide (owner q = None) || bool_decide (owner q = Some u))) as (-> & -> & Hu & Hs).
        { destruct Hin as [(v & [= -> -> -> ->] & [Hv Ho%bool_decide_eq_true]%elem_of_lfilter)|(v & [= -> -> -> ->] & [Hv Ho%negb_true_iff%bool_decide_eq_false]%elem_of_lfilter)]; repeat (split; [done |]).
          - by rewrite Ho, (bool_decide_eq_true_2 (Some v = Some v)), orb_true_r.
          - rewrite (bool_decide_eq_false_2 (owner (wf_Run w) = Some v)), orb_false_r by done. by rewrite bool_decide_not. }
        split; [by apply elem_of_users_in |]. split; [done |]. exists w, d. split; [apply elem_of_app; right; by left |]. split; [done |].
        apply Forall_forall. intros k [Hk Huk]%elem_of_user_keys. split; [done |]. apply (listed_replayable w d _ k Ep). by apply Hfrom.
    + intros w' d' k [Hw|[= -> ->]%list_elem_of_singleton]%elem_of_app Hv Hrep; rewrite (pd_picked _ _ _ Hp); [apply elem_of_app; left; by eapply H4 |].
      apply Hall. by apply (listed_replayable w d _ k Ep).
    + by apply Forall_app.
  - apply facts_skipped; [done |]. intros Hv. destruct Hok as [Ht Hno]. by destruct (Hv e Ht).
Qed.

Lemma replayFacts_ok written : facts_replayed written (foldl (replay_written mics owner except) ([], []) written).
Proof.
  induction written as [|[w d] written IH] using rev_ind.
  - split; simpl; [constructor | done | by intros ? ? ? ? ?%elem_of_nil | by intros ? ? ? ?%elem_of_nil | constructor].
  - rewrite foldl_app. simpl. by apply facts_step.
Qed.

End Facts.

(** ** The calls of each facts *)

Definition is_child (c : replay_call) : bool := match c with SystemChild _ _ => true | ReplayKeys _ _ _ => false end.

(** What the facts [w] replay, where the keys [before] were replayed for earlier
    facts: nothing where a market of theirs has no venue. Else one replay for each
    user with a key the facts may name that was not replayed, holding all such keys
    of the user, beneath the run that wrote the facts or beneath its one system
    child. *)
Record facts_calls (mics : MICMap) (owner : uuid -> option uuid) (except : uuid) (before : gset uuid) (w : WrittenIdentifierFacts) (d : replay_db) (calls : list replay_call) : Prop := {
  fa_none : ~ venues_known mics w -> calls = [];
  fa_users : NoDup (map (fun r => r.1.2) (replays calls));
  fa_child : (length (List.filter is_child calls) <= 1)%nat;
  fa_keys p sys u ks : (p, sys, u, ks) ∈ replays calls -> p = wf_Run w /\ sys = negb (bool_decide (owner p = None) || bool_decide (owner p = Some u)) /\ ks <> [] /\
    NoDup (map sk_ID ks) /\ forall k, k ∈ ks -> sk_UserID k = u /\ replayable mics except w d k /\ sk_ID k ∉ before;
  fa_all k : venues_known mics w -> replayable mics except w d k -> sk_ID k ∉ before ->
    exists p sys ks k', (p, sys, sk_UserID k', ks) ∈ replays calls /\ k' ∈ ks /\ sk_ID k' = sk_ID k /\
      (NoDup (map sk_ID (map ks_Key (db_stated (rp_db d)))) -> k' = k);
}.

(** The calls of several facts, in their order. *)
Inductive facts_in_order (mics : MICMap) (owner : uuid -> option uuid) (except : uuid) : gset uuid -> list (WrittenIdentifierFacts * replay_db) -> list replay_call -> Prop :=
  | in_order_nil before : facts_in_order mics owner except before [] []
  | in_order_cons before w d calls written rest : facts_calls mics owner except before w d calls ->
      facts_in_order mics owner except (before ∪ list_to_set (map sk_ID (concat (map snd (replays calls))))) written rest ->
      facts_in_order mics owner except before ((w, d) :: written) (calls ++ rest).

Lemma replays_beneath_child parent owner users byUser : (length (List.filter is_child (replays_beneath parent owner users byUser)) <= 1)%nat.
Proof.
  unfold replays_beneath. rewrite List.filter_app.
  assert (forall us, List.filter is_child (map (fun u => ReplayKeys parent u (default [] (byUser !! u))) us) = []) as Hno by (intros us; by induction us).
  rewrite Hno. destruct (List.filter _ users) as [|o os]; [simpl; lia |]. destruct owner; [simpl; lia |]. rewrite Hno. simpl. lia.
Qed.

(** One turn of the loop. *)
Lemma step_in_order mics owner except held cs w d : NoDup held ->
  exists held' calls, replay_written mics owner except (held, cs) (w, d) = (held', cs ++ calls) /\ NoDup held' /\ facts_calls mics owner except (list_to_set held) w d calls /\
    (list_to_set held' : gset uuid) = list_to_set held ∪ list_to_set (map sk_ID (concat (map snd (replays calls)))).
Proof.
  intros Hh. unfold replay_written. simpl. pose proof (TickerProbes_ok mics (wf_Tickers w)) as Hok.
  assert ((venues_known mics w -> forall k, ~ replayable mics except w d k) -> facts_calls mics owner except (list_to_set held) w d []) as Hskip.
  { intros Hno. split; try done; [constructor | simpl; lia | by intros ? ? ? ? ?%not_elem_of_nil |]. intros k Hv Hr. by destruct (Hno Hv k). }
  destruct (TickerProbes mics (wf_Tickers w)) as [[|p0 ps]|e] eqn:Ep.
  - exists held, []. rewrite app_nil_r. split; [done |]. split; [done |]. split; [| set_solver]. apply Hskip.
    intros _ k (_ & _ & _ & _ & (t & i & Ht & _ & _ & Hi & _) & _). apply (not_elem_of_nil (MkIdentifier IdentifierTypeMicTicker (id_Domain i) (mt_Value t))), Hok. by exists t, (id_Domain i).
  - set (l := ListUnassociatedKeysStating _ _ _). destruct (pick_fold held l Hh) as (ks & Hp & Hnd & Hfrom & Hall). set (p := foldl pick _ l) in *.
    destruct (replays_beneath_ok (wf_Run w) owner ks p held Hp) as [Hr _]. cbv zeta in Hr. set (calls := replays_beneath _ _ _ _) in *.
    assert (forall k, k ∈ l <-> replayable mics except w d k) as Hl by (intros k; by apply listed_replayable).
    assert (forall q sys u kl, (q, sys, u, kl) ∈ replays calls <-> u ∈ users_in ks /\ q = wf_Run w /\ kl = user_keys ks u /\
      sys = negb (bool_decide (owner (wf_Run w) = None) || bool_decide (owner (wf_Run w) = Some u))) as Hrep.
    { intros q sys u kl. rewrite Hr, elem_of_app, !list_elem_of_fmap. split.
      - intros [(v & [= -> -> -> ->] & [Hv Ho%bool_decide_eq_true]%elem_of_lfilter)|(v & [= -> -> -> ->] & [Hv Ho%negb_true_iff%bool_decide_eq_false]%elem_of_lfilter)]; do 3 (split; [done |]).
        + by rewrite Ho, (bool_decide_eq_true_2 (Some v = Some v)), orb_true_r.
        + rewrite (bool_decide_eq_false_2 (owner (wf_Run w) = Some v)), orb_false_r by done. by rewrite bool_decide_not.
      - intros (Hu & -> & -> & ->). destruct (decide (owner (wf_Run w) = Some u)) as [Ho|Ho]; [left | right]; exists u.
        + rewrite (bool_decide_eq_true_2 (owner (wf_Run w) = Some u)), orb_true_r by done. split; [done |]. apply elem_of_lfilter. by rewrite bool_decide_eq_true_2.
        + rewrite (bool_decide_eq_false_2 (owner (wf_Run w) = Some u)), orb_false_r by done. split; [by rewrite bool_decide_not |]. apply elem_of_lfilter. by rewrite bool_decide_eq_false_2. }
    exists (pk_picked p), calls. rewrite (pd_picked _ _ _ Hp). split; [done |]. split; [done |]. split.
    + apply NoDup_app in Hnd as (_ & Hdis & Hndk). split.
      * intros Hnv. destruct Hnv. intros t Ht. by apply Hok.
      * rewrite Hr, map_app, !map_map. simpl. rewrite !map_id.
        assert (NoDup (List.filter (fun u => bool_decide (owner (wf_Run w) = Some u)) (users_in ks) ++ List.filter (fun u => negb (bool_decide (owner (wf_Run w) = Some u))) (users_in ks))) as Hn; [| exact Hn].
        rewrite <- (filter_negb_perm (fun u => bool_decide (owner (wf_Run w) = Some u)) (users_in ks)). apply NoDup_append_all.
      * apply replays_beneath_child.
      * intros q sys u kl (Hu & -> & -> & ->)%Hrep. split; [done |]. split; [done |]. split; [by apply elem_of_users_in |]. split.
        { unfold user_keys. by apply NoDup_key_filter. }
        intros k [Hk Huk]%elem_of_user_keys. split; [done |]. split; [by apply Hl, Hfrom |]. rewrite elem_of_list_to_set. intros Hin. apply (Hdis _ Hin). by apply list_elem_of_fmap_2.
      * intros k Hv Hk Hn. rewrite elem_of_list_to_set in Hn. apply Hl in Hk as Hkl. destruct (proj1 (elem_of_app _ _ _) (Hall k Hkl)) as [?|(k' & E & Hk')%list_elem_of_fmap]; [done |].
        exists (wf_Run w), (negb (bool_decide (owner (wf_Run w) = None) || bool_decide (owner (wf_Run w) = Some (sk_UserID k')))), (user_keys ks (sk_UserID k')), k'. split; [apply Hrep; split; [| by repeat split] |].
        { apply elem_of_append_all, list_elem_of_fmap. by exists k'. }
        split; [by apply elem_of_user_keys |]. split; [done |]. intros Hids. destruct (proj1 (Hl k') (Hfrom k' Hk')) as (Hs' & _). destruct Hk as (Hs & _). by apply (NoDup_key sk_ID _ k' k Hids).
    + rewrite list_to_set_app_L. f_equal. apply list_to_set_perm_L. rewrite Hr. apply Permutation_map. symmetry. by apply step_keys.
  - exists held, []. rewrite app_nil_r. split; [done |]. split; [done |]. split; [| set_solver]. apply Hskip. intros Hv. destruct Hok as [Ht Hno]. by destruct (Hv e Ht).
Qed.

Lemma replayFacts_in_order mics owner except written : forall held cs, NoDup held ->
  exists calls, (foldl (replay_written mics owner except) (held, cs) written).2 = cs ++ calls /\ facts_in_order mics owner except (list_to_set held) written calls.
Proof.
  induction written as [|[w d] written IH]; intros held cs Hh; simpl.
  - exists []. rewrite app_nil_r. split; [done | constructor].
  - destruct (step_in_order mics owner except held cs w d Hh) as (held' & calls & -> & Hh' & Hc & Eset). destruct (IH held' (cs ++ calls) Hh') as (rest & -> & Hr).
    exists (calls ++ rest). split; [by rewrite app_assoc |]. apply in_order_cons; [done |]. by rewrite <- Eset.
Qed.

(** A call's runs are rows that the table admits, whatever other runs it holds. *)
Definition call_admitted (owner : uuid -> option uuid) (c : replay_call) : Prop :=
  let parent := match c with ReplayKeys p _ _ | SystemChild p _ => p end in
  forall (t : gmap uuid RunRow) id, owner parent = (t !! parent ≫= rr_UserID) -> is_Some (t !! parent) -> t !! id = None ->
  match c with
  | ReplayKeys p u _ => is_Some (CreateRun t id (Some u) RunKindReplayRun RunTriggerRun (Some p))
  | SystemChild p l => is_Some (CreateRun t id None RunKindReplayRun RunTriggerRun (Some p)) /\
      forall t' id' row u ks, (u, ks) ∈ l -> t' !! id = Some row -> rr_UserID row = None -> t' !! id' = None ->
        is_Some (CreateRun t' id' (Some u) RunKindReplayRun RunTriggerRun (Some id))
  end.

Lemma child_admitted (t : gmap uuid RunRow) id user p row : t !! p = Some row -> t !! id = None -> user = None \/ rr_UserID row = None \/ rr_UserID row = user ->
  is_Some (CreateRun t id user RunKindReplayRun RunTriggerRun (Some p)).
Proof.
  intros Hp Hid Hu. unfold CreateRun. rewrite bool_decide_eq_true_2 by done. unfold run_checks, parent_user_ok. simpl. rewrite Hp.
  assert (match user with Some u => match rr_UserID row with Some v => bool_decide (u = v) | None => true end | None => true end = true) as E.
  { destruct user as [u|]; [| done]. destruct (rr_UserID row) as [v|]; [| done]. destruct Hu as [?|[?|[= ->]]]; [done | done |]. by apply bool_decide_eq_true_2. }
  rewrite E. by eexists.
Qed.

Lemma call_ok_admitted owner c : call_ok owner c -> call_admitted owner c.
Proof.
  intros Hc t id Ho [row Hrow] Hid. destruct c as [p u ks|p l]; rewrite Hrow in Ho; simpl in Ho, Hc.
  - eapply child_admitted; [done | done |]. rewrite Ho in Hc. right. by destruct Hc; [left | right].
  - split; [eapply child_admitted; [done | done | by left] |]. intros t' id' row' u ks _ Hr Hn Hid'. eapply child_admitted; [done | done |]. right. by left.
Qed.

(** C28: new facts replay exactly the keys they may name, whatever happens between
    the listings of them: every key that has no association but a transaction, that
    states a ticker of the facts at a venue of its market and that the run excepted
    did not resolve, where each market of the facts' tickers has a venue; facts with
    a market that has none replay nothing. The facts are taken in order, and each
    makes one replay for each user with such keys, of all those of the user that no
    earlier facts replayed, so no key is replayed twice. A replay is beneath the run
    that wrote the facts where that is a system run or a run of the keys' user, and
    else beneath its system child, of which each facts have one at most, so the
    table of runs refuses no child. *)
Theorem replayFacts_spec mics owner except written : let calls := replayFacts mics owner except written in
  facts_in_order mics owner except ∅ written calls /\
  NoDup (map sk_ID (concat (map snd (replays calls)))) /\
  (forall p sys u ks, (p, sys, u, ks) ∈ replays calls -> ks <> [] /\ sys = negb (bool_decide (owner p = None) || bool_decide (owner p = Some u)) /\
    exists w d, (w, d) ∈ written /\ wf_Run w = p /\ Forall (fun k => sk_UserID k = u /\ replayable mics except w d k) ks) /\
  (forall w d k, (w, d) ∈ written -> venues_known mics w -> replayable mics except w d k -> exists k', k' ∈ concat (map snd (replays calls)) /\ sk_ID k' = sk_ID k) /\
  Forall (fun c => call_ok owner c /\ call_admitted owner c) calls.
Proof.
  destruct (replayFacts_ok mics owner except written) as [H1 H2 H3 H4 H5]. cbv zeta. fold (replayFacts mics owner except written) in *. split.
  { destruct (replayFacts_in_order mics owner except written [] [] NoDup_nil_2) as (calls & E & Ho). unfold replayFacts. by rewrite E. }
  split; [by rewrite H2 |]. split; [exact H3 |]. split.
  - intros w d k Hw Hv Hr. specialize (H4 w d k Hw Hv Hr). rewrite <- H2 in H4. apply list_elem_of_fmap in H4 as (k' & E & Hk'). by exists k'.
  - eapply Forall_impl; [exact H5 |]. intros c Hc. split; [done | by apply call_ok_admitted].
Qed.

(** * The start of a replay *)

(** A resolution of a key. *)
Definition resolves_key (d : replay_db) (k : StatedKey) (r : ResolutionKey) : Prop :=
  r ∈ db_resolutions (rp_db d) /\ rk_StatedKeyID r = sk_ID k /\ rk_UserID r = sk_UserID k.

Lemma later_fold l : forall best, (forall r, foldl later_run best l = Some r -> (r ∈ l \/ best = Some r) /\
    (forall b, best = Some b -> (rk_RunID b <= rk_RunID r)%N) /\ forall x, x ∈ l -> (rk_RunID x <= rk_RunID r)%N) /\
  (foldl later_run best l = None -> best = None /\ l = []).
Proof.
  induction l as [|x l IH]; intros best; simpl.
  - split; [| done]. intros r ->. split; [by right |]. split; [intros b [= ->]; lia | by intros ? ?%elem_of_nil].
  - destruct (IH (later_run best x)) as [H1 H2]. split.
    + intros r Hr. destruct (H1 r Hr) as (Hin & Hb & Hl). unfold later_run in Hin, Hb. destruct best as [b|].
      * destruct (N.ltb_spec (rk_RunID b) (rk_RunID x)).
        -- specialize (Hb x eq_refl). split; [left; rewrite elem_of_cons; destruct Hin as [?|[= ->]]; auto |]. split; [intros b' [= <-]; lia |].
           intros y [->|Hy]%elem_of_cons; [lia | auto].
        -- specialize (Hb b eq_refl). split; [rewrite elem_of_cons; tauto |]. split; [by intros b' [= <-] |]. intros y [->|Hy]%elem_of_cons; [lia | auto].
      * specialize (Hb x eq_refl). split; [left; rewrite elem_of_cons; destruct Hin as [?|[= ->]]; auto |]. split; [done |]. intros y [->|Hy]%elem_of_cons; [lia | auto].
    + intros Hn. destruct (H2 Hn) as [Hb _]. unfold later_run in Hb. destruct best as [b|]; [| done]. by destruct (_ <? _)%N.
Qed.

(** The latest resolution of a key is the one of the greatest run. *)
Lemma latest_ok d k : match latest d k with
  | Some r => resolves_key d k r /\ forall r', resolves_key d k r' -> (rk_RunID r' <= rk_RunID r)%N
  | None => forall r', ~ resolves_key d k r'
  end.
Proof.
  unfold latest. set (l := List.filter _ _).
  assert (forall r, r ∈ l <-> resolves_key d k r) as Hl by (intros r; unfold l, resolves_key; by rewrite elem_of_lfilter, andb_true_iff, !bool_decide_eq_true).
  destruct (later_fold l None) as [H1 H2]. destruct (foldl later_run None l) as [r|] eqn:E.
  - destruct (H1 r eq_refl) as ([Hin|[=]] & _ & Hle). split; [by apply Hl |]. intros r' Hr'. by apply Hle, Hl.
  - intros r' Hr'%Hl. destruct (H2 eq_refl) as [_ Hn]. rewrite Hn in Hr'. by apply elem_of_nil in Hr'.
Qed.

(** The keys that a scope selects of a source, by the queries. *)
Definition selected_key (entries : list Entry) (user source : uuid) (datasource : string) (d : replay_db) (k : StatedKey) : Prop :=
  exists r, r ∈ db_stated (rp_db d) /\ ks_Key r = k /\ sk_UserID k = user /\ in_source d source k = true /\ has_txn d k = true /\
  if bool_decide (datasource = ""%string) then rk_Outcome <$> latest d k = Some ResolutionOutcomeUnavailable
  else ks_Arbiter r <> Some ArbiterUser /\ sk_ViaTickerID k = None /\ uncovered (rp_db d) datasource k = true /\
    exists e s i, find_func (fun e => bool_decide (en_Name e = datasource)) entries = Some e /\ en_Identity e = Some s /\ sr_Serves s k = Ok i.

(** The source is a statement that states the key, or a run that resolved it. *)
Definition of_source (d : replay_db) (source : uuid) (k : StatedKey) : Prop :=
  (exists l, l ∈ rp_links d /\ Stmts.ln_StmtID l = source /\ Stmts.ln_UserID l = sk_UserID k /\ Stmts.ln_StatedKeyID l = sk_ID k) \/
  exists r, resolves_key d k r /\ rk_RunID r = source.

(** The resolution of the key by its greatest run left it unavailable. *)
Definition left_unavailable (d : replay_db) (k : StatedKey) : Prop :=
  exists r, latest d k = Some r /\ resolves_key d k r /\ (forall r', resolves_key d k r' -> (rk_RunID r' <= rk_RunID r)%N) /\
    rk_Outcome r = ResolutionOutcomeUnavailable.

(** The key has no instrument, or one that a fetch created and whose identity the
    datasource has not covered. *)
Definition identity_open (db : instr_db) (datasource : string) (k : StatedKey) : Prop :=
  sk_InstrID k = None \/ exists i r, sk_InstrID k = Some i /\ find_func (fun r => bool_decide (in_ID r = i)) (db_instrs db) = Some r /\
    in_FetchKeyID r <> None /\ ~ exists c, c ∈ db_coverage db /\ ic_InstrID c = i /\ ic_Datasource c = datasource.

(** The keys that a scope selects of a source: of the user, named by a transaction,
    and either left unavailable by the latest resolution of them, or, for a
    datasource that serves them, without an association or on an instrument whose
    identity it has not covered, unless the user arbitrated it. *)
Definition eligible (entries : list Entry) (user source : uuid) (datasource : string) (d : replay_db) (k : StatedKey) : Prop :=
  exists r, r ∈ db_stated (rp_db d) /\ ks_Key r = k /\ sk_UserID k = user /\ of_source d source k /\ transacted d k /\
  if decide (datasource = ""%string) then left_unavailable d k
  else ks_Arbiter r <> Some ArbiterUser /\ sk_ViaTickerID k = None /\ identity_open (rp_db d) datasource k /\
    exists e s i, find_func (fun e => bool_decide (en_Name e = datasource)) entries = Some e /\ en_Identity e = Some s /\ sr_Serves s k = Ok i.

Lemma in_source_spec d source k : in_source d source k = true <-> of_source d source k.
Proof.
  unfold in_source, of_source, resolves_key. rewrite orb_true_iff, !existsb_elem. repeat setoid_rewrite andb_true_iff. repeat setoid_rewrite bool_decide_eq_true.
  apply Morphisms_Prop.or_iff_morphism.
  - split; [intros (l & Hl & [? ?] & ?); by exists l | intros (l & Hl & ? & ? & ?); by exists l].
  - split; [intros (r & Hr & [? ?] & ?); by exists r | intros (r & (Hr & ? & ?) & ?); by exists r].
Qed.

Lemma uncovered_spec db datasource k : uncovered db datasource k = true <-> identity_open db datasource k.
Proof.
  unfold uncovered, identity_open. destruct (sk_InstrID k) as [i|]; [| naive_solver].
  destruct (find_func _ _) as [r|] eqn:Ef; [| split; [done | intros [?|(j & x & [= <-] & Hx & _)]; congruence]].
  rewrite andb_true_iff, !negb_true_iff, bool_decide_eq_false, existsb_false. split.
  - intros [Hk Hc]. right. exists i, r. split; [done |]. split; [done |]. split; [done |]. intros (c & Hin & E1 & E2). specialize (Hc c Hin). by rewrite !bool_decide_eq_true_2 in Hc.
  - intros [?|(j & x & [= <-] & Hx & Hk & Hc)]; [done |]. rewrite Ef in Hx. injection Hx as <-. split; [done |]. intros c Hin. apply andb_false_iff. rewrite !bool_decide_eq_false.
    destruct (decide (ic_InstrID c = i)); [right | by left]. intros E. apply Hc. by exists c.
Qed.

Lemma unavailable_spec d k : rk_Outcome <$> latest d k = Some ResolutionOutcomeUnavailable <-> left_unavailable d k.
Proof.
  unfold left_unavailable. pose proof (latest_ok d k) as Hl. split.
  - intros (r & Er & E)%fmap_Some. rewrite Er in Hl. destruct Hl as [H1 H2]. by exists r.
  - intros (r & -> & _ & _ & E). simpl. by rewrite E.
Qed.

Lemma eligible_spec entries user source datasource d k : selected_key entries user source datasource d k <-> eligible entries user source datasource d k.
Proof.
  unfold selected_key, eligible. setoid_rewrite in_source_spec. setoid_rewrite has_txn_spec.
  destruct (decide (datasource = ""%string)) as [E|E]; [rewrite (bool_decide_eq_true_2 _ E) | rewrite (bool_decide_eq_false_2 _ E)].
  - by setoid_rewrite unavailable_spec.
  - by setoid_rewrite uncovered_spec.
Qed.

Lemma unavailable_eligible entries user source d k : k ∈ ListUnavailableKeys user source d <-> eligible entries user source "" d k.
Proof.
  rewrite <- eligible_spec. unfold ListUnavailableKeys, selected_key. rewrite elem_of_sort_func, elem_of_lfilter, list_elem_of_fmap, !andb_true_iff, !bool_decide_eq_true, bool_decide_eq_true_2 by done. split.
  - intros ((r & -> & Hr) & ((H1 & H2) & H3) & H4). by exists r.
  - intros (r & Hr & <- & H1 & H2 & H3 & H4). split; [by exists r | done].
Qed.

Lemma uncovered_eligible entries user source datasource d e s k : datasource <> ""%string ->
  find_func (fun e => bool_decide (en_Name e = datasource)) entries = Some e -> en_Identity e = Some s ->
  k ∈ List.filter (fun k => match sr_Serves s k with Ok _ => true | Err _ => false end) (ListKeysUncoveredBy user source datasource d) <->
  eligible entries user source datasource d k.
Proof.
  intros Hne He Hs. rewrite <- eligible_spec. unfold ListKeysUncoveredBy, selected_key. rewrite elem_of_lfilter, elem_of_sort_func, list_elem_of_fmap, bool_decide_eq_false_2 by done.
  setoid_rewrite elem_of_lfilter. setoid_rewrite andb_true_iff. repeat setoid_rewrite andb_true_iff. repeat setoid_rewrite negb_true_iff.
  setoid_rewrite bool_decide_eq_true. setoid_rewrite bool_decide_eq_false. split.
  - intros [(r & -> & Hr & (((((H1 & H2) & H3) & H4) & H5) & H6)) Hok]. exists r. do 8 (split; [done |]). destruct (sr_Serves s (ks_Key r)) as [i|] eqn:Ei; [| done]. by exists e, s, i.
  - intros (r & Hr & <- & H1 & H2 & H3 & H4 & H5 & H6 & e' & s' & i & He' & Hs' & Hi). rewrite He in He'. injection He' as <-. rewrite Hs in Hs'. injection Hs' as <-.
    rewrite Hi. split; [| done]. by exists r.
Qed.

(** C29: a replay starts only from a run of a user that states or resolves keys, and
    by a datasource only where it is enabled and serves identity, with the error
    that says which fails. It takes exactly the keys that its scope selects, of that
    user alone, named by a transaction and stated or resolved by the source, and
    does not start where there are none; the run is the user's. A datasource selects
    the keys without an association, or on an instrument whose identity it has not
    covered, that it serves, but for one that the user arbitrated. Without a
    datasource the keys selected are all those whose latest resolution left them
    unavailable, whoever arbitrated them: one that the user arbitrated too, against
    the package's comment that such a key is never selected. *)
Theorem replay_start_spec entries admin source row datasource d : let r := replay_start entries admin source row datasource d in
  match rr_UserID row with
  | None => r = Err SystemSource
  | Some user =>
      if decide (rr_Kind row = RunKindIngestStmt \/ rr_Kind row = RunKindResolveStmtKeys) then
        match find_func (fun e => bool_decide (en_Name e = datasource)) entries with
        | None => datasource <> ""%string -> r = Err ErrDisabled
        | Some e => datasource <> ""%string -> en_Identity e = None -> r = Err ErrNoIdentity
        end /\
        (datasource = ""%string \/ (exists e s, find_func (fun e => bool_decide (en_Name e = datasource)) entries = Some e /\ en_Identity e = Some s) ->
          (r = Err ErrEmpty /\ forall k, ~ eligible entries user source datasource d k) \/
          exists keys, keys <> [] /\ r = Ok (Runs.MkSpec RunKindReplayRun RunTriggerAdministrator (Some user) "replay_run" true, MkReplay admin source datasource keys) /\
            forall k, k ∈ keys <-> eligible entries user source datasource d k)
      else r = Err ErrKind
  end.
Proof.
  cbv zeta. unfold replay_start, selectKeys. destruct (rr_UserID row) as [user|]; [| done].
  destruct (decide _) as [Hk|Hk]; [| by destruct (rr_Kind row); try done; exfalso; apply Hk; auto].
  set (some := fun out : list StatedKey => match out with [] => Err ErrEmpty | _ => Ok out end).
  assert (forall out, (forall k, k ∈ out <-> eligible entries user source datasource d k) ->
    let r := some out ≫= fun keys => Ok (Runs.MkSpec RunKindReplayRun RunTriggerAdministrator (Some user) "replay_run" true, MkReplay admin source datasource keys) in
    (r = Err ErrEmpty /\ forall k, ~ eligible entries user source datasource d k) \/
    exists keys, keys <> [] /\ r = Ok (Runs.MkSpec RunKindReplayRun RunTriggerAdministrator (Some user) "replay_run" true, MkReplay admin source datasource keys) /\
      forall k, k ∈ keys <-> eligible entries user source datasource d k) as Hout.
  { intros [|k0 out] Hkeys; [left; split; [done |]; intros k Hke%Hkeys; by apply elem_of_nil in Hke | right]. by exists (k0 :: out). }
  replace (match rr_Kind row with RunKindIngestStmt | RunKindResolveStmtKeys => _ | _ => Err ErrKind end) with
    (if bool_decide (datasource = ""%string) then some (ListUnavailableKeys user source d)
     else match find_func (fun e => bool_decide (en_Name e = datasource)) entries with
          | None => Err ErrDisabled
          | Some e => match en_Identity e with
                      | None => Err ErrNoIdentity
                      | Some s => some (List.filter (fun k => match sr_Serves s k with Ok _ => true | Err _ => false end) (ListKeysUncoveredBy user source datasource d))
                      end
          end) by by destruct Hk as [-> | ->].
  case_bool_decide as Hd.
  - subst datasource. split; [by destruct (find_func _ _) |]. intros _. apply Hout. intros k. apply unavailable_eligible.
  - destruct (find_func _ entries) as [e|] eqn:Ee.
    + destruct (en_Identity e) as [s|] eqn:Es.
      * split; [done |]. intros _. apply Hout. intros k. by eapply uncovered_eligible.
      * split; [done |]. intros [?|(e' & s & [= <-] & Es')]; [done | congruence].
    + split; [done |]. intros [?|(e' & s & ? & _)]; done.
Qed.

(** * The work of a replay *)

(** A row as a regroup leaves it: its group alone may be another. *)
Definition row_regrouped (g : GroupDB) (user : uuid) (r r' : StatedKeyRow) : Prop :=
  takes_group g user (ks_Key r) (ks_Key r') /\ r' = row_with_key r (ks_Key r').

Lemma replay_regroup_ok user d : exists d', replay_regroup user d = Some d' /\ Forall2 (row_regrouped (replay_groups d) user) (db_stated (rp_db d)) (db_stated (rp_db d')) /\
  exists rows, d' = rp_with_db (set_stated (fun _ => rows) (rp_db d)) d.
Proof.
  unfold replay_regroup. destruct (Regroup_takes (replay_groups d) user) as (g & -> & _ & Hf). simpl. eexists. split; [reflexivity |]. split; [| by eexists]. simpl.
  change (gdb_keys (replay_groups d)) with (map ks_Key (db_stated (rp_db d))) in Hf. revert Hf. generalize (gdb_keys g). induction (db_stated (rp_db d)) as [|r rows IH]; intros ks Hf; simpl in Hf; inversion_clear Hf; [constructor |].
  simpl. constructor; [done | by apply IH].
Qed.

(** The work of a replay always ends. Where its resolution does, it adds one
    resolution of each key, in order, and then gives each key of the user the group
    of the keys that remain without an instrument; nothing else changes after the
    resolution. Where the resolution fails, the groups stay as it left them. *)
Theorem replay_work_spec {E : Type} `{IdentityFetcher E} `{!FactsFetcher E} mics families entries stamp format_date uuid_string user child now keys d :
  stored_ok (rp_db d) -> families_ok families (rp_db d) -> Forall (fun e => en_Name e <> ""%string) entries ->
  let run := MkRun child (Some user) in
  let kds := map (fun k => MkKeyDates k []) keys in
  exists r, replay_work mics families entries stamp format_date uuid_string user child now keys d = Some r /\
    match r with
    | Unresolved e => Resolve mics families entries stamp format_date uuid_string run now (rp_txns d) kds (rp_db d) = Some e /\ forall out written db, e <> Resolved out written db
    | Replayed out written d' => exists db, Resolve mics families entries stamp format_date uuid_string run now (rp_txns d) kds (rp_db d) = Some (Resolved out written db) /\
        Forall2 (resolves mics families run (rp_txns d) user (rp_db d)) kds out /\ db_resolutions (rp_db d') = db_resolutions (rp_db d) ++ out /\
        Forall2 (row_regrouped (replay_groups (rp_with_db db d)) user) (db_stated db) (db_stated (rp_db d')) /\
        exists rows, d' = rp_with_db (set_stated (fun _ => rows) db) d
    end.
Proof.
  intros Hso Hfam Hnames run kds. destruct (Resolve_ok mics families entries stamp format_date uuid_string run user now (rp_txns d) kds (rp_db d) Hso Hfam Hnames eq_refl) as (r & Hr & Hres).
  unfold replay_work. fold run kds. rewrite Hr. cbn [mbind option_bind]. destruct r as [e|done e db|done e|out written db]; [by eexists (Unresolved _)..|].
  destruct Hres as [Hdb Hf]. destruct (replay_regroup_ok user (rp_with_db db d)) as (d' & -> & Hg & rows & ->). cbn [mbind option_bind]. eexists. split; [reflexivity |].
  exists db. split; [done |]. split; [done |]. split; [done |]. split; [exact Hg |]. by exists rows.
Qed.

(** The row of a replay is inserted in the caller, for any scope that is no
    datasource or one of the table. *)
Lemma replay_prepare_ok w run user d row source :
  rp_runs d !! run = Some row -> rr_UserID row = Some user -> rp_runs d !! re_source w = Some source -> rr_UserID source = Some user ->
  run ∉ map ry_ID (rp_replays d) -> user ∈ rp_users d -> re_admin w ∈ rp_users d -> re_scope w = ""%string \/ re_scope w ∈ rp_datasources d ->
  exists r, replay_prepare w run user d = Some (rp_with_replays (rp_replays d ++ [r]) d) /\ ry_ID r = run /\ ry_SourceID r = re_source w /\
    (ry_Datasource r = None <-> re_scope w = ""%string).
Proof.
  intros Hr Hu Hs Hsu Hn Hus Ha Hsc. unfold replay_prepare, CreateReplay. simpl. rewrite Hr, Hu, Hs, Hsu, (proj2 (contains_false _ _) Hn), !(proj2 (contains_true _ _)) by done.
  rewrite (bool_decide_eq_true_2 (Some user = Some user)) by done. simpl. case_bool_decide as E; simpl.
  - eexists. split; [reflexivity |]. simpl. split; [done |]. split; [done |]. split; auto.
  - destruct Hsc as [?|Hd]; [done |]. rewrite (proj2 (contains_true _ _) Hd). simpl. eexists. split; [reflexivity |]. simpl. split; [done |]. split; [done |]. split; [done | by intros ?].
Qed.

(** * Example *)

Module Example.

Definition ticker (mic value : string) : Identifier := MkIdentifier IdentifierTypeMicTicker mic value.

Definition stored (id user : uuid) (i : Identifier) (instr : option uuid) (arbiter : option Arbiter) : StatedKeyRow :=
  MkStatedKeyRow (MkStatedKey id user None None [i] instr None None None) None None None arbiter.

(** User 1 chose the instrument of key 13 while run 30 was waiting, which then
    found it unavailable. *)
Definition rows : list StatedKeyRow :=
  [stored 10 1 (ticker "XNAS" "FB") None None; stored 11 2 (ticker "XNGS" "FB") None None; stored 12 2 (ticker "XLON" "FB") None None;
   stored 13 1 (ticker "XNAS" "FB") (Some 5%N) (Some ArbiterUser); stored 14 3 (ticker "XNAS" "FB") None None].

Definition resolutions : list ResolutionKey :=
  [MkResolutionKey 29 1 13 ResolutionOutcomeMatched [] 0; MkResolutionKey 30 1 10 ResolutionOutcomeUnrecognised [] 0; MkResolutionKey 30 1 13 ResolutionOutcomeUnavailable [] 0].

Definition ex_instrs : instr_db := {|
  db_instrs := [MkInstrRow 5 AssetClassStock 1 None]; db_listings := []; db_identifiers := []; db_stated := rows; db_fetch := ∅; db_coverage := [];
  db_validity := ValidityStore.MkValidityDB [] [] [] ∅ ∅ ∅ [] []; db_findings := []; db_resolutions := resolutions; db_families := []; db_codes := [];
  db_next := 100; db_now := 0; db_deferred := false |}.

Definition ex_source : RunRow := MkRunRow (Some 1%N) RunKindResolveStmtKeys RunTriggerRun (Some 20%N) RunStateCompleted None None None.

Definition ex_db : replay_db := MkReplayDB ex_instrs [] [MkKeyTxn 1 10 0; MkKeyTxn 2 11 0; MkKeyTxn 2 12 0; MkKeyTxn 1 13 0; MkKeyTxn 3 14 0] {[30%N := ex_source]} [] [1; 2; 3; 9]%N [].

Definition ex_mics : MICMap := mic_Load [("XNAS", "XNAS", "US"); ("XNGS", "XNAS", "US"); ("XLON", "XLON", "GB")]%string.

(** Run 40 of user 2 wrote facts: its own key of the ticker is replayed beneath it,
    the keys of the others beneath one system child, and the second facts replay
    no key again. *)
Example facts_replayed_once : replays (replayFacts ex_mics (fun run => if bool_decide (run = 40%N) then Some 2%N else None) 41
    [(MkWritten 40 [MkMarketTicker "US" "FB"], ex_db); (MkWritten 40 [MkMarketTicker "US" "FB"; MkMarketTicker "GB" "FB"], ex_db)]) =
  [(40%N, false, 2%N, [ks_Key (stored 11 2 (ticker "XNGS" "FB") None None)]); (40%N, true, 1%N, [ks_Key (stored 10 1 (ticker "XNAS" "FB") None None)]);
   (40%N, true, 3%N, [ks_Key (stored 14 3 (ticker "XNAS" "FB") None None)]); (40%N, false, 2%N, [ks_Key (stored 12 2 (ticker "XLON" "FB") None None)])].
Proof. vm_compute. reflexivity. Qed.

(** The keys left unavailable are selected without regard to their arbiter. *)
Example arbitrated_selected : (fun r => map sk_ID (re_keys r.2)) <$> match replay_start [] 9 30 ex_source "" ex_db with Ok r => Some r | Err _ => None end = Some [13%N].
Proof. vm_compute. reflexivity. Qed.

End Example.
